(* ===== verification/_CoqProject ===== *)
-Q . S2P
Prelude.v
Breaker.v
Cell.v
BreakerConfig.v
CellFacts.v
CellSteps.v
Swrr.v
Store.v
StoreFacts.v
StoreProps.v
Budget.v
EventStream.v
EventStreamFacts.v
Windows.v
Cost.v
Ledger.v
CostFacts.v
LedgerFacts.v
LedgerProps.v
LedgerFlush.v
Select.v
SelectProps.v
Signing.v
Keys.v
KeysFacts.v
KeysProps.v
KeyMaterial.v
Walk.v
WalkSteps.v
WalkProps.v
Sse.v
SseFacts.v
SseProps.v
Ir.v
UsageStrip.v
Media.v
Translate.v
StreamDemo.v
IrSeam.v
TranslateFacts.v
TranslateProps.v
StreamClient.v
Body.v
BodyProps.v
Sigv4.v
Sigv4Facts.v
Sigv4Props.v
Sigv4Lane.v
AuthCache.v
AdminAudit.v
AdminState.v
Json.v
HookWire.v
Ranking.v
Headroom.v
Projection.v
Routing.v
RoutingProps.v
HookResolve.v
FrontDoor.v
FrontDoorProps.v
NetGuard.v
NetGuardProps.v
EgressAuth.v
Secrets.v
Topology.v
Boot.v
TopologyProps.v
BootProps.v
JsonTree.v
Anthropic.v
AnthropicProps.v
AnthropicStream.v
OpenAi.v
OpenAiStream.v
OpenAiProps.v
OpenAiRoundtrip.v
Deploy.v
Overlay.v
RuntimeConfig.v
