(* ===== verification/Prelude.v ===== *)
(** * Busbar: a verification development of the gateway's reliability, governance and streaming core

    Busbar (crates/busbar) is an AI gateway.  A request enters through a protocol handler, is
    authenticated to a virtual key, is admitted against the limits of the key's group chain, is
    dispatched to one of the lanes (model at a provider) of a pool, fails over when the upstream
    fails, its response is relayed or translated to the client's protocol, and its token usage is
    accrued and flushed to a durable store.  This library models the parts that decide: which
    credential is live, who is admitted, which lane serves, what a failure does to a lane, what the
    client reads, and what is counted.

    ** Parts, files and their counterparts under src/crates

    Lanes and their health:

    - Upstream error classifier, busbar/src/breaker.rs: file [Breaker].  [normalize_raw_error] and
      [classify]; the process-wide set of warned values is the state [Warnings].
    - Breaker cell, busbar/src/store/in_memory.rs and store/mod.rs: file [Cell] (data and
      transitions), [CellFacts] (cooldown bounds, trip rule, preservation of the invariant
      [cell_wf]), [CellSteps] (interleavings).  [BreakerCell.t] has the fields of the struct; each
      function that holds the cell's transition lock is one function on the record.
    - Breaker configuration, config/mod.rs, rule 6 of config_validate/mod.rs and the conversion in
      store/in_memory.rs: file [BreakerConfig].
    - Lane store, the rest of store/in_memory.rs: files [Swrr] (the smooth weighted round-robin
      arithmetic), [Store] (state and every operation of the trait), [StoreFacts] (invariant
      [store_wf], totality), [StoreProps] (selection, isolation, hard-down,
      counters, export and restore, stats).  [InMemoryStore.t] holds the lanes, the map of lazily
      created pool cells and the memoised shards.  A cell is reached by its (pool, lane) address,
      so that two handles to one cell are the same cell.
    - The request budget of a lane under contention (spend_budget, refund_budget): file [Budget], a
      small-step system of threads on one atomic with failing weak exchanges.
    - Lane selection for one request, proxy/select.rs: files [Select], [SelectProps].
      [RequestCtx.t] is the request context; [pick_among] runs on the store of [Store] and reads the
      clock, the semaphores and the outcome of its wait from [PickEnv.t] at numbered points.
    - Failover walk, proxy/engine (walk.rs and the loop, the fan-out and the exhaustion modes of
      mod.rs) and proxy/usage.rs: files [Walk] (the operations), [WalkSteps] (one
      attempt), [WalkProps] (the whole walk).  The upstream's replies, the clocks and a
      client that goes away are read from [WalkEnv].

    Routing before the walk:

    - The hook contract and its wire, api/src/hooks.rs and hooks/wire.rs: file [HookWire],
      over the JSON values of [Json]; a hook is a function of its request, candidates and context.
    - The built-in rankings, crates/hooks-ranking: file [Ranking].
    - The rate headroom they read and the metering delta, governance/state.rs: file [Headroom].
    - What a hook is shown and what a rewrite commits, proxy/hooks.rs: file [Projection].
    - Gates, policies and fallback chains, proxy/hooks.rs and the prefix of a forward in
      proxy/engine/mod.rs: files [Routing] ([forward_with_pool_parsed_inner] up to and with the walk
      of [Walk]) and [RoutingProps].
    - Resolution of configured hooks and their boot rules, hooks/mod.rs, config/mod.rs and
      config_validate/mod.rs: file [HookResolve].

    Credentials, money and limits:

    - Signed tokens, governance/signing.rs: file [Signing], over the class [TokenCrypto].
    - Virtual-key lifecycle, governance/state.rs, governance/mod.rs, api/src/store.rs and
      store-memory: files [Keys] (caches, denylist, every operation), [KeysFacts], [KeysProps],
      [KeyMaterial] (generated credentials and synthesized keys).  The durable store is the class
      [KeyStore], with the in-memory backend and a failing backend as instances.
    - AWS request signing, sigv4.rs, with the Bedrock ingress of auth/mod.rs, the lane signer of
      proto/bedrock and the signed path of proxy/egress.rs: files [Sigv4], [Sigv4Facts], [Sigv4Props],
      [Sigv4Lane] (outbound requests, a concrete hash), over the class [SigCrypto].
    - Authentication chain and verdict cache, auth/mod.rs and auth_cache.rs: file [AuthCache]; the
      middleware around it, with the admin plane, its scopes and the admin-tokens module (auth/mod.rs,
      admin/v1/contract, crates/auth-admin-tokens): files [FrontDoor] and [FrontDoorProps].
    - Outbound credentials, egress_auth and the header builders of proto: file
      [EgressAuth]; the OAuth libraries are the class [OAuthLibs].
    - Administration: the audit log, admin/audit.rs: file [AdminAudit]; the
      mutation limiter and the version log, admin/rate.rs and admin/versions.rs: file [AdminState].
    - Accounting windows, governance/mod.rs: file [Windows].
    - Cost model and group chains, cost.rs, config/groups.rs and the data of api/src/store.rs: files
      [Cost] and [CostFacts].
    - Token ledger and admission, governance/state.rs and governance/mod.rs: files [Ledger],
      [LedgerFacts], [LedgerProps] (admission), [LedgerFlush] (write-behind flush and hydration).
      [GovState.t] holds the budget cells, the sweep tickers of the shards and the in-flight gauges.
      The class [LedgerStore] is the ledger half of the [Store] trait with the two laws the engine
      relies on; the in-memory backend (store-memory/src/lib.rs) is its instance.

    Configuration:

    - The outbound address guard, net_guard.rs and config_validate/mod.rs: files [NetGuard], with the
      address parsing of the standard library, and [NetGuardProps].
    - Secret references, config/secret.rs: file [Secrets]; the environment and files are the class
      [Host].
    - Boot-time validation, config_validate/mod.rs over the data of config/mod.rs: files [Topology]
      ([validate_with_unset] whole, the breaker, hook and group rules being those of [BreakerConfig],
      [HookResolve] and [Cost]) and [TopologyProps].
    - From the operator's files to the resolved configuration, config/mod.rs: file [Deploy] ([DeployCfg],
      the desugaring of a pool's hooks, [resolve]).
    - The configuration overlay, config/overlay.rs and the version order of plugin-sign: file [Overlay];
      the file is a cell with a sibling temporary, its serialization the class [OverlaySerde].
    - Runtime configuration, admin/v1/service.rs, the handlers of admin/v1/json that change
      configuration and the boot sequence of main.rs: file [RuntimeConfig].  [World.t] holds the snapshot
      being served, the version log, the audit trail and the overlay file; [Op] and [step] run one handler
      under the mutation lock.
    - Building lanes, pools and routing tables, build_app_from_config of main.rs: files [Boot] and
      [BootProps]; the orders in which hash maps are read are arguments.

    Responses:

    - AWS event-stream framing, eventstream.rs: files [EventStream] and [EventStreamFacts].
    - Server-sent events, proto/mod.rs and the scan of proto/stream.rs: files [Sse], [SseFacts],
      [SseProps]; the Gemini JSON-array framer, proto/gemini/mod.rs: file [SseProps].
    - Streaming representation and protocol vtables, ir/mod.rs and proto/mod.rs: file [Ir], the
      classes [Reader], [Writer] and [StreamFraming]; the removal of a usage member from a raw frame:
      file [UsageStrip].
    - Stream translator, proto/stream.rs with the Bedrock framing: files [Translate], [TranslateFacts],
      [TranslateProps], [StreamClient]; [StreamDemo] has concrete protocols.
    - Chat requests and responses between two protocols, ir/mod.rs, ir/variant.rs and proto/mod.rs:
      file [IrSeam].
    - JSON trees as protocols read and write them, over the values of [Json]: file [JsonTree]; the text
      of a tree is the class [JsonText].
    - The Anthropic dialect, proto/anthropic: files [Anthropic] (requests and responses),
      [AnthropicStream] (events and errors, the instances of [Reader] and [Writer]), [AnthropicProps].
    - The Chat Completions dialect, proto/openai_chat, openai_family.rs and the image URLs of
      proto/mod.rs: files [OpenAi] (requests and responses), [OpenAiStream] (the decode state machine,
      the chunk writer and the framing, the instances of [Reader], [Writer] and [StreamFraming]),
      [OpenAiProps] (streams), [OpenAiRoundtrip] (requests and responses).
    - Media payloads, media.rs: file [Media].
    - Response body, proxy/response_body.rs, proxy/wire.rs and proxy/usage.rs: files [Body] (the
      [FirstByteBody] state machine over the classes [Translation] and [Framing], with the translator
      and the framer as instances), [BodyProps].

    How they interact: a forward runs the rewrite gates on the body, then the gates by priority, then
    the pool's policy ([Routing]), and walks what they leave of the candidates in the order they give;
    the store resolves a (pool, lane) address to a cell and runs a [Cell]
    transition on it ([on_cell]); selection filters by [lane_admissible] and [cell_ready_breaker]
    and picks with [Swrr]; [pick_among] selects, wins the probe, and takes a permit or releases the
    probe; the walk picks with [Select], classifies replies with [Breaker], reports them to [Store]
    and ends in an answer or in a stream, which is the start of a [Body]; the body feeds what it
    receives to a [Translation] or a [Framing] and emits the breaker reports, refunds and charges of
    the stream; the translator reads frames of [Sse] or [EventStream] through the interfaces of
    [Ir]; admission resolves the chain of the key with [Cost.chain_for], reads the windows of
    [Windows] and charges the cells of [Ledger]; the flush sends the deltas of those cells to a
    [LedgerStore].  The middleware of [FrontDoor] runs the chain of [AuthCache], verifies signatures
    with [Sigv4] and tokens with [Keys], and guards the admin plane with the limiter of [AdminState]
    and the log of [AdminAudit].  [Boot] builds, from a configuration [Topology] accepts, the lane data
    [Store] starts from and the tables the walk reads, and picks the credential of [EgressAuth] whose
    headers a lane sends.  [Deploy.resolve] makes that configuration from the files, [Overlay] merges into
    it what the admin API persisted, and [RuntimeConfig] derives the next snapshot from the live one with
    the registries of [HookResolve] and [Cost] and records it with [AdminState].

    ** Conventions

    Integers are [Z] and every operation that can leave the machine range is written with its wrap
    or saturation (this file).  Doubles are [SpecFloat] binary64 values.  A call that can panic
    returns an [option], [None] being the panic, sequenced by the notation [let?].  Clocks, cell
    addresses (which only seed the jitter), semaphore readings, CRC32, SHA-256, Ed25519, the entropy
    of the system and the JSON codec are arguments.  Text whose bytes matter is the list of its bytes.

    Loops that are not structural carry fuel, and each is proved never to run out: the header parser
    and the frame decoder take the length of their input (one more for the decoder), which every
    iteration shortens, and so do the scan of server-sent events (length plus one), the scanners of
    [UsageStrip] and the grouping [chunks_of]; the parent walk takes the number of groups, the bound
    the code itself uses; [parent_cycle] one more than the number of groups, which a path of distinct
    names cannot exceed; a pick one more than the number of candidates, as each retry excludes one;
    a fallback pool one more than its members, as each round excludes one, and the chain of
    exhaustion modes two more than the number of fallback pools ([exhaustion_fuel]), none of which is
    visited twice; a fallback chain of hooks one more than the size of the registry, as every round
    visits a gate not visited before; a walk over fallback pools two more than the number of pools, whose
    path is without repetition; the token refresher the seconds it is observed for plus two, as each pass
    takes at least one; the emission of one stream event is nested at most three deep.

    ** What the theorems show

    - Classification ([Breaker]): the cascade of early returns is the documented priority list; a 5xx
      is never excused as a context-length error; the HTTP table; warnings logged once.
    - One cell ([CellFacts], [CellSteps]): cooldowns under a validated configuration are total,
      non-zero and bounded, escalate with the streak and jitter within a tenth; the invariant holds
      under every interleaving; the recovery probe is single-flight between the events that end it, a
      checked release by a former owner is a no-op (an unchecked one is not:
      [straggler_release_frees_probe]), a cell is never benched for good, a recovery never erases a newer cooldown, and a
      trip is reported exactly when it happens.
    - The store ([Swrr], [StoreProps], [Budget]): exact proportional distribution;
      selection is round-robin over exactly the eligible members; no sequence of operations panics
      or breaks the invariant; failures stay in their pool's cell while a hard-down reaches every
      route; outcomes are counted once; exported health restores to itself and a restored store is
      safe; the request budget is a hard ceiling for any number of threads.
    - Picking ([SelectProps]): a pick completes; the lane it dispatches is a candidate that is not
      drained, not tried, admissible and admitted by its breaker; no probe is leaked on any exit,
      client disconnect included; a request that can be served is; compliance restricts hold on
      every hop.
    - The walk ([WalkProps]): it returns; a finished request holds no probe; attempts are bounded by
      the configured number and go only to permitted lanes; a lane's request budget is charged for
      answers only; a client that leaves while a probe is out leaves the lane refused through that
      pool ([disconnect_during_probe_benches_lane]).
    - Gates and policies ([RoutingProps], [HookWire], [Projection]): no lane outside the restrictions of
      a gate that fails closed is tried on any hop, and a rejection tries none; a reply of a hook that
      parses fails closed on malformed details, one that does not is an abstention; what the engine acts on is well formed whoever produced it; a hook
      sees only what it was granted; a rewrite reads back as written and every hop sends it.
    - Rankings and resolution ([Ranking], [Headroom], [HookResolve]): a built-in policy ranks every
      candidate once, best signal first; headroom is a fraction; accepted fallback chains resolve and
      both walks over them end.
    - Credentials ([KeysProps], [KeyMaterial]): the caches are a snapshot of the store; the
      revocation of a signed token outlives every later operation; an accepted token was minted, is unexpired and not revoked; a
      generated credential has its documented shape and keeps all its entropy.
    - Signatures ([Sigv4Props], [Sigv4Lane]): two requests accepted with one signature agree on method,
      path, query parameters, body, date, scope and signed headers unless the texts they signed collide; what a lane signs is
      accepted by the ingress; the fast path for plain paths equals the double encoding.
    - Authentication ([AuthCache]): a verdict served from the cache was put within its bounded lifetime
      and not flushed since, a rejection is never cached, the cache is bounded; with modules that
      answer the same for the lifetime they state, the cached front door equals the uncached one.
    - The front door ([FrontDoorProps]): on the admin plane only the configured operator token, or a role
      bound to a scope that suffices, gets through, within the mutation limit and with its denials on
      the log; a governed request that is let through carries an enabled key that its credential proves.
    - Outbound addresses and credentials ([NetGuardProps], [EgressAuth]): the expansion of alternate
      IPv4 spellings is inet_aton; for a URL that names its host plainly the guard blocks exactly the
      metadata addresses, however they are spelt, and what the operator listed; a lane never sends an expired minted token nor two credentials.
    - Configuration ([Secrets], [TopologyProps], [BootProps]): a plugin gets its settings with every
      reference resolved or is not opened; fallback chains of a validated configuration end, and so does
      the walk that checks them; a validated configuration boots into tables fit for the walk and the
      store, the same ones whatever order its maps are read in; lanes whose base URL names a host
      talk to that host, which validation saw.
    - Configuration at run time ([Deploy], [Overlay], [RuntimeConfig]): every inline hook gets a registry
      name of its own and the routing lists name it; a write to one section of the overlay touches no other and an
      unreadable file is never overwritten; a restart serves what was live before it, when
      no tombstone or retained version contradicts the files; a delegated token confers nothing it was not
      given, also by a settings push that overlaps other mutations.
    - Administration ([AdminAudit], [AdminState]): however writes to the durable store fail, what it
      holds is a prefix of the log that restores, over restarts that could read it; one write after an outage catches up; the last digest fixes
      the texts of the whole log; the limiter counts exactly; the version log is the last hundred.
    - Framing ([EventStreamFacts], [SseProps]): the event-stream decoder is total on every input and
      bounded in memory, independent of chunking, inverse to the encoder; exceptions survive;
      checksums are in place; written server-sent events read back; the JSON array is always closed
      and holds exactly the payloads.
    - Translation ([TranslateProps], [StreamClient], [IrSeam], [Media]): the output does not
      depend on how the upstream's bytes were cut; one protocol on both sides is byte-exact; the
      usage billed does not depend on the client's protocol and is the one shown; a Bedrock client
      gets one metadata frame; tool ids return to their originals; nothing of the source protocol
      reaches a foreign backend; base64 is RFC 4648.
    - Dialects ([AnthropicProps], [AnthropicStream], [OpenAiRoundtrip]): what is written in a dialect
      reads back unchanged, requests (but for the four things the chat writer settles), responses and
      events; a request translated from another dialect for Anthropic keeps rules its API enforces; an error drives the breaker the same way in a
      stream and as a response, billing apart.
    - Chat Completions streams ([OpenAiProps]): the blocks made up from a flat stream are well
      bracketed whatever the upstream sends, and share no index when it numbers its tool calls densely;
      a client sees one identity, tool calls numbered from zero and usage only where it asked.
    - The body ([BodyProps]): permits, budget units and usage are settled exactly once,
      a stream is billed or reported and never both, whatever the stream does and whenever the client
      leaves; the client reads exactly the translation, the body, or one closed array.
    - Money and limits ([Windows], [CostFacts], [LedgerProps], [LedgerFlush]): the calendar and the
      windows; exact, monotone, fail-closed spend; strictest limit per scope; chains reach every
      ancestor; admission is all-or-nothing; request caps are hard; gauges are exact; flushes
      that do not overlap account exactly once; a restart resumes the ledger.

    These theorems record where the code departs from its comments: [config_default_trip_is_degenerate],
    [recovery_reset_shifts_pool_sum], [disconnect_during_probe_benches_lane], the fee base in
    [hydration_resumes_ledger], [durable_mark_passes_hole], [query_is_encoded_again],
    [transform_reject_not_clamped], [null_content_counted_not_shown] and [validated_chain_is_keys]; the
    examples [bucket_id_collision], [cost_nanos_wraps], [separator_is_ambiguous],
    [revoked_key_still_signs], [revoked_secret_still_resolves], [straggler_release_frees_probe],
    [ungated_flush_counts_twice], [unread_table_is_overwritten], [malformed_order_loses_reject],
    [tab_hides_the_host], [rollback_past_tombstone_is_lost], [rollback_to_older_files_is_lost], [ceiling_confers_hooks], [pool_named_api], [slashes_hide_the_host],
    [scheme_only_base], [permit_panic], [last_second_not_early], [sparse_calls_collide],
    [format_not_verbatim], [directive_without_tools] and [billing_paths_differ] record limits of the cost
    model, the audit log, revocation, the probe, the final flush, hook replies, rollbacks, admin ceilings,
    validation, the token refresher and the dialects;
    [api_hook_stops_the_next_boot], [api_group_stops_the_next_boot], [edited_file_hook_is_ignored],
    [safe_mode_forgets_quarantined_hooks] and [settings_drop_version_pins] those of the overlay.

    ** Not modelled

    The Responses, Gemini, Bedrock and Cohere dialects read and write JSON as the two modelled ones do;
    they are used through the interfaces of [Ir].  The health prober, the lazily buffered body,
    the reading of YAML with its environment substitution and migrations, the read and key endpoints of the
    admin API with their JSON views, the auth section's endpoint and the vetting of the artifact of a plugin
    rollback are not modelled.  Tap hooks observe a request and are left out of [Routing].
    Weak-memory effects are not modelled: an action is atomic where the code holds a lock or uses one
    atomic operation.  HTTP, TLS, serde, databases, plugins' dynamic loading, metrics and tracing are
    outside: they do no more than call the parts above or carry bytes.

    This file holds the shared vocabulary: the panic-sequencing notation, machine integers with the
    tactic [mach_lia], and lemmas on lists, association lists, bits and sums. *)
From stdpp Require Import base gmap list strings.
From Stdlib Require Import ZArith Lia.

Declare Scope rust_scope.
Delimit Scope rust_scope with rust.

Open Scope Z_scope.

(** Sequencing of calls that may panic ([None]). *)
Notation "'let?' p := e 'in' k" := (match e with Some p => k | None => None end)
  (at level 200, p pattern, e at level 100, k at level 200) : rust_scope.
Open Scope rust_scope.

(** ** Machine integers.  A [u32], [u64], [u128] or [i64] is a [Z]; every operation of the source
    that can leave the range is written with one of the functions below. *)
Definition U32_MAX : Z := 4294967295.
Definition U64_MAX : Z := 18446744073709551615.
Definition I64_MAX : Z := 9223372036854775807.
Definition I64_MIN : Z := -9223372036854775808.

Definition wrap_u32 (z : Z) : Z := z mod 4294967296.
Definition wrap_u64 (z : Z) : Z := z mod 18446744073709551616.
Definition wrap_u128 (z : Z) : Z := z mod 340282366920938463463374607431768211456.
Definition wrap_i64 (z : Z) : Z :=
  (z + 9223372036854775808) mod 18446744073709551616 - 9223372036854775808.

(** [u64::saturating_add], [u64::saturating_sub], [i64::saturating_add]. *)
Definition sat_add_u64 (a b : Z) : Z := Z.min (a + b) U64_MAX.
Definition sat_sub_u64 (a b : Z) : Z := Z.max 0 (a - b).
Definition sat_add_i64 (a b : Z) : Z := Z.max I64_MIN (Z.min (a + b) I64_MAX).
Definition sat_mul_i64 (a b : Z) : Z := Z.max I64_MIN (Z.min (a * b) I64_MAX).

(** [Ord::clamp]: panics ([None]) when the bounds are crossed. *)
Definition clamp (lo hi x : Z) : option Z :=
  if lo <=? hi then Some (Z.max lo (Z.min hi x)) else None.

Definition is_u32 (z : Z) : Prop := 0 <= z <= U32_MAX.
Definition is_u64 (z : Z) : Prop := 0 <= z <= U64_MAX.
Definition is_i64 (z : Z) : Prop := I64_MIN <= z <= I64_MAX.

Create HintDb mach discriminated.
Create Rewrite HintDb mach.

(** [mach_lia] unfolds the machine-integer vocabulary and calls [lia]. *)
Ltac mach_lia :=
  unfold is_u32, is_u64, is_i64, sat_add_u64, sat_sub_u64, sat_add_i64, sat_mul_i64,
    U32_MAX, U64_MAX, I64_MAX, I64_MIN in *; lia.

Lemma wrap_u32_range z : is_u32 (wrap_u32 z).
Proof. unfold is_u32, wrap_u32, U32_MAX. pose proof (Z.mod_pos_bound z 4294967296). lia. Qed.

Lemma wrap_u64_range z : is_u64 (wrap_u64 z).
Proof.
  unfold is_u64, wrap_u64, U64_MAX. pose proof (Z.mod_pos_bound z 18446744073709551616). lia.
Qed.

Lemma wrap_u128_nonneg z : 0 <= wrap_u128 z.
Proof. unfold wrap_u128. apply Z.mod_pos_bound. lia. Qed.

Lemma wrap_i64_range z : is_i64 (wrap_i64 z).
Proof.
  unfold is_i64, wrap_i64, I64_MIN, I64_MAX.
  pose proof (Z.mod_pos_bound (z + 9223372036854775808) 18446744073709551616). lia.
Qed.

Lemma wrap_u64_id z : is_u64 z -> wrap_u64 z = z.
Proof. intros H. unfold wrap_u64. apply Z.mod_small. mach_lia. Qed.

Lemma wrap_u32_id z : is_u32 z -> wrap_u32 z = z.
Proof. intros H. unfold wrap_u32. apply Z.mod_small. mach_lia. Qed.

Lemma wrap_i64_id z : is_i64 z -> wrap_i64 z = z.
Proof.
  intros H. unfold wrap_i64. rewrite Z.mod_small; unfold is_i64, I64_MIN, I64_MAX in H; lia.
Qed.

Lemma sat_add_u64_range a b : is_u64 a -> is_u64 b -> is_u64 (sat_add_u64 a b).
Proof. mach_lia. Qed.

Lemma sat_sub_u64_range a b : is_u64 a -> is_u64 b -> is_u64 (sat_sub_u64 a b).
Proof. mach_lia. Qed.

Lemma clamp_Some lo hi x : lo <= hi -> clamp lo hi x = Some (Z.max lo (Z.min hi x)).
Proof. intros H. unfold clamp. apply Z.leb_le in H. by rewrite H. Qed.

Lemma clamp_bounds lo hi x y : clamp lo hi x = Some y -> lo <= y <= hi.
Proof. unfold clamp. destruct (Z.leb_spec lo hi); intros [= <-]. lia. Qed.

#[export] Hint Resolve wrap_u32_range wrap_u64_range wrap_i64_range
  sat_add_u64_range sat_sub_u64_range : mach.
#[export] Hint Rewrite wrap_u32_id wrap_u64_id wrap_i64_id using (by mach_lia) : mach.

(** ** Case analysis on boolean tests. *)
Ltac simpl_bool :=
  repeat match goal with
  | H : (_ && _)%bool = true |- _ => apply andb_true_iff in H as [??]
  | H : (_ || _)%bool = false |- _ => apply orb_false_iff in H as [??]
  | H : negb _ = true |- _ => apply negb_true_iff in H
  | H : negb _ = false |- _ => apply negb_false_iff in H
  | H : (_ =? _) = true |- _ => apply Z.eqb_eq in H
  | H : (_ =? _) = false |- _ => apply Z.eqb_neq in H
  | H : (_ <=? _) = true |- _ => apply Z.leb_le in H
  | H : (_ <=? _) = false |- _ => apply Z.leb_gt in H
  | H : (_ <? _) = true |- _ => apply Z.ltb_lt in H
  | H : (_ <? _) = false |- _ => apply Z.ltb_ge in H
  end.

(** ** Association lists searched front to back, as [Vec<(K, V)>] with [iter().find]. *)
Section Assoc.
Context {K V : Type} `{EqDecision K}.

Fixpoint assoc (k : K) (l : list (K * V)) : option V :=
  match l with
  | [] => None
  | (k', v) :: l' => if decide (k' = k) then Some v else assoc k l'
  end.

(** Write through the first entry with the key (an [Arc] reached by [find]). *)
Fixpoint assoc_set (k : K) (v : V) (l : list (K * V)) : list (K * V) :=
  match l with
  | [] => []
  | (k', v') :: l' => if decide (k' = k) then (k', v) :: l' else (k', v') :: assoc_set k v l'
  end.

Lemma assoc_app k l1 l2 :
  assoc k (l1 ++ l2) = match assoc k l1 with Some v => Some v | None => assoc k l2 end.
Proof. induction l1 as [|[k' v] l1 IH]; simpl; [done|]. by case_decide. Qed.

Lemma assoc_set_eq k v l : is_Some (assoc k l) -> assoc k (assoc_set k v l) = Some v.
Proof.
  induction l as [|[k' v'] l IH]; simpl; [by intros [??]|].
  case_decide as Hk; simpl; [by rewrite decide_True|]. rewrite decide_False by done. exact IH.
Qed.

Lemma assoc_set_ne k k' v l : k <> k' -> assoc k' (assoc_set k v l) = assoc k' l.
Proof.
  intros Hne. induction l as [|[k1 v1] l IH]; simpl; [done|].
  destruct (decide (k1 = k)) as [->|]; simpl.
  - by rewrite !decide_False.
  - rewrite IH. done.
Qed.

Lemma assoc_set_keys k v l : (assoc_set k v l).*1 = l.*1.
Proof. induction l as [|[k' v'] l IH]; csimpl; [done|]. case_decide; csimpl; by f_equal. Qed.

Lemma assoc_set_id k v l : assoc k l = Some v -> assoc_set k v l = l.
Proof.
  induction l as [|[k' v'] l IH]; simpl; [done|].
  case_decide; [by intros [= ->]|]. intros Hl. by rewrite IH.
Qed.

Lemma assoc_set_Forall (P : K * V -> Prop) k v l :
  Forall P l -> (forall k', k' = k -> P (k', v)) -> Forall P (assoc_set k v l).
Proof.
  intros Hl Hv. induction Hl as [|[k' v'] l ? ? IH]; simpl; [constructor|].
  case_decide; constructor; auto.
Qed.

Lemma assoc_elem k l v : assoc k l = Some v -> (k, v) ∈ l.
Proof.
  induction l as [|[k' v'] l IH]; simpl; [done|].
  case_decide as Hk; [intros [= ->]; subst; apply elem_of_cons; by left|].
  intros H. apply elem_of_cons. right. auto.
Qed.
End Assoc.

(** ** Sums over lists of integers. *)
Fixpoint Zsum (l : list Z) : Z := match l with [] => 0 | x :: l => x + Zsum l end.

Lemma Zsum_cons x l : Zsum (x :: l) = x + Zsum l.
Proof. done. Qed.

Lemma Zsum_app l1 l2 : Zsum (l1 ++ l2) = Zsum l1 + Zsum l2.
Proof. induction l1 as [|x l1 IH]; simpl; [done|]. rewrite IH. lia. Qed.

(** ** [slice::chunks]; every round takes [n] elements, so the length is fuel enough. *)
Fixpoint chunks_of {A} (fuel n : nat) (l : list A) : list (list A) :=
  match fuel, l with
  | _, [] => []
  | O, _ => []
  | S fuel, _ => take n l :: chunks_of fuel n (drop n l)
  end.

(** ** Bits: an addend below a multiple of a power of two. *)
Lemma land_low x v k : 0 <= k -> 0 <= v < 2 ^ k -> Z.land (x * 2 ^ k) v = 0.
Proof.
  intros Hk Hv. apply Z.bits_inj'. intros i Hi. rewrite Z.land_spec, Z.bits_0.
  destruct (Z.lt_ge_cases i k); [by rewrite Z.mul_pow2_bits_low by lia|].
  rewrite <- (Z.mod_small v (2 ^ k)) by lia. rewrite (Z.mod_pow2_bits_high v k i) by lia. apply andb_false_r.
Qed.

Lemma lor_add_low x v k : 0 <= k -> 0 <= v < 2 ^ k -> Z.lor (x * 2 ^ k) v = x * 2 ^ k + v.
Proof.
  intros Hk Hv. pose proof (land_low x v k Hk Hv) as E. rewrite Z.add_nocarry_lxor by exact E.
  symmetry. by apply Z.lxor_lor.
Qed.
