(* ===== verification/Breaker.v ===== *)
(** * Disposition of upstream errors (crates/busbar/src/breaker.rs)

    The two-stage pipeline that turns a raw upstream error into what the breaker does with it:
    [normalize_raw_error] (the provider's error map, the built-in context-length code, then the
    HTTP status) and [classify] (status class to disposition).  The process-wide set of warned
    error-map values is threaded as the [Warnings] state. *)
From stdpp Require Import base gmap strings.
From Stdlib Require Import ZArith Lia.
From S2P Require Import Prelude.
Open Scope Z_scope.

Definition HTTP_OVERLOADED : Z := 529.
Definition PROVIDER_CODE_CONTEXT_LENGTH : string := "context_length_exceeded".

Inductive StatusClass :=
| RateLimit | Overloaded | ServerError | Timeout | Network | Auth | Billing | ClientError
| ContextLength.

#[export] Instance StatusClass_eq_dec : EqDecision StatusClass.
Proof. solve_decision. Defined.

Module Disposition.
Inductive t := ClientFault | TransientUpstream | HardDown | ContextLength.
End Disposition.

Definition status_class_from_str (s : string) : option StatusClass :=
  if String.eqb s "rate_limit" then Some RateLimit
  else if String.eqb s "overloaded" then Some Overloaded
  else if String.eqb s "server_error" then Some ServerError
  else if String.eqb s "timeout" then Some Timeout
  else if String.eqb s "network" then Some Network
  else if String.eqb s "auth" then Some Auth
  else if String.eqb s "billing" then Some Billing
  else if String.eqb s "client_error" then Some ClientError
  else if String.eqb s "context_length" then Some ContextLength
  else None.

Record RawUpstreamError := mkRaw {
  http_status : Z;
  provider_code : option string;
  structured_type : option string;
  retry_after_secs : option Z
}.

Record CanonicalSignal := mkSignal {
  class : StatusClass;
  provider_signal : option string;
  retry_after : option Z
}.

Definition classify (sig : CanonicalSignal) : Disposition.t :=
  match class sig with
  | RateLimit | Overloaded | ServerError | Timeout | Network => Disposition.TransientUpstream
  | Auth | Billing => Disposition.HardDown
  | ClientError => Disposition.ClientFault
  | ContextLength => Disposition.ContextLength
  end.

(** The [SEEN] set and the warnings logged so far. *)
Record Warnings := mkWarnings { seen : gset string; logged : list string }.

Definition warn_unrecognized_error_map_value (w : Warnings) (value : string) : Warnings :=
  if decide (value ∈ seen w) then w
  else mkWarnings ({[value]} ∪ seen w) (logged w ++ [value]).

Definition is_5xx (status : Z) : bool := (500 <=? status) && (status <? 600).

(** The guard on a mapped class: [context_length] on a 5xx does not return early. *)
Definition context_length_guard (c : StatusClass) (status : Z) : bool :=
  negb (bool_decide (c = ContextLength) && is_5xx status).

(** Step 1: the provider code.  [inl sig] is an early return, [inr s] the provider signal carried
    on to the next steps. *)
Definition code_step (raw : RawUpstreamError) (error_map : gmap string string) (w : Warnings)
    : (CanonicalSignal + option string) * Warnings :=
  match provider_code raw with
  | None => (inr None, w)
  | Some code =>
      let builtin :=
        if String.eqb code PROVIDER_CODE_CONTEXT_LENGTH
             && ((http_status raw =? 400) || (http_status raw =? 413))
        then inl (mkSignal ContextLength (Some code) (retry_after_secs raw))
        else inr (Some code) in
      match error_map !! code with
      | None => (builtin, w)
      | Some mapped_class =>
          match status_class_from_str mapped_class with
          | Some c =>
              if context_length_guard c (http_status raw)
              then (inl (mkSignal c (Some code) (retry_after_secs raw)), w)
              else (builtin, w)
          | None => (builtin, warn_unrecognized_error_map_value w mapped_class)
          end
      end
  end.

(** Step 1b: the structured error type, when the code did not decide. *)
Definition type_step (raw : RawUpstreamError) (error_map : gmap string string)
    (provider_signal : option string) (w : Warnings) : option CanonicalSignal * Warnings :=
  match structured_type raw with
  | None => (None, w)
  | Some ty =>
      match error_map !! ty with
      | None => (None, w)
      | Some m =>
          match status_class_from_str m with
          | None => (None, warn_unrecognized_error_map_value w m)
          | Some c =>
              if context_length_guard c (http_status raw)
              then (Some (mkSignal c
                            (match provider_signal with Some s => Some s | None => Some ty end)
                            (retry_after_secs raw)), w)
              else (None, w)
          end
      end
  end.

(** Step 2: the HTTP status alone. *)
Definition status_class (http_status : Z) : StatusClass :=
  if (http_status =? 401) || (http_status =? 403) then Auth
  else if http_status =? 429 then RateLimit
  else if http_status =? 408 then Timeout
  else if http_status =? HTTP_OVERLOADED then Overloaded
  else if (500 <=? http_status) && (http_status <? 600) then ServerError
  else if (400 <=? http_status) && (http_status <? 500) then ClientError
  else ClientError.

Definition normalize_raw_error (raw : RawUpstreamError) (error_map : gmap string string)
    (w : Warnings) : CanonicalSignal * Warnings :=
  match code_step raw error_map w with
  | (inl sig, w1) => (sig, w1)
  | (inr ps, w1) =>
      match type_step raw error_map ps w1 with
      | (Some sig, w2) => (sig, w2)
      | (None, w2) => (mkSignal (status_class (http_status raw)) ps (retry_after_secs raw), w2)
      end
  end.

(** ** Lemmas on the steps *)
Lemma guard_5xx c status :
  is_5xx status = true -> context_length_guard c status = true -> c <> ContextLength.
Proof. intros H5 Hg ->. unfold context_length_guard in Hg. by rewrite H5 in Hg. Qed.

Lemma status_class_not_ctx status : status_class status <> ContextLength.
Proof. unfold status_class. by repeat case_match. Qed.

Lemma code_step_5xx raw em w sig w' :
  is_5xx (http_status raw) = true -> code_step raw em w = (inl sig, w') ->
  class sig <> ContextLength.
Proof.
  intros H5. unfold code_step. destruct (provider_code raw) as [code|]; [|done].
  assert (((http_status raw =? 400) || (http_status raw =? 413)) = false) as Hb.
  { unfold is_5xx in H5. simpl_bool. apply orb_false_iff. lia. }
  rewrite Hb, andb_false_r.
  repeat case_match; intros [= <- <-]; simplify_eq; simpl; eauto using guard_5xx.
Qed.

Lemma type_step_5xx raw em ps w sig w' :
  is_5xx (http_status raw) = true -> type_step raw em ps w = (Some sig, w') ->
  class sig <> ContextLength.
Proof.
  intros H5. unfold type_step. repeat case_match; intros [= <- <-]; simpl; eauto using guard_5xx.
Qed.

(** Well-formed warnings: every logged value is in the set and no value is logged twice. *)
Definition warnings_wf (w : Warnings) : Prop :=
  NoDup (logged w) /\ forall v, v ∈ logged w <-> v ∈ seen w.

Lemma warn_wf w v : warnings_wf w -> warnings_wf (warn_unrecognized_error_map_value w v).
Proof.
  intros [Hnd Heq]. unfold warn_unrecognized_error_map_value. case_decide as Hin; [done|].
  split; simpl.
  - apply NoDup_app. split; [done|]. split; [|apply NoDup_singleton].
    intros x Hx ->%list_elem_of_singleton. by apply Hin, Heq.
  - intros x. rewrite elem_of_app, list_elem_of_singleton, Heq. set_solver.
Qed.

Lemma normalize_wf raw em w : warnings_wf w -> warnings_wf (normalize_raw_error raw em w).2.
Proof.
  intros Hw. unfold normalize_raw_error, code_step, type_step.
  repeat case_match; simplify_eq; simpl; auto using warn_wf.
Qed.

(** ** Reference: the documented priority list, as a relation *)

(** The text by which an error map names a class (docs: the values of [error_map]). *)
Definition class_text (c : StatusClass) : string :=
  match c with
  | RateLimit => "rate_limit" | Overloaded => "overloaded" | ServerError => "server_error" | Timeout => "timeout"
  | Network => "network" | Auth => "auth" | Billing => "billing" | ClientError => "client_error"
  | ContextLength => "context_length"
  end.

(** A mapped class counts, unless it would excuse a 5xx as a request that is too long. *)
Definition counts (status : Z) (c : StatusClass) : Prop := c = ContextLength -> ~ 500 <= status < 600.

Definition mapped (em : gmap string string) (status : Z) (key : option string) (c : StatusClass) : Prop :=
  exists k, key = Some k /\ em !! k = Some (class_text c) /\ counts status c.

Definition unmapped (em : gmap string string) (status : Z) (key : option string) : Prop :=
  forall c, ~ mapped em status key c.

Definition too_long (raw : RawUpstreamError) : Prop :=
  provider_code raw = Some "context_length_exceeded" /\ (http_status raw = 400 \/ http_status raw = 413).

(** The table of HTTP statuses. *)
Inductive by_status : Z -> StatusClass -> Prop :=
| St401 : by_status 401 Auth
| St403 : by_status 403 Auth
| St429 : by_status 429 RateLimit
| St408 : by_status 408 Timeout
| St529 : by_status 529 Overloaded
| St5xx s : 500 <= s < 600 -> s <> 529 -> by_status s ServerError
| StOther s : ~ 500 <= s < 600 -> s ∉ [401; 403; 408; 429] -> by_status s ClientError.

(** First the provider's code as the operator maps it, then the code every provider shares for a prompt that
    is too long, then the error type as the operator maps it, then the status; the signal is the code, or
    the type that decided in its absence. *)
Inductive priority_list (raw : RawUpstreamError) (em : gmap string string) : CanonicalSignal -> Prop :=
| ByCode c :
    mapped em (http_status raw) (provider_code raw) c ->
    priority_list raw em (mkSignal c (provider_code raw) (retry_after_secs raw))
| ByLength :
    unmapped em (http_status raw) (provider_code raw) -> too_long raw ->
    priority_list raw em (mkSignal ContextLength (provider_code raw) (retry_after_secs raw))
| ByType c :
    unmapped em (http_status raw) (provider_code raw) -> ~ too_long raw ->
    mapped em (http_status raw) (structured_type raw) c ->
    priority_list raw em
      (mkSignal c (if provider_code raw then provider_code raw else structured_type raw) (retry_after_secs raw))
| ByStatus c :
    unmapped em (http_status raw) (provider_code raw) -> ~ too_long raw ->
    unmapped em (http_status raw) (structured_type raw) -> by_status (http_status raw) c ->
    priority_list raw em (mkSignal c (provider_code raw) (retry_after_secs raw)).

Lemma class_text_parses s c : status_class_from_str s = Some c <-> s = class_text c.
Proof.
  split; [|by intros ->; destruct c]. unfold status_class_from_str.
  repeat match goal with |- context [String.eqb s ?k] => destruct (String.eqb_spec s k) as [->|] end;
    by intros [= <-].
Qed.

Lemma counts_guard status c : counts status c <-> context_length_guard c status = true.
Proof.
  unfold counts, context_length_guard, is_5xx. rewrite negb_true_iff, andb_false_iff, bool_decide_eq_false, andb_false_iff,
    Z.leb_gt, Z.ltb_ge. split; [|intros [|] ?; [done|lia]].
  intros H. destruct (decide (c = ContextLength)) as [E|]; [|by left]. specialize (H E). right. lia.
Qed.

Lemma by_status_total status : by_status status (status_class status).
Proof.
  unfold status_class, HTTP_OVERLOADED.
  repeat match goal with |- context [Z.eqb status ?k] => destruct (Z.eqb_spec status k) as [->|]; [constructor|]; cbn [orb] end.
  assert (status ∉ [401; 403; 408; 429]) as Hn
    by (rewrite !not_elem_of_cons; repeat split; try done; apply not_elem_of_nil).
  destruct (decide (500 <= status < 600)) as [H|H].
  - replace ((500 <=? status) && (status <? 600)) with true by lia. by apply St5xx.
  - replace ((500 <=? status) && (status <? 600)) with false by lia. destruct (_ && _); by apply StOther.
Qed.

Lemma by_status_unique status c c' : by_status status c -> by_status status c' -> c = c'.
Proof.
  destruct 1; inversion 1; subst; try done; try lia;
    repeat match goal with H : _ ∉ _ |- _ => rewrite !not_elem_of_cons in H; destruct_and? H end; done.
Qed.

Lemma mapped_unique em status key c c' : mapped em status key c -> mapped em status key c' -> c = c'.
Proof.
  intros (k & -> & E & _) (k' & [= <-] & E' & _). rewrite E in E'. injection E' as E'.
  apply class_text_parses in E'. destruct c; simpl in E'; by injection E'.
Qed.

(** What a look-up in the map decides, as the code reads it. *)
Definition mapped_class (em : gmap string string) (status : Z) (key : option string) : option StatusClass :=
  k ← key; m ← em !! k; c ← status_class_from_str m;
  if context_length_guard c status then Some c else None.

Lemma mapped_class_spec em status key c : mapped_class em status key = Some c <-> mapped em status key c.
Proof.
  unfold mapped_class, mapped. split.
  - destruct key as [k|]; [|done]. simpl. destruct (em !! k) as [m|] eqn:E; [|done]. simpl.
    destruct (status_class_from_str m) as [c'|] eqn:Ep; [|done]. simpl.
    destruct (context_length_guard c' status) eqn:Eg; [|done]. intros [= <-].
    exists k. split; [done|]. apply class_text_parses in Ep as <-. split; [done|]. by apply counts_guard.
  - intros (k & -> & E & Hc). simpl. rewrite E. simpl. assert (status_class_from_str (class_text c) = Some c) as ->
      by (by apply class_text_parses). simpl. apply counts_guard in Hc. by rewrite Hc.
Qed.

Lemma unmapped_spec em status key : unmapped em status key <-> mapped_class em status key = None.
Proof.
  unfold unmapped. split.
  - intros H. destruct (mapped_class em status key) as [c|] eqn:E; [|done]. apply mapped_class_spec in E. by destruct (H c).
  - intros E c Hm%mapped_class_spec. congruence.
Qed.

Definition too_long_b (raw : RawUpstreamError) : bool :=
  bool_decide (provider_code raw = Some PROVIDER_CODE_CONTEXT_LENGTH) && ((http_status raw =? 400) || (http_status raw =? 413)).

Lemma too_long_spec raw : too_long raw <-> too_long_b raw = true.
Proof. unfold too_long, too_long_b. by rewrite andb_true_iff, orb_true_iff, !Z.eqb_eq, bool_decide_eq_true. Qed.

Lemma code_step_reads raw em w :
  (code_step raw em w).1 =
    match mapped_class em (http_status raw) (provider_code raw) with
    | Some c => inl (mkSignal c (provider_code raw) (retry_after_secs raw))
    | None => if too_long_b raw then inl (mkSignal ContextLength (provider_code raw) (retry_after_secs raw))
              else inr (provider_code raw)
    end.
Proof.
  unfold code_step, mapped_class, too_long_b. destruct (provider_code raw) as [code|]; simpl; [|done].
  assert (String.eqb code PROVIDER_CODE_CONTEXT_LENGTH = bool_decide (Some code = Some PROVIDER_CODE_CONTEXT_LENGTH)) as ->.
  { destruct (String.eqb_spec code PROVIDER_CODE_CONTEXT_LENGTH) as [->|]; [by rewrite bool_decide_true|].
    rewrite bool_decide_false; [done|]. by intros [= ->]. }
  destruct (em !! code) as [m|]; simpl; [|done].
  destruct (status_class_from_str m) as [c|]; simpl; [|done]. by destruct (context_length_guard _ _).
Qed.

Lemma type_step_reads raw em ps w :
  (type_step raw em ps w).1 =
    (fun c => mkSignal c (if ps then ps else structured_type raw) (retry_after_secs raw)) <$>
      mapped_class em (http_status raw) (structured_type raw).
Proof.
  unfold type_step, mapped_class. destruct (structured_type raw) as [ty|]; simpl; [|done].
  destruct (em !! ty) as [m|]; simpl; [|done].
  destruct (status_class_from_str m) as [c|]; simpl; [|done]. destruct (context_length_guard _ _); [|done]. by destruct ps.
Qed.

Lemma priority_list_unique raw em sig sig' : priority_list raw em sig -> priority_list raw em sig' -> sig = sig'.
Proof.
  destruct 1; destruct 1;
    repeat match goal with
    | H : unmapped _ _ ?k, M : mapped _ _ ?k _ |- _ => by destruct (H _ M)
    | M : mapped _ _ ?k ?c, M' : mapped _ _ ?k ?c' |- _ => rewrite (mapped_unique _ _ _ _ _ M M'); clear M'
    | M : by_status _ ?c, M' : by_status _ ?c' |- _ => rewrite (by_status_unique _ _ _ M M'); clear M'
    end; done.
Qed.

Lemma normalize_in_list raw em w : priority_list raw em (normalize_raw_error raw em w).1.
Proof.
  unfold normalize_raw_error. pose proof (code_step_reads raw em w) as Hc. destruct (code_step raw em w) as [d w1]. simpl in Hc.
  destruct (mapped_class em (http_status raw) (provider_code raw)) as [c|] eqn:Em.
  { subst d. apply ByCode. by apply mapped_class_spec. }
  apply unmapped_spec in Em. pose proof (too_long_spec raw) as Hl. destruct (too_long_b raw).
  { subst d. apply ByLength; [done|by apply Hl]. }
  assert (~ too_long raw) as Hn by (intros H%Hl; done). subst d.
  pose proof (type_step_reads raw em (provider_code raw) w1) as Ht.
  destruct (type_step raw em (provider_code raw) w1) as [o w2]. simpl in Ht.
  destruct (mapped_class em (http_status raw) (structured_type raw)) as [c|] eqn:Et; subst o; simpl.
  - apply ByType; [done..|]. by apply mapped_class_spec.
  - apply ByStatus; [done..|by apply unmapped_spec|apply by_status_total].
Qed.

(** ** Theorems *)

(** C40.  The imperative cascade of early returns computes the documented priority list: the signal it makes of
    an error is the only one the list allows, with its class, the code or type reported with it and
    the upstream's [Retry-After].  In order: what the operator's error map says of the provider's code; the
    common code for a prompt that is too long, on a 400 or 413 only; what the map says of the error
    type; the table of HTTP statuses; a mapping that would excuse a 5xx as a long prompt is passed over. *)
Theorem normalize_raw_error_refines_priority_list raw em w sig :
  (normalize_raw_error raw em w).1 = sig <-> priority_list raw em sig.
Proof. split; [intros <-; apply normalize_in_list|]. apply priority_list_unique, normalize_in_list. Qed.

(** A 5xx is never turned into the no-penalty context-length disposition, whatever the body,
    the provider code or the operator's error map say. *)
Theorem context_length_never_masks_5xx raw em w :
  is_5xx (http_status raw) = true ->
  classify (normalize_raw_error raw em w).1 <> Disposition.ContextLength.
Proof.
  intros H5 Hcl.
  assert (class (normalize_raw_error raw em w).1 <> ContextLength) as Hn.
  { unfold normalize_raw_error.
    destruct (code_step raw em w) as [[sig|ps] w1] eqn:Hc; [by eapply code_step_5xx|].
    destruct (type_step raw em ps w1) as [[sig|] w2] eqn:Ht; [by eapply type_step_5xx|].
    apply status_class_not_ctx. }
  unfold classify in Hcl. by destruct (class _).
Qed.

Lemma context_length_never_masks_5xx_witness :
  classify (normalize_raw_error (mkRaw 503 (Some "1234") (Some "ctx") None)
              {[ "1234" := "context_length"; "ctx" := "context_length" ]}
              (mkWarnings ∅ [])).1 <> Disposition.ContextLength.
Proof. apply context_length_never_masks_5xx. vm_compute. reflexivity. Defined.

(** Without an operator mapping and without the built-in code, the disposition is the HTTP
    table: 401/403 hard-down, 408/429/5xx transient, everything else the caller's fault. *)
Theorem unmapped_disposition_by_status status ty ra w :
  classify (normalize_raw_error (mkRaw status None ty ra) ∅ w).1 =
    (if (status =? 401) || (status =? 403) then Disposition.HardDown
     else if (status =? 408) || (status =? 429) || is_5xx status then Disposition.TransientUpstream
     else Disposition.ClientFault).
Proof.
  unfold normalize_raw_error, code_step, type_step, classify, status_class, is_5xx, HTTP_OVERLOADED.
  destruct ty; simpl; rewrite ?lookup_empty; simpl;
    repeat (case_match; simpl_bool; simpl; try lia; try done).
Qed.

(** Over any sequence of upstream errors the misconfiguration warning is logged at most once
    per distinct error-map value. *)
Theorem error_map_warning_logged_once (es : list RawUpstreamError) em :
  NoDup (logged (foldl (fun w e => (normalize_raw_error e em w).2) (mkWarnings ∅ []) es)).
Proof.
  assert (forall w, warnings_wf w ->
            warnings_wf (foldl (fun w e => (normalize_raw_error e em w).2) w es)) as Hf.
  { induction es as [|e es IH]; simpl; auto using normalize_wf. }
  apply Hf. split; simpl; [constructor|set_solver].
Qed.
