(* ===== verification/Cell.v ===== *)
(** * Breaker cells (crates/busbar/src/store/in_memory.rs, store/mod.rs)

    The circuit-breaker state machine of one cell: the sliding outcome window, the trip decision,
    the escalating jittered cooldown and the transitions.  The source runs each transition under
    the cell's transition lock, so a transition is one atomic function on the record
    [BreakerCell.t]; [CellSteps] (file CellSteps.v) interleaves them.

    The wall clock in nanoseconds and the cell's address, which only seed the jitter, are the
    arguments [time_seed] and [cell_id].  [None] is a panic ([u64::clamp] with crossed bounds). *)
From stdpp Require Import base list.
From Stdlib Require Import ZArith Lia Floats.SpecFloat.
From S2P Require Import Prelude.
Open Scope Z_scope.

Definition ST_CLOSED : Z := 0.
Definition ST_OPEN : Z := 1.
Definition ST_HALF_OPEN : Z := 2.
Definition OUTCOME_WINDOW_CAPACITY : nat := 1024.
Definition FNV1A_OFFSET_BASIS : Z := 14695981039346656037.
Definition FNV1A_PRIME : Z := 1099511628211.

Definition restored_breaker_state (state : Z) : Z :=
  if state =? ST_HALF_OPEN then ST_OPEN else state.

(** [BreakerState], the observer's view of a cell. *)
Inductive BreakerState := Closed | Open (until : Z) | HalfOpen.

(** ** Double-precision floats, as the executable IEEE-754 specification. *)
Definition f64 : Set := spec_float.
Definition f64_of_Z (z : Z) : f64 := binary_normalize 53 1024 z 0 false.
Definition f64_div (a b : f64) : f64 := SFdiv 53 1024 a b.
Definition f64_ge (a b : f64) : bool := SFleb b a.

(** ** The sliding outcome window *)
Module OutcomeWindow.
Record t := mk { entries : list (Z * bool); capacity : nat }.

Definition new (capacity : nat) : t := mk [] capacity.

(** Drop the oldest entry at capacity ([pop_front] of an empty deque is a no-op), then append. *)
Definition push (w : t) (ts : Z) (is_error : bool) : t :=
  mk ((if decide (capacity w ≤ length (entries w))%nat then tail (entries w) else entries w)
        ++ [(ts, is_error)])
     (capacity w).

Definition count_in_window (w : t) (now window_s : Z) : nat :=
  let start := sat_sub_u64 now window_s in
  length (List.filter (fun e => start <=? e.1) (entries w)).

Definition error_count_in_window (w : t) (now window_s : Z) : nat :=
  let start := sat_sub_u64 now window_s in
  length (List.filter (fun e => (start <=? e.1) && e.2) (entries w)).

Definition clear (w : t) : t := mk [] (capacity w).
End OutcomeWindow.

(** ** Breaker configuration *)
Inductive TripMode := ErrorRate | Consecutive.

Module TripConfig.
Record t := mk {
  mode : TripMode; window_s : Z; threshold : f64; min_requests : nat; consecutive_n : Z }.
Definition default : t := mk ErrorRate 30 (f64_div (f64_of_Z 1) (f64_of_Z 2)) 5 3.
End TripConfig.

Module BreakerCfg.
Record t := mk {
  base_cooldown_secs : Z; max_cooldown_secs : Z; honor_retry_after : bool; trip : TripConfig.t }.
Definition default : t := mk 15 120 true TripConfig.default.
End BreakerCfg.

(** ** The cell *)
Module BreakerCell.
Record t := mk {
  breaker_state : Z; streak : Z; cooldown_until : Z; probe_in_flight : bool; probe_epoch : Z;
  err : Z; outcome_window : OutcomeWindow.t; current_weight : Z }.

Definition new : t :=
  mk ST_CLOSED 0 0 false 0 0 (OutcomeWindow.new OUTCOME_WINDOW_CAPACITY) 0.

(** The atomic stores. *)
Definition set_state (v : Z) (c : t) : t :=
  mk v (streak c) (cooldown_until c) (probe_in_flight c) (probe_epoch c) (err c)
    (outcome_window c) (current_weight c).
Definition set_streak (v : Z) (c : t) : t :=
  mk (breaker_state c) v (cooldown_until c) (probe_in_flight c) (probe_epoch c) (err c)
    (outcome_window c) (current_weight c).
Definition set_cooldown (v : Z) (c : t) : t :=
  mk (breaker_state c) (streak c) v (probe_in_flight c) (probe_epoch c) (err c)
    (outcome_window c) (current_weight c).
Definition set_probe (v : bool) (c : t) : t :=
  mk (breaker_state c) (streak c) (cooldown_until c) v (probe_epoch c) (err c)
    (outcome_window c) (current_weight c).
Definition set_epoch (v : Z) (c : t) : t :=
  mk (breaker_state c) (streak c) (cooldown_until c) (probe_in_flight c) v (err c)
    (outcome_window c) (current_weight c).
Definition set_err (v : Z) (c : t) : t :=
  mk (breaker_state c) (streak c) (cooldown_until c) (probe_in_flight c) (probe_epoch c) v
    (outcome_window c) (current_weight c).
Definition set_window (v : OutcomeWindow.t) (c : t) : t :=
  mk (breaker_state c) (streak c) (cooldown_until c) (probe_in_flight c) (probe_epoch c) (err c)
    v (current_weight c).
Definition set_weight (v : Z) (c : t) : t :=
  mk (breaker_state c) (streak c) (cooldown_until c) (probe_in_flight c) (probe_epoch c) (err c)
    (outcome_window c) v.
End BreakerCell.
Import BreakerCell.

(** ** Trip decision *)
Definition should_trip (c : t) (now : Z) (cfg : BreakerCfg.t) : bool :=
  let trip := BreakerCfg.trip cfg in
  match TripConfig.mode trip with
  | ErrorRate =>
      let count := OutcomeWindow.count_in_window (outcome_window c) now (TripConfig.window_s trip) in
      if decide (count < TripConfig.min_requests trip)%nat then false
      else
        let errors :=
          OutcomeWindow.error_count_in_window (outcome_window c) now (TripConfig.window_s trip) in
        f64_ge (f64_div (f64_of_Z (Z.of_nat errors)) (f64_of_Z (Z.of_nat count)))
          (TripConfig.threshold trip)
  | Consecutive => TripConfig.consecutive_n trip <=? streak c
  end.

(** ** Cooldown *)

(** The capped exponential backoff before jitter. *)
Definition backoff (streak : Z) (cfg : BreakerCfg.t) : Z :=
  if streak =? 0 then BreakerCfg.base_cooldown_secs cfg
  else
    let shift := Z.min streak 63 in
    let shifted := Z.shiftl (BreakerCfg.base_cooldown_secs cfg) shift in
    Z.min (if shifted <=? U64_MAX then shifted else U64_MAX) (BreakerCfg.max_cooldown_secs cfg).

(** The FNV-folded seed of the jitter. *)
Definition jitter_seed (time_seed cell_id streak : Z) : Z :=
  foldl (fun seed part => wrap_u128 (Z.lxor seed part * FNV1A_PRIME)) FNV1A_OFFSET_BASIS
    [time_seed; cell_id; streak].

(** The duration after jitter, before the clamp. *)
Definition apply_jitter (seed duration : Z) : Z :=
  let jitter_range := Z.max (duration / 10) 1 in
  let span := 2 * jitter_range + 1 in
  let unbiased := wrap_i64 (seed mod span) in
  let jitter := wrap_i64 (unbiased - wrap_i64 jitter_range) in
  if 0 <=? jitter then sat_add_u64 duration jitter else sat_sub_u64 duration (Z.abs jitter).

Definition compute_cooldown_with_retry_after (time_seed cell_id : Z) (c : t) (cfg : BreakerCfg.t)
    (retry_after : option Z) (max_honored_retry_after_secs : Z) : option Z :=
  let streak := streak c in
  let duration := backoff streak cfg in
  let jittered := apply_jitter (jitter_seed time_seed cell_id streak) duration in
  duration ← clamp (Z.max (duration / 2) 1) (BreakerCfg.max_cooldown_secs cfg) jittered;
  Some (match BreakerCfg.honor_retry_after cfg, retry_after with
        | true, Some ra => Z.max duration (Z.min ra max_honored_retry_after_secs)
        | false, Some _ => duration
        | true, None | false, None => duration
        end).

(** ** Transitions *)
Definition cell_open_locked (time_seed cell_id : Z) (c : t) (now_time : Z) (cfg : BreakerCfg.t)
    (retry_after : option Z) (max_honored_retry_after_secs : Z) : option t :=
  duration ← compute_cooldown_with_retry_after time_seed cell_id c cfg retry_after
               max_honored_retry_after_secs;
  Some (set_probe false (set_state ST_OPEN (set_cooldown (sat_add_u64 now_time duration) c))).

Definition cell_closed_locked (c : t) : t :=
  set_probe false (set_state ST_CLOSED (set_cooldown 0
    (set_window (OutcomeWindow.clear (outcome_window c)) (set_streak 0 c)))).

(** The suppression test: a tripped breaker, or a cooldown still in the future. *)
Definition suppressed (c : t) (now : Z) : bool :=
  negb (breaker_state c =? ST_CLOSED) || (now <? cooldown_until c).

Definition cell_closed_if_recoverable (c : t) (now observed_cooldown : Z) : t * bool :=
  if observed_cooldown <? cooldown_until c then (c, false)
  else if suppressed c now then (cell_closed_locked c, true)
  else (c, false).

(** [compare_exchange] on the state. *)
Definition cas_state (expected new : Z) (c : t) : t * bool :=
  if breaker_state c =? expected then (set_state new c, true) else (c, false).

Definition cell_release_probe (c : t) : t :=
  set_probe false (cas_state ST_HALF_OPEN ST_OPEN c).1.

Definition cell_release_probe_owned (c : t) (owned_epoch : Z) : t :=
  if negb (probe_epoch c =? owned_epoch) then c
  else set_probe false (cas_state ST_HALF_OPEN ST_OPEN c).1.

Definition cell_ready_breaker (c : t) (now : Z) : bool :=
  if breaker_state c =? ST_CLOSED then cooldown_until c <=? now
  else if breaker_state c =? ST_OPEN then cooldown_until c <=? now
  else if breaker_state c =? ST_HALF_OPEN then false
  else false.

(** The part of [cell_acquire_breaker] that runs under the transition lock: re-read, CAS
    Open to HalfOpen, bump the owner token, publish the probe flag. *)
Definition acquire_locked (c : t) (now : Z) : t * bool :=
  if negb (breaker_state c =? ST_OPEN) || (now <? cooldown_until c) then (c, false)
  else
    match cas_state ST_OPEN ST_HALF_OPEN c with
    | (c1, true) => (set_probe true (set_epoch (wrap_u64 (probe_epoch c1 + 1)) c1), true)
    | (c1, false) => (c1, false)
    end.

Definition cell_acquire_breaker (c : t) (now : Z) : t * bool :=
  if breaker_state c =? ST_CLOSED then (c, cooldown_until c <=? now)
  else if breaker_state c =? ST_OPEN then
    if cooldown_until c <=? now then acquire_locked c now else (c, false)
  else if breaker_state c =? ST_HALF_OPEN then (c, false)
  else (c, false).

Definition cell_breaker_state (c : t) : BreakerState :=
  if breaker_state c =? ST_CLOSED then Closed
  else if breaker_state c =? ST_OPEN then Open (cooldown_until c)
  else if breaker_state c =? ST_HALF_OPEN then HalfOpen
  else Closed.

(** The lock-free prologue of [cell_record_failure]: outcome pushed, error counted. *)
Definition failure_prologue (c : t) (now_time : Z) : t :=
  let c := set_window (OutcomeWindow.push (outcome_window c) now_time true) c in
  set_err (wrap_u64 (err c + 1)) c.

Definition bump_streak (c : t) : t := set_streak (wrap_u32 (streak c + 1)) c.

(** The part of [cell_record_failure] under the transition lock. *)
Definition failure_locked (time_seed cell_id : Z) (c : t) (now_time : Z) (cfg : BreakerCfg.t)
    (retry_after : option Z) (max_honored : Z) : option (t * bool) :=
  if breaker_state c =? ST_CLOSED then
    let c := bump_streak c in
    if should_trip c now_time cfg then
      c ← cell_open_locked time_seed cell_id c now_time cfg retry_after max_honored;
      Some (c, true)
    else
      duration ← compute_cooldown_with_retry_after time_seed cell_id c cfg retry_after max_honored;
      Some (set_cooldown (sat_add_u64 now_time duration) c, false)
  else if breaker_state c =? ST_HALF_OPEN then
    let c := bump_streak c in
    c ← cell_open_locked time_seed cell_id c now_time cfg retry_after max_honored;
    Some (c, false)
  else if breaker_state c =? ST_OPEN then Some (c, false)
  else Some (c, false).

Definition cell_record_failure (time_seed cell_id : Z) (c : t) (now_time : Z) (cfg : BreakerCfg.t)
    (retry_after : option Z) (max_honored : Z) : option (t * bool) :=
  failure_locked time_seed cell_id (failure_prologue c now_time) now_time cfg retry_after
    max_honored.

Definition cell_record_success (c : t) (now_time : Z) : t * bool :=
  let c := if negb (breaker_state c =? ST_OPEN) then set_streak 0 c else c in
  let c := set_window (OutcomeWindow.push (outcome_window c) now_time false) c in
  match cas_state ST_HALF_OPEN ST_CLOSED c with
  | (c1, true) => (cell_closed_locked c1, true)
  | (c1, false) => (c1, false)
  end.

(** The trip closure of the hard-down paths: Open with the sticky cooldown, probe released. *)
Definition hard_down_locked (c : t) (now hard_down_cooldown_secs : Z) : t :=
  set_probe false (set_state ST_OPEN (set_cooldown (sat_add_u64 now hard_down_cooldown_secs) c)).
