(* ===== verification/BreakerConfig.v ===== *)
(** * Breaker configuration: parsing defaults, boot validation, resolution

    config/mod.rs ([BreakerTripConfig], [BreakerCfg] and their defaults), Rule 6 of
    config_validate/mod.rs, and the [From] conversion of store/in_memory.rs that turns the parsed
    configuration into the runtime one of Cell.v. *)
From stdpp Require Import base list.
From Stdlib Require Import ZArith Lia Floats.SpecFloat.
From S2P Require Import Prelude Cell.
Open Scope Z_scope.

Module Config.
Record BreakerTripConfig := mkTrip {
  mode : TripMode; window_secs : Z; threshold : f64; min_requests : nat; consecutive_n : Z }.

Record BreakerCfg := mkBreaker {
  base_cooldown_secs : Z; max_cooldown_secs : Z; trip : option BreakerTripConfig }.

Definition DEFAULT_BREAKER_WINDOW_SECS : Z := 30.
Definition DEFAULT_BREAKER_THRESHOLD : f64 := f64_div (f64_of_Z 1) (f64_of_Z 2).
Definition DEFAULT_BREAKER_MIN_REQUESTS : nat := 5.
Definition DEFAULT_BREAKER_CONSECUTIVE_N : Z := 3.
Definition DEFAULT_BREAKER_BASE_COOLDOWN_SECS : Z := 15.
Definition DEFAULT_BREAKER_MAX_COOLDOWN_SECS : Z := 120.

(** What an absent key of a [trip:] block parses to (the serde default functions). *)
Definition trip_serde_default : BreakerTripConfig :=
  mkTrip ErrorRate DEFAULT_BREAKER_WINDOW_SECS DEFAULT_BREAKER_THRESHOLD
    DEFAULT_BREAKER_MIN_REQUESTS DEFAULT_BREAKER_CONSECUTIVE_N.

(** What [#[derive(Default)]] gives: every field at its type's default. *)
Definition trip_derived_default : BreakerTripConfig := mkTrip ErrorRate 0 (S754_zero false) 0 0.

(** [impl Default for BreakerCfg]. *)
Definition breaker_default : BreakerCfg :=
  mkBreaker DEFAULT_BREAKER_BASE_COOLDOWN_SECS DEFAULT_BREAKER_MAX_COOLDOWN_SECS
    (Some trip_derived_default).

(** What an empty [breaker: {}] block parses to. *)
Definition breaker_serde_default : BreakerCfg :=
  mkBreaker DEFAULT_BREAKER_BASE_COOLDOWN_SECS DEFAULT_BREAKER_MAX_COOLDOWN_SECS None.
End Config.

(** ** Resolution into the runtime configuration *)
Definition resolve_breaker_cfg (c : Config.BreakerCfg) : BreakerCfg.t :=
  BreakerCfg.mk (Config.base_cooldown_secs c) (Config.max_cooldown_secs c) true
    (match Config.trip c with
     | Some t =>
         TripConfig.mk (Config.mode t) (Config.window_secs t) (Config.threshold t)
           (Config.min_requests t) (Config.consecutive_n t)
     | None => TripConfig.default
     end).

(** ** Rule 6: the errors pushed for a pool's breaker block *)
Inductive BreakerCfgError :=
| BaseCooldownZero | MaxCooldownZero | MaxBelowBase | MinRequestsZero | WindowZero
| ThresholdRange | ConsecutiveZero.

Definition push_if (b : bool) (e : BreakerCfgError) : list BreakerCfgError := if b then [e] else [].

(** [threshold > 0.0 && threshold <= 1.0] *)
Definition threshold_in_range (th : f64) : bool :=
  SFltb (S754_zero false) th && SFleb th (f64_of_Z 1).

Definition validate_trip (trip : Config.BreakerTripConfig) : list BreakerCfgError :=
  push_if (Nat.eqb (Config.min_requests trip) 0) MinRequestsZero
  ++ push_if (Config.window_secs trip =? 0) WindowZero
  ++ match Config.mode trip with
     | ErrorRate => push_if (negb (threshold_in_range (Config.threshold trip))) ThresholdRange
     | Consecutive => push_if (Config.consecutive_n trip =? 0) ConsecutiveZero
     end.

Definition validate_breaker (breaker : Config.BreakerCfg) : list BreakerCfgError :=
  push_if (Config.base_cooldown_secs breaker =? 0) BaseCooldownZero
  ++ push_if (Config.max_cooldown_secs breaker =? 0) MaxCooldownZero
  ++ push_if (Config.max_cooldown_secs breaker <? Config.base_cooldown_secs breaker) MaxBelowBase
  ++ match Config.trip breaker with Some trip => validate_trip trip | None => [] end.

(** The parsed values are in their machine ranges. *)
Definition cfg_typed (c : Config.BreakerCfg) : Prop :=
  is_u64 (Config.base_cooldown_secs c) /\ is_u64 (Config.max_cooldown_secs c).

(** What the cell's theorems need of a runtime configuration. *)
Definition cfg_ok (cfg : BreakerCfg.t) : Prop :=
  1 <= BreakerCfg.base_cooldown_secs cfg <= BreakerCfg.max_cooldown_secs cfg /\
  BreakerCfg.max_cooldown_secs cfg <= U64_MAX.

Lemma push_if_nil b e : push_if b e = [] <-> b = false.
Proof. by destruct b. Qed.

Lemma validated_cfg_ok c : cfg_typed c -> validate_breaker c = [] -> cfg_ok (resolve_breaker_cfg c).
Proof.
  intros [[Hb1 Hb2] [Hm1 Hm2]]. unfold validate_breaker.
  intros [Hb [_ [Hm _]%app_eq_nil]%app_eq_nil]%app_eq_nil.
  rewrite push_if_nil in Hb, Hm. simpl_bool. unfold cfg_ok. simpl. lia.
Qed.

Lemma default_cfg_ok : cfg_ok BreakerCfg.default.
Proof. unfold cfg_ok, U64_MAX. simpl. lia. Qed.
