(* ===== verification/CellFacts.v ===== *)
(** * Facts about one breaker cell

    The cooldown's bounds and totality, the outcome window's invariant, the trip rule, and the
    effect of each transition on the (state, cooldown, probe) triple. *)
From stdpp Require Import base list.
From Stdlib Require Import ZArith Lia Floats.SpecFloat.
From S2P Require Import Prelude Cell BreakerConfig.
Import BreakerCell.
Open Scope Z_scope.

(** ** The outcome window *)
Definition window_wf (w : OutcomeWindow.t) : Prop :=
  (0 < OutcomeWindow.capacity w)%nat /\
  (length (OutcomeWindow.entries w) <= OutcomeWindow.capacity w)%nat.

Lemma push_wf w ts e : window_wf w -> window_wf (OutcomeWindow.push w ts e).
Proof.
  intros [Hc Hl]. split; simpl; [done|]. rewrite length_app. simpl.
  case_decide; [|lia]. destruct (OutcomeWindow.entries w); simpl in *; lia.
Qed.

Lemma clear_wf w : window_wf w -> window_wf (OutcomeWindow.clear w).
Proof. intros [Hc _]. split; simpl; lia. Qed.

Lemma error_count_le w now window_s :
  (OutcomeWindow.error_count_in_window w now window_s
   <= OutcomeWindow.count_in_window w now window_s)%nat.
Proof.
  unfold OutcomeWindow.error_count_in_window, OutcomeWindow.count_in_window.
  induction (OutcomeWindow.entries w) as [|[ts e] l IH]; simpl; [done|].
  destruct (_ <=? ts); simpl; [|done]. destruct e; simpl; lia.
Qed.

Lemma error_count_zero w now window_s :
  Forall (fun x => x.2 = false) (OutcomeWindow.entries w) ->
  OutcomeWindow.error_count_in_window w now window_s = 0%nat.
Proof.
  unfold OutcomeWindow.error_count_in_window.
  induction 1 as [|[ts e] l He Hl IH]; simpl; [done|]. simpl in He. subst e.
  by rewrite andb_false_r.
Qed.

(** ** Cooldown arithmetic *)
Lemma jitter_seed_nonneg ts id s : 0 <= jitter_seed ts id s.
Proof. unfold jitter_seed. simpl. apply wrap_u128_nonneg. Qed.

(** The jitter moves a duration by at most a tenth of it (and at least one second's band). *)
Lemma apply_jitter_bound seed d :
  0 <= seed -> is_u64 d ->
  Z.abs (apply_jitter seed d - d) <= Z.max (d / 10) 1 /\ is_u64 (apply_jitter seed d).
Proof.
  intros Hs Hd. unfold apply_jitter.
  set (r := Z.max (d / 10) 1).
  assert (1 <= r <= 1844674407370955161) as Hr.
  { subst r. unfold is_u64, U64_MAX in Hd. pose proof (Z.div_le_mono d 18446744073709551615 10).
    change (18446744073709551615 / 10) with 1844674407370955161 in *. lia. }
  pose proof (Z.mod_pos_bound seed (2 * r + 1)) as Hm.
  assert (wrap_i64 (seed mod (2 * r + 1)) = seed mod (2 * r + 1)) as ->
    by (apply wrap_i64_id; mach_lia).
  assert (wrap_i64 r = r) as -> by (apply wrap_i64_id; mach_lia).
  rewrite wrap_i64_id by mach_lia.
  destruct (Z.leb_spec 0 (seed mod (2 * r + 1) - r)); mach_lia.
Qed.

Lemma backoff_bounds s cfg :
  cfg_ok cfg -> 0 <= s -> 1 <= backoff s cfg <= BreakerCfg.max_cooldown_secs cfg.
Proof.
  intros [[Hb1 Hb2] Hm] Hs. unfold backoff. destruct (Z.eqb_spec s 0); [lia|].
  rewrite Z.shiftl_mul_pow2 by lia.
  pose proof (Z.pow_pos_nonneg 2 (Z.min s 63)).
  destruct (Z.leb_spec (BreakerCfg.base_cooldown_secs cfg * 2 ^ Z.min s 63) U64_MAX); [nia|].
  unfold U64_MAX in *. lia.
Qed.

(** Total and bounded: with a validated configuration the cooldown is computed (no panic), is at
    least one second, and exceeds [max_cooldown_secs] only through an honoured [Retry-After]. *)
Lemma compute_cooldown_total ts id c cfg ra maxh :
  cfg_ok cfg -> is_u32 (streak c) ->
  exists d, compute_cooldown_with_retry_after ts id c cfg ra maxh = Some d /\
    1 <= d /\ backoff (streak c) cfg / 2 <= d /\
    d <= Z.max (BreakerCfg.max_cooldown_secs cfg) (Z.min (default 0 ra) maxh) /\
    (BreakerCfg.honor_retry_after cfg = true -> Z.min (default 0 ra) maxh <= d) /\
    (BreakerCfg.honor_retry_after cfg = false -> d <= BreakerCfg.max_cooldown_secs cfg).
Proof.
  intros Hcfg Hs. unfold compute_cooldown_with_retry_after.
  pose proof (backoff_bounds (streak c) cfg Hcfg ltac:(unfold is_u32 in Hs; lia)) as Hb.
  set (b := backoff (streak c) cfg) in *.
  set (m := BreakerCfg.max_cooldown_secs cfg) in *.
  assert (b / 2 <= b) by (apply Z.div_le_upper_bound; lia).
  rewrite clamp_Some by lia. simpl.
  set (j := apply_jitter _ b).
  destruct (BreakerCfg.honor_retry_after cfg), ra as [ra|]; simpl; eexists; split; try done;
    repeat split; try done; try lia.
Qed.

Lemma backoff_pos_streak s cfg :
  0 < s -> backoff s cfg =
    Z.min (Z.min (BreakerCfg.base_cooldown_secs cfg * 2 ^ Z.min s 63) U64_MAX)
      (BreakerCfg.max_cooldown_secs cfg).
Proof.
  intros Hs. unfold backoff. destruct (Z.eqb_spec s 0); [lia|].
  rewrite Z.shiftl_mul_pow2 by lia.
  destruct (Z.leb_spec (BreakerCfg.base_cooldown_secs cfg * 2 ^ Z.min s 63) U64_MAX); lia.
Qed.

Lemma backoff_mono s s' cfg : cfg_ok cfg -> 0 <= s <= s' -> backoff s cfg <= backoff s' cfg.
Proof.
  intros Hcfg Hs. destruct (decide (s = 0)) as [->|Hn].
  - destruct (decide (s' = 0)) as [->|]; [lia|]. rewrite (backoff_pos_streak s') by lia.
    destruct Hcfg as [[Hb1 Hb2] Hm]. unfold backoff. simpl.
    pose proof (Z.pow_pos_nonneg 2 (Z.min s' 63)). unfold U64_MAX in *. nia.
  - rewrite !backoff_pos_streak by lia. destruct Hcfg as [[Hb1 _] _].
    pose proof (Z.pow_le_mono_r 2 (Z.min s 63) (Z.min s' 63)).
    assert (BreakerCfg.base_cooldown_secs cfg * 2 ^ Z.min s 63
            <= BreakerCfg.base_cooldown_secs cfg * 2 ^ Z.min s' 63)
      by (apply Z.mul_le_mono_nonneg_l; lia).
    lia.
Qed.

(** ** The error rate on the window's range of counts *)
Definition counts : list nat := seq 1 OUTCOME_WINDOW_CAPACITY.

Lemma rate_all_errors_check :
  forallb (fun n => SFeqb (f64_div (f64_of_Z (Z.of_nat n)) (f64_of_Z (Z.of_nat n))) (f64_of_Z 1))
    counts = true.
Proof. vm_compute. reflexivity. Qed.

Lemma rate_no_errors_check :
  forallb (fun n => SFeqb (f64_div (f64_of_Z 0) (f64_of_Z (Z.of_nat n))) (S754_zero false))
    counts = true.
Proof. vm_compute. reflexivity. Qed.

Lemma elem_of_counts n : (1 <= n <= OUTCOME_WINDOW_CAPACITY)%nat -> In n counts.
Proof. intros Hn. unfold counts. apply in_seq. lia. Qed.

Lemma SFeqb_zero x : SFeqb x (S754_zero false) = true -> exists s, x = S754_zero s.
Proof. unfold SFeqb. destruct x as [s|[]| |[] m e]; simpl; try done; eauto. Qed.

Lemma rate_no_errors n :
  (1 <= n <= OUTCOME_WINDOW_CAPACITY)%nat ->
  exists s, f64_div (f64_of_Z 0) (f64_of_Z (Z.of_nat n)) = S754_zero s.
Proof.
  intros Hn. pose proof rate_no_errors_check as H.
  rewrite forallb_forall in H. apply SFeqb_zero. apply H. by apply elem_of_counts.
Qed.

Lemma SFeqb_one x : SFeqb x (f64_of_Z 1) = true -> SFcompare x (f64_of_Z 1) = Some Eq.
Proof. unfold SFeqb. by destruct (SFcompare _ _) as [[]|]. Qed.

(** Equality with a positive finite float is equality of representations. *)
Lemma SFcompare_finite_eq x m0 e0 :
  SFcompare x (S754_finite false m0 e0) = Some Eq -> x = S754_finite false m0 e0.
Proof.
  destruct x as [[]|[]| |[] m e]; simpl; try done.
  destruct (e ?= e0) eqn:He; try done. intros [= Hm].
  apply Z.compare_eq in He as ->. apply Pos.compare_eq in Hm as ->. done.
Qed.

Lemma f64_one : f64_of_Z 1 = S754_finite false 4503599627370496 (-52).
Proof. vm_compute. reflexivity. Qed.

Lemma SFcompare_one_eq x : SFcompare x (f64_of_Z 1) = Some Eq -> x = f64_of_Z 1.
Proof. rewrite f64_one. apply SFcompare_finite_eq. Qed.

Lemma rate_all_errors n :
  (1 <= n <= OUTCOME_WINDOW_CAPACITY)%nat ->
  f64_div (f64_of_Z (Z.of_nat n)) (f64_of_Z (Z.of_nat n)) = f64_of_Z 1.
Proof.
  intros Hn. pose proof rate_all_errors_check as H.
  rewrite forallb_forall in H. apply SFcompare_one_eq, SFeqb_one, H. by apply elem_of_counts.
Qed.

Lemma threshold_positive th s : threshold_in_range th = true -> f64_ge (S754_zero s) th = false.
Proof.
  unfold threshold_in_range, f64_ge, SFltb, SFleb. intros [Hp _]%andb_true_iff.
  destruct th as [[]|[]| |[] m e]; simpl in *; done.
Qed.

Lemma threshold_le_one th : threshold_in_range th = true -> f64_ge (f64_of_Z 1) th = true.
Proof. unfold threshold_in_range, f64_ge. by intros [_ H]%andb_true_iff. Qed.

Lemma count_le_capacity w now s :
  window_wf w -> OutcomeWindow.capacity w = OUTCOME_WINDOW_CAPACITY ->
  (OutcomeWindow.count_in_window w now s <= OUTCOME_WINDOW_CAPACITY)%nat.
Proof.
  intros [_ Hl] <-. unfold OutcomeWindow.count_in_window.
  etrans; [|exact Hl]. apply filter_length_le.
Qed.

Lemma error_count_all w now window_s :
  Forall (fun x => x.2 = true) (OutcomeWindow.entries w) ->
  OutcomeWindow.error_count_in_window w now window_s =
  OutcomeWindow.count_in_window w now window_s.
Proof.
  unfold OutcomeWindow.error_count_in_window, OutcomeWindow.count_in_window.
  induction 1 as [|[ts e] l He Hl IH]; simpl; [done|]. simpl in He. subst e.
  rewrite andb_true_r. destruct (_ <=? ts); simpl; by rewrite IH.
Qed.

(** ** The cell invariant *)
Record cell_wf (c : t) : Prop := {
  wf_state : breaker_state c = ST_CLOSED \/ breaker_state c = ST_OPEN \/
             breaker_state c = ST_HALF_OPEN;
  wf_probe : probe_in_flight c = true <-> breaker_state c = ST_HALF_OPEN;
  wf_streak : is_u32 (streak c);
  wf_cooldown : is_u64 (cooldown_until c);
  wf_epoch : is_u64 (probe_epoch c);
  wf_err : is_u64 (err c);
  wf_window : window_wf (outcome_window c);
  wf_capacity : OutcomeWindow.capacity (outcome_window c) = OUTCOME_WINDOW_CAPACITY }.

Create HintDb cell discriminated.
#[export] Hint Resolve push_wf clear_wf wrap_u32_range wrap_u64_range : cell.

Ltac st_unfold := unfold ST_CLOSED, ST_OPEN, ST_HALF_OPEN in *.

(** Split the invariant of an updated cell and discharge the fields the update left alone. *)
Ltac cell_wf_tac :=
  match goal with
  | H : cell_wf _ |- _ => destruct H
  | _ => idtac
  end;
  constructor; simpl; auto with cell; try (st_unfold; simpl; intuition (congruence || lia)).

Lemma new_wf : cell_wf new.
Proof. cell_wf_tac; try mach_lia. split; simpl; unfold OUTCOME_WINDOW_CAPACITY; lia. Qed.

Lemma sat_add_u64_wf a b : is_u64 a -> 0 <= b -> is_u64 (sat_add_u64 a b).
Proof. mach_lia. Qed.
#[export] Hint Resolve sat_add_u64_wf : cell.

Lemma cell_closed_locked_wf c : cell_wf c -> cell_wf (cell_closed_locked c).
Proof. intros H. unfold cell_closed_locked. cell_wf_tac; mach_lia. Qed.

Lemma hard_down_locked_wf c now d :
  cell_wf c -> is_u64 now -> is_u64 d -> cell_wf (hard_down_locked c now d).
Proof. intros H Hn Hd. unfold hard_down_locked. cell_wf_tac. mach_lia. Qed.

Lemma cell_release_probe_wf c : cell_wf c -> cell_wf (cell_release_probe c).
Proof.
  intros H. unfold cell_release_probe, cas_state.
  destruct (Z.eqb_spec (breaker_state c) ST_HALF_OPEN); simpl; cell_wf_tac.
Qed.

Lemma cell_release_probe_owned_wf c e : cell_wf c -> cell_wf (cell_release_probe_owned c e).
Proof.
  intros H. unfold cell_release_probe_owned. destruct (negb _); [done|].
  by apply cell_release_probe_wf.
Qed.

Lemma acquire_locked_wf c now : cell_wf c -> cell_wf (acquire_locked c now).1.
Proof.
  intros H. unfold acquire_locked, cas_state.
  destruct (negb _ || _) eqn:Hg; simpl; [done|]. simpl_bool.
  apply Z.eqb_eq in H0. rewrite H0. cell_wf_tac.
Qed.

Lemma cell_acquire_breaker_wf c now : cell_wf c -> cell_wf (cell_acquire_breaker c now).1.
Proof.
  intros H. unfold cell_acquire_breaker. repeat case_match; simpl; auto using acquire_locked_wf.
Qed.

Lemma failure_prologue_wf c now : cell_wf c -> cell_wf (failure_prologue c now).
Proof. intros H. unfold failure_prologue. cell_wf_tac. Qed.

Lemma bump_streak_wf c : cell_wf c -> cell_wf (bump_streak c).
Proof. intros H. unfold bump_streak. cell_wf_tac. Qed.

Lemma cell_record_success_wf c now : cell_wf c -> cell_wf (cell_record_success c now).1.
Proof.
  intros H. unfold cell_record_success, cas_state.
  set (c1 := if negb _ then _ else _).
  assert (cell_wf c1) as H1.
  { subst c1. destruct (negb _); [|done]. cell_wf_tac; mach_lia. }
  set (c2 := set_window _ c1).
  assert (cell_wf c2) as H2 by (subst c2; clear H; cell_wf_tac).
  destruct (Z.eqb_spec (breaker_state c2) ST_HALF_OPEN); simpl; [|done].
  unfold cell_closed_locked. clear H H1. cell_wf_tac; mach_lia.
Qed.

Lemma cell_closed_if_recoverable_wf c now obs :
  cell_wf c -> cell_wf (cell_closed_if_recoverable c now obs).1.
Proof.
  intros H. unfold cell_closed_if_recoverable. repeat case_match; simpl;
    auto using cell_closed_locked_wf.
Qed.

Lemma set_weight_wf c w : cell_wf c -> cell_wf (set_weight w c).
Proof. intros H. cell_wf_tac. Qed.

Lemma cell_open_locked_wf ts id c now cfg ra maxh c' :
  cell_wf c -> is_u64 now -> cfg_ok cfg ->
  cell_open_locked ts id c now cfg ra maxh = Some c' ->
  cell_wf c' /\ breaker_state c' = ST_OPEN.
Proof.
  intros H Hn Hcfg. unfold cell_open_locked.
  destruct (compute_cooldown_total ts id c cfg ra maxh Hcfg (wf_streak _ H)) as (d & -> & Hd & _).
  simpl. intros [= <-]. split; [|done]. cell_wf_tac; mach_lia.
Qed.

Lemma failure_locked_wf ts id c now cfg ra maxh c' b :
  cell_wf c -> is_u64 now -> cfg_ok cfg ->
  failure_locked ts id c now cfg ra maxh = Some (c', b) -> cell_wf c'.
Proof.
  intros H Hn Hcfg. unfold failure_locked. pose proof (bump_streak_wf _ H) as Hb.
  destruct (compute_cooldown_total ts id (bump_streak c) cfg ra maxh Hcfg (wf_streak _ Hb))
    as (d & Hd & Hd1 & _).
  repeat case_match; try (intros [= <- <-]; done).
  - destruct (cell_open_locked _ _ _ _ _ _ _) eqn:Ho; simpl; intros [= <- <-].
    by eapply cell_open_locked_wf in Ho as [].
  - rewrite Hd. simpl. intros [= <- <-]. clear H. cell_wf_tac; mach_lia.
  - destruct (cell_open_locked _ _ _ _ _ _ _) eqn:Ho; simpl; intros [= <- <-].
    by eapply cell_open_locked_wf in Ho as [].
Qed.

Lemma failure_locked_total ts id c now cfg ra maxh :
  cell_wf c -> cfg_ok cfg -> is_Some (failure_locked ts id c now cfg ra maxh).
Proof.
  intros H Hcfg. unfold failure_locked. pose proof (bump_streak_wf _ H) as Hb.
  destruct (compute_cooldown_total ts id (bump_streak c) cfg ra maxh Hcfg (wf_streak _ Hb))
    as (d & Hd & _).
  unfold cell_open_locked. rewrite !Hd. simpl. repeat case_match; eauto.
Qed.

Lemma cell_record_failure_wf ts id c now cfg ra maxh c' b :
  cell_wf c -> is_u64 now -> cfg_ok cfg ->
  cell_record_failure ts id c now cfg ra maxh = Some (c', b) -> cell_wf c'.
Proof. intros H. apply failure_locked_wf. by apply failure_prologue_wf. Qed.

(** ** Theorems *)

(** With a breaker block the boot validation accepts, recording a failure never panics and the
    cooldown it arms is never zero, is at least half the capped exponential backoff, honours the
    upstream [Retry-After] up to the configured ceiling, and otherwise stays within
    [max_cooldown_secs]. *)
Theorem validated_cooldown_total_and_bounded cfg ts id c ra maxh :
  cfg_typed cfg -> validate_breaker cfg = [] -> is_u32 (streak c) ->
  exists d,
    compute_cooldown_with_retry_after ts id c (resolve_breaker_cfg cfg) ra maxh = Some d /\
    1 <= d /\ backoff (streak c) (resolve_breaker_cfg cfg) / 2 <= d /\
    Z.min (default 0 ra) maxh <= d <=
      Z.max (Config.max_cooldown_secs cfg) (Z.min (default 0 ra) maxh).
Proof.
  intros Ht Hv Hs.
  destruct (compute_cooldown_total ts id c (resolve_breaker_cfg cfg) ra maxh
              (validated_cfg_ok _ Ht Hv) Hs) as (d & Hd & H1 & H2 & H3 & H4 & _).
  exists d. repeat split; try done. by apply H4.
Qed.

Lemma validated_cooldown_total_and_bounded_witness :
  exists d,
    compute_cooldown_with_retry_after 5 9 new (resolve_breaker_cfg Config.breaker_serde_default)
      (Some 500) 400 = Some d /\
    1 <= d /\ backoff (streak new) (resolve_breaker_cfg Config.breaker_serde_default) / 2 <= d /\
    Z.min (default 0 (Some 500)) 400 <= d <=
      Z.max (Config.max_cooldown_secs Config.breaker_serde_default) (Z.min (default 0 (Some 500)) 400).
Proof.
  apply validated_cooldown_total_and_bounded.
  - split; vm_compute; split; discriminate.
  - vm_compute. reflexivity.
  - vm_compute. split; discriminate.
Defined.

(** The backoff before jitter is [base * 2^streak] saturated to 64 bits and capped at
    [max_cooldown_secs]; it never decreases as the failure streak grows, however long the streak,
    and the jitter moves it by at most a tenth (one second at least) in either direction. *)
Theorem backoff_escalates_and_jitter_is_bounded cfg s s' seed :
  cfg_ok cfg -> 0 < s <= s' -> s' <= U32_MAX -> 0 <= seed ->
  backoff s cfg = Z.min (Z.min (BreakerCfg.base_cooldown_secs cfg * 2 ^ Z.min s 63) U64_MAX)
                    (BreakerCfg.max_cooldown_secs cfg) /\
  1 <= backoff s cfg <= backoff s' cfg /\
  Z.abs (apply_jitter seed (backoff s cfg) - backoff s cfg) <= Z.max (backoff s cfg / 10) 1.
Proof.
  intros Hc Hs Hs' Hseed. pose proof (backoff_bounds s cfg Hc ltac:(lia)) as Hb.
  split; [by apply backoff_pos_streak; lia|]. split.
  - split; [lia|]. apply backoff_mono; [done|lia].
  - apply apply_jitter_bound; [done|]. destruct Hc as [_ Hm]. unfold is_u64. lia.
Qed.

Lemma backoff_escalates_and_jitter_is_bounded_witness :
  backoff 70 BreakerCfg.default =
    Z.min (Z.min (BreakerCfg.base_cooldown_secs BreakerCfg.default * 2 ^ Z.min 70 63) U64_MAX)
      (BreakerCfg.max_cooldown_secs BreakerCfg.default) /\
  1 <= backoff 70 BreakerCfg.default <= backoff 71 BreakerCfg.default /\
  Z.abs (apply_jitter 123456 (backoff 70 BreakerCfg.default) - backoff 70 BreakerCfg.default)
    <= Z.max (backoff 70 BreakerCfg.default / 10) 1.
Proof.
  apply backoff_escalates_and_jitter_is_bounded;
    [apply default_cfg_ok|lia|vm_compute; discriminate|lia].
Defined.

(** The error-rate trip with a validated threshold: a window without errors never trips, and a
    window of errors only trips as soon as it holds the minimum number of requests. *)
Theorem error_rate_trip_extremes c now cfg :
  cell_wf c -> TripConfig.mode (BreakerCfg.trip cfg) = ErrorRate ->
  threshold_in_range (TripConfig.threshold (BreakerCfg.trip cfg)) = true ->
  (1 <= TripConfig.min_requests (BreakerCfg.trip cfg))%nat ->
  (Forall (fun x => x.2 = false) (OutcomeWindow.entries (outcome_window c)) ->
     should_trip c now cfg = false) /\
  (Forall (fun x => x.2 = true) (OutcomeWindow.entries (outcome_window c)) ->
     should_trip c now cfg =
       (TripConfig.min_requests (BreakerCfg.trip cfg) <=?
        OutcomeWindow.count_in_window (outcome_window c) now
          (TripConfig.window_s (BreakerCfg.trip cfg)))%nat).
Proof.
  intros Hwf Hm Hth Hmin. unfold should_trip. rewrite Hm.
  set (w := outcome_window c). set (win := TripConfig.window_s (BreakerCfg.trip cfg)).
  pose proof (count_le_capacity w now win (wf_window _ Hwf) (wf_capacity _ Hwf)) as Hcap.
  split; intros Hall.
  - case_decide as Hfl; [done|]. rewrite (error_count_zero w now win Hall).
    destruct (rate_no_errors (OutcomeWindow.count_in_window w now win)) as [s Hs]; [lia|].
    change (Z.of_nat 0) with 0. rewrite Hs. by apply threshold_positive.
  - rewrite (error_count_all w now win Hall). case_decide as Hfl.
    + symmetry. apply Nat.leb_gt. lia.
    + rewrite rate_all_errors by lia. rewrite threshold_le_one by done.
      symmetry. apply Nat.leb_le. lia.
Qed.

Lemma error_rate_trip_extremes_witness :
  (Forall (fun x => x.2 = false) (OutcomeWindow.entries (outcome_window new)) ->
     should_trip new 100 BreakerCfg.default = false) /\
  (Forall (fun x => x.2 = true) (OutcomeWindow.entries (outcome_window new)) ->
     should_trip new 100 BreakerCfg.default =
       (TripConfig.min_requests (BreakerCfg.trip BreakerCfg.default) <=?
        OutcomeWindow.count_in_window (outcome_window new) 100
          (TripConfig.window_s (BreakerCfg.trip BreakerCfg.default)))%nat).
Proof.
  apply error_rate_trip_extremes; [apply new_wf|reflexivity|vm_compute; reflexivity|].
  vm_compute. lia.
Defined.

(** [config::BreakerCfg::default()] does not carry the documented trip defaults: its derived
    trip block is one the boot validation rejects, and resolved as it is it opens a fresh cell on
    the very first failure, where the documented defaults (and an empty [breaker:] block) do not. *)
Theorem config_default_trip_is_degenerate now :
  0 <= now ->
  validate_breaker Config.breaker_default <> [] /\
  validate_breaker Config.breaker_serde_default = [] /\
  resolve_breaker_cfg Config.breaker_serde_default = BreakerCfg.default /\
  should_trip (bump_streak (failure_prologue new now)) now
    (resolve_breaker_cfg Config.breaker_default) = true /\
  should_trip (bump_streak (failure_prologue new now)) now BreakerCfg.default = false.
Proof.
  intros Hn. split; [vm_compute; discriminate|]. split; [vm_compute; reflexivity|].
  split; [reflexivity|]. split.
  - unfold should_trip, OutcomeWindow.count_in_window, OutcomeWindow.error_count_in_window. simpl.
    assert ((sat_sub_u64 now 0 <=? now) = true) as -> by (unfold sat_sub_u64; lia).
    vm_compute. reflexivity.
  - unfold should_trip, OutcomeWindow.count_in_window. simpl.
    rewrite decide_True; [done|]. case_match; simpl; lia.
Qed.

Lemma config_default_trip_is_degenerate_witness :
  should_trip (bump_streak (failure_prologue new 1000)) 1000
    (resolve_breaker_cfg Config.breaker_default) = true.
Proof. apply (config_default_trip_is_degenerate 1000). lia. Defined.
