(* ===== verification/CellSteps.v ===== *)
(** * Interleavings of one breaker cell

    Concurrent requests, the health prober and hard-downs act on the same cell.  Every action that
    writes the (state, cooldown, probe) triple holds the transition lock, so a run is a sequence of
    the atomic actions of Cell.v in any order, with any clock readings and any stale snapshots; the
    lock-free prologue of a failure is an action of its own.  [CellStep] is that relation. *)
From stdpp Require Import base list relations.
From Stdlib Require Import ZArith Lia.
From S2P Require Import Prelude Cell BreakerConfig CellFacts.
Import BreakerCell.
Open Scope Z_scope.

(** What a step did, as far as the single-flight probe is concerned. *)
Inductive Label :=
| LProbe (won : bool)                 (** the locked part of [cell_acquire_breaker] *)
| LFailurePrologue                    (** outcome pushed, error counted *)
| LFailure (tripped : bool)           (** the locked part of [cell_record_failure] *)
| LSuccess (recovered : bool)         (** [cell_record_success] *)
| LRelease                            (** [cell_release_probe] *)
| LReleaseOwned (owned_epoch : Z)     (** [cell_release_probe_owned] *)
| LClose (closed : bool)              (** [cell_closed_if_recoverable] *)
| LHardDown                           (** a hard-down trip *)
| LWeight.                            (** a selection or SWRR reset writes [current_weight] *)

Inductive CellStep : t -> Label -> t -> Prop :=
| StepProbe c now c' won :
    acquire_locked c now = (c', won) -> CellStep c (LProbe won) c'
| StepFailurePrologue c now :
    is_u64 now -> CellStep c LFailurePrologue (failure_prologue c now)
| StepFailure ts id c now cfg ra maxh c' tripped :
    is_u64 now -> cfg_ok cfg ->
    failure_locked ts id c now cfg ra maxh = Some (c', tripped) ->
    CellStep c (LFailure tripped) c'
| StepSuccess c now c' recovered :
    cell_record_success c now = (c', recovered) -> CellStep c (LSuccess recovered) c'
| StepRelease c : CellStep c LRelease (cell_release_probe c)
| StepReleaseOwned c e : CellStep c (LReleaseOwned e) (cell_release_probe_owned c e)
| StepClose c now observed c' closed :
    cell_closed_if_recoverable c now observed = (c', closed) -> CellStep c (LClose closed) c'
| StepHardDown c now secs :
    is_u64 now -> is_u64 secs -> CellStep c LHardDown (hard_down_locked c now secs)
| StepWeight c w : CellStep c LWeight (set_weight w c).

Inductive CellRun : t -> list Label -> t -> Prop :=
| RunNil c : CellRun c [] c
| RunCons c l c1 ls c2 : CellStep c l c1 -> CellRun c1 ls c2 -> CellRun c (l :: ls) c2.

(** Labels that end the probe of epoch [e], when there is one.  [LRelease] is the release of a finished attempt
    (release_probe_in), which carries no token and ends whoever's probe is out; only the release of a guard is
    checked against its token. *)
Definition ends_probe (e : Z) (l : Label) : bool :=
  match l with
  | LFailure _ | LSuccess _ | LRelease | LHardDown => true
  | LReleaseOwned e' => e' =? e
  | LClose closed => closed
  | LProbe _ | LFailurePrologue | LWeight => false
  end.

Definition is_win (l : Label) : bool := match l with LProbe true => true | _ => false end.

Definition wins (ls : list Label) : nat := length (List.filter is_win ls).

(** ** Preservation of the invariant *)
Lemma step_wf c l c' : CellStep c l c' -> cell_wf c -> cell_wf c'.
Proof.
  destruct 1; intros Hwf.
  - pose proof (acquire_locked_wf c now Hwf) as Hw. by rewrite H in Hw.
  - by apply failure_prologue_wf.
  - by eapply failure_locked_wf.
  - pose proof (cell_record_success_wf c now Hwf) as Hw. by rewrite H in Hw.
  - by apply cell_release_probe_wf.
  - by apply cell_release_probe_owned_wf.
  - pose proof (cell_closed_if_recoverable_wf c now observed Hwf) as Hw. by rewrite H in Hw.
  - by apply hard_down_locked_wf.
  - by apply set_weight_wf.
Qed.

Lemma run_wf c ls c' : CellRun c ls c' -> cell_wf c -> cell_wf c'.
Proof. induction 1; eauto using step_wf. Qed.

(** ** The owner token *)
Lemma acquire_locked_spec c now c' won :
  acquire_locked c now = (c', won) ->
  (won = false /\ c' = c) \/
  (won = true /\ breaker_state c = ST_OPEN /\ cooldown_until c <= now /\
   breaker_state c' = ST_HALF_OPEN /\ probe_epoch c' = wrap_u64 (probe_epoch c + 1)).
Proof.
  unfold acquire_locked, cas_state.
  destruct (negb _ || _) eqn:Hg; [intros [= <- <-]; by left|].
  apply orb_false_iff in Hg as [Hs Hc]. apply negb_false_iff in Hs. rewrite Hs.
  simpl_bool. intros [= <- <-]. right. simpl. auto.
Qed.

Lemma failure_locked_epoch ts id c now cfg ra maxh c' b :
  failure_locked ts id c now cfg ra maxh = Some (c', b) -> probe_epoch c' = probe_epoch c.
Proof.
  unfold failure_locked, cell_open_locked.
  repeat case_match; try (intros [= <- <-]; done);
    destruct (compute_cooldown_with_retry_after _ _ _ _ _ _); simpl; try done;
    intros [= <- <-]; done.
Qed.

Lemma cell_record_success_epoch c now : probe_epoch (cell_record_success c now).1 = probe_epoch c.
Proof. unfold cell_record_success, cas_state. by repeat case_match; simplify_eq. Qed.

Lemma cell_closed_if_recoverable_epoch c now obs :
  probe_epoch (cell_closed_if_recoverable c now obs).1 = probe_epoch c.
Proof. unfold cell_closed_if_recoverable. by repeat case_match. Qed.

Lemma cell_release_probe_epoch c : probe_epoch (cell_release_probe c) = probe_epoch c.
Proof. unfold cell_release_probe, cas_state. by case_match. Qed.

Lemma step_epoch c l c' :
  CellStep c l c' -> probe_epoch c' = if is_win l then wrap_u64 (probe_epoch c + 1) else probe_epoch c.
Proof.
  destruct 1 as [c now c' won H| | ts id c now cfg ra maxh c' tr ? ? H | c now c' r H | c | c e
                |c now obs c' cl H| |]; simpl; try done.
  - apply acquire_locked_spec in H as [[-> ->]|(-> & _ & _ & _ & He)]; done.
  - by eapply failure_locked_epoch.
  - pose proof (cell_record_success_epoch c now) as He. by rewrite H in He.
  - apply cell_release_probe_epoch.
  - unfold cell_release_probe_owned. case_match; [done|]. apply cell_release_probe_epoch.
  - pose proof (cell_closed_if_recoverable_epoch c now obs) as He. by rewrite H in He.
Qed.

Lemma wrap_u64_succ z k : wrap_u64 (wrap_u64 (z + 1) + k) = wrap_u64 (z + (k + 1)).
Proof. unfold wrap_u64. rewrite Z.add_mod_idemp_l by lia. f_equal. lia. Qed.

Lemma run_epoch c ls c' :
  CellRun c ls c' -> is_u64 (probe_epoch c) ->
  probe_epoch c' = wrap_u64 (probe_epoch c + Z.of_nat (wins ls)).
Proof.
  induction 1 as [c|c l c1 ls c2 Hs Hr IH]; intros Hu.
  - simpl. rewrite Z.add_0_r. by rewrite wrap_u64_id.
  - pose proof (step_epoch _ _ _ Hs) as He. unfold wins in *. simpl.
    destruct (is_win l); simpl.
    + rewrite IH by (rewrite He; apply wrap_u64_range). rewrite He, wrap_u64_succ.
      f_equal. lia.
    + rewrite IH by (by rewrite He). by rewrite He.
Qed.

(** ** A probe stays exclusive until something ends it *)
Lemma close_false_id c now obs c' :
  cell_closed_if_recoverable c now obs = (c', false) -> c' = c.
Proof. unfold cell_closed_if_recoverable. repeat case_match; congruence. Qed.

Lemma half_open_step c l c' :
  CellStep c l c' -> breaker_state c = ST_HALF_OPEN -> ends_probe (probe_epoch c) l = false ->
  breaker_state c' = ST_HALF_OPEN /\ is_win l = false.
Proof.
  destruct 1 as [c now c' won H| | | | | c e |c now obs c' cl H| |]; simpl; intros Hh He; try done.
  - apply acquire_locked_spec in H as [[-> ->]|(-> & Ho & _)]; [done|].
    rewrite Hh in Ho. done.
  - unfold cell_release_probe_owned. rewrite Z.eqb_sym, He. done.
  - destruct cl; [done|]. by apply close_false_id in H as ->.
Qed.

Lemma half_open_run c ls c' :
  CellRun c ls c' -> breaker_state c = ST_HALF_OPEN ->
  Forall (fun l => ends_probe (probe_epoch c) l = false) ls ->
  breaker_state c' = ST_HALF_OPEN /\ probe_epoch c' = probe_epoch c /\ wins ls = 0%nat.
Proof.
  induction 1 as [c|c l c1 ls c2 Hs Hr IH]; intros Hh HF; [done|].
  apply Forall_cons in HF as [Hl HF].
  destruct (half_open_step _ _ _ Hs Hh Hl) as [Hh1 Hw].
  pose proof (step_epoch _ _ _ Hs) as He. rewrite Hw in He.
  rewrite He in IH. destruct (IH Hh1 HF) as (? & ? & ?).
  unfold wins in *. simpl. by rewrite Hw.
Qed.

(** ** Recovery *)
Lemma acquire_eq_ready c now :
  cell_wf c -> (cell_acquire_breaker c now).2 = cell_ready_breaker c now.
Proof.
  intros Hwf. unfold cell_acquire_breaker, cell_ready_breaker.
  destruct (breaker_state c =? ST_CLOSED); [done|].
  destruct (breaker_state c =? ST_OPEN) eqn:Ho; [|by case_match].
  destruct (cooldown_until c <=? now) eqn:Hc; [|done].
  unfold acquire_locked, cas_state. rewrite Ho. simpl.
  apply Z.leb_le in Hc. by destruct (Z.ltb_spec now (cooldown_until c)); [lia|].
Qed.

Lemma ready_when_cooled c now :
  cell_wf c -> breaker_state c <> ST_HALF_OPEN -> cooldown_until c <= now ->
  cell_ready_breaker c now = true.
Proof.
  intros Hwf Hh Hc. unfold cell_ready_breaker.
  destruct (wf_state _ Hwf) as [->|[->|]]; simpl; [by apply Z.leb_le..|done].
Qed.

Lemma failure_locked_states ts id c now cfg ra maxh c' b :
  failure_locked ts id c now cfg ra maxh = Some (c', b) ->
  (breaker_state c = ST_CLOSED /\ b = true /\ breaker_state c' = ST_OPEN) \/
  (breaker_state c = ST_CLOSED /\ b = false /\ breaker_state c' = ST_CLOSED) \/
  (breaker_state c <> ST_CLOSED /\ b = false /\
   (breaker_state c = ST_HALF_OPEN -> breaker_state c' = ST_OPEN) /\
   (breaker_state c <> ST_HALF_OPEN -> c' = c)).
Proof.
  unfold failure_locked, cell_open_locked.
  destruct (Z.eqb_spec (breaker_state c) ST_CLOSED) as [Hc|Hc].
  - destruct (should_trip _ _ _);
      destruct (compute_cooldown_with_retry_after _ _ _ _ _ _); simpl; try done;
      intros Heq; simplify_eq; simpl; auto.
  - intros Heq; right; right; revert Heq.
    destruct (Z.eqb_spec (breaker_state c) ST_HALF_OPEN) as [Hh|Hh].
    + destruct (compute_cooldown_with_retry_after _ _ _ _ _ _); simpl; try done.
      intros Heq; simplify_eq. done.
    + case_match; intros Heq; simplify_eq; done.
Qed.

(** ** Theorems *)

(** C37.  Whatever the interleaving of probes, failures, successes, releases, recoveries and
    hard-downs, a cell created by the store keeps its invariant: the state is one of the three
    encodings, the probe flag is set exactly in HalfOpen, the outcome window never outgrows its
    capacity and every counter stays in its machine range. *)
Theorem cell_invariant_any_interleaving ls c : CellRun new ls c -> cell_wf c.
Proof. intros H. eapply run_wf; [exact H|]. apply new_wf. Qed.

(** A hard-down followed by a won probe and its success. *)
Definition demo_open : t := hard_down_locked new 100 30.
Definition demo_half : t := (acquire_locked demo_open 200).1.
Definition demo_closed : t := (cell_record_success demo_half 201).1.

Lemma demo_run : CellRun new [LHardDown; LProbe true; LSuccess true] demo_closed.
Proof.
  econstructor; [apply (StepHardDown new 100 30); mach_lia|].
  econstructor; [apply (StepProbe demo_open 200 demo_half true); reflexivity|].
  econstructor; [apply (StepSuccess demo_half 201 demo_closed true); reflexivity|].
  constructor.
Qed.

Lemma cell_invariant_any_interleaving_witness :
  cell_wf demo_closed /\ breaker_state demo_closed = ST_CLOSED.
Proof.
  split; [|reflexivity].
  apply (cell_invariant_any_interleaving [LHardDown; LProbe true; LSuccess true]).
  exact demo_run.
Defined.

(** C16.  The recovery probe is single-flight: once a dispatcher has won it on a well-formed cell, no other dispatcher
    wins one until the cell records an outcome (of whichever attempt), or the probe is released (by
    its own guard, or by the release at the end of an attempt, which checks no token), or the
    cell is closed or hard-downed; in between, whatever else happens, releases by guards of earlier probes
    included, the cell stays HalfOpen under the same owner token. *)
Theorem single_flight_probe c0 now c ls c' :
  cell_wf c0 -> acquire_locked c0 now = (c, true) -> CellRun c ls c' ->
  Forall (fun l => ends_probe (probe_epoch c) l = false) ls ->
  wins ls = 0%nat /\ breaker_state c' = ST_HALF_OPEN /\ probe_epoch c' = probe_epoch c /\
  forall now', (cell_acquire_breaker c' now').2 = false.
Proof.
  intros Hwf Ha Hr HF.
  apply acquire_locked_spec in Ha as [[]|(_ & _ & _ & Hh & _)]; [done|].
  destruct (half_open_run _ _ _ Hr Hh HF) as (Hh' & He & Hw).
  repeat split; try done. intros now'. unfold cell_acquire_breaker. by rewrite Hh'.
Qed.

Lemma single_flight_probe_witness :
  wins [LFailurePrologue; LReleaseOwned 7; LProbe false] = 0%nat /\
  breaker_state (failure_prologue demo_half 202) = ST_HALF_OPEN /\
  probe_epoch (failure_prologue demo_half 202) = probe_epoch demo_half /\
  forall now', (cell_acquire_breaker (failure_prologue demo_half 202) now').2 = false.
Proof.
  apply (single_flight_probe demo_open 200 demo_half).
  - apply hard_down_locked_wf; [apply new_wf|mach_lia|mach_lia].
  - reflexivity.
  - econstructor; [apply StepFailurePrologue with (now := 202); mach_lia|].
    econstructor; [apply (StepReleaseOwned _ 7)|].
    econstructor; [apply (StepProbe _ 203); reflexivity|]. constructor.
  - repeat constructor.
Defined.

(** The release at the end of an attempt ends a probe that attempt does not own: an attempt that was sent before
    the hard-down finishes, and a second probe goes out beside the first. *)
Example straggler_release_frees_probe :
  let c := cell_release_probe demo_half in
  (cell_acquire_breaker demo_half 203).2 = false /\ (cell_acquire_breaker c 203).2 = true.
Proof. vm_compute. auto. Qed.

(** A stale owner's release is a no-op: after the probe of token [e] was superseded by
    another win (fewer than 2^64 wins later), dropping the old guard leaves the cell untouched. *)
Theorem stale_owned_release_noop c ls c' :
  cell_wf c -> CellRun c ls c' ->
  (0 < wins ls)%nat -> Z.of_nat (wins ls) <= U64_MAX ->
  cell_release_probe_owned c' (probe_epoch c) = c'.
Proof.
  intros Hwf Hr Hpos Hlt. pose proof (run_epoch _ _ _ Hr (wf_epoch _ Hwf)) as He.
  unfold cell_release_probe_owned. rewrite He. clear He Hr.
  destruct (Z.eqb_spec (wrap_u64 (probe_epoch c + Z.of_nat (wins ls))) (probe_epoch c)) as [Hq|];
    [|done].
  exfalso. destruct (wf_epoch _ Hwf) as [H1 H2]. unfold wrap_u64, U64_MAX in *.
  destruct (Z_lt_le_dec (probe_epoch c + Z.of_nat (wins ls)) 18446744073709551616) as [Hs|Hs].
  - rewrite Z.mod_small in Hq; lia.
  - rewrite <- (Z.mod_unique _ 18446744073709551616 1
      (probe_epoch c + Z.of_nat (wins ls) - 18446744073709551616)) in Hq; lia.
Qed.

Lemma stale_owned_release_noop_witness :
  cell_release_probe_owned demo_half (probe_epoch new) = demo_half.
Proof.
  apply (stale_owned_release_noop new [LHardDown; LProbe true]).
  - apply new_wf.
  - econstructor; [apply (StepHardDown new 100 30); mach_lia|].
    econstructor; [apply (StepProbe demo_open 200 demo_half true); reflexivity|]. constructor.
  - vm_compute. lia.
  - vm_compute. discriminate.
Defined.

(** No cell is benched for good: at any time past its cooldown a reachable cell either admits
    the next dispatch, or is HalfOpen with its probe in flight, and then a success, or the owner
    dropping its guard, makes the next dispatch at that time admitted again. *)
Theorem cell_never_wedged c now :
  cell_wf c -> cooldown_until c <= now -> 0 <= now ->
  (cell_acquire_breaker c now).2 = true \/
  (breaker_state c = ST_HALF_OPEN /\ probe_in_flight c = true /\
   (cell_acquire_breaker (cell_record_success c now).1 now).2 = true /\
   (cell_acquire_breaker (cell_release_probe_owned c (probe_epoch c)) now).2 = true).
Proof.
  intros Hwf Hc Hn. destruct (Z.eq_dec (breaker_state c) ST_HALF_OPEN) as [Hh|Hh].
  - right. repeat split; [done|by apply (wf_probe _ Hwf)| |].
    + rewrite acquire_eq_ready by (by apply cell_record_success_wf).
      apply ready_when_cooled; [by apply cell_record_success_wf| |];
        unfold cell_record_success, cas_state; rewrite Hh; simpl; rewrite ?Hh; simpl; done.
    + rewrite acquire_eq_ready by (by apply cell_release_probe_owned_wf).
      apply ready_when_cooled; [by apply cell_release_probe_owned_wf| |];
        unfold cell_release_probe_owned, cas_state; rewrite Z.eqb_refl, Hh; simpl; done.
  - left. rewrite acquire_eq_ready by done. by apply ready_when_cooled.
Qed.

Lemma cell_never_wedged_witness :
  (cell_acquire_breaker demo_half 200).2 = true \/
  (breaker_state demo_half = ST_HALF_OPEN /\ probe_in_flight demo_half = true /\
   (cell_acquire_breaker (cell_record_success demo_half 200).1 200).2 = true /\
   (cell_acquire_breaker (cell_release_probe_owned demo_half (probe_epoch demo_half)) 200).2 = true).
Proof.
  apply cell_never_wedged; [|vm_compute; discriminate|lia].
  apply acquire_locked_wf, hard_down_locked_wf; [apply new_wf|mach_lia|mach_lia].
Defined.

(** A health probe's recovery never erases a stricter suppression armed after the probe looked:
    if the cooldown was raised beyond the observed value, the cell is left exactly as it was;
    otherwise a suppressed cell becomes Closed and admits at once. *)
Theorem recovery_respects_newer_cooldown c now observed :
  cell_wf c -> 0 <= now ->
  (observed < cooldown_until c -> cell_closed_if_recoverable c now observed = (c, false)) /\
  (cooldown_until c <= observed ->
     (cell_closed_if_recoverable c now observed).2 = suppressed c now /\
     (cell_acquire_breaker (cell_closed_if_recoverable c now observed).1 now).2 = true).
Proof.
  intros Hwf Hn. unfold cell_closed_if_recoverable. split; intros Hc.
  - by destruct (Z.ltb_spec observed (cooldown_until c)); [|lia].
  - destruct (Z.ltb_spec observed (cooldown_until c)); [lia|].
    destruct (suppressed c now) eqn:Hs; simpl; split; try done.
    + unfold cell_acquire_breaker. simpl. by apply Z.leb_le.
    + unfold suppressed in Hs. simpl_bool. unfold cell_acquire_breaker.
      rewrite H0. simpl. by apply Z.leb_le.
Qed.

Lemma recovery_respects_newer_cooldown_witness :
  (50 < cooldown_until demo_open -> cell_closed_if_recoverable demo_open 60 50 = (demo_open, false)) /\
  (cooldown_until demo_open <= 50 ->
     (cell_closed_if_recoverable demo_open 60 50).2 = suppressed demo_open 60 /\
     (cell_acquire_breaker (cell_closed_if_recoverable demo_open 60 50).1 60).2 = true).
Proof.
  apply recovery_respects_newer_cooldown; [|lia].
  apply hard_down_locked_wf; [apply new_wf|mach_lia|mach_lia].
Defined.

(** A recorded failure reports a trip exactly when it moved the cell from Closed to Open; it
    never closes a cell, it reopens a HalfOpen one, and on an Open cell it leaves the state, the
    cooldown, the streak and the probe as they were. *)
Theorem record_failure_trip_report ts id c now cfg ra maxh c' b :
  cell_record_failure ts id c now cfg ra maxh = Some (c', b) ->
  (b = true <-> breaker_state c = ST_CLOSED /\ breaker_state c' = ST_OPEN) /\
  (breaker_state c <> ST_CLOSED -> breaker_state c' <> ST_CLOSED) /\
  (breaker_state c = ST_HALF_OPEN -> breaker_state c' = ST_OPEN) /\
  (breaker_state c = ST_OPEN ->
     breaker_state c' = ST_OPEN /\ cooldown_until c' = cooldown_until c /\
     streak c' = streak c /\ probe_in_flight c' = probe_in_flight c).
Proof.
  unfold cell_record_failure. intros H. apply failure_locked_states in H. simpl in H.
  destruct H as [(Hc & -> & Ho)|[(Hc & -> & Ho)|(Hc & -> & Hh & Hn)]]; st_unfold.
  - rewrite Hc, Ho. repeat split; intros; lia.
  - rewrite Hc, Ho. repeat split; intros; try done; lia.
  - destruct (Z.eq_dec (breaker_state c) 2) as [E|E].
    + rewrite (Hh E), E. repeat split; intros; try done; lia.
    + rewrite (Hn E). simpl. repeat split; intros; try done; intuition congruence.
Qed.

Definition demo_failure : option (t * bool) :=
  cell_record_failure 12345 77 demo_half 300 BreakerCfg.default (Some 40) 86400.

Lemma record_failure_trip_report_witness :
  match demo_failure with
  | Some (c', b) => b = false /\ breaker_state c' = ST_OPEN /\ cooldown_until c' = 340
  | None => False
  end.
Proof.
  destruct demo_failure as [[c' b]|] eqn:E; [|vm_compute in E; discriminate].
  pose proof (record_failure_trip_report 12345 77 demo_half 300 BreakerCfg.default (Some 40) 86400
                c' b E) as (_ & _ & Hh & _).
  repeat split; [|by apply Hh|]; vm_compute in E; injection E as <- <-; reflexivity.
Defined.
