(* ===== verification/Swrr.v ===== *)
(** * Smooth weighted round-robin

    The arithmetic core of [select_weighted_for] (crates/busbar/src/store/in_memory.rs): add every
    weight, take the first maximum, subtract the total from it.  Here on a list of weights and a
    list of accumulators; Store.v applies it to the healthy cells of a pool. *)
From stdpp Require Import base list sets.
From Stdlib Require Import ZArith Lia.
From S2P Require Import Prelude.
Open Scope Z_scope.

(** The max-finding loop: a strictly greater accumulator replaces the best so far. *)
Fixpoint find_best (i : nat) (best : option nat) (best_weight : Z) (cws : list Z) : option nat :=
  match cws with
  | [] => best
  | cw :: rest =>
      if best_weight <? cw then find_best (S i) (Some i) cw rest
      else find_best (S i) best best_weight rest
  end.

Definition swrr_add (ws cws : list Z) : list Z := zip_with (fun w c => wrap_i64 (c + w)) ws cws.

Definition swrr_sub (total : Z) (i : nat) (cws : list Z) : list Z :=
  alter (fun c => wrap_i64 (c - total)) i cws.

(** One selection: the picked position and the new accumulators. *)
Definition swrr_step (ws cws : list Z) : option nat * list Z :=
  let total := wrap_i64 (Zsum ws) in
  let cws := swrr_add ws cws in
  match find_best 0 None I64_MIN cws with
  | Some i => (Some i, swrr_sub total i cws)
  | None => (None, cws)
  end.

Fixpoint swrr_run (k : nat) (ws cws : list Z) : list nat * list Z :=
  match k with
  | O => ([], cws)
  | S k =>
      let '(r, cws1) := swrr_step ws cws in
      let '(picks, cws2) := swrr_run k ws cws1 in
      (match r with Some i => i :: picks | None => picks end, cws2)
  end.

(** ** The maximum finder *)
Lemma find_best_keep i best bw cws :
  (forall c, c ∈ cws -> c <= bw) -> find_best i best bw cws = best.
Proof.
  revert i. induction cws as [|c cws IH]; intros i Hle; simpl; [done|].
  destruct (Z.ltb_spec bw c); [specialize (Hle c ltac:(set_solver)); lia|].
  apply IH. set_solver.
Qed.

Lemma find_best_spec i best bw cws :
  (exists c, c ∈ cws /\ bw < c) ->
  exists j m, find_best i best bw cws = Some (i + j)%nat /\ cws !! j = Some m /\ bw < m /\
    (forall c, c ∈ cws -> c <= m) /\ (forall j' c, cws !! j' = Some c -> (j' < j)%nat -> c < m).
Proof.
  revert i best bw. induction cws as [|c cws IH]; intros i best bw Hex; simpl.
  - destruct Hex as (c & Hc%not_elem_of_nil & _). done.
  - destruct (Z.ltb_spec bw c) as [Hlt|Hge].
    + destruct (decide (Exists (fun x => c < x) cws)) as [Hx|Hx].
      * apply Exists_exists in Hx.
        destruct (IH (S i) (Some i) c Hx) as (j & m & Hf & Hj & Hm & Hall & Hfst).
        exists (S j), m. rewrite Hf. split; [f_equal; lia|]. split; [done|]. split; [lia|].
        split.
        -- intros x [->|Hx']%elem_of_cons; [lia|auto].
        -- intros [|j'] x Hx' Hj'; simpl in Hx'; [simplify_eq; lia|].
           eapply Hfst; [exact Hx'|lia].
      * exists 0%nat, c. apply not_Exists_Forall in Hx; [|intros x; apply Z_lt_dec].
        assert (forall x, x ∈ cws -> x <= c) as Hle.
        { rewrite Forall_forall in Hx. intros x Hin. specialize (Hx x Hin). simpl in Hx. lia. }
        rewrite find_best_keep by done.
        split; [f_equal; lia|]. split; [done|]. split; [done|]. split.
        -- intros x [->|Hx']%elem_of_cons; [lia|auto].
        -- intros j' x _ Hj'. lia.
    + destruct (IH (S i) best bw) as (j & m & Hf & Hj & Hm & Hall & Hfst).
      { destruct Hex as (x & [->|Hx]%elem_of_cons & Hb); [lia|eauto]. }
      exists (S j), m. rewrite Hf. split; [f_equal; lia|]. split; [done|]. split; [done|]. split.
      * intros x [->|Hx']%elem_of_cons; [lia|auto].
      * intros [|j'] x Hx' Hj'; simpl in Hx'; [simplify_eq; lia|].
        eapply Hfst; [exact Hx'|lia].
Qed.

(** ** Sums of updated lists *)
Lemma Zsum_zip_add ws cs :
  length ws = length cs -> Zsum (zip_with (fun w c => c + w) ws cs) = Zsum ws + Zsum cs.
Proof.
  revert cs. induction ws as [|w ws IH]; intros [|c cs] Hl; simpl in *; try lia.
  rewrite IH by lia. lia.
Qed.

Lemma Zsum_alter (f : Z -> Z) (cs : list Z) i c :
  cs !! i = Some c -> Zsum (alter f i cs) = Zsum cs - c + f c.
Proof.
  revert i. induction cs as [|x cs IH]; intros [|i] Hi; simpl in Hi; try done.
  - simplify_eq. change (alter f 0%nat (c :: cs)) with (f c :: cs). simpl. lia.
  - change (alter f (S i) (x :: cs)) with (x :: alter f i cs). simpl. rewrite (IH _ Hi). lia.
Qed.

Lemma Zsum_le_max cs m : (forall c, c ∈ cs -> c <= m) -> Zsum cs <= Z.of_nat (length cs) * m.
Proof.
  induction cs as [|c cs IH]; intros Hall; simpl; [lia|].
  assert (c <= m) by (apply Hall; set_solver).
  assert (Zsum cs <= Z.of_nat (length cs) * m) by (apply IH; set_solver). lia.
Qed.

Lemma Zsum_lower cs b i c :
  (forall c, c ∈ cs -> b <= c) -> cs !! i = Some c ->
  c + (Z.of_nat (length cs) - 1) * b <= Zsum cs.
Proof.
  revert i. induction cs as [|x cs IH]; intros i Hall Hi; [done|]. simpl length. rewrite Zsum_cons.
  assert (b <= x) by (apply Hall; set_solver).
  destruct i as [|i]; simpl in Hi.
  - simplify_eq. assert (Z.of_nat (length cs) * b <= Zsum cs) as H1; [|lia].
    assert (forall y, y ∈ cs -> b <= y) as Hb by set_solver. clear -Hb.
    induction cs as [|y cs IH]; simpl; [lia|].
    assert (b <= y) by (apply Hb; set_solver).
    assert (Z.of_nat (length cs) * b <= Zsum cs) by (apply IH; set_solver). lia.
  - assert (c + (Z.of_nat (length cs) - 1) * b <= Zsum cs) by (apply (IH i); set_solver). lia.
Qed.

(** ** The invariant of the accumulators *)

(** The weights are the positive [u32] weights of a healthy set that is not absurdly large, so
    that no [i64] accumulator can overflow. *)
Definition weights_ok (ws : list Z) : Prop :=
  ws <> [] /\ Forall (fun w => 1 <= w <= U32_MAX) ws /\ Z.of_nat (length ws) <= 32768.

Record accs_ok (ws cws : list Z) : Prop := {
  acc_length : length cws = length ws;
  acc_sum : Zsum cws = 0;
  acc_lower : Forall (fun c => - Zsum ws < c) cws }.

Lemma weights_total ws : weights_ok ws -> 1 <= Zsum ws <= 32768 * U32_MAX.
Proof.
  intros (Hne & Hf & Hl). split.
  - destruct ws as [|w ws]; [done|]. apply Forall_cons in Hf as [Hw Hf]. simpl.
    assert (0 <= Zsum ws); [|lia]. clear -Hf. induction Hf; simpl; [done|lia].
  - etrans; [apply (Zsum_le_max ws U32_MAX)|].
    + intros c Hc. rewrite Forall_forall in Hf. specialize (Hf c Hc). simpl in Hf. lia.
    + unfold U32_MAX. lia.
Qed.

Lemma acc_upper ws cws c :
  weights_ok ws -> accs_ok ws cws -> c ∈ cws -> c <= 32768 * Zsum ws.
Proof.
  intros Hw [Hl Hs Hlo] [i Hi]%list_elem_of_lookup.
  pose proof (weights_total ws Hw) as HW. destruct Hw as (Hne & _ & Hn).
  pose proof (Zsum_lower cws (- Zsum ws) i c) as H1. rewrite Hs in H1.
  assert (c + (Z.of_nat (length cws) - 1) * - Zsum ws <= 0); [|nia].
  apply H1; [|done]. rewrite Forall_forall in Hlo. intros x Hx. specialize (Hlo x Hx). simpl in Hlo.
  lia.
Qed.

(** Inside the invariant the wrapping operations are the exact ones. *)
Lemma swrr_add_exact ws cws :
  weights_ok ws -> accs_ok ws cws -> swrr_add ws cws = zip_with (fun w c => c + w) ws cws.
Proof.
  intros Hw Ha. unfold swrr_add.
  pose proof (weights_total ws Hw) as HW.
  assert (forall w c, w ∈ ws -> c ∈ cws -> wrap_i64 (c + w) = c + w) as Hx.
  { intros w c Hwi Hci. apply wrap_i64_id.
    pose proof (acc_upper ws cws c Hw Ha Hci).
    destruct Hw as (_ & Hf & _). rewrite Forall_forall in Hf. specialize (Hf w Hwi). simpl in Hf.
    destruct Ha as [_ _ Hlo]. rewrite Forall_forall in Hlo. specialize (Hlo c Hci). simpl in Hlo.
    mach_lia. }
  clear HW Hw Ha. revert cws Hx. induction ws as [|w ws IH]; intros [|c cws] Hx; simpl; try done.
  f_equal; [apply Hx; set_solver|]. apply IH. intros. apply Hx; set_solver.
Qed.

Lemma elem_of_zip_add (x : Z) ws cs :
  x ∈ zip_with (fun w c => c + w) ws cs -> exists w c, w ∈ ws /\ c ∈ cs /\ x = c + w.
Proof. intros (w & c & -> & ? & ?)%elem_of_zip_with. eauto. Qed.

(** The step in exact arithmetic, with the first maximum picked. *)
Lemma swrr_step_spec ws cws :
  weights_ok ws -> accs_ok ws cws ->
  exists i m,
    swrr_step ws cws =
      (Some i, alter (fun c => c - Zsum ws) i (zip_with (fun w c => c + w) ws cws)) /\
    zip_with (fun w c => c + w) ws cws !! i = Some m /\ 0 < m /\
    (forall j c, zip_with (fun w c => c + w) ws cws !! j = Some c -> c <= m /\ ((j < i)%nat -> c < m)).
Proof.
  intros Hw Ha. pose proof (weights_total ws Hw) as HW.
  unfold swrr_step. rewrite swrr_add_exact by done.
  set (l := zip_with (fun w c => c + w) ws cws).
  assert (Zsum l = Zsum ws) as Hsum.
  { subst l. rewrite Zsum_zip_add by (symmetry; apply Ha). destruct Ha as [_ -> _]. lia. }
  assert (length l = length ws) as Hlen.
  { subst l. rewrite length_zip_with. destruct Ha as [-> _ _]. lia. }
  destruct (find_best_spec 0 None I64_MIN l) as (j & m & Hf & Hj & Hm & Hall & Hfst).
  { assert (0 < length l)%nat as Hlt.
    { rewrite Hlen. destruct Hw as [Hne _]. destruct ws; simpl; [done|lia]. }
    destruct (lookup_lt_is_Some_2 l 0 Hlt) as [x Hx]. apply list_elem_of_lookup_2 in Hx.
    exists x. split; [done|].
    destruct (elem_of_zip_add x ws cws Hx) as (w & c & Hwi & Hci & ->).
    destruct Hw as (_ & Hfw & _). rewrite Forall_forall in Hfw. specialize (Hfw w Hwi). simpl in Hfw.
    destruct Ha as [_ _ Hlo]. rewrite Forall_forall in Hlo. specialize (Hlo c Hci). simpl in Hlo.
    unfold I64_MIN, U32_MAX in *. lia. }
  assert (0 < m) as Hpos.
  { pose proof (Zsum_le_max l m Hall) as Hle. rewrite Hsum in Hle. nia. }
  exists j, m. rewrite Hf. simpl. rewrite (wrap_i64_id (Zsum ws)) by mach_lia.
  split; [|split; [done|split; [done|]]].
  - f_equal. unfold swrr_sub. apply list_eq. intros k.
    destruct (decide (j = k)) as [->|Hne].
    + rewrite !list_lookup_alter_eq, Hj. simpl. f_equal. apply wrap_i64_id.
      assert (m <= 32768 * Zsum ws + U32_MAX).
      { assert (m ∈ l) as Hmi by (apply list_elem_of_lookup; eauto).
        destruct (elem_of_zip_add m ws cws Hmi) as (w & c & Hwi & Hci & ->).
        pose proof (acc_upper ws cws c Hw Ha Hci).
        destruct Hw as (_ & Hfw & _). rewrite Forall_forall in Hfw. specialize (Hfw w Hwi).
        simpl in Hfw. lia. }
      mach_lia.
    + by rewrite !list_lookup_alter_ne by done.
  - intros k c Hk. split; [|by apply Hfst]. apply Hall, list_elem_of_lookup. eauto.
Qed.

Lemma swrr_step_accs ws cws i cws' :
  weights_ok ws -> accs_ok ws cws -> swrr_step ws cws = (Some i, cws') -> accs_ok ws cws'.
Proof.
  intros Hw Ha Hs. destruct (swrr_step_spec ws cws Hw Ha) as (i' & m & Heq & Hi & Hpos & _).
  rewrite Heq in Hs. simplify_eq. pose proof (weights_total ws Hw).
  destruct Ha as [Hl Hsum Hlo]. constructor.
  - rewrite length_alter, length_zip_with. lia.
  - rewrite (Zsum_alter _ _ _ _ Hi), Zsum_zip_add by done. lia.
  - apply Forall_forall. intros x [k Hk]%list_elem_of_lookup.
    destruct (decide (i = k)) as [->|Hne].
    + rewrite list_lookup_alter_eq, Hi in Hk. simpl in Hk. simplify_eq. lia.
    + rewrite list_lookup_alter_ne in Hk by done.
      destruct (elem_of_zip_add x ws cws) as (w & c & Hwi & Hci & ->);
        [apply list_elem_of_lookup; eauto|].
      rewrite Forall_forall in Hlo. specialize (Hlo c Hci). simpl in Hlo.
      destruct Hw as (_ & Hfw & _). rewrite Forall_forall in Hfw. specialize (Hfw w Hwi).
      simpl in Hfw. lia.
Qed.

(** ** Counting the picks *)
Definition picks_of (i : nat) (picks : list nat) : Z :=
  Z.of_nat (length (List.filter (Nat.eqb i) picks)).

Lemma picks_of_cons i j picks :
  picks_of i (j :: picks) = (if decide (i = j) then 1 else 0) + picks_of i picks.
Proof.
  unfold picks_of. simpl. destruct (Nat.eqb_spec i j) as [->|Hne].
  - rewrite decide_True by done. simpl length. lia.
  - by rewrite decide_False by done.
Qed.

(** What a step does to one accumulator. *)
Lemma swrr_step_lookup ws cws i cws' k w c :
  weights_ok ws -> accs_ok ws cws -> swrr_step ws cws = (Some i, cws') ->
  ws !! k = Some w -> cws !! k = Some c ->
  cws' !! k = Some (c + w - (if decide (k = i) then Zsum ws else 0)).
Proof.
  intros Hw Ha Hs Hk Hc. destruct (swrr_step_spec ws cws Hw Ha) as (i' & m & Heq & Hi & _).
  rewrite Heq in Hs. simplify_eq.
  assert (zip_with (fun w c => c + w) ws cws !! k = Some (c + w)) as Hz
    by (rewrite lookup_zip_with, Hk; simpl; by rewrite Hc).
  destruct (decide (k = i)) as [->|Hne].
  - rewrite list_lookup_alter_eq, Hz. simpl. done.
  - rewrite list_lookup_alter_ne by done. rewrite Hz. f_equal. lia.
Qed.

(** A run keeps the invariant, makes one pick per step, and each accumulator records the
    difference between the share a member is owed and the picks it got. *)
Lemma swrr_run_spec n ws cws picks cws' :
  weights_ok ws -> accs_ok ws cws -> swrr_run n ws cws = (picks, cws') ->
  accs_ok ws cws' /\ length picks = n /\
  forall k w c, ws !! k = Some w -> cws !! k = Some c ->
    cws' !! k = Some (c + Z.of_nat n * w - picks_of k picks * Zsum ws).
Proof.
  intros Hw. revert cws picks cws'. induction n as [|n IH]; intros cws picks cws' Ha Hr; simpl in Hr.
  - simplify_eq. split; [done|]. split; [done|]. intros k w c _ Hc. rewrite Hc. f_equal.
    change (picks_of k []) with 0. lia.
  - destruct (swrr_step_spec ws cws Hw Ha) as (i & m & Hs & _). rewrite Hs in Hr.
    pose proof (swrr_step_accs ws cws _ _ Hw Ha Hs) as Ha1.
    destruct (swrr_run n ws _) as [ps cws2] eqn:Hr2 in Hr. simplify_eq.
    destruct (IH _ _ _ Ha1 Hr2) as (Ha2 & Hlen & Hl).
    split; [done|]. split; [simpl; by rewrite Hlen|].
    intros k w c Hk Hc.
    pose proof (swrr_step_lookup _ _ _ _ _ _ _ Hw Ha Hs Hk Hc) as Hk1.
    rewrite (Hl _ _ _ Hk Hk1), picks_of_cons. f_equal. destruct (decide (k = i)); lia.
Qed.

Lemma zeros_ok ws : weights_ok ws -> accs_ok ws (replicate (length ws) 0).
Proof.
  intros Hw. pose proof (weights_total ws Hw). constructor.
  - by rewrite length_replicate.
  - clear. induction (length ws); simpl; [done|lia].
  - apply Forall_replicate. lia.
Qed.

Lemma accs_nonneg_zero (cs : list Z) : Forall (fun c => 0 <= c) cs -> Zsum cs = 0 -> Forall (fun c => c = 0) cs.
Proof.
  induction 1 as [|c cs Hc Hf IH]; intros Hs; [constructor|]. simpl in Hs.
  assert (0 <= Zsum cs) by (clear -Hf; induction Hf; simpl; [done|lia]).
  constructor; [lia|]. apply IH. lia.
Qed.

Lemma period_nonneg W w p : 0 < W -> - W < W * w - p * W -> 0 <= W * w - p * W.
Proof. intros HW H. assert (p <= w) by nia. nia. Qed.

(** ** Theorems *)

(** C39.  Exact proportional distribution: over one full period of [total weight] selections from
    fresh accumulators every member is picked exactly as often as its weight, and the accumulators
    are back at zero, so every further period repeats it.  Along the way no member ever runs ahead
    of its share by a full selection. *)
Theorem swrr_exact_proportional_distribution ws n picks cws :
  weights_ok ws -> swrr_run n ws (replicate (length ws) 0) = (picks, cws) ->
  (forall k w, ws !! k = Some w -> picks_of k picks * Zsum ws < Z.of_nat n * w + Zsum ws) /\
  (Z.of_nat n = Zsum ws ->
     (forall k w, ws !! k = Some w -> picks_of k picks = w) /\ Forall (fun c => c = 0) cws).
Proof.
  intros Hw Hr. pose proof (weights_total ws Hw) as HW.
  destruct (swrr_run_spec _ _ _ _ _ Hw (zeros_ok ws Hw) Hr) as ([Hl Hs Hlo] & Hn & Hk).
  assert (forall k w, ws !! k = Some w ->
            cws !! k = Some (Z.of_nat n * w - picks_of k picks * Zsum ws)) as Hk'.
  { intros k w Hkw. rewrite (Hk k w 0 Hkw); [f_equal; lia|].
    apply lookup_replicate_2. by eapply lookup_lt_Some. }
  rewrite Forall_forall in Hlo. split.
  - intros k w Hkw. specialize (Hk' k w Hkw). apply list_elem_of_lookup_2 in Hk'.
    specialize (Hlo _ Hk'). simpl in Hlo. lia.
  - intros Hperiod. assert (Forall (fun c => c = 0) cws) as Hz.
    { apply accs_nonneg_zero; [|done]. apply Forall_forall. intros c Hc.
      specialize (Hlo c Hc). simpl in Hlo. apply list_elem_of_lookup in Hc as [k Hck].
      destruct (lookup_lt_is_Some_2 ws k) as [w Hw']; [rewrite <- Hl; by eapply lookup_lt_Some|].
      rewrite (Hk' k w Hw'), Hperiod in Hck. injection Hck as <-. apply period_nonneg in Hlo; lia. }
    split; [|done]. intros k w Hkw. specialize (Hk' k w Hkw).
    rewrite Forall_forall in Hz. apply list_elem_of_lookup_2, Hz in Hk'. rewrite Hperiod in Hk'.
    apply (Z.mul_reg_r _ _ (Zsum ws)); lia.
Qed.

Lemma swrr_exact_proportional_distribution_witness :
  (forall k w, [5; 1; 1] !! k = Some w ->
     picks_of k [0; 0; 1; 0; 2; 0; 0]%nat * Zsum [5; 1; 1] < Z.of_nat 7 * w + Zsum [5; 1; 1]) /\
  (Z.of_nat 7 = Zsum [5; 1; 1] ->
     (forall k w, [5; 1; 1] !! k = Some w -> picks_of k [0; 0; 1; 0; 2; 0; 0]%nat = w) /\
     Forall (fun c => c = 0) [0; 0; 0]).
Proof.
  apply (swrr_exact_proportional_distribution [5; 1; 1] 7).
  - split; [done|]. split; [|simpl; lia]. repeat constructor; unfold U32_MAX; lia.
  - vm_compute. reflexivity.
Defined.
