(* ===== verification/Store.v ===== *)
(** * The in-memory state store (crates/busbar/src/store/in_memory.rs, store/mod.rs)

    The lanes with their lane-global state, the lazily created per-(pool, lane) breaker cells, and
    the operations of the [StateStore] trait.  The fields [LaneState] shares with [BreakerCell]
    (the lane's default cell) are the nested record [LaneState.cell]; a write through an [Arc] to a
    cell is a write at its (pool, lane) address, so aliasing is by address.  A call that indexes a
    lane out of range, or reaches a panic of Cell.v, returns [None].

    The seconds clock, and per cell the nanosecond clock and the address that seed its jitter, are
    the record [Env.t]; the tokio semaphore of
    a lane is an opaque handle, and the operations that read it take the reading as an argument. *)
From stdpp Require Import base gmap list strings.
From Stdlib Require Import ZArith Lia Floats.SpecFloat.
From S2P Require Import Prelude Cell BreakerConfig Swrr.
Open Scope Z_scope.
Open Scope rust_scope.

Definition SWRR_SHARDS : Z := 64.
Definition DEFAULT_HARD_DOWN_COOLDOWN_SECS : Z := 1800.
Definition DEFAULT_MAX_HONORED_RETRY_AFTER_SECS : Z := 86400.

(** An [Arc<tokio::sync::Semaphore>]. *)
Definition SemHandle : Set := nat.

Module Env.
Record t := mk { now_secs : Z; now_nanos : string -> nat -> Z; cell_addr : string -> nat -> Z }.
End Env.

(** ** FNV-1a and the shard of a pool *)
Definition byte_of_ascii (a : Ascii.ascii) : Z := Z.of_N (Ascii.N_of_ascii a).

Fixpoint fnv1a_fold (s : string) (hash : Z) : Z :=
  match s with
  | EmptyString => hash
  | String a rest => fnv1a_fold rest (wrap_u64 (Z.lxor hash (byte_of_ascii a) * FNV1A_PRIME))
  end.

Definition fnv1a_u64 (s : string) : Z := fnv1a_fold s FNV1A_OFFSET_BASIS.

Definition swrr_shard_index (pool : string) : Z := Z.land (fnv1a_u64 pool) (SWRR_SHARDS - 1).

(** ** Data *)
Module LaneData.
Record t := mk {
  model : string; provider : string; max : Z; sem : SemHandle; limited : bool; budget : Z;
  cooldown_until : Z; streak : Z; dead : bool; dead_reason : string; ok : Z; err : Z;
  client_fault : Z; upstream_model : option string; attempt_timeout_ms : option Z;
  reasoning : bool; prompt_caching : bool }.
End LaneData.

Module LaneState.
Record t := mk {
  model : string; provider : string; max : Z; sem : SemHandle; limited : bool;
  dead : bool; cell : BreakerCell.t; budget : Z; ok : Z; client_fault : Z;
  latency_ewma_bits : Z; trips : Z; last_trip_at : Z; dead_reason : string }.

Definition set_cell (v : BreakerCell.t) (l : t) : t :=
  mk (model l) (provider l) (max l) (sem l) (limited l) (dead l) v (budget l) (ok l)
    (client_fault l) (latency_ewma_bits l) (trips l) (last_trip_at l) (dead_reason l).
Definition set_budget (v : Z) (l : t) : t :=
  mk (model l) (provider l) (max l) (sem l) (limited l) (dead l) (cell l) v (ok l)
    (client_fault l) (latency_ewma_bits l) (trips l) (last_trip_at l) (dead_reason l).
Definition set_dead (v : bool) (l : t) : t :=
  mk (model l) (provider l) (max l) (sem l) (limited l) v (cell l) (budget l) (ok l)
    (client_fault l) (latency_ewma_bits l) (trips l) (last_trip_at l) (dead_reason l).
Definition set_ok (v : Z) (l : t) : t :=
  mk (model l) (provider l) (max l) (sem l) (limited l) (dead l) (cell l) (budget l) v
    (client_fault l) (latency_ewma_bits l) (trips l) (last_trip_at l) (dead_reason l).
Definition set_client_fault (v : Z) (l : t) : t :=
  mk (model l) (provider l) (max l) (sem l) (limited l) (dead l) (cell l) (budget l) (ok l)
    v (latency_ewma_bits l) (trips l) (last_trip_at l) (dead_reason l).
Definition set_latency (v : Z) (l : t) : t :=
  mk (model l) (provider l) (max l) (sem l) (limited l) (dead l) (cell l) (budget l) (ok l)
    (client_fault l) v (trips l) (last_trip_at l) (dead_reason l).
Definition set_trips (v at_ : Z) (l : t) : t :=
  mk (model l) (provider l) (max l) (sem l) (limited l) (dead l) (cell l) (budget l) (ok l)
    (client_fault l) (latency_ewma_bits l) v at_ (dead_reason l).
Definition set_dead_reason (v : string) (l : t) : t :=
  mk (model l) (provider l) (max l) (sem l) (limited l) (dead l) (cell l) (budget l) (ok l)
    (client_fault l) (latency_ewma_bits l) (trips l) (last_trip_at l) v.
End LaneState.

Module InMemoryStore.
Record t := mk {
  lanes : list LaneState.t;
  pool_cells : gmap nat (list (string * BreakerCell.t));
  hard_down_cooldown_secs : Z;
  max_honored_retry_after_secs : Z;
  pool_shards : list (string * Z) }.

Definition set_lanes (v : list LaneState.t) (s : t) : t :=
  mk v (pool_cells s) (hard_down_cooldown_secs s) (max_honored_retry_after_secs s) (pool_shards s).
Definition set_pool_cells (v : gmap nat (list (string * BreakerCell.t))) (s : t) : t :=
  mk (lanes s) v (hard_down_cooldown_secs s) (max_honored_retry_after_secs s) (pool_shards s).
Definition set_pool_shards (v : list (string * Z)) (s : t) : t :=
  mk (lanes s) (pool_cells s) (hard_down_cooldown_secs s) (max_honored_retry_after_secs s) v.
End InMemoryStore.
Import InMemoryStore.

(** ** Construction *)
Definition lane_of_data (ld : LaneData.t) : LaneState.t :=
  LaneState.mk (LaneData.model ld) (LaneData.provider ld) (LaneData.max ld) (LaneData.sem ld)
    (LaneData.limited ld) (LaneData.dead ld)
    (BreakerCell.mk ST_CLOSED (LaneData.streak ld) (LaneData.cooldown_until ld) false 0
       (LaneData.err ld) (OutcomeWindow.new OUTCOME_WINDOW_CAPACITY) 0)
    (LaneData.budget ld) (LaneData.ok ld) (LaneData.client_fault ld) 0 0 0
    (LaneData.dead_reason ld).

Definition new_with_limits (lanes : list LaneData.t) (hard_down max_honored : Z) : t :=
  mk (lane_of_data <$> lanes) ∅ hard_down max_honored [].

Definition new (lanes : list LaneData.t) : t :=
  new_with_limits lanes DEFAULT_HARD_DOWN_COOLDOWN_SECS DEFAULT_MAX_HONORED_RETRY_AFTER_SECS.

(** ** Access to lanes and cells *)
Definition get_lane (s : t) (lane : nat) : option LaneState.t := lanes s !! lane.

Definition update_lane (s : t) (lane : nat) (f : LaneState.t -> LaneState.t) : t :=
  set_lanes (alter f lane (lanes s)) s.

(** The memoised shard of a pool. *)
Definition swrr_shard (s : t) (pool : string) : t * Z :=
  match assoc pool (pool_shards s) with
  | Some idx => (s, idx)
  | None =>
      let idx := swrr_shard_index pool in
      (set_pool_shards (pool_shards s ++ [(pool, idx)]) s, idx)
  end.

(** A fresh pool cell inherits the lane's state, cooldown and streak, HalfOpen normalised. *)
Definition inherited_cell (ls : LaneState.t) : BreakerCell.t :=
  let lc := LaneState.cell ls in
  let normalized :=
    if BreakerCell.breaker_state lc =? ST_HALF_OPEN then ST_OPEN else BreakerCell.breaker_state lc in
  BreakerCell.set_streak (BreakerCell.streak lc)
    (BreakerCell.set_cooldown (BreakerCell.cooldown_until lc)
       (BreakerCell.set_state normalized BreakerCell.new)).

(** The pool cells of a lane, in creation order. *)
Definition lane_cells (s : t) (lane : nat) : list (string * BreakerCell.t) :=
  default [] (pool_cells s !! lane).

Definition cell (s : t) (pool : string) (lane : nat) : option (t * BreakerCell.t) :=
  if String.eqb pool "" then
    let? ls := get_lane s lane in Some (s, LaneState.cell ls)
  else
    match assoc pool (lane_cells s lane) with
    | Some c => Some (s, c)
    | None =>
        let? ls := get_lane s lane in
        let c := inherited_cell ls in
        Some (set_pool_cells (<[lane := lane_cells s lane ++ [(pool, c)]]> (pool_cells s)) s, c)
    end.

(** Write a cell back at its address. *)
Definition put_cell (s : t) (pool : string) (lane : nat) (c : BreakerCell.t) : t :=
  if String.eqb pool "" then update_lane s lane (LaneState.set_cell c)
  else set_pool_cells (<[lane := assoc_set pool c (lane_cells s lane)]> (pool_cells s)) s.

(** Run a cell operation on the resolved cell. *)
Definition on_cell {A} (s : t) (pool : string) (lane : nat)
    (f : BreakerCell.t -> option (BreakerCell.t * A)) : option (t * A) :=
  let? (s, c) := cell s pool lane in
  let? (c', a) := f c in
  Some (put_cell s pool lane c', a).

Definition pure_op {A} (f : BreakerCell.t -> BreakerCell.t * A) : BreakerCell.t -> option (BreakerCell.t * A) :=
  fun c => Some (f c).

(** ** SWRR reset: under the pool's shard lock, so the shard is resolved (and memoised) first. *)
Definition reset_swrr_for (s : t) (pool : string) (lane : nat) : option t :=
  let '(s, _) := swrr_shard s pool in
  fst <$> on_cell s pool lane (pure_op (fun c => (BreakerCell.set_weight 0 c, tt))).

(** ** Admission and queries *)
Definition lane_admissible (s : t) (lane : nat) : option bool :=
  let? ls := get_lane s lane in
  Some (if LaneState.dead ls then false
        else if LaneState.limited ls && (LaneState.budget ls <=? 0) then false
        else true).

Definition usable_for (s : t) (pool : string) (lane : nat) (now : Z) : option (t * bool) :=
  let? adm := lane_admissible s lane in
  if negb adm then Some (s, false)
  else on_cell s pool lane (pure_op (fun c => cell_acquire_breaker c now)).

Definition ready_for (s : t) (pool : string) (lane : nat) (now : Z) : option (t * bool) :=
  let? adm := lane_admissible s lane in
  if negb adm then Some (s, false)
  else let? (s, c) := cell s pool lane in Some (s, cell_ready_breaker c now).

Definition breaker_state_for (s : t) (pool : string) (lane : nat) : option (t * BreakerState) :=
  let? ls := get_lane s lane in
  if LaneState.dead ls then Some (s, Open U64_MAX)
  else let? (s, c) := cell s pool lane in Some (s, cell_breaker_state c).

Definition cooldown_remaining_for (s : t) (pool : string) (lane : nat) (now : Z) : option (t * Z) :=
  let? (s, c) := cell s pool lane in Some (s, sat_sub_u64 (BreakerCell.cooldown_until c) now).

Definition lane_usable_any_cell (s : t) (lane : nat) (now : Z) : option bool :=
  let? adm := lane_admissible s lane in
  if negb adm then Some false
  else
    let? ls := get_lane s lane in
    Some (match pool_cells s !! lane with
          | Some ((_ :: _) as per_lane) => existsb (fun p => cell_ready_breaker p.2 now) per_lane
          | _ => cell_ready_breaker (LaneState.cell ls) now
          end).

Definition lane_max_cooldown_remaining (s : t) (lane : nat) (now : Z) : option Z :=
  let? ls := get_lane s lane in
  Some (foldl (fun worst p => Z.max worst (sat_sub_u64 (BreakerCell.cooldown_until p.2) now))
          (sat_sub_u64 (BreakerCell.cooldown_until (LaneState.cell ls)) now) (lane_cells s lane)).

Definition lane_max_streak (s : t) (lane : nat) : option Z :=
  let? ls := get_lane s lane in
  Some (foldl (fun worst p => Z.max worst (BreakerCell.streak p.2))
          (BreakerCell.streak (LaneState.cell ls)) (lane_cells s lane)).

Definition lane_needs_probe (s : t) (lane : nat) (now : Z) : option bool :=
  let? ls := get_lane s lane in
  Some (if suppressed (LaneState.cell ls) now then true
        else existsb (fun p => suppressed p.2 now) (lane_cells s lane)).

(** ** Recording outcomes *)
Definition fetch_add_err (ls : LaneState.t) : LaneState.t :=
  LaneState.set_cell
    (BreakerCell.set_err (wrap_u64 (BreakerCell.err (LaneState.cell ls) + 1)) (LaneState.cell ls)) ls.

Definition fetch_add_ok (ls : LaneState.t) : LaneState.t :=
  LaneState.set_ok (wrap_u64 (LaneState.ok ls + 1)) ls.

Definition record_failure_for (env : Env.t) (s : t) (pool : string) (lane : nat) (now_time : Z)
    (cfg : BreakerCfg.t) (retry_after : option Z) : option (t * bool) :=
  let? ls := get_lane s lane in
  if LaneState.dead ls then Some (s, false)
  else
    let? (s, tripped) := on_cell s pool lane (fun c =>
        cell_record_failure (Env.now_nanos env pool lane) (Env.cell_addr env pool lane) c now_time cfg
          retry_after (max_honored_retry_after_secs s)) in
    let s := if negb (String.eqb pool "") then update_lane s lane fetch_add_err else s in
    let s := if tripped
             then update_lane s lane (fun ls =>
                    LaneState.set_trips (wrap_u64 (LaneState.trips ls + 1)) now_time ls)
             else s in
    Some (s, tripped).

Definition record_success_for (env : Env.t) (s : t) (pool : string) (lane : nat) : option t :=
  let? ls := get_lane s lane in
  if LaneState.dead ls then Some (update_lane s lane fetch_add_ok)
  else
    let? (s, recovered) := on_cell s pool lane (pure_op (fun c =>
        cell_record_success c (Env.now_secs env))) in
    let? s := (if recovered then reset_swrr_for s pool lane else Some s) in
    Some (update_lane s lane fetch_add_ok).

Definition record_hard_down_for (env : Env.t) (s : t) (pool : string) (lane : nat) (reason : string)
    : option t :=
  let? ls := get_lane s lane in
  let s := update_lane s lane (LaneState.set_dead_reason reason) in
  fst <$> on_cell s pool lane (pure_op (fun c =>
    (hard_down_locked c (Env.now_secs env) (hard_down_cooldown_secs s), tt))).

Definition record_client_fault (s : t) (lane : nat) : option t :=
  let? ls := get_lane s lane in
  Some (update_lane s lane (fun ls =>
          LaneState.set_client_fault (wrap_u64 (LaneState.client_fault ls + 1)) ls)).

(** ** Operations on every cell of a lane *)

(** The shards resolved by a sequence of SWRR resets. *)
Definition memo_shards (s : t) (pools : list string) : t :=
  foldl (fun s p => (swrr_shard s p).1) s pools.

(** Apply [f] to the default cell and every pool cell; a cell for which [f] reports a close has its
    accumulator reset under its pool's shard. *)
Definition close_reset (f : BreakerCell.t -> BreakerCell.t * bool) (c : BreakerCell.t) : BreakerCell.t :=
  let '(c', closed) := f c in if closed then BreakerCell.set_weight 0 c' else c'.

Definition closes_all_cells (s : t) (lane : nat) (ls : LaneState.t)
    (f : BreakerCell.t -> BreakerCell.t * bool) : t :=
  let s1 := update_lane s lane (fun ls => LaneState.set_cell (close_reset f (LaneState.cell ls)) ls) in
  let s1 := if (f (LaneState.cell ls)).2 then (swrr_shard s1 "").1 else s1 in
  let reset_pools :=
    (List.filter (fun p => (f p.2).2) (lane_cells s lane)).*1 in
  let s1 :=
    match pool_cells s !! lane with
    | Some per_lane =>
        set_pool_cells (<[lane := (fun p => (p.1, close_reset f p.2)) <$> per_lane]> (pool_cells s1)) s1
    | None => s1
    end in
  memo_shards s1 reset_pools.

Definition record_probe_success_all_cells (env : Env.t) (s : t) (lane : nat) : option t :=
  let? ls := get_lane s lane in
  if LaneState.dead ls then Some (update_lane s lane fetch_add_ok)
  else
    let s := closes_all_cells s lane ls (fun c => cell_record_success c (Env.now_secs env)) in
    Some (update_lane s lane fetch_add_ok).

(** The closure [close] of [recover_lane]: observe, then close if still recoverable. *)
Definition recover_close (now : Z) (c : BreakerCell.t) : BreakerCell.t * bool :=
  if suppressed c now
  then cell_closed_if_recoverable c now (BreakerCell.cooldown_until c)
  else (c, false).

Definition recover_lane (env : Env.t) (s : t) (lane : nat) : option t :=
  let? ls := get_lane s lane in
  Some (closes_all_cells s lane ls (recover_close (Env.now_secs env))).

Definition record_hard_down_all_cells (env : Env.t) (s : t) (lane : nat) (reason : string)
    : option (t * bool) :=
  let? ls := get_lane s lane in
  let trip c := hard_down_locked c (Env.now_secs env) (hard_down_cooldown_secs s) in
  let default_was_closed := BreakerCell.breaker_state (LaneState.cell ls) =? ST_CLOSED in
  let s := update_lane s lane (LaneState.set_dead_reason reason) in
  let s := update_lane s lane (fun ls => LaneState.set_cell (trip (LaneState.cell ls)) ls) in
  let s :=
    match pool_cells s !! lane with
    | Some per_lane => set_pool_cells (<[lane := (fun p => (p.1, trip p.2)) <$> per_lane]> (pool_cells s)) s
    | None => s
    end in
  Some (s, default_was_closed).

Definition record_probe_failure_all_cells (env : Env.t) (s : t) (lane : nat)
    (resolve_cfg : string -> BreakerCfg.t) (retry_after : option Z) : option t :=
  let? ls := get_lane s lane in
  if LaneState.dead ls then Some s
  else
    let fail pool c :=
      fst <$> cell_record_failure (Env.now_nanos env pool lane) (Env.cell_addr env pool lane) c
                (Env.now_secs env) (resolve_cfg pool) retry_after (max_honored_retry_after_secs s) in
    let? c := fail "" (LaneState.cell ls) in
    let s := update_lane s lane (LaneState.set_cell c) in
    match pool_cells s !! lane with
    | Some per_lane =>
        let? per_lane' := mapM (fun p => pair p.1 <$> fail p.1 p.2) per_lane in
        Some (set_pool_cells (<[lane := per_lane']> (pool_cells s)) s)
    | None => Some s
    end.

(** ** Single-flight probe *)
Definition acquire_for_dispatch_in := usable_for.

Definition release_probe_in (s : t) (pool : string) (lane : nat) : option t :=
  fst <$> on_cell s pool lane (pure_op (fun c => (cell_release_probe c, tt))).

Definition probe_epoch_in (s : t) (pool : string) (lane : nat) : option (t * Z) :=
  let? (s, c) := cell s pool lane in Some (s, BreakerCell.probe_epoch c).

Definition release_probe_owned_in (s : t) (pool : string) (lane : nat) (owned_epoch : Z) : option t :=
  fst <$> on_cell s pool lane (pure_op (fun c => (cell_release_probe_owned c owned_epoch, tt))).

(** ** Weighted selection *)

(** The filter loop: drained, inadmissible and unready candidates are skipped. *)
Fixpoint healthy_scan (s : t) (pool : string) (cands : list (nat * Z)) (now : Z)
    : option (t * list (nat * Z)) :=
  match cands with
  | [] => Some (s, [])
  | (candidate, weight) :: rest =>
      if weight =? 0 then healthy_scan s pool rest now
      else
        let? adm := lane_admissible s candidate in
        if negb adm then healthy_scan s pool rest now
        else
          let? (s, c) := cell s pool candidate in
          let? (s, healthy) := healthy_scan s pool rest now in
          Some (s, if cell_ready_breaker c now then (candidate, weight) :: healthy else healthy)
  end.

(** [current_weight().fetch_add] on the cell at an address; a healthy cell exists. *)
Definition add_weight (pool : string) (s : t) (e : nat * Z) : t :=
  match cell s pool e.1 with
  | Some (_, c) =>
      put_cell s pool e.1 (BreakerCell.set_weight (wrap_i64 (BreakerCell.current_weight c + e.2)) c)
  | None => s
  end.

Definition weight_at (s : t) (pool : string) (lane : nat) : Z :=
  match cell s pool lane with Some (_, c) => BreakerCell.current_weight c | None => 0 end.

Definition select_weighted_for (s : t) (pool : string) (candidates : list nat) (weights : list Z)
    (now : Z) : option (t * option nat) :=
  let? (s, healthy) := healthy_scan s pool (zip candidates weights) now in
  match healthy with
  | [] => Some (s, None)
  | _ =>
      let '(s, _) := swrr_shard s pool in
      let total := wrap_i64 (Zsum healthy.*2) in
      let s := foldl (add_weight pool) s healthy in
      match find_best 0 None I64_MIN ((fun e => weight_at s pool e.1) <$> healthy) with
      | Some i =>
          match healthy !! i with
          | Some (lane, _) => Some (add_weight pool s (lane, - total), Some lane)
          | None => Some (s, None)
          end
      | None => Some (s, None)
      end
  end.

(** ** Concurrency and budget *)
Inductive Permit := Bounded | Unbounded.

(** [Semaphore::MAX_PERMITS] of tokio is [max_permits]; [try_acquire_owned] is the semaphore's
    answer for the lane's handle. *)
Definition try_acquire (max_permits : Z) (try_acquire_owned : SemHandle -> bool) (s : t) (lane : nat)
    : option (option Permit) :=
  let? ls := get_lane s lane in
  Some (if max_permits <=? LaneState.max ls then Some Unbounded
        else if try_acquire_owned (LaneState.sem ls) then Some Bounded else None).

Definition lane_semaphore (s : t) (lane : nat) : option SemHandle :=
  let? ls := get_lane s lane in Some (LaneState.sem ls).

Definition spend_budget (s : t) (lane : nat) : option (t * bool) :=
  let? ls := get_lane s lane in
  if negb (LaneState.limited ls) then Some (s, true)
  else if LaneState.budget ls <=? 0 then Some (s, false)
  else Some (update_lane s lane (fun ls => LaneState.set_budget (LaneState.budget ls - 1) ls), true).

Definition refund_budget (s : t) (lane : nat) : option t :=
  let? ls := get_lane s lane in
  if negb (LaneState.limited ls) then Some s
  else Some (update_lane s lane (fun ls =>
         LaneState.set_budget (wrap_i64 (LaneState.budget ls + 1)) ls)).

Definition lane_budget_remaining (s : t) (lane : nat) : option (option Z) :=
  let? ls := get_lane s lane in
  Some (if LaneState.limited ls then Some (LaneState.budget ls) else None).

(** ** Latency EWMA *)

(** IEEE-754 binary64 bit patterns ([f64::to_bits], [f64::from_bits]). *)
Definition f64_to_bits (x : f64) : Z :=
  match x with
  | S754_zero s => if s then Z.shiftl 1 63 else 0
  | S754_infinity s => (if s then Z.shiftl 1 63 else 0) + Z.shiftl 2047 52
  | S754_nan => Z.shiftl 4095 51
  | S754_finite s m e =>
      (if s then Z.shiftl 1 63 else 0) +
      (if Z.shiftl 1 52 <=? Zpos m then Z.shiftl (e + 1075) 52 + (Zpos m - Z.shiftl 1 52) else Zpos m)
  end.

Definition f64_from_bits (bits : Z) : f64 :=
  let s := Z.testbit bits 63 in
  let e := Z.land (Z.shiftr bits 52) 2047 in
  let m := Z.land bits (Z.shiftl 1 52 - 1) in
  if e =? 2047 then (if m =? 0 then S754_infinity s else S754_nan)
  else if e =? 0 then
    match m with Zpos p => S754_finite s p (-1074) | _ => S754_zero s end
  else match m + Z.shiftl 1 52 with Zpos p => S754_finite s p (e - 1075) | _ => S754_nan end.

Definition f64_is_finite (x : f64) : bool :=
  match x with S754_zero _ | S754_finite _ _ _ => true | S754_infinity _ | S754_nan => false end.

Definition f64_add (a b : f64) : f64 := SFadd 53 1024 a b.
Definition f64_sub (a b : f64) : f64 := SFsub 53 1024 a b.
Definition f64_mul (a b : f64) : f64 := SFmul 53 1024 a b.

(** The literal 0.2 (the double nearest to 1/5). *)
Definition LATENCY_EWMA_ALPHA : f64 := f64_div (f64_of_Z 1) (f64_of_Z 5).

Definition ewma_next (cur : Z) (latency_ms : f64) : f64 :=
  if cur =? 0 then latency_ms
  else f64_add (f64_mul LATENCY_EWMA_ALPHA latency_ms)
         (f64_mul (f64_sub (f64_of_Z 1) LATENCY_EWMA_ALPHA) (f64_from_bits cur)).

Definition lane_latency_ms (s : t) (lane : nat) : option (option f64) :=
  let? ls := get_lane s lane in
  let bits := LaneState.latency_ewma_bits ls in
  Some (if bits =? 0 then None else Some (f64_from_bits bits)).

Definition record_latency_in (s : t) (lane : nat) (latency_ms : f64) : option t :=
  if negb (f64_is_finite latency_ms) || SFleb latency_ms (S754_zero false) then Some s
  else
    let? ls := get_lane s lane in
    let next_bits := f64_to_bits (ewma_next (LaneState.latency_ewma_bits ls) latency_ms) in
    if next_bits =? 0 then Some s
    else Some (update_lane s lane (LaneState.set_latency next_bits)).

(** ** Observation *)
Module LaneSnapshot.
Record t := mk {
  model : string; provider : string; max_concurrent : Z; inflight : Z; free_slots : Z; ok : Z;
  err : Z; client_fault : Z; usable : bool; dead : bool; dead_reason : string;
  cooldown_remaining_s : Z; streak : Z; budget : Z; trips : Z; last_trip_at : Z }.
End LaneSnapshot.

(** [available_permits] is the semaphore's reading; [max] and it are [usize] (64 bits). *)
Definition snapshot (available_permits : SemHandle -> Z) (s : t) (lane : nat) (now : Z)
    : option LaneSnapshot.t :=
  let? ls := get_lane s lane in
  let? usable := lane_usable_any_cell s lane now in
  let? cooldown := lane_max_cooldown_remaining s lane now in
  let? streak := lane_max_streak s lane in
  Some (LaneSnapshot.mk (LaneState.model ls) (LaneState.provider ls) (LaneState.max ls)
          (wrap_i64 (sat_sub_u64 (LaneState.max ls) (available_permits (LaneState.sem ls))))
          (available_permits (LaneState.sem ls))
          (LaneState.ok ls) (BreakerCell.err (LaneState.cell ls)) (LaneState.client_fault ls)
          usable (LaneState.dead ls) (LaneState.dead_reason ls) cooldown streak
          (if LaneState.limited ls then LaneState.budget ls else -1)
          (LaneState.trips ls) (LaneState.last_trip_at ls)).

(** ** Portable health: export and restore *)
Module PoolCellHealth.
Record t := mk { pool : string; breaker_state : Z; cooldown_until : Z; streak : Z; err : Z }.
End PoolCellHealth.

Module LaneHealth.
Record t := mk {
  model : string; provider : string; budget : Z; breaker_state : Z; cooldown_until : Z;
  streak : Z; dead : bool; dead_reason : string; ok : Z; err : Z; client_fault : Z;
  latency_ewma_bits : Z; trips : Z; last_trip_at : Z; cells : list PoolCellHealth.t }.
End LaneHealth.

Definition export_cell (p : string * BreakerCell.t) : PoolCellHealth.t :=
  PoolCellHealth.mk p.1 (BreakerCell.breaker_state p.2) (BreakerCell.cooldown_until p.2)
    (BreakerCell.streak p.2) (BreakerCell.err p.2).

Definition export_lane (s : t) (idx : nat) (ls : LaneState.t) : LaneHealth.t :=
  let c := LaneState.cell ls in
  LaneHealth.mk (LaneState.model ls) (LaneState.provider ls)
    (if LaneState.limited ls then LaneState.budget ls else -1)
    (BreakerCell.breaker_state c) (BreakerCell.cooldown_until c) (BreakerCell.streak c)
    (LaneState.dead ls) (LaneState.dead_reason ls) (LaneState.ok ls) (BreakerCell.err c)
    (LaneState.client_fault ls) (LaneState.latency_ewma_bits ls) (LaneState.trips ls)
    (LaneState.last_trip_at ls) (export_cell <$> lane_cells s idx).

Definition export_health (s : t) : list LaneHealth.t := imap (export_lane s) (lanes s).

(** Restore one pool cell into the lane's list: in place when it exists, appended otherwise. *)
Definition restore_into (cs : PoolCellHealth.t) (c : BreakerCell.t) : BreakerCell.t :=
  BreakerCell.set_err (PoolCellHealth.err cs)
    (BreakerCell.set_streak (PoolCellHealth.streak cs)
       (BreakerCell.set_cooldown (PoolCellHealth.cooldown_until cs)
          (BreakerCell.set_state (restored_breaker_state (PoolCellHealth.breaker_state cs)) c))).

Definition restore_cell (cells : list (string * BreakerCell.t)) (cs : PoolCellHealth.t)
    : list (string * BreakerCell.t) :=
  match assoc (PoolCellHealth.pool cs) cells with
  | Some c => assoc_set (PoolCellHealth.pool cs) (restore_into cs c) cells
  | None => cells ++ [(PoolCellHealth.pool cs, restore_into cs BreakerCell.new)]
  end.

Definition restore_lane (snap : LaneHealth.t) (l : LaneState.t) : LaneState.t :=
  let budget :=
    if LaneState.limited l && (0 <=? LaneHealth.budget snap)
    then Z.min (LaneHealth.budget snap) (LaneState.budget l) else LaneState.budget l in
  let c := LaneState.cell l in
  let c := BreakerCell.set_err (LaneHealth.err snap)
             (BreakerCell.set_streak (LaneHealth.streak snap)
                (BreakerCell.set_cooldown (LaneHealth.cooldown_until snap)
                   (BreakerCell.set_state
                      (restored_breaker_state (LaneHealth.breaker_state snap)) c))) in
  LaneState.mk (LaneState.model l) (LaneState.provider l) (LaneState.max l) (LaneState.sem l)
    (LaneState.limited l) (LaneHealth.dead snap) c budget (LaneHealth.ok snap)
    (LaneHealth.client_fault snap) (LaneHealth.latency_ewma_bits snap) (LaneHealth.trips snap)
    (LaneHealth.last_trip_at snap) (LaneHealth.dead_reason snap).

(** [restored.iter().find]: the first snapshot with the lane's identity. *)
Definition matches_lane (l : LaneState.t) (h : LaneHealth.t) : bool :=
  String.eqb (LaneHealth.model h) (LaneState.model l)
  && String.eqb (LaneHealth.provider h) (LaneState.provider l).

Definition find_snapshot (restored : list LaneHealth.t) (l : LaneState.t) : option LaneHealth.t :=
  List.find (matches_lane l) restored.

Definition restore_step (restored : list LaneHealth.t) (s : t) (idx : nat) : t :=
  match get_lane s idx with
  | None => s
  | Some l =>
      match find_snapshot restored l with
      | None => s
      | Some snap =>
          let s := update_lane s idx (restore_lane snap) in
          set_pool_cells
            (<[idx := foldl restore_cell (lane_cells s idx) (LaneHealth.cells snap)]> (pool_cells s)) s
      end
  end.

Definition restore_health_impl (s : t) (restored : list LaneHealth.t) : t :=
  foldl (restore_step restored) s (seq 0 (length (lanes s))).

Definition new_with_limits_restored (lanes : list LaneData.t) (hard_down max_honored : Z)
    (restored : list LaneHealth.t) : t :=
  restore_health_impl (new_with_limits lanes hard_down max_honored) restored.
