(* ===== verification/StoreFacts.v ===== *)
(** * Facts about the state store

    The store's invariant, what resolving and writing a cell does to every address, and that every
    operation of the trait is total on lanes in range and keeps the invariant. *)
From stdpp Require Import base gmap list strings.
From Stdlib Require Import ZArith Lia.
From S2P Require Import Prelude Cell BreakerConfig CellFacts CellSteps Swrr Store.
Import InMemoryStore.
Open Scope Z_scope.
Open Scope rust_scope.

(** ** The invariant *)
Definition cells_wf (cells : list (string * BreakerCell.t)) : Prop :=
  NoDup cells.*1 /\ Forall (fun p => p.1 <> "" /\ cell_wf p.2) cells.

Record store_wf (s : t) : Prop := {
  wf_lanes : Forall (fun l => cell_wf (LaneState.cell l)) (lanes s);
  wf_pool_cells : forall lane cells, pool_cells s !! lane = Some cells ->
    (lane < length (lanes s))%nat /\ cells_wf cells;
  wf_hard_down : is_u64 (hard_down_cooldown_secs s);
  wf_shards : Forall (fun p => p.2 = swrr_shard_index p.1) (pool_shards s) }.

Definition in_range (s : t) (lane : nat) : Prop := (lane < length (lanes s))%nat.

#[export] Instance in_range_dec s lane : Decision (in_range s lane).
Proof. unfold in_range. apply _. Defined.

Create HintDb store discriminated.

Lemma lane_cells_wf s lane : store_wf s -> cells_wf (lane_cells s lane).
Proof.
  intros Hwf. unfold lane_cells. destruct (pool_cells s !! lane) as [cs|] eqn:E; simpl.
  - by eapply wf_pool_cells in E as [].
  - split; constructor.
Qed.

Lemma get_lane_Some s lane : in_range s lane -> exists l, get_lane s lane = Some l.
Proof. intros H. unfold get_lane. by apply lookup_lt_is_Some_2. Qed.

Lemma get_lane_wf s lane l :
  store_wf s -> get_lane s lane = Some l -> cell_wf (LaneState.cell l).
Proof. intros Hwf Hl. destruct Hwf as [HF _ _ _]. rewrite Forall_lookup in HF. by eapply HF. Qed.

Lemma assoc_None_keys {V} k (l : list (string * V)) : assoc k l = None -> k ∉ l.*1.
Proof.
  induction l as [|[k' v'] l IH]; csimpl; [set_solver|]. case_decide; [done|]. set_solver.
Qed.

Lemma inherited_cell_wf l : cell_wf (LaneState.cell l) -> cell_wf (inherited_cell l).
Proof.
  intros H. unfold inherited_cell. destruct H.
  constructor; simpl; auto with cell; try mach_lia.
  - destruct (Z.eqb_spec (BreakerCell.breaker_state (LaneState.cell l)) ST_HALF_OPEN); auto.
  - split; [done|]. destruct (Z.eqb_spec (BreakerCell.breaker_state (LaneState.cell l)) ST_HALF_OPEN);
      [done|]. congruence.
  - split; simpl; unfold OUTCOME_WINDOW_CAPACITY; lia.
Qed.

(** ** Updating lanes *)
Lemma update_lane_length s lane f : length (lanes (update_lane s lane f)) = length (lanes s).
Proof. apply length_alter. Qed.

Lemma update_lane_wf s lane f :
  store_wf s ->
  (forall l, get_lane s lane = Some l -> cell_wf (LaneState.cell l) -> cell_wf (LaneState.cell (f l))) ->
  store_wf (update_lane s lane f).
Proof.
  intros [Hl Hp Hh Hs] Hf. constructor; simpl; auto.
  - rewrite Forall_lookup in Hl |- *. intros k l Hk.
    destruct (decide (lane = k)) as [->|Hne].
    + rewrite list_lookup_alter_eq in Hk. apply fmap_Some in Hk as (l0 & Hl0 & ->).
      apply Hf; [done|]. by eapply Hl.
    + rewrite list_lookup_alter_ne in Hk by done. by eapply Hl.
  - intros k cs Hk. rewrite length_alter. by eapply Hp.
Qed.

Lemma get_update_lane_eq s lane f :
  get_lane (update_lane s lane f) lane = f <$> get_lane s lane.
Proof. apply list_lookup_alter_eq. Qed.

Lemma get_update_lane_ne s lane lane' f :
  lane <> lane' -> get_lane (update_lane s lane f) lane' = get_lane s lane'.
Proof. apply list_lookup_alter_ne. Qed.

Lemma update_lane_cells s lane f lane' : lane_cells (update_lane s lane f) lane' = lane_cells s lane'.
Proof. done. Qed.

(** ** Replacing the pool cells of a lane *)
Lemma set_cells_wf s lane cells :
  store_wf s -> in_range s lane -> cells_wf cells ->
  store_wf (set_pool_cells (<[lane := cells]> (pool_cells s)) s).
Proof.
  intros [Hl Hp Hh Hs] Hr Hc. constructor; simpl; auto.
  intros k cs. rewrite lookup_insert. case_decide; [|apply Hp]. intros [= <-]. subst. done.
Qed.

Lemma lane_cells_insert s lane cells lane' :
  lane_cells (set_pool_cells (<[lane := cells]> (pool_cells s)) s) lane' =
    if decide (lane = lane') then cells else lane_cells s lane'.
Proof. unfold lane_cells. simpl. rewrite lookup_insert. by case_decide. Qed.

Lemma swrr_shard_wf s pool : store_wf s -> store_wf (swrr_shard s pool).1.
Proof.
  intros [Hl Hp Hh Hs]. unfold swrr_shard. case_match; simpl; constructor; simpl; auto.
  apply Forall_app. split; [done|]. repeat constructor.
Qed.

Lemma swrr_shard_frame s pool :
  lanes (swrr_shard s pool).1 = lanes s /\ pool_cells (swrr_shard s pool).1 = pool_cells s.
Proof. unfold swrr_shard. by case_match. Qed.

Lemma memo_shards_wf s pools : store_wf s -> store_wf (memo_shards s pools).
Proof.
  unfold memo_shards. revert s. induction pools as [|p ps IH]; intros s H; simpl; [done|].
  by apply IH, swrr_shard_wf.
Qed.

Lemma memo_shards_frame s pools :
  lanes (memo_shards s pools) = lanes s /\ pool_cells (memo_shards s pools) = pool_cells s.
Proof.
  unfold memo_shards. revert s. induction pools as [|p ps IH]; intros s; simpl; [done|].
  destruct (IH (swrr_shard s p).1) as [-> ->]. apply swrr_shard_frame.
Qed.

(** ** Resolving a cell *)
Lemma cell_resolves s pool lane :
  store_wf s -> in_range s lane ->
  exists s' c, cell s pool lane = Some (s', c) /\ store_wf s' /\ cell_wf c /\ lanes s' = lanes s.
Proof.
  intros Hwf Hr. destruct (get_lane_Some s lane Hr) as [l Hl]. unfold cell.
  pose proof (get_lane_wf _ _ _ Hwf Hl) as Hc.
  destruct (String.eqb_spec pool "") as [->|Hp]; [rewrite Hl; eauto 10|].
  destruct (lane_cells_wf s lane Hwf) as [Hnd HF].
  destruct (assoc pool (lane_cells s lane)) as [c|] eqn:Ea.
  - exists s, c. split; [done|]. split; [done|]. split; [|done]. rewrite Forall_forall in HF.
    by apply (HF (pool, c)), assoc_elem.
  - rewrite Hl. eexists _, _. split; [done|].
    split; [|split; [by apply inherited_cell_wf|done]].
    apply set_cells_wf; [done|done|]. split.
    + rewrite fmap_app. apply NoDup_app. split; [done|]. split; [|apply NoDup_singleton].
      intros x Hx Hx'. csimpl in Hx'. apply list_elem_of_singleton in Hx' as ->.
      by apply assoc_None_keys in Ea.
    + apply Forall_app. split; [done|]. apply Forall_singleton. split; [done|].
      by apply inherited_cell_wf.
Qed.

Lemma put_cell_wf s pool lane c :
  store_wf s -> in_range s lane -> cell_wf c -> store_wf (put_cell s pool lane c).
Proof.
  intros Hwf Hr Hc. unfold put_cell. destruct (String.eqb_spec pool "") as [->|Hp].
  - apply update_lane_wf; [done|]. intros l _ _. done.
  - destruct (lane_cells_wf s lane Hwf) as [Hnd HF]. apply set_cells_wf; [done|done|]. split.
    + by rewrite assoc_set_keys.
    + apply assoc_set_Forall; [done|]. intros k' ->. done.
Qed.

Lemma put_cell_length s pool lane c : length (lanes (put_cell s pool lane c)) = length (lanes s).
Proof. unfold put_cell. case_match; [apply update_lane_length|done]. Qed.

(** A cell operation that is total on well-formed cells is total on the store. *)
Lemma on_cell_total {A} s pool lane (f : BreakerCell.t -> option (BreakerCell.t * A)) :
  store_wf s -> in_range s lane ->
  (forall c, cell_wf c -> exists c' a, f c = Some (c', a) /\ cell_wf c') ->
  exists s' a, on_cell s pool lane f = Some (s', a) /\ store_wf s' /\
    length (lanes s') = length (lanes s).
Proof.
  intros Hwf Hr Hf. unfold on_cell.
  destruct (cell_resolves s pool lane Hwf Hr) as (s1 & c & -> & Hwf1 & Hc & Hl).
  destruct (Hf c Hc) as (c' & a & -> & Hc'). eexists _, _. split; [done|].
  rewrite put_cell_length, Hl. split; [|done]. apply put_cell_wf; [done| |done].
  unfold in_range. by rewrite Hl.
Qed.

Ltac destruct_on_cell s1 a Hwf1 Hl1 :=
  match goal with
  | |- context [on_cell ?s ?pool ?lane ?f] =>
      destruct (on_cell_total s pool lane f) as (s1 & a & -> & Hwf1 & Hl1)
  end.

Lemma pure_op_total {A} (f : BreakerCell.t -> BreakerCell.t * A) :
  (forall c, cell_wf c -> cell_wf (f c).1) ->
  forall c, cell_wf c -> exists c' a, pure_op f c = Some (c', a) /\ cell_wf c'.
Proof.
  intros Hf c Hc. unfold pure_op. specialize (Hf c Hc). destruct (f c) as [c' a]. eauto.
Qed.

(** ** The post-condition of an operation *)
Definition keeps (s : t) (r : option t) : Prop :=
  exists s', r = Some s' /\ store_wf s' /\ length (lanes s') = length (lanes s).

Definition keeps_with {A} (s : t) (r : option (t * A)) : Prop :=
  exists s' a, r = Some (s', a) /\ store_wf s' /\ length (lanes s') = length (lanes s).

Lemma keeps_fst {A} s (r : option (t * A)) : keeps_with s r -> keeps s (fst <$> r).
Proof. intros (s' & a & -> & H). exists s'. done. Qed.

Lemma keeps_trans s1 s2 r : length (lanes s2) = length (lanes s1) -> keeps s2 r -> keeps s1 r.
Proof. intros Hl (s' & -> & Hwf & Hl'). exists s'. by rewrite Hl', Hl. Qed.

Lemma keeps_update s lane f :
  store_wf s -> (forall l, cell_wf (LaneState.cell l) -> cell_wf (LaneState.cell (f l))) ->
  keeps s (Some (update_lane s lane f)).
Proof.
  intros Hwf Hf. eexists. split; [done|]. rewrite update_lane_length. split; [|done].
  apply update_lane_wf; [done|]. intros l _. apply Hf.
Qed.

Lemma fetch_add_err_wf l : cell_wf (LaneState.cell l) -> cell_wf (LaneState.cell (fetch_add_err l)).
Proof. intros H. simpl. cell_wf_tac. Qed.
#[export] Hint Resolve fetch_add_err_wf : store.

(** ** Every operation is total on lanes in range and keeps the invariant *)
Lemma reset_swrr_keeps s pool lane :
  store_wf s -> in_range s lane -> keeps s (reset_swrr_for s pool lane).
Proof.
  intros Hwf Hr. unfold reset_swrr_for.
  pose proof (swrr_shard_wf s pool Hwf) as Hwf1. destruct (swrr_shard_frame s pool) as [Hl _].
  destruct (swrr_shard s pool) as [s1 i]. simpl in *.
  eapply (keeps_trans s s1); [by rewrite Hl|]. apply keeps_fst.
  apply on_cell_total; [done|unfold in_range; by rewrite Hl|].
  apply pure_op_total. intros c. apply set_weight_wf.
Qed.

Lemma lane_admissible_Some s lane : in_range s lane -> exists b, lane_admissible s lane = Some b.
Proof. intros Hr. unfold lane_admissible. destruct (get_lane_Some s lane Hr) as [l ->]. eauto. Qed.

Lemma usable_for_keeps s pool lane now :
  store_wf s -> in_range s lane -> keeps_with s (usable_for s pool lane now).
Proof.
  intros Hwf Hr. unfold usable_for. destruct (lane_admissible_Some s lane Hr) as [b ->].
  destruct (negb b); [by eexists _, _|].
  apply on_cell_total; [done|done|]. apply pure_op_total. intros c. apply cell_acquire_breaker_wf.
Qed.

Lemma ready_for_keeps s pool lane now :
  store_wf s -> in_range s lane -> keeps_with s (ready_for s pool lane now).
Proof.
  intros Hwf Hr. unfold ready_for. destruct (lane_admissible_Some s lane Hr) as [b ->].
  destruct (negb b); [by eexists _, _|].
  destruct (cell_resolves s pool lane Hwf Hr) as (s1 & c & -> & Hwf1 & Hc & Hl).
  eexists _, _. by rewrite Hl.
Qed.

Lemma record_failure_keeps env s pool lane now cfg ra :
  store_wf s -> in_range s lane -> is_u64 now -> cfg_ok cfg ->
  keeps_with s (record_failure_for env s pool lane now cfg ra).
Proof.
  intros Hwf Hr Hn Hcfg. unfold record_failure_for.
  destruct (get_lane_Some s lane Hr) as [l ->]. destruct (LaneState.dead l); [by eexists _, _|].
  destruct_on_cell s1 tripped Hwf1 Hl1; [done|done| |].
  { intros c Hc. destruct (failure_locked_total (Env.now_nanos env pool lane)
      (Env.cell_addr env pool lane) (failure_prologue c now) now cfg ra
      (max_honored_retry_after_secs s)) as [[c' b] Hf]; [by apply failure_prologue_wf|done|].
    exists c', b. split; [exact Hf|]. by eapply cell_record_failure_wf. }
  eexists _, _. split; [done|].
  set (s2 := if negb _ then _ else s1).
  assert (store_wf s2 /\ length (lanes s2) = length (lanes s)) as [Hwf2 Hl2].
  { subst s2. destruct (negb _); [|done]. rewrite update_lane_length. split; [|done].
    apply update_lane_wf; [done|]. intros l' _. apply fetch_add_err_wf. }
  destruct tripped; [|done]. rewrite update_lane_length. split; [|done].
  apply update_lane_wf; done.
Qed.

Lemma record_success_keeps env s pool lane :
  store_wf s -> in_range s lane -> keeps s (record_success_for env s pool lane).
Proof.
  intros Hwf Hr. unfold record_success_for.
  destruct (get_lane_Some s lane Hr) as [l ->]. destruct (LaneState.dead l).
  { by apply keeps_update. }
  destruct_on_cell s1 rec Hwf1 Hl1; [done|done| |].
  { apply pure_op_total. intros c Hc. apply cell_record_success_wf, Hc. }
  assert (keeps s (if rec then reset_swrr_for s1 pool lane else Some s1)) as (s2 & -> & Hwf2 & Hl2).
  { eapply (keeps_trans s s1); [done|]. destruct rec; [|by eexists].
    apply reset_swrr_keeps; [done|]. unfold in_range. by rewrite Hl1. }
  eapply (keeps_trans s s2); [done|]. by apply keeps_update.
Qed.

Lemma record_hard_down_keeps env s pool lane reason :
  store_wf s -> in_range s lane -> is_u64 (Env.now_secs env) ->
  keeps s (record_hard_down_for env s pool lane reason).
Proof.
  intros Hwf Hr Hn. unfold record_hard_down_for. destruct (get_lane_Some s lane Hr) as [l ->].
  set (s1 := update_lane s lane _).
  assert (length (lanes s1) = length (lanes s)) as Hl1 by apply update_lane_length.
  assert (store_wf s1) as Hwf1 by (by apply update_lane_wf).
  eapply (keeps_trans s s1); [done|]. apply keeps_fst. apply on_cell_total; [done| |].
  - unfold in_range. by rewrite Hl1.
  - apply pure_op_total. intros c Hc. simpl. apply hard_down_locked_wf; [done|done|].
    apply (wf_hard_down _ Hwf1).
Qed.

Lemma map_cells_wf (f : string -> BreakerCell.t -> BreakerCell.t) cells :
  cells_wf cells -> (forall p c, cell_wf c -> cell_wf (f p c)) ->
  cells_wf ((fun p => (p.1, f p.1 p.2)) <$> cells).
Proof.
  intros [Hnd HF] Hf. split.
  - rewrite <- list_fmap_compose. exact Hnd.
  - apply Forall_fmap. eapply Forall_impl; [exact HF|]. intros [p c] [Hp Hc]. simpl in *. auto.
Qed.

Lemma close_reset_wf f c :
  (forall c, cell_wf c -> cell_wf (f c).1) -> cell_wf c -> cell_wf (close_reset f c).
Proof.
  intros Hf Hc. unfold close_reset. specialize (Hf c Hc). destruct (f c) as [c' b]. simpl in Hf.
  destruct b; [by apply set_weight_wf|done].
Qed.

Lemma closes_all_cells_keeps s lane l f :
  store_wf s -> in_range s lane -> (forall c, cell_wf c -> cell_wf (f c).1) ->
  keeps s (Some (closes_all_cells s lane l f)).
Proof.
  intros Hwf Hr Hf. eexists. split; [done|]. unfold closes_all_cells.
  set (s1 := update_lane s lane _).
  assert (store_wf s1 /\ length (lanes s1) = length (lanes s) /\ pool_cells s1 = pool_cells s)
    as (Hwf1 & Hl1 & Hp1).
  { subst s1. rewrite update_lane_length. split; [|done]. apply update_lane_wf; [done|].
    intros l' _ Hc. simpl. by apply close_reset_wf. }
  set (s2 := if (f (LaneState.cell l)).2 then _ else s1).
  assert (store_wf s2 /\ length (lanes s2) = length (lanes s) /\ pool_cells s2 = pool_cells s)
    as (Hwf2 & Hl2 & Hp2).
  { subst s2. case_match; [|done]. destruct (swrr_shard_frame s1 "") as [-> ->].
    split; [by apply swrr_shard_wf|done]. }
  set (ps := (List.filter _ _).*1).
  destruct (pool_cells s !! lane) as [cells|] eqn:E.
  - set (s3 := set_pool_cells _ s2). destruct (memo_shards_frame s3 ps) as [-> _].
    split; [|done]. apply memo_shards_wf, set_cells_wf; [done|unfold in_range; by rewrite Hl2|].
    apply (map_cells_wf (fun _ => close_reset f)); [by eapply wf_pool_cells in E as []|].
    intros _ c. by apply close_reset_wf.
  - destruct (memo_shards_frame s2 ps) as [-> _]. split; [by apply memo_shards_wf|done].
Qed.

Lemma recover_close_wf now c : cell_wf c -> cell_wf (recover_close now c).1.
Proof.
  intros Hc. unfold recover_close. case_match; [by apply cell_closed_if_recoverable_wf|done].
Qed.

Lemma recover_lane_keeps env s lane :
  store_wf s -> in_range s lane -> keeps s (recover_lane env s lane).
Proof.
  intros Hwf Hr. unfold recover_lane. destruct (get_lane_Some s lane Hr) as [l ->].
  apply closes_all_cells_keeps; [done|done|]. intros c. apply recover_close_wf.
Qed.

Lemma probe_success_keeps env s lane :
  store_wf s -> in_range s lane -> keeps s (record_probe_success_all_cells env s lane).
Proof.
  intros Hwf Hr. unfold record_probe_success_all_cells. destruct (get_lane_Some s lane Hr) as [l ->].
  destruct (LaneState.dead l); [by apply keeps_update|].
  destruct (closes_all_cells_keeps s lane l (fun c => cell_record_success c (Env.now_secs env)))
    as (s1 & Heq & Hwf1 & Hl1); [done|done| |].
  { intros c Hc. by apply cell_record_success_wf. }
  injection Heq as ->. eapply (keeps_trans s s1); [done|]. by apply keeps_update.
Qed.

Lemma hard_down_all_keeps env s lane reason :
  store_wf s -> in_range s lane -> is_u64 (Env.now_secs env) ->
  keeps_with s (record_hard_down_all_cells env s lane reason).
Proof.
  intros Hwf Hr Hn. unfold record_hard_down_all_cells. destruct (get_lane_Some s lane Hr) as [l ->].
  eexists _, _. split; [done|].
  pose proof (wf_hard_down _ Hwf) as Hhd.
  set (s1 := update_lane (update_lane s lane _) lane _).
  assert (store_wf s1 /\ length (lanes s1) = length (lanes s) /\ pool_cells s1 = pool_cells s)
    as (Hwf1 & Hl1 & Hp1).
  { subst s1. rewrite !update_lane_length. split; [|done].
    apply update_lane_wf; [by apply update_lane_wf|]. intros l' _ Hc. simpl.
    by apply hard_down_locked_wf. }
  destruct (pool_cells s1 !! lane) as [cells|] eqn:E; [|done].
  split; [|done]. apply set_cells_wf; [done|unfold in_range; by rewrite Hl1|].
  apply (map_cells_wf (fun _ c => hard_down_locked c (Env.now_secs env) (hard_down_cooldown_secs s)));
    [by eapply wf_pool_cells in E as []|].
  intros _ c Hc. by apply hard_down_locked_wf.
Qed.

Lemma mapM_cells_total (f : string -> BreakerCell.t -> option BreakerCell.t) cells :
  cells_wf cells -> (forall p c, cell_wf c -> exists c', f p c = Some c' /\ cell_wf c') ->
  exists cells', mapM (fun p => pair p.1 <$> f p.1 p.2) cells = Some cells' /\ cells_wf cells' /\
    cells'.*1 = cells.*1.
Proof.
  intros [Hnd HF] Hf.
  assert (exists cells', mapM (fun p => pair p.1 <$> f p.1 p.2) cells = Some cells' /\
            cells'.*1 = cells.*1 /\ Forall (fun p => p.1 <> "" /\ cell_wf p.2) cells') as
      (cells' & Hm & Hk & HF').
  { clear Hnd. induction HF as [|[p c] cells [Hp Hc] HF IH]; simpl.
    - exists []. repeat split; constructor.
    - destruct (Hf p c Hc) as (c' & Hfc & Hc'). simpl in *. rewrite Hfc. simpl.
      destruct IH as (cells' & -> & Hk & HF'). simpl. exists ((p, c') :: cells').
      split; [done|]. split; [csimpl; by rewrite Hk|]. by constructor. }
  exists cells'. split; [done|]. split; [|done]. split; [by rewrite Hk|done].
Qed.

Lemma cell_record_failure_total ts id now cfg ra maxh c :
  cell_wf c -> is_u64 now -> cfg_ok cfg ->
  exists c', fst <$> cell_record_failure ts id c now cfg ra maxh = Some c' /\ cell_wf c'.
Proof.
  intros Hc Hn Hcfg. unfold cell_record_failure.
  destruct (failure_locked_total ts id (failure_prologue c now) now cfg ra maxh) as [[c' b] Hf];
    [by apply failure_prologue_wf|done|].
  exists c'. rewrite Hf. split; [done|]. by eapply cell_record_failure_wf.
Qed.

Lemma probe_failure_keeps env s lane resolve ra :
  store_wf s -> in_range s lane -> is_u64 (Env.now_secs env) -> (forall p, cfg_ok (resolve p)) ->
  keeps s (record_probe_failure_all_cells env s lane resolve ra).
Proof.
  intros Hwf Hr Hn Hcfg. unfold record_probe_failure_all_cells.
  destruct (get_lane_Some s lane Hr) as [l Hl]. rewrite Hl.
  destruct (LaneState.dead l); [by eexists|].
  pose proof (get_lane_wf _ _ _ Hwf Hl) as Hc.
  destruct (cell_record_failure_total (Env.now_nanos env "" lane) (Env.cell_addr env "" lane)
    (Env.now_secs env) (resolve "") ra (max_honored_retry_after_secs s) _ Hc Hn (Hcfg ""))
    as (c' & -> & Hc').
  set (s1 := update_lane s lane _).
  assert (store_wf s1) as Hwf1 by (by apply update_lane_wf).
  assert (length (lanes s1) = length (lanes s)) as Hl1 by apply update_lane_length.
  destruct (pool_cells s1 !! lane) as [cells|] eqn:E; [|by eexists].
  destruct (mapM_cells_total (fun p c => fst <$> cell_record_failure (Env.now_nanos env p lane)
      (Env.cell_addr env p lane) c (Env.now_secs env) (resolve p) ra
      (max_honored_retry_after_secs s)) cells) as (cells' & -> & Hcs & _).
  { by eapply wf_pool_cells in E as []. }
  { intros p c Hc0. by apply cell_record_failure_total. }
  eexists. split; [done|]. split; [|done].
  apply set_cells_wf; [done|unfold in_range; by rewrite Hl1|done].
Qed.

Lemma on_cell_unit_keeps s pool lane f :
  store_wf s -> in_range s lane -> (forall c, cell_wf c -> cell_wf (f c)) ->
  keeps s (fst <$> on_cell s pool lane (pure_op (fun c => (f c, tt)))).
Proof.
  intros Hwf Hr Hf. apply keeps_fst, on_cell_total; [done|done|]. apply pure_op_total. exact Hf.
Qed.

(** ** Selection *)
Lemma add_weight_wf pool s e :
  store_wf s -> store_wf (add_weight pool s e) /\
    length (lanes (add_weight pool s e)) = length (lanes s).
Proof.
  intros Hwf. unfold add_weight. destruct (cell s pool e.1) as [[s1 c]|] eqn:E; [|done].
  rewrite put_cell_length. split; [|done].
  destruct (decide (in_range s e.1)) as [Hr|Hr].
  - destruct (cell_resolves s pool e.1 Hwf Hr) as (s2 & c2 & E2 & _ & Hc & _).
    rewrite E2 in E. simplify_eq. apply put_cell_wf; [done|done|]. by apply set_weight_wf.
  - exfalso. unfold cell, get_lane in E. unfold in_range in Hr.
    assert (lanes s !! e.1 = None) as Hn by (apply lookup_ge_None; lia).
    rewrite Hn in E. destruct (String.eqb _ _); [done|].
    assert (lane_cells s e.1 = []) as Hcs.
    { unfold lane_cells. destruct (pool_cells s !! e.1) eqn:Ep; [|done].
      eapply wf_pool_cells in Ep as []; [lia|done]. }
    by rewrite Hcs in E.
Qed.

Lemma healthy_scan_total s pool cands now :
  store_wf s -> Forall (fun e => in_range s e.1) cands ->
  exists s' h, healthy_scan s pool cands now = Some (s', h) /\ store_wf s' /\ lanes s' = lanes s.
Proof.
  intros Hwf HF. remember (lanes s) as ls eqn:Hls.
  assert (Forall (fun e => (e.1 < length ls)%nat) cands) as HF' by (by rewrite Hls).
  clear HF. revert s Hwf Hls. induction HF' as [|[ca w] cands Hr HF IH]; intros s Hwf Hls; simpl.
  - by eexists _, _.
  - destruct (w =? 0); [by apply IH|].
    assert (in_range s ca) as Hr' by (unfold in_range; by rewrite <- Hls).
    destruct (lane_admissible_Some s ca Hr') as [b ->]. destruct (negb b); [by apply IH|].
    destruct (cell_resolves s pool ca Hwf Hr') as (s1 & c & -> & Hwf1 & Hc & Hl1).
    destruct (IH s1 Hwf1) as (s2 & h & -> & Hwf2 & Hl2); [by rewrite Hl1|].
    eexists _, _. by rewrite Hl2.
Qed.

Lemma select_keeps s pool cands ws now :
  store_wf s -> Forall (in_range s) cands -> keeps_with s (select_weighted_for s pool cands ws now).
Proof.
  intros Hwf HF. unfold select_weighted_for.
  destruct (healthy_scan_total s pool (zip cands ws) now Hwf) as (s1 & h & -> & Hwf1 & Hl1).
  { apply Forall_forall. intros [x w] Hx. apply elem_of_zip_l in Hx.
    by apply (proj1 (Forall_forall _ _) HF). }
  destruct h as [|e h]; [eexists _, _; by rewrite Hl1|].
  pose proof (swrr_shard_wf s1 pool Hwf1) as Hwf2. destruct (swrr_shard_frame s1 pool) as [Hl2 _].
  destruct (swrr_shard s1 pool) as [s2 i]. simpl fst in *.
  set (hs := e :: h).
  assert (forall hs s2, store_wf s2 -> store_wf (foldl (add_weight pool) s2 hs) /\
            length (lanes (foldl (add_weight pool) s2 hs)) = length (lanes s2)) as Hfold.
  { clear. induction hs as [|e hs IH]; intros s2 Hwf; simpl; [done|].
    destruct (add_weight_wf pool s2 e Hwf) as [Hw Hl]. destruct (IH _ Hw) as [? ->]. done. }
  destruct (Hfold hs s2 Hwf2) as [Hwf3 Hl3].
  set (s3 := foldl _ s2 hs) in *.
  assert (length (lanes s3) = length (lanes s)) as Hl by (rewrite Hl3, Hl2, Hl1; done).
  destruct (find_best _ _ _ _) as [j|]; [|by eexists _, _].
  destruct (hs !! j) as [[lane w]|]; [|by eexists _, _].
  destruct (add_weight_wf pool s3 (lane, - wrap_i64 (Zsum hs.*2)) Hwf3) as [Hwf4 Hl4].
  eexists _, _. split; [done|]. by rewrite Hl4.
Qed.
