(* ===== verification/StoreProps.v ===== *)
(** * Theorems about the state store

    Totality and the invariant over any sequence of operations, isolation between pools, hard-down
    over every cell of a lane, soundness of selection, accounting of outcomes, carry-over of health
    across a rebuild, and the latency signal. *)
From stdpp Require Import base gmap list strings.
From Stdlib Require Import ZArith Lia Floats.SpecFloat.
From S2P Require Import Prelude Cell BreakerConfig CellFacts CellSteps Swrr Store StoreFacts.

Import InMemoryStore.
Open Scope Z_scope.
Open Scope rust_scope.

(** ** The cell a dispatch through (pool, lane) would see *)
Definition view (s : t) (pool : string) (lane : nat) : option BreakerCell.t :=
  match get_lane s lane with
  | None => match assoc pool (lane_cells s lane) with
            | Some c => if String.eqb pool "" then None else Some c
            | None => None
            end
  | Some ls =>
      if String.eqb pool "" then Some (LaneState.cell ls)
      else match assoc pool (lane_cells s lane) with
           | Some c => Some c
           | None => Some (inherited_cell ls)
           end
  end.

Lemma view_cell s pool lane : view s pool lane = snd <$> cell s pool lane.
Proof.
  unfold view, cell. destruct (get_lane s lane) as [ls|].
  - destruct (String.eqb pool ""); [done|]. by destruct (assoc pool _).
  - destruct (String.eqb pool ""); [by destruct (assoc pool _)|]. by destruct (assoc pool _).
Qed.

(** Resolving a cell changes no view, and the resolved cell is then stored at its address. *)
Lemma cell_view s pool lane s1 c :
  cell s pool lane = Some (s1, c) ->
  view s pool lane = Some c /\ cell s1 pool lane = Some (s1, c) /\ lanes s1 = lanes s /\
  forall p l, view s1 p l = view s p l.
Proof.
  intros Hc. split; [by rewrite view_cell, Hc|]. unfold cell in *.
  destruct (String.eqb pool "") eqn:Ep.
  { destruct (get_lane s lane) as [ls|] eqn:El; [|done]. simplify_eq. by rewrite El. }
  destruct (assoc pool (lane_cells s lane)) as [c0|] eqn:Ea.
  { simplify_eq. by rewrite Ea. }
  destruct (get_lane s lane) as [ls|] eqn:El; [|done]. simplify_eq.
  rewrite lane_cells_insert, decide_True by done. rewrite assoc_app, Ea. simpl.
  rewrite decide_True by done. split; [done|]. split; [done|]. intros p l. unfold view.
  change (get_lane (set_pool_cells _ s) l) with (get_lane s l).
  rewrite lane_cells_insert. destruct (decide (lane = l)) as [<-|]; [|done].
  rewrite El, assoc_app. simpl. destruct (String.eqb_spec p ""); [done|].
  destruct (assoc p (lane_cells s lane)) eqn:Eq; [done|].
  by destruct (decide (pool = p)).
Qed.

Lemma view_put_pool s pool lane c c' p l :
  pool <> "" -> cell s pool lane = Some (s, c) ->
  view (put_cell s pool lane c') p l =
    if decide (p = pool /\ l = lane) then Some c' else view s p l.
Proof.
  intros Hp Hc. unfold cell, put_cell in *. destruct (String.eqb_spec pool ""); [done|].
  assert (is_Some (assoc pool (lane_cells s lane))) as Ha.
  { destruct (assoc pool (lane_cells s lane)) as [c0|] eqn:Ea; [done|].
    destruct (get_lane s lane) as [ls|]; [|done]. injection Hc as Hs _.
    assert (lane_cells s lane = lane_cells s lane ++ [(pool, inherited_cell ls)]) as Hx.
    { rewrite <- Hs at 1. by rewrite lane_cells_insert, decide_True. }
    apply (f_equal length) in Hx. rewrite length_app in Hx. simpl in Hx. lia. }
  unfold view. change (get_lane (set_pool_cells _ s) l) with (get_lane s l).
  rewrite lane_cells_insert. destruct (decide (lane = l)) as [<-|Hne].
  - destruct (decide (p = pool)) as [->|Hpp].
    + rewrite decide_True by done. rewrite assoc_set_eq by done.
      destruct (String.eqb_spec pool ""); [done|]. by destruct (get_lane s lane).
    + rewrite decide_False by naive_solver. by rewrite assoc_set_ne by congruence.
  - rewrite decide_False by naive_solver. done.
Qed.

(** ** Isolation *)

(** The breaker's part of a cell: everything but the error counter. *)
Definition fsm (c : BreakerCell.t) :=
  (BreakerCell.breaker_state c, BreakerCell.streak c, BreakerCell.cooldown_until c,
   BreakerCell.probe_in_flight c, BreakerCell.probe_epoch c, BreakerCell.outcome_window c,
   BreakerCell.current_weight c).

Lemma view_update_lane s lane f p l :
  (forall ls, fsm (LaneState.cell (f ls)) = fsm (LaneState.cell ls)) ->
  fsm <$> view (update_lane s lane f) p l = fsm <$> view s p l.
Proof.
  intros Hf. unfold view. rewrite update_lane_cells. destruct (decide (lane = l)) as [->|Hne].
  - rewrite get_update_lane_eq. destruct (get_lane s l) as [ls|] eqn:E; simpl; [|done].
    destruct (String.eqb p ""); simpl; [by rewrite Hf|].
    destruct (assoc p (lane_cells s l)); simpl; [done|]. specialize (Hf ls). unfold fsm in Hf.
    unfold inherited_cell. f_equal. unfold fsm. simpl.
    destruct (LaneState.cell (f ls)), (LaneState.cell ls); simpl in *. simplify_eq. done.
  - by rewrite get_update_lane_ne.
Qed.

Lemma on_cell_inv {A} s pool lane (f : BreakerCell.t -> option (BreakerCell.t * A)) s' a :
  on_cell s pool lane f = Some (s', a) ->
  exists s1 c c', cell s pool lane = Some (s1, c) /\ view s pool lane = Some c /\
    f c = Some (c', a) /\ s' = put_cell s1 pool lane c' /\
    cell s1 pool lane = Some (s1, c) /\ lanes s1 = lanes s /\
    forall p l, view s1 p l = view s p l.
Proof.
  unfold on_cell. destruct (cell s pool lane) as [[s1 c]|] eqn:Hc; [|done].
  destruct (f c) as [[c' a']|] eqn:Hf; [|done]. intros [= <- <-].
  destruct (cell_view _ _ _ _ _ Hc) as (Hv & Hs & Hl & Hvv). eauto 12.
Qed.

Lemma record_failure_other env s pool lane now cfg ra s' b p l :
  pool <> "" -> record_failure_for env s pool lane now cfg ra = Some (s', b) ->
  ~ (p = pool /\ l = lane) -> fsm <$> view s' p l = fsm <$> view s p l.
Proof.
  intros Hp Hr Hne. unfold record_failure_for in Hr.
  destruct (get_lane s lane) as [ls|]; [|done].
  destruct (LaneState.dead ls); [by simplify_eq|].
  destruct (on_cell s pool lane _) as [[s2 tripped]|] eqn:Ho; [|done]. simplify_eq.
  apply on_cell_inv in Ho as (s1 & c & c' & _ & _ & _ & -> & Hs1 & _ & Hv).
  assert (fsm <$> view (put_cell s1 pool lane c') p l = fsm <$> view s p l) as Hx.
  { rewrite (view_put_pool s1 pool lane c c') by done. by rewrite decide_False, Hv. }
  destruct b; repeat (rewrite view_update_lane by done); case_match;
    repeat (rewrite view_update_lane by done); done.
Qed.

(** ** The operations as one step relation *)
Inductive StoreOp :=
| OpUsable (pool : string) (lane : nat) (now : Z)
| OpReady (pool : string) (lane : nat) (now : Z)
| OpFailure (pool : string) (lane : nat) (now : Z) (cfg : BreakerCfg.t) (ra : option Z)
| OpSuccess (pool : string) (lane : nat)
| OpHardDown (pool : string) (lane : nat) (reason : string)
| OpHardDownAll (lane : nat) (reason : string)
| OpRecover (lane : nat)
| OpProbeSuccess (lane : nat)
| OpProbeFailure (lane : nat) (resolve : string -> BreakerCfg.t) (ra : option Z)
| OpRelease (pool : string) (lane : nat)
| OpReleaseOwned (pool : string) (lane : nat) (epoch : Z)
| OpSelect (pool : string) (cands : list nat) (ws : list Z) (now : Z)
| OpSpend (lane : nat)
| OpRefund (lane : nat)
| OpClientFault (lane : nat)
| OpLatency (lane : nat) (ms : f64).

Definition exec (env : Env.t) (op : StoreOp) (s : t) : option t :=
  match op with
  | OpUsable p l now => fst <$> usable_for s p l now
  | OpReady p l now => fst <$> ready_for s p l now
  | OpFailure p l now cfg ra => fst <$> record_failure_for env s p l now cfg ra
  | OpSuccess p l => record_success_for env s p l
  | OpHardDown p l r => record_hard_down_for env s p l r
  | OpHardDownAll l r => fst <$> record_hard_down_all_cells env s l r
  | OpRecover l => recover_lane env s l
  | OpProbeSuccess l => record_probe_success_all_cells env s l
  | OpProbeFailure l rc ra => record_probe_failure_all_cells env s l rc ra
  | OpRelease p l => release_probe_in s p l
  | OpReleaseOwned p l e => release_probe_owned_in s p l e
  | OpSelect p cs ws now => fst <$> select_weighted_for s p cs ws now
  | OpSpend l => fst <$> spend_budget s l
  | OpRefund l => refund_budget s l
  | OpClientFault l => record_client_fault s l
  | OpLatency l ms => record_latency_in s l ms
  end.

(** Lanes in range, clock readings and breaker blocks as the callers pass them. *)
Definition op_ok (n : nat) (op : StoreOp) : Prop :=
  match op with
  | OpUsable _ l _ | OpReady _ l _ | OpSuccess _ l | OpHardDown _ l _ | OpHardDownAll l _
  | OpRecover l | OpProbeSuccess l | OpRelease _ l | OpReleaseOwned _ l _ | OpSpend l
  | OpRefund l | OpClientFault l | OpLatency l _ => (l < n)%nat
  | OpFailure _ l now cfg _ => (l < n)%nat /\ is_u64 now /\ cfg_ok cfg
  | OpProbeFailure l rc _ => (l < n)%nat /\ forall p, cfg_ok (rc p)
  | OpSelect _ cs _ _ => Forall (fun l => (l < n)%nat) cs
  end.

Fixpoint exec_all (ops : list (Env.t * StoreOp)) (s : t) : option t :=
  match ops with
  | [] => Some s
  | (env, op) :: rest => let? s := exec env op s in exec_all rest s
  end.

Lemma spend_keeps s lane : store_wf s -> in_range s lane -> keeps_with s (spend_budget s lane).
Proof.
  intros Hwf Hr. unfold spend_budget. destruct (get_lane_Some s lane Hr) as [l ->].
  destruct (negb _); [by eexists _, _|]. case_match; [by eexists _, _|].
  eexists _, _. split; [done|]. rewrite update_lane_length. split; [|done]. by apply update_lane_wf.
Qed.

Lemma refund_keeps s lane : store_wf s -> in_range s lane -> keeps s (refund_budget s lane).
Proof.
  intros Hwf Hr. unfold refund_budget. destruct (get_lane_Some s lane Hr) as [l ->].
  destruct (negb _); [by eexists|]. by apply keeps_update.
Qed.

Lemma latency_keeps s lane ms : store_wf s -> in_range s lane -> keeps s (record_latency_in s lane ms).
Proof.
  intros Hwf Hr. unfold record_latency_in. destruct (negb _ || _); [by eexists|].
  destruct (get_lane_Some s lane Hr) as [l ->]. case_match; [by eexists|]. by apply keeps_update.
Qed.

Lemma client_fault_keeps s lane : store_wf s -> in_range s lane -> keeps s (record_client_fault s lane).
Proof.
  intros Hwf Hr. unfold record_client_fault. destruct (get_lane_Some s lane Hr) as [l ->].
  by apply keeps_update.
Qed.

#[local] Hint Resolve usable_for_keeps ready_for_keeps record_failure_keeps hard_down_all_keeps
  select_keeps spend_keeps keeps_fst : store.

Lemma exec_keeps env op s :
  store_wf s -> is_u64 (Env.now_secs env) -> op_ok (length (lanes s)) op -> keeps s (exec env op s).
Proof.
  intros Hwf Hn Hop. destruct op; simpl in *; try destruct_and!; auto with store.
  - by apply record_success_keeps.
  - by apply record_hard_down_keeps.
  - by apply recover_lane_keeps.
  - by apply probe_success_keeps.
  - by apply probe_failure_keeps.
  - apply on_cell_unit_keeps; [done|done|]. apply cell_release_probe_wf.
  - apply on_cell_unit_keeps; [done|done|]. intros c. apply cell_release_probe_owned_wf.
  - by apply refund_keeps.
  - by apply client_fault_keeps.
  - by apply latency_keeps.
Qed.

(** ** Cells present at their address *)
Definition present (s : t) (pool : string) (lane : nat) : Prop :=
  if String.eqb pool "" then is_Some (get_lane s lane)
  else is_Some (assoc pool (lane_cells s lane)).

Lemma present_cell s pool lane :
  present s pool lane <-> exists c, cell s pool lane = Some (s, c).
Proof.
  unfold present, cell. destruct (String.eqb pool "").
  - destruct (get_lane s lane); split; [eauto|eauto|by intros [??]|by intros [??]].
  - destruct (assoc pool (lane_cells s lane)) as [c|] eqn:Ea; [split; eauto|].
    split; [by intros [??]|]. intros [c Hc]. exfalso.
    destruct (get_lane s lane) as [ls|]; [|done]. injection Hc as Hs _.
    assert (lane_cells s lane = lane_cells s lane ++ [(pool, inherited_cell ls)]) as Hx.
    { rewrite <- Hs at 1. by rewrite lane_cells_insert, decide_True. }
    apply (f_equal length) in Hx. rewrite length_app in Hx. simpl in Hx. lia.
Qed.

Lemma cell_present s pool lane s1 c : cell s pool lane = Some (s1, c) -> present s1 pool lane.
Proof. intros Hc. apply present_cell. apply cell_view in Hc as (_ & Hc & _). eauto. Qed.

Lemma cell_present_mono s pool lane s1 c l :
  cell s pool lane = Some (s1, c) -> present s pool l -> present s1 pool l.
Proof.
  unfold cell, present. destruct (String.eqb pool ""); [destruct (get_lane s lane); naive_solver|].
  destruct (assoc pool (lane_cells s lane)); [naive_solver|].
  destruct (get_lane s lane); [|done]. intros [= <- <-].
  rewrite lane_cells_insert. case_decide; [|done]. subst. rewrite assoc_app.
  intros [c0 ->]. eauto.
Qed.

Lemma view_put s pool lane c' l :
  present s pool lane ->
  view (put_cell s pool lane c') pool l = if decide (l = lane) then Some c' else view s pool l.
Proof.
  intros Hp. destruct (decide (pool = "")) as [->|Hne].
  - unfold present in Hp. simpl in Hp. unfold put_cell, view. simpl.
    destruct (decide (l = lane)) as [->|Hl].
    + rewrite get_update_lane_eq. destruct Hp as [ls ->]. done.
    + rewrite get_update_lane_ne by congruence. done.
  - apply present_cell in Hp as [c Hc]. rewrite (view_put_pool s pool lane c c') by done.
    destruct (decide (l = lane)) as [->|Hl]; [by rewrite decide_True|].
    rewrite decide_False by naive_solver. done.
Qed.

Lemma put_present s pool lane c' l : present s pool l -> present (put_cell s pool lane c') pool l.
Proof.
  unfold present, put_cell. destruct (String.eqb pool "").
  - destruct (decide (l = lane)) as [->|]; [rewrite get_update_lane_eq; by intros [? ->]|].
    by rewrite get_update_lane_ne.
  - rewrite lane_cells_insert. case_decide; [|done]. subst.
    intros [c Hc]. destruct (assoc pool (assoc_set pool c' (lane_cells s l))) eqn:E; [done|].
    rewrite assoc_set_eq in E; [done|by eexists].
Qed.

(** ** Selection as smooth weighted round-robin *)
Definition weights_of (s : t) (pool : string) (ls : list nat) : list Z := weight_at s pool <$> ls.

Lemma weight_at_view s pool lane :
  weight_at s pool lane = from_option BreakerCell.current_weight 0 (view s pool lane).
Proof. unfold weight_at. rewrite view_cell. by destruct (cell s pool lane) as [[? ?]|]. Qed.

Lemma add_weight_at s pool lane w l :
  present s pool lane ->
  weight_at (add_weight pool s (lane, w)) pool l =
    (if decide (l = lane) then wrap_i64 (weight_at s pool lane + w) else weight_at s pool l).
Proof.
  intros Hp. rewrite !weight_at_view. unfold add_weight. simpl.
  pose proof Hp as Hp'. apply present_cell in Hp' as [c Hc]. rewrite Hc.
  rewrite (view_put s pool lane _ l Hp). rewrite (view_cell s pool lane), Hc. simpl.
  by destruct (decide (l = lane)).
Qed.

Lemma add_weight_present s pool e l : present s pool l -> present (add_weight pool s e) pool l.
Proof.
  intros Hp. unfold add_weight. destruct (cell s pool e.1) as [[s1 c]|]; [|done].
  by apply put_present.
Qed.

Lemma fold_add_present s pool h l :
  present s pool l -> present (foldl (add_weight pool) s h) pool l.
Proof. revert s. induction h as [|e h IH]; intros s Hx; simpl; auto using add_weight_present. Qed.

Lemma fold_add_weight s pool h :
  NoDup h.*1 -> Forall (present s pool) h.*1 ->
  weights_of (foldl (add_weight pool) s h) pool h.*1 = swrr_add h.*2 (weights_of s pool h.*1) /\
  (forall l, l ∉ h.*1 -> weight_at (foldl (add_weight pool) s h) pool l = weight_at s pool l) /\
  Forall (present (foldl (add_weight pool) s h) pool) h.*1.
Proof.
  revert s. induction h as [|[lane w] h IH]; intros s Hnd HF; [done|].
  csimpl in Hnd. csimpl in HF. apply NoDup_cons in Hnd as [Hni Hnd]. apply Forall_cons in HF as [Hp HF].
  set (s1 := add_weight pool s (lane, w)).
  assert (Forall (present s1 pool) h.*1) as HF1.
  { eapply Forall_impl; [exact HF|]. intros l. apply add_weight_present. }
  destruct (IH s1 Hnd HF1) as (Hw & Hother & Hpres).
  change (foldl (add_weight pool) s ((lane, w) :: h)) with (foldl (add_weight pool) s1 h).
  assert (weight_at s1 pool lane = wrap_i64 (weight_at s pool lane + w)) as Hl.
  { subst s1. rewrite add_weight_at by done. by rewrite decide_True. }
  assert (forall l, l <> lane -> weight_at s1 pool l = weight_at s pool l) as Hl'.
  { intros l Hne. subst s1. rewrite add_weight_at by done. by rewrite decide_False. }
  split; [|split].
  - unfold weights_of in *. csimpl. rewrite (Hother lane Hni), Hl, Hw. unfold swrr_add. simpl.
    f_equal. f_equal. apply list_fmap_ext. intros i l Hli. apply Hl'. intros ->.
    apply Hni. by apply list_elem_of_lookup_2 in Hli.
  - intros l Hnl. rewrite Hother; [|set_solver]. apply Hl'. set_solver.
  - constructor; [|done]. by apply fold_add_present, add_weight_present.
Qed.

Lemma swrr_shard_view s pool p l : view (swrr_shard s pool).1 p l = view s p l.
Proof. unfold swrr_shard. by case_match. Qed.

Lemma swrr_shard_present s pool p l : present s p l -> present (swrr_shard s pool).1 p l.
Proof. unfold swrr_shard. by case_match. Qed.

(** What the filter loop keeps: exactly the candidates with a weight, an admissible lane and a
    ready cell, in order, each present at its address. *)
Definition eligible (s : t) (pool : string) (now : Z) (e : nat * Z) : bool :=
  negb (e.2 =? 0)
  && match lane_admissible s e.1 with Some b => b | None => false end
  && match view s pool e.1 with Some c => cell_ready_breaker c now | None => false end.

Lemma lane_admissible_lanes s s' lane :
  lanes s' = lanes s -> lane_admissible s' lane = lane_admissible s lane.
Proof. intros H. unfold lane_admissible, get_lane. by rewrite H. Qed.

Lemma eligible_ext s s' pool now e :
  lanes s' = lanes s -> (forall p l, view s' p l = view s p l) ->
  eligible s' pool now e = eligible s pool now e.
Proof. intros Hl Hv. unfold eligible. by rewrite (lane_admissible_lanes s s'), Hv. Qed.

Lemma healthy_scan_spec s pool cands now s' h :
  healthy_scan s pool cands now = Some (s', h) ->
  h = List.filter (eligible s pool now) cands /\ lanes s' = lanes s /\
  (forall p l, view s' p l = view s p l) /\
  (forall l, present s pool l -> present s' pool l) /\ Forall (fun e => present s' pool e.1) h.
Proof.
  revert s s' h. induction cands as [|[ca w] cands IH]; intros s s' h; simpl.
  { intros [= <- <-]. split; [done|]. split; [done|]. split; [done|]. split; [done|constructor]. }
  unfold eligible at 1. simpl.
  destruct (w =? 0); simpl; [apply IH|].
  destruct (lane_admissible s ca) as [[]|] eqn:Ha; simpl; [|apply IH|done].
  destruct (cell s pool ca) as [[s1 c]|] eqn:Hc; [|done].
  destruct (healthy_scan s1 pool cands now) as [[s2 h2]|] eqn:Hh; [|done].
  intros [= <- <-]. pose proof (cell_present _ _ _ _ _ Hc) as Hp1.
  pose proof (fun l => cell_present_mono _ _ _ _ _ l Hc) as Hmono.
  apply cell_view in Hc as (Hv & _ & Hl & Hvv).
  destruct (IH _ _ _ Hh) as (-> & Hl2 & Hv2 & Hm2 & HF).
  rewrite Hv, Hl2, Hl.
  rewrite (filter_ext (eligible s1 pool now) (eligible s pool now))
    by (intros e; by apply eligible_ext).
  rewrite (filter_ext (eligible s1 pool now) (eligible s pool now)) in HF
    by (intros e; by apply eligible_ext).
  split; [by destruct (cell_ready_breaker c now)|]. split; [done|].
  split; [intros; by rewrite Hv2|]. split; [auto|].
  destruct (cell_ready_breaker c now); [constructor; auto|done].
Qed.

Lemma find_best_range i best bw cws j :
  find_best i best bw cws = Some j -> best = Some j \/ (i <= j < i + length cws)%nat.
Proof.
  revert i best bw. induction cws as [|c cws IH]; intros i best bw; simpl; [by left|].
  destruct (bw <? c); intros H; apply IH in H as [H|H]; simplify_eq; auto with lia.
Qed.

Lemma weights_sub s pool (h : list nat) i lane total :
  NoDup h -> present s pool lane -> h !! i = Some lane ->
  weights_of (add_weight pool s (lane, - total)) pool h = swrr_sub total i (weights_of s pool h).
Proof.
  intros Hnd Hp Hi. unfold weights_of, swrr_sub. apply list_eq. intros k.
  destruct (decide (i = k)) as [<-|Hne].
  - rewrite list_lookup_alter_eq, !list_lookup_fmap, Hi. simpl.
    rewrite add_weight_at, decide_True by done. done.
  - rewrite list_lookup_alter_ne by done. rewrite !list_lookup_fmap.
    destruct (h !! k) as [l|] eqn:Hk; simpl; [|done].
    rewrite add_weight_at, decide_False; [done| |done].
    intros ->. apply Hne. by eapply NoDup_lookup.
Qed.

Lemma NoDup_fst_zip (l : list nat) (k : list Z) : NoDup l -> NoDup (zip l k).*1.
Proof.
  intros H. revert k. induction H as [|x l Hx Hl IH]; intros [|y k]; csimpl; try constructor; auto.
  intros Hin. apply Hx. apply list_elem_of_fmap in Hin as ([a b] & -> & Hab).
  by apply elem_of_zip_l in Hab.
Qed.
Lemma NoDup_fst_filter (f : nat * Z -> bool) l : NoDup l.*1 -> NoDup (List.filter f l).*1.
Proof.
  induction l as [|e l IH]; csimpl; [done|]. intros [Hni Hz]%NoDup_cons.
  case_match; csimpl; [|auto]. constructor; [|auto]. intros Hx. apply Hni.
  apply list_elem_of_fmap in Hx as (x & Hxe & Hx). apply list_elem_of_fmap. exists x.
  split; [done|]. apply list_elem_of_In in Hx. apply filter_In in Hx as [Hx _].
  by apply list_elem_of_In.
Qed.

Lemma add_weight_other_pool s pool e p l :
  p <> pool -> present s pool e.1 -> view (add_weight pool s e) p l = view s p l.
Proof.
  intros Hne Hp. unfold add_weight. pose proof Hp as Hp'. apply present_cell in Hp' as [c Hc].
  rewrite Hc. destruct (decide (pool = "")) as [->|Hpool].
  - unfold put_cell, view. simpl. rewrite update_lane_cells.
    destruct (String.eqb_spec p ""); [done|].
    destruct (decide (e.1 = l)) as [<-|Hl]; [|by rewrite get_update_lane_ne].
    rewrite get_update_lane_eq. unfold cell in Hc. simpl in Hc.
    destruct (get_lane s e.1) as [ls|]; [|done]. simpl. injection Hc as <-.
    by destruct (assoc p _).
  - rewrite (view_put_pool s pool e.1 c) by done. by rewrite decide_False by naive_solver.
Qed.

Lemma fold_add_other_pool s pool h p l :
  p <> pool -> Forall (fun e => present s pool e.1) h ->
  view (foldl (add_weight pool) s h) p l = view s p l.
Proof.
  intros Hne. revert s. induction h as [|e h IH]; intros s HF; simpl; [done|].
  apply Forall_cons in HF as [He HF].
  rewrite IH; [by apply add_weight_other_pool|].
  eapply Forall_impl; [exact HF|]. intros e'. apply add_weight_present.
Qed.

(** ** Theorems *)

(** C1.  Selection through a pool is smooth weighted round-robin over exactly the candidates with a
    non-zero weight, an admissible lane (not dead, budget left) and a ready breaker cell: it
    returns [None] when there is none, and otherwise the member and the new accumulators are those
    of one [swrr_step]; accumulators of other members, and every other pool's cells, keep their
    values. *)
Theorem selection_is_swrr_over_eligible s pool cands ws now s' r :
  NoDup cands -> select_weighted_for s pool cands ws now = Some (s', r) ->
  let h := List.filter (eligible s pool now) (zip cands ws) in
  (h = [] -> r = None /\ forall p l, view s' p l = view s p l) /\
  (h <> [] ->
     r = ((swrr_step h.*2 (weights_of s pool h.*1)).1 ≫= fun i => h.*1 !! i) /\
     weights_of s' pool h.*1 = (swrr_step h.*2 (weights_of s pool h.*1)).2 /\
     (forall l, l ∉ h.*1 -> weight_at s' pool l = weight_at s pool l) /\
     (forall p l, p <> pool -> view s' p l = view s p l)).
Proof.
  intros Hnd Hs h. unfold select_weighted_for in Hs.
  destruct (healthy_scan s pool (zip cands ws) now) as [[s1 hs]|] eqn:Hh; [|done].
  apply healthy_scan_spec in Hh as (-> & Hl & Hv & _ & HF). fold h in Hs, HF.
  assert (NoDup h.*1) as Hndh by (by apply NoDup_fst_filter, NoDup_fst_zip).
  clearbody h. destruct h as [|e h']; [by simplify_eq|]. split; [done|]. intros _.
  set (h := e :: h') in *.
  pose proof (swrr_shard_view s1 pool) as Hv2. pose proof (swrr_shard_present s1 pool) as Hp2.
  destruct (swrr_shard s1 pool) as [s2 idx]. simpl in Hv2, Hp2.
  assert (Forall (present s2 pool) h.*1) as HF2.
  { apply Forall_fmap. eapply Forall_impl; [exact HF|]. intros x Hx. simpl. auto. }
  destruct (fold_add_weight s2 pool h Hndh HF2) as (Hw & Hother & Hpres).
  assert (forall l, weight_at s2 pool l = weight_at s pool l) as Hweq
    by (intros l; by rewrite !weight_at_view, Hv2, Hv).
  assert (weights_of s2 pool h.*1 = weights_of s pool h.*1) as Hws
    by (apply list_fmap_ext; auto).
  assert (forall p l, p <> pool -> view (foldl (add_weight pool) s2 h) p l = view s p l) as Hpools.
  { intros p l Hne. rewrite fold_add_other_pool; [by rewrite Hv2, Hv|done|].
    eapply Forall_impl; [exact HF|]. auto. }
  set (s3 := foldl (add_weight pool) s2 h) in *.
  assert ((fun e => weight_at s3 pool e.1) <$> h = weights_of s3 pool h.*1) as Hfm
    by (unfold weights_of; by rewrite <- list_fmap_compose).
  rewrite Hfm, Hw, Hws in Hs. unfold swrr_step.
  destruct (find_best 0 None I64_MIN (swrr_add h.*2 (weights_of s pool h.*1))) as [i|] eqn:Hb;
    cbn [fst snd].
  - assert (exists lane w, h !! i = Some (lane, w)) as (lane & w & Hi).
    { apply find_best_range in Hb as [|Hr]; [done|].
      unfold swrr_add in Hr. rewrite length_zip_with, length_fmap in Hr.
      destruct (lookup_lt_is_Some_2 h i) as [[lane w] Hi]; [lia|]. eauto. }
    rewrite Hi in Hs. injection Hs as <- <-.
    assert (h.*1 !! i = Some lane) as Hi1 by (by rewrite list_lookup_fmap, Hi).
    assert (present s3 pool lane) as Hpl.
    { eapply Forall_lookup_1 in Hpres; [|exact Hi1]. done. }
    split; [done|]. split; [|split].
    + rewrite (weights_sub s3 pool h.*1 i lane) by done. by rewrite Hw, Hws.
    + intros l Hnl. rewrite add_weight_at by done. rewrite decide_False.
      * rewrite Hother by done. apply Hweq.
      * intros ->. apply Hnl. by apply list_elem_of_lookup_2 in Hi1.
    + intros p l Hne. rewrite add_weight_other_pool by done. by apply Hpools.
  - injection Hs as <- <-. split; [done|]. split; [by rewrite Hw, Hws|]. split; [|done].
    intros l Hnl. rewrite Hother by done. apply Hweq.
Qed.

(** Concrete stores for the witnesses. *)
Definition demo_data (m : string) (limited : bool) (budget : Z) : LaneData.t :=
  LaneData.mk m "prov" 10 0%nat limited budget 0 0 false "" 0 0 0 None None false false.

Definition demo_store : t := new_with_limits [demo_data "a" false (-1); demo_data "b" true 3] 1800 86400.
Definition demo_env (now : Z) : Env.t := Env.mk now (fun _ _ => 17) (fun _ lane => Z.of_nat lane).

Lemma selection_is_swrr_over_eligible_witness :
  match select_weighted_for demo_store "p" [0; 1]%nat [3; 0] 100 with
  | Some (s', r) => r = Some 0%nat /\ view s' "q" 1 = view demo_store "q" 1
  | None => False
  end.
Proof.
  destruct (select_weighted_for demo_store "p" [0; 1]%nat [3; 0] 100) as [[s' r]|] eqn:E;
    [|vm_compute in E; discriminate].
  assert (NoDup [0; 1]%nat) as Hnd by (repeat constructor; set_solver).
  destruct (selection_is_swrr_over_eligible _ _ _ _ _ _ _ Hnd E) as [_ Hsel].
  destruct Hsel as (Hr & _ & _ & Hother); [vm_compute; discriminate|].
  split; [rewrite Hr; reflexivity|]. apply Hother. discriminate.
Defined.

(** What the constructor needs of its lane data. *)
Definition lane_data_ok (ld : LaneData.t) : Prop :=
  is_u32 (LaneData.streak ld) /\ is_u64 (LaneData.cooldown_until ld) /\ is_u64 (LaneData.err ld).

Lemma new_store_wf lds hd mh :
  Forall lane_data_ok lds -> is_u64 hd -> store_wf (new_with_limits lds hd mh).
Proof.
  intros HF Hhd. constructor; simpl; [|done|done|constructor].
  apply Forall_fmap. eapply Forall_impl; [exact HF|]. intros ld (Hs & Hc & He). simpl.
  constructor; simpl; auto; try mach_lia; try (split; simpl; unfold OUTCOME_WINDOW_CAPACITY; lia).
  split; [done|]. st_unfold. lia.
Qed.

Lemma demo_store_wf : store_wf demo_store.
Proof. apply new_store_wf; [|mach_lia]. repeat constructor; simpl; mach_lia. Qed.

Lemma exec_all_keeps ops s :
  store_wf s ->
  Forall (fun eo => is_u64 (Env.now_secs eo.1) /\ op_ok (length (lanes s)) eo.2) ops ->
  keeps s (exec_all ops s).
Proof.
  intros Hwf HF. remember (length (lanes s)) as n eqn:Hn. revert s Hwf Hn.
  induction HF as [|[env op] ops [Hu Hop] HF IH]; intros s Hwf Hn; simpl; [by eexists|].
  subst n. destruct (exec_keeps env op s Hwf Hu Hop) as (s1 & -> & Hwf1 & Hl1).
  eapply (keeps_trans s s1); [done|]. by apply IH.
Qed.

(** The store never panics: from the constructor, every finite sequence of operations on lanes
    in range with validated breaker blocks runs to completion, and the store's invariant (every
    cell well-formed, one cell per pool name and lane, every memoised shard equal to the hash of
    its pool) holds at the end. *)
Theorem store_total_and_invariant lds hd mh ops :
  Forall lane_data_ok lds -> is_u64 hd ->
  Forall (fun eo => is_u64 (Env.now_secs eo.1) /\ op_ok (length lds) eo.2) ops ->
  exists s', exec_all ops (new_with_limits lds hd mh) = Some s' /\ store_wf s' /\
    length (lanes s') = length lds.
Proof.
  intros Hd Hh HF. destruct (exec_all_keeps ops (new_with_limits lds hd mh)) as (s' & -> & Hwf & Hl).
  - by apply new_store_wf.
  - simpl. by rewrite length_fmap.
  - exists s'. rewrite Hl. simpl. by rewrite length_fmap.
Qed.

Definition demo_ops : list (Env.t * StoreOp) :=
  [(demo_env 100, OpSelect "p" [0; 1]%nat [3; 1] 100);
   (demo_env 101, OpFailure "p" 0 101 BreakerCfg.default (Some 7));
   (demo_env 102, OpHardDownAll 1 "billing");
   (demo_env 103, OpRecover 1);
   (demo_env 104, OpProbeFailure 0 (fun _ => BreakerCfg.default) None)].

Lemma store_total_and_invariant_witness :
  exists s', exec_all demo_ops demo_store = Some s' /\ store_wf s' /\ length (lanes s') = 2%nat.
Proof.
  apply (store_total_and_invariant [demo_data "a" false (-1); demo_data "b" true 3] 1800 86400).
  - repeat constructor; simpl; mach_lia.
  - mach_lia.
  - repeat constructor; simpl; try mach_lia; intros; apply default_cfg_ok || (compute; congruence).
Defined.

(** Pools are isolated: a failure recorded through a named pool transitions that (pool, lane)
    cell as the cell machine says, and leaves the breaker of every other pool, every other lane and
    the lane's own default route exactly as it was. *)
Theorem failure_isolated_to_pool_cell env s pool lane now cfg ra s' b :
  pool <> "" -> record_failure_for env s pool lane now cfg ra = Some (s', b) ->
  (forall p l, ~ (p = pool /\ l = lane) -> fsm <$> view s' p l = fsm <$> view s p l) /\
  (forall ls c, get_lane s lane = Some ls -> LaneState.dead ls = false -> view s pool lane = Some c ->
     exists c', cell_record_failure (Env.now_nanos env pool lane) (Env.cell_addr env pool lane) c now
                  cfg ra (max_honored_retry_after_secs s) = Some (c', b) /\
                fsm <$> view s' pool lane = Some (fsm c')).
Proof.
  intros Hp Hr. split; [intros p l; by eapply record_failure_other|].
  intros ls c Hls Hdead Hv. unfold record_failure_for in Hr. rewrite Hls, Hdead in Hr.
  destruct (on_cell s pool lane _) as [[s2 tripped]|] eqn:Ho; [|done].
  apply on_cell_inv in Ho as (s1 & c0 & c' & _ & Hv0 & Hf & -> & Hs1 & _ & _).
  rewrite Hv in Hv0. injection Hv0 as <-. injection Hr as <- <-. exists c'. split; [done|].
  assert (fsm <$> view (put_cell s1 pool lane c') pool lane = Some (fsm c')) as Hx.
  { rewrite (view_put_pool s1 pool lane c c') by done. by rewrite decide_True. }
  destruct tripped; repeat (rewrite view_update_lane by done); case_match;
    repeat (rewrite view_update_lane by done); done.
Qed.

Lemma failure_isolated_to_pool_cell_witness :
  match record_failure_for (demo_env 100) demo_store "p" 0 100 BreakerCfg.default None with
  | Some (s', b) =>
      b = false /\ fsm <$> view s' "q" 0 = fsm <$> view demo_store "q" 0 /\
      (exists c', view s' "p" 0 = Some c' /\ 100 < BreakerCell.cooldown_until c')
  | None => False
  end.
Proof.
  destruct (record_failure_for (demo_env 100) demo_store "p" 0 100 BreakerCfg.default None)
    as [[s' b]|] eqn:E; [|vm_compute in E; discriminate].
  assert ("p" <> "") as Hp by discriminate.
  destruct (failure_isolated_to_pool_cell _ _ _ _ _ _ _ _ _ Hp E) as [Ho _].
  split; [vm_compute in E; injection E as <- <-; reflexivity|].
  split; [apply Ho; intros [? _]; discriminate|].
  vm_compute in E. injection E as <- <-. eexists. split; [vm_compute; reflexivity|]. vm_compute.
  reflexivity.
Defined.

(** ** Hard-down, accounting, health carry-over and observation

    Theorems about the store operations that act on a whole lane: the hard-down of every cell, the
    lane-global counters, the SWRR reset of a recovered cell, export and restore of the learned
    health, the latency signal and the worst-cell report. *)

Import InMemoryStore.
Open Scope Z_scope.
Open Scope rust_scope.

(** ** Hard-down *)
Lemma assoc_map (f : BreakerCell.t -> BreakerCell.t) p (cells : list (string * BreakerCell.t)) :
  assoc p ((fun e => (e.1, f e.2)) <$> cells) = f <$> assoc p cells.
Proof. induction cells as [|[k c] cells IH]; csimpl; [done|]. by case_decide. Qed.

Lemma hard_down_all_spec env s lane reason s' b ls :
  get_lane s lane = Some ls -> record_hard_down_all_cells env s lane reason = Some (s', b) ->
  let trip c := hard_down_locked c (Env.now_secs env) (hard_down_cooldown_secs s) in
  b = (BreakerCell.breaker_state (LaneState.cell ls) =? ST_CLOSED) /\
  get_lane s' lane = Some (LaneState.set_cell (trip (LaneState.cell ls)) (LaneState.set_dead_reason reason ls)) /\
  (forall l, l <> lane -> get_lane s' l = get_lane s l /\ lane_cells s' l = lane_cells s l) /\
  lane_cells s' lane = (fun p => (p.1, trip p.2)) <$> lane_cells s lane.
Proof.
  intros Hl Hr trip. unfold record_hard_down_all_cells in Hr. rewrite Hl in Hr.
  injection Hr as <- <-. split; [done|].
  set (s1 := update_lane (update_lane s lane _) lane _).
  assert (get_lane s1 lane =
    Some (LaneState.set_cell (trip (LaneState.cell ls)) (LaneState.set_dead_reason reason ls))) as H1.
  { subst s1. by rewrite !get_update_lane_eq, Hl. }
  assert (forall l, l <> lane -> get_lane s1 l = get_lane s l) as H2.
  { intros l Hne. subst s1. by rewrite !get_update_lane_ne by congruence. }
  assert (forall l, lane_cells s1 l = lane_cells s l) as H3 by done.
  change (pool_cells s) with (pool_cells s1).
  destruct (pool_cells s1 !! lane) as [cells|] eqn:E.
  - split; [exact H1|]. split.
    + intros l Hne. rewrite lane_cells_insert, decide_False by congruence.
      split; [by apply H2|apply H3].
    + rewrite lane_cells_insert, decide_True by done. rewrite <- H3. unfold lane_cells. by rewrite E.
  - split; [exact H1|]. split; [intros l Hne; split; [by apply H2|apply H3]|].
    rewrite <- (H3 lane). unfold lane_cells. by rewrite E.
Qed.

(** ** SWRR reset *)
Lemma reset_weight s pool lane s' l :
  reset_swrr_for s pool lane = Some s' ->
  weight_at s' pool l = if decide (l = lane) then 0 else weight_at s pool l.
Proof.
  unfold reset_swrr_for. pose proof (swrr_shard_view s pool) as Hv.
  destruct (swrr_shard s pool) as [s1 i]. simpl in Hv.
  destruct (on_cell s1 pool lane _) as [[s2 u]|] eqn:Ho; [|done]. simpl. intros [= <-].
  apply on_cell_inv in Ho as (s3 & c & c' & Hc & _ & Hf & -> & Hs3 & _ & Hvv).
  injection Hf as <-. rewrite !weight_at_view.
  rewrite (view_put s3 pool lane) by (apply present_cell; eauto).
  destruct (decide (l = lane)); [done|]. by rewrite Hvv, Hv.
Qed.

Lemma Zsum_weights_reset s s' pool lane (ms : list nat) :
  (forall l, weight_at s' pool l = if decide (l = lane) then 0 else weight_at s pool l) ->
  NoDup ms -> lane ∈ ms ->
  Zsum (weights_of s' pool ms) = Zsum (weights_of s pool ms) - weight_at s pool lane.
Proof.
  intros Hw Hnd Hin. unfold weights_of. induction Hnd as [|m ms Hm Hnd IH]; [by apply not_elem_of_nil in Hin|].
  csimpl. rewrite Hw. destruct (decide (m = lane)) as [->|Hne].
  - assert (weight_at s' pool <$> ms = weight_at s pool <$> ms) as ->; [|lia].
    apply list_fmap_ext. intros i l Hl. rewrite Hw, decide_False; [done|].
    intros ->. apply Hm. by eapply list_elem_of_lookup_2.
  - apply elem_of_cons in Hin as [->|Hin]; [done|]. rewrite IH by done. lia.
Qed.

(** ** Restore *)
Definition restored_lane (restored : list LaneHealth.t) (l : LaneState.t) : LaneState.t :=
  match find_snapshot restored l with Some snap => restore_lane snap l | None => l end.

Definition restored_cells (restored : list LaneHealth.t) (l : LaneState.t)
    (cells : list (string * BreakerCell.t)) : list (string * BreakerCell.t) :=
  match find_snapshot restored l with
  | Some snap => foldl restore_cell cells (LaneHealth.cells snap)
  | None => cells
  end.

Lemma restore_step_spec restored s i k :
  get_lane (restore_step restored s i) k =
    (if decide (i = k) then restored_lane restored <$> get_lane s k else get_lane s k) /\
  lane_cells (restore_step restored s i) k =
    (if decide (i = k)
     then match get_lane s k with
          | Some l => restored_cells restored l (lane_cells s k) | None => lane_cells s k end
     else lane_cells s k).
Proof.
  unfold restore_step, restored_lane, restored_cells.
  destruct (get_lane s i) as [l|] eqn:Hl.
  - destruct (find_snapshot restored l) as [snap|] eqn:Hf.
    + change (get_lane (set_pool_cells _ (update_lane s i (restore_lane snap))) k)
        with (get_lane (update_lane s i (restore_lane snap)) k).
      rewrite lane_cells_insert, update_lane_cells. destruct (decide (i = k)) as [<-|Hne].
      * rewrite get_update_lane_eq, Hl. simpl. by rewrite Hf.
      * by rewrite get_update_lane_ne, update_lane_cells by done.
    + destruct (decide (i = k)) as [<-|Hne]; [|done]. rewrite Hl. simpl. by rewrite Hf.
  - destruct (decide (i = k)) as [<-|Hne]; [|done]. by rewrite Hl.
Qed.

Lemma restore_fold_spec restored idxs s k :
  NoDup idxs ->
  get_lane (foldl (restore_step restored) s idxs) k =
    (if decide (k ∈ idxs) then restored_lane restored <$> get_lane s k else get_lane s k) /\
  lane_cells (foldl (restore_step restored) s idxs) k =
    (if decide (k ∈ idxs)
     then match get_lane s k with
          | Some l => restored_cells restored l (lane_cells s k) | None => lane_cells s k end
     else lane_cells s k).
Proof.
  intros Hnd. revert s. induction Hnd as [|i idxs Hi Hnd IH]; intros s; [done|]. simpl foldl.
  destruct (IH (restore_step restored s i)) as [-> ->].
  destruct (restore_step_spec restored s i k) as [-> ->].
  destruct (decide (i = k)) as [<-|Hne].
  - destruct (decide (i ∈ idxs)); [done|]. by destruct (decide (i ∈ i :: idxs)); [|set_solver].
  - destruct (decide (k ∈ idxs)), (decide (k ∈ i :: idxs)); try done; set_solver.
Qed.

Lemma restore_health_spec restored s k l :
  get_lane s k = Some l ->
  get_lane (restore_health_impl s restored) k = Some (restored_lane restored l) /\
  lane_cells (restore_health_impl s restored) k = restored_cells restored l (lane_cells s k).
Proof.
  intros Hl. unfold restore_health_impl.
  destruct (restore_fold_spec restored (seq 0 (length (lanes s))) s k) as [-> ->];
    [apply NoDup_seq|].
  assert (k ∈ seq 0 (length (lanes s))) as Hin.
  { apply elem_of_seq. apply lookup_lt_Some in Hl. lia. }
  by rewrite !decide_True, !Hl by done.
Qed.

(** Restoring cells with distinct names into an empty list. *)
Lemma restore_cells_fresh (hs : list PoolCellHealth.t) acc :
  NoDup (acc.*1 ++ (PoolCellHealth.pool <$> hs)) ->
  foldl restore_cell acc hs =
    acc ++ ((fun h => (PoolCellHealth.pool h, restore_into h BreakerCell.new)) <$> hs).
Proof.
  revert acc. induction hs as [|h hs IH]; intros acc Hnd; simpl; [by rewrite app_nil_r|].
  assert (assoc (PoolCellHealth.pool h) acc = None) as Ha.
  { destruct (assoc (PoolCellHealth.pool h) acc) as [c|] eqn:E; [|done]. exfalso.
    apply assoc_elem in E. csimpl in Hnd. apply NoDup_app in Hnd as (_ & Hd & _).
    apply (Hd (PoolCellHealth.pool h)); [|apply elem_of_cons; by left].
    apply list_elem_of_fmap. by exists (PoolCellHealth.pool h, c). }
  unfold restore_cell at 2. rewrite Ha. rewrite IH.
  - by rewrite <- app_assoc.
  - rewrite fmap_app. csimpl. rewrite <- app_assoc. exact Hnd.
Qed.

(** The identity of a lane is its model and provider. *)
Definition lane_id (l : LaneState.t) : string * string := (LaneState.model l, LaneState.provider l).

Lemma matches_lane_id l h :
  matches_lane l h = true <-> (LaneHealth.model h, LaneHealth.provider h) = lane_id l.
Proof.
  unfold matches_lane, lane_id. rewrite andb_true_iff, !String.eqb_eq.
  split; [by intros [-> ->]|]. by intros [= -> ->].
Qed.

Lemma find_unique_snapshot s k l l' :
  NoDup (lane_id <$> lanes s) -> get_lane s k = Some l -> lane_id l' = lane_id l ->
  find_snapshot (export_health s) l' = Some (export_lane s k l).
Proof.
  intros Hnd Hl Hid. unfold find_snapshot, export_health.
  assert (forall (ls : list LaneState.t) off, NoDup (lane_id <$> ls) -> forall k, ls !! k = Some l ->
    List.find (matches_lane l') (imap (fun i => export_lane s (off + i)) ls) =
      Some (export_lane s (off + k) l)) as Hgen; [|exact (Hgen (lanes s) 0%nat Hnd k Hl)].
  clear Hnd Hl k. induction ls as [|x ls IH]; intros off Hnd k Hk; [done|].
  csimpl in Hnd. apply NoDup_cons in Hnd as [Hx Hnd]. rewrite imap_cons. simpl.
  destruct k as [|k]; simpl in Hk.
  - injection Hk as ->.
    assert (matches_lane l' (export_lane s (off + 0) l) = true) as -> by (by apply matches_lane_id).
    done.
  - destruct (matches_lane l' (export_lane s (off + 0) x)) eqn:E.
    + exfalso. apply matches_lane_id in E. apply Hx, list_elem_of_fmap. exists l.
      split; [|by eapply list_elem_of_lookup_2]. rewrite <- Hid. exact E.
    + rewrite (imap_ext _ (fun i => export_lane s (S off + i))) by (intros; simpl; f_equal; lia).
      rewrite (IH (S off) Hnd k Hk). f_equal. f_equal. lia.
Qed.

(** ** Lane-global counters *)
Definition counters (l : LaneState.t) : Z * Z * Z :=
  (LaneState.ok l, BreakerCell.err (LaneState.cell l), LaneState.client_fault l).

Lemma cell_record_success_err c now : BreakerCell.err (cell_record_success c now).1 = BreakerCell.err c.
Proof. unfold cell_record_success, cas_state. by repeat case_match; simplify_eq. Qed.

Lemma close_reset_err f c :
  (forall c, BreakerCell.err (f c).1 = BreakerCell.err c) ->
  BreakerCell.err (close_reset f c) = BreakerCell.err c.
Proof. intros Hf. unfold close_reset. specialize (Hf c). by destruct (f c) as [c' []]. Qed.

Lemma closes_all_cells_lane s lane ls f l :
  get_lane (closes_all_cells s lane ls f) l =
    if decide (lane = l)
    then (fun ls => LaneState.set_cell (close_reset f (LaneState.cell ls)) ls) <$> get_lane s l
    else get_lane s l.
Proof.
  unfold closes_all_cells. set (s1 := update_lane s lane _).
  assert (forall s2, lanes s2 = lanes s1 -> get_lane s2 l = get_lane s1 l) as Hx
    by (intros s2 H2; unfold get_lane; by rewrite H2).
  set (s2 := if (f (LaneState.cell ls)).2 then _ else s1).
  assert (lanes s2 = lanes s1) as H2.
  { subst s2. case_match; [|done]. by destruct (swrr_shard_frame s1 ""). }
  rewrite (Hx (memo_shards _ _)).
  - subst s1. destruct (decide (lane = l)) as [<-|Hne]; [apply get_update_lane_eq|].
    by apply get_update_lane_ne.
  - destruct (memo_shards_frame (match pool_cells s !! lane with
        | Some per_lane => set_pool_cells (<[lane := (fun p => (p.1, close_reset f p.2)) <$> per_lane]>
                             (pool_cells s2)) s2
        | None => s2 end) (List.filter (fun p => (f p.2).2) (lane_cells s lane)).*1) as [-> _].
    by case_match.
Qed.

Lemma failure_locked_err ts id c now cfg ra maxh c' b :
  failure_locked ts id c now cfg ra maxh = Some (c', b) -> BreakerCell.err c' = BreakerCell.err c.
Proof.
  unfold failure_locked, cell_open_locked.
  repeat case_match; try (intros [= <- <-]; done);
    destruct (compute_cooldown_with_retry_after _ _ _ _ _ _); simpl; try done;
    intros [= <- <-]; done.
Qed.

Lemma get_lane_put_default s lane c :
  get_lane (put_cell s "" lane c) lane = LaneState.set_cell c <$> get_lane s lane.
Proof. unfold put_cell. simpl. apply get_update_lane_eq. Qed.

Lemma get_lane_put_pool s pool lane c l :
  pool <> "" -> get_lane (put_cell s pool lane c) l = get_lane s l.
Proof. intros Hp. unfold put_cell. by destruct (String.eqb_spec pool ""). Qed.

Lemma failure_err_once env s pool lane now cfg ra s' b ls :
  get_lane s lane = Some ls -> LaneState.dead ls = false ->
  record_failure_for env s pool lane now cfg ra = Some (s', b) ->
  exists ls', get_lane s' lane = Some ls' /\
    BreakerCell.err (LaneState.cell ls') = wrap_u64 (BreakerCell.err (LaneState.cell ls) + 1) /\
    LaneState.ok ls' = LaneState.ok ls /\
    LaneState.trips ls' = (if b then wrap_u64 (LaneState.trips ls + 1) else LaneState.trips ls).
Proof.
  intros Hls Hd Hr. unfold record_failure_for in Hr. rewrite Hls, Hd in Hr.
  destruct (on_cell s pool lane _) as [[s2 tripped]|] eqn:Ho; [|done]. injection Hr as <- <-.
  apply on_cell_inv in Ho as (s1 & c & c' & Hc & Hv & Hf & -> & Hs1 & Hl1 & _).
  assert (get_lane s1 lane = Some ls) as Hls1 by (unfold get_lane; by rewrite Hl1).
  destruct (String.eqb_spec pool "") as [->|Hp]; simpl.
  - apply failure_locked_err in Hf. simpl in Hf.
    assert (c = LaneState.cell ls) as -> by (unfold view in Hv; rewrite Hls in Hv; simpl in Hv; congruence).
    destruct tripped; rewrite ?get_update_lane_eq, get_lane_put_default, Hls1; simpl;
      (eexists; split; [done|]); simpl; by rewrite Hf.
  - destruct tripped; rewrite ?get_update_lane_eq, get_lane_put_pool, Hls1 by done; simpl;
      (eexists; split; [done|]); done.
Qed.

(** ** Worst cell *)
Lemma fold_max_spec {A} (g : A -> Z) (l : list A) (init r : Z) :
  foldl (fun w x => Z.max w (g x)) init l = r ->
  init <= r /\ Forall (fun x => g x <= r) l /\ (r = init \/ Exists (fun x => r = g x) l).
Proof.
  revert init. induction l as [|x l IH]; intros init; simpl.
  - intros ->. split; [lia|]. split; [constructor|by left].
  - intros (H1 & H2 & H3)%IH. split; [lia|]. split; [constructor; [lia|done]|].
    destruct H3 as [H3|H3]; [|right; by constructor].
    destruct (Z.max_spec init (g x)) as [[_ Hm]|[_ Hm]]; rewrite Hm in H3;
      [right; by constructor|by left].
Qed.

(** ** Theorems *)

(** A hard-down reaches every route to the lane: whatever the pool (its cell existing already
    or not), the next dispatch sees an Open cell with the sticky cooldown and no probe in flight,
    refused until the cooldown ends and admitted as a recovery probe from then on.  Other lanes are
    untouched, and the result says whether the default cell was Closed. *)
Theorem hard_down_reaches_every_route env s lane reason s' b :
  store_wf s -> record_hard_down_all_cells env s lane reason = Some (s', b) ->
  (forall pool, exists c, view s' pool lane = Some c /\
     BreakerCell.breaker_state c = ST_OPEN /\ BreakerCell.probe_in_flight c = false /\
     BreakerCell.cooldown_until c = sat_add_u64 (Env.now_secs env) (hard_down_cooldown_secs s) /\
     forall now, (cell_acquire_breaker c now).2 =
       (sat_add_u64 (Env.now_secs env) (hard_down_cooldown_secs s) <=? now)) /\
  (forall pool l, l <> lane -> view s' pool l = view s pool l) /\
  (exists c, view s "" lane = Some c /\ b = (BreakerCell.breaker_state c =? ST_CLOSED)).
Proof.
  intros Hwf Hr. destruct (get_lane s lane) as [ls|] eqn:Hl;
    [|unfold record_hard_down_all_cells in Hr; by rewrite Hl in Hr].
  destruct (hard_down_all_spec _ _ _ _ _ _ _ Hl Hr) as (Hb & Hl' & Hother & Hcells).
  assert (forall c, BreakerCell.breaker_state c = ST_OPEN -> forall now,
    (cell_acquire_breaker c now).2 = (BreakerCell.cooldown_until c <=? now)) as Hacq.
  { intros c Ho now. unfold cell_acquire_breaker. rewrite Ho. simpl.
    destruct (Z.leb_spec (BreakerCell.cooldown_until c) now) as [Hle|]; [|done].
    unfold acquire_locked, cas_state. rewrite Ho. simpl.
    by destruct (Z.ltb_spec now (BreakerCell.cooldown_until c)); [lia|]. }
  split; [|split].
  - intros pool. unfold view. rewrite Hl', Hcells.
    destruct (String.eqb pool "") eqn:Ep;
      [|rewrite (assoc_map (fun c => hard_down_locked c (Env.now_secs env) (hard_down_cooldown_secs s)));
        destruct (assoc pool (lane_cells s lane)); simpl];
      (eexists; split; [done|]; split; [done|]; split; [done|]; split; [done|];
       intros now; by rewrite Hacq).
  - intros pool l Hne. unfold view. destruct (Hother l Hne) as [-> ->]. done.
  - exists (LaneState.cell ls). unfold view. by rewrite Hl.
Qed.

Lemma hard_down_reaches_every_route_witness :
  match record_hard_down_all_cells (demo_env 100) demo_store 1 "billing" with
  | Some (s', b) => b = true /\ exists c, view s' "any pool" 1 = Some c /\
                    BreakerCell.breaker_state c = ST_OPEN
  | None => False
  end.
Proof.
  destruct (record_hard_down_all_cells (demo_env 100) demo_store 1 "billing") as [[s' b]|] eqn:E;
    [|vm_compute in E; discriminate].
  destruct (hard_down_reaches_every_route _ _ _ _ _ _ demo_store_wf E) as (Hall & _ & (c & Hc & Hb)).
  split; [rewrite Hb; vm_compute in Hc; injection Hc as <-; reflexivity|].
  destruct (Hall "any pool") as (c' & Hv & Ho & _). by exists c'.
Defined.

(** Outcomes are counted once per lane: a recorded failure adds exactly one to the lane's
    error counter whether it came through a named pool or the default route, and one trip exactly
    when it reports one; a successful health probe adds exactly one success however many pools the
    lane serves, and no error. *)
Theorem outcomes_counted_once env s pool lane now cfg ra ls :
  get_lane s lane = Some ls -> LaneState.dead ls = false ->
  (forall s' b, record_failure_for env s pool lane now cfg ra = Some (s', b) ->
     exists ls', get_lane s' lane = Some ls' /\
       counters ls' = (LaneState.ok ls, wrap_u64 (BreakerCell.err (LaneState.cell ls) + 1),
                       LaneState.client_fault ls') /\
       LaneState.trips ls' = (if b then wrap_u64 (LaneState.trips ls + 1) else LaneState.trips ls)) /\
  (forall s', record_probe_success_all_cells env s lane = Some s' ->
     exists ls', get_lane s' lane = Some ls' /\
       counters ls' = (wrap_u64 (LaneState.ok ls + 1), BreakerCell.err (LaneState.cell ls),
                       LaneState.client_fault ls)).
Proof.
  intros Hl Hd. split.
  - intros s' b Hr. destruct (failure_err_once _ _ _ _ _ _ _ _ _ _ Hl Hd Hr)
      as (ls' & Hl' & He & Ho & Ht). exists ls'. unfold counters. by rewrite He, Ho.
  - intros s' Hr. unfold record_probe_success_all_cells in Hr. rewrite Hl, Hd in Hr.
    injection Hr as <-. rewrite get_update_lane_eq, closes_all_cells_lane, decide_True, Hl by done.
    simpl. eexists. split; [done|]. unfold counters. simpl. f_equal. f_equal.
    apply close_reset_err. intros c. apply cell_record_success_err.
Qed.

Lemma outcomes_counted_once_witness :
  match record_failure_for (demo_env 100) demo_store "p" 0 100 BreakerCfg.default None with
  | Some (s', b) => exists ls', get_lane s' 0 = Some ls' /\ BreakerCell.err (LaneState.cell ls') = 1
  | None => False
  end.
Proof.
  destruct (record_failure_for (demo_env 100) demo_store "p" 0 100 BreakerCfg.default None)
    as [[s' b]|] eqn:E; [|vm_compute in E; discriminate].
  destruct (outcomes_counted_once (demo_env 100) demo_store "p" 0 100 BreakerCfg.default None
              (lane_of_data (demo_data "a" false (-1)))) as [Hf _]; [reflexivity|reflexivity|].
  destruct (Hf s' b E) as (ls' & Hl & Hc & _). exists ls'. split; [done|].
  unfold counters in Hc. injection Hc as _ He. exact He.
Defined.

(** The SWRR reset of a recovered cell moves the pool's accumulator sum by the cell's stale
    value: it does not restore a zero sum, it shifts the sum by minus that value. *)
Theorem recovery_reset_shifts_pool_sum s pool lane s' (members : list nat) :
  reset_swrr_for s pool lane = Some s' -> NoDup members -> lane ∈ members ->
  Zsum (weights_of s' pool members) = Zsum (weights_of s pool members) - weight_at s pool lane.
Proof. intros Hr Hnd Hin. apply Zsum_weights_reset; [|done|done]. intros l. by eapply reset_weight. Qed.

(** One selection over two equal members, then the first trips and the second is picked alone. *)
Definition drift_store : option t :=
  exec_all [(demo_env 100, OpSelect "p" [0; 1]%nat [1; 1] 100);
            (demo_env 101, OpHardDown "p" 0 "auth");
            (demo_env 102, OpSelect "p" [0; 1]%nat [1; 1] 102)] demo_store.

Lemma recovery_reset_shifts_pool_sum_witness :
  match drift_store with
  | Some s => Zsum (weights_of s "p" [0; 1]%nat) = 0 /\
      match reset_swrr_for s "p" 0 with
      | Some s' => Zsum (weights_of s' "p" [0; 1]%nat) = 1
      | None => False
      end
  | None => False
  end.
Proof.
  destruct drift_store as [s|] eqn:E; [|vm_compute in E; discriminate].
  vm_compute in E. injection E as <-. split; [vm_compute; reflexivity|].
  destruct (reset_swrr_for _ "p" 0) as [s'|] eqn:Er; [|vm_compute in Er; discriminate].
  rewrite (recovery_reset_shifts_pool_sum _ _ _ _ [0; 1]%nat Er).
  - vm_compute. reflexivity.
  - repeat constructor; set_solver.
  - set_solver.
Defined.

(** ** Carry-over of the learned health *)
Lemma fresh_lane lds hd mh k ld :
  lds !! k = Some ld ->
  get_lane (new_with_limits lds hd mh) k = Some (lane_of_data ld) /\
  lane_cells (new_with_limits lds hd mh) k = [].
Proof. intros Hk. unfold get_lane. simpl. rewrite list_lookup_fmap, Hk. done. Qed.

Definition normalize_cell (h : PoolCellHealth.t) : PoolCellHealth.t :=
  PoolCellHealth.mk (PoolCellHealth.pool h) (restored_breaker_state (PoolCellHealth.breaker_state h))
    (PoolCellHealth.cooldown_until h) (PoolCellHealth.streak h) (PoolCellHealth.err h).

(** What a restore keeps of a lane's snapshot: everything, with an in-flight probe read as Open. *)
Definition normalize_lane (h : LaneHealth.t) : LaneHealth.t :=
  LaneHealth.mk (LaneHealth.model h) (LaneHealth.provider h) (LaneHealth.budget h)
    (restored_breaker_state (LaneHealth.breaker_state h)) (LaneHealth.cooldown_until h)
    (LaneHealth.streak h) (LaneHealth.dead h) (LaneHealth.dead_reason h) (LaneHealth.ok h)
    (LaneHealth.err h) (LaneHealth.client_fault h) (LaneHealth.latency_ewma_bits h)
    (LaneHealth.trips h) (LaneHealth.last_trip_at h) (normalize_cell <$> LaneHealth.cells h).

Lemma restored_never_half_open z : restored_breaker_state z <> ST_HALF_OPEN.
Proof. unfold restored_breaker_state. destruct (Z.eqb_spec z ST_HALF_OPEN); done. Qed.

Definition idle (c : BreakerCell.t) : Prop :=
  BreakerCell.breaker_state c <> ST_HALF_OPEN /\ BreakerCell.probe_in_flight c = false.

Lemma restore_into_idle h c : BreakerCell.probe_in_flight c = false -> idle (restore_into h c).
Proof. intros Hp. split; [apply restored_never_half_open|exact Hp]. Qed.

Lemma restore_cells_idle hs acc :
  Forall (fun p => idle p.2) acc -> Forall (fun p => idle p.2) (foldl restore_cell acc hs).
Proof.
  revert acc. induction hs as [|h hs IH]; intros acc HF; [done|]. simpl. apply IH.
  unfold restore_cell. destruct (assoc (PoolCellHealth.pool h) acc) as [c|] eqn:E.
  - apply assoc_set_Forall; [done|]. intros k' _. apply restore_into_idle.
    apply assoc_elem in E. rewrite Forall_forall in HF. by destruct (HF _ E).
  - apply Forall_app. split; [done|]. constructor; [|constructor]. by apply restore_into_idle.
Qed.

Lemma inherited_idle ls : idle (inherited_cell ls).
Proof.
  split; [|done]. unfold inherited_cell. simpl.
  destruct (Z.eqb_spec (BreakerCell.breaker_state (LaneState.cell ls)) ST_HALF_OPEN); done.
Qed.

(** Health survives a configuration apply: when lane identities are distinct, a lane of the
    new configuration with the identity of an old lane, the same limited flag and a cap at least
    the remaining budget exports, right after the state-carrying construction, exactly what the
    old lane exported, wherever either of them sits in the lane table, except that a probe in
    flight is carried as an Open breaker. *)
Theorem restore_export_roundtrip s lds hd mh j k l ld :
  store_wf s -> NoDup (lane_id <$> lanes s) ->
  get_lane s j = Some l -> lds !! k = Some ld ->
  lane_id (lane_of_data ld) = lane_id l -> LaneData.limited ld = LaneState.limited l ->
  (LaneState.limited l = true -> 0 <= LaneState.budget l <= LaneData.budget ld) ->
  let s' := new_with_limits_restored lds hd mh (export_health s) in
  exists l', get_lane s' k = Some l' /\
    export_lane s' k l' = normalize_lane (export_lane s j l).
Proof.
  intros Hwf Hnd Hl Hld Hid Hlim Hb s'.
  destruct (fresh_lane lds hd mh k ld Hld) as [Hf Hfc].
  destruct (restore_health_spec (export_health s) _ k _ Hf) as [Hg Hc].
  rewrite Hfc in Hc. unfold restored_lane in Hg. unfold restored_cells in Hc.
  rewrite (find_unique_snapshot s j l _ Hnd Hl Hid) in Hg, Hc.
  eexists. split; [exact Hg|]. unfold export_lane at 1. subst s'.
  unfold new_with_limits_restored. rewrite Hc. simpl.
  rewrite restore_cells_fresh.
  - unfold lane_id in Hid. injection Hid as Hm Hp. simpl in Hm, Hp. unfold normalize_lane. simpl.
    rewrite Hm, Hp, Hlim. f_equal.
    + destruct (LaneState.limited l); [|done]. simpl.
      destruct (Z.leb_spec 0 (LaneState.budget l)); lia.
    + rewrite <- !list_fmap_compose. apply list_fmap_ext. done.
  - simpl. rewrite <- list_fmap_compose. destruct (lane_cells_wf s j Hwf) as [Hn _]. exact Hn.
Qed.

(** A restore is safe whatever the snapshots hold: no route of any lane comes back with a
    probe in flight or HalfOpen (so no lane waits for a probe nobody owns), no budget exceeds the
    new configuration's cap, an unlimited snapshot never overwrites a cap that was just added, and
    a lane no snapshot names stays as constructed. *)
Theorem restore_is_safe lds hd mh restored k ld :
  lds !! k = Some ld ->
  let s' := new_with_limits_restored lds hd mh restored in
  exists l', get_lane s' k = Some l' /\
    (forall pool c, view s' pool k = Some c -> idle c) /\
    lane_id l' = lane_id (lane_of_data ld) /\ LaneState.limited l' = LaneData.limited ld /\
    LaneState.budget l' <= LaneData.budget ld /\
    (forall h, find_snapshot restored (lane_of_data ld) = Some h -> LaneHealth.budget h < 0 ->
       LaneState.budget l' = LaneData.budget ld) /\
    (find_snapshot restored (lane_of_data ld) = None -> l' = lane_of_data ld).
Proof.
  intros Hld s'. destruct (fresh_lane lds hd mh k ld Hld) as [Hf Hfc].
  destruct (restore_health_spec restored _ k _ Hf) as [Hg Hc]. rewrite Hfc in Hc.
  exists (restored_lane restored (lane_of_data ld)). split; [exact Hg|].
  assert (Forall (fun p => idle p.2) (lane_cells s' k)) as Hcells.
  { unfold s', new_with_limits_restored. rewrite Hc. unfold restored_cells.
    destruct (find_snapshot _ _); [apply restore_cells_idle|]; constructor. }
  split.
  - intros pool c Hv. unfold view in Hv.
    change (restore_health_impl (new_with_limits lds hd mh) restored) with s' in Hg. rewrite Hg in Hv. destruct (String.eqb pool "").
    + injection Hv as <-. unfold restored_lane. destruct (find_snapshot _ _); [|done].
      split; [apply restored_never_half_open|done].
    + destruct (assoc pool (lane_cells s' k)) as [c'|] eqn:E; injection Hv as <-;
        [|apply inherited_idle].
      apply assoc_elem in E. rewrite Forall_forall in Hcells. exact (Hcells _ E).
  - unfold restored_lane. destruct (find_snapshot restored (lane_of_data ld)) as [h|]; simpl.
    + split; [done|]. split; [done|]. destruct (LaneData.limited ld); simpl;
        [destruct (Z.leb_spec 0 (LaneHealth.budget h))|]; (split; [lia|]; split; [|done]);
        intros ? [= <-]; lia.
    + split; [done|]. split; [done|]. split; [lia|]. split; done.
Qed.

(** The lane report of /stats shows the worst route: its cooldown and streak are at least
    those of the default cell and of every pool cell, and are attained by one of them. *)
Theorem stats_report_worst_route available s lane now snap ls :
  get_lane s lane = Some ls -> snapshot available s lane now = Some snap ->
  let routes := LaneState.cell ls :: (lane_cells s lane).*2 in
  Forall (fun c => sat_sub_u64 (BreakerCell.cooldown_until c) now <= LaneSnapshot.cooldown_remaining_s snap) routes /\
  Exists (fun c => LaneSnapshot.cooldown_remaining_s snap = sat_sub_u64 (BreakerCell.cooldown_until c) now) routes /\
  Forall (fun c => BreakerCell.streak c <= LaneSnapshot.streak snap) routes /\
  Exists (fun c => LaneSnapshot.streak snap = BreakerCell.streak c) routes.
Proof.
  intros Hl Hs routes. unfold snapshot in Hs. rewrite Hl in Hs.
  destruct (lane_usable_any_cell s lane now) as [u|]; [|done].
  unfold lane_max_cooldown_remaining, lane_max_streak in Hs. rewrite !Hl in Hs.
  injection Hs as <-. simpl. unfold routes.
  destruct (fold_max_spec (fun p : string * BreakerCell.t => sat_sub_u64 (BreakerCell.cooldown_until p.2) now)
              (lane_cells s lane) (sat_sub_u64 (BreakerCell.cooldown_until (LaneState.cell ls)) now)
              _ eq_refl) as (A1 & A2 & A3).
  destruct (fold_max_spec (fun p : string * BreakerCell.t => BreakerCell.streak p.2)
              (lane_cells s lane) (BreakerCell.streak (LaneState.cell ls)) _ eq_refl) as (B1 & B2 & B3).
  split; [constructor; [exact A1|by apply Forall_fmap]|].
  split; [destruct A3 as [A3|A3]; [by constructor|constructor 2; by apply Exists_fmap]|].
  split; [constructor; [exact B1|by apply Forall_fmap]|].
  destruct B3 as [B3|B3]; [by constructor|constructor 2; by apply Exists_fmap].
Qed.

(** A store that has tripped one pool cell and spent part of the second lane's budget. *)
Definition learned_store : option t :=
  exec_all [(demo_env 100, OpHardDown "p" 0 "auth"); (demo_env 101, OpSpend 1)] demo_store.

Lemma restore_export_roundtrip_witness :
  match learned_store with
  | Some s =>
      let s' := new_with_limits_restored [demo_data "b" true 9; demo_data "a" false (-1)] 60 60
                  (export_health s) in
      exists l', get_lane s' 0 = Some l' /\ LaneHealth.budget (export_lane s' 0 l') = 2
  | None => False
  end.
Proof.
  destruct learned_store as [s|] eqn:E; [|vm_compute in E; discriminate].
  assert (store_wf s) as Hwf.
  { destruct (exec_all_keeps [(demo_env 100, OpHardDown "p" 0 "auth"); (demo_env 101, OpSpend 1)]
                demo_store demo_store_wf) as (s2 & E2 & Hwf & _).
    - repeat constructor; simpl; mach_lia.
    - unfold learned_store in E. rewrite E in E2. by injection E2 as <-. }
  destruct (restore_export_roundtrip s [demo_data "b" true 9; demo_data "a" false (-1)] 60 60 1 0
              (LaneState.set_budget 2 (lane_of_data (demo_data "b" true 3))) (demo_data "b" true 9))
    as (l' & Hl' & He); try reflexivity.
  - exact Hwf.
  - vm_compute in E. injection E as <-. repeat constructor; set_solver.
  - vm_compute in E. injection E as <-. reflexivity.
  - intros _. simpl. lia.
  - exists l'. split; [exact Hl'|]. rewrite He. reflexivity.
Defined.

Lemma restore_is_safe_witness :
  let h := LaneHealth.mk "b" "prov" (-1) ST_HALF_OPEN 500 3 false "" 7 2 0 0 1 90 [] in
  let s' := new_with_limits_restored [demo_data "b" true 9] 60 60 [h] in
  exists l', get_lane s' 0 = Some l' /\ LaneState.budget l' = 9 /\
    forall c, view s' "any" 0 = Some c -> idle c.
Proof.
  intros h s'. destruct (restore_is_safe [demo_data "b" true 9] 60 60 [h] 0 (demo_data "b" true 9)
    eq_refl) as (l' & Hl' & Hidle & _ & _ & _ & Hcap & _).
  exists l'. split; [exact Hl'|]. split; [apply (Hcap h); reflexivity|]. intros c Hc. by eapply Hidle.
Defined.

Lemma stats_report_worst_route_witness :
  match learned_store with
  | Some s => match snapshot (fun _ => 10) s 0 100 with
              | Some snap => LaneSnapshot.cooldown_remaining_s snap = 1800
              | None => False end
  | None => False
  end.
Proof.
  destruct learned_store as [s|] eqn:E; [|vm_compute in E; discriminate].
  vm_compute in E. injection E as <-.
  destruct (snapshot _ _ _ _) as [snap|] eqn:Es; [|vm_compute in Es; discriminate].
  pose proof (fun H => stats_report_worst_route _ _ 0 100 snap
    (LaneState.set_dead_reason "auth" (lane_of_data (demo_data "a" false (-1)))) H Es) as Hw.
  destruct (Hw eq_refl) as (_ & Hex & _). vm_compute in Es. injection Es as <-.
  reflexivity.
Defined.
