(* ===== verification/Budget.v ===== *)
(** * Concurrent spenders of a lane's request budget (store/in_memory.rs, [spend_budget], [refund_budget])

    [spend_budget] is a compare-and-swap loop on one atomic: any number of request threads run it,
    and refund what they charged, in any interleaving.  A thread's local state is its program
    counter and the value [cur] it last observed; [compare_exchange_weak] may fail spuriously. *)
From stdpp Require Import base list relations.
From Stdlib Require Import ZArith Lia.
From S2P Require Import Prelude.
Open Scope Z_scope.

Inductive Pc :=
| Start                 (** before the initial load *)
| Looping (cur : Z)     (** at the head of the loop *)
| Spent                 (** returned true: one unit charged *)
| Refused               (** returned false *)
| Refunded.             (** the charged unit was given back *)

Module Sys.
Record t := mk { budget : Z; threads : list Pc }.
End Sys.
Import Sys.

Inductive BudgetStep : Sys.t -> Sys.t -> Prop :=
| StepLoad b ts i : ts !! i = Some Start ->
    BudgetStep (mk b ts) (mk b (<[i := Looping b]> ts))
| StepExhausted b ts i cur : ts !! i = Some (Looping cur) -> (cur <=? 0) = true ->
    BudgetStep (mk b ts) (mk b (<[i := Refused]> ts))
| StepCasOk b ts i cur : ts !! i = Some (Looping cur) -> (cur <=? 0) = false -> b = cur ->
    BudgetStep (mk b ts) (mk (cur - 1) (<[i := Spent]> ts))
| StepCasErr b ts i cur : ts !! i = Some (Looping cur) -> (cur <=? 0) = false ->
    (* the value differs, or the weak exchange failed spuriously *)
    BudgetStep (mk b ts) (mk b (<[i := Looping b]> ts))
| StepRefund b ts i : ts !! i = Some Spent ->
    BudgetStep (mk b ts) (mk (wrap_i64 (b + 1)) (<[i := Refunded]> ts)).

Definition charged (p : Pc) : Z := match p with Spent => 1 | _ => 0 end.
Definition charges (ts : list Pc) : Z := Zsum (charged <$> ts).

Definition start (cap : Z) (n : nat) : Sys.t := mk cap (replicate n Start).

Lemma charges_insert ts i p q :
  ts !! i = Some p -> charges (<[i := q]> ts) = charges ts - charged p + charged q.
Proof.
  unfold charges. revert i. induction ts as [|x ts IH]; intros [|i] Hi; csimpl in *; try done.
  - injection Hi as ->. lia.
  - rewrite (IH i Hi). lia.
Qed.

Lemma charges_nonneg ts : 0 <= charges ts.
Proof. unfold charges. induction ts as [|[] ts IH]; csimpl in *; lia. Qed.

Lemma charges_start n : charges (replicate n Start) = 0.
Proof. unfold charges. induction n; csimpl in *; lia. Qed.

(** The conserved quantity: what is left plus what is charged is the cap, and nothing is negative. *)
Definition conserved (cap : Z) (s : Sys.t) : Prop := 0 <= budget s /\ budget s + charges (threads s) = cap.

Lemma step_conserves cap s s' :
  cap <= I64_MAX -> conserved cap s -> BudgetStep s s' -> conserved cap s'.
Proof.
  intros Hcap [H0 Hsum] Hstep. unfold conserved.
  destruct Hstep as [b ts i Hi|b ts i cur Hi Hc|b ts i cur Hi Hc ->|b ts i cur Hi Hc|b ts i Hi];
    simpl in *; rewrite (charges_insert _ _ _ _ Hi); simpl; simpl_bool; try lia.
  assert (1 <= charges ts) as Hone.
  { pose proof (charges_insert ts i Spent Start Hi) as E. simpl in E.
    pose proof (charges_nonneg (<[i := Start]> ts)). lia. }
  rewrite wrap_i64_id by mach_lia. lia.
Qed.

Lemma run_conserves cap s s' :
  cap <= I64_MAX -> conserved cap s -> rtc BudgetStep s s' -> conserved cap s'.
Proof. intros Hcap Hc Hr. induction Hr; eauto using step_conserves. Qed.

(** [max_requests] is a hard ceiling under any interleaving: with any number of concurrent
    spenders and refunds on a lane of budget [cap], the budget is never negative, never exceeds
    the cap, and the charges outstanding are exactly the units missing from it, so never more
    than [cap]; and a thread refused saw an exhausted budget. *)
Theorem budget_hard_ceiling cap n s :
  0 <= cap <= I64_MAX -> rtc BudgetStep (start cap n) s ->
  0 <= budget s <= cap /\ charges (threads s) = cap - budget s /\ charges (threads s) <= cap /\
  (forall s', BudgetStep s s' -> forall i cur, threads s !! i = Some (Looping cur) ->
     threads s' !! i = Some Refused -> cur <= 0).
Proof.
  intros Hcap Hr. assert (conserved cap (start cap n)) as H0.
  { split; simpl; [lia|]. rewrite charges_start. lia. }
  destruct (run_conserves cap _ _ ltac:(lia) H0 Hr) as [Hb Hs].
  pose proof (charges_nonneg (threads s)). split; [lia|]. split; [lia|]. split; [lia|].
  intros s' Hst i cur Hi Hi'.
  destruct Hst as [b ts j Hj|b ts j c Hj Hc|b ts j c Hj Hc ->|b ts j c Hj Hc|b ts j Hj]; simpl in *;
    (destruct (decide (i = j)) as [->|Hne];
      [rewrite list_lookup_insert_eq in Hi' by (by eapply lookup_lt_Some); simplify_eq; simpl_bool; lia
      |rewrite list_lookup_insert_ne in Hi' by done; congruence]).
Qed.

(** Lock freedom: a thread at the head of its loop always has a step that makes it return, unless
    another thread changed the budget since it was observed. *)
Lemma spender_can_finish b ts i :
  ts !! i = Some (Looping b) -> exists b' p, BudgetStep (mk b ts) (mk b' (<[i := p]> ts)) /\
    (p = Spent \/ p = Refused).
Proof.
  intros Hi. destruct (b <=? 0) eqn:E.
  - exists b, Refused. split; [by eapply StepExhausted|by right].
  - exists (b - 1), Spent. split; [by eapply StepCasOk|by left].
Qed.

Lemma budget_hard_ceiling_witness :
  let s := mk 0 [Spent; Looping 1] in
  rtc BudgetStep (start 1 2) s /\ charges (threads s) = 1.
Proof.
  intros s. assert (rtc BudgetStep (start 1 2) s) as Hr.
  { eapply rtc_l; [apply (StepLoad 1 _ 0); reflexivity|]. simpl.
    eapply rtc_l; [apply (StepLoad 1 _ 1); reflexivity|]. simpl.
    eapply rtc_l; [apply (StepCasOk 1 _ 0 1); reflexivity|]. apply rtc_refl. }
  split; [exact Hr|]. assert (0 <= 1 <= I64_MAX) as Hc by mach_lia.
  destruct (budget_hard_ceiling 1 2 s Hc Hr) as (_ & Hch & _). rewrite Hch. reflexivity.
Defined.
