(* ===== verification/EventStream.v ===== *)
(** * AWS event-stream framing (crates/busbar/src/eventstream.rs)

    The decoder [drain_frames_checked], the header scan and the encoders.  A byte is a [Z] in
    [0, 256); a [&str] is the list of its bytes.  Slice and index expressions return [None] when
    they would panic, so totality is a theorem.  [crc32fast::hash] and the [serde_json] rendering of
    an exception body are the arguments [crc32] and [json_message]. *)
From stdpp Require Import base list strings.
From Stdlib Require Import ZArith Lia.
From S2P Require Import Prelude.
Open Scope Z_scope.
Open Scope rust_scope.

Notation bytes := (list Z).

Definition len {A} (l : list A) : Z := Z.of_nat (length l).

(** The bytes of an ASCII literal. *)
Fixpoint bytes_of (s : string) : bytes :=
  match s with EmptyString => [] | String a s => Z.of_N (Ascii.N_of_ascii a) :: bytes_of s end.

(** [&l[lo..hi]] and [l[i]]. *)
Definition slice {A} (lo hi : Z) (l : list A) : option (list A) :=
  if (0 <=? lo) && (lo <=? hi) && (hi <=? len l)
  then Some (take (Z.to_nat (hi - lo)) (drop (Z.to_nat lo) l)) else None.

Definition index {A} (i : Z) (l : list A) : option A :=
  if 0 <=? i then l !! Z.to_nat i else None.

Definition be_u16 (b0 b1 : Z) : Z := b0 * 256 + b1.
Definition be_u32 (b0 b1 b2 b3 : Z) : Z := ((b0 * 256 + b1) * 256 + b2) * 256 + b3.
Definition u16_to_be (z : Z) : bytes := [z / 256 mod 256; z mod 256].
Definition u32_to_be (z : Z) : bytes := [z / 16777216 mod 256; z / 65536 mod 256; z / 256 mod 256; z mod 256].

(** ** [std::str::from_utf8]: well-formed UTF-8 byte sequences *)
Definition in_range (lo hi b : Z) : bool := (lo <=? b) && (b <=? hi).
Definition cont (b : Z) : bool := in_range 128 191 b.

Fixpoint utf8_valid (l : bytes) : bool :=
  match l with
  | [] => true
  | b0 :: r0 =>
      if in_range 0 127 b0 then utf8_valid r0
      else match r0 with
      | [] => false
      | b1 :: r1 =>
          if in_range 194 223 b0 then cont b1 && utf8_valid r1
          else match r1 with
          | [] => false
          | b2 :: r2 =>
              if in_range 224 239 b0 then
                in_range (if b0 =? 224 then 160 else 128) (if b0 =? 237 then 159 else 191) b1
                && cont b2 && utf8_valid r2
              else match r2 with
              | [] => false
              | b3 :: r3 =>
                  in_range 240 244 b0
                  && in_range (if b0 =? 240 then 144 else 128) (if b0 =? 244 then 143 else 191) b1
                  && cont b2 && cont b3 && utf8_valid r3
              end
          end
      end
  end.

(** ** Constants *)
Definition MAX_FRAME_BYTES : Z := 16 * 1024 * 1024.
Definition PRELUDE_LEN : Z := 12.
Definition CRC_BYTES : Z := 4.
Definition MIN_FRAME_BYTES : Z := PRELUDE_LEN + CRC_BYTES.
Definition HDR_EVENT_TYPE : bytes := Eval cbv in bytes_of ":event-type".
Definition HDR_CONTENT_TYPE : bytes := Eval cbv in bytes_of ":content-type".
Definition HDR_MESSAGE_TYPE : bytes := Eval cbv in bytes_of ":message-type".
Definition HDR_EXCEPTION_TYPE : bytes := Eval cbv in bytes_of ":exception-type".
Definition MSG_TYPE_EVENT : bytes := Eval cbv in bytes_of "event".
Definition MSG_TYPE_EXCEPTION : bytes := Eval cbv in bytes_of "exception".
Definition HDR_TYPE_STRING : Z := 7.
Definition APPLICATION_JSON : bytes := Eval cbv in bytes_of "application/json".

(** ** The header scan *)
Module FrameHeaders.
Record t := mk {
  event_type : option bytes; message_type : option bytes; exception_type : option bytes }.
Definition default : t := mk None None None.
End FrameHeaders.

Definition fixed_width (value_type : Z) : option Z :=
  if (value_type =? 0) || (value_type =? 1) then Some 0
  else if value_type =? 2 then Some 1
  else if value_type =? 3 then Some 2
  else if value_type =? 4 then Some 4
  else if value_type =? 5 then Some 8
  else if value_type =? 8 then Some 8
  else if value_type =? 9 then Some 16
  else None.

(** One header value from offset [p]: [Some None] is the loop's [break]. *)
Definition read_value (h : bytes) (p value_type : Z) : option (option (option bytes * Z)) :=
  if (value_type =? 6) || (value_type =? HDR_TYPE_STRING) then
    if len h <? p + 2 then Some None
    else
      let? b0 := index p h in
      let? b1 := index (p + 1) h in
      let vlen := be_u16 b0 b1 in
      let p := p + 2 in
      if len h <? p + vlen then Some None
      else let? v := slice p (p + vlen) h in Some (Some (Some v, p + vlen))
  else
    match fixed_width value_type with
    | Some w => if len h <? p + w then Some None else Some (Some (None, p + w))
    | None => Some None
    end.

Definition record_header (name : bytes) (value : option bytes) (found : FrameHeaders.t) : FrameHeaders.t :=
  match value with
  | Some v =>
      if negb (utf8_valid v) then found
      else if decide (name = HDR_EVENT_TYPE) then
        FrameHeaders.mk (Some v) (FrameHeaders.message_type found) (FrameHeaders.exception_type found)
      else if decide (name = HDR_MESSAGE_TYPE) then
        FrameHeaders.mk (FrameHeaders.event_type found) (Some v) (FrameHeaders.exception_type found)
      else if decide (name = HDR_EXCEPTION_TYPE) then
        FrameHeaders.mk (FrameHeaders.event_type found) (FrameHeaders.message_type found) (Some v)
      else found
  | None => found
  end.

Fixpoint parse_headers_loop (fuel : nat) (h : bytes) (found : FrameHeaders.t) : option FrameHeaders.t :=
  match fuel, h with
  | _, [] => Some found
  | O, _ => None
  | S fuel, name_len :: _ =>
      if len h <? 1 + name_len + 1 then Some found
      else
        let? name := slice 1 (1 + name_len) h in
        let? value_type := index (1 + name_len) h in
        let? value := read_value h (1 + name_len + 1) value_type in
        match value with
        | None => Some found
        | Some (v, p) =>
            let? rest := slice p (len h) h in
            parse_headers_loop fuel rest (record_header name v found)
        end
  end.

Definition parse_frame_headers (h : bytes) : option FrameHeaders.t :=
  parse_headers_loop (length h) h FrameHeaders.default.

(** ** The event type of a frame *)

(** [str::rsplit(['#', '/'])]: the tokens, last first. *)
Definition is_delim (b : Z) : bool := (b =? 35) || (b =? 47).

Fixpoint split_tokens (l : bytes) : list bytes :=
  match l with
  | [] => [[]]
  | b :: l' =>
      if is_delim b then [] :: split_tokens l'
      else match split_tokens l' with [] => [[b]] | tok :: toks => (b :: tok) :: toks end
  end.

Definition rsplit (l : bytes) : list bytes := reverse (split_tokens l).

Definition is_empty (l : bytes) : bool := match l with [] => true | _ => false end.

Definition bare_name (exc : bytes) : bytes :=
  match List.find (fun s => negb (is_empty s)) (rsplit exc) with Some s => s | None => exc end.

Definition to_ascii_lowercase (b : Z) : Z := if in_range 65 90 b then b + 32 else b.

Definition lowercase_first (s : bytes) : bytes :=
  match s with b :: rest => to_ascii_lowercase b :: rest | [] => [] end.

Definition event_type_for_frame (headers : bytes) : option bytes :=
  let? parsed := parse_frame_headers headers in
  let fallback := default [] (FrameHeaders.event_type parsed) in
  Some (if decide (FrameHeaders.message_type parsed = Some MSG_TYPE_EXCEPTION) then
          match FrameHeaders.exception_type parsed with
          | Some exc => lowercase_first (bare_name exc)
          | None => fallback
          end
        else fallback).

(** ** Draining frames *)
Inductive DrainStatus := DrainOk | MalformedPrelude.

Module Drain.
Record t := mk {
  frames : list (bytes * bytes); status : DrainStatus; valid_consumed : Z;
  buf : bytes; sink : option bytes }.
End Drain.

Definition malformed (total_len headers_len : Z) : bool :=
  negb ((MIN_FRAME_BYTES <=? total_len) && (total_len <=? MAX_FRAME_BYTES))
  || (total_len - MIN_FRAME_BYTES <? headers_len).

Fixpoint drain_loop (fuel : nat) (buf : bytes) (out : list (bytes * bytes)) (consumed : Z)
    (sink : option bytes) : option Drain.t :=
  match fuel with
  | O => None
  | S fuel =>
      if len buf <? PRELUDE_LEN then Some (Drain.mk out DrainOk consumed buf sink)
      else
        let? b0 := index 0 buf in let? b1 := index 1 buf in
        let? b2 := index 2 buf in let? b3 := index 3 buf in
        let total_len := be_u32 b0 b1 b2 b3 in
        let? b4 := index 4 buf in let? b5 := index 5 buf in
        let? b6 := index 6 buf in let? b7 := index 7 buf in
        let headers_len := be_u32 b4 b5 b6 b7 in
        if malformed total_len headers_len
        then Some (Drain.mk out MalformedPrelude consumed [] sink)
        else if len buf <? total_len then Some (Drain.mk out DrainOk consumed buf sink)
        else
          let? headers := slice PRELUDE_LEN (PRELUDE_LEN + headers_len) buf in
          let? event_type := event_type_for_frame headers in
          let? payload := slice (PRELUDE_LEN + headers_len) (total_len - CRC_BYTES) buf in
          let? raw := slice 0 total_len buf in
          let? rest := slice total_len (len buf) buf in
          drain_loop fuel rest (out ++ [(event_type, payload)]) (consumed + total_len)
            ((fun s => s ++ raw) <$> sink)
  end.

Definition drain_frames_checked (buf : bytes) (consumed_sink : option bytes) : option Drain.t :=
  drain_loop (S (length buf)) buf [] 0 consumed_sink.

(** ** Encoding *)
Definition push_string_header (headers name value : bytes) : option bytes :=
  if (255 <? len name) || (65535 <? len value) then None
  else Some (headers ++ [len name] ++ name ++ [HDR_TYPE_STRING] ++ u16_to_be (len value) ++ value).

Definition frame_open : bytes := replicate 12 0.

Section Encode.
Context (crc32 : bytes -> Z) (json_message : bytes -> option bytes).

(** [frame[lo..lo+4].copy_from_slice]. *)
Definition backfill (lo : nat) (v frame : bytes) : bytes :=
  take lo frame ++ v ++ drop (lo + length v) frame.

Definition frame_close (frame payload : bytes) : bytes :=
  let headers_len := len frame - PRELUDE_LEN in
  let total_len := PRELUDE_LEN + headers_len + len payload + CRC_BYTES in
  if MAX_FRAME_BYTES <? total_len then []
  else
    let frame := backfill 0 (u32_to_be total_len) frame in
    let frame := backfill 4 (u32_to_be headers_len) frame in
    let frame := backfill 8 (u32_to_be (crc32 (take 8 frame))) frame in
    let frame := frame ++ payload in
    frame ++ u32_to_be (crc32 frame).

(** The three headers of a frame, or [None] when one is oversized and the frame is dropped. *)
Definition encode_frame (event_type payload : bytes) : bytes :=
  let headers :=
    let? f := push_string_header frame_open HDR_EVENT_TYPE event_type in
    let? f := push_string_header f HDR_CONTENT_TYPE APPLICATION_JSON in
    push_string_header f HDR_MESSAGE_TYPE MSG_TYPE_EVENT in
  match headers with Some frame => frame_close frame payload | None => [] end.

Definition encode_exception_frame (exception_type message : bytes) : bytes :=
  let payload :=
    match json_message message with
    | Some p => p
    | None => (* the literal body with AWS's generic message *)
        [123; 34] ++ bytes_of "message" ++ [34; 58; 34]
          ++ bytes_of "An internal server error occurred." ++ [34; 125]
    end in
  let headers :=
    let? f := push_string_header frame_open HDR_EXCEPTION_TYPE exception_type in
    let? f := push_string_header f HDR_CONTENT_TYPE APPLICATION_JSON in
    push_string_header f HDR_MESSAGE_TYPE MSG_TYPE_EXCEPTION in
  match headers with Some frame => frame_close frame payload | None => [] end.
End Encode.
