(* ===== verification/EventStreamFacts.v ===== *)
(** * Event-stream framing: decoder totality, chunk independence, round trips *)
From stdpp Require Import base list strings.
From Stdlib Require Import ZArith Lia.
From S2P Require Import Prelude EventStream.
Open Scope Z_scope.
Open Scope rust_scope.

Definition byte_ok (b : Z) : Prop := 0 <= b < 256.
Definition bytes_ok (l : bytes) : Prop := Forall byte_ok l.

Ltac len_lia := unfold len, PRELUDE_LEN, CRC_BYTES, MIN_FRAME_BYTES, MAX_FRAME_BYTES, HDR_TYPE_STRING in *;
  rewrite ?length_app, ?length_take, ?length_drop, ?length_cons, ?length_replicate in *; simpl length in *; lia.

(** ** Slices *)
Lemma slice_spec {A} lo hi (l s : list A) :
  slice lo hi l = Some s <->
  0 <= lo <= hi /\ hi <= len l /\ s = take (Z.to_nat (hi - lo)) (drop (Z.to_nat lo) l).
Proof.
  unfold slice. destruct ((0 <=? lo) && (lo <=? hi) && (hi <=? len l)) eqn:E; simpl_bool.
  - split; [by intros [= <-]|]. by intros (_ & _ & ->).
  - split; [done|]. intros (H1 & H2 & _). exfalso.
    assert ((0 <=? lo) && (lo <=? hi) && (hi <=? len l) = true); [|congruence].
    rewrite !andb_true_iff, !Z.leb_le. lia.
Qed.

Lemma slice_total {A} lo hi (l : list A) :
  0 <= lo <= hi -> hi <= len l -> is_Some (slice lo hi l).
Proof. intros H1 H2. eexists. by apply slice_spec. Qed.

Lemma slice_app {A} lo hi (l l2 s : list A) :
  slice lo hi l = Some s -> slice lo hi (l ++ l2) = Some s.
Proof.
  rewrite !slice_spec. intros (H1 & H2 & ->). split; [done|]. split; [len_lia|].
  rewrite drop_app, take_app.
  assert (Z.to_nat (hi - lo) - length (drop (Z.to_nat lo) l) = 0)%nat as -> by len_lia.
  by rewrite take_0, app_nil_r.
Qed.

(** The slice between a prefix and a suffix. *)
Lemma slice_mid {A} lo hi (l1 l2 l3 : list A) :
  lo = len l1 -> hi = len l1 + len l2 -> slice lo hi (l1 ++ l2 ++ l3) = Some l2.
Proof.
  intros -> ->. apply slice_spec. split; [len_lia|]. split; [len_lia|].
  unfold len. rewrite Nat2Z.id, drop_app_length.
  replace (Z.to_nat _) with (length l2) by lia. by rewrite take_app_length.
Qed.

Lemma slice_end {A} lo (l1 l2 : list A) : lo = len l1 -> slice lo (len (l1 ++ l2)) (l1 ++ l2) = Some l2.
Proof.
  intros ->. rewrite <- (app_nil_r l2) at 2. apply slice_mid; [done|]. len_lia.
Qed.

Lemma slice_bytes_ok lo hi l s : bytes_ok l -> slice lo hi l = Some s -> bytes_ok s.
Proof. intros Hl (_ & _ & ->)%slice_spec. by apply Forall_take, Forall_drop. Qed.

Lemma index_total {A} i (l : list A) : 0 <= i < len l -> is_Some (index i l).
Proof.
  intros Hi. unfold index. destruct (Z.leb_spec 0 i); [|lia]. apply lookup_lt_is_Some. len_lia.
Qed.

Lemma index_byte i l b : bytes_ok l -> index i l = Some b -> byte_ok b.
Proof. unfold index. case_match; [|done]. intros Hl Hb. by eapply Forall_lookup_1. Qed.

Lemma index_app {A} i (l l2 : list A) b : index i l = Some b -> index i (l ++ l2) = Some b.
Proof. unfold index. case_match; [|done]. apply lookup_app_l_Some. Qed.

Lemma index_mid {A} i (l1 l2 : list A) b : i = len l1 -> index i (l1 ++ b :: l2) = Some b.
Proof.
  intros ->. unfold index. destruct (Z.leb_spec 0 (len l1)); [|len_lia].
  unfold len. rewrite Nat2Z.id. by apply list_lookup_middle.
Qed.

(** ** Big-endian integers *)
Lemma be_u32_to_be z : 0 <= z < 2 ^ 32 ->
  match u32_to_be z with [a; b; c; d] => be_u32 a b c d = z | _ => False end.
Proof.
  intros Hz. unfold u32_to_be, be_u32.
  rewrite (Z.mod_small (z / 16777216) 256) by
    (split; [apply Z.div_pos; lia|apply Z.div_lt_upper_bound; lia]).
  replace (z / 16777216) with (z / 256 / 256 / 256) by (rewrite !Z.div_div by lia; done).
  replace (z / 65536) with (z / 256 / 256) by (rewrite !Z.div_div by lia; done).
  pose proof (Z.div_mod z 256). pose proof (Z.div_mod (z / 256) 256).
  pose proof (Z.div_mod (z / 256 / 256) 256). lia.
Qed.

Lemma be_u16_to_be z : 0 <= z < 65536 -> be_u16 (z / 256 mod 256) (z mod 256) = z.
Proof.
  intros Hz. unfold be_u16. pose proof (Z.div_mod z 256).
  rewrite (Z.mod_small (z / 256)) by (split; [apply Z.div_pos; lia|apply Z.div_lt_upper_bound; lia]).
  lia.
Qed.

Lemma byte_mod z : byte_ok (z mod 256).
Proof. unfold byte_ok. apply Z.mod_pos_bound. lia. Qed.

Lemma u32_to_be_ok z : bytes_ok (u32_to_be z).
Proof. repeat constructor; apply byte_mod. Qed.

Lemma be_u32_bound b0 b1 b2 b3 :
  byte_ok b0 -> byte_ok b1 -> byte_ok b2 -> byte_ok b3 -> 0 <= be_u32 b0 b1 b2 b3 < 2 ^ 32.
Proof. unfold byte_ok, be_u32. lia. Qed.

(** ** The header scan is total *)
Lemma read_value_total h p vt :
  bytes_ok h -> 0 <= p <= len h -> exists r, read_value h p vt = Some r /\
    (forall v p', r = Some (v, p') -> p <= p' <= len h).
Proof.
  intros Hh Hp. unfold read_value. destruct ((vt =? 6) || (vt =? HDR_TYPE_STRING)).
  - destruct (Z.ltb_spec (len h) (p + 2)); [by eexists|].
    destruct (index_total p h) as [b0 E0]; [lia|].
    destruct (index_total (p + 1) h) as [b1 E1]; [lia|]. rewrite E0, E1.
    pose proof (index_byte _ _ _ Hh E0). pose proof (index_byte _ _ _ Hh E1). unfold byte_ok in *.
    destruct (Z.ltb_spec (len h) (p + 2 + be_u16 b0 b1)); [by eexists|].
    assert (0 <= be_u16 b0 b1) by (unfold be_u16; lia).
    destruct (slice_total (p + 2) (p + 2 + be_u16 b0 b1) h) as [v Hv]; [lia|lia|]. rewrite Hv.
    eexists. split; [done|]. intros v' p' [= <- <-]. lia.
  - destruct (fixed_width vt) as [w|] eqn:Ew; [|by eexists].
    assert (0 <= w) by (unfold fixed_width in Ew; repeat case_match; simplify_eq; lia).
    destruct (Z.ltb_spec (len h) (p + w)); [by eexists|]. eexists. split; [done|].
    intros v' p' [= <- <-]. lia.
Qed.

(** The body of the scan's loop, for a header block [h] starting with the name length [n]. *)
Lemma parse_headers_step fuel h n tl found :
  h = n :: tl ->
  parse_headers_loop (S fuel) h found =
  if len h <? 1 + n + 1 then Some found
  else
    let? name := slice 1 (1 + n) h in
    let? value_type := index (1 + n) h in
    let? value := read_value h (1 + n + 1) value_type in
    match value with
    | None => Some found
    | Some (v, p) =>
        let? rest := slice p (len h) h in
        parse_headers_loop fuel rest (record_header name v found)
    end.
Proof. by intros ->. Qed.

Lemma parse_headers_loop_total fuel h found :
  (length h <= fuel)%nat -> bytes_ok h -> is_Some (parse_headers_loop fuel h found).
Proof.
  revert h found. induction fuel as [|fuel IH]; intros h found Hf Hh.
  { destruct h; [by eexists|simpl in Hf; lia]. }
  destruct h as [|n tl]; [by eexists|]. remember (n :: tl) as h eqn:Eh.
  assert (byte_ok n) as Hn by (subst h; by inversion Hh). unfold byte_ok in Hn.
  rewrite (parse_headers_step fuel h n tl found Eh).
  destruct (Z.ltb_spec (len h) (1 + n + 1)); [by eexists|].
  destruct (slice_total 1 (1 + n) h) as [name ->]; [lia|lia|].
  destruct (index_total (1 + n) h) as [vt ->]; [lia|].
  destruct (read_value_total h (1 + n + 1) vt Hh) as (r & -> & Hr); [lia|].
  destruct r as [[v p]|]; [|by eexists]. specialize (Hr v p eq_refl).
  destruct (slice_total p (len h) h) as [rest Hrest]; [lia|lia|]. rewrite Hrest.
  apply IH; [|by eapply slice_bytes_ok].
  apply slice_spec in Hrest as (_ & _ & ->). len_lia.
Qed.

Lemma event_type_for_frame_total h : bytes_ok h -> is_Some (event_type_for_frame h).
Proof.
  intros Hh. unfold event_type_for_frame, parse_frame_headers.
  destruct (parse_headers_loop_total (length h) h FrameHeaders.default) as [p ->]; [lia|done|].
  by eexists.
Qed.

(** ** One iteration of the decoder *)
Inductive Next := NeedMore | Bad | Frame (event_type payload raw rest : bytes).

Definition next (buf : bytes) : option Next :=
  if len buf <? PRELUDE_LEN then Some NeedMore
  else
    let? b0 := index 0 buf in let? b1 := index 1 buf in
    let? b2 := index 2 buf in let? b3 := index 3 buf in
    let total_len := be_u32 b0 b1 b2 b3 in
    let? b4 := index 4 buf in let? b5 := index 5 buf in
    let? b6 := index 6 buf in let? b7 := index 7 buf in
    let headers_len := be_u32 b4 b5 b6 b7 in
    if malformed total_len headers_len then Some Bad
    else if len buf <? total_len then Some NeedMore
    else
      let? headers := slice PRELUDE_LEN (PRELUDE_LEN + headers_len) buf in
      let? event_type := event_type_for_frame headers in
      let? payload := slice (PRELUDE_LEN + headers_len) (total_len - CRC_BYTES) buf in
      let? raw := slice 0 total_len buf in
      let? rest := slice total_len (len buf) buf in
      Some (Frame event_type payload raw rest).

Lemma malformed_false t h :
  malformed t h = false -> 16 <= t <= 16777216 /\ h <= t - 16.
Proof.
  unfold malformed, MIN_FRAME_BYTES, PRELUDE_LEN, CRC_BYTES, MAX_FRAME_BYTES. intros H.
  apply orb_false_iff in H as [H1 H2]. simpl_bool. lia.
Qed.

Lemma next_frame_inv buf et pl raw rest :
  next buf = Some (Frame et pl raw rest) ->
  exists b0 b1 b2 b3 b4 b5 b6 b7 headers,
    index 0 buf = Some b0 /\ index 1 buf = Some b1 /\ index 2 buf = Some b2 /\ index 3 buf = Some b3 /\
    index 4 buf = Some b4 /\ index 5 buf = Some b5 /\ index 6 buf = Some b6 /\ index 7 buf = Some b7 /\
    malformed (be_u32 b0 b1 b2 b3) (be_u32 b4 b5 b6 b7) = false /\
    PRELUDE_LEN <= len buf /\ be_u32 b0 b1 b2 b3 <= len buf /\
    slice PRELUDE_LEN (PRELUDE_LEN + be_u32 b4 b5 b6 b7) buf = Some headers /\
    event_type_for_frame headers = Some et /\
    slice (PRELUDE_LEN + be_u32 b4 b5 b6 b7) (be_u32 b0 b1 b2 b3 - CRC_BYTES) buf = Some pl /\
    slice 0 (be_u32 b0 b1 b2 b3) buf = Some raw /\
    slice (be_u32 b0 b1 b2 b3) (len buf) buf = Some rest.
Proof.
  unfold next. destruct (Z.ltb_spec (len buf) PRELUDE_LEN); [done|].
  destruct (index 0 buf) as [b0|]; [|done]. destruct (index 1 buf) as [b1|]; [|done].
  destruct (index 2 buf) as [b2|]; [|done]. destruct (index 3 buf) as [b3|]; [|done].
  destruct (index 4 buf) as [b4|]; [|done]. destruct (index 5 buf) as [b5|]; [|done].
  destruct (index 6 buf) as [b6|]; [|done]. destruct (index 7 buf) as [b7|]; [|done].
  destruct (malformed _ _) eqn:Em; [done|].
  destruct (Z.ltb_spec (len buf) (be_u32 b0 b1 b2 b3)); [done|].
  destruct (slice PRELUDE_LEN _ buf) as [hd|] eqn:E1; [|done].
  destruct (event_type_for_frame hd) as [e|] eqn:E2; [|done].
  destruct (slice (PRELUDE_LEN + be_u32 b4 b5 b6 b7) _ buf) as [p|] eqn:E3; [|done].
  destruct (slice 0 _ buf) as [r|] eqn:E4; [|done].
  destruct (slice (be_u32 b0 b1 b2 b3) (len buf) buf) as [rs|] eqn:E5; [|done].
  intros [= <- <- <- <-]. exists b0, b1, b2, b3, b4, b5, b6, b7, hd.
  repeat (split; [done|]). done.
Qed.

Lemma next_split buf et pl raw rest :
  next buf = Some (Frame et pl raw rest) -> buf = raw ++ rest /\ 16 <= len raw <= MAX_FRAME_BYTES.
Proof.
  intros (b0 & b1 & b2 & b3 & b4 & b5 & b6 & b7 & hd & _ & _ & _ & _ & _ & _ & _ & _ & Hm & _ & Hl &
    _ & _ & _ & Hraw & Hrest)%next_frame_inv.
  apply malformed_false in Hm as [Hm _]. set (n := be_u32 b0 b1 b2 b3) in *.
  apply slice_spec in Hraw as (_ & _ & ->). apply slice_spec in Hrest as (_ & _ & ->).
  rewrite drop_0, Z.sub_0_r. rewrite (take_ge (drop _ _)) by len_lia. split; [by rewrite take_drop|].
  len_lia.
Qed.

Lemma next_total buf : bytes_ok buf -> is_Some (next buf).
Proof.
  intros Hb. unfold next. destruct (Z.ltb_spec (len buf) PRELUDE_LEN) as [|Hlen]; [by eexists|].
  unfold PRELUDE_LEN in Hlen.
  destruct (index_total 0 buf) as [b0 H0]; [lia|]. destruct (index_total 1 buf) as [b1 H1]; [lia|].
  destruct (index_total 2 buf) as [b2 H2]; [lia|]. destruct (index_total 3 buf) as [b3 H3]; [lia|].
  destruct (index_total 4 buf) as [b4 H4]; [lia|]. destruct (index_total 5 buf) as [b5 H5]; [lia|].
  destruct (index_total 6 buf) as [b6 H6]; [lia|]. destruct (index_total 7 buf) as [b7 H7]; [lia|].
  rewrite H0, H1, H2, H3, H4, H5, H6, H7.
  assert (0 <= be_u32 b4 b5 b6 b7) as Hh by (apply be_u32_bound; by eapply index_byte).
  destruct (malformed _ _) eqn:Em; [by eexists|]. apply malformed_false in Em as [Em1 Em2].
  set (n := be_u32 b0 b1 b2 b3) in *. set (k := be_u32 b4 b5 b6 b7) in *.
  destruct (Z.ltb_spec (len buf) n); [by eexists|].
  destruct (slice_total PRELUDE_LEN (PRELUDE_LEN + k) buf) as [hd Hhd]; [len_lia|len_lia|].
  rewrite Hhd. destruct (event_type_for_frame_total hd) as [et ->]; [by eapply slice_bytes_ok|].
  destruct (slice_total (PRELUDE_LEN + k) (n - CRC_BYTES) buf) as [pl ->]; [len_lia|len_lia|].
  destruct (slice_total 0 n buf) as [raw ->]; [len_lia|len_lia|].
  destruct (slice_total n (len buf) buf) as [rest ->]; [len_lia|len_lia|]. by eexists.
Qed.

Lemma next_need buf :
  bytes_ok buf -> next buf = Some NeedMore -> len buf < MAX_FRAME_BYTES.
Proof.
  intros Hb. unfold next. destruct (Z.ltb_spec (len buf) PRELUDE_LEN) as [|Hlen]; [len_lia|].
  destruct (index 0 buf) as [b0|]; [|done]. destruct (index 1 buf) as [b1|]; [|done].
  destruct (index 2 buf) as [b2|]; [|done]. destruct (index 3 buf) as [b3|]; [|done].
  destruct (index 4 buf) as [b4|]; [|done]. destruct (index 5 buf) as [b5|]; [|done].
  destruct (index 6 buf) as [b6|]; [|done]. destruct (index 7 buf) as [b7|]; [|done].
  destruct (malformed _ _) eqn:Em; [done|]. apply malformed_false in Em as [Em1 _].
  destruct (Z.ltb_spec (len buf) (be_u32 b0 b1 b2 b3)); [len_lia|].
  repeat (case_match; [|done]). done.
Qed.

(** A decision on a prefix stands when more bytes arrive. *)
Lemma next_frame_app a b et pl raw rest :
  next a = Some (Frame et pl raw rest) -> next (a ++ b) = Some (Frame et pl raw (rest ++ b)).
Proof.
  intros H. pose proof (next_split _ _ _ _ _ H) as [Ha Hlen].
  apply next_frame_inv in H as (b0 & b1 & b2 & b3 & b4 & b5 & b6 & b7 & hd & H0 & H1 & H2 & H3 & H4 &
    H5 & H6 & H7 & Hm & Hp & Hl & Hhd & Het & Hpl & Hraw & Hrest).
  unfold next. destruct (Z.ltb_spec (len (a ++ b)) PRELUDE_LEN) as [Hlt|_]; [len_lia|].
  rewrite (index_app 0 a b _ H0), (index_app 1 a b _ H1), (index_app 2 a b _ H2),
    (index_app 3 a b _ H3), (index_app 4 a b _ H4), (index_app 5 a b _ H5), (index_app 6 a b _ H6),
    (index_app 7 a b _ H7), Hm.
  destruct (Z.ltb_spec (len (a ++ b)) (be_u32 b0 b1 b2 b3)) as [Hlt|_]; [len_lia|].
  rewrite (slice_app _ _ a b _ Hhd), Het, (slice_app _ _ a b _ Hpl), (slice_app _ _ a b _ Hraw).
  assert (len raw = be_u32 b0 b1 b2 b3) as Hn.
  { apply slice_spec in Hraw as (? & ? & ->). rewrite drop_0. len_lia. }
  rewrite <- Hn, Ha, <- app_assoc. by rewrite slice_end.
Qed.

Lemma next_bad_app a b : next a = Some Bad -> next (a ++ b) = Some Bad.
Proof.
  unfold next. destruct (Z.ltb_spec (len a) PRELUDE_LEN) as [|Hlen]; [done|].
  destruct (Z.ltb_spec (len (a ++ b)) PRELUDE_LEN) as [Hlt|_]; [len_lia|].
  destruct (index 0 a) as [b0|] eqn:H0; [|done]. destruct (index 1 a) as [b1|] eqn:H1; [|done].
  destruct (index 2 a) as [b2|] eqn:H2; [|done]. destruct (index 3 a) as [b3|] eqn:H3; [|done].
  destruct (index 4 a) as [b4|] eqn:H4; [|done]. destruct (index 5 a) as [b5|] eqn:H5; [|done].
  destruct (index 6 a) as [b6|] eqn:H6; [|done]. destruct (index 7 a) as [b7|] eqn:H7; [|done].
  rewrite (index_app 0 a b _ H0), (index_app 1 a b _ H1), (index_app 2 a b _ H2),
    (index_app 3 a b _ H3), (index_app 4 a b _ H4), (index_app 5 a b _ H5), (index_app 6 a b _ H6),
    (index_app 7 a b _ H7).
  destruct (malformed _ _); [done|]. repeat (case_match; try done).
Qed.

(** ** The drain as a relation: frames, status, remaining buffer, verbatim bytes consumed *)
Inductive Drains : bytes -> list (bytes * bytes) -> DrainStatus -> bytes -> bytes -> Prop :=
| Drains_need buf : next buf = Some NeedMore -> Drains buf [] DrainOk buf []
| Drains_bad buf : next buf = Some Bad -> Drains buf [] MalformedPrelude [] []
| Drains_frame buf et pl raw rest fs st left raws :
    next buf = Some (Frame et pl raw rest) -> Drains rest fs st left raws ->
    Drains buf ((et, pl) :: fs) st left (raw ++ raws).

Lemma drains_det buf fs st left raws fs' st' left' raws' :
  Drains buf fs st left raws -> Drains buf fs' st' left' raws' ->
  fs = fs' /\ st = st' /\ left = left' /\ raws = raws'.
Proof.
  intros H. revert fs' st' left' raws'. induction H as [buf H|buf H|buf et pl raw rest fs st left raws H Hd IH];
    intros fs' st' left' raws' H'; inversion H'; simplify_eq; try done; try congruence.
  edestruct IH as (-> & -> & -> & ->); [eassumption|]. done.
Qed.

Lemma drain_loop_next fuel buf out c sink :
  drain_loop (S fuel) buf out c sink =
  let? n := next buf in
  match n with
  | NeedMore => Some (Drain.mk out DrainOk c buf sink)
  | Bad => Some (Drain.mk out MalformedPrelude c [] sink)
  | Frame et pl raw rest =>
      drain_loop fuel rest (out ++ [(et, pl)]) (c + len raw) ((fun s => s ++ raw) <$> sink)
  end.
Proof.
  destruct (next buf) as [[| |et pl raw rest]|] eqn:E.
  4: { unfold next in E. simpl. repeat (case_match; try done). }
  3: { assert (exists n, len raw = n /\ n = len raw) as (n & Hn & _) by eauto.
       pose proof (next_split _ _ _ _ _ E) as [_ Hlen].
       apply next_frame_inv in E as (b0 & b1 & b2 & b3 & b4 & b5 & b6 & b7 & hd & H0 & H1 & H2 & H3 &
         H4 & H5 & H6 & H7 & Hm & Hp & Hl & Hhd & Het & Hpl & Hraw & Hrest).
       assert (len raw = be_u32 b0 b1 b2 b3) as ->
         by (pose proof Hraw as (? & ? & ->)%slice_spec; rewrite drop_0; len_lia).
       cbn [drain_loop]. destruct (Z.ltb_spec (len buf) PRELUDE_LEN); [lia|].
       rewrite H0, H1, H2, H3, H4, H5, H6, H7, Hm.
       destruct (Z.ltb_spec (len buf) (be_u32 b0 b1 b2 b3)); [lia|].
       by rewrite Hhd, Het, Hpl, Hraw, Hrest. }
  all: unfold next in E; cbn [drain_loop]; repeat (case_match; try done).
Qed.

Lemma drain_loop_drains fuel buf out c sink :
  bytes_ok buf -> (length buf < fuel)%nat ->
  exists fs st left raws, Drains buf fs st left raws /\
    drain_loop fuel buf out c sink =
      Some (Drain.mk (out ++ fs) st (c + len raws) left ((fun s => s ++ raws) <$> sink)).
Proof.
  revert buf out c sink. induction fuel as [|fuel IH]; intros buf out c sink Hb Hf; [lia|].
  rewrite drain_loop_next. destruct (next_total buf Hb) as [[| |et pl raw rest] E]; rewrite E.
  - exists [], DrainOk, buf, []. split; [by constructor|]. rewrite app_nil_r, Z.add_0_r.
    repeat f_equal. destruct sink; simpl; by rewrite ?app_nil_r.
  - exists [], MalformedPrelude, [], []. split; [by constructor|]. rewrite app_nil_r, Z.add_0_r.
    repeat f_equal. destruct sink; simpl; by rewrite ?app_nil_r.
  - pose proof (next_split _ _ _ _ _ E) as [Heq Hlen]. subst buf.
    apply Forall_app in Hb as [_ Hrest].
    destruct (IH rest (out ++ [(et, pl)]) (c + len raw) ((fun s => s ++ raw) <$> sink) Hrest)
      as (fs & st & left & raws & HD & ->); [len_lia|].
    exists ((et, pl) :: fs), st, left, (raw ++ raws). split; [by econstructor|].
    rewrite <- app_assoc. f_equal. f_equal; [len_lia|].
    destruct sink; simpl; [|done]. by rewrite <- app_assoc.
Qed.

Lemma drain_checked_drains buf sink fs st left raws :
  bytes_ok buf -> Drains buf fs st left raws ->
  drain_frames_checked buf sink = Some (Drain.mk fs st (len raws) left ((fun s => s ++ raws) <$> sink)).
Proof.
  intros Hb HD. unfold drain_frames_checked.
  destruct (drain_loop_drains (S (length buf)) buf [] 0 sink Hb) as (fs' & st' & l' & r' & HD' & ->); [lia|].
  by destruct (drains_det _ _ _ _ _ _ _ _ _ HD HD') as (<- & <- & <- & <-).
Qed.

Lemma drains_consumed buf fs st left raws :
  Drains buf fs st left raws -> (exists lost, buf = raws ++ lost /\ (st = DrainOk -> lost = left)) /\
    (st = MalformedPrelude -> left = []) /\ (st = DrainOk -> next left = Some NeedMore).
Proof.
  induction 1 as [buf H|buf H|buf et pl raw rest fs st left raws H Hd IH].
  - split; [by exists buf|done].
  - split; [by exists buf|done].
  - destruct IH as ((lost & -> & Hl) & IH2). split; [|done].
    exists lost. apply next_split in H as [-> _]. by rewrite <- app_assoc.
Qed.

Lemma drains_app a b fs1 r raws1 fs2 st r2 raws2 :
  Drains a fs1 DrainOk r raws1 -> Drains (r ++ b) fs2 st r2 raws2 ->
  Drains (a ++ b) (fs1 ++ fs2) st r2 (raws1 ++ raws2).
Proof.
  intros H. remember DrainOk as st1 eqn:E1.
  induction H as [buf H|buf H|buf et pl raw rest fs st0 left raws H Hd IH]; intros H2; [done|done|].
  rewrite <- app_assoc. simpl. eapply Drains_frame; [by apply next_frame_app|]. by apply IH.
Qed.

Lemma drains_bad_app a b fs r raws :
  Drains a fs MalformedPrelude r raws -> Drains (a ++ b) fs MalformedPrelude [] raws.
Proof.
  intros H. remember MalformedPrelude as st1 eqn:E1.
  induction H as [buf H|buf H|buf et pl raw rest fs st0 left raws H Hd IH]; [done| |].
  - constructor. by apply next_bad_app.
  - eapply Drains_frame; [by apply next_frame_app|]. by apply IH.
Qed.

(** ** Encoded headers *)
Definition string_header (name value : bytes) : bytes :=
  [len name] ++ name ++ [HDR_TYPE_STRING] ++ u16_to_be (len value) ++ value.

Lemma push_string_header_spec h name value :
  push_string_header h name value =
  if (255 <? len name) || (65535 <? len value) then None else Some (h ++ string_header name value).
Proof. done. Qed.

Lemma read_value_string pre value rest :
  len value <= 65535 ->
  let h := pre ++ (u16_to_be (len value) ++ value) ++ rest in
  read_value h (len pre) HDR_TYPE_STRING = Some (Some (Some value, len (pre ++ u16_to_be (len value) ++ value))).
Proof.
  intros Hv h. unfold read_value, HDR_TYPE_STRING. simpl orb. cbv iota.
  destruct (Z.ltb_spec (len h) (len pre + 2)) as [Hlt|_]; [unfold h, u16_to_be in Hlt; len_lia|].
  assert (index (len pre) h = Some (len value / 256 mod 256)) as ->
    by exact (index_mid _ pre ((len value mod 256 :: value) ++ rest) _ eq_refl).
  assert (index (len pre + 1) h = Some (len value mod 256)) as ->.
  { assert (h = (pre ++ [len value / 256 mod 256]) ++ len value mod 256 :: (value ++ rest)) as Eh
      by (unfold h, u16_to_be; simpl; by rewrite <- app_assoc).
    rewrite Eh. apply index_mid. len_lia. }
  rewrite be_u16_to_be by len_lia.
  assert (h = (pre ++ u16_to_be (len value)) ++ value ++ rest) as Eh
    by (unfold h; by rewrite <- !app_assoc).
  destruct (Z.ltb_spec (len h) (len pre + 2 + len value)) as [Hlt|_];
    [rewrite Eh in Hlt; unfold u16_to_be in Hlt; len_lia|].
  assert (slice (len pre + 2) (len pre + 2 + len value) h = Some value) as ->.
  { rewrite Eh. apply slice_mid; unfold u16_to_be; len_lia. }
  do 3 f_equal. unfold u16_to_be. len_lia.
Qed.

Lemma parse_string_header fuel name value rest found :
  len name <= 255 -> len value <= 65535 ->
  parse_headers_loop (S fuel) (string_header name value ++ rest) found =
  parse_headers_loop fuel rest (record_header name (Some value) found).
Proof.
  intros Hn Hv. set (h := string_header name value ++ rest).
  set (pre := [len name] ++ name ++ [HDR_TYPE_STRING]).
  assert (h = pre ++ (u16_to_be (len value) ++ value) ++ rest) as Eh
    by (unfold h, pre, string_header; by rewrite <- !app_assoc).
  assert (len pre = 1 + len name + 1) as Hpre by (unfold pre; len_lia).
  assert (len h = len pre + 2 + len value + len rest) as Hh by (rewrite Eh; unfold u16_to_be; len_lia).
  rewrite (parse_headers_step fuel h (len name) (tail h) found) by done.
  destruct (Z.ltb_spec (len h) (1 + len name + 1)) as [Hlt|_]; [len_lia|].
  assert (slice 1 (1 + len name) h = Some name) as ->.
  { rewrite Eh. unfold pre. rewrite <- !app_assoc. by apply slice_mid. }
  assert (index (1 + len name) h = Some HDR_TYPE_STRING) as ->.
  { assert (h = ([len name] ++ name) ++ HDR_TYPE_STRING :: ((u16_to_be (len value) ++ value) ++ rest)) as ->
      by (rewrite Eh; unfold pre; simpl; by rewrite <- app_assoc).
    apply index_mid. len_lia. }
  rewrite <- Hpre, Eh, read_value_string by done.
  assert (pre ++ (u16_to_be (len value) ++ value) ++ rest =
          (pre ++ u16_to_be (len value) ++ value) ++ rest) as -> by (by rewrite <- !app_assoc).
  by rewrite slice_end.
Qed.

Lemma string_header_length name value : (3 <= length (string_header name value))%nat.
Proof. unfold string_header. rewrite !length_app. simpl. lia. Qed.

Lemma parse_three n1 v1 n2 v2 n3 v3 :
  len n1 <= 255 -> len v1 <= 65535 -> len n2 <= 255 -> len v2 <= 65535 ->
  len n3 <= 255 -> len v3 <= 65535 ->
  parse_frame_headers ((string_header n1 v1 ++ string_header n2 v2) ++ string_header n3 v3) =
  Some (record_header n3 (Some v3) (record_header n2 (Some v2)
         (record_header n1 (Some v1) FrameHeaders.default))).
Proof.
  intros. unfold parse_frame_headers.
  set (h := (_ ++ _) ++ _). assert (3 <= length h)%nat as Hlen.
  { unfold h. rewrite !length_app. pose proof (string_header_length n1 v1). lia. }
  destruct (length h) as [|[|[|fuel]]]; [lia|lia|lia|]. unfold h. rewrite <- app_assoc.
  rewrite !parse_string_header by done. rewrite <- (app_nil_r (string_header n3 v3)).
  rewrite parse_string_header by done. by destruct fuel.
Qed.

(** ** The layout of a closed frame *)
Definition closed_frame (crc32 : bytes -> Z) (hs payload : bytes) : bytes :=
  let p8 := u32_to_be (16 + len hs + len payload) ++ u32_to_be (len hs) in
  let body := p8 ++ u32_to_be (crc32 p8) ++ hs ++ payload in
  body ++ u32_to_be (crc32 body).

Lemma frame_close_layout crc32 hs payload :
  frame_close crc32 (frame_open ++ hs) payload =
  if MAX_FRAME_BYTES <? 16 + len hs + len payload then [] else closed_frame crc32 hs payload.
Proof.
  unfold frame_close.
  assert (len (frame_open ++ hs) - PRELUDE_LEN = len hs) as -> by (unfold frame_open; len_lia).
  assert (PRELUDE_LEN + len hs + len payload + CRC_BYTES = 16 + len hs + len payload) as -> by len_lia.
  destruct (MAX_FRAME_BYTES <? 16 + len hs + len payload); [done|].
  unfold closed_frame, backfill, frame_open, u32_to_be. reflexivity.
Qed.

Lemma closed_frame_ok crc32 hs payload :
  bytes_ok hs -> bytes_ok payload -> bytes_ok (closed_frame crc32 hs payload).
Proof.
  intros H1 H2. unfold closed_frame, bytes_ok. rewrite <- !app_assoc.
  repeat (apply Forall_app_2; [done || apply u32_to_be_ok|]). apply u32_to_be_ok.
Qed.

Lemma next_closed crc32 hs payload rest et :
  16 + len hs + len payload <= MAX_FRAME_BYTES -> event_type_for_frame hs = Some et ->
  next (closed_frame crc32 hs payload ++ rest) = Some (Frame et payload (closed_frame crc32 hs payload) rest).
Proof.
  intros Hmax Het. set (f := closed_frame crc32 hs payload). set (t := 16 + len hs + len payload) in *.
  set (c1 := u32_to_be (crc32 (u32_to_be t ++ u32_to_be (len hs)))).
  assert (exists c2, f = (u32_to_be t ++ u32_to_be (len hs) ++ c1) ++ hs ++ payload ++ u32_to_be c2)
    as (c2 & Ef).
  { eexists. unfold f, closed_frame. fold t. fold c1. rewrite <- !app_assoc. reflexivity. }
  assert (len f = t) as Hf by (rewrite Ef; unfold t, c1, u32_to_be; len_lia).
  pose proof (be_u32_to_be t ltac:(unfold t in *; len_lia)) as B1.
  pose proof (be_u32_to_be (len hs) ltac:(unfold t in *; len_lia)) as B2. simpl in B1, B2.
  unfold next.
  destruct (Z.ltb_spec (len (f ++ rest)) PRELUDE_LEN) as [Hlt|_]; [unfold t in *; len_lia|].
  assert (f ++ rest = u32_to_be t ++ u32_to_be (len hs) ++ (c1 ++ hs ++ payload ++ u32_to_be c2 ++ rest))
    as Efr by (rewrite Ef, <- !app_assoc; reflexivity).
  assert (forall i a, index i (u32_to_be t ++ u32_to_be (len hs)) = Some a -> index i (f ++ rest) = Some a)
    as Hix by (intros i a Ha; rewrite Efr, app_assoc; by apply index_app).
  do 8 (erewrite Hix by reflexivity). rewrite B1, B2.
  assert (malformed t (len hs) = false) as ->.
  { unfold malformed, MIN_FRAME_BYTES, PRELUDE_LEN, CRC_BYTES. unfold t in *.
    destruct (Z.leb_spec (12 + 4) (16 + len hs + len payload)); [|len_lia].
    destruct (Z.leb_spec (16 + len hs + len payload) MAX_FRAME_BYTES); [|lia]. simpl.
    apply Z.ltb_ge. len_lia. }
  destruct (Z.ltb_spec (len (f ++ rest)) t) as [Hlt|_]; [len_lia|].
  assert (forall x, len (u32_to_be t ++ u32_to_be (len hs) ++ c1) + x = 12 + x) as H12
    by (intros; unfold c1, u32_to_be; len_lia).
  assert (slice PRELUDE_LEN (PRELUDE_LEN + len hs) (f ++ rest) = Some hs) as ->.
  { assert (f ++ rest = (u32_to_be t ++ u32_to_be (len hs) ++ c1) ++ hs ++ (payload ++ u32_to_be c2 ++ rest))
      as -> by (rewrite Ef, <- !app_assoc; reflexivity).
    apply slice_mid; [specialize (H12 0); len_lia|]. rewrite H12. reflexivity. }
  rewrite Het.
  assert (slice (PRELUDE_LEN + len hs) (t - CRC_BYTES) (f ++ rest) = Some payload) as ->.
  { assert (f ++ rest = ((u32_to_be t ++ u32_to_be (len hs) ++ c1) ++ hs) ++ payload ++ (u32_to_be c2 ++ rest))
      as -> by (rewrite Ef, <- !app_assoc; reflexivity).
    apply slice_mid; specialize (H12 (len hs)); unfold t; len_lia. }
  assert (slice 0 t (f ++ rest) = Some f) as ->.
  { apply (slice_mid 0 t [] f rest); [done|]. len_lia. }
  rewrite <- Hf. by rewrite slice_end.
Qed.

(** ** Exception names *)
Definition no_delim (l : bytes) : Prop := Forall (fun b => is_delim b = false) l.
Definition all_delim (l : bytes) : Prop := Forall (fun b => is_delim b = true) l.

Lemma split_tokens_cons l : exists tok toks, split_tokens l = tok :: toks.
Proof.
  destruct l as [|b l]; [by eexists _, _|]. simpl. destruct (is_delim b); [by eexists _, _|].
  destruct (split_tokens l); by eexists _, _.
Qed.

Lemma split_tokens_app a d b :
  is_delim d = true -> split_tokens (a ++ d :: b) = split_tokens a ++ split_tokens b.
Proof.
  intros Hd. induction a as [|x a IH]; simpl; [by rewrite Hd|]. rewrite IH.
  destruct (is_delim x); [done|].
  destruct (split_tokens_cons a) as (tok & toks & ->). done.
Qed.

Lemma split_tokens_no_delim l : no_delim l -> split_tokens l = [l].
Proof. induction 1 as [|b l Hb _ IH]; simpl; [done|]. by rewrite Hb, IH. Qed.

Lemma split_tokens_all_delim l : all_delim l -> Forall (fun t => t = []) (split_tokens l).
Proof. induction 1 as [|b l Hb _ IH]; simpl; [by repeat constructor|]. rewrite Hb. by constructor. Qed.

Lemma find_skip (l1 l2 : list bytes) :
  Forall (fun t => t = []) l1 ->
  List.find (fun s => negb (is_empty s)) (l1 ++ l2) = List.find (fun s => negb (is_empty s)) l2.
Proof. induction 1 as [|t l1 -> _ IH]; simpl; done. Qed.

(** The last non-empty token, under any namespace prefix and trailing delimiters. *)
Lemma bare_name_spec pre name post :
  (pre = [] \/ exists p d, pre = p ++ [d] /\ is_delim d = true) ->
  no_delim name -> name <> [] -> all_delim post -> bare_name (pre ++ name ++ post) = name.
Proof.
  intros Hpre Hname Hne Hpost.
  assert (exists t1 t3, split_tokens (pre ++ name ++ post) = t1 ++ name :: t3 /\
    Forall (fun t => t = []) t3) as (t1 & t3 & E & Ht).
  { assert (exists t3, split_tokens (name ++ post) = name :: t3 /\ Forall (fun t => t = []) t3)
      as (t3 & E3 & Ht).
    { destruct Hpost as [|d post Hd Hpost].
      - exists []. rewrite app_nil_r. by rewrite split_tokens_no_delim.
      - exists (split_tokens post). rewrite split_tokens_app, split_tokens_no_delim by done.
        split; [done|]. by apply split_tokens_all_delim. }
    destruct Hpre as [->|(p & d & -> & Hd)]; [by exists [], t3|].
    exists (split_tokens p), t3. rewrite <- app_assoc. simpl. by rewrite split_tokens_app, E3. }
  unfold bare_name, rsplit. rewrite E, reverse_app, reverse_cons, <- app_assoc.
  rewrite find_skip by (by apply Forall_reverse). simpl. by destruct name.
Qed.

Lemma bare_name_nonempty exc : exc <> [] -> bare_name exc <> [].
Proof.
  intros Hne. unfold bare_name. destruct (List.find _ (rsplit exc)) as [s|] eqn:E; [|done].
  apply List.find_some in E as [_ E]. by destruct s.
Qed.

(** ** The two encoders *)
Definition event_headers (et : bytes) : bytes :=
  (string_header HDR_EVENT_TYPE et ++ string_header HDR_CONTENT_TYPE APPLICATION_JSON)
    ++ string_header HDR_MESSAGE_TYPE MSG_TYPE_EVENT.

Definition exception_headers (et : bytes) : bytes :=
  (string_header HDR_EXCEPTION_TYPE et ++ string_header HDR_CONTENT_TYPE APPLICATION_JSON)
    ++ string_header HDR_MESSAGE_TYPE MSG_TYPE_EXCEPTION.

Lemma event_headers_len et : len (event_headers et) = 70 + len et.
Proof.
  unfold event_headers, string_header, u16_to_be, HDR_EVENT_TYPE, HDR_CONTENT_TYPE, APPLICATION_JSON,
    HDR_MESSAGE_TYPE, MSG_TYPE_EVENT. len_lia.
Qed.

Lemma exception_headers_len et : len (exception_headers et) = 78 + len et.
Proof.
  unfold exception_headers, string_header, u16_to_be, HDR_EXCEPTION_TYPE, HDR_CONTENT_TYPE,
    APPLICATION_JSON, HDR_MESSAGE_TYPE, MSG_TYPE_EXCEPTION. len_lia.
Qed.

Lemma event_headers_type et :
  len et <= 65535 -> utf8_valid et = true -> event_type_for_frame (event_headers et) = Some et.
Proof.
  intros Hl Hu. unfold event_type_for_frame, event_headers.
  rewrite parse_three by (done || exact Hl). unfold record_header. rewrite Hu. reflexivity.
Qed.

Lemma exception_headers_type et :
  len et <= 65535 -> utf8_valid et = true ->
  event_type_for_frame (exception_headers et) = Some (lowercase_first (bare_name et)).
Proof.
  intros Hl Hu. unfold event_type_for_frame, exception_headers.
  rewrite parse_three by (done || exact Hl). unfold record_header. rewrite Hu. reflexivity.
Qed.

(** A frame is emitted iff its event type fits a header and the whole fits the frame cap. *)
Definition fits (et payload : bytes) : Prop :=
  len et <= 65535 /\ 86 + len et + len payload <= MAX_FRAME_BYTES.

Lemma push_three f n1 v1 n2 v2 n3 v3 :
  len n1 <= 255 -> len n2 <= 255 -> len v2 <= 65535 -> len n3 <= 255 -> len v3 <= 65535 ->
  (let? f := push_string_header f n1 v1 in
   let? f := push_string_header f n2 v2 in
   push_string_header f n3 v3) =
  if 65535 <? len v1 then None
  else Some (f ++ (string_header n1 v1 ++ string_header n2 v2) ++ string_header n3 v3).
Proof.
  intros H1 H2 H3 H4 H5. rewrite push_string_header_spec.
  destruct (Z.ltb_spec 255 (len n1)); [lia|]. simpl orb.
  destruct (Z.ltb_spec 65535 (len v1)); [done|]. rewrite push_string_header_spec.
  destruct (Z.ltb_spec 255 (len n2)); [lia|]. destruct (Z.ltb_spec 65535 (len v2)); [lia|].
  simpl orb. cbv iota. rewrite push_string_header_spec.
  destruct (Z.ltb_spec 255 (len n3)); [lia|]. destruct (Z.ltb_spec 65535 (len v3)); [lia|].
  simpl orb. cbv iota. by rewrite <- !app_assoc.
Qed.

Lemma encode_frame_spec crc32 et payload :
  encode_frame crc32 et payload =
  if (65535 <? len et) || (MAX_FRAME_BYTES <? 86 + len et + len payload) then []
  else closed_frame crc32 (event_headers et) payload.
Proof.
  unfold encode_frame. cbv zeta. rewrite push_three by done.
  destruct (65535 <? len et); [done|]. simpl orb.
  change ((string_header HDR_EVENT_TYPE et ++ string_header HDR_CONTENT_TYPE APPLICATION_JSON) ++
    string_header HDR_MESSAGE_TYPE MSG_TYPE_EVENT) with (event_headers et).
  rewrite frame_close_layout, event_headers_len.
  by replace (16 + (70 + len et)) with (86 + len et) by lia.
Qed.

Lemma encode_exception_spec crc32 jm et msg payload :
  jm msg = Some payload ->
  encode_exception_frame crc32 jm et msg =
  if (65535 <? len et) || (MAX_FRAME_BYTES <? 94 + len et + len payload) then []
  else closed_frame crc32 (exception_headers et) payload.
Proof.
  intros Hp. unfold encode_exception_frame. cbv zeta. rewrite Hp, push_three by done.
  destruct (65535 <? len et); [done|]. simpl orb.
  change ((string_header HDR_EXCEPTION_TYPE et ++ string_header HDR_CONTENT_TYPE APPLICATION_JSON) ++
    string_header HDR_MESSAGE_TYPE MSG_TYPE_EXCEPTION) with (exception_headers et).
  rewrite frame_close_layout, exception_headers_len.
  by replace (16 + (78 + len et)) with (94 + len et) by lia.
Qed.

Lemma string_header_ok name value :
  len name <= 255 -> len value <= 65535 -> bytes_ok name -> bytes_ok value ->
  bytes_ok (string_header name value).
Proof.
  intros Hn Hv H1 H2. unfold string_header, bytes_ok.
  repeat apply Forall_app_2; try done.
  - constructor; [|constructor]. unfold byte_ok. len_lia.
  - repeat constructor; unfold byte_ok, HDR_TYPE_STRING; lia.
  - repeat constructor; apply byte_mod.
Qed.

Lemma literal_ok (l : bytes) : forallb (fun b => (0 <=? b) && (b <? 256)) l = true -> bytes_ok l.
Proof.
  intros H. apply Forall_forall. intros b Hb%list_elem_of_In.
  rewrite forallb_forall in H. specialize (H b Hb). simpl_bool. unfold byte_ok. lia.
Qed.

Lemma event_headers_ok et : len et <= 65535 -> bytes_ok et -> bytes_ok (event_headers et).
Proof.
  intros Hl He. unfold event_headers, bytes_ok.
  apply Forall_app_2; [apply Forall_app_2|]; apply string_header_ok; try done; by apply literal_ok.
Qed.

(** ** Reassembly: chunks appended to the buffer and drained one by one *)
Fixpoint feed (buf : bytes) (chunks : list bytes) : option (list (bytes * bytes) * DrainStatus * bytes) :=
  match chunks with
  | [] => Some ([], DrainOk, buf)
  | c :: cs =>
      let? d := drain_frames_checked (buf ++ c) None in
      match Drain.status d with
      | MalformedPrelude => Some (Drain.frames d, MalformedPrelude, Drain.buf d)
      | DrainOk =>
          let? (fs, st, b) := feed (Drain.buf d) cs in Some (Drain.frames d ++ fs, st, b)
      end
  end.

Lemma drains_exists buf : bytes_ok buf -> exists fs st left raws, Drains buf fs st left raws.
Proof.
  intros Hb. destruct (drain_loop_drains (S (length buf)) buf [] 0 None Hb)
    as (fs & st & l & r & HD & _); [lia|]. by exists fs, st, l, r.
Qed.

Lemma feed_drains buf chunks :
  bytes_ok buf -> Forall bytes_ok chunks -> next buf = Some NeedMore ->
  exists fs st left raws, Drains (buf ++ concat chunks) fs st left raws /\
    feed buf chunks = Some (fs, st, left).
Proof.
  intros Hb HF. revert buf Hb. induction HF as [|c cs Hc HF IH]; intros buf Hb Hn; simpl.
  - exists [], DrainOk, buf, []. rewrite app_nil_r. split; [by constructor|done].
  - assert (bytes_ok (buf ++ c)) as Hbc by (by apply Forall_app_2).
    destruct (drains_exists _ Hbc) as (fs & st & left & raws & HD).
    rewrite (drain_checked_drains _ None _ _ _ _ Hbc HD). simpl. rewrite app_assoc.
    destruct (drains_consumed _ _ _ _ _ HD) as ((lost & Heq & Hlost) & Hbad & Hok).
    destruct st.
    + specialize (Hlost eq_refl). subst lost.
      assert (bytes_ok left) as Hleft by (rewrite Heq in Hbc; by apply Forall_app in Hbc as [_ ?]).
      destruct (IH left Hleft (Hok eq_refl)) as (fs2 & st2 & l2 & r2 & HD2 & ->).
      exists (fs ++ fs2), st2, l2, (raws ++ r2). split; [|done]. by eapply drains_app.
    + exists fs, MalformedPrelude, [], raws. rewrite (Hbad eq_refl). split; [|done].
      by eapply drains_bad_app.
Qed.

(** ** Theorems *)

(** The decoder is total on every byte sequence: no slice or index is out of range and the loop
    ends.  The bytes handed to the verbatim sink are exactly the prefix of the buffer made of the
    complete frames, and are the bytes counted as consumed; what a clean pass leaves is the rest of
    the buffer, always shorter than one maximal frame, and a malformed prelude leaves nothing. *)
Theorem drain_total_and_bounded buf sink :
  bytes_ok buf ->
  exists d raws lost, drain_frames_checked buf sink = Some d /\ buf = raws ++ lost /\
    Drain.valid_consumed d = len raws /\ Drain.sink d = (fun s => s ++ raws) <$> sink /\
    match Drain.status d with
    | DrainOk => Drain.buf d = lost /\ len lost < MAX_FRAME_BYTES
    | MalformedPrelude => Drain.buf d = []
    end.
Proof.
  intros Hb. destruct (drains_exists buf Hb) as (fs & st & left & raws & HD).
  pose proof (drains_consumed _ _ _ _ _ HD) as ((lost & Heq & Hlost) & Hbad & Hok).
  eexists _, raws, lost. split; [by apply drain_checked_drains|]. split; [done|].
  split; [done|]. split; [done|]. simpl. destruct st; [|by apply Hbad].
  specialize (Hlost eq_refl). subst lost. split; [done|]. apply next_need; [|by apply Hok].
  rewrite Heq in Hb. by apply Forall_app in Hb as [_ ?].
Qed.

Lemma drain_total_and_bounded_witness :
  exists d raws lost, drain_frames_checked [0; 0; 0; 15; 0; 0; 0; 0; 1; 2; 3; 4; 9] (Some [5]) = Some d /\
    [0; 0; 0; 15; 0; 0; 0; 0; 1; 2; 3; 4; 9] = raws ++ lost /\ Drain.valid_consumed d = len raws.
Proof.
  destruct (drain_total_and_bounded [0; 0; 0; 15; 0; 0; 0; 0; 1; 2; 3; 4; 9] (Some [5]))
    as (d & raws & lost & H1 & H2 & H3 & _); [by apply literal_ok|]. by exists d, raws, lost.
Defined.

(** Reassembly does not depend on how the transport splits the stream: feeding any chunks one
    after the other yields the frames, the status and the remaining buffer of one pass over their
    concatenation, stopping at a malformed prelude in either case. *)
Theorem chunking_irrelevant chunks :
  Forall bytes_ok chunks ->
  exists d, drain_frames_checked (concat chunks) None = Some d /\
    feed [] chunks = Some (Drain.frames d, Drain.status d, Drain.buf d).
Proof.
  intros HF. destruct (feed_drains [] chunks) as (fs & st & left & raws & HD & Hf); try done.
  - constructor.
  - eexists. split; [apply drain_checked_drains; [|exact HD]|exact Hf].
    by apply Forall_concat.
Qed.

Lemma chunking_irrelevant_witness :
  let f := encode_frame (fun _ => 7) (bytes_of "metadata") (bytes_of "{}") in
  let chunks := [take 5 f; drop 5 f ++ take 9 f; drop 9 f] in
  exists d, drain_frames_checked (concat chunks) None = Some d /\
    feed [] chunks = Some (Drain.frames d, Drain.status d, Drain.buf d) /\
    length (Drain.frames d) = 2%nat.
Proof.
  intros f chunks. assert (Forall bytes_ok chunks) as Hok
    by (unfold chunks; repeat (apply Forall_cons_2; [apply literal_ok; vm_compute; reflexivity|]);
        apply Forall_nil_2).
  destruct (chunking_irrelevant chunks Hok) as (d & H1 & H2). exists d. split; [exact H1|].
  split; [exact H2|]. vm_compute in H1. injection H1 as <-. reflexivity.
Defined.

(** C17.  Encode and decode are inverse over a whole stream: for every sequence of events whose type
    is UTF-8 and which fit a frame, and every way the encoded bytes are cut into chunks, the
    reassembly yields exactly the events, in order, and leaves nothing; an event that does not fit
    is encoded as no bytes at all, never as a truncated frame. *)
Theorem encode_decode_roundtrip crc32 (events : list (bytes * bytes)) chunks :
  Forall (fun e => bytes_ok e.1 /\ bytes_ok e.2 /\ utf8_valid e.1 = true /\ fits e.1 e.2) events ->
  Forall bytes_ok chunks -> concat chunks = concat ((fun e => encode_frame crc32 e.1 e.2) <$> events) ->
  feed [] chunks = Some (events, DrainOk, []) /\
  (forall et payload, encode_frame crc32 et payload = [] <-> ~ fits et payload).
Proof.
  intros HE HF Hc. split.
  - assert (exists raws, Drains (concat ((fun e => encode_frame crc32 e.1 e.2) <$> events)) events DrainOk [] raws)
      as (raws & HD).
    { clear Hc. induction HE as [|[et pl] events (Ho1 & Ho2 & Hu & Hl & Hm) HE IH]; simpl.
      - exists []. by constructor.
      - destruct IH as (raws & HD). simpl in *. eexists. eapply Drains_frame; [|exact HD].
        rewrite encode_frame_spec. destruct (Z.ltb_spec 65535 (len et)); [lia|].
        destruct (Z.ltb_spec MAX_FRAME_BYTES (86 + len et + len pl)); [lia|]. simpl orb. cbv iota.
        apply next_closed; [rewrite event_headers_len; lia|]. by apply event_headers_type. }
    destruct (feed_drains [] chunks) as (fs & st & left & raws' & HD' & ->); [constructor|done|done|].
    simpl in HD'. rewrite Hc in HD'.
    by destruct (drains_det _ _ _ _ _ _ _ _ _ HD HD') as (<- & <- & <- & _).
  - intros et payload. rewrite encode_frame_spec. unfold fits.
    destruct (Z.ltb_spec 65535 (len et)); [split; [lia|done]|].
    destruct (Z.ltb_spec MAX_FRAME_BYTES (86 + len et + len payload)); [split; [lia|done]|].
    simpl. split; [|lia]. unfold closed_frame. done.
Qed.

Definition two_events : list (bytes * bytes) :=
  [(bytes_of "messageStart", bytes_of "{}"); (bytes_of "contentBlockStop", [])].

Lemma encode_decode_roundtrip_witness :
  let all := concat ((fun e => encode_frame (fun _ => 7) e.1 e.2) <$> two_events) in
  feed [] [take 50 all; drop 50 all] = Some (two_events, DrainOk, []).
Proof.
  intros all. destruct (encode_decode_roundtrip (fun _ => 7) two_events [take 50 all; drop 50 all])
    as [H _]; [| | |exact H].
  - repeat (apply Forall_cons_2;
      [split; [by apply literal_ok|]; split; [by apply literal_ok|]; split; [reflexivity|];
       split; vm_compute; discriminate|]); apply Forall_nil_2.
  - repeat (apply Forall_cons_2; [apply literal_ok; vm_compute; reflexivity|]); apply Forall_nil_2.
  - vm_compute. reflexivity.
Defined.

(** A mid-stream exception is never lost: an exception frame decodes to the bare exception name
    with its first letter lowered, whatever namespace precedes the name and whatever delimiters
    trail it, and to a non-empty event type whenever the exception name is non-empty. *)
Theorem exception_frame_decodes crc32 jm exc msg payload rest :
  jm msg = Some payload -> len exc <= 65535 -> utf8_valid exc = true ->
  94 + len exc + len payload <= MAX_FRAME_BYTES ->
  next (encode_exception_frame crc32 jm exc msg ++ rest) =
    Some (Frame (lowercase_first (bare_name exc)) payload (encode_exception_frame crc32 jm exc msg) rest) /\
  (exc <> [] -> lowercase_first (bare_name exc) <> []) /\
  (forall pre name post, exc = pre ++ name ++ post ->
     (pre = [] \/ exists p d, pre = p ++ [d] /\ is_delim d = true) ->
     no_delim name -> name <> [] -> all_delim post -> bare_name exc = name).
Proof.
  intros Hp Hl Hu Hm. split; [|split].
  - rewrite (encode_exception_spec _ _ _ _ _ Hp).
    destruct (Z.ltb_spec 65535 (len exc)); [lia|].
    destruct (Z.ltb_spec MAX_FRAME_BYTES (94 + len exc + len payload)); [lia|]. simpl orb. cbv iota.
    apply next_closed; [rewrite exception_headers_len; lia|]. by apply exception_headers_type.
  - intros Hne. pose proof (bare_name_nonempty exc Hne). by destruct (bare_name exc).
  - intros pre name post -> Hpre. by apply bare_name_spec.
Qed.

Lemma exception_frame_decodes_witness :
  let exc := bytes_of "com.amazon#ThrottlingException#" in
  next (encode_exception_frame (fun _ => 9) (fun m => Some m) exc (bytes_of "{}") ++ []) =
    Some (Frame (bytes_of "throttlingException") (bytes_of "{}")
           (encode_exception_frame (fun _ => 9) (fun m => Some m) exc (bytes_of "{}")) []).
Proof.
  intros exc. destruct (exception_frame_decodes (fun _ => 9) (fun m => Some m) exc (bytes_of "{}")
    (bytes_of "{}") []) as [H _];
    [reflexivity|vm_compute; discriminate|reflexivity|vm_compute; discriminate|exact H].
Defined.

(** Every emitted frame is one a strict client accepts: its first length field is its length,
    its prelude checksum is the CRC32 of its first eight bytes, and its last four bytes are the
    CRC32 of everything before them. *)
Theorem encoded_frame_checksums crc32 et payload :
  fits et payload ->
  let f := encode_frame crc32 et payload in
  take 4 f = u32_to_be (len f) /\ take 4 (drop 4 f) = u32_to_be (len f - len payload - 16) /\
  take 4 (drop 8 f) = u32_to_be (crc32 (take 8 f)) /\
  drop (length f - 4) f = u32_to_be (crc32 (take (length f - 4) f)) /\ len f <= MAX_FRAME_BYTES.
Proof.
  intros [Hl Hm] f. unfold f. rewrite encode_frame_spec.
  destruct (Z.ltb_spec 65535 (len et)); [lia|].
  destruct (Z.ltb_spec MAX_FRAME_BYTES (86 + len et + len payload)); [lia|]. simpl orb. cbv iota.
  set (g := closed_frame crc32 (event_headers et) payload).
  assert (len g = 16 + len (event_headers et) + len payload) as Hg
    by (unfold g, closed_frame, u32_to_be; len_lia).
  split; [by rewrite Hg|]. split.
  { rewrite Hg. replace (_ - len payload - 16) with (len (event_headers et)) by lia. done. }
  split; [done|]. split; [|rewrite Hg, event_headers_len; lia].
  set (body := (u32_to_be (16 + len (event_headers et) + len payload) ++ u32_to_be (len (event_headers et)))
    ++ u32_to_be (crc32 (u32_to_be (16 + len (event_headers et) + len payload) ++ u32_to_be (len (event_headers et))))
    ++ event_headers et ++ payload).
  assert (g = body ++ u32_to_be (crc32 body)) as -> by done.
  assert (length (body ++ u32_to_be (crc32 body)) - 4 = length body)%nat as ->
    by (rewrite length_app; unfold u32_to_be; simpl length; lia).
  by rewrite drop_app_length, take_app_length.
Qed.

Lemma encoded_frame_checksums_witness :
  let f := encode_frame (fun l => len l) (bytes_of "messageStop") [1; 2] in
  take 4 (drop 8 f) = [0; 0; 0; 8] /\ drop (length f - 4) f = [0; 0; 0; 95].
Proof.
  intros f. destruct (encoded_frame_checksums (fun l => len l) (bytes_of "messageStop") [1; 2])
    as (_ & _ & H1 & H2 & _); [split; vm_compute; discriminate|].
  split; [exact H1|exact H2].
Defined.
