(* ===== verification/Windows.v ===== *)
(** * Accounting windows (crates/busbar/src/governance/mod.rs, [budget_window], [window_end] and the civil calendar)

    Rust's [/] on signed integers truncates: it is [Z.quot].  The [i64] arithmetic is exact on the
    day numbers of a [u64] clock; the final products are kept at their width. *)
From stdpp Require Import base strings.
From Stdlib Require Import ZArith Lia.
From S2P Require Import Prelude.
Open Scope Z_scope.

Definition SECS_PER_DAY : Z := 86400.
Definition METERING_BUCKET_SECS : Z := 86400.

Definition WINDOW_TOTAL : string := "total".
Definition WINDOW_DAY : string := "day".
Definition WINDOW_MONTH : string := "month".
Definition WINDOW_MINUTE : string := "minute".
Definition WINDOW_HOUR : string := "hour".

Definition civil_from_days (z : Z) : Z * Z * Z :=
  let z := z + 719468 in
  let era := Z.quot (if 0 <=? z then z else z - 146096) 146097 in
  let doe := z - era * 146097 in
  let yoe := Z.quot (doe - Z.quot doe 1460 + Z.quot doe 36524 - Z.quot doe 146096) 365 in
  let y := yoe + era * 400 in
  let doy := doe - (365 * yoe + Z.quot yoe 4 - Z.quot yoe 100) in
  let mp := Z.quot (5 * doy + 2) 153 in
  let d := doy - Z.quot (153 * mp + 2) 5 + 1 in
  let m := if mp <? 10 then mp + 3 else mp - 9 in
  (if m <=? 2 then y + 1 else y, m, d).

Definition days_from_civil (y m d : Z) : Z :=
  let y := if m <=? 2 then y - 1 else y in
  let era := Z.quot (if 0 <=? y then y else y - 399) 400 in
  let yoe := y - era * 400 in
  let doy := Z.quot (153 * (if 2 <? m then m - 3 else m + 9) + 2) 5 + d - 1 in
  let doe := yoe * 365 + Z.quot yoe 4 - Z.quot yoe 100 + doy in
  era * 146097 + doe - 719468.

Definition budget_window (period : string) (now : Z) : Z :=
  if String.eqb period WINDOW_MINUTE then now / 60 * 60
  else if String.eqb period WINDOW_HOUR then now / 3600 * 3600
  else if String.eqb period WINDOW_DAY then now / SECS_PER_DAY * SECS_PER_DAY
  else if String.eqb period WINDOW_MONTH then
    let days := wrap_i64 (now / SECS_PER_DAY) in
    let '(y, m, _) := civil_from_days days in
    wrap_u64 (wrap_u64 (days_from_civil y m 1) * SECS_PER_DAY)
  else 0.

Definition window_end (period : string) (now : Z) : option Z :=
  if String.eqb period WINDOW_MINUTE then Some (wrap_u64 (now / 60 * 60 + 60))
  else if String.eqb period WINDOW_HOUR then Some (wrap_u64 (now / 3600 * 3600 + 3600))
  else if String.eqb period WINDOW_DAY then
    Some (wrap_u64 (now / SECS_PER_DAY * SECS_PER_DAY + SECS_PER_DAY))
  else if String.eqb period WINDOW_MONTH then
    let days := wrap_i64 (now / SECS_PER_DAY) in
    let '(y, m, _) := civil_from_days days in
    let '(ny, nm) := if m =? 12 then (y + 1, 1) else (y, m + 1) in
    Some (wrap_u64 (wrap_u64 (days_from_civil ny nm 1) * SECS_PER_DAY))
  else None.

Definition metering_bucket (now : Z) : Z := now - now mod METERING_BUCKET_SECS.

(** ** The calendar *)

(** Day of the March-based year on which a month starts, and of the 400-year era for a year. *)
Definition month_start (mp : Z) : Z := (153 * mp + 2) / 5.
Definition year_start (yoe : Z) : Z := 365 * yoe + yoe / 4 - yoe / 100.

#[local] Ltac Zify.zify_post_hook ::= Z.to_euclidean_division_equations.

Ltac quots := rewrite ?Z.quot_div_nonneg by lia.

Lemma div_bounds a b : 0 < b -> b * (a / b) <= a < b * (a / b) + b.
Proof. intros Hb. pose proof (Z.div_mod a b). pose proof (Z.mod_pos_bound a b). lia. Qed.

Lemma year_arith doe a b c yoe :
  0 <= doe < 146097 -> 1460 * a <= doe < 1460 * a + 1460 -> 36524 * b <= doe < 36524 * b + 36524 ->
  146096 * c <= doe < 146096 * c + 146096 ->
  365 * yoe <= doe - a + b - c < 365 * yoe + 365 ->
  0 <= yoe <= 399 /\ year_start yoe <= doe /\ doe - year_start yoe <= 365 /\
  (yoe < 399 -> doe < year_start (yoe + 1)).
Proof.
  intros H Ha Hb Hc Hy.
  assert (0 <= yoe <= 399) as Hr by lia. split; [done|].
  assert (0 <= yoe < 400 /\ 0 <= b <= 4 /\ 0 <= c <= 1 /\ 0 <= a <= 100) as Hall by lia.
  unfold year_start.
  pose proof (div_bounds yoe 4 ltac:(lia)) as H4. pose proof (div_bounds yoe 100 ltac:(lia)) as H100.
  pose proof (div_bounds (yoe + 1) 4 ltac:(lia)) as H4'.
  pose proof (div_bounds (yoe + 1) 100 ltac:(lia)) as H100'.
  generalize dependent (yoe / 4). generalize dependent (yoe / 100).
  generalize dependent ((yoe + 1) / 4). generalize dependent ((yoe + 1) / 100).
  intros h' Hh' q' Hq' h Hh q Hq.
  assert (b = 0 \/ b = 1 \/ b = 2 \/ b = 3 \/ b = 4) as Hb' by lia.
  assert (c = 0 \/ c = 1) as Hc' by lia.
  assert (h = 0 \/ h = 1 \/ h = 2 \/ h = 3) as Hhh by lia.
  assert (h' = h \/ h' = h + 1) as Hhh' by lia.
  assert (q' = q \/ q' = q + 1) as Hqq' by lia.
  assert (a = q \/ a = q + 1 \/ a = q - 1) as Hd by lia.
  destruct Hd as [->|[->| ->]], Hqq' as [->| ->], Hhh' as [->| ->], Hhh as [->|[->|[->| ->]]], Hc' as [->| ->],
    Hb' as [->|[->|[->|[->| ->]]]]; try (exfalso; lia).
  all: repeat split; lia.
Qed.

Lemma year_of_era doe :
  0 <= doe < 146097 ->
  let yoe := (doe - doe / 1460 + doe / 36524 - doe / 146096) / 365 in
  0 <= yoe <= 399 /\ year_start yoe <= doe /\ doe - year_start yoe <= 365 /\
  (yoe < 399 -> doe < year_start (yoe + 1)).
Proof. intros H yoe. by apply (year_arith doe (doe / 1460) (doe / 36524) (doe / 146096)); try apply div_bounds. Qed.

(** Months counted from March of year 0; [first_day k] is the day number on which month [k] starts. *)
Definition year_days (Y : Z) : Z := 365 * Y + Y / 4 - Y / 100 + Y / 400.
Definition first_day (k : Z) : Z := year_days (k / 12) + month_start (k mod 12) - 719468.

(** The civil year and month of month [k]. *)
Definition civil_of_month (k : Z) : Z * Z :=
  let mp := k mod 12 in
  (if mp <? 10 then k / 12 else k / 12 + 1, if mp <? 10 then mp + 3 else mp - 9).

Lemma year_days_era Y : 0 <= Y -> year_days Y = (Y / 400) * 146097 + year_start (Y mod 400).
Proof.
  intros H. unfold year_days, year_start.
  assert (Y / 4 = 100 * (Y / 400) + Y mod 400 / 4) by lia.
  assert (Y / 100 = 4 * (Y / 400) + Y mod 400 / 100) by lia. lia.
Qed.

Lemma month_start_step mp : 0 <= mp < 11 -> 30 <= month_start (mp + 1) - month_start mp <= 31.
Proof. intros H. unfold month_start. lia. Qed.

Lemma month_start_range mp : 0 <= mp <= 11 -> 0 <= month_start mp <= 337.
Proof. intros H. unfold month_start. lia. Qed.

Lemma year_days_step Y : 0 <= Y -> 365 <= year_days (Y + 1) - year_days Y <= 366.
Proof. intros H. unfold year_days. lia. Qed.

Lemma first_day_step k : 0 <= k -> first_day k < first_day (k + 1).
Proof.
  intros Hk. unfold first_day.
  assert ((k mod 12 < 11 /\ (k + 1) / 12 = k / 12 /\ (k + 1) mod 12 = k mod 12 + 1) \/
          (k mod 12 = 11 /\ (k + 1) / 12 = k / 12 + 1 /\ (k + 1) mod 12 = 0)) as [(H1 & -> & ->)|(-> & -> & ->)]
    by lia.
  - pose proof (month_start_step (k mod 12)). lia.
  - pose proof (year_days_step (k / 12)). change (month_start 11) with 337. change (month_start 0) with 0. lia.
Qed.

Lemma first_day_mono k j : 0 <= k -> k <= j -> first_day k <= first_day j.
Proof.
  intros Hk Hj. pattern j. apply Zlt_lower_bound_ind with (z := k); [|done].
  intros x IH Hx. destruct (Z.eq_dec x k) as [->|Hne]; [lia|].
  pose proof (IH (x - 1) ltac:(lia)). pose proof (first_day_step (x - 1) ltac:(lia)).
  replace (x - 1 + 1) with x in * by lia. lia.
Qed.

(** The day number of the [d]-th day of month [k]. *)
Lemma days_from_civil_month k d :
  0 <= k -> let '(y, m) := civil_of_month k in days_from_civil y m d = first_day k + d - 1.
Proof.
  intros Hk. unfold civil_of_month. set (mp := k mod 12). set (Y := k / 12).
  assert (0 <= mp <= 11) by (unfold mp; lia). assert (0 <= Y) by (unfold Y; lia).
  assert (forall y m, (if m <=? 2 then y - 1 else y) = Y -> (if 2 <? m then m - 3 else m + 9) = mp ->
    days_from_civil y m d = first_day k + d - 1) as Hgen.
  { intros y m Hy Hm. unfold days_from_civil. rewrite Hy, Hm.
    destruct (Z.leb_spec 0 Y); [|lia]. rewrite (Z.quot_div_nonneg Y) by lia.
    assert (Y - Y / 400 * 400 = Y mod 400) as -> by lia.
    assert (0 <= Y mod 400) by lia. quots.
    unfold first_day. fold mp Y. rewrite year_days_era by done. unfold year_start, month_start. lia. }
  destruct (Z.ltb_spec mp 10).
  - apply Hgen; [destruct (Z.leb_spec (mp + 3) 2); lia|destruct (Z.ltb_spec 2 (mp + 3)); lia].
  - apply Hgen; [destruct (Z.leb_spec (mp - 9) 2); lia|destruct (Z.ltb_spec 2 (mp - 9)); lia].
Qed.

(** Every day lies in exactly the month the conversion reports. *)
Lemma civil_from_days_month z :
  0 <= z + 719468 ->
  exists k, 0 <= k /\ first_day k <= z < first_day (k + 1) /\
    civil_from_days z = (civil_of_month k, z - first_day k + 1).
Proof.
  intros Hz. unfold civil_from_days. cbv zeta. destruct (Z.leb_spec 0 (z + 719468)); [|lia].
  rewrite (Z.quot_div_nonneg (z + 719468)) by lia. set (era := (z + 719468) / 146097).
  set (doe := z + 719468 - era * 146097).
  assert (0 <= doe < 146097) as Hdoe by (unfold doe, era; lia). assert (0 <= era) by (unfold era; lia).
  assert (0 <= doe - doe / 1460 + doe / 36524 - doe / 146096) by lia.
  rewrite !(Z.quot_div_nonneg doe), (Z.quot_div_nonneg (doe - _ + _ - _)) by lia.
  destruct (year_of_era doe Hdoe) as (Hy & Hs & Hd & Hn).
  set (yoe := (doe - doe / 1460 + doe / 36524 - doe / 146096) / 365) in *.
  rewrite !(Z.quot_div_nonneg yoe) by lia. fold (year_start yoe).
  set (doy := doe - year_start yoe) in *. assert (0 <= doy <= 365) by (unfold doy; lia).
  rewrite (Z.quot_div_nonneg (5 * doy + 2)) by lia. set (mp := (5 * doy + 2) / 153).
  assert (0 <= mp <= 11) by (unfold mp; lia).
  rewrite (Z.quot_div_nonneg (153 * mp + 2)) by lia. fold (month_start mp).
  assert (month_start mp <= doy /\ (mp < 11 -> doy < month_start (mp + 1))) as Hm
    by (unfold month_start, mp; lia).
  set (Y := yoe + era * 400). exists (12 * Y + mp).
  assert ((12 * Y + mp) / 12 = Y /\ (12 * Y + mp) mod 12 = mp) as [E1 E2] by lia.
  assert (Y / 400 = era /\ Y mod 400 = yoe) as [E3 E4] by (unfold Y; lia).
  assert (first_day (12 * Y + mp) = z - doy + month_start mp) as Hf.
  { unfold first_day. rewrite E1, E2, year_days_era, E3, E4 by (unfold Y; lia). unfold doy, doe. lia. }
  split; [unfold Y; lia|]. split.
  - rewrite Hf. split; [lia|]. destruct (Z.eq_dec mp 11) as [->|Hne].
    + assert (first_day (12 * Y + 11 + 1) = year_days (Y + 1) - 719468) as ->.
      { unfold first_day. assert ((12 * Y + 11 + 1) / 12 = Y + 1 /\ (12 * Y + 11 + 1) mod 12 = 0) as [-> ->] by lia.
        change (month_start 0) with 0. lia. }
      assert (year_days (Y + 1) = era * 146097 + (if Z.eq_dec yoe 399 then 146097 else year_start (yoe + 1))) as ->.
      { rewrite year_days_era by (unfold Y; lia). destruct (Z.eq_dec yoe 399) as [->|].
        - unfold Y. assert ((399 + era * 400 + 1) / 400 = era + 1 /\ (399 + era * 400 + 1) mod 400 = 0) as [-> ->] by lia.
          change (year_start 0) with 0. lia.
        - assert ((Y + 1) / 400 = era /\ (Y + 1) mod 400 = yoe + 1) as [-> ->] by (unfold Y; lia). done. }
      destruct (Z.eq_dec yoe 399); unfold doe in *; lia.
    + pose proof (first_day_step (12 * Y + mp) ltac:(unfold Y; lia)).
      assert (first_day (12 * Y + mp + 1) = first_day (12 * Y + mp) + (month_start (mp + 1) - month_start mp)) as ->.
      { unfold first_day. assert ((12 * Y + mp + 1) / 12 = Y /\ (12 * Y + mp + 1) mod 12 = mp + 1) as [-> ->] by lia.
        rewrite E1, E2. lia. }
      lia.
  - unfold civil_of_month. rewrite E1, E2, Hf. destruct (Z.ltb_spec mp 10).
    + destruct (Z.leb_spec (mp + 3) 2); [lia|]. f_equal. lia.
    + destruct (Z.leb_spec (mp - 9) 2); [|lia]. f_equal. lia.
Qed.

(** The proleptic Gregorian calendar. *)
Definition leap (y : Z) : bool := (y mod 4 =? 0) && negb (y mod 100 =? 0) || (y mod 400 =? 0).

Definition days_in_month (y m : Z) : Z :=
  if m =? 2 then if leap y then 29 else 28
  else if (m =? 4) || (m =? 6) || (m =? 9) || (m =? 11) then 30 else 31.

Lemma leap_year_days y : 0 <= y -> year_days (y + 1) - year_days y = if leap (y + 1) then 366 else 365.
Proof.
  intros Hy. unfold leap, year_days.
  destruct (Z.eqb_spec ((y + 1) mod 4) 0), (Z.eqb_spec ((y + 1) mod 100) 0),
    (Z.eqb_spec ((y + 1) mod 400) 0); simpl; lia.
Qed.

Lemma month_length k :
  0 <= k -> first_day (k + 1) - first_day k = days_in_month (civil_of_month k).1 (civil_of_month k).2.
Proof.
  intros Hk. unfold civil_of_month, first_day. simpl.
  assert (k mod 12 = 11 \/ k mod 12 < 11) as [E|Hlt] by lia.
  - assert ((k + 1) / 12 = k / 12 + 1 /\ (k + 1) mod 12 = 0) as [-> ->] by lia. rewrite E. simpl.
    change (month_start 11) with 337. change (month_start 0) with 0.
    pose proof (leap_year_days (k / 12) ltac:(lia)). unfold days_in_month. simpl.
    destruct (leap (k / 12 + 1)); lia.
  - assert ((k + 1) / 12 = k / 12 /\ (k + 1) mod 12 = k mod 12 + 1) as [-> ->] by lia.
    assert (0 <= k mod 12) by lia. generalize dependent (k mod 12). intros mp Hlt H0.
    assert (mp = 0 \/ mp = 1 \/ mp = 2 \/ mp = 3 \/ mp = 4 \/ mp = 5 \/ mp = 6 \/ mp = 7 \/ mp = 8 \/
            mp = 9 \/ mp = 10) as Hc by lia.
    repeat (destruct Hc as [->|Hc]; [unfold month_start, days_in_month; simpl; lia|]).
    subst mp. unfold month_start, days_in_month. simpl. lia.
Qed.

Definition month_of_civil (y m : Z) : Z :=
  12 * (if m <=? 2 then y - 1 else y) + (if 2 <? m then m - 3 else m + 9).

Lemma civil_month_inv y m : 1 <= m <= 12 -> civil_of_month (month_of_civil y m) = (y, m).
Proof.
  intros Hm. unfold civil_of_month, month_of_civil.
  destruct (Z.leb_spec m 2), (Z.ltb_spec 2 m); try lia.
  - assert ((12 * (y - 1) + (m + 9)) mod 12 = m + 9 /\ (12 * (y - 1) + (m + 9)) / 12 = y - 1) as [-> ->] by lia.
    destruct (Z.ltb_spec (m + 9) 10); [lia|]. f_equal; lia.
  - assert ((12 * y + (m - 3)) mod 12 = m - 3 /\ (12 * y + (m - 3)) / 12 = y) as [-> ->] by lia.
    destruct (Z.ltb_spec (m - 3) 10); [|lia]. f_equal. lia.
Qed.

Lemma month_unique k j z :
  0 <= k -> 0 <= j -> first_day k <= z < first_day (k + 1) -> first_day j <= z < first_day (j + 1) -> k = j.
Proof.
  intros Hk Hj H1 H2. destruct (Z.lt_trichotomy k j) as [Hlt|[?|Hlt]]; [|done|].
  - pose proof (first_day_mono (k + 1) j ltac:(lia) ltac:(lia)). lia.
  - pose proof (first_day_mono (j + 1) k ltac:(lia) ltac:(lia)). lia.
Qed.

Lemma civil_of_month_range k : 1 <= (civil_of_month k).2 <= 12.
Proof. unfold civil_of_month. simpl. destruct (Z.ltb_spec (k mod 12) 10); lia. Qed.

(** ** Windows of a clock reading *)
Lemma month_window now :
  0 <= now <= U64_MAX - 31 * SECS_PER_DAY ->
  exists k, 0 <= first_day k /\ 0 <= k /\
    first_day k * 86400 <= now < first_day (k + 1) * 86400 /\
    budget_window WINDOW_MONTH now = first_day k * 86400 /\
    window_end WINDOW_MONTH now = Some (first_day (k + 1) * 86400).
Proof.
  unfold U64_MAX, SECS_PER_DAY. intros Hn.
  assert (0 <= now / 86400 <= 300000000000000) as Hd by lia.
  destruct (civil_from_days_month (now / 86400)) as (k & Hk & Hin & Hc); [lia|].
  assert (first_day 23638 = 0) as H70 by reflexivity.
  assert (23638 <= k) as Hk70.
  { destruct (Z.le_gt_cases 23638 k); [done|].
    pose proof (first_day_mono (k + 1) 23638 ltac:(lia) ltac:(lia)). lia. }
  pose proof (first_day_mono 23638 k ltac:(lia) ltac:(lia)) as Hpos.
  pose proof (month_length k Hk) as Hlen.
  assert (28 <= days_in_month (civil_of_month k).1 (civil_of_month k).2 <= 31) as Hdim
    by (unfold days_in_month; repeat case_match; lia).
  exists k. split; [lia|]. split; [done|]. split; [lia|].
  unfold budget_window, window_end, SECS_PER_DAY. cbv zeta.
  change (String.eqb WINDOW_MONTH WINDOW_MINUTE) with false.
  change (String.eqb WINDOW_MONTH WINDOW_HOUR) with false.
  change (String.eqb WINDOW_MONTH WINDOW_DAY) with false.
  change (String.eqb WINDOW_MONTH WINDOW_MONTH) with true. cbv iota.
  rewrite wrap_i64_id by mach_lia. rewrite Hc.
  pose proof (days_from_civil_month k 1 Hk) as Hfirst.
  pose proof (days_from_civil_month (k + 1) 1 ltac:(lia)) as Hnext.
  pose proof (civil_of_month_range k) as Hm.
  assert (civil_of_month (k + 1) =
    if (civil_of_month k).2 =? 12 then ((civil_of_month k).1 + 1, 1)
    else ((civil_of_month k).1, (civil_of_month k).2 + 1)) as Hsucc.
  { unfold civil_of_month. simpl.
    assert (k mod 12 = 11 \/ k mod 12 < 11) as [E|Hlt] by lia.
    - assert ((k + 1) / 12 = k / 12 + 1 /\ (k + 1) mod 12 = 0) as [-> ->] by lia. rewrite E. reflexivity.
    - assert ((k + 1) / 12 = k / 12 /\ (k + 1) mod 12 = k mod 12 + 1) as [-> ->] by lia.
      destruct (Z.ltb_spec (k mod 12) 10), (Z.ltb_spec (k mod 12 + 1) 10); simpl; try lia.
      + destruct (Z.eqb_spec (k mod 12 + 3) 12); [lia|]. f_equal. lia.
      + destruct (Z.eqb_spec (k mod 12 + 3) 12); [|lia]. f_equal; lia.
      + destruct (Z.eqb_spec (k mod 12 - 9) 12); [lia|]. f_equal; lia. }
  rewrite Hsucc in Hnext. destruct (civil_of_month k) as [y m]. simpl in *. split.
  - rewrite Hfirst, (wrap_u64_id (first_day k + 1 - 1)), wrap_u64_id by mach_lia. lia.
  - destruct (m =? 12); rewrite Hnext, (wrap_u64_id (first_day (k + 1) + 1 - 1)), wrap_u64_id by mach_lia;
      f_equal; lia.
Qed.

(** The calendar conversion is the Gregorian calendar: every day number from 1 March of year 0
    on converts to a real date (month 1 to 12, day within the length of that month, February by
    the leap rule) that converts back to it, and every real date from year 1 on survives the
    opposite round trip. *)
Theorem civil_calendar_roundtrip :
  (forall z, -719468 <= z ->
     let '(y, m, d) := civil_from_days z in
     1 <= m <= 12 /\ 1 <= d <= days_in_month y m /\ days_from_civil y m d = z) /\
  (forall y m d, 1 <= y -> 1 <= m <= 12 -> 1 <= d <= days_in_month y m ->
     civil_from_days (days_from_civil y m d) = (y, m, d)).
Proof.
  split.
  - intros z Hz. destruct (civil_from_days_month z ltac:(lia)) as (k & Hk & Hin & ->).
    pose proof (days_from_civil_month k (z - first_day k + 1) Hk) as Hd.
    pose proof (month_length k Hk) as Hl. pose proof (civil_of_month_range k).
    destruct (civil_of_month k) as [y m]. simpl in *. lia.
  - intros y m d Hy Hm Hd. set (k := month_of_civil y m).
    assert (0 <= k) as Hk by (unfold k, month_of_civil; destruct (Z.leb_spec m 2), (Z.ltb_spec 2 m); lia).
    pose proof (days_from_civil_month k d Hk) as Hday. pose proof (month_length k Hk) as Hl.
    pose proof (civil_month_inv y m Hm) as Hinv. fold k in Hinv. rewrite Hinv in Hday, Hl. simpl in Hl.
    pose proof (first_day_mono 0 k ltac:(lia) Hk) as H0. change (first_day 0) with (-719468) in H0.
    destruct (civil_from_days_month (days_from_civil y m d) ltac:(lia)) as (j & Hj & Hin & ->).
    assert (j = k) as -> by (apply (month_unique j k (days_from_civil y m d)); lia).
    rewrite Hinv. f_equal. lia.
Qed.

(** The windows of every period partition time: a reading lies in its window, the window's end
    is strictly later, every reading from the start to before the end falls in the same window, and
    the next window starts exactly at the end.  The all-time period has the single window 0 and
    never rolls. *)
Theorem windows_partition_time period now :
  0 <= now <= U64_MAX - 62 * SECS_PER_DAY ->
  0 <= budget_window period now <= now /\
  match window_end period now with
  | None => forall t, budget_window period t = 0
  | Some e =>
      now < e /\ budget_window period e = e /\
      (forall t, budget_window period now <= t < e -> budget_window period t = budget_window period now)
  end.
Proof.
  unfold U64_MAX, SECS_PER_DAY. intros Hn.
  destruct (String.eqb_spec period WINDOW_MONTH) as [->|Hmonth].
  { destruct (month_window now ltac:(unfold U64_MAX, SECS_PER_DAY; lia)) as (k & H0 & Hk & Hin & Hw & He). rewrite Hw, He.
    split; [lia|]. split; [lia|].
    pose proof (month_length k Hk) as Hlen.
    assert (28 <= days_in_month (civil_of_month k).1 (civil_of_month k).2 <= 31) as Hdim
      by (unfold days_in_month; repeat case_match; lia).
    assert (forall t, 0 <= t <= 18446744073709551615 - 31 * 86400 -> forall j, 0 <= j ->
              first_day j * 86400 <= t < first_day (j + 1) * 86400 ->
              budget_window WINDOW_MONTH t = first_day j * 86400) as Hall.
    { intros t Ht j Hj Hin'. destruct (month_window t Ht) as (i & _ & Hi & Hin2 & -> & _).
      f_equal. f_equal. apply (month_unique i j (t / 86400)); lia. }
    split; [|intros t Ht; by apply Hall; [lia|done|lia]].
    pose proof (first_day_step (k + 1) ltac:(lia)).
    apply Hall; lia. }
  unfold budget_window, window_end, SECS_PER_DAY.
  destruct (String.eqb period WINDOW_MINUTE); [rewrite wrap_u64_id by (unfold is_u64, U64_MAX; lia);
    split; [lia|]; split; [lia|]; split; intros; lia|].
  destruct (String.eqb period WINDOW_HOUR); [rewrite wrap_u64_id by (unfold is_u64, U64_MAX; lia);
    split; [lia|]; split; [lia|]; split; intros; lia|].
  destruct (String.eqb period WINDOW_DAY); [rewrite wrap_u64_id by (unfold is_u64, U64_MAX; lia);
    split; [lia|]; split; [lia|]; split; intros; lia|].
  destruct (String.eqb_spec period WINDOW_MONTH); [done|]. split; [lia|done].
Qed.

Lemma windows_partition_time_witness :
  budget_window WINDOW_MONTH 1709164800 = 1706745600 /\ window_end WINDOW_MONTH 1709164800 = Some 1709251200 /\
  budget_window WINDOW_MONTH 1709251199 = 1706745600.
Proof.
  assert (0 <= 1709164800 <= U64_MAX - 62 * SECS_PER_DAY) as Hn by (unfold U64_MAX, SECS_PER_DAY; lia).
  destruct (windows_partition_time WINDOW_MONTH 1709164800 Hn) as [_ H].
  assert (window_end WINDOW_MONTH 1709164800 = Some 1709251200) as He by (vm_compute; reflexivity).
  rewrite He in H. destruct H as (_ & _ & H).
  assert (budget_window WINDOW_MONTH 1709164800 = 1706745600) as Hw by (vm_compute; reflexivity).
  split; [exact Hw|]. split; [exact He|]. rewrite (H 1709251199); [exact Hw|]. rewrite Hw. lia.
Defined.
