(* ===== verification/Cost.v ===== *)
(** * The cost and limit model (crates/busbar/src/cost.rs, config/groups.rs, api/src/store.rs)

    Rate cards, spend derivation from a token ledger, the projection of the [groups:] tree into
    enforcement buckets, and the enforcement chain of a key.  A [BTreeMap] is its list of entries in
    key order, a [HashMap] read by key an association list.  [u128] sums are kept at their width
    (the release profile wraps). *)
From stdpp Require Import base gmap list strings.
From Stdlib Require Import ZArith Lia Floats.SpecFloat.
From S2P Require Import Prelude Windows.
Open Scope Z_scope.
Open Scope rust_scope.

Definition U128_MAX : Z := 340282366920938463463374607431768211455.
Definition sat_add_u128 (a b : Z) : Z := Z.min (a + b) U128_MAX.

(** [i64::try_from(v).unwrap_or(i64::MAX)] of an unsigned value. *)
Definition i64_try_from (v : Z) : Z := if v <=? I64_MAX then v else I64_MAX.

(** [Ord::min] under an optional cap. *)
Definition min_cap (cur : option Z) (amount : Z) : option Z :=
  Some (match cur with Some c => Z.min c amount | None => amount end).

(** ** Records of the contract crate *)
Module TierTokens.
Record t := mk { input : Z; output : Z; cache_read : Z; cache_write : Z }.
Definition default : t := mk 0 0 0 0.
Definition is_zero (x : t) : bool :=
  (input x =? 0) && (output x =? 0) && (cache_read x =? 0) && (cache_write x =? 0).
Definition total (x : t) : Z :=
  sat_add_u64 (sat_add_u64 (sat_add_u64 (input x) (output x)) (cache_read x)) (cache_write x).
End TierTokens.

Module VirtualKey.
Record t := mk {
  id : string; key_hash : string; name : string; allowed_pools : option (list string);
  enabled : bool; created_at : Z; group : option string; labels : list (string * string) }.
Definition pool_allowed (k : t) (pool : string) : bool :=
  match allowed_pools k with
  | None => true
  | Some l => existsb (fun p => String.eqb p pool) l
  end.
End VirtualKey.

(** ** Rates *)
Module RateNanos.
Record t := mk { input : Z; output : Z; cache_read : Z; cache_write : Z }.
Definition default : t := mk 0 0 0 0.

Definition cost_nanos (r : t) (x : TierTokens.t) : Z :=
  wrap_u128 (wrap_u128 (wrap_u128 (TierTokens.input x * input r + TierTokens.output x * output r)
                        + TierTokens.cache_read x * cache_read r)
             + TierTokens.cache_write x * cache_write r).

(** [(utok * 1000.0).round()] of a double, as an integer: halves round away from zero. *)
Definition round_to_Z (x : spec_float) : Z :=
  match x with
  | S754_finite s m e =>
      let a := if 0 <=? e then Z.shiftl (Zpos m) e
               else (Zpos m + Z.shiftl 1 (- e - 1)) / Z.shiftl 1 (- e) in
      if s then - a else a
  | _ => 0
  end.

Definition nanos (utok : spec_float) : Z :=
  let v := SFmul 53 1024 utok (binary_normalize 53 1024 1000 0 false) in
  match v with
  | S754_finite _ _ _ => if 0 <? round_to_Z v then Z.min (round_to_Z v) U64_MAX else 0
  | _ => 0
  end.

Definition from_cfg (i o cr cw : spec_float) : t := mk (nanos i) (nanos o) (nanos cr) (nanos cw).
End RateNanos.

(** ** Group configuration *)
Inductive LimitMetric := Requests | Tokens | Budget | Concurrent.
Inductive LimitWindow := Minute | Hour | Day | Month | Total.

Definition window_str (w : LimitWindow) : string :=
  match w with
  | Minute => WINDOW_MINUTE | Hour => WINDOW_HOUR | Day => WINDOW_DAY | Month => WINDOW_MONTH
  | Total => WINDOW_TOTAL
  end.

Inductive OnExhaust := Block | Downgrade.

Module LimitCfg.
Record t := mk {
  metric : LimitMetric; amount : Z; per : option LimitWindow; pool : option string;
  on_exhaust : option OnExhaust; downgrade_to : option string }.
End LimitCfg.

Module GroupCfg.
Record t := mk {
  parent : option string; enabled : bool; limits : list LimitCfg.t;
  child_default : option (list LimitCfg.t) }.
Definition default : t := mk None true [] None.
End GroupCfg.

(** ** Resolved groups *)
Module GroupBucket.
Record t := mk {
  bucket_id : string; window : string; requests_cap : option Z; tokens_cap : option Z;
  budget_cap : option Z; pool : option string; downgrade_to : option string }.
End GroupBucket.

Module GroupRuntime.
Record t := mk {
  name : string; enabled : bool; concurrent_cap : option Z; buckets : list GroupBucket.t;
  parent : option nat }.
End GroupRuntime.

Definition GROUP_BUCKET_PREFIX : string := "group:".

Definition bucket_id_for (name : string) (w : string) (pool : option string) : string :=
  match pool with
  | Some p => GROUP_BUCKET_PREFIX +:+ name +:+ "@" +:+ w +:+ "#" +:+ p
  | None => GROUP_BUCKET_PREFIX +:+ name +:+ "@" +:+ w
  end.

Definition fresh_bucket (name w : string) (pool : option string) : GroupBucket.t :=
  GroupBucket.mk (bucket_id_for name w pool) w None None None pool None.

(** Merge one windowed limit into its bucket: the most restrictive amount wins. *)
Definition merge_limit (l : LimitCfg.t) (b : GroupBucket.t) : GroupBucket.t :=
  let '(GroupBucket.mk id w req tok bud pool dg) := b in
  match LimitCfg.metric l with
  | Requests => GroupBucket.mk id w (min_cap req (LimitCfg.amount l)) tok bud pool dg
  | Tokens => GroupBucket.mk id w req (min_cap tok (LimitCfg.amount l)) bud pool dg
  | Budget =>
      let amount := i64_try_from (LimitCfg.amount l) in
      let dg := match bud with
                | Some c => if amount <? c then LimitCfg.downgrade_to l else dg
                | None => LimitCfg.downgrade_to l
                end in
      GroupBucket.mk id w req tok (min_cap bud amount) pool dg
  | Concurrent => b
  end.

Definition same_bucket (w : string) (pool : option string) (b : GroupBucket.t) : bool :=
  String.eqb (GroupBucket.window b) w && bool_decide (GroupBucket.pool b = pool).

(** [find] the bucket of the limit's window and pool, or push a fresh one, then merge. *)
Fixpoint merge_into (name w : string) (l : LimitCfg.t) (bs : list GroupBucket.t) : list GroupBucket.t :=
  match bs with
  | [] => [merge_limit l (fresh_bucket name w (LimitCfg.pool l))]
  | b :: bs =>
      if same_bucket w (LimitCfg.pool l) b then merge_limit l b :: bs
      else b :: merge_into name w l bs
  end.

Definition project_limit (name : string) (acc : list GroupBucket.t * option Z) (l : LimitCfg.t)
    : list GroupBucket.t * option Z :=
  let '(buckets, concurrent_cap) := acc in
  match LimitCfg.metric l, LimitCfg.per l with
  | Concurrent, _ => (buckets, min_cap concurrent_cap (LimitCfg.amount l))
  | _, Some window => (merge_into name (window_str window) l buckets, concurrent_cap)
  | _, None => (buckets, concurrent_cap)
  end.

(** The position of a name in the sorted group list. *)
Fixpoint index_of (name : string) (names : list string) : option nat :=
  match names with
  | [] => None
  | n :: names => if String.eqb n name then Some 0%nat else S <$> index_of name names
  end.

Definition project_group (names : list string) (ng : string * GroupCfg.t) : GroupRuntime.t :=
  let '(name, g) := ng in
  let '(buckets, concurrent_cap) := foldl (project_limit name) ([], None) (GroupCfg.limits g) in
  GroupRuntime.mk name (GroupCfg.enabled g) concurrent_cap buckets
    (match GroupCfg.parent g with Some p => index_of p names | None => None end).

Definition project_groups (groups_cfg : list (string * GroupCfg.t)) : list GroupRuntime.t :=
  project_group groups_cfg.*1 <$> groups_cfg.

(** ** The cost model *)
Module CostModel.
Record t := mk {
  rates : option (list (string * RateNanos.t)); groups : list GroupRuntime.t;
  group_idx : list string; price_per_request_cents : Z }.
End CostModel.
Import CostModel.

Definition resolve_parts (rates : option (list (string * RateNanos.t))) (per_request_fee : Z)
    (groups_cfg : list (string * GroupCfg.t)) : CostModel.t :=
  mk rates (project_groups groups_cfg) groups_cfg.*1 (Z.max per_request_fee 0).

Definition with_groups (c : CostModel.t) (groups_cfg : list (string * GroupCfg.t)) : CostModel.t :=
  mk (rates c) (project_groups groups_cfg) groups_cfg.*1 (price_per_request_cents c).

Definition group_named (c : CostModel.t) (name : string) : option (option GroupRuntime.t) :=
  match index_of name (group_idx c) with
  | Some i => Some <$> groups c !! i
  | None => Some None
  end.

Definition rate_for (c : CostModel.t) (model : string) : option RateNanos.t :=
  match rates c with
  | None => Some RateNanos.default
  | Some table => assoc model table
  end.

Definition model_unpriced (c : CostModel.t) (model : string) : bool :=
  match rates c with
  | None => false
  | Some table => negb (bool_decide (is_Some (assoc model table)))
  end.

Definition NANOS_PER_CENT : Z := 10000000.
Definition NANOS_PER_MICRO : Z := 1000.

Definition ledger_nanos (c : CostModel.t) (models : list (string * TierTokens.t)) : Z :=
  foldl (fun nanos m =>
    match rate_for c m.1 with
    | Some rate => sat_add_u128 nanos (RateNanos.cost_nanos rate m.2)
    | None => nanos
    end) 0 models.

Definition derive_spend_cents (c : CostModel.t) (models : list (string * TierTokens.t))
    (fee_requests : Z) (include_request_fee : bool) : Z :=
  let cents := i64_try_from (ledger_nanos c models / NANOS_PER_CENT) in
  let cents :=
    if include_request_fee
    then sat_add_i64 cents (sat_mul_i64 (price_per_request_cents c) (i64_try_from fee_requests))
    else cents in
  Z.max cents 0.

Definition derive_spend_micros (c : CostModel.t) (models : list (string * TierTokens.t))
    (fee_requests : Z) (include_request_fee : bool) : Z :=
  let micros := i64_try_from (ledger_nanos c models / NANOS_PER_MICRO) in
  if include_request_fee
  then sat_add_i64 micros
         (sat_mul_i64 (sat_mul_i64 (price_per_request_cents c) 10000) (i64_try_from fee_requests))
  else micros.

(** ** The enforcement chain *)
Module ChainBucket.
Record t := mk {
  bucket_id : string; group_name : option string; window : string; requests_cap : option Z;
  tokens_cap : option Z; budget_cap : option Z; pool : option string; downgrade_to : option string }.
Definition applies_to_pool (pool_ : string) (b : t) : bool :=
  match pool b with None => true | Some p => String.eqb p pool_ end.
End ChainBucket.

Definition key_bucket (key : VirtualKey.t) : ChainBucket.t :=
  ChainBucket.mk (VirtualKey.id key) None WINDOW_TOTAL None None None None None.

Definition group_chain_bucket (name : string) (b : GroupBucket.t) : ChainBucket.t :=
  ChainBucket.mk (GroupBucket.bucket_id b) (Some name) (GroupBucket.window b)
    (GroupBucket.requests_cap b) (GroupBucket.tokens_cap b) (GroupBucket.budget_cap b)
    (GroupBucket.pool b) (GroupBucket.downgrade_to b).

Module Chain.
Record t := mk { buckets : list ChainBucket.t; groups : list nat }.
End Chain.

(** The walk to the root.  The loop stops when as many groups were walked as exist: [fuel] is the
    number of groups not yet walked. *)
Fixpoint chain_walk (gs : list GroupRuntime.t) (fuel : nat) (next : option nat)
    (buckets : list ChainBucket.t) (walked : list nat) : option Chain.t :=
  match next, fuel with
  | None, _ => Some (Chain.mk buckets walked)
  | Some _, O => Some (Chain.mk buckets walked)
  | Some i, S fuel =>
      let? g := gs !! i in
      chain_walk gs fuel (GroupRuntime.parent g)
        (buckets ++ (group_chain_bucket (GroupRuntime.name g) <$> GroupRuntime.buckets g)) (walked ++ [i])
  end.

(** [inl missing]: the key names a group that does not exist. *)
Definition chain_for (c : CostModel.t) (key : VirtualKey.t) : option (string + Chain.t) :=
  let walk next := inr <$> chain_walk (groups c) (length (groups c)) next [key_bucket key] [] in
  match VirtualKey.group key with
  | None => walk None
  | Some name =>
      match index_of name (group_idx c) with
      | Some i => walk (Some i)
      | None => Some (inl name)
      end
  end.

(** ** Group validation and provisioning *)

(** The parent walk from one group: [true] is a cycle. *)
Fixpoint parent_cycle (cfg : list (string * GroupCfg.t)) (fuel : nat) (path : list string)
    (cursor : option string) : option bool :=
  match cursor, fuel with
  | None, _ => Some false
  | Some _, O => None
  | Some cur, S fuel =>
      if bool_decide (cur ∈ path) then Some true
      else parent_cycle cfg fuel (path ++ [cur]) (let? g := assoc cur cfg in GroupCfg.parent g)
  end.

Inductive GroupError := NoSuchPool (group pool : string) | NoSuchDowngrade (group pool : string)
  | NoSuchParent (group parent : string) | CyclicChain (group : string).

Definition limit_errors (pool_exists : string -> bool) (name : string) (l : LimitCfg.t) : list GroupError :=
  match LimitCfg.pool l with Some p => if pool_exists p then [] else [NoSuchPool name p] | None => [] end
  ++ match LimitCfg.downgrade_to l with
     | Some p => if pool_exists p then [] else [NoSuchDowngrade name p] | None => [] end.

Definition group_errors (cfg : list (string * GroupCfg.t)) (pool_exists : string -> bool)
    (ng : string * GroupCfg.t) : option (list GroupError) :=
  let '(name, g) := ng in
  let limits := GroupCfg.limits g ++ default [] (GroupCfg.child_default g) in
  let errs := concat (limit_errors pool_exists name <$> limits) in
  let walk :=
    match parent_cycle cfg (S (length cfg)) [name] (GroupCfg.parent g) with
    | Some cyc => Some (errs ++ (if cyc then [CyclicChain name] else []))
    | None => None
    end in
  match GroupCfg.parent g with
  | Some p =>
      match assoc p cfg with
      | None => Some (errs ++ [NoSuchParent name p])
      | Some _ => walk
      end
  | None => walk
  end.

Definition validate_groups (cfg : list (string * GroupCfg.t)) (pool_exists : string -> bool)
    : option (list GroupError) :=
  let? errors := mapM (group_errors cfg pool_exists) cfg in Some (concat errors).

(** Nearest ancestor wins; [0..=groups.len()] rounds. *)
Fixpoint resolve_child_default_loop (groups : list (string * GroupCfg.t)) (fuel : nat)
    (cursor : option string) : option (list LimitCfg.t) :=
  match fuel with
  | O => None
  | S fuel =>
      let? name := cursor in
      let? g := assoc name groups in
      match GroupCfg.child_default g with
      | Some cd => Some cd
      | None => resolve_child_default_loop groups fuel (GroupCfg.parent g)
      end
  end.

Definition resolve_child_default (groups : list (string * GroupCfg.t)) (parent : string)
    : option (list LimitCfg.t) :=
  resolve_child_default_loop groups (S (length groups)) (Some parent).

Definition provision_child (groups : list (string * GroupCfg.t)) (parent : string) : GroupCfg.t :=
  GroupCfg.mk (Some parent) true (default [] (resolve_child_default groups parent)) None.
