(* ===== verification/Ledger.v ===== *)
(** * The governance ledger (crates/busbar/src/governance/state.rs, governance/mod.rs, api/src/store.rs, store-memory)

    The in-memory token ledger of every bucket, admission against a key's enforcement chain, accrual,
    refunds, the write-behind flush to the durable store and its hydration.  The 64-way sharded map is
    one map plus a sweep ticker per shard: a bucket lives in the shard of its id, and a shard's sweep
    removes only that shard's cells.  [None] is a panic. *)
From stdpp Require Import base gmap list strings.
From Stdlib Require Import ZArith Lia.
From S2P Require Import Prelude Cell BreakerConfig Swrr Store Windows Cost.
Open Scope Z_scope.
Open Scope rust_scope.

(** ** The durable ledger records *)
Module UsageLedger.
Record t := mk { requests : Z; billable_requests : Z; models : list (string * TierTokens.t) }.
Definition default : t := mk 0 0 [].
Definition total_tokens (l : t) : Z :=
  foldl (fun acc m => sat_add_u64 acc (TierTokens.total m.2)) 0 (models l).
End UsageLedger.

Module TierTokensDelta.
Record t := mk { input : Z; output : Z; cache_read : Z; cache_write : Z }.
Definition is_zero (x : t) : bool :=
  (input x =? 0) && (output x =? 0) && (cache_read x =? 0) && (cache_write x =? 0).
End TierTokensDelta.

Module UsageDelta.
Record t := mk { requests : Z; billable_requests : Z; models : list (string * TierTokensDelta.t) }.
Definition is_zero (d : t) : bool :=
  (requests d =? 0) && (billable_requests d =? 0)
  && forallb (fun m => TierTokensDelta.is_zero m.2) (models d).
End UsageDelta.

(** [u64::saturating_add_signed]. *)
Definition sat_add_signed (a d : Z) : Z := Z.max 0 (Z.min (a + d) U64_MAX).

Definition add_tier (d : TierTokensDelta.t) (x : TierTokens.t) : TierTokens.t :=
  TierTokens.mk (sat_add_signed (TierTokens.input x) (TierTokensDelta.input d))
    (sat_add_signed (TierTokens.output x) (TierTokensDelta.output d))
    (sat_add_signed (TierTokens.cache_read x) (TierTokensDelta.cache_read d))
    (sat_add_signed (TierTokens.cache_write x) (TierTokensDelta.cache_write d)).

(** Update the first entry with the key, or push a fresh one and update it. *)
Fixpoint upsert {V} (k : string) (fresh : V) (f : V -> V) (l : list (string * V)) : list (string * V) :=
  match l with
  | [] => [(k, f fresh)]
  | (k', v) :: l => if decide (k' = k) then (k', f v) :: l else (k', v) :: upsert k fresh f l
  end.

Definition apply_model_delta (models : list (string * TierTokens.t)) (d : string * TierTokensDelta.t)
    : list (string * TierTokens.t) :=
  upsert d.1 TierTokens.default (add_tier d.2) models.

Definition apply_delta (l : UsageLedger.t) (d : UsageDelta.t) : UsageLedger.t :=
  UsageLedger.mk (sat_add_signed (UsageLedger.requests l) (UsageDelta.requests d))
    (sat_add_signed (UsageLedger.billable_requests l) (UsageDelta.billable_requests d))
    (foldl apply_model_delta (UsageLedger.models l) (UsageDelta.models d)).

(** ** What the engine needs of a durable store: the ledger half of the [Store] trait.  A write may
    fail; a write that reports failure changed nothing. *)
Class LedgerStore (S : Type) := {
  get_usage : S -> string -> Z -> UsageLedger.t;
  add_usage : S -> string -> Z -> UsageDelta.t -> S * bool;
  add_usage_ok s b w d s' : add_usage s b w d = (s', true) ->
    forall b' w', get_usage s' b' w' =
      if decide ((b', w') = (b, w)) then apply_delta (get_usage s b w) d else get_usage s b' w';
  add_usage_err s b w d s' : add_usage s b w d = (s', false) ->
    forall b' w', get_usage s' b' w' = get_usage s b' w' }.

(** The default backend keeps its ledgers in a map and never fails. *)
Module MemoryStore.
Definition t : Type := gmap (string * Z) UsageLedger.t.
Definition get (s : t) (bucket_id : string) (window_start : Z) : UsageLedger.t :=
  default UsageLedger.default (s !! (bucket_id, window_start)).
Definition add (s : t) (bucket_id : string) (window_start : Z) (d : UsageDelta.t) : t * bool :=
  (<[(bucket_id, window_start) := apply_delta (get s bucket_id window_start) d]> s, true).
Definition put_usage (s : t) (bucket_id : string) (window_start : Z) (l : UsageLedger.t) : t :=
  <[(bucket_id, window_start) := l]> s.
End MemoryStore.

#[export] Instance memory_ledger_store : LedgerStore MemoryStore.t.
Proof.
  refine {| get_usage := MemoryStore.get; add_usage := MemoryStore.add |}.
  - intros s b w d s' H b' w'. unfold MemoryStore.add in H. injection H as <-. unfold MemoryStore.get, MemoryStore.t in *.
    destruct (decide ((b', w') = (b, w))) as [[= -> ->]|Hne].
    + by rewrite lookup_insert_eq.
    + by rewrite lookup_insert_ne by congruence.
  - intros s b w d s' H. discriminate H.
Defined.

(** ** The in-memory cells *)
Module ModelCell.
Record t := mk { model : string; cur : TierTokens.t; flushed : TierTokens.t }.
End ModelCell.

Module BudgetCell.
Record t := mk {
  window_start : Z; requests : Z; billable_requests : Z; flushed_requests : Z;
  flushed_billable_requests : Z; models : list ModelCell.t; dirty : bool }.

Definition fresh (window_start : Z) : t := mk window_start 0 0 0 0 [] false.

Definition model_views (c : t) : list (string * TierTokens.t) :=
  (fun m => (ModelCell.model m, ModelCell.cur m)) <$> models c.

Definition total_tokens (c : t) : Z :=
  foldl (fun acc m => sat_add_u64 acc (TierTokens.total (ModelCell.cur m))) 0 (models c).

Definition sat_add_tiers (x y : TierTokens.t) : TierTokens.t :=
  TierTokens.mk (sat_add_u64 (TierTokens.input x) (TierTokens.input y))
    (sat_add_u64 (TierTokens.output x) (TierTokens.output y))
    (sat_add_u64 (TierTokens.cache_read x) (TierTokens.cache_read y))
    (sat_add_u64 (TierTokens.cache_write x) (TierTokens.cache_write y)).

Fixpoint accrue_models (model : string) (x : TierTokens.t) (ms : list ModelCell.t) : list ModelCell.t :=
  match ms with
  | [] => [ModelCell.mk model (sat_add_tiers TierTokens.default x) TierTokens.default]
  | m :: ms =>
      if String.eqb (ModelCell.model m) model
      then ModelCell.mk (ModelCell.model m) (sat_add_tiers (ModelCell.cur m) x) (ModelCell.flushed m) :: ms
      else m :: accrue_models model x ms
  end.

Definition accrue (model : string) (x : TierTokens.t) (c : t) : t :=
  mk (window_start c) (requests c) (billable_requests c) (flushed_requests c)
    (flushed_billable_requests c) (accrue_models model x (models c)) (dirty c).

Definition set_dirty (d : bool) (c : t) : t :=
  mk (window_start c) (requests c) (billable_requests c) (flushed_requests c)
    (flushed_billable_requests c) (models c) d.

(** The charge of one admitted request. *)
Definition charge (c : t) : t :=
  mk (window_start c) (sat_add_u64 (requests c) 1) (sat_add_u64 (billable_requests c) 1)
    (flushed_requests c) (flushed_billable_requests c) (models c) true.

Definition refund (c : t) : t :=
  mk (window_start c) (requests c) (sat_sub_u64 (billable_requests c) 1) (flushed_requests c)
    (flushed_billable_requests c) (models c) true.
End BudgetCell.

Module GovState.
Record t := mk {
  budget : gmap string BudgetCell.t; sweep_ticker : gmap Z Z; concurrent : gmap string Z }.
Definition set_budget (v : gmap string BudgetCell.t) (s : t) : t := mk v (sweep_ticker s) (concurrent s).
Definition set_ticker (v : gmap Z Z) (s : t) : t := mk (budget s) v (concurrent s).
Definition set_concurrent (v : gmap string Z) (s : t) : t := mk (budget s) (sweep_ticker s) v.
Definition new : t := mk ∅ ∅ ∅.
End GovState.
Import GovState.

Definition GOV_SHARDS : Z := 64.
Definition shard_index (key_id : string) : Z := Z.land (fnv1a_u64 key_id) (GOV_SHARDS - 1).

(** The cell of a bucket for [window]: reset when genuinely stale, created when missing, the live
    cell otherwise. *)
Definition resolve_cell (window : Z) (o : option BudgetCell.t) : BudgetCell.t :=
  match o with
  | Some c => if BudgetCell.window_start c <? window then BudgetCell.fresh window else c
  | None => BudgetCell.fresh window
  end.

(** ** Accrual *)
Definition accrue_bucket (s : GovState.t) (bucket_id budget_period model : string)
    (tokens : TierTokens.t) (now : Z) : GovState.t :=
  let c := resolve_cell (budget_window budget_period now) (budget s !! bucket_id) in
  set_budget (<[bucket_id := BudgetCell.set_dirty true (BudgetCell.accrue model tokens c)]> (budget s)) s.

Definition record_usage (cost : CostModel.t) (s : GovState.t) (key : VirtualKey.t) (pool model : string)
    (tokens : TierTokens.t) (now : Z) : option GovState.t :=
  if TierTokens.is_zero tokens then Some s
  else
    let? chain := chain_for cost key in
    Some (match chain with
          | inl _ => accrue_bucket s (VirtualKey.id key) WINDOW_TOTAL model tokens now
          | inr ch =>
              foldl (fun s b => accrue_bucket s (ChainBucket.bucket_id b) (ChainBucket.window b) model tokens now)
                s (List.filter (ChainBucket.applies_to_pool pool) (Chain.buckets ch))
          end).

(** ** Admission *)
Inductive LimitBlocked :=
| Limit (group metric : string) (window : option string) (pool : option string)
    (downgrade_to : option string) (retry_after : option Z)
| Disabled (group : string)
| MissingGroup (group : string).

Definition gauge (s : GovState.t) (group : string) : Z := default 0 (concurrent s !! group).

(** Dropping a grant: one [fetch_sub] per gauge held. *)
Definition release_gauges (held : list string) (s : GovState.t) : GovState.t :=
  foldl (fun s g => set_concurrent (<[g := wrap_i64 (gauge s g - 1)]> (concurrent s)) s) s held.

(** The first frozen group of the chain. *)
Fixpoint frozen_group (gs : list GroupRuntime.t) (idxs : list nat) : option (option string) :=
  match idxs with
  | [] => Some None
  | i :: idxs =>
      let? g := gs !! i in
      if negb (GroupRuntime.enabled g) then Some (Some (GroupRuntime.name g)) else frozen_group gs idxs
  end.

(** Compare-and-increment the gauges innermost first; [inl group] is a full gauge, with the holds
    taken so far still in the state. *)
Fixpoint take_gauges (gs : list GroupRuntime.t) (idxs : list nat) (s : GovState.t) (held : list string)
    : option (GovState.t * list string * option string) :=
  match idxs with
  | [] => Some (s, held, None)
  | i :: idxs =>
      let? g := gs !! i in
      match GroupRuntime.concurrent_cap g with
      | None => take_gauges gs idxs s held
      | Some cap =>
          let name := GroupRuntime.name g in
          let v := gauge s name in
          if v <? i64_try_from cap
          then take_gauges gs idxs (set_concurrent (<[name := v + 1]> (concurrent s)) s) (held ++ [name])
          else Some (set_concurrent (<[name := v]> (concurrent s)) s, held, Some name)
      end
  end.

(** The shards to lock: ascending, each once. *)
Fixpoint insert_shard (x : Z) (l : list Z) : list Z :=
  match l with
  | [] => [x]
  | y :: l' => if x <? y then x :: l else if x =? y then l else y :: insert_shard x l'
  end.

Definition lock_order (shards : list Z) : list Z := foldr insert_shard [] shards.

(** Taking a shard's lock: tick, and sweep the shard's stale cells on a multiple of the interval. *)
Definition keep_cell (now : Z) (c : BudgetCell.t) : bool :=
  (BudgetCell.window_start c =? 0)
  || (now <? sat_add_u64 (BudgetCell.window_start c) (31 * SECS_PER_DAY)).

Definition is_multiple_of (x m : Z) : bool := if m =? 0 then x =? 0 else x mod m =? 0.

Definition lock_shard (interval now : Z) (s : GovState.t) (sh : Z) : GovState.t :=
  let ticker := wrap_u32 (default 0 (sweep_ticker s !! sh) + 1) in
  let s := set_ticker (<[sh := ticker]> (sweep_ticker s)) s in
  if is_multiple_of ticker interval
  then set_budget (filter (fun e => shard_index e.1 <> sh \/ keep_cell now e.2 = true) (budget s)) s
  else s.

(** What a check reads of a bucket: requests, tokens, derived spend. *)
Definition bucket_usage (cost : CostModel.t) (s : GovState.t) (b : ChainBucket.t) (now : Z) : Z * Z * Z :=
  match budget s !! ChainBucket.bucket_id b with
  | Some c =>
      if budget_window (ChainBucket.window b) now <=? BudgetCell.window_start c
      then (BudgetCell.requests c,
            if ChainBucket.tokens_cap b then BudgetCell.total_tokens c else 0,
            if ChainBucket.budget_cap b
            then derive_spend_cents cost (BudgetCell.model_views c) (BudgetCell.billable_requests c) true
            else 0)
      else (0, 0, 0)
  | None => (0, 0, 0)
  end.

Definition over (cap : option Z) (f : Z -> bool) : bool := match cap with Some c => f c | None => false end.

Definition blocked_metric (cost : CostModel.t) (s : GovState.t) (b : ChainBucket.t) (now : Z) : option string :=
  let '(requests, tokens, derived) := bucket_usage cost s b now in
  let fee := CostModel.price_per_request_cents cost in
  if over (ChainBucket.requests_cap b) (fun cap => cap <? sat_add_u64 requests 1) then Some "requests"
  else if over (ChainBucket.tokens_cap b) (fun cap => cap <=? tokens) then Some "tokens"
  else if over (ChainBucket.budget_cap b) (fun cap => (cap <=? derived) || (cap <? sat_add_i64 derived fee))
  then Some "budget"
  else None.

Definition capped (b : ChainBucket.t) : bool :=
  bool_decide (is_Some (ChainBucket.requests_cap b)) || bool_decide (is_Some (ChainBucket.tokens_cap b))
  || bool_decide (is_Some (ChainBucket.budget_cap b)).

(** The first blocking bucket, as the rejection it becomes. *)
Fixpoint check_buckets (cost : CostModel.t) (s : GovState.t) (now : Z) (bs : list ChainBucket.t)
    : option (option LimitBlocked) :=
  match bs with
  | [] => Some None
  | b :: bs =>
      if negb (capped b) then check_buckets cost s now bs
      else match blocked_metric cost s b now with
      | Some metric =>
          let? group := ChainBucket.group_name b in
          Some (Some (Limit group metric (Some (ChainBucket.window b)) (ChainBucket.pool b)
            (if String.eqb metric "budget" then ChainBucket.downgrade_to b else None)
            (match window_end (ChainBucket.window b) now with
             | Some e => Some (Z.max (sat_sub_u64 e now) 1)
             | None => None
             end)))
      | None => check_buckets cost s now bs
      end
  end.

Definition charge_bucket (now : Z) (s : GovState.t) (b : ChainBucket.t) : GovState.t :=
  let c := resolve_cell (budget_window (ChainBucket.window b) now) (budget s !! ChainBucket.bucket_id b) in
  set_budget (<[ChainBucket.bucket_id b := BudgetCell.charge c]> (budget s)) s.

(** The result is the refusal, or the grant's gauges. *)
Definition try_admit (interval : Z) (cost : CostModel.t) (s : GovState.t) (key : VirtualKey.t)
    (pool : string) (now : Z) : option (GovState.t * (LimitBlocked + list string)) :=
  let? chain := chain_for cost key in
  match chain with
  | inl missing => Some (s, inl (MissingGroup missing))
  | inr ch =>
      let buckets := List.filter (ChainBucket.applies_to_pool pool) (Chain.buckets ch) in
      let? frozen := frozen_group (CostModel.groups cost) (Chain.groups ch) in
      match frozen with
      | Some g => Some (s, inl (Disabled g))
      | None =>
          let? (s, held, full) := take_gauges (CostModel.groups cost) (Chain.groups ch) s [] in
          match full with
          | Some g => Some (release_gauges held s, inl (Limit g "concurrent" None None None None))
          | None =>
              let shards := (fun b => shard_index (ChainBucket.bucket_id b)) <$> buckets in
              let s := foldl (lock_shard interval now) s (lock_order shards) in
              let? blocked := check_buckets cost s now buckets in
              match blocked with
              | Some e => Some (release_gauges held s, inl e)
              | None => Some (foldl (charge_bucket now) s buckets, inr held)
              end
          end
      end
  end.

(** ** Refund *)
Definition refund_bucket (s : GovState.t) (bucket_id budget_period : string) (now : Z) : GovState.t :=
  match budget s !! bucket_id with
  | Some c =>
      if BudgetCell.window_start c =? budget_window budget_period now
      then set_budget (<[bucket_id := BudgetCell.refund c]> (budget s)) s else s
  | None => s
  end.

Definition refund_request (cost : CostModel.t) (s : GovState.t) (key : VirtualKey.t) (pool : string)
    (now : Z) : option GovState.t :=
  let? chain := chain_for cost key in
  Some (match chain with
        | inl _ => refund_bucket s (VirtualKey.id key) WINDOW_TOTAL now
        | inr ch =>
            foldl (fun s b => refund_bucket s (ChainBucket.bucket_id b) (ChainBucket.window b) now)
              s (List.filter (ChainBucket.applies_to_pool pool) (Chain.buckets ch))
        end).

(** ** Write-behind flush *)
Module DirtySnap.
Record t := mk {
  bucket_id : string; window : Z; delta : UsageDelta.t; cur_requests : Z; cur_billable_requests : Z;
  cur_models : list (string * TierTokens.t) }.
End DirtySnap.

(** [signed]: a counter clamped into the signed delta domain. *)
Definition signed (v : Z) : Z := i64_try_from v.

Definition model_delta (m : ModelCell.t) : string * TierTokensDelta.t :=
  let c := ModelCell.cur m in
  let f := ModelCell.flushed m in
  (ModelCell.model m,
   TierTokensDelta.mk (signed (TierTokens.input c) - signed (TierTokens.input f))
     (signed (TierTokens.output c) - signed (TierTokens.output f))
     (signed (TierTokens.cache_read c) - signed (TierTokens.cache_read f))
     (signed (TierTokens.cache_write c) - signed (TierTokens.cache_write f))).

Definition cell_delta (c : BudgetCell.t) : UsageDelta.t :=
  UsageDelta.mk (signed (BudgetCell.requests c) - signed (BudgetCell.flushed_requests c))
    (signed (BudgetCell.billable_requests c) - signed (BudgetCell.flushed_billable_requests c))
    (List.filter (fun d => negb (TierTokensDelta.is_zero d.2)) (model_delta <$> BudgetCell.models c)).

Definition snap_cell (id : string) (c : BudgetCell.t) : DirtySnap.t :=
  DirtySnap.mk id (BudgetCell.window_start c) (cell_delta c) (BudgetCell.requests c)
    (BudgetCell.billable_requests c) (BudgetCell.model_views c).

(** Snapshot every dirty cell and clear the flags. *)
Definition snapshot_dirty (s : GovState.t) : GovState.t * list DirtySnap.t :=
  (set_budget (BudgetCell.set_dirty false <$> budget s) s,
   (fun e => snap_cell e.1 e.2) <$> List.filter (fun e => BudgetCell.dirty e.2) (map_to_list (budget s))).

Fixpoint ack_model (model : string) (cur : TierTokens.t) (ms : list ModelCell.t) : list ModelCell.t :=
  match ms with
  | [] => []
  | m :: ms =>
      if String.eqb (ModelCell.model m) model
      then ModelCell.mk (ModelCell.model m) (ModelCell.cur m) cur :: ms
      else m :: ack_model model cur ms
  end.

(** Advance the acknowledged baselines of a cell. *)
Definition ack_cell (snap : DirtySnap.t) (c : BudgetCell.t) : BudgetCell.t :=
  BudgetCell.mk (BudgetCell.window_start c) (BudgetCell.requests c) (BudgetCell.billable_requests c)
    (DirtySnap.cur_requests snap) (DirtySnap.cur_billable_requests snap)
    (foldl (fun ms mc => ack_model mc.1 mc.2 ms) (BudgetCell.models c) (DirtySnap.cur_models snap))
    (BudgetCell.dirty c).

(** Write to the cell of a snapshot, if it still holds the snapshot's window. *)
Definition on_snap_cell (snap : DirtySnap.t) (f : BudgetCell.t -> BudgetCell.t) (s : GovState.t) : GovState.t :=
  match budget s !! DirtySnap.bucket_id snap with
  | Some c =>
      if BudgetCell.window_start c =? DirtySnap.window snap
      then set_budget (<[DirtySnap.bucket_id snap := f c]> (budget s)) s else s
  | None => s
  end.

Section Flush.
Context {S : Type} `{LedgerStore S}.

Definition flush_one (acc : S * GovState.t * Z) (snap : DirtySnap.t) : S * GovState.t * Z :=
  let '(store, s, flushed) := acc in
  let '(store, ok) :=
    if UsageDelta.is_zero (DirtySnap.delta snap) then (store, true)
    else add_usage store (DirtySnap.bucket_id snap) (DirtySnap.window snap) (DirtySnap.delta snap) in
  if ok then (store, on_snap_cell snap (ack_cell snap) s, flushed + 1)
  else (store, on_snap_cell snap (BudgetCell.set_dirty true) s, flushed).

Definition flush_budgets (store : S) (s : GovState.t) : S * GovState.t * Z :=
  let '(s, dirty) := snapshot_dirty s in
  foldl flush_one (store, s, 0) dirty.

(** ** Boot hydration.  [list_keys] and [read] are store reads that may fail; a failure fails the boot. *)
Definition hydrated_cell (window : Z) (l : UsageLedger.t) : BudgetCell.t :=
  let billable :=
    if (UsageLedger.billable_requests l =? 0) && (0 <? UsageLedger.requests l)
    then UsageLedger.requests l else UsageLedger.billable_requests l in
  BudgetCell.mk window (UsageLedger.requests l) billable (UsageLedger.requests l) billable
    ((fun m => ModelCell.mk m.1 m.2 m.2) <$> UsageLedger.models l) false.

Definition is_empty_ledger (l : UsageLedger.t) : bool :=
  (UsageLedger.requests l =? 0) && (match UsageLedger.models l with [] => true | _ => false end).

Definition hydrate_bucket (read : string -> Z -> option UsageLedger.t) (now : Z) (s : option GovState.t)
    (b : string * string) : option GovState.t :=
  let? s := s in
  let window := budget_window b.2 now in
  let? ledger := read b.1 window in
  if is_empty_ledger ledger then Some s
  else Some (set_budget (<[b.1 := hydrated_cell window ledger]> (budget s)) s).

Definition hydration_buckets (keys : list VirtualKey.t) (cost : CostModel.t) : list (string * string) :=
  ((fun k => (VirtualKey.id k, WINDOW_TOTAL)) <$> keys)
  ++ concat ((fun g => (fun b => (GroupBucket.bucket_id b, GroupBucket.window b)) <$> GroupRuntime.buckets g)
               <$> CostModel.groups cost).

Definition hydrate_budgets (list_keys : option (list VirtualKey.t))
    (read : string -> Z -> option UsageLedger.t) (cost : CostModel.t) (s : GovState.t) (now : Z)
    : option GovState.t :=
  let? keys := list_keys in
  foldl (hydrate_bucket read now) (Some s) (hydration_buckets keys cost).

End Flush.

(** ** Reads.  [read] and [get_key] are store reads that may fail. *)
Record DerivedUsage := mkDerivedUsage { spend_cents : Z; du_tokens : Z; du_requests : Z }.

(** The cell of a bucket, when it holds the given window. *)
Definition live_cell (s : GovState.t) (bucket_id : string) (window : Z) : option BudgetCell.t :=
  let? c := budget s !! bucket_id in
  if BudgetCell.window_start c =? window then Some c else None.

Definition derived_bucket_usage (read : string -> Z -> option UsageLedger.t) (cost : CostModel.t)
    (s : GovState.t) (bucket_id budget_period : string) (include_request_fee : bool) (now : Z)
    : option DerivedUsage :=
  let window := budget_window budget_period now in
  match live_cell s bucket_id window with
  | Some c =>
      Some (mkDerivedUsage
              (derive_spend_cents cost (BudgetCell.model_views c) (BudgetCell.billable_requests c)
                 include_request_fee)
              (BudgetCell.total_tokens c) (BudgetCell.requests c))
  | None =>
      let? l := read bucket_id window in
      Some (mkDerivedUsage
              (derive_spend_cents cost (UsageLedger.models l) (UsageLedger.billable_requests l)
                 include_request_fee)
              (UsageLedger.total_tokens l) (UsageLedger.requests l))
  end.

Definition usage_for (get_key : string -> option (option VirtualKey.t))
    (read : string -> Z -> option UsageLedger.t) (cost : CostModel.t) (s : GovState.t) (id : string)
    (now : Z) : option (option DerivedUsage) :=
  let? found := get_key id in
  match found with
  | Some _ =>
      let? u := derived_bucket_usage read cost s id WINDOW_TOTAL true now in
      Some (Some u)
  | None => Some None
  end.

Definition bucket_model_tokens (read : string -> Z -> option UsageLedger.t) (s : GovState.t)
    (bucket_id budget_period : string) (now : Z) : list (string * TierTokens.t) :=
  let window := budget_window budget_period now in
  match live_cell s bucket_id window with
  | Some c => BudgetCell.model_views c
  | None => match read bucket_id window with Some l => UsageLedger.models l | None => [] end
  end.

Module BudgetBucketState.
Record t := mk {
  bucket_id : string; budget_group : option string; pool : option string;
  spend_micros_at_current_rate : Z; remaining_micros : option Z; window_start : Z; budget_period : string }.
End BudgetBucketState.

Definition bucket_state (cost : CostModel.t) (s : GovState.t) (now : Z) (b : ChainBucket.t)
    : BudgetBucketState.t :=
  let window := budget_window (ChainBucket.window b) now in
  let spend_micros :=
    match budget s !! ChainBucket.bucket_id b with
    | Some c =>
        if BudgetCell.window_start c =? window
        then derive_spend_micros cost (BudgetCell.model_views c) (BudgetCell.billable_requests c) true else 0
    | None => 0
    end in
  let remaining cap :=
    Z.max (Z.max I64_MIN (Z.min (sat_mul_i64 cap 10000 - spend_micros) I64_MAX)) 0 in
  BudgetBucketState.mk (ChainBucket.bucket_id b) (ChainBucket.group_name b) (ChainBucket.pool b)
    spend_micros (remaining <$> ChainBucket.budget_cap b) window (ChainBucket.window b).

Definition budget_state (cost : CostModel.t) (s : GovState.t) (key : VirtualKey.t) (now : Z)
    : option (list BudgetBucketState.t) :=
  let? chain := chain_for cost key in
  Some (match chain with inl _ => [] | inr ch => bucket_state cost s now <$> Chain.buckets ch end).
