(* ===== verification/CostFacts.v ===== *)
(** * The cost and limit model: spend derivation, bucket projection, enforcement chains *)
From stdpp Require Import base gmap list strings.
From Stdlib Require Import ZArith Lia Ascii.
From S2P Require Import Prelude Windows Cost.
Import CostModel.
Open Scope Z_scope.
Open Scope rust_scope.

(** ** Spend *)
Definition tokens_ok (x : TierTokens.t) : Prop :=
  is_u64 (TierTokens.input x) /\ is_u64 (TierTokens.output x) /\ is_u64 (TierTokens.cache_read x) /\
  is_u64 (TierTokens.cache_write x).

(** A nano-unit rate below 2^62, far above any real price per token. *)
Definition rate_ok (r : RateNanos.t) : Prop :=
  0 <= RateNanos.input r < 2 ^ 62 /\ 0 <= RateNanos.output r < 2 ^ 62 /\
  0 <= RateNanos.cache_read r < 2 ^ 62 /\ 0 <= RateNanos.cache_write r < 2 ^ 62.

Definition exact_cost (r : RateNanos.t) (x : TierTokens.t) : Z :=
  TierTokens.input x * RateNanos.input r + TierTokens.output x * RateNanos.output r +
  TierTokens.cache_read x * RateNanos.cache_read r + TierTokens.cache_write x * RateNanos.cache_write r.

Lemma product_bound a r : is_u64 a -> 0 <= r < 2 ^ 62 -> 0 <= a * r < 2 ^ 126.
Proof.
  unfold is_u64, U64_MAX. intros Ha Hr. split; [nia|].
  apply Z.le_lt_trans with (18446744073709551615 * (2 ^ 62 - 1)); [|lia].
  apply Z.mul_le_mono_nonneg; lia.
Qed.

Lemma wrap_u128_id z : 0 <= z < 2 ^ 128 -> wrap_u128 z = z.
Proof. intros H. unfold wrap_u128. apply Z.mod_small. lia. Qed.

Lemma cost_nanos_exact r x : rate_ok r -> tokens_ok x -> RateNanos.cost_nanos r x = exact_cost r x.
Proof.
  intros (R1 & R2 & R3 & R4) (T1 & T2 & T3 & T4). unfold RateNanos.cost_nanos, exact_cost.
  pose proof (product_bound _ _ T1 R1). pose proof (product_bound _ _ T2 R2).
  pose proof (product_bound _ _ T3 R3). pose proof (product_bound _ _ T4 R4).
  rewrite (wrap_u128_id (TierTokens.input x * _ + _)) by lia. rewrite (wrap_u128_id (_ + _ + _)) by lia.
  apply wrap_u128_id. lia.
Qed.

Lemma exact_cost_nonneg r x : rate_ok r -> tokens_ok x -> 0 <= exact_cost r x.
Proof.
  intros (R1 & R2 & R3 & R4) (T1 & T2 & T3 & T4). unfold exact_cost.
  pose proof (product_bound _ _ T1 R1). pose proof (product_bound _ _ T2 R2).
  pose proof (product_bound _ _ T3 R3). pose proof (product_bound _ _ T4 R4). lia.
Qed.

Definition tokens_le (x y : TierTokens.t) : Prop :=
  TierTokens.input x <= TierTokens.input y /\ TierTokens.output x <= TierTokens.output y /\
  TierTokens.cache_read x <= TierTokens.cache_read y /\ TierTokens.cache_write x <= TierTokens.cache_write y.

Lemma exact_cost_mono r x y : rate_ok r -> tokens_le x y -> exact_cost r x <= exact_cost r y.
Proof.
  intros (R1 & R2 & R3 & R4) (T1 & T2 & T3 & T4). unfold exact_cost.
  repeat apply Z.add_le_mono; apply Z.mul_le_mono_nonneg_r; lia.
Qed.

(** The unbounded cost of a ledger; a model without a rate is free. *)
Definition exact_nanos (c : CostModel.t) (ms : list (string * TierTokens.t)) : Z :=
  Zsum ((fun m => match rate_for c m.1 with Some r => exact_cost r m.2 | None => 0 end) <$> ms).

Definition model_ok (c : CostModel.t) (p : string * TierTokens.t) : Prop :=
  tokens_ok p.2 /\ forall r, rate_for c p.1 = Some r -> rate_ok r.

Lemma exact_nanos_nonneg c ms : Forall (model_ok c) ms -> 0 <= exact_nanos c ms.
Proof.
  unfold exact_nanos. induction 1 as [|[m x] ms [Ht Hr] HF IH]; csimpl in *; [lia|].
  destruct (rate_for c m) as [r|] eqn:E; [|lia]. simpl in *.
  pose proof (exact_cost_nonneg r x (Hr r eq_refl) Ht). lia.
Qed.

Lemma ledger_nanos_exact c ms :
  Forall (model_ok c) ms -> ledger_nanos c ms = Z.min (exact_nanos c ms) U128_MAX.
Proof.
  intros HF. unfold ledger_nanos.
  assert (forall acc, 0 <= acc <= U128_MAX ->
    foldl (fun nanos m => match rate_for c m.1 with
      | Some rate => sat_add_u128 nanos (RateNanos.cost_nanos rate m.2) | None => nanos end) acc ms =
    Z.min (acc + exact_nanos c ms) U128_MAX) as Hgen; [|rewrite Hgen; [done|unfold U128_MAX; lia]].
  unfold exact_nanos. induction HF as [|[m x] ms [Ht Hr] HF IH]; intros acc Hacc; csimpl; [lia|].
  pose proof (exact_nanos_nonneg c ms HF) as Hn. unfold exact_nanos in Hn. simpl in *.
  destruct (rate_for c m) as [r|] eqn:E.
  - rewrite (cost_nanos_exact r x (Hr r eq_refl) Ht).
    pose proof (exact_cost_nonneg r x (Hr r eq_refl) Ht).
    rewrite IH by (unfold sat_add_u128; lia). unfold sat_add_u128. lia.
  - rewrite IH by done. lia.
Qed.

Lemma exact_nanos_mono c ms ms' :
  Forall (model_ok c) ms -> Forall2 (fun a b => a.1 = b.1 /\ tokens_le a.2 b.2) ms ms' ->
  exact_nanos c ms <= exact_nanos c ms'.
Proof.
  intros HF H2. unfold exact_nanos. revert HF.
  induction H2 as [|[m x] [m' x'] ms ms' [Hm Hle] H2 IH]; intros HF; csimpl; [lia|].
  inversion HF as [|? ? [Ht Hr] HF']; subst. simpl in *. subst m'. specialize (IH HF').
  destruct (rate_for c m) as [r|] eqn:E; [|lia].
  pose proof (exact_cost_mono r x x' (Hr r eq_refl) Hle). lia.
Qed.

(** The closed form of the derivation: the exact spend, pinned at the largest [i64]. *)
Lemma derive_spend_closed c ms n :
  Forall (model_ok c) ms -> 0 <= price_per_request_cents c <= I64_MAX -> 0 <= n ->
  derive_spend_cents c ms n true =
    Z.min (exact_nanos c ms / NANOS_PER_CENT + price_per_request_cents c * n) I64_MAX.
Proof.
  intros HF Hp Hn. unfold derive_spend_cents. rewrite ledger_nanos_exact by done.
  pose proof (exact_nanos_nonneg c ms HF) as Hx. set (x := exact_nanos c ms) in *.
  set (p := price_per_request_cents c) in *. unfold NANOS_PER_CENT.
  assert (i64_try_from (Z.min x U128_MAX / 10000000) = Z.min (x / 10000000) I64_MAX) as ->.
  { unfold i64_try_from, U128_MAX, I64_MAX.
    destruct (Z.min_spec x 340282366920938463463374607431768211455) as [[Hlt ->]|[Hge ->]].
    - destruct (Z.leb_spec (x / 10000000) 9223372036854775807); lia.
    - change (340282366920938463463374607431768211455 / 10000000 <=? 9223372036854775807) with false.
      rewrite Z.min_r; [done|]. apply Z.div_le_lower_bound; lia. }
  assert (sat_mul_i64 p (i64_try_from n) = Z.min (p * n) I64_MAX) as ->.
  { unfold sat_mul_i64, i64_try_from, I64_MIN, I64_MAX in *.
    destruct (Z.leb_spec n 9223372036854775807); [rewrite Z.max_r by nia; done|].
    destruct (Z.eq_dec p 0) as [->|]; [lia|]. rewrite !Z.min_r by nia. lia. }
  assert (0 <= x / 10000000) by (apply Z.div_pos; lia). assert (0 <= p * n) by nia.
  unfold sat_add_i64, I64_MIN, I64_MAX in *. lia.
Qed.

(** ** Merged caps *)
Definition cap_of (m : LimitMetric) (b : GroupBucket.t) : option Z :=
  match m with
  | Requests => GroupBucket.requests_cap b
  | Tokens => GroupBucket.tokens_cap b
  | Budget => GroupBucket.budget_cap b
  | Concurrent => None
  end.

#[export] Instance LimitMetric_eq_dec : EqDecision LimitMetric.
Proof. solve_decision. Defined.

(** The amounts a group configures for a metric in a window and pool scope. *)
Definition amount_in (m : LimitMetric) (l : LimitCfg.t) : Z :=
  match m with Budget => i64_try_from (LimitCfg.amount l) | _ => LimitCfg.amount l end.

Definition scoped (m : LimitMetric) (w : string) (pool : option string) (l : LimitCfg.t) : bool :=
  bool_decide (LimitCfg.metric l = m) &&
  match LimitCfg.per l with Some w' => String.eqb (window_str w') w | None => false end &&
  bool_decide (LimitCfg.pool l = pool).

Definition amounts (m : LimitMetric) (w : string) (pool : option string) (ls : list LimitCfg.t) : list Z :=
  amount_in m <$> List.filter (scoped m w pool) ls.

Definition strictest (xs : list Z) : option Z := foldl min_cap None xs.

Definition cap_at (m : LimitMetric) (w : string) (pool : option string) (bs : list GroupBucket.t) : option Z :=
  List.find (same_bucket w pool) bs ≫= cap_of m.

#[local] Arguments merge_limit : simpl never.
#[local] Arguments same_bucket : simpl never.

Lemma merge_limit_frame l b :
  GroupBucket.window (merge_limit l b) = GroupBucket.window b /\
  GroupBucket.pool (merge_limit l b) = GroupBucket.pool b /\
  GroupBucket.bucket_id (merge_limit l b) = GroupBucket.bucket_id b.
Proof. destruct b. unfold merge_limit. by destruct (LimitCfg.metric l). Qed.

Lemma merge_limit_cap l b m :
  LimitCfg.metric l <> Concurrent ->
  cap_of m (merge_limit l b) =
    if decide (LimitCfg.metric l = m) then min_cap (cap_of m b) (amount_in m l) else cap_of m b.
Proof. destruct b. unfold merge_limit. destruct (LimitCfg.metric l), m; intros; simpl; done. Qed.

Lemma same_bucket_iff w pool b :
  same_bucket w pool b = true <-> GroupBucket.window b = w /\ GroupBucket.pool b = pool.
Proof. unfold same_bucket. by rewrite andb_true_iff, String.eqb_eq, bool_decide_eq_true. Qed.

Lemma same_bucket_merge w pool l b : same_bucket w pool (merge_limit l b) = same_bucket w pool b.
Proof. unfold same_bucket. by destruct (merge_limit_frame l b) as (-> & -> & _). Qed.

Lemma merge_into_cap name w l bs m w' pool' :
  LimitCfg.metric l <> Concurrent ->
  cap_at m w' pool' (merge_into name w l bs) =
    if decide (LimitCfg.metric l = m /\ w = w' /\ LimitCfg.pool l = pool')
    then min_cap (cap_at m w' pool' bs) (amount_in m l) else cap_at m w' pool' bs.
Proof.
  intros Hm. unfold cap_at. induction bs as [|b bs IH]; simpl.
  - rewrite same_bucket_merge.
    destruct (same_bucket w' pool' (fresh_bucket name w (LimitCfg.pool l))) eqn:E.
    + apply same_bucket_iff in E as [E1 E2]. simpl in E1, E2. simpl. rewrite merge_limit_cap by done.
      destruct (decide (LimitCfg.metric l = m)) as [Hl|Hl].
      * rewrite decide_True by done. by destruct m.
      * rewrite decide_False by tauto. by destruct m.
    + rewrite decide_False; [done|]. intros (_ & Hw & Hp).
      assert (same_bucket w' pool' (fresh_bucket name w (LimitCfg.pool l)) = true); [|congruence].
      by apply same_bucket_iff.
  - destruct (same_bucket w (LimitCfg.pool l) b) eqn:E; simpl.
    + rewrite same_bucket_merge. apply same_bucket_iff in E as [E1 E2].
      destruct (same_bucket w' pool' b) eqn:E'; simpl.
      * apply same_bucket_iff in E' as [E1' E2']. rewrite merge_limit_cap by done.
        assert (w = w' /\ LimitCfg.pool l = pool') as [Hw Hp] by (split; congruence).
        destruct (decide (LimitCfg.metric l = m)); [by rewrite decide_True|by rewrite decide_False by tauto].
      * rewrite decide_False; [done|]. intros (_ & Hw & Hp).
        assert (same_bucket w' pool' b = true); [|congruence]. apply same_bucket_iff. split; congruence.
    + destruct (same_bucket w' pool' b) eqn:E'; simpl; [|exact IH].
      rewrite decide_False; [done|]. intros (_ & Hw & Hp). subst. congruence.
Qed.

Lemma project_limits_cap name ls acc m w pool :
  m <> Concurrent ->
  cap_at m w pool (foldl (project_limit name) acc ls).1 =
    foldl min_cap (cap_at m w pool acc.1) (amounts m w pool ls).
Proof.
  intros Hm. revert acc. induction ls as [|l ls IH]; intros [bs cc]; [done|]. simpl foldl. rewrite IH.
  unfold amounts. simpl List.filter. unfold scoped at 2, project_limit.
  destruct (decide (LimitCfg.metric l = Concurrent)) as [Ec|Ec].
  - rewrite Ec. rewrite bool_decide_false by congruence. done.
  - destruct (LimitCfg.per l) as [w0|] eqn:Ep.
    + assert ((match LimitCfg.metric l with
              | Concurrent => (bs, min_cap cc (LimitCfg.amount l))
              | _ => (merge_into name (window_str w0) l bs, cc) end).1 =
              merge_into name (window_str w0) l bs) as Hfst by (by destruct (LimitCfg.metric l)).
      rewrite Hfst, merge_into_cap by done.
      destruct (decide (LimitCfg.metric l = m /\ window_str w0 = w /\ LimitCfg.pool l = pool)) as [(H1 & H2 & H3)|Hn].
      * rewrite (bool_decide_true _ H1), (bool_decide_true _ H3).
        apply String.eqb_eq in H2. rewrite H2. done.
      * destruct (bool_decide (LimitCfg.metric l = m) && String.eqb (window_str w0) w
                  && bool_decide (LimitCfg.pool l = pool)) eqn:E; [|done].
        exfalso. apply Hn. rewrite !andb_true_iff, !bool_decide_eq_true, String.eqb_eq in E. tauto.
    + rewrite andb_false_r. simpl. by destruct (LimitCfg.metric l).
Qed.

Lemma project_limits_concurrent name ls acc :
  (foldl (project_limit name) acc ls).2 =
    foldl min_cap acc.2 (LimitCfg.amount <$> List.filter (fun l => bool_decide (LimitCfg.metric l = Concurrent)) ls).
Proof.
  revert acc. induction ls as [|l ls IH]; intros [bs cc]; [done|]. simpl foldl. rewrite IH.
  simpl List.filter. unfold project_limit. by destruct (LimitCfg.metric l), (LimitCfg.per l).
Qed.

Lemma min_cap_fold x xs :
  exists v, foldl min_cap (Some x) xs = Some v /\ v <= x /\ Forall (fun y => v <= y) xs /\ v ∈ x :: xs.
Proof.
  revert x. induction xs as [|y xs IH]; intros x; simpl.
  - exists x. split; [done|]. split; [lia|]. split; [constructor|]. by apply elem_of_cons; left.
  - change (min_cap (Some x) y) with (Some (Z.min x y)).
    destruct (IH (Z.min x y)) as (v & -> & Hle & HF & Hin). exists v. split; [done|]. split; [lia|].
    split; [constructor; [lia|done]|]. apply elem_of_cons in Hin as [->|Hin].
    + destruct (Z.min_spec x y) as [[_ ->]|[_ ->]]; rewrite !elem_of_cons; tauto.
    + rewrite !elem_of_cons. tauto.
Qed.

(** [strictest] is the minimum. *)
Lemma strictest_spec xs :
  match strictest xs with
  | None => xs = []
  | Some v => v ∈ xs /\ Forall (fun y => v <= y) xs
  end.
Proof.
  destruct xs as [|x xs]; [done|].
  change (strictest (x :: xs)) with (foldl min_cap (Some x) xs).
  destruct (min_cap_fold x xs) as (v & -> & Hle & HF & Hin). split; [done|]. by constructor.
Qed.

(** ** Bucket ids *)
Fixpoint has_char (a : Ascii.ascii) (s : string) : bool :=
  match s with EmptyString => false | String b s => Ascii.eqb a b || has_char a s end.

Lemma append_sep_inj a s1 t1 s2 t2 :
  has_char a s1 = false -> has_char a s2 = false ->
  s1 +:+ String a t1 = s2 +:+ String a t2 -> s1 = s2 /\ t1 = t2.
Proof.
  revert s2. induction s1 as [|c s1 IH]; intros [|d s2] H1 H2; simpl in *; intros [= E].
  - done.
  - subst d. rewrite Ascii.eqb_refl in H2. done.
  - subst c. rewrite Ascii.eqb_refl in H1. done.
  - apply orb_false_iff in H1 as [_ H1]. apply orb_false_iff in H2 as [_ H2].
    subst d. destruct (IH s2 H1 H2) as [-> ->]; [done|]. done.
Qed.

Lemma append_nil_inj a s1 t1 s2 : has_char a s2 = false -> s1 +:+ String a t1 <> s2.
Proof.
  revert s2. induction s1 as [|c s1 IH]; intros [|d s2] H2; simpl in *; try done; intros [= E1 E2].
  - subst. by rewrite Ascii.eqb_refl in H2.
  - apply orb_false_iff in H2 as [_ H2]. by apply (IH s2).
Qed.

Definition window_words : list string := [WINDOW_MINUTE; WINDOW_HOUR; WINDOW_DAY; WINDOW_MONTH; WINDOW_TOTAL].

Lemma window_no_hash w : w ∈ window_words -> has_char "#"%char w = false.
Proof. unfold window_words. rewrite !elem_of_cons, elem_of_nil. intros [->|[->|[->|[->|[->|[]]]]]]; done. Qed.

Lemma bucket_id_inj n1 w1 p1 n2 w2 p2 :
  has_char "@"%char n1 = false -> has_char "@"%char n2 = false -> w1 ∈ window_words -> w2 ∈ window_words ->
  bucket_id_for n1 w1 p1 = bucket_id_for n2 w2 p2 -> n1 = n2 /\ w1 = w2 /\ p1 = p2.
Proof.
  intros H1 H2 Hw1 Hw2 E. apply window_no_hash in Hw1, Hw2.
  assert (forall (n w : string) p, bucket_id_for n w p = GROUP_BUCKET_PREFIX +:+ (n +:+ String "@"%char
    match p with Some p => w +:+ String "#"%char p | None => w end)) as Hb by (by intros ? ? []).
  rewrite !Hb in E. simpl in E. injection E as E.
  destruct (append_sep_inj "@"%char n1 _ n2 _ H1 H2 E) as [-> Et]. split; [done|].
  destruct p1 as [p1|], p2 as [p2|].
  - by destruct (append_sep_inj "#"%char w1 p1 w2 p2 Hw1 Hw2 Et) as [-> ->].
  - exfalso. by apply (append_nil_inj "#"%char w1 p1 w2).
  - exfalso. by apply (append_nil_inj "#"%char w2 p2 w1).
  - by subst.
Qed.

(** A group or pool name with the separators in it makes two distinct scopes share one ledger row. *)
Example bucket_id_collision :
  bucket_id_for "a" WINDOW_DAY (Some "x@month") = bucket_id_for "a@day#x" WINDOW_MONTH None.
Proof. reflexivity. Qed.

(** Four products of 2^126 add up to 2^128: the wrapped cost of this ledger is zero. *)
Example cost_nanos_wraps :
  let r := RateNanos.mk (2 ^ 63) (2 ^ 63) (2 ^ 63) (2 ^ 63) in
  let x := TierTokens.mk (2 ^ 63) (2 ^ 63) (2 ^ 63) (2 ^ 63) in
  RateNanos.cost_nanos r x = 0 /\ exact_cost r x = 2 ^ 128.
Proof. split; vm_compute; reflexivity. Qed.

(** ** Chains *)
#[local] Arguments project_group : simpl never.

Section Chains.
Context (cfg : list (string * GroupCfg.t)).

(** The ancestors of a group, itself first, up to the root. *)
Inductive AncestorPath : string -> list string -> Prop :=
| PathRoot n g : assoc n cfg = Some g -> GroupCfg.parent g = None -> AncestorPath n [n]
| PathStep n g p path : assoc n cfg = Some g -> GroupCfg.parent g = Some p ->
    AncestorPath p path -> AncestorPath n (n :: path).

Lemma index_of_assoc n (l : list (string * GroupCfg.t)) :
  match assoc n l with
  | Some g => exists i, index_of n l.*1 = Some i /\ l !! i = Some (n, g)
  | None => index_of n l.*1 = None
  end.
Proof.
  induction l as [|[k g] l IH]; [done|]. csimpl. destruct (String.eqb_spec k n) as [->|Hne].
  - rewrite decide_True by done. by exists 0%nat.
  - rewrite decide_False by done. destruct (assoc n l) as [g'|].
    + destruct IH as (i & -> & Hi). by exists (S i).
    + by rewrite IH.
Qed.

Lemma index_of_lt n l i : index_of n l = Some i -> (i < length l)%nat.
Proof.
  revert i. induction l as [|k l IH]; intros i; [done|]. simpl. destruct (String.eqb k n).
  - intros [= <-]. lia.
  - destruct (index_of n l) as [j|]; [|done]. simpl. intros [= <-]. specialize (IH j eq_refl). lia.
Qed.

Lemma project_lookup i : project_groups cfg !! i = project_group cfg.*1 <$> cfg !! i.
Proof. apply list_lookup_fmap. Qed.

Definition runtime (n : string) : option GroupRuntime.t :=
  let? g := assoc n cfg in Some (project_group cfg.*1 (n, g)).

Lemma project_parent n g : GroupRuntime.parent (project_group cfg.*1 (n, g)) =
  match GroupCfg.parent g with Some p => index_of p cfg.*1 | None => None end.
Proof. unfold project_group. by destruct (foldl _ _ _). Qed.

Lemma project_name n g : GroupRuntime.name (project_group cfg.*1 (n, g)) = n.
Proof. unfold project_group. by destruct (foldl _ _ _). Qed.

(** The walk never indexes out of range, whatever the configuration. *)
Lemma chain_walk_total fuel next bs walked :
  match next with Some i => (i < length cfg)%nat | None => True end ->
  exists bs' walked', chain_walk (project_groups cfg) fuel next bs walked = Some (Chain.mk (bs ++ bs') (walked ++ walked'))
    /\ (length walked' <= fuel)%nat.
Proof.
  revert next bs walked. induction fuel as [|fuel IH]; intros [i|] bs walked Hi; simpl;
    try (exists [], []; rewrite !app_nil_r; split; [done|simpl; lia]).
  rewrite project_lookup. destruct (lookup_lt_is_Some_2 cfg i Hi) as [[n g] E]. rewrite E. simpl fmap.
  cbv beta iota.
  set (r := project_group cfg.*1 (n, g)).
  destruct (IH (GroupRuntime.parent r) (bs ++ (group_chain_bucket (GroupRuntime.name r) <$> GroupRuntime.buckets r))
    (walked ++ [i])) as (bs' & w' & -> & Hl).
  - unfold r. rewrite project_parent. destruct (GroupCfg.parent g) as [p|]; [|done].
    destruct (index_of p cfg.*1) as [j|] eqn:Ej; [|done]. apply index_of_lt in Ej. by rewrite length_fmap in Ej.
  - exists ((group_chain_bucket (GroupRuntime.name r) <$> GroupRuntime.buckets r) ++ bs'), (i :: w').
    rewrite <- !app_assoc. split; [done|]. simpl. lia.
Qed.

Definition path_buckets (path : list string) : list ChainBucket.t :=
  concat ((fun n => match runtime n with
    | Some r => group_chain_bucket n <$> GroupRuntime.buckets r | None => [] end) <$> path).

Lemma chain_walk_path n path fuel bs walked :
  AncestorPath n path -> (length path <= fuel)%nat ->
  exists i idxs, index_of n cfg.*1 = Some i /\ mapM (fun n => index_of n cfg.*1) path = Some idxs /\
    chain_walk (project_groups cfg) fuel (Some i) bs walked =
      Some (Chain.mk (bs ++ path_buckets path) (walked ++ idxs)).
Proof.
  intros HP. revert fuel bs walked. induction HP as [n g Ha Hp|n g p path Ha Hp HP IH];
    intros [|fuel] bs walked Hf; simpl in Hf; try lia;
    pose proof (index_of_assoc n cfg) as Hi; rewrite Ha in Hi; destruct Hi as (i & Hi & Hl).
  - exists i, [i]. split; [done|]. split; [by simpl; rewrite Hi|]. simpl. rewrite project_lookup, Hl. simpl fmap.
    cbv beta iota. rewrite project_parent, Hp, project_name. unfold path_buckets, runtime. simpl. rewrite Ha, app_nil_r.
    by destruct fuel.
  - destruct (IH fuel (bs ++ (group_chain_bucket n <$> GroupRuntime.buckets (project_group cfg.*1 (n, g))))
      (walked ++ [i]) ltac:(lia)) as (j & idxs & Hj & HM & HC).
    exists i, (i :: idxs). split; [done|]. split; [simpl; rewrite Hi; simpl; by rewrite HM|].
    simpl. rewrite project_lookup, Hl. simpl fmap. cbv beta iota. rewrite project_parent, Hp, Hj, project_name, HC.
    unfold path_buckets at 2, runtime. simpl. rewrite Ha. by rewrite <- !app_assoc.
Qed.

(** A cycle-free parent walk whose ancestors all exist is an ancestor path. *)
Lemma parent_cycle_path fuel visited n g :
  assoc n cfg = Some g -> n ∈ visited -> NoDup visited ->
  (forall m gm p, assoc m cfg = Some gm -> GroupCfg.parent gm = Some p -> is_Some (assoc p cfg)) ->
  parent_cycle cfg fuel visited (GroupCfg.parent g) = Some false ->
  exists rest, AncestorPath n (n :: rest) /\ NoDup (visited ++ rest).
Proof.
  intros Hn Hv Hnd Hex. revert visited n g Hn Hv Hnd. induction fuel as [|fuel IH]; intros visited n g Hn Hv Hnd;
    destruct (GroupCfg.parent g) as [p|] eqn:Hp; simpl; try done;
    try (intros _; exists []; rewrite app_nil_r; split; [by eapply PathRoot|done]).
  destruct (Hex n g p Hn Hp) as [gp Hgp]. destruct (bool_decide (p ∈ visited)) eqn:Ev; [done|].
  apply bool_decide_eq_false in Ev. rewrite Hgp. intros Hc.
  destruct (IH (visited ++ [p]) p gp Hgp) as (rest & HP & HN).
  - apply elem_of_app. right. by apply list_elem_of_singleton.
  - apply NoDup_app. split; [done|]. split; [|apply NoDup_singleton].
    intros x Hx Hx'. apply list_elem_of_singleton in Hx'. by subst.
  - exact Hc.
  - exists (p :: rest). rewrite <- app_assoc in HN. split; [|exact HN]. by eapply PathStep.
Qed.
End Chains.

(** The validator's walk always finishes within its fuel. *)
Definition unvisited (cfg : list (string * GroupCfg.t)) (visited : list string) : list string :=
  filter (fun n => n ∉ visited) cfg.*1.

Lemma unvisited_step cfg visited n g :
  assoc n cfg = Some g -> n ∉ visited ->
  (length (unvisited cfg (visited ++ [n])) < length (unvisited cfg visited))%nat.
Proof.
  intros Ha Hn. assert (n ∈ cfg.*1) as Hin.
  { apply list_elem_of_fmap. exists (n, g). split; [done|]. by apply assoc_elem. }
  clear Ha. unfold unvisited. induction cfg.*1 as [|k ks IH]; [by apply not_elem_of_nil in Hin|].
  assert (length (filter (fun m => m ∉ visited ++ [n]) ks) <= length (filter (fun m => m ∉ visited) ks))%nat as Hle.
  { clear IH Hin. induction ks as [|j ks IH]; [done|]. rewrite !filter_cons.
    destruct (decide (j ∉ visited ++ [n])) as [Hj|Hj]; destruct (decide (j ∉ visited)) as [Hj'|Hj']; simpl; try lia.
    exfalso. apply Hj'. intros Hv. apply Hj, elem_of_app. by left. }
  rewrite !filter_cons. destruct (decide (k = n)) as [->|Hne].
  - rewrite decide_False, decide_True; [simpl; lia|done|].
    intros Hc. apply Hc, elem_of_app. right. by apply list_elem_of_singleton.
  - apply elem_of_cons in Hin as [?|Hin]; [congruence|]. specialize (IH Hin).
    destruct (decide (k ∉ visited)) as [Hk|Hk].
    + rewrite decide_True; [simpl; lia|]. intros [?|Hc]%elem_of_app; [done|].
      apply list_elem_of_singleton in Hc. congruence.
    + rewrite decide_False; [done|]. intros Hc. apply Hk. intros Hv. apply Hc, elem_of_app. by left.
Qed.

Lemma parent_cycle_total cfg fuel visited cursor :
  (length (unvisited cfg visited) < fuel)%nat -> is_Some (parent_cycle cfg fuel visited cursor).
Proof.
  revert visited cursor. induction fuel as [|fuel IH]; intros visited [cur|] Hf; simpl; try lia; try by eexists.
  destruct (bool_decide (cur ∈ visited)) eqn:E; [by eexists|]. apply bool_decide_eq_false in E.
  destruct (assoc cur cfg) as [g|] eqn:Ea.
  - apply IH. pose proof (unvisited_step cfg visited cur g Ea E). lia.
  - destruct fuel; by eexists.
Qed.

Lemma group_errors_total cfg pe ng : is_Some (group_errors cfg pe ng).
Proof.
  destruct ng as [n g]. unfold group_errors.
  destruct (parent_cycle_total cfg (S (length cfg)) [n] (GroupCfg.parent g)) as [b Hb].
  { unfold unvisited. pose proof (length_filter (fun m => m ∉ [n]) cfg.*1) as Hl.
    rewrite length_fmap in Hl. lia. }
  rewrite Hb. repeat case_match; by eexists.
Qed.

(** What an empty error list says of each group. *)
Lemma validated_group cfg pe n g :
  NoDup cfg.*1 -> validate_groups cfg pe = Some [] -> assoc n cfg = Some g ->
  (forall p, GroupCfg.parent g = Some p -> is_Some (assoc p cfg)) /\
  parent_cycle cfg (S (length cfg)) [n] (GroupCfg.parent g) = Some false.
Proof.
  intros Hnd Hv Ha. unfold validate_groups in Hv.
  destruct (mapM (group_errors cfg pe) cfg) as [errs|] eqn:HM; [|done]. injection Hv as Hc.
  apply assoc_elem in Ha. apply mapM_Some in HM.
  apply list_elem_of_lookup in Ha as [i Hi].
  destruct (Forall2_lookup_l _ _ _ _ _ HM Hi) as (es & Hes & He).
  assert (es = []) as ->.
  { apply list_elem_of_lookup_2 in Hes. clear -Hc Hes. induction errs as [|e errs IH]; [by apply not_elem_of_nil in Hes|].
    simpl in Hc. apply app_nil in Hc as [-> Hc]. apply elem_of_cons in Hes as [->|Hes]; [done|]. by apply IH. }
  unfold group_errors in He. cbv zeta in He.
  destruct (GroupCfg.parent g) as [p|].
  - destruct (assoc p cfg) as [gp|] eqn:Ep; [|injection He as He; by apply app_nil in He as [_ ?]].
    split; [intros p' [= <-]; by rewrite Ep|].
    destruct (parent_cycle _ _ _ _) as [[]|]; try done; injection He as He; by apply app_nil in He as [_ ?].
  - split; [done|]. destruct (parent_cycle _ _ _ _) as [[]|]; try done; injection He as He; by apply app_nil in He as [_ ?].
Qed.

Lemma path_length cfg n path :
  AncestorPath cfg n path -> NoDup path -> (length path <= length cfg)%nat.
Proof.
  intros HP Hnd. rewrite <- (length_fmap fst cfg). apply submseteq_length, NoDup_submseteq; [done|].
  clear Hnd. intros x Hx. induction HP as [n g Ha Hp|n g p path Ha Hp HP IH].
  - apply list_elem_of_singleton in Hx. subst. apply list_elem_of_fmap. exists (n, g). split; [done|]. by apply assoc_elem.
  - apply elem_of_cons in Hx as [->|Hx]; [|by apply IH]. apply list_elem_of_fmap. exists (n, g). split; [done|]. by apply assoc_elem.
Qed.

(** ** Theorems *)

(** Derived spend is exact and fails closed: for token counts that fit [u64] and rates below
    2^62 nano-units, the derived cents are the exact cost of the ledger rounded down plus the flat
    fee per billable request, pinned at the largest [i64] instead of wrapping; so it is never
    negative, and more tokens or more requests never derive to less spend. *)
Theorem derived_spend_exact_and_monotone c ms ms' n n' :
  Forall (model_ok c) ms -> Forall (model_ok c) ms' ->
  0 <= price_per_request_cents c <= I64_MAX -> 0 <= n <= n' ->
  Forall2 (fun a b => a.1 = b.1 /\ tokens_le a.2 b.2) ms ms' ->
  derive_spend_cents c ms n true =
    Z.min (exact_nanos c ms / NANOS_PER_CENT + price_per_request_cents c * n) I64_MAX /\
  0 <= derive_spend_cents c ms n true <= derive_spend_cents c ms' n' true.
Proof.
  intros H1 H2 Hp Hn Hle. rewrite !derive_spend_closed by (done || lia). split; [done|].
  pose proof (exact_nanos_nonneg c ms H1). pose proof (exact_nanos_mono c ms ms' H1 Hle).
  assert (exact_nanos c ms / NANOS_PER_CENT <= exact_nanos c ms' / NANOS_PER_CENT)
    by (apply Z.div_le_mono; [unfold NANOS_PER_CENT; lia|done]).
  assert (0 <= exact_nanos c ms / NANOS_PER_CENT) by (apply Z.div_pos; [done|unfold NANOS_PER_CENT; lia]).
  assert (0 <= price_per_request_cents c * n <= price_per_request_cents c * n') by nia.
  unfold I64_MAX in *. lia.
Qed.

Definition demo_card : CostModel.t :=
  mk (Some [("gpt", RateNanos.mk 2500 10000 250 0)]) [] [] 2.

Lemma derived_spend_exact_and_monotone_witness :
  derive_spend_cents demo_card [("gpt", TierTokens.mk 1000000 200000 0 0); ("old", TierTokens.mk 5 5 5 5)] 3 true = 456 /\
  0 <= derive_spend_cents demo_card [("gpt", TierTokens.mk 1000000 200000 0 0); ("old", TierTokens.mk 5 5 5 5)] 3 true.
Proof.
  set (ms := [("gpt", TierTokens.mk 1000000 200000 0 0); ("old", TierTokens.mk 5 5 5 5)]).
  assert (Forall (model_ok demo_card) ms) as Hok.
  { unfold ms. apply Forall_cons_2; [|apply Forall_cons_2; [|apply Forall_nil_2]].
    - split; [unfold tokens_ok; simpl; mach_lia|]. intros r [= <-]. unfold rate_ok. simpl. lia.
    - split; [unfold tokens_ok; simpl; mach_lia|]. intros r E. vm_compute in E. discriminate. }
  destruct (derived_spend_exact_and_monotone demo_card ms ms 3 3 Hok Hok) as [_ [H _]].
  - simpl. mach_lia.
  - lia.
  - apply Forall2_cons_2; [|apply Forall2_cons_2; [|apply Forall2_nil_2]];
      (split; [reflexivity|unfold tokens_le; simpl; lia]).
  - split; [vm_compute; reflexivity|exact H].
Defined.

(** A group enforces its strictest limit in every scope: for each metric, window and pool scope,
    the cap of the projected bucket is the smallest amount configured there, present exactly when
    one is configured; the in-flight cap is the smallest [concurrent] amount; and scopes of groups
    whose names hold no separator never share a ledger row. *)
Theorem projection_keeps_strictest_limit names name g m w pool :
  m <> Concurrent ->
  let r := project_group names (name, g) in
  match cap_at m w pool (GroupRuntime.buckets r) with
  | None => amounts m w pool (GroupCfg.limits g) = []
  | Some v => v ∈ amounts m w pool (GroupCfg.limits g) /\
              Forall (fun y => v <= y) (amounts m w pool (GroupCfg.limits g))
  end /\
  GroupRuntime.concurrent_cap r =
    strictest (LimitCfg.amount <$> List.filter (fun l => bool_decide (LimitCfg.metric l = Concurrent))
      (GroupCfg.limits g)) /\
  (forall n1 w1 p1 n2 w2 p2, has_char "@"%char n1 = false -> has_char "@"%char n2 = false ->
     w1 ∈ window_words -> w2 ∈ window_words ->
     bucket_id_for n1 w1 p1 = bucket_id_for n2 w2 p2 -> n1 = n2 /\ w1 = w2 /\ p1 = p2).
Proof.
  intros Hm r. assert (GroupRuntime.buckets r = (foldl (project_limit name) ([], None) (GroupCfg.limits g)).1 /\
    GroupRuntime.concurrent_cap r = (foldl (project_limit name) ([], None) (GroupCfg.limits g)).2) as [-> ->]
    by (unfold r, project_group; by destruct (foldl _ _ _)).
  rewrite project_limits_cap, project_limits_concurrent by done. simpl.
  split; [apply strictest_spec|]. split; [done|]. apply bucket_id_inj.
Qed.

Definition demo_group : GroupCfg.t :=
  GroupCfg.mk None true
    [LimitCfg.mk Requests 50 (Some Minute) None None None; LimitCfg.mk Requests 20 (Some Minute) None None None;
     LimitCfg.mk Budget 500 (Some Month) (Some "frontier") None None; LimitCfg.mk Concurrent 5 None None None None] None.

Lemma projection_keeps_strictest_limit_witness :
  cap_at Requests WINDOW_MINUTE None (GroupRuntime.buckets (project_group ["g"] ("g", demo_group))) = Some 20 /\
  20 ∈ amounts Requests WINDOW_MINUTE None (GroupCfg.limits demo_group).
Proof.
  assert (Requests <> Concurrent) as Hm by discriminate.
  destruct (projection_keeps_strictest_limit ["g"] "g" demo_group Requests WINDOW_MINUTE None Hm) as [H _].
  assert (cap_at Requests WINDOW_MINUTE None (GroupRuntime.buckets (project_group ["g"] ("g", demo_group))) = Some 20) as E
    by reflexivity.
  rewrite E in H. split; [exact E|]. exact (proj1 H).
Defined.

(** Enforcement reaches every ancestor: under a validated groups tree, a key bound to a group is
    enforced against its own bucket and the buckets of every group from there to the root, each
    once and in order; a key without a group only against its own; a key bound to an unknown group
    is refused.  The validator itself always terminates, and the chain resolution never panics,
    even on a tree that was not validated. *)
Theorem chain_reaches_every_ancestor cfg pe rates fee key :
  NoDup cfg.*1 ->
  let c := resolve_parts rates fee cfg in
  is_Some (validate_groups cfg pe) /\ is_Some (chain_for c key) /\
  (VirtualKey.group key = None -> chain_for c key = Some (inr (Chain.mk [key_bucket key] []))) /\
  (forall n, VirtualKey.group key = Some n -> assoc n cfg = None -> chain_for c key = Some (inl n)) /\
  (forall n, VirtualKey.group key = Some n -> is_Some (assoc n cfg) -> validate_groups cfg pe = Some [] ->
     exists path idxs, AncestorPath cfg n path /\ NoDup path /\
       mapM (fun n => index_of n cfg.*1) path = Some idxs /\
       chain_for c key = Some (inr (Chain.mk (key_bucket key :: path_buckets cfg path) idxs))).
Proof.
  intros Hnd c. assert (length (groups c) = length cfg) as Hlen by apply length_fmap.
  split; [|split; [|split; [|split]]].
  - unfold validate_groups. destruct (mapM (group_errors cfg pe) cfg) as [es|] eqn:E; [by eexists|].
    apply mapM_None, Exists_exists in E as (ng & _ & E). destruct (group_errors_total cfg pe ng) as [? E']. congruence.
  - unfold chain_for. destruct (VirtualKey.group key) as [n|].
    + simpl. destruct (index_of n cfg.*1) as [i|] eqn:Ei; [|by eexists]. apply index_of_lt in Ei. rewrite length_fmap in Ei.
      destruct (chain_walk_total cfg (length (project_groups cfg)) (Some i) [key_bucket key] [] Ei) as (? & ? & -> & _).
      by eexists.
    + by destruct (length (groups c)); eexists.
  - intros Hg. unfold chain_for. rewrite Hg. by destruct (length (groups c)).
  - intros n Hg Ha. unfold chain_for. rewrite Hg. simpl. pose proof (index_of_assoc n cfg) as Hi.
    rewrite Ha in Hi. by rewrite Hi.
  - intros n Hg [g Ha] Hv. destruct (validated_group cfg pe n g Hnd Hv Ha) as [_ Hc].
    destruct (parent_cycle_path cfg (S (length cfg)) [n] n g Ha) as (rest & HP & HN); [by apply list_elem_of_singleton| | |done|].
    { apply NoDup_singleton. }
    { intros m gm p Hm Hp. by destruct (validated_group cfg pe m gm Hnd Hv Hm) as [Hex _]; apply Hex. }
    destruct (chain_walk_path cfg n (n :: rest) (length cfg) [key_bucket key] [] HP) as (i & idxs & Hi & HM & HW);
      [by eapply path_length|].
    exists (n :: rest), idxs. split; [done|]. split; [done|]. split; [done|].
    unfold chain_for. rewrite Hg. simpl group_idx. rewrite Hi, Hlen. unfold c. simpl groups. by rewrite HW.
Qed.

Definition demo_cfg : list (string * GroupCfg.t) :=
  [("org", GroupCfg.mk None true [LimitCfg.mk Requests 3 (Some Day) None None None] None);
   ("team", GroupCfg.mk (Some "org") true [LimitCfg.mk Concurrent 2 None None None None; LimitCfg.mk Requests 2 (Some Minute) None None None] None)].
Definition demo_key : VirtualKey.t := VirtualKey.mk "vk_1" "h" "n" None true 0 (Some "team") [].

Lemma chain_reaches_every_ancestor_witness :
  exists path idxs, AncestorPath demo_cfg "team" path /\ NoDup path /\
    mapM (fun n => index_of n demo_cfg.*1) path = Some idxs /\
    chain_for (resolve_parts None 0 demo_cfg) demo_key =
      Some (inr (Chain.mk (key_bucket demo_key :: path_buckets demo_cfg path) idxs)).
Proof.
  assert (NoDup demo_cfg.*1) as Hnd by (apply (bool_decide_unpack _); vm_compute; exact I).
  destruct (chain_reaches_every_ancestor demo_cfg (fun _ => true) None 0 demo_key Hnd) as (_ & _ & _ & _ & H).
  apply H; [reflexivity| |vm_compute; reflexivity]. eexists. vm_compute. reflexivity.
Defined.
