(* ===== verification/LedgerFacts.v ===== *)
(** * Admission: all-or-nothing charges, hard request caps, balanced in-flight gauges *)
From stdpp Require Import base gmap list strings.
From Stdlib Require Import ZArith Lia.
From S2P Require Import Prelude Cell BreakerConfig Swrr Store Windows Cost CostFacts Ledger.
Import GovState.
Open Scope Z_scope.
Open Scope rust_scope.

(** ** Gauges *)
Definition holds (held : list string) (g : string) : Z := Z.of_nat (length (filter (fun h => h = g) held)).

Lemma holds_app l1 l2 g : holds (l1 ++ l2) g = holds l1 g + holds l2 g.
Proof. unfold holds. rewrite filter_app, length_app. lia. Qed.

Lemma holds_cons h l g : holds (h :: l) g = (if decide (h = g) then 1 else 0) + holds l g.
Proof. unfold holds. rewrite filter_cons. case_decide; simpl; lia. Qed.

Lemma holds_nonneg l g : 0 <= holds l g.
Proof. unfold holds. lia. Qed.

Lemma holds_not_in l g : g ∉ l -> holds l g = 0.
Proof.
  induction l as [|h l IH]; intros Hn; [done|]. rewrite holds_cons, decide_False.
  - rewrite IH; [done|]. intros Hin. apply Hn, elem_of_cons. by right.
  - intros ->. apply Hn, elem_of_cons. by left.
Qed.

Lemma gauge_insert s g v g' :
  gauge (set_concurrent (<[g := v]> (concurrent s)) s) g' = if decide (g = g') then v else gauge s g'.
Proof. unfold gauge. simpl. rewrite lookup_insert. by case_decide. Qed.

(** A group's gauge while its cap is [cap_of_group gs g]. *)
Definition group_cap (gs : list GroupRuntime.t) (i : nat) : option (string * Z) :=
  let? g := gs !! i in
  let? cap := GroupRuntime.concurrent_cap g in Some (GroupRuntime.name g, i64_try_from cap).

Definition gauges_ok (s : GovState.t) : Prop := forall g, 0 <= gauge s g <= I64_MAX.

Lemma i64_try_from_max v : i64_try_from v <= I64_MAX.
Proof. unfold i64_try_from. destruct (Z.leb_spec v I64_MAX); lia. Qed.

(** The effect of taking the in-flight holds of the groups [idxs]: [new] lists the groups held, and
    [full] the group that had no room, if any. *)
Record taken (gs : list GroupRuntime.t) (idxs : list nat) (s s1 : GovState.t) (new : list string)
    (full : option string) : Prop := {
  tk_ok : gauges_ok s1;
  tk_budget : budget s1 = budget s;
  tk_ticker : sweep_ticker s1 = sweep_ticker s;
  tk_gauge : forall g, gauge s1 g = gauge s g + holds new g;
  tk_cap : Forall (fun g => exists i cap, i ∈ idxs /\ group_cap gs i = Some (g, cap) /\ gauge s1 g <= cap) new;
  tk_full : match full with
            | None => new = omap (fun i => fst <$> group_cap gs i) idxs
            | Some g => exists pre i post cap, idxs = pre ++ i :: post /\ new = omap (fun i => fst <$> group_cap gs i) pre /\
                          group_cap gs i = Some (g, cap) /\ cap <= gauge s1 g
            end }.

Lemma taken_weaken gs i idxs s s1 new full :
  taken gs idxs s s1 new full -> group_cap gs i = None -> taken gs (i :: idxs) s s1 new full.
Proof.
  intros [Hok Hb Ht Hg HF Hfull] Hi. split; try done.
  - eapply Forall_impl; [exact HF|]. intros x (j & c & Hj & Hc). exists j, c. split; [apply elem_of_cons; by right|done].
  - destruct full as [fg|]; [|simpl; by rewrite Hi].
    destruct Hfull as (pre & j & post & c & -> & -> & Hc). exists (i :: pre), j, post, c. simpl. by rewrite Hi.
Qed.

Lemma taken_cons gs i idxs s s1 name cap new full :
  group_cap gs i = Some (name, cap) -> gauge s name < cap ->
  taken gs idxs (set_concurrent (<[name := gauge s name + 1]> (concurrent s)) s) s1 new full ->
  taken gs (i :: idxs) s s1 (name :: new) full.
Proof.
  intros Hi Hlt [Hok Hb Ht Hg HF Hfull].
  assert (Forall (fun g => exists i0 c, i0 ∈ i :: idxs /\ group_cap gs i0 = Some (g, c) /\ gauge s1 g <= c) new) as HF'.
  { eapply Forall_impl; [exact HF|]. intros x (j & c & Hj & Hc). exists j, c. split; [apply elem_of_cons; by right|done]. }
  split; try done.
  - intros g'. rewrite Hg, holds_cons, gauge_insert. case_decide; subst; lia.
  - constructor; [|exact HF']. destruct (decide (name ∈ new)) as [Hin|Hnin].
    + rewrite Forall_forall in HF'. by apply HF'.
    + exists i, cap. split; [apply elem_of_cons; by left|]. split; [done|].
      rewrite Hg, gauge_insert, decide_True by done. rewrite (holds_not_in new name Hnin). lia.
  - destruct full as [fg|]; [|simpl; rewrite Hi; simpl; by rewrite Hfull].
    destruct Hfull as (pre & j & post & c & -> & -> & Hc). exists (i :: pre), j, post, c. simpl. by rewrite Hi.
Qed.

Lemma taken_full gs i idxs s name cap :
  gauges_ok s -> group_cap gs i = Some (name, cap) -> cap <= gauge s name ->
  taken gs (i :: idxs) s (set_concurrent (<[name := gauge s name]> (concurrent s)) s) [] (Some name).
Proof.
  intros Hok Hi Hge.
  assert (forall g', gauge (set_concurrent (<[name := gauge s name]> (concurrent s)) s) g' = gauge s g') as Hsame.
  { intros g'. rewrite gauge_insert. by case_decide; subst. }
  split; try done.
  - intros g'. rewrite Hsame. apply Hok.
  - intros g'. rewrite Hsame. unfold holds. simpl. lia.
  - exists [], i, idxs, cap. by rewrite Hsame.
Qed.

Lemma take_gauges_spec gs idxs s held s1 held1 full :
  gauges_ok s -> take_gauges gs idxs s held = Some (s1, held1, full) ->
  exists new, held1 = held ++ new /\ taken gs idxs s s1 new full.
Proof.
  revert s held. induction idxs as [|i idxs IH]; intros s held Hok; simpl.
  { intros [= <- <- <-]. exists []. rewrite app_nil_r. split; [done|]. split; try done.
    intros g. unfold holds. simpl. lia. }
  destruct (gs !! i) as [g|] eqn:Hg; [|done].
  destruct (GroupRuntime.concurrent_cap g) as [cap|] eqn:Ec.
  - assert (group_cap gs i = Some (GroupRuntime.name g, i64_try_from cap)) as Hcap
      by (unfold group_cap; by rewrite Hg, Ec).
    destruct (Z.ltb_spec (gauge s (GroupRuntime.name g)) (i64_try_from cap)) as [Hlt|Hge].
    + intros Ht. pose proof (i64_try_from_max cap). pose proof (Hok (GroupRuntime.name g)).
      apply IH in Ht as (new & -> & Htk).
      * exists (GroupRuntime.name g :: new). rewrite <- app_assoc. split; [done|]. by eapply taken_cons.
      * intros g'. rewrite gauge_insert. case_decide; [lia|apply Hok].
    + intros [= <- <- <-]. exists []. rewrite app_nil_r. split; [done|]. by eapply taken_full.
  - intros Ht. apply IH in Ht as (new & -> & Htk); [|done]. exists new. split; [done|].
    apply taken_weaken; [done|]. unfold group_cap. by rewrite Hg, Ec.
Qed.

Lemma release_gauges_spec held s :
  gauges_ok s -> (forall g, holds held g <= gauge s g) ->
  budget (release_gauges held s) = budget s /\ gauges_ok (release_gauges held s) /\
  forall g, gauge (release_gauges held s) g = gauge s g - holds held g.
Proof.
  unfold release_gauges. revert s. induction held as [|h held IH]; intros s Hok Hle; simpl foldl.
  - split; [done|]. split; [done|]. intros g. unfold holds. simpl. lia.
  - set (s1 := set_concurrent (<[h := wrap_i64 (gauge s h - 1)]> (concurrent s)) s).
    assert (forall g, gauge s1 g = gauge s g - (if decide (h = g) then 1 else 0)) as Hg.
    { intros g. unfold s1. rewrite gauge_insert. case_decide; [subst|lia].
      pose proof (Hok g). pose proof (Hle g) as H1. rewrite holds_cons, decide_True in H1 by done.
      pose proof (holds_nonneg held g). apply wrap_i64_id. mach_lia. }
    destruct (IH s1) as (Hb & Hok' & Hg').
    + intros g. rewrite Hg. pose proof (Hok g). pose proof (Hle g) as H1. rewrite holds_cons in H1.
      pose proof (holds_nonneg held g). case_decide; lia.
    + intros g. rewrite Hg. specialize (Hle g). rewrite holds_cons in Hle. case_decide; lia.
    + split; [done|]. split; [done|]. intros g. rewrite Hg', Hg, holds_cons. lia.
Qed.

(** ** Locking and sweeping *)
Lemma lock_shard_spec interval now s sh :
  concurrent (lock_shard interval now s sh) = concurrent s /\
  (forall id c, budget (lock_shard interval now s sh) !! id = Some c -> budget s !! id = Some c) /\
  (forall id c, budget s !! id = Some c -> keep_cell now c = true ->
     budget (lock_shard interval now s sh) !! id = Some c).
Proof.
  unfold lock_shard. destruct (is_multiple_of _ _); [|done]. simpl. split; [done|]. split.
  - intros id c H. by apply map_lookup_filter_Some in H as [H _].
  - intros id c H Hk. apply map_lookup_filter_Some. split; [done|]. by right.
Qed.

Lemma lock_shards_spec interval now order s :
  let s' := foldl (lock_shard interval now) s order in
  concurrent s' = concurrent s /\
  (forall id c, budget s' !! id = Some c -> budget s !! id = Some c) /\
  (forall id c, budget s !! id = Some c -> keep_cell now c = true -> budget s' !! id = Some c).
Proof.
  revert s. induction order as [|sh order IH]; intros s; simpl; [done|].
  destruct (lock_shard_spec interval now s sh) as (H1 & H2 & H3).
  destruct (IH (lock_shard interval now s sh)) as (I1 & I2 & I3). split; [congruence|]. split; eauto.
Qed.

(** The shards are locked in strictly ascending order, and every bucket's shard is locked. *)
Inductive ascending : list Z -> Prop :=
| asc_nil : ascending []
| asc_cons x l : Forall (fun y => x < y) l -> ascending l -> ascending (x :: l).

Lemma insert_shard_elem x l y : y ∈ insert_shard x l <-> y = x \/ y ∈ l.
Proof.
  induction l as [|z l IH]; simpl; [by rewrite list_elem_of_singleton, elem_of_nil; tauto|].
  destruct (Z.ltb_spec x z); [by rewrite !elem_of_cons|].
  destruct (Z.eqb_spec x z) as [->|]; rewrite !elem_of_cons; [tauto|]. rewrite IH. tauto.
Qed.

Lemma insert_shard_ascending x l : ascending l -> ascending (insert_shard x l).
Proof.
  induction 1 as [|z l HF Hasc IH]; simpl; [by repeat constructor|].
  destruct (Z.ltb_spec x z).
  - constructor; [|by constructor]. constructor; [done|]. eapply Forall_impl; [exact HF|]. simpl. lia.
  - destruct (Z.eqb_spec x z); [by constructor|]. constructor; [|done].
    apply Forall_forall. intros y [->|Hy]%insert_shard_elem; [lia|]. rewrite Forall_forall in HF. by apply HF.
Qed.

Lemma lock_order_spec shards :
  ascending (lock_order shards) /\ forall sh, sh ∈ lock_order shards <-> sh ∈ shards.
Proof.
  induction shards as [|x shards [IH1 IH2]]; simpl; [split; [constructor|done]|].
  split; [by apply insert_shard_ascending|]. intros sh. rewrite insert_shard_elem, IH2, elem_of_cons. done.
Qed.

(** ** Checks *)
Definition clear_of (cost : CostModel.t) (s : GovState.t) (now : Z) (b : ChainBucket.t) : Prop :=
  blocked_metric cost s b now = None.

(** A rejection names a limit of the bucket that is really used up. *)
Definition exhausted (cost : CostModel.t) (s : GovState.t) (now : Z) (b : ChainBucket.t) (metric : string) : Prop :=
  let '(requests, tokens, derived) := bucket_usage cost s b now in
  (metric = "requests" /\ exists cap, ChainBucket.requests_cap b = Some cap /\ cap < sat_add_u64 requests 1) \/
  (metric = "tokens" /\ exists cap, ChainBucket.tokens_cap b = Some cap /\ cap <= tokens) \/
  (metric = "budget" /\ exists cap, ChainBucket.budget_cap b = Some cap /\
     (cap <= derived \/ cap < sat_add_i64 derived (CostModel.price_per_request_cents cost))).

Lemma blocked_metric_exhausted cost s b now metric :
  blocked_metric cost s b now = Some metric -> exhausted cost s now b metric.
Proof.
  unfold blocked_metric, exhausted. destruct (bucket_usage cost s b now) as [[r k] d].
  unfold over.
  destruct (ChainBucket.requests_cap b) as [c1|]; destruct (ChainBucket.tokens_cap b) as [c2|];
    destruct (ChainBucket.budget_cap b) as [c3|];
    repeat match goal with |- context [if ?x then _ else _] => destruct x eqn:? end;
    intros [= <-]; simpl_bool;
    repeat match goal with H : (_ || _)%bool = true |- _ => apply orb_true_iff in H as [H|H] end; simpl_bool;
    first [left; split; [done|]; eexists; split; [done|]; lia
          |right; left; split; [done|]; eexists; split; [done|]; lia
          |right; right; split; [done|]; eexists; split; [done|]; lia].
Qed.

Lemma clear_not_exhausted cost s b now metric : clear_of cost s now b -> ~ exhausted cost s now b metric.
Proof.
  unfold clear_of, blocked_metric, exhausted. destruct (bucket_usage cost s b now) as [[r k] d]. unfold over.
  destruct (ChainBucket.requests_cap b) as [c1|]; destruct (ChainBucket.tokens_cap b) as [c2|];
    destruct (ChainBucket.budget_cap b) as [c3|];
    repeat match goal with |- context [if ?x then _ else _] => destruct x eqn:? end; try done; simpl_bool;
    repeat match goal with H : (_ || _)%bool = false |- _ => apply orb_false_iff in H as [? ?] end; simpl_bool;
    intros _ [(_ & c & [= <-] & ?)|[(_ & c & [= <-] & ?)|(_ & c & [= <-] & ?)]]; lia.
Qed.

Lemma blocked_capped cost s b now metric : blocked_metric cost s b now = Some metric -> capped b = true.
Proof.
  unfold blocked_metric, over, capped. destruct (bucket_usage cost s b now) as [[r k] d].
  destruct (ChainBucket.requests_cap b), (ChainBucket.tokens_cap b), (ChainBucket.budget_cap b); done.
Qed.

Definition rejection (now : Z) (b : ChainBucket.t) (group metric : string) : LimitBlocked :=
  Limit group metric (Some (ChainBucket.window b)) (ChainBucket.pool b)
    (if String.eqb metric "budget" then ChainBucket.downgrade_to b else None)
    (match window_end (ChainBucket.window b) now with
     | Some e => Some (Z.max (sat_sub_u64 e now) 1) | None => None end).

Definition refused_by (cost : CostModel.t) (s : GovState.t) (now : Z) (bs : list ChainBucket.t) (e : LimitBlocked) : Prop :=
  exists b group metric, b ∈ bs /\ ChainBucket.group_name b = Some group /\
    exhausted cost s now b metric /\ e = rejection now b group metric.

Lemma check_buckets_spec cost s now bs r :
  check_buckets cost s now bs = Some r ->
  match r with
  | None => Forall (clear_of cost s now) bs
  | Some e => refused_by cost s now bs e
  end.
Proof.
  induction bs as [|b bs IH]; simpl; [by intros [= <-]; constructor|].
  assert (check_buckets cost s now bs = Some r -> clear_of cost s now b ->
    match r with None => Forall (clear_of cost s now) (b :: bs) | Some e => refused_by cost s now (b :: bs) e end) as Hstep.
  { intros Hr Hc. specialize (IH Hr). destruct r as [e|]; [|by constructor].
    destruct IH as (b' & g & m & Hin & Hrest). exists b', g, m. split; [apply elem_of_cons; by right|done]. }
  destruct (blocked_metric cost s b now) as [metric|] eqn:Eb.
  - rewrite (blocked_capped _ _ _ _ _ Eb). simpl.
    destruct (ChainBucket.group_name b) as [group|] eqn:Eg; [|done]. intros [= <-].
    exists b, group, metric. split; [apply elem_of_cons; by left|]. split; [done|].
    split; [by apply blocked_metric_exhausted|done].
  - destruct (negb (capped b)); intros Hr; by apply Hstep.
Qed.

Lemma check_buckets_total cost s now bs :
  Forall (fun b => capped b = true -> is_Some (ChainBucket.group_name b)) bs ->
  is_Some (check_buckets cost s now bs).
Proof.
  induction 1 as [|b bs Hb HF IH]; simpl; [by eexists|].
  destruct (capped b); simpl; [|done]. destruct (blocked_metric cost s b now); [|done].
  destruct (Hb eq_refl) as [g ->]. by eexists.
Qed.

(** ** Charges *)
Lemma charge_bucket_lookup now s b id :
  budget (charge_bucket now s b) !! id =
    if decide (ChainBucket.bucket_id b = id)
    then Some (BudgetCell.charge (resolve_cell (budget_window (ChainBucket.window b) now) (budget s !! id)))
    else budget s !! id.
Proof. unfold charge_bucket. simpl. rewrite lookup_insert. by case_decide; subst. Qed.

Lemma charge_all_concurrent now bs s : concurrent (foldl (charge_bucket now) s bs) = concurrent s.
Proof. revert s. induction bs as [|b bs IH]; intros s; simpl; [done|]. by rewrite IH. Qed.

Lemma charge_all_lookup now bs s :
  NoDup (ChainBucket.bucket_id <$> bs) ->
  let s' := foldl (charge_bucket now) s bs in
  concurrent s' = concurrent s /\
  (forall b, b ∈ bs -> budget s' !! ChainBucket.bucket_id b =
     Some (BudgetCell.charge (resolve_cell (budget_window (ChainBucket.window b) now)
             (budget s !! ChainBucket.bucket_id b)))) /\
  (forall id, id ∉ ChainBucket.bucket_id <$> bs -> budget s' !! id = budget s !! id).
Proof.
  revert s. induction bs as [|b bs IH]; intros s Hnd; simpl.
  - split; [done|]. split; [intros b Hb; by apply not_elem_of_nil in Hb|done].
  - csimpl in Hnd. apply NoDup_cons in Hnd as [Hb Hnd].
    destruct (IH (charge_bucket now s b) Hnd) as (I1 & I2 & I3). split; [exact I1|]. split.
    + intros b' [->|Hin]%elem_of_cons.
      * rewrite I3, charge_bucket_lookup, decide_True by done. done.
      * rewrite I2, charge_bucket_lookup, decide_False by
          (try done; intros E; apply Hb; rewrite E; apply list_elem_of_fmap; by exists b'). done.
    + intros id [Hne Hn]%not_elem_of_cons. rewrite I3, charge_bucket_lookup, decide_False by (done || congruence). done.
Qed.

(** The charges in general: a row gets one charge for every bucket that has its id, in order, each resolved
    to the window of its bucket. *)
Lemma charge_all_each now bs s id :
  budget (foldl (charge_bucket now) s bs) !! id =
    foldl (fun c b => Some (BudgetCell.charge (resolve_cell (budget_window (ChainBucket.window b) now) c)))
      (budget s !! id) (filter (fun b => ChainBucket.bucket_id b = id) bs).
Proof.
  revert s. induction bs as [|b bs IH]; intros s; simpl; [done|].
  rewrite IH, filter_cons, charge_bucket_lookup. by case_decide.
Qed.

(** ** Chains of a resolved model *)
Lemma chain_for_total cfg rates fee key : is_Some (chain_for (resolve_parts rates fee cfg) key).
Proof.
  unfold chain_for. destruct (VirtualKey.group key) as [n|].
  - simpl. destruct (index_of n cfg.*1) as [i|] eqn:Ei; [|by eexists]. apply index_of_lt in Ei. rewrite length_fmap in Ei.
    destruct (chain_walk_total cfg (length (project_groups cfg)) (Some i) [key_bucket key] [] Ei) as (? & ? & -> & _).
    by eexists.
  - simpl. by destruct (length (project_groups cfg)); eexists.
Qed.

Lemma chain_for_missing rates fee cfg key n :
  chain_for (resolve_parts rates fee cfg) key = Some (inl n) -> VirtualKey.group key = Some n /\ assoc n cfg = None.
Proof.
  unfold chain_for. destruct (VirtualKey.group key) as [m|]; [|simpl; by destruct (chain_walk _ _ _ _ _)].
  simpl. pose proof (index_of_assoc m cfg) as Hi. destruct (assoc m cfg) as [g|] eqn:Ha.
  - destruct Hi as (i & -> & _). by destruct (chain_walk _ _ _ _ _).
  - rewrite Hi. by intros [= ->].
Qed.

Definition chain_ok (cost : CostModel.t) (ch : Chain.t) : Prop :=
  Forall (fun i => is_Some (CostModel.groups cost !! i)) (Chain.groups ch) /\
  Forall (fun b => capped b = true -> is_Some (ChainBucket.group_name b)) (Chain.buckets ch).

Lemma chain_walk_ok gs fuel next bs walked ch :
  chain_walk gs fuel next bs walked = Some ch ->
  Forall (fun i => is_Some (gs !! i)) walked ->
  Forall (fun b => capped b = true -> is_Some (ChainBucket.group_name b)) bs ->
  Forall (fun i => is_Some (gs !! i)) (Chain.groups ch) /\
  Forall (fun b => capped b = true -> is_Some (ChainBucket.group_name b)) (Chain.buckets ch).
Proof.
  revert next bs walked. induction fuel as [|fuel IH]; intros [i|] bs walked; simpl;
    try (by intros [= <-]).
  destruct (gs !! i) as [g|] eqn:Eg; [|done]. intros Hc Hw Hb. apply (IH _ _ _ Hc).
  - apply Forall_app_2; [done|]. constructor; [by rewrite Eg|constructor].
  - apply Forall_app_2; [done|]. apply Forall_fmap, Forall_forall. intros b _ _. by eexists.
Qed.

Lemma chain_for_ok cost key ch : chain_for cost key = Some (inr ch) -> chain_ok cost ch.
Proof.
  unfold chain_for, chain_ok.
  assert (forall next, inr <$> chain_walk (CostModel.groups cost) (length (CostModel.groups cost)) next [key_bucket key] [] = Some (inr ch : string + Chain.t) ->
    Forall (fun i => is_Some (CostModel.groups cost !! i)) (Chain.groups ch) /\
    Forall (fun b => capped b = true -> is_Some (ChainBucket.group_name b)) (Chain.buckets ch)) as Hw.
  { intros next. destruct (chain_walk _ _ _ _ _) as [ch'|] eqn:E; [|done]. simpl. intros [= ->].
    eapply chain_walk_ok; [exact E|constructor|]. constructor; [done|constructor]. }
  destruct (VirtualKey.group key); [|apply Hw]. destruct (index_of _ _); [apply Hw|done].
Qed.

Lemma frozen_group_total gs idxs :
  Forall (fun i => is_Some (gs !! i)) idxs -> is_Some (frozen_group gs idxs).
Proof.
  induction 1 as [|i idxs [g Hg] HF IH]; simpl; [by eexists|]. rewrite Hg. destruct (GroupRuntime.enabled g); simpl; [done|by eexists].
Qed.

Lemma take_gauges_total gs idxs s held :
  Forall (fun i => is_Some (gs !! i)) idxs -> is_Some (take_gauges gs idxs s held).
Proof.
  intros HF. revert s held. induction HF as [|i idxs [g Hg] HF IH]; intros s held; simpl; [by eexists|].
  rewrite Hg. destruct (GroupRuntime.concurrent_cap g); [|apply IH]. destruct (_ <? _); [apply IH|by eexists].
Qed.

Lemma try_admit_total interval cost s key pool now :
  is_Some (chain_for cost key) -> is_Some (try_admit interval cost s key pool now).
Proof.
  intros [[m|ch] Hc]; unfold try_admit; rewrite Hc; [by eexists|].
  destruct (chain_for_ok _ _ _ Hc) as [Hg Hb].
  destruct (frozen_group_total _ _ Hg) as [[f|] ->]; [by eexists|].
  destruct (take_gauges_total _ _ s [] Hg) as [[[s1 held] [g|]] ->]; [by eexists|].
  destruct (check_buckets_total cost (foldl (lock_shard interval now) s1
    (lock_order ((fun b => shard_index (ChainBucket.bucket_id b)) <$>
       List.filter (ChainBucket.applies_to_pool pool) (Chain.buckets ch)))) now
    (List.filter (ChainBucket.applies_to_pool pool) (Chain.buckets ch))) as [[e|] ->]; [|by eexists|by eexists].
  rewrite Forall_forall in Hb. apply Forall_forall. intros b Hin. apply Hb.
  apply list_elem_of_In. apply list_elem_of_In in Hin. by apply List.filter_In in Hin as [? _].
Qed.

(** ** One admission, inverted *)
Definition swept (now : Z) (s s' : GovState.t) : Prop :=
  (forall id c, budget s' !! id = Some c -> budget s !! id = Some c) /\
  (forall id c, budget s !! id = Some c -> keep_cell now c = true -> budget s' !! id = Some c).

Definition applied (pool : string) (ch : Chain.t) : list ChainBucket.t :=
  List.filter (ChainBucket.applies_to_pool pool) (Chain.buckets ch).

Definition same_gauges (s s' : GovState.t) : Prop := forall g, gauge s' g = gauge s g.

Lemma swept_refl now s : swept now s s.
Proof. by split. Qed.

Lemma frozen_group_spec gs idxs r :
  frozen_group gs idxs = Some r ->
  match r with
  | None => Forall (fun i => exists g, gs !! i = Some g /\ GroupRuntime.enabled g = true) idxs
  | Some n => exists i g, i ∈ idxs /\ gs !! i = Some g /\ GroupRuntime.enabled g = false /\ GroupRuntime.name g = n
  end.
Proof.
  induction idxs as [|i idxs IH]; simpl; [by intros [= <-]; constructor|].
  destruct (gs !! i) as [g|] eqn:Eg; [|done]. destruct (GroupRuntime.enabled g) eqn:Ee; simpl.
  - intros Hr. specialize (IH Hr). destruct r as [n|].
    + destruct IH as (j & g' & Hj & Hrest). exists j, g'. split; [apply elem_of_cons; by right|done].
    + constructor; [by exists g|done].
  - intros [= <-]. exists i, g. split; [apply elem_of_cons; by left|done].
Qed.

(** Why a request was refused: a frozen group; a group whose gauge, with the holds just taken for the groups
    before it, is at its cap; or a used-up limit of a bucket. *)
Definition refusal (cost : CostModel.t) (s s' : GovState.t) (now : Z) (ch : Chain.t) (bs : list ChainBucket.t)
    (e : LimitBlocked) : Prop :=
  (exists i g, i ∈ Chain.groups ch /\ CostModel.groups cost !! i = Some g /\ GroupRuntime.enabled g = false /\
     e = Disabled (GroupRuntime.name g)) \/
  (exists pre i post g cap, Chain.groups ch = pre ++ i :: post /\ group_cap (CostModel.groups cost) i = Some (g, cap) /\
     cap <= gauge s g + holds (omap (fun i => fst <$> group_cap (CostModel.groups cost) i) pre) g /\ e = Limit g "concurrent" None None None None) \/
  refused_by cost s' now bs e.

Lemma try_admit_inv interval cost s key pool now s' r ch :
  gauges_ok s -> chain_for cost key = Some (inr ch) ->
  try_admit interval cost s key pool now = Some (s', r) ->
  match r with
  | inl e => same_gauges s s' /\ swept now s s' /\ refusal cost s s' now ch (applied pool ch) e
  | inr held =>
      Forall (fun i => exists g, CostModel.groups cost !! i = Some g /\ GroupRuntime.enabled g = true) (Chain.groups ch) /\
      held = omap (fun i => fst <$> group_cap (CostModel.groups cost) i) (Chain.groups ch) /\
      (forall g, gauge s' g = gauge s g + holds held g) /\ gauges_ok s' /\
      Forall (fun g => exists i cap, i ∈ Chain.groups ch /\ group_cap (CostModel.groups cost) i = Some (g, cap) /\
                gauge s' g <= cap) held /\
      exists sw, swept now s sw /\ Forall (clear_of cost sw now) (applied pool ch) /\
        s' = foldl (charge_bucket now) sw (applied pool ch)
  end.
Proof.
  intros Hok Hc Ht. unfold try_admit in Ht. rewrite Hc in Ht. fold (applied pool ch) in Ht.
  destruct (frozen_group _ _) as [[f|]|] eqn:Ef; [| |done]; apply frozen_group_spec in Ef.
  { injection Ht as <- <-. split; [by intros g|]. split; [apply swept_refl|]. left.
    destruct Ef as (i & g & Hi & Hg & He & <-). by exists i, g. }
  destruct (take_gauges _ _ s []) as [[[s1 held] full]|] eqn:Eg; [|done].
  destruct (take_gauges_spec _ _ _ _ _ _ _ Hok Eg) as (new & -> & [Hok1 Hb1 _ Hg1 HF Hfull]).
  simpl in Ht.
  assert (forall g, holds new g <= gauge s1 g) as Hle by (intros g; rewrite Hg1; pose proof (Hok g); lia).
  assert (forall sx, concurrent sx = concurrent s1 -> (forall g, gauge sx g = gauge s1 g)) as Hcc
    by (intros sx Hx g; unfold gauge; by rewrite Hx).
  destruct full as [fg|].
  { injection Ht as <- <-. destruct (release_gauges_spec new s1 Hok1 Hle) as (Hb & _ & Hg).
    split; [intros g; rewrite Hg, Hg1; lia|]. split; [unfold swept; by rewrite Hb, Hb1|]. right. left.
    destruct Hfull as (pre & i & post & cap & Hi & -> & Hcap & Hcl). exists pre, i, post, fg, cap. by rewrite Hg1 in Hcl. }
  set (order := lock_order _) in Ht. set (sw := foldl (lock_shard interval now) s1 order) in *.
  destruct (lock_shards_spec interval now order s1) as (Hc2 & Hd2 & Hk2). fold sw in Hc2, Hd2, Hk2.
  assert (swept now s sw) as Hsw by (unfold swept; by rewrite <- Hb1).
  destruct (check_buckets cost sw now (applied pool ch)) as [[e|]|] eqn:Ek; [| |done];
    apply check_buckets_spec in Ek; injection Ht as <- <-.
  - assert (gauges_ok sw) as Hoksw by (intros g; rewrite (Hcc sw Hc2); apply Hok1).
    destruct (release_gauges_spec new sw Hoksw) as (Hb & _ & Hg); [intros g; rewrite (Hcc sw Hc2); apply Hle|].
    split; [intros g; rewrite Hg, (Hcc sw Hc2), Hg1; lia|]. split; [unfold swept; by rewrite Hb|]. right. right.
    destruct Ek as (b & g & m & Hin & Hn & Hex & He). exists b, g, m. split; [done|]. split; [done|]. split; [|done].
    unfold exhausted, bucket_usage in *. by rewrite Hb.
  - assert (concurrent (foldl (charge_bucket now) sw (applied pool ch)) = concurrent sw) as Hcharge.
    { apply charge_all_concurrent. }
    set (s2 := foldl (charge_bucket now) sw (applied pool ch)) in *.
    assert (forall g, gauge s2 g = gauge s1 g) as Hg2 by (apply Hcc; by rewrite Hcharge, Hc2).
    split; [done|]. split; [done|]. split; [intros g; by rewrite Hg2, Hg1|].
    split; [intros g; rewrite Hg2; apply Hok1|]. split.
    { eapply Forall_impl; [exact HF|]. intros g (i & cap & Hi & Hcap & Hl). exists i, cap. by rewrite Hg2. }
    exists sw. by split.
Qed.
