(* ===== verification/LedgerProps.v ===== *)
(** * Theorems about admission: atomic charges, the hard request cap of a window, in-flight gauges *)
From stdpp Require Import base gmap list strings relations.
From Stdlib Require Import ZArith Lia.
From S2P Require Import Prelude Cell BreakerConfig Swrr Store Windows Cost CostFacts Ledger LedgerFacts.
Import GovState.
Open Scope Z_scope.
Open Scope rust_scope.

(** ** The span of a window *)
Lemma window_span period now :
  0 <= now <= U64_MAX - 62 * SECS_PER_DAY ->
  budget_window period now = 0 \/
  (budget_window period now <= now /\ now < budget_window period now + 31 * SECS_PER_DAY).
Proof.
  unfold U64_MAX, SECS_PER_DAY. intros Hn.
  destruct (String.eqb_spec period WINDOW_MONTH) as [->|Hm].
  - right. destruct (month_window now ltac:(unfold U64_MAX, SECS_PER_DAY; lia)) as (k & _ & Hk & Hin & -> & _).
    pose proof (month_length k Hk) as Hl.
    assert (days_in_month (civil_of_month k).1 (civil_of_month k).2 <= 31)
      by (unfold days_in_month; repeat case_match; lia). lia.
  - unfold budget_window, SECS_PER_DAY.
    pose proof (div_bounds now 60 ltac:(lia)). pose proof (div_bounds now 3600 ltac:(lia)).
    pose proof (div_bounds now 86400 ltac:(lia)).
    repeat match goal with |- context [String.eqb ?a ?b] => destruct (String.eqb_spec a b) end;
      try congruence; lia.
Qed.

Lemma current_cell_kept now period c :
  0 <= now <= U64_MAX - 62 * SECS_PER_DAY -> BudgetCell.window_start c = budget_window period now ->
  keep_cell now c = true.
Proof.
  intros Hn Hw. unfold keep_cell. rewrite Hw. apply orb_true_iff.
  destruct (window_span period now Hn) as [->|[H1 H2]]; [by left|]. right. apply Z.ltb_lt.
  unfold sat_add_u64, U64_MAX, SECS_PER_DAY in *. lia.
Qed.

(** ** Traces of governance operations *)
Inductive GovOp :=
| GAdmit (key : VirtualKey.t) (pool : string)
| GUsage (key : VirtualKey.t) (pool model : string) (tokens : TierTokens.t)
| GRefund (key : VirtualKey.t) (pool : string)
| GDrop (held : list string).

Definition op_key (op : GovOp) : option VirtualKey.t :=
  match op with GAdmit k _ | GUsage k _ _ _ | GRefund k _ => Some k | GDrop _ => None end.

(** One operation; the boolean says whether a request was admitted through bucket [b]. *)
Definition gov_exec (interval : Z) (cost : CostModel.t) (b : ChainBucket.t) (s : GovState.t) (op : GovOp) (now : Z)
    : option (GovState.t * bool) :=
  match op with
  | GAdmit key pool =>
      let? (s', r) := try_admit interval cost s key pool now in
      let? chain := chain_for cost key in
      Some (s', match r, chain with
                | inr _, inr ch => bool_decide (ChainBucket.bucket_id b ∈ ChainBucket.bucket_id <$> applied pool ch)
                | _, _ => false
                end)
  | GUsage key pool model tokens =>
      let? s' := record_usage cost s key pool model tokens now in Some (s', false)
  | GRefund key pool => let? s' := refund_request cost s key pool now in Some (s', false)
  | GDrop held => Some (release_gauges held s, false)
  end.

Fixpoint gov_run (interval : Z) (cost : CostModel.t) (b : ChainBucket.t) (s : GovState.t) (ops : list (GovOp * Z))
    : option (GovState.t * Z) :=
  match ops with
  | [] => Some (s, 0)
  | (op, now) :: ops =>
      let? (s, admitted) := gov_exec interval cost b s op now in
      let? (s, n) := gov_run interval cost b s ops in
      Some (s, (if admitted then 1 else 0) + n)
  end.

(** ** The request counter of one bucket in one window *)
Definition live (W : Z) (id : string) (s : GovState.t) : Z :=
  match budget s !! id with
  | Some c => if BudgetCell.window_start c =? W then BudgetCell.requests c else 0
  | None => 0
  end.

Definition cell_fits (W : Z) (c : BudgetCell.t) : Prop :=
  BudgetCell.window_start c <= W /\ is_u64 (BudgetCell.requests c).

Definition bucket_fits (W : Z) (id : string) (s : GovState.t) : Prop :=
  forall c, budget s !! id = Some c -> cell_fits W c.

Lemma swept_live now period W id s s' :
  0 <= now <= U64_MAX - 62 * SECS_PER_DAY -> budget_window period now = W -> swept now s s' ->
  live W id s' = live W id s /\ (bucket_fits W id s -> bucket_fits W id s').
Proof.
  intros Hn HW [Hsub Hkeep]. split; [|intros Hf c Hc; by apply Hf, Hsub].
  unfold live. destruct (budget s !! id) as [c|] eqn:E.
  - destruct (Z.eqb_spec (BudgetCell.window_start c) W) as [Hw|Hw].
    + rewrite (Hkeep id c E) by (apply (current_cell_kept now period c Hn); congruence). by rewrite Hw, Z.eqb_refl.
    + destruct (budget s' !! id) as [c'|] eqn:E'; [|done]. rewrite (Hsub _ _ E') in E. injection E as ->.
      by destruct (Z.eqb_spec (BudgetCell.window_start c) W).
  - destruct (budget s' !! id) as [c'|] eqn:E'; [|done]. by rewrite (Hsub _ _ E') in E.
Qed.

Lemma resolve_requests W id s :
  bucket_fits W id s ->
  BudgetCell.window_start (resolve_cell W (budget s !! id)) = W /\
  BudgetCell.requests (resolve_cell W (budget s !! id)) = live W id s /\ is_u64 (live W id s).
Proof.
  intros Hf. unfold resolve_cell, live. destruct (budget s !! id) as [c|] eqn:E; [|split; [done|split; [done|mach_lia]]].
  destruct (Hf c E) as [Hw Hr]. destruct (Z.ltb_spec (BudgetCell.window_start c) W) as [Hlt|Hge].
  - simpl. destruct (Z.eqb_spec (BudgetCell.window_start c) W); [lia|]. split; [done|]. split; [done|mach_lia].
  - assert (BudgetCell.window_start c = W) as -> by lia. rewrite Z.eqb_refl. done.
Qed.

(** A write that keeps a cell's window and requests is invisible to the counter. *)
Lemma write_same_live W id s c :
  BudgetCell.window_start c = W -> BudgetCell.requests c = live W id s -> is_u64 (live W id s) ->
  let s' := set_budget (<[id := c]> (budget s)) s in live W id s' = live W id s /\ bucket_fits W id s'.
Proof.
  intros Hw Hr Hu s'. assert (budget s' !! id = Some c) as E by (unfold s'; simpl; apply lookup_insert_eq). split.
  - unfold live at 1. by rewrite E, Hw, Z.eqb_refl.
  - intros c' Hc'. rewrite E in Hc'. injection Hc' as <-. split; [lia|]. by rewrite Hr.
Qed.

Lemma live_other W id s id' c :
  id' <> id ->
  live W id (set_budget (<[id' := c]> (budget s)) s) = live W id s /\
  (bucket_fits W id s -> bucket_fits W id (set_budget (<[id' := c]> (budget s)) s)).
Proof. intros Hne. unfold live, bucket_fits. simpl. by rewrite lookup_insert_ne by done. Qed.

Lemma accrue_live W b s bucket_id period model tokens now :
  bucket_fits W (ChainBucket.bucket_id b) s ->
  (bucket_id = ChainBucket.bucket_id b -> budget_window period now = W) ->
  let s' := accrue_bucket s bucket_id period model tokens now in
  live W (ChainBucket.bucket_id b) s' = live W (ChainBucket.bucket_id b) s /\ bucket_fits W (ChainBucket.bucket_id b) s'.
Proof.
  intros Hf Hw s'. unfold s', accrue_bucket. destruct (decide (bucket_id = ChainBucket.bucket_id b)) as [->|Hne].
  - rewrite (Hw eq_refl). destruct (resolve_requests W _ s Hf) as (H1 & H2 & H3). by apply write_same_live.
  - destruct (live_other W (ChainBucket.bucket_id b) s bucket_id (BudgetCell.set_dirty true
      (BudgetCell.accrue model tokens (resolve_cell (budget_window period now) (budget s !! bucket_id)))) Hne) as [H1 H2].
    split; [exact H1|by apply H2].
Qed.

Lemma refund_live W b s bucket_id period now :
  bucket_fits W (ChainBucket.bucket_id b) s ->
  let s' := refund_bucket s bucket_id period now in
  live W (ChainBucket.bucket_id b) s' = live W (ChainBucket.bucket_id b) s /\ bucket_fits W (ChainBucket.bucket_id b) s'.
Proof.
  intros Hf s'. unfold s', refund_bucket. destruct (budget s !! bucket_id) as [c|] eqn:E; [|done].
  destruct (_ =? _); [|done].
  destruct (decide (bucket_id = ChainBucket.bucket_id b)) as [->|Hne].
  - destruct (Hf c E) as [Hw Hr]. unfold live, bucket_fits. simpl. rewrite lookup_insert_eq, E. simpl.
    split; [done|]. intros c' [= <-]. done.
  - destruct (live_other W (ChainBucket.bucket_id b) s bucket_id (BudgetCell.refund c) Hne) as [H1 H2].
    split; [exact H1|by apply H2].
Qed.

(** ** What a key may not do: alias the bucket, or resolve to a chain that repeats an id *)
Definition key_scoped (cost : CostModel.t) (b : ChainBucket.t) (key : VirtualKey.t) : Prop :=
  VirtualKey.id key <> ChainBucket.bucket_id b /\
  match chain_for cost key with
  | None => False
  | Some (inl _) => True
  | Some (inr ch) =>
      NoDup (ChainBucket.bucket_id <$> Chain.buckets ch) /\
      Forall (fun b' => ChainBucket.bucket_id b' = ChainBucket.bucket_id b -> b' = b) (Chain.buckets ch)
  end.

Definition op_in_window (cost : CostModel.t) (b : ChainBucket.t) (W : Z) (on : GovOp * Z) : Prop :=
  0 <= on.2 <= U64_MAX - 62 * SECS_PER_DAY /\ budget_window (ChainBucket.window b) on.2 = W /\
  match op_key on.1 with Some key => key_scoped cost b key | None => True end.

Lemma filter_elem {A} (f : A -> bool) (l : list A) x : x ∈ List.filter f l -> x ∈ l.
Proof. rewrite !list_elem_of_In. by intros [? _]%List.filter_In. Qed.

Lemma NoDup_fmap_filter {A B} (g : A -> B) (f : A -> bool) (l : list A) : NoDup (g <$> l) -> NoDup (g <$> List.filter f l).
Proof.
  induction l as [|x l IH]; csimpl; [done|]. intros [Hx Hnd]%NoDup_cons.
  destruct (f x); csimpl; [|by apply IH]. apply NoDup_cons. split; [|by apply IH].
  intros (y & Hy & Hin)%list_elem_of_fmap. apply Hx, list_elem_of_fmap. exists y. split; [done|]. by eapply filter_elem.
Qed.

Lemma fold_live W b (f : GovState.t -> ChainBucket.t -> GovState.t) bs s :
  (forall s b', b' ∈ bs -> bucket_fits W (ChainBucket.bucket_id b) s ->
     live W (ChainBucket.bucket_id b) (f s b') = live W (ChainBucket.bucket_id b) s /\
     bucket_fits W (ChainBucket.bucket_id b) (f s b')) ->
  bucket_fits W (ChainBucket.bucket_id b) s ->
  live W (ChainBucket.bucket_id b) (foldl f s bs) = live W (ChainBucket.bucket_id b) s /\
  bucket_fits W (ChainBucket.bucket_id b) (foldl f s bs).
Proof.
  revert s. induction bs as [|b' bs IH]; intros s Hf Hfit; simpl; [done|].
  destruct (Hf s b') as [H1 H2]; [apply elem_of_cons; by left|done|].
  destruct (IH (f s b')) as [I1 I2]; [|done|split; [congruence|done]].
  intros s0 b0 Hb0. apply Hf, elem_of_cons. by right.
Qed.

(** ** The ledger effect of an admission, whatever the gauges hold *)
Lemma take_gauges_budget gs idxs s held s1 held1 full :
  take_gauges gs idxs s held = Some (s1, held1, full) -> budget s1 = budget s.
Proof.
  revert s held. induction idxs as [|i idxs IH]; intros s held; simpl; [by intros [= <- _ _]|].
  destruct (gs !! i) as [g|]; [|done]. destruct (GroupRuntime.concurrent_cap g); [|apply IH].
  destruct (_ <? _); [intros H; apply IH in H; exact H|by intros [= <- _ _]].
Qed.

Lemma release_gauges_budget held s : budget (release_gauges held s) = budget s.
Proof.
  unfold release_gauges. revert s. induction held as [|h held IH]; intros s; simpl; [done|]. by rewrite IH.
Qed.

Lemma try_admit_ledger interval cost s key pool now s' r ch :
  chain_for cost key = Some (inr ch) -> try_admit interval cost s key pool now = Some (s', r) ->
  match r with
  | inl _ => swept now s s'
  | inr _ => exists sw, swept now s sw /\ Forall (clear_of cost sw now) (applied pool ch) /\
               s' = foldl (charge_bucket now) sw (applied pool ch)
  end.
Proof.
  intros Hc Ht. unfold try_admit in Ht. rewrite Hc in Ht. fold (applied pool ch) in Ht.
  destruct (frozen_group _ _) as [[f|]|]; [injection Ht as <- <-; apply swept_refl| |done].
  destruct (take_gauges _ _ s []) as [[[s1 held] [fg|]]|] eqn:Eg; [| |done]; apply take_gauges_budget in Eg.
  { injection Ht as <- <-. unfold swept. by rewrite release_gauges_budget, Eg. }
  set (order := lock_order _) in Ht. set (sw := foldl (lock_shard interval now) s1 order) in *.
  destruct (lock_shards_spec interval now order s1) as (_ & Hd & Hk). fold sw in Hd, Hk.
  assert (swept now s sw) as Hsw by (unfold swept; by rewrite <- Eg).
  destruct (check_buckets cost sw now (applied pool ch)) as [[e|]|] eqn:Ek; [| |done];
    apply check_buckets_spec in Ek; injection Ht as <- <-.
  - unfold swept. by rewrite release_gauges_budget.
  - by exists sw.
Qed.

Lemma usage_live cost s now b W :
  budget_window (ChainBucket.window b) now = W -> bucket_fits W (ChainBucket.bucket_id b) s ->
  (bucket_usage cost s b now).1.1 = live W (ChainBucket.bucket_id b) s.
Proof.
  intros HW Hf. unfold bucket_usage, live. rewrite HW.
  destruct (budget s !! ChainBucket.bucket_id b) as [c|] eqn:E; [|done].
  destruct (Hf c E) as [Hw _]. destruct (Z.leb_spec W (BudgetCell.window_start c)) as [Hle|Hgt].
  - destruct (Z.eqb_spec (BudgetCell.window_start c) W); [done|lia].
  - destruct (Z.eqb_spec (BudgetCell.window_start c) W); [lia|done].
Qed.

Lemma clear_room cost s now b cap :
  clear_of cost s now b -> ChainBucket.requests_cap b = Some cap ->
  sat_add_u64 (bucket_usage cost s b now).1.1 1 <= cap.
Proof.
  unfold clear_of, blocked_metric. intros Hc Hcap. rewrite Hcap in Hc.
  destruct (bucket_usage cost s b now) as [[r k] d]. unfold over at 1 in Hc. simpl fst.
  destruct (Z.ltb_spec cap (sat_add_u64 r 1)) as [Hlt|Hle]; [discriminate Hc|exact Hle].
Qed.

Lemma room_arith l cap : sat_add_u64 l 1 <= cap -> is_u64 l -> cap < U64_MAX -> l + 1 <= cap.
Proof. mach_lia. Qed.

(** A bucket that passed its check has room for one more request. *)
Lemma clear_requests cost s now b cap W :
  clear_of cost s now b -> ChainBucket.requests_cap b = Some cap -> budget_window (ChainBucket.window b) now = W ->
  bucket_fits W (ChainBucket.bucket_id b) s -> cap < U64_MAX ->
  live W (ChainBucket.bucket_id b) s + 1 <= cap.
Proof.
  intros Hc Hcap HW Hf Hmax. pose proof (clear_room cost s now b cap Hc Hcap) as Hroom.
  rewrite (usage_live cost s now b W HW Hf) in Hroom.
  destruct (resolve_requests W _ s Hf) as (_ & _ & Hu). by apply room_arith.
Qed.

(** The outcome of one operation, as the bucket [b] of cap [cap] sees it in window [W]. *)
Definition counted (b : ChainBucket.t) (cap W : Z) (s : GovState.t) (r : option (GovState.t * bool)) : Prop :=
  exists s' a, r = Some (s', a) /\ bucket_fits W (ChainBucket.bucket_id b) s' /\
    live W (ChainBucket.bucket_id b) s' = live W (ChainBucket.bucket_id b) s + (if a then 1 else 0) /\
    (a = true -> live W (ChainBucket.bucket_id b) s' <= cap).

Lemma counted_quiet b cap W s s' :
  live W (ChainBucket.bucket_id b) s' = live W (ChainBucket.bucket_id b) s ->
  bucket_fits W (ChainBucket.bucket_id b) s' -> counted b cap W s (Some (s', false)).
Proof. intros Hl Hf. exists s', false. split; [done|]. split; [done|]. split; [lia|done]. Qed.

(** Charging the applicable buckets of a chain that had room, seen from one of them. *)
Lemma charge_all_counted cost b cap W now sw bs :
  ChainBucket.requests_cap b = Some cap -> cap < U64_MAX -> budget_window (ChainBucket.window b) now = W ->
  bucket_fits W (ChainBucket.bucket_id b) sw -> NoDup (ChainBucket.bucket_id <$> bs) ->
  Forall (clear_of cost sw now) bs -> b ∈ bs ->
  counted b cap W sw (Some (foldl (charge_bucket now) sw bs, true)).
Proof.
  intros Hcap Hmax HW HB Hnd Hclear Hb.
  destruct (charge_all_lookup now bs sw Hnd) as (_ & Hin & _). specialize (Hin b Hb). rewrite HW in Hin.
  rewrite Forall_forall in Hclear.
  pose proof (clear_requests cost sw now b cap W (Hclear b Hb) Hcap HW HB Hmax) as Hroom.
  destruct (resolve_requests W _ sw HB) as (R1 & R2 & R3).
  assert (BudgetCell.requests (BudgetCell.charge (resolve_cell W (budget sw !! ChainBucket.bucket_id b))) =
          live W (ChainBucket.bucket_id b) sw + 1) as Hreq.
  { simpl. rewrite R2. unfold sat_add_u64, is_u64, U64_MAX in *. lia. }
  assert (live W (ChainBucket.bucket_id b) (foldl (charge_bucket now) sw bs) =
          live W (ChainBucket.bucket_id b) sw + 1) as Hlive.
  { unfold live at 1. rewrite Hin. rewrite Hreq. simpl. by rewrite R1, Z.eqb_refl. }
  eexists _, _. split; [done|]. split; [|split; [done|intros _; lia]].
  intros c Hc. rewrite Hin in Hc. injection Hc as <-. split; [simpl; lia|]. rewrite Hreq. mach_lia.
Qed.

Lemma charge_all_elsewhere b cap W now sw bs :
  NoDup (ChainBucket.bucket_id <$> bs) -> bucket_fits W (ChainBucket.bucket_id b) sw ->
  ChainBucket.bucket_id b ∉ ChainBucket.bucket_id <$> bs ->
  counted b cap W sw (Some (foldl (charge_bucket now) sw bs, false)).
Proof.
  intros Hnd HB Hn. destruct (charge_all_lookup now bs sw Hnd) as (_ & _ & Hout). specialize (Hout _ Hn).
  apply counted_quiet; [unfold live; by rewrite Hout|]. intros c Hc. rewrite Hout in Hc. by apply HB.
Qed.

Lemma admit_counted interval cost b cap W s key pool now :
  ChainBucket.requests_cap b = Some cap -> cap < U64_MAX ->
  op_in_window cost b W (GAdmit key pool, now) -> bucket_fits W (ChainBucket.bucket_id b) s ->
  counted b cap W s (gov_exec interval cost b s (GAdmit key pool) now).
Proof.
  intros Hcap Hmax (Hn & HW & Hid & Hch) Hf. simpl in Hn, HW, Hid, Hch. unfold gov_exec.
  destruct (chain_for cost key) as [chain|] eqn:Ec; [|done].
  destruct (try_admit_total interval cost s key pool now) as [[s' r] Ht]; [by rewrite Ec|]. rewrite Ht.
  destruct chain as [m|ch].
  { unfold try_admit in Ht. rewrite Ec in Ht. injection Ht as <- <-. by apply counted_quiet. }
  destruct Hch as [Hnd HF]. pose proof (try_admit_ledger _ _ _ _ _ _ _ _ _ Ec Ht) as Hled.
  destruct r as [e|held].
  { destruct (swept_live now _ W (ChainBucket.bucket_id b) s s' Hn HW Hled) as [HL HB]. apply counted_quiet; auto. }
  destruct Hled as (sw & Hsw & Hclear & ->).
  destruct (swept_live now _ W (ChainBucket.bucket_id b) s sw Hn HW Hsw) as [HL HB]. specialize (HB Hf).
  assert (NoDup (ChainBucket.bucket_id <$> applied pool ch)) as Hnd' by (by apply NoDup_fmap_filter).
  unfold counted. rewrite <- HL. fold (counted b cap W sw).
  destruct (bool_decide (ChainBucket.bucket_id b ∈ ChainBucket.bucket_id <$> applied pool ch)) eqn:Ein.
  - apply bool_decide_eq_true, list_elem_of_fmap in Ein as (b' & Eb & Hb').
    assert (b' = b) as ->.
    { rewrite Forall_forall in HF. apply HF; [|done]. by eapply filter_elem. }
    by eapply charge_all_counted.
  - apply bool_decide_eq_false in Ein. by apply charge_all_elsewhere.
Qed.

Lemma accrual_counted interval cost b cap W s key pool model tokens now :
  op_in_window cost b W (GUsage key pool model tokens, now) -> bucket_fits W (ChainBucket.bucket_id b) s ->
  counted b cap W s (gov_exec interval cost b s (GUsage key pool model tokens) now).
Proof.
  intros (Hn & HW & Hid & Hch) Hf. simpl in Hid, Hch. simpl. unfold record_usage.
  destruct (TierTokens.is_zero tokens); [by apply counted_quiet|].
  destruct (chain_for cost key) as [[m|ch]|] eqn:Ec; [| |done].
  - destruct (accrue_live W b s (VirtualKey.id key) WINDOW_TOTAL model tokens now Hf) as [H1 H2]; [done|].
    by apply counted_quiet.
  - destruct Hch as [_ HF].
    destruct (fold_live W b (fun s b => accrue_bucket s (ChainBucket.bucket_id b) (ChainBucket.window b) model tokens now)
      (applied pool ch) s) as [H1 H2]; [|done|by apply counted_quiet].
    intros s0 b0 Hb0 Hf0. apply accrue_live; [done|]. intros Eb. rewrite Forall_forall in HF.
    rewrite (HF b0); [done| |done]. by eapply filter_elem.
Qed.

Lemma refund_counted interval cost b cap W s key pool now :
  op_in_window cost b W (GRefund key pool, now) -> bucket_fits W (ChainBucket.bucket_id b) s ->
  counted b cap W s (gov_exec interval cost b s (GRefund key pool) now).
Proof.
  intros (Hn & HW & Hid & Hch) Hf. simpl in Hid, Hch. simpl. unfold refund_request.
  destruct (chain_for cost key) as [[m|ch]|] eqn:Ec; [| |done].
  - destruct (refund_live W b s (VirtualKey.id key) WINDOW_TOTAL now Hf) as [H1 H2]. by apply counted_quiet.
  - destruct (fold_live W b (fun s b => refund_bucket s (ChainBucket.bucket_id b) (ChainBucket.window b) now)
      (applied pool ch) s) as [H1 H2]; [|done|by apply counted_quiet].
    intros s0 b0 Hb0 Hf0. by apply refund_live.
Qed.

Lemma gov_exec_live interval cost b cap W s op now :
  ChainBucket.requests_cap b = Some cap -> cap < U64_MAX -> op_in_window cost b W (op, now) ->
  bucket_fits W (ChainBucket.bucket_id b) s -> counted b cap W s (gov_exec interval cost b s op now).
Proof.
  intros Hcap Hmax Hop Hf. destruct op as [key pool|key pool model tokens|key pool|held].
  - by apply admit_counted.
  - by apply accrual_counted.
  - by apply refund_counted.
  - apply counted_quiet; unfold live, bucket_fits; by rewrite release_gauges_budget.
Qed.

Lemma gov_run_live interval cost b cap W ops s :
  ChainBucket.requests_cap b = Some cap -> cap < U64_MAX -> Forall (op_in_window cost b W) ops ->
  bucket_fits W (ChainBucket.bucket_id b) s ->
  exists s' n, gov_run interval cost b s ops = Some (s', n) /\
    live W (ChainBucket.bucket_id b) s' = live W (ChainBucket.bucket_id b) s + n /\ 0 <= n /\
    (0 < n -> live W (ChainBucket.bucket_id b) s' <= cap).
Proof.
  intros Hcap Hmax HF. revert s. induction HF as [|[op now] ops Hop HF IH]; intros s Hf; simpl.
  - exists s, 0. split; [done|]. split; [lia|]. split; [lia|lia].
  - destruct (gov_exec_live interval cost b cap W s op now Hcap Hmax Hop Hf) as (s1 & a & -> & Hf1 & Hl1 & Ha).
    destruct (IH s1 Hf1) as (s2 & n & -> & Hl2 & Hn & Hle).
    exists s2, ((if a then 1 else 0) + n). split; [done|]. split; [destruct a; lia|]. split; [destruct a; lia|].
    intros Hpos. destruct (decide (n = 0)) as [->|Hne]; [|apply Hle; lia].
    destruct a; [specialize (Ha eq_refl); lia|lia].
Qed.

(** ** In-flight grants *)
Definition in_flight (outs : list (list string)) (g : string) : Z := Zsum ((fun held => holds held g) <$> outs).

Inductive GrantStep (interval : Z) (cost : CostModel.t) : GovState.t * list (list string) -> GovState.t * list (list string) -> Prop :=
| StepAdmit s outs key pool now s' held : try_admit interval cost s key pool now = Some (s', inr held) ->
    GrantStep interval cost (s, outs) (s', held :: outs)
| StepRefuse s outs key pool now s' e : try_admit interval cost s key pool now = Some (s', inl e) ->
    GrantStep interval cost (s, outs) (s', outs)
| StepUsage s outs key pool model tokens now s' : record_usage cost s key pool model tokens now = Some s' ->
    GrantStep interval cost (s, outs) (s', outs)
| StepRefundReq s outs key pool now s' : refund_request cost s key pool now = Some s' ->
    GrantStep interval cost (s, outs) (s', outs)
| StepDrop s outs1 held outs2 :
    GrantStep interval cost (s, outs1 ++ held :: outs2) (release_gauges held s, outs1 ++ outs2).

Definition grants_inv (cost : CostModel.t) (st : GovState.t * list (list string)) : Prop :=
  gauges_ok st.1 /\ (forall g, gauge st.1 g = in_flight st.2 g) /\
  (forall i g cap, group_cap (CostModel.groups cost) i = Some (g, cap) -> gauge st.1 g <= Z.max cap 0).

Lemma accrue_concurrent s id p m x now : concurrent (accrue_bucket s id p m x now) = concurrent s.
Proof. done. Qed.

Lemma refund_concurrent s id p now : concurrent (refund_bucket s id p now) = concurrent s.
Proof. unfold refund_bucket. destruct (budget s !! id); [|done]. by destruct (_ =? _). Qed.

Lemma fold_concurrent (f : GovState.t -> ChainBucket.t -> GovState.t) bs s :
  (forall s b, concurrent (f s b) = concurrent s) -> concurrent (foldl f s bs) = concurrent s.
Proof. intros Hf. revert s. induction bs as [|b bs IH]; intros s; simpl; [done|]. by rewrite IH, Hf. Qed.

Lemma grants_inv_ext cost s s' outs :
  (forall g, gauge s' g = gauge s g) -> grants_inv cost (s, outs) -> grants_inv cost (s', outs).
Proof.
  intros Hg (H1 & H2 & H3). unfold grants_inv in *; simpl in *. split; [intros g; rewrite Hg; apply H1|].
  split; [intros g; by rewrite Hg|]. intros i g cap Hc. rewrite Hg. by eapply H3.
Qed.

Lemma concurrent_gauge s s' : concurrent s' = concurrent s -> forall g, gauge s' g = gauge s g.
Proof. intros H g. unfold gauge. by rewrite H. Qed.

Definition names_unique (cost : CostModel.t) : Prop :=
  forall i j g c1 c2, group_cap (CostModel.groups cost) i = Some (g, c1) ->
    group_cap (CostModel.groups cost) j = Some (g, c2) -> c1 = c2.

Lemma in_flight_app o1 o2 g : in_flight (o1 ++ o2) g = in_flight o1 g + in_flight o2 g.
Proof. unfold in_flight. by rewrite fmap_app, Zsum_app. Qed.

Lemma in_flight_nonneg outs g : 0 <= in_flight outs g.
Proof. unfold in_flight. induction outs as [|h outs IH]; csimpl; [lia|]. pose proof (holds_nonneg h g). lia. Qed.

Lemma grant_step_inv interval cost st st' :
  names_unique cost -> GrantStep interval cost st st' -> grants_inv cost st -> grants_inv cost st'.
Proof.
  intros Hu Hs Hinv. destruct Hs as [s outs key pool now s' held Ht|s outs key pool now s' e Ht|
    s outs key pool model tokens now s' Hr|s outs key pool now s' Hr|s outs1 held outs2].
  - destruct (chain_for cost key) as [[m|ch]|] eqn:Ec;
      [unfold try_admit in Ht; by rewrite Ec in Ht| |unfold try_admit in Ht; by rewrite Ec in Ht].
    destruct Hinv as (Hok & Hg & Hcap). simpl in *.
    destruct (try_admit_inv _ _ _ _ _ _ _ _ _ Hok Ec Ht) as (_ & _ & Hg' & Hok' & HF & _).
    split; [done|]. split; simpl.
    + intros g. rewrite Hg', Hg. unfold in_flight. csimpl. lia.
    + intros i g cap Hc. destruct (decide (g ∈ held)) as [Hin|Hn].
      * rewrite Forall_forall in HF. destruct (HF g Hin) as (j & cap' & _ & Hc' & Hle).
        rewrite (Hu i j g cap cap' Hc Hc'). lia.
      * rewrite Hg', (holds_not_in held g Hn). specialize (Hcap i g cap Hc). lia.
  - destruct (chain_for cost key) as [[m|ch]|] eqn:Ec; [|destruct Hinv as (Hok & Hrest)|unfold try_admit in Ht; by rewrite Ec in Ht].
    + unfold try_admit in Ht. rewrite Ec in Ht. by injection Ht as <- _.
    + destruct (try_admit_inv _ _ _ _ _ _ _ _ _ Hok Ec Ht) as (Hsame & _ & _).
      apply (grants_inv_ext cost s); [exact Hsame|by split].
  - apply (grants_inv_ext cost s); [|done]. apply concurrent_gauge. unfold record_usage in Hr.
    destruct (TierTokens.is_zero tokens); [by injection Hr as <-|].
    destruct (chain_for cost key) as [[m|ch]|]; [| |done]; injection Hr as <-; [done|]. by apply fold_concurrent.
  - apply (grants_inv_ext cost s); [|done]. apply concurrent_gauge. unfold refund_request in Hr.
    destruct (chain_for cost key) as [[m|ch]|]; [| |done]; injection Hr as <-; [apply refund_concurrent|].
    apply fold_concurrent. intros. apply refund_concurrent.
  - destruct Hinv as (Hok & Hg & Hcap). simpl in *.
    assert (forall g, gauge s g = holds held g + in_flight (outs1 ++ outs2) g) as Hg2.
    { intros g. rewrite Hg, !in_flight_app. unfold in_flight at 2. csimpl. fold (in_flight outs2 g). lia. }
    destruct (release_gauges_spec held s Hok) as (_ & Hok' & Hr).
    { intros g. rewrite Hg2. pose proof (in_flight_nonneg (outs1 ++ outs2) g). lia. }
    split; [done|]. split; simpl.
    + intros g. rewrite Hr, Hg2. lia.
    + intros i g cap Hc. rewrite Hr. specialize (Hcap i g cap Hc). pose proof (holds_nonneg held g). lia.
Qed.

(** ** Theorems *)

(** C2.  Admission is all-or-nothing.  For every cost model resolved from a configuration and every key,
    from gauges that are counts, admission returns.  A grant means: every group of the chain is
    enabled, each in-flight gauge of the chain went up by one and is within its cap, no limit of any
    applicable bucket was used up, and each of these buckets charged exactly one request in its own
    window to the row of its id (a row that two of them share gets one charge from each), every other
    row being untouched.  A refusal means: no gauge and no counter changed (only stale cells may have
    been evicted), and it names the missing group, or a group that is frozen, full, or out of a limit,
    with the seconds to that limit's next window.  Locks are taken in ascending order. *)
Theorem admission_all_or_nothing interval rates fee cfg s key pool now :
  gauges_ok s ->
  let cost := resolve_parts rates fee cfg in
  exists chain s' r, chain_for cost key = Some chain /\ try_admit interval cost s key pool now = Some (s', r) /\
  match chain with
  | inl missing => s' = s /\ r = inl (MissingGroup missing) /\ VirtualKey.group key = Some missing /\ assoc missing cfg = None
  | inr ch =>
  match r with
  | inl e => same_gauges s s' /\ swept now s s' /\ refusal cost s s' now ch (applied pool ch) e
  | inr held =>
      Forall (fun i => exists g, CostModel.groups cost !! i = Some g /\ GroupRuntime.enabled g = true) (Chain.groups ch) /\
      held = omap (fun i => fst <$> group_cap (CostModel.groups cost) i) (Chain.groups ch) /\
      (forall g, gauge s' g = gauge s g + holds held g) /\
      Forall (fun g => exists i cap, group_cap (CostModel.groups cost) i = Some (g, cap) /\ gauge s' g <= cap) held /\
      exists sw, swept now s sw /\ (forall b metric, b ∈ applied pool ch -> ~ exhausted cost sw now b metric) /\
        forall id, budget s' !! id =
          foldl (fun c b => Some (BudgetCell.charge (resolve_cell (budget_window (ChainBucket.window b) now) c)))
            (budget sw !! id) (filter (fun b => ChainBucket.bucket_id b = id) (applied pool ch))
  end /\
  ascending (lock_order ((fun b => shard_index (ChainBucket.bucket_id b)) <$> applied pool ch))
  end.
Proof.
  intros Hok cost. destruct (chain_for_total cfg rates fee key) as [chain Hc]. fold cost in Hc.
  destruct (try_admit_total interval cost s key pool now) as [[s' r] Ht]; [by rewrite Hc|].
  exists chain, s', r. split; [done|]. split; [done|]. destruct chain as [missing|ch].
  { unfold try_admit in Ht. rewrite Hc in Ht. injection Ht as <- <-. split; [done|]. split; [done|].
    by apply chain_for_missing in Hc. }
  split; [|apply lock_order_spec].
  pose proof (try_admit_inv _ _ _ _ _ _ _ _ _ Hok Hc Ht) as H. destruct r as [e|held]; [exact H|].
  destruct H as (H1 & H2 & H3 & _ & H4 & sw & Hsw & Hcl & ->). split; [done|]. split; [done|]. split; [done|].
  split; [eapply Forall_impl; [exact H4|]; intros g (i & cap & _ & Hg); by exists i, cap|].
  exists sw. split; [done|]. split; [|intros id; apply charge_all_each].
  rewrite Forall_forall in Hcl. intros b metric Hb. by apply clear_not_exhausted, Hcl.
Qed.


(** In-flight gauges are exact and bounded: after any history of admissions, refusals, accruals,
    refunds and drops of grants, each group's gauge is the number of outstanding grants holding it,
    and is within the group's [concurrent] cap. *)
Theorem concurrent_gauge_exact interval cost s outs :
  names_unique cost -> rtc (GrantStep interval cost) (GovState.new, []) (s, outs) ->
  (forall g, gauge s g = in_flight outs g) /\
  (forall i g cap, group_cap (CostModel.groups cost) i = Some (g, cap) -> gauge s g <= Z.max cap 0).
Proof.
  intros Hu Hr. assert (grants_inv cost (GovState.new, [])) as H0.
  { unfold grants_inv, gauges_ok, gauge. simpl. split; [intros g; rewrite lookup_empty; simpl; mach_lia|].
    split; [intros g; by rewrite lookup_empty|]. intros i g cap _. rewrite lookup_empty. simpl. lia. }
  assert (grants_inv cost (s, outs)) as (_ & H1 & H2); [|by split].
  clear -Hu Hr H0. remember (GovState.new, []) as st0 eqn:E. clear E. remember (s, outs) as st eqn:E. clear E.
  induction Hr as [|x y z Hxy Hyz IH]; [done|]. apply IH. by eapply grant_step_inv.
Qed.

(** ** Witnesses: a team of at most two requests a minute and two in flight, under an organisation *)
Definition demo_cost : CostModel.t := resolve_parts None 0 demo_cfg.

Definition team_minute : ChainBucket.t :=
  ChainBucket.mk "group:team@minute" (Some "team") WINDOW_MINUTE (Some 2) None None None None.

Definition demo_chain : Chain.t :=
  Chain.mk [key_bucket demo_key; team_minute;
            ChainBucket.mk "group:org@day" (Some "org") WINDOW_DAY (Some 3) None None None None] [1; 0]%nat.

Lemma demo_chain_for : chain_for demo_cost demo_key = Some (inr demo_chain).
Proof. vm_compute. reflexivity. Qed.

Lemma new_gauges_ok : gauges_ok GovState.new.
Proof. intros g. unfold gauge. simpl. rewrite lookup_empty. simpl. mach_lia. Qed.

Lemma demo_ids_distinct : NoDup (ChainBucket.bucket_id <$> Chain.buckets demo_chain).
Proof. apply (bool_decide_unpack _). vm_compute. exact I. Qed.

Lemma admission_all_or_nothing_witness :
  match try_admit 1000 demo_cost GovState.new demo_key "p" 100 with
  | Some (s', inr held) => held = ["team"] /\ gauge s' "team" = 1
  | _ => False
  end.
Proof.
  destruct (admission_all_or_nothing 1000 None 0 demo_cfg GovState.new demo_key "p" 100 new_gauges_ok)
    as (chain & s' & r & Hc & E & H). fold demo_cost in Hc, E, H. rewrite demo_chain_for in Hc. injection Hc as <-.
  rewrite E. destruct r as [e|held]; [vm_compute in E; discriminate|]. destruct H as [(_ & Hheld & Hg & _) _].
  vm_compute in Hheld. split; [exact Hheld|]. rewrite Hg, Hheld. reflexivity.
Defined.


Lemma concurrent_gauge_exact_witness :
  exists s, rtc (GrantStep 1000 demo_cost) (GovState.new, []) (s, [["team"]]) /\ gauge s "team" = 1.
Proof.
  destruct (try_admit 1000 demo_cost GovState.new demo_key "p" 100) as [[s' r]|] eqn:E;
    [|vm_compute in E; discriminate].
  destruct r as [e|held]; [vm_compute in E; discriminate|].
  assert (held = ["team"]) as -> by (vm_compute in E; by injection E as _ <-).
  exists s'. assert (rtc (GrantStep 1000 demo_cost) (GovState.new, []) (s', [["team"]])) as Hr.
  { eapply rtc_l; [eapply StepAdmit; exact E|apply rtc_refl]. }
  split; [exact Hr|].
  assert (names_unique demo_cost) as Hu.
  { intros i j g c1 c2. unfold group_cap.
    destruct i as [|[|[|i]]], j as [|[|[|j]]]; simpl; intros H1 H2; congruence. }
  destruct (concurrent_gauge_exact 1000 demo_cost s' [["team"]] Hu Hr) as [Hg _].
  rewrite Hg. reflexivity.
Defined.
