(* ===== verification/LedgerFlush.v ===== *)
(** * The write-behind flush: exactly-once accounting in the durable ledger, and boot hydration

    Every counter of a cell or ledger (admissions, billable requests, each model's tokens per tier) is
    addressed by a [Counter], so that one statement covers them all. *)
From stdpp Require Import base gmap list strings relations.
From Stdlib Require Import ZArith Lia.
From S2P Require Import Prelude Cell BreakerConfig Swrr Store Windows Cost CostFacts Ledger LedgerFacts LedgerProps.
Import GovState.
Open Scope Z_scope.
Open Scope rust_scope.

Inductive Tier := TInput | TOutput | TCacheRead | TCacheWrite.
Inductive Counter := CRequests | CBillable | CTokens (model : string) (tier : Tier).

Definition tier_get (t : Tier) (x : TierTokens.t) : Z :=
  match t with
  | TInput => TierTokens.input x | TOutput => TierTokens.output x
  | TCacheRead => TierTokens.cache_read x | TCacheWrite => TierTokens.cache_write x
  end.

Definition delta_tier_get (t : Tier) (x : TierTokensDelta.t) : Z :=
  match t with
  | TInput => TierTokensDelta.input x | TOutput => TierTokensDelta.output x
  | TCacheRead => TierTokensDelta.cache_read x | TCacheWrite => TierTokensDelta.cache_write x
  end.

Definition model_get {V} (f : V -> Z) (l : list (string * V)) (m : string) : Z :=
  match assoc m l with Some v => f v | None => 0 end.

Definition cur_entries (c : BudgetCell.t) : list (string * TierTokens.t) := BudgetCell.model_views c.
Definition base_entries (c : BudgetCell.t) : list (string * TierTokens.t) :=
  (fun m => (ModelCell.model m, ModelCell.flushed m)) <$> BudgetCell.models c.

(** The current value, the acknowledged baseline, and the durable value of a counter. *)
Definition cur (c : BudgetCell.t) (k : Counter) : Z :=
  match k with
  | CRequests => BudgetCell.requests c
  | CBillable => BudgetCell.billable_requests c
  | CTokens m t => model_get (tier_get t) (cur_entries c) m
  end.

Definition base_of (c : BudgetCell.t) (k : Counter) : Z :=
  match k with
  | CRequests => BudgetCell.flushed_requests c
  | CBillable => BudgetCell.flushed_billable_requests c
  | CTokens m t => model_get (tier_get t) (base_entries c) m
  end.

Definition durable (l : UsageLedger.t) (k : Counter) : Z :=
  match k with
  | CRequests => UsageLedger.requests l
  | CBillable => UsageLedger.billable_requests l
  | CTokens m t => model_get (tier_get t) (UsageLedger.models l) m
  end.

Definition delta_at (d : UsageDelta.t) (k : Counter) : Z :=
  match k with
  | CRequests => UsageDelta.requests d
  | CBillable => UsageDelta.billable_requests d
  | CTokens m t => model_get (delta_tier_get t) (UsageDelta.models d) m
  end.

Definition model_names (c : BudgetCell.t) : list string := ModelCell.model <$> BudgetCell.models c.

(** ** Applying a delta *)
Lemma assoc_upsert {V} k (fresh : V) f l k' :
  assoc k' (upsert k fresh f l) =
    if decide (k = k') then Some (f (default fresh (assoc k l))) else assoc k' l.
Proof.
  induction l as [|[j v] l IH]; simpl; [by case_decide|].
  destruct (decide (j = k)) as [->|Hjk]; simpl.
  - by destruct (decide (k = k')).
  - destruct (decide (j = k')) as [->|Hjk']; [by rewrite decide_False by congruence|]. exact IH.
Qed.

Lemma tier_add t d x : tier_get t (add_tier d x) = sat_add_signed (tier_get t x) (delta_tier_get t d).
Proof. by destruct t. Qed.

Lemma sat_add_zero x : is_u64 x -> sat_add_signed x 0 = x.
Proof. unfold sat_add_signed. mach_lia. Qed.

Lemma apply_models ds ms m t :
  NoDup ds.*1 -> is_u64 (model_get (tier_get t) ms m) ->
  model_get (tier_get t) (foldl apply_model_delta ms ds) m =
    sat_add_signed (model_get (tier_get t) ms m) (model_get (delta_tier_get t) ds m).
Proof.
  revert ms. induction ds as [|[k d] ds IH]; intros ms Hnd Hu; simpl.
  - unfold model_get at 3. simpl. by rewrite sat_add_zero.
  - csimpl in Hnd. apply NoDup_cons in Hnd as [Hk Hnd].
    assert (model_get (tier_get t) (apply_model_delta ms (k, d)) m =
      if decide (k = m) then sat_add_signed (model_get (tier_get t) ms m) (delta_tier_get t d)
      else model_get (tier_get t) ms m) as Hone.
    { unfold model_get, apply_model_delta. simpl. rewrite assoc_upsert. destruct (decide (k = m)) as [->|]; [|done].
      rewrite tier_add. destruct (assoc m ms); simpl; [done|]. by destruct t. }
    rewrite IH; [|done|].
    + assert (model_get (delta_tier_get t) ((k, d) :: ds) m =
        if decide (k = m) then delta_tier_get t d else model_get (delta_tier_get t) ds m) as ->
        by (unfold model_get; simpl; by case_decide).
      rewrite Hone. destruct (decide (k = m)) as [->|Hne]; [|done].
      assert (assoc m ds = None) as Hn.
      { destruct (assoc m ds) as [v|] eqn:E; [|done]. exfalso. apply Hk, list_elem_of_fmap.
        exists (m, v). split; [done|]. by apply assoc_elem. }
      unfold model_get at 2. rewrite Hn. apply sat_add_zero. unfold sat_add_signed. mach_lia.
    + rewrite Hone. case_decide; [|done]. unfold sat_add_signed. mach_lia.
Qed.

Lemma durable_apply l d k :
  NoDup (UsageDelta.models d).*1 -> is_u64 (durable l k) ->
  durable (apply_delta l d) k = sat_add_signed (durable l k) (delta_at d k).
Proof. intros Hnd Hu. destruct k as [| |m t]; simpl in *; [done|done|]. by apply apply_models. Qed.

(** ** The delta of a cell *)
Definition bounded (c : BudgetCell.t) : Prop :=
  NoDup (model_names c) /\ forall k, 0 <= cur c k <= I64_MAX /\ 0 <= base_of c k <= I64_MAX.

Lemma signed_id v : 0 <= v <= I64_MAX -> signed v = v.
Proof. intros Hv. unfold signed, i64_try_from. destruct (Z.leb_spec v I64_MAX); lia. Qed.

Lemma assoc_models (f : ModelCell.t -> TierTokens.t) (ms : list ModelCell.t) m :
  assoc m ((fun x => (ModelCell.model x, f x)) <$> ms) =
    f <$> List.find (fun x => bool_decide (ModelCell.model x = m)) ms.
Proof.
  induction ms as [|x ms IH]; csimpl; [done|]. destruct (decide (ModelCell.model x = m)) as [E|E].
  - by rewrite bool_decide_true.
  - by rewrite bool_decide_false.
Qed.

Lemma delta_get m t x :
  ModelCell.model x = m ->
  delta_tier_get t (model_delta x).2 = signed (tier_get t (ModelCell.cur x)) - signed (tier_get t (ModelCell.flushed x)).
Proof. intros _. by destruct t. Qed.

Lemma assoc_delta_models (ms : list ModelCell.t) m t :
  NoDup (ModelCell.model <$> ms) ->
  model_get (delta_tier_get t) (List.filter (fun d => negb (TierTokensDelta.is_zero d.2)) (model_delta <$> ms)) m =
    match List.find (fun x => bool_decide (ModelCell.model x = m)) ms with
    | Some x => signed (tier_get t (ModelCell.cur x)) - signed (tier_get t (ModelCell.flushed x))
    | None => 0
    end.
Proof.
  induction ms as [|x ms IH]; intros Hnd; [done|]. csimpl in Hnd. apply NoDup_cons in Hnd as [Hx Hnd].
  specialize (IH Hnd). rewrite fmap_cons. cbn [List.filter List.find].
  destruct (decide (ModelCell.model x = m)) as [E|E].
  - rewrite (bool_decide_true _ E). rewrite <- (delta_get m t x E).
    destruct (TierTokensDelta.is_zero (model_delta x).2) eqn:Ez; cbn [negb].
    + rewrite IH. destruct (List.find _ ms) as [y|] eqn:Ef.
      * exfalso. apply List.find_some in Ef as [Hin Hy]. apply bool_decide_eq_true in Hy. apply Hx.
        apply list_elem_of_fmap. exists y. split; [congruence|]. by apply list_elem_of_In.
      * unfold TierTokensDelta.is_zero in Ez. simpl_bool. destruct t; simpl in *; lia.
    + unfold model_get. simpl. by rewrite decide_True.
  - rewrite (bool_decide_false _ E).
    destruct (TierTokensDelta.is_zero (model_delta x).2); cbn [negb]; [done|].
    unfold model_get in *. simpl. by rewrite decide_False.
Qed.

Lemma delta_cell c k : bounded c -> delta_at (cell_delta c) k = cur c k - base_of c k.
Proof.
  intros [Hnd Hb]. pose proof (Hb k) as [H1 H2]. destruct k as [| |m t]; simpl in *.
  - by rewrite !signed_id.
  - by rewrite !signed_id.
  - rewrite assoc_delta_models by done. unfold model_get, cur_entries, base_entries, BudgetCell.model_views in *.
    rewrite !assoc_models in *. destruct (List.find _ _) as [x|]; simpl in *; [|done]. by rewrite !signed_id.
Qed.

Lemma delta_names c : NoDup (model_names c) -> NoDup (UsageDelta.models (cell_delta c)).*1.
Proof.
  intros Hnd. simpl. apply NoDup_fmap_filter. rewrite <- list_fmap_compose. exact Hnd.
Qed.

(** ** How the engine changes a live cell: counters move, baselines do not *)
Record evolves (c c' : BudgetCell.t) : Prop := {
  ev_window : BudgetCell.window_start c' = BudgetCell.window_start c;
  ev_base : forall k, base_of c' k = base_of c k;
  ev_names : NoDup (model_names c) -> NoDup (model_names c') /\ model_names c ⊆ model_names c';
  ev_dirty : BudgetCell.dirty c' = false -> BudgetCell.dirty c = false /\ forall k, cur c' k = cur c k }.

Lemma evolves_refl c : evolves c c.
Proof. by split. Qed.

Lemma evolves_trans c1 c2 c3 : evolves c1 c2 -> evolves c2 c3 -> evolves c1 c3.
Proof.
  intros [W1 B1 N1 D1] [W2 B2 N2 D2]. split; [congruence|intros k; by rewrite B2| |].
  - intros Hnd. destruct (N1 Hnd) as [Hnd2 Hs2]. destruct (N2 Hnd2) as [Hnd3 Hs3]. split; [done|]. by etrans.
  - intros Hd. destruct (D2 Hd) as [Hd2 Hc2]. destruct (D1 Hd2) as [Hd1 Hc1]. split; [done|].
    intros k. by rewrite Hc2, Hc1.
Qed.

Lemma evolves_charge c : evolves c (BudgetCell.charge c).
Proof. split; [done|by intros []|done|done]. Qed.

Lemma evolves_refund c : evolves c (BudgetCell.refund c).
Proof. split; [done|by intros []|done|done]. Qed.

Lemma accrue_models_base model x ms m :
  assoc m ((fun y => (ModelCell.model y, ModelCell.flushed y)) <$> BudgetCell.accrue_models model x ms) =
    match assoc m ((fun y => (ModelCell.model y, ModelCell.flushed y)) <$> ms) with
    | Some v => Some v
    | None => if decide (model = m) then Some TierTokens.default else None
    end.
Proof.
  induction ms as [|y ms IH]; [simpl; by case_decide|]. simpl.
  destruct (String.eqb_spec (ModelCell.model y) model) as [E|E]; csimpl.
  - destruct (decide (ModelCell.model y = m)) as [E'|E']; [done|].
    destruct (assoc m ((fun y => (ModelCell.model y, ModelCell.flushed y)) <$> ms)); [done|].
    rewrite decide_False; [done|congruence].
  - destruct (decide (ModelCell.model y = m)); [done|]. exact IH.
Qed.

Lemma accrue_models_names model x ms :
  NoDup (ModelCell.model <$> ms) ->
  NoDup (ModelCell.model <$> BudgetCell.accrue_models model x ms) /\
  (ModelCell.model <$> ms) ⊆ (ModelCell.model <$> BudgetCell.accrue_models model x ms) /\
  (forall n, n ∈ ModelCell.model <$> BudgetCell.accrue_models model x ms -> n = model \/ n ∈ ModelCell.model <$> ms).
Proof.
  induction ms as [|y ms IH]; intros Hnd; simpl.
  - csimpl. split; [apply NoDup_singleton|]. split; [intros n Hn; by apply not_elem_of_nil in Hn|].
    intros n Hn. left. by apply list_elem_of_singleton.
  - csimpl in Hnd. apply NoDup_cons in Hnd as [Hy Hnd]. destruct (IH Hnd) as (I1 & I2 & I3).
    destruct (String.eqb_spec (ModelCell.model y) model) as [E|E]; csimpl.
    + split; [by apply NoDup_cons|]. split; [done|]. intros n Hn. by right.
    + split; [|split].
      * apply NoDup_cons. split; [|done]. intros [?|?]%I3; [congruence|done].
      * intros n [->|Hn]%elem_of_cons; apply elem_of_cons; [by left|right; by apply I2].
      * intros n [->|Hn]%elem_of_cons; [right; apply elem_of_cons; by left|].
        destruct (I3 n Hn); [by left|]. right. apply elem_of_cons. by right.
Qed.

Lemma evolves_accrue model x c : evolves c (BudgetCell.set_dirty true (BudgetCell.accrue model x c)).
Proof.
  split; [done| | |done].
  - intros [| |m t]; [done|done|]. simpl. unfold base_entries, model_get. simpl. rewrite accrue_models_base.
    destruct (assoc m _); [done|]. case_decide; [by destruct t|done].
  - intros Hnd. destruct (accrue_models_names model x (BudgetCell.models c) Hnd) as (H1 & H2 & _). by split.
Qed.

(** The cell of bucket [b] lives on in window [W]. *)
Definition lives (W : Z) (id : string) (c : BudgetCell.t) (s : GovState.t) : Prop :=
  exists c', budget s !! id = Some c' /\ evolves c c'.

Lemma lives_step W id c s s' :
  (forall c', budget s !! id = Some c' -> BudgetCell.window_start c' = W ->
     exists c'', budget s' !! id = Some c'' /\ evolves c' c'') ->
  BudgetCell.window_start c = W -> lives W id c s -> lives W id c s'.
Proof.
  intros H Hw (c' & E & He). destruct (H c' E) as (c'' & E'' & He''); [rewrite (ev_window _ _ He); done|].
  exists c''. split; [done|]. by eapply evolves_trans.
Qed.

Lemma resolve_current W c : BudgetCell.window_start c = W -> resolve_cell W (Some c) = c.
Proof. intros Hw. unfold resolve_cell. destruct (Z.ltb_spec (BudgetCell.window_start c) W); [lia|done]. Qed.

Lemma fold_lives W b c (f : GovState.t -> ChainBucket.t -> GovState.t) bs s :
  (forall s b', b' ∈ bs -> lives W (ChainBucket.bucket_id b) c s -> lives W (ChainBucket.bucket_id b) c (f s b')) ->
  lives W (ChainBucket.bucket_id b) c s -> lives W (ChainBucket.bucket_id b) c (foldl f s bs).
Proof.
  revert s. induction bs as [|b' bs IH]; intros s Hf Hl; simpl; [done|]. apply IH.
  - intros s0 b0 Hb0. apply Hf, elem_of_cons. by right.
  - apply Hf; [apply elem_of_cons; by left|done].
Qed.

Lemma accrue_lives W b c s bid period model x now :
  BudgetCell.window_start c = W -> (bid = ChainBucket.bucket_id b -> budget_window period now = W) ->
  lives W (ChainBucket.bucket_id b) c s -> lives W (ChainBucket.bucket_id b) c (accrue_bucket s bid period model x now).
Proof.
  intros Hw HW. apply lives_step; [|done]. intros c' E Hw'. unfold accrue_bucket. simpl.
  destruct (decide (bid = ChainBucket.bucket_id b)) as [->|Hne].
  - rewrite lookup_insert_eq, (HW eq_refl), E, resolve_current by done. eexists. split; [done|]. apply evolves_accrue.
  - rewrite lookup_insert_ne by done. exists c'. split; [done|apply evolves_refl].
Qed.

Lemma refund_lives W b c s bid period now :
  BudgetCell.window_start c = W -> lives W (ChainBucket.bucket_id b) c s ->
  lives W (ChainBucket.bucket_id b) c (refund_bucket s bid period now).
Proof.
  intros Hw. apply lives_step; [|done]. intros c' E Hw'. unfold refund_bucket.
  destruct (budget s !! bid) as [c0|] eqn:E0; [|exists c'; split; [done|apply evolves_refl]].
  destruct (_ =? _); [|exists c'; split; [done|apply evolves_refl]]. simpl.
  destruct (decide (bid = ChainBucket.bucket_id b)) as [->|Hne].
  - rewrite lookup_insert_eq. rewrite E in E0. injection E0 as <-. eexists. split; [done|apply evolves_refund].
  - rewrite lookup_insert_ne by done. exists c'. split; [done|apply evolves_refl].
Qed.

Lemma gov_exec_lives interval cost b W s op now s' a c :
  op_in_window cost b W (op, now) -> BudgetCell.window_start c = W -> budget s !! ChainBucket.bucket_id b = Some c ->
  gov_exec interval cost b s op now = Some (s', a) -> lives W (ChainBucket.bucket_id b) c s'.
Proof.
  intros (Hn & HW & Hk) Hw Hc He. simpl in Hn, HW, Hk.
  assert (lives W (ChainBucket.bucket_id b) c s) as Hl by (exists c; split; [done|apply evolves_refl]).
  destruct op as [key pool|key pool model x|key pool|held]; simpl in He, Hk.
  - destruct Hk as [_ Hch]. destruct (try_admit interval cost s key pool now) as [[s1 r]|] eqn:Ht; [|done].
    destruct (chain_for cost key) as [[m|ch]|] eqn:Ec; [| |done].
    + unfold try_admit in Ht. rewrite Ec in Ht. injection Ht as <- <-. by injection He as <- _.
    + destruct Hch as [Hnd HF]. pose proof (try_admit_ledger _ _ _ _ _ _ _ _ _ Ec Ht) as Hled.
      assert (forall sw, swept now s sw -> budget sw !! ChainBucket.bucket_id b = Some c) as Hsw.
      { intros sw [_ Hkeep]. apply Hkeep; [done|]. apply (current_cell_kept now (ChainBucket.window b) c Hn). congruence. }
      destruct r as [e|held]; injection He as <- _.
      * exists c. split; [by apply Hsw|apply evolves_refl].
      * destruct Hled as (sw & Hs & _ & ->). specialize (Hsw sw Hs).
        destruct (charge_all_lookup now (applied pool ch) sw) as (_ & Hin & Hout); [by apply NoDup_fmap_filter|].
        destruct (decide (ChainBucket.bucket_id b ∈ ChainBucket.bucket_id <$> applied pool ch)) as [Hb|Hb].
        -- apply list_elem_of_fmap in Hb as (b' & Eb & Hb').
           assert (b' = b) as -> by (rewrite Forall_forall in HF; apply HF; [by eapply filter_elem|done]).
           specialize (Hin b Hb'). rewrite HW, Hsw, resolve_current in Hin by done.
           eexists. split; [exact Hin|apply evolves_charge].
        -- exists c. rewrite Hout by done. split; [done|apply evolves_refl].
  - destruct Hk as [Hid Hch]. unfold record_usage in He.
    destruct (TierTokens.is_zero x); [by injection He as <- _|].
    destruct (chain_for cost key) as [[m|ch]|] eqn:Ec; [| |done]; injection He as <- _.
    + apply accrue_lives; [done|done|done].
    + apply fold_lives; [|done]. intros s0 b0 Hb0. apply accrue_lives; [done|]. intros Eb.
      destruct Hch as [_ HF]. rewrite Forall_forall in HF. rewrite (HF b0); [done| |done]. by eapply filter_elem.
  - destruct Hk as [Hid Hch]. unfold refund_request in He.
    destruct (chain_for cost key) as [[m|ch]|] eqn:Ec; [| |done]; injection He as <- _.
    + by apply refund_lives.
    + apply fold_lives; [|done]. intros s0 b0 Hb0. by apply refund_lives.
  - injection He as <- _. exists c. rewrite release_gauges_budget. split; [done|apply evolves_refl].
Qed.

(** ** Acknowledging a snapshot *)
Lemma ack_model_names m v ms : ModelCell.model <$> ack_model m v ms = ModelCell.model <$> ms.
Proof. induction ms as [|y ms IH]; simpl; [done|]. destruct (String.eqb _ _); csimpl; by f_equal. Qed.

Lemma ack_model_cur m v ms :
  (fun y => (ModelCell.model y, ModelCell.cur y)) <$> ack_model m v ms =
  (fun y => (ModelCell.model y, ModelCell.cur y)) <$> ms.
Proof. induction ms as [|y ms IH]; simpl; [done|]. destruct (String.eqb _ _); csimpl; by f_equal. Qed.

Lemma ack_model_base m v ms m' :
  assoc m' ((fun y => (ModelCell.model y, ModelCell.flushed y)) <$> ack_model m v ms) =
    if decide (m = m' /\ m ∈ ModelCell.model <$> ms) then Some v
    else assoc m' ((fun y => (ModelCell.model y, ModelCell.flushed y)) <$> ms).
Proof.
  induction ms as [|y ms IH]; simpl.
  - rewrite decide_False; [done|]. intros [_ H]. by apply not_elem_of_nil in H.
  - destruct (String.eqb_spec (ModelCell.model y) m) as [E|E]; csimpl.
    + destruct (decide (ModelCell.model y = m')) as [E'|E'].
      * rewrite decide_True; [done|]. split; [congruence|]. apply elem_of_cons. left. by symmetry.
      * rewrite decide_False; [done|]. intros [? _]. congruence.
    + destruct (decide (ModelCell.model y = m')) as [E'|E'].
      * rewrite decide_False; [done|]. intros [? _]. congruence.
      * rewrite IH. destruct (decide (m = m' /\ m ∈ ModelCell.model <$> ms)) as [[H1 H2]|H].
        -- rewrite decide_True; [done|]. split; [done|]. apply elem_of_cons. by right.
        -- rewrite decide_False; [done|]. intros [H1 [?|H2]%elem_of_cons]; [congruence|]. by apply H.
Qed.

Definition acked (vs : list (string * TierTokens.t)) (ms : list ModelCell.t) : list ModelCell.t :=
  foldl (fun ms mc => ack_model mc.1 mc.2 ms) ms vs.

Lemma acked_spec vs ms :
  NoDup vs.*1 ->
  (ModelCell.model <$> acked vs ms = ModelCell.model <$> ms) /\
  ((fun y => (ModelCell.model y, ModelCell.cur y)) <$> acked vs ms = (fun y => (ModelCell.model y, ModelCell.cur y)) <$> ms) /\
  forall m, assoc m ((fun y => (ModelCell.model y, ModelCell.flushed y)) <$> acked vs ms) =
    match assoc m vs with
    | Some v => if decide (m ∈ ModelCell.model <$> ms) then Some v
                else assoc m ((fun y => (ModelCell.model y, ModelCell.flushed y)) <$> ms)
    | None => assoc m ((fun y => (ModelCell.model y, ModelCell.flushed y)) <$> ms)
    end.
Proof.
  unfold acked. revert ms. induction vs as [|[k v] vs IH]; intros ms Hnd; simpl; [done|].
  csimpl in Hnd. apply NoDup_cons in Hnd as [Hk Hnd].
  destruct (IH (ack_model k v ms) Hnd) as (I1 & I2 & I3).
  split; [by rewrite I1, ack_model_names|]. split; [by rewrite I2, ack_model_cur|].
  intros m. rewrite I3, ack_model_names, ack_model_base.
  destruct (decide (k = m)) as [->|Hne].
  - assert (assoc m vs = None) as ->.
    { destruct (assoc m vs) as [w|] eqn:E; [|done]. exfalso. apply Hk, list_elem_of_fmap.
      exists (m, w). split; [done|]. by apply assoc_elem. }
    destruct (decide (m ∈ ModelCell.model <$> ms)); [by rewrite decide_True|by rewrite decide_False by tauto].
  - destruct (assoc m vs); [|by rewrite decide_False by tauto]. case_decide; [done|]. by rewrite decide_False by tauto.
Qed.

Lemma cur_entries_names c : (cur_entries c).*1 = model_names c.
Proof. unfold cur_entries, BudgetCell.model_views, model_names. by rewrite <- list_fmap_compose. Qed.

Lemma base_entries_names c : (base_entries c).*1 = model_names c.
Proof. unfold base_entries, model_names. by rewrite <- list_fmap_compose. Qed.

Lemma assoc_absent {V} m (l : list (string * V)) : m ∉ l.*1 -> assoc m l = None.
Proof.
  intros Hn. destruct (assoc m l) as [v|] eqn:E; [|done]. exfalso. apply Hn, list_elem_of_fmap.
  exists (m, v). split; [done|]. by apply assoc_elem.
Qed.

Lemma assoc_present {V} m (l : list (string * V)) v : assoc m l = Some v -> m ∈ l.*1.
Proof. intros E. apply list_elem_of_fmap. exists (m, v). split; [done|]. by apply assoc_elem. Qed.

(** After the acknowledgement of a snapshot of [old], the baselines are the counters of [old]. *)
Lemma ack_cell_spec id old c :
  NoDup (model_names old) -> model_names old ⊆ model_names c -> (forall k, base_of c k = base_of old k) ->
  let c' := ack_cell (snap_cell id old) c in
  (forall k, base_of c' k = cur old k) /\ (forall k, cur c' k = cur c k) /\ model_names c' = model_names c /\
  BudgetCell.window_start c' = BudgetCell.window_start c /\ BudgetCell.dirty c' = BudgetCell.dirty c.
Proof.
  intros Hnd Hsub Hbase c'.
  destruct (acked_spec (cur_entries old) (BudgetCell.models c)) as (A1 & A2 & A3); [by rewrite cur_entries_names|].
  split; [|split; [|done]].
  - intros [| |m t]; [done|done|]. simpl.
    change (base_entries c') with ((fun y => (ModelCell.model y, ModelCell.flushed y)) <$> acked (cur_entries old) (BudgetCell.models c)).
    unfold model_get at 1. rewrite A3. unfold model_get. destruct (assoc m (cur_entries old)) as [v|] eqn:E.
    + rewrite decide_True; [done|]. apply Hsub. rewrite <- cur_entries_names. by eapply assoc_present.
    + assert (assoc m (base_entries old) = None) as Eb.
      { apply assoc_absent. rewrite base_entries_names, <- cur_entries_names. intros Hin.
        apply list_elem_of_fmap in Hin as ([m' v] & -> & Hin). 
        assert (is_Some (assoc m' (cur_entries old))) as [? ?]; [|simpl in E; congruence].
        clear -Hin. induction (cur_entries old) as [|[k w] l IH]; [by apply not_elem_of_nil in Hin|]. simpl.
        destruct (decide (k = m')); [by eexists|]. apply elem_of_cons in Hin as [[= -> ->]|Hin]; [done|]. by apply IH. }
      pose proof (Hbase (CTokens m t)) as Hb. simpl in Hb. unfold model_get in Hb. rewrite Eb in Hb. exact Hb.
  - intros [| |m t]; [done|done|]. simpl. unfold cur_entries, BudgetCell.model_views.
    change (BudgetCell.models c') with (acked (cur_entries old) (BudgetCell.models c)). by rewrite A2.
Qed.

Lemma zero_delta d k : UsageDelta.is_zero d = true -> delta_at d k = 0.
Proof.
  unfold UsageDelta.is_zero. rewrite !andb_true_iff, !Z.eqb_eq. intros [[H1 H2] H3].
  destruct k as [| |m t]; [done|done|]. simpl. unfold model_get. destruct (assoc m _) as [v|] eqn:E; [|done].
  apply assoc_elem, list_elem_of_In in E. rewrite forallb_forall in H3. specialize (H3 _ E). simpl in H3.
  unfold TierTokensDelta.is_zero in H3. simpl_bool. by destruct t.
Qed.

(** ** The flusher interleaved with the engine *)
Section FlushSystem.
Context {S : Type} `{LedgerStore S} (interval : Z) (cost : CostModel.t) (b : ChainBucket.t) (W : Z).

Notation id := (ChainBucket.bucket_id b).

(** Flushes that do not overlap: a flush starts only when none is in flight.  This is what the gate of
    [spawn_budget_flusher] ensures among the periodic flushes and the one of its shutdown arm.  The last flush of
    main.rs is started without the gate: it is one of these when the flusher's has drained, and
    [ungated_flush_counts_twice] when it has not. *)
Inductive FlushStep : S * GovState.t * list DirtySnap.t -> S * GovState.t * list DirtySnap.t -> Prop :=
| FsOp store s fl op now s' a : op_in_window cost b W (op, now) ->
    gov_exec interval cost b s op now = Some (s', a) ->
    (forall c, budget s' !! id = Some c -> bounded c) -> FlushStep (store, s, fl) (store, s', fl)
| FsStart store s : FlushStep (store, s, []) (store, (snapshot_dirty s).1, (snapshot_dirty s).2)
| FsWrite store s snap fl store' s' n : flush_one (store, s, 0) snap = (store', s', n) ->
    FlushStep (store, s, snap :: fl) (store', s', fl).

Definition snap_inv (c : BudgetCell.t) (snap : DirtySnap.t) : Prop :=
  exists old, snap = snap_cell id old /\ BudgetCell.window_start old = W /\ bounded old /\
    (forall k, base_of c k = base_of old k) /\ model_names old ⊆ model_names c /\
    (BudgetCell.dirty c = false -> forall k, cur c k = cur old k).

Record flush_inv (D : Counter -> Z) (store : S) (s : GovState.t) (fl : list DirtySnap.t) (c : BudgetCell.t) : Prop := {
  fi_cell : budget s !! id = Some c;
  fi_window : BudgetCell.window_start c = W;
  fi_bounded : bounded c;
  fi_durable : forall k, durable (get_usage store id W) k = D k + base_of c k;
  fi_distinct : NoDup (DirtySnap.bucket_id <$> fl);
  fi_snaps : forall snap, snap ∈ fl -> DirtySnap.bucket_id snap = id -> snap_inv c snap;
  fi_clean : BudgetCell.dirty c = false -> id ∉ DirtySnap.bucket_id <$> fl -> forall k, cur c k = base_of c k }.

Lemma start_inv D store s c :
  flush_inv D store s [] c ->
  flush_inv D store (snapshot_dirty s).1 (snapshot_dirty s).2 (BudgetCell.set_dirty false c).
Proof.
  intros [Hc Hw Hb Hd _ _ Hclean].
  assert (forall snap, snap ∈ (snapshot_dirty s).2 -> exists c0, budget s !! DirtySnap.bucket_id snap = Some c0 /\
    BudgetCell.dirty c0 = true /\ snap = snap_cell (DirtySnap.bucket_id snap) c0) as Hsnap.
  { intros snap Hin. simpl in Hin. apply list_elem_of_fmap in Hin as ([i c0] & -> & Hin).
    apply list_elem_of_In, List.filter_In in Hin as [Hin Hdirty]. apply list_elem_of_In, elem_of_map_to_list in Hin.
    by exists c0. }
  split.
  - simpl. by rewrite lookup_fmap, Hc.
  - done.
  - destruct Hb as [Hnd Hk]. by split.
  - intros k. rewrite Hd. by destruct k.
  - simpl. rewrite <- list_fmap_compose. apply (NoDup_fmap_filter (fun e : string * BudgetCell.t => e.1)). apply NoDup_fst_map_to_list.
  - intros snap Hin Hid. destruct (Hsnap snap Hin) as (c0 & E & _ & ->). simpl in Hid. rewrite Hid in *.
    simpl in E. rewrite Hc in E. injection E as <-. exists c. split; [done|]. split; [done|]. split; [done|].
    split; [by intros []|]. split; [done|]. intros _ k. by destruct k.
  - intros _ Hnin k. destruct (BudgetCell.dirty c) eqn:Ed.
    + exfalso. apply Hnin, list_elem_of_fmap. exists (snap_cell id c). split; [done|]. simpl.
      apply list_elem_of_fmap. exists (id, c). split; [done|].
      apply list_elem_of_In, List.filter_In. split; [|done]. by apply list_elem_of_In, elem_of_map_to_list.
    + specialize (Hclean eq_refl ltac:(simpl; apply not_elem_of_nil) k). by destruct k.
Qed.

Lemma on_snap_other snap f s : DirtySnap.bucket_id snap <> id -> budget (on_snap_cell snap f s) !! id = budget s !! id.
Proof.
  intros Hne. unfold on_snap_cell. destruct (budget s !! DirtySnap.bucket_id snap); [|done].
  destruct (_ =? _); [|done]. simpl. by rewrite lookup_insert_ne.
Qed.

Lemma on_snap_self snap f s c :
  DirtySnap.bucket_id snap = id -> budget s !! id = Some c -> BudgetCell.window_start c = DirtySnap.window snap ->
  budget (on_snap_cell snap f s) !! id = Some (f c).
Proof.
  intros Hid Hc Hw. unfold on_snap_cell. rewrite Hid, Hc, Hw, Z.eqb_refl. simpl. by rewrite lookup_insert_eq.
Qed.

(** The store write of one snapshot. *)
Definition store_write (store : S) (snap : DirtySnap.t) : S * bool :=
  if UsageDelta.is_zero (DirtySnap.delta snap) then (store, true)
  else add_usage store (DirtySnap.bucket_id snap) (DirtySnap.window snap) (DirtySnap.delta snap).

(** A write that reported success moved the bucket's ledger to the counters of the snapshot. *)
Lemma store_write_ok D store store1 old c k :
  0 <= D k <= I64_MAX -> bounded old -> BudgetCell.window_start old = W -> base_of old k = base_of c k ->
  durable (get_usage store id W) k = D k + base_of c k ->
  store_write store (snap_cell id old) = (store1, true) -> durable (get_usage store1 id W) k = D k + cur old k.
Proof.
  intros HD Hbo Hwo Hbk Hd Es. pose proof (delta_cell old k Hbo) as Hdelta. destruct (proj2 Hbo k) as [Hco Hbao].
  unfold store_write in Es. simpl in Es. rewrite Hwo in Es.
  destruct (UsageDelta.is_zero (cell_delta old)) eqn:Ez.
  - injection Es as <-. rewrite Hd. rewrite (zero_delta _ k Ez) in Hdelta. lia.
  - pose proof (add_usage_ok _ _ _ _ _ Es id W) as Hlaw. rewrite decide_True in Hlaw by done. rewrite Hlaw.
    rewrite durable_apply; [|apply delta_names, Hbo|rewrite Hd; unfold is_u64, U64_MAX, I64_MAX in *; lia].
    rewrite Hd, Hdelta. unfold sat_add_signed, U64_MAX, I64_MAX in *. lia.
Qed.

(** A failed write, and a write for another bucket, leave the bucket's ledger as it was. *)
Lemma store_write_other store store1 snap ok k :
  store_write store snap = (store1, ok) -> ok = false \/ DirtySnap.bucket_id snap <> id ->
  durable (get_usage store1 id W) k = durable (get_usage store id W) k.
Proof.
  unfold store_write. destruct (UsageDelta.is_zero _); [by intros [= <- <-]|]. intros Es Hk. destruct ok.
  - destruct Hk as [|Hne]; [done|]. by rewrite (add_usage_ok _ _ _ _ _ Es id W), decide_False by congruence.
  - by rewrite (add_usage_err _ _ _ _ _ Es id W).
Qed.

Lemma write_inv_other D store s snap fl store' s' n c :
  flush_inv D store s (snap :: fl) c -> DirtySnap.bucket_id snap <> id ->
  flush_one (store, s, 0) snap = (store', s', n) -> flush_inv D store' s' fl c.
Proof.
  intros [Hc Hw Hb Hd Hnd Hsnaps Hclean] Hid Hf. unfold flush_one in Hf. fold (store_write store snap) in Hf.
  csimpl in Hnd. apply NoDup_cons in Hnd as [Hnin Hnd].
  destruct (store_write store snap) as [store1 ok] eqn:Es.
  assert (store' = store1 /\ budget s' !! id = budget s !! id) as [-> Hs'].
  { destruct ok; injection Hf as <- <- <-; (split; [done|]); by apply on_snap_other. }
  split; try done.
  - by rewrite Hs'.
  - intros k. rewrite (store_write_other _ _ _ _ k Es) by (by right). apply Hd.
  - intros snap' Hin. apply Hsnaps, elem_of_cons. by right.
  - intros Hdc Hn. apply Hclean; [done|]. csimpl. rewrite not_elem_of_cons. by split.
Qed.

Lemma write_inv D store s snap fl store' s' n c :
  (forall k, 0 <= D k <= I64_MAX) -> flush_inv D store s (snap :: fl) c ->
  flush_one (store, s, 0) snap = (store', s', n) -> exists c', flush_inv D store' s' fl c'.
Proof.
  intros HD Hinv Hf.
  destruct (decide (DirtySnap.bucket_id snap = id)) as [Hid|Hid]; [|exists c; by eapply write_inv_other].
  destruct Hinv as [Hc Hw Hb Hd Hnd Hsnaps Hclean]. unfold flush_one in Hf. fold (store_write store snap) in Hf.
  csimpl in Hnd. apply NoDup_cons in Hnd as [Hnin Hnd].
  assert (forall snap', snap' ∈ fl -> DirtySnap.bucket_id snap' <> id) as Hlast.
  { intros snap' Hin Hs. apply Hnin. rewrite Hid, <- Hs. by apply list_elem_of_fmap_2. }
  destruct (Hsnaps snap) as (old & -> & Hwo & Hbo & Hbase & Hnames & Hdirty); [apply elem_of_cons; by left|done|].
  destruct (store_write store (snap_cell id old)) as [store1 ok] eqn:Es. destruct ok; injection Hf as <- <- <-.
  - destruct (ack_cell_spec id old c (proj1 Hbo) Hnames Hbase) as (K1 & K2 & K3 & K4 & K5).
    exists (ack_cell (snap_cell id old) c). split; try done.
    + apply on_snap_self; [done|done|]. simpl. congruence.
    + split; [rewrite K3; apply Hb|]. intros k. rewrite K1, K2. split; [apply Hb|apply Hbo].
    + intros k. rewrite K1. eapply (store_write_ok D store store1 old c k); auto.
    + intros snap Hin Hs. by destruct (Hlast snap Hin).
    + intros Hdc _ k. rewrite K5 in Hdc. rewrite K1, K2. by apply Hdirty.
  - exists (BudgetCell.set_dirty true c). split; try done.
    + apply on_snap_self; [done|done|]. simpl. congruence.
    + intros k. rewrite (store_write_other _ _ _ _ k Es) by (by left). rewrite Hd. by destruct k.
    + intros snap Hin Hs. by destruct (Hlast snap Hin).
Qed.

Lemma op_inv D store s fl c op now s' a :
  flush_inv D store s fl c -> op_in_window cost b W (op, now) -> gov_exec interval cost b s op now = Some (s', a) ->
  (forall c, budget s' !! id = Some c -> bounded c) -> exists c', flush_inv D store s' fl c'.
Proof.
  intros [Hc Hw Hb Hd Hnd Hsnaps Hclean] Hop He Hbounded.
  destruct (gov_exec_lives _ _ _ _ _ _ _ _ _ _ Hop Hw Hc He) as (c' & Hc' & [Ew Eb En Ed]).
  exists c'. split; try done.
  - congruence.
  - by apply Hbounded.
  - intros k. by rewrite Hd, Eb.
  - intros snap Hin Hid. destruct (Hsnaps snap Hin Hid) as (old & -> & Hwo & Hbo & Hbase & Hnames & Hdirty).
    exists old. split; [done|]. split; [done|]. split; [done|]. split; [intros k; by rewrite Eb|].
    destruct Hb as [Hndc _]. destruct (En Hndc) as [_ Hsub]. split; [by etrans|].
    intros Hdc k. destruct (Ed Hdc) as [Hdc' Hcur]. rewrite Hcur. by apply Hdirty.
  - intros Hdc Hn k. destruct (Ed Hdc) as [Hdc' Hcur]. rewrite Hcur, Eb. by apply Hclean.
Qed.

Lemma flush_step_inv D store s fl c st' :
  (forall k, 0 <= D k <= I64_MAX) -> flush_inv D store s fl c -> FlushStep (store, s, fl) st' ->
  exists c', flush_inv D st'.1.1 st'.1.2 st'.2 c'.
Proof.
  intros HD Hi Hs. inversion Hs; subst; simpl.
  - eapply op_inv; eassumption.
  - eexists. by apply start_inv.
  - eapply write_inv; eassumption.
Qed.
End FlushSystem.

(** ** Hydration *)
Lemma hydrate_none read now bs : foldl (hydrate_bucket read now) None bs = None.
Proof. induction bs as [|x bs IH]; simpl; done. Qed.

Lemma hydrate_fold read now bs s s' :
  NoDup bs.*1 -> foldl (hydrate_bucket read now) (Some s) bs = Some s' ->
  (forall i, i ∉ bs.*1 -> budget s' !! i = budget s !! i) /\
  (forall i p, (i, p) ∈ bs -> exists l, read i (budget_window p now) = Some l /\
     budget s' !! i = if is_empty_ledger l then budget s !! i else Some (hydrated_cell (budget_window p now) l)).
Proof.
  revert s. induction bs as [|[i p] bs IH]; intros s Hnd Hf; simpl in Hf.
  - injection Hf as <-. split; [done|]. intros ? ? Hin. by apply not_elem_of_nil in Hin.
  - csimpl in Hnd. apply NoDup_cons in Hnd as [Hi Hnd]. simpl in Hf.
    destruct (read i (budget_window p now)) as [l|] eqn:Er; [|by rewrite hydrate_none in Hf].
    set (s1 := if is_empty_ledger l then s else set_budget (<[i := hydrated_cell (budget_window p now) l]> (budget s)) s).
    assert (foldl (hydrate_bucket read now) (Some s1) bs = Some s') as Hf1
      by (unfold s1; by destruct (is_empty_ledger l)).
    destruct (IH s1 Hnd Hf1) as [I1 I2].
    assert (forall j, j <> i -> budget s1 !! j = budget s !! j) as Hother.
    { intros j Hj. unfold s1. destruct (is_empty_ledger l); [done|]. simpl. by rewrite lookup_insert_ne. }
    split.
    + intros j Hj. csimpl in Hj. apply not_elem_of_cons in Hj as [Hj1 Hj2]. rewrite I1 by done. by apply Hother.
    + intros j q [[= -> ->]|Hin]%elem_of_cons.
      * exists l. split; [done|]. rewrite I1 by done. unfold s1. destruct (is_empty_ledger l); [done|].
        simpl. by rewrite lookup_insert_eq.
      * destruct (I2 j q Hin) as (l' & Hl' & ->). exists l'. split; [done|].
        destruct (is_empty_ledger l'); [|done]. apply Hother. intros ->. apply Hi, list_elem_of_fmap. by exists (i, q).
Qed.

Lemma hydrate_error read now bs s i p :
  (i, p) ∈ bs -> read i (budget_window p now) = None -> foldl (hydrate_bucket read now) (Some s) bs = None.
Proof.
  revert s. induction bs as [|[j q] bs IH]; intros s Hin Hr; [by apply not_elem_of_nil in Hin|]. simpl.
  apply elem_of_cons in Hin as [[= <- <-]|Hin].
  - rewrite Hr. apply hydrate_none.
  - destruct (read j (budget_window q now)) as [l|]; [|apply hydrate_none].
    destruct (is_empty_ledger l); by apply IH.
Qed.

(** The counters a hydrated cell resumes: those of the record, but the fee base of a record with no
    billable request is its whole request count. *)
Definition resumes (c : BudgetCell.t) (l : UsageLedger.t) : Prop :=
  (forall k, base_of c k = cur c k) /\ (forall k, k <> CBillable \/ UsageLedger.billable_requests l <> 0 -> cur c k = durable l k) /\ (UsageLedger.billable_requests l = 0 -> 0 <= UsageLedger.requests l ->
     cur c CBillable = UsageLedger.requests l).

Lemma hydrated_models w l m t :
  cur (hydrated_cell w l) (CTokens m t) = durable l (CTokens m t) /\ base_of (hydrated_cell w l) (CTokens m t) = durable l (CTokens m t).
Proof.
  simpl. unfold cur_entries, base_entries, BudgetCell.model_views. simpl. rewrite <- !list_fmap_compose.
  assert (forall ms : list (string * TierTokens.t), (fun m => (m.1, m.2)) <$> ms = ms) as Hid
    by (induction ms as [|[? ?] ms IH]; csimpl; [done|by rewrite IH]).
  split; (etrans; [|reflexivity]); f_equal; apply Hid.
Qed.

Lemma hydrated_resumes w l : resumes (hydrated_cell w l) l.
Proof.
  split; [|split].
  - intros [| |m t]; try done. by rewrite (proj1 (hydrated_models w l m t)), (proj2 (hydrated_models w l m t)).
  - intros [| |m t] Hk; [done| |apply hydrated_models]. simpl.
    destruct (Z.eqb_spec (UsageLedger.billable_requests l) 0); [|done]. by destruct Hk.
  - intros Hb Hr. simpl. rewrite Hb. simpl. destruct (Z.ltb_spec 0 (UsageLedger.requests l)); lia.
Qed.

(** ** Theorems *)

(** C34.  Flushes that do not overlap account exactly once: while a bucket's cell lives in its window, with
    counters below 2^63, from a durable record no lower than what the cell has acknowledged and a clean
    mark that is right, under any interleaving of admissions, accruals, refunds, flush starts (each after the previous
    flush is through, as the flusher's gate has it) and individual store writes, any of which may
    fail, the durable counters (admissions, billable requests, every model's tokens in every tier)
    have moved by exactly what the cell has acknowledged, and when the cell is clean with no write in
    flight, by exactly what the cell has counted: nothing is lost and nothing is counted twice.  (The store is
    any [LedgerStore]: a write that reports failure left the ledger unchanged.  A store that loses the
    acknowledgement of a write that landed, and a flush started while another is in flight, as the ungated
    last one of the process can be, count twice and are outside this theorem.) *)
Theorem flush_exactly_once {S} `{LedgerStore S} interval cost b W (store0 store : S) s0 s fl c0 :
  let id := ChainBucket.bucket_id b in
  budget s0 !! id = Some c0 -> BudgetCell.window_start c0 = W -> bounded c0 ->
  (BudgetCell.dirty c0 = false -> forall k, cur c0 k = base_of c0 k) ->
  (forall k, 0 <= durable (get_usage store0 id W) k - base_of c0 k <= I64_MAX) ->
  rtc (FlushStep interval cost b W) (store0, s0, []) (store, s, fl) ->
  exists c, budget s !! id = Some c /\
    (forall k, durable (get_usage store id W) k - durable (get_usage store0 id W) k = base_of c k - base_of c0 k) /\
    (BudgetCell.dirty c = false -> id ∉ DirtySnap.bucket_id <$> fl -> forall k,
       durable (get_usage store id W) k - durable (get_usage store0 id W) k = cur c k - base_of c0 k).
Proof.
  intros id Hc Hw Hb Hclean HD Hr.
  set (D k := durable (get_usage store0 id W) k - base_of c0 k).
  assert (flush_inv b W D store0 s0 [] c0) as H0.
  { split; try done.
    - intros k. subst D id. cbv beta. lia.
    - apply NoDup_nil_2.
    - intros snap Hin. by apply not_elem_of_nil in Hin.
    - intros Hd _. by apply Hclean. }
  assert (exists c, flush_inv b W D store s fl c) as (c & [Fc _ _ Fd _ _ Fclean]).
  { clear Hc Hb Hclean. remember (store0, s0, []) as st0 eqn:E0. remember (store, s, fl) as st eqn:E1.
    assert (exists c, flush_inv b W D st0.1.1 st0.1.2 st0.2 c) as Hx by (exists c0; by rewrite E0).
    assert (exists c, flush_inv b W D st.1.1 st.1.2 st.2 c) as Hy; [|by rewrite E1 in Hy].
    clear E0 E1 H0. induction Hr as [|[[x1 x2] x3] y z Hxy Hyz IH]; [done|]. apply IH.
    destruct Hx as [cx Hx]. eapply flush_step_inv; eassumption. }
  exists c. split; [done|]. split.
  - intros k. rewrite Fd. subst D id. cbv beta. lia.
  - intros Hd Hn k. rewrite Fd, (Fclean Hd Hn k). subst D id. cbv beta. lia.
Qed.

(** A restart resumes the durable ledger: hydration either fails the boot, when any bucket's
    record cannot be read, or leaves every key and group bucket whose record is not empty with a
    clean cell in the current window holding the durable counters as both its counts and its flushed
    baselines (so the next flush sends nothing twice), every other bucket being untouched.  The one
    counter that is not resumed as recorded is the fee base of a record with no billable request,
    which becomes its request count: right for a record older than the billable counter, and wrong
    for a window in which every request failed and was refunded. *)
Theorem hydration_resumes_ledger keys read cost s now :
  NoDup (hydration_buckets keys cost).*1 ->
  match hydrate_budgets (Some keys) read cost s now with
  | None => exists i p, (i, p) ∈ hydration_buckets keys cost /\ read i (budget_window p now) = None
  | Some s' =>
      (forall i, i ∉ (hydration_buckets keys cost).*1 -> budget s' !! i = budget s !! i) /\
      (forall i p, (i, p) ∈ hydration_buckets keys cost ->
         exists l, read i (budget_window p now) = Some l /\
           if is_empty_ledger l then budget s' !! i = budget s !! i
           else exists c, budget s' !! i = Some c /\ BudgetCell.window_start c = budget_window p now /\
                  BudgetCell.dirty c = false /\ resumes c l)
  end.
Proof.
  intros Hnd. unfold hydrate_budgets. set (bs := hydration_buckets keys cost) in *.
  destruct (foldl (hydrate_bucket read now) (Some s) bs) as [s'|] eqn:E.
  - destruct (hydrate_fold read now bs s s' Hnd E) as [H1 H2]. split; [done|]. intros i p Hin.
    destruct (H2 i p Hin) as (l & Hl & ->). exists l. split; [done|]. destruct (is_empty_ledger l); [done|].
    eexists. split; [done|]. split; [done|]. split; [done|]. apply hydrated_resumes.
  - assert (Exists (fun x => read x.1 (budget_window x.2 now) = None) bs) as Hex.
    { clear Hnd. revert s E. induction bs as [|[i p] bs IH]; intros s E; [done|]. simpl in E.
      destruct (read i (budget_window p now)) as [l|] eqn:Er; [|by constructor]. constructor 2.
      destruct (is_empty_ledger l); by eapply IH. }
    apply Exists_exists in Hex as ([i p] & Hin & Hr). by exists i, p.
Qed.

(** [flush_budgets] is one start followed by the writes of its snapshots. *)
Lemma flush_budgets_steps {S} `{LedgerStore S} interval cost b W (store : S) s :
  let '(store', s', _) := flush_budgets store s in
  rtc (FlushStep interval cost b W) (store, s, []) (store', s', []).
Proof.
  unfold flush_budgets. pose proof (FsStart interval cost b W store s) as Hstart.
  destruct (snapshot_dirty s) as [s1 snaps]. simpl in Hstart.
  destruct (foldl flush_one (store, s1, 0) snaps) as [[store' s'] n] eqn:E.
  eapply rtc_l; [exact Hstart|]. clear Hstart. revert store s1 E. generalize 0 as m.
  induction snaps as [|snap snaps IH]; intros m store s1 E; cbn [foldl] in E; [injection E as <- <- _; apply rtc_refl|].
  destruct (flush_one (store, s1, m) snap) as [[store2 s2] m2] eqn:E2.
  assert (exists n0, flush_one (store, s1, 0) snap = (store2, s2, n0)) as (n0 & E0).
  { clear E. unfold flush_one in *. destruct (if UsageDelta.is_zero _ then _ else _) as [st [|]]; injection E2 as <- <- _; by eexists. }
  eapply rtc_l; [by eapply FsWrite|]. by eapply IH.
Qed.

Definition one_admitted : GovState.t :=
  match try_admit 1000 demo_cost GovState.new demo_key "p" 61 with Some (s, _) => s | None => GovState.new end.

Definition flushed_demo : MemoryStore.t * GovState.t * Z := flush_budgets (∅ : MemoryStore.t) one_admitted.

Lemma flushed_demo_steps :
  rtc (FlushStep 1000 demo_cost team_minute 60) (∅ : MemoryStore.t, one_admitted, []) (flushed_demo.1.1, flushed_demo.1.2, []).
Proof.
  pose proof (flush_budgets_steps 1000 demo_cost team_minute 60 (∅ : MemoryStore.t) one_admitted) as Hr.
  fold flushed_demo in Hr. by destruct flushed_demo as [[store s] n].
Qed.

Lemma flush_exactly_once_witness :
  exists c, budget flushed_demo.1.2 !! "group:team@minute" = Some c /\
    durable (get_usage flushed_demo.1.1 "group:team@minute" 60) CRequests -
    durable (get_usage (∅ : MemoryStore.t) "group:team@minute" 60) CRequests = 1.
Proof.
  destruct (flush_exactly_once 1000 demo_cost team_minute 60 (∅ : MemoryStore.t) flushed_demo.1.1 one_admitted
    flushed_demo.1.2 [] (BudgetCell.charge (BudgetCell.fresh 60))) as (c & Hc & Hd & _).
  - vm_compute. reflexivity.
  - reflexivity.
  - split; [exact (NoDup_nil_2 (A := string))|]. intros [| |m t]; vm_compute; (split; split; discriminate).
  - intros Hf. discriminate Hf.
  - intros k. unfold get_usage. simpl. unfold MemoryStore.get, MemoryStore.t. rewrite lookup_empty. simpl.
    destruct k as [| |m t]; vm_compute; (split; discriminate).
  - exact flushed_demo_steps.
  - exists c. split; [exact Hc|]. etransitivity; [exact (Hd CRequests)|].
    assert ((fun c => base_of c CRequests) <$> (budget flushed_demo.1.2 !! "group:team@minute") = Some 1) as Hb
      by (vm_compute; reflexivity).
    change (ChainBucket.bucket_id team_minute) with "group:team@minute" in Hc. rewrite Hc in Hb.
    injection Hb as Hb. change (BudgetCell.flushed_requests c - 0 = 1). by rewrite Hb.
Defined.

(** Two flushes in flight at once, as when the last flush of the process starts before the flusher's has
    drained: the second snapshot is taken against the baseline the first has not acknowledged yet, and of two
    admissions the store counts three. *)
Example ungated_flush_counts_twice :
  let (s1, first) := snapshot_dirty one_admitted in
  match try_admit 1000 demo_cost s1 demo_key "p" 62 with
  | Some (s2, inr _) =>
      let (s3, second) := snapshot_dirty s2 in
      let '(store, s, _) := foldl flush_one (∅ : MemoryStore.t, s3, 0) (first ++ second) in
      durable (get_usage store "group:team@minute" 60) CRequests = 3 /\
      (flip cur CRequests <$> budget s !! "group:team@minute") = Some 2
  | _ => False
  end.
Proof. vm_compute. auto. Qed.

(** A restart in a window whose three requests were all refunded bills them again. *)
Lemma hydration_resumes_ledger_witness :
  let l := UsageLedger.mk 3 0 [("gpt", TierTokens.mk 10 20 0 0)] in
  match hydrate_budgets (Some [demo_key]) (fun i w => Some (if String.eqb i "vk_1" then l else UsageLedger.default))
          demo_cost GovState.new 61 with
  | Some s' => exists c, budget s' !! "vk_1" = Some c /\ cur c CRequests = 3 /\ cur c CBillable = 3 /\
                 cur c (CTokens "gpt" TOutput) = 20
  | None => False
  end.
Proof.
  intros l. set (read := fun (i : string) (w : Z) => Some (if String.eqb i "vk_1" then l else UsageLedger.default)).
  assert (NoDup (hydration_buckets [demo_key] demo_cost).*1) as Hnd by (apply (bool_decide_unpack _); vm_compute; exact I).
  pose proof (hydration_resumes_ledger [demo_key] read demo_cost GovState.new 61 Hnd) as Hh.
  destruct (hydrate_budgets (Some [demo_key]) read demo_cost GovState.new 61) as [s'|].
  - destruct Hh as [_ Hh]. destruct (Hh "vk_1" WINDOW_TOTAL) as (l' & Hl & Hc).
    { apply (bool_decide_unpack _). vm_compute. exact I. }
    assert (l' = l) as -> by (by injection Hl as <-). destruct Hc as (c & Hc & _ & _ & _ & Hk & Hb).
    exists c. split; [exact Hc|]. split; [apply (Hk CRequests); by left|]. split; [apply Hb; simpl; lia|].
    rewrite (Hk (CTokens "gpt" TOutput)) by (by left). reflexivity.
  - destruct Hh as (i & p & _ & Hr). discriminate Hr.
Defined.
