(* ===== verification/Select.v ===== *)
(** * Lane selection for one request (crates/busbar/src/proxy/select.rs)

    The request context (deadline, lanes already tried, pools visited, compliance restricts in
    force), and [pick_among], which chooses a lane, wins its recovery probe where one is due, and
    takes a concurrency permit.

    The clock, the semaphores and the wait for a permit are read at numbered points of the call
    ([PickEnv]): each [now()], [try_acquire] and await of the source is one point.  An await may be
    abandoned ([Cancelled]): the future is dropped and only the guard's destructor runs.  [None] is a
    panic (a lane out of range) or lack of fuel; both are excluded by theorem. *)
From stdpp Require Import base gmap list strings.
From Stdlib Require Import ZArith Lia.
From S2P Require Import Prelude Cell BreakerConfig Swrr Store.
Import InMemoryStore.
Open Scope Z_scope.
Open Scope rust_scope.

Module WeightedLane.
Record t := mk { idx : nat; weight : Z; reasoning : option bool; attempt_timeout_ms : option Z }.
End WeightedLane.

Inductive PolicyOnError := Weighted | Reject | First.

#[export] Instance PolicyOnError_eq_dec : EqDecision PolicyOnError.
Proof. solve_decision. Defined.

Module RestrictConstraint.
Record t := mk { tags_any : list string; on_empty : PolicyOnError; name : string }.
End RestrictConstraint.

Module RequestCtx.
Record t := mk {
  deadline : Z; excluded : gset nat; visited_pools : gset string;
  active_restricts : list RestrictConstraint.t }.

(** [start] is the reading of the clock. *)
Definition new (start deadline_secs : Z) : t := mk (sat_add_u64 start deadline_secs) ∅ ∅ [].
Definition expired (c : t) (now : Z) : bool := deadline c <=? now.
Definition remaining (c : t) (now : Z) : Z := sat_sub_u64 (deadline c) now.
Definition exclude (c : t) (lane : nat) : t :=
  mk (deadline c) ({[lane]} ∪ excluded c) (visited_pools c) (active_restricts c).
Definition mark_pool_visited (c : t) (pool : string) : t :=
  mk (deadline c) (excluded c) ({[pool]} ∪ visited_pools c) (active_restricts c).
Definition is_pool_visited (c : t) (pool : string) : bool := bool_decide (pool ∈ visited_pools c).
Definition fill_candidates (c : t) (cands : list WeightedLane.t) : list WeightedLane.t :=
  List.filter (fun wl => negb (bool_decide (WeightedLane.idx wl ∈ excluded c))) cands.
End RequestCtx.

(** ** Compliance restricts.  [members] is the tag table of the pool of this hop, if it has one. *)
Definition carries_tag (members : option (gmap nat (list string))) (r : RestrictConstraint.t)
    (wl : WeightedLane.t) : bool :=
  match members with
  | None => false
  | Some m =>
      match m !! WeightedLane.idx wl with
      | None => false
      | Some tags => existsb (fun t => existsb (fun w => String.eqb w t) (RestrictConstraint.tags_any r)) tags
      end
  end.

Fixpoint enforce_loop (members : option (gmap nat (list string))) (rs : list RestrictConstraint.t)
    (cands : list WeightedLane.t) : string + list WeightedLane.t :=
  match rs with
  | [] => inr cands
  | r :: rs =>
      match List.filter (carries_tag members r) cands with
      | [] =>
          if bool_decide (RestrictConstraint.on_empty r = Weighted)
          then enforce_loop members rs cands
          else inl (RestrictConstraint.name r)
      | (_ :: _) as restricted => enforce_loop members rs restricted
      end
  end.

Definition enforce_restricts (pool_runtime : gmap string (gmap nat (list string))) (c : RequestCtx.t)
    (pool_name : string) (cands : list WeightedLane.t) : string + list WeightedLane.t :=
  enforce_loop (pool_runtime !! pool_name) (RequestCtx.active_restricts c) cands.

(** ** One pick *)

(** How the wait for a permit ends. *)
Inductive Wait := Granted | SemClosed | TimedOut | Cancelled.

Module PickEnv.
Record t := mk {
  clock : nat -> Z; max_permits : Z; try_owned : nat -> SemHandle -> bool; wait : nat -> SemHandle -> Wait }.
End PickEnv.

Inductive Picked := Dispatch (lane : nat) (p : Permit) | NoLane | FutureDropped.

(** The ordered walk: the first ranked lane that is a candidate, not drained, and ready. *)
Fixpoint prefer (s : t) (pool : string) (cands : list (nat * Z)) (order : list nat) (now : Z)
    : option (t * option nat) :=
  match order with
  | [] => Some (s, None)
  | lane :: order =>
      match assoc lane cands with
      | Some w =>
          if w =? 0 then prefer s pool cands order now
          else
            let? (s, ok) := ready_for s pool lane now in
            if ok then Some (s, Some lane) else prefer s pool cands order now
      | None => prefer s pool cands order now
      end
  end.

Definition select_lane (s : t) (pool : string) (cands : list (nat * Z)) (policy_order : option (list nat))
    (now : Z) : option (t * option nat) :=
  match policy_order with
  | Some order =>
      let? (s, preferred) := prefer s pool cands order now in
      match preferred with
      | Some lane => Some (s, Some lane)
      | None => select_weighted_for s pool cands.*1 cands.*2 now
      end
  | None => select_weighted_for s pool cands.*1 cands.*2 now
  end.

(** From the won admission of [lane] to the end of the pick; [n] is the next reading.  The guard of
    the probe is dropped armed on every exit that dispatches nothing. *)
Definition take_permit (env : PickEnv.t) (s : t) (ctx : RequestCtx.t) (pool : string) (lane n : nat)
    : option (t * Picked) :=
  let? (s, epoch) := probe_epoch_in s pool lane in
  let abandon r := let? s := release_probe_owned_in s pool lane epoch in Some (s, r) in
  let? p := try_acquire (PickEnv.max_permits env) (PickEnv.try_owned env n) s lane in
  match p with
  | Some p => Some (s, Dispatch lane p)
  | None =>
      if RequestCtx.remaining ctx (PickEnv.clock env (n + 1)) =? 0 then abandon NoLane
      else
        let? sem := lane_semaphore s lane in
        match PickEnv.wait env (n + 2) sem with
        | Granted => Some (s, Dispatch lane Bounded)
        | SemClosed | TimedOut => abandon NoLane
        | Cancelled => abandon FutureDropped
        end
  end.

Definition pairs (cands : list WeightedLane.t) : list (nat * Z) :=
  (fun wl => (WeightedLane.idx wl, WeightedLane.weight wl)) <$> cands.

Fixpoint pick_loop (fuel : nat) (env : PickEnv.t) (s : t) (cands : list WeightedLane.t)
    (ctx : RequestCtx.t) (pool : string) (policy_order : option (list nat)) (local_excluded : gset nat)
    (n : nat) : option (t * Picked) :=
  match fuel with
  | O => None
  | S fuel =>
      if RequestCtx.expired ctx (PickEnv.clock env n) then Some (s, NoLane)
      else
        let filtered :=
          List.filter (fun wl => negb (bool_decide (WeightedLane.idx wl ∈ local_excluded)))
            (RequestCtx.fill_candidates ctx cands) in
        match filtered with
        | [] => Some (s, NoLane)
        | _ =>
            let? (s, picked) := select_lane s pool (pairs filtered) policy_order (PickEnv.clock env (n + 1)) in
            match picked with
            | None => Some (s, NoLane)
            | Some lane =>
                let? (s, won) := acquire_for_dispatch_in s pool lane (PickEnv.clock env (n + 2)) in
                if negb won
                then pick_loop fuel env s cands ctx pool policy_order ({[lane]} ∪ local_excluded) (n + 3)
                else take_permit env s ctx pool lane (n + 3)
            end
        end
  end.

(** The sticky lane of a session: tried first, kept only if a permit is free at once. *)
Definition sticky (env : PickEnv.t) (s : t) (cands : list WeightedLane.t) (ctx : RequestCtx.t)
    (affinity_key_hash : option Z) (pool : string) (now : Z) : option (t * option (nat * Permit)) :=
  match affinity_key_hash, cands with
  | Some h, _ :: _ =>
      let? wl := cands !! Z.to_nat (h mod Z.of_nat (length cands)) in
      let lane := WeightedLane.idx wl in
      if negb (WeightedLane.weight wl =? 0) && negb (bool_decide (lane ∈ RequestCtx.excluded ctx)) then
        let? (s, won) := usable_for s pool lane now in
        if won then
          let? p := try_acquire (PickEnv.max_permits env) (PickEnv.try_owned env 1) s lane in
          match p with
          | Some p => Some (s, Some (lane, p))
          | None => let? s := release_probe_in s pool lane in Some (s, None)
          end
        else Some (s, None)
      else Some (s, None)
  | _, _ => Some (s, None)
  end.

Definition pick_among (env : PickEnv.t) (s : t) (cands : list WeightedLane.t) (ctx : RequestCtx.t)
    (affinity_key_hash : option Z) (pool : string) (policy_order : option (list nat))
    : option (t * Picked) :=
  let? (s, stuck) := sticky env s cands ctx affinity_key_hash pool (PickEnv.clock env 0) in
  match stuck with
  | Some (lane, p) => Some (s, Dispatch lane p)
  | None => pick_loop (S (length cands)) env s cands ctx pool policy_order ∅ 2
  end.
