(* ===== verification/SelectProps.v ===== *)
(** * Lane selection: eligibility of the dispatched lane, no leaked probe, no stranded request

    [brk] is the part of a cell that decides admission.  A pick is [quiet] on the store when it
    leaves that part of every cell, existing or not yet created, as it was. *)
From stdpp Require Import base gmap list strings.
From Stdlib Require Import ZArith Lia.
From S2P Require Import Prelude Cell BreakerConfig CellFacts CellSteps Swrr Store StoreFacts StoreProps Select.

Import InMemoryStore.
Open Scope Z_scope.
Open Scope rust_scope.

Definition brk (c : BreakerCell.t) :=
  (BreakerCell.breaker_state c, BreakerCell.streak c, BreakerCell.cooldown_until c,
   BreakerCell.probe_in_flight c, BreakerCell.err c, BreakerCell.outcome_window c).

(** What a pool cell not yet created would inherit. *)
Definition heritage (c : BreakerCell.t) :=
  (if BreakerCell.breaker_state c =? ST_HALF_OPEN then ST_OPEN else BreakerCell.breaker_state c,
   BreakerCell.cooldown_until c, BreakerCell.streak c).

Lemma brk_heritage c c' : brk c' = brk c -> heritage c' = heritage c.
Proof. unfold brk, heritage. intros [= -> -> -> _ _ _]. done. Qed.

Lemma inherited_heritage l l' :
  heritage (LaneState.cell l') = heritage (LaneState.cell l) -> inherited_cell l' = inherited_cell l.
Proof. unfold heritage, inherited_cell. intros [= -> -> ->]. done. Qed.

(** ** One cell *)
Lemma acquire_cases c now :
  cell_wf c ->
  (cell_acquire_breaker c now = (c, (cell_acquire_breaker c now).2) \/
   (BreakerCell.breaker_state c = ST_OPEN /\ (cell_acquire_breaker c now).2 = true /\
    exists e, (cell_acquire_breaker c now).1 =
      BreakerCell.set_probe true (BreakerCell.set_epoch e (BreakerCell.set_state ST_HALF_OPEN c)))).
Proof.
  intros Hwf. unfold cell_acquire_breaker, acquire_locked, cas_state.
  destruct (BreakerCell.breaker_state c =? ST_CLOSED); [by left|].
  destruct (BreakerCell.breaker_state c =? ST_OPEN) eqn:Eo; simpl;
    [|by destruct (BreakerCell.breaker_state c =? ST_HALF_OPEN); left].
  destruct (BreakerCell.cooldown_until c <=? now) eqn:Ec; [|by left].
  destruct (now <? BreakerCell.cooldown_until c); simpl; [by left|].
  right. apply Z.eqb_eq in Eo. split; [done|]. split; [done|]. by eexists.
Qed.

Lemma acquire_not_half c now :
  (cell_acquire_breaker c now).2 = true -> BreakerCell.breaker_state c <> ST_HALF_OPEN.
Proof.
  unfold cell_acquire_breaker. intros Ha Hs. rewrite Hs in Ha. discriminate Ha.
Qed.

(** Winning and then releasing, as the owner or not, leaves the breaker as it was. *)
Lemma acquire_release c now :
  cell_wf c -> (cell_acquire_breaker c now).2 = true ->
  brk (cell_release_probe (cell_acquire_breaker c now).1) = brk c.
Proof.
  intros Hwf Ha. pose proof (acquire_not_half c now Ha) as Hh.
  assert (BreakerCell.probe_in_flight c = false) as Hp.
  { destruct (BreakerCell.probe_in_flight c) eqn:E; [|done]. by apply (wf_probe c Hwf) in E. }
  destruct (acquire_cases c now Hwf) as [->|(Ho & _ & e & ->)]; unfold brk, cell_release_probe, cas_state; simpl.
  - destruct (Z.eqb_spec (BreakerCell.breaker_state c) ST_HALF_OPEN); [done|]. simpl. by rewrite Hp.
  - by rewrite Ho, Hp.
Qed.

Lemma release_own c : cell_release_probe_owned c (BreakerCell.probe_epoch c) = cell_release_probe c.
Proof. unfold cell_release_probe_owned. by rewrite Z.eqb_refl. Qed.

Lemma acquire_refused c now : cell_wf c -> (cell_acquire_breaker c now).2 = false -> (cell_acquire_breaker c now).1 = c.
Proof. intros Hwf Ha. destruct (acquire_cases c now Hwf) as [->|(_ & Ht & _)]; [done|congruence]. Qed.

Lemma acquire_heritage c now : cell_wf c -> heritage (cell_acquire_breaker c now).1 = heritage c.
Proof.
  intros Hwf. destruct (acquire_cases c now Hwf) as [->|(Ho & _ & e & ->)]; [done|].
  unfold heritage. simpl. by rewrite Ho.
Qed.

(** Admission only looks at the breaker. *)
Lemma acquire_brk c1 c2 now :
  brk c1 = brk c2 ->
  (cell_acquire_breaker c1 now).2 = (cell_acquire_breaker c2 now).2 /\
  brk (cell_acquire_breaker c1 now).1 = brk (cell_acquire_breaker c2 now).1.
Proof.
  destruct c1, c2. unfold brk, cell_acquire_breaker, acquire_locked, cas_state. simpl.
  intros [= -> -> -> -> -> ->]. by repeat case_match; simplify_eq.
Qed.

Lemma ready_brk c1 c2 now : brk c1 = brk c2 -> cell_ready_breaker c1 now = cell_ready_breaker c2 now.
Proof. destruct c1, c2. unfold brk, cell_ready_breaker. simpl. by intros [= -> -> -> -> -> ->]. Qed.

(** A ready cell admits at any later reading. *)
Lemma ready_acquire c now now' :
  cell_ready_breaker c now = true -> now <= now' -> (cell_acquire_breaker c now').2 = true.
Proof.
  unfold cell_ready_breaker, cell_acquire_breaker, acquire_locked, cas_state. intros Hr Hn.
  destruct (BreakerCell.breaker_state c =? ST_CLOSED); [apply Z.leb_le in Hr; apply Z.leb_le; lia|].
  destruct (BreakerCell.breaker_state c =? ST_OPEN); [|by destruct (_ =? ST_HALF_OPEN)].
  apply Z.leb_le in Hr. rewrite (proj2 (Z.leb_le _ now')) by lia. simpl.
  rewrite (proj2 (Z.ltb_ge now' _)) by lia. done.
Qed.

(** ** Quiet transitions of the store *)

(** What the admission of a lane reads besides its breaker. *)
Definition books (s : t) : list (Z * bool * bool) :=
  (fun l => (LaneState.budget l, LaneState.limited l, LaneState.dead l)) <$> lanes s.

Lemma books_length s s' : books s' = books s -> length (lanes s') = length (lanes s).
Proof. intros E. apply (f_equal length) in E. unfold books in E. by rewrite !length_fmap in E. Qed.

Lemma books_update s lane f :
  (forall l, (LaneState.budget (f l), LaneState.limited (f l), LaneState.dead (f l)) =
             (LaneState.budget l, LaneState.limited l, LaneState.dead l)) ->
  books (update_lane s lane f) = books s.
Proof.
  intros Hf. unfold books, update_lane, set_lanes. cbn [lanes].
  apply list_eq. intros i. rewrite !list_lookup_fmap. destruct (decide (lane = i)) as [<-|Hne].
  - rewrite list_lookup_alter_eq. destruct (lanes s !! lane); [|done]. cbn. by rewrite Hf.
  - by rewrite list_lookup_alter_ne.
Qed.

Lemma books_put s pool lane c : books (put_cell s pool lane c) = books s.
Proof. unfold put_cell. destruct (String.eqb pool ""); [|done]. by apply books_update. Qed.

Lemma books_lanes s s' : lanes s' = lanes s -> books s' = books s.
Proof. unfold books. by intros ->. Qed.

Record quiet (s s' : t) : Prop := {
  q_wf : store_wf s';
  q_len : length (lanes s') = length (lanes s);
  q_adm : forall l, lane_admissible s' l = lane_admissible s l;
  q_books : books s' = books s;
  q_brk : forall p l, brk <$> view s' p l = brk <$> view s p l }.

Lemma quiet_refl s : store_wf s -> quiet s s.
Proof. by split. Qed.

Lemma quiet_trans s1 s2 s3 : quiet s1 s2 -> quiet s2 s3 -> quiet s1 s3.
Proof. intros [? ? A1 K1 B1] [? ? A2 K2 B2]. split; [done|congruence|intros; by rewrite A2, A1|congruence|intros; by rewrite B2, B1]. Qed.

Lemma quiet_same s s' :
  store_wf s' -> lanes s' = lanes s -> (forall p l, view s' p l = view s p l) -> quiet s s'.
Proof.
  intros Hwf Hl Hv. split; [done|by rewrite Hl| |by apply books_lanes|].
  - intros l. by apply lane_admissible_lanes.
  - intros p l. by rewrite Hv.
Qed.

Lemma put_admissible s pool lane c l : lane_admissible (put_cell s pool lane c) l = lane_admissible s l.
Proof.
  unfold put_cell. destruct (String.eqb pool ""); [|done]. unfold lane_admissible.
  destruct (decide (lane = l)) as [->|Hne]; [|by rewrite get_update_lane_ne].
  rewrite get_update_lane_eq. by destruct (get_lane s l).
Qed.

(** Writing a cell with the same heritage does not move the breaker of any other address. *)
Lemma put_other s pool lane c c' p l :
  cell s pool lane = Some (s, c) -> heritage c' = heritage c -> ~ (p = pool /\ l = lane) ->
  view (put_cell s pool lane c') p l = view s p l.
Proof.
  intros Hc Hh Hne. destruct (decide (pool = "")) as [->|Hp].
  - unfold cell in Hc. simpl in Hc. destruct (get_lane s lane) as [ls|] eqn:El; [|done]. injection Hc as <-.
    unfold put_cell, view. simpl. rewrite update_lane_cells.
    destruct (decide (lane = l)) as [<-|Hl]; [|by rewrite get_update_lane_ne].
    rewrite get_update_lane_eq, El. simpl. destruct (String.eqb_spec p "") as [->|Hpp]; [by destruct Hne|].
    destruct (assoc p (lane_cells s lane)); [done|]. f_equal. by apply inherited_heritage.
  - rewrite (view_put_pool s pool lane c c') by done. by rewrite decide_False.
Qed.

Lemma put_self s pool lane c c' : cell s pool lane = Some (s, c) -> view (put_cell s pool lane c') pool lane = Some c'.
Proof. intros Hc. rewrite view_put; [by rewrite decide_True|]. apply present_cell. by exists c. Qed.

Lemma put_quiet s pool lane c c' :
  store_wf s -> in_range s lane -> cell_wf c' -> cell s pool lane = Some (s, c) -> brk c' = brk c ->
  quiet s (put_cell s pool lane c').
Proof.
  intros Hwf Hr Hc' Hc Hb. split.
  - by apply put_cell_wf.
  - apply put_cell_length.
  - intros l. apply put_admissible.
  - apply books_put.
  - intros p l. destruct (decide (p = pool /\ l = lane)) as [[-> ->]|Hne].
    + rewrite (put_self s pool lane c c' Hc), view_cell, Hc. simpl. by rewrite Hb.
    + by rewrite (put_other s pool lane c c') by (done || by apply brk_heritage).
Qed.

Lemma view_wf s pool lane : store_wf s -> in_range s lane -> exists c, view s pool lane = Some c /\ cell_wf c.
Proof.
  intros Hwf Hr. destruct (cell_resolves s pool lane Hwf Hr) as (s1 & c & Hc & _ & Hcw & _).
  exists c. by rewrite view_cell, Hc.
Qed.

(** The resolution of a cell, as it enters every operation. *)
Lemma cell_quiet s pool lane s1 c :
  store_wf s -> in_range s lane -> cell s pool lane = Some (s1, c) ->
  store_wf s1 /\ in_range s1 lane /\ cell_wf c /\ cell s1 pool lane = Some (s1, c) /\
  view s pool lane = Some c /\ lanes s1 = lanes s /\ (forall p l, view s1 p l = view s p l).
Proof.
  intros Hwf Hr Hc. destruct (cell_resolves s pool lane Hwf Hr) as (s2 & c2 & Hc2 & Hwf2 & Hcw & Hl).
  rewrite Hc in Hc2. injection Hc2 as <- <-.
  destruct (cell_view _ _ _ _ _ Hc) as (Hv & Hself & _ & Hvv). unfold in_range. rewrite Hl. auto 10.
Qed.

(** [lane] was admitted through [pool]: the cell [c] it had took the acquisition, nothing else moved. *)
Record won (s : t) (pool : string) (lane : nat) (now : Z) (s' : t) (c : BreakerCell.t) : Prop := {
  w_wf : store_wf s';
  w_len : length (lanes s') = length (lanes s);
  w_adm : forall l, lane_admissible s' l = lane_admissible s l;
  w_books : books s' = books s;
  w_admitted : lane_admissible s lane = Some true;
  w_cell : view s pool lane = Some c;
  w_cell_wf : cell_wf c;
  w_acquired : (cell_acquire_breaker c now).2 = true;
  w_self : view s' pool lane = Some (cell_acquire_breaker c now).1;
  w_other : forall p l, ~ (p = pool /\ l = lane) -> view s' p l = view s p l }.

Lemma usable_spec s pool lane now s' b :
  store_wf s -> in_range s lane -> usable_for s pool lane now = Some (s', b) ->
  if b then exists c, won s pool lane now s' c
  else quiet s s' /\ (forall p l, view s' p l = view s p l) /\
       (lane_admissible s lane = Some true -> forall c, view s pool lane = Some c -> (cell_acquire_breaker c now).2 = false).
Proof.
  intros Hwf Hr Hu. unfold usable_for in Hu. destruct (lane_admissible s lane) as [adm|] eqn:Ea; [|done].
  destruct adm; simpl in Hu; [|injection Hu as <- <-; split; [by apply quiet_refl|done]].
  unfold on_cell, pure_op in Hu. destruct (cell s pool lane) as [[s1 c]|] eqn:Hc; [|done].
  destruct (cell_quiet s pool lane s1 c Hwf Hr Hc) as (Hwf1 & Hr1 & Hcw & Hself & Hv & Hl & Hvv).
  assert (forall l, lane_admissible s1 l = lane_admissible s l) as Hadm by (intros l; by apply lane_admissible_lanes).
  pose proof (cell_acquire_breaker_wf c now Hcw) as Hw'. pose proof (acquire_heritage c now Hcw) as Hh.
  pose proof (acquire_refused c now Hcw) as Href.
  destruct (cell_acquire_breaker c now) as [c' a] eqn:Eq. simpl in Hw', Hh, Href. injection Hu as <- <-.
  destruct a.
  - exists c. split; rewrite ?Eq; try done.
    + by apply put_cell_wf.
    + by rewrite put_cell_length, Hl.
    + intros l. by rewrite put_admissible.
    + rewrite books_put. by apply books_lanes.
    + by eapply put_self.
    + intros p l Hne. by rewrite (put_other s1 pool lane c c'), Hvv.
  - rewrite (Href eq_refl) in *.
    assert (forall p l, view (put_cell s1 pool lane c) p l = view s p l) as Hsame.
    { intros p l. destruct (decide (p = pool /\ l = lane)) as [[-> ->]|Hne].
      - by rewrite (put_self s1 pool lane c c Hself).
      - by rewrite (put_other s1 pool lane c c), Hvv. }
    split; [|split; [done|]].
    + split; [by apply put_cell_wf|by rewrite put_cell_length, Hl|intros l; by rewrite put_admissible| |].
      { rewrite books_put. by apply books_lanes. }
      intros p l. by rewrite Hsame.
    + intros _ c0 Hc0. rewrite Hv in Hc0. injection Hc0 as <-. by rewrite Eq.
Qed.

(** Releasing a won admission makes the whole detour quiet. *)
Lemma won_release s pool lane now s1 c (f : BreakerCell.t -> BreakerCell.t) s2 :
  in_range s lane -> won s pool lane now s1 c ->
  f (cell_acquire_breaker c now).1 = cell_release_probe (cell_acquire_breaker c now).1 ->
  fst <$> on_cell s1 pool lane (pure_op (fun c => (f c, tt))) = Some s2 -> quiet s s2.
Proof.
  intros Hr Hw Hf Ho. destruct Hw as [Hwf Hl Ha Hbk _ Hv Hcw Hacq Hs Hoth].
  destruct (on_cell s1 pool lane _) as [[s3 u]|] eqn:Eo; [|done]. injection Ho as <-.
  unfold on_cell, pure_op in Eo. destruct (cell s1 pool lane) as [[s4 c4]|] eqn:Ec; [|done].
  assert (in_range s1 lane) as Hr1 by (unfold in_range; by rewrite Hl).
  destruct (cell_quiet s1 pool lane s4 c4 Hwf Hr1 Ec) as (Hwf4 & Hr4 & _ & Hself & Hv4 & Hl4 & Hvv).
  rewrite Hs in Hv4. injection Hv4 as <-. rewrite Hf in Eo. injection Eo as <- <-.
  pose proof (acquire_release c now Hcw Hacq) as Hb.
  assert (heritage (cell_release_probe (cell_acquire_breaker c now).1) = heritage (cell_acquire_breaker c now).1) as Hh
    by (rewrite (brk_heritage _ _ Hb); by rewrite acquire_heritage).
  split.
  - apply put_cell_wf; [done|done|]. by apply cell_release_probe_wf, cell_acquire_breaker_wf.
  - by rewrite put_cell_length, Hl4, Hl.
  - intros l. rewrite put_admissible, <- Ha. by apply lane_admissible_lanes.
  - rewrite books_put, <- Hbk. by apply books_lanes.
  - intros p l. destruct (decide (p = pool /\ l = lane)) as [[-> ->]|Hne].
    + rewrite (put_self s4 pool lane _ _ Hself), Hv. simpl. by rewrite Hb.
    + rewrite (put_other s4 pool lane _ _ p l Hself Hh Hne), Hvv. by rewrite Hoth.
Qed.

(** ** The selection step *)

(** Steps that at most create cells. *)
Definition same (s s' : t) : Prop :=
  store_wf s' /\ lanes s' = lanes s /\ (forall p l, view s' p l = view s p l).

Lemma same_quiet s s' : same s s' -> quiet s s'.
Proof. intros (Hwf & Hl & Hv). by apply quiet_same. Qed.

Lemma same_trans s1 s2 s3 : same s1 s2 -> same s2 s3 -> same s1 s3.
Proof. intros (_ & L1 & V1) (W2 & L2 & V2). split; [done|]. split; [congruence|]. intros. by rewrite V2, V1. Qed.

Lemma ready_spec s pool lane now :
  store_wf s -> in_range s lane ->
  exists s' b, ready_for s pool lane now = Some (s', b) /\ same s s' /\
    (forall w, b = true -> w <> 0 -> eligible s pool now (lane, w) = true).
Proof.
  intros Hwf Hr. unfold ready_for. destruct (lane_admissible_Some s lane Hr) as [adm Ha]. rewrite Ha.
  destruct adm; simpl; [|by exists s, false].
  destruct (cell_resolves s pool lane Hwf Hr) as (s1 & c & Hc & Hwf1 & _). rewrite Hc.
  destruct (cell_quiet s pool lane s1 c Hwf Hr Hc) as (_ & _ & _ & _ & Hv & Hl & Hvv).
  eexists _, _. split; [done|]. split; [done|]. intros w Hb Hw. unfold eligible. simpl. rewrite Ha, Hv, Hb.
  by destruct (Z.eqb_spec w 0).
Qed.

Definition picks_eligible (s : t) (pool : string) (now : Z) (cands : list (nat * Z)) (r : option nat) : Prop :=
  match r with
  | Some lane => exists w, (lane, w) ∈ cands /\ eligible s pool now (lane, w) = true
  | None => True
  end.

Lemma same_picks s s' pool now cands r :
  same s s' -> picks_eligible s' pool now cands r -> picks_eligible s pool now cands r.
Proof.
  intros (_ & Hl & Hv). destruct r as [lane|]; [|done]. intros (w & Hin & He). exists w. split; [done|].
  by rewrite <- (eligible_ext s s' pool now _ Hl Hv).
Qed.

Lemma prefer_spec s pool cands order now :
  store_wf s -> Forall (fun e => in_range s e.1) cands ->
  exists s' r, prefer s pool cands order now = Some (s', r) /\ same s s' /\ picks_eligible s pool now cands r.
Proof.
  revert s. induction order as [|lane order IH]; intros s Hwf HF; simpl; [by exists s, None|].
  destruct (assoc lane cands) as [w|] eqn:Ea; [|by apply IH].
  destruct (Z.eqb_spec w 0) as [|Hw]; [by apply IH|].
  apply assoc_elem in Ea as Hin.
  assert (in_range s lane) as Hr by (rewrite Forall_forall in HF; by apply (HF (lane, w))).
  destruct (ready_spec s pool lane now Hwf Hr) as (s1 & b & -> & Hs1 & He).
  destruct b; [exists s1, (Some lane); split; [done|]; split; [done|]; exists w; auto|].
  destruct Hs1 as (Hwf1 & Hl1 & Hv1).
  destruct (IH s1 Hwf1) as (s2 & r & -> & Hs2 & Hp).
  { eapply Forall_impl; [exact HF|]. intros e. unfold in_range. by rewrite Hl1. }
  exists s2, r. split; [done|]. split; [by eapply same_trans|]. by eapply same_picks.
Qed.

Lemma add_weight_quiet s pool e :
  store_wf s -> in_range s e.1 -> present s pool e.1 -> quiet s (add_weight pool s e).
Proof.
  intros Hwf Hr Hp. apply present_cell in Hp as [c Hc]. unfold add_weight. rewrite Hc.
  destruct (cell_quiet s pool e.1 s c Hwf Hr Hc) as (_ & _ & Hcw & _).
  apply (put_quiet s pool e.1 c); try done. by apply set_weight_wf.
Qed.

Lemma fold_add_quiet s pool h :
  store_wf s -> Forall (fun e => in_range s e.1 /\ present s pool e.1) h ->
  quiet s (foldl (add_weight pool) s h).
Proof.
  revert s. induction h as [|e h IH]; intros s Hwf HF; simpl; [by apply quiet_refl|].
  apply Forall_cons in HF as [[Hr Hp] HF]. pose proof (add_weight_quiet s pool e Hwf Hr Hp) as Hq.
  eapply quiet_trans; [exact Hq|]. apply IH; [apply Hq|]. eapply Forall_impl; [exact HF|].
  intros x [Hx1 Hx2]. split; [unfold in_range; by rewrite (q_len _ _ Hq)|by apply add_weight_present].
Qed.

Lemma swrr_shard_same s pool : store_wf s -> same s (swrr_shard s pool).1.
Proof.
  intros Hwf. split; [by apply swrr_shard_wf|]. destruct (swrr_shard_frame s pool) as [Hl _].
  split; [done|]. intros p l. apply swrr_shard_view.
Qed.

Lemma select_weighted_spec s pool cands now :
  store_wf s -> Forall (fun e => in_range s e.1) cands ->
  exists s' r, select_weighted_for s pool cands.*1 cands.*2 now = Some (s', r) /\ quiet s s' /\
    picks_eligible s pool now cands r.
Proof.
  intros Hwf HF. unfold select_weighted_for. rewrite zip_fst_snd.
  destruct (healthy_scan_total s pool cands now Hwf HF) as (s1 & h & Hh & Hwf1 & Hl1). rewrite Hh.
  destruct (healthy_scan_spec _ _ _ _ _ _ Hh) as (Eh & _ & Hv1 & _ & Hpres).
  assert (same s s1) as Hs1 by done.
  destruct h as [|e h']; [exists s1, None; split; [done|]; split; [by apply same_quiet|done]|].
  set (h := e :: h') in *.
  pose proof (swrr_shard_same s1 pool Hwf1) as Hs2. pose proof (swrr_shard_present s1 pool pool) as Hp2.
  destruct (swrr_shard s1 pool) as [s2 idx]. simpl in Hs2, Hp2.
  assert (forall x, x ∈ h -> x ∈ cands /\ eligible s pool now x = true) as Hin.
  { intros x Hx. rewrite Eh in Hx. apply list_elem_of_In in Hx. apply filter_In in Hx as [Hx He].
    split; [by apply list_elem_of_In|done]. }
  pose proof (same_trans _ _ _ Hs1 Hs2) as Hs02. destruct Hs02 as (Hwf2 & Hl2 & Hv2).
  assert (forall l, in_range s l -> in_range s2 l) as Hr2 by (intros l; unfold in_range; by rewrite Hl2).
  assert (Forall (fun e => in_range s2 e.1 /\ present s2 pool e.1) h) as HF2.
  { rewrite Forall_forall in HF, Hpres |- *. intros x Hx. split; [|by apply Hp2, Hpres].
    apply Hr2, HF. by apply Hin. }
  pose proof (fold_add_quiet s2 pool h Hwf2 HF2) as Hq3. set (s3 := foldl (add_weight pool) s2 h) in *.
  assert (quiet s s3) as Hq by (eapply quiet_trans; [apply same_quiet; split; [exact Hwf2|done]|exact Hq3]).
  destruct (find_best _ _ _ _) as [i|]; [|by exists s3, None].
  destruct (h !! i) as [[lane w]|] eqn:Hi; [|by exists s3, None].
  apply list_elem_of_lookup_2 in Hi as Hi'.
  eexists _, _. split; [done|]. split; [|exists w; by apply Hin].
  eapply quiet_trans; [exact Hq|]. apply add_weight_quiet; [apply Hq| |].
  - simpl. unfold in_range. rewrite (q_len _ _ Hq3). rewrite Forall_forall in HF2. apply (HF2 _ Hi').
  - simpl. apply fold_add_present. rewrite Forall_forall in HF2. apply (HF2 _ Hi').
Qed.

Lemma select_lane_spec s pool cands order now :
  store_wf s -> Forall (fun e => in_range s e.1) cands ->
  exists s' r, select_lane s pool cands order now = Some (s', r) /\ quiet s s' /\
    picks_eligible s pool now cands r.
Proof.
  intros Hwf HF. unfold select_lane. destruct order as [order|]; [|by apply select_weighted_spec].
  destruct (prefer_spec s pool cands order now Hwf HF) as (s1 & r & -> & Hs1 & Hp).
  destruct r as [lane|]; [exists s1, (Some lane); split; [done|]; split; [by apply same_quiet|done]|].
  destruct Hs1 as (Hwf1 & Hl1 & Hv1).
  destruct (select_weighted_spec s1 pool cands now Hwf1) as (s2 & r2 & -> & Hq & Hp2).
  { eapply Forall_impl; [exact HF|]. intros e. unfold in_range. by rewrite Hl1. }
  exists s2, r2. split; [done|]. split.
  - eapply quiet_trans; [by apply same_quiet|exact Hq].
  - by eapply same_picks.
Qed.

(** ** From the admission to the permit *)
Lemma won_same s0 pool lane now s c s1 : won s0 pool lane now s c -> same s s1 -> won s0 pool lane now s1 c.
Proof.
  intros [W L A K Ad V Cw Q S O] (W1 & L1 & V1). split; try done.
  - by rewrite L1.
  - intros l. rewrite <- A. by apply lane_admissible_lanes.
  - rewrite <- K. by apply books_lanes.
  - by rewrite V1.
  - intros p l Hne. by rewrite V1, O.
Qed.

Lemma won_abandon s0 pool lane now s c (f : BreakerCell.t -> BreakerCell.t) :
  in_range s0 lane -> won s0 pool lane now s c -> (forall c, cell_wf c -> cell_wf (f c)) ->
  f (cell_acquire_breaker c now).1 = cell_release_probe (cell_acquire_breaker c now).1 ->
  exists s', fst <$> on_cell s pool lane (pure_op (fun c => (f c, tt))) = Some s' /\ quiet s0 s'.
Proof.
  intros Hr Hw Hf He.
  destruct (on_cell_unit_keeps s pool lane f (w_wf _ _ _ _ _ _ Hw)) as (s' & Hs & _); [|done|].
  { unfold in_range. by rewrite (w_len _ _ _ _ _ _ Hw). }
  exists s'. split; [done|]. by eapply won_release.
Qed.

Lemma take_permit_spec env s0 s ctx pool lane now n c :
  in_range s0 lane -> won s0 pool lane now s c ->
  exists s' r, take_permit env s ctx pool lane n = Some (s', r) /\
    match r with Dispatch l _ => l = lane /\ won s0 pool lane now s' c | _ => quiet s0 s' end.
Proof.
  intros Hr Hw. unfold take_permit, probe_epoch_in.
  assert (in_range s lane) as Hr1 by (unfold in_range; by rewrite (w_len _ _ _ _ _ _ Hw)).
  destruct (cell_resolves s pool lane (w_wf _ _ _ _ _ _ Hw) Hr1) as (s1 & c1 & Hc & _). rewrite Hc.
  destruct (cell_quiet s pool lane s1 c1 (w_wf _ _ _ _ _ _ Hw) Hr1 Hc) as (Hwf1 & Hr2 & _ & _ & Hv1 & Hl1 & Hvv).
  rewrite (w_self _ _ _ _ _ _ Hw) in Hv1. injection Hv1 as <-.
  assert (won s0 pool lane now s1 c) as Hw1 by (by apply (won_same s0 pool lane now s)).
  set (epoch := BreakerCell.probe_epoch _).
  assert (exists s', release_probe_owned_in s1 pool lane epoch = Some s' /\ quiet s0 s') as (s' & Hrel & Hq).
  { apply (won_abandon s0 pool lane now s1 c (fun c => cell_release_probe_owned c epoch)); [done|done| |].
    - intros c'. apply cell_release_probe_owned_wf.
    - apply release_own. }
  rewrite Hrel. unfold try_acquire, lane_semaphore. destruct (get_lane_Some s1 lane Hr2) as [ls ->].
  destruct (PickEnv.max_permits env <=? _); [by eexists _, _|].
  destruct (PickEnv.try_owned env n _); [by eexists _, _|].
  destruct (_ =? 0); [by eexists _, _|].
  destruct (PickEnv.wait env (n + 2) _); by eexists _, _.
Qed.

(** ** The loop *)

(** The effect of a dispatch, stated on the store the pick started from. *)
Record dispatched (s : t) (pool : string) (lane : nat) (now : Z) (s' : t) : Prop := {
  d_wf : store_wf s';
  d_books : books s' = books s;
  d_adm : lane_admissible s lane = Some true;
  d_cell : exists c, view s pool lane = Some c /\ (cell_acquire_breaker c now).2 = true /\
             brk <$> view s' pool lane = Some (brk (cell_acquire_breaker c now).1);
  d_other : forall p l, ~ (p = pool /\ l = lane) -> brk <$> view s' p l = brk <$> view s p l }.

Lemma quiet_won s s1 pool lane now s2 c :
  quiet s s1 -> won s1 pool lane now s2 c -> dispatched s pool lane now s2.
Proof.
  intros [Q1 Q2 Q3 QK Q4] [W L A K Ad V Cw Q S O]. split; [done|congruence|by rewrite <- Q3| |].
  - pose proof (Q4 pool lane) as Hb. rewrite V in Hb. destruct (view s pool lane) as [c0|]; [|done].
    injection Hb as Hb. destruct (acquire_brk c c0 now) as [E1 E2]; [unfold brk; congruence|].
    exists c0. split; [done|]. split; [by rewrite <- E1|]. rewrite S. simpl. by rewrite E2.
  - intros p l Hne. by rewrite O, Q4.
Qed.

Definition outcome (env : PickEnv.t) (s : t) (cands : list WeightedLane.t) (ctx : RequestCtx.t)
    (pool : string) (s' : t) (r : Picked) : Prop :=
  match r with
  | Dispatch lane _ =>
      exists wl n, wl ∈ cands /\ WeightedLane.idx wl = lane /\ WeightedLane.weight wl <> 0 /\
        lane ∉ RequestCtx.excluded ctx /\ dispatched s pool lane (PickEnv.clock env n) s'
  | NoLane | FutureDropped => quiet s s'
  end.

Lemma outcome_quiet env s s1 cands ctx pool s' r :
  quiet s s1 -> outcome env s1 cands ctx pool s' r -> outcome env s cands ctx pool s' r.
Proof.
  intros Hq Ho. destruct r as [lane p| |]; simpl in *; [|by eapply quiet_trans|by eapply quiet_trans].
  destruct Ho as (wl & n & Hin & Hi & Hw & Hx & [D1 DK D2 (c & Dv & Da & Db) D4]). exists wl, n.
  do 4 (split; [done|]). destruct Hq as [Q1 Q2 Q3 QK Q4]. split; [done|congruence|by rewrite <- Q3| |].
  - pose proof (Q4 pool lane) as Hb. rewrite Dv in Hb. destruct (view s pool lane) as [c0|]; [|done].
    injection Hb as Hb. destruct (acquire_brk c c0 (PickEnv.clock env n)) as [E1 E2]; [unfold brk; congruence|].
    exists c0. split; [done|]. split; [by rewrite <- E1|]. by rewrite Db, E2.
  - intros p' l Hne. by rewrite D4, Q4.
Qed.

(** The candidates still open to the loop. *)
Definition open_cands (ctx : RequestCtx.t) (local : gset nat) (cands : list WeightedLane.t) : list WeightedLane.t :=
  List.filter (fun wl => negb (bool_decide (WeightedLane.idx wl ∈ local))) (RequestCtx.fill_candidates ctx cands).

Lemma open_cands_elem ctx local cands wl :
  wl ∈ open_cands ctx local cands <->
  wl ∈ cands /\ WeightedLane.idx wl ∉ RequestCtx.excluded ctx /\ WeightedLane.idx wl ∉ local.
Proof.
  unfold open_cands, RequestCtx.fill_candidates. rewrite !list_elem_of_In, !filter_In.
  rewrite !negb_true_iff, !bool_decide_eq_false. naive_solver.
Qed.

Lemma open_cands_shrink ctx local cands wl :
  wl ∈ open_cands ctx local cands ->
  (length (open_cands ctx ({[WeightedLane.idx wl]} ∪ local) cands) < length (open_cands ctx local cands))%nat.
Proof.
  unfold open_cands. generalize (RequestCtx.fill_candidates ctx cands). intros l.
  induction l as [|x l IH]; simpl; [by rewrite elem_of_nil|]. intros Hin.
  assert (forall l : list WeightedLane.t, (length (List.filter (fun wl0 => negb (bool_decide (WeightedLane.idx wl0 ∈ {[WeightedLane.idx wl]} ∪ local))) l)
     <= length (List.filter (fun wl0 => negb (bool_decide (WeightedLane.idx wl0 ∈ local))) l))%nat) as Hle.
  { clear. induction l as [|y l IH]; simpl; [done|].
    destruct (bool_decide_reflect (WeightedLane.idx y ∈ {[WeightedLane.idx wl]} ∪ local)) as [H1|H1],
      (bool_decide_reflect (WeightedLane.idx y ∈ local)) as [H2|H2]; simpl; try lia. set_solver. }
  destruct (bool_decide_reflect (WeightedLane.idx x ∈ local)) as [H2|H2]; simpl in *.
  - rewrite bool_decide_true by set_solver. simpl. by apply IH.
  - apply elem_of_cons in Hin as [->|Hin].
    + rewrite bool_decide_true by set_solver. simpl. specialize (Hle l). lia.
    + specialize (IH Hin). case_bool_decide; simpl; [specialize (Hle l); lia|lia].
Qed.

Lemma pairs_elem cands lane w : (lane, w) ∈ pairs cands -> exists wl, wl ∈ cands /\ WeightedLane.idx wl = lane /\ WeightedLane.weight wl = w.
Proof. unfold pairs. intros Hin. apply list_elem_of_fmap in Hin as (wl & [= -> ->] & Hwl). by exists wl. Qed.

Lemma pick_loop_spec fuel env s cands ctx pool order local n :
  store_wf s -> Forall (fun wl => in_range s (WeightedLane.idx wl)) cands ->
  (length (open_cands ctx local cands) < fuel)%nat ->
  exists s' r, pick_loop fuel env s cands ctx pool order local n = Some (s', r) /\ outcome env s cands ctx pool s' r.
Proof.
  revert s local n. induction fuel as [|fuel IH]; intros s local n Hwf HF Hfuel; [lia|].
  cbn [pick_loop]. fold (open_cands ctx local cands).
  destruct (RequestCtx.expired ctx _); [exists s, NoLane; split; [done|by apply quiet_refl]|].
  destruct (open_cands ctx local cands) as [|x l] eqn:Eo; [exists s, NoLane; split; [done|by apply quiet_refl]|].
  rewrite <- Eo in *. clear Eo x l.
  assert (Forall (fun e => in_range s e.1) (pairs (open_cands ctx local cands))) as HFp.
  { apply Forall_fmap, Forall_forall. intros wl [Hin _]%open_cands_elem. rewrite Forall_forall in HF. by apply HF. }
  destruct (select_lane_spec s pool (pairs (open_cands ctx local cands)) order (PickEnv.clock env (n + 1)) Hwf HFp)
    as (s1 & r & -> & Hq1 & Hp).
  destruct r as [lane|]; [|by exists s1, NoLane].
  destruct Hp as (w & Hin & He). apply pairs_elem in Hin as (wl & Hwl & <- & <-).
  pose proof Hwl as (Hc & Hx & Hloc)%open_cands_elem.
  assert (WeightedLane.weight wl <> 0) as Hw0.
  { unfold eligible in He. simpl in He. by destruct (Z.eqb_spec (WeightedLane.weight wl) 0). }
  assert (in_range s1 (WeightedLane.idx wl)) as Hr1.
  { unfold in_range. rewrite (q_len _ _ Hq1). rewrite Forall_forall in HF. by apply HF. }
  unfold acquire_for_dispatch_in.
  destruct (usable_for_keeps s1 pool (WeightedLane.idx wl) (PickEnv.clock env (n + 2)) (q_wf _ _ Hq1) Hr1)
    as (s2 & b & Hu & _). rewrite Hu.
  apply usable_spec in Hu; [|apply Hq1|done]. destruct b; simpl.
  - destruct Hu as [c Hw].
    destruct (take_permit_spec env s1 s2 ctx pool _ _ (n + 3) c Hr1 Hw) as (s3 & r & -> & Hr).
    exists s3, r. split; [done|]. destruct r as [l p| |]; simpl; [|by eapply quiet_trans|by eapply quiet_trans].
    destruct Hr as [-> Hw3]. exists wl, (n + 2)%nat. do 4 (split; [done|]). by eapply quiet_won.
  - destruct Hu as [Hq2 _]. pose proof (quiet_trans _ _ _ Hq1 Hq2) as Hq.
    destruct (IH s2 ({[WeightedLane.idx wl]} ∪ local) (n + 3)%nat (q_wf _ _ Hq2)) as (s3 & r & -> & Hr).
    + eapply Forall_impl; [exact HF|]. intros y. unfold in_range. by rewrite (q_len _ _ Hq).
    + pose proof (open_cands_shrink ctx local cands wl Hwl). lia.
    + exists s3, r. split; [done|]. by eapply outcome_quiet.
Qed.

Lemma sticky_spec env s cands ctx h pool now :
  store_wf s -> Forall (fun wl => in_range s (WeightedLane.idx wl)) cands ->
  exists s' r, sticky env s cands ctx h pool now = Some (s', r) /\
    match r with
    | Some (lane, _) => exists wl, wl ∈ cands /\ WeightedLane.idx wl = lane /\ WeightedLane.weight wl <> 0 /\
        lane ∉ RequestCtx.excluded ctx /\ dispatched s pool lane now s'
    | None => quiet s s'
    end.
Proof.
  intros Hwf HF.
  unfold sticky. destruct h as [h|]; [|exists s, None; split; [done|by apply quiet_refl]].
  destruct cands as [|wl0 cands']; [exists s, None; split; [done|by apply quiet_refl]|].
  set (cands := wl0 :: cands') in *.
  destruct (lookup_lt_is_Some_2 cands (Z.to_nat (h mod Z.of_nat (length cands)))) as [wl Hwl].
  { pose proof (Z.mod_pos_bound h (Z.of_nat (length cands))). simpl length in *. lia. }
  rewrite Hwl. apply list_elem_of_lookup_2 in Hwl.
  destruct (negb (WeightedLane.weight wl =? 0) && _) eqn:Eg; [|exists s, None; split; [done|by apply quiet_refl]].
  apply andb_true_iff in Eg as [Hw0 Hx]. apply negb_true_iff, Z.eqb_neq in Hw0.
  apply negb_true_iff, bool_decide_eq_false in Hx.
  assert (in_range s (WeightedLane.idx wl)) as Hr by (rewrite Forall_forall in HF; by apply HF).
  destruct (usable_for_keeps s pool (WeightedLane.idx wl) now Hwf Hr) as (s1 & b & Hu & _). rewrite Hu.
  apply usable_spec in Hu; [|done|done]. destruct b; [|exists s1, None; split; [done|apply Hu]].
  destruct Hu as [c Hw]. unfold try_acquire.
  destruct (get_lane_Some s1 (WeightedLane.idx wl)) as [ls Hls]; [unfold in_range; by rewrite (w_len _ _ _ _ _ _ Hw)|].
  rewrite Hls.
  destruct (if _ <=? _ then _ else _) as [p|].
  - exists s1, (Some (WeightedLane.idx wl, p)). split; [done|]. exists wl. do 4 (split; [done|]).
    eapply quiet_won; [by apply quiet_refl|done].
  - destruct (won_abandon s pool _ now s1 c cell_release_probe Hr Hw) as (s2 & Hrel & Hq); [by apply cell_release_probe_wf|done|].
    unfold release_probe_in. rewrite Hrel. by exists s2, None.
Qed.

Lemma pick_among_spec env s cands ctx h pool order :
  store_wf s -> Forall (fun wl => in_range s (WeightedLane.idx wl)) cands ->
  exists s' r, pick_among env s cands ctx h pool order = Some (s', r) /\ outcome env s cands ctx pool s' r.
Proof.
  intros Hwf HF. unfold pick_among.
  destruct (sticky_spec env s cands ctx h pool (PickEnv.clock env 0) Hwf HF) as (s1 & r & -> & Hr).
  destruct r as [[lane p]|].
  - exists s1, (Dispatch lane p). split; [done|]. destruct Hr as (wl & Hr). by exists wl, 0%nat.
  - destruct (pick_loop_spec (S (length cands)) env s1 cands ctx pool order ∅ 2) as (s2 & r2 & -> & Ho).
    + apply Hr.
    + eapply Forall_impl; [exact HF|]. intros y. unfold in_range. by rewrite (q_len _ _ Hr).
    + assert (forall (f : WeightedLane.t -> bool) l, (length (List.filter f l) <= length l)%nat) as Hle
        by (intros f l; induction l; simpl; [done|]; destruct (f _); simpl; lia).
      unfold open_cands, RequestCtx.fill_candidates.
      eapply Nat.le_lt_trans; [apply Hle|]. eapply Nat.le_lt_trans; [apply Hle|]. lia.
    + exists s2, r2. split; [done|]. by eapply outcome_quiet.
Qed.

(** ** Theorems about lane selection: who may be dispatched, what is left behind, who is served, and
    compliance restricts across pools *)

Import InMemoryStore.
Open Scope Z_scope.
Open Scope rust_scope.

(** ** A selection over an eligible candidate picks one *)
Lemma find_best_some i best bw cws :
  is_Some best \/ Exists (fun c => bw < c) cws -> is_Some (find_best i best bw cws).
Proof.
  revert i best bw. induction cws as [|c cws IH]; intros i best bw H; simpl.
  { destruct H as [H|H]; [done|by apply Exists_nil in H]. }
  destruct (Z.ltb_spec bw c); [apply IH; left; by eexists|]. apply IH. destruct H as [H|H]; [by left|right].
  apply Exists_cons in H as [H|H]; [lia|done].
Qed.

(** The accumulators of a pool in everyday range, and member weights as configured. *)
Definition tame (s : t) (pool : string) (cands : list (nat * Z)) : Prop :=
  Forall (fun e => 0 <= e.2 <= U32_MAX /\ - 2 ^ 62 <= weight_at s pool e.1 <= 2 ^ 62) cands.

Lemma tame_same s s' pool cands : same s s' -> tame s pool cands -> tame s' pool cands.
Proof.
  intros (_ & _ & Hv) Ht. eapply Forall_impl; [exact Ht|]. intros e. by rewrite !weight_at_view, Hv.
Qed.

Lemma select_weighted_some s pool cands now e :
  store_wf s -> Forall (fun e => in_range s e.1) cands -> NoDup cands.*1 -> tame s pool cands ->
  e ∈ cands -> eligible s pool now e = true ->
  exists s' lane, select_weighted_for s pool cands.*1 cands.*2 now = Some (s', Some lane).
Proof.
  intros Hwf HF Hnd Ht Hin He. unfold select_weighted_for. rewrite zip_fst_snd.
  destruct (healthy_scan_total s pool cands now Hwf HF) as (s1 & h & Hh & Hwf1 & Hl1). rewrite Hh.
  destruct (healthy_scan_spec _ _ _ _ _ _ Hh) as (Eh & _ & Hv1 & _ & Hpres).
  assert (e ∈ h) as Heh.
  { rewrite Eh. apply list_elem_of_In, filter_In. split; [by apply list_elem_of_In|done]. }
  assert (tame s1 pool h) as Ht1.
  { rewrite Eh. eapply tame_same; [by split; [exact Hwf1|split]|]. unfold tame in *. rewrite !Forall_forall in *.
    intros x Hx. apply Ht. apply list_elem_of_In in Hx. apply filter_In in Hx as [Hx _]. by apply list_elem_of_In. }
  assert (NoDup h.*1) as Hndh by (rewrite Eh; by apply NoDup_fst_filter).
  clear Eh. destruct h as [|e0 h']; [by apply elem_of_nil in Heh|]. set (h := e0 :: h') in *.
  pose proof (swrr_shard_same s1 pool Hwf1) as Hs2. pose proof (swrr_shard_present s1 pool pool) as Hp2.
  destruct (swrr_shard s1 pool) as [s2 idx]. simpl in Hs2, Hp2.
  assert (Forall (present s2 pool) h.*1) as HF2
    by (apply Forall_fmap; eapply Forall_impl; [exact Hpres|]; intros x Hx; simpl; auto).
  destruct (fold_add_weight s2 pool h Hndh HF2) as (Hw & _ & _).
  set (s3 := foldl (add_weight pool) s2 h) in *.
  assert ((fun e => weight_at s3 pool e.1) <$> h = weights_of s3 pool h.*1) as Hfm
    by (unfold weights_of; by rewrite <- list_fmap_compose).
  assert (is_Some (find_best 0 None I64_MIN ((fun e => weight_at s3 pool e.1) <$> h))) as [i Hi].
  { apply find_best_some. right. rewrite Hfm, Hw. unfold h. csimpl. constructor 1.
    pose proof (tame_same _ _ _ _ Hs2 Ht1) as Ht2. apply Forall_cons in Ht2 as [[T1 T2] _].
    rewrite wrap_i64_id; [unfold I64_MIN|unfold is_i64, I64_MIN, I64_MAX, U32_MAX in *]; lia. }
  rewrite Hi. apply find_best_range in Hi as [|Hr]; [done|]. rewrite length_fmap in Hr.
  destruct (lookup_lt_is_Some_2 h i) as [[lane w] ->]; [lia|]. by eexists _, _.
Qed.

Lemma select_lane_some s pool cands order now e :
  store_wf s -> Forall (fun e => in_range s e.1) cands -> NoDup cands.*1 -> tame s pool cands ->
  e ∈ cands -> eligible s pool now e = true ->
  exists s' lane, select_lane s pool cands order now = Some (s', Some lane).
Proof.
  intros Hwf HF Hnd Ht Hin He. unfold select_lane. destruct order as [order|]; [|by eapply select_weighted_some].
  destruct (prefer_spec s pool cands order now Hwf HF) as (s1 & r & -> & Hs1 & _).
  destruct r as [lane|]; [by eexists _, _|]. pose proof Hs1 as (Hwf1 & Hl1 & Hv1).
  eapply (select_weighted_some s1); [done| |done|by eapply tame_same|exact Hin|].
  - eapply Forall_impl; [exact HF|]. intros x. unfold in_range. by rewrite Hl1.
  - by rewrite (eligible_ext s s1).
Qed.

(** ** A pick that is never short of permits *)
Lemma take_permit_free env s0 s ctx pool lane now n c :
  (forall n sem, PickEnv.try_owned env n sem = true) -> in_range s0 lane -> won s0 pool lane now s c ->
  exists s' p, take_permit env s ctx pool lane n = Some (s', Dispatch lane p).
Proof.
  intros Hfree Hr Hw. unfold take_permit, probe_epoch_in, try_acquire.
  assert (in_range s lane) as Hr1 by (unfold in_range; by rewrite (w_len _ _ _ _ _ _ Hw)).
  destruct (cell_resolves s pool lane (w_wf _ _ _ _ _ _ Hw) Hr1) as (s1 & c1 & -> & _ & _ & Hl).
  destruct (get_lane_Some s1 lane) as [ls ->]; [unfold in_range; by rewrite Hl|].
  rewrite Hfree. by destruct (_ <=? _); eexists _, _.
Qed.

Lemma sticky_free env s cands ctx h pool now s1 :
  (forall n sem, PickEnv.try_owned env n sem = true) ->
  store_wf s -> Forall (fun wl => in_range s (WeightedLane.idx wl)) cands ->
  sticky env s cands ctx h pool now = Some (s1, None) -> quiet s s1 /\ (forall p l, view s1 p l = view s p l).
Proof.
  intros Hfree Hwf HF Hst. assert (quiet s s) as Hq by (by apply quiet_refl). unfold sticky in Hst.
  destruct h as [h|]; [|by injection Hst as <-]. destruct cands as [|wl0 cands']; [by injection Hst as <-|].
  set (cands := wl0 :: cands') in *. destruct (cands !! _) as [wl|] eqn:Hwl; [|done].
  apply list_elem_of_lookup_2 in Hwl.
  destruct (negb _ && _); [|by injection Hst as <-].
  assert (in_range s (WeightedLane.idx wl)) as Hr by (rewrite Forall_forall in HF; by apply HF).
  destruct (usable_for s pool (WeightedLane.idx wl) now) as [[s2 b]|] eqn:Hu; [|done].
  apply usable_spec in Hu; [|done|done]. destruct b; [|injection Hst as <-; by destruct Hu as (? & ? & _)].
  unfold try_acquire in Hst. destruct (get_lane s2 _); [|done]. rewrite Hfree in Hst. by destruct (_ <=? _).
Qed.

Lemma pairs_intro wl cands : wl ∈ cands -> (WeightedLane.idx wl, WeightedLane.weight wl) ∈ pairs cands.
Proof. intros Hin. apply list_elem_of_fmap. by exists wl. Qed.

Lemma filter_NoDup_idx f (l : list WeightedLane.t) :
  NoDup (WeightedLane.idx <$> l) -> NoDup (WeightedLane.idx <$> List.filter f l).
Proof.
  induction l as [|x l IH]; csimpl; [done|]. intros [Hn Hd]%NoDup_cons.
  destruct (f x); csimpl; [|by apply IH]. apply NoDup_cons. split; [|by apply IH].
  intros (y & Hxy & Hy)%list_elem_of_fmap. apply Hn. rewrite Hxy. apply list_elem_of_fmap_2.
  apply list_elem_of_In in Hy. apply filter_In in Hy as [Hy _]. by apply list_elem_of_In.
Qed.

Lemma open_pairs ctx local cands :
  NoDup (WeightedLane.idx <$> cands) -> NoDup (pairs (open_cands ctx local cands)).*1.
Proof.
  intros Hnd. unfold pairs. rewrite <- list_fmap_compose. unfold open_cands, RequestCtx.fill_candidates.
  by apply filter_NoDup_idx, filter_NoDup_idx.
Qed.

Lemma open_pairs_Forall (P : nat * Z -> Prop) ctx local cands :
  Forall P (pairs cands) -> Forall P (pairs (open_cands ctx local cands)).
Proof.
  intros HP. apply Forall_fmap, Forall_forall. intros x [Hx _]%open_cands_elem.
  rewrite Forall_forall in HP. apply HP. by apply pairs_intro.
Qed.

(** After a quiet step, a lane that was eligible is admitted at any later reading. *)
Lemma eligible_admitted s s1 pool lane w now now' s2 b :
  quiet s s1 -> in_range s1 lane -> eligible s pool now (lane, w) = true -> now <= now' ->
  usable_for s1 pool lane now' = Some (s2, b) -> exists c, won s1 pool lane now' s2 c.
Proof.
  intros Hq Hr He Hn Hu. apply usable_spec in Hu; [|apply Hq|done]. destruct b; [done|]. exfalso.
  destruct Hu as (_ & _ & Hno). unfold eligible in He. simpl in He. rewrite !andb_true_iff in He.
  destruct He as [[_ Hadm] Hrdy]. destruct (view_wf s1 pool lane (q_wf _ _ Hq) Hr) as (c1 & Hc1 & _).
  pose proof (q_brk _ _ Hq pool lane) as Hb. rewrite Hc1 in Hb. destruct (view s pool lane) as [c|]; [|done].
  assert (brk c1 = brk c) as Hbrk by (unfold brk in *; simpl in Hb; congruence).
  rewrite <- (ready_brk c1 c now Hbrk) in Hrdy. pose proof (ready_acquire c1 now now' Hrdy Hn) as Hacq.
  rewrite Hno in Hacq; [done| |done]. rewrite (q_adm _ _ Hq). by destruct (lane_admissible s lane) as [[]|].
Qed.

(** The first iteration dispatches when some open candidate is eligible. *)
Lemma pick_loop_serves fuel env s cands ctx pool order n wl :
  (forall i j, (i <= j)%nat -> PickEnv.clock env i <= PickEnv.clock env j) ->
  (forall n, PickEnv.clock env n < RequestCtx.deadline ctx) ->
  (forall n sem, PickEnv.try_owned env n sem = true) ->
  store_wf s -> Forall (fun wl => in_range s (WeightedLane.idx wl)) cands ->
  NoDup (WeightedLane.idx <$> cands) -> tame s pool (pairs cands) ->
  wl ∈ cands -> WeightedLane.idx wl ∉ RequestCtx.excluded ctx ->
  eligible s pool (PickEnv.clock env (n + 1)) (WeightedLane.idx wl, WeightedLane.weight wl) = true ->
  exists s' lane p, pick_loop (S fuel) env s cands ctx pool order ∅ n = Some (s', Dispatch lane p).
Proof.
  intros Hmono Hdl Hfree Hwf HF Hnd Ht Hin Hx He. cbn [pick_loop]. fold (open_cands ctx ∅ cands).
  unfold RequestCtx.expired. rewrite (proj2 (Z.leb_gt _ _)) by (apply Hdl).
  assert (wl ∈ open_cands ctx ∅ cands) as Hop by (apply open_cands_elem; split; [done|]; split; [done|set_solver]).
  assert (Forall (fun e => in_range s e.1) (pairs (open_cands ctx ∅ cands))) as HFp
    by (apply open_pairs_Forall; by apply Forall_fmap).
  destruct (select_lane_some s pool (pairs (open_cands ctx ∅ cands)) order (PickEnv.clock env (n + 1))
    (WeightedLane.idx wl, WeightedLane.weight wl) Hwf HFp (open_pairs _ _ _ Hnd)) as (s1 & lane & Hsel); [|by apply pairs_intro|done|].
  { by apply open_pairs_Forall. }
  destruct (select_lane_spec s pool (pairs (open_cands ctx ∅ cands)) order (PickEnv.clock env (n + 1)) Hwf HFp)
    as (s1' & r & Hsel' & Hq1 & Hp).
  rewrite Hsel in Hsel'. injection Hsel' as <- <-. rewrite Hsel. destruct Hp as (w & Hpin & Hel).
  destruct (open_cands ctx ∅ cands) as [|x l] eqn:Eo; [by apply elem_of_nil in Hop|]. rewrite <- Eo in *. clear Eo x l.
  assert (in_range s1 lane) as Hr1.
  { unfold in_range. rewrite (q_len _ _ Hq1). rewrite Forall_forall in HFp. by apply (HFp _ Hpin). }
  unfold acquire_for_dispatch_in.
  destruct (usable_for_keeps s1 pool lane (PickEnv.clock env (n + 2)) (q_wf _ _ Hq1) Hr1) as (s2 & b & Hu & _). rewrite Hu.
  pose proof (eligible_admitted _ _ _ _ _ _ _ _ _ Hq1 Hr1 Hel (Hmono (n + 1)%nat (n + 2)%nat ltac:(lia)) Hu) as [c Hw].
  apply usable_spec in Hu; [|apply Hq1|done]. destruct b; simpl.
  - destruct (take_permit_free env s1 s2 ctx pool lane _ (n + 3) c Hfree Hr1 Hw) as (s3 & p & ->). by eexists _, _, _.
  - exfalso. destruct Hu as (_ & _ & Hno). pose proof (Hno (w_admitted _ _ _ _ _ _ Hw) c (w_cell _ _ _ _ _ _ Hw)) as Ha.
    by rewrite (w_acquired _ _ _ _ _ _ Hw) in Ha.
Qed.

(** ** Restricts *)
Definition satisfies (members : option (gmap nat (list string))) (rs : list RestrictConstraint.t)
    (wl : WeightedLane.t) : bool := forallb (fun r => carries_tag members r wl) rs.

Lemma enforce_loop_all members rs cands wl :
  wl ∈ cands -> satisfies members rs wl = true ->
  enforce_loop members rs cands = inr (List.filter (satisfies members rs) cands).
Proof.
  revert cands. induction rs as [|r rs IH]; intros cands Hin Hs; simpl.
  - f_equal. clear. induction cands as [|x cands IH]; simpl; [done|]. by rewrite <- IH.
  - simpl in Hs. apply andb_true_iff in Hs as [Hr Hs].
    assert (wl ∈ List.filter (carries_tag members r) cands) as Hin'
      by (apply list_elem_of_In, filter_In; split; [by apply list_elem_of_In|done]).
    destruct (List.filter (carries_tag members r) cands) as [|x l] eqn:E; [by apply elem_of_nil in Hin'|].
    rewrite (IH (x :: l) Hin' Hs), <- E. f_equal. clear. induction cands as [|y cands IH]; simpl; [done|].
    destruct (carries_tag members r y); simpl; [|done]. destruct (satisfies members rs y); by rewrite IH.
Qed.

Lemma enforce_loop_sound members rs cands :
  match enforce_loop members rs cands with
  | inr out => (forall wl, wl ∈ out -> wl ∈ cands) /\
      Forall (fun r => RestrictConstraint.on_empty r = Weighted \/ Forall (fun wl => carries_tag members r wl = true) out) rs
  | inl name => exists r, r ∈ rs /\ RestrictConstraint.name r = name /\ RestrictConstraint.on_empty r <> Weighted
  end.
Proof.
  revert cands. induction rs as [|r rs IH]; intros cands; simpl; [by split|].
  destruct (List.filter (carries_tag members r) cands) as [|x l] eqn:E.
  - case_bool_decide as Hw; [|exists r; split; [apply elem_of_cons; by left|done]].
    specialize (IH cands). destruct (enforce_loop members rs cands) as [n|out].
    + destruct IH as (r' & Hin & Hr'). exists r'. split; [apply elem_of_cons; by right|done].
    + destruct IH as [Hsub HF]. split; [done|]. constructor; [by left|done].
  - rewrite <- E. specialize (IH (List.filter (carries_tag members r) cands)).
    destruct (enforce_loop members rs _) as [n|out].
    + destruct IH as (r' & Hin & Hr'). exists r'. split; [apply elem_of_cons; by right|done].
    + destruct IH as [Hsub HF].
      assert (forall wl, wl ∈ out -> wl ∈ cands /\ carries_tag members r wl = true) as Hout.
      { intros wl Hin. apply Hsub, list_elem_of_In, filter_In in Hin as [Hin Hc]. by rewrite list_elem_of_In. }
      split; [intros wl Hin; by apply Hout|]. constructor; [right|done].
      apply Forall_forall. intros wl Hin. by apply Hout.
Qed.

(** ** Theorems *)

(** A pick always completes, and what it dispatches was allowed: a lane of the candidate list,
    not drained (weight 0), not already tried, neither dead nor out of budget, whose breaker through
    this pool admitted the request at a reading of the clock taken during the pick.  This holds for
    the sticky lane of a session, for a lane ranked by a routing policy and for the weighted
    fallback alike, whatever the clock, the permits and the wait do. *)
Theorem pick_dispatches_only_eligible env s cands ctx h pool order :
  store_wf s -> Forall (fun wl => in_range s (WeightedLane.idx wl)) cands ->
  exists s' r, pick_among env s cands ctx h pool order = Some (s', r) /\ store_wf s' /\
    forall lane p, r = Dispatch lane p ->
      exists wl n c, wl ∈ cands /\ WeightedLane.idx wl = lane /\ WeightedLane.weight wl <> 0 /\
        lane ∉ RequestCtx.excluded ctx /\ lane_admissible s lane = Some true /\
        view s pool lane = Some c /\ (cell_acquire_breaker c (PickEnv.clock env n)).2 = true.
Proof.
  intros Hwf HF. destruct (pick_among_spec env s cands ctx h pool order Hwf HF) as (s' & r & Hp & Ho).
  exists s', r. split; [done|]. destruct r as [lane p| |]; simpl in Ho; [|by split; [apply Ho|]..].
  destruct Ho as (wl & n & Hin & Hi & Hw & Hx & [D1 _ D2 (c & Dv & Da & _) _]). split; [done|].
  intros lane' p' [= <- <-]. exists wl, n, c. auto 10.
Qed.

(** C27.  A pick never leaks a recovery probe: the only breaker it can leave changed is that of the
    lane it dispatches, through its own pool, and that one is left as the acquisition of the dispatch
    left it.  When nothing is dispatched, because no lane qualifies, the deadline passes, the
    semaphore closes or the client disconnects while the request waits for a permit, every breaker of
    every pool and lane is as it was (so no cell is left HalfOpen with a probe nobody owns). *)
Theorem pick_leaks_no_probe env s cands ctx h pool order s' r :
  store_wf s -> Forall (fun wl => in_range s (WeightedLane.idx wl)) cands ->
  pick_among env s cands ctx h pool order = Some (s', r) ->
  (forall p l, (forall q, r = Dispatch l q -> p <> pool) -> brk <$> view s' p l = brk <$> view s p l) /\
  (forall lane q, r = Dispatch lane q -> exists n c, view s pool lane = Some c /\
     brk <$> view s' pool lane = Some (brk (cell_acquire_breaker c (PickEnv.clock env n)).1)).
Proof.
  intros Hwf HF Hp. destruct (pick_among_spec env s cands ctx h pool order Hwf HF) as (s1 & r1 & Hp1 & Ho).
  rewrite Hp in Hp1. injection Hp1 as <- <-. destruct r as [lane q| |]; simpl in Ho.
  - destruct Ho as (wl & n & _ & _ & _ & _ & [_ _ _ (c & Dv & _ & Db) Dother]). split.
    + intros p l Hne. apply Dother. intros [-> ->]. by apply (Hne q).
    + intros lane' q' [= <- <-]. by exists n, c.
  - split; [|done]. intros p l _. apply Ho.
  - split; [|done]. intros p l _. apply Ho.
Qed.

(** A request is served when it can be: with a clock that does not run backwards, time left and
    permits free, if any candidate is not drained, not yet tried, admissible and ready, then a lane
    is dispatched, whatever the session hash prefers and whatever subset of lanes the routing policy
    ranked (a lane the policy left out is still reachable). *)
Theorem pick_serves_when_possible env s cands ctx h pool order wl c :
  (forall i j, (i <= j)%nat -> PickEnv.clock env i <= PickEnv.clock env j) ->
  (forall n, PickEnv.clock env n < RequestCtx.deadline ctx) ->
  (forall n sem, PickEnv.try_owned env n sem = true) ->
  store_wf s -> Forall (fun wl => in_range s (WeightedLane.idx wl)) cands ->
  NoDup (WeightedLane.idx <$> cands) -> tame s pool (pairs cands) ->
  wl ∈ cands -> WeightedLane.weight wl <> 0 -> WeightedLane.idx wl ∉ RequestCtx.excluded ctx ->
  lane_admissible s (WeightedLane.idx wl) = Some true -> view s pool (WeightedLane.idx wl) = Some c ->
  cell_ready_breaker c (PickEnv.clock env 0) = true ->
  exists s' lane p, pick_among env s cands ctx h pool order = Some (s', Dispatch lane p).
Proof.
  intros Hmono Hdl Hfree Hwf HF Hnd Ht Hin Hw Hx Hadm Hv Hrdy. unfold pick_among.
  destruct (sticky_spec env s cands ctx h pool (PickEnv.clock env 0) Hwf HF) as (s1 & r & Hst & _). rewrite Hst.
  destruct r as [[lane p]|]; [by eexists _, _, _|].
  destruct (sticky_free _ _ _ _ _ _ _ _ Hfree Hwf HF Hst) as [Hq Hvv].
  eapply (pick_loop_serves _ env s1 cands ctx pool order 2 wl); try done.
  - apply Hq.
  - eapply Forall_impl; [exact HF|]. intros x. unfold in_range. by rewrite (q_len _ _ Hq).
  - eapply Forall_impl; [exact Ht|]. intros x. by rewrite !weight_at_view, Hvv.
  - unfold eligible. simpl. rewrite (q_adm _ _ Hq), Hadm, Hvv, Hv. destruct (Z.eqb_spec (WeightedLane.weight wl) 0); [done|].
    simpl. pose proof (Hmono 0%nat 3%nat ltac:(lia)) as Hm. revert Hrdy. unfold cell_ready_breaker.
    repeat case_match; try done; rewrite !Z.leb_le; lia.
Qed.

(** A compliance restrict holds on every hop: re-applied to the members of a fallback pool it
    only removes candidates; every lane left carries a tag of each restrict that fails closed; a
    refusal names a fail-closed restrict and means that no member of the pool satisfies all of them;
    and as soon as one member does, exactly the members that satisfy all of them are left. *)
Theorem restricts_hold_on_every_hop pool_runtime ctx pool cands :
  let ok := satisfies (pool_runtime !! pool) (RequestCtx.active_restricts ctx) in
  match enforce_restricts pool_runtime ctx pool cands with
  | inr out =>
      (forall wl, wl ∈ out -> wl ∈ cands) /\
      Forall (fun r => RestrictConstraint.on_empty r = Weighted \/
                Forall (fun wl => carries_tag (pool_runtime !! pool) r wl = true) out) (RequestCtx.active_restricts ctx) /\
      (Exists (fun wl => ok wl = true) cands -> out = List.filter ok cands)
  | inl name =>
      Forall (fun wl => ok wl = false) cands /\
      exists r, r ∈ RequestCtx.active_restricts ctx /\ RestrictConstraint.name r = name /\
        RestrictConstraint.on_empty r <> Weighted
  end.
Proof.
  intros ok. unfold enforce_restricts.
  pose proof (enforce_loop_sound (pool_runtime !! pool) (RequestCtx.active_restricts ctx) cands) as Hs.
  pose proof (fun wl => enforce_loop_all (pool_runtime !! pool) (RequestCtx.active_restricts ctx) cands wl) as Ha.
  destruct (enforce_loop _ _ cands) as [name|out].
  - split; [|done]. apply Forall_forall. intros wl Hin. destruct (ok wl) eqn:E; [|done].
    by specialize (Ha wl Hin E).
  - destruct Hs as [H1 H2]. split; [done|]. split; [done|]. intros (wl & Hin & E)%Exists_exists.
    specialize (Ha wl Hin E). by injection Ha as ->.
Qed.

(** ** Concrete picks *)
Definition demo_cands : list WeightedLane.t := [WeightedLane.mk 0 3 None None; WeightedLane.mk 1 1 None None].

(** Readings from 2000 to 2060, all permits taken or all free, a client that disconnects. *)
Definition demo_pick (free : bool) : PickEnv.t :=
  PickEnv.mk (fun n => 2000 + Z.min (Z.of_nat n) 60) 1000000 (fun _ _ => free) (fun _ _ => Cancelled).

Definition demo_ctx : RequestCtx.t := RequestCtx.new 2000 1000000.

Lemma demo_in_range s : length (lanes s) = 2%nat -> Forall (fun wl => in_range s (WeightedLane.idx wl)) demo_cands.
Proof. intros Hl. unfold in_range, demo_cands. rewrite Hl. repeat constructor; simpl; lia. Qed.

Lemma pick_dispatches_only_eligible_witness :
  match pick_among (demo_pick true) demo_store demo_cands demo_ctx (Some 7) "p" None with
  | Some (_, Dispatch lane _) => exists wl, wl ∈ demo_cands /\ WeightedLane.idx wl = lane /\ WeightedLane.weight wl <> 0
  | _ => False
  end.
Proof.
  destruct (pick_dispatches_only_eligible (demo_pick true) demo_store demo_cands demo_ctx (Some 7) "p" None demo_store_wf
    (demo_in_range demo_store eq_refl)) as (s' & r & Hp & _ & Hr).
  assert (snd <$> pick_among (demo_pick true) demo_store demo_cands demo_ctx (Some 7) "p" None
          = Some (Dispatch 1 Bounded)) as E by (vm_compute; reflexivity).
  rewrite Hp in E |- *. injection E as ->.
  destruct (Hr 1%nat Bounded eq_refl) as (wl & n & c & Hin & Hi & Hw & _). by exists wl.
Defined.

(** Lane 0 is Open past its cooldown; the pick wins its probe and the client then disconnects. *)
Lemma pick_leaks_no_probe_witness :
  match record_hard_down_all_cells (demo_env 100) demo_store 0 "billing" with
  | Some (s, _) =>
      match pick_among (demo_pick false) s demo_cands demo_ctx None "p" (Some [0%nat]) with
      | Some (s', r) => r = FutureDropped /\ brk <$> view s' "p" 0 = brk <$> view s "p" 0
      | None => False
      end
  | None => False
  end.
Proof.
  destruct (hard_down_all_keeps (demo_env 100) demo_store 0 "billing" demo_store_wf) as (s & b & Hs & Hwf & Hl).
  { unfold in_range. simpl. lia. }
  { simpl. mach_lia. }
  rewrite Hs.
  assert ((fun x => match pick_among (demo_pick false) x.1 demo_cands demo_ctx None "p" (Some [0%nat]) with
                    | Some (_, r) => Some r | None => None end)
          <$> record_hard_down_all_cells (demo_env 100) demo_store 0 "billing" = Some (Some FutureDropped)) as E
    by (vm_compute; reflexivity).
  rewrite Hs in E. simpl in E.
  destruct (pick_among (demo_pick false) s demo_cands demo_ctx None "p" (Some [0%nat])) as [[s' r]|] eqn:Hp; [|discriminate E].
  injection E as ->. split; [reflexivity|].
  destruct (pick_leaks_no_probe _ _ _ _ _ _ _ _ _ Hwf (demo_in_range s Hl) Hp) as [Hq _]. apply Hq. discriminate.
Defined.

Lemma pick_serves_when_possible_witness :
  exists s' lane p, pick_among (demo_pick true) demo_store demo_cands demo_ctx None "p" (Some [5%nat]) = Some (s', Dispatch lane p).
Proof.
  apply (pick_serves_when_possible (demo_pick true) demo_store demo_cands demo_ctx None "p" (Some [5%nat])
    (WeightedLane.mk 0 3 None None) (inherited_cell (lane_of_data (demo_data "a" false (-1))))).
  - intros i j Hij. simpl. lia.
  - intros n. change (RequestCtx.deadline demo_ctx) with 1002000. simpl. lia.
  - intros n sem. reflexivity.
  - exact demo_store_wf.
  - exact (demo_in_range demo_store eq_refl).
  - apply (bool_decide_unpack _). vm_compute. exact I.
  - repeat (apply Forall_cons_2; [split; vm_compute; split; discriminate|]). apply Forall_nil_2.
  - apply list_elem_of_In. left. reflexivity.
  - discriminate.
  - vm_compute. discriminate.
  - reflexivity.
  - reflexivity.
  - reflexivity.
Defined.
