(* ===== verification/Signing.v ===== *)
(** * Signed virtual-key tokens (crates/busbar/src/governance/signing.rs)

    The compact token [bbk_<b64url(payload)>.<b64url(signature)>]: minting, and the verification
    cascade with its error on every branch.  Ed25519, base64url and the JSON codec of the claims are
    third-party crates: they are the operations of the class [TokenCrypto], with the documented laws
    the module relies on.  Byte strings are [string]s. *)
From stdpp Require Import base gmap list strings.
From Stdlib Require Import ZArith Lia Ascii.
From S2P Require Import Prelude.
Open Scope Z_scope.

(** ** String operations of the standard library *)

(** [str::strip_prefix]. *)
Fixpoint strip_prefix (p s : string) : option string :=
  match p, s with
  | EmptyString, _ => Some s
  | String a p', String b s' => if Ascii.eqb a b then strip_prefix p' s' else None
  | String _ _, EmptyString => None
  end.

(** [str::starts_with]. *)
Definition starts_with (s p : string) : bool :=
  match strip_prefix p s with Some _ => true | None => false end.

(** [str::split_once] at a character: around its first occurrence. *)
Fixpoint split_once (c : ascii) (s : string) : option (string * string) :=
  match s with
  | EmptyString => None
  | String a s' =>
      if Ascii.eqb a c then Some (EmptyString, s')
      else match split_once c s' with Some (l, r) => Some (String a l, r) | None => None end
  end.

Fixpoint contains_char (c : ascii) (s : string) : bool :=
  match s with
  | EmptyString => false
  | String a s' => Ascii.eqb a c || contains_char c s'
  end.

(** ** The claims and the failures *)
Module TokenClaims.
Record t := mk { sub : string; exp : Z; kid : string }.
#[export] Instance t_eq_dec : EqDecision t.
Proof. solve_decision. Defined.
End TokenClaims.

Inductive VerifyError := Malformed | UnknownKid | BadSignature | Expired.

Inductive VerifyResult := Verified (c : TokenClaims.t) | Rejected (e : VerifyError).

Definition TOKEN_PREFIX : string := "bbk_".
Definition DEFAULT_KID : string := "k1".

(** ** What the crates provide

    [sign] is [SigningKey::sign] followed by [to_bytes], [verify_sig] is [VerifyingKey::verify] on a
    64-byte signature. *)
Class TokenCrypto := {
  SigningKey : Type;
  VerifyingKey : Type;
  from_bytes : string -> SigningKey;
  verifying_key_of : SigningKey -> VerifyingKey;
  sign : SigningKey -> string -> string;
  verify_sig : VerifyingKey -> string -> string -> bool;
  b64_encode : string -> string;
  b64_decode : string -> option string;
  claims_to_vec : TokenClaims.t -> string;
  claims_from_slice : string -> option TokenClaims.t;
  sign_length k m : String.length (sign k m) = 64%nat;
  verify_sign k m : verify_sig (verifying_key_of k) m (sign k m) = true;
  b64_decode_encode m : b64_decode (b64_encode m) = Some m;
  b64_encode_no_dot m : contains_char "."%char (b64_encode m) = false;
  claims_from_to c : claims_from_slice (claims_to_vec c) = Some c }.

Section Tokens.
Context `{TokenCrypto}.

(** ** The signer *)
Record TokenSigner := mk_signer { signer_key : SigningKey; signer_kid : string }.

Definition from_secret_bytes (bytes kid : string) : TokenSigner := mk_signer (from_bytes bytes) kid.

(** [draw] is the outcome of [getrandom::fill]. *)
Definition generate (draw : option string) (kid : string) : option TokenSigner :=
  match draw with Some bytes => Some (mk_signer (from_bytes bytes) kid) | None => None end.

Definition signer_verifying_key (s : TokenSigner) : VerifyingKey := verifying_key_of (signer_key s).

Definition mint_payload (s : TokenSigner) (sub : string) (exp : Z) : string :=
  claims_to_vec (TokenClaims.mk sub exp (signer_kid s)).

Definition mint (s : TokenSigner) (sub : string) (exp : Z) : string :=
  let payload := mint_payload s sub exp in
  TOKEN_PREFIX +:+ b64_encode payload +:+ "." +:+ b64_encode (sign (signer_key s) payload).

(** ** The verifier: a keyset from key id to public key *)
Record TokenVerifier := mk_verifier { keys : gmap string VerifyingKey }.

Definition single (kid : string) (key : VerifyingKey) : TokenVerifier :=
  mk_verifier (<[kid := key]> ∅).

Definition verify (v : TokenVerifier) (token : string) (now : Z) : VerifyResult :=
  match strip_prefix TOKEN_PREFIX token with
  | None => Rejected Malformed
  | Some body =>
      match split_once "."%char body with
      | None => Rejected Malformed
      | Some (payload_b64, sig_b64) =>
          match b64_decode payload_b64 with
          | None => Rejected Malformed
          | Some payload =>
              match b64_decode sig_b64 with
              | None => Rejected Malformed
              | Some sig_bytes =>
                  if negb (String.length sig_bytes =? 64)%nat then Rejected Malformed
                  else
                    match claims_from_slice payload with
                    | None => Rejected Malformed
                    | Some claims =>
                        match keys v !! TokenClaims.kid claims with
                        | None => Rejected UnknownKid
                        | Some key =>
                            if negb (verify_sig key payload sig_bytes) then Rejected BadSignature
                            else if TokenClaims.exp claims <=? now then Rejected Expired
                            else Verified claims
                        end
                    end
              end
          end
      end
  end.
End Tokens.

(** ** String facts *)
Lemma strip_prefix_app p s : strip_prefix p (p +:+ s) = Some s.
Proof. induction p as [|a p IH]; [by destruct s|]. simpl. by rewrite Ascii.eqb_refl. Qed.

Lemma strip_prefix_Some p s r : strip_prefix p s = Some r -> s = p +:+ r.
Proof.
  revert s. induction p as [|a p IH]; intros s Hs; [by destruct s; injection Hs as <-|].
  destruct s as [|b s]; [done|]. simpl in Hs.
  destruct (Ascii.eqb_spec a b) as [->|]; [|done]. apply IH in Hs. by subst.
Qed.

Lemma starts_with_spec s p : starts_with s p = true <-> exists r, s = p +:+ r.
Proof.
  unfold starts_with. split.
  - destruct (strip_prefix p s) as [r|] eqn:E; [|done]. intros _. eauto using strip_prefix_Some.
  - intros [r ->]. by rewrite strip_prefix_app.
Qed.

Lemma split_once_app c l r :
  contains_char c l = false -> split_once c (l +:+ String c r) = Some (l, r).
Proof.
  induction l as [|a l IH]; simpl; intros Hl; [by rewrite Ascii.eqb_refl|].
  apply orb_false_iff in Hl as [-> Hl]. by rewrite IH.
Qed.

Lemma split_once_Some c s l r :
  split_once c s = Some (l, r) -> s = l +:+ String c r /\ contains_char c l = false.
Proof.
  revert l. induction s as [|a s IH]; intros l; simpl; [done|].
  destruct (Ascii.eqb_spec a c) as [->|Hne].
  - intros [= <- ->]. done.
  - destruct (split_once c s) as [[l' r']|]; [|done]. intros [= <- ->].
    destruct (IH l' eq_refl) as [-> Hl']. simpl. rewrite Hl'.
    apply Ascii.eqb_neq in Hne. by rewrite Hne.
Qed.

Section TokenFacts.
Context `{TokenCrypto}.

(** The conjunction the cascade of [verify] decides. *)
Definition token_valid (v : TokenVerifier) (token : string) (now : Z) (c : TokenClaims.t) : Prop :=
  exists p64 s64 payload sg key,
    token = TOKEN_PREFIX +:+ p64 +:+ String "."%char s64 /\ contains_char "."%char p64 = false /\
    b64_decode p64 = Some payload /\ b64_decode s64 = Some sg /\ String.length sg = 64%nat /\
    claims_from_slice payload = Some c /\ keys v !! TokenClaims.kid c = Some key /\
    verify_sig key payload sg = true /\ now < TokenClaims.exp c.

Lemma verify_Verified v token now c :
  verify v token now = Verified c <-> token_valid v token now c.
Proof.
  unfold verify, token_valid. split.
  - intros Hv.
    destruct (strip_prefix _ _) as [body|] eqn:Ep; [|done].
    destruct (split_once _ _) as [[p64 s64]|] eqn:Es; [|done].
    destruct (b64_decode p64) as [payload|] eqn:Eb; [|done].
    destruct (b64_decode s64) as [sg|] eqn:Ec; [|done].
    destruct (Nat.eqb_spec (String.length sg) 64) as [El|]; [|done]. cbn [negb] in Hv.
    destruct (claims_from_slice payload) as [cl|] eqn:Ecl; [|done].
    destruct (keys v !! _) as [key|] eqn:Ek; [|done].
    destruct (verify_sig key payload sg) eqn:Esg; [|done]. cbn [negb] in Hv.
    destruct (Z.leb_spec (TokenClaims.exp cl) now) as [|Hlt]; [done|]. injection Hv as ->.
    apply strip_prefix_Some in Ep. apply split_once_Some in Es as [-> ?].
    exists p64, s64, payload, sg, key. done.
  - intros (p64 & s64 & payload & sg & key & -> & Hd & Ep & Es & El & Ec & Ek & Ev & Hlt).
    rewrite strip_prefix_app, split_once_app by done. rewrite Ep, Es, El, Ec, Ek, Ev. cbn.
    by rewrite (proj2 (Z.leb_gt _ _) Hlt).
Qed.

Lemma mint_parts s sub exp :
  mint s sub exp = TOKEN_PREFIX +:+ b64_encode (mint_payload s sub exp)
    +:+ String "."%char (b64_encode (sign (signer_key s) (mint_payload s sub exp))).
Proof. done. Qed.

(** What [verify] answers on a token this signer minted, under a keyset that maps the signer's id to
    any key. *)
Lemma verify_mint v s sub exp now key :
  keys v !! signer_kid s = Some key ->
  verify v (mint s sub exp) now =
    if negb (verify_sig key (mint_payload s sub exp) (sign (signer_key s) (mint_payload s sub exp)))
    then Rejected BadSignature
    else if exp <=? now then Rejected Expired
    else Verified (TokenClaims.mk sub exp (signer_kid s)).
Proof.
  intros Hk. unfold verify. rewrite mint_parts, strip_prefix_app.
  rewrite split_once_app by apply b64_encode_no_dot.
  rewrite !b64_decode_encode, sign_length. cbn [negb Nat.eqb].
  unfold mint_payload at 1. rewrite claims_from_to. cbn [TokenClaims.kid TokenClaims.exp].
  by rewrite Hk.
Qed.

Lemma verify_mint_single s sub exp now :
  verify (single (signer_kid s) (signer_verifying_key s)) (mint s sub exp) now =
    if exp <=? now then Rejected Expired else Verified (TokenClaims.mk sub exp (signer_kid s)).
Proof.
  erewrite verify_mint by (cbn; apply lookup_insert_eq).
  unfold signer_verifying_key. by rewrite verify_sign.
Qed.

(** A keyset without the signer's id names no key: the rotated-away token. *)
Lemma verify_mint_unknown v s sub exp now :
  keys v !! signer_kid s = None -> verify v (mint s sub exp) now = Rejected UnknownKid.
Proof.
  intros Hk. unfold verify. rewrite mint_parts, strip_prefix_app.
  rewrite split_once_app by apply b64_encode_no_dot.
  rewrite !b64_decode_encode, sign_length. cbn [negb Nat.eqb].
  unfold mint_payload at 1. rewrite claims_from_to. cbn [TokenClaims.kid]. by rewrite Hk.
Qed.
End TokenFacts.
