(* ===== verification/Keys.v ===== *)
(** * Virtual-key lifecycle (crates/busbar/src/governance/state.rs, governance/mod.rs, api/src/store.rs, store-memory)

    The authentication half of the governance state: the two read caches, the revocation denylist,
    and every operation that mints, rotates, updates, deletes, revokes or resolves a credential.  The
    durable store is the class [KeyStore]: fallible operations on a state with an abstract view of
    its tables, and the laws the engine relies on.  The in-memory backend is its instance, and so is
    a backend whose calls fail on a given schedule.  SHA-256, hexadecimal encoding and the entropy of
    the operating system are arguments. *)
From stdpp Require Import base gmap list strings sorting.
From Stdlib Require Import ZArith Lia Ascii.
From S2P Require Import Prelude Cost Ledger Signing.
Open Scope Z_scope.
Open Scope rust_scope.

(** ** Records and results *)
Module AwsCredential.
Record t := mk { access_key_id : string; key_id : string; secret_access_key : string }.
End AwsCredential.

Module AwsKeyEntry.
Record t := mk { key : VirtualKey.t; secret_access_key : string }.
End AwsKeyEntry.

Module NewKeySpec.
Record t := mk { name : string; allowed_pools : option (list string); group : option string;
                 labels : list (string * string) }.
End NewKeySpec.

Module MeteringDelta.
Record t := mk { key_id : string; bucket : Z; model : string; provider : string;
  tokens_input : Z; tokens_output : Z; tokens_cache_read : Z; tokens_cache_creation : Z }.
End MeteringDelta.

Module MeteringRow.
Record t := mk { key_id : string; model : string; provider : string;
  tokens_input : Z; tokens_output : Z; tokens_cache_read : Z; tokens_cache_creation : Z;
  requests : Z }.
End MeteringRow.

(** A [StoreError] by the place it is raised: a backend failure, a mint without a signing key, no
    entropy, or a derived id that belongs to another key. *)
Inductive StoreError := BackendError | NoSigningKey | NoEntropy | IdCollision.

Inductive StoreResult (A : Type) := Ok (a : A) | Err (e : StoreError).
Arguments Ok {A} a.
Arguments Err {A} e.

(** ** The durable store *)

(** The abstract content of the tables: keys by id, credentials by access key id, denied subjects. *)
Module KeyTables.
Record t := mk { keys : gmap string VirtualKey.t; creds : gmap string AwsCredential.t;
                 denied : gset string }.
Definition empty : t := mk ∅ ∅ ∅.
Definition put_key (k : VirtualKey.t) (s : t) : t :=
  mk (<[VirtualKey.id k := k]> (keys s)) (creds s) (denied s).
Definition put_cred (c : AwsCredential.t) (s : t) : t :=
  mk (keys s) (<[AwsCredential.access_key_id c := c]> (creds s)) (denied s).
Definition delete_key (id : string) (s : t) : t :=
  mk (base.delete id (keys s))
     (filter (fun ac : string * AwsCredential.t => AwsCredential.key_id ac.2 <> id) (creds s))
     (denied s).
Definition deny (sub : string) (s : t) : t := mk (keys s) (creds s) ({[sub]} ∪ denied s).
(** Rows are stored under their primary key. *)
Definition keyed (s : t) : Prop :=
  (forall i k, keys s !! i = Some k -> VirtualKey.id k = i) /\
  (forall i c, creds s !! i = Some c -> AwsCredential.access_key_id c = i).
End KeyTables.

(** A backend.  A successful write has its documented effect on the tables; a failed one may leave
    them anywhere, but no call removes a denied subject; reads report the tables in some order. *)
Class KeyStore (S : Type) := {
  db_ok : S -> Prop;
  tables : S -> KeyTables.t;
  put_key : S -> VirtualKey.t -> S * StoreResult unit;
  get_key : S -> string -> S * StoreResult (option VirtualKey.t);
  list_keys : S -> S * StoreResult (list VirtualKey.t);
  delete_key : S -> string -> S * StoreResult unit;
  put_key_with_aws_credential : S -> VirtualKey.t -> AwsCredential.t -> S * StoreResult unit;
  list_aws_credentials : S -> S * StoreResult (list AwsCredential.t);
  add_denylist : S -> string -> string -> S * StoreResult unit;
  list_denylist : S -> S * StoreResult (list string);
  db_keyed s : db_ok s -> KeyTables.keyed (tables s);
  put_key_law s k s' r : put_key s k = (s', r) -> db_ok s -> db_ok s' /\
    KeyTables.denied (tables s) ⊆ KeyTables.denied (tables s') /\
    (r = Ok tt -> tables s' = KeyTables.put_key k (tables s));
  get_key_law s i s' r : get_key s i = (s', r) -> db_ok s -> db_ok s' /\ tables s' = tables s /\
    (forall o, r = Ok o -> o = KeyTables.keys (tables s) !! i);
  list_keys_law s s' r : list_keys s = (s', r) -> db_ok s -> db_ok s' /\ tables s' = tables s /\
    (forall l, r = Ok l -> l ≡ₚ (map_to_list (KeyTables.keys (tables s))).*2);
  delete_key_law s i s' r : delete_key s i = (s', r) -> db_ok s -> db_ok s' /\
    KeyTables.denied (tables s) ⊆ KeyTables.denied (tables s') /\
    (r = Ok tt -> tables s' = KeyTables.delete_key i (tables s));
  put_both_law s k c s' r : put_key_with_aws_credential s k c = (s', r) -> db_ok s -> db_ok s' /\
    KeyTables.denied (tables s) ⊆ KeyTables.denied (tables s') /\
    (r = Ok tt -> tables s' = KeyTables.put_cred c (KeyTables.put_key k (tables s)));
  list_creds_law s s' r : list_aws_credentials s = (s', r) -> db_ok s -> db_ok s' /\
    tables s' = tables s /\
    (forall l, r = Ok l -> l ≡ₚ (map_to_list (KeyTables.creds (tables s))).*2);
  add_denylist_law s sub why s' r : add_denylist s sub why = (s', r) -> db_ok s -> db_ok s' /\
    KeyTables.denied (tables s) ⊆ KeyTables.denied (tables s') /\
    (r = Ok tt -> tables s' = KeyTables.deny sub (tables s));
  list_denylist_law s s' r : list_denylist s = (s', r) -> db_ok s -> db_ok s' /\
    tables s' = tables s /\
    (forall l, r = Ok l -> l ≡ₚ elements (KeyTables.denied (tables s))) }.

(** ** The in-memory backend *)
Module MemoryDb.
Definition metering_key : Type := string * Z * string * string.
Record t := mk { keys : gmap string VirtualKey.t; creds : gmap string AwsCredential.t;
  usage : gmap (string * Z) UsageLedger.t; metering : gmap metering_key MeteringRow.t;
  denylist : gset string }.
Definition new : t := mk ∅ ∅ ∅ ∅ ∅.

Definition put_key (s : t) (k : VirtualKey.t) : t :=
  mk (<[VirtualKey.id k := k]> (keys s)) (creds s) (usage s) (metering s) (denylist s).
Definition get_key (s : t) (id : string) : option VirtualKey.t := keys s !! id.

(** [sort_by_key(created_at)] of the values, in whatever order the map yields them. *)
Definition created_le (a b : VirtualKey.t) : Prop :=
  VirtualKey.created_at a <= VirtualKey.created_at b.
#[export] Instance created_le_dec : RelDecision created_le.
Proof. intros a b. unfold created_le. apply _. Defined.
Definition list_keys (s : t) : list VirtualKey.t :=
  merge_sort created_le (map_to_list (keys s)).*2.

Definition delete_key (s : t) (id : string) : t :=
  mk (base.delete id (keys s))
     (filter (fun ac : string * AwsCredential.t => AwsCredential.key_id ac.2 <> id) (creds s))
     (filter (fun ul : (string * Z) * UsageLedger.t => ul.1.1 <> id) (usage s))
     (metering s) (denylist s).

Definition get_usage (s : t) (bucket_id : string) (window_start : Z) : UsageLedger.t :=
  MemoryStore.get (usage s) bucket_id window_start.
Definition put_usage (s : t) (bucket_id : string) (window_start : Z) (l : UsageLedger.t) : t :=
  mk (keys s) (creds s) (MemoryStore.put_usage (usage s) bucket_id window_start l)
     (metering s) (denylist s).
Definition add_usage (s : t) (bucket_id : string) (window_start : Z) (d : UsageDelta.t) : t * bool :=
  let '(u, ok) := MemoryStore.add (usage s) bucket_id window_start d in
  (mk (keys s) (creds s) u (metering s) (denylist s), ok).

Definition add_metering (s : t) (d : MeteringDelta.t) : t :=
  let mk' := (MeteringDelta.key_id d, MeteringDelta.bucket d, MeteringDelta.model d,
              MeteringDelta.provider d) in
  let e := default (MeteringRow.mk (MeteringDelta.key_id d) (MeteringDelta.model d)
                      (MeteringDelta.provider d) 0 0 0 0 0) (metering s !! mk') in
  mk (keys s) (creds s) (usage s)
     (<[mk' := MeteringRow.mk (MeteringRow.key_id e) (MeteringRow.model e) (MeteringRow.provider e)
          (sat_add_u64 (MeteringRow.tokens_input e) (MeteringDelta.tokens_input d))
          (sat_add_u64 (MeteringRow.tokens_output e) (MeteringDelta.tokens_output d))
          (sat_add_u64 (MeteringRow.tokens_cache_read e) (MeteringDelta.tokens_cache_read d))
          (sat_add_u64 (MeteringRow.tokens_cache_creation e) (MeteringDelta.tokens_cache_creation d))
          (sat_add_u64 (MeteringRow.requests e) 1)]> (metering s))
     (denylist s).
Definition list_metering (s : t) (bucket : Z) : list MeteringRow.t :=
  (filter (fun kr : metering_key * MeteringRow.t => kr.1.1.1.2 = bucket)
     (map_to_list (metering s))).*2.

Definition put_aws_credential (s : t) (c : AwsCredential.t) : t :=
  mk (keys s) (<[AwsCredential.access_key_id c := c]> (creds s)) (usage s) (metering s) (denylist s).
Definition list_aws_credentials (s : t) : list AwsCredential.t := (map_to_list (creds s)).*2.
Definition add_denylist (s : t) (sub _reason : string) : t :=
  mk (keys s) (creds s) (usage s) (metering s) ({[sub]} ∪ denylist s).
Definition list_denylist (s : t) : list string := elements (denylist s).

(** The default of the trait, which this backend inherits: two writes in sequence. *)
Definition put_key_with_aws_credential (s : t) (k : VirtualKey.t) (c : AwsCredential.t) : t :=
  put_aws_credential (put_key s k) c.

Definition view (s : t) : KeyTables.t := KeyTables.mk (keys s) (creds s) (denylist s).
End MemoryDb.

Lemma memory_keyed_put k s : KeyTables.keyed s -> KeyTables.keyed (KeyTables.put_key k s).
Proof.
  intros [Hk Hc]. split; [|exact Hc]. intros i k'. cbn. rewrite lookup_insert_Some.
  intros [[<- <-]|[_ ?]]; eauto.
Qed.

Lemma memory_keyed_cred c s : KeyTables.keyed s -> KeyTables.keyed (KeyTables.put_cred c s).
Proof.
  intros [Hk Hc]. split; [exact Hk|]. intros i c'. cbn. rewrite lookup_insert_Some.
  intros [[<- <-]|[_ ?]]; eauto.
Qed.

Lemma memory_keyed_delete i s : KeyTables.keyed s -> KeyTables.keyed (KeyTables.delete_key i s).
Proof.
  intros [Hk Hc]. split.
  - intros j k. cbn. rewrite lookup_delete_Some. intros [_ ?]; eauto.
  - intros j c. cbn. rewrite map_lookup_filter_Some. intros [? _]; eauto.
Qed.

(** Calls that fail on a schedule: each call consumes the next entry, [true] meaning that it fails
    before it touches the tables.  The empty schedule never fails, which is the in-memory backend. *)
Module FaultyDb.
Record t := mk { db : MemoryDb.t; faults : list bool }.

Definition call {A} (s : t) (f : MemoryDb.t -> MemoryDb.t * A) : t * StoreResult A :=
  match faults s with
  | true :: fs => (mk (db s) fs, Err BackendError)
  | _ => let '(db', a) := f (db s) in (mk db' (tail (faults s)), Ok a)
  end.

Definition ok (s : t) : Prop := KeyTables.keyed (MemoryDb.view (db s)).

Lemma call_inv {A} s f s' (r : StoreResult A) :
  call s f = (s', r) ->
  (db s' = db s /\ r = Err BackendError) \/ (db s' = (f (db s)).1 /\ r = Ok (f (db s)).2).
Proof.
  unfold call. destruct (f (db s)) as [db' a]. destruct (faults s) as [|[] fs];
    intros [= <- <-]; cbn; auto.
Qed.
End FaultyDb.

Ltac faulty_law H :=
  let E := fresh "E" in let R := fresh "R" in
  apply FaultyDb.call_inv in H as [[E R]|[E R]]; intros Hok;
  unfold FaultyDb.ok, FaultyDb.call, MemoryDb.view in *; rewrite E; subst; cbn in *.

#[export] Instance faulty_key_store : KeyStore FaultyDb.t.
Proof.
  refine {|
    db_ok := FaultyDb.ok;
    tables s := MemoryDb.view (FaultyDb.db s);
    put_key s k := FaultyDb.call s (fun m => (MemoryDb.put_key m k, tt));
    get_key s i := FaultyDb.call s (fun m => (m, MemoryDb.get_key m i));
    list_keys s := FaultyDb.call s (fun m => (m, MemoryDb.list_keys m));
    delete_key s i := FaultyDb.call s (fun m => (MemoryDb.delete_key m i, tt));
    put_key_with_aws_credential s k c :=
      FaultyDb.call s (fun m => (MemoryDb.put_key_with_aws_credential m k c, tt));
    list_aws_credentials s := FaultyDb.call s (fun m => (m, MemoryDb.list_aws_credentials m));
    add_denylist s sub why := FaultyDb.call s (fun m => (MemoryDb.add_denylist m sub why, tt));
    list_denylist s := FaultyDb.call s (fun m => (m, MemoryDb.list_denylist m)) |}.
  - done.
  - intros s k s' r H; faulty_law H; [done|]. split; [exact (memory_keyed_put _ _ Hok)|done].
  - intros s i s' r H; faulty_law H; [done|]. split_and!; [done..|]. by intros o [= <-].
  - intros s s' r H; faulty_law H; [done|]. split_and!; [done..|].
    intros l [= <-]. apply merge_sort_Permutation.
  - intros s i s' r H; faulty_law H; [done|]. split; [exact (memory_keyed_delete _ _ Hok)|done].
  - intros s k c s' r H; faulty_law H; [done|].
    split; [exact (memory_keyed_cred _ _ (memory_keyed_put _ _ Hok))|done].
  - intros s s' r H; faulty_law H; [done|]. split_and!; [done..|]. by intros l [= <-].
  - intros s sub why s' r H; faulty_law H; [done|]. split_and!; [done|set_solver|done].
  - intros s s' r H; faulty_law H; [done|]. split_and!; [done..|]. by intros l [= <-].
Defined.

(** ** Entropy and the credential generators *)
Definition VK_ID_PREFIX : string := "vk_".
Definition VK_ID_HASH_PREFIX_LEN : nat := 16.
Definition SK_SECRET_PREFIX : string := "sk-bb-".
Definition AWS_ACCESS_KEY_PREFIX : string := "AKIA".
Definition AWS_ACCESS_KEY_ID_LEN : nat := 20.
Definition AWS_SECRET_ACCESS_KEY_LEN : nat := 40.

Definition AKID_ALPHABET : string := "ABCDEFGHIJKLMNOPQRSTUVWXYZ0123456789".
Definition SECRET_ALPHABET : string :=
  "ABCDEFGHIJKLMNOPQRSTUVWXYZabcdefghijklmnopqrstuvwxyz0123456789+/".

(** [ALPHABET[idx] as char]; an index out of range is a panic. *)
Definition symbol (alphabet : string) (idx : Z) : option ascii := String.get (Z.to_nat idx) alphabet.

(** [buf] is what [getrandom] filled: bytes as [Z]. *)
Fixpoint akid_loop (buf : list Z) : option string :=
  match buf with
  | [] => Some ""
  | b :: buf' =>
      let? c := symbol AKID_ALPHABET (b mod 36) in
      let? rest := akid_loop buf' in Some (String c rest)
  end.

Definition generate_aws_access_key_id (buf : list Z) : option string :=
  let? body := akid_loop buf in Some (AWS_ACCESS_KEY_PREFIX +:+ body).

(** The inner [while bits >= 6]: [fuel] bounds the iterations. *)
Fixpoint emit (fuel : nat) (acc bits : Z) : option (string * Z) :=
  if bits <? 6 then Some (EmptyString, bits)
  else
    match fuel with
    | O => None
    | S f =>
        let bits' := bits - 6 in
        let? c := symbol SECRET_ALPHABET (Z.land (Z.shiftr acc bits') 63) in
        let? (rest, over) := emit f acc bits' in Some (String c rest, over)
    end.

Fixpoint secret_loop (buf : list Z) (acc bits : Z) : option string :=
  match buf with
  | [] => Some EmptyString
  | b :: buf' =>
      let acc' := Z.lor (wrap_u32 (Z.shiftl acc 8)) b in
      let? (out, bits') := emit 3 acc' (bits + 8) in
      let? rest := secret_loop buf' acc' bits' in Some (out +:+ rest)
  end.

Definition generate_aws_secret_access_key (buf : list Z) : option string := secret_loop buf 0 0.

(** ** The digest and the encoder of the credentials *)
Class Digest := {
  sha256_hex : string -> string;
  hex_encode : list Z -> string;
  sha256_hex_length s : String.length (sha256_hex s) = 64%nat }.

(** ** The authentication half of [GovState] *)
Section Gov.
Context {S : Type} `{KeyStore S} `{TokenCrypto} `{Digest}.

Record GovKeys := mk_gov {
  store : S;
  by_hash : gmap string VirtualKey.t;
  by_access_key_id : gmap string AwsKeyEntry.t;
  admin_token_hash : option string;
  signer : option TokenSigner;
  verifier : option TokenVerifier;
  denylist : gset string }.

Definition set_store (s : S) (g : GovKeys) : GovKeys :=
  mk_gov s (by_hash g) (by_access_key_id g) (admin_token_hash g) (signer g) (verifier g) (denylist g).
Definition set_caches (h : gmap string VirtualKey.t) (a : gmap string AwsKeyEntry.t) (g : GovKeys)
    : GovKeys :=
  mk_gov (store g) h a (admin_token_hash g) (signer g) (verifier g) (denylist g).
Definition set_denylist (d : gset string) (g : GovKeys) : GovKeys :=
  mk_gov (store g) (by_hash g) (by_access_key_id g) (admin_token_hash g) (signer g) (verifier g) d.

(** A governance operation: state passing, [None] a panic, [Err] an early return through [?]. *)
Definition M (A : Type) : Type := GovKeys -> option (GovKeys * StoreResult A).
Definition ret {A} (a : A) : M A := fun g => Some (g, Ok a).
Definition raise {A} (e : StoreError) : M A := fun g => Some (g, Err e).
Definition bind {A B} (m : M A) (f : A -> M B) : M B := fun g =>
  match m g with
  | None => None
  | Some (g', Err e) => Some (g', Err e)
  | Some (g', Ok a) => f a g'
  end.
(** A call to the store. *)
Definition on_store {A} (f : S -> S * StoreResult A) : M A := fun g =>
  let '(s', r) := f (store g) in Some (set_store s' g, r).
(** A pure computation that may panic. *)
Definition checked {A} (o : option A) : M A := fun g =>
  match o with Some a => Some (g, Ok a) | None => None end.
(** [getrandom::fill] of a buffer, with its outcome. *)
Definition entropy (draw : option (list Z)) : M (list Z) :=
  match draw with Some b => ret b | None => raise NoEntropy end.

End Gov.

Notation "'do*' x := m 'in' k" := (bind m (fun x => k))
  (at level 200, x pattern, m at level 100, k at level 200) : rust_scope.

Section GovOps.
Context {S : Type} `{KeyStore S} `{TokenCrypto} `{Digest}.
Notation GovKeys := (@GovKeys S _).
Notation M := (@M S _).

(** *** Loading the caches *)
Definition load_by_hash (l : list VirtualKey.t) : gmap string VirtualKey.t :=
  foldl (fun m k => <[VirtualKey.key_hash k := k]> m) ∅ l.

Definition load_by_id (h : gmap string VirtualKey.t) : gmap string VirtualKey.t :=
  foldl (fun m (hk : string * VirtualKey.t) => <[VirtualKey.id hk.2 := hk.2]> m) ∅ (map_to_list h).

Definition join_credentials (h : gmap string VirtualKey.t) (l : list AwsCredential.t)
    : gmap string AwsKeyEntry.t :=
  let by_id := load_by_id h in
  foldl (fun m c =>
    match by_id !! AwsCredential.key_id c with
    | Some key => <[AwsCredential.access_key_id c :=
                      AwsKeyEntry.mk key (AwsCredential.secret_access_key c)]> m
    | None => m
    end) ∅ l.

Definition load : M (gmap string VirtualKey.t) :=
  do* l := on_store list_keys in ret (load_by_hash l).

Definition load_by_access_key_id (h : gmap string VirtualKey.t) : M (gmap string AwsKeyEntry.t) :=
  do* l := on_store list_aws_credentials in ret (join_credentials h l).

Definition refresh : M unit :=
  do* fresh := load in
  do* fresh_akid := load_by_access_key_id fresh in
  fun g => Some (set_caches fresh fresh_akid g, Ok tt).

(** Boot on a store: both caches, then the denylist. *)
Definition new_with_signer (s : S) (admin_token : option string) (sg : option TokenSigner)
    : option (GovKeys * StoreResult unit) :=
  (do* h := load in
   do* a := load_by_access_key_id h in
   do* d := on_store list_denylist in
   fun g => Some (mk_gov (store g) h a (sha256_hex <$> admin_token) sg
                    ((fun k => single (signer_kid k) (signer_verifying_key k)) <$> sg)
                    (list_to_set d), Ok tt))
  (mk_gov s ∅ ∅ None None None ∅).

(** *** Resolving a credential *)
Definition lookup (g : GovKeys) (secret : string) : option VirtualKey.t :=
  by_hash g !! sha256_hex secret.

(** [values().find(|k| k.id == sub)], in the map's iteration order. *)
Definition lookup_by_sub (g : GovKeys) (sub : string) : option VirtualKey.t :=
  find (fun k => String.eqb (VirtualKey.id k) sub) (map_to_list (by_hash g)).*2.

Definition lookup_akid (g : GovKeys) (access_key_id : string) : option AwsKeyEntry.t :=
  by_access_key_id g !! access_key_id.

Definition is_revoked (g : GovKeys) (sub : string) : bool := bool_decide (sub ∈ denylist g).

Definition verify_token (g : GovKeys) (token : string) (now : Z) : option VirtualKey.t :=
  match verifier g with
  | None => None
  | Some v =>
      match verify v token now with
      | Rejected _ => None
      | Verified claims =>
          if bool_decide (TokenClaims.sub claims ∈ denylist g) then None
          else
            match lookup_by_sub g (TokenClaims.sub claims) with
            | Some key => if VirtualKey.enabled key then Some key else None
            | None => None
            end
      end
  end.

(** *** Minting *)
Definition generate_secret (draw : option (list Z)) : M string :=
  do* buf := entropy draw in ret (SK_SECRET_PREFIX +:+ hex_encode buf).

(** [&hash[..16]] panics on a shorter string. *)
Definition id_of_hash (hash : string) : option string :=
  if (VK_ID_HASH_PREFIX_LEN <=? String.length hash)%nat
  then Some (VK_ID_PREFIX +:+ String.substring 0 VK_ID_HASH_PREFIX_LEN hash) else None.

Definition ensure_id_free_for_hash (id hash : string) : M unit :=
  do* o := on_store (fun s => get_key s id) in
  match o with
  | Some existing =>
      if String.eqb (VirtualKey.key_hash existing) hash then ret tt else raise IdCollision
  | None => ret tt
  end.

Definition new_key (id hash : string) (spec : NewKeySpec.t) (now : Z) : VirtualKey.t :=
  VirtualKey.mk id hash (NewKeySpec.name spec) (NewKeySpec.allowed_pools spec) true now
    (NewKeySpec.group spec) (NewKeySpec.labels spec).

Definition create_key (draw : option (list Z)) (spec : NewKeySpec.t) (now : Z)
    : M (VirtualKey.t * string) :=
  do* secret := generate_secret draw in
  let hash := sha256_hex secret in
  do* id := checked (id_of_hash hash) in
  do* _ := ensure_id_free_for_hash id hash in
  let key := new_key id hash spec now in
  do* _ := on_store (fun s => put_key s key) in
  do* _ := refresh in
  ret (key, secret).

Definition aws_pair (draw_akid draw_sk : option (list Z)) : M (string * string) :=
  do* b1 := entropy draw_akid in
  do* access_key_id := checked (generate_aws_access_key_id b1) in
  do* b2 := entropy draw_sk in
  do* secret_access_key := checked (generate_aws_secret_access_key b2) in
  ret (access_key_id, secret_access_key).

Definition create_key_with_aws (draw draw_akid draw_sk : option (list Z)) (spec : NewKeySpec.t)
    (now : Z) : M (VirtualKey.t * string * string * string) :=
  do* secret := generate_secret draw in
  let hash := sha256_hex secret in
  do* id := checked (id_of_hash hash) in
  do* _ := ensure_id_free_for_hash id hash in
  do* p := aws_pair draw_akid draw_sk in
  let key := new_key id hash spec now in
  do* _ := on_store (fun s => put_key_with_aws_credential s key (AwsCredential.mk p.1 id p.2)) in
  do* _ := refresh in
  ret (key, secret, p.1, p.2).

Definition need_signer : M TokenSigner := fun g =>
  match signer g with Some sg => Some (g, Ok sg) | None => Some (g, Err NoSigningKey) end.

Definition mint_signed (draw : option (list Z)) (spec : NewKeySpec.t) (exp now : Z)
    : M (VirtualKey.t * string) :=
  do* sg := need_signer in
  do* raw := entropy draw in
  let id := VK_ID_PREFIX +:+ hex_encode raw in
  let binding := new_key id ("binding:" +:+ id) spec now in
  do* _ := on_store (fun s => put_key s binding) in
  do* _ := refresh in
  ret (binding, mint sg id exp).

Definition mint_signed_with_aws (draw draw_akid draw_sk : option (list Z)) (spec : NewKeySpec.t)
    (exp now : Z) : M (VirtualKey.t * string * string * string) :=
  do* sg := need_signer in
  do* raw := entropy draw in
  let id := VK_ID_PREFIX +:+ hex_encode raw in
  do* p := aws_pair draw_akid draw_sk in
  let binding := new_key id ("binding:" +:+ id) spec now in
  do* _ := on_store (fun s =>
    put_key_with_aws_credential s binding (AwsCredential.mk p.1 id p.2)) in
  do* _ := refresh in
  ret (binding, mint sg id exp, p.1, p.2).

(** *** Changing and removing *)
Definition remove_key (id : string) : M unit :=
  do* _ := on_store (fun s => delete_key s id) in refresh.

Definition rotate_key (id : string) (draw : option (list Z)) : M (option (VirtualKey.t * string)) :=
  do* o := on_store (fun s => get_key s id) in
  match o with
  | None => ret None
  | Some k =>
      do* secret := generate_secret draw in
      let key := VirtualKey.mk (VirtualKey.id k) (sha256_hex secret) (VirtualKey.name k)
        (VirtualKey.allowed_pools k) (VirtualKey.enabled k) (VirtualKey.created_at k)
        (VirtualKey.group k) (VirtualKey.labels k) in
      do* _ := on_store (fun s => put_key s key) in
      do* _ := refresh in
      ret (Some (key, secret))
  end.

Definition update_key (id : string) (enabled : option bool) (group : option (option string))
    : M (option VirtualKey.t) :=
  do* o := on_store (fun s => get_key s id) in
  match o with
  | None => ret None
  | Some k =>
      let key := VirtualKey.mk (VirtualKey.id k) (VirtualKey.key_hash k) (VirtualKey.name k)
        (VirtualKey.allowed_pools k) (default (VirtualKey.enabled k) enabled)
        (VirtualKey.created_at k) (default (VirtualKey.group k) group) (VirtualKey.labels k) in
      do* _ := on_store (fun s => put_key s key) in
      do* _ := refresh in
      ret (Some key)
  end.

Definition revoke (sub reason : string) : M unit :=
  do* _ := on_store (fun s => add_denylist s sub reason) in
  fun g => Some (set_denylist ({[sub]} ∪ denylist g) g, Ok tt).

Definition all_keys : M (list VirtualKey.t) := on_store list_keys.
End GovOps.

(** ** Role-carrying principals *)
Module Principal.
Record t := mk { id : string; name : option string; roles : list string; ttl_secs : option Z }.
End Principal.

Module RoleBindingCfg.
Record t := mk { allowed_pools : option (list string); group : option string;
                 admin_scope : option string }.
End RoleBindingCfg.

(** [if !pools.contains(p) { pools.push(p) }] over one list. *)
Definition add_pools (pools l : list string) : list string :=
  foldl (fun acc p => if existsb (String.eqb p) acc then acc else acc ++ [p]) pools l.

Definition union_grants (granting : list RoleBindingCfg.t) : list string * bool :=
  foldl (fun acc b =>
    match RoleBindingCfg.allowed_pools b with
    | None => (acc.1, true)
    | Some l => (add_pools acc.1 l, acc.2)
    end) ([], false) granting.

Definition find_map {A B} (f : A -> option B) (l : list A) : option B := head (omap f l).

(** [bindings] is the identifying module's table, [None] when it has none. *)
Definition synthesize_principal_key (p : Principal.t)
    (bindings : option (list (string * RoleBindingCfg.t))) : option VirtualKey.t :=
  if starts_with (Principal.id p) GROUP_BUCKET_PREFIX || starts_with (Principal.id p) VK_ID_PREFIX
  then None
  else
    match bindings with
    | None => None
    | Some table =>
        let granting := omap (fun role => assoc role table) (Principal.roles p) in
        match granting with
        | [] => None
        | _ =>
            let '(pools, all_pools) := union_grants granting in
            let mk_key ap :=
              VirtualKey.mk (Principal.id p) ("principal:" +:+ Principal.id p)
                (default (Principal.id p) (Principal.name p)) ap true 0
                (find_map RoleBindingCfg.group granting) [] in
            if all_pools then Some (mk_key None)
            else match pools with [] => None | _ => Some (mk_key (Some pools)) end
        end
    end.
