(* ===== verification/KeysFacts.v ===== *)
(** * Facts on the virtual-key lifecycle

    A small program logic for the operations of [Keys]: what every operation guarantees whatever its
    result ([evolves]), that an early return leaves the caches alone ([atomic]), and that a
    successful one leaves them a snapshot of the store ([mirrors]).  Then what a snapshot answers. *)
From stdpp Require Import base gmap list strings.
From Stdlib Require Import ZArith Lia Ascii.
From S2P Require Import Prelude Cost Ledger Signing Keys.
Open Scope Z_scope.
Open Scope rust_scope.

Lemma string_length_app (s t : string) :
  String.length (s +:+ t) = (String.length s + String.length t)%nat.
Proof. induction s as [|a s IH]; simpl; [done|]. by rewrite IH. Qed.

(** ** The generators never panic *)
Lemma symbol_total al i : 0 <= i < Z.of_nat (String.length al) -> is_Some (symbol al i).
Proof.
  intros Hi. unfold symbol. assert (Z.to_nat i < String.length al)%nat as Hlt by lia.
  revert Hlt. generalize (Z.to_nat i). clear. induction al as [|a al IH]; intros [|n] Hn; simpl in *;
    [lia..|by eexists|apply IH; lia].
Qed.

Lemma land63_range x : 0 <= Z.land x 63 < 64.
Proof. change 63 with (Z.ones 6). rewrite Z.land_ones by lia. apply Z.mod_pos_bound. lia. Qed.

Lemma akid_loop_total buf :
  exists s, akid_loop buf = Some s /\ String.length s = length buf.
Proof.
  induction buf as [|b buf (s & E & El)]; [by exists ""|]. simpl.
  destruct (symbol_total AKID_ALPHABET (b mod 36)) as [c ->].
  { apply (Z.mod_pos_bound b 36). lia. }
  rewrite E. eexists. split; [done|]. simpl. by rewrite El.
Qed.

Lemma emit_total fuel acc bits :
  0 <= bits < 6 * (Z.of_nat fuel + 1) ->
  exists s over, emit fuel acc bits = Some (s, over) /\ 0 <= over < 6 /\
    bits = 6 * Z.of_nat (String.length s) + over.
Proof.
  revert bits. induction fuel as [|f IH]; intros bits Hb; cbn [emit];
    destruct (Z.ltb_spec bits 6); try lia.
  - exists "", bits. split_and!; [done|lia..|]. cbn. lia.
  - exists "", bits. split_and!; [done|lia..|]. cbn. lia.
  - destruct (symbol_total SECRET_ALPHABET (Z.land (Z.shiftr acc (bits - 6)) 63)) as [c ->].
    { apply land63_range. }
    destruct (IH (bits - 6)) as (s & over & -> & ? & ?); [lia|].
    exists (String c s), over. split_and!; [done|lia..|]. cbn [String.length]. lia.
Qed.

Lemma secret_loop_total buf acc bits : 0 <= bits < 6 ->
  exists s, secret_loop buf acc bits = Some s /\
    Z.of_nat (String.length s) = (bits + 8 * Z.of_nat (length buf)) / 6.
Proof.
  revert acc bits. induction buf as [|b buf IH]; intros acc bits Hb; cbn [secret_loop].
  - exists "". split; [done|]. cbn. rewrite Z.div_small; lia.
  - destruct (emit_total 3 (Z.lor (wrap_u32 (Z.shiftl acc 8)) b) (bits + 8)) as (s & over & -> & Ho & Eb);
      [lia|].
    destruct (IH (Z.lor (wrap_u32 (Z.shiftl acc 8)) b) over Ho) as (r & -> & Er).
    exists (s +:+ r). split; [done|]. rewrite string_length_app, Nat2Z.inj_add, Er.
    cbn [length]. rewrite Nat2Z.inj_succ.
    replace (bits + 8 * Z.succ (Z.of_nat (length buf)))
      with (over + 8 * Z.of_nat (length buf) + Z.of_nat (String.length s) * 6) by lia.
    rewrite Z.div_add by lia. lia.
Qed.

Section GovFacts.
Context {S : Type} `{KeyStore S} `{TokenCrypto} `{Digest}.
Notation GovKeys := (@GovKeys S _).
Notation M := (@M S _).
Implicit Types g : GovKeys.

(** ** Predicates on states *)
Definition gtables g : KeyTables.t := tables (store g).

Definition same_caches g g' : Prop :=
  by_hash g' = by_hash g /\ by_access_key_id g' = by_access_key_id g /\ denylist g' = denylist g.

(** Guaranteed by every operation, also when it fails half-way. *)
Definition evolves g g' : Prop :=
  db_ok (store g') /\
  KeyTables.denied (gtables g) ⊆ KeyTables.denied (gtables g') /\
  denylist g ⊆ denylist g' /\
  signer g' = signer g /\ verifier g' = verifier g.

(** The caches are what [load] and [load_by_access_key_id] compute from the tables. *)
Definition mirrored g : Prop := exists l lc,
  l ≡ₚ (map_to_list (KeyTables.keys (gtables g))).*2 /\
  lc ≡ₚ (map_to_list (KeyTables.creds (gtables g))).*2 /\
  by_hash g = load_by_hash l /\ by_access_key_id g = join_credentials (by_hash g) lc.

Definition unique_hashes (t : KeyTables.t) : Prop :=
  forall i j k k', KeyTables.keys t !! i = Some k -> KeyTables.keys t !! j = Some k' ->
    VirtualKey.key_hash k = VirtualKey.key_hash k' -> i = j.

Lemma gov_evolves_refl g : db_ok (store g) -> evolves g g.
Proof. intros Hg. unfold evolves. by split_and!. Qed.

Lemma gov_evolves_trans g1 g2 g3 : evolves g1 g2 -> evolves g2 g3 -> evolves g1 g3.
Proof.
  intros (_ & ? & ? & Hs & Hv) (? & ? & ? & Hs' & Hv'). unfold evolves. split_and!; [done|set_solver..| |];
    congruence.
Qed.

Lemma same_caches_trans g1 g2 g3 : same_caches g1 g2 -> same_caches g2 g3 -> same_caches g1 g3.
Proof. intros (?&?&?) (?&?&?). unfold same_caches. split_and!; congruence. Qed.

(** ** Properties of operations *)
Section Op.
Context {A : Type}.
Implicit Types m : M A.

(** Returns, and evolves the state. *)
Definition safe m : Prop := forall g, db_ok (store g) ->
  exists g' r, m g = Some (g', r) /\ evolves g g'.
(** Never touches the caches. *)
Definition still m : Prop := forall g g' r, m g = Some (g', r) -> same_caches g g'.
(** An early return leaves the caches as they were. *)
Definition atomic m : Prop := forall g g' e, m g = Some (g', Err e) -> same_caches g g'.
(** Cannot fail. *)
Definition sure m : Prop := forall g g' r, m g = Some (g', r) -> exists a, r = Ok a.
(** Leaves fresh caches when it succeeds. *)
Definition mirrors m : Prop := forall g g' a,
  db_ok (store g) -> m g = Some (g', Ok a) -> mirrored g'.
(** Keeps the tables and the caches. *)
Definition reads m : Prop := forall g g' r, db_ok (store g) -> m g = Some (g', r) ->
  gtables g' = gtables g /\ same_caches g g'.

Lemma still_atomic m : still m -> atomic m.
Proof. intros Hm g g' e E. exact (Hm _ _ _ E). Qed.
Lemma sure_atomic m : sure m -> atomic m.
Proof. intros Hm g g' e E. by destruct (Hm _ _ _ E). Qed.
End Op.

Lemma bind_inv {A B} (m : M A) (f : A -> M B) g g' r :
  bind m f g = Some (g', r) ->
  (exists e, m g = Some (g', Err e) /\ r = Err e) \/
  (exists g1 a, m g = Some (g1, Ok a) /\ f a g1 = Some (g', r)).
Proof.
  unfold bind. destruct (m g) as [[g1 [a|e]]|]; [|intros [= <- <-]|done]; eauto.
Qed.

Lemma safe_bind {A B} (m : M A) (f : A -> M B) :
  safe m -> (forall a, safe (f a)) -> safe (bind m f).
Proof.
  intros Hm Hf g Hg. unfold bind. destruct (Hm g Hg) as (g1 & [a|e] & -> & He); [|eauto].
  destruct (Hf a g1 (proj1 He)) as (g2 & r & -> & He'). eauto using gov_evolves_trans.
Qed.

Lemma still_bind {A B} (m : M A) (f : A -> M B) :
  still m -> (forall a, still (f a)) -> still (bind m f).
Proof.
  intros Hm Hf g g' r [(e & E & _)|(g1 & a & E & E')]%bind_inv; [by eapply Hm|].
  eapply same_caches_trans; [by eapply Hm|by eapply Hf].
Qed.

Lemma atomic_bind {A B} (m : M A) (f : A -> M B) :
  still m -> (forall a, atomic (f a)) -> atomic (bind m f).
Proof.
  intros Hm Hf g g' r [(e & E & _)|(g1 & a & E & E')]%bind_inv; [by eapply Hm|].
  eapply same_caches_trans; [by eapply Hm|by eapply Hf].
Qed.

Lemma atomic_then_sure {A B} (m : M A) (f : A -> M B) :
  atomic m -> (forall a, sure (f a)) -> atomic (bind m f).
Proof.
  intros Hm Hf g g' r [(e & E & _)|(g1 & a & E & E')]%bind_inv; [by eapply Hm|].
  by destruct (Hf _ _ _ _ E').
Qed.

Lemma mirrors_bind {A B} (m : M A) (f : A -> M B) :
  safe m -> (forall a, mirrors (f a)) -> mirrors (bind m f).
Proof.
  intros Hm Hf g g' b Hg [(e & E & [=])|(g1 & a & E & E')]%bind_inv.
  destruct (Hm g Hg) as (? & ? & E2 & He). rewrite E in E2. injection E2 as <- <-.
  exact (Hf a g1 g' b (proj1 He) E').
Qed.

(** *** Primitive operations *)
Lemma safe_ret {A} (a : A) : safe (ret a : M A).
Proof. intros g Hg. eauto using gov_evolves_refl. Qed.
Lemma safe_raise {A} e : safe (raise e : M A).
Proof. intros g Hg. eauto using gov_evolves_refl. Qed.
Lemma still_ret {A} (a : A) : still (ret a : M A).
Proof. by intros g g' r [= <- <-]. Qed.
Lemma still_raise {A} e : still (raise e : M A).
Proof. by intros g g' r [= <- <-]. Qed.
Lemma sure_ret {A} (a : A) : sure (ret a : M A).
Proof. intros g g' r [= <- <-]. eauto. Qed.
Lemma mirrors_raise {A} e : mirrors (raise e : M A).
Proof. by intros g g' a _ [= ]. Qed.

Lemma still_on_store {A} (f : S -> S * StoreResult A) : still (on_store f : M A).
Proof. intros g g' r. unfold on_store. destruct (f (store g)). by intros [= <- <-]. Qed.

Lemma still_checked {A} (o : option A) : still (checked o : M A).
Proof. intros g g' r. unfold checked. destruct o; [|done]. by intros [= <- <-]. Qed.
Lemma safe_checked {A} (o : option A) : is_Some o -> safe (checked o : M A).
Proof. intros [a ->] g Hg. eauto using gov_evolves_refl. Qed.

Lemma still_entropy d : still (entropy d : M _).
Proof. destruct d; [apply still_ret|apply still_raise]. Qed.
Lemma safe_entropy d : safe (entropy d : M _).
Proof. destruct d; [apply safe_ret|apply safe_raise]. Qed.
Lemma still_need_signer : still (need_signer : M _).
Proof. intros g g' r. unfold need_signer. destruct (signer g); by intros [= <- <-]. Qed.
Lemma safe_need_signer : safe (need_signer : M _).
Proof. intros g Hg. unfold need_signer. destruct (signer g); eauto using gov_evolves_refl. Qed.

Lemma on_store_inv {A} (f : S -> S * StoreResult A) g g' r :
  on_store f g = Some (g', r) -> exists s', f (store g) = (s', r) /\ g' = set_store s' g.
Proof. unfold on_store. destruct (f (store g)) as [s' r']. intros [= <- <-]. eauto. Qed.

(** A store call that keeps the database well formed and no denied subject is lost. *)
Lemma safe_on_store {A} (f : S -> S * StoreResult A) :
  (forall s s' r, f s = (s', r) -> db_ok s -> db_ok s' /\
     KeyTables.denied (tables s) ⊆ KeyTables.denied (tables s')) ->
  safe (on_store f : M A).
Proof.
  intros Hf g Hg. unfold on_store. destruct (f (store g)) as [s' r] eqn:E.
  destruct (Hf _ _ _ E Hg). eexists _, _. split; [done|]. unfold evolves. by split_and!.
Qed.

Lemma safe_put_key k : safe (on_store (fun s => put_key s k) : M _).
Proof. apply safe_on_store. intros s s' r E Hs. by destruct (put_key_law _ _ _ _ E Hs) as (?&?&?). Qed.
Lemma safe_get_key i : safe (on_store (fun s => get_key s i) : M _).
Proof.
  apply safe_on_store. intros s s' r E Hs. destruct (get_key_law _ _ _ _ E Hs) as (?&Ht&?). by rewrite Ht.
Qed.
Lemma safe_list_keys : safe (on_store list_keys : M _).
Proof.
  apply safe_on_store. intros s s' r E Hs. destruct (list_keys_law _ _ _ E Hs) as (?&Ht&?). by rewrite Ht.
Qed.
Lemma safe_list_creds : safe (on_store list_aws_credentials : M _).
Proof.
  apply safe_on_store. intros s s' r E Hs. destruct (list_creds_law _ _ _ E Hs) as (?&Ht&?). by rewrite Ht.
Qed.
Lemma safe_list_denylist : safe (on_store list_denylist : M _).
Proof.
  apply safe_on_store. intros s s' r E Hs.
  destruct (list_denylist_law _ _ _ E Hs) as (?&Ht&?). by rewrite Ht.
Qed.
Lemma safe_delete_key i : safe (on_store (fun s => delete_key s i) : M _).
Proof. apply safe_on_store. intros s s' r E Hs. by destruct (delete_key_law _ _ _ _ E Hs) as (?&?&?). Qed.
Lemma safe_put_both k c : safe (on_store (fun s => put_key_with_aws_credential s k c) : M _).
Proof. apply safe_on_store. intros s s' r E Hs. by destruct (put_both_law _ _ _ _ _ E Hs) as (?&?&?). Qed.
Lemma safe_add_denylist sub why : safe (on_store (fun s => add_denylist s sub why) : M _).
Proof.
  apply safe_on_store. intros s s' r E Hs. by destruct (add_denylist_law _ _ _ _ _ E Hs) as (?&?&?).
Qed.
End GovFacts.

(** Structural rules first, then the primitives. *)
Create HintDb gov discriminated.
#[export] Hint Resolve safe_bind safe_ret safe_raise safe_entropy safe_need_signer safe_put_key
  safe_get_key safe_list_keys safe_list_creds safe_list_denylist safe_delete_key safe_put_both
  safe_add_denylist safe_checked still_bind still_ret still_raise still_on_store still_checked
  still_entropy still_need_signer sure_ret mirrors_raise : gov.

Section Ops.
Context {S : Type} `{KeyStore S} `{TokenCrypto} `{Digest}.
Notation GovKeys := (@GovKeys S _).
Notation M := (@M S _).
Implicit Types g : GovKeys.

(** ** Refreshing *)
Lemma refresh_inv g g' r : db_ok (store g) -> refresh g = Some (g', r) ->
  db_ok (store g') /\ gtables g' = gtables g /\ denylist g' = denylist g /\
  signer g' = signer g /\ verifier g' = verifier g /\
  match r with Ok _ => mirrored g' | Err _ => same_caches g g' end.
Proof.
  intros Hg. unfold refresh, load, load_by_access_key_id.
  intros [(e & [(e' & E & [= <-])|(g1 & l & E & [=])]%bind_inv & ->)|(g2 & h & Eh & E)]%bind_inv.
  - apply on_store_inv in E as (s & Es & ->). destruct (list_keys_law _ _ _ Es Hg) as (? & ? & _).
    unfold same_caches, gtables. by split_and!.
  - apply bind_inv in Eh as [(e & _ & [=])|(g1 & l & E1 & [= <- <-])].
    apply on_store_inv in E1 as (s & Es & ->). destruct (list_keys_law _ _ _ Es Hg) as (Hs & Ht & Hl).
    apply bind_inv in E as [(e & [(e' & E & [= <-])|(g1 & lc & E & [=])]%bind_inv & ->)|(g2 & a & Ea & E)].
    + apply on_store_inv in E as (s2 & Es2 & ->). cbn in Es2.
      destruct (list_creds_law _ _ _ Es2 Hs) as (? & Ht2 & _).
      unfold same_caches, gtables. cbn. rewrite Ht2. by split_and!.
    + apply bind_inv in Ea as [(e & _ & [=])|(g1 & lc & E2 & [= <- <-])].
      apply on_store_inv in E2 as (s2 & Es2 & ->). cbn in Es2.
      destruct (list_creds_law _ _ _ Es2 Hs) as (? & Ht2 & Hlc). injection E as <- <-.
      unfold gtables. cbn. rewrite Ht2. split_and!; try done. exists l, lc.
      unfold gtables. cbn. rewrite Ht2, Ht. split_and!; [by apply Hl| |done..].
      rewrite <- Ht. by apply Hlc.
Qed.

Lemma safe_refresh : safe (refresh : M unit).
Proof.
  assert (forall h, safe (load_by_access_key_id h : M _)) as Ha.
  { intros h. unfold load_by_access_key_id. eauto with gov. }
  assert (safe (load : M _)) as Hl by (unfold load; eauto with gov).
  apply safe_bind; [done|]. intros h. apply safe_bind; [done|]. intros a g Hg.
  eexists _, _. split; [done|]. unfold evolves, gtables. by split_and!.
Qed.

Lemma atomic_refresh : atomic (refresh : M unit).
Proof.
  apply atomic_bind; [unfold load; auto with gov|]. intros h.
  apply atomic_bind; [unfold load_by_access_key_id; auto with gov|]. by intros a g g' e [=].
Qed.

Lemma mirrors_refresh {A} (a : A) : mirrors (do* _ := refresh in ret a : M A).
Proof.
  intros g g' b Hg [(e & _ & [=])|(g1 & u & E & E')]%bind_inv. injection E' as <- <-.
  by destruct (refresh_inv _ _ _ Hg E) as (_&_&_&_&_&?).
Qed.

Lemma id_of_hash_total s : is_Some (id_of_hash (sha256_hex s)).
Proof. unfold id_of_hash. rewrite sha256_hex_length. by eexists. Qed.

Lemma safe_aws_pair d1 d2 : safe (aws_pair d1 d2 : M _).
Proof.
  unfold aws_pair. apply safe_bind; [auto with gov|]. intros b1.
  apply safe_bind.
  { apply safe_checked. unfold generate_aws_access_key_id.
    destruct (akid_loop_total b1) as (s & -> & _). by eexists. }
  intros a. apply safe_bind; [auto with gov|]. intros b2. apply safe_bind; [|auto with gov].
  apply safe_checked. unfold generate_aws_secret_access_key.
  destruct (secret_loop_total b2 0 0) as (s & -> & _); [lia|]. by eexists.
Qed.

Lemma still_aws_pair d1 d2 : still (aws_pair d1 d2 : M _).
Proof. unfold aws_pair. auto 10 with gov. Qed.

Lemma still_generate_secret d : still (generate_secret d : M _).
Proof. unfold generate_secret. auto with gov. Qed.
Lemma safe_generate_secret d : safe (generate_secret d : M _).
Proof. unfold generate_secret. auto with gov. Qed.

Lemma still_ensure i h : still (ensure_id_free_for_hash i h : M _).
Proof.
  apply still_bind; [auto with gov|]. intros [k|]; [|auto with gov]. case_match; auto with gov.
Qed.
Lemma safe_ensure i h : safe (ensure_id_free_for_hash i h : M _).
Proof.
  apply safe_bind; [auto with gov|]. intros [k|]; [|auto with gov]. case_match; auto with gov.
Qed.
End Ops.

#[export] Hint Resolve safe_refresh atomic_refresh mirrors_refresh safe_aws_pair still_aws_pair
  still_generate_secret safe_generate_secret still_ensure safe_ensure id_of_hash_total : gov.

(** ** What a successful operation did to the tables *)
Section Effects.
Context {S : Type} `{KeyStore S} `{TokenCrypto} `{Digest}.
Notation GovKeys := (@GovKeys S _).
Notation M := (@M S _).
Implicit Types g : GovKeys.

(** The tables were transformed by [f], the caches are a snapshot of the result, and the rest is
    as it was. *)
Definition committed (f : KeyTables.t -> KeyTables.t) g g' : Prop :=
  db_ok (store g') /\ gtables g' = f (gtables g) /\ mirrored g' /\ denylist g' = denylist g /\
  signer g' = signer g /\ verifier g' = verifier g.

Lemma bind_Ok {A B} (m : M A) (f : A -> M B) g g' b :
  bind m f g = Some (g', Ok b) -> exists g1 a, m g = Some (g1, Ok a) /\ f a g1 = Some (g', Ok b).
Proof. intros [(e & _ & [=])|?]%bind_inv. done. Qed.

(** A step that only draws entropy, computes or reads the store. *)
Definition inert {A} (m : M A) (Q : KeyTables.t -> A -> Prop) : Prop := forall g g' a,
  db_ok (store g) -> m g = Some (g', Ok a) ->
  db_ok (store g') /\ gtables g' = gtables g /\ same_caches g g' /\
  signer g' = signer g /\ verifier g' = verifier g /\ Q (gtables g) a.

Lemma inert_generate_secret d :
  inert (generate_secret d : M _) (fun _ s => exists b, d = Some b /\ s = SK_SECRET_PREFIX +:+ hex_encode b).
Proof.
  intros g g' a Hg. unfold generate_secret, entropy. destruct d as [b|]; [|by intros [=]].
  intros [= <- <-]. unfold same_caches. split_and!; eauto.
Qed.

Lemma inert_get_key i :
  inert (on_store (fun s => get_key s i) : M _) (fun t o => o = KeyTables.keys t !! i).
Proof.
  intros g g' a Hg (s & E & ->)%on_store_inv.
  destruct (get_key_law _ _ _ _ E Hg) as (? & Ht & Ho). unfold gtables, same_caches. cbn.
  rewrite Ht. split_and!; auto.
Qed.

Lemma inert_ensure i h :
  inert (ensure_id_free_for_hash i h : M _) (fun t _ => forall k, KeyTables.keys t !! i = Some k ->
    VirtualKey.key_hash k = h).
Proof.
  intros g g' a Hg (g1 & o & E & E')%bind_Ok.
  destruct (inert_get_key i _ _ _ Hg E) as (? & Ht & ? & ? & ? & ->).
  destruct (KeyTables.keys (gtables g) !! i) as [k|] eqn:Ek.
  - destruct (String.eqb_spec (VirtualKey.key_hash k) h); [|by inversion E'].
    injection E' as <- <-. split_and!; try done. by intros k' [= <-].
  - injection E' as <- <-. by split_and!.
Qed.

Lemma inert_checked {A} (o : option A) : inert (checked o : M _) (fun _ a => o = Some a).
Proof.
  intros g g' a Hg. unfold checked. destruct o; [|done]. intros [= <- <-].
  unfold same_caches. by split_and!.
Qed.

Lemma inert_entropy d : inert (entropy d : M _) (fun _ b => d = Some b).
Proof.
  intros g g' a Hg. destruct d; [|by intros [=]]. intros [= <- <-].
  unfold same_caches. by split_and!.
Qed.

Lemma inert_bind {A B} (m : M A) (f : A -> M B) P Q :
  inert m P -> (forall a, inert (f a) (Q a)) ->
  inert (bind m f) (fun t b => exists a, P t a /\ Q a t b).
Proof.
  intros Hm Hf g g' b Hg (g1 & a & E & E')%bind_Ok.
  destruct (Hm _ _ _ Hg E) as (Hg1 & Ht & Hc & Hs & Hv & HP).
  destruct (Hf _ _ _ _ Hg1 E') as (Hg2 & Ht2 & Hc2 & Hs2 & Hv2 & HQ). rewrite Ht in HQ.
  split_and!; [done|congruence|by eapply same_caches_trans|congruence..|]. eauto.
Qed.

Lemma inert_ret {A} (a : A) : inert (ret a : M _) (fun _ b => b = a).
Proof. intros g g' b Hg [= <- <-]. unfold same_caches. by split_and!. Qed.

Lemma inert_aws_pair d1 d2 : inert (aws_pair d1 d2 : M _) (fun _ p => exists b1 b2,
  d1 = Some b1 /\ d2 = Some b2 /\ generate_aws_access_key_id b1 = Some p.1 /\
  generate_aws_secret_access_key b2 = Some p.2).
Proof.
  intros g g' p Hg E.
  pose proof (inert_bind _ _ _ _ (inert_entropy d1) (fun b1 =>
    inert_bind _ _ _ _ (inert_checked (generate_aws_access_key_id b1)) (fun a =>
    inert_bind _ _ _ _ (inert_entropy d2) (fun b2 =>
    inert_bind _ _ _ _ (inert_checked (generate_aws_secret_access_key b2)) (fun c =>
    inert_ret (a, c)))))) as Hi.
  destruct (Hi _ _ _ Hg E) as (? & ? & ? & ? & ? & b1 & -> & a & Ha & b2 & -> & c & Hc & ->).
  split_and!; eauto 10.
Qed.

(** An inert prefix does not change what the rest commits. *)
Lemma committed_after {A} (m : M A) Q f g g1 g' a :
  inert m Q -> db_ok (store g) -> m g = Some (g1, Ok a) -> committed f g1 g' -> committed f g g'.
Proof.
  intros Hm Hg E (? & Ht & ? & Hd & Hs & Hv).
  destruct (Hm _ _ _ Hg E) as (? & Ht1 & (?&?&Hd1) & Hs1 & Hv1 & _).
  unfold committed. rewrite Ht1 in Ht. split_and!; congruence.
Qed.

Lemma write_refresh {A} (w : S -> S * StoreResult unit) f (a : A) g g' b :
  (forall s s' r, w s = (s', r) -> db_ok s -> db_ok s' /\ (r = Ok tt -> tables s' = f (tables s))) ->
  db_ok (store g) -> (do* _ := on_store w in do* _ := refresh in ret a) g = Some (g', Ok b) ->
  b = a /\ committed f g g'.
Proof.
  intros Hw Hg (g1 & [] & E & (g2 & u & Er & E')%bind_Ok)%bind_Ok. injection E' as <- <-.
  apply on_store_inv in E as (s & E & ->). destruct (Hw _ _ _ E Hg) as [Hs Ht].
  destruct (refresh_inv (set_store s g) _ _ Hs Er) as (? & Ht2 & ? & ? & ? & Hm).
  split; [done|]. unfold committed. rewrite Ht2. cbn in *. unfold gtables. cbn.
  rewrite Ht by done. by split_and!.
Qed.

Lemma put_key_effect k s s' r : put_key s k = (s', r) -> db_ok s ->
  db_ok s' /\ (r = Ok tt -> tables s' = KeyTables.put_key k (tables s)).
Proof. intros E Hs. by destruct (put_key_law _ _ _ _ E Hs) as (?&?&?). Qed.
Lemma put_both_effect k c s s' r : put_key_with_aws_credential s k c = (s', r) -> db_ok s ->
  db_ok s' /\ (r = Ok tt -> tables s' = KeyTables.put_cred c (KeyTables.put_key k (tables s))).
Proof. intros E Hs. by destruct (put_both_law _ _ _ _ _ E Hs) as (?&?&?). Qed.

(** *** The operations *)
Lemma create_key_effect d spec now g g' k secret : db_ok (store g) ->
  create_key d spec now g = Some (g', Ok (k, secret)) ->
  exists b id, d = Some b /\ secret = SK_SECRET_PREFIX +:+ hex_encode b /\
    id_of_hash (sha256_hex secret) = Some id /\ k = new_key id (sha256_hex secret) spec now /\
    (forall k', KeyTables.keys (gtables g) !! id = Some k' ->
       VirtualKey.key_hash k' = sha256_hex secret) /\
    committed (KeyTables.put_key k) g g'.
Proof.
  intros Hg (g1 & s & E1 & (g2 & id & E2 & (g3 & [] & E3 & E4)%bind_Ok)%bind_Ok)%bind_Ok.
  pose proof (inert_generate_secret _ _ _ _ Hg E1) as (Hg1 & Ht1 & _ & _ & _ & b & -> & ->).
  pose proof (inert_checked _ _ _ _ Hg1 E2) as (Hg2 & Ht2 & _ & _ & _ & Hid).
  pose proof (inert_ensure _ _ _ _ _ Hg2 E3) as (Hg3 & Ht3 & _ & _ & _ & Hfree).
  apply (write_refresh _ _ _ _ _ _ (put_key_effect _)) in E4 as [[= -> ->] Hc]; [|done].
  exists b, id. rewrite Ht2, Ht1 in Hfree. split_and!; try done.
  eapply committed_after; [apply inert_generate_secret|done..|].
  eapply committed_after; [apply inert_checked|done..|].
  eapply committed_after; [apply inert_ensure|done..].
Qed.

Lemma mint_signed_effect d spec exp now g g' k token : db_ok (store g) ->
  mint_signed d spec exp now g = Some (g', Ok (k, token)) ->
  exists sg b, signer g = Some sg /\ d = Some b /\
    k = new_key (VK_ID_PREFIX +:+ hex_encode b) ("binding:" +:+ VK_ID_PREFIX +:+ hex_encode b) spec now /\
    token = mint sg (VirtualKey.id k) exp /\ committed (KeyTables.put_key k) g g'.
Proof.
  intros Hg (g1 & sg & E1 & (g2 & b & E2 & E3)%bind_Ok)%bind_Ok.
  unfold need_signer in E1. destruct (signer g) as [sg'|] eqn:Esg; [|done]. injection E1 as <- <-.
  pose proof (inert_entropy _ _ _ _ Hg E2) as (Hg2 & _ & _ & _ & _ & ->).
  apply (write_refresh _ _ _ _ _ _ (put_key_effect _)) in E3 as [[= -> ->] Hc]; [|done].
  exists sg', b. split_and!; try done.
  eapply committed_after; [apply inert_entropy|done..].
Qed.

Lemma rotate_key_effect i d g g' o : db_ok (store g) ->
  rotate_key i d g = Some (g', Ok o) ->
  match o with
  | None => KeyTables.keys (gtables g) !! i = None /\ gtables g' = gtables g /\ same_caches g g'
  | Some (k', secret) => exists k b, KeyTables.keys (gtables g) !! i = Some k /\ d = Some b /\
      secret = SK_SECRET_PREFIX +:+ hex_encode b /\
      k' = VirtualKey.mk (VirtualKey.id k) (sha256_hex secret) (VirtualKey.name k)
             (VirtualKey.allowed_pools k) (VirtualKey.enabled k) (VirtualKey.created_at k)
             (VirtualKey.group k) (VirtualKey.labels k) /\
      committed (KeyTables.put_key k') g g'
  end.
Proof.
  intros Hg (g1 & ok & E1 & E2)%bind_Ok.
  pose proof (inert_get_key _ _ _ _ Hg E1) as (Hg1 & Ht1 & Hc1 & _ & _ & ->).
  destruct (KeyTables.keys (gtables g) !! i) as [k|] eqn:Ek; [|by injection E2 as <- <-].
  apply bind_Ok in E2 as (g2 & s & E2 & E3).
  pose proof (inert_generate_secret _ _ _ _ Hg1 E2) as (Hg2 & _ & _ & _ & _ & b & -> & ->).
  apply (write_refresh _ _ _ _ _ _ (put_key_effect _)) in E3 as [-> Hc]; [|done].
  exists k, b. split_and!; try done.
  eapply committed_after; [apply inert_get_key|done..|].
  eapply committed_after; [apply inert_generate_secret|done..].
Qed.

Lemma update_key_effect i en gr g g' o : db_ok (store g) ->
  update_key i en gr g = Some (g', Ok o) ->
  match o with
  | None => KeyTables.keys (gtables g) !! i = None /\ gtables g' = gtables g /\ same_caches g g'
  | Some k' => exists k, KeyTables.keys (gtables g) !! i = Some k /\
      k' = VirtualKey.mk (VirtualKey.id k) (VirtualKey.key_hash k) (VirtualKey.name k)
             (VirtualKey.allowed_pools k) (default (VirtualKey.enabled k) en)
             (VirtualKey.created_at k) (default (VirtualKey.group k) gr) (VirtualKey.labels k) /\
      committed (KeyTables.put_key k') g g'
  end.
Proof.
  intros Hg (g1 & ok & E1 & E2)%bind_Ok.
  pose proof (inert_get_key _ _ _ _ Hg E1) as (Hg1 & Ht1 & Hc1 & _ & _ & ->).
  destruct (KeyTables.keys (gtables g) !! i) as [k|] eqn:Ek; [|by injection E2 as <- <-].
  apply (write_refresh _ _ _ _ _ _ (put_key_effect _)) in E2 as [-> Hc]; [|done].
  exists k. split_and!; try done. eapply committed_after; [apply inert_get_key|done..].
Qed.

Lemma remove_key_effect i g g' u : db_ok (store g) ->
  remove_key i g = Some (g', Ok u) -> committed (KeyTables.delete_key i) g g'.
Proof.
  intros Hg (g1 & [] & E & Er)%bind_Ok. apply on_store_inv in E as (s & E & ->).
  destruct (delete_key_law _ _ _ _ E Hg) as (Hs & _ & Ht).
  destruct (refresh_inv (set_store s g) _ _ Hs Er) as (? & Ht2 & ? & ? & ? & Hm).
  unfold committed. rewrite Ht2. unfold gtables. cbn. rewrite Ht by done. by split_and!.
Qed.
End Effects.

(** ** Indices built by inserting in sequence *)
Section Index.
Context {A V : Type} (kf : A -> string) (vf : A -> V).
Implicit Types (m : gmap string V) (l : list A).

Definition index_from m l : gmap string V := foldl (fun m a => <[kf a := vf a]> m) m l.

Lemma index_from_Some l m i v : index_from m l !! i = Some v ->
  (exists a, a ∈ l /\ kf a = i /\ vf a = v) \/ (m !! i = Some v /\ forall a, a ∈ l -> kf a <> i).
Proof.
  revert m. induction l as [|a l IH]; intros m E; cbn in E.
  - right. split; [done|]. intros a Ha. by apply elem_of_nil in Ha.
  - destruct (IH _ E) as [(b & Hb & ? & ?)|[Hi Hn]].
    + left. exists b. rewrite elem_of_cons. auto.
    + apply lookup_insert_Some in Hi as [[<- <-]|[Hne Hi]].
      * left. exists a. rewrite elem_of_cons. auto.
      * right. split; [done|]. intros b [->|Hb]%elem_of_cons; auto.
Qed.

Lemma index_from_is_Some l m i :
  is_Some (m !! i) \/ (exists a, a ∈ l /\ kf a = i) -> is_Some (index_from m l !! i).
Proof.
  revert m. induction l as [|a l IH]; intros m Hm; cbn.
  - destruct Hm as [?|(a & Ha & _)]; [done|]. by apply elem_of_nil in Ha.
  - apply IH. destruct (decide (kf a = i)) as [<-|Hne]; [rewrite lookup_insert_eq; eauto|].
    rewrite lookup_insert_ne by done. destruct Hm as [?|(b & [->|Hb]%elem_of_cons & ?)]; eauto. done.
Qed.

Lemma index_from_unique l a : a ∈ l -> (forall b, b ∈ l -> kf b = kf a -> vf b = vf a) ->
  index_from ∅ l !! kf a = Some (vf a).
Proof.
  intros Ha Hu. destruct (index_from_is_Some l ∅ (kf a)) as [v Hv]; [eauto|]. rewrite Hv.
  destruct (index_from_Some _ _ _ _ Hv) as [(b & Hb & Hk & <-)|[_ Hn]].
  - f_equal. auto.
  - by destruct (Hn a Ha).
Qed.
End Index.

Lemma elem_of_values {A} (m : gmap string A) a : a ∈ (map_to_list m).*2 <-> exists i, m !! i = Some a.
Proof.
  rewrite list_elem_of_fmap. split.
  - intros ([i b] & -> & Hb). apply elem_of_map_to_list in Hb. eauto.
  - intros [i Hi]. exists (i, a). by rewrite elem_of_map_to_list.
Qed.

Lemma join_credentials_index h l :
  join_credentials h l = index_from (fun ck : AwsCredential.t * VirtualKey.t => AwsCredential.access_key_id ck.1)
    (fun ck => AwsKeyEntry.mk ck.2 (AwsCredential.secret_access_key ck.1)) ∅
    (omap (fun c => pair c <$> load_by_id h !! AwsCredential.key_id c) l).
Proof.
  unfold join_credentials, index_from. generalize (∅ : gmap string AwsKeyEntry.t) as m.
  generalize (load_by_id h) as ids. intros ids.
  induction l as [|c l IH]; intros m; cbn; [done|].
  destruct (ids !! AwsCredential.key_id c); cbn; apply IH.
Qed.

(** ** What a snapshot answers *)
Section Snapshot.
Context {S : Type} `{KeyStore S} `{TokenCrypto} `{Digest}.
Notation GovKeys := (@GovKeys S _).
Implicit Types g : GovKeys.

Section Mirrored.
Context (g : GovKeys) (Hdb : db_ok (store g)) (Hm : mirrored g).

Lemma keys_keyed i k : KeyTables.keys (gtables g) !! i = Some k -> VirtualKey.id k = i.
Proof. apply (db_keyed _ Hdb). Qed.
Lemma creds_keyed i c : KeyTables.creds (gtables g) !! i = Some c -> AwsCredential.access_key_id c = i.
Proof. apply (db_keyed _ Hdb). Qed.

Lemma by_hash_sound h k : by_hash g !! h = Some k ->
  KeyTables.keys (gtables g) !! VirtualKey.id k = Some k /\ VirtualKey.key_hash k = h.
Proof.
  destruct Hm as (l & lc & Hl & _ & -> & _). intros E.
  apply (index_from_Some VirtualKey.key_hash id) in E as [(a & Ha & <- & <-)|[[=] _]].
  rewrite Hl in Ha. apply elem_of_values in Ha as [i Hi]. unfold id. by rewrite (keys_keyed i a Hi).
Qed.

Lemma lookup_by_sub_sound sub k :
  lookup_by_sub g sub = Some k -> KeyTables.keys (gtables g) !! sub = Some k.
Proof.
  unfold lookup_by_sub. intros [Hin He]%List.find_some. apply String.eqb_eq in He. subst.
  apply list_elem_of_In, elem_of_values in Hin as [h Hh]. by apply by_hash_sound in Hh as [? _].
Qed.

Lemma load_by_id_sound i k :
  load_by_id (by_hash g) !! i = Some k -> KeyTables.keys (gtables g) !! i = Some k.
Proof.
  intros E. apply (index_from_Some (fun hk : string * VirtualKey.t => VirtualKey.id hk.2) snd) in E
    as [([h k'] & Ha & <- & <-)|[[=] _]].
  apply elem_of_map_to_list, by_hash_sound in Ha as [? _]. done.
Qed.

Lemma akid_sound a e : lookup_akid g a = Some e -> exists c,
  KeyTables.creds (gtables g) !! a = Some c /\
  KeyTables.keys (gtables g) !! AwsCredential.key_id c = Some (AwsKeyEntry.key e) /\
  AwsKeyEntry.secret_access_key e = AwsCredential.secret_access_key c.
Proof.
  unfold lookup_akid. destruct Hm as (l & lc & _ & Hlc & _ & ->).
  rewrite join_credentials_index. intros [([c k] & Hin & <- & <-)|[[=] _]]%index_from_Some.
  apply list_elem_of_omap in Hin as (c' & Hc' & E). apply fmap_Some in E as (k' & Hk & [= -> ->]).
  apply load_by_id_sound in Hk. rewrite Hlc in Hc'. apply elem_of_values in Hc' as [i Hi].
  exists c'. cbn. by rewrite (creds_keyed _ _ Hi).
Qed.

Context (Hu : unique_hashes (gtables g)).

Lemma by_hash_complete i k :
  KeyTables.keys (gtables g) !! i = Some k -> by_hash g !! VirtualKey.key_hash k = Some k.
Proof.
  destruct Hm as (l & lc & Hl & _ & -> & _). intros Hi.
  apply (index_from_unique VirtualKey.key_hash id).
  - rewrite Hl, elem_of_values. eauto.
  - intros b. rewrite Hl, elem_of_values. intros [j Hj] He. cbn.
    pose proof (Hu _ _ _ _ Hj Hi He). subst. congruence.
Qed.

Lemma lookup_by_sub_exact sub : lookup_by_sub g sub = KeyTables.keys (gtables g) !! sub.
Proof.
  destruct (KeyTables.keys (gtables g) !! sub) as [k|] eqn:Ek.
  - destruct (lookup_by_sub g sub) as [k'|] eqn:E; [by apply lookup_by_sub_sound in E; congruence|].
    unfold lookup_by_sub in E. eapply List.find_none in E.
    + rewrite (keys_keyed _ _ Ek), String.eqb_refl in E. done.
    + apply list_elem_of_In, elem_of_values. eauto using by_hash_complete.
  - destruct (lookup_by_sub g sub) eqn:E; [|done]. apply lookup_by_sub_sound in E. congruence.
Qed.

Lemma load_by_id_exact i : load_by_id (by_hash g) !! i = KeyTables.keys (gtables g) !! i.
Proof.
  destruct (KeyTables.keys (gtables g) !! i) as [k|] eqn:Ek.
  - pose proof (by_hash_complete _ _ Ek) as Hh.
    rewrite <- (keys_keyed _ _ Ek).
    apply (index_from_unique (fun hk : string * VirtualKey.t => VirtualKey.id hk.2) snd
      (map_to_list (by_hash g)) (VirtualKey.key_hash k, k)); [by apply elem_of_map_to_list|].
    intros [h k'] Hin. cbn. intros He. apply elem_of_map_to_list, by_hash_sound in Hin as [Hk' _].
    rewrite He, (keys_keyed _ _ Ek) in Hk'. congruence.
  - destruct (load_by_id (by_hash g) !! i) eqn:E; [|done]. apply load_by_id_sound in E. congruence.
Qed.

Lemma akid_exact a : lookup_akid g a =
  c ← KeyTables.creds (gtables g) !! a;
  k ← KeyTables.keys (gtables g) !! AwsCredential.key_id c;
  Some (AwsKeyEntry.mk k (AwsCredential.secret_access_key c)).
Proof.
  destruct (lookup_akid g a) as [e|] eqn:E.
  - apply akid_sound in E as (c & -> & Hk & Hs). cbn. rewrite Hk. cbn. destruct e. cbn in *. by subst.
  - destruct (KeyTables.creds (gtables g) !! a) as [c|] eqn:Ec; cbn; [|done].
    destruct (KeyTables.keys (gtables g) !! AwsCredential.key_id c) as [k|] eqn:Ek; cbn; [|done].
    exfalso. unfold lookup_akid in E. pose proof load_by_id_exact as Hid.
    destruct Hm as (l & lc & _ & Hlc & _ & Ha). rewrite Ha, join_credentials_index in E.
    apply eq_None_not_Some in E. apply E, index_from_is_Some. right. exists (c, k). split; [|by apply creds_keyed].
    apply list_elem_of_omap. exists c. rewrite Hlc, elem_of_values, Hid, Ek. eauto.
Qed.
End Mirrored.
End Snapshot.
