(* ===== verification/KeysProps.v ===== *)
(** * Properties of the virtual-key lifecycle

    Every operation is total and keeps the caches a snapshot of the store or leaves them alone;
    revocation outlives every later operation and restart; deletion and rotation end the credentials
    they should and no others; a minted token verifies until it expires, and an accepted token was
    minted; minting never overwrites another key. *)
From stdpp Require Import base gmap list strings.
From Stdlib Require Import ZArith Lia Ascii.
From S2P Require Import Prelude Windows Cost Ledger Signing Keys KeysFacts.
Open Scope Z_scope.
Open Scope rust_scope.

(** ** The operations of the management plane, and lives of a gateway *)
Inductive gop :=
  | GCreate (d : option (list Z)) (spec : NewKeySpec.t) (now : Z)
  | GCreateAws (d d1 d2 : option (list Z)) (spec : NewKeySpec.t) (now : Z)
  | GMint (d : option (list Z)) (spec : NewKeySpec.t) (exp now : Z)
  | GMintAws (d d1 d2 : option (list Z)) (spec : NewKeySpec.t) (exp now : Z)
  | GRotate (i : string) (d : option (list Z))
  | GUpdate (i : string) (en : option bool) (gr : option (option string))
  | GDelete (i : string)
  | GRevoke (sub why : string)
  | GList.

Section Life.
Context {S : Type} `{KeyStore S} `{TokenCrypto} `{Digest}.
Notation GovKeys := (@GovKeys S _).
Notation M := (@M S _).
Implicit Types g : GovKeys.

Definition void {A} (m : M A) : M unit := do* _ := m in ret tt.

Definition run (o : gop) : M unit :=
  match o with
  | GCreate d spec now => void (create_key d spec now)
  | GCreateAws d d1 d2 spec now => void (create_key_with_aws d d1 d2 spec now)
  | GMint d spec exp now => void (mint_signed d spec exp now)
  | GMintAws d d1 d2 spec exp now => void (mint_signed_with_aws d d1 d2 spec exp now)
  | GRotate i d => void (rotate_key i d)
  | GUpdate i en gr => void (update_key i en gr)
  | GDelete i => remove_key i
  | GRevoke sub why => revoke sub why
  | GList => void all_keys
  end.

(** A boot succeeds, or fails on a store error and is retried. *)
Inductive boots : S -> option string -> option TokenSigner -> GovKeys -> Prop :=
  | boot_ok s ad sg g : new_with_signer s ad sg = Some (g, Ok tt) -> boots s ad sg g
  | boot_retry s ad sg g0 e g : new_with_signer s ad sg = Some (g0, Err e) ->
      boots (store g0) ad sg g -> boots s ad sg g.

(** Any sequence of operations, successful or not, and restarts on the same store. *)
Inductive life : GovKeys -> GovKeys -> Prop :=
  | life_refl g : life g g
  | life_op g o g1 r g2 : run o g = Some (g1, r) -> life g1 g2 -> life g g2
  | life_restart g ad sg g1 g2 : boots (store g) ad sg g1 -> life g1 g2 -> life g g2.

(** *** Every operation is safe and atomic *)
Lemma safe_void {A} (m : M A) : safe m -> safe (void m).
Proof. intros. apply safe_bind; auto with gov. Qed.
Lemma atomic_void {A} (m : M A) : atomic m -> atomic (void m).
Proof. intros. apply atomic_then_sure; auto with gov. Qed.

Lemma safe_create d spec now : safe (create_key d spec now : M _).
Proof. unfold create_key. auto 12 with gov. Qed.
Lemma safe_create_aws d d1 d2 spec now : safe (create_key_with_aws d d1 d2 spec now : M _).
Proof. unfold create_key_with_aws. auto 12 with gov. Qed.
Lemma safe_mint d spec exp now : safe (mint_signed d spec exp now : M _).
Proof. unfold mint_signed. auto 12 with gov. Qed.
Lemma safe_mint_aws d d1 d2 spec exp now : safe (mint_signed_with_aws d d1 d2 spec exp now : M _).
Proof. unfold mint_signed_with_aws. auto 12 with gov. Qed.
Lemma safe_rotate i d : safe (rotate_key i d : M _).
Proof. apply safe_bind; [auto with gov|]. intros [k|]; auto 10 with gov. Qed.
Lemma safe_update i en gr : safe (update_key i en gr : M _).
Proof. apply safe_bind; [auto with gov|]. intros [k|]; auto 10 with gov. Qed.
Lemma safe_revoke sub why : safe (revoke sub why : M _).
Proof.
  apply safe_bind; [auto with gov|]. intros _ g Hg. eexists _, _. split; [done|].
  unfold evolves. split_and!; [done|done| |done..]. cbn. set_solver.
Qed.

Lemma run_safe o : safe (run o).
Proof.
  destruct o; cbn [run]; [apply safe_void..| | |apply safe_void; unfold all_keys];
    auto using safe_create, safe_create_aws, safe_mint, safe_mint_aws, safe_rotate, safe_update,
      safe_revoke with gov.
  unfold remove_key. auto with gov.
Qed.

Lemma atomic_write {A} (w : S -> S * StoreResult unit) (a : A) :
  atomic (do* _ := on_store w in do* _ := refresh in ret a : M A).
Proof.
  apply atomic_bind; [auto with gov|]. intros _. apply atomic_then_sure; auto with gov.
Qed.

Ltac atomic_prefix := apply atomic_bind; [auto with gov|intros].

Lemma run_atomic o : atomic (run o).
Proof.
  destruct o; cbn [run]; [apply atomic_void..| | |apply atomic_void, still_atomic, still_on_store].
  - do 3 atomic_prefix. apply atomic_write.
  - do 4 atomic_prefix. apply atomic_write.
  - do 2 atomic_prefix. apply atomic_write.
  - do 3 atomic_prefix. apply atomic_write.
  - atomic_prefix. destruct a; [atomic_prefix; apply atomic_write|apply still_atomic; auto with gov].
  - atomic_prefix. destruct a; [apply atomic_write|apply still_atomic; auto with gov].
  - apply atomic_bind; auto with gov.
  - apply atomic_bind; [auto with gov|]. by intros _ g g' e [=].
Qed.

(** *** A successful operation keeps the caches a snapshot *)
Lemma mirrored_ext g g' :
  gtables g' = gtables g -> by_hash g' = by_hash g -> by_access_key_id g' = by_access_key_id g ->
  mirrored g -> mirrored g'.
Proof. intros Ht Hh Ha (l & lc & ?). exists l, lc. by rewrite Ht, Hh, Ha. Qed.

Definition syncs {A} (m : M A) : Prop := forall g g' a,
  db_ok (store g) -> mirrored g -> m g = Some (g', Ok a) -> mirrored g'.

Lemma mirrors_syncs {A} (m : M A) : mirrors m -> syncs m.
Proof. intros Hm g g' a Hg _ E. exact (Hm _ _ _ Hg E). Qed.

Lemma syncs_void {A} (m : M A) : syncs m -> syncs (void m).
Proof. intros Hm g g' a Hg Hs (g1 & b & E & E')%bind_Ok. injection E' as <- <-. eauto. Qed.

Lemma mirrors_write {A} (w : S -> S * StoreResult unit) (a : A) :
  safe (on_store w : M _) -> mirrors (do* _ := on_store w in do* _ := refresh in ret a : M A).
Proof. intros Hw. apply mirrors_bind; [done|]. intros _. apply mirrors_refresh. Qed.

Ltac mirrors_prefix := apply mirrors_bind; [auto with gov|intros].

Lemma run_syncs o : syncs (run o).
Proof.
  destruct o; cbn [run]; [apply syncs_void..| | |apply syncs_void].
  1-4: apply mirrors_syncs; repeat (first [apply mirrors_write; auto with gov|mirrors_prefix]).
  - intros g g' o Hg Hm E. apply rotate_key_effect in E; [|done]. destruct o as [[k s]|].
    + by destruct E as (? & ? & _ & _ & _ & _ & _ & _ & ? & _).
    + destruct E as (_ & Ht & Hh & Ha & _). by apply (mirrored_ext g).
  - intros g g' o Hg Hm E. apply update_key_effect in E; [|done]. destruct o as [k|].
    + by destruct E as (? & _ & _ & _ & _ & ? & _).
    + destruct E as (_ & Ht & Hh & Ha & _). by apply (mirrored_ext g).
  - intros g g' o Hg Hm E. by apply remove_key_effect in E as (_ & _ & ? & _).
  - intros g g' o Hg Hm (g1 & [] & E & E')%bind_Ok. injection E' as <- <-.
    apply on_store_inv in E as (s & E & ->). destruct (add_denylist_law _ _ _ _ _ E Hg) as (_ & _ & Ht).
    destruct Hm as (l & lc & ?). exists l, lc. unfold gtables in *. cbn. by rewrite (Ht eq_refl).
  - intros g g' o Hg Hm (s & E & ->)%on_store_inv.
    destruct (list_keys_law _ _ _ E Hg) as (_ & Ht & _). by apply (mirrored_ext g).
Qed.

(** *** Boot *)
Lemma boot_inv s ad sg g r : db_ok s -> new_with_signer s ad sg = Some (g, r) ->
  db_ok (store g) /\ gtables g = tables s /\
  match r with
  | Ok _ => mirrored g /\ denylist g = KeyTables.denied (tables s) /\ signer g = sg /\
            verifier g = (fun k => single (signer_kid k) (signer_verifying_key k)) <$> sg
  | Err _ => True
  end.
Proof.
  intros Hs. unfold new_with_signer, load, load_by_access_key_id.
  intros [(e & [(e' & E & [= <-])|(g1 & l & E & [=])]%bind_inv & ->)|(g2 & h & Eh & E)]%bind_inv.
  { apply on_store_inv in E as (s1 & Es & ->).
    by destruct (list_keys_law _ _ _ Es Hs) as (? & ? & _). }
  apply bind_inv in Eh as [(e & _ & [=])|(g1 & l & E1 & [= <- <-])].
  apply on_store_inv in E1 as (s1 & Es & ->). destruct (list_keys_law _ _ _ Es Hs) as (Hs1 & Ht1 & Hl).
  apply bind_inv in E as [(e & [(e' & E & [= <-])|(g1 & lc & E & [=])]%bind_inv & ->)|(g2 & a & Ea & E)].
  { apply on_store_inv in E as (s2 & Es2 & ->). cbn in Es2.
    destruct (list_creds_law _ _ _ Es2 Hs1) as (? & Ht2 & _). unfold gtables. cbn. by rewrite Ht2. }
  apply bind_inv in Ea as [(e & _ & [=])|(g1 & lc & E2 & [= <- <-])].
  apply on_store_inv in E2 as (s2 & Es2 & ->). cbn in Es2.
  destruct (list_creds_law _ _ _ Es2 Hs1) as (Hs2 & Ht2 & Hlc).
  apply bind_inv in E as [(e & E & ->)|(g1 & d & E3 & [= <- <-])].
  { apply on_store_inv in E as (s3 & Es3 & ->). cbn in Es3.
    destruct (list_denylist_law _ _ _ Es3 Hs2) as (? & Ht3 & _).
    unfold gtables. cbn. by rewrite Ht3, Ht2. }
  apply on_store_inv in E3 as (s3 & Es3 & ->). cbn in Es3.
  destruct (list_denylist_law _ _ _ Es3 Hs2) as (? & Ht3 & Hd). unfold gtables. cbn.
  split_and!; [done|by rewrite Ht3, Ht2| |by rewrite (Hd _ eq_refl), list_to_set_elements_L, Ht2, Ht1|done..].
  exists l, lc. unfold gtables. cbn. rewrite Ht3, Ht2, Ht1.
  split_and!; [by apply Hl|rewrite <- Ht1; by apply Hlc|done..].
Qed.

(** Whether [sub] is denied for good: in the store and in memory. *)
Definition banned (sub : string) g : Prop :=
  db_ok (store g) /\ sub ∈ KeyTables.denied (gtables g) /\ sub ∈ denylist g.

Lemma boots_banned s ad sg g sub :
  boots s ad sg g -> db_ok s -> sub ∈ KeyTables.denied (tables s) -> banned sub g.
Proof.
  induction 1 as [s ad sg g E|s ad sg g0 e g E _ IH]; intros Hs Hd.
  - apply boot_inv in E as (? & Ht & _ & Hl & _); [|done]. unfold banned. by rewrite Ht, Hl.
  - apply boot_inv in E as (? & Ht & _); [|done]. apply IH; [done|]. unfold gtables in Ht. by rewrite Ht.
Qed.

Lemma life_banned g g' sub : life g g' -> banned sub g -> banned sub g'.
Proof.
  induction 1 as [g|g o g1 r g2 E _ IH|g ad sg g1 g2 Eb _ IH]; intros (Hg & Hd & Hm); [done|..].
  - apply IH. destruct (run_safe o g Hg) as (g1' & r' & E' & He). rewrite E in E'. injection E' as <- <-.
    destruct He as (? & ? & ? & _). unfold banned. split_and!; [done|set_solver..].
  - apply IH. by eapply boots_banned.
Qed.

(** C20.  The revocation of signed tokens is permanent: once [revoke] has reported success for a subject, no
    operation of the management plane (re-minting, updating, rotating, deleting, restarts with any
    signing key and any store failures included) ever makes [verify_token] accept a signed token, old
    or new, as that subject again.  It is about signed tokens: the bearer secret and the AWS
    credential of a key are looked up without the denylist and outlive its revocation
    ([revoked_secret_still_resolves]). *)
Theorem revocation_is_permanent g g1 g2 sub why token now k :
  db_ok (store g) -> revoke sub why g = Some (g1, Ok tt) -> life g1 g2 ->
  verify_token g2 token now = Some k -> VirtualKey.id k <> sub.
Proof.
  intros Hg E Hl Hv. assert (banned sub g2) as (_ & _ & Hban).
  { apply (life_banned g1); [done|]. apply bind_Ok in E as (g0 & [] & E & E'). injection E' as <-.
    apply on_store_inv in E as (s & E & ->). destruct (add_denylist_law _ _ _ _ _ E Hg) as (? & _ & Ht).
    unfold banned, gtables. cbn. rewrite Ht by done. cbn. split_and!; [done|set_solver..]. }
  unfold verify_token in Hv. destruct (verifier g2) as [v|]; [|done].
  destruct (verify v token now) as [c|]; [|done]. case_bool_decide as Hc; [done|].
  destruct (lookup_by_sub g2 _) as [k'|] eqn:Ek; [|done]. destruct (VirtualKey.enabled k'); [|done].
  injection Hv as <-. unfold lookup_by_sub in Ek. apply List.find_some in Ek as [_ He].
  apply String.eqb_eq in He. congruence.
Qed.

(** C35.  The caches refine the store: starting from a snapshot, every operation returns (never
    panics); when it succeeds, the caches answer exactly what the tables of the store say, for
    presented secrets, for token subjects and for AWS access keys; when it fails, they answer as
    before. *)
Theorem caches_refine_store o g : db_ok (store g) -> mirrored g ->
  exists g' r, run o g = Some (g', r) /\
    match r with
    | Err _ => same_caches g g'
    | Ok _ => mirrored g' /\ (unique_hashes (gtables g') ->
        (forall secret k, lookup g' secret = Some k <->
           KeyTables.keys (gtables g') !! VirtualKey.id k = Some k /\
           VirtualKey.key_hash k = sha256_hex secret) /\
        (forall sub, lookup_by_sub g' sub = KeyTables.keys (gtables g') !! sub) /\
        (forall a, lookup_akid g' a =
           c ← KeyTables.creds (gtables g') !! a;
           k ← KeyTables.keys (gtables g') !! AwsCredential.key_id c;
           Some (AwsKeyEntry.mk k (AwsCredential.secret_access_key c))))
    end.
Proof.
  intros Hg Hm. destruct (run_safe o g Hg) as (g' & r & E & He). exists g', r. split; [done|].
  destruct r as [u|e]; [|exact (run_atomic o _ _ _ E)].
  pose proof (run_syncs o _ _ _ Hg Hm E) as Hm'. destruct He as [Hg' _].
  split; [done|]. intros Hu. split_and!.
  - intros secret k. unfold lookup. split; [by apply by_hash_sound|]. intros [Hk <-].
    by apply (by_hash_complete g' Hm' Hu _ k Hk).
  - by apply lookup_by_sub_exact.
  - by apply akid_exact.
Qed.
End Life.

Lemma unique_put k t : unique_hashes t ->
  (forall j k', KeyTables.keys t !! j = Some k' -> VirtualKey.key_hash k' = VirtualKey.key_hash k ->
     j = VirtualKey.id k) ->
  unique_hashes (KeyTables.put_key k t).
Proof.
  intros Hu Hf i j a b. cbn. rewrite !lookup_insert_Some.
  intros [[<- <-]|[? Ha]] [[<- <-]|[? Hb]] He; [done|symmetry; by eapply Hf|by eapply Hf|by eapply Hu].
Qed.

Section Lifecycle.
Context {S : Type} `{KeyStore S} `{TokenCrypto} `{Digest}.
Notation GovKeys := (@GovKeys S _).
Implicit Types g : GovKeys.

Lemma verify_token_inv g token now k : verify_token g token now = Some k ->
  exists v c, verifier g = Some v /\ verify v token now = Verified c /\
    TokenClaims.sub c ∉ denylist g /\ lookup_by_sub g (TokenClaims.sub c) = Some k /\
    VirtualKey.enabled k = true.
Proof.
  unfold verify_token. intros Hv. destruct (verifier g) as [v|]; [|done].
  destruct (verify v token now) as [c|] eqn:Ec; [|done]. case_bool_decide as Hc; [done|].
  destruct (lookup_by_sub g _) as [k'|] eqn:Ek; [|done].
  destruct (VirtualKey.enabled k') eqn:Een; [|done]. injection Hv as <-. eauto 10.
Qed.

Lemma lookup_by_sub_id g sub k : lookup_by_sub g sub = Some k -> VirtualKey.id k = sub.
Proof. intros [_ He]%List.find_some. by apply String.eqb_eq. Qed.

(** Deleting a key ends all its credentials at once: no bearer secret, no signed token and no
    AWS access key resolves to it any more, and no row of another key is touched. *)
Theorem deleted_key_is_dead i g g' : db_ok (store g) -> remove_key i g = Some (g', Ok tt) ->
  (forall secret k, lookup g' secret = Some k -> VirtualKey.id k <> i) /\
  (forall token now k, verify_token g' token now = Some k -> VirtualKey.id k <> i) /\
  (forall a e, lookup_akid g' a = Some e -> VirtualKey.id (AwsKeyEntry.key e) <> i) /\
  (forall j, j <> i -> KeyTables.keys (gtables g') !! j = KeyTables.keys (gtables g) !! j) /\
  (forall a c, AwsCredential.key_id c <> i ->
     KeyTables.creds (gtables g') !! a = Some c <-> KeyTables.creds (gtables g) !! a = Some c).
Proof.
  intros Hg E. apply remove_key_effect in E as (Hdb & Ht & Hm & _); [|done].
  assert (KeyTables.keys (gtables g') !! i = None) as Hi by (rewrite Ht; apply lookup_delete_eq).
  split_and!.
  - intros s k Hk. apply (by_hash_sound g' Hdb Hm) in Hk as [Hk _]. congruence.
  - intros token now k (v & c & _ & _ & _ & Hk & _)%verify_token_inv.
    pose proof (lookup_by_sub_id _ _ _ Hk) as He.
    apply (lookup_by_sub_sound g' Hdb Hm) in Hk. congruence.
  - intros a e (c & _ & Hk & _)%(akid_sound g' Hdb Hm).
    pose proof (keys_keyed g' Hdb _ _ Hk). congruence.
  - intros j Hj. rewrite Ht. cbn. by rewrite lookup_delete_ne.
  - intros a c Hc. rewrite Ht. cbn. rewrite map_lookup_filter_Some. naive_solver.
Qed.

(** What a snapshot resolves after one row was written, by what it resolved before. *)
Lemma lookup_put k' g g' : db_ok (store g) -> mirrored g -> unique_hashes (gtables g) ->
  committed (KeyTables.put_key k') g g' ->
  (forall j a, KeyTables.keys (gtables g) !! j = Some a ->
     VirtualKey.key_hash a = VirtualKey.key_hash k' -> j = VirtualKey.id k') ->
  unique_hashes (gtables g') /\
  forall s, lookup g' s =
    if decide (sha256_hex s = VirtualKey.key_hash k') then Some k'
    else match lookup g s with
         | Some a => if decide (VirtualKey.id a = VirtualKey.id k') then None else Some a
         | None => None
         end.
Proof.
  intros Hg Hm Hu (Hdb & Ht & Hm' & _) Hf.
  assert (Hu' : unique_hashes (gtables g')) by (rewrite Ht; by apply unique_put).
  split; [done|]. intros s. unfold lookup. case_decide as Hs.
  { rewrite Hs. apply (by_hash_complete g' Hm' Hu' (VirtualKey.id k')). rewrite Ht. apply lookup_insert_eq. }
  assert (Hback : forall a, by_hash g' !! sha256_hex s = Some a ->
    VirtualKey.id a <> VirtualKey.id k' /\ by_hash g !! sha256_hex s = Some a).
  { intros a (Ha & He)%(by_hash_sound g' Hdb Hm'). rewrite Ht in Ha.
    cbn in Ha. apply lookup_insert_Some in Ha as [[_ <-]|[Hne Ha]]; [congruence|].
    split; [done|]. rewrite <- He. exact (by_hash_complete g Hm Hu _ _ Ha). }
  destruct (by_hash g !! sha256_hex s) as [a|] eqn:Ea; [case_decide as Hid|].
  - destruct (by_hash g' !! sha256_hex s) as [b|] eqn:Eb; [|done].
    destruct (Hback b eq_refl) as [? [= ->]]. done.
  - apply (by_hash_sound g Hg Hm) in Ea as [Ha He]. rewrite <- He.
    apply (by_hash_complete g' Hm' Hu' (VirtualKey.id a)). rewrite Ht. cbn.
    by rewrite lookup_insert_ne.
  - destruct (by_hash g' !! sha256_hex s) as [b|] eqn:Eb; [|done]. by destruct (Hback b eq_refl).
Qed.

(** Rotation replaces exactly one secret: after a successful rotation the new secret resolves
    to the same key (id, grants, group and enabled flag untouched), the old secret resolves to
    nothing, and every other secret resolves as before. *)
Theorem rotation_replaces_one_secret d g g' old k k' new :
  db_ok (store g) -> mirrored g -> unique_hashes (gtables g) ->
  lookup g old = Some k -> rotate_key (VirtualKey.id k) d g = Some (g', Ok (Some (k', new))) ->
  lookup g new = None ->
  lookup g' new = Some k' /\ lookup g' old = None /\
  (forall s, sha256_hex s <> sha256_hex old -> sha256_hex s <> sha256_hex new ->
     lookup g' s = lookup g s) /\
  VirtualKey.id k' = VirtualKey.id k /\ VirtualKey.allowed_pools k' = VirtualKey.allowed_pools k /\
  VirtualKey.group k' = VirtualKey.group k /\ VirtualKey.enabled k' = VirtualKey.enabled k.
Proof.
  intros Hg Hm Hu Hold E Hfresh. apply rotate_key_effect in E; [|done].
  destruct E as (k0 & b & Hk0 & _ & _ & -> & Hc).
  pose proof (by_hash_sound g Hg Hm _ _ Hold) as [Hkk Hh]. rewrite Hk0 in Hkk. injection Hkk as ->.
  apply lookup_put in Hc as [_ Hl]; [|done..|].
  2: { cbn. intros j a Ha He. apply (by_hash_complete g Hm Hu) in Ha. unfold lookup in Hfresh.
       rewrite He in Ha. congruence. }
  cbn in Hl. split_and!; try done.
  - rewrite Hl. by rewrite decide_True.
  - rewrite Hl, decide_False, Hold, decide_True; [done..|]. intros He. unfold lookup in *. congruence.
  - intros s Hs Hn. rewrite Hl, decide_False by done.
    destruct (lookup g s) as [a|] eqn:Ea; [|done]. rewrite decide_False; [done|].
    intros Hid. apply (by_hash_sound g Hg Hm) in Ea as [Ha He]. rewrite Hid, Hk0 in Ha. congruence.
Qed.

(** Minting never overwrites another key: when [create_key] succeeds, the returned secret
    resolves to the new key, every row with another id is unchanged, a row that had the new id was
    the same secret's, and every secret of another key still resolves. *)
Theorem minting_never_clobbers d spec now g g' k secret :
  db_ok (store g) -> mirrored g -> unique_hashes (gtables g) ->
  create_key d spec now g = Some (g', Ok (k, secret)) ->
  (forall a, lookup g secret = Some a -> VirtualKey.id a = VirtualKey.id k) ->
  lookup g' secret = Some k /\
  (forall j, j <> VirtualKey.id k ->
     KeyTables.keys (gtables g') !! j = KeyTables.keys (gtables g) !! j) /\
  (forall k0, KeyTables.keys (gtables g) !! VirtualKey.id k = Some k0 ->
     VirtualKey.key_hash k0 = sha256_hex secret) /\
  (forall s a, lookup g s = Some a -> VirtualKey.id a <> VirtualKey.id k -> lookup g' s = Some a).
Proof.
  intros Hg Hm Hu E Hdup. apply create_key_effect in E; [|done].
  destruct E as (b & id & _ & _ & _ & -> & Hfree & Hc). pose proof Hc as (_ & Ht & _).
  apply lookup_put in Hc as [_ Hl]; [|done..|].
  2: { cbn. intros j a Ha He. pose proof (by_hash_complete g Hm Hu _ _ Ha) as Hb.
       rewrite He in Hb. rewrite <- (keys_keyed g Hg _ _ Ha). by apply Hdup. }
  split_and!.
  - rewrite Hl. by rewrite decide_True.
  - intros j Hj. rewrite Ht. cbn. by rewrite lookup_insert_ne.
  - done.
  - intros s a Ha Hne. rewrite Hl, Ha. rewrite (decide_False (P := VirtualKey.id a = _)) by done.
    rewrite decide_False; [done|]. cbn. intros He. apply Hne, Hdup. unfold lookup in *. congruence.
Qed.

(** The verifier is the one [new_with_signer] builds from the signer. *)
Definition own_verifier g : Prop :=
  verifier g = (fun k => single (signer_kid k) (signer_verifying_key k)) <$> signer g.

(** Mint and verify are inverse: the token [mint_signed] returns authenticates as the returned
    binding at every instant before its expiry and never after, while its subject is not revoked. *)
Theorem minted_token_roundtrip d spec exp now g g' k token t :
  db_ok (store g) -> own_verifier g ->
  mint_signed d spec exp now g = Some (g', Ok (k, token)) ->
  unique_hashes (gtables g') -> VirtualKey.id k ∉ denylist g ->
  verify_token g' token t = if exp <=? t then None else Some k.
Proof.
  intros Hg Hv E Hu Hd. apply mint_signed_effect in E; [|done].
  destruct E as (sg & b & Hs & _ & Ek & -> & Hdb & Ht & Hm & Hd' & Hs' & Hv').
  unfold verify_token. unfold own_verifier in Hv. rewrite Hs in Hv.
  rewrite Hv', Hv. cbn [fmap option_fmap option_map]. rewrite verify_mint_single.
  destruct (exp <=? t); [done|]. cbn [TokenClaims.sub].
  rewrite bool_decide_false by (by rewrite Hd').
  rewrite (lookup_by_sub_exact g' Hdb Hm Hu), Ht. cbn [KeyTables.keys KeyTables.put_key].
  rewrite lookup_insert_eq. by rewrite Ek.
Qed.

(** The pieces of a presented token. *)
Definition token_parts (token payload sg : string) : Prop := exists body p64 s64,
  strip_prefix TOKEN_PREFIX token = Some body /\ split_once "."%char body = Some (p64, s64) /\
  b64_decode p64 = Some payload /\ b64_decode s64 = Some sg.

Lemma token_parts_mint sg sub exp payload s :
  token_parts (mint sg sub exp) payload s -> payload = mint_payload sg sub exp.
Proof.
  intros (body & p64 & s64 & Hb & Hp & Hpl & _). rewrite mint_parts, strip_prefix_app in Hb.
  injection Hb as <-. rewrite split_once_app in Hp by apply b64_encode_no_dot.
  injection Hp as <- <-. rewrite b64_decode_encode in Hpl. by injection Hpl as <-.
Qed.

(** An accepted token was minted and is live: if the signature a token carries is no forgery
    (whatever verifies under the gateway's key was signed by one of its mints), then acceptance means
    that a mint issued it for that subject with an expiry still ahead, that the subject is not
    revoked, and that the store holds an enabled key under it, which is the one returned. *)
Theorem accepted_token_is_live g token now k sg (minted : list (string * Z)) :
  db_ok (store g) -> mirrored g -> own_verifier g -> signer g = Some sg ->
  (forall payload s, token_parts token payload s ->
     verify_sig (signer_verifying_key sg) payload s = true ->
     exists sub exp, (sub, exp) ∈ minted /\ payload = mint_payload sg sub exp) ->
  verify_token g token now = Some k ->
  exists exp, (VirtualKey.id k, exp) ∈ minted /\ now < exp /\ VirtualKey.id k ∉ denylist g /\
    KeyTables.keys (gtables g) !! VirtualKey.id k = Some k /\ VirtualKey.enabled k = true.
Proof.
  intros Hg Hm Hv Hs Hforge (v & c & Hvg & Hc & Hd & Hk & Hen)%verify_token_inv.
  unfold own_verifier in Hv. rewrite Hs, Hvg in Hv. injection Hv as ->.
  apply verify_Verified in Hc
    as (p64 & s64 & payload & s & key & -> & Hdot & Hp & Hs64 & _ & Hcl & Hkey & Hsig & Hexp).
  cbn in Hkey. apply lookup_insert_Some in Hkey as [[_ <-]|[_ [=]]].
  destruct (Hforge payload s) as (sub & exp & Hin & ->);
    [by exists (p64 +:+ String "."%char s64), p64, s64; rewrite strip_prefix_app, split_once_app|done|].
  unfold mint_payload in Hcl. rewrite claims_from_to in Hcl. injection Hcl as <-. cbn in *.
  rewrite (lookup_by_sub_id _ _ _ Hk). exists exp. split_and!; try done.
  by apply (lookup_by_sub_sound g Hg Hm).
Qed.
End Lifecycle.

(** ** Concrete crates, for examples

    A codec that writes each byte as eight digits, claims serialised through their countable
    encoding, signatures that are a padded copy of the message, and a digest that pads to 64
    characters.  They satisfy the laws; nothing depends on them. *)
Module Demo.
Definition bit (b : bool) : ascii := if b then "1"%char else "0"%char.
Definition unbit (a : ascii) : bool := Ascii.eqb a "1"%char.

Fixpoint enc (s : string) : string :=
  match s with
  | EmptyString => EmptyString
  | String (Ascii b0 b1 b2 b3 b4 b5 b6 b7) s' =>
      String (bit b0) (String (bit b1) (String (bit b2) (String (bit b3)
        (String (bit b4) (String (bit b5) (String (bit b6) (String (bit b7) (enc s'))))))))
  end.

Fixpoint dec (s : string) : option string :=
  match s with
  | EmptyString => Some EmptyString
  | String b0 (String b1 (String b2 (String b3 (String b4 (String b5 (String b6 (String b7 s'))))))) =>
      String (Ascii (unbit b0) (unbit b1) (unbit b2) (unbit b3) (unbit b4) (unbit b5) (unbit b6)
        (unbit b7)) <$> dec s'
  | _ => None
  end.

Lemma unbit_bit b : unbit (bit b) = b.
Proof. by destruct b. Qed.

Lemma dec_enc s : dec (enc s) = Some s.
Proof. induction s as [|[] s IH]; [done|]. cbn [enc dec]. by rewrite IH, !unbit_bit. Qed.

Lemma enc_no_dot s : contains_char "."%char (enc s) = false.
Proof.
  induction s as [|[b0 b1 b2 b3 b4 b5 b6 b7] s IH]; [done|]. cbn [enc contains_char]. rewrite IH.
  by destruct b0, b1, b2, b3, b4, b5, b6, b7.
Qed.

Fixpoint of_pos (p : positive) : string :=
  match p with
  | xH => EmptyString
  | xO p => String "0"%char (of_pos p)
  | xI p => String "1"%char (of_pos p)
  end.
Fixpoint to_pos (s : string) : positive :=
  match s with
  | EmptyString => xH
  | String a s => if unbit a then xI (to_pos s) else xO (to_pos s)
  end.
Lemma to_of_pos p : to_pos (of_pos p) = p.
Proof. induction p as [p IH|p IH|]; cbn; by rewrite ?IH. Qed.

Definition ser (c : TokenClaims.t) : string :=
  of_pos (encode (TokenClaims.sub c, TokenClaims.exp c, TokenClaims.kid c)).
Definition de (s : string) : option TokenClaims.t :=
  (fun p : string * Z * string => TokenClaims.mk p.1.1 p.1.2 p.2) <$> decode (to_pos s).
Lemma de_ser c : de (ser c) = Some c.
Proof. unfold de, ser. rewrite to_of_pos, decode_encode. by destruct c. Qed.

Definition pad (s : string) : string :=
  String.string_of_list_ascii (take 64 (String.list_ascii_of_string s ++ replicate 64 "0"%char)).
Lemma length_of_list l : String.length (String.string_of_list_ascii l) = length l.
Proof. induction l as [|a l IH]; cbn; by rewrite ?IH. Qed.
Lemma pad_length s : String.length (pad s) = 64%nat.
Proof.
  unfold pad. rewrite length_of_list, length_take, length_app, length_replicate. lia.
Qed.

#[export] Instance crypto : TokenCrypto.
Proof.
  refine {| SigningKey := string; VerifyingKey := string; from_bytes s := s;
    verifying_key_of s := s; sign k m := pad (k +:+ m);
    verify_sig k m s := String.eqb s (pad (k +:+ m));
    b64_encode := enc; b64_decode := dec; claims_to_vec := ser; claims_from_slice := de |}.
  - intros. apply pad_length.
  - intros. apply String.eqb_refl.
  - apply dec_enc.
  - apply enc_no_dot.
  - apply de_ser.
Defined.

#[export] Instance digest : Digest.
Proof.
  refine {| sha256_hex := pad;
    hex_encode := foldr (fun b s => String (ascii_of_N (Z.to_N b)) s) EmptyString |}.
  apply pad_length.
Defined.

Definition spec : NewKeySpec.t := NewKeySpec.mk "ci" (Some ["chat"]) (Some "eng") [].
Definition sg : TokenSigner := from_secret_bytes "seed" DEFAULT_KID.
Definition draw (c : Z) : option (list Z) := Some (replicate 16 c).

(** A gateway booted on an empty store, the operations applied to it in turn. *)
Definition boot : GovKeys :=
  mk_gov (FaultyDb.mk MemoryDb.new []) ∅ ∅ None (Some sg)
    (Some (single (signer_kid sg) (signer_verifying_key sg))) ∅.
Definition after (l : list gop) (g : GovKeys) : GovKeys :=
  foldl (fun g o => match run o g with Some (g', _) => g' | None => g end) g l.

Lemma boot_db_ok : db_ok (store boot).
Proof. split; intros ? ? [=]. Qed.
Lemma boot_mirrored : mirrored boot.
Proof. exists [], []. by split_and!. Qed.

(** A well-formed snapshot stays one along successful operations. *)
Lemma step_ok o g g' : run o g = Some (g', Ok tt) ->
  db_ok (store g) /\ mirrored g -> db_ok (store g') /\ mirrored g'.
Proof.
  intros E [Hg Hm]. destruct (run_safe o g Hg) as (g1 & r & E' & He & _).
  rewrite E in E'. injection E' as <- <-. split; [done|exact (run_syncs o _ _ _ Hg Hm E)].
Qed.

Definition g1 : GovKeys := after [GCreate (draw 65) spec 100] boot.
Definition g2 : GovKeys := after [GMint (draw 66) spec 900 200] g1.

Lemma g1_ok : db_ok (store g1) /\ mirrored g1.
Proof.
  apply (step_ok (GCreate (draw 65) spec 100) boot); [vm_compute; reflexivity|].
  split; [apply boot_db_ok|apply boot_mirrored].
Qed.
Lemma g2_ok : db_ok (store g2) /\ mirrored g2.
Proof. apply (step_ok (GMint (draw 66) spec 900 200) g1); [vm_compute; reflexivity|apply g1_ok]. Qed.

(** Distinct hashes of a finite table, by evaluation. *)
Lemma unique_by_eval (t : KeyTables.t) :
  forallb (fun p => forallb (fun q => orb (negb (String.eqb (VirtualKey.key_hash p.2)
      (VirtualKey.key_hash q.2))) (String.eqb p.1 q.1)) (map_to_list (KeyTables.keys t)))
    (map_to_list (KeyTables.keys t)) = true ->
  unique_hashes t.
Proof.
  intros E i j k k' Hi Hj He. rewrite forallb_forall in E.
  apply elem_of_map_to_list, list_elem_of_In, E in Hi. rewrite forallb_forall in Hi.
  apply elem_of_map_to_list, list_elem_of_In, Hi in Hj. cbn in Hj. rewrite He, String.eqb_refl in Hj.
  by apply String.eqb_eq.
Qed.
End Demo.

(** ** Examples *)
Import Demo.

(** Revoke the bearer-style key, restart; the minted token of the other key still authenticates. *)
Definition revoked : GovKeys := after [GRevoke "vk_gone" "leak"] g2.
Definition rebooted : GovKeys :=
  match new_with_signer (store revoked) None (Some sg) with Some (g, _) => g | None => revoked end.
Definition token2 : string := mint sg (VK_ID_PREFIX +:+ hex_encode (replicate 16 66)) 900.

Lemma revocation_is_permanent_witness : exists k,
  verify_token rebooted token2 500 = Some k /\ VirtualKey.id k <> "vk_gone".
Proof.
  assert (exists k, verify_token rebooted token2 500 = Some k) as [k Hk].
  { apply (proj1 (A := is_Some (verify_token rebooted token2 500)) (B := True)).
    split; [|done]. apply (bool_decide_unpack _). vm_compute. exact I. }
  exists k. split; [exact Hk|].
  apply (revocation_is_permanent g2 revoked rebooted "vk_gone" "leak" token2 500 k);
    [apply g2_ok|vm_compute; reflexivity| |exact Hk].
  apply (life_restart _ None (Some sg) rebooted); [|constructor].
  apply boot_ok. vm_compute. reflexivity.
Defined.

(** The bearer secret of a revoked key, and the new one a rotation gives it, still resolve to the key. *)
Example revoked_secret_still_resolves :
  let sub := "vk_sk-bb-AAAAAAAAAA" in
  let secret c := SK_SECRET_PREFIX +:+ hex_encode (replicate 16 c) in
  let g := after [GRevoke sub "leak"] g2 in
  is_revoked g sub = true /\ (VirtualKey.id <$> lookup g (secret 65)) = Some sub /\
  (VirtualKey.id <$> lookup (after [GRotate sub (draw 67)] g) (secret 67)) = Some sub.
Proof. vm_compute. auto. Qed.

Lemma caches_refine_store_witness : exists g' r,
  run (GDelete "vk_sk-bb-AAAAAAAAAA") g2 = Some (g', r) /\ mirrored g' /\
  lookup_by_sub g' "vk_sk-bb-AAAAAAAAAA" = None.
Proof.
  assert (run (GDelete "vk_sk-bb-AAAAAAAAAA") g2 =
    Some (after [GDelete "vk_sk-bb-AAAAAAAAAA"] g2, Ok tt)) as E by (vm_compute; reflexivity).
  destruct g2_ok as [Hd Hm].
  destruct (caches_refine_store (GDelete "vk_sk-bb-AAAAAAAAAA") g2 Hd Hm) as (g' & r & E' & Hr).
  rewrite E in E'. injection E' as <- <-. destruct Hr as [Hmir _].
  eexists _, _. split; [exact E|]. split; [exact Hmir|]. vm_compute. reflexivity.
Defined.

Lemma deleted_key_is_dead_witness :
  forall secret k, lookup (after [GDelete "vk_sk-bb-AAAAAAAAAA"] g2) secret = Some k ->
    VirtualKey.id k <> "vk_sk-bb-AAAAAAAAAA".
Proof.
  apply (deleted_key_is_dead "vk_sk-bb-AAAAAAAAAA" g2); [apply g2_ok|vm_compute; reflexivity].
Defined.

Definition secret1 : string := SK_SECRET_PREFIX +:+ hex_encode (replicate 16 65).
Definition secret3 : string := SK_SECRET_PREFIX +:+ hex_encode (replicate 16 67).
Definition key1 : VirtualKey.t := new_key "vk_sk-bb-AAAAAAAAAA" (sha256_hex secret1) spec 100.
Definition rotated : GovKeys := after [GRotate "vk_sk-bb-AAAAAAAAAA" (draw 67)] g2.

Lemma rotation_replaces_one_secret_witness :
  lookup g2 secret1 = Some key1 /\ lookup rotated secret1 = None /\
  is_Some (lookup rotated secret3).
Proof.
  split; [vm_compute; reflexivity|].
  destruct (rotation_replaces_one_secret (draw 67) g2 rotated secret1 key1
    (new_key "vk_sk-bb-AAAAAAAAAA" (sha256_hex secret3) spec 100) secret3) as (Hn & Ho & _);
    [apply g2_ok|apply g2_ok|apply unique_by_eval; vm_compute; reflexivity|vm_compute; reflexivity..|].
  split; [exact Ho|]. rewrite Hn. by eexists.
Defined.

Lemma minting_never_clobbers_witness :
  lookup (after [GCreate (draw 67) spec 300] g2) secret3 =
    Some (new_key "vk_sk-bb-CCCCCCCCCC" (sha256_hex secret3) spec 300).
Proof.
  destruct (minting_never_clobbers (draw 67) spec 300 g2 (after [GCreate (draw 67) spec 300] g2)
    (new_key "vk_sk-bb-CCCCCCCCCC" (sha256_hex secret3) spec 300) secret3) as [Hl _];
    [apply g2_ok|apply g2_ok|apply unique_by_eval; vm_compute; reflexivity|vm_compute; reflexivity| |].
  - intros a Ha. exfalso. revert Ha. vm_compute. discriminate.
  - exact Hl.
Defined.

Lemma minted_token_roundtrip_witness :
  verify_token g2 token2 899 = Some (new_key (VK_ID_PREFIX +:+ hex_encode (replicate 16 66))
    ("binding:" +:+ VK_ID_PREFIX +:+ hex_encode (replicate 16 66)) spec 200).
Proof.
  apply (minted_token_roundtrip (draw 66) spec 900 200 g1 g2
    (new_key (VK_ID_PREFIX +:+ hex_encode (replicate 16 66))
      ("binding:" +:+ VK_ID_PREFIX +:+ hex_encode (replicate 16 66)) spec 200) token2 899);
    [apply g1_ok|vm_compute; reflexivity|vm_compute; reflexivity
    |apply unique_by_eval; vm_compute; reflexivity|].
  apply (bool_decide_unpack _). vm_compute. exact I.
Defined.

Lemma accepted_token_is_live_witness : exists k exp,
  verify_token g2 token2 500 = Some k /\
  (VirtualKey.id k, exp) ∈ [(VK_ID_PREFIX +:+ hex_encode (replicate 16 66), 900)] /\ 500 < exp.
Proof.
  set (k := new_key (VK_ID_PREFIX +:+ hex_encode (replicate 16 66))
      ("binding:" +:+ VK_ID_PREFIX +:+ hex_encode (replicate 16 66)) spec 200).
  assert (verify_token g2 token2 500 = Some k) as Hv by (vm_compute; reflexivity).
  destruct (accepted_token_is_live g2 token2 500 k sg
    [(VK_ID_PREFIX +:+ hex_encode (replicate 16 66), 900)]) as (exp & Hin & Hlt & _);
    [apply g2_ok|apply g2_ok|vm_compute; reflexivity|vm_compute; reflexivity| |exact Hv|].
  - intros payload s Hp%token_parts_mint _. eexists _, _. split; [by apply list_elem_of_singleton|exact Hp].
  - exists k, exp. split; [exact Hv|]. split; [exact Hin|exact Hlt].
Defined.
