(* ===== verification/KeyMaterial.v ===== *)
(** * Generated credentials and synthesized principal keys

    The shape of the AWS-style credentials and that the secret access key keeps all its entropy (it
    is the base-64 expansion of the drawn bytes, three at a time), and the grants of a key synthesized
    from a principal's roles. *)
From stdpp Require Import base gmap list strings.
From Stdlib Require Import ZArith Lia Ascii Zbitwise.
From S2P Require Import Prelude Windows Cost CostFacts Signing Keys KeysFacts.
Open Scope Z_scope.
Open Scope rust_scope.

Definition is_byte (b : Z) : Prop := 0 <= b < 256.

(** ** The secret access key *)

(** The reference: three bytes are four six-bit digits. *)
Definition sextets (a b c : Z) : list Z :=
  [a / 4; (a mod 4) * 16 + b / 16; (b mod 16) * 4 + c / 64; c mod 64].

Definition symbols (alphabet : string) (l : list Z) : option string :=
  foldr (fun d r => let? c := symbol alphabet d in let? s := r in Some (String c s)) (Some EmptyString) l.

Fixpoint base64_ref (l : list (Z * Z * Z)) : option string :=
  match l with
  | [] => Some EmptyString
  | (a, b, c) :: l' =>
      let? s := symbols SECRET_ALPHABET (sextets a b c) in
      let? r := base64_ref l' in Some (s +:+ r)
  end.

Definition flat (l : list (Z * Z * Z)) : list Z := concat ((fun t => [t.1.1; t.1.2; t.2]) <$> l).

Lemma land_high_low q b : is_byte b -> Z.land (q * 2 ^ 8) b = 0.
Proof.
  intros Hb. rewrite <- Z.shiftl_mul_pow2 by lia. apply Z.bits_inj'. intros n Hn.
  rewrite Z.land_spec, Z.bits_0. destruct (Z.ltb_spec n 8).
  - by rewrite Z.shiftl_spec_low.
  - replace b with (b mod 2 ^ 8) by (apply Z.mod_small; unfold is_byte in Hb; lia).
    rewrite Z.mod_pow2_bits_high by lia. apply andb_false_r.
Qed.

(** Shifting a byte into the accumulator: everything above the byte is a multiple of 256. *)
Lemma shift_in x b : is_byte b ->
  Z.lor (wrap_u32 (Z.shiftl x 8)) b = 256 * (x mod 16777216) + b.
Proof.
  intros Hb. rewrite Z.shiftl_mul_pow2 by lia. change (2 ^ 8) with 256. unfold wrap_u32.
  change 4294967296 with (16777216 * 256). rewrite Z.mul_mod_distr_r by lia.
  pose proof (Z.add_lor_land (x mod 16777216 * 256) b) as E.
  pose proof (land_high_low (x mod 16777216) b Hb) as El. change (2 ^ 8) with 256 in El. lia.
Qed.

Lemma sextet_at acc n : 0 <= n -> Z.land (Z.shiftr acc n) 63 = acc / 2 ^ n mod 64.
Proof. intros Hn. rewrite Z.shiftr_div_pow2 by lia. change 63 with (Z.ones 6). by rewrite Z.land_ones. Qed.

Ltac div_lia := Z.to_euclidean_division_equations; lia.

Lemma mod_byte m q b : 0 < m -> 0 <= b < 256 ->
  (256 * q + b) mod (m * 256) = 256 * (q mod m) + b.
Proof.
  intros Hm Hb. symmetry. apply (Z.mod_unique _ _ (q / m)).
  - left. pose proof (Z.mod_pos_bound q m Hm). nia.
  - pose proof (Z.div_mod q m). lia.
Qed.

(** The four digits of a triple, read off the accumulator. *)
Lemma sextets_of_acc acc a b c : is_byte a -> is_byte b -> is_byte c ->
  let a1 := 256 * (acc mod 16777216) + a in
  let a2 := 256 * (a1 mod 16777216) + b in
  let a3 := 256 * (a2 mod 16777216) + c in
  [a1 / 2 ^ 2 mod 64; a2 / 2 ^ 4 mod 64; a3 / 2 ^ 6 mod 64; a3 / 2 ^ 0 mod 64] = sextets a b c.
Proof.
  unfold is_byte. intros Ha Hb Hc. cbv zeta. unfold sextets.
  generalize (acc mod 16777216) as q. intros q.
  change 16777216 with (65536 * 256). rewrite !(mod_byte 65536) by done.
  change 65536 with (256 * 256) at 3. rewrite (mod_byte 256 _ a) by done.
  generalize (q mod 65536) as q1. intros q1. generalize (q1 mod 256) as q2. intros q2.
  change (2 ^ 2) with 4. change (2 ^ 4) with 16. change (2 ^ 6) with 64. rewrite Z.div_1_r.
  f_equal; [div_lia|]. f_equal; [div_lia|]. f_equal; [div_lia|]. f_equal. div_lia.
Qed.

Lemma symbol_sextet acc n : 0 <= n -> exists ch,
  symbol SECRET_ALPHABET (Z.land (Z.shiftr acc n) 63) = Some ch /\
  symbol SECRET_ALPHABET (acc / 2 ^ n mod 64) = Some ch.
Proof.
  intros Hn. rewrite sextet_at by done. destruct (symbol_total SECRET_ALPHABET (acc / 2 ^ n mod 64))
    as [ch ->]; [apply (Z.mod_pos_bound _ 64); lia|]. eauto.
Qed.

Lemma emit_go f acc bits : 6 <= bits -> emit (S f) acc bits =
  let? c := symbol SECRET_ALPHABET (Z.land (Z.shiftr acc (bits - 6)) 63) in
  let? (rest, over) := emit f acc (bits - 6) in Some (String c rest, over).
Proof. intros Hb. cbn [emit]. by rewrite (proj2 (Z.ltb_ge _ _) Hb). Qed.
Lemma emit_end f acc bits : bits < 6 -> emit f acc bits = Some (EmptyString, bits).
Proof. intros Hb. destruct f; cbn [emit]; by rewrite (proj2 (Z.ltb_lt _ _) Hb). Qed.

Lemma secret_loop_triple a b c rest acc : is_byte a -> is_byte b -> is_byte c -> exists acc',
  secret_loop (a :: b :: c :: rest) acc 0 =
    let? s := symbols SECRET_ALPHABET (sextets a b c) in
    let? r := secret_loop rest acc' 0 in Some (s +:+ r).
Proof.
  intros Ha Hb Hc. rewrite <- (sextets_of_acc acc a b c) by done. cbv zeta.
  cbn [secret_loop]. rewrite !shift_in by done.
  set (a1 := 256 * (acc mod 16777216) + a). set (a2 := 256 * (a1 mod 16777216) + b).
  set (a3 := 256 * (a2 mod 16777216) + c). exists a3.
  destruct (symbol_sextet a1 2) as (c1 & E1 & E1'); [lia|].
  destruct (symbol_sextet a2 4) as (c2 & E2 & E2'); [lia|].
  destruct (symbol_sextet a3 6) as (c3 & E3 & E3'); [lia|].
  destruct (symbol_sextet a3 0) as (c4 & E4 & E4'); [lia|].
  unfold symbols. cbn [foldr]. rewrite E1', E2', E3', E4'.
  assert (emit 3 a1 (0 + 8) = Some (String c1 "", 2)) as ->
    by (rewrite emit_go by lia; change (0 + 8 - 6) with 2; by rewrite E1, emit_end by lia).
  assert (emit 3 a2 (2 + 8) = Some (String c2 "", 4)) as ->
    by (rewrite emit_go by lia; change (2 + 8 - 6) with 4; by rewrite E2, emit_end by lia).
  assert (emit 3 a3 (4 + 8) = Some (String c3 (String c4 ""), 0)) as ->
    by (rewrite !emit_go by lia; change (4 + 8 - 6) with 6; change (6 - 6) with 0;
        by rewrite E3, E4, emit_end by lia).
  by destruct (secret_loop rest a3 0).
Qed.

Definition triple_ok (t : Z * Z * Z) : Prop := is_byte t.1.1 /\ is_byte t.1.2 /\ is_byte t.2.

Lemma secret_loop_ref l acc : Forall triple_ok l -> secret_loop (flat l) acc 0 = base64_ref l.
Proof.
  intros Hl. revert acc. induction Hl as [|[[a b] c] l (Ha & Hb & Hc) _ IH]; intros acc; [done|].
  destruct (secret_loop_triple a b c (flat l) acc Ha Hb Hc) as [acc' E]. cbn [base64_ref].
  change (flat ((a, b, c) :: l)) with (a :: b :: c :: flat l). rewrite E. by rewrite IH.
Qed.

(** Distinct indices of the alphabet are distinct characters. *)
Lemma symbol_inj i j : 0 <= i < 64 -> 0 <= j < 64 ->
  symbol SECRET_ALPHABET i = symbol SECRET_ALPHABET j -> i = j.
Proof.
  intros Hi Hj E.
  assert (forallb (fun x => forallb (fun y => implb
    (bool_decide (String.get x SECRET_ALPHABET = String.get y SECRET_ALPHABET)) (x =? y)%nat)
    (seq 0 64)) (seq 0 64) = true) as Hall by (vm_compute; reflexivity).
  rewrite forallb_forall in Hall. specialize (Hall (Z.to_nat i)). rewrite forallb_forall in Hall.
  assert (Z.to_nat i = Z.to_nat j); [|lia]. apply Nat.eqb_eq.
  assert (In (Z.to_nat i) (seq 0 64) /\ In (Z.to_nat j) (seq 0 64)) as [Hi' Hj'].
  { rewrite !in_seq. lia. }
  specialize (Hall Hi' _ Hj'). rewrite bool_decide_true in Hall by exact E. exact Hall.
Qed.

Lemma symbols_inj l1 l2 : Forall (fun d => 0 <= d < 64) l1 -> Forall (fun d => 0 <= d < 64) l2 ->
  length l1 = length l2 -> symbols SECRET_ALPHABET l1 = symbols SECRET_ALPHABET l2 -> l1 = l2.
Proof.
  intros H1. revert l2. induction H1 as [|d l1 Hd H1 IH]; intros l2 H2 Hl E;
    destruct H2 as [|e l2 He H2]; try done.
  destruct (symbol_total SECRET_ALPHABET d Hd) as [c1 E1].
  destruct (symbol_total SECRET_ALPHABET e He) as [c2 E2].
  assert (forall l, Forall (fun d => 0 <= d < 64) l -> is_Some (symbols SECRET_ALPHABET l)) as Ht.
  { induction 1 as [|x l Hx _ [s Es]]; unfold symbols; cbn [foldr]; [by eexists|].
    destruct (symbol_total SECRET_ALPHABET x Hx) as [cx ->]. unfold symbols in Es. rewrite Es. by eexists. }
  destruct (Ht _ H1) as [s1 Es1], (Ht _ H2) as [s2 Es2]. unfold symbols in *. cbn [foldr] in E.
  rewrite E1, E2, Es1, Es2 in E. injection E as -> ->. f_equal.
  - apply symbol_inj; [done..|congruence].
  - apply IH; [done|by injection Hl|congruence].
Qed.

Fixpoint all_in (al s : string) : bool :=
  match s with EmptyString => true | String c s' => contains_char c al && all_in al s' end.

Lemma all_in_app al s t : all_in al (s +:+ t) = all_in al s && all_in al t.
Proof. induction s as [|c s IH]; [done|]. change (String c s +:+ t) with (String c (s +:+ t)).
  cbn [all_in]. by rewrite IH, andb_assoc. Qed.

Lemma symbol_in al i c : symbol al i = Some c -> contains_char c al = true.
Proof.
  unfold symbol. generalize (Z.to_nat i). induction al as [|a al IH]; intros [|n]; cbn; [done..| |].
  - intros [= ->]. by rewrite Ascii.eqb_refl.
  - intros E. by rewrite (IH n E), orb_true_r.
Qed.

Lemma akid_loop_in buf s : akid_loop buf = Some s -> all_in AKID_ALPHABET s = true.
Proof.
  revert s. induction buf as [|b buf IH]; cbn [akid_loop]; intros s; [by intros [= <-]|].
  destruct (symbol _ _) as [c|] eqn:Ec; [|done]. destruct (akid_loop buf) as [r|]; [|done].
  intros [= <-]. cbn [all_in]. by rewrite (symbol_in _ _ _ Ec), IH.
Qed.

Lemma emit_in f acc bits s o : emit f acc bits = Some (s, o) -> all_in SECRET_ALPHABET s = true.
Proof.
  revert bits s. induction f as [|f IH]; intros bits s; cbn [emit]; destruct (bits <? 6);
    [by intros [= <- _]|done|by intros [= <- _]|].
  destruct (symbol _ _) as [c|] eqn:Ec; [|done].
  destruct (emit f acc _) as [[r o']|] eqn:Er; [|done]. intros [= <- ->].
  cbn [all_in]. by rewrite (symbol_in _ _ _ Ec), (IH _ _ Er).
Qed.

Lemma secret_loop_in buf acc bits s :
  secret_loop buf acc bits = Some s -> all_in SECRET_ALPHABET s = true.
Proof.
  revert acc bits s. induction buf as [|b buf IH]; cbn [secret_loop]; intros acc bits s;
    [by intros [= <-]|].
  destruct (emit _ _ _) as [[o k]|] eqn:Eo; [|done].
  destruct (secret_loop buf _ _) as [r|] eqn:Er; [|done]. intros [= <-].
  by rewrite all_in_app, (emit_in _ _ _ _ _ Eo), (IH _ _ _ Er).
Qed.

Lemma triples n l : length l = (3 * n)%nat -> Forall is_byte l ->
  exists t, flat t = l /\ Forall triple_ok t /\ length t = n.
Proof.
  revert l. induction n as [|n IH]; intros l Hl Hb.
  - destruct l; [|done]. by exists [].
  - destruct l as [|a [|b [|c l]]]; cbn in Hl; try lia.
    apply Forall_cons in Hb as [Ha Hb]. apply Forall_cons in Hb as [Hb' Hb].
    apply Forall_cons in Hb as [Hc Hb]. destruct (IH l) as (t & <- & Ht & <-); [lia|done|].
    exists ((a, b, c) :: t). split; [done|]. split; [|done]. constructor; [|done].
    split; [|split]; done.
Qed.

Lemma append_inj (s1 s2 t1 t2 : string) : String.length s1 = String.length s2 ->
  s1 +:+ t1 = s2 +:+ t2 -> s1 = s2 /\ t1 = t2.
Proof.
  revert s2. induction s1 as [|c s1 IH]; intros [|d s2] Hl; try done.
  cbn. intros [= -> E]. injection Hl as Hl. by destruct (IH _ Hl E) as [-> ->].
Qed.

Lemma sextets_range a b c : triple_ok (a, b, c) -> Forall (fun d => 0 <= d < 64) (sextets a b c).
Proof.
  intros (Ha & Hb & Hc). unfold is_byte in *. cbn in *. unfold sextets.
  repeat constructor; div_lia.
Qed.

Lemma symbols_length al l s : symbols al l = Some s -> String.length s = length l.
Proof.
  revert s. induction l as [|d l IH]; intros s; unfold symbols; cbn [foldr]; [by intros [= <-]|].
  destruct (symbol al d); [|done]. fold (symbols al l).
  destruct (symbols al l) as [r|]; [|done]. intros [= <-]. cbn. by rewrite (IH r).
Qed.

Lemma base64_ref_inj t1 t2 s : Forall triple_ok t1 -> Forall triple_ok t2 ->
  length t1 = length t2 -> base64_ref t1 = Some s -> base64_ref t2 = Some s -> t1 = t2.
Proof.
  intros H1. revert t2 s. induction H1 as [|[[a b] c] t1 Ht H1 IH]; intros t2 s H2 Hl E1 E2;
    destruct H2 as [|[[a' b'] c'] t2 Ht' H2]; try done.
  cbn [base64_ref] in *.
  destruct (symbols _ (sextets a b c)) as [s1|] eqn:Es1; [|done].
  destruct (symbols _ (sextets a' b' c')) as [s2|] eqn:Es2; [|done].
  destruct (base64_ref t1) as [r1|]; [|done]. destruct (base64_ref t2) as [r2|] eqn:Er2; [|done].
  injection E1 as <-. injection E2 as E2.
  apply append_inj in E2 as [-> ->];
    [|by rewrite (symbols_length _ _ _ Es1), (symbols_length _ _ _ Es2)].
  rewrite <- Es2 in Es1. apply symbols_inj in Es1; [|by apply sextets_range..|done].
  f_equal; [|by apply (IH t2 r1); [|injection Hl| |]].
  destruct Ht as (?&?&?), Ht' as (?&?&?). unfold sextets, is_byte in *. cbn in *.
  injection Es1. intros. repeat apply f_equal2; div_lia.
Qed.

(** The generated AWS credentials have the promised types: for any drawn bytes an access key id
    is [AKIA] and 16 upper-case letters or digits, 20 characters in all, and a secret access key is 40
    base-64 characters; no index is ever out of range; and the secret is a lossless image of its 30
    random bytes, so that none of its 240 bits of entropy is discarded. *)
Theorem aws_credentials_well_formed id_bytes key_bytes :
  length id_bytes = 16%nat -> length key_bytes = 30%nat -> Forall is_byte key_bytes ->
  exists body akid secret,
    generate_aws_access_key_id id_bytes = Some akid /\ akid = AWS_ACCESS_KEY_PREFIX +:+ body /\
    String.length akid = AWS_ACCESS_KEY_ID_LEN /\ all_in AKID_ALPHABET body = true /\
    generate_aws_secret_access_key key_bytes = Some secret /\
    String.length secret = AWS_SECRET_ACCESS_KEY_LEN /\ all_in SECRET_ALPHABET secret = true /\
    (forall key_bytes', length key_bytes' = 30%nat -> Forall is_byte key_bytes' ->
       generate_aws_secret_access_key key_bytes' = Some secret -> key_bytes' = key_bytes).
Proof.
  intros Hi Hk Hb. destruct (akid_loop_total id_bytes) as (body & Eb & Elb).
  destruct (secret_loop_total key_bytes 0 0) as (secret & Es & Els); [lia|].
  exists body, (AWS_ACCESS_KEY_PREFIX +:+ body), secret.
  unfold generate_aws_access_key_id, generate_aws_secret_access_key. rewrite Eb. split_and!; try done.
  - rewrite string_length_app, Elb, Hi. done.
  - exact (akid_loop_in _ _ Eb).
  - rewrite Hk in Els. change ((0 + 8 * Z.of_nat 30) / 6) with 40 in Els.
    unfold AWS_SECRET_ACCESS_KEY_LEN. lia.
  - exact (secret_loop_in _ _ _ _ Es).
  - intros l' Hl' Hb' Es'.
    destruct (triples 10 _ Hk Hb) as (t & <- & Ht & Hlt).
    destruct (triples 10 _ Hl' Hb') as (t' & <- & Ht' & Hlt').
    rewrite secret_loop_ref in Es, Es' by done. f_equal.
    apply (base64_ref_inj _ _ secret); [done..|congruence|done|done].
Qed.

Lemma aws_credentials_well_formed_witness : exists body akid secret,
  generate_aws_access_key_id (replicate 16 255) = Some akid /\ akid = AWS_ACCESS_KEY_PREFIX +:+ body /\
  String.length akid = 20%nat /\ generate_aws_secret_access_key (replicate 30 7) = Some secret.
Proof.
  destruct (aws_credentials_well_formed (replicate 16 255) (replicate 30 7))
    as (body & akid & secret & H1 & H2 & H3 & _ & H4 & _); [reflexivity..| |].
  - apply Forall_replicate. unfold is_byte. lia.
  - exists body, akid, secret. repeat split; assumption.
Defined.

(** ** Principals *)

(** A role of the principal is bound to a grant that covers the pool; an omitted list covers all. *)
Definition covers (b : RoleBindingCfg.t) (pool : string) : Prop :=
  match RoleBindingCfg.allowed_pools b with None => True | Some l => pool ∈ l end.
Definition granted (table : list (string * RoleBindingCfg.t)) (roles : list string) (pool : string)
    : Prop :=
  exists role b, role ∈ roles /\ assoc role table = Some b /\ covers b pool.

Lemma existsb_eqb_elem p l : existsb (String.eqb p) l = true <-> p ∈ l.
Proof.
  rewrite existsb_exists. setoid_rewrite String.eqb_eq. rewrite list_elem_of_In. naive_solver.
Qed.

Lemma add_pools_elem l acc x : x ∈ add_pools acc l <-> x ∈ acc \/ x ∈ l.
Proof.
  unfold add_pools. revert acc. induction l as [|p l IH]; intros acc; cbn [foldl].
  - rewrite elem_of_nil. naive_solver.
  - rewrite IH, elem_of_cons. destruct (existsb (String.eqb p) acc) eqn:E.
    + apply existsb_eqb_elem in E. naive_solver.
    + rewrite elem_of_app, list_elem_of_singleton. naive_solver.
Qed.

Definition add_grant (acc : list string * bool) (b : RoleBindingCfg.t) : list string * bool :=
  match RoleBindingCfg.allowed_pools b with
  | None => (acc.1, true)
  | Some l => (add_pools acc.1 l, acc.2)
  end.

Lemma union_from_spec bs acc :
  ((foldl add_grant acc bs).2 = true <->
     acc.2 = true \/ exists b, b ∈ bs /\ RoleBindingCfg.allowed_pools b = None) /\
  (forall x, x ∈ (foldl add_grant acc bs).1 <->
     x ∈ acc.1 \/ exists b l, b ∈ bs /\ RoleBindingCfg.allowed_pools b = Some l /\ x ∈ l).
Proof.
  revert acc. induction bs as [|b bs IH]; intros acc; cbn [foldl].
  - setoid_rewrite elem_of_nil. naive_solver.
  - destruct (IH (add_grant acc b)) as [H1 H2]. setoid_rewrite elem_of_cons. unfold add_grant in *.
    destruct (RoleBindingCfg.allowed_pools b) as [l|] eqn:Eb; cbn [fst snd] in *.
    + split; [rewrite H1; naive_solver|]. intros x. rewrite H2, add_pools_elem. naive_solver.
    + split; [rewrite H1; naive_solver|]. intros x. rewrite H2. naive_solver.
Qed.

Lemma union_grants_spec bs :
  ((union_grants bs).2 = true <-> exists b, b ∈ bs /\ RoleBindingCfg.allowed_pools b = None) /\
  (forall x, x ∈ (union_grants bs).1 <->
     exists b l, b ∈ bs /\ RoleBindingCfg.allowed_pools b = Some l /\ x ∈ l).
Proof.
  destruct (union_from_spec bs ([], false)) as [H1 H2]. split.
  - change (union_grants bs) with (foldl add_grant ([], false) bs). rewrite H1. naive_solver.
  - intros x. change (union_grants bs) with (foldl add_grant ([], false) bs).
    rewrite H2, elem_of_nil. naive_solver.
Qed.

Lemma covers_union bs pool : (exists b, b ∈ bs /\ covers b pool) <->
  (union_grants bs).2 = true \/ pool ∈ (union_grants bs).1.
Proof.
  destruct (union_grants_spec bs) as [H1 H2]. rewrite H1, H2. unfold covers. split.
  - intros (b & Hb & Hc). destruct (RoleBindingCfg.allowed_pools b) as [l|] eqn:E; eauto 10.
  - intros [(b & Hb & E)|(b & l & Hb & E & Hx)]; exists b; by rewrite E.
Qed.

Lemma granted_omap table roles pool : granted table roles pool <->
  exists b, b ∈ omap (fun role => assoc role table) roles /\ covers b pool.
Proof.
  unfold granted. setoid_rewrite list_elem_of_omap. naive_solver.
Qed.

Lemma pool_allowed_some k l pool : VirtualKey.allowed_pools k = Some l ->
  VirtualKey.pool_allowed k pool = true <-> pool ∈ l.
Proof.
  intros E. unfold VirtualKey.pool_allowed. rewrite E, existsb_exists. setoid_rewrite String.eqb_eq.
  rewrite list_elem_of_In. naive_solver.
Qed.

(** The key synthesized for a role-carrying principal grants exactly the union of its roles'
    bindings under the identifying module, is charged to the first bound group, and its ledger bucket
    can alias neither a group's bucket nor a virtual key's; no key is synthesized exactly when the id
    is in a reserved namespace or no pool at all is granted. *)
Theorem principal_key_grants_union p bindings :
  let roles := Principal.roles p in
  match synthesize_principal_key p bindings with
  | Some k => exists table, bindings = Some table /\ VirtualKey.id k = Principal.id p /\
      (forall pool, VirtualKey.pool_allowed k pool = true <-> granted table roles pool) /\
      VirtualKey.group k =
        head (omap RoleBindingCfg.group (omap (fun role => assoc role table) roles)) /\
      (forall name w pl, VirtualKey.id k <> bucket_id_for name w pl) /\
      (forall s, VirtualKey.id k <> VK_ID_PREFIX +:+ s)
  | None => (exists s, Principal.id p = GROUP_BUCKET_PREFIX +:+ s) \/
      (exists s, Principal.id p = VK_ID_PREFIX +:+ s) \/
      (forall table pool, bindings = Some table -> ~ granted table roles pool)
  end.
Proof.
  cbv zeta. unfold synthesize_principal_key.
  destruct (starts_with (Principal.id p) GROUP_BUCKET_PREFIX) eqn:Eg;
    [cbn; left; by apply starts_with_spec|].
  destruct (starts_with (Principal.id p) VK_ID_PREFIX) eqn:Ev;
    [cbn; right; left; by apply starts_with_spec|].
  cbn [orb]. destruct bindings as [table|]; [|right; right; by intros].
  pose proof (covers_union (omap (fun role => assoc role table) (Principal.roles p))) as Hcu.
  assert (forall pool, granted table (Principal.roles p) pool <->
    (union_grants (omap (fun role => assoc role table) (Principal.roles p))).2 = true \/
    pool ∈ (union_grants (omap (fun role => assoc role table) (Principal.roles p))).1) as Hg.
  { intros pool. by rewrite granted_omap, Hcu. }
  clear Hcu. destruct (omap _ (Principal.roles p)) as [|b bs] eqn:Eo.
  { right; right. intros t pool [= <-]. rewrite granted_omap, Eo. intros (? & []%elem_of_nil & _). }
  destruct (union_grants (b :: bs)) as [pools all]. cbn [fst snd] in Hg.
  assert (forall name w pl, Principal.id p <> bucket_id_for name w pl) as Hb1.
  { intros name w pl E. rewrite E in Eg. destruct pl; cbn in Eg; done. }
  assert (forall s, Principal.id p <> VK_ID_PREFIX +:+ s) as Hb2.
  { intros s E. assert (starts_with (Principal.id p) VK_ID_PREFIX = true); [|congruence].
    apply starts_with_spec. eauto. }
  destruct all; [|destruct pools as [|x pools]].
  - exists table. split_and!; [done|done| |by rewrite Eo|done..]. intros pool. rewrite Hg. cbn. naive_solver.
  - right; right. intros t pool [= <-]. rewrite Hg, elem_of_nil. naive_solver.
  - exists table. split_and!; [done|done| |by rewrite Eo|done..]. intros pool. rewrite Hg, (pool_allowed_some _ (x :: pools)) by done.
    naive_solver.
Qed.

(** An SSO principal with two roles, one of them bound to an explicit list. *)
Example principal_example :
  VirtualKey.allowed_pools <$> synthesize_principal_key
    (Principal.mk "ad:ann" None ["dev"; "ops"; "dev"] None)
    (Some [("dev", RoleBindingCfg.mk (Some ["chat"; "code"]) (Some "eng") None);
           ("ops", RoleBindingCfg.mk (Some ["code"; "batch"]) None None)])
  = Some (Some ["chat"; "code"; "batch"]).
Proof. vm_compute. reflexivity. Qed.
