(* ===== verification/Walk.v ===== *)
(** * The failover walk (crates/busbar/src/proxy/engine/mod.rs, engine/walk.rs, proxy/usage.rs)

    What one request does to the lane store: the primary pool's attempts, the treatment of every
    upstream outcome, and the exhaustion modes with their chain of fallback pools.  The walk runs on
    the store of [Store], picks with [Select] and classifies with [Breaker].

    What the rest of the system answers is read from [WalkEnv] at each attempt: the clocks, the
    picks' semaphores, whether the request could be prepared for the lane (translation, path), and the
    upstream's reply.  [SendDropped] is the future dropped while the reply is awaited.  Responses are
    the cases the code distinguishes ([Resp]), not their bytes.  [None] is a panic or lack of fuel;
    both are excluded by theorem. *)
From stdpp Require Import base gmap list strings pretty.
From Stdlib Require Import ZArith Lia.
From S2P Require Import Prelude Breaker Cell BreakerConfig Swrr Store Select.
Import InMemoryStore.
Open Scope Z_scope.
Open Scope rust_scope.

(** ** Configuration *)
Module LaneCfg.
Record t := mk { model : string; protocol : string; error_map : gmap string string;
                 context_max : option Z; attempt_timeout_ms : option Z }.
End LaneCfg.

Inductive OnExhausted := Status503 | FallbackPool (pool : string) | LeastBad.

Module AppCfg.
Record t := mk {
  lanes : list LaneCfg.t;
  passthrough : bool;
  on_exhausted_cfgs : gmap string OnExhausted;
  fallback_pools : gmap string (list WeightedLane.t);
  breaker : gmap string BreakerCfg.t;
  members : gmap string (gmap nat (list string)) }.
End AppCfg.

(** ** What the environment answers *)

(** Preparing the request for a lane: re-parse, translation, upstream path. *)
Inductive Prep := PrepOk | PrepReparse | PrepTranslate | PrepNoPath.

(** The end of a buffered (cross-protocol, non-streaming) body. *)
Inductive Buffered := BodyTransportError | BodyTruncated | BodyUntranslatable | BodyNoOp | BodyDelivered
  | BodyDropped.

(** [Elapsed]: no headers within the attempt's cap, or, when the lane has none, within the ceiling of
    the shared client (a timeout error of the send). *)
Inductive Reply :=
  | Elapsed
  | SendError (is_timeout : bool)
  | NonSuccess (status : Z) (raw : RawUpstreamError) (retry_after_header : option Z)
  | Success (is_sse : bool) (latency_ms : f64) (body : Buffered)
  | SendDropped.

Module WalkEnv.
Record t := mk {
  clock : nat -> Z;
  pick : nat -> PickEnv.t;
  record : nat -> Env.t;
  prep : nat -> nat -> Prep;
  send : nat -> nat -> option Z -> Reply }.
End WalkEnv.

(** ** Responses and progress *)
Inductive Resp :=
  | RDeadline | RNoMembers | RUnavailable (retry_after : Z) | RRestricted (policy : string)
  | RBadRequest | RInternal | RTranslation
  | RRelay (lane : nat) (status : Z) | RReshaped (lane : nat) (status : Z)
  | RClientFault (lane : nat) (status : Z) (class : StatusClass) | RAuthFailure (lane : nat)
  | RBodyFailed (lane : nat) | RTooLarge (lane : nat) | RUntranslatable (lane : nat)
  | RUnsupported (lane : nat)
  | RDelivered (lane : nat) | RStream (lane : nat) (budget_spent : bool).

(** One attempt ends the request, lets the loop go on, or the future is gone. *)
Inductive Step := Again | Done (r : Resp) | Gone.

Module Walk.
Record t := mk { st : InMemoryStore.t; ctx : RequestCtx.t; warns : Warnings; log : list (string * nat) }.
Definition set_st (s : InMemoryStore.t) (w : t) : t := mk s (ctx w) (warns w) (log w).
Definition set_ctx (c : RequestCtx.t) (w : t) : t := mk (st w) c (warns w) (log w).
Definition set_warns (x : Warnings) (w : t) : t := mk (st w) (ctx w) x (log w).
(** [request_ctx.exclude(i)], and the attempt noted. *)
Definition attempting (pool : string) (lane : nat) (w : t) : t :=
  mk (st w) (RequestCtx.exclude (ctx w) lane) (warns w) (log w ++ [(pool, lane)]).
(** The attempts made so far number the readings of the environment. *)
Definition tick (w : t) : nat := length (log w).
End Walk.

Definition resolve_breaker_cfg (app : AppCfg.t) (pool : string) : BreakerCfg.t :=
  default BreakerCfg.default (AppCfg.breaker app !! pool).

Definition member (cands : list WeightedLane.t) (i : nat) : option WeightedLane.t :=
  find (fun w => (WeightedLane.idx w =? i)%nat) cands.

Definition effective_attempt_timeout_ms (cands : list WeightedLane.t) (i : nat)
    (lane_default : option Z) : option Z :=
  match wl ← member cands i; WeightedLane.attempt_timeout_ms wl with
  | Some ms => Some ms
  | None => lane_default
  end.

Definition sat_mul_u64 (a b : Z) : Z := Z.min (a * b) U64_MAX.

(** Milliseconds. *)
Definition attempt_cap (ms remaining_secs : Z) : Z :=
  Z.min ms (Z.max (sat_mul_u64 remaining_secs 1000) 1).

Section Walk.
Context (app : AppCfg.t) (env : WalkEnv.t) (ingress_protocol : string).
Notation W := Walk.t.

Definition store_op (w : W) (o : option InMemoryStore.t) : option W :=
  let? s := o in Some (Walk.set_st s w).

Definition release (pool : string) (lane : nat) (w : W) : option W :=
  store_op w (release_probe_in (Walk.st w) pool lane).

(** [record_transient_in] and [record_rate_limit_in] of attempt [n]; both record a failure. *)
Definition record_failure (n : nat) (pool : string) (lane : nat) (now_time : Z) (retry_after : option Z)
    (w : W) : option W :=
  store_op w (fst <$> record_failure_for (WalkEnv.record env n) (Walk.st w) pool lane now_time
                        (resolve_breaker_cfg app pool) retry_after).

Definition record_transient (n : nat) (pool : string) (lane : nat) (retry_after : option Z) (w : W)
    : option W :=
  record_failure n pool lane (Env.now_secs (WalkEnv.record env n)) retry_after w.

(** Success, latency and budget on 2xx headers; the result says whether the budget was spent. *)
Definition record_2xx (n : nat) (pool : string) (lane : nat) (latency_ms : f64) (w : W)
    : option (W * bool) :=
  let? s := record_success_for (WalkEnv.record env n) (Walk.st w) pool lane in
  let? s := record_latency_in s lane latency_ms in
  let? (s, budget_spent) := spend_budget s lane in
  Some (Walk.set_st s w, budget_spent).

(** The 2xx branch, shared by the main and the degraded path. *)
Definition on_success (n : nat) (pool : string) (lane : nat) (cross_protocol is_sse : bool)
    (latency_ms : f64) (body : Buffered) (w : W) : option (W * Step) :=
  let? (w, budget_spent) := record_2xx n pool lane latency_ms w in
  if cross_protocol && negb is_sse then
    match body with
    | BodyTransportError =>
        let? w := record_transient n pool lane None w in
        let? w := (if budget_spent then store_op w (refund_budget (Walk.st w) lane) else Some w) in
        Some (w, Done (RBodyFailed lane))
    | BodyTruncated => Some (w, Done (RTooLarge lane))
    | BodyUntranslatable => Some (w, Done (RUntranslatable lane))
    | BodyNoOp => Some (w, Done (RUnsupported lane))
    | BodyDelivered => Some (w, Done (RDelivered lane))
    | BodyDropped => Some (w, Gone)
    end
  else Some (w, Done (RStream lane budget_spent)).

(** ** The main path: one attempt on a picked lane *)

(** Candidates whose window is known and no larger than the failed lane's are not worth trying. *)
Definition exclude_smaller (failed : option Z) (cands : list WeightedLane.t) (c : RequestCtx.t)
    : option RequestCtx.t :=
  foldl (fun oc wl =>
    let? c := oc in
    let? l := AppCfg.lanes app !! WeightedLane.idx wl in
    match LaneCfg.context_max l, failed with
    | Some cm, Some f => Some (if cm <=? f then RequestCtx.exclude c (WeightedLane.idx wl) else c)
    | _, _ => Some c
    end) (Some c) cands.

Definition hard_down_reason (class : StatusClass) (status : Z) : string :=
  match class with
  | Billing => "billing / insufficient balance"
  | Auth => "auth rejected (HTTP " +:+ pretty status +:+ ")"
  | _ => "request rejected (HTTP " +:+ pretty status +:+ ")"
  end.

Definition on_disposition (n : nat) (cands : list WeightedLane.t) (pool : string) (lane : nat)
    (l : LaneCfg.t) (status : Z) (sig : CanonicalSignal) (w : W) : option (W * Step) :=
  match classify sig with
  | Disposition.ClientFault =>
      let? w := store_op w (record_client_fault (Walk.st w) lane) in
      let? w := release pool lane w in
      Some (w, Done (if String.eqb ingress_protocol (LaneCfg.protocol l) then RRelay lane status
                     else RClientFault lane status (class sig)))
  | Disposition.TransientUpstream =>
      let now_time := if bool_decide (class sig = RateLimit) then WalkEnv.clock env n
                      else Env.now_secs (WalkEnv.record env n) in
      let? w := record_failure n pool lane now_time (retry_after sig) w in
      Some (w, Again)
  | Disposition.HardDown =>
      let? w := store_op w (fst <$> record_hard_down_all_cells (WalkEnv.record env n) (Walk.st w) lane
                                      (hard_down_reason (class sig) status)) in
      Some (w, if bool_decide (class sig = Auth) then Done (RAuthFailure lane) else Again)
  | Disposition.ContextLength =>
      let? c := exclude_smaller (LaneCfg.context_max l) cands (Walk.ctx w) in
      let? w := release pool lane (Walk.set_ctx c w) in
      Some (w, Again)
  end.

Definition on_non_success (n : nat) (cands : list WeightedLane.t) (pool : string) (lane : nat)
    (l : LaneCfg.t) (status : Z) (raw : RawUpstreamError) (ra : option Z) (w : W) : option (W * Step) :=
  if AppCfg.passthrough app && ((status =? 401) || (status =? 403)) then
    let? w := release pool lane w in
    Some (w, Done (if String.eqb ingress_protocol (LaneCfg.protocol l) then RRelay lane status
                   else RReshaped lane status))
  else
    let raw := mkRaw (http_status raw) (provider_code raw) (structured_type raw) ra in
    let '(sig, ws) := normalize_raw_error raw (LaneCfg.error_map l) (Walk.warns w) in
    on_disposition n cands pool lane l status sig (Walk.set_warns ws w).

(** Everything after the pick.  [n] is the number of this attempt. *)
Definition attempt (n : nat) (cands : list WeightedLane.t) (pool : string) (lane : nat) (w : W)
    : option (W * Step) :=
  let w := Walk.attempting pool lane w in
  let? l := AppCfg.lanes app !! lane in
  match WalkEnv.prep env n lane with
  | PrepReparse | PrepNoPath => let? w := release pool lane w in Some (w, Done RInternal)
  | PrepTranslate => let? w := release pool lane w in Some (w, Done RTranslation)
  | PrepOk =>
      let remaining := RequestCtx.remaining (Walk.ctx w) (WalkEnv.clock env n) in
      let cap := option_map (fun ms => attempt_cap ms remaining)
                   (effective_attempt_timeout_ms cands lane (LaneCfg.attempt_timeout_ms l)) in
      match WalkEnv.send env n lane cap with
      | SendDropped => Some (w, Gone)
      | Elapsed | SendError _ => let? w := record_transient n pool lane None w in Some (w, Again)
      | NonSuccess status raw ra => on_non_success n cands pool lane l status raw ra w
      | Success is_sse ms body =>
          on_success n pool lane (negb (String.eqb ingress_protocol (LaneCfg.protocol l))) is_sse ms body w
      end
  end.

(** ** The degraded path *)
Definition forward_once (n : nat) (pool : string) (lane : nat) (w : W) : option (W * Step) :=
  let? l := AppCfg.lanes app !! lane in
  let same := String.eqb ingress_protocol (LaneCfg.protocol l) in
  match WalkEnv.prep env n lane with
  | PrepReparse => let? w := release pool lane w in Some (w, Done RBadRequest)
  | PrepTranslate => let? w := release pool lane w in Some (w, Done RTranslation)
  | PrepNoPath => let? w := release pool lane w in Some (w, Done RInternal)
  | PrepOk =>
      let remaining := RequestCtx.remaining (Walk.ctx w) (WalkEnv.clock env n) in
      let cap := option_map (fun ms => attempt_cap ms remaining) (LaneCfg.attempt_timeout_ms l) in
      match WalkEnv.send env n lane cap with
      | SendDropped => Some (w, Gone)
      | Elapsed =>
          let? w := record_transient n pool lane None w in
          let? w := (if cap then release pool lane w else Some w) in
          Some (w, Again)
      | SendError _ => let? w := record_transient n pool lane None w in Some (w, Again)
      | NonSuccess status _ _ =>
          let? w := record_transient n pool lane None w in
          let? w := release pool lane w in
          Some (w, Done (if same then RRelay lane status else RReshaped lane status))
      | Success is_sse ms body => on_success n pool lane (negb same) is_sse ms body w
      end
  end.

(** [soonest] is the best index so far with its remaining cooldown. *)
Fixpoint find_soonest_from (w : W) (cands : list WeightedLane.t) (now : Z) (pool : string)
    (soonest_idx : option nat) (soonest_remaining : Z) : option (W * option nat) :=
  match cands with
  | [] => Some (w, soonest_idx)
  | wl :: cands =>
      let? (s, remaining) := cooldown_remaining_for (Walk.st w) pool (WeightedLane.idx wl) now in
      let w := Walk.set_st s w in
      if remaining <? soonest_remaining
      then find_soonest_from w cands now pool (Some (WeightedLane.idx wl)) remaining
      else find_soonest_from w cands now pool soonest_idx soonest_remaining
  end.

Definition find_soonest_cooldown (w : W) (cands : list WeightedLane.t) (now : Z) (pool : string)
    : option (W * option nat) :=
  find_soonest_from w cands now pool None U64_MAX.

Definition handle_status_503 (w : W) (cands : list WeightedLane.t) (now : Z) (pool : string)
    : option (W * Step) :=
  let? (w, soonest) := find_soonest_cooldown w cands now pool in
  match soonest with
  | Some i =>
      let? (s, remaining) := cooldown_remaining_for (Walk.st w) pool i now in
      Some (Walk.set_st s w, Done (RUnavailable (Z.max remaining 1)))
  | None => Some (w, Done (RUnavailable (Z.max 1 1)))
  end.

Definition handle_least_bad (n : nat) (w : W) (cands : list WeightedLane.t) (now : Z) (pool : string)
    : option (W * Step) :=
  let? (w, soonest) := find_soonest_cooldown w cands now pool in
  match soonest with
  | None => handle_status_503 w cands now pool
  | Some i =>
      let p := WalkEnv.pick env n in
      let? permit := try_acquire (PickEnv.max_permits p) (PickEnv.try_owned p 0) (Walk.st w) i in
      match permit with
      | None => handle_status_503 w cands now pool
      | Some _ =>
          let? (w, r) := forward_once n pool i (Walk.mk (Walk.st w) (Walk.ctx w) (Walk.warns w)
                                                  (Walk.log w ++ [(pool, i)])) in
          match r with Again => handle_status_503 w cands now pool | _ => Some (w, r) end
      end
  end.

(** The members of a fallback pool, until one answers or the pool is exhausted ([exhausted]); every
    round excludes one member, so [fuel] above the number of members is enough. *)
Fixpoint fallback_loop (fuel : nat) (exhausted : W -> option (W * Step)) (cands : list WeightedLane.t)
    (pool : string) (w : W) : option (W * Step) :=
  match fuel with
  | O => None
  | S fuel =>
      let n := Walk.tick w in
      if RequestCtx.expired (Walk.ctx w) (WalkEnv.clock env n) then Some (w, Done RDeadline)
      else
        let? (s, p) := pick_among (WalkEnv.pick env n) (Walk.st w) cands (Walk.ctx w) None pool None in
        let w := Walk.set_st s w in
        match p with
        | FutureDropped => Some (w, Gone)
        | NoLane => exhausted w
        | Dispatch i _ =>
            let? (w, r) := forward_once n pool i (Walk.attempting pool i w) in
            match r with Again => fallback_loop fuel exhausted cands pool w | _ => Some (w, r) end
        end
  end.

(** [handle_exhaustion_for_pool] and [handle_fallback_pool]; each level visits a pool for the first
    time, so [fuel] above the number of fallback pools is enough. *)
Fixpoint handle_exhaustion_for_pool (fuel : nat) (cands : list WeightedLane.t) (pool : string) (w : W)
    : option (W * Step) :=
  match fuel with
  | O => None
  | S fuel =>
      let n := Walk.tick w in
      let now := WalkEnv.clock env n in
      let w := Walk.set_ctx (RequestCtx.mark_pool_visited (Walk.ctx w) pool) w in
      match default Status503 (AppCfg.on_exhausted_cfgs app !! pool) with
      | Status503 => handle_status_503 w cands now pool
      | LeastBad => handle_least_bad n w cands now pool
      | FallbackPool fallback =>
          if RequestCtx.expired (Walk.ctx w) now then Some (w, Done RDeadline)
          else if RequestCtx.is_pool_visited (Walk.ctx w) fallback then handle_status_503 w [] now fallback
          else
            match AppCfg.fallback_pools app !! fallback with
            | None => handle_status_503 w [] now fallback
            | Some members =>
                match enforce_restricts (AppCfg.members app) (Walk.ctx w) fallback members with
                | inl name => Some (w, Done (RRestricted name))
                | inr members =>
                    let w := Walk.set_ctx (RequestCtx.mark_pool_visited (Walk.ctx w) fallback) w in
                    fallback_loop (S (length members))
                      (handle_exhaustion_for_pool fuel members fallback) members fallback w
                end
            end
      end
  end.

Definition exhaustion_fuel : nat := S (S (size (AppCfg.fallback_pools app))).

(** ** The primary pool: at most [attempts] picks ([0..=max_cap]) *)
Fixpoint forward_loop (attempts : nat) (cands : list WeightedLane.t) (affinity : option Z)
    (pool : string) (policy_order : option (list nat)) (w : W) : option (W * Step) :=
  match attempts with
  | O => handle_exhaustion_for_pool exhaustion_fuel cands pool w
  | S attempts =>
      let n := Walk.tick w in
      if RequestCtx.expired (Walk.ctx w) (WalkEnv.clock env n) then Some (w, Done RDeadline)
      else
        let? (s, p) := pick_among (WalkEnv.pick env n) (Walk.st w) cands (Walk.ctx w) affinity pool
                         policy_order in
        let w := Walk.set_st s w in
        match p with
        | FutureDropped => Some (w, Gone)
        | NoLane =>
            match cands with
            | [] => Some (w, Done RNoMembers)
            | _ => handle_exhaustion_for_pool exhaustion_fuel cands pool w
            end
        | Dispatch i _ =>
            let? (w, r) := attempt n cands pool i w in
            match r with
            | Again => forward_loop attempts cands affinity pool policy_order w
            | _ => Some (w, r)
            end
        end
  end.
End Walk.
