(* ===== verification/WalkSteps.v ===== *)
(** * Facts on the failover walk: what each store operation of an attempt does to recovery probes and
    to the lanes' books. *)
From stdpp Require Import base gmap list strings.
From Stdlib Require Import ZArith Lia.
From S2P Require Import Prelude Breaker Cell BreakerConfig CellFacts CellSteps Swrr Store StoreFacts.
From S2P Require Import StoreProps Select SelectProps Walk.

Import InMemoryStore.
Open Scope Z_scope.
Open Scope rust_scope.

(** A recovery probe is out for (pool, lane). *)
Definition held (s : t) (pool : string) (lane : nat) : Prop :=
  exists c, view s pool lane = Some c /\ BreakerCell.probe_in_flight c = true.

(** A well-formed successor in which no probe is out that was not out before. *)
Record calm (s s' : t) : Prop := {
  calm_wf : store_wf s';
  calm_len : length (lanes s') = length (lanes s);
  calm_held : forall p l, held s' p l -> held s p l }.

Definition alive (s : t) (lane : nat) : Prop :=
  exists l, get_lane s lane = Some l /\ LaneState.dead l = false.

Lemma calm_refl s : store_wf s -> calm s s.
Proof. by split. Qed.

Lemma calm_trans s1 s2 s3 : calm s1 s2 -> calm s2 s3 -> calm s1 s3.
Proof. intros [? ? H1] [? ? H2]. split; [done|congruence|auto]. Qed.

Lemma calm_range s s' lane : calm s s' -> in_range s lane -> in_range s' lane.
Proof. intros [_ H _]. unfold in_range. by rewrite H. Qed.

Lemma books_alive s s' lane : books s' = books s -> alive s lane -> alive s' lane.
Proof.
  intros E (l & Hl & Hd). unfold get_lane in Hl. apply (f_equal (lookup lane)) in E.
  unfold books in E. rewrite !list_lookup_fmap, Hl in E. unfold alive, get_lane.
  destruct (lanes s' !! lane) as [l'|]; [|done]. injection E as _ _ E. exists l'. by rewrite E.
Qed.

Lemma admissible_alive s lane : lane_admissible s lane = Some true -> alive s lane.
Proof.
  unfold lane_admissible. destruct (get_lane s lane) as [l|] eqn:E; [|done]. intros [= Hl].
  exists l. split; [done|]. by destruct (LaneState.dead l).
Qed.

(** ** Frames *)
Lemma held_fsm s s' :
  (forall p l, fsm <$> view s' p l = fsm <$> view s p l) -> forall p l, held s' p l -> held s p l.
Proof.
  intros Hv p l (c & Hc & Hp). specialize (Hv p l). rewrite Hc in Hv.
  destruct (view s p l) as [c0|] eqn:E; [|done]. injection Hv as _ _ _ Hf _ _ _.
  exists c0. split; [done|]. congruence.
Qed.

Lemma held_brk s s' :
  (forall p l, brk <$> view s' p l = brk <$> view s p l) -> forall p l, held s' p l -> held s p l.
Proof.
  intros Hv p l (c & Hc & Hp). specialize (Hv p l). rewrite Hc in Hv.
  destruct (view s p l) as [c0|] eqn:E; [|done]. injection Hv as Hb. unfold brk in Hb.
  exists c0. split; [done|]. congruence.
Qed.

(** Writing one cell disturbs no probe elsewhere: cells that are not there yet inherit none. *)
Lemma put_held s pool lane c c' p l :
  cell s pool lane = Some (s, c) -> ~ (p = pool /\ l = lane) ->
  held (put_cell s pool lane c') p l -> held s p l.
Proof.
  intros Hc Hne. destruct (decide (pool = "")) as [->|Hp].
  - unfold cell in Hc. cbn in Hc. destruct (get_lane s lane) as [ls|] eqn:El; [|done].
    intros (x & Hx & Hpr). unfold put_cell, view in Hx. cbn [String.eqb] in Hx. rewrite update_lane_cells in Hx.
    destruct (decide (lane = l)) as [<-|Hl].
    + rewrite get_update_lane_eq, El in Hx. cbn in Hx.
      destruct (String.eqb_spec p "") as [->|Hpp]; [by destruct Hne|].
      destruct (assoc p (lane_cells s lane)) as [y|] eqn:Ea.
      * injection Hx as <-. exists y. split; [|done]. unfold view. rewrite El, Ea.
        by destruct (String.eqb_spec p "").
      * injection Hx as <-. by destruct (inherited_idle (LaneState.set_cell c' ls)) as [_ H0];
          rewrite H0 in Hpr.
    + rewrite get_update_lane_ne in Hx by done. by exists x.
  - unfold held. rewrite (view_put_pool s pool lane c c') by done. by rewrite decide_False.
Qed.

Lemma on_cell_calm {A} s pool lane (f : BreakerCell.t -> option (BreakerCell.t * A)) :
  store_wf s -> in_range s lane ->
  (forall c, cell_wf c -> exists c' a, f c = Some (c', a) /\ cell_wf c' /\
     (BreakerCell.probe_in_flight c' = true -> BreakerCell.probe_in_flight c = true)) ->
  exists s' a, on_cell s pool lane f = Some (s', a) /\ calm s s' /\ books s' = books s /\
    exists c c', view s pool lane = Some c /\ cell_wf c /\ f c = Some (c', a) /\
      view s' pool lane = Some c'.
Proof.
  intros Hwf Hr Hf. destruct (cell_resolves s pool lane Hwf Hr) as (s1 & c & Hc & _).
  destruct (cell_quiet s pool lane s1 c Hwf Hr Hc) as (Hwf1 & Hr1 & Hcw & Hself & Hv & Hl & Hvv).
  destruct (Hf c Hcw) as (c' & a & Hfc & Hcw' & Hp). unfold on_cell. rewrite Hc, Hfc.
  eexists _, _. split; [done|]. split; [split|].
  - by apply put_cell_wf.
  - by rewrite put_cell_length, Hl.
  - intros p l Hh. destruct (decide (p = pool /\ l = lane)) as [[-> ->]|Hne].
    + destruct Hh as (x & Hx & Hpx). rewrite (put_self s1 pool lane c c' Hself) in Hx.
      injection Hx as <-. exists c. auto.
    + apply (put_held s1 pool lane c c' p l Hself Hne) in Hh as (x & Hx & Hpx).
      exists x. by rewrite <- Hvv.
  - split; [rewrite books_put; by apply books_lanes|]. exists c, c'. split_and!; try done.
    by eapply put_self.
Qed.

Lemma update_calm s lane f :
  store_wf s -> (forall l, fsm (LaneState.cell (f l)) = fsm (LaneState.cell l)) ->
  store_wf (update_lane s lane f) -> calm s (update_lane s lane f).
Proof.
  intros Hwf Hf Hwf'. split; [done|apply update_lane_length|].
  apply held_fsm. intros p l. by apply view_update_lane.
Qed.

Lemma update_held s lane f p l : (forall l, fsm (LaneState.cell (f l)) = fsm (LaneState.cell l)) ->
  held (update_lane s lane f) p l <-> held s p l.
Proof.
  intros Hf. split; apply held_fsm; intros p' l'; [|symmetry]; by apply view_update_lane.
Qed.

(** ** Operations on the attempted cell *)
Lemma release_calm s pool lane : store_wf s -> in_range s lane ->
  exists s', release_probe_in s pool lane = Some s' /\ calm s s' /\ books s' = books s /\
    ~ held s' pool lane.
Proof.
  intros Hwf Hr. unfold release_probe_in.
  destruct (on_cell_calm s pool lane (pure_op (fun c => (cell_release_probe c, tt))) Hwf Hr)
    as (s' & u & -> & Hc & Hb & c & c' & _ & _ & Hf & Hv).
  { intros c Hc. exists (cell_release_probe c), tt. split; [done|]. split; [by apply cell_release_probe_wf|].
    done. }
  exists s'. split_and!; try done. injection Hf as <- _. intros (x & Hx & Hp). rewrite Hv in Hx.
  injection Hx as <-. done.
Qed.

Lemma failure_clears ts id c now cfg ra mh c' b : cell_wf c ->
  cell_record_failure ts id c now cfg ra mh = Some (c', b) -> BreakerCell.probe_in_flight c' = false.
Proof.
  intros [Hst Hpr _ _ _ _ _ _]. unfold cell_record_failure, failure_locked, cell_open_locked. cbn.
  destruct (Z.eqb_spec (BreakerCell.breaker_state c) ST_HALF_OPEN) as [Hh|Hh].
  - rewrite Hh. cbn. intros Hf. simplify_option_eq. done.
  - assert (BreakerCell.probe_in_flight c = false) as Hp
      by (destruct (BreakerCell.probe_in_flight c); [destruct Hh; by apply Hpr|done]).
    destruct (BreakerCell.breaker_state c =? ST_CLOSED).
    + intros Hf. repeat case_match; simplify_option_eq; done.
    + intros Hf. repeat case_match; simplify_option_eq; done.
Qed.

Lemma failure_calm env s pool lane now cfg ra :
  store_wf s -> in_range s lane -> is_u64 now -> cfg_ok cfg ->
  exists s' b, record_failure_for env s pool lane now cfg ra = Some (s', b) /\ calm s s' /\
    books s' = books s /\ (alive s lane -> ~ held s' pool lane).
Proof.
  intros Hwf Hr Hn Hcfg.
  destruct (record_failure_keeps env s pool lane now cfg ra Hwf Hr Hn Hcfg) as (s' & b & E & Hwf' & Hlen).
  exists s', b. split; [done|]. unfold record_failure_for in E.
  destruct (get_lane s lane) as [ls|] eqn:El; [|done]. destruct (LaneState.dead ls) eqn:Ed.
  { injection E as <- <-. split_and!; [by apply calm_refl|done|].
    intros (l & Hl & Hd). congruence. }
  destruct (on_cell_calm s pool lane (fun c => cell_record_failure (Env.now_nanos env pool lane)
    (Env.cell_addr env pool lane) c now cfg ra (max_honored_retry_after_secs s)) Hwf Hr)
    as (s1 & b1 & Eo & Hc & Hb & c & c' & _ & Hcw & Hf & Hv).
  { intros c Hc. destruct (failure_locked_total (Env.now_nanos env pool lane) (Env.cell_addr env pool lane)
      (failure_prologue c now) now cfg ra (max_honored_retry_after_secs s)) as [[c' b'] Hf];
      [by apply failure_prologue_wf|done|].
    exists c', b'. split; [exact Hf|]. split; [by eapply cell_record_failure_wf|].
    pose proof (failure_clears _ _ _ _ _ _ _ _ _ Hc Hf). congruence. }
  rewrite Eo in E. injection E as <- <-. pose proof (failure_clears _ _ _ _ _ _ _ _ _ Hcw Hf) as Hclr.
  assert (forall p l, held (if b1 then update_lane (if negb (String.eqb pool "") then update_lane s1 lane fetch_add_err else s1) lane
      (fun ls => LaneState.set_trips (wrap_u64 (LaneState.trips ls + 1)) now ls)
      else (if negb (String.eqb pool "") then update_lane s1 lane fetch_add_err else s1)) p l -> held s1 p l) as Hh.
  { intros p l. destruct b1, (negb _); rewrite ?update_held by done; done. }
  split; [split; [done|done|]|split].
  - intros p l Hx. apply (calm_held _ _ Hc), Hh, Hx.
  - destruct b1, (negb _); rewrite ?books_update by done; done.
  - intros _ Hx. apply Hh in Hx as (x & Hx & Hp). rewrite Hv in Hx. injection Hx as <-. congruence.
Qed.

Lemma success_clears c now : cell_wf c ->
  BreakerCell.probe_in_flight (cell_record_success c now).1 = false.
Proof.
  intros [Hst Hpr _ _ _ _ _ _]. unfold cell_record_success, cas_state.
  destruct (Z.eqb_spec (BreakerCell.breaker_state c) ST_HALF_OPEN) as [Hh|Hh].
  - rewrite Hh. cbn. by rewrite Hh.
  - assert (BreakerCell.probe_in_flight c = false) as Hp
      by (destruct (BreakerCell.probe_in_flight c); [destruct Hh; by apply Hpr|done]).
    apply Z.eqb_neq in Hh. destruct (negb _); cbn; rewrite Hh; done.
Qed.

Lemma reset_swrr_calm s pool lane : store_wf s -> in_range s lane ->
  exists s', reset_swrr_for s pool lane = Some s' /\ calm s s' /\ books s' = books s.
Proof.
  intros Hwf Hr. unfold reset_swrr_for.
  destruct (swrr_shard_same s pool Hwf) as (Hwf1 & Hl1 & Hv1).
  destruct (swrr_shard s pool) as [s1 sh] eqn:Es. cbn in *.
  destruct (on_cell_calm s1 pool lane (pure_op (fun c => (BreakerCell.set_weight 0 c, tt))) Hwf1)
    as (s2 & u & -> & [H1 H2 H3] & Hb & _).
  { unfold in_range. by rewrite Hl1. }
  { intros c Hc. exists (BreakerCell.set_weight 0 c), tt. split; [done|]. split; [by apply set_weight_wf|done]. }
  exists s2. split; [done|]. split; [|by rewrite Hb; apply books_lanes].
  split; [done|by rewrite H2, Hl1|]. intros p l Hh. apply H3 in Hh. unfold held in *. by rewrite <- Hv1.
Qed.

Lemma success_calm env s pool lane : store_wf s -> in_range s lane ->
  exists s', record_success_for env s pool lane = Some s' /\ calm s s' /\ books s' = books s /\
    (alive s lane -> ~ held s' pool lane).
Proof.
  intros Hwf Hr. unfold record_success_for. destruct (get_lane s lane) as [ls|] eqn:El;
    [|by apply lookup_ge_None in El; unfold in_range in Hr; lia].
  destruct (LaneState.dead ls) eqn:Ed.
  { eexists. split; [done|]. split_and!.
    - apply update_calm; [done|done|]. by apply update_lane_wf.
    - by apply books_update.
    - intros (l & Hl & Hd). congruence. }
  destruct (on_cell_calm s pool lane (pure_op (fun c => cell_record_success c (Env.now_secs env))) Hwf Hr)
    as (s1 & rec & -> & Hc & Hb & c & c' & _ & Hcw & Hf & Hv).
  { intros c Hc. eexists _, _. split; [unfold pure_op; by rewrite (surjective_pairing (cell_record_success _ _))|].
    split; [by apply cell_record_success_wf|]. by rewrite success_clears. }
  assert (~ held s1 pool lane) as Hn.
  { intros (x & Hx & Hp). rewrite Hv in Hx. injection Hx as <-. unfold pure_op in Hf.
    pose proof (success_clears c (Env.now_secs env) Hcw) as Hcl.
    destruct (cell_record_success c (Env.now_secs env)). injection Hf as <- <-. cbn in *. congruence. }
  pose proof (calm_range _ _ _ Hc Hr) as Hr1.
  assert (exists s2, (if rec then reset_swrr_for s1 pool lane else Some s1) = Some s2 /\ calm s1 s2 /\
    books s2 = books s1) as (s2 & -> & Hc2 & Hb2).
  { destruct rec; [by apply reset_swrr_calm; [apply Hc|]|]. exists s1. split; [done|].
    split; [apply calm_refl, Hc|done]. }
  eexists. split; [done|]. split_and!.
  - eapply calm_trans; [exact Hc|]. eapply calm_trans; [exact Hc2|].
    apply update_calm; [apply Hc2|done|]. apply update_lane_wf; [apply Hc2|done].
  - rewrite books_update by done. congruence.
  - intros _ Hx. apply Hn, (calm_held _ _ Hc2). by apply update_held in Hx.
Qed.

Lemma hard_down_calm env s lane reason : store_wf s -> in_range s lane -> is_u64 (Env.now_secs env) ->
  exists s' b, record_hard_down_all_cells env s lane reason = Some (s', b) /\ calm s s' /\
    books s' = books s /\ forall p, ~ held s' p lane.
Proof.
  intros Hwf Hr Hn. destruct (get_lane_Some s lane Hr) as [ls El].
  destruct (hard_down_all_keeps env s lane reason Hwf Hr Hn) as (s' & b & E & Hwf' & Hlen).
  exists s', b. split; [done|].
  destruct (hard_down_all_spec env s lane reason s' b ls El E) as (_ & Hl & Hoth & Hcells).
  assert (forall p, ~ held s' p lane) as Hnone.
  { intros p (x & Hx & Hp). unfold view in Hx. rewrite Hl, Hcells in Hx.
    destruct (String.eqb p ""); [by injection Hx as <-|].
    rewrite (assoc_map (fun c => hard_down_locked c (Env.now_secs env) (hard_down_cooldown_secs s))) in Hx.
    destruct (assoc p (lane_cells s lane)); cbn in Hx; injection Hx as <-; done. }
  split_and!; [| |done].
  - split; [done|done|]. intros p l Hh. destruct (decide (l = lane)) as [->|Hne]; [by apply Hnone in Hh|].
    destruct (Hoth l Hne) as [H1 H2]. unfold held, view in *. by rewrite H1, H2 in Hh.
  - unfold books. apply list_eq. intros i. rewrite !list_lookup_fmap.
    destruct (decide (i = lane)) as [->|Hne].
    + unfold get_lane in Hl, El. by rewrite Hl, El.
    + destruct (Hoth i Hne) as [H1 _]. unfold get_lane in H1. by rewrite H1.
Qed.

(** ** Counters, budget, reads and picks *)
Lemma client_fault_calm s lane : store_wf s -> in_range s lane ->
  exists s', record_client_fault s lane = Some s' /\ calm s s' /\ books s' = books s.
Proof.
  intros Hwf Hr. unfold record_client_fault. destruct (get_lane_Some s lane Hr) as [ls ->].
  eexists. split; [done|]. split; [|by apply books_update].
  apply update_calm; [done|done|]. by apply update_lane_wf.
Qed.

Lemma latency_calm s lane ms : store_wf s -> in_range s lane ->
  exists s', record_latency_in s lane ms = Some s' /\ calm s s' /\ books s' = books s.
Proof.
  intros Hwf Hr. unfold record_latency_in. destruct (get_lane_Some s lane Hr) as [ls ->].
  repeat case_match; (eexists; split; [done|]; split; [|try by apply books_update]);
    try (by apply calm_refl); try done.
  apply update_calm; [done|done|]. by apply update_lane_wf.
Qed.

Lemma cooldown_calm s pool lane now : store_wf s -> in_range s lane ->
  exists s' r, cooldown_remaining_for s pool lane now = Some (s', r) /\ calm s s' /\
    books s' = books s /\ 0 <= r.
Proof.
  intros Hwf Hr. unfold cooldown_remaining_for.
  destruct (cell_resolves s pool lane Hwf Hr) as (s1 & c & Hc & _). rewrite Hc.
  destruct (cell_quiet s pool lane s1 c Hwf Hr Hc) as (Hwf1 & Hr1 & Hcw & Hself & Hv & Hl & Hvv).
  eexists _, _. split; [done|]. split; [split; [done|by rewrite Hl|]|split; [by apply books_lanes|]].
  - intros p l Hh. unfold held in *. by rewrite <- Hvv.
  - unfold sat_sub_u64. lia.
Qed.

Lemma quiet_calm s s' : quiet s s' -> calm s s'.
Proof. intros [? ? _ _ Hb]. split; [done|done|]. by apply held_brk. Qed.

(** A dispatch may hold the probe of the dispatched cell, and no other. *)
Lemma dispatched_held s pool lane now s' p l :
  dispatched s pool lane now s' -> held s' p l -> (p = pool /\ l = lane) \/ held s p l.
Proof.
  intros [_ _ _ _ Ho] (c & Hc & Hp). destruct (decide (p = pool /\ l = lane)) as [?|Hne]; [by left|].
  right. specialize (Ho p l Hne). rewrite Hc in Ho. destruct (view s p l) as [c0|] eqn:E; [|done].
  injection Ho as Hb. unfold brk in Hb. exists c0. split; [done|]. congruence.
Qed.

(** *** The budget *)

(** One unit off a limited lane that has one. *)
Definition charged (lane : nat) (bk : list (Z * bool * bool)) : list (Z * bool * bool) :=
  alter (fun x => if x.1.2 && (0 <? x.1.1) then (x.1.1 - 1, x.1.2, x.2) else x) lane bk.

Lemma books_lookup s lane l : get_lane s lane = Some l ->
  books s !! lane = Some (LaneState.budget l, LaneState.limited l, LaneState.dead l).
Proof. unfold get_lane, books. intros E. by rewrite list_lookup_fmap, E. Qed.

Lemma charged_id lane bk x : bk !! lane = Some x -> x.1.2 && (0 <? x.1.1) = false ->
  charged lane bk = bk.
Proof.
  intros Hx Hf. unfold charged. apply list_eq. intros i. destruct (decide (lane = i)) as [<-|Hne].
  - by rewrite list_lookup_alter_eq, Hx; cbn; rewrite Hf.
  - by rewrite list_lookup_alter_ne.
Qed.

Lemma books_set_budget s lane (f : LaneState.t -> Z) :
  books (update_lane s lane (fun ls => LaneState.set_budget (f ls) ls)) =
    match get_lane s lane with
    | Some l => <[lane := (f l, LaneState.limited l, LaneState.dead l)]> (books s)
    | None => books s
    end.
Proof.
  unfold books, update_lane, set_lanes, get_lane. cbn [lanes]. apply list_eq. intros i.
  destruct (lanes s !! lane) as [l|] eqn:E.
  - destruct (decide (lane = i)) as [<-|Hne].
    + rewrite list_lookup_fmap, list_lookup_alter_eq, E. cbn.
      rewrite list_lookup_insert_eq; [done|]. rewrite length_fmap. by eapply lookup_lt_Some.
    + rewrite list_lookup_insert_ne by done. by rewrite !list_lookup_fmap, list_lookup_alter_ne.
  - rewrite !list_lookup_fmap. destruct (decide (lane = i)) as [<-|Hne].
    + by rewrite list_lookup_alter_eq, E.
    + by rewrite list_lookup_alter_ne.
Qed.

Lemma spend_calm s lane : store_wf s -> in_range s lane ->
  exists s' b, spend_budget s lane = Some (s', b) /\ calm s s' /\ books s' = charged lane (books s) /\
    (if b then exists x, books s !! lane = Some x /\ (x.1.2 = true -> 0 < x.1.1)
     else books s' = books s).
Proof.
  intros Hwf Hr. unfold spend_budget. destruct (get_lane_Some s lane Hr) as [l El]. rewrite El.
  pose proof (books_lookup s lane l El) as Hb.
  destruct (LaneState.limited l) eqn:Hlim; cbn [negb].
  - destruct (Z.leb_spec (LaneState.budget l) 0) as [Hle|Hgt].
    + eexists _, false. split; [done|]. split; [by apply calm_refl|]. split; [|done]. symmetry.
      eapply charged_id; [exact Hb|]. cbn. by rewrite (proj2 (Z.ltb_ge _ _) Hle).
    + eexists _, true. split; [done|]. split; [|split].
      * apply update_calm; [done|done|]. by apply update_lane_wf.
      * rewrite books_set_budget, El, Hlim. unfold charged. apply list_eq. intros i.
        destruct (decide (lane = i)) as [<-|Hne].
        -- rewrite list_lookup_insert_eq by (by eapply lookup_lt_Some).
           rewrite list_lookup_alter_eq, Hb. cbn. by rewrite (proj2 (Z.ltb_lt _ _) Hgt).
        -- by rewrite list_lookup_insert_ne, list_lookup_alter_ne.
      * eexists. split; [exact Hb|]. by intros _.
  - eexists _, true. split; [done|]. split; [by apply calm_refl|]. split.
    + symmetry. eapply charged_id; [exact Hb|]. done.
    + eexists. by split; [exact Hb|].
Qed.

Definition budgets_i64 (s : t) : Prop := Forall (fun x => is_i64 x.1.1) (books s).

(** A refund of a unit that was spent restores the books. *)
Lemma refund_calm s0 s lane : store_wf s -> in_range s lane -> budgets_i64 s0 ->
  books s = charged lane (books s0) ->
  (exists x, books s0 !! lane = Some x /\ (x.1.2 = true -> 0 < x.1.1)) ->
  exists s', refund_budget s lane = Some s' /\ calm s s' /\ books s' = books s0.
Proof.
  intros Hwf Hr Hi64 Hb ([[bu li] d] & Hx & Hpos). cbn in Hpos. unfold refund_budget.
  destruct (get_lane_Some s lane Hr) as [l El]. rewrite El.
  pose proof (books_lookup s lane l El) as Hl. rewrite Hb in Hl. unfold charged in Hl.
  rewrite list_lookup_alter_eq, Hx in Hl. cbn in Hl.
  destruct li; cbn in Hl.
  - rewrite (proj2 (Z.ltb_lt _ _) (Hpos eq_refl)) in Hl. injection Hl as Hbu Hli Hd.
    rewrite <- Hli. cbn [negb]. eexists. split; [done|]. split.
    + apply update_calm; [done|done|]. by apply update_lane_wf.
    + rewrite books_set_budget, El, <- Hbu, <- Hd, Hb. unfold charged.
      assert (is_i64 bu) as Hbi.
      { unfold budgets_i64 in Hi64. rewrite Forall_lookup in Hi64. exact (Hi64 _ _ Hx). }
      replace (wrap_i64 (bu - 1 + 1)) with bu by (rewrite Z.sub_add; by rewrite wrap_i64_id).
      apply list_eq. intros i. destruct (decide (lane = i)) as [<-|Hne].
      * rewrite list_lookup_insert_eq; [by rewrite Hx, <- Hli|].
        rewrite length_alter. by eapply lookup_lt_Some.
      * by rewrite list_lookup_insert_ne, list_lookup_alter_ne.
  - injection Hl as _ Hli _. rewrite <- Hli. cbn [negb]. eexists. split; [done|].
    split; [by apply calm_refl|]. rewrite Hb. eapply charged_id; [exact Hx|]. done.
Qed.

(** ** One attempt of the failover walk

    The specification [handled] of everything an attempt does after its lane was picked, and the
    proofs that the main path ([attempt]) and the degraded path ([forward_once]) meet it. *)

Import InMemoryStore.
Open Scope Z_scope.
Open Scope rust_scope.

(** A configuration over [N] lanes, as validated at start-up. *)
Record app_ok (app : AppCfg.t) (N : nat) : Prop := {
  ao_lanes : length (AppCfg.lanes app) = N;
  ao_breaker : forall pool, cfg_ok (resolve_breaker_cfg app pool);
  ao_fallback : forall pool members, AppCfg.fallback_pools app !! pool = Some members ->
    Forall (fun wl => (WeightedLane.idx wl < N)%nat) members }.

Record env_ok (env : WalkEnv.t) : Prop := {
  eo_now : forall n, is_u64 (Env.now_secs (WalkEnv.record env n));
  eo_clock : forall n, is_u64 (WalkEnv.clock env n) }.

(** The lane whose budget a response has been charged to. *)
Definition answered (r : Resp) : option nat :=
  match r with
  | RStream l _ | RDelivered l | RTooLarge l | RUntranslatable l | RUnsupported l => Some l
  | _ => None
  end.

Definition budget_effect (r : Step) (bk bk' : list (Z * bool * bool)) : Prop :=
  match r with
  | Again => bk' = bk
  | Done r => bk' = match answered r with Some l => charged l bk | None => bk end
  | Gone => bk' = bk \/ exists l, bk' = charged l bk
  end.

Record ctx_le (c c' : RequestCtx.t) : Prop := {
  cl_deadline : RequestCtx.deadline c' = RequestCtx.deadline c;
  cl_restricts : RequestCtx.active_restricts c' = RequestCtx.active_restricts c;
  cl_excluded : RequestCtx.excluded c ⊆ RequestCtx.excluded c';
  cl_visited : RequestCtx.visited_pools c ⊆ RequestCtx.visited_pools c' }.

#[export] Instance ctx_le_preorder : PreOrder ctx_le.
Proof.
  split; [by intros c; split|]. intros c1 c2 c3 [] []. split; [congruence|congruence|set_solver..].
Qed.

Lemma exclude_le c l : ctx_le c (RequestCtx.exclude c l).
Proof. split; cbn; set_solver. Qed.

Lemma visit_le c p : ctx_le c (RequestCtx.mark_pool_visited c p).
Proof. split; cbn; set_solver. Qed.

(** What an attempt on (pool, lane) may do. *)
Record handled (pool : string) (lane : nat) (w w' : Walk.t) (r : Step) : Prop := {
  h_calm : calm (Walk.st w) (Walk.st w');
  h_clear : alive (Walk.st w) lane -> r <> Gone -> ~ held (Walk.st w') pool lane;
  h_books : budget_effect r (books (Walk.st w)) (books (Walk.st w'));
  h_log : Walk.log w' = Walk.log w;
  h_ctx : ctx_le (Walk.ctx w) (Walk.ctx w') }.

Section Attempt.
Context (app : AppCfg.t) (env : WalkEnv.t) (ingress_protocol : string) (N : nat).
Hypothesis Happ : app_ok app N.
Hypothesis Henv : env_ok env.

Definition sound (w : Walk.t) : Prop :=
  store_wf (Walk.st w) /\ length (lanes (Walk.st w)) = N /\ budgets_i64 (Walk.st w).

Lemma sound_range w lane : sound w -> (lane < N)%nat -> in_range (Walk.st w) lane.
Proof. intros (_ & H & _). unfold in_range. by rewrite H. Qed.

Lemma lane_cfg lane : (lane < N)%nat -> exists l, AppCfg.lanes app !! lane = Some l.
Proof. intros H. apply lookup_lt_is_Some_2. by rewrite (ao_lanes _ _ Happ). Qed.

(** A change of the store that touches neither books nor context. *)
Lemma handled_st pool lane w s r :
  calm (Walk.st w) s -> books s = books (Walk.st w) ->
  (alive (Walk.st w) lane -> ~ held s pool lane) ->
  match r with Again | Gone => True | Done r => answered r = None end ->
  handled pool lane w (Walk.set_st s w) r.
Proof.
  intros Hc Hb Hh Hr. split; cbn; [done|auto| |done|reflexivity].
  destruct r as [|r|]; cbn; [done|by rewrite Hr|by left].
Qed.

Lemma release_handled pool lane w r : sound w -> (lane < N)%nat ->
  match r with Again | Gone => True | Done r => answered r = None end ->
  exists w', release pool lane w = Some w' /\ handled pool lane w w' r.
Proof.
  intros Hw Hl Hr. pose proof (sound_range w lane Hw Hl) as Hin. destruct Hw as (Hwf & _ & _).
  unfold release, store_op. destruct (release_calm _ pool lane Hwf Hin) as (s & -> & Hc & Hb & Hh).
  eexists. split; [done|]. by apply handled_st.
Qed.

Lemma release_done pool lane w r : sound w -> (lane < N)%nat -> answered r = None ->
  exists w' r', (let? w := release pool lane w in Some (w, Done r)) = Some (w', r') /\
    handled pool lane w w' r'.
Proof.
  intros Hw Hl Hr. destruct (release_handled pool lane w (Done r) Hw Hl Hr) as (w' & -> & Hh).
  by eexists _, _.
Qed.

Lemma failure_handled n pool lane now ra w r : sound w -> (lane < N)%nat -> is_u64 now ->
  match r with Again | Gone => True | Done r => answered r = None end ->
  exists w', record_failure app env n pool lane now ra w = Some w' /\ handled pool lane w w' r.
Proof.
  intros Hw Hl Hn Hr. pose proof (sound_range w lane Hw Hl) as Hin. destruct Hw as (Hwf & _ & _).
  unfold record_failure, store_op.
  destruct (failure_calm (WalkEnv.record env n) _ pool lane now _ ra Hwf Hin Hn (ao_breaker _ _ Happ pool))
    as (s & b & -> & Hc & Hb & Hh).
  eexists. split; [done|]. by apply handled_st.
Qed.

Lemma handled_again_sound pool lane w w' : sound w -> handled pool lane w w' Again -> sound w'.
Proof.
  intros (_ & Hl & Hb) [Hc _ Hk _ _]. cbn in Hk. split_and!; [apply Hc|by rewrite (calm_len _ _ Hc)|].
  unfold budgets_i64. by rewrite Hk.
Qed.

(** Two steps on the same lane, the first charging nothing. *)
Lemma handled_trans pool lane w1 w2 w3 r :
  handled pool lane w1 w2 Again -> handled pool lane w2 w3 r -> handled pool lane w1 w3 r.
Proof.
  intros [C1 H1 B1 L1 X1] [C2 H2 B2 L2 X2]. cbn in B1. split.
  - by eapply calm_trans.
  - intros Ha Hr. apply H2; [by eapply books_alive|done].
  - by rewrite <- B1.
  - congruence.
  - by etrans.
Qed.

(** [Again] is what an intermediate step does. *)
Lemma handled_weaken pool lane w w' r :
  handled pool lane w w' Again -> match r with Again | Gone => True | Done r => answered r = None end ->
  handled pool lane w w' r.
Proof.
  intros [C H B L X] Hr. split; try done; [intros Ha _; by apply H|]. cbn in B.
  destruct r as [|r|]; cbn; [done|by rewrite Hr|by left].
Qed.

Lemma on_success_spec n pool lane cross is_sse ms body w : sound w -> (lane < N)%nat ->
  exists w' r, on_success app env n pool lane cross is_sse ms body w = Some (w', r) /\
    handled pool lane w w' r /\ r <> Again.
Proof.
  intros Hw Hl. pose proof (sound_range w lane Hw Hl) as Hin. destruct Hw as (Hwf & HN & Hi).
  unfold on_success, record_2xx.
  destruct (success_calm (WalkEnv.record env n) _ pool lane Hwf Hin) as (s1 & -> & C1 & B1 & H1).
  destruct (latency_calm s1 lane ms (calm_wf _ _ C1) (calm_range _ _ _ C1 Hin)) as (s2 & -> & C2 & B2).
  pose proof (calm_trans _ _ _ C1 C2) as C12. pose proof (calm_range _ _ _ C12 Hin) as Hin2.
  destruct (spend_calm s2 lane (calm_wf _ _ C12) Hin2) as (s3 & b & -> & C3 & B3 & Hb).
  rewrite B2, B1 in B3, Hb. pose proof (calm_trans _ _ _ C12 C3) as C13.
  assert (alive (Walk.st w) lane -> ~ held s3 pool lane) as Hclear.
  { intros Ha Hx. apply (H1 Ha). apply (calm_held _ _ C2), (calm_held _ _ C3), Hx. }
  assert (forall r, answered r = Some lane -> handled pool lane w (Walk.set_st s3 w) (Done r)) as Hdone.
  { intros r Hr. split; cbn; [done|auto|by rewrite Hr|done|reflexivity]. }
  destruct (cross && negb is_sse); [|eexists _, _; split; [done|]; split; [by apply Hdone|done]].
  destruct body; try (eexists _, _; split; [done|]; split; [by apply Hdone|done]).
  - unfold record_transient, record_failure, store_op. cbn [Walk.st Walk.set_st].
    pose proof (calm_range _ _ _ C3 Hin2) as Hin3.
    destruct (failure_calm (WalkEnv.record env n) s3 pool lane (Env.now_secs (WalkEnv.record env n)) _ None
      (calm_wf _ _ C3) Hin3 (eo_now _ Henv n) (ao_breaker _ _ Happ pool)) as (s4 & b4 & -> & C4 & B4 & H4).
    cbn [fmap option_fmap option_map fst]. pose proof (calm_trans _ _ _ C13 C4) as C14.
    assert (exists s5, (if b then let? s := refund_budget s4 lane in Some (Walk.set_st s (Walk.set_st s4 (Walk.set_st s3 w)))
      else Some (Walk.set_st s4 (Walk.set_st s3 w))) = Some (Walk.set_st s5 w) /\ calm s4 s5 /\
      books s5 = books (Walk.st w)) as (s5 & E5 & C5 & B5).
    { destruct b; [|exists s4; split; [done|]; split; [apply calm_refl, C4|by rewrite B4]].
      destruct (refund_calm (Walk.st w) s4 lane (calm_wf _ _ C4) (calm_range _ _ _ C4 Hin3) Hi) as (s5 & -> & C5 & B5);
        [by rewrite B4|done|]. by exists s5. }
    cbn [Walk.st Walk.set_st] in *. rewrite E5. eexists _, _. split; [done|]. split; [|done].
    apply handled_st; [by eapply calm_trans|done| |done].
    intros Ha Hx. apply (Hclear Ha), (calm_held _ _ C4), (calm_held _ _ C5), Hx.
  - eexists _, _. split; [done|]. split; [|done]. split; cbn; [done|done|right; by exists lane|done|reflexivity].
Qed.

Lemma exclude_smaller_spec failed cands c : Forall (fun wl => (WeightedLane.idx wl < N)%nat) cands ->
  exists c', exclude_smaller app failed cands c = Some c' /\ ctx_le c c'.
Proof.
  unfold exclude_smaller. revert c. induction cands as [|wl cands IH]; intros c HF; cbn [foldl]; [by exists c|].
  apply Forall_cons in HF as [Hl HF]. destruct (lane_cfg _ Hl) as [l ->].
  destruct (LaneCfg.context_max l) as [cm|]; [|by apply IH]. destruct failed as [f|]; [|by apply IH].
  destruct (cm <=? f); [|by apply IH].
  destruct (IH (RequestCtx.exclude c (WeightedLane.idx wl)) HF) as (c' & -> & Hc).
  exists c'. split; [done|]. etrans; [apply exclude_le|exact Hc].
Qed.

(** A change of context or of the warnings already given, then a step. *)
Lemma handled_frame pool lane w0 w w' r :
  Walk.st w0 = Walk.st w -> Walk.log w0 = Walk.log w -> ctx_le (Walk.ctx w0) (Walk.ctx w) ->
  handled pool lane w w' r -> handled pool lane w0 w' r.
Proof.
  intros Hs Hl Hc [C H B L X]. split; [by rewrite Hs|by rewrite Hs|by rewrite Hs|congruence|by etrans].
Qed.

Lemma on_disposition_spec n cands pool lane l status sig w :
  sound w -> (lane < N)%nat -> Forall (fun wl => (WeightedLane.idx wl < N)%nat) cands ->
  exists w' r, on_disposition app env ingress_protocol n cands pool lane l status sig w = Some (w', r) /\
    handled pool lane w w' r.
Proof.
  intros Hw Hl HF. pose proof (sound_range w lane Hw Hl) as Hin. unfold on_disposition.
  destruct (classify sig).
  - unfold store_op. pose proof Hw as (Hwf & HN & Hi).
    destruct (client_fault_calm (Walk.st w) lane Hwf Hin) as (s & -> & C & B).
    assert (sound (Walk.set_st s w)) as Hw1.
    { split_and!; cbn; [apply C|by rewrite (calm_len _ _ C)|]. unfold budgets_i64. by rewrite B. }
    destruct (release_handled pool lane (Walk.set_st s w)
      (Done (if String.eqb ingress_protocol (LaneCfg.protocol l) then RRelay lane status
             else RClientFault lane status (class sig))) Hw1 Hl) as (w' & -> & [C2 H2 B2 L2 X2]);
      [by destruct (String.eqb _ _)|].
    eexists _, _. split; [done|]. split; [by eapply calm_trans| | |done|done].
    + intros Ha Hr. apply H2; [by eapply books_alive|done].
    + cbn [Walk.st Walk.set_st] in B2. by rewrite B in B2.
  - set (now := if bool_decide _ then _ else _).
    assert (is_u64 now) as Hn by (unfold now; case_bool_decide; apply Henv).
    destruct (failure_handled n pool lane now (retry_after sig) w Again Hw Hl Hn) as (w' & -> & Hh); [done|].
    by eexists _, _.
  - unfold store_op. pose proof Hw as (Hwf & _ & _).
    destruct (hard_down_calm (WalkEnv.record env n) (Walk.st w) lane (hard_down_reason (class sig) status) Hwf Hin
      (eo_now _ Henv n)) as (s & b & -> & C & B & H).
    eexists _, _. split; [done|]. apply handled_st; [done|done|auto|by case_bool_decide].
  - destruct (exclude_smaller_spec (LaneCfg.context_max l) cands (Walk.ctx w) HF) as (c & -> & Hc).
    destruct (release_handled pool lane (Walk.set_ctx c w) Again Hw Hl) as (w' & -> & Hh); [done|].
    eexists _, _. split; [done|]. by eapply handled_frame; [..|exact Hh].
Qed.

Lemma on_non_success_spec n cands pool lane l status raw ra w :
  sound w -> (lane < N)%nat -> Forall (fun wl => (WeightedLane.idx wl < N)%nat) cands ->
  exists w' r, on_non_success app env ingress_protocol n cands pool lane l status raw ra w = Some (w', r) /\
    handled pool lane w w' r.
Proof.
  intros Hw Hl HF. unfold on_non_success. destruct (_ && _).
  - destruct (release_handled pool lane w (Done (if String.eqb ingress_protocol (LaneCfg.protocol l)
      then RRelay lane status else RReshaped lane status)) Hw Hl) as (w' & -> & Hh); [by destruct (String.eqb _ _)|].
    by eexists _, _.
  - destruct (normalize_raw_error _ _ _) as [sig ws].
    destruct (on_disposition_spec n cands pool lane l status sig (Walk.set_warns ws w) Hw Hl HF)
      as (w' & r & -> & Hh).
    eexists _, _. split; [done|]. by eapply handled_frame; [..|exact Hh].
Qed.

Lemma attempt_spec n cands pool lane w :
  sound w -> (lane < N)%nat -> Forall (fun wl => (WeightedLane.idx wl < N)%nat) cands ->
  exists w' r, attempt app env ingress_protocol n cands pool lane w = Some (w', r) /\
    handled pool lane (Walk.attempting pool lane w) w' r.
Proof.
  intros Hw Hl HF. unfold attempt. destruct (lane_cfg lane Hl) as [l ->].
  assert (sound (Walk.attempting pool lane w)) as Hw1 by exact Hw.
  set (w1 := Walk.attempting pool lane w) in *. clearbody w1. clear w Hw.
  destruct (WalkEnv.prep env n lane);
    try by apply release_done.
  destruct (WalkEnv.send env n lane _).
  1,2: destruct (failure_handled n pool lane (Env.now_secs (WalkEnv.record env n)) None w1 Again Hw1 Hl
         (eo_now _ Henv n)) as (w' & Hf & Hh); [done|]; unfold record_transient; rewrite Hf; by eexists _, _.
  - by apply on_non_success_spec.
  - destruct (on_success_spec n pool lane (negb (String.eqb ingress_protocol (LaneCfg.protocol l)))
      is_sse latency_ms body w1 Hw1 Hl) as (w' & r & -> & Hh & _). by eexists _, _.
  - eexists _, _. split; [done|]. split; [apply calm_refl, Hw1|done|by left|done|reflexivity].
Qed.

Lemma forward_once_spec n pool lane w : sound w -> (lane < N)%nat ->
  exists w' r, forward_once app env ingress_protocol n pool lane w = Some (w', r) /\ handled pool lane w w' r.
Proof.
  intros Hw Hl. unfold forward_once. destruct (lane_cfg lane Hl) as [l ->]. cbv zeta.
  destruct (WalkEnv.prep env n lane);
    try by apply release_done.
  set (cap := option_map _ _). clearbody cap.
  destruct (failure_handled n pool lane (Env.now_secs (WalkEnv.record env n)) None w Again Hw Hl
         (eo_now _ Henv n)) as (w1 & Hf & Hh); [done|].
  pose proof (handled_again_sound _ _ _ _ Hw Hh) as Hw1. unfold record_transient.
  destruct (WalkEnv.send env n lane cap).
  - rewrite Hf. destruct cap; [|by eexists _, _].
    destruct (release_handled pool lane w1 Again Hw1 Hl) as (w2 & -> & Hh2); [done|].
    eexists _, _. split; [done|]. by eapply handled_trans.
  - rewrite Hf. by eexists _, _.
  - rewrite Hf. destruct (release_handled pool lane w1 (Done (if String.eqb ingress_protocol (LaneCfg.protocol l)
      then RRelay lane status else RReshaped lane status)) Hw1 Hl) as (w2 & -> & Hh2); [by destruct (String.eqb _ _)|].
    eexists _, _. split; [done|]. by eapply handled_trans.
  - destruct (on_success_spec n pool lane (negb (String.eqb ingress_protocol (LaneCfg.protocol l)))
      is_sse latency_ms body w Hw Hl) as (w' & r & -> & Hh' & _). by eexists _, _.
  - eexists _, _. split; [done|]. split; [apply calm_refl, Hw|done|by left|done|reflexivity].
Qed.
End Attempt.
