(* ===== verification/WalkProps.v ===== *)
(** * The whole failover walk

    The specification [seg] of a stretch of the walk, closed under composition, and the proofs that
    the exhaustion modes, the chain of fallback pools and the primary loop meet it and return. *)
From stdpp Require Import base gmap list strings sets.
From Stdlib Require Import ZArith Lia.
From stdpp Require Import base gmap list strings.
From Stdlib Require Import ZArith Lia SpecFloat.
From S2P Require Import Prelude Breaker Cell BreakerConfig CellFacts Swrr Store StoreFacts StoreProps.
From S2P Require Import Select SelectProps Walk WalkSteps.
From S2P Require Import StoreProps.

Import InMemoryStore.
Open Scope Z_scope.
Open Scope rust_scope.

(** The restricts in force that fail closed hold for the lane in this pool. *)
Definition permitted (app : AppCfg.t) (rs : list RestrictConstraint.t) (pool : string) (lane : nat) : Prop :=
  exists wl, WeightedLane.idx wl = lane /\
    Forall (fun r => RestrictConstraint.on_empty r = Weighted \/
                     carries_tag (AppCfg.members app !! pool) r wl = true) rs.

(** The attempts of a stretch: on lanes not tried before, each tried once and then excluded, allowed
    in its pool, and started before the deadline. *)
Record picks (app : AppCfg.t) (env : WalkEnv.t) (N : nat) (w w' : Walk.t) (tried : list (string * nat)) : Prop := {
  p_once : NoDup tried.*2;
  p_new : Forall (fun x => x.2 ∉ RequestCtx.excluded (Walk.ctx w) /\
                           x.2 ∈ RequestCtx.excluded (Walk.ctx w') /\ (x.2 < N)%nat) tried;
  p_allowed : Forall (fun x => permitted app (RequestCtx.active_restricts (Walk.ctx w)) x.1 x.2) tried;
  p_time : forall k, (k < length tried)%nat ->
    WalkEnv.clock env (Walk.tick w + k) < RequestCtx.deadline (Walk.ctx w) }.

Record seg (app : AppCfg.t) (env : WalkEnv.t) (N : nat) (w w' : Walk.t) (r : Step) : Prop := {
  s_wf : store_wf (Walk.st w');
  s_len : length (lanes (Walk.st w')) = length (lanes (Walk.st w));
  s_held : exists q : option (string * nat), (r <> Gone -> q = None) /\
    forall p l, held (Walk.st w') p l -> held (Walk.st w) p l \/ q = Some (p, l);
  s_books : budget_effect r (books (Walk.st w)) (books (Walk.st w'));
  s_ctx : ctx_le (Walk.ctx w) (Walk.ctx w');
  s_log : exists tried last, Walk.log w' = Walk.log w ++ tried ++ last /\ picks app env N w w' tried /\
    (length last <= 1)%nat /\ (r = Again -> last = []) /\
    Forall (fun x => permitted app (RequestCtx.active_restricts (Walk.ctx w)) x.1 x.2) last }.

Section Run.
Context (app : AppCfg.t) (env : WalkEnv.t) (ingress_protocol : string) (N : nat).
Hypothesis Happ : app_ok app N.
Hypothesis Henv : env_ok env.
Notation seg := (seg app env N).
Notation picks := (picks app env N).
Notation sound := (sound N).

Lemma picks_nil w w' : picks w w' [].
Proof. split; [constructor..|]. cbn. lia. Qed.

Lemma picks_app w1 w2 w3 t1 t2 : ctx_le (Walk.ctx w1) (Walk.ctx w2) -> ctx_le (Walk.ctx w2) (Walk.ctx w3) ->
  Walk.log w2 = Walk.log w1 ++ t1 -> picks w1 w2 t1 -> picks w2 w3 t2 -> picks w1 w3 (t1 ++ t2).
Proof.
  intros [D1 R1 X1 _] [D2 R2 X2 _] Hl [O1 N1 A1 T1] [O2 N2 A2 T2]. split.
  - rewrite fmap_app. apply NoDup_app. split; [done|]. split; [|done].
    intros x (y & -> & Hy)%list_elem_of_fmap (z & Ez & Hz)%list_elem_of_fmap.
    rewrite Forall_forall in N1, N2. destruct (N1 _ Hy) as (_ & Hin & _), (N2 _ Hz) as (Hno & _).
    apply Hno. by rewrite <- Ez.
  - apply Forall_app. split; [eapply Forall_impl; [exact N1|]|eapply Forall_impl; [exact N2|]];
      intros x (? & ? & ?); split_and!; auto.
  - apply Forall_app. split; [done|]. by rewrite R1 in A2.
  - intros k Hk. destruct (decide (k < length t1)%nat) as [Hlt|Hge]; [by apply T1|].
    rewrite length_app in Hk. specialize (T2 (k - length t1)%nat ltac:(lia)).
    unfold Walk.tick in *. rewrite Hl, length_app, D1 in T2.
    by replace (length (Walk.log w1) + length t1 + (k - length t1))%nat
      with (length (Walk.log w1) + k)%nat in T2 by lia.
Qed.

Lemma seg_trans w1 w2 w3 r : seg w1 w2 Again -> seg w2 w3 r -> seg w1 w3 r.
Proof.
  intros [W1 L1 (q1 & Q1 & H1) B1 C1 (t1 & l1 & G1 & P1 & _ & E1 & _)]
         [W2 L2 (q2 & Q2 & H2) B2 C2 (t2 & l2 & G2 & P2 & M2 & E2 & A2)].
  rewrite (E1 eq_refl), app_nil_r in G1. rewrite (Q1 ltac:(done)) in H1. split.
  - done.
  - congruence.
  - exists q2. split; [done|]. intros p l Hh. destruct (H2 p l Hh) as [Hh'|?]; [|by right].
    destruct (H1 p l Hh') as [?|?]; [by left|done].
  - cbn in B1. by rewrite <- B1.
  - by etrans.
  - exists (t1 ++ t2), l2. split; [by rewrite G2, G1, <- !(assoc_L (++))|].
    split; [by eapply picks_app|]. split; [done|]. split; [done|]. by rewrite (cl_restricts _ _ C1) in A2.
Qed.

(** A stretch without an attempt and without a charge. *)
Lemma seg_calm w w' r :
  calm (Walk.st w) (Walk.st w') -> books (Walk.st w') = books (Walk.st w) -> Walk.log w' = Walk.log w ->
  ctx_le (Walk.ctx w) (Walk.ctx w') ->
  match r with Again | Gone => True | Done r => answered r = None end -> seg w w' r.
Proof.
  intros Hc Hb Hl Hx Hr. split; [apply Hc|apply Hc| | |done|].
  - exists None. split; [done|]. intros p l Hh. left. by apply (calm_held _ _ Hc).
  - destruct r as [|r|]; cbn; [done|by rewrite Hr|by left].
  - exists [], []. rewrite app_nil_r. split; [done|]. split; [apply picks_nil|]. split; [cbn; lia|]. by split.
Qed.

Lemma seg_ctx_step w c : sound w -> ctx_le (Walk.ctx w) c -> seg w (Walk.set_ctx c w) Again.
Proof. intros Hw Hc. apply seg_calm; try done. cbn. apply calm_refl, Hw. Qed.

Lemma seg_sound w w' : sound w -> seg w w' Again -> sound w'.
Proof.
  intros (_ & Hl & Hb) Hs. split_and!; [apply Hs|by rewrite (s_len _ _ _ _ _ _ Hs)|].
  unfold budgets_i64. pose proof (s_books _ _ _ _ _ _ Hs) as E. cbn in E. by rewrite E.
Qed.

(** ** Picks *)
Definition cands_ok (w : Walk.t) (pool : string) (cands : list WeightedLane.t) : Prop :=
  Forall (fun wl => (WeightedLane.idx wl < N)%nat /\
    permitted app (RequestCtx.active_restricts (Walk.ctx w)) pool (WeightedLane.idx wl)) cands.

Lemma cands_ok_le w w' pool cands :
  ctx_le (Walk.ctx w) (Walk.ctx w') -> cands_ok w pool cands -> cands_ok w' pool cands.
Proof. intros Hc. unfold cands_ok. by rewrite (cl_restricts _ _ Hc). Qed.

Lemma cands_range w pool cands : cands_ok w pool cands -> Forall (fun wl => (WeightedLane.idx wl < N)%nat) cands.
Proof. intros H. eapply Forall_impl; [exact H|]. by intros x [? _]. Qed.

Lemma cands_in_range w pool cands : sound w -> cands_ok w pool cands ->
  Forall (fun wl => in_range (Walk.st w) (WeightedLane.idx wl)) cands.
Proof.
  intros (_ & Hl & _) HF. eapply Forall_impl; [exact (cands_range _ _ _ HF)|]. intros x. unfold in_range.
  by rewrite Hl.
Qed.

(** A picked and handled lane makes a stretch of one attempt. *)
Lemma seg_attempt w cands pool lane s now w' r :
  sound w -> cands_ok w pool cands -> RequestCtx.expired (Walk.ctx w) (WalkEnv.clock env (Walk.tick w)) = false ->
  (exists wl, wl ∈ cands /\ WeightedLane.idx wl = lane) -> lane ∉ RequestCtx.excluded (Walk.ctx w) ->
  dispatched (Walk.st w) pool lane now s ->
  handled pool lane (Walk.attempting pool lane (Walk.set_st s w)) w' r -> seg w w' r.
Proof.
  intros Hw Hok Hexp (wl & Hin & <-) Hx Hd [C H B L X]. cbn in C, H, B, L.
  unfold cands_ok in Hok. rewrite Forall_forall in Hok. destruct (Hok wl Hin) as [Hr Hp].
  pose proof (d_books _ _ _ _ _ Hd) as Hb. split; [apply C|rewrite (calm_len _ _ C); by apply books_length| | | |].
  - exists (match r with Gone => Some (pool, WeightedLane.idx wl) | _ => None end).
    split; [by destruct r|]. intros p l Hh.
    destruct (dispatched_held _ _ _ _ _ p l Hd (calm_held _ _ C p l Hh)) as [[-> ->]|?]; [|by left].
    right. destruct r; [exfalso|exfalso|done]; apply H; try done.
    all: eapply books_alive; [exact Hb|]; apply admissible_alive, Hd.
  - by rewrite <- Hb.
  - etrans; [|exact X]. apply exclude_le.
  - exists [(pool, WeightedLane.idx wl)], []. rewrite app_nil_r. split; [done|]. split; [|split; [cbn; lia|by split]].
    split.
    + apply NoDup_singleton.
    + apply Forall_singleton. split_and!; [done| |done]. apply (cl_excluded _ _ X). cbn. set_solver.
    + by apply Forall_singleton.
    + intros k Hk. cbn in Hk. replace k with 0%nat by lia. rewrite Nat.add_0_r. by apply Z.leb_gt.
Qed.

Lemma seg_pick_none w s r : sound w -> quiet (Walk.st w) s ->
  match r with Again | Gone => True | Done r => answered r = None end -> seg w (Walk.set_st s w) r.
Proof.
  intros Hw Hq Hr. apply seg_calm; [by apply quiet_calm|apply Hq|done|reflexivity|done].
Qed.

(** ** Exhaustion without an attempt *)
Lemma find_soonest_spec w cands now pool soonest best : sound w ->
  Forall (fun wl => (WeightedLane.idx wl < N)%nat) cands ->
  exists s r, find_soonest_from w cands now pool soonest best = Some (Walk.set_st s w, r) /\
    calm (Walk.st w) s /\ books s = books (Walk.st w) /\
    (r = soonest \/ exists wl, wl ∈ cands /\ r = Some (WeightedLane.idx wl)).
Proof.
  revert w soonest best. induction cands as [|wl cands IH]; intros w soonest best Hw HF; cbn [find_soonest_from].
  { exists (Walk.st w), soonest. split; [by destruct w|]. split; [apply calm_refl, Hw|]. by split; [|left]. }
  apply Forall_cons in HF as [Hl HF]. pose proof (sound_range _ w _ Hw Hl) as Hin. pose proof Hw as (Hwf & HN & Hi).
  destruct (cooldown_calm (Walk.st w) pool (WeightedLane.idx wl) now Hwf Hin) as (s & rem & -> & C & B & _).
  assert (sound (Walk.set_st s w)) as Hw1.
  { split_and!; cbn; [apply C|by rewrite (calm_len _ _ C)|]. unfold budgets_i64. by rewrite B. }
  destruct (rem <? best).
  - destruct (IH (Walk.set_st s w) (Some (WeightedLane.idx wl)) rem Hw1 HF) as (s' & r & E & C' & B' & Hr).
    exists s', r. split; [exact E|]. split; [by eapply calm_trans|]. split; [by rewrite B', <- B|]. right.
    destruct Hr as [->|(x & Hx & ->)]; [exists wl|exists x]; rewrite elem_of_cons; auto.
  - destruct (IH (Walk.set_st s w) soonest best Hw1 HF) as (s' & r & E & C' & B' & Hr).
    exists s', r. split; [exact E|]. split; [by eapply calm_trans|]. split; [by rewrite B', <- B|].
    destruct Hr as [->|(x & Hx & ->)]; [by left|right; exists x; rewrite elem_of_cons; auto].
Qed.

Lemma status_503_calm w cands now pool : sound w ->
  Forall (fun wl => (WeightedLane.idx wl < N)%nat) cands ->
  exists w' ra, handle_status_503 w cands now pool = Some (w', Done (RUnavailable ra)) /\ 1 <= ra /\
    calm (Walk.st w) (Walk.st w') /\ books (Walk.st w') = books (Walk.st w) /\ Walk.log w' = Walk.log w /\
    Walk.ctx w' = Walk.ctx w.
Proof.
  intros Hw HF. unfold handle_status_503, find_soonest_cooldown.
  destruct (find_soonest_spec w cands now pool None U64_MAX Hw HF) as (s & r & -> & C & B & Hr).
  destruct r as [i|]; [|eexists _, _; split; [done|]; split; [lia|done]].
  destruct Hr as [|(wl & Hwl & [= ->])]; [done|]. rewrite Forall_forall in HF.
  destruct (cooldown_calm s pool (WeightedLane.idx wl) now (calm_wf _ _ C)) as (s' & rem & E & C' & B' & _).
  { eapply calm_range; [exact C|]. eapply sound_range; [exact Hw|]. by apply HF. }
  cbn [Walk.st Walk.set_st] in *. rewrite E. eexists _, _. split; [done|]. split; [lia|].
  split; [by eapply calm_trans|]. cbn. by split; [rewrite B', B|].
Qed.

(** ** The last resort: one more attempt, on the lane that recovers first *)
Lemma seg_last w pool lane w' r : sound w -> r <> Again ->
  permitted app (RequestCtx.active_restricts (Walk.ctx w)) pool lane ->
  handled pool lane (Walk.mk (Walk.st w) (Walk.ctx w) (Walk.warns w) (Walk.log w ++ [(pool, lane)])) w' r ->
  seg w w' r.
Proof.
  intros Hw Hr Hp [C H B L X]. cbn in C, H, B, L. split; [apply C|apply C| |done|exact X|].
  - exists None. split; [done|]. intros p l Hh. left. by apply (calm_held _ _ C).
  - exists [], [(pool, lane)]. split; [done|]. split; [apply picks_nil|]. split; [done|].
    split; [done|]. by apply Forall_singleton.
Qed.

(** A last attempt that failed, and what follows without another. *)
Lemma seg_last_more w pool lane w1 w2 r : sound w ->
  permitted app (RequestCtx.active_restricts (Walk.ctx w)) pool lane ->
  handled pool lane (Walk.mk (Walk.st w) (Walk.ctx w) (Walk.warns w) (Walk.log w ++ [(pool, lane)])) w1 Again ->
  calm (Walk.st w1) (Walk.st w2) -> books (Walk.st w2) = books (Walk.st w1) -> Walk.log w2 = Walk.log w1 ->
  ctx_le (Walk.ctx w1) (Walk.ctx w2) -> r <> Again ->
  match r with Again | Gone => True | Done r => answered r = None end -> seg w w2 r.
Proof.
  intros Hw Hp [C H B L X] C2 B2 L2 X2 Hne Hr. eapply seg_last; [done|done|exact Hp|]. split.
  - by eapply calm_trans.
  - intros Ha Hg Hx. eapply H; [exact Ha|done|]. by apply (calm_held _ _ C2).
  - cbn in B. destruct r as [|r|]; cbn; [done|by rewrite Hr, B2|left; by rewrite B2].
  - congruence.
  - by etrans.
Qed.

(** The result of a stretch that ends the request. *)
Definition ends (w : Walk.t) (o : option (Walk.t * Step)) : Prop :=
  exists w' r, o = Some (w', r) /\ r <> Again /\ seg w w' r.

Lemma ends_trans w1 w2 o : seg w1 w2 Again -> ends w2 o -> ends w1 o.
Proof. intros Hs (w' & r & -> & Hr & Hs'). exists w', r. split_and!; [done|done|]. by eapply seg_trans. Qed.

Lemma ends_503 w cands now pool : sound w -> Forall (fun wl => (WeightedLane.idx wl < N)%nat) cands ->
  ends w (handle_status_503 w cands now pool).
Proof.
  intros Hw HF. destruct (status_503_calm w cands now pool Hw HF) as (w' & ra & -> & _ & C & B & L & X).
  eexists _, _. split; [done|]. split; [done|]. apply seg_calm; try done. by rewrite X.
Qed.

Lemma ends_now w r : sound w -> answered r = None -> ends w (Some (w, Done r)).
Proof.
  intros Hw Hr. eexists _, _. split; [done|]. split; [done|]. apply seg_calm; try done. apply calm_refl, Hw.
Qed.

Lemma ends_least_bad n w cands now pool : sound w -> cands_ok w pool cands ->
  ends w (handle_least_bad app env ingress_protocol n w cands now pool).
Proof.
  intros Hw Hok. pose proof (cands_range _ _ _ Hok) as HF. unfold handle_least_bad, find_soonest_cooldown.
  destruct (find_soonest_spec w cands now pool None U64_MAX Hw HF) as (s & r & -> & C & B & Hr).
  assert (seg w (Walk.set_st s w) Again) as Hs by (by apply seg_calm).
  pose proof (seg_sound _ _ Hw Hs) as Hw1. eapply ends_trans; [exact Hs|].
  destruct r as [i|]; [|by apply ends_503]. destruct Hr as [|(wl & Hwl & [= ->])]; [done|].
  assert (cands_ok (Walk.set_st s w) pool cands) as Hok1 by done.
  unfold cands_ok in Hok1. rewrite Forall_forall in Hok1. destruct (Hok1 wl Hwl) as [Hl Hp].
  set (w1 := Walk.set_st s w) in *. clearbody w1. clear Hs Hok Hok1.
  unfold try_acquire. destruct (get_lane_Some (Walk.st w1) (WeightedLane.idx wl)) as [ls ->];
    [by eapply sound_range|].
  destruct (if _ <=? _ then _ else _); [|by apply ends_503].
  set (w2 := Walk.mk _ _ _ _). assert (sound w2) as Hw2 by exact Hw1.
  destruct (forward_once_spec app env ingress_protocol N Happ Henv n pool (WeightedLane.idx wl) w2 Hw2 Hl)
    as (w3 & r & -> & Hh).
  assert (r = Again \/ r <> Again) as [->|Hne] by (destruct r; auto; by right).
  - pose proof (handled_again_sound N _ _ _ _ Hw2 Hh) as Hw3.
    destruct (status_503_calm w3 cands now pool Hw3 HF) as (w' & ra & -> & _ & C' & B' & L' & X').
    eexists _, _. split; [done|]. split; [done|].
    eapply seg_last_more; [exact Hw1|exact Hp|exact Hh|exact C'|done|done|by rewrite X'|done|done].
  - exists w3, r. split; [by destruct r|]. split; [done|]. by eapply seg_last; [exact Hw1|done|exact Hp|exact Hh].
Qed.

(** ** A fallback pool *)
Lemma fill_excluded (c c' : RequestCtx.t) cands wl :
  RequestCtx.excluded c ⊆ RequestCtx.excluded c' -> wl ∈ cands ->
  WeightedLane.idx wl ∉ RequestCtx.excluded c -> WeightedLane.idx wl ∈ RequestCtx.excluded c' ->
  (length (RequestCtx.fill_candidates c' cands) < length (RequestCtx.fill_candidates c cands))%nat.
Proof.
  intros Hsub Hin Hn Hy. unfold RequestCtx.fill_candidates.
  assert (forall l : list WeightedLane.t,
    (length (List.filter (fun x => negb (bool_decide (WeightedLane.idx x ∈ RequestCtx.excluded c'))) l) <=
     length (List.filter (fun x => negb (bool_decide (WeightedLane.idx x ∈ RequestCtx.excluded c))) l))%nat) as Hle.
  { induction l as [|x l IH]; cbn; [done|]. repeat case_bool_decide; cbn; try lia. set_solver. }
  induction cands as [|x l IH]; [by apply elem_of_nil in Hin|]. cbn.
  apply elem_of_cons in Hin as [<-|Hin].
  - rewrite bool_decide_true, bool_decide_false by done. cbn. specialize (Hle l). lia.
  - specialize (IH Hin). repeat case_bool_decide; cbn; try lia. set_solver.
Qed.

Lemma fallback_loop_ends fuel exhausted cands pool w : sound w -> cands_ok w pool cands ->
  (forall w', ctx_le (Walk.ctx w) (Walk.ctx w') -> sound w' -> ends w' (exhausted w')) ->
  (length (RequestCtx.fill_candidates (Walk.ctx w) cands) < fuel)%nat ->
  ends w (fallback_loop app env ingress_protocol fuel exhausted cands pool w).
Proof.
  revert w. induction fuel as [|fuel IH]; intros w Hw Hok Hex Hfuel; [lia|]. cbn [fallback_loop].
  destruct (RequestCtx.expired _ _) eqn:Hexp; [by apply ends_now|].
  destruct (pick_among_spec (WalkEnv.pick env (Walk.tick w)) (Walk.st w) cands (Walk.ctx w) None pool None
    (proj1 Hw) (cands_in_range _ _ _ Hw Hok)) as (s & p & -> & Ho).
  destruct p as [i perm| |]; cbn in Ho.
  - destruct Ho as (wl & m & Hin & Hi & _ & Hx & Hd).
    assert (i < N)%nat as Hl by (pose proof (cands_range _ _ _ Hok) as HF; rewrite Forall_forall in HF; subst i; by apply HF).
    assert (sound (Walk.attempting pool i (Walk.set_st s w))) as Hw1.
    { destruct Hw as (_ & HN & Hb). split_and!; cbn; [apply Hd|by rewrite (books_length _ _ (d_books _ _ _ _ _ Hd))|].
      unfold budgets_i64. by rewrite (d_books _ _ _ _ _ Hd). }
    destruct (forward_once_spec app env ingress_protocol N Happ Henv (Walk.tick w) pool i _ Hw1 Hl) as (w2 & r & -> & Hh).
    assert (seg w w2 r) as Hs.
    { eapply seg_attempt; [exact Hw|exact Hok|exact Hexp| |exact Hx|exact Hd|exact Hh]. by exists wl. }
    destruct r as [|r|]; [|by exists w2, (Done r)|by exists w2, Gone].
    eapply ends_trans; [exact Hs|]. pose proof (s_ctx _ _ _ _ _ _ Hs) as Hc. apply IH.
    + exact (seg_sound _ _ Hw Hs).
    + exact (cands_ok_le _ _ _ _ Hc Hok).
    + intros w' Hc' Hw'. apply Hex; [by etrans|done].
    + eapply Nat.lt_le_trans; [eapply fill_excluded; [apply Hc|exact Hin| |]|lia]; subst i; [done|].
      apply (cl_excluded _ _ (h_ctx _ _ _ _ _ Hh)). cbn. set_solver.
  - assert (seg w (Walk.set_st s w) Again) as Hs by (by apply seg_pick_none).
    eapply ends_trans; [exact Hs|]. apply Hex; [apply Hs|exact (seg_sound _ _ Hw Hs)].
  - eexists _, _. split; [done|]. split; [done|]. by apply seg_pick_none.
Qed.

Lemma enforced_ok w pool cands out : Forall (fun wl => (WeightedLane.idx wl < N)%nat) cands ->
  enforce_restricts (AppCfg.members app) (Walk.ctx w) pool cands = inr out -> cands_ok w pool out.
Proof.
  intros HF He. unfold enforce_restricts in He.
  pose proof (enforce_loop_sound (AppCfg.members app !! pool) (RequestCtx.active_restricts (Walk.ctx w)) cands) as Hs.
  rewrite He in Hs. destruct Hs as [Hsub Hall]. apply Forall_forall. intros wl Hin. rewrite Forall_forall in HF.
  split; [by apply HF, Hsub|]. exists wl. split; [done|]. eapply Forall_impl; [exact Hall|].
  intros r [?|Hc]; [by left|right]. rewrite Forall_forall in Hc. by apply Hc.
Qed.

(** ** The chain of fallback pools *)
Definition unvisited (w : Walk.t) : nat :=
  size (dom (AppCfg.fallback_pools app) ∖ RequestCtx.visited_pools (Walk.ctx w)).

Lemma unvisited_le w w' : ctx_le (Walk.ctx w) (Walk.ctx w') -> (unvisited w' <= unvisited w)%nat.
Proof. intros [_ _ _ Hv]. unfold unvisited. apply subseteq_size. set_solver. Qed.

Lemma unvisited_visit w w' pool : pool ∈ dom (AppCfg.fallback_pools app) ->
  pool ∉ RequestCtx.visited_pools (Walk.ctx w) -> ctx_le (Walk.ctx w) (Walk.ctx w') ->
  pool ∈ RequestCtx.visited_pools (Walk.ctx w') -> (unvisited w' < unvisited w)%nat.
Proof. intros H1 H2 [_ _ _ Hv] H3. unfold unvisited. apply subset_size. set_solver. Qed.

Lemma exhaustion_ends fuel cands pool w : sound w -> cands_ok w pool cands -> (unvisited w < fuel)%nat ->
  ends w (handle_exhaustion_for_pool app env ingress_protocol fuel cands pool w).
Proof.
  revert cands pool w. induction fuel as [|fuel IH]; intros cands pool w Hw Hok Hfuel; [lia|].
  cbn [handle_exhaustion_for_pool].
  pose proof (seg_ctx_step w _ Hw (visit_le (Walk.ctx w) pool)) as Hs1. pose proof (seg_sound _ _ Hw Hs1) as Hw1.
  eapply ends_trans; [exact Hs1|]. set (now := WalkEnv.clock env (Walk.tick w)). clearbody now.
  pose proof (cands_ok_le _ _ pool cands (s_ctx _ _ _ _ _ _ Hs1) Hok) as Hok1.
  pose proof (unvisited_le _ _ (s_ctx _ _ _ _ _ _ Hs1)) as Hu1.
  generalize (Walk.tick w). intros n.
  set (w1 := Walk.set_ctx _ w) in *. clearbody w1. clear Hs1 Hok Hw.
  destruct (default Status503 _) as [|fb|]; [by apply ends_503; [|eapply cands_range]| |by apply ends_least_bad].
  destruct (RequestCtx.expired _ _); [by apply ends_now|].
  destruct (RequestCtx.is_pool_visited _ _) eqn:Hvis; [by apply ends_503|].
  destruct (AppCfg.fallback_pools app !! fb) as [members|] eqn:Hm; [|by apply ends_503].
  destruct (enforce_restricts _ _ fb members) as [name|out] eqn:He; [by apply ends_now|].
  pose proof (enforced_ok w1 fb members out (ao_fallback _ _ Happ fb members Hm) He) as Hok2.
  pose proof (seg_ctx_step w1 _ Hw1 (visit_le (Walk.ctx w1) fb)) as Hs2. pose proof (seg_sound _ _ Hw1 Hs2) as Hw2.
  pose proof (cands_ok_le _ _ fb out (s_ctx _ _ _ _ _ _ Hs2) Hok2) as Hok3.
  eapply ends_trans; [exact Hs2|]. apply fallback_loop_ends; [exact Hw2|exact Hok3| |].
  - intros w' Hc' Hw'. apply IH; [done|by eapply cands_ok_le|].
    enough (unvisited w' < unvisited w1)%nat by lia. apply (unvisited_visit w1 w' fb).
    + apply elem_of_dom. by exists members.
    + by apply bool_decide_eq_false in Hvis.
    + etrans; [apply Hs2|exact Hc'].
    + apply (cl_visited _ _ Hc'). cbn. set_solver.
  - unfold RequestCtx.fill_candidates. apply Nat.lt_succ_r. generalize (RequestCtx.excluded (Walk.ctx (Walk.set_ctx (RequestCtx.mark_pool_visited (Walk.ctx w1) fb) w1))).
    intros X. clear. induction out as [|x l IH]; cbn; [done|]. case_bool_decide; cbn; lia.
Qed.

Lemma forward_loop_ends attempts cands affinity pool order w : sound w -> cands_ok w pool cands ->
  ends w (forward_loop app env ingress_protocol attempts cands affinity pool order w).
Proof.
  assert (forall w, unvisited w < exhaustion_fuel app)%nat as Hfuel.
  { intros w'. unfold exhaustion_fuel, unvisited. rewrite <- size_dom.
    pose proof (subseteq_size (dom (AppCfg.fallback_pools app) ∖ RequestCtx.visited_pools (Walk.ctx w'))
      (dom (AppCfg.fallback_pools app)) ltac:(set_solver)). lia. }
  revert w. induction attempts as [|attempts IH]; intros w Hw Hok; cbn [forward_loop]; [by apply exhaustion_ends|].
  destruct (RequestCtx.expired _ _) eqn:Hexp; [by apply ends_now|].
  destruct (pick_among_spec (WalkEnv.pick env (Walk.tick w)) (Walk.st w) cands (Walk.ctx w) affinity pool order
    (proj1 Hw) (cands_in_range _ _ _ Hw Hok)) as (s & p & -> & Ho).
  destruct p as [i perm| |]; cbn in Ho.
  - destruct Ho as (wl & m & Hin & Hi & _ & Hx & Hd). pose proof (cands_range _ _ _ Hok) as HF.
    assert (i < N)%nat as Hl by (rewrite Forall_forall in HF; subst i; by apply HF).
    assert (sound (Walk.set_st s w)) as Hw1.
    { destruct Hw as (_ & HN & Hb). split_and!; cbn; [apply Hd|by rewrite (books_length _ _ (d_books _ _ _ _ _ Hd))|].
      unfold budgets_i64. by rewrite (d_books _ _ _ _ _ Hd). }
    destruct (attempt_spec app env ingress_protocol N Happ Henv (Walk.tick w) cands pool i _ Hw1 Hl HF)
      as (w2 & r & -> & Hh).
    assert (seg w w2 r) as Hs.
    { eapply seg_attempt; [exact Hw|exact Hok|exact Hexp| |exact Hx|exact Hd|exact Hh]. by exists wl. }
    destruct r as [|r|]; [|by exists w2, (Done r)|by exists w2, Gone].
    eapply ends_trans; [exact Hs|]. apply IH; [exact (seg_sound _ _ Hw Hs)|].
    exact (cands_ok_le _ _ _ _ (s_ctx _ _ _ _ _ _ Hs) Hok).
  - assert (seg w (Walk.set_st s w) Again) as Hs by (by apply seg_pick_none).
    destruct cands; [eexists _, _; split; [done|]; split; [done|]; by apply seg_pick_none|].
    eapply ends_trans; [exact Hs|]. apply exhaustion_ends; [exact (seg_sound _ _ Hw Hs)|done|apply Hfuel].
  - eexists _, _. split; [done|]. split; [done|]. by apply seg_pick_none.
Qed.
End Run.

(** ** Theorems about the failover walk: what a finished request leaves behind, which lanes it tried
    and when, and whose budget it was charged to *)

Import InMemoryStore.
Open Scope Z_scope.
Open Scope rust_scope.

Lemma NoDup_bounded (l : list nat) N : NoDup l -> Forall (fun x => (x < N)%nat) l -> (length l <= N)%nat.
Proof.
  intros Hd HF. rewrite <- (length_seq N 0). apply submseteq_length, NoDup_submseteq; [done|].
  intros x Hx. rewrite Forall_forall in HF. apply elem_of_seq. specialize (HF x Hx). lia.
Qed.

(** C12.  A request never wedges a lane by finishing: the walk over the primary pool, the exhaustion
    modes and every chain of fallback pools (cycles included) always returns, with a well-formed
    store; and when it ends in a response, whatever the upstreams answered on the way, no recovery
    probe is out, on any lane through any pool, that was not out before the request.  Only a client
    that disconnects while a reply is awaited can leave a probe behind, and then at most one. *)
Theorem finished_request_leaves_no_probe app env proto N attempts cands affinity pool order w :
  app_ok app N -> env_ok env -> sound N w -> cands_ok app N w pool cands ->
  exists w' r, forward_loop app env proto attempts cands affinity pool order w = Some (w', r) /\
    r <> Again /\ store_wf (Walk.st w') /\
    (r <> Gone -> forall p l, held (Walk.st w') p l -> held (Walk.st w) p l) /\
    (exists q, forall p l, held (Walk.st w') p l -> held (Walk.st w) p l \/ (p, l) = q).
Proof.
  intros Ha He Hw Hc.
  destruct (forward_loop_ends app env proto N Ha He attempts cands affinity pool order w Hw Hc)
    as (w' & r & Hf & Hr & [W _ (q & Hq & Hh) _ _ _]).
  exists w', r. split_and!; try done.
  - intros Hg p l Hx. specialize (Hq Hg). subst q. by destruct (Hh p l Hx).
  - exists (default (""%string, 0%nat) q). intros p l Hx. destruct (Hh p l Hx) as [?|Eq]; [by left|right]. by rewrite Eq.
Qed.

(** C38.  Failover is bounded: through the primary pool and all fallback pools together a request
    picks no lane twice, starts no picked attempt at or past its deadline, and makes at most one
    attempt per lane plus one last resort (least_bad); and every lane it sends to, on whichever hop,
    carries a tag of every compliance restrict that fails closed. *)
Theorem attempts_bounded_and_permitted app env proto N attempts cands affinity pool order w :
  app_ok app N -> env_ok env -> sound N w -> cands_ok app N w pool cands -> Walk.log w = [] ->
  exists w' r tried last, forward_loop app env proto attempts cands affinity pool order w = Some (w', r) /\
    Walk.log w' = tried ++ last /\ NoDup tried.*2 /\ (length last <= 1)%nat /\
    (length (Walk.log w') <= N + 1)%nat /\
    (forall k, (k < length tried)%nat -> WalkEnv.clock env k < RequestCtx.deadline (Walk.ctx w)) /\
    Forall (fun x => permitted app (RequestCtx.active_restricts (Walk.ctx w)) x.1 x.2) (Walk.log w').
Proof.
  intros Ha He Hw Hc Hl.
  destruct (forward_loop_ends app env proto N Ha He attempts cands affinity pool order w Hw Hc)
    as (w' & r & Hf & _ & [_ _ _ _ _ (tried & last & Hlog & [P1 P2 P3 P4] & L1 & _ & L2)]).
  rewrite Hl in Hlog. cbn in Hlog. exists w', r, tried, last. split_and!; try done.
  - rewrite Hlog, length_app. assert (length tried <= N)%nat; [|lia].
    rewrite <- (length_fmap snd). apply NoDup_bounded; [done|]. apply Forall_fmap.
    eapply Forall_impl; [exact P2|]. by intros x (_ & _ & ?).
  - intros k Hk. specialize (P4 k Hk). unfold Walk.tick in P4. by rewrite Hl in P4.
  - rewrite Hlog. by apply Forall_app.
Qed.

(** The request budget is charged for answers, not for attempts: after the whole walk every
    lane's books are as before, except that the lane that answered 2xx is charged one unit if it is
    limited and had one (a streamed body charges it too, and says so to the stream, which may still
    return it); a body that breaks off while it is buffered is refunded, and failures, refusals and
    exhausted pools cost nothing. *)
Theorem budget_charged_for_answers_only app env proto N attempts cands affinity pool order w :
  app_ok app N -> env_ok env -> sound N w -> cands_ok app N w pool cands ->
  exists w' r, forward_loop app env proto attempts cands affinity pool order w = Some (w', r) /\
    match r with
    | Done resp => books (Walk.st w') = match answered resp with
                                        | Some l => charged l (books (Walk.st w))
                                        | None => books (Walk.st w)
                                        end
    | _ => books (Walk.st w') = books (Walk.st w) \/
           exists l, books (Walk.st w') = charged l (books (Walk.st w))
    end.
Proof.
  intros Ha He Hw Hc.
  destruct (forward_loop_ends app env proto N Ha He attempts cands affinity pool order w Hw Hc)
    as (w' & r & Hf & Hr & [_ _ _ B _ _]).
  exists w', r. split; [done|]. by destruct r.
Qed.

(** ** A concrete deployment *)
Module Demo.
(** Two lanes in pool p, a fallback pool f over lane 1 whose last resort is least_bad and that names
    p as tagged eu. *)
Definition lane (m : string) : LaneCfg.t := LaneCfg.mk m "openai" ∅ (Some 8000) (Some 30000).
Definition members : list WeightedLane.t := [WeightedLane.mk 1 1 None None].
Definition app : AppCfg.t :=
  AppCfg.mk [lane "a"; lane "b"] false
    {["p" := FallbackPool "f"; "f" := LeastBad]} {["f" := members]} ∅
    {["f" := {[1%nat := ["eu"]]}]}.

(** Readings from 2000 on; [reply n] is the upstream's answer to the n-th attempt. *)
Definition env (reply : nat -> Reply) : WalkEnv.t :=
  WalkEnv.mk (fun n => 2000 + Z.min (Z.of_nat n) 60) (fun _ => demo_pick true) (fun _ => demo_env 2005)
    (fun _ _ => PrepOk) (fun n _ _ => reply n).

Definition start : Walk.t := Walk.mk demo_store demo_ctx (mkWarnings ∅ []) [].

Lemma app_is_ok : app_ok app 2.
Proof.
  split; [done| |].
  - intros pool. unfold resolve_breaker_cfg, app. cbn [AppCfg.breaker]. rewrite lookup_empty.
    apply default_cfg_ok.
  - intros pool ms. unfold app. cbn [AppCfg.fallback_pools]. rewrite lookup_singleton_Some.
    intros [_ <-]. apply Forall_singleton. cbn. lia.
Qed.

Lemma env_is_ok reply : env_ok (env reply).
Proof. split; intros n; cbn; mach_lia. Qed.

Lemma start_is_sound : sound 2 start.
Proof. split; [exact demo_store_wf|]. split; [done|]. unfold budgets_i64. repeat constructor; cbn; mach_lia. Qed.

Lemma cands_are_ok : cands_ok app 2 start "p" demo_cands.
Proof. apply Forall_forall. intros wl Hin. split; [|by exists wl]. unfold demo_cands in Hin.
  rewrite !elem_of_cons in Hin. destruct Hin as [->|[->|[]%elem_of_nil]]; cbn; lia. Qed.

Definition run (reply : nat -> Reply) := forward_loop app (env reply) "openai" 3 demo_cands None "p" None start.

Definition two_failures (n : nat) : Reply :=
  if (n <? 2)%nat then SendError false else Success true (S754_zero false) BodyDelivered.
End Demo.

(** Both lanes fail through p; f has nothing new to try and its last resort answers. *)
Lemma finished_request_leaves_no_probe_witness :
  match Demo.run Demo.two_failures with
  | Some (w, r) => r = Done (RStream 1 true) /\
      forall p l, held (Walk.st w) p l -> held demo_store p l
  | None => False
  end.
Proof.
  destruct (finished_request_leaves_no_probe Demo.app (Demo.env Demo.two_failures) "openai" 2 3 demo_cands None "p" None
    Demo.start Demo.app_is_ok (Demo.env_is_ok _) Demo.start_is_sound Demo.cands_are_ok)
    as (w' & r & Hf & _ & _ & Hh & _).
  assert (snd <$> Demo.run Demo.two_failures = Some (Done (RStream 1 true))) as E by (vm_compute; reflexivity).
  unfold Demo.run in E |- *. rewrite Hf in E |- *. injection E as ->. split; [reflexivity|].
  apply Hh. discriminate.
Defined.

Lemma attempts_bounded_and_permitted_witness :
  match Demo.run Demo.two_failures with
  | Some (w, _) => Walk.log w = [("p"%string, 0%nat); ("p"%string, 1%nat); ("f"%string, 1%nat)] /\
      (length (Walk.log w) <= 2 + 1)%nat
  | None => False
  end.
Proof.
  destruct (attempts_bounded_and_permitted Demo.app (Demo.env Demo.two_failures) "openai" 2 3 demo_cands None "p" None
    Demo.start Demo.app_is_ok (Demo.env_is_ok _) Demo.start_is_sound Demo.cands_are_ok eq_refl)
    as (w' & r & tried & last & Hf & _ & _ & _ & Hlen & _).
  assert ((fun x => Walk.log x.1) <$> Demo.run Demo.two_failures =
    Some [("p"%string, 0%nat); ("p"%string, 1%nat); ("f"%string, 1%nat)]) as E by (vm_compute; reflexivity).
  unfold Demo.run in E |- *. rewrite Hf in E |- *. injection E as E. split; [exact E|exact Hlen].
Defined.

Lemma budget_charged_for_answers_only_witness :
  match Demo.run Demo.two_failures with
  | Some (w, _) => books (Walk.st w) = [(-1, false, false); (2, true, false)]
  | None => False
  end.
Proof.
  destruct (budget_charged_for_answers_only Demo.app (Demo.env Demo.two_failures) "openai" 2 3 demo_cands None "p" None
    Demo.start Demo.app_is_ok (Demo.env_is_ok _) Demo.start_is_sound Demo.cands_are_ok)
    as (w' & r & Hf & Hb).
  assert (snd <$> Demo.run Demo.two_failures = Some (Done (RStream 1 true))) as E by (vm_compute; reflexivity).
  unfold Demo.run in E |- *. rewrite Hf in E |- *. injection E as ->. exact Hb.
Defined.

(** ** A probe that is left behind *)

(** Lane 0 is Open past its cooldown. *)
Definition tripped : option InMemoryStore.t :=
  fst <$> record_hard_down_all_cells (demo_env 100) demo_store 0 "billing".

(** Admission to lane 0 through p at [now], after a request whose client went away while it awaited
    the reply of its recovery probe. *)
Definition after_disconnect (now : Z) : option (Step * option bool) :=
  let? s := tripped in
  let? (w, r) := forward_loop Demo.app (Demo.env (fun _ => SendDropped)) "openai" 3 demo_cands None "p"
                   (Some [0%nat]) (Walk.mk s demo_ctx (mkWarnings ∅ []) []) in
  Some (r, snd <$> usable_for (Walk.st w) "p" 0 now).

(** A client that disconnects while the reply to a recovery probe is awaited benches the lane:
    the request's future is dropped, no outcome is recorded, the guard that would have released the
    probe was disarmed when the lane was picked, and from then on, at every later time, the lane
    refuses admission through that pool. *)
Theorem disconnect_during_probe_benches_lane now : after_disconnect now = Some (Gone, Some false).
Proof. vm_compute. reflexivity. Qed.
