(* ===== verification/Sse.v ===== *)
(** * Server-sent-event framing (crates/busbar/src/proto/mod.rs, proto/stream.rs)

    The search for the end of a frame, the frame parser and writer, and the scan that every stream
    consumer of the gateway runs over its reassembly buffer ([drain_sse]: the loop shared, line for
    line, by [StreamTranslate::feed] and [GeminiJsonArrayFramer::feed]).  Offsets are [nat]s, text is
    the list of its bytes as in [EventStream]. *)
From stdpp Require Import base list strings.
From Stdlib Require Import ZArith Lia.
From S2P Require Import Prelude EventStream.
Open Scope Z_scope.
Open Scope rust_scope.

Definition LF : Z := 10.
Definition CR : Z := 13.

(** ** The end of a frame *)

(** [prev] is the byte before [buf], [i] its offset. *)
Fixpoint find_from (prev : option Z) (i : nat) (buf : bytes) : option (nat * nat) :=
  match buf with
  | [] => None
  | b :: r =>
      if b =? LF then
        if bool_decide (r !! 0%nat = Some LF) then Some (i, 2%nat)
        else if bool_decide (prev = Some CR) && bool_decide (r !! 0%nat = Some CR) &&
                bool_decide (r !! 1%nat = Some LF)
        then Some ((i - 1)%nat, 4%nat)
        else find_from (Some b) (S i) r
      else find_from (Some b) (S i) r
  end.

Definition find_frame_terminator (buf : bytes) : option (nat * nat) := find_from None 0 buf.

(** ** Parsing a frame *)

(** [str::strip_prefix] on bytes. *)
Fixpoint strip_bytes (p l : bytes) : option bytes :=
  match p, l with
  | [], _ => Some l
  | a :: p, b :: l => if a =? b then strip_bytes p l else None
  | _ :: _, [] => None
  end.

(** [str::lines]: a line ends at LF, and loses the CR before it; [cur] is the line so far, reversed. *)
Fixpoint lines_from (cur l : bytes) : list bytes :=
  match l with
  | [] => match cur with [] => [] | _ => [rev cur] end
  | b :: l =>
      if b =? LF
      then rev (match cur with c :: cur' => if c =? CR then cur' else cur | [] => [] end) :: lines_from [] l
      else lines_from (b :: cur) l
  end.

Definition lines (l : bytes) : list bytes := lines_from [] l.

(** The UTF-8 encodings of the characters [char::is_whitespace] accepts. *)
Definition WHITE_SPACE : list bytes :=
  [[9]; [10]; [11]; [12]; [13]; [32]; [194; 133]; [194; 160]; [225; 154; 128];
   [226; 128; 128]; [226; 128; 129]; [226; 128; 130]; [226; 128; 131]; [226; 128; 132];
   [226; 128; 133]; [226; 128; 134]; [226; 128; 135]; [226; 128; 136]; [226; 128; 137];
   [226; 128; 138]; [226; 128; 168]; [226; 128; 169]; [226; 128; 175]; [226; 129; 159];
   [227; 128; 128]].

Fixpoint trim_prefix (fuel : nat) (ws : list bytes) (l : bytes) : bytes :=
  match fuel with
  | O => l
  | S fuel =>
      match head (omap (fun w => strip_bytes w l) ws) with
      | Some l' => trim_prefix fuel ws l'
      | None => l
      end
  end.

(** [str::trim]; every step drops a byte, so the length is fuel enough. *)
Definition trim (l : bytes) : bytes :=
  let l := trim_prefix (length l) WHITE_SPACE l in
  rev (trim_prefix (length l) ((@rev Z) <$> WHITE_SPACE) (rev l)).

Definition EVENT_FIELD : bytes := Eval cbv in bytes_of "event:".
Definition DATA_FIELD : bytes := Eval cbv in bytes_of "data:".

(** [Vec::join] with a line feed. *)
Fixpoint join_lf (ls : list bytes) : bytes :=
  match ls with [] => [] | [l] => l | l :: ls => l ++ LF :: join_lf ls end.

Fixpoint parse_lines (ls : list bytes) (event_type : bytes) (data_lines : list bytes) : bytes * list bytes :=
  match ls with
  | [] => (event_type, data_lines)
  | line :: ls =>
      match strip_bytes EVENT_FIELD line with
      | Some rest => parse_lines ls (trim rest) data_lines
      | None =>
          match strip_bytes DATA_FIELD line with
          | Some rest => parse_lines ls event_type (data_lines ++ [default rest (strip_bytes [32] rest)])
          | None => parse_lines ls event_type data_lines
          end
      end
  end.

Definition parse_sse_frame (frame : bytes) : option (bytes * bytes) :=
  if utf8_valid frame then
    let '(event_type, data_lines) := parse_lines (lines frame) [] [] in
    match data_lines with [] => None | _ => Some (event_type, join_lf data_lines) end
  else None.

(** ** Writing a frame.  [data] is the JSON text of the payload. *)
Definition reframe_sse (event_type data : bytes) : bytes :=
  match event_type with
  | [] => bytes_of "data: " ++ data ++ [LF; LF]
  | _ => bytes_of "event: " ++ event_type ++ [LF] ++ bytes_of "data: " ++ data ++ [LF; LF]
  end.

Definition SSE_DONE_SENTINEL : bytes := Eval cbv in bytes_of "[DONE]".
Definition SSE_DONE_FRAME : bytes := Eval cbv in bytes_of "data: [DONE]" ++ [10; 10].

(** ** The scan of a reassembly buffer

    [consumed] is the start of the next frame, [scanned] how far the search has been before;
    [on_frame start end] handles one frame.  The result is the accumulator with the final [consumed];
    [scanned] ends at the length of the buffer.  Every round consumes at least two bytes. *)
Fixpoint drain_sse {A} (fuel : nat) (on_frame : nat -> nat -> A -> A) (buf : bytes)
    (scanned consumed : nat) (acc : A) : option (A * nat) :=
  match fuel with
  | O => None
  | S fuel =>
      let search_from := Nat.min (Nat.max (scanned - 3) consumed) (length buf) in
      match find_frame_terminator (drop search_from buf) with
      | Some (rel, term_len) =>
          let fin := (search_from + rel + term_len)%nat in
          drain_sse fuel on_frame buf fin fin (on_frame consumed fin acc)
      | None => Some (acc, consumed)
      end
  end.

(** [&buf[lo..hi]] of offsets produced by the scan. *)
Definition cut (lo hi : nat) (buf : bytes) : bytes := take (hi - lo) (drop lo buf).

(** ** Reference: the frames of a buffer, in order, and the rest *)
Fixpoint frames (fuel : nat) (buf : bytes) : list bytes * bytes :=
  match fuel with
  | O => ([], buf)
  | S fuel =>
      match find_frame_terminator buf with
      | Some (o, t) =>
          let '(fs, rest) := frames fuel (drop (o + t) buf) in (take (o + t) buf :: fs, rest)
      | None => ([], buf)
      end
  end.

Definition sse_frames (buf : bytes) : list bytes * bytes := frames (length buf) buf.

(** ** JSON values ([serde_json], a third-party crate): what the stream code uses of them *)
Class Json := {
  Value : Type;
  parse_str : bytes -> option Value;
  to_text : Value -> bytes;
  (** [as_object_mut] and [insert] of the member "type" *)
  insert_type : bytes -> Value -> Value;
  (** [json!({"error": {"code", "message", "status"}})] *)
  rpc_status : Z -> bytes -> bytes -> Value }.

(** The value a data frame carries: none for comments, keepalives, the end sentinel and malformed
    JSON. *)
Definition frame_value {J : Json} (frame : bytes) : option (bytes * bytes * Value) :=
  let? (event_type, data_str) := parse_sse_frame frame in
  if bool_decide (data_str = []) || bool_decide (data_str = SSE_DONE_SENTINEL) then None
  else let? data := parse_str data_str in Some (event_type, data_str, data).
