(* ===== verification/SseFacts.v ===== *)
(** * Facts on server-sent-event framing: the search for a terminator, the linear scan against its
    reference, independence of chunking, and written frames read back *)
From stdpp Require Import base list strings.
From Stdlib Require Import ZArith Lia.
From S2P Require Import Prelude EventStream EventStreamFacts Sse.
Open Scope Z_scope.
Open Scope rust_scope.

(** ** Where a terminator can be *)

Definition before (prev : option Z) (l : bytes) (j : nat) : option Z :=
  match j with O => prev | S j => l !! j end.

(** A terminator of length [t] whose search stops at the line feed at [j]. *)
Definition anchor (prev : option Z) (l : bytes) (j t : nat) : Prop :=
  l !! j = Some LF /\
  ((t = 2%nat /\ l !! S j = Some LF) \/
   (t = 4%nat /\ before prev l j = Some CR /\ l !! S j = Some CR /\ l !! S (S j) = Some LF)).

Definition offset (j t : nat) : nat := if (t =? 4)%nat then (j - 1)%nat else j.

Lemma anchor_fun prev l j t t' : anchor prev l j t -> anchor prev l j t' -> t = t'.
Proof. intros [_ [[-> H]|(-> & _ & H & _)]] [_ [[-> H']|(-> & _ & H' & _)]]; try done; rewrite H in H'; done. Qed.

Lemma anchor_cons prev b l j t : anchor prev (b :: l) (S j) t <-> anchor (Some b) l j t.
Proof. unfold anchor, before. cbn. by destruct j. Qed.

Definition first_anchor (prev : option Z) (l : bytes) (i : nat) (r : option (nat * nat)) : Prop :=
  match r with
  | Some (o, t) => exists j, anchor prev l j t /\ (forall j' t', (j' < j)%nat -> ~ anchor prev l j' t') /\
                     o = offset (i + j) t
  | None => forall j t, ~ anchor prev l j t
  end.

Lemma first_anchor_cons prev b l i r : (forall t, ~ anchor prev (b :: l) 0 t) ->
  first_anchor (Some b) l (S i) r -> first_anchor prev (b :: l) i r.
Proof.
  intros Hn. destruct r as [[o t]|]; cbn.
  - intros (j & Ha & Hm & Ho). exists (S j). split; [by apply anchor_cons|]. split.
    + intros [|j'] t' Hlt Ha'; [by eapply Hn|]. apply anchor_cons in Ha'. eapply Hm; [|exact Ha']. lia.
    + rewrite Ho. f_equal. lia.
  - intros Hl [|j] t' Ha'; [by eapply Hn|]. apply anchor_cons in Ha'. by eapply Hl.
Qed.

Lemma find_from_spec prev i l : first_anchor prev l i (find_from prev i l).
Proof.
  revert prev i. induction l as [|b l IH]; intros prev i; cbn [find_from].
  { intros j t [H _]. by rewrite lookup_nil in H. }
  destruct (Z.eqb_spec b LF) as [->|Hb].
  2: { apply first_anchor_cons; [|apply IH]. intros t [H _]. cbn in H. congruence. }
  case_bool_decide as H1.
  { exists 0%nat. split; [split; [done|left; by split]|]. split; [lia|]. by rewrite Nat.add_0_r. }
  destruct (_ && _) eqn:E.
  - rewrite !andb_true_iff, !bool_decide_eq_true in E. destruct E as [[Hp H2] H3].
    exists 0%nat. split; [split; [done|right]; by split_and!|]. split; [lia|]. by rewrite Nat.add_0_r.
  - apply first_anchor_cons; [|apply IH]. intros t [_ [[_ H]|(_ & Hp & H2 & H3)]]; [done|]. cbn in *.
    rewrite !andb_false_iff, !bool_decide_eq_false in E. naive_solver.
Qed.

Lemma find_spec l : first_anchor None l 0 (find_frame_terminator l).
Proof. apply find_from_spec. Qed.

(** The result is determined by the first anchor. *)
Lemma first_anchor_det prev l i r r' : first_anchor prev l i r -> first_anchor prev l i r' -> r = r'.
Proof.
  destruct r as [[o t]|], r' as [[o' t']|]; cbn; [| | |done].
  - intros (j & Ha & Hm & ->) (j' & Ha' & Hm' & ->).
    assert (j = j') as <-.
    { destruct (Nat.lt_trichotomy j j') as [Hlt|[->|Hlt]]; [|done|]; exfalso; [by eapply Hm'|by eapply Hm]. }
    by rewrite (anchor_fun _ _ _ _ _ Ha Ha').
  - intros (j & Ha & _) Hn. by destruct (Hn j t).
  - intros Hn (j & Ha & _). by destruct (Hn j t').
Qed.

Lemma anchor_bound l j t : anchor None l j t -> (offset j t + t <= length l)%nat /\ (2 <= t)%nat.
Proof.
  intros [H0 [[-> H1]|(-> & Hp & H1 & H2)]]; unfold offset; cbn [Nat.eqb].
  - apply lookup_lt_Some in H1. lia.
  - apply lookup_lt_Some in H2. destruct j; [done|]. lia.
Qed.

Lemma find_bound l o t : find_frame_terminator l = Some (o, t) -> (o + t <= length l)%nat /\ (2 <= t)%nat.
Proof.
  intros E. pose proof (find_spec l) as H. rewrite E in H. destruct H as (j & Ha & _ & ->). by apply anchor_bound.
Qed.

Lemma anchor_app a b j t : anchor None a j t -> anchor None (a ++ b) j t.
Proof.
  unfold anchor, before. intros [H0 H]. split; [by apply lookup_app_l_Some|].
  destruct H as [[-> H1]|(-> & Hp & H1 & H2)]; [left; split; [done|by apply lookup_app_l_Some]|right].
  destruct j; [done|]. split_and!; [done|by apply lookup_app_l_Some..].
Qed.

(** An anchor of a longer buffer that ends inside the prefix was one already. *)
Lemma anchor_app_inv a b j t : anchor None (a ++ b) j t -> (offset j t + t <= length a)%nat -> anchor None a j t.
Proof.
  unfold anchor, before, offset. intros [H0 H] Hl.
  destruct H as [[-> H1]|(-> & Hp & H1 & H2)]; cbn [Nat.eqb] in Hl.
  - rewrite lookup_app_l in H0, H1 by lia. split; [done|by left].
  - destruct j; [done|]. rewrite lookup_app_l in H0, Hp, H1, H2 by lia. split; [done|by right].
Qed.

(** Terminators end in the order of their anchors. *)
Lemma anchor_lt a b j t j' t' : anchor None a j t -> anchor None (a ++ b) j' t' -> (j' < j)%nat ->
  (offset j' t' + t' <= offset j t + t)%nat.
Proof.
  intros Ha Ha' Hlt. unfold offset.
  destruct Ha as [_ [[-> _]|(-> & _ & _ & H2)]]; destruct Ha' as [_ [[-> _]|(-> & Hp' & _ & _)]];
    cbn [Nat.eqb]; try lia. destruct j'; [discriminate Hp'|]. lia.
Qed.

Lemma find_app a b o t : find_frame_terminator a = Some (o, t) -> find_frame_terminator (a ++ b) = Some (o, t).
Proof.
  intros E. pose proof (find_spec a) as H. rewrite E in H. destruct H as (j & Ha & Hm & Ho).
  apply (first_anchor_det None (a ++ b) 0); [apply find_spec|]. exists j. split; [by apply anchor_app|].
  split; [|done]. intros j' t' Hlt Ha'. apply (Hm j' t' Hlt). apply (anchor_app_inv _ b); [done|].
  pose proof (anchor_bound _ _ _ Ha) as [Hb _]. pose proof (anchor_lt a b j t j' t' Ha Ha' Hlt). lia.
Qed.

Lemma before_drop l k j : before None (drop k l) j = Some CR -> before None l (k + j) = Some CR.
Proof.
  destruct j as [|j]; [done|]. cbn [before]. rewrite lookup_drop. intros H. by rewrite Nat.add_succ_r.
Qed.

Lemma anchor_drop l k j t : anchor None (drop k l) j t -> anchor None l (k + j) t.
Proof.
  unfold anchor. rewrite !lookup_drop, <- !Nat.add_succ_r. intros [H0 [H1|(-> & Hp & H1)]]; split; auto.
  right. split; [done|]. split; [by apply before_drop|done].
Qed.

Lemma anchor_drop_inv l k j t : (k <= offset j t)%nat -> anchor None l j t -> anchor None (drop k l) (j - k) t.
Proof.
  intros Hk [H0 H]. unfold offset in Hk.
  assert (k <= j)%nat as Hkj by (destruct (t =? 4)%nat; lia).
  split; [rewrite lookup_drop; by replace (k + (j - k))%nat with j by lia|].
  destruct H as [[-> H1]|(-> & Hp & H1 & H2)]; [left|right].
  - split; [done|]. rewrite lookup_drop. by replace (k + S (j - k))%nat with (S j) by lia.
  - cbn in Hk. destruct j as [|j]; [done|]. cbn [before] in Hp. split; [done|].
    replace (S j - k)%nat with (S (j - k)) by lia. cbn [before]. rewrite !lookup_drop.
    replace (k + (j - k))%nat with j by lia. replace (k + S (S (j - k)))%nat with (S (S j)) by lia.
    by replace (k + S (S (S (j - k))))%nat with (S (S (S j))) by lia.
Qed.

(** The search may start three bytes before the end of what was searched in vain. *)
Lemma find_resume a b : find_frame_terminator a = None ->
  find_frame_terminator (a ++ b) =
    match find_frame_terminator (drop (length a - 3) (a ++ b)) with
    | Some (o, t) => Some ((length a - 3 + o)%nat, t)
    | None => None
    end.
Proof.
  intros Hn. pose proof (find_spec a) as Ha. rewrite Hn in Ha. cbn in Ha. set (k := (length a - 3)%nat).
  assert (forall j t, anchor None (a ++ b) j t -> (k <= offset j t)%nat) as Hk.
  { intros j t H. destruct (decide (offset j t + t <= length a)%nat) as [Hle|Hgt].
    - by destruct (Ha j t), (anchor_app_inv a b j t H Hle).
    - pose proof H as [_ [[-> _]|(-> & _)]]; unfold k, offset in *; cbn [Nat.eqb] in *; lia. }
  apply (first_anchor_det None (a ++ b) 0); [apply find_spec|]. pose proof (find_spec (drop k (a ++ b))) as Hd.
  destruct (find_frame_terminator (drop k (a ++ b))) as [[o t]|]; cbn.
  - destruct Hd as (j & Hj & Hm & ->). exists (k + j)%nat. split; [by apply anchor_drop|]. split.
    + intros j' t' Hlt H'. pose proof (Hk j' t' H') as Hk'. apply (anchor_drop_inv _ k) in H'; [|done].
      apply (Hm (j' - k)%nat t'); [|done]. unfold offset in Hk'. destruct (t' =? 4)%nat; lia.
    + unfold offset in *. destruct (t =? 4)%nat eqn:Et; [|done].
      destruct j; [|lia]. destruct Hj as [_ [[-> _]|(_ & Hp & _)]]; [done|done].
  - intros j t H. apply (Hd (j - k)%nat t). apply anchor_drop_inv; [by apply Hk|done].
Qed.

(** ** The reference split *)
Lemma frames_fuel n m l : (length l <= n)%nat -> (length l <= m)%nat -> frames n l = frames m l.
Proof.
  revert m l. induction n as [|n IH]; intros m l Hn Hm.
  - destruct l; [|cbn in Hn; lia]. by destruct m.
  - destruct m as [|m]; [destruct l; [done|cbn in Hm; lia]|]. cbn [frames].
    destruct (find_frame_terminator l) as [[o t]|] eqn:E; [|done].
    apply find_bound in E as [Hb Ht]. rewrite (IH m); [done|rewrite length_drop; lia..].
Qed.

Lemma sse_frames_eq l :
  sse_frames l = match find_frame_terminator l with
                 | Some (o, t) => let '(fs, rest) := sse_frames (drop (o + t) l) in (take (o + t) l :: fs, rest)
                 | None => ([], l)
                 end.
Proof.
  unfold sse_frames. destruct (find_frame_terminator l) as [[o t]|] eqn:E.
  - apply find_bound in E as Hb. destruct (length l) as [|n] eqn:El; [lia|]. cbn [frames]. rewrite E.
    rewrite (frames_fuel n (length (drop (o + t) l))); [done|rewrite length_drop; lia|lia].
  - destruct (length l) eqn:El; [done|]. cbn [frames]. by rewrite E.
Qed.

Lemma frames_ind (P : bytes -> Prop) :
  (forall l, find_frame_terminator l = None -> P l) ->
  (forall l o t, find_frame_terminator l = Some (o, t) -> P (drop (o + t) l) -> P l) -> forall l, P l.
Proof.
  intros H0 H1 l. remember (length l) as n eqn:En. revert l En.
  induction n as [n IH] using lt_wf_ind. intros l ->.
  destruct (find_frame_terminator l) as [[o t]|] eqn:E; [|by apply H0].
  apply (H1 l o t E). eapply IH; [|done]. apply find_bound in E. rewrite length_drop. lia.
Qed.

(** Frames are cut from the front, nothing is lost, and the rest holds no terminator. *)
Lemma sse_frames_split l : forall fs rest, sse_frames l = (fs, rest) ->
  l = concat fs ++ rest /\ find_frame_terminator rest = None /\ (length fs <= length l)%nat.
Proof.
  induction l as [l Hn|l o t E IH] using frames_ind; intros fs rest; rewrite sse_frames_eq.
  - rewrite Hn. intros [= <- <-]. cbn. auto with lia.
  - rewrite E. destruct (sse_frames (drop (o + t) l)) as [fs' rest'] eqn:Er. intros [= <- <-].
    destruct (IH fs' rest' eq_refl) as (H1 & H2 & H3). apply find_bound in E. rewrite length_drop in H3.
    split_and!; [|done|cbn; lia]. cbn [concat]. rewrite <- (assoc_L (++)), <- H1. by rewrite take_drop.
Qed.

Lemma sse_frames_done l : find_frame_terminator l = None -> sse_frames l = ([], l).
Proof. intros H. by rewrite sse_frames_eq, H. Qed.

(** Splitting a buffer that grew: the frames found before are found again, first. *)
Lemma sse_frames_app a b fs rest : sse_frames a = (fs, rest) ->
  sse_frames (a ++ b) = (fs ++ (sse_frames (rest ++ b)).1, (sse_frames (rest ++ b)).2).
Proof.
  revert fs rest. induction a as [a Hn|a o t E IH] using frames_ind; intros fs rest; rewrite sse_frames_eq.
  - rewrite Hn. intros [= <- <-]. by destruct (sse_frames (a ++ b)).
  - rewrite E. destruct (sse_frames (drop (o + t) a)) as [fs' rest'] eqn:Er. intros [= <- <-].
    rewrite (sse_frames_eq (a ++ b)), (find_app a b o t E). apply find_bound in E as [Hb _].
    rewrite drop_app_le, take_app_le by lia. by rewrite (IH fs' rest' eq_refl).
Qed.

(** ** The linear scan visits exactly the reference's frames *)
Fixpoint visit {A} (on_frame : nat -> nat -> A -> A) (start : nat) (fs : list bytes) (acc : A) : A :=
  match fs with
  | [] => acc
  | f :: fs => visit on_frame (start + length f) fs (on_frame start (start + length f)%nat acc)
  end.

Lemma search_from_spec buf scanned consumed :
  (consumed <= scanned)%nat -> (scanned <= length buf)%nat ->
  find_frame_terminator (cut consumed scanned buf) = None ->
  let k := Nat.min (Nat.max (scanned - 3) consumed) (length buf) in
  find_frame_terminator (drop consumed buf) =
    match find_frame_terminator (drop k buf) with
    | Some (o, t) => Some ((k - consumed + o)%nat, t)
    | None => None
    end.
Proof.
  intros Hcs Hs Hn k. set (a := cut consumed scanned buf) in *. set (b := drop scanned buf).
  assert (length a = (scanned - consumed)%nat) as Hla
    by (unfold a, cut; rewrite length_take, length_drop; lia).
  assert (drop consumed buf = a ++ b) as Hab.
  { unfold a, b, cut. rewrite <- (take_drop (scanned - consumed) (drop consumed buf)) at 1. f_equal.
    rewrite drop_drop. f_equal. lia. }
  assert (drop k buf = drop (length a - 3) (a ++ b)) as Hk.
  { rewrite <- Hab, drop_drop. f_equal. unfold k. lia. }
  rewrite Hab, Hk, (find_resume a b Hn). replace (k - consumed)%nat with (length a - 3)%nat by (unfold k; lia).
  done.
Qed.

Lemma drain_sse_spec {A} (on_frame : nat -> nat -> A -> A) buf fuel : forall scanned consumed acc,
  (consumed <= scanned)%nat -> (scanned <= length buf)%nat ->
  find_frame_terminator (cut consumed scanned buf) = None ->
  (length buf - consumed < fuel)%nat ->
  forall fs rest, sse_frames (drop consumed buf) = (fs, rest) ->
  drain_sse fuel on_frame buf scanned consumed acc =
    Some (visit on_frame consumed fs acc, (length buf - length rest)%nat).
Proof.
  induction fuel as [|fuel IH]; intros scanned consumed acc Hcs Hs Hn Hf fs rest; [lia|].
  cbn [drain_sse]. set (k := Nat.min _ _). rewrite sse_frames_eq.
  pose proof (search_from_spec buf scanned consumed Hcs Hs Hn) as Hfind. fold k in Hfind. cbn zeta in Hfind.
  destruct (find_frame_terminator (drop k buf)) as [[o t]|] eqn:E; rewrite Hfind.
  - apply find_bound in Hfind as Hb. rewrite length_drop in Hb.
    assert (consumed <= k)%nat by (unfold k; lia).
    set (fin := (k + o + t)%nat).
    replace (k - consumed + o + t)%nat with (fin - consumed)%nat by (unfold fin; lia).
    destruct (sse_frames (drop (fin - consumed) (drop consumed buf))) as [fs' rest'] eqn:Er. intros [= <- <-].
    rewrite drop_drop in Er. replace (consumed + (fin - consumed))%nat with fin in Er by (unfold fin; lia).
    rewrite (IH fin fin _) with (fs := fs') (rest := rest'); [| |unfold fin; lia| | |done].
    + cbn [visit]. rewrite length_take, length_drop.
      by replace (consumed + (fin - consumed) `min` (length buf - consumed))%nat with fin by (unfold fin in *; lia).
    + done.
    + unfold cut. by rewrite Nat.sub_diag.
    + unfold fin; lia.
  - intros [= <- <-]. rewrite length_drop. do 2 f_equal. lia.
Qed.

(** A handler that only looks at the bytes of the frame folds over the frames. *)
Lemma visit_foldl {A} (on_frame : nat -> nat -> A -> A) (g : A -> bytes -> A) buf :
  (forall s e acc, on_frame s e acc = g acc (cut s e buf)) ->
  forall fs rest start acc, drop start buf = concat fs ++ rest ->
  visit on_frame start fs acc = foldl g acc fs.
Proof.
  intros Hg. induction fs as [|f fs IH]; intros rest start acc Hd; [done|]. cbn [visit foldl].
  cbn [concat] in Hd. rewrite <- (assoc_L (++)) in Hd.
  assert (cut start (start + length f) buf = f) as Hc.
  { unfold cut. rewrite Hd. replace (start + length f - start)%nat with (length f) by lia.
    by rewrite take_app_length. }
  rewrite Hg, Hc. apply (IH rest). rewrite <- drop_drop, Hd. by rewrite drop_app_length.
Qed.

(** One chunk, scanned as the code scans it. *)
Lemma drain_chunk {A} (on_frame : nat -> nat -> A -> A) (g : A -> bytes -> A) (buf chunk : bytes) acc :
  (forall s e acc, on_frame s e acc = g acc (cut s e (buf ++ chunk))) ->
  find_frame_terminator buf = None ->
  forall fs rest, sse_frames (buf ++ chunk) = (fs, rest) ->
  drain_sse (S (length (buf ++ chunk))) on_frame (buf ++ chunk) (length buf) 0 acc =
    Some (foldl g acc fs, length (concat fs)) /\ drop (length (concat fs)) (buf ++ chunk) = rest.
Proof.
  intros Hg Hn fs rest Hs. pose proof (sse_frames_split _ _ _ Hs) as (Hsp & _ & _).
  rewrite (drain_sse_spec on_frame (buf ++ chunk) _ (length buf) 0 acc) with (fs := fs) (rest := rest);
    [|lia|rewrite length_app; lia| |lia|by rewrite drop_0].
  - rewrite (visit_foldl on_frame g (buf ++ chunk) Hg fs rest) by (by rewrite drop_0).
    split; [do 2 f_equal; rewrite Hsp, length_app; lia|]. by rewrite Hsp, drop_app_length.
  - unfold cut. rewrite drop_0, Nat.sub_0_r, take_app_length. done.
Qed.

(** ** Written frames read back *)
Definition one_line (l : bytes) : Prop := Forall (fun b => b <> LF /\ b <> CR) l.

Lemma utf8_valid_app a b : utf8_valid a = true -> utf8_valid b = true -> utf8_valid (a ++ b) = true.
Proof.
  intros Ha Hb. remember (length a) as n eqn:En. revert a En Ha.
  induction n as [n IH] using lt_wf_ind. intros [|b0 a] En Ha; [done|]. cbn [utf8_valid app] in *.
  assert (forall r, (length r < n)%nat -> utf8_valid r = true -> utf8_valid (r ++ b) = true) as IH'.
  { intros r Hr. eapply IH; [exact Hr|done]. }
  cbn [length] in En.
  destruct (EventStream.in_range 0 127 b0); [apply IH'; [lia|done]|].
  destruct a as [|b1 a]; [done|]. cbn [app length] in *.
  destruct (EventStream.in_range 194 223 b0).
  { apply andb_true_iff in Ha as [-> Ha]. apply IH'; [lia|done]. }
  destruct a as [|b2 a]; [done|]. cbn [app length] in *.
  destruct (EventStream.in_range 224 239 b0).
  { apply andb_true_iff in Ha as [-> Ha]. apply IH'; [lia|done]. }
  destruct a as [|b3 a]; [done|]. cbn [app length] in *.
  apply andb_true_iff in Ha as [-> Ha]. apply IH'; [lia|done].
Qed.

Lemma lines_from_app cur a b : one_line a ->
  lines_from cur (a ++ LF :: b) =
    rev (match rev a ++ cur with c :: cur' => if c =? CR then cur' else c :: cur' | [] => [] end) :: lines_from [] b.
Proof.
  revert cur. induction a as [|x a IH]; intros cur Hl; [by destruct cur|]. apply Forall_cons in Hl as [[Hx Hc] Hl].
  cbn [app lines_from rev]. rewrite (proj2 (Z.eqb_neq x LF) Hx), (IH _ Hl). by rewrite <- (assoc_L (++)).
Qed.

Lemma lines_cons a b : one_line a -> lines (a ++ LF :: b) = a :: lines b.
Proof.
  intros Hl. unfold lines. rewrite (lines_from_app [] a b Hl), app_nil_r. f_equal.
  rewrite <- (rev_involutive a) in Hl at 1. rewrite <- (rev_involutive a) at 2.
  destruct (rev a) as [|c r]; [done|]. f_equal. cbn [rev] in Hl. apply Forall_app in Hl as [_ Hl].
  apply Forall_singleton in Hl as [_ Hc]. by rewrite (proj2 (Z.eqb_neq c CR) Hc).
Qed.

Lemma strip_bytes_app p l : strip_bytes p (p ++ l) = Some l.
Proof. induction p as [|x p IH]; [done|]. cbn. by rewrite Z.eqb_refl. Qed.

Lemma find_from_one_line a b prev i : one_line a -> (prev <> Some CR \/ a <> []) ->
  find_from prev i (a ++ LF :: b) =
    match b with
    | c :: b' => if c =? LF then Some ((i + length a)%nat, 2%nat)
                 else find_from (Some LF) (S (i + length a)) (c :: b')
    | [] => None
    end.
Proof.
  revert prev i. induction a as [|x a IH]; intros prev i Hl Hp; cbn [app find_from].
  - cbn [length]. rewrite Nat.add_0_r. change (LF =? LF) with true. cbn [lookup list_lookup].
    destruct Hp as [Hp|]; [|done]. rewrite (bool_decide_false (prev = Some CR)) by done. cbn [andb].
    destruct b as [|c b]; [done|]. destruct (Z.eqb_spec c LF) as [->|Hc]; [by rewrite bool_decide_true|].
    rewrite bool_decide_false by (cbn; congruence). cbn [find_from].
    by rewrite (proj2 (Z.eqb_neq c LF) Hc).
  - apply Forall_cons in Hl as [[Hx Hc] Hl]. rewrite (proj2 (Z.eqb_neq x LF) Hx).
    rewrite (IH (Some x) (S i) Hl) by (left; congruence). cbn [length]. by rewrite Nat.add_succ_r.
Qed.

Lemma one_line_app a b : one_line a -> one_line b -> one_line (a ++ b).
Proof. intros ? ?. by apply Forall_app. Qed.

Definition event_line (event_type : bytes) : bytes :=
  match event_type with [] => [] | _ => bytes_of "event: " ++ event_type ++ [LF] end.

Lemma reframe_eq et data : reframe_sse et data = event_line et ++ bytes_of "data: " ++ data ++ [LF; LF].
Proof. destruct et as [|x et]; [done|]. unfold reframe_sse, event_line. by rewrite <- !(assoc_L (++)). Qed.

Ltac ascii_line := repeat (apply Forall_cons; split; [split; done|]); apply Forall_nil_2.

Lemma find_from_next a b prev i : one_line a -> (prev <> Some CR \/ a <> []) -> head b <> Some LF ->
  find_from prev i (a ++ LF :: b) = find_from (Some LF) (S (i + length a)) b.
Proof.
  intros Hl Hp Hb. rewrite find_from_one_line by done. destruct b as [|c b]; [done|].
  destruct (Z.eqb_spec c LF) as [->|]; [by destruct Hb|done].
Qed.

Lemma find_reframe et data rest : one_line et -> one_line data ->
  exists o, find_frame_terminator (reframe_sse et data ++ rest) = Some (o, 2%nat) /\
    (o + 2)%nat = length (reframe_sse et data).
Proof.
  intros He Hd. assert (one_line (bytes_of "data: " ++ data)) as Hdl by (apply one_line_app; [ascii_line|done]).
  assert (forall prev i, prev <> Some CR ->
    find_from prev i ((bytes_of "data: " ++ data) ++ LF :: LF :: rest) =
      Some ((i + length (bytes_of "data: " ++ data))%nat, 2%nat)) as Hdata.
  { intros prev i Hp. rewrite find_from_one_line by (done || by left). by rewrite Z.eqb_refl. }
  unfold find_frame_terminator. destruct et as [|x et].
  - change (reframe_sse [] data) with (bytes_of "data: " ++ data ++ [LF; LF]).
    rewrite (assoc_L (++)), <- (assoc_L (++) _ _ rest). cbn [app]. rewrite Hdata by done.
    eexists. split; [done|]. rewrite !length_app. cbn. lia.
  - set (e := x :: et) in *. assert (one_line (bytes_of "event: " ++ e)) as Hel by (apply one_line_app; [ascii_line|done]).
    assert (reframe_sse e data ++ rest = (bytes_of "event: " ++ e) ++ LF :: (bytes_of "data: " ++ data) ++ LF :: LF :: rest) as ->.
    { unfold reframe_sse. cbn [e]. fold e. rewrite <- !(assoc_L (++)). done. }
    rewrite find_from_next by (done || by left). rewrite Hdata by done. eexists. split; [done|].
    unfold reframe_sse. cbn [e]. fold e. rewrite !length_app. cbn [length]. lia.
Qed.

Lemma trim_space e : trim (32 :: e) = trim e.
Proof.
  unfold trim. cbn [length trim_prefix].
  assert (head (omap (fun w => strip_bytes w (32 :: e)) WHITE_SPACE) = Some e) as -> by reflexivity. done.
Qed.

Lemma parse_event_line e ls et ds : parse_lines ((bytes_of "event: " ++ e) :: ls) et ds = parse_lines ls (trim e) ds.
Proof.
  cbn [parse_lines]. assert (strip_bytes EVENT_FIELD (bytes_of "event: " ++ e) = Some (32 :: e)) as -> by reflexivity.
  by rewrite trim_space.
Qed.

Lemma parse_data_line d ls et ds :
  parse_lines ((bytes_of "data: " ++ d) :: ls) et ds = parse_lines ls et (ds ++ [d]).
Proof.
  cbn [parse_lines]. assert (strip_bytes EVENT_FIELD (bytes_of "data: " ++ d) = None) as -> by reflexivity.
  assert (strip_bytes DATA_FIELD (bytes_of "data: " ++ d) = Some (32 :: d)) as -> by reflexivity. done.
Qed.

Lemma parse_reframe et data : one_line et -> one_line data -> utf8_valid et = true -> utf8_valid data = true ->
  trim et = et -> parse_sse_frame (reframe_sse et data) = Some (et, data).
Proof.
  intros He Hd Hue Hud Ht. assert (one_line (bytes_of "data: " ++ data)) as Hdl by (apply one_line_app; [ascii_line|done]).
  unfold parse_sse_frame.
  assert (utf8_valid (reframe_sse et data) = true) as ->.
  { rewrite reframe_eq. apply utf8_valid_app; [|by repeat (apply utf8_valid_app; [done|])].
    destruct et as [|x et]; [done|]. unfold event_line. by repeat (apply utf8_valid_app; [done|]). }
  assert (lines ((bytes_of "data: " ++ data) ++ [LF; LF]) = [bytes_of "data: " ++ data; []]) as Hl
    by (by rewrite lines_cons).
  destruct et as [|x et].
  - change (reframe_sse [] data) with (bytes_of "data: " ++ data ++ [LF; LF]). rewrite (assoc_L (++)), Hl.
    by rewrite parse_data_line.
  - set (e := x :: et) in *. assert (one_line (bytes_of "event: " ++ e)) as Hel by (apply one_line_app; [ascii_line|done]).
    assert (reframe_sse e data = (bytes_of "event: " ++ e) ++ LF :: (bytes_of "data: " ++ data) ++ [LF; LF]) as ->.
    { unfold reframe_sse. cbn [e]. fold e. rewrite <- !(assoc_L (++)). done. }
    rewrite lines_cons, Hl by done. 
    rewrite parse_event_line, parse_data_line, Ht. done.
Qed.
