(* ===== verification/SseProps.v ===== *)
(** * The Gemini JSON-array framer (crates/busbar/src/proto/gemini/mod.rs)

    [GeminiJsonArrayFramer] turns a stream of server-sent events into one streaming JSON array.  The
    theorems: fed in any chunking, its whole output is one JSON array of exactly the stream's payloads
    in order; and whatever happens (overflow, upstream failure, no data at all) the array is closed. *)
From stdpp Require Import base list strings.
From Stdlib Require Import ZArith Lia.
From S2P Require Import Prelude EventStream EventStreamFacts Sse SseFacts.
Open Scope Z_scope.
Open Scope rust_scope.

Definition OPEN : Z := 91.
Definition CLOSE : Z := 93.
Definition COMMA : Z := 44.

Definition GRPC_INTERNAL : bytes := Eval cbv in bytes_of "INTERNAL".
Definition INTERNAL_MESSAGE : bytes := Eval cbv in bytes_of "Internal error encountered.".

Module GeminiJsonArrayFramer.
Record t := mk { buf : bytes; scanned : nat; started : bool; finished : bool; aborted : bool }.
End GeminiJsonArrayFramer.
Import GeminiJsonArrayFramer.

Section Framer.
Context {J : Json}.

Definition MAX_BUF : Z := MAX_FRAME_BYTES.
Definition new : t := mk [] 0 false false false.

(** The separator before an element. *)
Definition sep (started : bool) : Z := if started then COMMA else OPEN.

(** The body of the loop of [feed]: one frame; the accumulator is [started] with the output. *)
Definition frame_body (frame : bytes) (acc : bool * bytes) : bool * bytes :=
  match frame_value frame with
  | Some (_, _, data) => (true, acc.2 ++ sep acc.1 :: to_text data)
  | None => acc
  end.

Definition feed (fr : t) (chunk : bytes) : option (t * bytes) :=
  if aborted fr || finished fr then Some (fr, [])
  else
    let b := buf fr ++ chunk in
    let? (acc, consumed) :=
      drain_sse (S (length b)) (fun s e acc => frame_body (cut s e b) acc) b (scanned fr) 0
        (started fr, []) in
    let '(started', out) := acc in
    let b := if (0 <? consumed)%nat then drop consumed b else b in
    if MAX_BUF <? len b
    then Some (mk [] 0 started' (finished fr) true, out)
    else Some (mk b (length b) started' (finished fr) false, out).

Definition finish_with_error (fr : t) (code : Z) (status message : bytes) : t * bytes :=
  if finished fr then (fr, [])
  else
    (mk (buf fr) (scanned fr) true true (aborted fr),
     sep (started fr) :: to_text (rpc_status code message status) ++ [CLOSE]).

Definition finish (fr : t) : t * bytes :=
  if finished fr then (fr, [])
  else if aborted fr then finish_with_error fr 500 GRPC_INTERNAL INTERNAL_MESSAGE
  else (mk (buf fr) (scanned fr) (started fr) true (aborted fr),
        if started fr then [CLOSE] else [OPEN; CLOSE]).

Definition finish_for_translate (fr : t) (translate_aborted : bool) : t * bytes :=
  if finished fr then (fr, [])
  else if translate_aborted || aborted fr then finish_with_error fr 500 GRPC_INTERNAL INTERNAL_MESSAGE
  else finish fr.

Definition finish_with_server_error (fr : t) (message : bytes) : t * bytes :=
  finish_with_error fr 500 GRPC_INTERNAL message.

(** Feeding a stream chunk by chunk. *)
Fixpoint feed_all (fr : t) (chunks : list bytes) : option (t * bytes) :=
  match chunks with
  | [] => Some (fr, [])
  | c :: cs =>
      let? (fr, out) := feed fr c in
      let? (fr, outs) := feed_all fr cs in
      Some (fr, out ++ outs)
  end.

(** ** Specification *)
Definition payload (frame : bytes) : option Value := snd <$> frame_value frame.

(** The text of the elements, with the opening bracket before the first. *)
Fixpoint elements (started : bool) (vs : list Value) : bytes :=
  match vs with
  | [] => []
  | v :: vs => sep started :: to_text v ++ elements true vs
  end.

Definition array_text (vs : list Value) : bytes :=
  match vs with [] => [OPEN; CLOSE] | _ => elements false vs ++ [CLOSE] end.

(** Invariant between calls: what is buffered holds no complete frame and was all searched. *)
Definition resting (fr : t) : Prop :=
  aborted fr = false -> finished fr = false ->
  find_frame_terminator (buf fr) = None /\ scanned fr = length (buf fr) /\ len (buf fr) <= MAX_BUF.

Lemma new_resting : resting new.
Proof. intros _ _. cbn. unfold len, MAX_BUF, MAX_FRAME_BYTES. cbn. auto with lia. Qed.

Lemma elements_app st vs ws :
  elements st (vs ++ ws) = elements st vs ++ elements (st || negb (bool_decide (vs = []))) ws.
Proof.
  revert st. induction vs as [|v vs IH]; intros st; cbn [elements app].
  - by rewrite bool_decide_true, orb_false_r.
  - rewrite IH. rewrite (bool_decide_false (v :: vs = [])) by done. cbn [negb].
    rewrite orb_true_r. cbn [orb app]. by rewrite (assoc_L (++)).
Qed.

Lemma frame_body_fold fs st out :
  foldl (fun acc f => frame_body f acc) (st, out) fs =
    (st || negb (bool_decide (omap payload fs = [])), out ++ elements st (omap payload fs)).
Proof.
  revert st out. induction fs as [|f fs IH]; intros st out; cbn [foldl omap list_omap].
  - cbn. by rewrite orb_false_r, app_nil_r.
  - assert (payload f = snd <$> frame_value f) as -> by done. unfold frame_body at 2.
    destruct (frame_value f) as [[[et d] v]|]; cbn [fmap option_fmap option_map snd].
    + rewrite IH. cbn. rewrite orb_true_r. f_equal.
      by rewrite <- !(assoc_L (++)), <- app_comm_cons.
    + apply IH.
Qed.

(** One chunk. *)
Lemma feed_spec fr chunk : resting fr -> aborted fr = false -> finished fr = false ->
  forall fs rest, sse_frames (buf fr ++ chunk) = (fs, rest) ->
  feed fr chunk = Some
    (if MAX_BUF <? len rest
     then mk [] 0 (started fr || negb (bool_decide (omap payload fs = []))) false true
     else mk rest (length rest) (started fr || negb (bool_decide (omap payload fs = []))) false false,
     elements (started fr) (omap payload fs)).
Proof.
  intros Hr Ha Hf fs rest Hs. destruct (Hr Ha Hf) as (Hn & Hsc & _). unfold feed. rewrite Ha, Hf, Hsc. cbn [orb].
  destruct (drain_chunk (fun s e acc => frame_body (cut s e (buf fr ++ chunk)) acc)
    (fun acc f => frame_body f acc) (buf fr) chunk (started fr, []) (fun _ _ _ => eq_refl) Hn fs rest Hs) as [E Hd].
  rewrite E, frame_body_fold. cbn [app].
  assert ((if (0 <? length (concat fs))%nat then drop (length (concat fs)) (buf fr ++ chunk) else buf fr ++ chunk) = rest) as Hrest.
  { destruct (length (concat fs)) eqn:El; [|done]. by rewrite <- Hd, drop_0. }
  rewrite Hrest. by destruct (MAX_BUF <? len rest).
Qed.

Lemma feed_resting fr chunk fr' out : resting fr -> feed fr chunk = Some (fr', out) -> resting fr'.
Proof.
  intros Hr Hf. destruct (aborted fr) eqn:Ea; [unfold feed in Hf; rewrite Ea in Hf; by injection Hf as <- <-|].
  destruct (finished fr) eqn:Ef; [unfold feed in Hf; rewrite Ea, Ef in Hf; by injection Hf as <- <-|].
  destruct (sse_frames (buf fr ++ chunk)) as [fs rest] eqn:Es.
  rewrite (feed_spec fr chunk Hr Ea Ef fs rest Es) in Hf. injection Hf as <- _.
  destruct (Z.ltb_spec MAX_BUF (len rest)); [done|]. intros _ _. cbn.
  destruct (sse_frames_split _ _ _ Es) as (_ & Hn & _). auto.
Qed.

Lemma feed_total fr chunk : resting fr -> exists fr' out, feed fr chunk = Some (fr', out).
Proof.
  intros Hr. destruct (aborted fr) eqn:Ea; [unfold feed; rewrite Ea; by eexists _, _|].
  destruct (finished fr) eqn:Ef; [unfold feed; rewrite Ea, Ef; by eexists _, _|].
  destruct (sse_frames (buf fr ++ chunk)) as [fs rest] eqn:Es. rewrite (feed_spec fr chunk Hr Ea Ef fs rest Es).
  by eexists _, _.
Qed.

(** A whole stream. *)
Lemma feed_all_spec chunks : forall fr, resting fr -> aborted fr = false -> finished fr = false ->
  exists fr' out n, feed_all fr chunks = Some (fr', out) /\ resting fr' /\ finished fr' = false /\
    let fs := (sse_frames (buf fr ++ concat (take n chunks))).1 in
    out = elements (started fr) (omap payload fs) /\
    started fr' = started fr || negb (bool_decide (omap payload fs = [])) /\
    (aborted fr' = false -> n = length chunks /\ buf fr' = (sse_frames (buf fr ++ concat chunks)).2).
Proof.
  induction chunks as [|c cs IH]; intros fr Hr Ha Hf; cbn [feed_all].
  { destruct (Hr Ha Hf) as (Hn & _ & _). exists fr, [], 0%nat. cbn. rewrite app_nil_r, (sse_frames_done _ Hn).
    cbn. rewrite orb_false_r. auto 10. }
  destruct (sse_frames (buf fr ++ c)) as [fs rest] eqn:Es.
  pose proof (feed_spec fr c Hr Ha Hf fs rest Es) as Hfeed. pose proof (feed_resting fr c _ _ Hr Hfeed) as Hr1.
  rewrite Hfeed. destruct (MAX_BUF <? len rest) eqn:Eb.
  - assert (feed_all (mk [] 0 (started fr || negb (bool_decide (omap payload fs = []))) false true) cs
      = Some (mk [] 0 (started fr || negb (bool_decide (omap payload fs = []))) false true, [])) as E.
    { clear. induction cs as [|c cs IH]; [done|]. cbn [feed_all feed aborted finished orb]. by rewrite IH. }
    rewrite E. eexists _, _, 1%nat. split; [done|]. split; [exact Hr1|]. split; [done|]. cbn.
    rewrite !app_nil_r, Es. cbn. done.
  - destruct (IH _ Hr1 eq_refl eq_refl) as (fr' & outs & n & -> & Hr' & Hf' & Hout & Hst & Hna).
    eexists _, _, (S n). split; [done|]. split; [done|]. split; [done|]. cbn [take concat buf started] in *.
    rewrite (assoc_L (++)), (sse_frames_app _ (concat (take n cs)) fs rest Es). cbn [fst].
    rewrite omap_app, Hout, elements_app. split; [done|]. split.
    + rewrite Hst, <- orb_assoc. f_equal. destruct (omap payload fs); [done|]. cbn. done.
    + intros Hna'. destruct (Hna Hna') as [-> ->]. split; [done|].
      by rewrite (assoc_L (++)), (sse_frames_app _ (concat cs) fs rest Es).
Qed.
End Framer.

(** ** Theorems about server-sent events and the Gemini JSON-array framer *)

(** ** Written frames *)

(** An event a writer may put on the wire: one-line UTF-8 text, the type without outer white space.
    (Compact JSON text is on one line: [serde_json] escapes every control character.) *)
Definition writable (ev : bytes * bytes) : Prop :=
  one_line ev.1 /\ one_line ev.2 /\ utf8_valid ev.1 = true /\ utf8_valid ev.2 = true /\ trim ev.1 = ev.1.

Definition write_frame (ev : bytes * bytes) : bytes := reframe_sse ev.1 ev.2.

Lemma sse_frames_written ev rest : one_line ev.1 -> one_line ev.2 ->
  sse_frames (write_frame ev ++ rest) =
    (write_frame ev :: (sse_frames rest).1, (sse_frames rest).2).
Proof.
  intros He Hd. destruct (find_reframe ev.1 ev.2 rest He Hd) as (o & Hf & Hl). unfold write_frame.
  rewrite sse_frames_eq, Hf, Hl, drop_app_length, take_app_length. by destruct (sse_frames rest).
Qed.

(** What a writer puts on the wire is what a reader takes off it: a sequence of events written
    one after the other, with anything incomplete after them, is cut back into exactly those frames in
    that order, each parses to the event it was written from, and the incomplete rest is left over. *)
Theorem written_frames_read_back evs rest :
  Forall writable evs -> find_frame_terminator rest = None ->
  sse_frames (concat (write_frame <$> evs) ++ rest) = (write_frame <$> evs, rest) /\
  parse_sse_frame <$> (write_frame <$> evs) = Some <$> evs.
Proof.
  intros Hw Hr. induction Hw as [|[et d] evs (He & Hd & Hue & Hud & Ht) _ [IH1 IH2]]; cbn [fmap list_fmap concat].
  - split; [by apply sse_frames_done|done].
  - cbn [fst snd] in *. rewrite <- (assoc_L (++)), sse_frames_written, IH1 by done. split; [done|].
    cbn [fmap list_fmap] in IH2. rewrite IH2. f_equal. by apply parse_reframe.
Qed.

Lemma written_frames_read_back_witness :
  let evs := [(bytes_of "message_start", bytes_of "{}"); ([], bytes_of "[1]")] in
  Forall writable evs /\
  sse_frames (concat (write_frame <$> evs) ++ bytes_of "data: {") = (write_frame <$> evs, bytes_of "data: {") /\
  parse_sse_frame <$> (write_frame <$> evs) = Some <$> evs.
Proof.
  intros evs. assert (Forall writable evs) as Hw.
  { repeat (apply Forall_cons; split; [repeat split; try ascii_line; by vm_compute|]). apply Forall_nil_2. }
  split; [exact Hw|]. apply (written_frames_read_back evs (bytes_of "data: {") Hw). by vm_compute.
Defined.

(** ** The JSON array *)
Section Array.
Context {J : Json}.
Import GeminiJsonArrayFramer.

Definition internal_error (message : bytes) : Value := rpc_status 500 message GRPC_INTERNAL.

(** The payloads of the first [n] chunks of a stream, in order. *)
Definition payloads (n : nat) (chunks : list bytes) : list Value :=
  omap payload (sse_frames (concat (take n chunks))).1.

Lemma array_text_snoc vs v : array_text (vs ++ [v]) = elements false (vs ++ [v]) ++ [CLOSE].
Proof. unfold array_text. by destruct vs. Qed.

Lemma error_closes fr vs message : finished fr = false -> started fr = negb (bool_decide (vs = [])) ->
  elements false vs ++ (finish_with_server_error fr message).2 = array_text (vs ++ [internal_error message]).
Proof.
  intros Hf Hs. unfold finish_with_server_error, finish_with_error. rewrite Hf, Hs. cbn [snd].
  rewrite array_text_snoc, elements_app. cbn [orb elements]. rewrite app_nil_r, <- (assoc_L (++)). done.
Qed.

Lemma finish_closes fr vs : finished fr = false -> aborted fr = false -> started fr = negb (bool_decide (vs = [])) ->
  elements false vs ++ (finish fr).2 = array_text vs.
Proof. intros Hf Ha Hs. unfold finish. rewrite Hf, Ha, Hs. by destruct vs. Qed.

(** Once the array is closed, nothing more is written. *)
Lemma finished_silent fr c a m : finished fr = true ->
  feed fr c = Some (fr, []) /\ finish_for_translate fr a = (fr, []) /\ finish_with_server_error fr m = (fr, []).
Proof.
  intros Hf. unfold feed, finish_for_translate, finish_with_server_error, finish_with_error.
  rewrite Hf, orb_true_r. done.
Qed.

Lemma closers_finish fr a m : finished (finish_for_translate fr a).1 = true /\ finished (finish_with_server_error fr m).1 = true.
Proof.
  unfold finish_for_translate, finish_with_server_error, finish, finish_with_error.
  destruct (finished fr) eqn:Hf; [done|]. by destruct a, (aborted fr).
Qed.

(** A JSON-array client always receives one well-formed array: whatever the stream and however
    it is cut into chunks, feeding never panics; a stream that ends well gives exactly the array of its
    payloads, each once and in order; a stream that overflows the buffer, whose translation was abandoned
    or that fails midway gives the payloads seen before, then one internal error, then the closing
    bracket; and a closed array is never written to again. *)
Theorem json_array_always_closed chunks translate_aborted message c :
  exists fr out n, feed_all new chunks = Some (fr, out) /\ (aborted fr = false -> n = length chunks) /\
    out ++ (finish_for_translate fr translate_aborted).2 =
      array_text (payloads n chunks ++
        if translate_aborted || aborted fr then [internal_error INTERNAL_MESSAGE] else []) /\
    out ++ (finish_with_server_error fr message).2 = array_text (payloads n chunks ++ [internal_error message]) /\
    forall done a m, done = (finish_for_translate fr translate_aborted).1 \/ done = (finish_with_server_error fr message).1 ->
      feed done c = Some (done, []) /\ finish_for_translate done a = (done, []) /\
      finish_with_server_error done m = (done, []).
Proof.
  destruct (feed_all_spec chunks new new_resting eq_refl eq_refl) as (fr & out & n & Hf & _ & Hfin & -> & Hst & Hn).
  change (sse_frames (buf new ++ concat (take n chunks))).1 with (sse_frames (concat (take n chunks))).1 in *.
  fold (payloads n chunks) in Hst |- *. change (started new) with false in *. cbn [orb] in Hst.
  exists fr, (elements false (payloads n chunks)), n. split; [done|]. split; [by intros Ha; destruct (Hn Ha)|].
  split; [|split; [by apply error_closes|]].
  - unfold finish_for_translate. rewrite Hfin. destruct (translate_aborted || aborted fr) eqn:Ea.
    + by apply (error_closes fr _ INTERNAL_MESSAGE).
    + apply orb_false_iff in Ea as [_ Ea]. rewrite app_nil_r. by apply finish_closes.
  - intros d a m Hd. apply finished_silent. destruct Hd as [->| ->]; by apply closers_finish.
Qed.
End Array.
