(* ===== verification/Ir.v ===== *)
(** * The streaming intermediate representation and the protocol vtables
    (crates/busbar/src/ir/mod.rs, proto/mod.rs)

    Stream events as every reader produces and every writer consumes them, the token usage they
    carry, and the interfaces between the stream translator and a protocol: reader, writer and
    per-stream framing.  A writer may keep state behind its shared reference (the Gemini writer does),
    so a write returns the writer.  Text is the list of its bytes. *)
From stdpp Require Import base list strings gmap.
From Stdlib Require Import ZArith Lia SpecFloat.
From S2P Require Import Prelude Breaker EventStream Sse.
Open Scope Z_scope.
Open Scope rust_scope.

Module IrUsage.
Record t := mk { input_tokens : Z; output_tokens : Z;
                 cache_creation_input_tokens : option Z; cache_read_input_tokens : option Z }.
Definition zero : t := mk 0 0 None None.
Definition billable_tokens (u : t) : Z :=
  sat_add_u64 (sat_add_u64 (sat_add_u64 (input_tokens u) (default 0 (cache_read_input_tokens u)))
    (default 0 (cache_creation_input_tokens u))) (output_tokens u).
End IrUsage.

#[export] Instance IrUsage_eq_dec : EqDecision IrUsage.t.
Proof. solve_decision. Defined.

Inductive IrStopReason :=
  | EndTurn | StopSequence | MaxTokens | ToolUse | Safety | Refusal | PauseTurn | ErrorStop | OtherStop.

Inductive IrRole := System | User | Assistant | Tool.

Inductive IrBlockMeta := TextBlock | ThinkingBlock | ToolUseBlock (id name : bytes) | ImageBlock.

Module IrTopLogprob.
Record t := mk { token : bytes; logprob : spec_float; raw_bytes : option bytes }.
End IrTopLogprob.

Module IrTokenLogprob.
Record t := mk { token : bytes; logprob : spec_float; raw_bytes : option bytes; top : list IrTopLogprob.t }.
End IrTokenLogprob.

Section Ir.
Context {J : Json}.

Record IrCitation := mk_citation {
  kind : option bytes; cited_text : option bytes; title : option bytes; url : option bytes;
  document_index : option Z; start_index : option Z; end_index : option Z;
  encrypted_index : option bytes; citation_raw : option Value }.

Inductive IrDelta :=
  | TextDelta (s : bytes)
  | ThinkingDelta (s : bytes)
  | InputJsonDelta (s : bytes)
  | SignatureDelta (s : bytes)
  | RedactedReasoningDelta (s : bytes)
  | CitationsDelta (cs : list IrCitation)
  | LogprobsDelta (ls : list IrTokenLogprob.t).

Inductive IrStreamEvent :=
  | MessageStart (role : IrRole) (usage : option IrUsage.t) (id : option bytes) (created : option Z)
      (model : option bytes)
  | BlockStart (index : nat) (block : IrBlockMeta)
  | BlockDelta (index : nat) (delta : IrDelta)
  | BlockStop (index : nat)
  | MessageDelta (stop_reason : option IrStopReason) (stop_sequence : option bytes) (usage : IrUsage.t)
  | MessageStop
  | Error (err : CanonicalSignal).

(** [ProtocolReader::read_response_events] with its decode state. *)
Class Reader (D : Type) := {
  decode_default : D;
  read_response_events : bytes -> Value -> D -> D * list IrStreamEvent }.

(** The part of [ProtocolWriter] the translator calls. *)
Class Writer (W : Type) := {
  protocol_name : W -> bytes;
  write_response_event : W -> IrStreamEvent -> W * option (bytes * Value);
  write_response_exception : W -> CanonicalSignal -> option (bytes * bytes);
  max_citations_per_delta : W -> option nat;
  emits_sse_done_terminator : W -> bool;
  ingress_is_eventstream : W -> bool;
  (** [slice::chunks] panics on zero; the writers answer 1 or no limit. *)
  max_citations_pos w n : max_citations_per_delta w = Some n -> n <> 0%nat }.

(** [StreamFraming]. *)
Class StreamFraming (F : Type) := {
  on_egress_chunk : F -> Value -> F * Value * option Value;
  on_combined_stop_delta : F -> IrStopReason -> option bytes -> IrUsage.t -> F * option (list IrStreamEvent);
  on_usage_only_delta : F -> F * option bool;
  on_finish : F -> F * option IrStreamEvent;
  (** the last argument is the time since the first byte, if there was one *)
  inject_streaming_metrics : F -> bytes -> Value -> option Z -> Value;
  abort_exception_type : F -> option bytes;
  folds_terminal_usage : F -> bool;
  set_client_include_usage : F -> bool -> F;
  suppress_same_proto_frame : F -> Value -> bool;
  strip_same_proto_usage : F -> Value -> bool }.

(** ** The inert framing *)
Inductive PassthroughFraming := passthrough.

#[export] Instance passthrough_framing : StreamFraming PassthroughFraming := {
  on_egress_chunk f v := (f, v, None);
  on_combined_stop_delta f _ _ _ := (f, None);
  on_usage_only_delta f := (f, None);
  on_finish f := (f, None);
  inject_streaming_metrics _ _ v _ := v;
  abort_exception_type _ := None;
  folds_terminal_usage _ := true;
  set_client_include_usage f _ := f;
  suppress_same_proto_frame _ _ := false;
  strip_same_proto_usage _ _ := false }.

(** ** The Bedrock framing: one metadata frame, with the stop or after it *)
Definition ET_METADATA : bytes := Eval cbv in bytes_of "metadata".
Definition EXC_INTERNAL_SERVER : bytes := Eval cbv in bytes_of "InternalServerException".

Record BedrockStreamFraming := mk_bedrock { emitted : bool; pending : bool }.

Definition has_usage (u : IrUsage.t) : bool :=
  negb (IrUsage.input_tokens u =? 0) || negb (IrUsage.output_tokens u =? 0) ||
  negb (default 0 (IrUsage.cache_read_input_tokens u) =? 0) ||
  negb (default 0 (IrUsage.cache_creation_input_tokens u) =? 0).

Definition bedrock_on_combined_stop_delta (f : BedrockStreamFraming) (stop_reason : IrStopReason)
    (stop_sequence : option bytes) (usage : IrUsage.t) : BedrockStreamFraming * option (list IrStreamEvent) :=
  let stop := MessageDelta (Some stop_reason) stop_sequence IrUsage.zero in
  if emitted f then (f, Some [stop])
  else if has_usage usage then (mk_bedrock true false, Some [stop; MessageDelta None stop_sequence usage])
  else (mk_bedrock (emitted f) true, Some [stop]).

Definition bedrock_on_usage_only_delta (f : BedrockStreamFraming) : BedrockStreamFraming * option bool :=
  if emitted f then (f, Some false) else (mk_bedrock true false, Some true).

Definition bedrock_on_finish (f : BedrockStreamFraming) : BedrockStreamFraming * option IrStreamEvent :=
  if negb (pending f) || emitted f then (f, None)
  else (mk_bedrock true false, Some (MessageDelta None None IrUsage.zero)).

(** [insert_metrics] is the insertion of the member "metrics" into a JSON object. *)
Definition bedrock_inject (insert_metrics : Z -> Value -> Value) (event_type : bytes) (data : Value)
    (elapsed_ms : option Z) : Value :=
  if negb (bool_decide (event_type = ET_METADATA)) then data
  else match elapsed_ms with Some ms => insert_metrics ms data | None => data end.

Definition bedrock_framing (insert_metrics : Z -> Value -> Value) : StreamFraming BedrockStreamFraming := {|
  on_egress_chunk f v := (f, v, None);
  on_combined_stop_delta := bedrock_on_combined_stop_delta;
  on_usage_only_delta := bedrock_on_usage_only_delta;
  on_finish := bedrock_on_finish;
  inject_streaming_metrics _ et v ms := bedrock_inject insert_metrics et v ms;
  abort_exception_type _ := Some EXC_INTERNAL_SERVER;
  folds_terminal_usage _ := false;
  set_client_include_usage f _ := f;
  suppress_same_proto_frame _ _ := false;
  strip_same_proto_usage _ _ := false |}.
End Ir.
