(* ===== verification/UsageStrip.v ===== *)
(** * Removing the usage member of a streamed chunk (crates/busbar/src/proto/mod.rs, proto/stream.rs)

    [strip_top_level_usage_member] edits the text of a JSON object without parsing it, and
    [rewrite_frame_strip_usage] applies it inside a frame.  A position of the scanner is the suffix
    that starts there; [None] is "not safe to edit". *)
From stdpp Require Import base list strings.
From Stdlib Require Import ZArith Lia.
From S2P Require Import Prelude EventStream Sse.
Open Scope Z_scope.
Open Scope rust_scope.

Definition QUOTE : Z := 34.
Definition BACKSLASH : Z := 92.
Definition COLON : Z := 58.
Definition COMMA_B : Z := 44.
Definition LBRACE : Z := 123.
Definition RBRACE : Z := 125.
Definition LBRACK : Z := 91.
Definition RBRACK : Z := 93.

(** [u8::is_ascii_whitespace]. *)
Definition is_ws (b : Z) : bool := (b =? 32) || (b =? 9) || (b =? 10) || (b =? 12) || (b =? 13).

Fixpoint skip_ws (l : bytes) : bytes :=
  match l with b :: r => if is_ws b then skip_ws r else l | [] => [] end.

Definition opens (b : Z) : bool := (b =? LBRACE) || (b =? LBRACK).
Definition closes (b : Z) : bool := (b =? RBRACE) || (b =? RBRACK).

(** The rest after the closing quote. *)
Fixpoint string_body (l : bytes) : option bytes :=
  match l with
  | [] => None
  | b :: r =>
      if b =? BACKSLASH then match r with [] => None | _ :: r => string_body r end
      else if b =? QUOTE then Some r
      else string_body r
  end.

Definition scan_json_string_end (l : bytes) : option bytes :=
  match l with [] => None | _ :: r => string_body r end.

(** The balanced scan of an object or array; every round consumes a byte. *)
Fixpoint scan_nested (fuel depth : nat) (l : bytes) : option bytes :=
  match fuel with
  | O => None
  | S fuel =>
      match l with
      | [] => None
      | b :: r =>
          if b =? QUOTE then let? r := scan_json_string_end l in scan_nested fuel depth r
          else if opens b then scan_nested fuel (S depth) r
          else if closes b then
            if (depth - 1 =? 0)%nat then Some r else scan_nested fuel (depth - 1) r
          else scan_nested fuel depth r
      end
  end.

Fixpoint scalar_end (l : bytes) : bytes :=
  match l with
  | [] => []
  | b :: r => if (b =? COMMA_B) || closes b || is_ws b then l else scalar_end r
  end.

Definition scan_json_value_end (l : bytes) : option bytes :=
  let l := skip_ws l in
  match l with
  | [] => None
  | b :: _ =>
      if b =? QUOTE then scan_json_string_end l
      else if opens b then scan_nested (S (length l)) 0 l
      else let r := scalar_end l in if (length r =? length l)%nat then None else Some r
  end.

Definition USAGE_KEY : bytes := Eval cbv in QUOTE :: bytes_of "usage" ++ [QUOTE].

(** The members of the top-level object; the result is the range of the usage member, as offsets into
    a text of [n] bytes. *)
Fixpoint scan_members (fuel n depth : nat) (expect_key : bool) (range : option (nat * nat)) (l : bytes)
    : option (option (nat * nat)) :=
  match fuel with
  | O => None
  | S fuel =>
      match l with
      | [] => Some range
      | b :: r =>
          if b =? QUOTE then
            let? str_end := scan_json_string_end l in
            if (depth =? 0)%nat && expect_key then
              let is_usage := bool_decide (take (length l - length str_end) l = USAGE_KEY) in
              match skip_ws str_end with
              | c :: j =>
                  if c =? COLON then
                    let? value_end := scan_json_value_end j in
                    if is_usage then
                      match range with
                      | Some _ => None
                      | None => scan_members fuel n depth false
                                  (Some ((n - length l)%nat, (n - length value_end)%nat)) value_end
                      end
                    else scan_members fuel n depth false range value_end
                  else None
              | [] => None
              end
            else scan_members fuel n depth expect_key range str_end
          else if opens b then scan_members fuel n (S depth) false range r
          else if closes b then
            if (depth =? 0)%nat then if b =? RBRACK then None else Some range
            else scan_members fuel n (depth - 1) expect_key range r
          else if b =? COMMA_B then
            scan_members fuel n depth (if (depth =? 0)%nat then true else expect_key) range r
          else scan_members fuel n depth expect_key range r
      end
  end.

(** The member [start, fin) with the one comma that has to go. *)
Definition cut_member (json : bytes) (obj_open start fin : nat) : nat * nat :=
  let before := skip_ws (rev (cut (obj_open + 1) start json)) in
  match before with
  | c :: _ =>
      if c =? COMMA_B then ((obj_open + length before)%nat, fin)
      else
        match skip_ws (drop fin json) with
        | d :: m => if d =? COMMA_B then (start, (length json - length m)%nat) else (start, fin)
        | [] => (start, fin)
        end
  | [] =>
      match skip_ws (drop fin json) with
      | d :: m => if d =? COMMA_B then (start, (length json - length m)%nat) else (start, fin)
      | [] => (start, fin)
      end
  end.

Definition strip_top_level_usage_member (json : bytes) : option bytes :=
  let n := length json in
  match skip_ws json with
  | b :: members =>
      if b =? LBRACE then
        let obj_open := (n - S (length members))%nat in
        let? range := scan_members (S n) n 0 true None members in
        let? (start, fin) := range in
        let '(cut_start, cut_end) := cut_member json obj_open start fin in
        Some (take cut_start json ++ drop cut_end json)
      else None
  | [] => None
  end.

(** [str::find]: the offset of the first occurrence. *)
Fixpoint find_sub (needle l : bytes) : option nat :=
  match strip_bytes needle l with
  | Some _ => Some 0%nat
  | None => match l with [] => None | _ :: l => S <$> find_sub needle l end
  end.

Definition ends_with (suffix l : bytes) : bool :=
  bool_decide (drop (length l - length suffix) l = suffix).

Definition frame_terminator (frame : bytes) : bytes :=
  if ends_with [13; 10; 13; 10] frame then [13; 10; 13; 10]
  else if ends_with [10; 10] frame then [10; 10]
  else if ends_with [13; 10] frame then [13; 10]
  else if ends_with [10] frame then [10]
  else [10; 10].

Definition rewrite_frame_strip_usage (frame data_str : bytes) : bytes :=
  match strip_top_level_usage_member data_str with
  | Some stripped =>
      let splice :=
        if utf8_valid frame then
          let? pos := find_sub data_str frame in
          match find_sub data_str (drop (pos + length data_str) frame) with
          | None => Some (take pos frame ++ stripped ++ drop (pos + length data_str) frame)
          | Some _ => None
          end
        else None in
      match splice with
      | Some out => out
      | None => bytes_of "data: " ++ stripped ++ frame_terminator frame
      end
  | None => frame
  end.
