(* ===== verification/Media.v ===== *)
(** * Media payloads and their base64 text (crates/busbar/src/media.rs)

    The encoder works on chunks of three bytes, the decoder on a 32-bit accumulator that is never
    cleared: the bits shifted out at the top are lost, as in the code.  The theorems relate the decoder
    to the groups of RFC 4648 and invert the encoder. *)
From stdpp Require Import base list strings.
From Stdlib Require Import ZArith Lia.
From S2P Require Import Prelude EventStream EventStreamFacts Sse UsageStrip.
Open Scope Z_scope.
Open Scope rust_scope.

Definition B64_ALPHABET : bytes :=
  Eval cbv in bytes_of "ABCDEFGHIJKLMNOPQRSTUVWXYZabcdefghijklmnopqrstuvwxyz0123456789+/".

Definition PAD : Z := 61.

(** [B64_ALPHABET[i]]; the index is masked to six bits, so the default is never taken. *)
Definition b64_symbol (i : Z) : Z := nth (Z.to_nat i) B64_ALPHABET PAD.

Definition encode_chunk (chunk : bytes) : bytes :=
  let b0 := nth 0 chunk 0 in
  let b1 := default 0 (chunk !! 1%nat) in
  let b2 := default 0 (chunk !! 2%nat) in
  let n := Z.lor (Z.lor (Z.shiftl b0 16) (Z.shiftl b1 8)) b2 in
  [b64_symbol (Z.land (Z.shiftr n 18) 63);
   b64_symbol (Z.land (Z.shiftr n 12) 63);
   (if (1 <? length chunk)%nat then b64_symbol (Z.land (Z.shiftr n 6) 63) else PAD);
   (if (2 <? length chunk)%nat then b64_symbol (Z.land n 63) else PAD)].

Definition base64_encode (input : bytes) : bytes :=
  concat (encode_chunk <$> chunks_of (length input) 3 input).

(** The table [val]. *)
Definition b64_table : list Z :=
  Eval vm_compute in
    foldl (fun t ic => <[Z.to_nat ic.2 := ic.1]> t) (replicate 256 255)
      (imap (fun i c => (Z.of_nat i, c)) B64_ALPHABET).

Definition b64_val (b : Z) : Z := nth (Z.to_nat b) b64_table 255.

(** [u8::is_ascii_whitespace] *)
Definition is_ascii_whitespace (b : Z) : bool :=
  (b =? 9) || (b =? 10) || (b =? 12) || (b =? 13) || (b =? 32).

Fixpoint decode_loop (input : bytes) (bits nbits : Z) (out : bytes) : option (Z * bytes) :=
  match input with
  | [] => Some (nbits, out)
  | b :: input =>
      if (b =? PAD) || is_ascii_whitespace b then decode_loop input bits nbits out
      else
        let v := b64_val b in
        if v =? 255 then None
        else
          let bits := Z.lor (wrap_u32 (Z.shiftl bits 6)) v in
          let nbits := nbits + 6 in
          if 8 <=? nbits then
            let nbits := nbits - 8 in
            decode_loop input bits nbits (out ++ [Z.shiftr bits nbits mod 256])
          else decode_loop input bits nbits out
  end.

Definition base64_decode (input : bytes) : option bytes :=
  let? (nbits, out) := decode_loop input 0 0 [] in
  if nbits =? 6 then None else Some out.

(** ** Payload types *)
Inductive MediaPayload := Bytes (b : bytes) | B64 (text : bytes) | Uri (uri : bytes).

Module PcmParams.
Record t := mk { sample_rate : Z; channels : Z; bit_depth : Z }.
End PcmParams.

Module MediaBlob.
Record t := mk { payload : MediaPayload; mime_type : bytes; pcm : option PcmParams.t }.

Definition contains (needle s : bytes) : bool := bool_decide (is_Some (find_sub needle s)).

Definition is_well_formed (m : t) : bool :=
  let raw_pcm := contains (bytes_of "L16") (mime_type m) || ends_with (bytes_of "/pcm") (mime_type m) ||
                 contains (bytes_of "codec=pcm") (mime_type m) in
  eqb raw_pcm (bool_decide (is_Some (pcm m))).
End MediaBlob.

Module ImageOutput.
Record t := mk { b64 : option bytes; url : option bytes; mime_type : option bytes;
                 revised_prompt : option bytes; seed : option Z; finish_reason : option bytes }.

Definition has_payload (m : t) : bool :=
  bool_decide (is_Some (b64 m)) || bool_decide (is_Some (url m)).
End ImageOutput.

(** ** Specification: RFC 4648 groups of six-bit values *)
Fixpoint ungroup (ss : list Z) : option bytes :=
  match ss with
  | [] => Some []
  | [_] => None
  | [a; b] => Some [a * 4 + b / 16]
  | [a; b; c] => Some [a * 4 + b / 16; b mod 16 * 16 + c / 4]
  | a :: b :: c :: d :: ss =>
      let? out := ungroup ss in
      Some (a * 4 + b / 16 :: b mod 16 * 16 + c / 4 :: c mod 4 * 64 + d :: out)
  end.

Definition significant (b : Z) : bool := negb ((b =? PAD) || is_ascii_whitespace b).

Definition sextet (b : Z) : option Z := if b64_val b =? 255 then None else Some (b64_val b).

Definition sextets (input : bytes) : option (list Z) := mapM sextet (List.filter significant input).

Lemma b64_val_range b : b64_val b = 255 \/ 0 <= b64_val b < 64.
Proof.
  unfold b64_val. assert (Forall (fun v => v = 255 \/ 0 <= v < 64) b64_table) as Hf.
  { repeat (apply Forall_cons; split; [first [left; reflexivity|right; lia]|]). apply Forall_nil_2. }
  destruct (nth_in_or_default (Z.to_nat b) b64_table 255) as [Hin|Hd]; [|by left].
  rewrite Forall_forall in Hf. apply Hf. by apply list_elem_of_In.
Qed.

(** ** The loop over the significant characters *)
Fixpoint run (ss : list Z) (bits nbits : Z) (out : bytes) : Z * bytes :=
  match ss with
  | [] => (nbits, out)
  | v :: ss =>
      let bits := wrap_u32 (bits * 64) + v in
      if 8 <=? nbits + 6 then run ss bits (nbits - 2) (out ++ [bits / 2 ^ (nbits - 2) mod 256])
      else run ss bits (nbits + 6) out
  end.

Lemma shift_in_sextet bits v : 0 <= v < 64 -> Z.lor (wrap_u32 (Z.shiftl bits 6)) v = wrap_u32 (bits * 64) + v.
Proof.
  intros Hv. rewrite Z.shiftl_mul_pow2 by lia. change (2 ^ 6) with 64.
  assert (wrap_u32 (bits * 64) = (bits mod 2 ^ 26) * 2 ^ 6) as ->.
  { unfold wrap_u32. Z.to_euclidean_division_equations. lia. }
  apply lor_add_low; lia.
Qed.

Lemma decode_loop_run input : forall bits nbits out, 0 <= nbits ->
  decode_loop input bits nbits out = (fun ss => run ss bits nbits out) <$> sextets input.
Proof.
  unfold sextets. induction input as [|b input IH]; intros bits nbits out Hn; [done|].
  cbn [decode_loop List.filter]. unfold significant at 1. destruct ((b =? PAD) || is_ascii_whitespace b); cbn [negb]; [by apply IH|].
  cbn [mapM]. assert (sextet b = if b64_val b =? 255 then None else Some (b64_val b)) as -> by done.
  destruct (b64_val_range b) as [E|Hv]; [by rewrite E|].
  rewrite (proj2 (Z.eqb_neq (b64_val b) 255)) by lia. rewrite shift_in_sextet by done. cbn [mbind option_bind].
  set (v := b64_val b) in *. set (rest := List.filter significant input) in *.
  destruct (Z.leb_spec 8 (nbits + 6)).
  - replace (nbits + 6 - 8) with (nbits - 2) by lia. rewrite Z.shiftr_div_pow2, IH by lia.
    destruct (mapM sextet rest) as [ss|]; [|done]. cbn. by rewrite (proj2 (Z.leb_le 8 (nbits + 6))) by lia.
  - rewrite IH by lia. destruct (mapM sextet rest) as [ss|]; [|done]. cbn.
    by rewrite (proj2 (Z.leb_gt 8 (nbits + 6))) by lia.
Qed.

(** Groups of four, whatever the accumulator holds. *)
Lemma byte1 bits a b : 0 <= a < 64 -> 0 <= b < 64 ->
  (wrap_u32 ((wrap_u32 (bits * 64) + a) * 64) + b) / 2 ^ 4 mod 256 = a * 4 + b / 16.
Proof. intros Ha Hb. unfold wrap_u32. change (2 ^ 4) with 16. Z.to_euclidean_division_equations. lia. Qed.

Lemma byte2 bits b c : 0 <= b < 64 -> 0 <= c < 64 ->
  (wrap_u32 ((wrap_u32 (bits * 64) + b) * 64) + c) / 2 ^ 2 mod 256 = b mod 16 * 16 + c / 4.
Proof. intros Ha Hb. unfold wrap_u32. change (2 ^ 2) with 4. Z.to_euclidean_division_equations. lia. Qed.

Lemma byte3 bits c d : 0 <= c < 64 -> 0 <= d < 64 ->
  (wrap_u32 ((wrap_u32 (bits * 64) + c) * 64) + d) / 2 ^ 0 mod 256 = c mod 4 * 64 + d.
Proof. intros Ha Hb. unfold wrap_u32. change (2 ^ 0) with 1. Z.to_euclidean_division_equations. lia. Qed.

Lemma run_ungroup n : forall ss bits out, (length ss <= n)%nat -> Forall (fun v => 0 <= v < 64) ss ->
  (let '(nbits, out) := run ss bits 0 out in if nbits =? 6 then None else Some out) = (fun l => out ++ l) <$> ungroup ss.
Proof.
  induction n as [|n IH]; intros ss bits out Hl Hs.
  { destruct ss; [|cbn in Hl; lia]. cbn. by rewrite app_nil_r. }
  destruct ss as [|a [|b [|c [|d ss]]]]; cbn [run ungroup]; change (8 <=? 0 + 6) with false; cbn iota.
  - cbn. by rewrite app_nil_r.
  - done.
  - apply Forall_cons in Hs as [Ha [Hb _]%Forall_cons]. change (8 <=? 0 + 6 + 6) with true. cbn iota.
    change (0 + 6 - 2) with 4. by rewrite byte1.
  - apply Forall_cons in Hs as [Ha [Hb [Hc _]%Forall_cons]%Forall_cons].
    change (8 <=? 0 + 6 + 6) with true. change (0 + 6 - 2) with 4. change (8 <=? 4 + 6) with true. cbn iota.
    change (4 - 2) with 2. rewrite byte1, byte2 by done. change (2 =? 6) with false. cbn. by rewrite <- (assoc_L (++)).
  - apply Forall_cons in Hs as [Ha [Hb [Hc [Hd Hs]%Forall_cons]%Forall_cons]%Forall_cons].
    change (8 <=? 0 + 6 + 6) with true. change (0 + 6 - 2) with 4. change (8 <=? 4 + 6) with true.
    change (4 - 2) with 2. change (8 <=? 2 + 6) with true. change (2 - 2) with 0. cbn iota.
    rewrite byte1, byte2, byte3 by done. rewrite IH by (cbn in Hl; done || lia).
    destruct (ungroup ss) as [l|]; [|done]. cbn. by rewrite <- !(assoc_L (++)).
Qed.

Lemma sextets_six_bits input ss : sextets input = Some ss -> Forall (fun v => 0 <= v < 64) ss.
Proof.
  unfold sextets. intros H. apply mapM_Some in H. revert H. generalize (List.filter significant input). intros l Hl.
  induction Hl as [|b v l ss Hb _ IH]; [done|]. constructor; [|done]. unfold sextet in Hb.
  destruct (b64_val_range b) as [E|Hv]; [by rewrite E in Hb|]. destruct (_ =? 255); [done|]. by injection Hb as <-.
Qed.

(** The base64 decoder is the decoder of RFC 4648: white space and padding are ignored wherever
    they stand, any other character outside the alphabet makes it fail, so does a single character left
    over in the last group, and otherwise its output is exactly the bytes of the groups, although its
    32-bit accumulator overflows on every input of more than five characters. *)
Theorem base64_decode_is_rfc4648 input :
  base64_decode input = (let? ss := sextets input in ungroup ss).
Proof.
  unfold base64_decode. rewrite decode_loop_run by lia. destruct (sextets input) as [ss|] eqn:E; [|done]. cbn.
  pose proof (run_ungroup (length ss) ss 0 [] (le_n _) (sextets_six_bits _ _ E)) as Hr.
  destruct (run ss 0 0 []) as [nb out]. rewrite Hr. by destruct (ungroup ss).
Qed.

(** ** Encoding *)
Lemma symbol_val i : 0 <= i < 64 -> significant (b64_symbol i) = true /\ sextet (b64_symbol i) = Some i.
Proof.
  intros Hi. assert (forallb (fun i => significant (b64_symbol i) && bool_decide (sextet (b64_symbol i) = Some i))
    (seqZ 0 64) = true) as Hf by (by vm_compute).
  rewrite List.forallb_forall in Hf. specialize (Hf i). rewrite <- list_elem_of_In, elem_of_seqZ in Hf.
  specialize (Hf ltac:(lia)). by apply andb_true_iff in Hf as [-> Hj%bool_decide_eq_true].
Qed.

(** The four values of a chunk. *)
Lemma chunk_bits b0 b1 b2 : 0 <= b0 < 256 -> 0 <= b1 < 256 -> 0 <= b2 < 256 ->
  Z.lor (Z.lor (Z.shiftl b0 16) (Z.shiftl b1 8)) b2 = b0 * 65536 + b1 * 256 + b2.
Proof.
  intros H0 H1 H2. rewrite !Z.shiftl_mul_pow2 by lia.
  rewrite (lor_add_low b0 (b1 * 2 ^ 8) 16) by lia.
  replace (b0 * 2 ^ 16 + b1 * 2 ^ 8) with ((b0 * 2 ^ 8 + b1) * 2 ^ 8) by lia.
  rewrite lor_add_low by lia. lia.
Qed.

Lemma mask6 n k : 0 <= k -> Z.land (Z.shiftr n k) 63 = n / 2 ^ k mod 64.
Proof. intros Hk. change 63 with (Z.ones 6). by rewrite Z.land_ones, Z.shiftr_div_pow2. Qed.

Definition chunk_sextets (chunk : bytes) : list Z :=
  match chunk with
  | [b0] => [b0 / 4; b0 mod 4 * 16]
  | [b0; b1] => [b0 / 4; b0 mod 4 * 16 + b1 / 16; b1 mod 16 * 4]
  | b0 :: b1 :: b2 :: _ => [b0 / 4; b0 mod 4 * 16 + b1 / 16; b1 mod 16 * 4 + b2 / 64; b2 mod 64]
  | [] => []
  end.

Lemma mask0 n : Z.land n 63 = n mod 64.
Proof. change 63 with (Z.ones 6). by rewrite Z.land_ones. Qed.

Lemma sextets_symbols vs rest : Forall (fun i => 0 <= i < 64) vs ->
  sextets ((b64_symbol <$> vs) ++ rest) = (fun ss => vs ++ ss) <$> sextets rest.
Proof.
  unfold sextets. induction 1 as [|i vs Hi _ IH]; [cbn; by destruct (mapM _ _)|]. cbn [fmap list_fmap app List.filter].
  destruct (symbol_val i Hi) as [-> Hs]. cbn [mapM]. rewrite Hs, IH. cbn. by destruct (mapM sextet (List.filter significant rest)).
Qed.

Ltac pointwise :=
  repeat match goal with
  | |- Some _ = Some _ => apply (f_equal Some)
  | |- _ :: _ = _ :: _ => apply (f_equal2 cons)
  | |- b64_symbol _ = b64_symbol _ => apply (f_equal b64_symbol)
  | |- ?x = ?x => reflexivity
  end.

Lemma encode_chunk_symbols chunk : bytes_ok chunk -> chunk <> [] -> (length chunk <= 3)%nat ->
  encode_chunk chunk = (b64_symbol <$> chunk_sextets chunk) ++ replicate (3 - length chunk) PAD /\
  Forall (fun i => 0 <= i < 64) (chunk_sextets chunk).
Proof.
  intros Hb Hn Hl. unfold encode_chunk. destruct chunk as [|b0 [|b1 [|b2 [|]]]]; [done| | | |cbn in Hl; lia].
  all: repeat (apply Forall_cons in Hb as [? Hb]); unfold byte_ok in *;
    cbn [nth lookup list_lookup from_option id length Nat.ltb Nat.leb chunk_sextets fmap list_fmap app replicate Nat.sub].
  all: rewrite chunk_bits, ?mask6, ?mask0 by lia; change (2 ^ 18) with 262144; change (2 ^ 12) with 4096; change (2 ^ 6) with 64.
  all: split; [|repeat (apply Forall_cons; split; [Z.to_euclidean_division_equations; lia|]); apply Forall_nil_2].
  all: pointwise; Z.to_euclidean_division_equations; lia.
Qed.

Lemma sextets_chunk chunk rest : bytes_ok chunk -> chunk <> [] -> (length chunk <= 3)%nat ->
  sextets (encode_chunk chunk ++ rest) = (fun ss => chunk_sextets chunk ++ ss) <$> sextets rest.
Proof.
  intros Hb Hn Hl. destruct (encode_chunk_symbols chunk Hb Hn Hl) as [-> Hf].
  rewrite <- (assoc_L (++)), sextets_symbols by done. f_equal.
  induction (3 - length chunk)%nat as [|n IH]; [done|exact IH].
Qed.

Lemma ungroup_chunk chunk ss l : bytes_ok chunk -> ungroup ss = Some l ->
  (length chunk = 3 \/ ss = [] /\ chunk <> [] /\ length chunk <= 3)%nat ->
  ungroup (chunk_sextets chunk ++ ss) = Some (chunk ++ l).
Proof.
  intros Hb Hu Hl.
  destruct chunk as [|b0 [|b1 [|b2 [|]]]]; try (exfalso; cbn in Hl; lia); try (by destruct Hl as [|(_ & ? & _)]).
  1, 2: destruct Hl as [|[-> _]]; [done|]; injection Hu as <-.
  all: repeat (apply Forall_cons in Hb as [? Hb]); unfold byte_ok in *; cbn; rewrite ?Hu; cbn; pointwise.
  all: Z.to_euclidean_division_equations; lia.
Qed.

Lemma encode_sextets fuel : forall l, (length l <= fuel)%nat -> bytes_ok l ->
  exists ss, sextets (concat (encode_chunk <$> chunks_of fuel 3 l)) = Some ss /\ ungroup ss = Some l.
Proof.
  induction fuel as [|fuel IH]; intros l Hl Hb; [destruct l; [by exists []|cbn in Hl; lia]|].
  destruct l as [|b l]; [by exists []|]. set (bl := b :: l) in *.
  assert (chunks_of (S fuel) 3 bl = take 3 bl :: chunks_of fuel 3 (drop 3 bl)) as -> by done.
  cbn [fmap list_fmap concat]. rewrite <- (take_drop 3 bl) in Hb. apply Forall_app in Hb as [Ht Hd].
  destruct (IH (drop 3 bl)) as (ss & Hs & Hu); [rewrite length_drop; cbn in Hl |- *; lia|done|].
  rewrite sextets_chunk by (done || rewrite length_take; lia). rewrite Hs. eexists. split; [done|].
  rewrite <- (take_drop 3 bl) at 2. apply ungroup_chunk; [done|done|]. rewrite length_take.
  destruct (decide (3 <= length bl)%nat); [left; lia|right]. rewrite drop_ge in Hs by lia.
  split_and!; [|done|lia]. destruct fuel; by injection Hs as <-.
Qed.

(** Base64 round trip: decoding the encoding of any bytes gives them back, and still does when
    padding is dropped or white space is inserted anywhere on the way. *)
Theorem base64_roundtrip input text : bytes_ok input ->
  List.filter significant text = List.filter significant (base64_encode input) ->
  base64_decode text = Some input.
Proof.
  intros Hb Ht. destruct (encode_sextets (length input) input (le_n _) Hb) as (ss & Hs & Hu).
  unfold base64_decode. rewrite decode_loop_run by lia.
  assert (sextets text = Some ss) as Hx by (unfold sextets; rewrite Ht; exact Hs). rewrite Hx. cbn.
  pose proof (run_ungroup (length ss) ss 0 [] (le_n _) (sextets_six_bits _ _ Hx)) as Hr.
  destruct (run ss 0 0 []) as [nb out]. by rewrite Hr, Hu.
Qed.

Lemma base64_roundtrip_witness :
  base64_encode (bytes_of "fooba") = bytes_of "Zm9vYmE=" /\
  base64_decode (bytes_of "Zm9v Ym" ++ [10] ++ bytes_of "E") = Some (bytes_of "fooba").
Proof.
  split; [reflexivity|]. apply (base64_roundtrip (bytes_of "fooba")); [|reflexivity].
  change (bytes_of "fooba") with [102; 111; 111; 98; 97]. repeat (constructor; [unfold byte_ok; lia|]). constructor.
Defined.
