(* ===== verification/Translate.v ===== *)
(** * The response-stream translator (crates/busbar/src/proto/stream.rs, proto/mod.rs)

    [StreamTranslate]: egress bytes in, ingress bytes out.  It reassembles frames (server-sent events,
    or AWS event-stream frames through [EventStream]), runs the egress reader on each, repairs the
    events (tool ids, identity, usage), and either re-emits the original bytes (same protocol) or
    writes the events through the ingress writer and framing.  Protocols are the classes of [Ir];
    [elapsed] are the readings of the stream clock, one per written frame; [serde_json], the CRC and
    hexadecimal encoding are parameters.  [None] is a panic or lack of fuel, excluded by theorem. *)
From stdpp Require Import base list strings gmap.
From Stdlib Require Import ZArith Lia.
From S2P Require Import Prelude Breaker EventStream Sse Ir UsageStrip.
Open Scope Z_scope.
Open Scope rust_scope.

(** ** Tool ids *)
Definition PROTO_ANTHROPIC : bytes := Eval cbv in bytes_of "anthropic".
Definition PROTO_OPENAI : bytes := Eval cbv in bytes_of "openai".
Definition PROTO_BEDROCK : bytes := Eval cbv in bytes_of "bedrock".
Definition PROTO_COHERE : bytes := Eval cbv in bytes_of "cohere".
Definition PROTO_RESPONSES : bytes := Eval cbv in bytes_of "responses".

Definition native_tool_id_prefix (protocol_name : bytes) : option bytes :=
  if bool_decide (protocol_name = PROTO_ANTHROPIC) then Some (bytes_of "toolu_")
  else if bool_decide (protocol_name = PROTO_OPENAI) || bool_decide (protocol_name = PROTO_RESPONSES)
  then Some (bytes_of "call_")
  else if bool_decide (protocol_name = PROTO_BEDROCK) then Some (bytes_of "tooluse_")
  else None.

Definition TOOL_ID_REMAP_MARKER : bytes := Eval cbv in bytes_of "bb1".

(** The crate [hex]: decoding inverts encoding of bytes, and only the empty string encodes to the empty
    one. *)
Class Hex := {
  hex_encode : bytes -> bytes;
  hex_decode : bytes -> option bytes;
  hex_decode_encode b : Forall (fun x => 0 <= x < 256) b -> hex_decode (hex_encode b) = Some b;
  hex_encode_nil b : hex_encode b = [] -> b = [] }.

Section ToolIds.
Context {H : Hex}.

(** [ToolIdRemap] is its map. *)
Definition native_for (map : gmap bytes bytes) (ingress_protocol egress_id : bytes)
    : gmap bytes bytes * bytes :=
  match native_tool_id_prefix ingress_protocol with
  | None => (map, egress_id)
  | Some prefix =>
      match map !! egress_id with
      | Some existing => (map, existing)
      | None =>
          let native := prefix ++ TOOL_ID_REMAP_MARKER ++ hex_encode egress_id in
          (<[egress_id := native]> map, native)
      end
  end.

Definition decode_native_tool_id (ingress_protocol id : bytes) : option bytes :=
  let? prefix := native_tool_id_prefix ingress_protocol in
  let? rest := strip_bytes prefix id in
  let? hexpart := strip_bytes TOOL_ID_REMAP_MARKER rest in
  match hexpart with
  | [] => None
  | _ => let? bs := hex_decode hexpart in if utf8_valid bs then Some bs else None
  end.

Definition remap_event {J : Json} (map : gmap bytes bytes) (ingress_protocol : bytes) (ev : IrStreamEvent)
    : gmap bytes bytes * IrStreamEvent :=
  match ev with
  | BlockStart index (ToolUseBlock id name) =>
      let '(map, id) := native_for map ingress_protocol id in
      (map, BlockStart index (ToolUseBlock id name))
  | _ => (map, ev)
  end.
End ToolIds.

(** ** Usage *)

(** The fields a terminal delta left empty, from the start of the stream. *)
Definition backfill_usage (start : option IrUsage.t) (u : IrUsage.t) : IrUsage.t :=
  match start with
  | None => u
  | Some s =>
      IrUsage.mk
        (if IrUsage.input_tokens u =? 0 then IrUsage.input_tokens s else IrUsage.input_tokens u)
        (IrUsage.output_tokens u)
        (match IrUsage.cache_creation_input_tokens u with
         | None => IrUsage.cache_creation_input_tokens s | c => c end)
        (match IrUsage.cache_read_input_tokens u with
         | None => IrUsage.cache_read_input_tokens s | c => c end)
  end.

(** The accumulation of [last_usage]. *)
Definition accumulate_usage (last : option IrUsage.t) (u : IrUsage.t) : IrUsage.t :=
  let acc := default IrUsage.zero last in
  IrUsage.mk
    (if negb (IrUsage.input_tokens u =? 0) then IrUsage.input_tokens u else IrUsage.input_tokens acc)
    (if negb (IrUsage.output_tokens u =? 0) then IrUsage.output_tokens u else IrUsage.output_tokens acc)
    (match IrUsage.cache_creation_input_tokens u with
     | None => IrUsage.cache_creation_input_tokens acc | c => c end)
    (match IrUsage.cache_read_input_tokens u with
     | None => IrUsage.cache_read_input_tokens acc | c => c end).

Definition merge_trailing_usage (acc trailing : IrUsage.t) : IrUsage.t :=
  IrUsage.mk
    (if 0 <? IrUsage.input_tokens trailing then IrUsage.input_tokens trailing else IrUsage.input_tokens acc)
    (if 0 <? IrUsage.output_tokens trailing then IrUsage.output_tokens trailing else IrUsage.output_tokens acc)
    (match IrUsage.cache_creation_input_tokens trailing with
     | None => IrUsage.cache_creation_input_tokens acc | c => c end)
    (match IrUsage.cache_read_input_tokens trailing with
     | None => IrUsage.cache_read_input_tokens acc | c => c end).

Definition UPSTREAM_ERROR : string := "upstream stream error".
Definition STREAM_ABORT_DETAIL : string := "The response stream was interrupted.".

Module StreamTranslate.
Record t (W D F : Type) := mk {
  ingress : W; decode : D; buf : bytes; scanned : nat; aborted : bool; emit_done : bool;
  egress_eventstream : bool; ingress_eventstream : bool; started : bool; written : nat; framing : F;
  tool_id_remap : gmap bytes bytes; start_usage : option IrUsage.t; message_stopped : bool;
  same_proto : bool; last_usage : option IrUsage.t; terminal_error : option string;
  pending_terminal : option (IrStopReason * option bytes * IrUsage.t); pending_stop : bool }.
Arguments mk {W D F}. Arguments ingress {W D F}. Arguments decode {W D F}. Arguments buf {W D F}.
Arguments scanned {W D F}. Arguments aborted {W D F}. Arguments emit_done {W D F}.
Arguments egress_eventstream {W D F}. Arguments ingress_eventstream {W D F}. Arguments started {W D F}.
Arguments written {W D F}. Arguments framing {W D F}. Arguments tool_id_remap {W D F}.
Arguments start_usage {W D F}. Arguments message_stopped {W D F}. Arguments same_proto {W D F}.
Arguments last_usage {W D F}. Arguments terminal_error {W D F}. Arguments pending_terminal {W D F}.
Arguments pending_stop {W D F}.

Section Setters.
Context {W D F : Type}.
Notation T := (t W D F).

(** The bytes in hand and how far they were searched. *)
Definition set_buf (b : bytes) (n : nat) (x : T) : T :=
  mk (ingress x) (decode x) b n (aborted x) (emit_done x) (egress_eventstream x) (ingress_eventstream x)
    (started x) (written x) (framing x) (tool_id_remap x) (start_usage x) (message_stopped x) (same_proto x)
    (last_usage x) (terminal_error x) (pending_terminal x) (pending_stop x).
Definition set_aborted (x : T) : T :=
  mk (ingress x) (decode x) [] 0 true (emit_done x) (egress_eventstream x) (ingress_eventstream x)
    (started x) (written x) (framing x) (tool_id_remap x) (start_usage x) (message_stopped x) (same_proto x)
    (last_usage x) (terminal_error x) (pending_terminal x) (pending_stop x).
Definition set_started (x : T) : T :=
  mk (ingress x) (decode x) (buf x) (scanned x) (aborted x) (emit_done x) (egress_eventstream x)
    (ingress_eventstream x) true (written x) (framing x) (tool_id_remap x) (start_usage x)
    (message_stopped x) (same_proto x) (last_usage x) (terminal_error x) (pending_terminal x) (pending_stop x).
Definition set_decode (d : D) (x : T) : T :=
  mk (ingress x) d (buf x) (scanned x) (aborted x) (emit_done x) (egress_eventstream x)
    (ingress_eventstream x) (started x) (written x) (framing x) (tool_id_remap x) (start_usage x)
    (message_stopped x) (same_proto x) (last_usage x) (terminal_error x) (pending_terminal x) (pending_stop x).
(** The writer, the framing and the frames written so far. *)
Definition set_writer (w : W) (n : nat) (f : F) (x : T) : T :=
  mk w (decode x) (buf x) (scanned x) (aborted x) (emit_done x) (egress_eventstream x)
    (ingress_eventstream x) (started x) n f (tool_id_remap x) (start_usage x)
    (message_stopped x) (same_proto x) (last_usage x) (terminal_error x) (pending_terminal x) (pending_stop x).
Definition set_framing (f : F) (x : T) : T := set_writer (ingress x) (written x) f x.
Definition set_remap (m : gmap bytes bytes) (x : T) : T :=
  mk (ingress x) (decode x) (buf x) (scanned x) (aborted x) (emit_done x) (egress_eventstream x)
    (ingress_eventstream x) (started x) (written x) (framing x) m (start_usage x)
    (message_stopped x) (same_proto x) (last_usage x) (terminal_error x) (pending_terminal x) (pending_stop x).
Definition set_start_usage (u : option IrUsage.t) (x : T) : T :=
  mk (ingress x) (decode x) (buf x) (scanned x) (aborted x) (emit_done x) (egress_eventstream x)
    (ingress_eventstream x) (started x) (written x) (framing x) (tool_id_remap x) u
    (message_stopped x) (same_proto x) (last_usage x) (terminal_error x) (pending_terminal x) (pending_stop x).
Definition set_stopped (x : T) : T :=
  mk (ingress x) (decode x) (buf x) (scanned x) (aborted x) (emit_done x) (egress_eventstream x)
    (ingress_eventstream x) (started x) (written x) (framing x) (tool_id_remap x) (start_usage x)
    true (same_proto x) (last_usage x) (terminal_error x) (pending_terminal x) (pending_stop x).
Definition set_last_usage (u : option IrUsage.t) (x : T) : T :=
  mk (ingress x) (decode x) (buf x) (scanned x) (aborted x) (emit_done x) (egress_eventstream x)
    (ingress_eventstream x) (started x) (written x) (framing x) (tool_id_remap x) (start_usage x)
    (message_stopped x) (same_proto x) u (terminal_error x) (pending_terminal x) (pending_stop x).
Definition set_terminal_error (e : option string) (x : T) : T :=
  mk (ingress x) (decode x) (buf x) (scanned x) (aborted x) (emit_done x) (egress_eventstream x)
    (ingress_eventstream x) (started x) (written x) (framing x) (tool_id_remap x) (start_usage x)
    (message_stopped x) (same_proto x) (last_usage x) e (pending_terminal x) (pending_stop x).
Definition set_pending (p : option (IrStopReason * option bytes * IrUsage.t)) (stop : bool) (x : T) : T :=
  mk (ingress x) (decode x) (buf x) (scanned x) (aborted x) (emit_done x) (egress_eventstream x)
    (ingress_eventstream x) (started x) (written x) (framing x) (tool_id_remap x) (start_usage x)
    (message_stopped x) (same_proto x) (last_usage x) (terminal_error x) p stop.
End Setters.
End StreamTranslate.
Import StreamTranslate.

Section Translate.
Context {J : Json} {H : Hex} {W D F : Type} {RD : Reader D} {WR : Writer W} {SF : StreamFraming F}.
Context (crc32 : bytes -> Z) (json_message : bytes -> option bytes) (elapsed : nat -> Z).
Notation T := (StreamTranslate.t W D F).

Definition TRANSLATE_MAX_BUF : Z := MAX_FRAME_BYTES.

(** [StreamTranslate::build] for a known pair of protocols: [w] and [f] are the ingress writer and its
    framing, [egress_es] whether the egress is an event stream. *)
Definition build (w : W) (f : F) (egress_es same : bool) : T :=
  mk w decode_default [] 0 false (emits_sse_done_terminator w) egress_es (ingress_is_eventstream w)
    false 0 f ∅ None false same None None None false.

(** ** Writing an event *)
Definition emit_ir_event (x : T) (ev : IrStreamEvent) : T * bytes :=
  let '(w, written_ev) := write_response_event (ingress x) ev in
  match written_ev with
  | None => (set_writer w (written x) (framing x) x, [])
  | Some (out_et, out_data) =>
      if ingress_eventstream x then
        let data := inject_streaming_metrics (framing x) out_et out_data
                      (if started x then Some (elapsed (written x)) else None) in
        (set_writer w (S (written x)) (framing x) x, encode_frame crc32 out_et (to_text data))
      else
        let '(f, chunk, trailing) := on_egress_chunk (framing x) out_data in
        (set_writer w (S (written x)) f x,
         reframe_sse out_et (to_text chunk) ++
         match trailing with Some tr => reframe_sse out_et (to_text tr) | None => [] end)
  end.

Fixpoint emit_all (x : T) (evs : list IrStreamEvent) : T * bytes :=
  match evs with
  | [] => (x, [])
  | ev :: evs => let '(x, o) := emit_ir_event x ev in let '(x, os) := emit_all x evs in (x, o ++ os)
  end.

(** ** One event of the reader: what it tells about usage and errors, and its native shape *)
Definition note_event (x : T) (ev : IrStreamEvent) : T * IrStreamEvent :=
  let '(m, ev) := remap_event (tool_id_remap x) (protocol_name (ingress x)) ev in
  let x := set_remap m x in
  match ev with
  | MessageStart role usage _ _ model =>
      (match usage with Some _ => set_start_usage usage x | None => x end,
       MessageStart role usage None None model)
  | MessageDelta sr ss usage =>
      let usage := backfill_usage (start_usage x) usage in
      (set_last_usage (Some (accumulate_usage (last_usage x) usage)) x, MessageDelta sr ss usage)
  | Error err => (set_terminal_error (Some (default UPSTREAM_ERROR (provider_signal err))) x, ev)
  | _ => (x, ev)
  end.

(** The tail of the loop body: ordering after the end of the message, and citations. *)
Definition write_event (x : T) (ev : IrStreamEvent) : T * bytes :=
  match ev with
  | MessageDelta _ _ _ => if message_stopped x then (x, []) else emit_ir_event x ev
  | MessageStop => emit_ir_event (set_stopped x) ev
  | BlockDelta index (CitationsDelta citations) =>
      match max_citations_per_delta (ingress x) with
      | Some max_per_event =>
          if (max_per_event <? length citations)%nat
          then emit_all x ((fun c => BlockDelta index (CitationsDelta c)) <$>
                             chunks_of (length citations) max_per_event citations)
          else emit_ir_event x ev
      | None => emit_ir_event x ev
      end
  | _ => emit_ir_event x ev
  end.

(** The deferral of the terminal delta. *)
Definition fold_event (x : T) (ev : IrStreamEvent) : option T :=
  if folds_terminal_usage (framing x) then
    match ev, pending_terminal x with
    | MessageDelta (Some _) _ usage, Some (r, s, acc) =>
        Some (set_pending (Some (r, s, merge_trailing_usage acc usage)) (pending_stop x) x)
    | MessageDelta (Some reason) ss usage, None => Some (set_pending (Some (reason, ss, usage)) (pending_stop x) x)
    | MessageStop, Some p => Some (set_pending (Some p) true x)
    | MessageDelta None _ usage, Some (r, s, acc) =>
        Some (set_pending (Some (r, s, merge_trailing_usage acc usage)) (pending_stop x) x)
    | _, _ => None
    end
  else None.

Definition usage_only_event (x : T) (ev : IrStreamEvent) : T * option bytes :=
  match ev with
  | MessageDelta None _ _ =>
      let '(f, r) := on_usage_only_delta (framing x) in
      let x := set_framing f x in
      match r with
      | Some true => let '(x, o) := emit_ir_event x ev in (x, Some o)
      | Some false => (x, Some [])
      | None => (x, None)
      end
  | _ => (x, None)
  end.

Definition combined_event (x : T) (ev : IrStreamEvent) : T * option bytes :=
  match ev with
  | MessageDelta (Some reason) ss usage =>
      let '(f, r) := on_combined_stop_delta (framing x) reason ss usage in
      let x := set_framing f x in
      match r with
      | Some evs => let '(x, o) := emit_all x evs in (x, Some o)
      | None => (x, None)
      end
  | _ => (x, None)
  end.

Definition exception_event (x : T) (ev : IrStreamEvent) : option bytes :=
  match ev with
  | Error err =>
      if ingress_eventstream x then
        let? (exc_name, message) := write_response_exception (ingress x) err in
        Some (encode_exception_frame crc32 json_message exc_name message)
      else None
  | _ => None
  end.

(** The body of the loop of [translate_event]. *)
Definition on_event (acc : T * bytes) (ev : IrStreamEvent) : T * bytes :=
  let '(x, out) := acc in
  let '(x, ev) := note_event x ev in
  match exception_event x ev with
  | Some o => (x, out ++ o)
  | None =>
      let '(x, combined) := combined_event x ev in
      match combined with
      | Some o => (x, out ++ o)
      | None =>
          match fold_event x ev with
          | Some x => (x, out)
          | None =>
              let '(x, usage_only) := usage_only_event x ev in
              match usage_only with
              | Some o => (x, out ++ o)
              | None => let '(x, o) := write_event x ev in (x, out ++ o)
              end
          end
      end
  end.

Definition translate_event (x : T) (event_type : bytes) (data : Value) (out : bytes) : T * bytes :=
  let '(d, evs) := read_response_events event_type data (decode x) in
  foldl on_event (set_decode d x, out) evs.

(** ** Same protocol: usage and errors only *)
Definition on_event_usage (x : T) (ev : IrStreamEvent) : T :=
  match ev with
  | MessageStart _ (Some u) _ _ _ => set_start_usage (Some u) x
  | Error err => set_terminal_error (Some (default UPSTREAM_ERROR (provider_signal err))) x
  | MessageDelta _ _ usage =>
      set_last_usage (Some (accumulate_usage (last_usage x) (backfill_usage (start_usage x) usage))) x
  | _ => x
  end.

Definition extract_usage_only (x : T) (event_type : bytes) (data : Value) : T :=
  let '(d, evs) := read_response_events event_type data (decode x) in
  foldl on_event_usage (set_decode d x) evs.

(** ** Feeding *)
Definition abort (x : T) : T := set_aborted x.

(** One event-stream frame. *)
Definition on_es_frame (acc : T * bytes) (fr : bytes * bytes) : T * bytes :=
  let '(x, out) := acc in
  let '(event_type, payload) := fr in
  match parse_str payload with
  | None => (x, out)
  | Some data =>
      let data := insert_type event_type data in
      if same_proto x then (extract_usage_only x event_type data, out)
      else translate_event x event_type data out
  end.

(** One server-sent frame of the buffer [b]; the last component is the start of the region not yet
    re-emitted. *)
Definition on_sse_frame (b : bytes) (frame_start fin : nat) (acc : T * bytes * nat) : T * bytes * nat :=
  let '(x, out, emit_from) := acc in
  match frame_value (cut frame_start fin b) with
  | None => acc
  | Some (event_type, data_str, data) =>
      if same_proto x then
        let x := extract_usage_only x event_type data in
        if suppress_same_proto_frame (framing x) data then
          (x, out ++ (if (emit_from <? frame_start)%nat then cut emit_from frame_start b else []), fin)
        else if strip_same_proto_usage (framing x) data then
          (x, out ++ (if (emit_from <? frame_start)%nat then cut emit_from frame_start b else []) ++
              rewrite_frame_strip_usage (cut frame_start fin b) data_str, fin)
        else (x, out, emit_from)
      else let '(x, out) := translate_event x event_type data out in (x, out, emit_from)
  end.

Definition feed_sse (x : T) : option (T * bytes) :=
  let b := buf x in
  let? (acc, consumed) := drain_sse (S (length b)) (on_sse_frame b) b (scanned x) 0 (x, [], 0%nat) in
  let '(x, out, emit_from) := acc in
  let out := out ++ (if same_proto x && (emit_from <? consumed)%nat then cut emit_from consumed b else []) in
  let b := if (0 <? consumed)%nat then drop consumed b else b in
  let x := set_buf b (length b) x in
  Some (if TRANSLATE_MAX_BUF <? len b then abort x else x, out).

Definition feed_es (x : T) : option (T * bytes) :=
  let? d := drain_frames_checked (buf x) (if same_proto x then Some [] else None) in
  let '(x, out) := foldl on_es_frame (set_buf (Drain.buf d) (scanned x) x, default [] (Drain.sink d))
                     (Drain.frames d) in
  Some (match Drain.status d with
        | MalformedPrelude => abort x
        | DrainOk => if TRANSLATE_MAX_BUF <? len (buf x) then abort x else x
        end, out).

Definition feed (x : T) (chunk : bytes) : option (T * bytes) :=
  if aborted x then Some (x, [])
  else
    let x := set_buf (buf x ++ chunk) (scanned x) (set_started x) in
    if egress_eventstream x then feed_es x else feed_sse x.

(** ** The end of the stream *)
Definition finish (x : T) : T * bytes :=
  if aborted x then
    match abort_exception_type (framing x) with
    | Some exc_type => (x, encode_exception_frame crc32 json_message exc_type (bytes_of STREAM_ABORT_DETAIL))
    | None =>
        let '(x, out) := emit_ir_event x (Error (mkSignal ServerError (Some STREAM_ABORT_DETAIL) None)) in
        (x, out ++ if emit_done x then SSE_DONE_FRAME else [])
    end
  else if same_proto x then (x, [])
  else
    let '(f, trailing) := on_finish (framing x) in
    let x := set_framing f x in
    let '(x, out1) := match trailing with Some ev => emit_ir_event x ev | None => (x, []) end in
    let '(x, out2) :=
      match pending_terminal x with
      | Some (reason, ss, usage) =>
          let x := set_pending None (pending_stop x) x in
          emit_all x (MessageDelta (Some reason) ss usage :: if pending_stop x then [MessageStop] else [])
      | None => (x, [])
      end in
    (x, out1 ++ out2 ++ if emit_done x then SSE_DONE_FRAME else []).

Fixpoint feed_stream (x : T) (chunks : list bytes) : option (T * bytes) :=
  match chunks with
  | [] => Some (x, [])
  | c :: cs =>
      let? (x, out) := feed x c in
      let? (x, outs) := feed_stream x cs in
      Some (x, out ++ outs)
  end.
End Translate.
