(* ===== verification/StreamDemo.v ===== *)
(** * Concrete instances of the stream interfaces

    Hexadecimal as the crate defines it, and a small protocol (each frame's text is one text delta
    followed by a usage report; the writer sends text deltas back as they are), for the examples. *)
From stdpp Require Import base list strings gmap.
From Stdlib Require Import ZArith Lia.
From S2P Require Import Prelude Breaker EventStream EventStreamFacts Sse SseFacts Ir UsageStrip Translate.
Open Scope Z_scope.
Open Scope rust_scope.

Module StreamDemo.
Definition digit (n : Z) : Z := if n <? 10 then 48 + n else 87 + n.

Definition undigit (c : Z) : option Z :=
  if (48 <=? c) && (c <=? 57) then Some (c - 48)
  else if (97 <=? c) && (c <=? 102) then Some (c - 87)
  else if (65 <=? c) && (c <=? 70) then Some (c - 55)
  else None.

Fixpoint encode (b : bytes) : bytes :=
  match b with [] => [] | x :: b => digit (x / 16) :: digit (x mod 16) :: encode b end.

Fixpoint decode (s : bytes) : option bytes :=
  match s with
  | [] => Some []
  | [_] => None
  | h :: l :: s =>
      let? h := undigit h in let? l := undigit l in let? b := decode s in Some (16 * h + l :: b)
  end.

Lemma undigit_digit n : 0 <= n < 16 -> undigit (digit n) = Some n.
Proof.
  intros Hn. assert (n ∈ seqZ 0 16) as Hin by (apply elem_of_seqZ; lia). revert Hin.
  cut (Forall (fun n => undigit (digit n) = Some n) (seqZ 0 16)); [|by repeat constructor].
  rewrite Forall_forall. auto.
Qed.

Lemma decode_encode b : Forall (fun x => 0 <= x < 256) b -> decode (encode b) = Some b.
Proof.
  induction 1 as [|x b Hx _ IH]; [done|]. cbn [encode decode].
  pose proof (Z.div_mod x 16 ltac:(lia)). pose proof (Z.mod_pos_bound x 16 ltac:(lia)).
  assert (0 <= x / 16 < 16) by (split; [apply Z.div_pos; lia|apply Z.div_lt_upper_bound; lia]).
  rewrite !undigit_digit, IH by lia. do 2 f_equal. lia.
Qed.

#[export] Program Instance hex : Hex := {
  hex_encode := encode;
  hex_decode := decode;
  hex_decode_encode := decode_encode }.
Next Obligation. by intros [|x b]. Qed.

#[export] Instance json : Json := {
  Value := bytes;
  parse_str b := Some b;
  to_text v := v;
  insert_type _ v := v;
  rpc_status _ message _ := message }.

#[export] Instance reader : Reader unit := {
  decode_default := tt;
  read_response_events _ data d :=
    (d, [BlockDelta 0 (TextDelta data); MessageDelta (Some EndTurn) None (IrUsage.mk 3 (len data) None None)]) }.

Inductive writer := W.

Lemma no_limit n : @None nat = Some n -> n <> 0%nat.
Proof. done. Qed.

#[export] Instance writing : Writer writer := {
  protocol_name _ := PROTO_ANTHROPIC;
  write_response_event w ev :=
    (w, match ev with BlockDelta _ (TextDelta t) => Some ([], t) | _ => None end);
  write_response_exception _ _ := None;
  max_citations_per_delta _ := None;
  emits_sse_done_terminator _ := true;
  ingress_is_eventstream _ := false;
  max_citations_pos _ := no_limit }.

Definition crc (_ : bytes) : Z := 0.
Definition message (_ : bytes) : option bytes := None.
Definition clock (_ : nat) : Z := 5.

Definition start (same : bool) : StreamTranslate.t writer unit PassthroughFraming := build W passthrough false same.

(** Two frames, cut in the middle of the first and inside the terminator of the second. *)
Definition chunks : list bytes :=
  [bytes_of "data: {" ; bytes_of "}" ++ [10; 10] ++ bytes_of "data: [1]" ++ [10]; [10]].
End StreamDemo.
