(* ===== verification/IrSeam.v ===== *)
(** * The cross-protocol seam (crates/busbar/src/ir/mod.rs, ir/variant.rs, proto/mod.rs)

    The chat request and response representations, and what is done to them between two
    protocols: [prepare_for_egress] on the way to a foreign backend, [prepare_for_ingress] on the way
    back, with the tool-id mapping in both directions and the reasoning projection.  Floating-point
    numbers are [spec_float]s, JSON objects maps from member names to values. *)
From stdpp Require Import base list strings gmap.
From Stdlib Require Import ZArith Lia SpecFloat.
From Stdlib Require Import ZArith Lia.
From S2P Require Import Prelude EventStream EventStreamFacts Sse SseFacts Ir Translate.
From S2P Require Import StreamDemo.
Open Scope Z_scope.
Open Scope rust_scope.

(** ** Reasoning *)
Inductive IrReasoningEffort := Minimal | Low | Medium | High.

Inductive IrReasoningAsk := Effort (e : IrReasoningEffort) | Budget (n : Z) | Dynamic.

(** The table [minimal, low, medium, high]. *)
Definition table := (Z * Z * Z * Z)%type.

Definition REASONING_BUDGET_DEFAULTS : table := (1024, 4096, 8192, 16384).

Definition to_budget (a : IrReasoningAsk) (t : table) : Z :=
  let '(t0, t1, t2, t3) := t in
  match a with
  | Budget n => n
  | Effort Minimal => t0
  | Effort Low => t1
  | Effort Medium => t2
  | Effort High => t3
  | Dynamic => t2
  end.

Definition to_effort (a : IrReasoningAsk) (t : table) : IrReasoningEffort :=
  let '(_, t1, t2, t3) := t in
  match a with
  | Effort e => e
  | Dynamic => Medium
  | Budget n => if t3 <=? n then High else if t2 <=? n then Medium else if t1 <=? n then Low else Minimal
  end.

Definition as_str (e : IrReasoningEffort) : bytes :=
  match e with
  | Minimal => bytes_of "minimal" | Low => bytes_of "low"
  | Medium => bytes_of "medium" | High => bytes_of "high"
  end.

Definition as_openai_reasoning_effort (e : IrReasoningEffort) : bytes :=
  match e with Minimal => bytes_of "low" | other => as_str other end.

Definition parse_effort (s : bytes) : option IrReasoningEffort :=
  if bool_decide (s = bytes_of "minimal") then Some Minimal
  else if bool_decide (s = bytes_of "low") then Some Low
  else if bool_decide (s = bytes_of "medium") then Some Medium
  else if bool_decide (s = bytes_of "high") then Some High
  else None.

(** The boot-time check of [limits.reasoning_effort_budgets] (config_validate). *)
Definition budgets_valid (t : table) : bool :=
  let '(t0, t1, t2, t3) := t in
  negb ((t0 =? 0) || (t1 =? 0) || (t2 =? 0) || (t3 =? 0)) && ((t0 <=? t1) && (t1 <=? t2) && (t2 <=? t3)).

Section Seam.
Context {J : Json} {H : Hex}.

(** ** The chat representation *)
Inductive CacheKind := Ephemeral.
Record CacheControl := mk_cache { cache_kind : CacheKind }.

Inductive IrImageSource :=
  | SourceBase64 (media_type data : bytes)
  | SourceUrl (url : bytes)
  | SourceVendor (vendor : bytes) (value : Value).

Inductive IrBlock :=
  | Text (text : bytes) (cache_control : option CacheControl) (citations : list IrCitation)
  | Thinking (text : bytes) (signature : option bytes) (redacted : bool) (cache_control : option CacheControl)
  | ToolUse_ (id name : bytes) (input : Value) (cache_control : option CacheControl)
  | ToolResult (tool_use_id : bytes) (content : list IrBlock) (is_error : bool) (cache_control : option CacheControl)
  | Image (source : IrImageSource) (cache_control : option CacheControl)
  | JsonBlock (v : Value).

Record IrMessage := mk_message { role : IrRole; content : list IrBlock }.

Record IrTool := mk_tool {
  name : bytes; description : option bytes; input_schema : Value; tool_cache : option CacheControl;
  hosted : option Value }.

Inductive IrToolChoice := ChoiceAuto | ChoiceNone | ChoiceRequired | ChoiceTool (name : bytes).

Record IrResponseFormat := mk_format {
  json_mode : bool; schema : option Value; format_name : option bytes; strict : option bool;
  format_description : option bytes }.

(** The sampling and output controls the seam hands on as they are. *)
Record Controls := mk_controls {
  temperature : option spec_float; top_p : option spec_float; top_k : option Z;
  frequency_penalty : option spec_float; presence_penalty : option spec_float; seed : option Z;
  logprobs : option bool; top_logprobs : option Z; response_format : option IrResponseFormat;
  stop : list bytes; tool_choice : option IrToolChoice; user : option bytes;
  parallel_tool_calls : option bool; stream : bool }.

Record IrRequest := mk_request {
  system : list IrBlock; messages : list IrMessage; tools : list IrTool; max_tokens : option Z;
  n : option Z; reasoning : option IrReasoningAsk; reasoning_budgets : option table;
  controls : Controls; extra : gmap bytes Value }.

Record IrResponse := mk_response {
  resp_role : IrRole; resp_content : list IrBlock; stop_reason : option IrStopReason;
  resp_usage : IrUsage.t; model : option bytes; resp_id : option bytes; created : option Z;
  system_fingerprint : option bytes; stop_sequence : option bytes; resp_logprobs : list IrTokenLogprob.t }.

(** ** Tool ids, out and back *)

(** [remap_block], with the map threaded through the blocks in order. *)
Fixpoint remap_block (p : bytes) (b : IrBlock) (m : gmap bytes bytes) : gmap bytes bytes * IrBlock :=
  match b with
  | ToolUse_ id name input cc => let '(m, id) := native_for m p id in (m, ToolUse_ id name input cc)
  | ToolResult id content err cc =>
      let '(m, id) := native_for m p id in
      let '(m, content) :=
        (fix go l m := match l with
                       | [] => (m, [])
                       | b :: l => let '(m, b) := remap_block p b m in let '(m, l) := go l m in (m, b :: l)
                       end) content m in
      (m, ToolResult id content err cc)
  | _ => (m, b)
  end.

Definition remap_blocks (p : bytes) : list IrBlock -> gmap bytes bytes -> gmap bytes bytes * list IrBlock :=
  fix go l m := match l with
                | [] => (m, [])
                | b :: l => let '(m, b) := remap_block p b m in let '(m, l) := go l m in (m, b :: l)
                end.

Definition remap_response (p : bytes) (ir : IrResponse) (m : gmap bytes bytes) : gmap bytes bytes * IrResponse :=
  let '(m, content) := remap_blocks p (resp_content ir) m in
  (m, mk_response (resp_role ir) content (stop_reason ir) (resp_usage ir) (model ir) (resp_id ir) (created ir)
        (system_fingerprint ir) (stop_sequence ir) (resp_logprobs ir)).

(** The inner [walk]. *)
Fixpoint walk (p : bytes) (b : IrBlock) : IrBlock :=
  match b with
  | ToolUse_ id name input cc => ToolUse_ (default id (decode_native_tool_id p id)) name input cc
  | ToolResult id content err cc =>
      ToolResult (default id (decode_native_tool_id p id)) (walk p <$> content) err cc
  | _ => b
  end.

Definition decode_request_tool_ids (p : bytes) (msgs : list IrMessage) : list IrMessage :=
  (fun m => mk_message (role m) (walk p <$> content m)) <$> msgs.

(** ** The request, on its way out *)
Record EgressPrep := mk_prep {
  ingress_protocol : bytes; egress_requires_max_tokens : bool; lane_default_max_tokens : option Z;
  global_default_max_tokens : Z; reasoning_allowed : bool; prep_budgets : table;
  prompt_caching_allowed : bool }.

(** One round of [clear_blocks]: the breakpoint of the block itself. *)
Definition clear_block (b : IrBlock) : IrBlock :=
  match b with
  | Text t _ cs => Text t None cs
  | Thinking t s r _ => Thinking t s r None
  | ToolUse_ id name input _ => ToolUse_ id name input None
  | ToolResult id content err _ => ToolResult id content err None
  | Image src _ => Image src None
  | JsonBlock v => JsonBlock v
  end.

Definition clear_tool (t : IrTool) : IrTool := mk_tool (name t) (description t) (input_schema t) None (hosted t).

Definition is_hosted (t : IrTool) : bool := bool_decide (is_Some (hosted t)).

(** The chat arm of [prepare_for_egress]. *)
Definition prepare_chat (prep : EgressPrep) (ir : IrRequest) : IrRequest :=
  let max_tokens' :=
    match max_tokens ir with
    | None => if egress_requires_max_tokens prep
              then Some (default (global_default_max_tokens prep) (lane_default_max_tokens prep)) else None
    | Some t => Some t
    end in
  let messages' := decode_request_tool_ids (ingress_protocol prep) (messages ir) in
  let n' := match n ir with Some k => if 1 <? k then Some 1 else Some k | None => None end in
  let '(reasoning', budgets') :=
    match reasoning ir with
    | Some a => if reasoning_allowed prep then (Some a, Some (prep_budgets prep)) else (None, reasoning_budgets ir)
    | None => (None, reasoning_budgets ir)
    end in
  let '(system', messages', tools') :=
    if negb (prompt_caching_allowed prep)
    then (clear_block <$> system ir, (fun m => mk_message (role m) (clear_block <$> content m)) <$> messages',
          clear_tool <$> tools ir)
    else (system ir, messages', tools ir) in
  let hosted_dropped := length (List.filter is_hosted tools') in
  let tools' := if (0 <? hosted_dropped)%nat then List.filter (fun t => negb (is_hosted t)) tools' else tools' in
  mk_request system' messages' tools' max_tokens' n' reasoning' budgets' (controls ir) ∅.

(** ** The response, on its way in *)
Definition prepare_chat_response (p : bytes) (now_epoch : Z) (ir : IrResponse) : IrResponse :=
  let ir := mk_response (resp_role ir) (resp_content ir) (stop_reason ir) (resp_usage ir) (model ir) None
              (match created ir with None => Some now_epoch | c => c end) None None (resp_logprobs ir) in
  (remap_response p ir ∅).2.
End Seam.

(** ** Theorems about the cross-protocol seam: tool ids survive the round trip, nothing of the source
    protocol leaks to the backend, and the reasoning projection is stable *)

Section Seam.
Context {J : Json} {H : Hex}.

(** ** Tool ids *)
Definition id_ok (id : bytes) : Prop := id <> [] /\ bytes_ok id /\ utf8_valid id = true.

(** The remap table holds nothing but what [native_for] put there. *)
Definition native_map (p : bytes) (m : gmap bytes bytes) : Prop :=
  forall k v, m !! k = Some v -> exists prefix, native_tool_id_prefix p = Some prefix /\
    v = prefix ++ TOOL_ID_REMAP_MARKER ++ hex_encode k.

Definition original (p id : bytes) : bytes := default id (decode_native_tool_id p id).

Lemma decode_native p prefix id : native_tool_id_prefix p = Some prefix -> id_ok id ->
  decode_native_tool_id p (prefix ++ TOOL_ID_REMAP_MARKER ++ hex_encode id) = Some id.
Proof.
  intros Hp (Hn & Hb & Hu). unfold decode_native_tool_id. rewrite Hp, !strip_bytes_app.
  destruct (hex_encode id) as [|c l] eqn:E; [by apply hex_encode_nil in E|].
  by rewrite <- E, hex_decode_encode, Hu by done.
Qed.

Lemma native_for_spec p m id : native_map p m -> id_ok id ->
  native_map p (native_for m p id).1 /\ original p (native_for m p id).2 = id.
Proof.
  intros Hm Hid. unfold native_for, original. destruct (native_tool_id_prefix p) as [prefix|] eqn:Ep.
  2: { split; [done|]. cbn. unfold decode_native_tool_id. by rewrite Ep. }
  destruct (m !! id) as [v|] eqn:Em; cbn [fst snd].
  - split; [done|]. destruct (Hm id v Em) as (q & Hq & ->). rewrite Ep in Hq. injection Hq as <-.
    by rewrite decode_native.
  - split; [|by rewrite decode_native]. intros k v [[<- <-]|[_ Hk]]%lookup_insert_Some; [by eexists|by apply Hm].
Qed.

Fixpoint ids_ok (b : IrBlock) : Prop :=
  match b with
  | ToolUse_ id _ _ _ => id_ok id
  | ToolResult id content _ _ =>
      id_ok id /\ (fix go l := match l with [] => True | b :: l => ids_ok b /\ go l end) content
  | _ => True
  end.

Lemma remap_block_spec p : forall b m, ids_ok b -> native_map p m ->
  native_map p (remap_block p b m).1 /\ walk p (remap_block p b m).2 = b.
Proof.
  fix IH 1. intros [t cc cs|t s r cc|id nm inp cc|id content err cc|src cc|v] m Hid Hm; try by split.
  - cbn [remap_block]. destruct (native_for_spec p m id Hm Hid) as [H1 H2]. destruct (native_for m p id) as [m1 id1].
    cbn [fst snd walk] in *. split; [done|]. unfold original in H2. by rewrite H2.
  - destruct Hid as [Hid Hc]. cbn [remap_block]. destruct (native_for_spec p m id Hm Hid) as [H1 H2].
    destruct (native_for m p id) as [m1 id1]. cbn [fst snd] in *. fold (remap_blocks p).
    assert (native_map p (remap_blocks p content m1).1 /\ walk p <$> (remap_blocks p content m1).2 = content) as [G1 G2].
    { clear Hid Hm H2. revert m1 H1. induction content as [|b l IHl]; intros m1 H1; [by split|].
      destruct Hc as [Hb Hl]. cbn [remap_blocks]. fold (remap_blocks p). destruct (IH b m1 Hb H1) as [B1 B2].
      destruct (remap_block p b m1) as [m2 b2]. cbn [fst snd] in *. destruct (IHl Hl m2 B1) as [L1 L2].
      destruct (remap_blocks p l m2) as [m3 l3]. cbn [fst snd fmap list_fmap] in *. split; [done|]. by rewrite B2, L2. }
    destruct (remap_blocks p content m1) as [m2 l]. cbn [fst snd walk] in *. split; [done|]. unfold original in H2. by rewrite H2, G2.
Qed.

Lemma remap_blocks_spec p l : forall m, Forall ids_ok l -> native_map p m ->
  native_map p (remap_blocks p l m).1 /\ walk p <$> (remap_blocks p l m).2 = l.
Proof.
  induction l as [|b l IH]; intros m Hl Hm; [by split|]. apply Forall_cons in Hl as [Hb Hl]. cbn [remap_blocks].
  destruct (remap_block_spec p b m Hb Hm) as [B1 B2]. destruct (remap_block p b m) as [m1 b1]. cbn [fst snd] in *.
  destruct (IH m1 Hl B1) as [L1 L2]. destruct (remap_blocks p l m1) as [m2 l2]. cbn [fst snd fmap list_fmap] in *.
  split; [done|]. by rewrite B2, L2.
Qed.

Lemma native_map_empty p : native_map p ∅.
Proof. intros k v Hk. by rewrite lookup_empty in Hk. Qed.

(** Streaming: the events of a response, remapped in order. *)
Fixpoint remap_events (p : bytes) (evs : list IrStreamEvent) (m : gmap bytes bytes) : list IrStreamEvent :=
  match evs with
  | [] => []
  | ev :: evs => let '(m, ev) := remap_event m p ev in ev :: remap_events p evs m
  end.

Definition event_ok (ev : IrStreamEvent) : Prop :=
  match ev with BlockStart _ (ToolUseBlock id _) => id_ok id | _ => True end.

(** The event with the id the client would send back, decoded. *)
Definition echoed (p : bytes) (ev : IrStreamEvent) : IrStreamEvent :=
  match ev with
  | BlockStart i (ToolUseBlock id name) => BlockStart i (ToolUseBlock (original p id) name)
  | _ => ev
  end.

Lemma remap_events_spec p evs : forall m, Forall event_ok evs -> native_map p m ->
  echoed p <$> remap_events p evs m = evs.
Proof.
  induction evs as [|ev evs IH]; intros m Hf Hm; [done|]. apply Forall_cons in Hf as [He Hf]. cbn [remap_events].
  unfold remap_event. destruct ev as [| i [| |id nm|]| | | | |]; cbn [fmap list_fmap echoed]; try by rewrite IH.
  destruct (native_for_spec p m id Hm He) as [H1 H2]. destruct (native_for m p id) as [m1 id1]. cbn [fst snd] in *.
  cbn [fmap list_fmap echoed]. by rewrite H2, IH.
Qed.

(** A tool call survives the round trip between two protocols without any state kept between the
    requests: the ids of a response (nested tool results included, buffered or streamed) are given the
    client's native shape, and when the client sends them back in its next request they are decoded to
    exactly the ids the backend issued. *)
Theorem tool_ids_roundtrip p now r ir evs :
  Forall ids_ok (resp_content ir) -> Forall event_ok evs ->
  decode_request_tool_ids p [mk_message r (resp_content (prepare_chat_response p now ir))] =
    [mk_message r (resp_content ir)] /\
  echoed p <$> remap_events p evs ∅ = evs.
Proof.
  intros Hb He. split; [|by apply remap_events_spec, native_map_empty].
  unfold decode_request_tool_ids, prepare_chat_response, remap_response. cbn [resp_content].
  destruct (remap_blocks_spec p (resp_content ir) ∅ Hb (native_map_empty p)) as [_ E].
  destruct (remap_blocks p (resp_content ir) ∅) as [m l]. cbn [snd resp_content fmap list_fmap content role] in *.
  do 2 f_equal. exact E.
Qed.

(** ** The egress request *)
Definition cache_of (b : IrBlock) : option CacheControl :=
  match b with
  | Text _ cc _ | Thinking _ _ _ cc | ToolUse_ _ _ _ cc | ToolResult _ _ _ cc | Image _ cc => cc
  | JsonBlock _ => None
  end.

Definition uncached (l : list IrBlock) : Prop := Forall (fun b => cache_of b = None) l.

Lemma clear_uncached l : uncached (clear_block <$> l).
Proof. unfold uncached. apply Forall_fmap, Forall_forall. by intros []. Qed.

(** Dropping the hosted tools is a filter, whether or not the count was taken first. *)
Lemma drop_hosted (l : list IrTool) :
  (if (0 <? length (List.filter is_hosted l))%nat then List.filter (fun t => negb (is_hosted t)) l else l) =
  List.filter (fun t => negb (is_hosted t)) l.
Proof.
  destruct (Nat.ltb_spec 0 (length (List.filter is_hosted l))) as [|Hz]; [done|].
  induction l as [|t l IH]; [done|]. cbn [List.filter] in *. destruct (is_hosted t); cbn in *; [lia|].
  by rewrite <- IH by done.
Qed.

Definition with_content (f : list IrBlock -> list IrBlock) (m : IrMessage) : IrMessage := mk_message (role m) (f (content m)).

Lemma with_content_id (msgs : list IrMessage) : with_content (fun l => l) <$> msgs = msgs.
Proof. induction msgs as [|[r l] msgs IH]; [done|]. cbn. by f_equal. Qed.

(** What reaches a foreign backend: no source-only member, no hosted tool, at most one candidate,
    an output cap whenever the backend demands one, no reasoning ask the lane did not declare and the
    operator's budgets beside every ask that stays, no cache breakpoint on any system block, message
    block or tool of a lane without the capability; and nothing else is touched: messages keep their
    roles and order, function tools their order, and every sampling and output control its value. *)
Theorem egress_request_is_clean prep ir :
  let out := prepare_chat prep ir in
  extra out = ∅ /\ Forall (fun t => hosted t = None) (tools out) /\ (forall k, n out = Some k -> k <= 1) /\
  (egress_requires_max_tokens prep = true -> is_Some (max_tokens out)) /\
  (forall a, reasoning out = Some a -> reasoning ir = Some a /\ reasoning_allowed prep = true /\
     reasoning_budgets out = Some (prep_budgets prep)) /\
  (prompt_caching_allowed prep = false ->
     uncached (system out) /\ Forall (fun m => uncached (content m)) (messages out) /\
     Forall (fun t => tool_cache t = None) (tools out)) /\
  controls out = controls ir /\ (is_Some (max_tokens ir) -> max_tokens out = max_tokens ir) /\
  exists strip strip_tool,
    (strip = (fun l => l) /\ strip_tool = (fun t => t) \/
     prompt_caching_allowed prep = false /\ strip = fmap clear_block /\ strip_tool = clear_tool) /\
    system out = strip (system ir) /\
    messages out = with_content strip <$> decode_request_tool_ids (ingress_protocol prep) (messages ir) /\
    tools out = List.filter (fun t => negb (is_hosted t)) (strip_tool <$> tools ir).
Proof.
  intros out. unfold out, prepare_chat. set (msgs := decode_request_tool_ids _ _).
  assert (forall k, match n ir with Some k => if 1 <? k then Some 1 else Some k | None => None end = Some k -> k <= 1) as Hn.
  { intros k. destruct (n ir) as [j|]; [|done]. destruct (Z.ltb_spec 1 j); intros [= <-]; lia. }
  assert (forall l, Forall (fun t : IrTool => hosted t = None) (List.filter (fun t => negb (is_hosted t)) l)) as Hh.
  { intros l. apply Forall_forall. intros t [_ Ht]%list_elem_of_In%List.filter_In. unfold is_hosted in Ht.
    rewrite negb_true_iff, bool_decide_eq_false in Ht. by apply eq_None_not_Some. }
  assert (forall l, Forall (fun t : IrTool => tool_cache t = None) (List.filter (fun t => negb (is_hosted t)) (clear_tool <$> l))) as Hc.
  { intros l. apply Forall_forall. intros t [Ht _]%list_elem_of_In%List.filter_In.
    apply list_elem_of_In, list_elem_of_fmap in Ht as (t' & -> & _). done. }
  destruct (reasoning ir) as [a|], (reasoning_allowed prep), (prompt_caching_allowed prep); cbn [negb];
    rewrite drop_hosted; cbn; (split_and!; [done|apply Hh|exact Hn| | | |done|by intros [? ->]|]).
  all: try (intros ->; destruct (max_tokens ir); by eexists).
  all: try done.
  all: try (intros a' [= <-]; by split_and!).
  all: try (intros _; split_and!; [apply clear_uncached| |apply Hc]; apply Forall_fmap, Forall_forall; intros m _; apply clear_uncached).
  all: first [exists (fun l => l), (fun t => t); split; [by left|]; split_and!; [done|by rewrite with_content_id|by rewrite list_fmap_id]
             |exists (fmap clear_block), clear_tool; split; [by right|]; by split_and!].
Qed.

(** ** Reasoning *)
Definition rank (e : IrReasoningEffort) : nat := match e with Minimal => 0 | Low => 1 | Medium => 2 | High => 3 end.

(** Reasoning asks keep their meaning across protocols, for every table the boot check accepts: a
    larger budget never reads as a smaller effort, a budget is never raised by going through a word
    (above the lowest entry), a word turned into a budget and back into a word asks for the same budget
    again, and every word read from the wire is the word it was written as. *)
Theorem reasoning_projection_stable t a e x y :
  budgets_valid t = true ->
  let word k := to_effort (Budget k) t in let budget w := to_budget (Effort w) t in
  (x <= y -> (rank (word x) <= rank (word y))%nat) /\
  (to_budget (Effort Minimal) t <= x -> budget (word x) <= x) /\
  budget (word (budget e)) = budget e /\
  to_budget (Effort (to_effort a t)) t <= Z.max (to_budget a t) (to_budget (Effort Minimal) t) /\
  parse_effort (as_str e) = Some e.
Proof.
  destruct t as [[[t0 t1] t2] t3]. unfold budgets_valid. intros Hv. simpl_bool. split_and!; cbn.
  - intros Hxy. destruct (Z.leb_spec t3 x), (Z.leb_spec t2 x), (Z.leb_spec t1 x), (Z.leb_spec t3 y), (Z.leb_spec t2 y), (Z.leb_spec t1 y); cbn; lia.
  - intros Hx. destruct (Z.leb_spec t3 x), (Z.leb_spec t2 x), (Z.leb_spec t1 x); cbn; lia.
  - destruct e; cbn; repeat (match goal with |- context [?p <=? ?q] => destruct (Z.leb_spec p q) end; cbn); lia.
  - destruct a as [[]|k|]; cbn; try lia. destruct (Z.leb_spec t3 k), (Z.leb_spec t2 k), (Z.leb_spec t1 k); cbn; lia.
  - by destruct e.
Qed.
End Seam.

(** ** Examples *)
Section Examples.
Import StreamDemo.

Definition call : IrBlock := ToolUse_ (bytes_of "fc-1") (bytes_of "lookup") (bytes_of "{}") None.
Definition answer : IrBlock := ToolResult (bytes_of "fc-1") [Text (bytes_of "4") None []; call] false None.

Lemma fc_ok : id_ok (bytes_of "fc-1").
Proof.
  split; [discriminate|]. split; [|reflexivity]. change (bytes_of "fc-1") with [102; 99; 45; 49].
  repeat (constructor; [unfold byte_ok; lia|]). constructor.
Qed.

Lemma tool_ids_roundtrip_witness :
  let ir := mk_response Assistant [call; answer] (Some ToolUse) IrUsage.zero None None None None None [] in
  let evs := [BlockStart 0 (ToolUseBlock (bytes_of "fc-1") (bytes_of "lookup")); BlockStop 0] in
  (decode_request_tool_ids PROTO_ANTHROPIC
     [mk_message Assistant (resp_content (prepare_chat_response PROTO_ANTHROPIC 7 ir))] =
   [mk_message Assistant [call; answer]] /\
   echoed PROTO_ANTHROPIC <$> remap_events PROTO_ANTHROPIC evs ∅ = evs) /\
  resp_content (prepare_chat_response PROTO_ANTHROPIC 7 ir) <> [call; answer].
Proof.
  intros ir evs. split; [|vm_compute; discriminate].
  apply (tool_ids_roundtrip PROTO_ANTHROPIC 7 Assistant ir evs).
  - apply Forall_cons. split; [apply fc_ok|]. apply Forall_cons. split; [|apply Forall_nil_2].
    split; [apply fc_ok|]. split; [exact Logic.I|]. split; [apply fc_ok|exact Logic.I].
  - apply Forall_cons. split; [apply fc_ok|]. apply Forall_cons. split; [exact Logic.I|apply Forall_nil_2].
Defined.

Lemma reasoning_projection_stable_witness :
  let t := REASONING_BUDGET_DEFAULTS in
  budgets_valid t = true /\ to_effort (Budget 5000) t = Low /\
  to_budget (Effort (to_effort (Budget (to_budget (Effort High) t)) t)) t = to_budget (Effort High) t.
Proof.
  intros t. split; [reflexivity|]. split; [reflexivity|].
  exact (proj1 (proj2 (proj2 (reasoning_projection_stable t (Budget 0) High 0 0 eq_refl)))).
Defined.
End Examples.
