(* ===== verification/TranslateFacts.v ===== *)
(** * Facts on the stream translator: what events leave alone, the usage tap, and the feed as a fold
    over the frames of the stream *)
From stdpp Require Import base list strings gmap.
From Stdlib Require Import ZArith Lia.
From S2P Require Import Prelude Breaker EventStream EventStreamFacts Sse SseFacts Ir UsageStrip Translate.
Import StreamTranslate.
Open Scope Z_scope.
Open Scope rust_scope.

(** What the handling of an event never touches. *)
Definition core {W D F} (x : StreamTranslate.t W D F) :=
  (buf x, scanned x, aborted x, emit_done x, egress_eventstream x, ingress_eventstream x, started x, same_proto x).

(** What billing and the breaker read, with the state of the reader. *)
Definition tap {W D F} (x : StreamTranslate.t W D F) :=
  (decode x, start_usage x, last_usage x, terminal_error x).

Section Facts.
Context {J : Json} {H : Hex} {W D F : Type} {RD : Reader D} {WR : Writer W} {SF : StreamFraming F}.
Context (crc32 : bytes -> Z) (json_message : bytes -> option bytes) (elapsed : nat -> Z).
Notation T := (StreamTranslate.t W D F).
Notation emit_ir_event := (emit_ir_event crc32 elapsed).
Notation emit_all := (emit_all crc32 elapsed).
Notation on_event := (on_event crc32 json_message elapsed).
Notation translate_event := (translate_event crc32 json_message elapsed).

Implicit Types x y z : T.

(** Two translators that agree on what events leave alone and on the tap. *)
Definition kin (x y : T) : Prop := core x = core y /\ tap x = tap y.

Lemma kin_refl x : kin x x.
Proof. by split. Qed.

Lemma kin_trans x y z : kin x y -> kin y z -> kin x z.
Proof. intros [] []. split; congruence. Qed.

Lemma emit_kin x ev : kin (emit_ir_event x ev).1 x.
Proof.
  unfold Translate.emit_ir_event. destruct (write_response_event (ingress x) ev) as [w [[et d]|]]; [|done].
  destruct (ingress_eventstream x) eqn:E; [done|].
  destruct (on_egress_chunk (framing x) d) as [[f c] tr]. by split; unfold core; cbn; rewrite ?E.
Qed.

Lemma emit_all_kin x evs : kin (emit_all x evs).1 x.
Proof.
  revert x. induction evs as [|ev evs IH]; intros x; cbn [Translate.emit_all]; [apply kin_refl|].
  pose proof (emit_kin x ev) as Hk. destruct (emit_ir_event x ev) as [y o]. cbn in Hk.
  specialize (IH y). destruct (emit_all y evs) as [z os]. cbn in *. by eapply kin_trans.
Qed.

Lemma write_kin x ev : kin (write_event crc32 elapsed x ev).1 x.
Proof.
  unfold write_event. destruct ev as [| |i d| |sr ss u| |]; try apply emit_kin.
  - destruct d; try apply emit_kin. destruct (max_citations_per_delta _); [|apply emit_kin].
    destruct (_ <? _)%nat; [apply emit_all_kin|apply emit_kin].
  - destruct (message_stopped x); [apply kin_refl|apply emit_kin].
  - eapply kin_trans; [apply emit_kin|]. done.
Qed.

Lemma fold_kin x ev y : fold_event x ev = Some y -> kin y x.
Proof.
  unfold fold_event. destruct (folds_terminal_usage _); [|done].
  destruct ev as [| | | |[sr|] ss u| |], (pending_terminal x) as [[[r s] acc]|]; try done; by intros [= <-].
Qed.

Lemma usage_only_kin x ev : kin (usage_only_event crc32 elapsed x ev).1 x.
Proof.
  unfold usage_only_event. destruct ev as [| | | |[sr|] ss u| |]; try apply kin_refl.
  destruct (on_usage_only_delta _) as [f [[]|]]; [|done|done].
  pose proof (emit_kin (set_framing f x) (MessageDelta None ss u)) as Hk.
  destruct (emit_ir_event _ _) as [y o]. cbn in *. by eapply kin_trans.
Qed.

Lemma combined_kin x ev : kin (combined_event crc32 elapsed x ev).1 x.
Proof.
  unfold combined_event. destruct ev as [| | | |[sr|] ss u| |]; try apply kin_refl.
  destruct (on_combined_stop_delta _ _ _ _) as [f [evs|]]; [|done].
  pose proof (emit_all_kin (set_framing f x) evs) as Hk. destruct (emit_all _ _) as [y o]. cbn in *.
  by eapply kin_trans.
Qed.

(** Everything after the tap leaves core and tap alone. *)
Lemma on_event_kin x out ev : kin (on_event (x, out) ev).1 (note_event x ev).1.
Proof.
  unfold Translate.on_event. destruct (note_event x ev) as [y ev']. cbn [fst].
  destruct (exception_event _ _ _ _) as [o|]; [apply kin_refl|].
  pose proof (combined_kin y ev') as H1. destruct (combined_event _ _ y ev') as [y1 [o|]]; [done|].
  cbn [fst] in H1. destruct (fold_event y1 ev') as [y2|] eqn:Ef.
  { eapply kin_trans; [by eapply fold_kin|done]. }
  pose proof (usage_only_kin y1 ev') as H2. destruct (usage_only_event _ _ y1 ev') as [y2 [o|]]; cbn [fst] in *.
  { by eapply kin_trans. }
  pose proof (write_kin y2 ev') as H3. destruct (write_event _ _ y2 ev') as [y3 o]. cbn [fst] in *.
  eapply kin_trans; [exact H3|]. by eapply kin_trans.
Qed.

(** ** The tap of both paths *)
Lemma note_tap x ev : tap (note_event x ev).1 = tap (on_event_usage x ev) /\ core (note_event x ev).1 = core x.
Proof.
  unfold note_event, remap_event.
  destruct ev as [role [u|] id cr m|i [| |id nm|]| | |sr ss u| |e]; cbn; try done.
  by destruct (native_for _ _ _).
Qed.

Lemma on_event_usage_core x ev : core (on_event_usage x ev) = core x.
Proof. by destruct ev as [role [u|] id cr m| | | | | |]. Qed.

(** [on_event_usage] acts on the tap alone. *)
Lemma on_event_usage_tap {W' F'} (x : T) (y : StreamTranslate.t W' D F') ev :
  tap x = tap y -> tap (on_event_usage x ev) = tap (on_event_usage y ev).
Proof. unfold tap. intros [= E1 E2 E3 E4]. destruct ev as [role [u|] id cr m| | | | | |]; cbn; by rewrite ?E1, ?E2, ?E3, ?E4. Qed.

Lemma fold_on_event x out y evs : tap x = tap y ->
  tap (foldl on_event (x, out) evs).1 = tap (foldl on_event_usage y evs) /\
  core (foldl on_event (x, out) evs).1 = core x.
Proof.
  revert x out y. induction evs as [|ev evs IH]; intros x out y Ht; cbn [foldl]; [done|].
  pose proof (on_event_kin x out ev) as [Hk1 Hk2]. destruct (note_tap x ev) as [Hn1 Hn2].
  destruct (on_event (x, out) ev) as [x1 out1]. cbn [fst] in *.
  destruct (IH x1 out1 (on_event_usage y ev)) as [I1 I2].
  - rewrite Hk2, Hn1. by apply on_event_usage_tap.
  - split; [exact I1|]. by rewrite I2, Hk1.
Qed.

Lemma translate_tap x et data out :
  tap (translate_event x et data out).1 = tap (extract_usage_only x et data) /\
  core (translate_event x et data out).1 = core x.
Proof.
  unfold Translate.translate_event, extract_usage_only.
  destruct (read_response_events et data (decode x)) as [d evs].
  destruct (fold_on_event (set_decode d x) out (set_decode d x) evs eq_refl) as [H1 H2]. by rewrite H1, H2.
Qed.

Lemma fold_usage_core x evs : core (foldl on_event_usage x evs) = core x.
Proof. revert x. induction evs as [|ev evs IH]; intros x; [done|]. cbn. by rewrite IH, on_event_usage_core. Qed.

Lemma extract_core x et data : core (extract_usage_only x et data) = core x.
Proof.
  unfold extract_usage_only. destruct (read_response_events et data (decode x)) as [d evs].
  by rewrite fold_usage_core.
Qed.

(** The same-protocol path keeps the framing. *)
Lemma extract_framing x et data : framing (extract_usage_only x et data) = framing x.
Proof.
  unfold extract_usage_only. destruct (read_response_events et data (decode x)) as [d evs].
  change (framing x) with (framing (set_decode d x)). generalize (set_decode d x). clear.
  induction evs as [|ev evs IH]; intros y; [done|]. cbn. rewrite IH.
  by destruct ev as [role [u|] id cr m| | | | | |].
Qed.

(** ** Events only append to the output *)
Lemma on_event_out x out ev : on_event (x, out) ev = ((on_event (x, []) ev).1, out ++ (on_event (x, []) ev).2).
Proof.
  unfold Translate.on_event. destruct (note_event x ev) as [y ev'].
  destruct (exception_event _ _ _ _) as [o|]; [done|]. destruct (combined_event _ _ y ev') as [y1 [o|]]; [done|].
  destruct (fold_event y1 ev'); [cbn; by rewrite app_nil_r|].
  destruct (usage_only_event _ _ y1 ev') as [y2 [o|]]; [done|]. by destruct (write_event _ _ y2 ev').
Qed.

Lemma fold_on_event_out x out evs :
  foldl on_event (x, out) evs = ((foldl on_event (x, []) evs).1, out ++ (foldl on_event (x, []) evs).2).
Proof.
  revert x out. induction evs as [|ev evs IH]; intros x out; cbn [foldl]; [by rewrite app_nil_r|].
  rewrite on_event_out. rewrite IH, (on_event_out x []), (IH _ ([] ++ _)). cbn [fst snd app]. by rewrite (assoc_L (++)).
Qed.

Lemma translate_out x et data out :
  translate_event x et data out = ((translate_event x et data []).1, out ++ (translate_event x et data []).2).
Proof.
  unfold Translate.translate_event. destruct (read_response_events et data (decode x)) as [d evs].
  apply fold_on_event_out.
Qed.

(** ** Reference: one frame, and a list of frames *)
Definition frame_out (x : T) (frame : bytes) : T * bytes :=
  match frame_value frame with
  | None => (x, if same_proto x then frame else [])
  | Some (et, ds, data) =>
      if same_proto x then
        let x := extract_usage_only x et data in
        (x, if suppress_same_proto_frame (framing x) data then []
            else if strip_same_proto_usage (framing x) data then rewrite_frame_strip_usage frame ds
            else frame)
      else translate_event x et data []
  end.

Definition process (x : T) (fs : list bytes) : T * bytes :=
  foldl (fun acc f => let '(y, o) := frame_out acc.1 f in (y, acc.2 ++ o)) (x, []) fs.

Lemma frame_out_core x f : core (frame_out x f).1 = core x.
Proof.
  unfold frame_out. destruct (frame_value f) as [[[et ds] data]|]; [|done].
  destruct (same_proto x); [apply extract_core|apply translate_tap].
Qed.

Lemma process_fold x out fs :
  foldl (fun acc f => let '(y, o) := frame_out acc.1 f in (y, acc.2 ++ o)) (x, out) fs =
    ((process x fs).1, out ++ (process x fs).2).
Proof.
  unfold process. revert x out. induction fs as [|f fs IH]; intros x out; cbn [foldl fst snd]; [by rewrite app_nil_r|].
  destruct (frame_out x f) as [y o]. rewrite IH, (IH y ([] ++ o)). cbn [fst snd app]. by rewrite (assoc_L (++)).
Qed.

Lemma process_app x fs gs : process x (fs ++ gs) =
  let '(y, o) := process x fs in ((process y gs).1, o ++ (process y gs).2).
Proof.
  unfold process at 1. rewrite foldl_app. fold (process x fs). destruct (process x fs) as [y o].
  by rewrite process_fold.
Qed.

Lemma process_cons x f fs : process x (f :: fs) =
  let '(y, o) := frame_out x f in ((process y fs).1, o ++ (process y fs).2).
Proof. change (f :: fs) with ([f] ++ fs). rewrite process_app. unfold process at 1. cbn. by destruct (frame_out x f). Qed.

Lemma process_core x fs : core (process x fs).1 = core x.
Proof.
  revert x. induction fs as [|f fs IH]; intros x; [done|]. rewrite process_cons.
  pose proof (frame_out_core x f) as Hc. destruct (frame_out x f) as [y o]. cbn in *. by rewrite IH.
Qed.

Lemma same_proto_core x y : core x = core y -> same_proto x = same_proto y.
Proof. unfold core. by intros [= _ _ _ _ _ _ _ ->]. Qed.

(** ** The scan with its verbatim region computes the reference *)
Lemma cut_app lo mid hi (b : bytes) : (lo <= mid)%nat -> (mid <= hi)%nat -> cut lo mid b ++ cut mid hi b = cut lo hi b.
Proof.
  intros H1 H2. unfold cut. rewrite <- (take_drop (mid - lo) (take (hi - lo) (drop lo b))).
  rewrite take_take, Nat.min_l by lia. f_equal. rewrite skipn_firstn_comm, drop_drop.
  by replace (lo + (mid - lo))%nat with mid by lia; replace (hi - lo - (mid - lo))%nat with (hi - mid)%nat by lia.
Qed.

Lemma cut_if lo hi (b : bytes) : (if (lo <? hi)%nat then cut lo hi b else []) = cut lo hi b.
Proof. destruct (Nat.ltb_spec lo hi); [done|]. unfold cut. by replace (hi - lo)%nat with 0%nat by lia. Qed.

Definition held_back (x : T) (emit_from upto : nat) (b : bytes) : bytes :=
  if same_proto x then cut emit_from upto b else [].

Lemma on_sse_frame_spec b start fin x out ef : (ef <= start)%nat -> (start <= fin)%nat ->
  exists y out' ef', on_sse_frame crc32 json_message elapsed b start fin (x, out, ef) = (y, out', ef') /\
    (ef' <= fin)%nat /\ y = (frame_out x (cut start fin b)).1 /\
    out' ++ held_back y ef' fin b = out ++ held_back x ef start b ++ (frame_out x (cut start fin b)).2.
Proof.
  intros Hs Hf. pose proof (frame_out_core x (cut start fin b)) as Hc. apply same_proto_core in Hc.
  unfold on_sse_frame, frame_out in *.
  destruct (frame_value (cut start fin b)) as [[[et ds] data]|].
  - destruct (same_proto x) eqn:Es.
    + set (y := extract_usage_only x et data) in *.
      assert (held_back x ef start b = cut ef start b) as Hx by (unfold held_back; by rewrite Es).
      assert (forall lo, held_back y lo fin b = cut lo fin b) as Hy by (intros; unfold held_back; cbn in Hc; by rewrite Hc).
      assert (cut fin fin b = []) as Hnil by (unfold cut; by rewrite Nat.sub_diag).
      destruct (suppress_same_proto_frame _ data); [|destruct (strip_same_proto_usage _ data)];
        (eexists _, _, _; split; [done|]); (split; [lia|]); (split; [done|]); rewrite Hx, Hy.
      * by rewrite cut_if, Hnil, !app_nil_r.
      * by rewrite cut_if, Hnil, app_nil_r.
      * cbn. by rewrite cut_app by lia.
    + rewrite translate_out. eexists _, _, _. split; [done|]. split; [lia|]. split; [done|].
      unfold held_back. cbn [fst snd] in *. rewrite Hc, Es. by rewrite app_nil_r.
  - eexists _, _, _. split; [done|]. split; [lia|]. split; [done|]. unfold held_back. cbn [fst snd].
    destruct (same_proto x); [by rewrite cut_app by lia|done].
Qed.

Lemma visit_process b fs : forall rest start x out ef,
  drop start b = concat fs ++ rest -> (ef <= start)%nat -> (start <= length b)%nat ->
  exists y out' ef', visit (on_sse_frame crc32 json_message elapsed b) start fs (x, out, ef) = (y, out', ef') /\
    y = (process x fs).1 /\
    out' ++ held_back y ef' (start + length (concat fs)) b = out ++ held_back x ef start b ++ (process x fs).2.
Proof.
  induction fs as [|f fs IH]; intros rest start x out ef Hd He Hl.
  { eexists _, _, _. split; [done|]. split; [done|]. cbn. by rewrite Nat.add_0_r, app_nil_r. }
  cbn [visit concat] in *. rewrite <- (assoc_L (++)) in Hd.
  assert (cut start (start + length f) b = f) as Hcut.
  { unfold cut. rewrite Hd. replace (start + length f - start)%nat with (length f) by lia. by rewrite take_app_length. }
  assert (start + length f <= length b)%nat as Hl'.
  { apply (f_equal length) in Hd. rewrite length_drop, !length_app in Hd. lia. }
  destruct (on_sse_frame_spec b start (start + length f) x out ef He ltac:(lia)) as (y & out' & ef' & -> & He' & Hy & Ho).
  rewrite Hcut in Hy, Ho.
  destruct (IH rest (start + length f)%nat y out' ef') as (z & out'' & ef'' & -> & Hz & Ho'); [|done|done|].
  { rewrite <- drop_drop, Hd. by rewrite drop_app_length. }
  eexists _, _, _. split; [done|]. rewrite process_cons. destruct (frame_out x f) as [y0 o]. cbn [fst snd] in *.
  subst y0. split; [done|]. rewrite length_app, Nat.add_assoc, Ho'. rewrite (assoc_L (++)), Ho. by rewrite <- !(assoc_L (++)).
Qed.

(** ** The buffer plays no part in the handling of a frame *)
Section Buffer.
Context (b : bytes) (n : nat).
Notation sb := (set_buf b n).
(** The result on another buffer is the same result on another buffer. *)
Definition lift {A} (p : T * A) : T * A := (sb p.1, p.2).

Lemma emit_buf x ev : emit_ir_event (sb x) ev = lift (emit_ir_event x ev).
Proof.
  unfold Translate.emit_ir_event. cbn [ingress framing written started ingress_eventstream set_buf].
  destruct (write_response_event (ingress x) ev) as [w [[et d]|]]; [|done].
  destruct (ingress_eventstream x); [done|]. by destruct (on_egress_chunk (framing x) d) as [[f c] tr].
Qed.

Lemma emit_all_buf x evs : emit_all (sb x) evs = lift (emit_all x evs).
Proof.
  revert x. induction evs as [|ev evs IH]; intros x; cbn [Translate.emit_all]; [done|].
  rewrite emit_buf. destruct (emit_ir_event x ev) as [y o]. unfold lift at 1. cbn [fst snd]. rewrite IH.
  by destruct (emit_all y evs).
Qed.

Lemma note_buf x ev : note_event (sb x) ev = lift (note_event x ev).
Proof.
  unfold note_event. cbn [tool_id_remap ingress set_buf]. destruct (remap_event _ _ ev) as [m ev'].
  by destruct ev' as [role [u|] id cr md| | | | | |].
Qed.

Lemma write_buf x ev : write_event crc32 elapsed (sb x) ev = lift (write_event crc32 elapsed x ev).
Proof.
  unfold write_event. destruct ev as [| |i d| |sr ss u| |]; try apply emit_buf.
  - destruct d; try apply emit_buf. cbn [ingress set_buf]. destruct (max_citations_per_delta _); [|apply emit_buf].
    destruct (_ <? _)%nat; [apply emit_all_buf|apply emit_buf].
  - cbn [message_stopped set_buf]. destruct (message_stopped x); [done|apply emit_buf].
  - apply (emit_buf (set_stopped x)).
Qed.

Lemma fold_buf x ev : fold_event (sb x) ev = set_buf b n <$> fold_event x ev.
Proof.
  unfold fold_event. cbn [framing set_buf pending_terminal pending_stop]. destruct (folds_terminal_usage _); [|done].
  by destruct ev as [| | | |[sr|] ss u| |], (pending_terminal x) as [[[r s] acc]|].
Qed.

Lemma usage_only_buf x ev : usage_only_event crc32 elapsed (sb x) ev = lift (usage_only_event crc32 elapsed x ev).
Proof.
  unfold usage_only_event. destruct ev as [| | | |[sr|] ss u| |]; try done. cbn [framing set_buf].
  destruct (on_usage_only_delta _) as [f [[]|]]; [|done|done].
  change (set_framing f (sb x)) with (sb (set_framing f x)). rewrite emit_buf. by destruct (emit_ir_event _ _).
Qed.

Lemma combined_buf x ev : combined_event crc32 elapsed (sb x) ev = lift (combined_event crc32 elapsed x ev).
Proof.
  unfold combined_event. destruct ev as [| | | |[sr|] ss u| |]; try done. cbn [framing set_buf].
  destruct (on_combined_stop_delta _ _ _ _) as [f [evs|]]; [|done].
  change (set_framing f (sb x)) with (sb (set_framing f x)). rewrite emit_all_buf. by destruct (emit_all _ _).
Qed.

Lemma on_event_buf x out ev : on_event (sb x, out) ev = lift (on_event (x, out) ev).
Proof.
  unfold Translate.on_event. rewrite note_buf. destruct (note_event x ev) as [y ev']. unfold lift at 1. cbn [fst snd].
  change (exception_event crc32 json_message (sb y) ev') with (exception_event crc32 json_message y ev').
  destruct (exception_event _ _ _ _) as [o|]; [done|].
  rewrite combined_buf. destruct (combined_event _ _ y ev') as [y1 [o|]]; [done|]. unfold lift at 1. cbn [fst snd].
  rewrite fold_buf. destruct (fold_event y1 ev') as [y2|]; [done|]. cbn [fmap option_fmap option_map].
  rewrite usage_only_buf. destruct (usage_only_event _ _ y1 ev') as [y2 [o|]]; [done|]. unfold lift at 1. cbn [fst snd].
  rewrite write_buf. by destruct (write_event _ _ y2 ev').
Qed.

Lemma fold_on_event_buf x out evs : foldl on_event (sb x, out) evs = lift (foldl on_event (x, out) evs).
Proof.
  revert x out. induction evs as [|ev evs IH]; intros x out; cbn [foldl]; [done|]. rewrite on_event_buf.
  destruct (on_event (x, out) ev) as [y o]. apply IH.
Qed.

Lemma fold_usage_buf x evs : foldl on_event_usage (sb x) evs = sb (foldl on_event_usage x evs).
Proof.
  revert x. induction evs as [|ev evs IH]; intros x; cbn [foldl]; [done|]. rewrite <- IH. f_equal.
  by destruct ev as [role [u|] id cr md| | | | | |].
Qed.

Lemma translate_buf x et data out : translate_event (sb x) et data out = lift (translate_event x et data out).
Proof.
  unfold Translate.translate_event. cbn [decode set_buf]. destruct (read_response_events et data (decode x)) as [d evs].
  apply (fold_on_event_buf (set_decode d x)).
Qed.

Lemma extract_buf x et data : extract_usage_only (sb x) et data = sb (extract_usage_only x et data).
Proof.
  unfold extract_usage_only. cbn [decode set_buf]. destruct (read_response_events et data (decode x)) as [d evs].
  apply (fold_usage_buf (set_decode d x)).
Qed.

Lemma frame_out_buf x f : frame_out (sb x) f = lift (frame_out x f).
Proof.
  unfold frame_out. cbn [same_proto set_buf]. destruct (frame_value f) as [[[et ds] data]|]; [|done].
  destruct (same_proto x); [by rewrite extract_buf|apply translate_buf].
Qed.

Lemma process_buf x fs : process (sb x) fs = lift (process x fs).
Proof.
  revert x. induction fs as [|f fs IH]; intros x; [done|]. rewrite !process_cons, frame_out_buf.
  destruct (frame_out x f) as [y o]. unfold lift at 1. cbn [fst snd]. by rewrite IH.
Qed.

Lemma on_es_frame_buf x out fr : on_es_frame crc32 json_message elapsed (sb x, out) fr =
  lift (on_es_frame crc32 json_message elapsed (x, out) fr).
Proof.
  unfold on_es_frame. destruct fr as [et pl]. destruct (parse_str pl) as [data|]; [|done]. cbn [same_proto set_buf].
  destruct (same_proto x); [by rewrite extract_buf|apply translate_buf].
Qed.

Lemma fold_es_buf x out frs : foldl (on_es_frame crc32 json_message elapsed) (sb x, out) frs =
  lift (foldl (on_es_frame crc32 json_message elapsed) (x, out) frs).
Proof.
  revert x out. induction frs as [|fr frs IH]; intros x out; cbn [foldl]; [done|]. rewrite on_es_frame_buf.
  destruct (on_es_frame _ _ _ (x, out) fr). apply IH.
Qed.
End Buffer.
End Facts.
