(* ===== verification/TranslateProps.v ===== *)
(** * Feeding the stream translator: every chunk as a fold over the frames it completes *)
From stdpp Require Import base list strings gmap.
From Stdlib Require Import ZArith Lia.
From S2P Require Import Prelude Breaker EventStream EventStreamFacts Sse SseFacts Ir UsageStrip Translate.
From S2P Require Import TranslateFacts.
From S2P Require Import StreamDemo.

Import StreamTranslate.
Open Scope Z_scope.
Open Scope rust_scope.

Section Feed.
Context {J : Json} {H : Hex} {W D F : Type} {RD : Reader D} {WR : Writer W} {SF : StreamFraming F}.
Context (crc32 : bytes -> Z) (json_message : bytes -> option bytes) (elapsed : nat -> Z).
Notation T := (StreamTranslate.t W D F).
Notation feed := (feed crc32 json_message elapsed).
Notation feed_stream := (feed_stream crc32 json_message elapsed).
Notation process := (process crc32 json_message elapsed).
Notation on_es_frame := (on_es_frame crc32 json_message elapsed).
Implicit Types x y z : T.

(** Between two chunks: what is buffered is bounded, and holds no complete frame that was not handled. *)
Definition at_rest (x : T) : Prop :=
  aborted x = false ->
  len (buf x) <= TRANSLATE_MAX_BUF /\
  (egress_eventstream x = false -> find_frame_terminator (buf x) = None /\ scanned x = length (buf x)) /\
  (egress_eventstream x = true -> next (buf x) = Some NeedMore).

Lemma build_at_rest (w : W) (f : F) es same : at_rest (build w f es same).
Proof. intros _. split; [|by split]. unfold TRANSLATE_MAX_BUF, MAX_FRAME_BYTES, len. cbn. lia. Qed.

Definition capped (x : T) : T := if TRANSLATE_MAX_BUF <? len (buf x) then abort x else x.

Lemma set_started_id x : started x = true -> set_started x = x.
Proof. destruct x. cbn. by intros ->. Qed.

(** ** Server-sent events *)
Lemma feed_sse_spec x chunk fs rest : at_rest x -> aborted x = false -> egress_eventstream x = false ->
  sse_frames (buf x ++ chunk) = (fs, rest) ->
  feed x chunk = Some (capped (set_buf rest (length rest) (process (set_started x) fs).1),
                       (process (set_started x) fs).2).
Proof.
  intros Hr Ha He Hs. destruct (Hr Ha) as (_ & Hr2 & _). destruct (Hr2 He) as [Hn Hsc].
  unfold Translate.feed. rewrite Ha. cbn [egress_eventstream set_buf set_started]. rewrite He.
  unfold feed_sse. cbn [buf scanned set_buf set_started]. rewrite Hsc. set (b := buf x ++ chunk) in *.
  pose proof (sse_frames_split _ _ _ Hs) as (Hsp & _ & _).
  set (x0 := set_buf b (length (buf x)) (set_started x)).
  rewrite (drain_sse_spec _ b _ (length (buf x)) 0 (x0, [], 0%nat)) with (fs := fs) (rest := rest);
    [|lia|unfold b; rewrite length_app; lia| |lia|by rewrite drop_0].
  2: { unfold cut, b. by rewrite drop_0, Nat.sub_0_r, take_app_length. }
  destruct (visit_process crc32 json_message elapsed b fs rest 0 x0 [] 0) as (y & out' & ef' & -> & Hy & Ho);
    [by rewrite drop_0|lia|lia|]. rewrite Nat.add_0_l in Ho.
  assert (length b - length rest = length (concat fs))%nat as -> by (rewrite Hsp, length_app; lia).
  assert (held_back x0 0 0 b = []) as Hh0 by (unfold held_back, cut; by destruct (same_proto x0)).
  rewrite Hh0 in Ho. cbn [app] in Ho. unfold x0 in Hy, Ho. rewrite process_buf in Hy, Ho. cbn [fst snd lift] in Hy, Ho.
  assert (out' ++ (if same_proto y && (ef' <? length (concat fs))%nat then cut ef' (length (concat fs)) b else []) =
    (process (set_started x) fs).2) as ->.
  { rewrite <- Ho. f_equal. unfold held_back. destruct (same_proto y); cbn [andb]; [apply cut_if|done]. }
  assert ((if (0 <? length (concat fs))%nat then drop (length (concat fs)) b else b) = rest) as ->.
  { rewrite Hsp. destruct (Nat.ltb_spec 0 (length (concat fs))) as [_|Hz]; [by rewrite drop_app_length|].
    assert (concat fs = []) as -> by (apply nil_length_inv; lia). done. }
  subst y. unfold capped. cbn [buf set_buf]. done.
Qed.

(** ** Event-stream frames *)
Definition digest (x : T) (frs : list (bytes * bytes)) : T * bytes := foldl on_es_frame (x, []) frs.

Lemma es_frame_out x out fr : on_es_frame (x, out) fr = ((on_es_frame (x, []) fr).1, out ++ (on_es_frame (x, []) fr).2).
Proof.
  unfold Translate.on_es_frame. destruct fr as [et pl]. destruct (parse_str pl) as [data|]; [|cbn; by rewrite app_nil_r].
  destruct (same_proto x); [cbn; by rewrite app_nil_r|]. apply translate_out.
Qed.

Lemma digest_fold x out frs : foldl on_es_frame (x, out) frs = ((digest x frs).1, out ++ (digest x frs).2).
Proof.
  unfold digest. revert x out. induction frs as [|fr frs IH]; intros x out; cbn [foldl]; [by rewrite app_nil_r|].
  rewrite es_frame_out, IH, (es_frame_out x []), (IH _ ([] ++ _)). cbn [fst snd app]. by rewrite (assoc_L (++)).
Qed.

Lemma digest_app x frs grs : digest x (frs ++ grs) =
  ((digest (digest x frs).1 grs).1, (digest x frs).2 ++ (digest (digest x frs).1 grs).2).
Proof. unfold digest at 1. rewrite foldl_app. fold (digest x frs). destruct (digest x frs). apply digest_fold. Qed.

Lemma es_frame_core x out fr : core (on_es_frame (x, out) fr).1 = core x.
Proof.
  unfold Translate.on_es_frame. destruct fr as [et pl]. destruct (parse_str pl) as [data|]; [|done].
  destruct (same_proto x); [apply extract_core|apply translate_tap].
Qed.

Lemma digest_core x frs : core (digest x frs).1 = core x.
Proof.
  unfold digest. generalize (@nil Z). revert x. induction frs as [|fr frs IH]; intros x out; [done|]. cbn [foldl].
  pose proof (es_frame_core x out fr) as Hc. destruct (on_es_frame (x, out) fr) as [y o]. cbn [fst] in Hc.
  by rewrite IH.
Qed.

Lemma feed_es_spec x chunk frs st left raws : aborted x = false -> egress_eventstream x = true ->
  bytes_ok (buf x ++ chunk) -> Drains (buf x ++ chunk) frs st left raws ->
  feed x chunk = Some
    (match st with
     | MalformedPrelude => abort (digest (set_started x) frs).1
     | DrainOk => capped (set_buf left (scanned x) (digest (set_started x) frs).1)
     end,
     (if same_proto x then raws else []) ++ (digest (set_started x) frs).2).
Proof.
  intros Ha He Hb Hd. unfold Translate.feed. rewrite Ha. cbn [egress_eventstream set_buf set_started]. rewrite He.
  unfold feed_es. cbn [buf scanned same_proto set_buf set_started].
  rewrite (drain_checked_drains _ _ _ _ _ _ Hb Hd). cbn [Drain.buf Drain.sink Drain.frames Drain.status].
  set (x1 := set_buf left (scanned x) _).
  assert (x1 = set_buf left (scanned x) (set_started x)) as -> by done.
  rewrite fold_es_buf, digest_fold. unfold lift. cbn [fst snd].
  assert (default [] ((fun s => s ++ raws) <$> (if same_proto x then Some [] else None)) = if same_proto x then raws else []) as ->
    by (by destruct (same_proto x)).
  destruct st; [|by destruct (digest (set_started x) frs).1]. done.
Qed.

Lemma digest_same x frs : same_proto x = true -> (digest x frs).2 = [].
Proof.
  intros Hs. unfold digest. assert (forall y, same_proto y = true -> (foldl on_es_frame (y, []) frs).2 = []) as Hg.
  { induction frs as [|fr frs IH]; intros y Hy; [done|]. cbn [foldl].
    pose proof (es_frame_core y [] fr) as Hc. apply same_proto_core in Hc.
    assert ((on_es_frame (y, []) fr).2 = []) as Ho.
    { unfold Translate.on_es_frame. destruct fr as [et pl]. destruct (parse_str pl); [|done]. by rewrite Hy. }
    destruct (on_es_frame (y, []) fr) as [z o]. cbn in *. subst o. apply IH. congruence. }
  by apply Hg.
Qed.

(** ** One chunk, in general *)
Definition readable (x : T) (l : bytes) : Prop := egress_eventstream x = true -> bytes_ok l.

Lemma capped_rest y : aborted (capped y) = false -> capped y = y /\ len (buf y) <= TRANSLATE_MAX_BUF.
Proof. unfold capped. destruct (Z.ltb_spec TRANSLATE_MAX_BUF (len (buf y))); [done|]. intros _. split; [done|lia]. Qed.

Lemma core_fields x y : core x = core y -> egress_eventstream x = egress_eventstream y /\
  same_proto x = same_proto y /\ started x = started y /\ aborted x = aborted y /\ scanned x = scanned y.
Proof. unfold core. by intros [= _ -> -> _ -> _ -> ->]. Qed.

(** What a chunk leaves of a live translator: [z] is the state after its frames, [left] the rest. *)
Definition fed (x y z : T) (left : bytes) : Prop :=
  core z = core (set_started x) /\
  (aborted y = false -> y = set_buf left (if egress_eventstream x then scanned x else length left) z).

Lemma feed_cases x chunk : at_rest x -> aborted x = false -> readable x (buf x ++ chunk) ->
  exists y out z left, feed x chunk = Some (y, out) /\ fed x y z left /\ at_rest y /\
    egress_eventstream y = egress_eventstream x /\ same_proto y = same_proto x /\
    (egress_eventstream x = true -> bytes_ok (buf y)).
Proof.
  intros Hr Ha Hb. destruct (egress_eventstream x) eqn:He.
  - specialize (Hb He). destruct (drain_loop_drains (S (length (buf x ++ chunk))) (buf x ++ chunk) [] 0 None Hb)
      as (frs & st & left & raws & Hd & _); [lia|].
    rewrite (feed_es_spec x chunk frs st left raws Ha He Hb Hd).
    pose proof (digest_core (set_started x) frs) as Hc. set (z := (digest (set_started x) frs).1) in *.
    destruct (core_fields _ _ Hc) as (E1 & E2 & _ & E4 & _). cbn in E1, E2, E4. rewrite He in E1.
    destruct (drains_consumed _ _ _ _ _ Hd) as ((lost & Hlost & Hl) & _ & Hn).
    destruct st; eexists _, _, z, left; (split; [done|]); unfold fed; rewrite He.
    + split; [split; [done|]; intros Hy; by apply capped_rest in Hy as [-> _]|].
      unfold capped. cbn [buf set_buf]. destruct (Z.ltb_spec TRANSLATE_MAX_BUF (len left)).
      * cbn. split_and!; try done. intros _. constructor.
      * cbn. split_and!; try done; [intros _; split; [done|]; cbn; rewrite E1; split; [done|auto]|].
        intros _. rewrite Hlost in Hb. apply Forall_app in Hb as [_ Hb]. by rewrite Hl in Hb.
    + cbn. split_and!; try done. intros _. constructor.
  - destruct (sse_frames (buf x ++ chunk)) as [fs rest] eqn:Es. rewrite (feed_sse_spec x chunk fs rest Hr Ha He Es).
    pose proof (process_core crc32 json_message elapsed (set_started x) fs) as Hc. set (z := (process (set_started x) fs).1) in *.
    destruct (core_fields _ _ Hc) as (E1 & E2 & _ & E4 & _). cbn in E1, E2, E4. rewrite He in E1.
    destruct (sse_frames_split _ _ _ Es) as (_ & Hn & _).
    eexists _, _, z, rest. split; [done|]. unfold fed. rewrite He.
    split; [split; [done|]; intros Hy; by apply capped_rest in Hy as [-> _]|].
    unfold capped. cbn [buf set_buf]. destruct (Z.ltb_spec TRANSLATE_MAX_BUF (len rest)); cbn; [by split_and!|].
    split_and!; try done. intros _. split; [done|]. cbn. by rewrite E1.
Qed.

Lemma feed_aborted x chunk : aborted x = true -> feed x chunk = Some (x, []).
Proof. intros Ha. unfold Translate.feed. by rewrite Ha. Qed.

Lemma feed_stream_aborted x cs : aborted x = true -> feed_stream x cs = Some (x, []).
Proof. intros Ha. induction cs as [|c cs IH]; [done|]. cbn. rewrite feed_aborted, IH by done. done. Qed.

(** Two chunks or their concatenation: the same, as long as the stream is not given up. *)
Lemma feed_two x c d x1 o1 y o2 : at_rest x -> aborted x = false -> readable x (buf x ++ c ++ d) ->
  feed x c = Some (x1, o1) -> aborted x1 = false -> feed x1 d = Some (y, o2) -> aborted y = false ->
  feed x (c ++ d) = Some (y, o1 ++ o2).
Proof.
  intros Hr Ha Hb H1 Ha1 H2 Ha2. rewrite (assoc_L (++)) in Hb. destruct (egress_eventstream x) eqn:He.
  - specialize (Hb He). pose proof Hb as [Hbc Hbd]%Forall_app.
    destruct (drain_loop_drains (S (length (buf x ++ c))) (buf x ++ c) [] 0 None Hbc) as (frs & st & left & raws & Hd & _); [lia|].
    rewrite (feed_es_spec x c frs st left raws Ha He Hbc Hd) in H1. injection H1 as <- <-.
    destruct st; [|done]. apply capped_rest in Ha1 as [Hx1 _]. rewrite Hx1 in H2.
    pose proof (digest_core (set_started x) frs) as Hc. set (z := (digest (set_started x) frs).1) in *.
    destruct (core_fields _ _ Hc) as (E1 & E2 & E3 & E4 & E5). cbn in E1, E2, E3, E4, E5. rewrite He in E1.
    assert (bytes_ok (left ++ d)) as Hbl.
    { destruct (drains_consumed _ _ _ _ _ Hd) as ((lost & Hlost & Hl) & _). rewrite Hlost in Hbc.
      apply Forall_app in Hbc as [_ Hbc]. rewrite Hl in Hbc by done. by apply Forall_app. }
    destruct (drain_loop_drains (S (length (left ++ d))) (left ++ d) [] 0 None Hbl) as (grs & st2 & left2 & raws2 & Hd2 & _); [lia|].
    rewrite (feed_es_spec (set_buf left (scanned x) z) d grs st2 left2 raws2) in H2; [|by cbn; congruence|done|done|done].
    change (set_started (set_buf left (scanned x) z)) with (set_buf left (scanned x) (set_started z)) in H2.
    rewrite (set_started_id z E3) in H2. unfold digest in H2. rewrite fold_es_buf in H2. fold (digest z grs) in H2.
    injection H2 as <- <-. pose proof (drains_app _ d _ _ _ _ _ _ _ Hd Hd2) as Hda. rewrite <- (assoc_L (++)) in Hda, Hb.
    rewrite (feed_es_spec x (c ++ d) (frs ++ grs) st2 left2 (raws ++ raws2) Ha He Hb Hda).
    rewrite digest_app. fold z. cbn [fst snd same_proto set_buf lift scanned]. rewrite E2.
    destruct st2; [|by destruct (digest z grs).1].
    f_equal. f_equal. destruct (same_proto x) eqn:Es; [|done].
    rewrite (digest_same (set_started x) frs), (digest_same z grs); [by rewrite !app_nil_r| |done]. congruence.
  - destruct (sse_frames (buf x ++ c)) as [fs rest] eqn:Es. rewrite (feed_sse_spec x c fs rest Hr Ha He Es) in H1.
    injection H1 as <- <-. apply capped_rest in Ha1 as [Hx1 Hlen]. rewrite Hx1 in H2.
    pose proof (process_core crc32 json_message elapsed (set_started x) fs) as Hc. set (z := (process (set_started x) fs).1) in *.
    destruct (core_fields _ _ Hc) as (E1 & E2 & E3 & E4 & _). cbn in E1, E2, E3, E4. rewrite He in E1.
    destruct (sse_frames_split _ _ _ Es) as (_ & Hn & _).
    destruct (sse_frames (rest ++ d)) as [gs rest2] eqn:Es2.
    assert (at_rest (set_buf rest (length rest) z)) as Hr1.
    { intros _. split; [done|]. split; [done|]. cbn. by rewrite E1. }
    rewrite (feed_sse_spec (set_buf rest (length rest) z) d gs rest2 Hr1) in H2; [|cbn; congruence|done|done].
    change (set_started (set_buf rest (length rest) z)) with (set_buf rest (length rest) (set_started z)) in H2.
    rewrite (set_started_id z E3), process_buf in H2. injection H2 as <- <-.
    pose proof (sse_frames_app _ d fs rest Es) as Hsa. rewrite <- (assoc_L (++)), Es2 in Hsa. cbn [fst snd] in Hsa.
    rewrite (feed_sse_spec x (c ++ d) _ _ Hr Ha He Hsa), process_app. unfold z. by destruct (process (set_started x) fs).
Qed.
End Feed.

(** ** Theorems about the stream translator: chunking, byte-exact passthrough, one usage for every
    client, tool ids, and the single metadata frame of an event-stream client *)

Import StreamTranslate.
Open Scope Z_scope.
Open Scope rust_scope.

Section OneTranslator.
Context {J : Json} {H : Hex} {W D F : Type} {RD : Reader D} {WR : Writer W} {SF : StreamFraming F}.
Context (crc32 : bytes -> Z) (json_message : bytes -> option bytes) (elapsed : nat -> Z).
Notation T := (StreamTranslate.t W D F).
Notation feed := (feed crc32 json_message elapsed).
Notation feed_stream := (feed_stream crc32 json_message elapsed).
Notation process := (process crc32 json_message elapsed).
Implicit Types x y z : T.

Lemma fed_readable x y c rest : readable x (buf x ++ c ++ rest) ->
  egress_eventstream y = egress_eventstream x -> (egress_eventstream x = true -> bytes_ok (buf y)) ->
  readable y (buf y ++ rest).
Proof.
  intros Hb He Hy E. rewrite He in E. specialize (Hb E). specialize (Hy E). rewrite (assoc_L (++)) in Hb.
  apply Forall_app in Hb as [_ Hb]. by apply Forall_app.
Qed.

Lemma readable_head x c cs : readable x (buf x ++ concat (c :: cs)) -> readable x (buf x ++ c).
Proof. intros Hb E. specialize (Hb E). cbn in Hb. rewrite (assoc_L (++)) in Hb. by apply Forall_app in Hb as [Hb _]. Qed.

Lemma feed_stream_total cs : forall x, at_rest x -> readable x (buf x ++ concat cs) ->
  exists y out, feed_stream x cs = Some (y, out) /\ at_rest y /\ (cs = [] -> y = x /\ out = []).
Proof.
  induction cs as [|c cs IH]; intros x Hr Hb; [by exists x, []|]. cbn [Translate.feed_stream].
  destruct (aborted x) eqn:Ha.
  { rewrite feed_aborted, feed_stream_aborted by done. by eexists _, _. }
  destruct (feed_cases crc32 json_message elapsed x c Hr Ha (readable_head _ _ _ Hb))
    as (y & o & z & left & -> & _ & Hry & He & _ & Hby).
  destruct (IH y Hry) as (w & os & -> & Hw & _); [by eapply fed_readable|]. by eexists _, _.
Qed.

Lemma feed_stream_one cs : forall x c y out, at_rest x -> aborted x = false ->
  readable x (buf x ++ concat (c :: cs)) -> feed_stream x (c :: cs) = Some (y, out) -> aborted y = false ->
  feed x (concat (c :: cs)) = Some (y, out).
Proof.
  induction cs as [|d cs IH]; intros x c y out Hr Ha Hb Hf Hy.
  - cbn in Hf |- *. destruct (feed x c) as [[x1 o]|] eqn:E; [|done]. injection Hf as <- <-. by rewrite !app_nil_r.
  - destruct (feed_cases crc32 json_message elapsed x c Hr Ha (readable_head _ _ _ Hb))
      as (x1 & o1 & z & left & E1 & _ & Hr1 & He1 & _ & Hb1).
    change (feed_stream x (c :: d :: cs)) with
      (let? (x0, out0) := feed x c in let? (x2, outs) := feed_stream x0 (d :: cs) in Some (x2, out0 ++ outs)) in Hf.
    rewrite E1 in Hf. destruct (feed_stream x1 (d :: cs)) as [[x2 outs]|] eqn:E2; [|done]. injection Hf as -> <-.
    destruct (aborted x1) eqn:Ha1.
    { rewrite feed_stream_aborted in E2 by done. injection E2 as <- <-. congruence. }
    cbn [concat]. eapply (feed_two crc32 json_message elapsed x c (concat (d :: cs))); [done|done|exact Hb|exact E1|done| |done].
    apply IH; [done|done| |done|done]. eapply fed_readable; [exact Hb|done|done].
Qed.

Lemma at_rest_bound x : at_rest x -> aborted x = false \/ buf x = [] -> len (buf x) <= TRANSLATE_MAX_BUF.
Proof.
  intros Hr [Ha|Hb]; [by destruct (Hr Ha)|]. rewrite Hb. unfold TRANSLATE_MAX_BUF, MAX_FRAME_BYTES, len. cbn. lia.
Qed.

(** C10.  Translation does not depend on how the network cuts the stream: for server-sent events and
    for binary event streams, same- and cross-protocol alike, feeding never panics, never holds more
    than one maximal frame, and, unless the stream was abandoned as unreadable, feeding it chunk by
    chunk gives the same bytes and the same final state as feeding it at once. *)
Theorem translation_ignores_chunking x chunks :
  at_rest x -> aborted x = false -> readable x (buf x ++ concat chunks) -> chunks <> [] ->
  exists y out, feed_stream x chunks = Some (y, out) /\
    (aborted y = false -> len (buf y) <= TRANSLATE_MAX_BUF /\ feed x (concat chunks) = Some (y, out)).
Proof.
  intros Hr Ha Hb Hne. destruct (feed_stream_total chunks x Hr Hb) as (y & out & Hf & Hry & _).
  exists y, out. split; [done|]. intros Hy. split; [by apply at_rest_bound; [|left]|].
  destruct chunks as [|c cs]; [done|]. by apply feed_stream_one.
Qed.

(** ** Byte-exact passthrough *)
Definition inert : Prop :=
  forall (f : F) (v : Value), suppress_same_proto_frame f v = false /\ strip_same_proto_usage f v = false.

Lemma frame_out_verbatim x f : inert -> same_proto x = true -> (frame_out crc32 json_message elapsed x f).2 = f.
Proof.
  intros Hi Hs. unfold frame_out. destruct (frame_value f) as [[[et ds] data]|]; rewrite Hs; [|done]. cbn [snd].
  by destruct (Hi (framing (extract_usage_only x et data)) data) as [-> ->].
Qed.

Lemma process_verbatim x fs : inert -> same_proto x = true -> (process x fs).2 = concat fs.
Proof.
  intros Hi. revert x. induction fs as [|f fs IH]; intros x Hs; [done|]. rewrite process_cons.
  pose proof (frame_out_verbatim x f Hi Hs) as Hf. pose proof (frame_out_core crc32 json_message elapsed x f) as Hc.
  apply same_proto_core in Hc. destruct (frame_out _ _ _ x f) as [y o]. cbn in *. subst o. rewrite IH; [done|congruence].
Qed.

Lemma feed_verbatim x c y out : inert -> at_rest x -> aborted x = false -> same_proto x = true ->
  readable x (buf x ++ c) -> feed x c = Some (y, out) -> aborted y = false -> out ++ buf y = buf x ++ c.
Proof.
  intros Hi Hr Ha Hs Hb Hf Hy. destruct (egress_eventstream x) eqn:He.
  - specialize (Hb He). destruct (drain_loop_drains (S (length (buf x ++ c))) (buf x ++ c) [] 0 None Hb)
      as (frs & st & left & raws & Hd & _); [lia|].
    rewrite (feed_es_spec crc32 json_message elapsed x c frs st left raws Ha He Hb Hd) in Hf. injection Hf as <- <-.
    destruct st; [|done]. apply capped_rest in Hy as [-> _]. cbn [buf set_buf].
    rewrite Hs, (digest_same crc32 json_message elapsed (set_started x)), app_nil_r by done.
    destruct (drains_consumed _ _ _ _ _ Hd) as ((lost & -> & Hl) & _). by rewrite Hl.
  - destruct (sse_frames (buf x ++ c)) as [fs rest] eqn:Es.
    rewrite (feed_sse_spec crc32 json_message elapsed x c fs rest Hr Ha He Es) in Hf. injection Hf as <- <-.
    apply capped_rest in Hy as [-> _]. cbn [buf set_buf]. rewrite (process_verbatim (set_started x)) by done.
    by destruct (sse_frames_split _ _ _ Es) as (<- & _).
Qed.

(** A client that speaks the upstream's protocol sees the upstream's bytes: with a framing that
    asks for no edit (every protocol but OpenAI), what a same-protocol translator has emitted is
    exactly the stream it was fed, less the incomplete frame still in its buffer, byte for byte, over
    any chunking and for both kinds of framing; and the end of the stream adds nothing. *)
Theorem same_protocol_is_verbatim x chunks y out :
  inert -> at_rest x -> aborted x = false -> same_proto x = true -> readable x (buf x ++ concat chunks) ->
  feed_stream x chunks = Some (y, out) -> aborted y = false ->
  out ++ buf y = buf x ++ concat chunks /\ (finish crc32 json_message elapsed y).2 = [].
Proof.
  intros Hi Hr Ha Hs Hb Hf Hy. destruct chunks as [|c cs].
  { injection Hf as <- <-. cbn. unfold finish. by rewrite app_nil_r, Ha, Hs. }
  pose proof (feed_stream_one cs x c y out Hr Ha Hb Hf Hy) as H1.
  split; [by eapply feed_verbatim|].
  destruct (feed_cases crc32 json_message elapsed x (concat (c :: cs)) Hr Ha Hb) as (y' & o & z & left & E & _ & _ & _ & Hs' & _).
  rewrite H1 in E. injection E as <- <-. unfold finish. rewrite Hy, Hs', Hs. done.
Qed.
End OneTranslator.

(** ** The same stream, two clients *)
Section TwoClients.
Context {J : Json} {H : Hex} {W D F W' F' : Type} {RD : Reader D} {WR : Writer W} {SF : StreamFraming F}
        {WR' : Writer W'} {SF' : StreamFraming F'}.
Context (crc32 : bytes -> Z) (json_message : bytes -> option bytes) (elapsed : nat -> Z).
Notation T := (StreamTranslate.t W D F).
Notation T' := (StreamTranslate.t W' D F').
Implicit Types x : T. Implicit Types y : T'.

Lemma fold_usage_tap x y evs : tap x = tap y -> tap (foldl on_event_usage x evs) = tap (foldl on_event_usage y evs).
Proof.
  revert x y. induction evs as [|ev evs IH]; intros x y Ht; [done|]. cbn [foldl]. apply IH.
  by apply on_event_usage_tap.
Qed.

Lemma extract_tap x y et data : tap x = tap y -> tap (extract_usage_only x et data) = tap (extract_usage_only y et data).
Proof.
  intros Ht. unfold extract_usage_only. assert (decode x = decode y) as -> by (unfold tap in Ht; congruence).
  destruct (read_response_events et data (decode y)) as [d evs]. apply fold_usage_tap.
  unfold tap in *. cbn. congruence.
Qed.

(** One reading of a frame: the tap of either kind of translator. *)
Lemma frame_out_tap x f : tap (frame_out crc32 json_message elapsed x f).1 =
  match frame_value f with Some (et, _, data) => tap (extract_usage_only x et data) | None => tap x end.
Proof.
  unfold frame_out. destruct (frame_value f) as [[[et ds] data]|]; [|done].
  destruct (same_proto x); [done|]. apply translate_tap.
Qed.

Lemma es_frame_tap x out fr : tap (on_es_frame crc32 json_message elapsed (x, out) fr).1 =
  match parse_str fr.2 with
  | Some data => tap (extract_usage_only x fr.1 (insert_type fr.1 data)) | None => tap x end.
Proof.
  unfold on_es_frame. destruct fr as [et pl]. cbn [fst snd]. destruct (parse_str pl) as [data|]; [|done].
  destruct (same_proto x); [done|]. apply translate_tap.
Qed.
End TwoClients.

Section TwoStreams.
Context {J : Json} {H : Hex} {W D F W' F' : Type} {RD : Reader D} {WR : Writer W} {SF : StreamFraming F}
        {WR' : Writer W'} {SF' : StreamFraming F'}.
Context (crc32 : bytes -> Z) (json_message : bytes -> option bytes) (elapsed : nat -> Z).
Notation T := (StreamTranslate.t W D F).
Notation T' := (StreamTranslate.t W' D F').
Implicit Types x : T. Implicit Types y : T'.

Lemma process_tap x y fs : tap x = tap y ->
  tap (process crc32 json_message elapsed x fs).1 = tap (process crc32 json_message elapsed y fs).1.
Proof.
  revert x y. induction fs as [|f fs IH]; intros x y Ht; [done|]. rewrite !process_cons.
  pose proof (frame_out_tap crc32 json_message elapsed x f) as Hx.
  pose proof (frame_out_tap crc32 json_message elapsed y f) as Hy.
  destruct (frame_out _ _ _ x f) as [x' o], (frame_out _ _ _ y f) as [y' o']. cbn [fst] in *. apply IH.
  rewrite Hx, Hy. destruct (frame_value f) as [[[et ds] data]|]; [by apply extract_tap|done].
Qed.

Lemma digest_tap x y frs : tap x = tap y ->
  tap (digest crc32 json_message elapsed x frs).1 = tap (digest crc32 json_message elapsed y frs).1.
Proof.
  unfold digest. generalize (@nil Z) at 1. generalize (@nil Z). revert x y.
  induction frs as [|fr frs IH]; intros x y o o' Ht; [done|]. cbn [foldl].
  pose proof (es_frame_tap crc32 json_message elapsed x o' fr) as Hx.
  pose proof (es_frame_tap crc32 json_message elapsed y o fr) as Hy.
  destruct (on_es_frame _ _ _ (x, o') fr) as [x' p], (on_es_frame _ _ _ (y, o) fr) as [y' p']. cbn [fst] in *.
  apply IH. rewrite Hx, Hy. destruct (parse_str fr.2); [by apply extract_tap|done].
Qed.

(** Two translators of one stream. *)
Definition twins (x : T) (y : T') : Prop :=
  tap x = tap y /\ buf x = buf y /\ scanned x = scanned y /\ aborted x = aborted y /\
  egress_eventstream x = egress_eventstream y.

Lemma twins_capped x y : twins x y -> twins (capped x) (capped y).
Proof.
  intros (Ht & Hb & Hs & Ha & He). unfold capped. rewrite Hb.
  destruct (TRANSLATE_MAX_BUF <? len (buf y)); [|done]. by split_and!.
Qed.

Lemma twins_feed x y c : at_rest x -> at_rest y -> readable x (buf x ++ c) -> twins x y ->
  exists x' y' o o', feed crc32 json_message elapsed x c = Some (x', o) /\
    feed crc32 json_message elapsed y c = Some (y', o') /\ twins x' y'.
Proof.
  intros Hr Hr' Hb Htw. pose proof Htw as (Ht & Hbu & Hs & Ha & He). destruct (aborted x) eqn:Eax.
  { rewrite !feed_aborted by congruence. by eexists _, _, _, _. }
  assert (tap (set_started x) = tap (set_started y)) as Ht' by done.
  destruct (egress_eventstream x) eqn:Ees.
  - specialize (Hb Ees). destruct (drain_loop_drains (S (length (buf x ++ c))) (buf x ++ c) [] 0 None Hb)
      as (frs & st & left & raws & Hd & _); [lia|].
    rewrite (feed_es_spec crc32 json_message elapsed x c frs st left raws Eax Ees Hb Hd).
    rewrite Hbu in Hb, Hd. rewrite (feed_es_spec crc32 json_message elapsed y c frs st left raws) by congruence || done.
    eexists _, _, _, _. split; [done|]. split; [done|].
    pose proof (digest_tap (set_started x) (set_started y) frs Ht') as Hdt.
    pose proof (core_fields _ _ (digest_core crc32 json_message elapsed (set_started x) frs)) as (E1 & _ & _ & E4 & _).
    pose proof (core_fields _ _ (digest_core crc32 json_message elapsed (set_started y) frs)) as (E1' & _ & _ & E4' & _).
    cbn in E1, E4, E1', E4'. destruct st; [apply twins_capped|]; split_and!; try done; cbn; congruence.
  - destruct (sse_frames (buf x ++ c)) as [fs rest] eqn:Es.
    rewrite (feed_sse_spec crc32 json_message elapsed x c fs rest Hr Eax Ees Es).
    rewrite Hbu in Es. rewrite (feed_sse_spec crc32 json_message elapsed y c fs rest Hr') by congruence.
    eexists _, _, _, _. split; [done|]. split; [done|]. apply twins_capped.
    pose proof (core_fields _ _ (process_core crc32 json_message elapsed (set_started x) fs)) as (E1 & _ & _ & E4 & _).
    pose proof (core_fields _ _ (process_core crc32 json_message elapsed (set_started y) fs)) as (E1' & _ & _ & E4' & _).
    cbn in E1, E4, E1', E4'. split_and!; try done; cbn; [by apply process_tap|congruence..].
Qed.

(** What is billed does not depend on who is listening: for one upstream stream, cut in any way,
    a same-protocol translator (which only taps usage) and a cross-protocol one (which also rewrites
    every event for its client) end with the same token usage, the same terminal error and the same
    verdict on whether the stream was readable, whatever the client's protocol, writer and framing. *)
Theorem usage_independent_of_client x y chunks :
  at_rest x -> at_rest y -> readable x (buf x ++ concat chunks) -> twins x y ->
  exists x' y' o o', feed_stream crc32 json_message elapsed x chunks = Some (x', o) /\
    feed_stream crc32 json_message elapsed y chunks = Some (y', o') /\
    last_usage x' = last_usage y' /\ terminal_error x' = terminal_error y' /\ aborted x' = aborted y'.
Proof.
  intros Hr Hr' Hb Htw.
  assert (exists x' y' o o', feed_stream crc32 json_message elapsed x chunks = Some (x', o) /\
    feed_stream crc32 json_message elapsed y chunks = Some (y', o') /\ twins x' y') as (x' & y' & o & o' & E1 & E2 & Ht).
  { revert x y Hr Hr' Hb Htw. induction chunks as [|c cs IH]; intros x y Hr Hr' Hb Htw; [by exists x, y, [], []|].
    cbn [feed_stream]. pose proof (readable_head _ _ _ Hb) as Hbc. pose proof Htw as (_ & Hbu & _ & Ha & He).
    destruct (twins_feed x y c Hr Hr' Hbc Htw) as (x1 & y1 & o & o' & E1 & E2 & Ht1). rewrite E1, E2.
    destruct (aborted x) eqn:Eax.
    { rewrite feed_aborted in E1 by done. rewrite feed_aborted in E2 by congruence. injection E1 as <- <-. injection E2 as <- <-.
      rewrite !feed_stream_aborted by congruence. by eexists _, _, _, _. }
    destruct (feed_cases crc32 json_message elapsed x c Hr Eax Hbc) as (x2 & o2 & z & left & E3 & _ & Hr1 & He1 & _ & Hb1).
    rewrite E1 in E3. injection E3 as <- <-.
    destruct (feed_cases crc32 json_message elapsed y c Hr') as (y2 & o3 & z' & left' & E4 & _ & Hr1' & _); [congruence| |].
    { intros Ey. rewrite <- Hbu. apply Hbc. congruence. }
    rewrite E2 in E4. injection E4 as <- <-.
    destruct (IH x1 y1 Hr1 Hr1') as (x' & y' & p & p' & -> & -> & Ht); [by eapply fed_readable|done|].
    by eexists _, _, _, _. }
  exists x', y', o, o'. split; [done|]. split; [done|]. destruct Ht as (Ht & _ & _ & Ha & _).
  unfold tap in Ht. split_and!; congruence.
Qed.
End TwoStreams.

(** ** Examples *)
Section Examples.
Import StreamDemo.

Lemma translation_ignores_chunking_witness :
  exists y out, feed_stream crc message clock (start false) chunks = Some (y, out) /\
    (aborted y = false -> len (buf y) <= TRANSLATE_MAX_BUF /\
       feed crc message clock (start false) (concat chunks) = Some (y, out)) /\ aborted y = false.
Proof.
  destruct (translation_ignores_chunking crc message clock (start false) chunks) as (y & out & E & Hy).
  - apply build_at_rest.
  - reflexivity.
  - intros E. discriminate E.
  - discriminate.
  - exists y, out. split; [exact E|]. split; [exact Hy|]. vm_compute in E. injection E as <- _. reflexivity.
Defined.

Lemma same_protocol_is_verbatim_witness :
  exists y out, feed_stream crc message clock (start true) chunks = Some (y, out) /\
    out ++ buf y = concat chunks /\ (finish crc message clock y).2 = [].
Proof.
  destruct (feed_stream crc message clock (start true) chunks) as [[y out]|] eqn:E; [|vm_compute in E; discriminate E].
  exists y, out. split; [reflexivity|].
  apply (same_protocol_is_verbatim crc message clock (start true) chunks y out).
  - intros f v. split; reflexivity.
  - apply build_at_rest.
  - reflexivity.
  - reflexivity.
  - intros E'. discriminate E'.
  - exact E.
  - vm_compute in E. injection E as <- _. reflexivity.
Defined.

Lemma usage_independent_of_client_witness :
  exists x' y' o o', feed_stream crc message clock (start true) chunks = Some (x', o) /\
    feed_stream crc message clock (start false) chunks = Some (y', o') /\
    last_usage x' = last_usage y' /\ terminal_error x' = terminal_error y' /\ aborted x' = aborted y'.
Proof.
  apply (usage_independent_of_client crc message clock (start true) (start false) chunks).
  - apply build_at_rest.
  - apply build_at_rest.
  - intros E. discriminate E.
  - repeat split.
Defined.
End Examples.
