(* ===== verification/StreamClient.v ===== *)
(** * What a client of a translated stream receives: one metadata frame, and the usage it is billed

    The events handed to the ingress writer are observed by pairing any writer with a log of them. *)
From stdpp Require Import base list strings gmap.
From Stdlib Require Import ZArith Lia.
From S2P Require Import Prelude Breaker EventStream Sse Ir UsageStrip Translate StreamDemo TranslateFacts.
Import StreamTranslate.
Open Scope Z_scope.
Open Scope rust_scope.

Section Logged.
Context {J : Json} {W : Type} {WR : Writer W}.

(** A writer with a log of the events it was given. *)
Record Logged := mk_logged { inner : W; log : list IrStreamEvent }.

#[export] Program Instance logged_writer : Writer Logged := {
  protocol_name w := protocol_name (inner w);
  write_response_event w ev :=
    let '(i, r) := write_response_event (inner w) ev in (mk_logged i (log w ++ [ev]), r);
  write_response_exception w := write_response_exception (inner w);
  max_citations_per_delta w := max_citations_per_delta (inner w);
  emits_sse_done_terminator w := emits_sse_done_terminator (inner w);
  ingress_is_eventstream w := ingress_is_eventstream (inner w) }.
Next Obligation. intros w n. apply max_citations_pos. Qed.

Definition is_delta (ev : IrStreamEvent) : bool := match ev with MessageDelta _ _ _ => true | _ => false end.

(** A delta that carries usage alone: the "metadata" frame of an event-stream client. *)
Definition is_metadata (ev : IrStreamEvent) : bool := match ev with MessageDelta None _ _ => true | _ => false end.
End Logged.
Arguments Logged {J} W.

Section Client.
Context {J : Json} {H : Hex} {W D F : Type} {RD : Reader D} {WR : Writer W} {SF : StreamFraming F}.
Context (crc32 : bytes -> Z) (json_message : bytes -> option bytes) (elapsed : nat -> Z).
Notation T := (StreamTranslate.t (Logged W) D F).
Notation emit_ir_event := (emit_ir_event crc32 elapsed).
Notation emit_all := (emit_all crc32 elapsed).
Notation on_event := (on_event crc32 json_message elapsed).
Implicit Types x y z : T.

(** The deltas the writer was given. *)
Definition deltas (x : T) : list IrStreamEvent := List.filter is_delta (log (ingress x)).

(** What writing an event leaves alone. *)
Definition rest_of (x : T) := (pending_terminal x, pending_stop x, last_usage x, same_proto x, aborted x).

(** What writing does to a translator whose framing ignores chunks. *)
Definition wrote (evs : list IrStreamEvent) (x y : T) : Prop :=
  log (ingress y) = log (ingress x) ++ evs /\ rest_of y = rest_of x /\ framing y = framing x.

Context (quiet : forall (f : F) v, (on_egress_chunk f v).1.1 = f).

Lemma wrote_trans x y z e1 e2 : wrote e1 x y -> wrote e2 y z -> wrote (e1 ++ e2) x z.
Proof. intros (A1 & A2 & A3) (B1 & B2 & B3). split_and!; [|congruence..]. by rewrite B1, A1, (assoc_L (++)). Qed.

Lemma emit_wrote x ev : wrote [ev] x (emit_ir_event x ev).1.
Proof.
  unfold Translate.emit_ir_event. cbn [write_response_event logged_writer].
  destruct (write_response_event (inner (ingress x)) ev) as [w [[et d]|]]; [|done].
  destruct (ingress_eventstream x); [done|]. pose proof (quiet (framing x) d) as Hq.
  destruct (on_egress_chunk (framing x) d) as [[f c] tr]. cbn in Hq. by subst f.
Qed.

Lemma emit_all_wrote x evs : wrote evs x (emit_all x evs).1.
Proof.
  revert x. induction evs as [|ev evs IH]; intros x; cbn [Translate.emit_all].
  { unfold wrote. by rewrite app_nil_r. }
  pose proof (emit_wrote x ev) as H1. destruct (emit_ir_event x ev) as [y o]. specialize (IH y).
  destruct (emit_all y evs) as [z os]. cbn [fst] in *. by apply (wrote_trans x y z [ev] evs).
Qed.

Lemma wrote_deltas evs x y : wrote evs x y -> deltas y = deltas x ++ List.filter is_delta evs.
Proof. intros (E & _). unfold deltas. by rewrite E, List.filter_app. Qed.

Lemma citations_no_delta i cs : List.filter is_delta ((fun c => BlockDelta i (CitationsDelta c)) <$> cs) = [].
Proof. induction cs; done. Qed.

(** The tail of the loop hands no delta on when given none. *)
Lemma write_no_delta x ev : is_delta ev = false ->
  deltas (write_event crc32 elapsed x ev).1 = deltas x /\
  rest_of (write_event crc32 elapsed x ev).1 = rest_of x /\ framing (write_event crc32 elapsed x ev).1 = framing x.
Proof.
  intros Hd. assert (forall y e, is_delta e = false -> deltas (emit_ir_event y e).1 = deltas y /\
    rest_of (emit_ir_event y e).1 = rest_of y /\ framing (emit_ir_event y e).1 = framing y) as He.
  { intros y e Hy. pose proof (emit_wrote y e) as Hw. split; [|by destruct Hw as (_ & ? & ?)].
    rewrite (wrote_deltas _ _ _ Hw). cbn. rewrite Hy. apply app_nil_r. }
  unfold write_event. destruct ev as [| |i d| | | |]; try done; try (by apply He).
  - destruct d; try (by apply He). destruct (max_citations_per_delta _) as [n|]; [|by apply He].
    destruct (_ <? _)%nat; [|by apply He]. pose proof (emit_all_wrote x ((fun c => BlockDelta i (CitationsDelta c)) <$>
      chunks_of (length cs) n cs)) as Hw. split; [|by destruct Hw as (_ & ? & ?)].
    rewrite (wrote_deltas _ _ _ Hw), citations_no_delta. apply app_nil_r.
  - destruct (He (set_stopped x) MessageStop eq_refl) as (-> & -> & ->). done.
Qed.

(** What [note_event] changes of a translator: the tap, the tool ids. *)
Lemma note_rest x ev : let y := (note_event x ev).1 in let ev' := (note_event x ev).2 in
  log (ingress y) = log (ingress x) /\ framing y = framing x /\ pending_terminal y = pending_terminal x /\
  pending_stop y = pending_stop x /\ same_proto y = same_proto x /\ aborted y = aborted x /\
  match ev with
  | MessageDelta sr ss u =>
      ev' = MessageDelta sr ss (backfill_usage (start_usage x) u) /\
      last_usage y = Some (accumulate_usage (last_usage x) (backfill_usage (start_usage x) u))
  | _ => is_delta ev' = false /\ last_usage y = last_usage x
  end.
Proof.
  unfold note_event, remap_event. destruct ev as [role [u|] id cr m|i [| |id nm|]| | |sr ss u| |e]; cbn; try by split_and!.
  destruct (native_for _ _ _). by split_and!.
Qed.

(** An event that is no delta, under a framing that leaves such events alone. *)
Lemma on_event_no_delta x out ev : is_delta ev = false ->
  let y := (on_event (x, out) ev).1 in
  deltas y = deltas x /\ framing y = framing x /\ last_usage y = last_usage x /\ same_proto y = same_proto x /\
  aborted y = aborted x /\
  (pending_terminal y = pending_terminal x).
Proof.
  intros Hd. unfold Translate.on_event. pose proof (note_rest x ev) as (E1 & E2 & E3 & E4 & E5 & E6 & E7).
  destruct (note_event x ev) as [x1 ev1]. cbn [fst snd] in *.
  assert (is_delta ev1 = false /\ last_usage x1 = last_usage x) as [Hd1 El] by (by destruct ev).
  assert (deltas x1 = deltas x) as Ed by (unfold deltas; congruence).
  destruct (exception_event _ _ _ _) as [o|]; [cbn; split_and!; congruence|].
  assert (combined_event crc32 elapsed x1 ev1 = (x1, None)) as -> by (by destruct ev1).
  destruct (fold_event x1 ev1) as [x2|] eqn:Ef.
  { unfold fold_event in Ef. destruct (folds_terminal_usage _); [|done].
    destruct ev1 as [| | | |[r|] s u| |]; try done; destruct (pending_terminal x1) as [[[r' s'] acc]|] eqn:Ep; try done;
    injection Ef as <-; cbn; split_and!; try congruence; rewrite <- Ed; done. }
  assert (usage_only_event crc32 elapsed x1 ev1 = (x1, None)) as -> by (by destruct ev1).
  pose proof (write_no_delta x1 ev1 Hd1) as (F1 & F2 & F3). destruct (write_event _ _ _ _) as [x2 o]. cbn in *.
  unfold rest_of in F2. split_and!; congruence.
Qed.
End Client.

(** ** The Bedrock client *)
Section Bedrock.
Context {J : Json} {H : Hex} {W D : Type} {RD : Reader D} {WR : Writer W} (insert_metrics : Z -> Value -> Value).
Context (crc32 : bytes -> Z) (json_message : bytes -> option bytes) (elapsed : nat -> Z).
#[local] Instance framing_here : StreamFraming BedrockStreamFraming := bedrock_framing insert_metrics.
Notation T := (StreamTranslate.t (Logged W) D BedrockStreamFraming).
Notation on_event := (on_event crc32 json_message elapsed).
Implicit Types x y z : T.

Lemma bedrock_quiet (f : BedrockStreamFraming) v : (on_egress_chunk f v).1.1 = f.
Proof. done. Qed.

Definition metadata (l : list IrStreamEvent) : list IrStreamEvent := List.filter is_metadata l.

(** The stop reasons of the deltas of a list of events, in order. *)
Definition stops (l : list IrStreamEvent) : list IrStopReason :=
  omap (fun ev => match ev with MessageDelta sr _ _ => sr | _ => None end) l.

Definition b2n (b : bool) : nat := if b then 1 else 0.

(** [seen]: the events so far. *)
Definition bedrock_inv (x : T) (seen : list IrStreamEvent) : Prop :=
  length (metadata (deltas x)) = b2n (emitted (framing x)) /\
  emitted (framing x) || pending (framing x) = existsb is_delta seen /\
  stops (deltas x) = stops seen /\
  pending_terminal x = None /\ same_proto x = false /\ aborted x = false.

Lemma metadata_app a b : metadata (a ++ b) = metadata a ++ metadata b.
Proof. apply List.filter_app. Qed.

Lemma stops_no_delta ev : is_delta ev = false -> stops [ev] = [].
Proof. by destruct ev. Qed.

Lemma on_combined x out r ss u :
  exists f evs, bedrock_on_combined_stop_delta (framing x) r ss (backfill_usage (start_usage x) u) = (f, Some evs) /\
    let y := (on_event (x, out) (MessageDelta (Some r) ss u)).1 in
    deltas y = deltas x ++ evs /\ framing y = f /\ pending_terminal y = pending_terminal x /\
    same_proto y = same_proto x /\ aborted y = aborted x.
Proof.
  set (u' := backfill_usage (start_usage x) u). unfold Translate.on_event.
  pose proof (note_rest x (MessageDelta (Some r) ss u)) as (E1 & E2 & E3 & _ & E5 & E6 & E7 & _).
  destruct (note_event x _) as [x1 ev1]. cbn [fst snd] in *. subst ev1. fold u'.
  cbn [exception_event]. unfold combined_event. cbn [on_combined_stop_delta framing_here bedrock_framing].
  rewrite E2. destruct (bedrock_on_combined_stop_delta (framing x) r ss u') as [f o] eqn:Eb.
  assert (exists evs, o = Some evs /\ List.filter is_delta evs = evs) as (evs & -> & Hf).
  { unfold bedrock_on_combined_stop_delta in Eb. destruct (emitted _); [|destruct (has_usage _)];
    injection Eb as _ <-; by eexists. }
  exists f, evs. split; [done|]. pose proof (emit_all_wrote crc32 elapsed bedrock_quiet (set_framing f x1) evs) as Hw.
  destruct (emit_all _ _ _ _) as [y o]. cbn [fst] in *. pose proof (wrote_deltas _ _ _ Hw) as Hd. destruct Hw as (_ & Hr & Hfr).
  rewrite Hf in Hd. unfold rest_of in Hr. cbn in Hr, Hfr. injection Hr as R1 R2 R3 R4 R5.
  split_and!; try congruence. rewrite Hd. unfold deltas. cbn. by rewrite E1.
Qed.

Lemma on_usage_only x out ss u :
  let y := (on_event (x, out) (MessageDelta None ss u)).1 in
  deltas y = deltas x ++ (if emitted (framing x) then [] else [MessageDelta None ss (backfill_usage (start_usage x) u)]) /\
  framing y = (if emitted (framing x) then framing x else mk_bedrock true false) /\
  pending_terminal y = pending_terminal x /\ same_proto y = same_proto x /\ aborted y = aborted x.
Proof.
  unfold Translate.on_event.
  pose proof (note_rest x (MessageDelta None ss u)) as (E1 & E2 & E3 & _ & E5 & E6 & E7 & _).
  destruct (note_event x _) as [x1 ev1]. cbn [fst snd] in *. subst ev1.
  cbn [exception_event combined_event]. unfold fold_event. cbn [folds_terminal_usage framing_here bedrock_framing].
  unfold usage_only_event. cbn [on_usage_only_delta framing_here bedrock_framing]. unfold bedrock_on_usage_only_delta.
  rewrite E2. destruct (emitted (framing x)) eqn:Ee.
  { cbn. split_and!; try congruence. unfold deltas. cbn. by rewrite E1, app_nil_r. }
  pose proof (emit_wrote crc32 elapsed bedrock_quiet (set_framing (mk_bedrock true false) x1)
    (MessageDelta None ss (backfill_usage (start_usage x) u))) as Hw.
  destruct (emit_ir_event _ _ _ _) as [y o]. cbn [fst] in *. pose proof (wrote_deltas _ _ _ Hw) as Hd. destruct Hw as (_ & Hr & Hfr).
  unfold rest_of in Hr. cbn in Hr, Hfr. injection Hr as R1 R2 R3 R4 R5. split_and!; try congruence.
  rewrite Hd. unfold deltas. cbn. by rewrite E1.
Qed.

Lemma bedrock_step x out ev seen : bedrock_inv x seen -> bedrock_inv (on_event (x, out) ev).1 (seen ++ [ev]).
Proof.
  intros (I1 & I2 & I3 & I4 & I5 & I6). unfold bedrock_inv. rewrite existsb_app. unfold stops at 2. rewrite omap_app. fold (stops seen) (stops [ev]).
  destruct (is_delta ev) eqn:Ed.
  2: { destruct (on_event_no_delta crc32 json_message elapsed bedrock_quiet x out ev Ed) as (-> & -> & _ & -> & -> & ->).
    rewrite (stops_no_delta _ Ed), app_nil_r. cbn [existsb]. rewrite Ed, orb_false_r. by split_and!. }
  cbn [existsb]. rewrite Ed, orb_true_r. destruct ev as [| | | |[r|] ss u| |]; try done.
  - destruct (on_combined x out r ss u) as (f & evs & Eb & -> & -> & -> & -> & ->).
    rewrite metadata_app, length_app, I1. unfold stops at 1. rewrite omap_app. fold (stops (deltas x)). rewrite I3.
    unfold bedrock_on_combined_stop_delta in Eb. destruct (emitted (framing x)) eqn:Ee; [|destruct (has_usage _)];
    injection Eb as <- <-; cbn; rewrite ?Ee; by split_and!.
  - destruct (on_usage_only x out ss u) as (-> & -> & -> & -> & ->).
    rewrite metadata_app, length_app, I1. unfold stops at 1. rewrite omap_app. fold (stops (deltas x)). rewrite I3.
    destruct (emitted (framing x)) eqn:Ee; cbn; rewrite ?Ee; by split_and!.
Qed.

Lemma bedrock_steps evs : forall x out seen, bedrock_inv x seen -> bedrock_inv (foldl on_event (x, out) evs).1 (seen ++ evs).
Proof.
  induction evs as [|ev evs IH]; intros x out seen Hi; [by rewrite app_nil_r|]. cbn [foldl].
  pose proof (bedrock_step x out ev seen Hi) as Hs. destruct (on_event (x, out) ev) as [y o].
  rewrite cons_middle, app_assoc. by apply IH.
Qed.

(** A Bedrock client gets exactly one usage ("metadata") frame: whatever events the upstream
    reader produces (usage with the stop, after it, in several deltas, or never), the writer is
    given one usage-only delta if the stream reported any delta at all and none otherwise, the end of
    the stream included, and every stop reason of the upstream is delivered once and in order. *)
Theorem bedrock_one_metadata (w : W) evs es :
  let x := build (mk_logged w []) (mk_bedrock false false) es false : T in
  let z := (finish crc32 json_message elapsed (foldl on_event (x, []) evs).1).1 in
  length (metadata (deltas z)) = b2n (existsb is_delta evs) /\ stops (deltas z) = stops evs.
Proof.
  intros x z. assert (bedrock_inv x []) as Hi by done.
  pose proof (bedrock_steps evs x [] [] Hi) as (I1 & I2 & I3 & I4 & I5 & I6). cbn [app] in *.
  set (y := (foldl on_event (x, []) evs).1) in *. unfold z, finish. rewrite I5, I6.
  cbn [on_finish framing_here bedrock_framing]. unfold bedrock_on_finish.
  destruct (negb (pending (framing y)) || emitted (framing y)) eqn:Ep.
  - cbn [pending_terminal set_framing set_writer]. rewrite I4. cbn [fst]. change (deltas (set_framing (framing y) y)) with (deltas y).
    rewrite I1, I3, <- I2. split; [|done]. by destruct (emitted (framing y)), (pending (framing y)).
  - apply orb_false_iff in Ep as [Ep1 Ep2]. rewrite Ep2 in *. apply negb_false_iff in Ep1.
    pose proof (emit_wrote crc32 elapsed bedrock_quiet (set_framing (mk_bedrock true false) y)
      (MessageDelta None None IrUsage.zero)) as Hw.
    destruct (emit_ir_event _ _ _ _) as [y2 o]. cbn [fst] in *. pose proof (wrote_deltas _ _ _ Hw) as Hd.
    destruct Hw as (_ & Hr & _). unfold rest_of in Hr. cbn in Hr. injection Hr as R1 _ _ _ _. rewrite R1, I4. cbn [fst].
    rewrite Hd. change (deltas (set_framing _ y)) with (deltas y). rewrite metadata_app, length_app, I1. cbn.
    unfold stops at 1. rewrite omap_app. fold (stops (deltas y)). rewrite I3, <- I2, Ep1. cbn. by rewrite app_nil_r.
Qed.
End Bedrock.

(** ** The client of a protocol that shows its usage once *)
Section Shown.
Context {J : Json} {H : Hex} {W D : Type} {RD : Reader D} {WR : Writer W}.
Context (crc32 : bytes -> Z) (json_message : bytes -> option bytes) (elapsed : nat -> Z).
Notation T := (StreamTranslate.t (Logged W) D PassthroughFraming).
Notation on_event := (on_event crc32 json_message elapsed).
Implicit Types x y z : T.

Lemma plain_quiet (f : PassthroughFraming) v : (on_egress_chunk f v).1.1 = f.
Proof. done. Qed.

(** Token counts are unsigned. *)
Definition counts (u : IrUsage.t) : Prop := 0 <= IrUsage.input_tokens u /\ 0 <= IrUsage.output_tokens u.

Definition counted (ev : IrStreamEvent) : Prop :=
  match ev with
  | MessageStart _ (Some u) _ _ _ | MessageDelta _ _ u => counts u
  | _ => True
  end.

(** The first delta is the one with the stop reason. *)
Definition stop_leads (evs : list IrStreamEvent) : Prop :=
  match List.filter is_delta evs with MessageDelta None _ _ :: _ => False | _ => True end.

Definition shown_inv (x : T) (seen : list IrStreamEvent) : Prop :=
  deltas x = [] /\ same_proto x = false /\ aborted x = false /\ (forall u, start_usage x = Some u -> counts u) /\
  if existsb is_delta seen
  then exists r s u, pending_terminal x = Some (r, s, u) /\ last_usage x = Some u /\ counts u
  else pending_terminal x = None /\ last_usage x = None.

Lemma backfill_counts su u : (forall s, su = Some s -> counts s) -> counts u -> counts (backfill_usage su u).
Proof.
  intros Hs [H1 H2]. destruct su as [s|]; [|done]. destruct (Hs s eq_refl) as [S1 S2]. unfold counts. cbn.
  by destruct (_ =? 0).
Qed.

(** Billing accumulates exactly what the deferred delta accumulates. *)
Lemma accumulate_merge acc u : counts u -> accumulate_usage (Some acc) u = merge_trailing_usage acc u.
Proof.
  intros [H1 H2]. unfold accumulate_usage, merge_trailing_usage. cbn [default].
  assert (forall t, 0 <= t -> negb (t =? 0) = (0 <? t)) as Ht by (intros t ?; destruct (Z.eqb_spec t 0), (Z.ltb_spec 0 t); lia || done).
  by rewrite !Ht.
Qed.

Lemma accumulate_first u : accumulate_usage None u = u.
Proof.
  destruct u as [i o cc cr]. unfold accumulate_usage. cbn.
  by destruct (Z.eqb_spec i 0) as [->|], (Z.eqb_spec o 0) as [->|], cc, cr.
Qed.

Lemma merge_counts acc u : counts acc -> counts u -> counts (merge_trailing_usage acc u).
Proof. intros [A1 A2] [U1 U2]. unfold counts. cbn. by destruct (0 <? IrUsage.input_tokens u), (0 <? IrUsage.output_tokens u). Qed.

(** A delta is deferred, or merged into the one that is. *)
Lemma on_delta x out sr ss u : sr <> None \/ pending_terminal x <> None ->
  let u' := backfill_usage (start_usage x) u in let y := (on_event (x, out) (MessageDelta sr ss u)).1 in
  deltas y = deltas x /\ same_proto y = same_proto x /\ aborted y = aborted x /\ start_usage y = start_usage x /\
  last_usage y = Some (accumulate_usage (last_usage x) u') /\
  match pending_terminal x, sr with
  | Some (r, s, acc), _ => pending_terminal y = Some (r, s, merge_trailing_usage acc u')
  | None, Some r => pending_terminal y = Some (r, ss, u')
  | None, None => True
  end.
Proof.
  intros Hl. unfold Translate.on_event, note_event. cbn [remap_event].
  set (x1 := set_last_usage _ _). set (u' := backfill_usage (start_usage x) u).
  assert (pending_terminal x1 = pending_terminal x) as Ep by done.
  change (exception_event crc32 json_message x1 (MessageDelta sr ss (backfill_usage (start_usage x) u))) with (@None bytes).
  assert (combined_event crc32 elapsed x1 (MessageDelta sr ss u') = (set_framing (framing x1) x1, None) \/
          combined_event crc32 elapsed x1 (MessageDelta sr ss u') = (x1, None)) as [E|E] by (destruct sr; auto).
  all: change (backfill_usage (start_usage (set_remap (tool_id_remap x) x)) u) with u' in *; rewrite E.
  all: unfold fold_event; cbn [folds_terminal_usage passthrough_framing pending_terminal set_framing set_writer]; rewrite Ep.
  all: destruct sr as [r|], (pending_terminal x) as [[[r' s'] acc]|]; try (by destruct Hl); by split_and!.
Qed.

Lemma shown_step x out ev seen : shown_inv x seen -> counted ev -> stop_leads (seen ++ [ev]) ->
  shown_inv (on_event (x, out) ev).1 (seen ++ [ev]).
Proof.
  intros (I1 & I2 & I3 & I4 & I5) Hc Hl. unfold shown_inv. rewrite existsb_app. destruct (is_delta ev) eqn:Ed.
  - cbn [existsb]. rewrite Ed, orb_true_r. destruct ev as [| | | |sr ss u| |]; try done. cbn in Hc.
    assert (sr <> None \/ pending_terminal x <> None) as Hp.
    { destruct (existsb is_delta seen) eqn:Es; [destruct I5 as (r & s & a & -> & _); by right|].
      assert (List.filter is_delta seen = []) as Hs.
      { clear -Es. induction seen as [|e l IH]; [done|]. cbn in *. apply orb_false_iff in Es as [-> Es]. by apply IH. }
      unfold stop_leads in Hl. rewrite List.filter_app, Hs in Hl. cbn in Hl. destruct sr; [by left|done]. }
    pose proof (backfill_counts _ _ I4 Hc) as Hcu.
    destruct (on_delta x out sr ss u Hp) as (-> & -> & -> & -> & -> & Hpt). split_and!; try done.
    destruct (existsb is_delta seen).
    + destruct I5 as (r & s & a & Ep & El & Ha). rewrite Ep in Hpt. rewrite El, Hpt, accumulate_merge by done.
      eexists _, _, _. split_and!; [done..|by apply merge_counts].
    + destruct I5 as [Ep El]. rewrite Ep in Hpt, Hp. destruct sr as [r|]; [|by destruct Hp]. rewrite Hpt, El, accumulate_first. by eexists _, _, _.
  - cbn [existsb]. rewrite Ed, orb_false_r.
    destruct (on_event_no_delta crc32 json_message elapsed plain_quiet x out ev Ed) as (-> & _ & -> & -> & -> & ->).
    split_and!; try done. intros u. pose proof (on_event_kin crc32 json_message elapsed x out ev) as [_ Ht].
    destruct (note_tap x ev) as [Hn _]. rewrite Hn in Ht.
    assert (start_usage (on_event (x, out) ev).1 = start_usage (on_event_usage x ev)) as ->
      by (unfold tap in Ht; congruence).
    destruct ev as [role [v|] id cr m| | | | | |]; cbn; try apply I4. by intros [= <-].
Qed.

Lemma stop_leads_app a b : stop_leads (a ++ b) -> stop_leads a.
Proof. unfold stop_leads. rewrite List.filter_app. by destruct (List.filter is_delta a). Qed.

Lemma shown_steps evs : forall x out seen, shown_inv x seen -> Forall counted evs -> stop_leads (seen ++ evs) ->
  shown_inv (foldl on_event (x, out) evs).1 (seen ++ evs).
Proof.
  induction evs as [|ev evs IH]; intros x out seen Hi Hc Hl; [by rewrite app_nil_r|]. cbn [foldl].
  apply Forall_cons in Hc as [Hc Hcs]. rewrite cons_middle, app_assoc in Hl |- *.
  pose proof (shown_step x out ev seen Hi Hc (stop_leads_app _ _ Hl)) as Hs.
  destruct (on_event (x, out) ev) as [y o]. by apply IH.
Qed.

(** The client is shown what is billed: on a cross-protocol stream whose first delta carries the
    stop reason, the deltas are folded into exactly one, delivered at the end of the stream, and the
    usage in it is the usage recorded for billing, however many trailing usage reports the upstream
    sent and however they overlap. *)
Theorem shown_usage_is_billed (w : W) evs es :
  Forall counted evs -> stop_leads evs ->
  let x := build (mk_logged w []) passthrough es false : T in
  let z := (finish crc32 json_message elapsed (foldl on_event (x, []) evs).1).1 in
  if existsb is_delta evs
  then exists r s u, deltas z = [MessageDelta (Some r) s u] /\ last_usage z = Some u
  else deltas z = [] /\ last_usage z = None.
Proof.
  intros Hc Hl x z. assert (shown_inv x []) as Hi by done.
  pose proof (shown_steps evs x [] [] Hi Hc Hl) as (I1 & I2 & I3 & _ & I5). cbn [app] in *.
  set (y := (foldl on_event (x, []) evs).1) in *. unfold z, finish. rewrite I2, I3.
  cbn [on_finish passthrough_framing pending_terminal set_framing set_writer]. destruct (existsb is_delta evs).
  - destruct I5 as (r & s & u & Ep & El & _). rewrite Ep. cbn [pending_stop set_pending]. set (y' := set_pending _ _ _).
    set (l := MessageDelta (Some r) s u :: _). pose proof (emit_all_wrote crc32 elapsed plain_quiet y' l) as Hw.
    destruct (emit_all _ _ y' l) as [y2 o]. cbn [fst] in *. pose proof (wrote_deltas _ _ _ Hw) as Hd.
    destruct Hw as (_ & Hr & _). unfold rest_of in Hr. injection Hr as _ _ R3 _ _. exists r, s, u. rewrite R3, Hd. split; [|done].
    change (deltas y') with (deltas y). rewrite I1. unfold l. by destruct (pending_stop _).
  - destruct I5 as [Ep El]. rewrite Ep. cbn [fst]. done.
Qed.
End Shown.

(** ** Example *)
Section Example.
Import StreamDemo.

Definition report : IrUsage.t := IrUsage.mk 3 7 None (Some 2).

Lemma shown_usage_is_billed_witness :
  let evs := [BlockDelta 0 (TextDelta [65]); MessageDelta (Some EndTurn) None (IrUsage.mk 3 0 None None);
              MessageStop; MessageDelta None None report] in
  let x := build (mk_logged W []) passthrough false false : StreamTranslate.t (Logged writer) unit PassthroughFraming in
  let z := (finish crc message clock (foldl (on_event crc message clock) (x, []) evs).1).1 in
  (exists r s u, deltas z = [MessageDelta (Some r) s u] /\ last_usage z = Some u) /\ last_usage z = Some report.
Proof.
  intros evs x z. split; [|reflexivity]. apply (shown_usage_is_billed crc message clock W evs false).
  - repeat constructor; discriminate.
  - exact Logic.I.
Defined.
End Example.
