(* ===== verification/Body.v ===== *)
(** * The response body (crates/busbar/src/proxy/response_body.rs, proxy/wire.rs, proxy/usage.rs)

    [FirstByteBody] wraps the upstream's byte stream: it relays or translates every chunk, reports a
    failed stream to the breaker, refunds the request budget of a response that never arrived, and
    charges the tokens, at the end of the stream or when the body is dropped.  A poll consumes answers
    of the inner stream ([item]s) until it has something to return; what it does to the rest of the
    gateway is the list of its [effect]s, in order.  The translator and the array framer are the
    interfaces [Translation] and [Framing], implemented by [StreamTranslate] and
    [GeminiJsonArrayFramer]. *)
From stdpp Require Import base list strings gmap.
From Stdlib Require Import ZArith Lia.
From S2P Require Import Prelude Breaker EventStream EventStreamFacts Sse SseFacts SseProps Ir.
From S2P Require Import UsageStrip Translate TranslateFacts TranslateProps Cost.
Open Scope Z_scope.
Open Scope rust_scope.

(** ** Interfaces *)

(** The stream translator, as the body uses it.  A translator in order ([t_ok]) takes any bytes, and
    the end of the stream neither adds nor removes an error. *)
Class Translation (X : Type) := {
  t_feed : X -> bytes -> option (X * bytes);
  t_finish : X -> X * bytes;
  t_aborted : X -> bool;
  t_terminal_error : X -> option string;
  t_usage : X -> option IrUsage.t;
  t_ok : X -> Prop;
  t_feed_ok x c : t_ok x -> bytes_ok c -> exists y out, t_feed x c = Some (y, out) /\ t_ok y;
  t_finish_error x : t_terminal_error (t_finish x).1 = t_terminal_error x }.

(** The array framer. *)
Class Framing (X : Type) := {
  f_feed : X -> bytes -> option (X * bytes);
  f_finish_for_translate : X -> bool -> X * bytes;
  f_finish_with_server_error : X -> bytes -> X * bytes;
  f_ok : X -> Prop;
  f_feed_ok x c : f_ok x -> exists y out, f_feed x c = Some (y, out) /\ f_ok y }.

(** ** Token tiers *)
Definition tier_tokens (u : IrUsage.t) : TierTokens.t :=
  TierTokens.mk (IrUsage.input_tokens u) (IrUsage.output_tokens u)
    (default 0 (IrUsage.cache_read_input_tokens u)) (default 0 (IrUsage.cache_creation_input_tokens u)).

(** ** Errors in the middle of a stream *)
Definition MID_STREAM_GENERIC_DETAIL : string := STREAM_ABORT_DETAIL.

(** [w] is the writer of the ingress protocol, [bare_error] the text of the fallback object. *)
Definition mid_stream_error_bytes {J : Json} {W} {WR : Writer W} (crc32 : bytes -> Z)
    (json_message : bytes -> option bytes) (bare_error : string -> bytes)
    (w : W) (ingress_eventstream : bool) (message : string) : bytes :=
  let err := mkSignal ServerError (Some message) None in
  let sse :=
    match (write_response_event w (Error err)).2 with
    | Some (event_type, data) => reframe_sse event_type (to_text data)
    | None => reframe_sse [] (bare_error message)
    end in
  if ingress_eventstream then
    match write_response_exception w err with
    | Some (exc_name, msg) => encode_exception_frame crc32 json_message exc_name msg
    | None => sse
    end
  else sse.

(** ** The body *)
Inductive item := Chunk (c : bytes) | Failed | Ended | NotReady.

Inductive effect (S : Type) :=
  | RecordTransient (reason : string)
  | RefundBudget
  | ReleasePermit
  | RecordUsage (sink : S) (tier : TierTokens.t)
  | RecordMetering (sink : S) (usage : option IrUsage.t)
  | DropSink (sink : S).
Arguments RecordTransient {S}. Arguments RefundBudget {S}. Arguments ReleasePermit {S}.
Arguments RecordUsage {S}. Arguments RecordMetering {S}. Arguments DropSink {S}.

Inductive outcome := Pending | Done | Data (out : bytes) | IoError.

Module FirstByteBody.
(** [lane_known]: the serving lane is in the table; [taps]: the operation reads usage from a body. *)
Record t (X Y S : Type) := mk {
  first_byte_sent : bool; is_sse : bool; taps : bool; permit : bool; lane_known : bool;
  translate : option X; json_array : option Y; usage_sink : option S; budget_spent : bool;
  ended : bool; stream_failed : bool; nonstream_buf : bytes }.
Arguments mk {X Y S}. Arguments first_byte_sent {X Y S}. Arguments is_sse {X Y S}. Arguments taps {X Y S}.
Arguments permit {X Y S}. Arguments lane_known {X Y S}. Arguments translate {X Y S}.
Arguments json_array {X Y S}. Arguments usage_sink {X Y S}. Arguments budget_spent {X Y S}.
Arguments ended {X Y S}. Arguments stream_failed {X Y S}. Arguments nonstream_buf {X Y S}.

Definition new {X Y S} (is_sse taps lane_known : bool) (translate : option X) (json_array : option Y)
    (sink : option S) (budget_spent : bool) : t X Y S :=
  mk false is_sse taps true lane_known translate json_array sink budget_spent false false [].
End FirstByteBody.
Import FirstByteBody.

Section Body.
Context {X Y S : Type} {TX : Translation X} {FY : Framing Y}.
(** [max_translated_body_bytes ()], the usage reader of the operation, the error frame. *)
Context (cap : nat) (extract_usage : bytes -> option IrUsage.t) (error_bytes : bytes).
Notation T := (FirstByteBody.t X Y S).

(** The streaming state after a chunk. *)
Definition with_stream (x : option X) (y : option Y) (buf : bytes) (b : T) : T :=
  mk true (is_sse b) (taps b) (permit b) (lane_known b) x y (usage_sink b) (budget_spent b)
    (ended b) (stream_failed b) buf.

(** The state after the end: the permit is released. *)
Definition finished (x : option X) (y : option Y) (sink : option S) (spent failed : bool) (buf : bytes) (b : T) : T :=
  mk (first_byte_sent b) (is_sse b) (taps b) false (lane_known b) x y sink spent true failed buf.

Definition release (b : T) : list (effect S) := if permit b then [ReleasePermit] else [].

(** The bounded copy of a body that is relayed as it is. *)
Definition keep (b : T) (chunk : bytes) : bytes :=
  let buf := nonstream_buf b in
  if negb (is_sse b) && taps b && bool_decide (is_Some (usage_sink b)) then
    if (length buf <? cap)%nat then
      let remaining := (cap - length buf)%nat in
      if (length chunk <=? remaining)%nat then buf ++ chunk else buf ++ take remaining chunk
    else buf
  else buf.

(** Reframe, when the client wants an array. *)
Definition reframe (y : option Y) (out : bytes) : option (option Y * bytes) :=
  match y with
  | Some f => let? (f, framed) := f_feed f out in Some (Some f, framed)
  | None => Some (y, out)
  end.

(** The arm for a chunk: the state, and what to return, if anything. *)
Definition on_chunk (b : T) (chunk : bytes) : option (T * option bytes) :=
  match translate b with
  | Some t =>
      let? (t, out) := t_feed t chunk in
      let? (y, out) := reframe (json_array b) out in
      Some (with_stream (Some t) y (nonstream_buf b) b, match out with [] => None | _ => Some out end)
  | None =>
      let buf := keep b chunk in
      match json_array b with
      | Some f =>
          let? (f, framed) := f_feed f chunk in
          Some (with_stream None (Some f) buf b, match framed with [] => None | _ => Some framed end)
      | None => Some (with_stream None None buf b, Some chunk)
      end
  end.

(** The arm for a transport error. *)
Definition on_error (b : T) : T * outcome * list (effect S) :=
  if first_byte_sent b && is_sse b then
    let '(y, out) :=
      match json_array b with
      | Some f => let '(f, o) := f_finish_with_server_error f (bytes_of MID_STREAM_GENERIC_DETAIL) in (Some f, o)
      | None => (None, error_bytes)
      end in
    (finished (translate b) y (usage_sink b) (budget_spent b) true (nonstream_buf b) b, Data out,
     RecordTransient "mid-stream" :: release b)
  else
    (finished (translate b) (json_array b) (usage_sink b) false true (nonstream_buf b) b, IoError,
     RecordTransient (if first_byte_sent b then "mid-body-transport" else "pre-first-byte-transport") ::
     (if budget_spent b then [RefundBudget] else []) ++ release b).

Definition has_error (x : option X) : bool :=
  match x with Some t => bool_decide (is_Some (t_terminal_error t)) | None => false end.
Definition is_aborted (x : option X) : bool := match x with Some t => t_aborted t | None => false end.
Definition usage_of (x : option X) : option IrUsage.t := match x with Some t => t_usage t | None => None end.

(** What the sink is charged. *)
Definition charge (sink : S) (usage : option IrUsage.t) : list (effect S) :=
  [RecordUsage sink (match usage with Some u => tier_tokens u | None => TierTokens.default end);
   RecordMetering sink usage].

(** The arm for the end of the stream. *)
Definition on_end (b : T) : option (T * outcome * list (effect S)) :=
  let translate_aborted := is_aborted (translate b) in
  let stream_terminal_error := has_error (translate b) in
  let breaker_failed := stream_terminal_error || translate_aborted in
  let report := if is_sse b && first_byte_sent b && breaker_failed
                then [RecordTransient (if stream_terminal_error then "stream-terminal-error" else "stream-translate-abort")]
                else [] in
  let '(x, tail) := match translate b with
                    | Some t => let '(t, tail) := t_finish t in (Some t, tail) | None => (None, []) end in
  let? (y, done) :=
    match json_array b with
    | Some f =>
        let? (f, wrapped) := if translate_aborted then Some (f, []) else f_feed f tail in
        let '(f, closing) := f_finish_for_translate f translate_aborted in
        Some (Some f, wrapped ++ closing)
    | None => Some (None, tail)
    end in
  let '(ir_usage, buf) :=
    match usage_sink b with
    | None => (None, nonstream_buf b)
    | Some _ =>
        match x with
        | Some t => (t_usage t, nonstream_buf b)
        | None => match nonstream_buf b with
                  | [] => (None, [])
                  | buf => if negb (is_sse b) then (extract_usage buf, []) else (None, buf)
                  end
        end
    end in
  let bill :=
    match usage_sink b with
    | None => []
    | Some sink =>
        (if negb (has_error x || translate_aborted) && lane_known b then charge sink ir_usage else []) ++ [DropSink sink]
    end in
  Some (finished x y None (budget_spent b) (stream_failed b) buf b,
        match done with [] => Done | _ => Data done end, report ++ release b ++ bill).

(** [poll_next]: the answers of the inner stream this poll consumes are taken off [inner]. *)
Fixpoint poll_loop (b : T) (inner : list item) : option (T * list item * outcome * list (effect S)) :=
  match inner with
  | [] => Some (b, [], Pending, [])
  | NotReady :: inner => Some (b, inner, Pending, [])
  | Chunk c :: inner =>
      let? (b, out) := on_chunk b c in
      match out with
      | None => poll_loop b inner
      | Some o => Some (b, inner, Data o, [])
      end
  | Failed :: inner => let '(b, o, es) := on_error b in Some (b, inner, o, es)
  | Ended :: inner => let? (b, o, es) := on_end b in Some (b, inner, o, es)
  end.

Definition poll_next (b : T) (inner : list item) : option (T * list item * outcome * list (effect S)) :=
  if ended b then Some (b, inner, Done, []) else poll_loop b inner.

(** [Drop]: the explicit part, then the fields. *)
Definition drop_body (b : T) : list (effect S) :=
  match usage_sink b with
  | None => []
  | Some sink =>
      (if stream_failed b || has_error (translate b) || is_aborted (translate b) then []
       else
         let usage := usage_of (translate b) in
         let tier := match usage with Some u => tier_tokens u | None => TierTokens.default end in
         if negb (TierTokens.is_zero tier) && lane_known b
         then [RecordUsage sink tier; RecordMetering sink usage] else []) ++ [DropSink sink]
  end ++ release b.

(** The body polled [n] times. *)
Fixpoint polls (n : nat) (b : T) (inner : list item) : option (T * list item * list outcome * list (effect S)) :=
  match n with
  | O => Some (b, inner, [], [])
  | Datatypes.S n =>
      let? (b, inner, o, es) := poll_next b inner in
      let? (b, inner, os, es') := polls n b inner in
      Some (b, inner, o :: os, es ++ es')
  end.

(** A whole life: polled [n] times, then dropped. *)
Definition lifetime (n : nat) (b : T) (inner : list item) : option (list outcome * list (effect S)) :=
  let? (b, _, os, es) := polls n b inner in Some (os, es ++ drop_body b).
End Body.

(** ** The implementations meet the interfaces *)
Section Instances.
Context {J : Json} {H : Hex} {W D F : Type} {RD : Reader D} {WR : Writer W} {SF : StreamFraming F}.
Context (crc32 : bytes -> Z) (json_message : bytes -> option bytes) (elapsed : nat -> Z).

Definition stream_ok (x : StreamTranslate.t W D F) : Prop :=
  at_rest x /\ (StreamTranslate.egress_eventstream x = true -> bytes_ok (StreamTranslate.buf x)).

Lemma stream_feed_ok x c : stream_ok x -> bytes_ok c ->
  exists y out, Translate.feed crc32 json_message elapsed x c = Some (y, out) /\ stream_ok y.
Proof.
  intros [Hr Hb] Hc. destruct (StreamTranslate.aborted x) eqn:Ha.
  { rewrite feed_aborted by done. exists x, []. by split; [|split]. }
  destruct (feed_cases crc32 json_message elapsed x c Hr Ha) as (y & out & z & left & E & _ & Hry & He & _ & Hby).
  { intros E. apply Forall_app. split; [by apply Hb|done]. }
  exists y, out. split; [done|]. split; [done|]. intros E'. apply Hby. congruence.
Qed.

(** The end of the stream leaves the tap alone. *)
Lemma finish_tap (x : StreamTranslate.t W D F) : tap (Translate.finish crc32 json_message elapsed x).1 = tap x.
Proof.
  assert (forall (y : StreamTranslate.t W D F) ev, tap (emit_ir_event crc32 elapsed y ev).1 = tap y) as He
    by (intros; apply emit_kin).
  assert (forall (y : StreamTranslate.t W D F) evs, tap (emit_all crc32 elapsed y evs).1 = tap y) as Ha
    by (intros; apply emit_all_kin).
  unfold Translate.finish. destruct (StreamTranslate.aborted x).
  { destruct (abort_exception_type _); [done|]. destruct (emit_ir_event _ _ x _) as [y o] eqn:E.
    cbn. match type of E with Translate.emit_ir_event _ _ _ ?ev = _ => pose proof (He x ev) as Hx end. by rewrite E in Hx. }
  destruct (StreamTranslate.same_proto x); [done|]. destruct (on_finish _) as [f tr].
  set (x1 := StreamTranslate.set_framing f x).
  destruct (match tr with Some ev => emit_ir_event crc32 elapsed x1 ev | None => (x1, []) end) as [x2 o1] eqn:E1.
  assert (tap x2 = tap x) as E2.
  { destruct tr as [ev|]; [pose proof (He x1 ev) as Hx; by rewrite E1 in Hx|]. by injection E1 as <- _. }
  destruct (StreamTranslate.pending_terminal x2) as [[[r ss] u]|]; [|done].
  destruct (emit_all _ _ _ _) as [x3 o3] eqn:E3. cbn. rewrite <- E2.
  match type of E3 with Translate.emit_all _ _ ?y ?evs = _ => pose proof (Ha y evs) as Hx end. by rewrite E3 in Hx.
Qed.

Lemma finish_error (x : StreamTranslate.t W D F) :
  StreamTranslate.terminal_error (Translate.finish crc32 json_message elapsed x).1 = StreamTranslate.terminal_error x.
Proof. pose proof (finish_tap x) as Ht. unfold tap in Ht. congruence. Qed.

#[export] Instance stream_translation : Translation (StreamTranslate.t W D F) := {
  t_feed := Translate.feed crc32 json_message elapsed;
  t_finish := Translate.finish crc32 json_message elapsed;
  t_aborted := StreamTranslate.aborted;
  t_terminal_error := StreamTranslate.terminal_error;
  t_usage := StreamTranslate.last_usage;
  t_ok := stream_ok;
  t_feed_ok := stream_feed_ok;
  t_finish_error := finish_error }.

Lemma array_feed_ok fr c : resting fr -> exists fr' out, SseProps.feed fr c = Some (fr', out) /\ resting fr'.
Proof.
  intros Hr. destruct (feed_total fr c Hr) as (fr' & out & E). exists fr', out. split; [done|]. by eapply feed_resting.
Qed.

#[export] Instance array_framing : Framing GeminiJsonArrayFramer.t := {
  f_feed := SseProps.feed;
  f_finish_for_translate := SseProps.finish_for_translate;
  f_finish_with_server_error := SseProps.finish_with_server_error;
  f_ok := resting;
  f_feed_ok := array_feed_ok }.
End Instances.
