(* ===== verification/BodyProps.v ===== *)
(** * Theorems about the response body: every permit, sink and budget unit is settled once; a stream is
    billed or reported, never both; and the client receives exactly the translation of the stream *)
From stdpp Require Import base list strings gmap.
From Stdlib Require Import ZArith Lia.
From S2P Require Import Prelude Breaker EventStream EventStreamFacts Sse SseFacts SseProps Ir.
From S2P Require Import UsageStrip Translate StreamDemo TranslateFacts TranslateProps Cost Body.

Import FirstByteBody.
Open Scope Z_scope.
Open Scope rust_scope.

Section Body.
Context {X Y S : Type} {TX : Translation X} {FY : Framing Y}.
Context (cap : nat) (extract_usage : bytes -> option IrUsage.t) (error_bytes : bytes).
Notation T := (FirstByteBody.t X Y S).
Notation on_end := (on_end extract_usage).
Notation on_error := (on_error error_bytes).
Notation poll_loop := (poll_loop cap extract_usage error_bytes).
Notation poll_next := (poll_next cap extract_usage error_bytes).
Notation polls := (polls cap extract_usage error_bytes).
Notation lifetime := (lifetime cap extract_usage error_bytes).
Implicit Types b : T.

(** ** Kinds of effects *)
Definition is_transient (e : effect S) : bool := match e with RecordTransient _ => true | _ => false end.
Definition is_refund (e : effect S) : bool := match e with RefundBudget => true | _ => false end.
Definition is_release (e : effect S) : bool := match e with ReleasePermit => true | _ => false end.
Definition is_charge (e : effect S) : bool := match e with RecordUsage _ _ => true | _ => false end.
Definition is_meter (e : effect S) : bool := match e with RecordMetering _ _ => true | _ => false end.
Definition is_drop (e : effect S) : bool := match e with DropSink _ => true | _ => false end.

Definition count (p : effect S -> bool) (es : list (effect S)) : nat := length (List.filter p es).

Lemma count_app p es fs : count p (es ++ fs) = (count p es + count p fs)%nat.
Proof. unfold count. by rewrite List.filter_app, length_app. Qed.

(** ** One poll *)
Definition parts_ok b : Prop :=
  (forall t, translate b = Some t -> t_ok t) /\ (forall y, json_array b = Some y -> f_ok y).

Definition item_ok (i : item) : Prop := match i with Chunk c => bytes_ok c | _ => True end.

(** What a chunk leaves alone. *)
Definition settled b := (is_sse b, taps b, permit b, lane_known b, usage_sink b, budget_spent b, ended b, stream_failed b).

Lemma on_chunk_ok b c : parts_ok b -> bytes_ok c ->
  exists b' out, on_chunk cap b c = Some (b', out) /\ parts_ok b' /\ settled b' = settled b.
Proof.
  intros [Ht Hf] Hc. unfold on_chunk, reframe. destruct (translate b) as [t|] eqn:Et.
  - destruct (t_feed_ok t c (Ht t eq_refl) Hc) as (t' & out & -> & Hok). destruct (json_array b) as [f|] eqn:Ef.
    + destruct (f_feed_ok f out (Hf f eq_refl)) as (f' & o & -> & Hfo). eexists _, _. split; [done|].
      split; [split; cbn; by intros ? [= <-]|done].
    + eexists _, _. split; [done|]. split; [split; cbn; [by intros ? [= <-]|done]|done].
  - destruct (json_array b) as [f|] eqn:Ef.
    + destruct (f_feed_ok f c (Hf f eq_refl)) as (f' & o & -> & Hfo). eexists _, _. split; [done|].
      split; [split; cbn; [done|by intros ? [= <-]]|done].
    + eexists _, _. split; [done|]. by split.
Qed.

Lemma on_end_total b : parts_ok b -> exists b' o es, on_end b = Some (b', o, es).
Proof.
  intros [_ Hf]. unfold Body.on_end. destruct (match translate b with Some t => _ | None => _ end) as [x tail].
  destruct (json_array b) as [f|] eqn:Ef; [destruct (is_aborted (translate b))|].
  - destruct (f_finish_for_translate f true). destruct (match usage_sink b with Some _ => _ | None => _ end). by eexists _, _, _.
  - destruct (f_feed_ok f tail (Hf f eq_refl)) as (f' & o & -> & _). destruct (f_finish_for_translate f' false).
    destruct (match usage_sink b with Some _ => _ | None => _ end). by eexists _, _, _.
  - destruct (match usage_sink b with Some _ => _ | None => _ end). by eexists _, _, _.
Qed.

(** The last step of a body. *)
Definition terminal b b' (o : outcome) (es : list (effect S)) : Prop :=
  (b', o, es) = on_error b \/ on_end b = Some (b', o, es).

Lemma poll_loop_cases inner : forall b, parts_ok b -> Forall item_ok inner ->
  exists b' rest o es, poll_loop b inner = Some (b', rest, o, es) /\ Forall item_ok rest /\
    exists b1, settled b1 = settled b /\ parts_ok b1 /\
      (es = [] /\ b' = b1 \/ terminal b1 b' o es).
Proof.
  induction inner as [|i inner IH]; intros b Hb Hi.
  { eexists _, _, _, _. split; [done|]. split; [done|]. exists b. by split_and!; [| |left]. }
  apply Forall_cons in Hi as [Hi His]. destruct i as [c| | |]; cbn [Body.poll_loop].
  - destruct (on_chunk_ok b c Hb Hi) as (b1 & out & -> & Hb1 & Hs1). destruct out as [o|].
    + eexists _, _, _, _. split; [done|]. split; [done|]. exists b1. by split_and!; [| |left].
    + destruct (IH b1 Hb1 His) as (b' & rest & o & es & -> & Hr & b2 & Hs2 & Hb2 & Hc).
      eexists _, _, _, _. split; [done|]. split; [done|]. exists b2. split_and!; [congruence|done|done].
  - destruct (on_error b) as [[b' o] es] eqn:E. eexists _, _, _, _. split; [done|]. split; [done|].
    exists b. split_and!; [done|done|right; by left].
  - destruct (on_end_total b Hb) as (b' & o & es & E). rewrite E. eexists _, _, _, _. split; [done|]. split; [done|].
    exists b. split_and!; [done|done|right; by right].
  - eexists _, _, _, _. split; [done|]. split; [done|]. exists b. by split_and!; [| |left].
Qed.

(** ** A life *)

(** What may still happen to a body, and what must. *)
Record account (sink : option S) (spent : bool) (es : list (effect S)) : Prop := {
  acc_release : count is_release es = 1%nat;
  acc_drop : count is_drop es = match sink with Some _ => 1%nat | None => 0%nat end;
  acc_bill : (count is_charge es + count is_transient es <= 1)%nat;
  acc_meter : count is_meter es = count is_charge es;
  acc_sink : (count is_charge es <= count is_drop es)%nat;
  acc_refund : (count is_refund es <= count is_transient es)%nat;
  acc_spent : (count is_refund es <= if spent then 1 else 0)%nat }.

Ltac settle := constructor; cbn; lia.

Lemma drop_live b : permit b = true -> account (usage_sink b) (budget_spent b) (drop_body b).
Proof.
  intros Hp. unfold drop_body, release. rewrite Hp. destruct (usage_sink b) as [s|]; [|destruct (budget_spent b); settle].
  destruct (_ || _ || _); [destruct (budget_spent b); settle|]. destruct (_ && _), (budget_spent b); settle.
Qed.

Lemma error_account b b' o es : permit b = true -> (b', o, es) = on_error b ->
  ended b' = true /\ account (usage_sink b) (budget_spent b) (es ++ drop_body b').
Proof.
  intros Hp. unfold Body.on_error, release. rewrite Hp. destruct (first_byte_sent b && is_sse b).
  - destruct (match json_array b with Some f => _ | None => _ end) as [y out]. intros [= -> -> ->]. split; [done|].
    unfold drop_body, release. cbn. destruct (usage_sink b), (budget_spent b); settle.
  - intros [= -> -> ->]. split; [done|]. unfold drop_body, release. cbn.
    destruct (usage_sink b), (budget_spent b); settle.
Qed.

Lemma end_account b b' o es : permit b = true -> on_end b = Some (b', o, es) ->
  ended b' = true /\ account (usage_sink b) (budget_spent b) (es ++ drop_body b').
Proof.
  intros Hp. unfold Body.on_end, release. rewrite Hp.
  destruct (match translate b with Some t => _ | None => _ end) as [x tail] eqn:Ex.
  assert (has_error x = has_error (translate b)) as Hx.
  { destruct (translate b) as [t|]; [|by injection Ex as <- _]. destruct (t_finish t) as [t' tl] eqn:Et.
    injection Ex as <- _. cbn. pose proof (t_finish_error t) as He. rewrite Et in He. cbn in He. by rewrite He. }
  destruct (match json_array b with Some f => _ | None => _ end) as [[y dn]|]; [|done]. cbn.
  destruct (match usage_sink b with Some _ => _ | None => _ end) as [u buf]. intros [= <- <- <-]. split; [done|].
  unfold drop_body, release. cbn. rewrite Hx.
  destruct (usage_sink b), (has_error (translate b)), (is_aborted (translate b)), (is_sse b), (first_byte_sent b), (lane_known b);
    destruct (budget_spent b); settle.
Qed.

Lemma polls_ended n : forall b inner, ended b = true -> polls n b inner = Some (b, inner, replicate n Done, []).
Proof. induction n as [|n IH]; intros b inner He; [done|]. cbn [Body.polls]. unfold Body.poll_next. rewrite He, IH by done. done. Qed.

Lemma polls_account n : forall b inner, parts_ok b -> Forall item_ok inner -> ended b = false -> permit b = true ->
  exists b' rest os es, polls n b inner = Some (b', rest, os, es) /\
    account (usage_sink b) (budget_spent b) (es ++ drop_body b').
Proof.
  induction n as [|n IH]; intros b inner Hb Hi He Hp.
  { eexists _, _, _, _. split; [done|]. by apply drop_live. }
  cbn [Body.polls]. unfold Body.poll_next. rewrite He.
  destruct (poll_loop_cases inner b Hb Hi) as (b' & rest & o & es & -> & Hr & b1 & Hs & Hb1 & Hc).
  unfold settled in Hs. injection Hs as E1 E2 E3 E4 E5 E6 E7 E8.
  destruct Hc as [[-> ->]|Ht].
  - destruct (IH b1 rest Hb1 Hr) as (b2 & rest2 & os & es & -> & Ha); [congruence..|].
    eexists _, _, _, _. split; [done|]. cbn [app]. by rewrite <- E5, <- E6.
  - assert (ended b' = true /\ account (usage_sink b1) (budget_spent b1) (es ++ drop_body b')) as [Hend Ha].
    { destruct Ht as [Ht|Ht]; [eapply error_account|eapply end_account]; try exact Ht; congruence. }
    rewrite polls_ended by done. eexists _, _, _, _. split; [done|]. rewrite app_nil_r. by rewrite <- E5, <- E6.
Qed.

(** C7.  A response is settled exactly once, whatever the upstream does and whenever the client goes
    away: however often the body is polled, over any sequence of chunks, errors, stalls and ends, and then
    dropped, nothing panics, the lane's permit is released exactly once, the usage sink (with the
    concurrency holds inside it) is let go exactly once, tokens are charged at most once and metered
    exactly when charged, the breaker hears of at most one failure, and the budget unit comes back at
    most once, only if it was spent and only for a reported failure.  A stream that is reported as failed
    is never billed. *)
Theorem body_settles_once n is_sse taps known tr fr (sink : option S) spent inner :
  (forall t, tr = Some t -> t_ok t) -> (forall f, fr = Some f -> f_ok f) -> Forall item_ok inner ->
  exists os es, lifetime n (FirstByteBody.new is_sse taps known tr fr sink spent) inner = Some (os, es) /\
    account sink spent es.
Proof.
  intros Ht Hf Hi. destruct (polls_account n (FirstByteBody.new is_sse taps known tr fr sink spent) inner)
    as (b' & rest & os & es & E & Ha); [by split|done|done|done|].
  exists os, (es ++ drop_body b'). split; [|done]. unfold Body.lifetime. by rewrite E.
Qed.
End Body.

(** ** Example *)
Section Example.
Import StreamDemo.
#[local] Instance demo_translation : Translation (StreamTranslate.t writer unit PassthroughFraming) :=
  stream_translation crc message clock.

(** The error frame of the small protocol. *)
Definition broken : bytes :=
  mid_stream_error_bytes crc message (fun m => bytes_of m) W false MID_STREAM_GENERIC_DETAIL.

Lemma start_ok same : stream_ok (start same).
Proof. split; [apply build_at_rest|]. intros E. discriminate E. Qed.

(** A stream that breaks off before its first byte: reported, refunded, not billed. *)
Lemma body_settles_once_witness :
  exists os es, lifetime 10 (fun _ => None) broken 3
      (FirstByteBody.new (Y := GeminiJsonArrayFramer.t) true true true (Some (start false)) None (Some 7%nat) true)
      [NotReady; Failed; Ended] = Some (os, es) /\
    account (Some 7%nat) true es /\
    es = [RecordTransient "pre-first-byte-transport"; RefundBudget; ReleasePermit; DropSink 7%nat].
Proof.
  destruct (body_settles_once 10 (fun _ => None) broken 3 true true true (Some (start false)) (None : option GeminiJsonArrayFramer.t)
    (Some 7%nat) true [NotReady; Failed; Ended]) as (os & es & E & Ha).
  - intros t [= <-]. apply start_ok.
  - discriminate.
  - repeat constructor.
  - exists os, es. split; [exact E|]. split; [exact Ha|]. vm_compute in E. injection E as _ <-. reflexivity.
Defined.
End Example.

(** ** What a client reads from a response body: the whole translation, the body itself, or one array *)

Import FirstByteBody.
Open Scope Z_scope.
Open Scope rust_scope.

(** The bytes of an outcome. *)
Definition data (o : outcome) : bytes := match o with Data d => d | _ => [] end.

Section Consume.
Context {X Y S : Type} {TX : Translation X} {FY : Framing Y}.
Context (cap : nat) (extract_usage : bytes -> option IrUsage.t) (error_bytes : bytes).
Notation T := (FirstByteBody.t X Y S).
Notation on_end := (on_end extract_usage).
Notation on_error := (on_error error_bytes).
Notation poll_loop := (poll_loop cap extract_usage error_bytes).
Notation poll_next := (poll_next cap extract_usage error_bytes).
Notation polls := (polls cap extract_usage error_bytes).
Implicit Types b : T.

(** Reference: the body run over all the answers of the inner stream, without polls. *)
Fixpoint consume b (inner : list item) : option (T * bytes * list (effect S)) :=
  if ended b then Some (b, [], [])
  else
    match inner with
    | [] => Some (b, [], [])
    | NotReady :: inner => consume b inner
    | Chunk c :: inner =>
        let? (b, out) := on_chunk cap b c in
        let? (b, d, es) := consume b inner in
        Some (b, default [] out ++ d, es)
    | Failed :: _ => let '(b, o, es) := on_error b in Some (b, data o, es)
    | Ended :: _ => let? (b, o, es) := on_end b in Some (b, data o, es)
    end.

Definition then_ (o : outcome) (es : list (effect S)) (r : option (T * bytes * list (effect S))) :=
  let? (b, d, es') := r in Some (b, data o ++ d, es ++ es').

Lemma consume_ended b inner : ended b = true -> consume b inner = Some (b, [], []).
Proof. intros He. destruct inner; cbn; by rewrite He. Qed.

Lemma on_chunk_ended b c b' out : on_chunk cap b c = Some (b', out) -> ended b' = ended b.
Proof.
  unfold on_chunk, reframe. destruct (translate b) as [t|].
  - destruct (t_feed t c) as [[t' o]|]; [|done]. destruct (json_array b) as [f|]; [|by intros [= <- _]].
    destruct (f_feed f o) as [[f' o']|]; [|done]. by intros [= <- _].
  - destruct (json_array b) as [f|]; [|by intros [= <- _]]. destruct (f_feed f c) as [[f' o']|]; [|done]. by intros [= <- _].
Qed.

Lemma on_error_ended b b' o es : on_error b = (b', o, es) -> ended b' = true.
Proof.
  unfold Body.on_error. destruct (_ && _); [|by intros [= <- _ _]].
  destruct (match json_array b with Some f => _ | None => _ end). by intros [= <- _ _].
Qed.

Lemma on_end_ended b b' o es : on_end b = Some (b', o, es) -> ended b' = true.
Proof.
  unfold Body.on_end. destruct (match translate b with Some t => _ | None => _ end) as [x tail].
  destruct (match json_array b with Some f => _ | None => _ end) as [[y dn]|]; [|done]. cbn.
  destruct (match usage_sink b with Some _ => _ | None => _ end). by intros [= <- _ _].
Qed.

Lemma poll_consume inner : forall b b' rest o es, ended b = false -> poll_loop b inner = Some (b', rest, o, es) ->
  consume b inner = then_ o es (consume b' rest) /\ (inner <> [] -> (length rest < length inner)%nat) /\
  (inner = [] -> rest = []).
Proof.
  induction inner as [|i inner IH]; intros b b' rest o es He Hp; cbn [Body.poll_loop consume] in *; rewrite ?He in *.
  { injection Hp as <- <- <- <-. cbn. by rewrite He. }
  destruct i as [c| | |].
  - destruct (on_chunk cap b c) as [[b1 out]|] eqn:Ec; [|done]. apply on_chunk_ended in Ec. rewrite He in Ec.
    destruct out as [d|].
    + injection Hp as <- <- <- <-. split; [done|]. split; [cbn; lia|done].
    + destruct (IH b1 b' rest o es Ec Hp) as (-> & Hl & Hn). split_and!; [|intros _; cbn; destruct inner; [rewrite Hn by done; cbn; lia|specialize (Hl ltac:(done)); lia]|done].
      destruct (consume b' rest) as [[[b2 d] es2]|]; done.
  - destruct (on_error b) as [[b1 o1] es1] eqn:E. injection Hp as <- <- <- <-.
    rewrite (consume_ended b1) by (by eapply on_error_ended). cbn. rewrite !app_nil_r. split; [done|]. split; [lia|done].
  - destruct (on_end b) as [[[b1 o1] es1]|] eqn:E; [|done]. injection Hp as <- <- <- <-.
    rewrite (consume_ended b1) by (by eapply on_end_ended). cbn. rewrite !app_nil_r. split; [done|]. split; [lia|done].
  - injection Hp as <- <- <- <-. cbn. split; [by destruct (consume b inner) as [[[b2 d] es2]|]|]. split; [lia|done].
Qed.

Lemma poll_next_consume b inner b' rest o es : poll_next b inner = Some (b', rest, o, es) ->
  consume b inner = then_ o es (consume b' rest) /\
  (ended b' = true \/ (length rest <= length inner - 1)%nat).
Proof.
  unfold Body.poll_next. destruct (ended b) eqn:He.
  - intros [= <- <- <- <-]. rewrite !consume_ended by done. split; [done|by left].
  - intros Hp. destruct (poll_consume inner b b' rest o es He Hp) as (-> & Hl & Hn). split; [done|right].
    destruct inner as [|i inner]; [by rewrite Hn|]. specialize (Hl ltac:(done)). lia.
Qed.

(** Polled often enough, a body does what the reference does. *)
Lemma polls_consume n : forall b inner b' rest os es, (length inner <= n)%nat ->
  polls n b inner = Some (b', rest, os, es) -> consume b inner = Some (b', concat (data <$> os), es).
Proof.
  induction n as [|n IH]; intros b inner b' rest os es Hn Hp; cbn [Body.polls] in Hp.
  { injection Hp as <- _ <- <-. destruct inner; [|cbn in Hn; lia]. cbn. by destruct (ended b). }
  destruct (poll_next b inner) as [[[[b1 rest1] o1] es1]|] eqn:E; [|done]. cbn in Hp.
  destruct (polls n b1 rest1) as [[[[b2 rest2] os2] es2]|] eqn:E2; [|done]. injection Hp as <- <- <- <-.
  destruct (poll_next_consume _ _ _ _ _ _ E) as [-> [Hend|Hl]].
  - assert (polls n b1 rest1 = Some (b1, rest1, replicate n Done, [])) as E3.
    { clear -Hend. induction n as [|n IH]; [done|]. cbn [Body.polls]. unfold Body.poll_next. by rewrite Hend, IH. }
    rewrite E3 in E2. injection E2 as <- <- <- <-. rewrite consume_ended by done. cbn.
    assert (concat (data <$> replicate n Done) = []) as -> by (clear; by induction n). done.
  - rewrite (IH b1 rest1 b2 rest2 os2 es2); [done|lia|done].
Qed.
End Consume.

(** ** Relayed bodies *)
Section Relay.
Context {X Y S : Type} {TX : Translation X} {FY : Framing Y}.
Context (cap : nat) (extract_usage : bytes -> option IrUsage.t) (error_bytes : bytes).
Notation T := (FirstByteBody.t X Y S).
Notation consume := (consume cap extract_usage error_bytes).
Implicit Types b : T.

Lemma keep_take b body c : is_sse b = false -> taps b = true -> is_Some (usage_sink b) ->
  nonstream_buf b = take cap body -> keep cap b c = take cap (body ++ c).
Proof.
  intros Hs Ht Hk Hb. unfold keep. rewrite Hs, Ht, Hb, bool_decide_true by done. cbn [negb andb].
  rewrite length_take. destruct (Nat.ltb_spec (cap `min` length body) cap).
  - rewrite (take_ge body) by lia. destruct (Nat.leb_spec (length c) (cap - cap `min` length body)).
    + by rewrite take_ge by (rewrite length_app; lia).
    + rewrite take_app, (take_ge body) by lia. do 2 f_equal. lia.
  - by rewrite take_app_le by lia.
Qed.

Lemma consume_relay chunks rest : forall b body, ended b = false -> translate b = None -> json_array b = None ->
  is_sse b = false -> taps b = true -> is_Some (usage_sink b) -> nonstream_buf b = take cap body ->
  exists b', consume b ((Chunk <$> chunks) ++ rest) =
    (let? (b2, d, es) := consume b' rest in Some (b2, concat chunks ++ d, es)) /\
    ended b' = false /\ translate b' = None /\ json_array b' = None /\ is_sse b' = false /\
    usage_sink b' = usage_sink b /\ lane_known b' = lane_known b /\ permit b' = permit b /\
    nonstream_buf b' = take cap (body ++ concat chunks).
Proof.
  induction chunks as [|c cs IH]; intros b body He Ht Hj Hs Hta Hk Hb.
  { exists b. cbn. rewrite app_nil_r. split_and!; try done. by destruct (consume b rest) as [[[]]|]. }
  cbn [fmap list_fmap app BodyProps.consume]. rewrite He. unfold on_chunk. rewrite Ht, Hj.
  destruct (IH (with_stream None None (keep cap b c) b) (body ++ c)) as (b' & E & ? & ? & ? & ? & ? & ? & ? & Hbuf);
    [done|done|done|done|done|done|by apply keep_take|].
  exists b'. rewrite E. split_and!; try done.
  - destruct (consume b' rest) as [[[b2 d] es]|]; [|done]. cbn. by rewrite <- (assoc_L (++)).
  - cbn [concat]. by rewrite (assoc_L (++)).
Qed.

(** A same-protocol buffered response is relayed untouched: the client reads exactly the upstream's
    bytes, and the tokens charged are what the operation's reader finds in the first [cap] bytes of that
    body, however it was cut into transport frames. *)
Theorem body_relays_verbatim n chunks (s : S) spent :
  Forall bytes_ok chunks -> (length chunks < n)%nat ->
  let body := concat chunks in
  let usage := match take cap body with [] => None | buf => extract_usage buf end in
  exists os, lifetime cap extract_usage error_bytes n
      (FirstByteBody.new (X := X) (Y := Y) false true true None None (Some s) spent) ((Chunk <$> chunks) ++ [Ended]) =
    Some (os, ReleasePermit :: charge s usage ++ [DropSink s]) /\
    concat (data <$> os) = body.
Proof.
  intros Hc Hn body usage. set (b := FirstByteBody.new false true true None None (Some s) spent).
  destruct (polls_account cap extract_usage error_bytes n b ((Chunk <$> chunks) ++ [Ended]))
    as (b' & rest & os & es & E & _); [done| |done|done|].
  { apply Forall_app. split; [by apply Forall_fmap|by constructor]. }
  destruct (consume_relay chunks [Ended] b []) as (b1 & E1 & He & Ht & Hj & Hs & Hk & Hl & Hp & Hbuf);
    [done..|by rewrite take_nil|].
  pose proof (polls_consume cap extract_usage error_bytes n b ((Chunk <$> chunks) ++ [Ended]) b' rest os es) as Hpc. rewrite E1 in Hpc.
  cbn [BodyProps.consume] in Hpc. rewrite He in Hpc. unfold Body.on_end, release in Hpc.
  rewrite Ht, Hj, Hs, Hk, Hl, Hp, Hbuf in Hpc. cbn [app] in Hpc. fold body in Hpc.
  specialize (Hpc ltac:(rewrite length_app, length_fmap; cbn; lia) E).
  exists os. unfold Body.lifetime. rewrite E. subst usage.
  destruct (take cap body); cbn in Hpc; injection Hpc as <- <- <-; cbn; by rewrite app_nil_r.
Qed.
End Relay.

(** ** Translated streams *)
Section Translated.
Context {J : Json} {H : Hex} {W D F S : Type} {RD : Reader D} {WR : Writer W} {SF : StreamFraming F}.
Context (crc32 : bytes -> Z) (json_message : bytes -> option bytes) (elapsed : nat -> Z).
Context (cap : nat) (extract_usage : bytes -> option IrUsage.t) (error_bytes : bytes).
#[local] Instance translation_here : Translation (StreamTranslate.t W D F) := stream_translation crc32 json_message elapsed.
#[local] Instance framing_here' : Framing GeminiJsonArrayFramer.t := array_framing.
Notation X := (StreamTranslate.t W D F).
Notation Y := GeminiJsonArrayFramer.t.
Notation T := (FirstByteBody.t X Y S).
Notation consume := (consume cap extract_usage error_bytes).
Notation feed_stream := (feed_stream crc32 json_message elapsed).
Notation finish := (Translate.finish crc32 json_message elapsed).
Notation lifetime := (lifetime cap extract_usage error_bytes).
Implicit Types b : T. Implicit Types x y : X.

(** What a stretch of chunks leaves alone. *)
Definition same_terms b b' : Prop :=
  ended b' = ended b /\ is_sse b' = is_sse b /\ usage_sink b' = usage_sink b /\ lane_known b' = lane_known b /\
  permit b' = permit b /\ nonstream_buf b' = nonstream_buf b.

Lemma same_terms_trans b1 b2 b3 : same_terms b1 b2 -> same_terms b2 b3 -> same_terms b1 b3.
Proof. unfold same_terms. intuition congruence. Qed.

Lemma consume_stream chunks rest : forall b x y out, ended b = false -> translate b = Some x -> json_array b = None ->
  feed_stream x chunks = Some (y, out) ->
  exists b', consume b ((Chunk <$> chunks) ++ rest) =
    (let? (b2, d, es) := consume b' rest in Some (b2, out ++ d, es)) /\ same_terms b b' /\
    translate b' = Some y /\ json_array b' = None /\
    first_byte_sent b' = first_byte_sent b || negb (bool_decide (chunks = [])).
Proof.
  induction chunks as [|c cs IH]; intros b x y out He Ht Hj Hf.
  { injection Hf as <- <-. exists b. cbn. rewrite orb_false_r. split_and!; try done. by destruct (consume b rest) as [[[]]|]. }
  cbn [Translate.feed_stream] in Hf. destruct (Translate.feed _ _ _ x c) as [[x1 o1]|] eqn:E1; [|done].
  destruct (feed_stream x1 cs) as [[x2 o2]|] eqn:E2; [|done]. injection Hf as <- <-.
  cbn [fmap list_fmap app BodyProps.consume]. rewrite He. unfold on_chunk. rewrite Ht, Hj.
  cbn [t_feed translation_here stream_translation reframe]. rewrite E1.
  destruct (IH (with_stream (Some x1) None (nonstream_buf b) b) x1 x2 o2 He eq_refl eq_refl E2)
    as (b' & E & Hs & Ht' & Hj' & Hfb).
  exists b'. rewrite E. split_and!; try done.
  - destruct (consume b' rest) as [[[b2 d] es]|]; [|done]. cbn. rewrite <- (assoc_L (++)). by destruct o1.
  - rewrite Hfb. cbn. by destruct (first_byte_sent b).
Qed.

Lemma finish_usage x : StreamTranslate.last_usage (finish x).1 = StreamTranslate.last_usage x.
Proof. pose proof (finish_tap crc32 json_message elapsed x) as Ht. unfold tap in Ht. congruence. Qed.

Definition failed_stream x : bool :=
  bool_decide (is_Some (StreamTranslate.terminal_error x)) || StreamTranslate.aborted x.

(** C31.  A streamed response, end to end: fed any chunking of an upstream stream, the client reads exactly
    the translator's output for it followed by the translator's ending; the key is charged exactly the
    usage the translator has accumulated, once, in its four tiers; and a stream that carried an error or
    had to be abandoned is charged nothing and, once a byte has arrived, counted against the lane. *)
Theorem body_delivers_translation n chunks x y out (s : S) sse tp spent :
  stream_ok x -> Forall bytes_ok chunks -> (length chunks < n)%nat -> feed_stream x chunks = Some (y, out) ->
  exists os es, lifetime n (FirstByteBody.new (Y := Y) sse tp true (Some x) None (Some s) spent)
      ((Chunk <$> chunks) ++ [Ended]) = Some (os, es) /\
    concat (data <$> os) = out ++ (finish y).2 /\
    es = (if sse && negb (bool_decide (chunks = [])) && failed_stream y
          then [RecordTransient (if bool_decide (is_Some (StreamTranslate.terminal_error y))
                                 then "stream-terminal-error" else "stream-translate-abort")] else []) ++
         [ReleasePermit] ++ (if failed_stream y then [] else charge s (StreamTranslate.last_usage y)) ++ [DropSink s].
Proof.
  intros Hx Hc Hn Hf. set (b := FirstByteBody.new sse tp true (Some x) None (Some s) spent).
  destruct (polls_account cap extract_usage error_bytes n b ((Chunk <$> chunks) ++ [Ended]))
    as (b' & rest & os & es & E & _); [split; [by intros ? [= <-]|done]| |done|done|].
  { apply Forall_app. split; [by apply Forall_fmap|by constructor]. }
  destruct (consume_stream chunks [Ended] b x y out eq_refl eq_refl eq_refl Hf)
    as (b1 & E1 & (He & Hs & Hk & Hl & Hp & Hbuf) & Ht & Hj & Hfb).
  pose proof (polls_consume cap extract_usage error_bytes n b ((Chunk <$> chunks) ++ [Ended]) b' rest os es) as Hpc.
  rewrite E1 in Hpc. cbn [BodyProps.consume] in Hpc. rewrite He in Hpc. cbn [ended b new] in Hpc.
  unfold Body.on_end, release in Hpc. rewrite Ht, Hj, Hs, Hk, Hl, Hp, Hfb, Hbuf in Hpc.
  cbn [is_aborted has_error t_aborted t_terminal_error t_finish t_usage translation_here stream_translation] in Hpc.
  pose proof (finish_error crc32 json_message elapsed y) as Hfe. pose proof (finish_usage y) as Hfu.
  destruct (finish y) as [z tail]. cbn [fst snd has_error t_terminal_error translation_here stream_translation] in *.
  rewrite Hfe, Hfu in Hpc. specialize (Hpc ltac:(rewrite length_app, length_fmap; cbn; lia) E).
  exists os, (es ++ drop_body b'). unfold Body.lifetime. rewrite E. split; [done|].
  unfold failed_stream. cbn [FirstByteBody.new first_byte_sent is_sse usage_sink lane_known permit orb] in Hpc.
  cbn in Hpc. injection Hpc as <- Hd <-. split; [rewrite <- Hd; by destruct tail|].
  cbn. rewrite app_nil_r. rewrite andb_true_r. by destruct (_ || _).
Qed.

(** ** Array clients *)
Lemma feed_all_app fr l1 l2 fr1 o1 : feed_all fr l1 = Some (fr1, o1) ->
  feed_all fr (l1 ++ l2) = (let? (fr2, o2) := feed_all fr1 l2 in Some (fr2, o1 ++ o2)).
Proof.
  revert fr fr1 o1. induction l1 as [|c l1 IH]; intros fr fr1 o1; cbn [feed_all app].
  { intros [= <- <-]. by destruct (feed_all fr l2) as [[]|]. }
  destruct (SseProps.feed fr c) as [[fr' o]|]; [|done]. destruct (feed_all fr' l1) as [[fr2 os]|] eqn:E; [|done].
  intros [= <- <-]. rewrite (IH _ _ _ E). destruct (feed_all fr2 l2) as [[fr3 o3]|]; [|done]. cbn. by rewrite (assoc_L (++)).
Qed.

(** The chunks of an array stream, as the framer sees them. *)
Lemma consume_array chunks rest : forall b x fr, ended b = false -> translate b = Some x -> json_array b = Some fr ->
  stream_ok x -> resting fr -> Forall bytes_ok chunks ->
  exists b' y fr' outs d, consume b ((Chunk <$> chunks) ++ rest) =
      (let? (b2, d2, es) := consume b' rest in Some (b2, d ++ d2, es)) /\
    feed_all fr outs = Some (fr', d) /\ same_terms b b' /\ translate b' = Some y /\ json_array b' = Some fr' /\
    first_byte_sent b' = first_byte_sent b || negb (bool_decide (chunks = [])).
Proof.
  induction chunks as [|c cs IH]; intros b x fr He Ht Hj Hx Hr Hc.
  { exists b, x, fr, [], []. cbn. rewrite orb_false_r. split_and!; try done. by destruct (consume b rest) as [[[]]|]. }
  apply Forall_cons in Hc as [Hc Hcs]. destruct (stream_feed_ok crc32 json_message elapsed x c Hx Hc) as (x1 & o1 & E1 & Hx1).
  destruct (array_feed_ok fr o1 Hr) as (fr1 & d1 & E2 & Hr1).
  cbn [fmap list_fmap app BodyProps.consume]. rewrite He. unfold on_chunk. rewrite Ht, Hj.
  cbn [t_feed translation_here stream_translation reframe]. rewrite E1. unfold reframe. cbn [f_feed framing_here' array_framing]. rewrite E2.
  destruct (IH (with_stream (Some x1) (Some fr1) (nonstream_buf b) b) x1 fr1 He eq_refl eq_refl Hx1 Hr1 Hcs)
    as (b' & y & fr' & outs & d & E & Ef & Hs & Ht' & Hj' & Hfb).
  exists b', y, fr', (o1 :: outs), (d1 ++ d). cbn [feed_all]. rewrite E, E2, Ef. split_and!; try done.
  - destruct (consume b' rest) as [[[b2 d2] es]|]; [|done]. cbn. rewrite <- (assoc_L (++)). by destruct d1.
  - rewrite Hfb. cbn. by destruct (first_byte_sent b).
Qed.

(** What the framer has written so far. *)
Definition opened (fr : Y) (d : bytes) (vs : list Value) : Prop :=
  d = elements false vs /\ GeminiJsonArrayFramer.started fr = negb (bool_decide (vs = [])) /\
  GeminiJsonArrayFramer.finished fr = false /\ resting fr.

Lemma feed_all_opened outs fr d : feed_all SseProps.new outs = Some (fr, d) -> exists vs, opened fr d vs.
Proof.
  intros E. destruct (feed_all_spec outs SseProps.new new_resting eq_refl eq_refl) as (fr' & d' & k & E' & Hr & Hf & Hd & Hs & _).
  rewrite E in E'. injection E' as <- <-. eexists. split; [exact Hd|]. split; [|by split]. rewrite Hs. done.
Qed.

Lemma opened_error fr d vs message : opened fr d vs ->
  d ++ (SseProps.finish_with_server_error fr message).2 = array_text (vs ++ [internal_error message]).
Proof. intros (-> & Hs & Hf & _). by apply error_closes. Qed.

Lemma opened_closes fr d vs a : opened fr d vs ->
  exists err, d ++ (SseProps.finish_for_translate fr a).2 = array_text (vs ++ err).
Proof.
  intros (-> & Hs & Hf & _). unfold finish_for_translate. rewrite Hf. destruct (a || GeminiJsonArrayFramer.aborted fr) eqn:E.
  - eexists. by apply (error_closes fr vs INTERNAL_MESSAGE).
  - apply orb_false_iff in E as [_ E]. exists []. rewrite app_nil_r. by apply finish_closes.
Qed.

(** The end of an array stream. *)
Lemma end_array b y fr d outs : translate b = Some y -> json_array b = Some fr ->
  feed_all SseProps.new outs = Some (fr, d) ->
  exists b' o es vs, Body.on_end extract_usage b = Some (b', o, es) /\ d ++ data o = array_text vs.
Proof.
  intros Ht Hj Hf. destruct (feed_all_opened _ _ _ Hf) as (vs & Ho). unfold Body.on_end. rewrite Ht, Hj.
  cbn [is_aborted t_aborted t_finish translation_here stream_translation f_feed f_finish_for_translate framing_here' array_framing].
  destruct (finish y) as [z tail]. destruct (StreamTranslate.aborted y).
  - destruct (opened_closes fr d vs true Ho) as (err & Hc). destruct (finish_for_translate fr true) as [fr2 cl]. cbn [app] in *.
    destruct (match usage_sink b with Some _ => _ | None => _ end). eexists _, _, _, _. split; [done|]. rewrite <- Hc. by destruct cl.
  - destruct Ho as (_ & _ & _ & Hr). destruct (array_feed_ok fr tail Hr) as (fr1 & w & E & _). rewrite E.
    assert (feed_all SseProps.new (outs ++ [tail]) = Some (fr1, d ++ w)) as Hf1.
    { rewrite (feed_all_app _ _ _ _ _ Hf). cbn. rewrite E. cbn. by rewrite app_nil_r. }
    destruct (feed_all_opened _ _ _ Hf1) as (vs1 & Ho1). destruct (opened_closes fr1 (d ++ w) vs1 false Ho1) as (err & Hc).
    destruct (finish_for_translate fr1 false) as [fr2 cl]. cbn [snd] in Hc.
    destruct (match usage_sink b with Some _ => _ | None => _ end). eexists _, _, _, _. split; [done|].
    rewrite <- Hc, <- (assoc_L (++)). by destruct (w ++ cl).
Qed.

(** A client of the JSON-array stream always reads one complete array: through the translator and
    the framer together, whether the stream ends, is abandoned or breaks off after the first byte, the
    bytes delivered are an opening bracket, the elements separated by commas, and a closing bracket; a
    stream that broke off ends in an internal error element that tells nothing of the backend. *)
Theorem body_array_always_closed n c chunks x (sink : option S) tp known spent last :
  stream_ok x -> Forall bytes_ok (c :: chunks) -> (length (c :: chunks) < n)%nat -> last = Ended \/ last = Failed ->
  exists os es vs, lifetime n (FirstByteBody.new true tp known (Some x) (Some SseProps.new) sink spent)
      ((Chunk <$> (c :: chunks)) ++ [last]) = Some (os, es) /\
    concat (data <$> os) = array_text vs /\
    (last = Failed -> exists ws, vs = ws ++ [internal_error (bytes_of STREAM_ABORT_DETAIL)]).
Proof.
  intros Hx Hc Hn Hlast. set (b := FirstByteBody.new true tp known (Some x) (Some SseProps.new) sink spent).
  destruct (polls_account cap extract_usage error_bytes n b ((Chunk <$> (c :: chunks)) ++ [last]))
    as (b' & rest & os & es & E & _); [split; intros ? [= <-]; [done|apply new_resting]| |done|done|].
  { apply Forall_app. split; [by apply Forall_fmap|]. constructor; [|done]. by destruct Hlast as [->| ->]. }
  destruct (consume_array (c :: chunks) [last] b x SseProps.new eq_refl eq_refl eq_refl Hx new_resting Hc)
    as (b1 & y & fr & outs & d & E1 & Hf & (He & Hs & _) & Ht & Hj & Hfb).
  pose proof (polls_consume cap extract_usage error_bytes n b ((Chunk <$> (c :: chunks)) ++ [last]) b' rest os es) as Hpc.
  specialize (Hpc ltac:(rewrite length_app, length_fmap; cbn in *; lia) E). rewrite E1 in Hpc.
  cbn [BodyProps.consume] in Hpc. rewrite He in Hpc. cbn [ended b new] in Hpc.
  unfold Body.lifetime. rewrite E. exists os, (es ++ drop_body b'). destruct Hlast as [->| ->].
  - destruct (end_array b1 y fr d outs Ht Hj Hf) as (b2 & o & es2 & vs & Ee & Hd). rewrite Ee in Hpc. injection Hpc as _ Hpc _.
    exists vs. split; [done|]. split; [|done]. by rewrite <- Hpc.
  - destruct (feed_all_opened _ _ _ Hf) as (vs & Ho). unfold Body.on_error in Hpc.
    assert (first_byte_sent b1 && is_sse b1 = true) as Hb1 by (by rewrite Hfb, Hs).
    rewrite Hb1, Hj in Hpc. cbn [f_finish_with_server_error framing_here' array_framing] in Hpc.
    pose proof (opened_error fr d vs (bytes_of STREAM_ABORT_DETAIL) Ho) as Hd. unfold MID_STREAM_GENERIC_DETAIL in Hpc.
    destruct (SseProps.finish_with_server_error fr (bytes_of STREAM_ABORT_DETAIL)) as [fr2 o].
    cbn [snd data] in Hd, Hpc. injection Hpc as _ Hpc _.
    exists (vs ++ [internal_error (bytes_of STREAM_ABORT_DETAIL)]). split; [done|]. split; [by rewrite <- Hpc|]. intros _. by eexists.
Qed.
End Translated.

(** ** Examples *)
Section Examples.
Import StreamDemo.
#[local] Instance demo_translation' : Translation (StreamTranslate.t writer unit PassthroughFraming) :=
  stream_translation crc message clock.

Lemma chunks_ok : Forall bytes_ok chunks.
Proof.
  unfold chunks. repeat first [apply Forall_nil_2|apply Forall_cons; split|unfold byte_ok; cbn; lia].
Qed.

Lemma body_relays_verbatim_witness :
  exists os, lifetime 4 (fun b => Some (IrUsage.mk (len b) 0 None None)) [] 3
      (FirstByteBody.new (X := StreamTranslate.t writer unit PassthroughFraming) (Y := GeminiJsonArrayFramer.t)
         false true true None None (Some 7%nat) true) ((Chunk <$> [[65; 66]; [67; 68; 69]]) ++ [Ended]) =
    Some (os, ReleasePermit :: charge 7%nat (Some (IrUsage.mk 4 0 None None)) ++ [DropSink 7%nat]) /\
    concat (data <$> os) = [65; 66; 67; 68; 69].
Proof.
  apply (body_relays_verbatim 4 (fun b => Some (IrUsage.mk (len b) 0 None None)) [] 3 [[65; 66]; [67; 68; 69]] 7%nat true).
  - repeat (constructor; try (unfold byte_ok; lia)).
  - cbn. lia.
Defined.

Lemma body_delivers_translation_witness :
  exists y out os es, feed_stream crc message clock (start false) chunks = Some (y, out) /\
    lifetime 0 (fun _ => None) [] 4 (FirstByteBody.new (Y := GeminiJsonArrayFramer.t) true true true
      (Some (start false)) None (Some 7%nat) true) ((Chunk <$> chunks) ++ [Ended]) = Some (os, es) /\
    concat (data <$> os) = out ++ (finish crc message clock y).2 /\
    es = ReleasePermit :: charge 7%nat (Some (IrUsage.mk 3 3 None None)) ++ [DropSink 7%nat].
Proof.
  destruct (feed_stream crc message clock (start false) chunks) as [[y out]|] eqn:E; [|vm_compute in E; discriminate E].
  destruct (body_delivers_translation crc message clock 0 (fun _ => None) [] 4 chunks (start false) y out 7%nat true true true)
    as (os & es & Hl & Hd & He).
  - apply start_ok.
  - apply chunks_ok.
  - cbn. lia.
  - exact E.
  - exists y, out, os, es. split; [reflexivity|]. split; [exact Hl|]. split; [exact Hd|]. rewrite He.
    vm_compute in E. injection E as <- <-. reflexivity.
Defined.

Lemma body_array_always_closed_witness :
  exists os es vs, lifetime 0 (fun _ => None) [] 4 (FirstByteBody.new true true true
      (Some (start false)) (Some SseProps.new) (Some 7%nat) true) ((Chunk <$> chunks) ++ [Failed]) = Some (os, es) /\
    concat (data <$> os) = array_text vs /\
    (Failed = Failed -> exists ws, vs = ws ++ [internal_error (bytes_of STREAM_ABORT_DETAIL)]).
Proof.
  apply (body_array_always_closed crc message clock 0 (fun _ => None) [] 4 (bytes_of "data: {")
    [bytes_of "}" ++ [10; 10] ++ bytes_of "data: [1]" ++ [10]; [10]] (start false) (Some 7%nat) true true true Failed).
  - apply start_ok.
  - exact chunks_ok.
  - cbn. lia.
  - right. reflexivity.
Defined.
End Examples.
