(* ===== verification/Sigv4.v ===== *)
(** * AWS Signature Version 4 (crates/busbar/src/sigv4.rs, auth/mod.rs, proto/bedrock, proxy/egress.rs)

    The signer ([sign_v4]), the outbound headers of a Bedrock lane ([sigv4_sign_headers]), the inbound
    verifier ([verify_inbound_sigv4]) and the ingress that resolves a signed request to a virtual key
    ([verify_bedrock_sigv4]).  SHA-256, HMAC, hexadecimal encoding and the Unicode case table are the
    classes [Digest] and [SigCrypto].  Text is a [string] of bytes. *)
From stdpp Require Import base gmap list strings pretty.
From Stdlib Require Import ZArith Lia Ascii.
From S2P Require Import Prelude Windows EventStream Cost Ledger Signing Keys Sse.
Open Scope Z_scope.
Open Scope rust_scope.

(** ** String operations of the standard library *)
Definition code (c : ascii) : Z := Z.of_N (N_of_ascii c).

Fixpoint all_chars (p : Z -> bool) (s : string) : bool :=
  match s with EmptyString => true | String c s => p (code c) && all_chars p s end.

Fixpoint concat_chars (f : ascii -> string) (s : string) : string :=
  match s with EmptyString => EmptyString | String c s => f c +:+ concat_chars f s end.

Definition is_ascii (s : string) : bool := all_chars (fun b => b <? 128) s.

Definition ascii_digit (b : Z) : bool := (48 <=? b) && (b <=? 57).
Definition ascii_upper (b : Z) : bool := (65 <=? b) && (b <=? 90).
Definition ascii_lower (b : Z) : bool := (97 <=? b) && (b <=? 122).
Definition ascii_alphabetic (b : Z) : bool := ascii_upper b || ascii_lower b.

(** [str::to_ascii_lowercase] and [str::eq_ignore_ascii_case]. *)
Definition lower_char (c : ascii) : ascii :=
  if ascii_upper (code c) then ascii_of_N (N_of_ascii c + 32) else c.
Definition to_ascii_lowercase (s : string) : string := concat_chars (fun c => String (lower_char c) "") s.
Definition eq_ignore_ascii_case (a b : string) : bool :=
  String.eqb (to_ascii_lowercase a) (to_ascii_lowercase b).

(** [str::split] at a character, and [slice::join]. *)
Fixpoint split (c : ascii) (s : string) : list string :=
  match s with
  | EmptyString => [EmptyString]
  | String a s =>
      if Ascii.eqb a c then EmptyString :: split c s
      else match split c s with
           | h :: t => String a h :: t
           | [] => [String a EmptyString]
           end
  end.

Fixpoint join (sep : string) (l : list string) : string :=
  match l with [] => "" | [x] => x | x :: l => x +:+ sep +:+ join sep l end.

(** [str::trim] and [str::trim_start], on the bytes of the string. *)
Fixpoint string_of (l : bytes) : string :=
  match l with [] => EmptyString | b :: l => String (ascii_of_N (Z.to_N b)) (string_of l) end.
Definition str_trim (s : string) : string := string_of (trim (bytes_of s)).
Definition str_trim_start (s : string) : string :=
  string_of (trim_prefix (String.length s) WHITE_SPACE (bytes_of s)).

(** [{n:0w}] of a non-negative integer. *)
Fixpoint zeros (n : nat) : string := match n with O => "" | S n => String "0" (zeros n) end.
Definition format_pad (w : nat) (n : Z) : string :=
  let s := pretty (Z.to_N n) in zeros (w - String.length s) +:+ s.

(** [str::parse::<i64>] of a string of ASCII digits. *)
Fixpoint parse_from (acc : Z) (s : string) : option Z :=
  match s with
  | EmptyString => Some acc
  | String c s =>
      let acc := acc * 10 + (code c - 48) in
      if acc <=? I64_MAX then parse_from acc s else None
  end.
Definition parse_i64_digits (s : string) : option Z :=
  match s with EmptyString => None | _ => parse_from 0 s end.

(** [api::auth::constant_time_eq]. *)
Fixpoint xor_acc (result : Z) (a b : string) : Z :=
  match a, b with
  | String x a, String y b => xor_acc (Z.lor result (Z.lxor (code x) (code y))) a b
  | _, _ => result
  end.
Definition constant_time_eq (a b : string) : bool :=
  if negb (Nat.eqb (String.length a) (String.length b)) then false else xor_acc 0 a b =? 0.

(** ** What the crates provide *)
Definition is_hex (b : Z) : bool := ascii_digit b || (97 <=? b) && (b <=? 102).

(** [hmac_sha256] is [Hmac<Sha256>] over a key of any length (its result is 32 bytes), [to_lowercase]
    the Unicode case mapping, which is the ASCII one on ASCII text. *)
Class SigCrypto `{Digest} := {
  hmac_sha256 : string -> string -> list Z;
  to_lowercase : string -> string;
  hmac_length k d : length (hmac_sha256 k d) = 32%nat;
  sha256_hex_digits s : all_chars is_hex (sha256_hex s) = true;
  hex_encode_digits l : all_chars is_hex (hex_encode l) = true;
  hex_encode_length l : String.length (hex_encode l) = (2 * length l)%nat;
  hmac_bytes k d : Forall (fun b => 0 <= b < 256) (hmac_sha256 k d);
  hex_encode_inj l1 l2 : Forall (fun b => 0 <= b < 256) l1 -> Forall (fun b => 0 <= b < 256) l2 ->
    hex_encode l1 = hex_encode l2 -> l1 = l2;
  to_lowercase_ascii s : is_ascii s = true -> to_lowercase s = to_ascii_lowercase s }.

Definition SIGV4_ALGORITHM : string := "AWS4-HMAC-SHA256".
Definition SIGV4_TERMINATION : string := "aws4_request".
Definition SIGV4_KEY_PREFIX : string := "AWS4".
Definition X_AMZ_DATE : string := "x-amz-date".
Definition X_AMZ_CONTENT_SHA256 : string := "x-amz-content-sha256".
Definition X_AMZ_SECURITY_TOKEN : string := "x-amz-security-token".
Definition SECS_PER_HOUR : Z := 3600.
Definition NL : ascii := "010"%char.
Definition nl : string := String NL "".

(** ** Percent-encoding *)
Definition unreserved (b : Z) : bool :=
  ascii_upper b || ascii_lower b || ascii_digit b ||
  (b =? 45) || (b =? 95) || (b =? 46) || (b =? 126).

Definition HEX : string := "0123456789ABCDEF".
Definition hex_char (n : Z) : ascii := default "0"%char (String.get (Z.to_nat n) HEX).

Definition encode_char (keep : Z -> bool) (c : ascii) : string :=
  if keep (code c) then String c ""
  else String "%" (String (hex_char (Z.shiftr (code c) 4))
                     (String (hex_char (Z.land (code c) 15)) "")).

Definition path_char (b : Z) : bool := unreserved b || (b =? 47).
Definition uri_encode_path (path : string) : string := concat_chars (encode_char path_char) path.
Definition uri_encode_query (s : string) : string := concat_chars (encode_char unreserved) s.

(** ** Time stamps.  The calendar arithmetic is that of [Windows]. *)
Definition format_amz_time (epoch_secs : Z) : string * string :=
  let days := epoch_secs / SECS_PER_DAY in
  let sod := epoch_secs mod SECS_PER_DAY in
  let h := sod / SECS_PER_HOUR in
  let mi := sod mod SECS_PER_HOUR / 60 in
  let s := sod mod 60 in
  let '(year, month, day) := civil_from_days days in
  let date := format_pad 4 year +:+ format_pad 2 month +:+ format_pad 2 day in
  (date +:+ "T" +:+ format_pad 2 h +:+ format_pad 2 mi +:+ format_pad 2 s +:+ "Z", date).

Definition parse_digits (s : string) : option Z :=
  if all_chars ascii_digit s then parse_i64_digits s else None.

Definition parse_amz_date (amzdate : string) : option Z :=
  if negb (Nat.eqb (String.length amzdate) 16) || negb (bool_decide (String.get 8 amzdate = Some "T"%char))
     || negb (bool_decide (String.get 15 amzdate = Some "Z"%char)) then None
  else if negb (is_ascii amzdate) then None
  else
    let? year := parse_digits (String.substring 0 4 amzdate) in
    let? month := parse_digits (String.substring 4 2 amzdate) in
    let? day := parse_digits (String.substring 6 2 amzdate) in
    let? hour := parse_digits (String.substring 9 2 amzdate) in
    let? min := parse_digits (String.substring 11 2 amzdate) in
    let? sec := parse_digits (String.substring 13 2 amzdate) in
    if negb ((1 <=? month) && (month <=? 12)) || negb ((1 <=? day) && (day <=? 31))
       || (23 <? hour) || (59 <? min) || (60 <? sec) then None
    else
      let epoch := days_from_civil year month day * SECS_PER_DAY + hour * SECS_PER_HOUR + min * 60 + sec in
      if epoch <? 0 then None else Some epoch.

(** ** Canonical forms *)

(** The loop of [canonicalize_header_value]: a space is held back until a later character. *)
Fixpoint canonical_loop (prev_space : bool) (out v : string) : string :=
  match v with
  | EmptyString => out
  | String ch v =>
      if Ascii.eqb ch " " then canonical_loop true out v
      else
        let out := if prev_space && negb (String.eqb out "") then out +:+ " " else out in
        canonical_loop false (out +:+ String ch "") v
  end.
Definition canonicalize_header_value (v : string) : string := canonical_loop false "" v.

(** A stable sort by name, as [sort_by] on the first component. *)
Fixpoint insert_header (x : string * string) (l : list (string * string)) : list (string * string) :=
  match l with
  | [] => [x]
  | y :: l' => if String.leb x.1 y.1 then x :: l else y :: insert_header x l'
  end.
Definition sort_headers (l : list (string * string)) : list (string * string) :=
  foldr insert_header [] l.

Section Signer.
Context `{SigCrypto}.

Definition signing_key (secret datestamp region service : string) : list Z :=
  let k_date := hmac_sha256 (SIGV4_KEY_PREFIX +:+ secret) datestamp in
  let k_region := hmac_sha256 (string_of k_date) region in
  let k_service := hmac_sha256 (string_of k_region) service in
  hmac_sha256 (string_of k_service) SIGV4_TERMINATION.

(** The canonical headers, sorted. *)
Definition canonical_headers (headers : list (string * string)) : list (string * string) :=
  sort_headers ((fun h : string * string => (to_lowercase h.1, canonicalize_header_value h.2)) <$> headers).

Definition header_lines (h : list (string * string)) : string :=
  foldr (fun kv s => kv.1 +:+ ":" +:+ kv.2 +:+ nl +:+ s) "" h.

Definition signed_names (h : list (string * string)) : string := join ";" h.*1.

Definition canonical_request (method uri query : string) (headers : list (string * string))
    (payload_hash : string) : string :=
  let h := canonical_headers headers in
  method +:+ nl +:+ uri +:+ nl +:+ query +:+ nl +:+ header_lines h +:+ nl +:+ signed_names h +:+ nl +:+
  payload_hash.

Definition scope (datestamp region service : string) : string :=
  datestamp +:+ "/" +:+ region +:+ "/" +:+ service +:+ "/" +:+ SIGV4_TERMINATION.

Definition string_to_sign (amzdate datestamp region service request : string) : string :=
  SIGV4_ALGORITHM +:+ nl +:+ amzdate +:+ nl +:+ scope datestamp region service +:+ nl +:+ sha256_hex request.

Definition sign_v4 (secret region service method canonical_uri canonical_querystring : string)
    (headers : list (string * string)) (payload_hash amzdate datestamp : string) : string * string :=
  let request := canonical_request method canonical_uri canonical_querystring headers payload_hash in
  let sts := string_to_sign amzdate datestamp region service request in
  let key := signing_key secret datestamp region service in
  (hex_encode (hmac_sha256 (string_of key) sts), signed_names (canonical_headers headers)).

End Signer.

(** ** Inbound verification *)
Definition CLOCK_SKEW_SECS : Z := 300.

Module SigError.
Inductive t := MissingAuthorization | MalformedAuthorization | MissingDate | Expired
  | SignedHeadersMismatch | SignatureMismatch.
End SigError.

Module ParsedAuthHeader.
Record t := mk { access_key_id : string; datestamp : string; region : string; service : string;
                 signed_headers : string; signature : string }.
End ParsedAuthHeader.

(** The sections seen so far: credential, signed headers, signature. *)
Definition Sections : Type := option string * option string * option string.

Fixpoint read_sections (sections : list string) (acc : Sections) : option Sections :=
  match sections with
  | [] => Some acc
  | section :: rest =>
      match split_once "=" (str_trim section) with
      | None => None
      | Some (k, v) =>
          let '(c, h, s) := acc in
          let k := str_trim k in
          read_sections rest
            (if String.eqb k "Credential" then (Some (str_trim v), h, s)
             else if String.eqb k "SignedHeaders" then (c, Some (str_trim v), s)
             else if String.eqb k "Signature" then (c, h, Some (str_trim v))
             else acc)
      end
  end.

Definition parse_authorization_header (value : string) : SigError.t + ParsedAuthHeader.t :=
  match split_once " " (str_trim value) with
  | None => inl SigError.MissingAuthorization
  | Some (algo, rest) =>
      if negb (String.eqb algo SIGV4_ALGORITHM) then inl SigError.MissingAuthorization
      else
        match read_sections (split "," rest) (None, None, None) with
        | Some (Some credential, Some signed_headers, Some signature) =>
            if String.eqb signature "" || String.eqb signed_headers "" then inl SigError.MalformedAuthorization
            else
              match split "/" credential with
              | [access_key_id; datestamp; region; service; termination] =>
                  if negb (String.eqb termination SIGV4_TERMINATION) then inl SigError.MalformedAuthorization
                  else if String.eqb access_key_id "" || String.eqb datestamp "" || String.eqb region ""
                          || String.eqb service "" then inl SigError.MalformedAuthorization
                  else inr (ParsedAuthHeader.mk access_key_id datestamp region service signed_headers signature)
              | _ => inl SigError.MalformedAuthorization
              end
        | _ => inl SigError.MalformedAuthorization
        end
  end.

Module InboundRequest.
Record t := mk { method : string; canonical_uri : string; canonical_querystring : string;
                 headers : list (string * string); payload_hash : string; amzdate : string }.
End InboundRequest.

Fixpoint select_headers (headers : list (string * string)) (names : list string)
    : option (list (string * string)) :=
  match names with
  | [] => Some []
  | name :: names =>
      let lname := to_ascii_lowercase name in
      match find (fun kv : string * string => eq_ignore_ascii_case kv.1 lname) headers with
      | None => None
      | Some (_, value) => let? rest := select_headers headers names in Some ((lname, value) :: rest)
      end
  end.

Section Verifier.
Context `{SigCrypto}.

Definition verify_inbound_sigv4 (parsed : ParsedAuthHeader.t) (req : InboundRequest.t) (secret : string)
    (now : Z) : SigError.t + unit :=
  match parse_amz_date (InboundRequest.amzdate req) with
  | None => inl SigError.MissingDate
  | Some req_epoch =>
      if CLOCK_SKEW_SECS <? Z.abs (req_epoch - now) then inl SigError.Expired
      else if Nat.ltb (String.length (InboundRequest.amzdate req)) 8
              || negb (String.eqb (ParsedAuthHeader.datestamp parsed)
                         (String.substring 0 8 (InboundRequest.amzdate req)))
      then inl SigError.MalformedAuthorization
      else
        let signed := split ";" (ParsedAuthHeader.signed_headers parsed) in
        if negb (existsb (fun h => eq_ignore_ascii_case h "host") signed)
        then inl SigError.SignedHeadersMismatch
        else
          match select_headers (InboundRequest.headers req) signed with
          | None => inl SigError.SignedHeadersMismatch
          | Some selected =>
              let '(computed_sig, computed_signed_headers) :=
                sign_v4 secret (ParsedAuthHeader.region parsed) (ParsedAuthHeader.service parsed)
                  (InboundRequest.method req) (InboundRequest.canonical_uri req)
                  (InboundRequest.canonical_querystring req) selected (InboundRequest.payload_hash req)
                  (InboundRequest.amzdate req) (ParsedAuthHeader.datestamp parsed) in
              let headers_ok := constant_time_eq computed_signed_headers (ParsedAuthHeader.signed_headers parsed) in
              let sig_ok := constant_time_eq computed_sig (ParsedAuthHeader.signature parsed) in
              if headers_ok && sig_ok then inr tt else inl SigError.SignatureMismatch
          end
  end.

End Verifier.

(** ** The ingress (auth/mod.rs).  A request's headers are the pairs of its header map, whose names
    are lower case; [to_str] refuses a value with a byte that is not visible ASCII. *)
Module HttpRequest.
Record t := mk { method : string; path : string; query : option string; headers : list (string * string) }.
End HttpRequest.

Definition visible_ascii (b : Z) : bool := (32 <=? b) && (b <? 127) || (b =? 9).
Definition to_str (v : string) : option string := if all_chars visible_ascii v then Some v else None.

Definition AUTHORIZATION : string := "authorization".

Definition authorization_of (req : HttpRequest.t) : option string :=
  match find (fun kv : string * string => String.eqb kv.1 AUTHORIZATION) (HttpRequest.headers req) with
  | Some (_, v) => to_str v
  | None => None
  end.

Definition has_sigv4_authorization (req : HttpRequest.t) : bool :=
  match authorization_of req with
  | Some v => starts_with (str_trim_start v) SIGV4_ALGORITHM
  | None => false
  end.

(** [(String, String)]'s derived order, and the sort of the query's pairs. *)
Definition pair_leb (a b : string * string) : bool :=
  match String.compare a.1 b.1 with Lt => true | Gt => false | Eq => String.leb a.2 b.2 end.
Fixpoint insert_pair (x : string * string) (l : list (string * string)) : list (string * string) :=
  match l with
  | [] => [x]
  | y :: l' => if pair_leb x y then x :: l else y :: insert_pair x l'
  end.

Definition canonical_query_string (query : option string) : string :=
  match query with
  | None => ""
  | Some q =>
      if String.eqb q "" then "" else
      let pairs := (fun pair =>
          let '(k, v) := default (pair, "") (split_once "=" pair) in
          (uri_encode_query k, uri_encode_query v)) <$>
        List.filter (fun p => negb (String.eqb p "")) (split "&" q) in
      join "&" ((fun kv : string * string => kv.1 +:+ "=" +:+ kv.2) <$> foldr insert_pair [] pairs)
  end.

Definition UNSIGNED_PAYLOAD : string := "UNSIGNED-PAYLOAD".
Definition DUMMY_SECRET : string := "AWS4-DUMMY-SECRET-FOR-CONSTANT-TIME-REJECT-PATH".

(** The headers named in the signature, with lower-case names and readable values. *)
Definition gather_signed (parsed : ParsedAuthHeader.t) (req : HttpRequest.t) : list (string * string) :=
  let signed_names := List.filter (fun h => negb (String.eqb h ""))
    ((fun h => to_ascii_lowercase (str_trim h)) <$> split ";" (ParsedAuthHeader.signed_headers parsed)) in
  omap (fun kv : string * string =>
    let lname := to_ascii_lowercase kv.1 in
    if existsb (String.eqb lname) signed_names then (fun v => (lname, v)) <$> to_str kv.2 else None)
    (HttpRequest.headers req).

Definition header_value (name : string) (headers : list (string * string)) : option string :=
  snd <$> find (fun kv : string * string => String.eqb kv.1 name) headers.

Section Ingress.
Context {S : Type} `{KeyStore S} `{TokenCrypto} `{SigCrypto}.

(** [None] is the single opaque refusal. *)
Definition verify_bedrock_sigv4 (gov : @GovKeys S _) (req : HttpRequest.t) (body : string) (now : Z)
    : option VirtualKey.t :=
  match parse_authorization_header (default "" (authorization_of req)) with
  | inl _ => None
  | inr parsed =>
      let headers := gather_signed parsed req in
      match header_value X_AMZ_CONTENT_SHA256 headers with
      | None => None
      | Some payload_hash =>
          if eq_ignore_ascii_case payload_hash UNSIGNED_PAYLOAD then None
          else if negb (constant_time_eq (sha256_hex body) (to_ascii_lowercase payload_hash)) then None
          else
            match header_value X_AMZ_DATE headers with
            | None => None
            | Some amzdate =>
                let inbound := InboundRequest.mk (HttpRequest.method req)
                  (uri_encode_path (HttpRequest.path req)) (canonical_query_string (HttpRequest.query req))
                  headers payload_hash amzdate in
                let '(secret, resolved) :=
                  match lookup_akid gov (ParsedAuthHeader.access_key_id parsed) with
                  | Some entry => (AwsKeyEntry.secret_access_key entry, Some (AwsKeyEntry.key entry))
                  | None => (DUMMY_SECRET, None)
                  end in
                match verify_inbound_sigv4 parsed inbound secret now, resolved with
                | inr _, Some key => if VirtualKey.enabled key then Some key else None
                | _, _ => None
                end
            end
      end
  end.

End Ingress.

(** ** The signed headers of a Bedrock lane (proto/bedrock) *)
Module SigningContext.
Record t := mk { host : string; canonical_uri : string; body : string; timestamp_epoch : Z }.
End SigningContext.

Definition looks_like_region (label : string) : bool :=
  let parts := split "-" label in
  if Nat.ltb (length parts) 3 || existsb (fun p => String.eqb p "") parts then false
  else
    match rev parts with
    | [] => false
    | last :: leading => all_chars ascii_digit last && forallb (all_chars ascii_alphabetic) leading
    end.

Definition bedrock_label (label : string) : bool :=
  String.eqb label "bedrock-runtime" || String.eqb label "bedrock-runtime-fips" ||
  String.eqb label "bedrock" || String.eqb label "bedrock-fips".

Fixpoint region_after (labels : list string) : option string :=
  match labels with
  | label :: ((next :: _) as rest) =>
      if bedrock_label label && looks_like_region next then Some next else region_after rest
  | _ => None
  end.

Definition derive_sigv4_region (host : string) : option string := region_after (split "." host).

(** [HeaderValue::from_str]. *)
Definition header_ok (v : string) : bool := all_chars (fun b => (32 <=? b) && negb (b =? 127) || (b =? 9)) v.

(** [splitn(3, ':')] of a lane key into access key, secret and session token. *)
Definition split_lane_key (key : string) : option (string * string * option string) :=
  match split_once ":" key with
  | None => None
  | Some (access, rest) =>
      let '(secret, token) := match split_once ":" rest with
                              | Some (s, t) => (s, Some t)
                              | None => (rest, None)
                              end in
      if String.eqb access "" || String.eqb secret "" then None else Some (access, secret, token)
  end.

Section LaneSigner.
Context `{SigCrypto}.

Definition sigv4_sign_headers (key : string) (ctx : SigningContext.t) : list (string * string) :=
  match split_lane_key key with
  | None => []
  | Some (access, secret, token) =>
      let host := SigningContext.host ctx in
      let region := default "us-east-1" (derive_sigv4_region host) in
      let service := "bedrock" in
      let '(amzdate, datestamp) := format_amz_time (SigningContext.timestamp_epoch ctx) in
      let payload_hash := sha256_hex (SigningContext.body ctx) in
      if negb (match token with Some t => header_ok t | None => true end) then []
      else
        let signed := [("content-type", "application/json"); ("host", host);
                       (X_AMZ_CONTENT_SHA256, payload_hash); (X_AMZ_DATE, amzdate)] ++
                      match token with Some t => [(X_AMZ_SECURITY_TOKEN, t)] | None => [] end in
        let '(signature, signed_headers) :=
          sign_v4 secret region service "POST" (SigningContext.canonical_uri ctx) "" signed payload_hash
            amzdate datestamp in
        let authorization := SIGV4_ALGORITHM +:+ " Credential=" +:+ access +:+ "/" +:+ datestamp +:+ "/" +:+
          region +:+ "/" +:+ service +:+ "/" +:+ SIGV4_TERMINATION +:+ ", SignedHeaders=" +:+ signed_headers +:+
          ", Signature=" +:+ signature in
        if header_ok authorization && header_ok amzdate && header_ok payload_hash then
          [(AUTHORIZATION, authorization); (X_AMZ_DATE, amzdate); (X_AMZ_CONTENT_SHA256, payload_hash)] ++
          match token with Some t => [(X_AMZ_SECURITY_TOKEN, t)] | None => [] end
        else []
  end.

End LaneSigner.

(** ** The wire path and the signed path (proxy/egress.rs) *)
Definition path_is_sigv4_unreserved (path : string) : bool := all_chars path_char path.

Definition with_query (path : string) (query : option string) : string :=
  match query with Some q => path +:+ "?" +:+ q | None => path end.

Definition sign_and_wire_path_parts (url_path : string) : string * string :=
  let '(path, query) := match split_once "?" url_path with
                        | Some (p, q) => (p, Some q)
                        | None => (url_path, None)
                        end in
  if path_is_sigv4_unreserved path then (with_query path query, path)
  else
    let wire_path := uri_encode_path path in
    let canonical := uri_encode_path wire_path in
    (with_query wire_path query, canonical).
