(* ===== verification/Sigv4Facts.v ===== *)
(** * Facts on AWS request signing: strings and their classes of characters, percent-encoding, time
    stamps, and the parts of a signature *)
From stdpp Require Import base gmap list strings pretty.
From Stdlib Require Import ZArith Lia Ascii.
From S2P Require Import Prelude Windows EventStream Cost Ledger Signing Keys Sse Sigv4.
Open Scope Z_scope.

(** ** Strings *)
Lemma str_app_assoc a b c : (a +:+ b) +:+ c = a +:+ (b +:+ c).
Proof. induction a as [|x a IH]; [done|]. change (String x ((a +:+ b) +:+ c) = String x (a +:+ (b +:+ c))). by rewrite IH. Qed.

Lemma str_app_nil a : a +:+ "" = a.
Proof. induction a as [|x a IH]; [done|]. change (String x (a +:+ "") = String x a). by rewrite IH. Qed.

Lemma str_app_length a b : String.length (a +:+ b) = (String.length a + String.length b)%nat.
Proof. induction a as [|x a IH]; [done|]. change (S (String.length (a +:+ b)) = (S (String.length a) + String.length b)%nat). by rewrite IH. Qed.

Lemma str_app_inv a b x y : String.length a = String.length x -> a +:+ b = x +:+ y -> a = x /\ b = y.
Proof.
  revert x. induction a as [|c a IH]; intros [|d x] Hl; simpl in *; try lia; [done|].
  intros [= -> He]. destruct (IH x) as [-> ->]; [lia|done|done].
Qed.

Lemma all_chars_app p a b : all_chars p (a +:+ b) = all_chars p a && all_chars p b.
Proof. induction a; simpl; [done|]. by rewrite IHa, andb_assoc. Qed.

Lemma all_chars_mono (p q : Z -> bool) s :
  (forall b, p b = true -> q b = true) -> all_chars p s = true -> all_chars q s = true.
Proof. intros Hpq. induction s; simpl; [done|]. rewrite !andb_true_iff. intros [? ?]. auto. Qed.

Lemma all_chars_not_in p c s : all_chars p s = true -> p (code c) = false -> contains_char c s = false.
Proof.
  intros Hs Hc. induction s as [|a s IH]; simpl in *; [done|]. simpl_bool.
  destruct (Ascii.eqb_spec a c) as [->|]; [congruence|]. by apply IH.
Qed.

Lemma contains_app c a b : contains_char c (a +:+ b) = contains_char c a || contains_char c b.
Proof. induction a; simpl; [done|]. by rewrite IHa, orb_assoc. Qed.

Lemma code_range c : 0 <= code c < 256.
Proof. unfold code. pose proof (N_ascii_bounded c). lia. Qed.

Lemma code_inj a b : code a = code b -> a = b.
Proof.
  unfold code. intros Hab. rewrite <- (ascii_N_embedding a), <- (ascii_N_embedding b). f_equal. lia.
Qed.

(** Texts with a separator in them are cut in one way. *)
Lemma sep_inv c a b x y :
  contains_char c a = false -> contains_char c x = false ->
  a +:+ String c b = x +:+ String c y -> a = x /\ b = y.
Proof.
  intros Ha Hx Heq. apply (split_once_app c _ b) in Ha. apply (split_once_app c _ y) in Hx.
  rewrite Heq, Hx in Ha. by injection Ha.
Qed.

Lemma split_nil c s : split c s <> [].
Proof. destruct s as [|a s]; simpl; [done|]. destruct (Ascii.eqb a c); [done|]. by destruct (split c s). Qed.

Lemma split_app c a b :
  contains_char c a = false -> split c (a +:+ String c b) = a :: split c b.
Proof.
  induction a as [|x a IH]; simpl; [by rewrite Ascii.eqb_refl|]. intros Ha. simpl_bool. rewrite H.
  by rewrite IH.
Qed.

Lemma split_one c a : contains_char c a = false -> split c a = [a].
Proof. induction a as [|x a IH]; simpl; [done|]. intros Ha. simpl_bool. rewrite H. by rewrite IH. Qed.

Lemma split_join c l :
  l <> [] -> Forall (fun s => contains_char c s = false) l -> split c (join (String c "") l) = l.
Proof.
  intros Hn Hl. induction Hl as [|s l Hs Hl IH]; [done|]. destruct l as [|s' l]; [by apply split_one|].
  change (split c (s +:+ String c (join (String c "") (s' :: l))) = s :: s' :: l).
  rewrite split_app by done. f_equal. by apply IH.
Qed.

(** Every piece of a split has a character class the whole has. *)
Lemma split_all p c s : all_chars p s = true -> Forall (fun x => all_chars p x = true) (split c s).
Proof.
  induction s as [|a s IH]; simpl; intros Hs; [by repeat constructor|]. simpl_bool.
  destruct (Ascii.eqb a c); [constructor; auto|]. specialize (IH H0).
  destruct (split c s); inversion IH; subst; constructor; simpl; rewrite ?H; auto.
Qed.

(** ** Comparison in constant time decides equality *)
Lemma xor_acc_zero r a b :
  0 <= r -> String.length a = String.length b -> xor_acc r a b = 0 <-> r = 0 /\ a = b.
Proof.
  revert r b. induction a as [|x a IH]; intros r [|y b] Hr Hl; simpl in *; try lia; [naive_solver|].
  pose proof (code_range x). pose proof (code_range y).
  rewrite IH by (rewrite ?Z.lor_nonneg, ?Z.lxor_nonneg; lia). rewrite Z.lor_eq_0_iff, Z.lxor_eq_0_iff.
  split.
  - intros [[-> Hc] ->]. by apply code_inj in Hc as ->.
  - intros [-> [= -> ->]]. done.
Qed.

Lemma constant_time_eq_spec a b : constant_time_eq a b = true <-> a = b.
Proof.
  unfold constant_time_eq. destruct (Nat.eqb_spec (String.length a) (String.length b)) as [Hl|Hl]; simpl.
  - rewrite Z.eqb_eq, xor_acc_zero by done. naive_solver.
  - split; [done|]. intros ->. done.
Qed.

(** ** Percent-encoding *)
Lemma concat_chars_app f a b : concat_chars f (a +:+ b) = concat_chars f a +:+ concat_chars f b.
Proof. induction a; simpl; [done|]. by rewrite IHa, str_app_assoc. Qed.

Lemma concat_chars_all p f s :
  (forall c, all_chars p (f c) = true) -> all_chars p (concat_chars f s) = true.
Proof. intros Hf. induction s; simpl; [done|]. by rewrite all_chars_app, Hf, IHs. Qed.

Lemma encode_keeps keep s : all_chars keep s = true -> concat_chars (encode_char keep) s = s.
Proof.
  induction s as [|c s IH]; simpl; [done|]. intros Hs. simpl_bool. rewrite IH by done.
  unfold encode_char. by rewrite H.
Qed.

(** The value of an upper-case hexadecimal digit. *)
Definition unhex (c : ascii) : Z := if code c <=? 57 then code c - 48 else code c - 55.

Lemma escape_value c :
  ascii_of_N (Z.to_N (16 * unhex (hex_char (Z.shiftr (code c) 4)) + unhex (hex_char (Z.land (code c) 15)))) = c.
Proof. destruct c as [[] [] [] [] [] [] [] []]; vm_compute; reflexivity. Qed.

Lemma escape_clean c (p : Z -> bool) :
  p 37 = true -> (forall b, ascii_digit b || ascii_upper b = true -> p b = true) ->
  all_chars p (String "%" (String (hex_char (Z.shiftr (code c) 4))
                             (String (hex_char (Z.land (code c) 15)) ""))) = true.
Proof.
  intros Hp Hd. cbn [all_chars]. change (code "%") with 37. rewrite Hp. simpl.
  rewrite !Hd; [done| |]; destruct c as [[] [] [] [] [] [] [] []]; vm_compute; reflexivity.
Qed.

Lemma encode_inj keep a b :
  keep 37 = false -> concat_chars (encode_char keep) a = concat_chars (encode_char keep) b -> a = b.
Proof.
  intros Hk. revert b. induction a as [|x a IH]; intros [|y b]; cbn [concat_chars]; [done| | |].
  1,2: unfold encode_char at 1; case_match; by simpl.
  unfold encode_char at 1 3. destruct (keep (code x)) eqn:Hx, (keep (code y)) eqn:Hy; cbn [String.append]; intros He.
  - injection He as -> He. f_equal. by apply IH.
  - injection He as -> _. change (code "%") with 37 in Hx. congruence.
  - injection He as <- _. change (code "%") with 37 in Hy. congruence.
  - injection He as H1 H2 He. apply IH in He as ->. f_equal.
    rewrite <- (escape_value x), <- (escape_value y). by rewrite H1, H2.
Qed.

(** The characters an encoded text is made of. *)
Definition encoded_char (b : Z) : bool := path_char b || (b =? 37).

Lemma encoded_clean keep s :
  (forall b, keep b = true -> path_char b = true) ->
  all_chars encoded_char (concat_chars (encode_char keep) s) = true.
Proof.
  intros Hk. apply concat_chars_all. intros c. unfold encode_char. destruct (keep (code c)) eqn:E.
  - simpl. unfold encoded_char. by rewrite Hk.
  - apply escape_clean; [done|]. intros b. unfold encoded_char, path_char, unreserved.
    rewrite !orb_true_iff. tauto.
Qed.

Lemma uri_encode_path_inj a b : uri_encode_path a = uri_encode_path b -> a = b.
Proof. by apply encode_inj. Qed.

Lemma uri_encode_path_clean s : all_chars encoded_char (uri_encode_path s) = true.
Proof. by apply encoded_clean. Qed.

Lemma uri_encode_query_clean s : all_chars encoded_char (uri_encode_query s) = true.
Proof. apply encoded_clean. intros b Hb. unfold path_char. by rewrite Hb. Qed.

(** ** Time stamps *)
Definition pads_back (w : nat) (n : Z) : bool :=
  let s := format_pad w n in
  Nat.eqb (String.length s) w && all_chars ascii_digit s && bool_decide (parse_digits s = Some n).

Lemma pads_back_spec w n :
  pads_back w n = true ->
  String.length (format_pad w n) = w /\ all_chars ascii_digit (format_pad w n) = true /\
  parse_digits (format_pad w n) = Some n.
Proof.
  unfold pads_back. intros Hn. simpl_bool. apply bool_decide_eq_true in H0. apply Nat.eqb_eq in H. done.
Qed.

Lemma pads_back_upto w k :
  forallb (pads_back w) (seqZ 0 k) = true -> forall n, 0 <= n < k -> pads_back w n = true.
Proof. intros Hf n Hn. rewrite forallb_forall in Hf. apply Hf, list_elem_of_In, elem_of_seqZ. lia. Qed.

Lemma pad2 n : 0 <= n < 100 ->
  exists a b, format_pad 2 n = String a (String b "") /\ ascii_digit (code a) = true /\
    ascii_digit (code b) = true /\ parse_digits (String a (String b "")) = Some n.
Proof.
  intros Hn. destruct (pads_back_spec 2 n) as (Hl & Hd & Hp).
  { apply (pads_back_upto 2 100); [vm_compute; reflexivity|done]. }
  destruct (format_pad 2 n) as [|a [|b [|]]]; try discriminate Hl. simpl in Hd. simpl_bool. eauto 10.
Qed.

Lemma pad4 n : 0 <= n < 10000 ->
  exists a b c d, format_pad 4 n = String a (String b (String c (String d ""))) /\
    all_chars ascii_digit (String a (String b (String c (String d "")))) = true /\
    parse_digits (String a (String b (String c (String d "")))) = Some n.
Proof.
  intros Hn. destruct (pads_back_spec 4 n) as (Hl & Hd & Hp).
  { apply (pads_back_upto 4 10000); [vm_compute; reflexivity|done]. }
  destruct (format_pad 4 n) as [|a [|b [|c [|d [|]]]]]; try discriminate Hl. eauto 10.
Qed.

(** Years of four digits. *)
Definition YEAR_10000 : Z := 253402300800.

Lemma civil_year_range z : 0 <= z < 2932897 -> 0 <= (civil_from_days z).1.1 < 10000.
Proof.
  intros Hz. destruct (civil_from_days_month z) as (k & Hk & Hin & ->); [lia|]. simpl.
  assert (k < 119998) as Hlt.
  { destruct (Z.lt_ge_cases k 119998) as [|Hge]; [done|].
    pose proof (first_day_mono 119998 k ltac:(lia) Hge) as Hm. change (first_day 119998) with 2932897 in Hm. lia. }
  unfold civil_of_month. simpl. destruct (Z.ltb_spec (k mod 12) 10);
    pose proof (Z.div_mod k 12); pose proof (Z.mod_pos_bound k 12); lia.
Qed.

(** Everything the verifier asks of a time stamp the signer printed. *)
Lemma format_amz_time_spec e :
  0 <= e < YEAR_10000 ->
  let '(amzdate, datestamp) := format_amz_time e in
  parse_amz_date amzdate = Some e /\ String.substring 0 8 amzdate = datestamp /\
  String.length amzdate = 16%nat /\ datestamp <> "" /\
  all_chars (fun b => ascii_digit b || ascii_upper b) amzdate = true /\
  all_chars ascii_digit datestamp = true.
Proof.
  unfold YEAR_10000. intros He. unfold format_amz_time, SECS_PER_DAY, SECS_PER_HOUR.
  pose proof (div_bounds e 86400 ltac:(lia)) as Hd. pose proof (Z.mod_eq e 86400 ltac:(lia)) as Hm.
  set (days := e / 86400) in *. set (sod := e mod 86400) in *.
  pose proof (civil_year_range days ltac:(lia)) as Hy.
  pose proof (proj1 civil_calendar_roundtrip days ltac:(lia)) as Hc.
  destruct (civil_from_days days) as [[y m] d]. cbn [fst] in Hy. destruct Hc as (Hmm & Hdd & Hback).
  assert (days_in_month y m <= 31) by (unfold days_in_month; repeat case_match; lia).
  assert (0 <= sod / 3600 <= 23 /\ 0 <= sod mod 3600 / 60 <= 59 /\ 0 <= sod mod 60 <= 59 /\
    sod = sod / 3600 * 3600 + sod mod 3600 / 60 * 60 + sod mod 60) as (Hh & Hmi & Hs & Hsum).
  { clear -Hd Hm. assert (0 <= sod < 86400) by lia. Z.to_euclidean_division_equations. lia. }
  destruct (pad4 y Hy) as (y1 & y2 & y3 & y4 & -> & Ay & Py).
  destruct (pad2 m ltac:(lia)) as (m1 & m2 & -> & Am1 & Am2 & Pm).
  destruct (pad2 d ltac:(lia)) as (d1 & d2 & -> & Ad1 & Ad2 & Pd).
  destruct (pad2 (sod / 3600) ltac:(lia)) as (h1 & h2 & -> & Ah1 & Ah2 & Ph).
  destruct (pad2 (sod mod 3600 / 60) ltac:(lia)) as (i1 & i2 & -> & Ai1 & Ai2 & Pi).
  destruct (pad2 (sod mod 60) ltac:(lia)) as (s1 & s2 & -> & As1 & As2 & Ps).
  simpl in Ay. simpl_bool. cbv [String.append].
  split; [|split; [reflexivity|split; [reflexivity|split; [done|split]]]].
  2,3: cbn [all_chars]; by rewrite ?Am1, ?Am2, ?Ad1, ?Ad2, ?Ah1, ?Ah2, ?Ai1, ?Ai2, ?As1, ?As2, ?H0, ?H1, ?H2, ?H3.
  unfold parse_amz_date. cbn [String.length String.get String.substring Nat.eqb negb orb].
  rewrite !bool_decide_true by done. cbn [negb orb].
  assert (is_ascii _ = true) as ->.
  { apply (all_chars_mono (fun b => ascii_digit b || ascii_upper b)).
    - intros b Hb. unfold ascii_digit, ascii_upper in Hb. apply orb_true_iff in Hb as [Hb|Hb]; simpl_bool;
        apply Z.ltb_lt; lia.
    - cbn [all_chars]. by rewrite ?Am1, ?Am2, ?Ad1, ?Ad2, ?Ah1, ?Ah2, ?Ai1, ?Ai2, ?As1, ?As2, ?H0, ?H1, ?H2, ?H3. }
  cbn [negb]. rewrite Py, Pm, Pd, Ph, Pi, Ps, Hback. unfold SECS_PER_DAY, SECS_PER_HOUR.
  repeat match goal with |- context [?a <=? ?b] => rewrite (proj2 (Z.leb_le a b)) by lia end.
  repeat match goal with |- context [?a <? ?b] => rewrite (proj2 (Z.ltb_ge a b)) by lia end.
  cbn [andb negb orb]. f_equal. lia.
Qed.

(** ** Character classes survive the string operations of the verifier *)
Lemma strip_bytes_Some p l r : strip_bytes p l = Some r -> l = p ++ r.
Proof.
  revert l. induction p as [|a p IH]; intros l Hl; [by destruct l; injection Hl as <-|].
  destruct l as [|b l]; [done|]. simpl in Hl. destruct (Z.eqb_spec a b) as [->|]; [|done].
  simpl. f_equal. by apply IH.
Qed.

Lemma trim_prefix_suffix fuel ws l : exists p, l = p ++ trim_prefix fuel ws l.
Proof.
  revert l. induction fuel as [|fuel IH]; intros l; simpl; [by exists []|].
  destruct (head _) as [l'|] eqn:E; [|by exists []].
  apply head_Some_elem_of, list_elem_of_omap in E as (w & _ & Hw). apply strip_bytes_Some in Hw as ->.
  destruct (IH l') as [p Hp]. exists (w ++ p). by rewrite <- app_assoc, <- Hp.
Qed.

Lemma trim_sublist b l : b ∈ trim l -> b ∈ l.
Proof.
  unfold trim. destruct (trim_prefix_suffix (length l) WHITE_SPACE l) as [p Hp].
  set (l' := trim_prefix _ _ l) in *.
  destruct (trim_prefix_suffix (length l') ((@rev Z) <$> WHITE_SPACE) (rev l')) as [q Hq].
  rewrite !list_elem_of_In, <- in_rev. intros Hb. rewrite Hp, in_app_iff, (in_rev l'), Hq, in_app_iff. auto.
Qed.

Lemma all_chars_bytes p s : all_chars p s = forallb p (bytes_of s).
Proof. induction s as [|c s IH]; simpl; [done|]. by rewrite IH. Qed.

Lemma bytes_of_range s : Forall (fun b => 0 <= b < 256) (bytes_of s).
Proof. induction s as [|c s IH]; constructor; [apply code_range|done]. Qed.

Lemma bytes_of_string_of l : Forall (fun b => 0 <= b < 256) l -> bytes_of (string_of l) = l.
Proof.
  induction 1 as [|b l Hb _ IH]; simpl; [done|]. rewrite IH, N_ascii_embedding by lia. f_equal. lia.
Qed.

Lemma string_of_bytes_of s : string_of (bytes_of s) = s.
Proof. induction s as [|c s IH]; simpl; [done|]. by rewrite IH, N2Z.id, ascii_N_embedding. Qed.

Lemma str_trim_all p s : all_chars p s = true -> all_chars p (str_trim s) = true.
Proof.
  rewrite !all_chars_bytes, !forallb_forall. intros Hs b. unfold str_trim.
  rewrite bytes_of_string_of.
  - intros Hb. apply Hs. rewrite <- list_elem_of_In in *. by apply trim_sublist.
  - apply Forall_forall. intros x Hx. pose proof (bytes_of_range s) as Hr. rewrite Forall_forall in Hr.
    by apply Hr, trim_sublist.
Qed.

Lemma split_once_all p c s l r :
  split_once c s = Some (l, r) -> all_chars p s = true -> all_chars p l = true /\ all_chars p r = true.
Proof.
  intros Hs Ha. apply split_once_Some in Hs as [-> _]. rewrite all_chars_app in Ha. simpl in Ha.
  by simpl_bool.
Qed.

Lemma read_sections_all p sections acc c h s :
  Forall (fun x => all_chars p x = true) sections ->
  (forall x, acc.1.1 = Some x \/ acc.1.2 = Some x \/ acc.2 = Some x -> all_chars p x = true) ->
  read_sections sections acc = Some (Some c, Some h, Some s) ->
  all_chars p c = true /\ all_chars p h = true /\ all_chars p s = true.
Proof.
  intros Hf. revert acc. induction Hf as [|x sections Hx Hf IH]; intros [[ac ah] as_] Hacc Hr; simpl in Hr.
  { injection Hr as -> -> ->. simpl in Hacc. auto 10. }
  destruct (split_once "=" (str_trim x)) as [[k v]|] eqn:Hs; [|done].
  apply (split_once_all p) in Hs as [_ Hv]; [|by apply str_trim_all].
  apply str_trim_all in Hv. revert Hr. apply IH. simpl in *.
  intros y. repeat case_match; simpl; naive_solver.
Qed.

(** What a parsed header is made of: the characters of the header, and no slash in the scope. *)
Lemma parse_authorization_all p v a :
  parse_authorization_header v = inr a -> all_chars p v = true ->
  all_chars p (ParsedAuthHeader.datestamp a) = true /\ all_chars p (ParsedAuthHeader.region a) = true /\
  all_chars p (ParsedAuthHeader.service a) = true /\ all_chars p (ParsedAuthHeader.signed_headers a) = true.
Proof.
  unfold parse_authorization_header. intros Ha Hv. apply str_trim_all in Hv.
  destruct (split_once " " (str_trim v)) as [[algo rest]|] eqn:Hs; [|done].
  apply (split_once_all p) in Hs as [_ Hrest]; [|done].
  destruct (negb _); [done|].
  destruct (read_sections _ _) as [[[[c|] [h|]] [s|]]|] eqn:Hr; try done.
  apply (read_sections_all p) in Hr as (Hc & Hh & _); [|by apply split_all|naive_solver].
  destruct (_ || _); [done|]. pose proof (split_all p "/" c Hc) as Hp.
  destruct (split "/" c) as [|a1 [|a2 [|a3 [|a4 [|a5 [|]]]]]]; try done.
  destruct (negb _); [done|]. destruct (_ || _); [done|]. injection Ha as <-. simpl.
  rewrite !Forall_cons in Hp. naive_solver.
Qed.

(** Characters of a header name. *)
Definition name_char (b : Z) : bool := (33 <=? b) && (b <? 127) && negb (b =? 58).

Lemma lower_char_code c : code (lower_char c) = if ascii_upper (code c) then code c + 32 else code c.
Proof. destruct c as [[] [] [] [] [] [] [] []]; vm_compute; reflexivity. Qed.

Lemma lower_char_idem c : lower_char (lower_char c) = lower_char c.
Proof. destruct c as [[] [] [] [] [] [] [] []]; vm_compute; reflexivity. Qed.

Lemma to_ascii_lowercase_cons c s :
  to_ascii_lowercase (String c s) = String (lower_char c) (to_ascii_lowercase s).
Proof. reflexivity. Qed.

Lemma to_ascii_lowercase_idem s : to_ascii_lowercase (to_ascii_lowercase s) = to_ascii_lowercase s.
Proof.
  induction s as [|c s IH]; [done|]. by rewrite !to_ascii_lowercase_cons, lower_char_idem, IH.
Qed.

Lemma to_ascii_lowercase_all p s :
  (forall b, p b = true -> p (if ascii_upper b then b + 32 else b) = true) ->
  all_chars p s = true -> all_chars p (to_ascii_lowercase s) = true.
Proof.
  intros Hp. induction s as [|c s IH]; [done|]. rewrite to_ascii_lowercase_cons. simpl.
  rewrite lower_char_code. intros Hs. simpl_bool. rewrite Hp, IH by done. done.
Qed.

Lemma name_lower s : all_chars name_char s = true -> all_chars name_char (to_ascii_lowercase s) = true.
Proof.
  apply to_ascii_lowercase_all. intros b. unfold name_char, ascii_upper.
  destruct (Z.leb_spec 65 b), (Z.leb_spec b 90); simpl; try done. intros Hb. simpl_bool.
  rewrite !andb_true_iff, negb_true_iff, Z.leb_le, Z.ltb_lt, Z.eqb_neq. lia.
Qed.

Lemma canonical_loop_all p prev out v :
  p 32 = true -> all_chars p out = true -> all_chars p v = true -> all_chars p (canonical_loop prev out v) = true.
Proof.
  intros Hsp. revert prev out. induction v as [|c v IH]; intros prev out Ho Hv; simpl in *; [done|]. simpl_bool.
  destruct (Ascii.eqb c " "); [by apply IH|]. apply IH; [|done]. rewrite all_chars_app. simpl. rewrite H.
  destruct (prev && _); rewrite ?all_chars_app, Ho; simpl; [|done]. change (code " ") with 32. by rewrite Hsp.
Qed.

Lemma canonicalize_all p v :
  p 32 = true -> all_chars p v = true -> all_chars p (canonicalize_header_value v) = true.
Proof. intros Hsp. by apply canonical_loop_all. Qed.

Lemma visible_no_nl s : all_chars visible_ascii s = true -> contains_char NL s = false.
Proof. intros Hs. by apply (all_chars_not_in visible_ascii). Qed.

Lemma encoded_no_nl s : all_chars encoded_char s = true -> contains_char NL s = false.
Proof. intros Hs. by apply (all_chars_not_in encoded_char). Qed.

Lemma join_no_nl sep l :
  contains_char NL sep = false -> Forall (fun s => contains_char NL s = false) l ->
  contains_char NL (join sep l) = false.
Proof.
  intros Hs Hl. induction Hl as [|x l Hx Hl IH]; [done|]. destruct l as [|y l]; [done|].
  change (join sep (x :: y :: l)) with (x +:+ sep +:+ join sep (y :: l)). by rewrite !contains_app, Hx, Hs, IH.
Qed.

Lemma insert_pair_elem x y l : y ∈ insert_pair x l -> y = x \/ y ∈ l.
Proof.
  induction l as [|z l IH]; simpl; [set_solver|]. destruct (pair_leb x z); [set_solver|].
  rewrite elem_of_cons. set_solver.
Qed.

Lemma sort_pairs_elem y l : y ∈ foldr insert_pair [] l -> y ∈ l.
Proof. induction l as [|x l IH]; simpl; [done|]. intros Hy. apply insert_pair_elem in Hy. set_solver. Qed.

Lemma canonical_query_no_nl q : contains_char NL (canonical_query_string q) = false.
Proof.
  unfold canonical_query_string. destruct q as [q|]; [|done]. destruct (String.eqb q ""); [done|].
  apply join_no_nl; [done|]. rewrite Forall_fmap. apply Forall_forall. intros [k v] Hkv.
  apply sort_pairs_elem, list_elem_of_fmap in Hkv as (pr & Hkv & _). cbn [compose fst snd].
  destruct (default _ _) as [k' v']. injection Hkv as -> ->.
  by rewrite !contains_app, !(encoded_no_nl _ (uri_encode_query_clean _)).
Qed.

(** ** The signed texts are read back in one way *)
Definition header_clean (kv : string * string) : Prop :=
  all_chars name_char kv.1 = true /\ all_chars visible_ascii kv.2 = true.

Lemma header_lines_cons k v h s :
  header_lines ((k, v) :: h) +:+ s = k +:+ String ":" (v +:+ String NL (header_lines h +:+ s)).
Proof. unfold header_lines. cbn [foldr fst snd]. by rewrite !str_app_assoc. Qed.

Lemma name_starts k r : all_chars name_char k = true -> forall s, String NL s <> k +:+ String ":" r.
Proof. destruct k as [|c k]; intros Hk s [=]. by subst. Qed.

Lemma header_lines_inv h1 h2 s1 s2 :
  Forall header_clean h1 -> Forall header_clean h2 ->
  header_lines h1 +:+ nl +:+ s1 = header_lines h2 +:+ nl +:+ s2 -> h1 = h2 /\ s1 = s2.
Proof.
  intros H1. revert h2. induction H1 as [|[k v] h1 [Hk Hv] H1 IH]; intros h2 H2.
  - destruct h2 as [|[k' v'] h2]; [by intros [=]|]. apply Forall_cons_1 in H2 as [[Hk' _] _].
    rewrite header_lines_cons. intros He. by apply name_starts in He.
  - destruct H2 as [|[k' v'] h2 [Hk' Hv'] H2]; rewrite !header_lines_cons.
    { intros He. symmetry in He. by apply name_starts in He. }
    intros He. apply sep_inv in He as [-> He]; [|by apply (all_chars_not_in name_char)..].
    apply sep_inv in He as [-> He]; [|by apply visible_no_nl..]. by apply IH in He as [-> ->].
Qed.

Lemma nl_inv a b x y :
  contains_char NL a = false -> contains_char NL x = false ->
  a +:+ nl +:+ b = x +:+ nl +:+ y -> a = x /\ b = y.
Proof. apply sep_inv. Qed.

Section Signed.
Context `{SigCrypto}.

Lemma canonical_request_inv m1 u1 q1 h1 p1 m2 u2 q2 h2 p2 :
  contains_char NL m1 = false -> contains_char NL u1 = false -> contains_char NL q1 = false ->
  contains_char NL m2 = false -> contains_char NL u2 = false -> contains_char NL q2 = false ->
  Forall header_clean (canonical_headers h1) -> Forall header_clean (canonical_headers h2) ->
  canonical_request m1 u1 q1 h1 p1 = canonical_request m2 u2 q2 h2 p2 ->
  m1 = m2 /\ u1 = u2 /\ q1 = q2 /\ canonical_headers h1 = canonical_headers h2 /\ p1 = p2.
Proof.
  intros Hm1 Hu1 Hq1 Hm2 Hu2 Hq2 Hh1 Hh2 He. unfold canonical_request in He.
  apply nl_inv in He as [-> He]; [|done..]. apply nl_inv in He as [-> He]; [|done..].
  apply nl_inv in He as [-> He]; [|done..]. apply header_lines_inv in He as [Hh He]; [|done..].
  rewrite Hh in He. apply str_app_inv in He as [_ He]; [|done].
  by apply str_app_inv in He as [_ ->].
Qed.

Lemma string_to_sign_inv d1 s1 r1 v1 t1 d2 s2 r2 v2 t2 :
  contains_char NL d1 = false -> contains_char NL (scope s1 r1 v1) = false ->
  contains_char NL d2 = false -> contains_char NL (scope s2 r2 v2) = false ->
  string_to_sign d1 s1 r1 v1 t1 = string_to_sign d2 s2 r2 v2 t2 ->
  d1 = d2 /\ scope s1 r1 v1 = scope s2 r2 v2 /\ sha256_hex t1 = sha256_hex t2.
Proof.
  intros Hd1 Hs1 Hd2 Hs2 He. unfold string_to_sign in He. apply str_app_inv in He as [_ He]; [|done].
  apply str_app_inv in He as [_ He]; [|done]. apply nl_inv in He as [-> He]; [|done..]. by apply nl_inv in He as [-> ->].
Qed.

Lemma scope_no_nl d r v :
  all_chars visible_ascii d = true -> all_chars visible_ascii r = true -> all_chars visible_ascii v = true ->
  contains_char NL (scope d r v) = false.
Proof. intros Hd Hr Hv. unfold scope. by rewrite !contains_app, !visible_no_nl. Qed.

Lemma insert_header_elem x y l : y ∈ insert_header x l <-> y = x \/ y ∈ l.
Proof.
  induction l as [|z l IH]; simpl; [set_solver|]. destruct (String.leb x.1 z.1); [set_solver|].
  rewrite elem_of_cons, IH. set_solver.
Qed.

Lemma sort_headers_elem y l : y ∈ sort_headers l <-> y ∈ l.
Proof. induction l as [|x l IH]; simpl; [done|]. rewrite insert_header_elem, IH. set_solver. Qed.

Lemma canonical_headers_elem k v headers :
  (k, v) ∈ canonical_headers headers <->
  exists k' v', (k', v') ∈ headers /\ k = to_lowercase k' /\ v = canonicalize_header_value v'.
Proof.
  unfold canonical_headers. rewrite sort_headers_elem, list_elem_of_fmap. split.
  - intros ([k' v'] & [= -> ->] & Hin). eauto.
  - intros (k' & v' & Hin & -> & ->). by exists (k', v').
Qed.

End Signed.
