(* ===== verification/Sigv4Props.v ===== *)
(** * Theorems about AWS request signing: what an accepted signature binds, that the lane signer's
    requests are accepted, and the two forms of the signed path *)
From stdpp Require Import base gmap list strings pretty.
From Stdlib Require Import ZArith Lia Ascii.
From S2P Require Import Prelude Windows EventStream Cost Ledger Signing Keys Sse Sigv4 Sigv4Facts.
Open Scope Z_scope.
Open Scope rust_scope.

(** ** What the verifier recomputes from a request *)
Module SigView.
Record t := mk { parsed : ParsedAuthHeader.t; selected : list (string * string);
                 payload_hash : string; amzdate : string }.
End SigView.

Definition signing_view (req : HttpRequest.t) : option SigView.t :=
  match parse_authorization_header (default "" (authorization_of req)) with
  | inl _ => None
  | inr parsed =>
      let headers := gather_signed parsed req in
      let? hash := header_value X_AMZ_CONTENT_SHA256 headers in
      let? date := header_value X_AMZ_DATE headers in
      let? selected := select_headers headers (split ";" (ParsedAuthHeader.signed_headers parsed)) in
      Some (SigView.mk parsed selected hash date)
  end.

(** A request the HTTP server can produce: a method without line breaks, header names that are
    tokens. *)
Definition http_ok (req : HttpRequest.t) : Prop :=
  contains_char NL (HttpRequest.method req) = false /\
  Forall (fun kv : string * string => all_chars name_char kv.1 = true) (HttpRequest.headers req).

(** ** The parameters of a query *)
Definition query_params (query : option string) : list (string * string) :=
  match query with
  | None => []
  | Some q => (fun pair => default (pair, "") (split_once "=" pair)) <$> List.filter (fun p => negb (String.eqb p "")) (split "&" q)
  end.

Definition encode_param (kv : string * string) : string * string := (uri_encode_query kv.1, uri_encode_query kv.2).
Definition param_text (kv : string * string) : string := kv.1 +:+ "=" +:+ kv.2.

Lemma canonical_query_eq q :
  canonical_query_string q = join "&" (param_text <$> foldr insert_pair [] (encode_param <$> query_params q)).
Proof.
  destruct q as [q|]; [|done]. unfold canonical_query_string, query_params. destruct (String.eqb_spec q "") as [->|_]; [done|].
  f_equal. f_equal. f_equal. rewrite <- list_fmap_compose. apply list_fmap_ext. intros i p _. cbn [compose].
  by destruct (default (p, "") (split_once "=" p)).
Qed.

Lemma insert_pair_perm x l : insert_pair x l ≡ₚ x :: l.
Proof.
  induction l as [|y l IH]; cbn [insert_pair]; [done|]. destruct (pair_leb x y); [done|]. rewrite IH. apply perm_swap.
Qed.

Lemma sort_pairs_perm l : foldr insert_pair [] l ≡ₚ l.
Proof. induction l as [|x l IH]; cbn [foldr]; [done|]. by rewrite insert_pair_perm, IH. Qed.

Lemma encoded_not s c : all_chars encoded_char s = true -> encoded_char (code c) = false -> contains_char c s = false.
Proof. intros Hs Hc. by apply (all_chars_not_in encoded_char). Qed.

Lemma param_text_inj kv kv' :
  contains_char "=" kv.1 = false -> contains_char "=" kv'.1 = false -> param_text kv = param_text kv' -> kv = kv'.
Proof.
  intros H1 H2 E. destruct kv as [k v], kv' as [k' v']. cbn in *. unfold param_text in E. cbn [fst snd] in E.
  change (k +:+ String "=" v = k' +:+ String "=" v') in E.
  revert k' H2 E. induction k as [|a k IH]; intros [|a' k'] H2 E.
  - by injection E as ->.
  - injection E as <- _. cbn in H2. done.
  - injection E as -> _. cbn in H1. done.
  - cbn [contains_char] in H1, H2. apply orb_false_iff in H1 as [_ H1], H2 as [_ H2]. injection E as -> E.
    by injection (IH H1 k' H2 E) as -> ->.
Qed.

Lemma sorted_params_text q :
  Forall (fun kv => contains_char "=" kv.1 = false /\ contains_char "&" (param_text kv) = false)
    (foldr insert_pair [] (encode_param <$> query_params q)).
Proof.
  apply Forall_forall. intros kv Hkv. rewrite sort_pairs_perm in Hkv. apply list_elem_of_fmap in Hkv as (p & -> & _).
  unfold param_text, encode_param. cbn [fst snd]. rewrite !contains_app.
  rewrite !(encoded_not _ _ (uri_encode_query_clean _)) by done. done.
Qed.

(** The canonical query fixes the parameters, up to their order. *)
Lemma canonical_query_fixes_params q1 q2 :
  canonical_query_string q1 = canonical_query_string q2 -> query_params q1 ≡ₚ query_params q2.
Proof.
  rewrite !canonical_query_eq. pose proof (sorted_params_text q1) as H1. pose proof (sorted_params_text q2) as H2.
  pose proof (sort_pairs_perm (encode_param <$> query_params q1)) as P1. pose proof (sort_pairs_perm (encode_param <$> query_params q2)) as P2.
  set (l1 := foldr _ _ (_ <$> query_params q1)) in *. set (l2 := foldr _ _ (_ <$> query_params q2)) in *. intros Hj.
  assert (param_text <$> l1 = param_text <$> l2) as Ht.
  { assert (forall l : list (string * string), param_text <$> l <> [] -> join "&" (param_text <$> l) <> "") as Hne.
    { intros [|[k v] [|kv l]]; cbn; [done|by destruct k|]. unfold param_text at 1. cbn. by destruct k. }
    assert (forall l, Forall (fun kv => contains_char "=" kv.1 = false /\ contains_char "&" (param_text kv) = false) l ->
      param_text <$> l <> [] -> split "&" (join "&" (param_text <$> l)) = param_text <$> l) as Hs.
    { intros l Hl Hn. apply split_join; [done|]. apply Forall_fmap. eapply Forall_impl; [exact Hl|]. by intros kv [_ ?]. }
    destruct (decide (param_text <$> l1 = [])) as [E1|E1], (decide (param_text <$> l2 = [])) as [E2|E2].
    - congruence.
    - rewrite E1 in Hj. by destruct (Hne l2 E2).
    - rewrite E2 in Hj. by destruct (Hne l1 E1).
    - rewrite <- (Hs l1 H1 E1), <- (Hs l2 H2 E2). by rewrite Hj. }
  assert (l1 = l2) as E.
  { clear P1 P2 Hj. clearbody l1 l2. revert l2 H2 Ht. induction H1 as [|kv l1 [Hk _] H1 IH]; intros [|kv' l2] H2 Ht; try done.
    apply Forall_cons in H2 as [[Hk' _] H2]. injection Ht as Hkv Ht. apply param_text_inj in Hkv as ->; [|done..]. f_equal. by apply IH. }
  rewrite E in P1. rewrite P1 in P2. symmetry in P2.
  apply Permutation_map_inv in P2 as (l3 & E3 & P3).
  assert (Inj (=) (=) encode_param) as Hinj.
  { intros [k v] [k' v'] [= Hk Hv]. apply encode_inj in Hk; [|done]. apply encode_inj in Hv; [|done]. by subst. }
  apply (inj (fmap encode_param)) in E3. by rewrite E3.
Qed.

Section Bound.
Context {S : Type} `{KeyStore S} `{TokenCrypto} `{SigCrypto}.

Definition view_request (req : HttpRequest.t) (v : SigView.t) : string :=
  canonical_request (HttpRequest.method req) (uri_encode_path (HttpRequest.path req))
    (canonical_query_string (HttpRequest.query req)) (SigView.selected v) (SigView.payload_hash v).

Definition view_scope (v : SigView.t) : string :=
  scope (ParsedAuthHeader.datestamp (SigView.parsed v)) (ParsedAuthHeader.region (SigView.parsed v))
    (ParsedAuthHeader.service (SigView.parsed v)).

Definition view_text (req : HttpRequest.t) (v : SigView.t) : string :=
  string_to_sign (SigView.amzdate v) (ParsedAuthHeader.datestamp (SigView.parsed v))
    (ParsedAuthHeader.region (SigView.parsed v)) (ParsedAuthHeader.service (SigView.parsed v))
    (view_request req v).

(** Everything that held when a request was accepted. *)
Lemma verify_bedrock_accepted (gov : @GovKeys S _) req body now key :
  verify_bedrock_sigv4 gov req body now = Some key ->
  exists v entry epoch,
    signing_view req = Some v /\
    lookup_akid gov (ParsedAuthHeader.access_key_id (SigView.parsed v)) = Some entry /\
    AwsKeyEntry.key entry = key /\ VirtualKey.enabled key = true /\
    parse_amz_date (SigView.amzdate v) = Some epoch /\ Z.abs (epoch - now) <= CLOCK_SKEW_SECS /\
    sha256_hex body = to_ascii_lowercase (SigView.payload_hash v) /\
    existsb (fun h => eq_ignore_ascii_case h "host")
      (split ";" (ParsedAuthHeader.signed_headers (SigView.parsed v))) = true /\
    hex_encode (hmac_sha256 (string_of (signing_key (AwsKeyEntry.secret_access_key entry)
      (ParsedAuthHeader.datestamp (SigView.parsed v)) (ParsedAuthHeader.region (SigView.parsed v))
      (ParsedAuthHeader.service (SigView.parsed v)))) (view_text req v))
    = ParsedAuthHeader.signature (SigView.parsed v).
Proof.
  unfold verify_bedrock_sigv4, signing_view. intros Hv.
  destruct (parse_authorization_header _) as [|parsed]; [done|].
  destruct (header_value X_AMZ_CONTENT_SHA256 _) as [hash|]; [|done].
  destruct (eq_ignore_ascii_case hash _); [done|].
  destruct (constant_time_eq (sha256_hex body) _) eqn:Hh; [|done]. simpl in Hv.
  destruct (header_value X_AMZ_DATE _) as [date|]; [|done].
  destruct (lookup_akid gov _) as [entry|] eqn:Hl; cycle 1.
  { by destruct (verify_inbound_sigv4 _ _ _ _). }
  destruct (verify_inbound_sigv4 _ _ _ _) as [|[]] eqn:Hi; [done|].
  destruct (VirtualKey.enabled _) eqn:He; [|done]. injection Hv as <-.
  unfold verify_inbound_sigv4 in Hi. cbn [InboundRequest.amzdate InboundRequest.headers
    InboundRequest.method InboundRequest.canonical_uri InboundRequest.canonical_querystring
    InboundRequest.payload_hash] in Hi.
  destruct (parse_amz_date date) as [epoch|] eqn:Hd; [|done].
  destruct (Z.ltb_spec CLOCK_SKEW_SECS (Z.abs (epoch - now))) as [|Hskew]; [done|].
  destruct (_ || _); [done|]. destruct (existsb _ _) eqn:Hhost; [|done]. cbn [negb] in Hi.
  destruct (select_headers _ _) as [selected|]; [|done]. cbn [sign_v4] in Hi.
  destruct (constant_time_eq (signed_names _) _); [|done].
  destruct (constant_time_eq (hex_encode _) _) eqn:Hsig; [|done].
  apply constant_time_eq_spec in Hh, Hsig.
  exists (SigView.mk parsed selected hash date), entry, epoch. done.
Qed.

(** The characters of what a view holds. *)
Lemma gather_signed_elem parsed req k v :
  (k, v) ∈ gather_signed parsed req ->
  exists k', (k', v) ∈ HttpRequest.headers req /\ k = to_ascii_lowercase k' /\ all_chars visible_ascii v = true.
Proof.
  unfold gather_signed. rewrite list_elem_of_omap. intros ([k' v'] & Hin & Hk). cbn [fst snd] in Hk.
  destruct (existsb _ _); [|done]. unfold to_str in Hk. destruct (all_chars _ _) eqn:Ha; [|done].
  injection Hk as <- <-. eauto.
Qed.

Lemma find_elem {A} (f : A -> bool) l x : find f l = Some x -> x ∈ l /\ f x = true.
Proof. intros Hf. apply find_some in Hf as [Hin Hx]. by rewrite list_elem_of_In. Qed.

Lemma select_headers_elem headers names sel k v :
  select_headers headers names = Some sel -> (k, v) ∈ sel ->
  exists n, n ∈ names /\ k = to_ascii_lowercase n /\
    snd <$> find (fun kv : string * string => eq_ignore_ascii_case kv.1 k) headers = Some v.
Proof.
  revert sel. induction names as [|n names IH]; intros sel Hs Hin; simpl in Hs.
  { injection Hs as <-. by apply not_elem_of_nil in Hin. }
  destruct (find (fun kv : string * string => eq_ignore_ascii_case kv.1 (to_ascii_lowercase n)) headers)
    as [[k' v']|] eqn:Hf; [|done].
  destruct (select_headers headers names) as [rest|]; [|done]. injection Hs as <-.
  apply elem_of_cons in Hin as [[= -> ->]|Hin].
  - exists n. rewrite Hf. split_and!; [by left|done|reflexivity].
  - destruct (IH rest eq_refl Hin) as (m & Hm & He). exists m. split; [by right|done].
Qed.

Lemma header_value_elem name headers v : header_value name headers = Some v -> (name, v) ∈ headers.
Proof.
  unfold header_value. destruct (find _ _) as [[k v']|] eqn:Hf; [|done]. intros [= <-].
  apply find_elem in Hf as [Hin Hk]. simpl in Hk. by apply String.eqb_eq in Hk as <-.
Qed.

Lemma name_ascii s : all_chars name_char s = true -> is_ascii s = true.
Proof. apply all_chars_mono. intros b Hb. unfold name_char in Hb. simpl_bool. apply Z.ltb_lt. lia. Qed.

(** The names of a view's headers are lower-case tokens, its values readable. *)
Lemma view_header req v k x :
  http_ok req -> signing_view req = Some v -> (k, x) ∈ SigView.selected v ->
  to_lowercase k = k /\ all_chars name_char k = true /\ all_chars visible_ascii x = true.
Proof.
  intros [_ Hn] Hv Hin. unfold signing_view in Hv. destruct (parse_authorization_header _) as [|parsed]; [done|].
  destruct (header_value _ _); [|done]. destruct (header_value _ _); [|done].
  destruct (select_headers _ _) as [sel|] eqn:Hs; [|done]. injection Hv as <-. cbn [SigView.selected] in Hin.
  destruct (select_headers_elem _ _ _ _ _ Hs Hin) as (n & _ & -> & Hf).
  destruct (find _ _) as [[k' x']|] eqn:Hfind; [|done]. injection Hf as ->.
  apply find_elem in Hfind as [Hel Heq]. apply gather_signed_elem in Hel as (k0 & Hk0 & -> & Hx).
  unfold eq_ignore_ascii_case in Heq. apply String.eqb_eq in Heq. cbn [fst] in Heq.
  rewrite !to_ascii_lowercase_idem in Heq.
  rewrite Forall_forall in Hn. apply Hn, name_lower in Hk0. cbn [fst] in Hk0. rewrite Heq in Hk0.
  split; [|done]. by rewrite to_lowercase_ascii, to_ascii_lowercase_idem by by apply name_ascii.
Qed.

Lemma view_clean req v :
  http_ok req -> signing_view req = Some v -> Forall header_clean (canonical_headers (SigView.selected v)).
Proof.
  intros Hok Hv. apply Forall_forall. intros [k x] Hin.
  apply canonical_headers_elem in Hin as (k' & x' & Hin & -> & ->).
  destruct (view_header req v k' x' Hok Hv Hin) as (-> & Hk & Hx). split; [done|].
  by apply canonicalize_all.
Qed.

Lemma view_texts_clean req v :
  signing_view req = Some v ->
  contains_char NL (SigView.amzdate v) = false /\ contains_char NL (view_scope v) = false.
Proof.
  unfold signing_view. intros Hv. destruct (parse_authorization_header _) as [|parsed] eqn:Hp; [done|].
  destruct (header_value X_AMZ_CONTENT_SHA256 _); [|done].
  destruct (header_value X_AMZ_DATE _) as [date|] eqn:Hd; [|done].
  destruct (select_headers _ _); [|done]. injection Hv as <-. cbn [SigView.amzdate]. split.
  - apply header_value_elem, gather_signed_elem in Hd as (_ & _ & _ & Hd). by apply visible_no_nl.
  - apply (parse_authorization_all visible_ascii) in Hp as (? & ? & ? & _).
    + by apply scope_no_nl.
    + unfold authorization_of. destruct (find _ _) as [[? x]|]; [|done].
      unfold to_str. by destruct (all_chars _ x) eqn:E.
Qed.

(** The value a request carries for a header, in canonical form: its first readable one. *)
Definition received (req : HttpRequest.t) (name : string) : option string :=
  canonicalize_header_value <$> header_value name
    (omap (fun kv : string * string => pair (to_ascii_lowercase kv.1) <$> to_str kv.2) (HttpRequest.headers req)).

(** Gathering only the signed headers does not change what one of them is. *)
Lemma find_filtered {A} (f g : A -> bool) l x :
  (forall y, f y = true -> g y = g x) -> f x = true -> find f (List.filter g l) = Some x -> find f l = Some x.
Proof.
  intros Hg Hx. induction l as [|y l IH]; simpl; [done|]. destruct (g y) eqn:Hy; simpl.
  - destruct (f y); [done|]. exact IH.
  - destruct (f y) eqn:Hfy; [|exact IH]. intros Hf. apply find_some in Hf as [Hin _].
    apply filter_In in Hin as [_ Hgx]. by rewrite <- (Hg y Hfy), Hy in Hgx.
Qed.

Lemma gather_signed_filter parsed req :
  exists keep : string -> bool,
    gather_signed parsed req = List.filter (fun kv : string * string => keep kv.1)
      (omap (fun kv : string * string => pair (to_ascii_lowercase kv.1) <$> to_str kv.2) (HttpRequest.headers req)).
Proof.
  unfold gather_signed. set (names := List.filter _ _). exists (fun k => existsb (String.eqb k) names).
  induction (HttpRequest.headers req) as [|[k v] l IH]; simpl; [done|].
  destruct (to_str v) as [x|]; simpl.
  - destruct (existsb _ names); simpl; [by f_equal|done].
  - destruct (existsb _ names); done.
Qed.

(** A signed header is the one the request carries. *)
Lemma selected_received req v name x :
  http_ok req -> signing_view req = Some v -> (name, x) ∈ SigView.selected v ->
  received req name = Some (canonicalize_header_value x).
Proof.
  intros Hok Hv Hin. unfold signing_view in Hv. destruct (parse_authorization_header _) as [|parsed]; [done|].
  destruct (header_value _ _); [|done]. destruct (header_value _ _); [|done].
  destruct (select_headers _ _) as [sel|] eqn:Hs; [|done]. injection Hv as <-. cbn [SigView.selected] in Hin.
  destruct (select_headers_elem _ _ _ _ _ Hs Hin) as (n & _ & -> & Hf).
  assert (find (fun kv : string * string => String.eqb kv.1 (to_ascii_lowercase n)) (gather_signed parsed req)
    = Some (to_ascii_lowercase n, x)) as Hfind.
  { destruct (find (fun kv : string * string => eq_ignore_ascii_case kv.1 (to_ascii_lowercase n)) _)
      as [[k y]|] eqn:E; [|done]. injection Hf as ->.
    assert (forall kv : string * string, kv ∈ gather_signed parsed req ->
      eq_ignore_ascii_case kv.1 (to_ascii_lowercase n) = String.eqb kv.1 (to_ascii_lowercase n)) as Hsame.
    { intros [k' y'] Hel. apply gather_signed_elem in Hel as (k0 & _ & -> & _).
      unfold eq_ignore_ascii_case. cbn [fst]. by rewrite !to_ascii_lowercase_idem. }
    clear -E Hsame. induction (gather_signed parsed req) as [|kv l IH]; [done|]. cbn [find] in *.
    rewrite Hsame in E by by left. destruct (String.eqb_spec kv.1 (to_ascii_lowercase n)) as [He|].
    - injection E as ->. cbn in He. by subst.
    - apply IH; [done|]. intros ? Hkv. apply Hsame. by right. }
  destruct (gather_signed_filter parsed req) as [keep Hg]. rewrite Hg in Hfind.
  apply (find_filtered (fun kv : string * string => String.eqb kv.1 (to_ascii_lowercase n))
    (fun kv : string * string => keep kv.1)) in Hfind.
  - unfold received, header_value. rewrite Hfind. reflexivity.
  - intros [k' y'] Hk. cbn [fst] in *. by apply String.eqb_eq in Hk as ->.
  - apply String.eqb_refl.
Qed.

(** Every listed name was selected. *)
Lemma select_headers_names headers names sel n :
  select_headers headers names = Some sel -> In n names -> exists x, (to_ascii_lowercase n, x) ∈ sel.
Proof.
  revert sel. induction names as [|m names IH]; intros sel Hs Hin; [by destruct Hin|]. simpl in Hs.
  destruct (find _ _) as [[? y]|]; [|done]. destruct (select_headers _ names) as [rest|]; [|done].
  injection Hs as <-. destruct Hin as [->|Hin]; [exists y; by left|].
  destruct (IH rest eq_refl Hin) as [z Hz]. exists z. by right.
Qed.

Lemma view_selected req v n :
  signing_view req = Some v -> In n (split ";" (ParsedAuthHeader.signed_headers (SigView.parsed v))) ->
  exists x, (to_ascii_lowercase n, x) ∈ SigView.selected v.
Proof.
  unfold signing_view. intros Hv. destruct (parse_authorization_header _) as [|parsed]; [done|].
  destruct (header_value _ _); [|done]. destruct (header_value _ _); [|done].
  destruct (select_headers _ _) as [sel|] eqn:Hs; [|done]. injection Hv as <-. cbn.
  by apply select_headers_names with (1 := Hs).
Qed.

(** Equal canonical headers are equal received headers. *)
Lemma received_equal r1 r2 v1 v2 n :
  http_ok r1 -> http_ok r2 -> signing_view r1 = Some v1 -> signing_view r2 = Some v2 ->
  canonical_headers (SigView.selected v1) = canonical_headers (SigView.selected v2) ->
  In n (split ";" (ParsedAuthHeader.signed_headers (SigView.parsed v1))) ->
  is_Some (received r1 (to_ascii_lowercase n)) /\
  received r1 (to_ascii_lowercase n) = received r2 (to_ascii_lowercase n).
Proof.
  intros Hok1 Hok2 Hv1 Hv2 Hc Hn. destruct (view_selected r1 v1 n Hv1 Hn) as [x Hx].
  pose proof (view_header r1 v1 _ _ Hok1 Hv1 Hx) as (Hlow & _ & _).
  assert ((to_ascii_lowercase n, canonicalize_header_value x) ∈ canonical_headers (SigView.selected v1)) as Hin.
  { apply canonical_headers_elem. exists (to_ascii_lowercase n), x. by rewrite Hlow. }
  rewrite Hc in Hin. apply canonical_headers_elem in Hin as (k' & x' & Hin & Hk & Hx').
  pose proof (view_header r2 v2 _ _ Hok2 Hv2 Hin) as (Hlow' & _ & _). rewrite Hlow' in Hk. subst k'.
  rewrite (selected_received r1 v1 _ x Hok1 Hv1 Hx), (selected_received r2 v2 _ x' Hok2 Hv2 Hin), <- Hx'.
  by split.
Qed.

(** The MAC that accepts a request: under the key derived from the credential's secret and the scope. *)
Definition view_mac (e : AwsKeyEntry.t) (req : HttpRequest.t) (v : SigView.t) : list Z :=
  hmac_sha256 (string_of (signing_key (AwsKeyEntry.secret_access_key e)
    (ParsedAuthHeader.datestamp (SigView.parsed v)) (ParsedAuthHeader.region (SigView.parsed v))
    (ParsedAuthHeader.service (SigView.parsed v)))) (view_text req v).

(** A collision on what these two requests were accepted with: their bodies or their canonical requests, different
    and with one digest, or their texts to sign, different and with one MAC under the keys of the credentials
    the two gateways hold for them. *)
Definition collided (g1 g2 : @GovKeys S _) (r1 r2 : HttpRequest.t) (b1 b2 : string) (v1 v2 : SigView.t) : Prop :=
  (b1 <> b2 /\ sha256_hex b1 = sha256_hex b2) \/
  (view_request r1 v1 <> view_request r2 v2 /\ sha256_hex (view_request r1 v1) = sha256_hex (view_request r2 v2)) \/
  (view_text r1 v1 <> view_text r2 v2 /\
   exists e1 e2, lookup_akid g1 (ParsedAuthHeader.access_key_id (SigView.parsed v1)) = Some e1 /\
     lookup_akid g2 (ParsedAuthHeader.access_key_id (SigView.parsed v2)) = Some e2 /\
     view_mac e1 r1 v1 = view_mac e2 r2 v2).

(** C13.  A signature binds the request: two requests, of the form an HTTP server delivers, accepted under one signature (at any two times, by any
    two gateways) have the same method, path, query parameters (as pairs, up to their order), body, time
    stamp and credential scope, and the same value, up to surrounding and repeated spaces, for every
    signed header, the host among them; unless the digest or the MAC collided on exactly the bodies, canonical
    requests or texts of these two requests. *)
Theorem accepted_signature_binds_request (g1 g2 : @GovKeys S _) r1 r2 b1 b2 t1 t2 k1 k2 v1 v2 :
  http_ok r1 -> http_ok r2 ->
  verify_bedrock_sigv4 g1 r1 b1 t1 = Some k1 -> verify_bedrock_sigv4 g2 r2 b2 t2 = Some k2 ->
  signing_view r1 = Some v1 -> signing_view r2 = Some v2 ->
  ParsedAuthHeader.signature (SigView.parsed v1) = ParsedAuthHeader.signature (SigView.parsed v2) ->
  collided g1 g2 r1 r2 b1 b2 v1 v2 \/
  HttpRequest.method r1 = HttpRequest.method r2 /\ HttpRequest.path r1 = HttpRequest.path r2 /\
  query_params (HttpRequest.query r1) ≡ₚ query_params (HttpRequest.query r2) /\
  b1 = b2 /\ SigView.amzdate v1 = SigView.amzdate v2 /\ view_scope v1 = view_scope v2 /\
  (is_Some (received r1 "host") /\ received r1 "host" = received r2 "host") /\
  (forall n, In n (split ";" (ParsedAuthHeader.signed_headers (SigView.parsed v1))) ->
    received r1 (to_ascii_lowercase n) = received r2 (to_ascii_lowercase n)).
Proof.
  intros Hok1 Hok2 Ha1 Ha2 Hv1 Hv2 Hsig.
  destruct (verify_bedrock_accepted _ _ _ _ _ Ha1) as (w1 & e1 & ep1 & Hw1 & Hl1 & _ & _ & _ & _ & Hb1 & Hh1 & Hs1).
  destruct (verify_bedrock_accepted _ _ _ _ _ Ha2) as (w2 & e2 & ep2 & Hw2 & Hl2 & _ & _ & _ & _ & Hb2 & _ & Hs2).
  rewrite Hv1 in Hw1. rewrite Hv2 in Hw2. injection Hw1 as <-. injection Hw2 as <-.
  rewrite <- Hs1, <- Hs2 in Hsig. apply hex_encode_inj in Hsig; [|apply hmac_bytes..]. unfold collided.
  destruct (decide (view_text r1 v1 = view_text r2 v2)) as [Htext|Htext]; [|left; right; right; split; [done|by exists e1, e2]].
  destruct (view_texts_clean r1 v1 Hv1) as [Hd1 Hsc1]. destruct (view_texts_clean r2 v2 Hv2) as [Hd2 Hsc2].
  apply string_to_sign_inv in Htext as (Hd & Hsc & Hreq); [|done..].
  destruct (decide (view_request r1 v1 = view_request r2 v2)) as [Hr|Hr]; [|left; right; left; by split].
  apply canonical_request_inv in Hr as (Hm & Hp & Hq & Hh & Hpay);
    [|by apply Hok1|apply encoded_no_nl, uri_encode_path_clean|apply canonical_query_no_nl
     |by apply Hok2|apply encoded_no_nl, uri_encode_path_clean|apply canonical_query_no_nl
     |by apply (view_clean r1)|by apply (view_clean r2)].
  destruct (decide (b1 = b2)) as [Hb|Hb]; [right|left; left; split; [done|congruence]].
  assert (forall n, In n (split ";" (ParsedAuthHeader.signed_headers (SigView.parsed v1))) ->
    is_Some (received r1 (to_ascii_lowercase n)) /\
    received r1 (to_ascii_lowercase n) = received r2 (to_ascii_lowercase n)) as Hrec.
  { intros n Hn. by apply (received_equal r1 r2 v1 v2 n). }
  split; [done|]. split; [by apply uri_encode_path_inj|]. split; [by apply canonical_query_fixes_params|]. split; [done|].
  split; [done|]. split; [done|]. split; [|intros n Hn; by apply Hrec].
  apply existsb_exists in Hh1 as (n & Hin & Hn). unfold eq_ignore_ascii_case in Hn. apply String.eqb_eq in Hn.
  change (to_ascii_lowercase "host") with "host" in Hn. rewrite <- Hn. by apply Hrec.
Qed.

End Bound.
