(* ===== verification/Sigv4Lane.v ===== *)
(** * The lane signer against the verifier: a request the gateway signs for a Bedrock lane is accepted by
    the gateway's own ingress, and the fast path of the signed path is the general one *)
From stdpp Require Import base gmap list strings pretty.
From Stdlib Require Import ZArith Lia Ascii.
From S2P Require Import Prelude Windows EventStream Cost Ledger Signing Keys Sse Sigv4 Sigv4Facts Sigv4Props.
From S2P Require Import KeysProps.
Open Scope Z_scope.
Open Scope rust_scope.

(** ** Trimming leaves a text with solid ends alone *)
Definition solid (b : Z) : bool := (33 <=? b) && (b <? 127).

Lemma trim_prefix_solid fuel ws b l :
  Forall (fun w => match w with x :: _ => solid x = false | [] => False end) ws ->
  solid b = true -> trim_prefix fuel ws (b :: l) = b :: l.
Proof.
  intros Hws Hb. destruct fuel as [|fuel]; [done|]. cbn [trim_prefix].
  assert (omap (fun w => strip_bytes w (b :: l)) ws = []) as ->; [|done].
  induction Hws as [|[|x w] ws Hx Hws IH]; [done|done|]. csimpl. destruct (Z.eqb_spec x b) as [->|]; [congruence|exact IH].
Qed.

Lemma trim_solid a l z : solid a = true -> solid z = true -> trim (a :: l ++ [z]) = a :: l ++ [z].
Proof.
  intros Ha Hz. unfold trim.
  rewrite trim_prefix_solid by (done || by repeat constructor).
  change (a :: l ++ [z]) with ((a :: l) ++ [z]). rewrite rev_app_distr.
  change (rev [z] ++ rev (a :: l)) with (z :: rev (a :: l)).
  rewrite trim_prefix_solid by (done || by repeat constructor).
  change (z :: rev (a :: l)) with (rev [z] ++ rev (a :: l)). by rewrite <- rev_app_distr, rev_involutive.
Qed.

Lemma bytes_of_app a b : bytes_of (a +:+ b) = bytes_of a ++ bytes_of b.
Proof. induction a as [|c a IH]; [done|]. change (code c :: bytes_of (a +:+ b) = code c :: bytes_of a ++ bytes_of b). by rewrite IH. Qed.

(** A text that starts with a solid character and ends with a solid word. *)
Lemma str_trim_solid c s w :
  solid (code c) = true -> w <> "" -> all_chars solid w = true -> str_trim (String c s +:+ w) = String c s +:+ w.
Proof.
  intros Hc Hw Hs. unfold str_trim. rewrite all_chars_bytes in Hs.
  assert (exists l z, bytes_of w = l ++ [z] /\ solid z = true) as (l & z & Hl & Hz).
  { destruct w as [|x w]; [done|]. destruct (exists_last (l := bytes_of (String x w))) as (l & z & Hl); [done|].
    exists l, z. split; [done|]. rewrite Hl, forallb_app in Hs. simpl in Hs. by simpl_bool. }
  assert (bytes_of (String c s +:+ w) = code c :: (bytes_of s ++ l) ++ [z]) as Hb.
  { change (code c :: bytes_of (s +:+ w) = code c :: (bytes_of s ++ l) ++ [z]).
    by rewrite bytes_of_app, Hl, app_assoc. }
  rewrite Hb, trim_solid, <- Hb by done. apply string_of_bytes_of.
Qed.

Lemma str_trim_ends s w :
  w <> "" -> all_chars solid w = true ->
  (exists c s', solid (code c) = true /\ s = String c s' +:+ w) -> str_trim s = s.
Proof. intros Hw Hs (c & s' & Hc & ->). by apply str_trim_solid. Qed.

Lemma str_trim_word w : w <> "" -> all_chars solid w = true -> str_trim w = w.
Proof.
  intros Hn Hw. unfold str_trim. rewrite all_chars_bytes in Hw.
  destruct w as [|x w]; [done|]. destruct w as [|y w].
  - simpl in Hw. simpl_bool. change (bytes_of (String x "")) with [code x]. unfold trim.
    rewrite trim_prefix_solid by (done || by repeat constructor). cbn [rev app length].
    rewrite trim_prefix_solid by (done || by repeat constructor). apply (string_of_bytes_of (String x "")).
  - destruct (exists_last (l := bytes_of (String y w))) as (l & z & Hl); [done|].
    change (bytes_of (String x (String y w))) with (code x :: bytes_of (String y w)) in *.
    rewrite Hl in Hw. simpl in Hw. rewrite forallb_app in Hw. simpl in Hw. simpl_bool.
    rewrite Hl, trim_solid, <- Hl by done. apply (string_of_bytes_of (String x (String y w))).
Qed.

Lemma str_trim_space s : str_trim (String " " s) = str_trim s.
Proof. reflexivity. Qed.

Lemma str_app_cons c a b : String c a +:+ b = String c (a +:+ b).
Proof. reflexivity. Qed.

(** ** The printed header parses *)
Definition token_char (b : Z) : bool := ascii_alphabetic b || ascii_digit b || (b =? 45).
Definition list_char (b : Z) : bool := token_char b || (b =? 59).

Lemma token_solid s : all_chars token_char s = true -> all_chars solid s = true.
Proof.
  apply all_chars_mono. intros b. unfold token_char, ascii_alphabetic, ascii_upper, ascii_lower, ascii_digit, solid.
  rewrite !orb_true_iff, !andb_true_iff, !Z.leb_le, Z.ltb_lt, Z.eqb_eq. lia.
Qed.

Lemma list_solid s : all_chars list_char s = true -> all_chars solid s = true.
Proof.
  apply all_chars_mono. intros b.
  unfold list_char, token_char, ascii_alphabetic, ascii_upper, ascii_lower, ascii_digit, solid.
  rewrite !orb_true_iff, !andb_true_iff, !Z.leb_le, Z.ltb_lt, !Z.eqb_eq. lia.
Qed.

Definition print_authorization (a : ParsedAuthHeader.t) : string :=
  SIGV4_ALGORITHM +:+ " Credential=" +:+ ParsedAuthHeader.access_key_id a +:+ "/" +:+
  ParsedAuthHeader.datestamp a +:+ "/" +:+ ParsedAuthHeader.region a +:+ "/" +:+ ParsedAuthHeader.service a +:+
  "/" +:+ SIGV4_TERMINATION +:+ ", SignedHeaders=" +:+ ParsedAuthHeader.signed_headers a +:+
  ", Signature=" +:+ ParsedAuthHeader.signature a.

Definition token_word (s : string) : Prop := s <> "" /\ all_chars token_char s = true.

Definition printable (a : ParsedAuthHeader.t) : Prop :=
  token_word (ParsedAuthHeader.access_key_id a) /\ token_word (ParsedAuthHeader.datestamp a) /\
  token_word (ParsedAuthHeader.region a) /\ token_word (ParsedAuthHeader.service a) /\
  (ParsedAuthHeader.signed_headers a <> "" /\ all_chars list_char (ParsedAuthHeader.signed_headers a) = true) /\
  token_word (ParsedAuthHeader.signature a).

(** One section of the header. *)
Lemma read_section k v sections acc :
  k <> "" -> all_chars token_char k = true -> v <> "" -> all_chars solid v = true ->
  read_sections ((k +:+ String "=" v) :: sections) acc =
  read_sections sections
    (let '(c, h, s) := acc in
     if String.eqb k "Credential" then (Some v, h, s)
     else if String.eqb k "SignedHeaders" then (c, Some v, s)
     else if String.eqb k "Signature" then (c, h, Some v) else acc).
Proof.
  intros Hk Hkt Hv Hvs. cbn [read_sections].
  rewrite (str_trim_word (k +:+ _)); cycle 1.
  - by destruct k.
  - rewrite all_chars_app. simpl. by rewrite token_solid, Hvs.
  - rewrite split_once_app by by apply (all_chars_not_in token_char).
    destruct acc as [[c h] s]. by rewrite (str_trim_word k), (str_trim_word v) by (done || by apply token_solid).
Qed.

Lemma read_section_space k v sections acc :
  read_sections ((String " " (k +:+ String "=" v)) :: sections) acc =
  read_sections ((k +:+ String "=" v) :: sections) acc.
Proof. reflexivity. Qed.

Lemma nonempty_eqb s : s <> "" -> String.eqb s "" = false.
Proof. apply String.eqb_neq. Qed.

Lemma parse_print_authorization a : printable a -> parse_authorization_header (print_authorization a) = inr a.
Proof.
  destruct a as [akid ds region service names sig].
  intros ([Ha Hac] & [Hd Hdc] & [Hr Hrc] & [Hs Hsc] & [Hn Hnc] & [Hg Hgc]). cbn in *.
  set (cred := akid +:+ String "/" (ds +:+ String "/" (region +:+ String "/" (service +:+ String "/" SIGV4_TERMINATION)))).
  assert (print_authorization (ParsedAuthHeader.mk akid ds region service names sig) =
    SIGV4_ALGORITHM +:+ String " " (("Credential" +:+ String "=" cred) +:+ String ","
      (String " " ("SignedHeaders" +:+ String "=" names) +:+ String "," (String " " ("Signature" +:+ String "=" sig))))) as Hprint.
  { unfold print_authorization, cred. cbn [ParsedAuthHeader.access_key_id ParsedAuthHeader.datestamp
      ParsedAuthHeader.region ParsedAuthHeader.service ParsedAuthHeader.signed_headers ParsedAuthHeader.signature].
    change (String " " ("SignedHeaders" +:+ String "=" names)) with (" SignedHeaders=" +:+ names).
    change (String " " ("Signature" +:+ String "=" sig)) with (" Signature=" +:+ sig).
    change ("Credential" +:+ String "=" _) with ("Credential=" +:+ cred). unfold cred.
    repeat (rewrite str_app_assoc || rewrite str_app_cons). reflexivity. }
  assert (all_chars solid cred = true) as Hcs.
  { unfold cred. rewrite !all_chars_app. simpl. rewrite !all_chars_app. simpl. rewrite !all_chars_app. simpl.
    rewrite !all_chars_app. simpl. by rewrite !token_solid. }
  assert (cred <> "") as Hcn by (unfold cred; by destruct akid).
  assert (contains_char "," cred = false) as Hcc.
  { unfold cred. rewrite !contains_app. simpl. rewrite !contains_app. simpl. rewrite !contains_app. simpl.
    rewrite !contains_app. simpl. by rewrite !(all_chars_not_in token_char). }
  unfold parse_authorization_header. rewrite Hprint.
  assert (forall r, SIGV4_ALGORITHM +:+ String " " r = String "A" ("WS4-HMAC-SHA256 " +:+ r)) as Halg by done.
  set (first := "Credential" +:+ String "=" cred). set (second := String " " ("SignedHeaders" +:+ String "=" names)).
  rewrite (str_trim_ends _ sig); [|done|by apply token_solid|]; cycle 1.
  { exists "A"%char, ("WS4-HMAC-SHA256 " +:+ first +:+ String "," (second +:+ ", Signature=")). split; [done|].
    rewrite Halg. unfold second. repeat (rewrite str_app_assoc || rewrite str_app_cons). reflexivity. }
  rewrite split_once_app by done. cbn [negb String.eqb]. rewrite String.eqb_refl. cbn [negb].
  rewrite split_app by (unfold first; by rewrite contains_app, (proj2 (orb_false_iff _ _))).
  rewrite split_app by (unfold second; simpl; by apply (all_chars_not_in list_char)).
  rewrite split_one by (simpl; by apply (all_chars_not_in token_char)).
  unfold first, second. rewrite (read_section "Credential") by done.
  rewrite read_section_space, (read_section "SignedHeaders") by (done || by apply list_solid).
  rewrite read_section_space, (read_section "Signature") by (done || by apply token_solid). cbn.
  rewrite !nonempty_eqb by done. cbn. unfold cred.
  rewrite !split_app by by apply (all_chars_not_in token_char). cbn. by rewrite !nonempty_eqb by done.
Qed.

(** ** The region derived from a host is a token *)
Lemma all_chars_split p c s :
  p (code c) = true -> Forall (fun x => all_chars p x = true) (split c s) -> all_chars p s = true.
Proof.
  intros Hc. induction s as [|a s IH]; [done|]. cbn [split]. destruct (Ascii.eqb_spec a c) as [->|Hne].
  - intros Hf. apply Forall_cons_1 in Hf as [_ Hf]. simpl. by rewrite Hc, IH.
  - destruct (split c s) as [|h t] eqn:E; [by apply split_nil in E|]. intros Hf.
    apply Forall_cons_1 in Hf as [Hh Ht]. simpl in Hh. simpl_bool. simpl. rewrite H. apply IH. by constructor.
Qed.

Lemma looks_like_region_token label : looks_like_region label = true -> token_word label.
Proof.
  unfold looks_like_region. intros Hl. destruct (Nat.ltb_spec (length (split "-" label)) 3) as [|H3]; [done|].
  cbn [orb] in Hl. destruct (existsb _ _); [done|].
  split; [intros ->; simpl in H3; lia|]. apply (all_chars_split _ "-"); [done|].
  destruct (rev (split "-" label)) as [|last leading] eqn:E; [done|]. simpl_bool.
  apply (f_equal (@rev string)) in E. rewrite rev_involutive in E. rewrite E. simpl.
  apply Forall_app. split; [|constructor; [|done]].
  - apply Forall_forall. intros x Hx. rewrite list_elem_of_In, <- in_rev in Hx. rewrite forallb_forall in H0.
    apply H0 in Hx. revert Hx. apply all_chars_mono. intros b Hb. unfold token_char. by rewrite Hb.
  - revert H. apply all_chars_mono. intros b Hb. unfold token_char. by rewrite Hb, orb_true_r.
Qed.

Lemma region_token host : token_word (default "us-east-1" (derive_sigv4_region host)).
Proof.
  unfold derive_sigv4_region. induction (split "." host) as [|l [|n rest] IH]; [done|done|].
  cbn [region_after]. destruct (bedrock_label l); [|exact IH]. cbn [andb].
  destruct (looks_like_region n) eqn:E; [|exact IH]. by apply looks_like_region_token.
Qed.

(** ** Paths *)
Lemma canonical_is_encoded_wire url :
  contains_char "?" url = false ->
  (sign_and_wire_path_parts url).2 = uri_encode_path (sign_and_wire_path_parts url).1.
Proof.
  intros Hq. unfold sign_and_wire_path_parts.
  destruct (split_once "?" url) as [[a b]|] eqn:E.
  { apply split_once_Some in E as [-> _]. rewrite contains_app in Hq. simpl in Hq. by rewrite orb_true_r in Hq. }
  destruct (path_is_sigv4_unreserved url) eqn:Hu; simpl; [|done]. symmetry. by apply encode_keeps.
Qed.

(** The fast path of [sign_and_wire_path_parts] changes no byte: on every input the wire path is the
    path encoded once and the signed path the path encoded twice, the query riding along unencoded. *)
Theorem sign_and_wire_path_is_double_encoding url :
  sign_and_wire_path_parts url =
  let '(path, query) := match split_once "?" url with Some (p, q) => (p, Some q) | None => (url, None) end in
  (with_query (uri_encode_path path) query, uri_encode_path (uri_encode_path path)).
Proof.
  unfold sign_and_wire_path_parts. destruct (split_once "?" url) as [[p q]|];
    (destruct (path_is_sigv4_unreserved _) eqn:Hu; [|done]);
    by rewrite !(encode_keeps path_char) by exact Hu.
Qed.

(** ** What the ingress gathers from a lane's request *)
Definition lane_headers (host : string) (token : option string) (hash amzdate : string) : list (string * string) :=
  [("content-type", "application/json"); ("host", host); (X_AMZ_CONTENT_SHA256, hash); (X_AMZ_DATE, amzdate)] ++
  match token with Some t => [(X_AMZ_SECURITY_TOKEN, t)] | None => [] end.

Definition lane_names (token : option string) : string :=
  match token with
  | Some _ => "content-type;host;x-amz-content-sha256;x-amz-date;x-amz-security-token"
  | None => "content-type;host;x-amz-content-sha256;x-amz-date"
  end.

Definition lane_signed (token : option string) : list string :=
  ["content-type"; "host"; X_AMZ_CONTENT_SHA256; X_AMZ_DATE] ++
  match token with Some _ => [X_AMZ_SECURITY_TOKEN] | None => [] end.

Definition lane_request (key : string) (ctx : SigningContext.t) `{SigCrypto} (path : string)
    (extra : list (string * string)) : HttpRequest.t :=
  HttpRequest.mk "POST" path None
    (sigv4_sign_headers key ctx ++
     [("content-type", "application/json"); ("host", SigningContext.host ctx)] ++ extra).

Section LaneFacts.
Context `{SigCrypto}.

Lemma lane_signed_names host token hash amzdate :
  signed_names (canonical_headers (lane_headers host token hash amzdate)) = lane_names token.
Proof.
  unfold canonical_headers, lane_headers. destruct token; cbn [app fmap list_fmap fst snd];
    rewrite !to_lowercase_ascii by reflexivity; reflexivity.
Qed.

(** The filter of [gather_signed] on one header. *)
Definition keep_signed (names : list string) (kv : string * string) : option (string * string) :=
  let lname := to_ascii_lowercase kv.1 in
  if existsb (String.eqb lname) names then (fun v => (lname, v)) <$> to_str kv.2 else None.

Lemma omap_keep names k v l :
  to_ascii_lowercase k = k -> existsb (String.eqb k) names = true -> all_chars visible_ascii v = true ->
  omap (keep_signed names) ((k, v) :: l) = (k, v) :: omap (keep_signed names) l.
Proof.
  intros Hl Hk Hv. change (match keep_signed names (k, v) with Some y => y :: omap (keep_signed names) l
    | None => omap (keep_signed names) l end = (k, v) :: omap (keep_signed names) l).
  unfold keep_signed, to_str. cbn [fst snd]. by rewrite Hl, Hk, Hv.
Qed.

Lemma omap_drop names k v l :
  existsb (String.eqb (to_ascii_lowercase k)) names = false ->
  omap (keep_signed names) ((k, v) :: l) = omap (keep_signed names) l.
Proof.
  intros Hk. change (match keep_signed names (k, v) with Some y => y :: omap (keep_signed names) l
    | None => omap (keep_signed names) l end = omap (keep_signed names) l).
  unfold keep_signed. cbn [fst]. by rewrite Hk.
Qed.

Lemma lane_gather a auth host token hash amzdate path extra method query :
  ParsedAuthHeader.signed_headers a = lane_names token ->
  all_chars visible_ascii host = true -> all_chars visible_ascii hash = true ->
  all_chars visible_ascii amzdate = true ->
  match token with Some t => all_chars visible_ascii t = true | None => True end ->
  exists rest,
    gather_signed a
      (HttpRequest.mk method path query
        (((AUTHORIZATION, auth) :: (X_AMZ_DATE, amzdate) :: (X_AMZ_CONTENT_SHA256, hash) ::
          match token with Some t => [(X_AMZ_SECURITY_TOKEN, t)] | None => [] end) ++
         [("content-type", "application/json"); ("host", host)] ++ extra)) =
    ((X_AMZ_DATE, amzdate) :: (X_AMZ_CONTENT_SHA256, hash) ::
       match token with Some t => [(X_AMZ_SECURITY_TOKEN, t)] | None => [] end) ++
    [("content-type", "application/json"); ("host", host)] ++ rest.
Proof.
  intros Hn Hh Hp Hd Ht. exists (omap (keep_signed (lane_signed token)) extra).
  assert (forall r, gather_signed a r = omap (keep_signed (lane_signed token)) (HttpRequest.headers r)) as ->
    by (unfold gather_signed; rewrite Hn; by destruct token).
  cbn [HttpRequest.headers]. destruct token as [t|]; cbn [app lane_signed].
  all: rewrite omap_drop by reflexivity; rewrite !omap_keep by (done || reflexivity); reflexivity.
Qed.

(** *** The digest as a header value *)
Lemma hex_token s : all_chars is_hex s = true -> all_chars token_char s = true.
Proof.
  apply all_chars_mono. intros b.
  unfold is_hex, token_char, ascii_alphabetic, ascii_upper, ascii_lower, ascii_digit.
  rewrite !orb_true_iff, !andb_true_iff, !Z.leb_le, Z.eqb_eq. lia.
Qed.

Lemma solid_visible s : all_chars solid s = true -> all_chars visible_ascii s = true.
Proof.
  apply all_chars_mono. intros b. unfold solid, visible_ascii.
  rewrite !orb_true_iff, !andb_true_iff, !Z.leb_le, !Z.ltb_lt, Z.eqb_eq. lia.
Qed.

Lemma visible_header_ok s : all_chars visible_ascii s = true -> header_ok s = true.
Proof.
  apply all_chars_mono. intros b. unfold visible_ascii.
  rewrite !orb_true_iff, !andb_true_iff, negb_true_iff, Z.leb_le, Z.ltb_lt, Z.eqb_eq, Z.eqb_neq. lia.
Qed.

Lemma hex_lower s : all_chars is_hex s = true -> to_ascii_lowercase s = s.
Proof.
  induction s as [|c s IH]; [done|]. rewrite to_ascii_lowercase_cons. simpl. intros Hs. simpl_bool.
  rewrite IH by done. f_equal. unfold lower_char. destruct (ascii_upper (code c)) eqn:E; [|done].
  unfold is_hex, ascii_digit, ascii_upper in *. apply orb_true_iff in H1 as [H1|H1]; simpl_bool; lia.
Qed.

Lemma lowercase_length s : String.length (to_ascii_lowercase s) = String.length s.
Proof. induction s as [|c s IH]; [done|]. rewrite to_ascii_lowercase_cons. simpl. by rewrite IH. Qed.

Lemma digest_not_unsigned body : eq_ignore_ascii_case (sha256_hex body) UNSIGNED_PAYLOAD = false.
Proof.
  unfold eq_ignore_ascii_case. apply String.eqb_neq. intros He. apply (f_equal String.length) in He.
  rewrite !lowercase_length, sha256_hex_length in He. discriminate.
Qed.

Lemma print_visible a : printable a -> all_chars visible_ascii (print_authorization a) = true.
Proof.
  intros ([_ Ha] & [_ Hd] & [_ Hr] & [_ Hs] & [_ Hn] & [_ Hg]). unfold print_authorization.
  apply token_solid, solid_visible in Ha, Hd, Hr, Hs, Hg. apply list_solid, solid_visible in Hn.
  rewrite !all_chars_app, Ha, Hd, Hr, Hs, Hn, Hg. reflexivity.
Qed.

Lemma digit_token s : all_chars ascii_digit s = true -> all_chars token_char s = true.
Proof. apply all_chars_mono. intros b Hb. unfold token_char. by rewrite Hb, orb_true_r. Qed.

Lemma amz_visible s :
  all_chars (fun b => ascii_digit b || ascii_upper b) s = true -> all_chars visible_ascii s = true.
Proof.
  intros Hs. apply solid_visible, token_solid. revert Hs. apply all_chars_mono. intros b Hb.
  unfold token_char, ascii_alphabetic. rewrite !orb_true_iff in *. tauto.
Qed.

(** *** The headers a lane sends *)
Definition lane_signature (secret region uri host amzdate datestamp hash : string) (token : option string) : string :=
  (sign_v4 secret region "bedrock" "POST" uri "" (lane_headers host token hash amzdate) hash amzdate datestamp).1.

Lemma lane_signature_token secret region uri host amzdate datestamp hash token :
  token_word (lane_signature secret region uri host amzdate datestamp hash token).
Proof.
  unfold lane_signature, sign_v4. cbn [fst]. split; [|apply hex_token, hex_encode_digits].
  intros He. apply (f_equal String.length) in He. rewrite hex_encode_length, hmac_length in He. discriminate.
Qed.

Definition lane_auth (access secret : string) (token : option string) (ctx : SigningContext.t) : ParsedAuthHeader.t :=
  let '(amzdate, datestamp) := format_amz_time (SigningContext.timestamp_epoch ctx) in
  let region := default "us-east-1" (derive_sigv4_region (SigningContext.host ctx)) in
  ParsedAuthHeader.mk access datestamp region "bedrock" (lane_names token)
    (lane_signature secret region (SigningContext.canonical_uri ctx) (SigningContext.host ctx) amzdate datestamp
       (sha256_hex (SigningContext.body ctx)) token).

Lemma lane_auth_printable access secret token ctx :
  token_word access -> 0 <= SigningContext.timestamp_epoch ctx < YEAR_10000 ->
  printable (lane_auth access secret token ctx).
Proof.
  intros Ha He. pose proof (format_amz_time_spec _ He) as Ht. unfold lane_auth.
  destruct (format_amz_time _) as [amz ds]. destruct Ht as (_ & _ & _ & Hn & _ & Hd).
  split_and!; cbn; try done; [by split; [|apply digit_token]| |by destruct token..|].
  - apply region_token.
  - apply lane_signature_token.
Qed.

Lemma sigv4_sign_headers_spec key ctx access secret token :
  split_lane_key key = Some (access, secret, token) -> token_word access ->
  0 <= SigningContext.timestamp_epoch ctx < YEAR_10000 ->
  match token with Some t => all_chars visible_ascii t = true | None => True end ->
  sigv4_sign_headers key ctx =
  (AUTHORIZATION, print_authorization (lane_auth access secret token ctx)) ::
  (X_AMZ_DATE, (format_amz_time (SigningContext.timestamp_epoch ctx)).1) ::
  (X_AMZ_CONTENT_SHA256, sha256_hex (SigningContext.body ctx)) ::
  match token with Some t => [(X_AMZ_SECURITY_TOKEN, t)] | None => [] end.
Proof.
  intros Hk Ha He Ht. pose proof (lane_auth_printable access secret token ctx Ha He) as Hp.
  pose proof (format_amz_time_spec _ He) as Hf. unfold sigv4_sign_headers. rewrite Hk.
  unfold lane_auth in *. destruct (format_amz_time _) as [amz ds]. destruct Hf as (_ & _ & _ & _ & Hamz & _).
  assert (match token with Some t => header_ok t | None => true end = true) as ->
    by (destruct token; [by apply visible_header_ok|done]).
  cbn [negb]. set (region := default _ _) in *. set (hash := sha256_hex _) in *.
  change ([("content-type", "application/json"); ("host", SigningContext.host ctx); (X_AMZ_CONTENT_SHA256, hash);
    (X_AMZ_DATE, amz)] ++ _) with (lane_headers (SigningContext.host ctx) token hash amz).
  rewrite (surjective_pairing (sign_v4 _ _ _ _ _ _ _ _ _ _)). cbn [fst snd].
  change (sign_v4 secret region "bedrock" "POST" _ "" _ hash amz ds).1
    with (lane_signature secret region (SigningContext.canonical_uri ctx) (SigningContext.host ctx) amz ds hash token).
  change (sign_v4 secret region "bedrock" "POST" _ "" _ hash amz ds).2
    with (signed_names (canonical_headers (lane_headers (SigningContext.host ctx) token hash amz))).
  rewrite lane_signed_names.
  apply print_visible, visible_header_ok in Hp. unfold print_authorization in *.
  cbn [ParsedAuthHeader.access_key_id ParsedAuthHeader.datestamp ParsedAuthHeader.region ParsedAuthHeader.service
    ParsedAuthHeader.signed_headers ParsedAuthHeader.signature] in *.
  assert (header_ok amz = true) as Hamz' by by apply visible_header_ok, amz_visible.
  assert (header_ok hash = true) as Hhash
    by (apply visible_header_ok, solid_visible, token_solid, hex_token, sha256_hex_digits).
  rewrite Hamz', Hhash, Hp. by destruct token.
Qed.

End LaneFacts.

Section LaneAccepted.
Context {S : Type} `{KeyStore S} `{TokenCrypto} `{SigCrypto}.

(** The recomputed signature is the one presented. *)
Lemma lane_verify access secret token ctx path rest now :
  0 <= SigningContext.timestamp_epoch ctx < YEAR_10000 ->
  Z.abs (SigningContext.timestamp_epoch ctx - now) <= CLOCK_SKEW_SECS ->
  SigningContext.canonical_uri ctx = uri_encode_path path ->
  let amzdate := (format_amz_time (SigningContext.timestamp_epoch ctx)).1 in
  let hash := sha256_hex (SigningContext.body ctx) in
  verify_inbound_sigv4 (lane_auth access secret token ctx)
    (InboundRequest.mk "POST" (uri_encode_path path) "" (((X_AMZ_DATE, amzdate) :: (X_AMZ_CONTENT_SHA256, hash) ::
       match token with Some t => [(X_AMZ_SECURITY_TOKEN, t)] | None => [] end) ++
       [("content-type", "application/json"); ("host", SigningContext.host ctx)] ++ rest) hash amzdate)
    secret now = inr tt.
Proof.
  intros He Hnow Huri. pose proof (format_amz_time_spec _ He) as Hf. unfold lane_auth.
  destruct (format_amz_time _) as [amz ds]. destruct Hf as (Hparse & Hsub & Hlen & _). cbn [fst].
  unfold verify_inbound_sigv4. cbn [InboundRequest.amzdate InboundRequest.headers InboundRequest.method
    InboundRequest.canonical_uri InboundRequest.canonical_querystring InboundRequest.payload_hash
    ParsedAuthHeader.datestamp ParsedAuthHeader.region ParsedAuthHeader.service ParsedAuthHeader.signed_headers
    ParsedAuthHeader.signature].
  rewrite Hparse, Hsub, Hlen, String.eqb_refl. destruct (Z.ltb_spec CLOCK_SKEW_SECS
    (Z.abs (SigningContext.timestamp_epoch ctx - now))); [lia|]. cbn [Nat.ltb Nat.leb negb orb].
  set (hash := sha256_hex _). set (region := default _ _).
  assert (existsb (fun h => eq_ignore_ascii_case h "host") (split ";" (lane_names token)) = true) as ->
    by (destruct token; reflexivity). cbn [negb].
  assert (select_headers _ (split ";" (lane_names token)) =
    Some (lane_headers (SigningContext.host ctx) token hash amz)) as -> by (destruct token; reflexivity).
  rewrite (surjective_pairing (sign_v4 _ _ _ _ _ _ _ _ _ _)), <- Huri.
  fold (lane_signature secret region (SigningContext.canonical_uri ctx) (SigningContext.host ctx) amz ds hash token).
  change (sign_v4 secret region "bedrock" "POST" _ "" _ hash amz ds).2
    with (signed_names (canonical_headers (lane_headers (SigningContext.host ctx) token hash amz))).
  rewrite lane_signed_names, !(proj2 (constant_time_eq_spec _ _)) by done. done.
Qed.

(** What the gateway signs, the gateway accepts: a request signed for a Bedrock lane with a
    credential this gateway issued (access key, secret and optional session token) authenticates at its
    own ingress to the key of that credential, for every body and every path, whatever headers follow the
    signed ones, as long as the key is enabled and the clocks are within five minutes. *)
Theorem lane_request_is_accepted (gov : @GovKeys S _) key ctx access secret token vkey url extra now :
  split_lane_key key = Some (access, secret, token) -> token_word access ->
  match token with Some t => all_chars visible_ascii t = true | None => True end ->
  all_chars visible_ascii (SigningContext.host ctx) = true ->
  0 <= SigningContext.timestamp_epoch ctx < YEAR_10000 ->
  Z.abs (SigningContext.timestamp_epoch ctx - now) <= CLOCK_SKEW_SECS ->
  contains_char "?" url = false -> SigningContext.canonical_uri ctx = (sign_and_wire_path_parts url).2 ->
  lookup_akid gov access = Some (AwsKeyEntry.mk vkey secret) -> VirtualKey.enabled vkey = true ->
  verify_bedrock_sigv4 gov (lane_request key ctx (sign_and_wire_path_parts url).1 extra) (SigningContext.body ctx) now
  = Some vkey.
Proof.
  intros Hk Ha Ht Hh He Hnow Hq Huri Hl Hen. rewrite (canonical_is_encoded_wire url Hq) in Huri.
  pose proof (lane_auth_printable access secret token ctx Ha He) as Hp.
  unfold verify_bedrock_sigv4, lane_request. rewrite (sigv4_sign_headers_spec key ctx access secret token) by done.
  unfold authorization_of. cbn [HttpRequest.headers app find fst]. rewrite String.eqb_refl.
  unfold to_str. rewrite (print_visible _ Hp). cbn [from_option id].
  rewrite parse_print_authorization by done.
  pose proof (format_amz_time_spec _ He) as Hf.
  assert (all_chars visible_ascii (format_amz_time (SigningContext.timestamp_epoch ctx)).1 = true) as Hamz.
  { destruct (format_amz_time _). destruct Hf as (_ & _ & _ & _ & Hamz & _). by apply amz_visible. }
  assert (all_chars is_hex (sha256_hex (SigningContext.body ctx)) = true) as Hhex by apply sha256_hex_digits.
  destruct (lane_gather (lane_auth access secret token ctx) (print_authorization (lane_auth access secret token ctx))
    (SigningContext.host ctx) token (sha256_hex (SigningContext.body ctx))
    (format_amz_time (SigningContext.timestamp_epoch ctx)).1 (sign_and_wire_path_parts url).1 extra "POST" None)
    as [rest Hg]; [by unfold lane_auth; destruct (format_amz_time _)|done
    |by apply solid_visible, token_solid, hex_token|done|done|].
  cbn [app] in Hg |- *. rewrite Hg.
  change (header_value X_AMZ_CONTENT_SHA256 _) with (Some (sha256_hex (SigningContext.body ctx))).
  change (header_value X_AMZ_DATE _) with (Some (format_amz_time (SigningContext.timestamp_epoch ctx)).1).
  cbn [HttpRequest.method HttpRequest.path HttpRequest.query canonical_query_string].
  rewrite digest_not_unsigned, hex_lower, (proj2 (constant_time_eq_spec _ _)) by done. cbn [negb].
  assert (ParsedAuthHeader.access_key_id (lane_auth access secret token ctx) = access) as ->
    by (unfold lane_auth; by destruct (format_amz_time _)).
  rewrite Hl. cbn [AwsKeyEntry.secret_access_key AwsKeyEntry.key].
  pose proof (lane_verify access secret token ctx _ rest now He Hnow Huri) as Hv. cbn [app] in Hv.
  rewrite Hv. by rewrite Hen.
Qed.
End LaneAccepted.

(** ** Request signing on concrete inputs

    A digest and a MAC that satisfy the laws of the interfaces (a polynomial modulo 2^256, written in
    hexadecimal), one issued credential, and the theorems applied to it. *)

Module SigDemo.
Definition hex_digit (n : Z) : ascii :=
  ascii_of_N (Z.to_N (if n <? 10 then 48 + n else 87 + n)).
Fixpoint hex (l : list Z) : string :=
  match l with
  | [] => ""
  | b :: l => String (hex_digit (b / 16 mod 16)) (String (hex_digit (b mod 16)) (hex l))
  end.

Fixpoint poly (acc : Z) (s : string) : Z :=
  match s with EmptyString => acc | String c s => poly ((acc * 257 + code c + 1) mod 2 ^ 256) s end.
Fixpoint base256 (n : nat) (z : Z) : list Z :=
  match n with O => [] | S n => z mod 256 :: base256 n (z / 256) end.
Definition mac (k d : string) : list Z := base256 32 (poly 1 (k +:+ String "000" d)).

Lemma hex_digit_code n : 0 <= n < 16 -> code (hex_digit n) = if n <? 10 then 48 + n else 87 + n.
Proof. intros Hn. unfold hex_digit, code. rewrite N_ascii_embedding; destruct (n <? 10); lia. Qed.

Lemma hex_digits l : all_chars is_hex (hex l) = true.
Proof.
  induction l as [|b l IH]; [done|]. cbn [hex all_chars]. rewrite IH.
  rewrite !hex_digit_code by (apply Z.mod_pos_bound; lia).
  pose proof (Z.mod_pos_bound (b / 16) 16). pose proof (Z.mod_pos_bound b 16).
  unfold is_hex, ascii_digit. destruct (Z.ltb_spec (b / 16 mod 16) 10), (Z.ltb_spec (b mod 16) 10);
  rewrite !andb_true_iff, !orb_true_iff, !andb_true_iff, !Z.leb_le; lia.
Qed.

Lemma hex_length l : String.length (hex l) = (2 * length l)%nat.
Proof. induction l as [|b l IH]; [done|]. cbn [hex String.length length]. rewrite IH. lia. Qed.

Lemma hex_digit_inj a b : 0 <= a < 16 -> 0 <= b < 16 -> hex_digit a = hex_digit b -> a = b.
Proof.
  intros Ha Hb He. apply (f_equal code) in He. rewrite !hex_digit_code in He by done.
  destruct (Z.ltb_spec a 10), (Z.ltb_spec b 10); lia.
Qed.

Lemma hex_inj l1 l2 :
  Forall (fun b => 0 <= b < 256) l1 -> Forall (fun b => 0 <= b < 256) l2 -> hex l1 = hex l2 -> l1 = l2.
Proof.
  intros H1. revert l2. induction H1 as [|a l1 Ha H1 IH]; intros l2 H2; destruct H2 as [|b l2 Hb H2]; try done.
  cbn [hex]. intros [= Hhi Hlo He]. apply IH in He as ->; [|done]. f_equal.
  apply hex_digit_inj in Hhi, Hlo; try (apply Z.mod_pos_bound; lia).
  Z.to_euclidean_division_equations. lia.
Qed.

Lemma base256_length n z : length (base256 n z) = n.
Proof. revert z. induction n as [|n IH]; intros z; [done|]. cbn [base256 length]. by rewrite IH. Qed.

Lemma base256_range n z : Forall (fun b => 0 <= b < 256) (base256 n z).
Proof. revert z. induction n as [|n IH]; intros z; constructor; [apply Z.mod_pos_bound; lia|apply IH]. Qed.

#[export] Instance sig_digest : Digest.
Proof.
  refine {| sha256_hex s := hex (base256 32 (poly 1 s)); hex_encode := hex |}.
  intros s. by rewrite hex_length, base256_length.
Defined.

#[export] Instance sig_crypto : SigCrypto.
Proof.
  refine {| hmac_sha256 := mac; to_lowercase := to_ascii_lowercase |}.
  - intros. apply base256_length.
  - intros. apply hex_digits.
  - intros. apply hex_digits.
  - intros. apply hex_length.
  - intros. apply base256_range.
  - apply hex_inj.
  - done.
Defined.

(** A gateway that issued one credential. *)
Definition vkey : VirtualKey.t := VirtualKey.mk "vk_1" "h" "ci" None true 0 None [].
Definition gov : @GovKeys FaultyDb.t KeysProps.Demo.crypto :=
  mk_gov (FaultyDb.mk MemoryDb.new []) ∅ {["AKIDEXAMPLE" := AwsKeyEntry.mk vkey "wJalr/EXAMPLE"]}
    None None None ∅.

Definition lane_key : string := "AKIDEXAMPLE:wJalr/EXAMPLE".
Definition url : string := "/model/anthropic.claude:0/converse".
Definition ctx : SigningContext.t :=
  SigningContext.mk "bedrock-runtime.us-gov-west-1.amazonaws.com" "/model/anthropic.claude%253A0/converse"
    "{}" 1440938160.
Definition request (agent : string) : HttpRequest.t :=
  lane_request lane_key ctx (sign_and_wire_path_parts url).1 [("user-agent", agent)].
End SigDemo.
Import SigDemo.

(** The time stamp of the worked example, and the region of a partition with four parts. *)
Example format_example : format_amz_time 1440938160 = ("20150830T123600Z", "20150830").
Proof. reflexivity. Qed.

Example region_example : derive_sigv4_region (SigningContext.host ctx) = Some "us-gov-west-1".
Proof. reflexivity. Qed.

Lemma lane_request_is_accepted_witness :
  verify_bedrock_sigv4 gov (request "curl") "{}" 1440938400 = Some vkey.
Proof.
  refine (lane_request_is_accepted gov lane_key ctx "AKIDEXAMPLE" "wJalr/EXAMPLE" None vkey url
    [("user-agent", "curl")] 1440938400 _ _ I _ _ _ _ _ _ _).
  - reflexivity.
  - split; [discriminate|reflexivity].
  - reflexivity.
  - vm_compute. split; [discriminate|reflexivity].
  - vm_compute. discriminate.
  - reflexivity.
  - reflexivity.
  - reflexivity.
  - reflexivity.
Defined.

(** The same signature with another agent, accepted at another time. *)
Lemma demo_http_ok agent : http_ok (request agent).
Proof. split; [reflexivity|]. vm_compute. repeat constructor. Qed.

Lemma demo_request agent v : view_request (request agent) v = view_request (request "wget") v.
Proof.
  unfold view_request, request, lane_request. cbn [HttpRequest.method HttpRequest.path HttpRequest.query].
  reflexivity.
Qed.

Lemma demo_text agent v : view_text (request agent) v = view_text (request "wget") v.
Proof. unfold view_text. by rewrite demo_request. Qed.

Lemma accepted_signature_binds_request_witness :
  received (request "curl") "host" = received (request "wget") "host" /\
  received (request "curl") "host" = Some (SigningContext.host ctx) /\
  received (request "curl") "user-agent" <> received (request "wget") "user-agent".
Proof.
  assert (exists v, signing_view (request "curl") = Some v /\ signing_view (request "wget") = Some v)
    as (v & H1 & H2) by (vm_compute; eexists; split; reflexivity).
  destruct (accepted_signature_binds_request gov gov (request "curl") (request "wget") "{}" "{}" 1440938400 1440938000
    vkey vkey v v) as [Hno|(_ & _ & _ & _ & _ & _ & [_ Hhost] & _)].
  - apply demo_http_ok.
  - apply demo_http_ok.
  - vm_compute; reflexivity.
  - vm_compute; reflexivity.
  - exact H1.
  - exact H2.
  - reflexivity.
  - destruct Hno as [[Hno _]|[[Hno _]|[Hno _]]]; exfalso;
      [exact (Hno eq_refl)|exact (Hno (demo_request "curl" v))|exact (Hno (demo_text "curl" v))].
  - split; [exact Hhost|]. split; [vm_compute; reflexivity|vm_compute; discriminate].
Defined.

(** The verifier encodes the query as it came: a percent sign is encoded again, where the signature
    specification encodes the decoded parameters once ([b%20c] would stay). *)
Example query_is_encoded_again : canonical_query_string (Some "a=b%20c") = "a=b%2520c".
Proof. reflexivity. Qed.
