(* ===== verification/AuthCache.v ===== *)
(** * Authentication modules and the credential cache (crates/busbar/src/auth_cache.rs, auth/mod.rs)

    The cache of module verdicts ([CredentialCache]), the chain of modules that consults it
    ([run_chain_cached]), and its theorems: where a cached verdict comes from and how long it lives,
    the bound on the cache, and that caching is transparent.  The map is a [gmap] from (module name,
    digest of the credential); the mutex makes each operation one step. *)
From stdpp Require Import base gmap list strings.
From Stdlib Require Import ZArith Lia Ascii.
From S2P Require Import Prelude Cost Ledger Signing Keys KeysProps.
Open Scope Z_scope.

Definition DEFAULT_IDENTIFY_TTL_SECS : Z := 300.
Definition MAX_IDENTIFY_TTL_SECS : Z := 3600.
Definition PASS_TTL_SECS : Z := 5.
Definition MAX_ENTRIES : nat := 4096.

Inductive AuthOutcome := Identify (p : Principal.t) | Reject | Pass.

Inductive CachedVerdict := CIdentify (p : Principal.t) | CPass.

Module Entry.
Record t := mk { expires_at : Z; inserted_seq : Z; verdict : CachedVerdict }.
End Entry.

Definition CacheKey : Type := string * string.

Module CredentialCache.
Record t := mk { entries : gmap CacheKey Entry.t; seq : Z }.
Definition new : t := mk ∅ 0.
End CredentialCache.

Definition outcome_of (v : CachedVerdict) : AuthOutcome :=
  match v with CIdentify p => Identify p | CPass => Pass end.

(** [min_by_key] on the insertion number: the first least entry in iteration order. *)
Fixpoint oldest (l : list (CacheKey * Entry.t)) : option (CacheKey * Entry.t) :=
  match l with
  | [] => None
  | x :: l =>
      match oldest l with
      | Some y => if Entry.inserted_seq y.2 <? Entry.inserted_seq x.2 then Some y else Some x
      | None => Some x
      end
  end.

Section Cache.
Context `{Digest}.

(** The remainder of the first byte of the digest. *)
Definition pass_jitter (hash : string) : Z :=
  match hash with String c _ => Z.of_N (N_of_ascii c) mod 3 | EmptyString => 0 end.

Definition cached_of (outcome : AuthOutcome) (hash : string) : option (CachedVerdict * Z) :=
  match outcome with
  | Identify p =>
      Some (CIdentify p, Z.min (default DEFAULT_IDENTIFY_TTL_SECS (Principal.ttl_secs p)) MAX_IDENTIFY_TTL_SECS)
  | Pass => Some (CPass, PASS_TTL_SECS + pass_jitter hash)
  | Reject => None
  end.

Definition get (module credential : string) (now : Z) (c : CredentialCache.t)
    : CredentialCache.t * option AuthOutcome :=
  let key := (module, sha256_hex credential) in
  match CredentialCache.entries c !! key with
  | Some e =>
      if now <? Entry.expires_at e then (c, Some (outcome_of (Entry.verdict e)))
      else (CredentialCache.mk (delete key (CredentialCache.entries c)) (CredentialCache.seq c), None)
  | None => (c, None)
  end.

(** At capacity: drop what has expired, then the oldest entry. *)
Definition make_room (now : Z) (m : gmap CacheKey Entry.t) : gmap CacheKey Entry.t :=
  if (MAX_ENTRIES <=? size m)%nat then
    let m := filter (fun ke : CacheKey * Entry.t => now < Entry.expires_at ke.2) m in
    if (MAX_ENTRIES <=? size m)%nat then
      match oldest (map_to_list m) with Some (k, _) => delete k m | None => m end
    else m
  else m.

Definition put (module credential : string) (outcome : AuthOutcome) (now : Z) (c : CredentialCache.t)
    : CredentialCache.t :=
  let hash := sha256_hex credential in
  match cached_of outcome hash with
  | None => c
  | Some (verdict, ttl) =>
      let m := make_room now (CredentialCache.entries c) in
      let seq := wrap_u64 (CredentialCache.seq c + 1) in
      CredentialCache.mk (<[(module, hash) := Entry.mk (wrap_u64 (now + ttl)) seq verdict]> m) seq
  end.

Definition flush_module (module : string) (c : CredentialCache.t) : CredentialCache.t * nat :=
  let before := size (CredentialCache.entries c) in
  let m := filter (fun ke : CacheKey * Entry.t => ke.1.1 <> module) (CredentialCache.entries c) in
  (CredentialCache.mk m (CredentialCache.seq c), (before - size m)%nat).

Definition flush_all (c : CredentialCache.t) : CredentialCache.t * nat :=
  (CredentialCache.mk ∅ (CredentialCache.seq c), size (CredentialCache.entries c)).

(** ** The chain of modules *)
Record AuthModule := mk_module {
  mod_name : string; mod_cacheable : bool; authenticate : option string -> AuthOutcome }.

Inductive ChainVerdict := Open | Identified (module : string) (p : Principal.t) | Denied.

Definition consult (m : AuthModule) (candidate : option string) (cache : option CredentialCache.t) (now : Z)
    : option CredentialCache.t * AuthOutcome :=
  match cache, candidate with
  | Some c, Some cred =>
      if mod_cacheable m then
        match get (mod_name m) cred now c with
        | (c, Some o) => (Some c, o)
        | (c, None) => let o := authenticate m candidate in (Some (put (mod_name m) cred o now c), o)
        end
      else (cache, authenticate m candidate)
  | _, _ => (cache, authenticate m candidate)
  end.

Fixpoint run_modules (chain : list AuthModule) (candidate : option string) (cache : option CredentialCache.t)
    (now : Z) : option CredentialCache.t * ChainVerdict :=
  match chain with
  | [] => (cache, Denied)
  | m :: chain =>
      match consult m candidate cache now with
      | (cache, Identify p) => (cache, Identified (mod_name m) p)
      | (cache, Reject) => (cache, Denied)
      | (cache, Pass) => run_modules chain candidate cache now
      end
  end.

Definition run_chain_cached (chain : list AuthModule) (candidate : option string)
    (cache : option CredentialCache.t) (now : Z) : option CredentialCache.t * ChainVerdict :=
  match chain with [] => (cache, Open) | _ => run_modules chain candidate cache now end.

Definition run_chain (chain : list AuthModule) (candidate : option string) (now : Z) : ChainVerdict :=
  (run_chain_cached chain candidate None now).2.

(** ** Bounds *)
Lemma oldest_elem l x : oldest l = Some x -> x ∈ l.
Proof.
  revert x. induction l as [|y l IH]; intros x; cbn [oldest]; [done|].
  destruct (oldest l) as [z|]; [case_match|]; intros [= <-]; [right; by apply IH|by left..].
Qed.

Lemma oldest_None l : oldest l = None -> l = [].
Proof. destruct l as [|y l]; cbn [oldest]; [done|]. repeat case_match; done. Qed.

Lemma size_filter_le (P : CacheKey * Entry.t -> Prop) `{forall x, Decision (P x)} (m : gmap CacheKey Entry.t) :
  (size (filter P m) <= size m)%nat.
Proof. apply map_subseteq_size, map_filter_subseteq. Qed.

Lemma make_room_size now m : (size m <= MAX_ENTRIES)%nat -> (size (make_room now m) < MAX_ENTRIES)%nat.
Proof.
  intros Hm. unfold make_room. destruct (Nat.leb_spec MAX_ENTRIES (size m)) as [|]; [|done].
  pose proof (size_filter_le (fun ke => now < Entry.expires_at ke.2) m) as Hf.
  set (m' := filter _ m) in *. destruct (Nat.leb_spec MAX_ENTRIES (size m')) as [Hm'|]; [|done].
  destruct (oldest (map_to_list m')) as [[k e]|] eqn:Ho.
  - apply oldest_elem, elem_of_map_to_list in Ho. rewrite map_size_delete, Ho. unfold MAX_ENTRIES in *. lia.
  - apply oldest_None, map_to_list_empty_iff in Ho. rewrite Ho, map_size_empty in Hm'. unfold MAX_ENTRIES in *. lia.
Qed.

Lemma make_room_subseteq now m : make_room now m ⊆ m.
Proof.
  unfold make_room. repeat case_match; try done; try apply map_filter_subseteq.
  etrans; [apply delete_subseteq|apply map_filter_subseteq].
Qed.

Lemma put_size module cred o now c :
  (size (CredentialCache.entries c) <= MAX_ENTRIES)%nat ->
  (size (CredentialCache.entries (put module cred o now c)) <= MAX_ENTRIES)%nat.
Proof.
  intros Hc. unfold put. destruct (cached_of _ _) as [[v ttl]|]; [|done]. cbn.
  pose proof (make_room_size now _ Hc). rewrite map_size_insert. case_match; cbn; lia.
Qed.

(** ** Histories of the cache *)
Inductive CacheOp :=
  | OGet (module credential : string) (now : Z)
  | OPut (module credential : string) (outcome : AuthOutcome) (now : Z)
  | OFlush (module : string)
  | OFlushAll.

Definition cache_step (c : CredentialCache.t) (o : CacheOp) : CredentialCache.t :=
  match o with
  | OGet m cred now => (get m cred now c).1
  | OPut m cred out now => put m cred out now c
  | OFlush m => (flush_module m c).1
  | OFlushAll => (flush_all c).1
  end.

Definition cache_run (ops : list CacheOp) : CredentialCache.t := foldl cache_step CredentialCache.new ops.

(** An operation that ends the verdict stored for a module and a digest. *)
Definition ends_verdict (module hash : string) (o : CacheOp) : Prop :=
  match o with
  | OPut m cred out _ => m = module /\ sha256_hex cred = hash /\ out <> Reject
  | OFlush m => m = module
  | OFlushAll => True
  | OGet _ _ _ => False
  end.

Definition clock_ok (o : CacheOp) : Prop :=
  match o with OGet _ _ t | OPut _ _ _ t => 0 <= t <= U64_MAX - MAX_IDENTIFY_TTL_SECS | _ => True end.

(** Suggested lifetimes are unsigned. *)
Definition ttl_ok (o : CacheOp) : Prop :=
  match o with OPut _ _ (Identify p) _ => 0 <= default 0 (Principal.ttl_secs p) | _ => True end.

(** An entry is the last verdict its module gave for the digest, none of which were flushed since. *)
Definition from_put (ops : list CacheOp) (key : CacheKey) (e : Entry.t) : Prop :=
  exists pre cred out t ttl post,
    ops = pre ++ OPut key.1 cred out t :: post /\ sha256_hex cred = key.2 /\
    cached_of out key.2 = Some (Entry.verdict e, ttl) /\ Entry.expires_at e = wrap_u64 (t + ttl) /\
    Forall (fun o => ~ ends_verdict key.1 key.2 o) post.

Lemma from_put_snoc ops key e o : from_put ops key e -> ~ ends_verdict key.1 key.2 o -> from_put (ops ++ [o]) key e.
Proof.
  intros (pre & cred & out & t & ttl & post & -> & Hh & Hc & He & Hp) Ho.
  exists pre, cred, out, t, ttl, (post ++ [o]). rewrite <- app_assoc. split_and!; [done..|].
  apply Forall_app; split; [done|by constructor].
Qed.

Lemma run_from_put ops key e : CredentialCache.entries (cache_run ops) !! key = Some e -> from_put ops key e.
Proof.
  revert e. induction ops as [|o ops IH] using rev_ind; intros e.
  { unfold cache_run. cbn. by rewrite lookup_empty. }
  unfold cache_run. rewrite foldl_snoc. change (foldl cache_step _ ops) with (cache_run ops).
  destruct o as [m cred now|m cred out now|m|]; cbn [cache_step].
  - intros He. apply from_put_snoc; [|cbn; tauto]. apply IH. revert He. unfold get.
    destruct (CredentialCache.entries (cache_run ops) !! (m, sha256_hex cred)) as [e'|]; [|done].
    destruct (now <? _); [done|]. cbn. rewrite lookup_delete_Some. by intros [_ ?].
  - unfold put. destruct (cached_of out (sha256_hex cred)) as [[v ttl]|] eqn:Hc; cycle 1.
    { intros He. apply from_put_snoc; [by apply IH|]. cbn. intros (_ & _ & Hr).
      destruct out; [discriminate Hc|done|discriminate Hc]. }
    cbn [CredentialCache.entries]. destruct (decide ((m, sha256_hex cred) = key)) as [<-|Hne].
    + rewrite lookup_insert_eq. intros [= <-]. exists ops, cred, out, now, ttl, []. by split_and!.
    + rewrite lookup_insert_ne by done. intros He. apply (lookup_weaken _ _ _ _) with (2 := make_room_subseteq now _) in He.
      apply from_put_snoc; [by apply IH|]. cbn. intros (-> & Hh & _). destruct key. cbn in *. congruence.
  - cbn. rewrite map_lookup_filter_Some. intros [He Hm]. apply from_put_snoc; [by apply IH|]. cbn in *. congruence.
  - cbn. by rewrite lookup_empty.
Qed.

Lemma cached_of_ttl out hash v ttl :
  cached_of out hash = Some (v, ttl) -> outcome_of v = out /\ out <> Reject /\ ttl <= MAX_IDENTIFY_TTL_SECS /\
  (out = Pass -> ttl <= 7).
Proof.
  unfold cached_of, MAX_IDENTIFY_TTL_SECS, PASS_TTL_SECS. destruct out; intros [= <- <-].
  - split_and!; [done|done|lia|done].
  - assert (pass_jitter hash <= 2).
    { unfold pass_jitter. destruct hash as [|c s]; [lia|]. pose proof (Z.mod_pos_bound (Z.of_N (N_of_ascii c)) 3). lia. }
    split_and!; [done|done|lia|lia].
Qed.

Lemma cached_of_nonneg module cred out hash v ttl t :
  cached_of out hash = Some (v, ttl) -> ttl_ok (OPut module cred out t) -> 0 <= ttl.
Proof.
  unfold cached_of, MAX_IDENTIFY_TTL_SECS, DEFAULT_IDENTIFY_TTL_SECS, PASS_TTL_SECS.
  destruct out as [p| |]; intros [= <- <-]; cbn.
  - destruct (Principal.ttl_secs p); cbn; lia.
  - unfold pass_jitter. destruct hash as [|c s]; [lia|].
    pose proof (Z.mod_pos_bound (Z.of_N (N_of_ascii c)) 3). lia.
Qed.

(** A verdict served from the cache is one its module gave for this credential's digest, at most an
    hour ago (seven seconds for a pass), is never a rejection, and no flush of the module, no flush of
    everything and no newer verdict came in between, whatever the history of the cache. *)
Theorem cached_verdict_is_recent ops module cred now out :
  Forall clock_ok ops -> Forall ttl_ok ops -> 0 <= now ->
  (get module cred now (cache_run ops)).2 = Some out ->
  exists pre cred' t post,
    ops = pre ++ OPut module cred' out t :: post /\ sha256_hex cred' = sha256_hex cred /\ out <> Reject /\
    now < t + MAX_IDENTIFY_TTL_SECS /\ (out = Pass -> now < t + 7) /\
    Forall (fun o => ~ ends_verdict module (sha256_hex cred) o) post.
Proof.
  intros Hclk Httl Hnow. unfold get. destruct (_ !! _) as [e|] eqn:He; [|done].
  destruct (Z.ltb_spec now (Entry.expires_at e)) as [Hlt|]; [|done]. cbn [snd]. intros [= <-].
  apply run_from_put in He as (pre & cred' & out & t & ttl & post & -> & Hh & Hc & Hexp & Hpost).
  cbn [fst snd] in *. destruct (cached_of_ttl _ _ _ _ Hc) as (Ho & Hr & Hle & Hpass).
  exists pre, cred', t, post. rewrite Ho. apply Forall_app in Hclk as [_ Hclk]. apply Forall_cons_1 in Hclk as [Ht _].
  cbn in Ht. rewrite Hexp in Hlt.
  apply Forall_app in Httl as [_ Httl]. apply Forall_cons_1 in Httl as [Hok _].
  pose proof (cached_of_nonneg module cred' _ _ _ _ t Hc Hok).
  rewrite wrap_u64_id in Hlt by (unfold MAX_IDENTIFY_TTL_SECS in *; mach_lia).
  split_and!; [done|done|done|lia|intros ->; specialize (Hpass eq_refl); lia|done].
Qed.

Lemma cache_run_bounded ops : (size (CredentialCache.entries (cache_run ops)) <= MAX_ENTRIES)%nat.
Proof.
  induction ops as [|o ops IH] using rev_ind; [unfold cache_run; cbn; rewrite map_size_empty; unfold MAX_ENTRIES; lia|].
  unfold cache_run. rewrite foldl_snoc. change (foldl cache_step _ ops) with (cache_run ops).
  destruct o as [m cred now|m cred out now|m|]; cbn [cache_step].
  - unfold get. destruct (_ !! _); [|done]. destruct (now <? _); [done|]. cbn.
    etrans; [|exact IH]. apply map_subseteq_size, delete_subseteq.
  - by apply put_size.
  - cbn. etrans; [apply size_filter_le|exact IH].
  - cbn. rewrite map_size_empty. unfold MAX_ENTRIES. lia.
Qed.

(** ** Transparency *)
Definition truthful (chain : list AuthModule) (c : CredentialCache.t) : Prop :=
  forall m cred e, m ∈ chain -> CredentialCache.entries c !! (mod_name m, sha256_hex cred) = Some e ->
    outcome_of (Entry.verdict e) = authenticate m (Some cred).

(** Modules with distinct names, none of which tells two credentials of one digest apart. *)
Definition chain_ok (chain : list AuthModule) : Prop :=
  (forall m m', m ∈ chain -> m' ∈ chain -> mod_name m = mod_name m' -> m = m') /\
  (forall m c1 c2, m ∈ chain -> sha256_hex c1 = sha256_hex c2 -> authenticate m (Some c1) = authenticate m (Some c2)).

Lemma truthful_subseteq chain c c' :
  CredentialCache.entries c' ⊆ CredentialCache.entries c -> truthful chain c -> truthful chain c'.
Proof. intros Hs Ht m cred e Hm He. eapply Ht; [done|]. by eapply lookup_weaken. Qed.

Lemma get_subseteq m cred now c : CredentialCache.entries (get m cred now c).1 ⊆ CredentialCache.entries c.
Proof.
  unfold get. destruct (CredentialCache.entries c !! _); [|done]. destruct (now <? _); [done|]. cbn.
  apply delete_subseteq.
Qed.

Lemma put_truthful chain m cred now c :
  chain_ok chain -> m ∈ chain -> truthful chain c ->
  truthful chain (put (mod_name m) cred (authenticate m (Some cred)) now c).
Proof.
  intros [Hn Hd] Hm Ht. unfold put. destruct (cached_of _ _) as [[v ttl]|] eqn:Hc; [|done].
  intros m' cred' e Hm'. cbn [CredentialCache.entries].
  destruct (decide ((mod_name m, sha256_hex cred) = (mod_name m', sha256_hex cred'))) as [[= He Hh]|Hne].
  - rewrite He, Hh, lookup_insert_eq. intros [= <-]. apply Hn in He as <-; [|done..].
    destruct (cached_of_ttl _ _ _ _ Hc) as (Ho & _). cbn [Entry.verdict]. rewrite Ho. by apply Hd.
  - rewrite lookup_insert_ne by done. intros Hl. apply (Ht m'); [done|].
    by eapply lookup_weaken; [exact Hl|apply make_room_subseteq].
Qed.

Lemma consult_truthful chain m cand c now :
  chain_ok chain -> m ∈ chain -> truthful chain c ->
  exists c', consult m cand (Some c) now = (Some c', authenticate m cand) /\ truthful chain c'.
Proof.
  intros Hok Hm Ht. unfold consult. destruct cand as [cred|]; [|by exists c].
  destruct (mod_cacheable m); [|by exists c].
  pose proof (get_subseteq (mod_name m) cred now c) as Hs. unfold get in *.
  destruct (CredentialCache.entries c !! _) as [e|] eqn:He.
  - destruct (now <? _).
    + exists c. by rewrite (Ht m cred e).
    + eexists. split; [reflexivity|]. apply put_truthful; [done|done|]. by eapply truthful_subseteq.
  - eexists. split; [reflexivity|]. by apply put_truthful.
Qed.

Lemma run_modules_transparent chain rest cand c now :
  chain_ok chain -> (forall m, m ∈ rest -> m ∈ chain) -> truthful chain c ->
  exists c', run_modules rest cand (Some c) now = (Some c', (run_modules rest cand None now).2) /\ truthful chain c'.
Proof.
  intros Hok. revert c. induction rest as [|m rest IH]; intros c Hr Ht; [by exists c|].
  destruct (consult_truthful chain m cand c now Hok (Hr m ltac:(by left)) Ht) as (c' & Hc & Ht').
  cbn [run_modules]. rewrite Hc. change (consult m cand None now) with (@None CredentialCache.t, authenticate m cand).
  destruct (authenticate m cand) as [p| |]; [by exists c'|by exists c'|].
  apply IH; [|done]. intros m' Hm'. apply Hr. by right.
Qed.

(** What happens at the front door: a request with its candidate credential, or a flush. *)
Inductive DoorEvent := ERequest (candidate : option string) (now : Z) | EFlush (module : string) | EFlushAll.

Fixpoint front_door (chain : list AuthModule) (events : list DoorEvent) (c : option CredentialCache.t) : list ChainVerdict :=
  match events with
  | [] => []
  | ERequest cand now :: events =>
      let '(c, v) := run_chain_cached chain cand c now in v :: front_door chain events c
  | EFlush m :: events => front_door chain events ((fun c => (flush_module m c).1) <$> c)
  | EFlushAll :: events => front_door chain events ((fun c => (flush_all c).1) <$> c)
  end.

Lemma front_door_transparent chain events c :
  chain_ok chain -> truthful chain c -> front_door chain events (Some c) = front_door chain events None.
Proof.
  intros Hok. revert c. induction events as [|[cand now|m|] events IH]; intros c Ht; [done|..].
  - assert (exists c', run_chain_cached chain cand (Some c) now = (Some c', run_chain chain cand now) /\ truthful chain c')
      as (c' & Hc & Ht').
    { unfold run_chain, run_chain_cached. destruct chain as [|m chain]; [by exists c|].
      by apply run_modules_transparent. }
    assert (run_chain_cached chain cand None now = (None, run_chain chain cand now)) as Hn.
    { unfold run_chain. rewrite (surjective_pairing (run_chain_cached chain cand None now)) at 1. f_equal.
      unfold run_chain_cached. destruct chain as [|m chain]; [done|]. generalize (m :: chain). clear.
      induction l as [|m l IH]; [done|]. cbn [run_modules].
      change (consult m cand None now) with (@None CredentialCache.t, authenticate m cand).
      by destruct (authenticate m cand). }
    cbn [front_door]. rewrite Hc, Hn. f_equal. by apply IH.
  - cbn [front_door]. apply IH. eapply truthful_subseteq; [|done]. apply map_filter_subseteq.
  - cbn [front_door]. apply IH. intros m cred e _. cbn. by rewrite lookup_empty.
Qed.

(** The cache is transparent: for modules whose answers do not change, every request of every
    history, with flushes and expiries anywhere in it, gets the verdict the modules give without a
    cache. *)
Theorem caching_is_transparent chain events :
  chain_ok chain -> front_door chain events (Some CredentialCache.new) = front_door chain events None.
Proof.
  intros Hok. apply front_door_transparent; [done|]. intros m cred e _. cbn. by rewrite lookup_empty.
Qed.

End Cache.

(** ** Examples: a directory module in front of one that rejects everything *)
#[local] Existing Instance KeysProps.Demo.digest.

Definition alice : Principal.t := Principal.mk "alice" None ["ops"] (Some 999999).
Definition directory : AuthModule :=
  mk_module "ad" true (fun c => match c with
    | Some s => if String.eqb (sha256_hex s) (sha256_hex "pw") then Identify alice else Pass
    | None => Pass
    end).
Definition lockout : AuthModule := mk_module "deny" true (fun _ => Reject).

Lemma cached_verdict_is_recent_witness :
  exists t, 3599 < t + MAX_IDENTIFY_TTL_SECS /\
    (get "ad" "pw" 3599 (cache_run [OPut "ad" "pw" (Identify alice) 0; OPut "ad" "x" Pass 1])).2 = Some (Identify alice).
Proof.
  destruct (cached_verdict_is_recent [OPut "ad" "pw" (Identify alice) 0; OPut "ad" "x" Pass 1] "ad" "pw" 3599
    (Identify alice)) as (pre & cred & t & post & _ & _ & _ & Ht & _).
  - repeat constructor; vm_compute; discriminate.
  - repeat constructor. vm_compute. discriminate.
  - lia.
  - vm_compute. reflexivity.
  - exists t. split; [exact Ht|vm_compute; reflexivity].
Defined.

(** A suggested lifetime of 999999 seconds ends after an hour. *)
Example ttl_is_clamped : (get "ad" "pw" 3600 (cache_run [OPut "ad" "pw" (Identify alice) 0])).2 = None.
Proof. vm_compute. reflexivity. Qed.

Lemma caching_is_transparent_witness :
  front_door [directory; lockout]
    [ERequest (Some "pw") 0; ERequest (Some "pw") 10; ERequest (Some "no") 11; EFlush "ad"; ERequest None 12]
    (Some CredentialCache.new) = [Identified "ad" alice; Identified "ad" alice; Denied; Denied].
Proof.
  rewrite caching_is_transparent; [vm_compute; reflexivity|]. split.
  - intros m m' Hm Hm'. rewrite !elem_of_cons, elem_of_nil in Hm, Hm'.
    destruct Hm as [->|[->|[]]], Hm' as [->|[->|[]]]; done.
  - intros m c1 c2 Hm He. rewrite !elem_of_cons, elem_of_nil in Hm. destruct Hm as [->|[->|[]]]; [|done].
    cbn [authenticate directory]. by rewrite He.
Defined.
