(* ===== verification/AdminAudit.v ===== *)
(** * The administrative audit log (crates/busbar/src/admin/audit.rs, api/src/store.rs)

    The bounded, hash-chained ring, its write-through to a durable store with backfill of the entries
    a failed write left out, and the restore at boot.  The durable store is the class [AuditStore]:
    a table keyed by sequence number whose writes may fail, before or after the row was stored.  A
    recorder's two critical sections (append to the ring, write through) are two operations, so that
    concurrent recorders are their interleavings. *)
From stdpp Require Import base gmap list strings pretty sorting.
From Stdlib Require Import ZArith Lia Ascii.
From S2P Require Import Prelude Cost Ledger Signing Keys.
From S2P Require Import KeysProps Sigv4Facts Sigv4Lane.
Open Scope Z_scope.
Open Scope rust_scope.

Module AuditEntry.
Record t := mk { seq : Z; ts : Z; action : string; resource : string; outcome : string;
                 principal : string; prev_hash : string; hash : string }.
End AuditEntry.

Definition OUTCOME_APPLIED : string := "applied".
Definition OUTCOME_REJECTED : string := "rejected".
Definition MAX_AUDIT_ENTRIES : nat := 1000.

(** The table of a durable backend, by sequence number. *)
Notation Rows := (gmap Z AuditEntry.t).

(** Oldest first, each row once. *)
Definition lists (rows : Rows) (l : list AuditEntry.t) : Prop :=
  (forall e, e ∈ l <-> rows !! AuditEntry.seq e = Some e) /\
  Sorted (fun a b => AuditEntry.seq a < AuditEntry.seq b) l.

(** The audit half of the [Store] trait: an append stores the row under its number when it succeeds,
    and may have stored it when it fails; a listing is the table, oldest first. *)
Class AuditStore (S : Type) := {
  rows : S -> Rows;
  append_audit : S -> AuditEntry.t -> S * bool;
  list_audit : S -> S * option (list AuditEntry.t);
  append_law s e s' ok : append_audit s e = (s', ok) ->
    rows s' = <[AuditEntry.seq e := e]> (rows s) \/ ok = false /\ rows s' = rows s;
  list_law s s' r : list_audit s = (s', r) -> rows s' = rows s /\
    match r with Some l => lists (rows s) l | None => True end }.

Module AuditLog.
Record t := mk { entries : list AuditEntry.t; seq : Z; sink : bool; durable_high : Z }.
Definition new : t := mk [] 1 false 0.
Definition set_sink (l : t) : t := mk (entries l) (seq l) true (durable_high l).
End AuditLog.

(** Why a restore failed. *)
Inductive RestoreError := ReadFailed | BadDigest (seq : Z) | BrokenLink (seq : Z).

Section Audit.
Context `{Digest}.

Definition canonical (e : AuditEntry.t) : string :=
  AuditEntry.prev_hash e +:+ "|" +:+ pretty (Z.to_N (AuditEntry.seq e)) +:+ "|" +:+
  pretty (Z.to_N (AuditEntry.ts e)) +:+ "|" +:+ AuditEntry.action e +:+ "|" +:+ AuditEntry.resource e +:+ "|" +:+
  AuditEntry.outcome e +:+ "|" +:+ AuditEntry.principal e.

Definition compute_hash (e : AuditEntry.t) : string := sha256_hex (canonical e).

(** The critical section of [record_by]: number, chain, prune, append. *)
Definition append_entry (action resource outcome principal : string) (now : Z) (l : AuditLog.t)
    : AuditLog.t * AuditEntry.t :=
  let q := AuditLog.entries l in
  let prev_hash := match last q with Some e => AuditEntry.hash e | None => "" end in
  let entry := AuditEntry.mk (AuditLog.seq l) now action resource outcome principal prev_hash "" in
  let entry := AuditEntry.mk (AuditLog.seq l) now action resource outcome principal prev_hash
                 (compute_hash entry) in
  (AuditLog.mk (drop (length q + 1 - MAX_AUDIT_ENTRIES) q ++ [entry]) (wrap_u64 (AuditLog.seq l + 1))
     (AuditLog.sink l) (AuditLog.durable_high l), entry).

Context {S : Type} `{AuditStore S}.

(** The loop of [durable_write_through] over the numbers still to be written. *)
Fixpoint catch_up (seqs : list Z) (l : AuditLog.t) (s : S) : AuditLog.t * S :=
  match seqs with
  | [] => (l, s)
  | seq :: seqs =>
      match find (fun e => AuditEntry.seq e =? seq) (AuditLog.entries l) with
      | None => catch_up seqs l s
      | Some e =>
          match append_audit s e with
          | (s, false) => (l, s)
          | (s, true) =>
              catch_up seqs (AuditLog.mk (AuditLog.entries l) (AuditLog.seq l) (AuditLog.sink l)
                               (Z.max (AuditLog.durable_high l) seq)) s
          end
      end
  end.

Definition durable_write_through (new_seq : Z) (l : AuditLog.t) (s : S) : AuditLog.t * S :=
  let start := AuditLog.durable_high l + 1 in
  catch_up (seqZ start (new_seq + 1 - start)) l s.

Definition record_by (action resource outcome principal : string) (now : Z) (l : AuditLog.t) (s : S)
    : AuditLog.t * S :=
  let '(l, entry) := append_entry action resource outcome principal now l in
  if AuditLog.sink l then durable_write_through (AuditEntry.seq entry) l s else (l, s).

(** The default [list_audit_tail]. *)
Definition list_audit_tail (limit : nat) (s : S) : S * option (list AuditEntry.t) :=
  let '(s, r) := list_audit s in
  (s, (fun all => if (limit <? length all)%nat then drop (length all - limit) all else all) <$> r).

Fixpoint check_chain (prev : option string) (es : list AuditEntry.t) : option RestoreError :=
  match es with
  | [] => None
  | e :: es =>
      if negb (String.eqb (AuditEntry.hash e) (compute_hash e)) then Some (BadDigest (AuditEntry.seq e))
      else
        match prev with
        | Some p =>
            if negb (String.eqb (AuditEntry.prev_hash e) p) then Some (BrokenLink (AuditEntry.seq e))
            else check_chain (Some (AuditEntry.hash e)) es
        | None => check_chain (Some (AuditEntry.hash e)) es
        end
  end.

Definition max_seq (es : list AuditEntry.t) : Z := foldr (fun e m => Z.max (AuditEntry.seq e) m) 0 es.

Definition restore_from_store (l : AuditLog.t) (s : S) : AuditLog.t * S * (RestoreError + nat) :=
  match list_audit_tail MAX_AUDIT_ENTRIES s with
  | (s, None) => (l, s, inl ReadFailed)
  | (s, Some []) => (l, s, inr 0%nat)
  | (s, Some es) =>
      let durable_max := max_seq es in
      let l := AuditLog.mk (AuditLog.entries l) (Z.max (AuditLog.seq l) (wrap_u64 (durable_max + 1)))
                 (AuditLog.sink l) (Z.max (AuditLog.durable_high l) durable_max) in
      match check_chain None es with
      | Some err => (l, s, inl err)
      | None =>
          (AuditLog.mk (drop (length es - MAX_AUDIT_ENTRIES) es) (AuditLog.seq l) (AuditLog.sink l)
             (AuditLog.durable_high l), s, inr (length es))
      end
  end.

Definition export (l : AuditLog.t) : list AuditEntry.t := AuditLog.entries l.

Definition load (es : list AuditEntry.t) (l : AuditLog.t) : AuditLog.t :=
  AuditLog.mk es (Z.max (AuditLog.seq l) (wrap_u64 (max_seq es + 1))) (AuditLog.sink l) (AuditLog.durable_high l).

(** The audit part of the boot in main.rs: attach the store, restore from it, and take the ring from the state
    snapshot when the store gave nothing, be it empty, unreadable or broken. *)
Definition boot_audit (snapshot : option (list AuditEntry.t)) (s : S) : AuditLog.t * S * (RestoreError + nat) :=
  let '(l, s, r) := restore_from_store (AuditLog.set_sink AuditLog.new) s in
  let audit_restored_from_store := match r with inr n => negb (n =? 0)%nat | inl _ => false end in
  let l := if audit_restored_from_store then l
           else match snapshot with Some es => load es l | None => l end in
  (l, s, r).

Definition list_filtered (offset limit : nat) (action resource : option string) (l : AuditLog.t)
    : list AuditEntry.t :=
  take limit (drop offset (List.filter (fun e => match resource with Some r => String.eqb (AuditEntry.resource e) r | None => true end)
    (List.filter (fun e => match action with Some a => String.eqb (AuditEntry.action e) a | None => true end)
      (rev (AuditLog.entries l))))).

End Audit.

(** ** Theorems about the audit log: transient failures of the durable store leave a contiguous chain
    that restores, a write after an outage catches up, and an accepted chain is evidence of its texts *)

Section Chain.
Context `{Digest}.

(** Entries numbered from [n] on, each linked to its predecessor. *)
Fixpoint chained (prev : string) (n : Z) (es : list AuditEntry.t) : Prop :=
  match es with
  | [] => True
  | e :: es => AuditEntry.seq e = n /\ AuditEntry.prev_hash e = prev /\
      AuditEntry.hash e = compute_hash e /\ chained (AuditEntry.hash e) (n + 1) es
  end.

Definition last_hash (prev : string) (es : list AuditEntry.t) : string :=
  match last es with Some e => AuditEntry.hash e | None => prev end.

Lemma chained_app prev n a b :
  chained prev n (a ++ b) <-> chained prev n a /\ chained (last_hash prev a) (n + Z.of_nat (length a)) b.
Proof.
  revert prev n. induction a as [|e a IH]; intros prev n; cbn [app chained length].
  { unfold last_hash. cbn. rewrite Z.add_0_r. tauto. }
  rewrite IH. replace (n + 1 + Z.of_nat (length a)) with (n + Z.of_nat (S (length a))) by lia.
  replace (last_hash (AuditEntry.hash e) a) with (last_hash prev (e :: a)); [tauto|].
  unfold last_hash. rewrite last_cons. by destruct (last a).
Qed.

Lemma chained_lookup prev n es i e : chained prev n es -> es !! i = Some e -> AuditEntry.seq e = n + Z.of_nat i.
Proof.
  revert prev n i. induction es as [|x es IH]; intros prev n i Hc Hi; [done|].
  destruct Hc as (Hs & _ & _ & Hc). destruct i as [|i]; cbn in Hi.
  - injection Hi as ->. lia.
  - rewrite (IH _ _ i Hc Hi). lia.
Qed.

Lemma chained_elem prev n es e : chained prev n es -> e ∈ es -> n <= AuditEntry.seq e < n + Z.of_nat (length es).
Proof.
  intros Hc He. apply list_elem_of_lookup in He as [i Hi]. rewrite (chained_lookup _ _ _ _ _ Hc Hi).
  apply lookup_lt_Some in Hi. lia.
Qed.

Lemma chained_sorted prev n es :
  chained prev n es -> Sorted (fun a b => AuditEntry.seq a < AuditEntry.seq b) es.
Proof.
  revert prev n. induction es as [|e es IH]; intros prev n Hc; constructor.
  - by eapply IH, Hc.
  - destruct Hc as (Hs & _ & _ & Hc). destruct es as [|e' es]; constructor. destruct Hc as (Hs' & _). lia.
Qed.

Lemma chained_max prev n es : 1 <= n -> chained prev n es -> es <> [] -> max_seq es = n + Z.of_nat (length es) - 1.
Proof.
  revert prev n. induction es as [|e es IH]; intros prev n Hn Hc; [done|]. intros _.
  destruct Hc as (Hs & _ & _ & Hc). change (max_seq (e :: es)) with (Z.max (AuditEntry.seq e) (max_seq es)). cbn [length].
  destruct es as [|e' es]; [change (max_seq []) with 0; cbn [length]; lia|].
  rewrite (IH _ (n + 1) ltac:(lia) Hc) by done. cbn [length]. lia.
Qed.

Lemma chained_find prev n es i :
  chained prev n es -> n <= i < n + Z.of_nat (length es) ->
  exists e, find (fun e => AuditEntry.seq e =? i) es = Some e /\ es !! Z.to_nat (i - n) = Some e.
Proof.
  revert prev n. induction es as [|e es IH]; intros prev n Hc Hi; [cbn in Hi; lia|].
  destruct Hc as (Hs & _ & _ & Hc). cbn [find]. destruct (Z.eqb_spec (AuditEntry.seq e) i) as [He|He].
  - exists e. split; [done|]. replace (i - n) with 0 by lia. done.
  - cbn [length] in Hi. destruct (IH _ _ Hc ltac:(lia)) as (x & Hf & Hx). exists x. split; [done|].
    replace (Z.to_nat (i - n)) with (S (Z.to_nat (i - (n + 1)))) by lia. done.
Qed.

(** A chain passes the check at boot. *)
Lemma chained_checks prev n es : chained prev n es -> check_chain (Some prev) es = None /\ check_chain None es = None.
Proof.
  revert prev n. induction es as [|e es IH]; intros prev n Hc; [done|].
  destruct Hc as (_ & Hp & Hh & Hc). apply IH in Hc as [Hc _]. cbn [check_chain].
  by rewrite <- Hh, Hp, !String.eqb_refl.
Qed.

(** ** The durable table *)
Definition rows_of (es : list AuditEntry.t) : Rows :=
  foldl (fun m e => <[AuditEntry.seq e := e]> m) ∅ es.

Lemma rows_of_snoc es e : rows_of (es ++ [e]) = <[AuditEntry.seq e := e]> (rows_of es).
Proof. unfold rows_of. by rewrite foldl_snoc. Qed.

Lemma rows_of_lookup prev n es e : chained prev n es -> rows_of es !! AuditEntry.seq e = Some e <-> e ∈ es.
Proof.
  induction es as [|x es IH] using rev_ind; intros Hc.
  { split; [|set_solver]. unfold rows_of. cbn [foldl]. rewrite lookup_empty. done. }
  rewrite rows_of_snoc. apply chained_app in Hc as [Hc Hx]. specialize (IH Hc). destruct Hx as (Hx & _).
  rewrite elem_of_app, elem_of_cons, elem_of_nil.
  destruct (decide (AuditEntry.seq x = AuditEntry.seq e)) as [He|He].
  - rewrite He, lookup_insert_eq. split; [intros [= ->]; auto|]. intros [Hin|[->|[]]]; [|done].
    apply (chained_elem _ _ _ _ Hc) in Hin. lia.
  - rewrite lookup_insert_ne by done. rewrite IH. split; [auto|]. intros [?|[->|[]]]; done.
Qed.

Lemma sorted_nodup l : Sorted (fun a b => AuditEntry.seq a < AuditEntry.seq b) l -> NoDup l.
Proof.
  intros Hs. apply Sorted_StronglySorted in Hs; [|intros a b c; lia].
  induction Hs as [|e l Hs IH Hf]; constructor; [|done]. intros Hin. rewrite Forall_forall in Hf. apply Hf in Hin. lia.
Qed.

(** A listing of a chain's rows is the chain. *)
Lemma lists_rows_of prev n es l : chained prev n es -> lists (rows_of es) l -> l = es.
Proof.
  intros Hc [Hl Hs]. pose proof (chained_sorted _ _ _ Hc) as Hs'.
  assert (Transitive (fun a b : AuditEntry.t => AuditEntry.seq a < AuditEntry.seq b)) by (intros a b c; lia).
  assert (AntiSymm (=) (fun a b : AuditEntry.t => AuditEntry.seq a < AuditEntry.seq b)) by (intros a b; lia).
  apply (Sorted_unique (fun a b => AuditEntry.seq a < AuditEntry.seq b)); [done|done|].
  apply NoDup_Permutation; [by apply sorted_nodup|by apply sorted_nodup|].
  intros e. by rewrite Hl, (rows_of_lookup prev n).
Qed.

End Chain.

Section Durable.
Context `{Digest} {S : Type} `{AuditStore S}.

(** Entries recorded and not yet known to be durable. *)
Definition backlog (l : AuditLog.t) : Z := AuditLog.seq l - 1 - AuditLog.durable_high l.

(** The state snapshot on disk: the ring it holds, and beside it the whole log of that moment. *)
Definition StateFile : Type := option (list AuditEntry.t * list AuditEntry.t).

(** The log a restarted process goes on with: the durable part, or, where nothing was durable, that of the
    state snapshot. *)
Definition resumed (h : list AuditEntry.t) (f : StateFile) (l' : AuditLog.t) (n : nat) : list AuditEntry.t :=
  match n with
  | O => match f with Some (whole, _) => whole | None => [] end
  | _ => take (Z.to_nat (AuditLog.seq l' - 1)) h
  end.

(** Everything the log goes through: appends and write-throughs of any recorders in any order, state
    snapshots, the loss of the snapshot file, and restarts that could read the table.  [h] are the entries
    recorded so far that no restart lost; writes happen while the ring still holds the backlog. *)
Inductive reached : list AuditEntry.t -> AuditLog.t -> S -> StateFile -> Prop :=
  | reached_boot s : rows s = ∅ -> reached [] (AuditLog.set_sink AuditLog.new) s None
  | reached_append h l s f action resource outcome principal now l' e :
      reached h l s f -> AuditLog.seq l < U64_MAX ->
      append_entry action resource outcome principal now l = (l', e) -> reached (h ++ [e]) l' s f
  | reached_write h l s f n l' s' :
      reached h l s f -> 1 <= n < AuditLog.seq l -> backlog l <= Z.of_nat MAX_AUDIT_ENTRIES ->
      durable_write_through n l s = (l', s') -> reached h l' s' f
  | reached_snapshot h l s f : reached h l s f -> reached h l s (Some (h, export l))
  | reached_lost_file h l s f : reached h l s f -> reached h l s None
  | reached_restart h l s f l' s' n :
      reached h l s f -> boot_audit (snd <$> f) s = (l', s', inr n) -> reached (resumed h f l' n) l' s' f.

(** The history is a chain, the ring its recent part, the table a prefix of it. *)
Record consistent (h : list AuditEntry.t) (l : AuditLog.t) (s : S) : Prop := {
  c_chain : chained "" 1 h;
  c_ring : AuditLog.entries l = drop (length h - MAX_AUDIT_ENTRIES) h;
  c_seq : AuditLog.seq l = Z.of_nat (length h) + 1;
  c_high : 0 <= AuditLog.durable_high l <= Z.of_nat (length h);
  c_width : Z.of_nat (length h) < U64_MAX;
  c_rows : exists k, rows s = rows_of (take k h) /\ (k <= length h)%nat /\
    AuditLog.durable_high l <= Z.of_nat k <= AuditLog.durable_high l + 1 }.

Lemma last_ring (h : list AuditEntry.t) : last (drop (length h - MAX_AUDIT_ENTRIES) h) = last h.
Proof.
  destruct h as [|e h _] using rev_ind; [done|]. rewrite drop_app_le, !last_snoc; [done|].
  rewrite length_app. unfold MAX_AUDIT_ENTRIES. cbn. lia.
Qed.

Lemma append_consistent h l s action resource outcome principal now l' e :
  consistent h l s -> AuditLog.seq l < U64_MAX ->
  append_entry action resource outcome principal now l = (l', e) -> consistent (h ++ [e]) l' s.
Proof.
  intros [Hc Hr Hs Hd Hw (k & Hk & Hkl & Hkd)] Hmax He. unfold append_entry in He.
  rewrite Hr, last_ring in He. injection He as <- <-. set (e := AuditEntry.mk _ _ _ _ _ _ _ _).
  split; cbn [AuditLog.entries AuditLog.seq AuditLog.durable_high].
  - apply chained_app. split; [done|]. split_and!; [cbn; lia|done|done|done].
  - rewrite length_drop, drop_drop, length_app. cbn [length].
    rewrite (drop_app_le h) by (unfold MAX_AUDIT_ENTRIES; lia). f_equal. f_equal. unfold MAX_AUDIT_ENTRIES. lia.
  - rewrite length_app, wrap_u64_id by mach_lia. cbn. lia.
  - rewrite length_app. cbn. lia.
  - rewrite length_app. cbn [length]. lia.
  - exists k. rewrite take_app_le, length_app by done. split_and!; [done|lia|lia|lia].
Qed.

(** One written row extends the durable prefix. *)
Lemma write_row h k d e :
  chained "" 1 h -> 0 <= d -> d <= Z.of_nat k <= d + 1 -> h !! Z.to_nat d = Some e ->
  <[AuditEntry.seq e := e]> (rows_of (take k h)) = rows_of (take (Z.to_nat (d + 1)) h).
Proof.
  intros Hc Hd Hk He. replace (Z.to_nat (d + 1)) with (Datatypes.S (Z.to_nat d)) by lia.
  rewrite (take_S_r _ _ _ He), rows_of_snoc.
  assert (k = Z.to_nat d \/ k = Datatypes.S (Z.to_nat d)) as [->| ->] by lia; [done|].
  by rewrite (take_S_r _ _ _ He), rows_of_snoc, insert_insert_eq.
Qed.

Lemma catch_up_consistent m h l s n l' s' :
  consistent h l s -> backlog l <= Z.of_nat MAX_AUDIT_ENTRIES -> n < AuditLog.seq l ->
  m = Z.to_nat (n - AuditLog.durable_high l) ->
  catch_up (seqZ (AuditLog.durable_high l + 1) (Z.of_nat m)) l s = (l', s') -> consistent h l' s'.
Proof.
  revert l s. induction m as [|m IH]; intros l s Hcon Hb Hn Hm Hcu.
  { cbn in Hcu. by injection Hcu as <- <-. }
  rewrite seqZ_cons in Hcu by lia. cbn [catch_up] in Hcu. pose proof Hcon as [Hc Hr Hs Hd Hw (k & Hk & Hkl & Hkd)].
  set (d := AuditLog.durable_high l) in *. unfold backlog in Hb. fold d in Hb.
  assert (chained (last_hash "" (take (length h - MAX_AUDIT_ENTRIES) h))
    (1 + Z.of_nat (length h - MAX_AUDIT_ENTRIES)) (AuditLog.entries l)) as Hring.
  { rewrite Hr. rewrite <- (take_drop (length h - MAX_AUDIT_ENTRIES) h) in Hc at 1.
    apply chained_app in Hc as [_ Hc]. by rewrite length_take, Nat.min_l in Hc by lia. }
  destruct (chained_find _ _ _ (d + 1) Hring) as (e & Hf & He).
  { rewrite Hr, length_drop. unfold MAX_AUDIT_ENTRIES in *. lia. }
  rewrite Hf in Hcu. rewrite Hr, lookup_drop in He.
  replace (length h - MAX_AUDIT_ENTRIES + Z.to_nat (d + 1 - (1 + Z.of_nat (length h - MAX_AUDIT_ENTRIES))))%nat
    with (Z.to_nat d) in He by (unfold MAX_AUDIT_ENTRIES in *; lia).
  pose proof (write_row h k d e Hc ltac:(lia) Hkd He) as Hrow.
  assert (Z.to_nat d < length h)%nat by by eapply lookup_lt_Some.
  destruct (append_audit s e) as [s1 ok] eqn:Ha. apply append_law in Ha. rewrite Hk, Hrow in Ha.
  destruct ok.
  - destruct Ha as [Ha|[? _]]; [|done]. revert Hcu. replace (Z.max d (d + 1)) with (d + 1) by lia.
    set (l1 := AuditLog.mk _ _ _ _). replace (Z.succ (d + 1)) with (AuditLog.durable_high l1 + 1) by (cbn; lia).
    replace (Z.pred (Z.of_nat (Datatypes.S m))) with (Z.of_nat m) by lia.
    intros Hcu. apply (IH l1 s1); [|unfold backlog; cbn; lia|done|cbn; lia|done].
    split; cbn; [done|done|done|lia|done|]. exists (Z.to_nat (d + 1)). split_and!; [done|lia|lia|lia].
  - injection Hcu as <- <-. split; [done|done|done|done|done|].
    destruct Ha as [Ha|[_ Ha]]; [exists (Z.to_nat (d + 1))|exists k]; fold d; split_and!; (done || lia).
Qed.

Lemma write_consistent h l s n l' s' :
  consistent h l s -> n < AuditLog.seq l -> backlog l <= Z.of_nat MAX_AUDIT_ENTRIES ->
  durable_write_through n l s = (l', s') -> consistent h l' s'.
Proof.
  intros Hcon Hn Hb. unfold durable_write_through.
  destruct (Z_lt_le_dec n (AuditLog.durable_high l)) as [Hlt|Hge].
  - rewrite seqZ_nil by lia. cbn. by intros [= <- <-].
  - replace (n + 1 - (AuditLog.durable_high l + 1)) with (Z.of_nat (Z.to_nat (n - AuditLog.durable_high l))) by lia.
    by apply (catch_up_consistent _ h l s n).
Qed.

Lemma take_chained k h : chained "" 1 h -> chained "" 1 (take k h).
Proof. intros Hc. rewrite <- (take_drop k h) in Hc. by apply chained_app in Hc as [Hc _]. Qed.

Lemma drop_chained k h : chained "" 1 h -> (k <= length h)%nat ->
  chained (last_hash "" (take k h)) (1 + Z.of_nat k) (drop k h).
Proof.
  intros Hc Hk. rewrite <- (take_drop k h) in Hc at 1. apply chained_app in Hc as [_ Hc].
  by rewrite length_take, Nat.min_l in Hc by lia.
Qed.

(** What a fresh process finds in a table that holds the chain [t]. *)
Lemma restore_prefix t s l' s' r :
  chained "" 1 t -> rows s = rows_of t -> Z.of_nat (length t) < U64_MAX ->
  restore_from_store (AuditLog.set_sink AuditLog.new) s = (l', s', r) ->
  rows s' = rows s /\
  (r = inl ReadFailed \/
   r = inr (length t `min` MAX_AUDIT_ENTRIES)%nat /\
   AuditLog.entries l' = drop (length t - MAX_AUDIT_ENTRIES) t /\
   AuditLog.seq l' = Z.of_nat (length t) + 1 /\ AuditLog.durable_high l' = Z.of_nat (length t)).
Proof.
  intros Hc Hrows Hw. unfold restore_from_store, list_audit_tail.
  destruct (list_audit s) as [s1 r1] eqn:Hl. apply list_law in Hl as [Hs1 Hl].
  destruct r1 as [all|]; cbn [fmap option_fmap option_map]; [|intros [= <- <- <-]; auto].
  rewrite Hrows in Hl. apply (lists_rows_of _ _ _ _ Hc) in Hl as ->.
  assert ((if (MAX_AUDIT_ENTRIES <? length t)%nat then drop (length t - MAX_AUDIT_ENTRIES) t else t)
    = drop (length t - MAX_AUDIT_ENTRIES) t) as ->.
  { destruct (Nat.ltb_spec MAX_AUDIT_ENTRIES (length t)); [done|].
    by replace (length t - MAX_AUDIT_ENTRIES)%nat with 0%nat by lia. }
  set (n := (length t - MAX_AUDIT_ENTRIES)%nat). pose proof (drop_chained n t Hc ltac:(lia)) as Hd.
  pose proof (length_drop t n) as Hlen. destruct (drop n t) as [|e es] eqn:E.
  - intros [= <- <- <-]. split; [done|]. right. cbn in Hlen.
    assert (length t = 0%nat) as -> by (unfold n, MAX_AUDIT_ENTRIES in *; lia). done.
  - rewrite (proj2 (chained_checks _ _ _ Hd)), (chained_max _ (1 + Z.of_nat n) _ ltac:(lia) Hd), Hlen by done.
    intros [= <- <- <-]. split; [done|]. right.
    cbn [AuditLog.entries AuditLog.seq AuditLog.durable_high AuditLog.set_sink AuditLog.new].
    assert (0 < length t - n)%nat by (rewrite <- Hlen; cbn; lia).
    rewrite wrap_u64_id by mach_lia. split; [f_equal; unfold n, MAX_AUDIT_ENTRIES; lia|].
    split; [by replace (length t - n - MAX_AUDIT_ENTRIES)%nat with 0%nat by (unfold n, MAX_AUDIT_ENTRIES; lia)|]. lia.
Qed.

Definition file_ok (f : StateFile) : Prop :=
  match f with
  | Some (whole, es) => chained "" 1 whole /\ es = drop (length whole - MAX_AUDIT_ENTRIES) whole /\
      Z.of_nat (length whole) < U64_MAX
  | None => True
  end.

Lemma load_recent whole l :
  chained "" 1 whole -> Z.of_nat (length whole) < U64_MAX -> AuditLog.seq l = 1 ->
  AuditLog.seq (load (drop (length whole - MAX_AUDIT_ENTRIES) whole) l) = Z.of_nat (length whole) + 1.
Proof.
  intros Hc Hw Hs. cbn [load AuditLog.seq]. rewrite Hs. set (n := (length whole - MAX_AUDIT_ENTRIES)%nat).
  pose proof (drop_chained n whole Hc ltac:(lia)) as Hd. pose proof (length_drop whole n) as Hlen.
  destruct (drop n whole) as [|e es] eqn:E.
  - cbn in Hlen. assert (length whole = 0%nat) as -> by (unfold n, MAX_AUDIT_ENTRIES in *; lia). done.
  - rewrite (chained_max _ (1 + Z.of_nat n) _ ltac:(lia) Hd), Hlen by done.
    assert (0 < length whole - n)%nat by (rewrite <- Hlen; cbn; lia). rewrite wrap_u64_id by mach_lia. lia.
Qed.

(** What a boot finds in a table that holds the chain [t]. *)
Lemma boot_prefix t s f l' s' r :
  chained "" 1 t -> rows s = rows_of t -> Z.of_nat (length t) < U64_MAX -> file_ok f ->
  boot_audit (snd <$> f) s = (l', s', r) ->
  rows s' = rows s /\
  (r = inl ReadFailed \/
   r = inr (length t `min` MAX_AUDIT_ENTRIES)%nat /\ AuditLog.durable_high l' = Z.of_nat (length t) /\
   let h' := match t, f with [], Some (whole, _) => whole | _, _ => t end in
   AuditLog.entries l' = drop (length h' - MAX_AUDIT_ENTRIES) h' /\ AuditLog.seq l' = Z.of_nat (length h') + 1).
Proof.
  intros Hc Hk Hw Hf. unfold boot_audit.
  destruct (restore_from_store _ s) as [[l1 s1] r1] eqn:Er.
  destruct (restore_prefix t s l1 s1 r1 Hc Hk Hw Er) as [Hs' [->|(-> & He & Hseq & Hhigh)]].
  { intros [= _ <- <-]. split; [done|by left]. }
  intros [= <- <- <-]. split; [done|]. right. split; [done|]. destruct t as [|e t].
  - cbn in Hseq, Hhigh, He |- *. destruct f as [[whole es]|]; cbn; [|done]. destruct Hf as (Hcw & -> & Hww).
    split; [done|]. split; [done|]. by apply (load_recent whole l1).
  - replace (length (e :: t) `min` MAX_AUDIT_ENTRIES =? 0)%nat with false
      by (symmetry; apply Nat.eqb_neq; unfold MAX_AUDIT_ENTRIES; cbn [length]; lia). done.
Qed.

Lemma reached_consistent h l s f : reached h l s f -> consistent h l s /\ file_ok f.
Proof.
  induction 1 as [s Hs|h l s f a r o p now l' e _ [IH Hf] Hmax He|h l s f n l' s' _ [IH Hf] Hn Hb Hw|
    h l s f _ [IH _]|h l s f _ [IH _]|h l s f l' s' n _ [IH Hf] Hr].
  - split; [|done]. split; cbn; try done. exists 0%nat. by split_and!.
  - split; [by eapply append_consistent|done].
  - split; [apply (write_consistent h l s n); [done|lia|done|done]|done].
  - split; [done|]. destruct IH as [Hc Hr _ _ Hw _]. by split_and!.
  - by split.
  - split; [|done]. destruct IH as [Hc _ _ _ Hw (k & Hk & Hkl & _)].
    pose proof (length_take h k) as Hlk. rewrite Nat.min_l in Hlk by done.
    destruct (boot_prefix (take k h) s f l' s' (inr n) (take_chained k h Hc) Hk ltac:(lia) Hf Hr)
      as [Hs' [?|([= ->] & Hhigh & He & Hseq)]]; [done|]. rewrite Hlk in Hhigh |- *.
    destruct (take k h) as [|e t] eqn:Et; cbn [length] in Hlk; subst k.
    + cbn [Nat.min resumed]. destruct f as [[whole es]|]; cbn in He, Hseq |- *.
      * destruct Hf as (Hcw & _ & Hww). split; [done|done|done|lia|done|].
        exists 0%nat. rewrite Hs', Hk, Hhigh. split_and!; (done || lia).
      * split; [done|done|done|lia|done|]. exists 0%nat. rewrite Hs', Hk, Hhigh. split_and!; (done || lia).
    + unfold MAX_AUDIT_ENTRIES at 1. cbn [Nat.min resumed]. rewrite Hseq.
      replace (Z.to_nat (Z.of_nat (length (e :: t)) + 1 - 1)) with (length (e :: t)) by lia.
      assert (take (length (e :: t)) h = e :: t) as -> by done.
      split; [rewrite <- Et; by apply take_chained|done|done|cbn [length]; lia|cbn [length] in *; lia|].
      exists (length (e :: t)). rewrite firstn_all, Hs', Hk, Hhigh. cbn [length]. split_and!; (done || lia).
Qed.

(** C28.  The durable audit log survives a store whose writes fail: whatever appends fail (before or after
    their row was stored), however the recorders interleave, and however often the process restarts, with
    or without its state snapshot, as long as each of these restarts could read the table and the ring
    still holds the backlog when a write happens, the table always is a prefix of the recorded chain,
    at most one entry ahead of what is known to be durable; and a boot that can read it restores its recent
    part without a false tamper alarm and resumes numbering right after it, or, when nothing was durable,
    resumes the snapshot. *)
Theorem durable_audit_always_restores h l s f l' s' r :
  reached h l s f -> boot_audit (snd <$> f) s = (l', s', r) ->
  exists k, (k <= length h)%nat /\ AuditLog.durable_high l <= Z.of_nat k <= AuditLog.durable_high l + 1 /\
    rows s' = rows_of (take k h) /\
    (r = inl ReadFailed \/
     r = inr (k `min` MAX_AUDIT_ENTRIES)%nat /\
     let h' := match k, f with O, Some (whole, _) => whole | _, _ => take k h end in
     AuditLog.entries l' = drop (length h' - MAX_AUDIT_ENTRIES) h' /\ AuditLog.seq l' = Z.of_nat (length h') + 1).
Proof.
  intros Hre Hr. destruct (reached_consistent h l s f Hre) as [[Hc _ _ _ Hw (k & Hk & Hkl & Hkd)] Hf].
  pose proof (length_take h k) as Hlk. rewrite Nat.min_l in Hlk by done.
  destruct (boot_prefix (take k h) s f l' s' r (take_chained k h Hc) Hk ltac:(lia) Hf Hr) as [Hs' Hcase].
  rewrite Hlk in Hcase. exists k. rewrite Hs'. split_and!; [done|lia|lia|done|].
  destruct Hcase as [|(-> & _ & Hcase)]; [by left|]. right. split; [done|].
  destruct k as [|k]; [done|]. by destruct (take (Datatypes.S k) h) eqn:E.
Qed.

(** ** Catching up *)
Lemma append_entry_spec action resource outcome principal now l l1 e :
  append_entry action resource outcome principal now l = (l1, e) -> 0 <= AuditLog.seq l < U64_MAX ->
  AuditLog.sink l1 = AuditLog.sink l /\ AuditLog.durable_high l1 = AuditLog.durable_high l /\
  AuditLog.seq l1 = AuditLog.seq l + 1 /\ AuditEntry.seq e = AuditLog.seq l /\
  AuditEntry.action e = action /\ AuditEntry.resource e = resource /\
  AuditEntry.outcome e = outcome /\ AuditEntry.principal e = principal.
Proof.
  intros Ha Hs. unfold append_entry in Ha. injection Ha as <- <-. cbn. rewrite wrap_u64_id by mach_lia.
  by split_and!.
Qed.

Lemma catch_up_done m h l s l' s' :
  consistent h l s -> backlog l <= Z.of_nat MAX_AUDIT_ENTRIES ->
  AuditLog.durable_high l + Z.of_nat m < AuditLog.seq l ->
  (forall s e, (append_audit s e).2 = true) ->
  catch_up (seqZ (AuditLog.durable_high l + 1) (Z.of_nat m)) l s = (l', s') ->
  AuditLog.durable_high l' = AuditLog.durable_high l + Z.of_nat m.
Proof.
  intros Hcon Hb Hn Hup. revert l s Hcon Hb Hn. induction m as [|m IH]; intros l s Hcon Hb Hn Hcu.
  { cbn in Hcu. injection Hcu as <- <-. lia. }
  pose proof Hcon as [Hc Hr Hs Hd Hw _]. set (d := AuditLog.durable_high l) in *.
  pose proof (drop_chained (length h - MAX_AUDIT_ENTRIES) h Hc ltac:(lia)) as Hring. rewrite <- Hr in Hring.
  destruct (chained_find _ _ _ (d + 1) Hring) as (e & Hf & _).
  { unfold backlog in Hb. rewrite Hr, length_drop. unfold MAX_AUDIT_ENTRIES in *. lia. }
  assert (catch_up (seqZ (d + 1) 1) l s = (AuditLog.mk (AuditLog.entries l) (AuditLog.seq l) (AuditLog.sink l)
    (d + 1), (append_audit s e).1)) as Hone.
  { rewrite seqZ_cons, seqZ_nil by lia. cbn [catch_up]. rewrite Hf. specialize (Hup s e).
    destruct (append_audit s e) as [s1 ok]. cbn in Hup. subst ok. cbn. do 2 f_equal. lia. }
  pose proof (catch_up_consistent 1 h l s (d + 1) _ _ Hcon Hb ltac:(lia) ltac:(lia) Hone) as Hcon1.
  rewrite seqZ_cons in Hcu by lia. cbn [catch_up] in Hcu. rewrite Hf in Hcu. pose proof (Hup s e) as Hok.
  destruct (append_audit s e) as [s1 ok]. cbn in Hok. subst ok. cbn [fst] in Hcon1.
  replace (Z.max (AuditLog.durable_high l) (d + 1)) with (d + 1) in Hcu by lia.
  set (l1 := AuditLog.mk _ _ _ _) in *.
  replace (Z.succ (d + 1)) with (AuditLog.durable_high l1 + 1) in Hcu by (cbn; lia).
  replace (Z.pred (Z.of_nat (Datatypes.S m))) with (Z.of_nat m) in Hcu by lia.
  rewrite (IH l1 s1 Hcon1) by (cbn; unfold backlog in *; cbn; (lia || done)). cbn. lia.
Qed.

(** After an outage the next record writes everything that was missed: once appends succeed again,
    recording one more entry makes every recorded entry durable. *)
Theorem audit_catches_up h l s f action resource outcome principal now l' s' :
  reached h l s f -> AuditLog.sink l = true -> AuditLog.seq l < U64_MAX ->
  backlog l < Z.of_nat MAX_AUDIT_ENTRIES -> (forall s e, (append_audit s e).2 = true) ->
  record_by action resource outcome principal now l s = (l', s') ->
  AuditLog.durable_high l' = AuditLog.seq l /\
  exists e, AuditEntry.action e = action /\ AuditEntry.resource e = resource /\
    AuditEntry.outcome e = outcome /\ AuditEntry.principal e = principal /\ rows s' = rows_of (h ++ [e]).
Proof.
  intros Hre Hsink Hmax Hb Hup Hrec. apply reached_consistent in Hre as [Hcon _].
  unfold record_by in Hrec. destruct (append_entry _ _ _ _ _ l) as [l1 e] eqn:Ha.
  pose proof (append_consistent _ _ _ _ _ _ _ _ _ _ Hcon Hmax Ha) as Hcon1.
  destruct Hcon as [_ _ Hs Hd _ _].
  destruct (append_entry_spec _ _ _ _ _ _ _ _ Ha) as (Hs1 & Hd1 & Hq1 & He1 & Hfields); [mach_lia|].
  rewrite Hs1, Hsink in Hrec. unfold durable_write_through in Hrec.
  replace (AuditEntry.seq e + 1 - (AuditLog.durable_high l1 + 1))
    with (Z.of_nat (Z.to_nat (AuditLog.seq l - AuditLog.durable_high l))) in Hrec by lia.
  assert (backlog l1 <= Z.of_nat MAX_AUDIT_ENTRIES) as Hb1 by (unfold backlog in *; lia).
  set (m := Z.to_nat _) in Hrec. assert (Z.of_nat m = AuditLog.seq l - AuditLog.durable_high l) as Hm by lia.
  pose proof (catch_up_done m _ _ _ _ _ Hcon1 Hb1 ltac:(lia) Hup Hrec) as Hdone.
  pose proof (catch_up_consistent m _ _ _ (AuditLog.seq l) _ _ Hcon1 Hb1 ltac:(lia) ltac:(lia) Hrec) as [_ _ _ _ _ Hrows].
  destruct Hrows as (k & Hk & Hkl & Hkd). split; [lia|]. exists e.
  destruct Hfields as (? & ? & ? & ?). split_and!; try done. rewrite Hk. f_equal. apply take_ge. rewrite length_app in *. cbn [length] in *. lia.
Qed.

(** A whole [record_by] is an append and a write. *)
Lemma reached_record h l s f action resource outcome principal now l' s' :
  reached h l s f -> AuditLog.sink l = true -> AuditLog.seq l < U64_MAX ->
  backlog l < Z.of_nat MAX_AUDIT_ENTRIES ->
  record_by action resource outcome principal now l s = (l', s') -> exists e, reached (h ++ [e]) l' s' f.
Proof.
  intros Hre Hsink Hmax Hb Hrec. unfold record_by in Hrec. destruct (append_entry _ _ _ _ _ l) as [l1 e] eqn:Ha.
  exists e. pose proof (reached_append _ _ _ _ _ _ _ _ _ _ _ Hre Hmax Ha) as Hre1.
  apply reached_consistent in Hre as [[_ _ Hs Hd _ _] _].
  destruct (append_entry_spec _ _ _ _ _ _ _ _ Ha) as (Hs1 & Hd1 & Hq1 & He1 & _); [mach_lia|].
  rewrite Hs1, Hsink in Hrec. eapply reached_write; [exact Hre1| | |exact Hrec]; unfold backlog in *; lia.
Qed.

End Durable.

(** ** Evidence *)
Section Evidence.
Context `{Digest}.

Definition texts_differ_safely (es1 es2 : list AuditEntry.t) : Prop :=
  Forall2 (fun e1 e2 => compute_hash e1 = compute_hash e2 -> canonical e1 = canonical e2) es1 es2.

Lemma check_chain_cons prev e es :
  check_chain prev (e :: es) = None ->
  AuditEntry.hash e = compute_hash e /\ (forall p, prev = Some p -> AuditEntry.prev_hash e = p) /\
  check_chain (Some (AuditEntry.hash e)) es = None.
Proof.
  cbn [check_chain]. destruct (String.eqb_spec (AuditEntry.hash e) (compute_hash e)) as [Hh|]; [|done]. cbn [negb].
  destruct prev as [p|]; [|naive_solver]. destruct (String.eqb_spec (AuditEntry.prev_hash e) p); naive_solver.
Qed.

Lemma last_hash_cons prev e es : last_hash prev (e :: es) = last_hash (AuditEntry.hash e) es.
Proof. unfold last_hash. rewrite last_cons. by destruct (last es). Qed.

Lemma linked_evidence es1 es2 p1 p2 :
  texts_differ_safely es1 es2 -> String.length p1 = 64%nat -> String.length p2 = 64%nat ->
  check_chain (Some p1) es1 = None -> check_chain (Some p2) es2 = None ->
  last_hash p1 es1 = last_hash p2 es2 -> p1 = p2 /\ canonical <$> es1 = canonical <$> es2.
Proof.
  intros Hd. revert p1 p2. induction Hd as [|e1 e2 es1 es2 He Hd IH]; intros p1 p2 Hp1 Hp2 H1 H2 Hl.
  { unfold last_hash in Hl. by subst. }
  rewrite !last_hash_cons in Hl.
  apply check_chain_cons in H1 as (Hh1 & Hl1 & H1). apply check_chain_cons in H2 as (Hh2 & Hl2 & H2).
  specialize (Hl1 _ eq_refl). specialize (Hl2 _ eq_refl).
  destruct (IH (AuditEntry.hash e1) (AuditEntry.hash e2)) as [Hh Ht];
    [rewrite Hh1; apply sha256_hex_length|rewrite Hh2; apply sha256_hex_length|done..|].
  assert (canonical e1 = canonical e2) as Hc by (apply He; congruence).
  split; [|cbn; by rewrite Hc, Ht]. unfold canonical in Hc. rewrite Hl1, Hl2 in Hc.
  by apply str_app_inv in Hc as [-> _]; [|congruence].
Qed.

(** An accepted chain is evidence: two logs of one length that both pass the check at boot and end in
    the same digest have the same digested text in every entry, unless two of their entries' texts
    collide under the digest.  Whoever knows the last digest knows the whole log. *)
Theorem last_digest_fixes_log es1 es2 :
  texts_differ_safely es1 es2 -> check_chain None es1 = None -> check_chain None es2 = None ->
  last_hash "" es1 = last_hash "" es2 -> canonical <$> es1 = canonical <$> es2.
Proof.
  intros Hd H1 H2 Hl. destruct Hd as [|e1 e2 es1 es2 He Hd]; [done|]. rewrite !last_hash_cons in Hl.
  apply check_chain_cons in H1 as (Hh1 & _ & H1). apply check_chain_cons in H2 as (Hh2 & _ & H2).
  destruct (linked_evidence es1 es2 (AuditEntry.hash e1) (AuditEntry.hash e2)) as [Hh Ht];
    [done|rewrite Hh1; apply sha256_hex_length|rewrite Hh2; apply sha256_hex_length|done..|].
  cbn. rewrite Ht. f_equal. apply He. congruence.
Qed.

(** The digested text does not fix the fields: a separator inside one moves the boundary. *)
Definition moved_boundary (action resource : string) : AuditEntry.t :=
  AuditEntry.mk 1 0 action resource OUTCOME_APPLIED "admin" "" "".
Example separator_is_ambiguous :
  canonical (moved_boundary "hook.delete" "hook:a|b") = canonical (moved_boundary "hook.delete|hook:a" "b").
Proof. reflexivity. Qed.

End Evidence.

(** ** A table whose appends fail on a schedule *)
Module FlakyAudit.
(** A schedule entry is an error; it tells whether the row was stored before it.  The first [unreadable] listings
    fail. *)
Record t := mk_read { table : gmap Z AuditEntry.t; errors : list (option bool); unreadable : nat }.
Definition mk (table : gmap Z AuditEntry.t) (errors : list (option bool)) : t := mk_read table errors 0.

Definition insert (s : t) (e : AuditEntry.t) (rest : list (option bool)) : t :=
  mk_read (<[AuditEntry.seq e := e]> (table s)) rest (unreadable s).

Definition append (s : t) (e : AuditEntry.t) : t * bool :=
  match errors s with
  | Some true :: rest => (insert s e rest, false)
  | Some false :: rest => (mk_read (table s) rest (unreadable s), false)
  | None :: rest => (insert s e rest, true)
  | [] => (insert s e [], true)
  end.

Definition seq_le (a b : AuditEntry.t) : Prop := AuditEntry.seq a <= AuditEntry.seq b.
#[export] Instance seq_le_dec : RelDecision seq_le.
Proof. intros a b. unfold seq_le. apply _. Defined.
#[export] Instance seq_le_total : stdpp.base.Total seq_le.
Proof. intros a b. unfold seq_le. lia. Qed.

Definition own (ke : Z * AuditEntry.t) : Prop := AuditEntry.seq ke.2 = ke.1.
#[export] Instance own_dec ke : Decision (own ke).
Proof. unfold own. apply _. Defined.

Definition listing (s : t) : list AuditEntry.t := merge_sort seq_le (map_to_list (filter own (table s))).*2.

Lemma sorted_strict l :
  Sorted seq_le l -> NoDup (AuditEntry.seq <$> l) -> Sorted (fun a b => AuditEntry.seq a < AuditEntry.seq b) l.
Proof.
  induction 1 as [|e l Hs IH Hh]; intros Hn; constructor; apply NoDup_cons in Hn as [He Hn]; [by apply IH|].
  destruct Hh as [|e' l Hle]; constructor. unfold seq_le in Hle.
  assert (AuditEntry.seq e <> AuditEntry.seq e') by (intros E; apply He; rewrite E; left). lia.
Qed.

Lemma listing_keys (m : gmap Z AuditEntry.t) :
  AuditEntry.seq <$> (map_to_list (filter own m)).*2 = (map_to_list (filter own m)).*1.
Proof.
  rewrite <- list_fmap_compose. apply list_fmap_ext. intros i [k e] Hi. apply list_elem_of_lookup_2 in Hi.
  apply elem_of_map_to_list, map_lookup_filter_Some in Hi as [_ Ho]. exact Ho.
Qed.

Lemma listing_lists s : lists (table s) (listing s).
Proof.
  unfold lists, listing. split.
  - intros e. rewrite merge_sort_Permutation, list_elem_of_fmap. split.
    + intros ([k x] & -> & Hin). apply elem_of_map_to_list, map_lookup_filter_Some in Hin as [Hin Ho].
      cbn in *. unfold own in Ho. cbn in Ho. by rewrite Ho.
    + intros He. exists (AuditEntry.seq e, e). split; [done|].
      apply elem_of_map_to_list, map_lookup_filter_Some. done.
  - apply sorted_strict; [apply Sorted_merge_sort; apply _|].
    rewrite merge_sort_Permutation, listing_keys. apply NoDup_fst_map_to_list.
Qed.

Definition list_rows (s : t) : t * option (list AuditEntry.t) :=
  match unreadable s with
  | O => (s, Some (listing s))
  | S n => (mk_read (table s) (errors s) n, None)
  end.

#[export] Instance flaky_audit : AuditStore t.
Proof.
  refine {| rows := table; append_audit := append; list_audit := list_rows |}.
  - intros s e s' ok Ha. unfold append in Ha. destruct (errors s) as [|[[]|] rest]; injection Ha as <- <-; auto.
  - intros s s' r Hl. unfold list_rows in Hl. destruct (unreadable s); injection Hl as <- <-; [|done].
    split; [done|apply listing_lists].
Defined.
End FlakyAudit.

(** ** Examples: two failed appends, the second after its row was stored *)
#[local] Existing Instance SigDemo.sig_digest.
#[local] Existing Instance FlakyAudit.flaky_audit.

Definition demo_record (what : string) (ls : AuditLog.t * FlakyAudit.t) : AuditLog.t * FlakyAudit.t :=
  record_by what "hook:a" OUTCOME_APPLIED "admin" 1700000000 ls.1 ls.2.
Definition demo0 : AuditLog.t * FlakyAudit.t :=
  (AuditLog.set_sink AuditLog.new, FlakyAudit.mk ∅ [Some false; Some true]).
Definition demo1 : AuditLog.t * FlakyAudit.t := demo_record "hook.register" demo0.
Definition demo2 : AuditLog.t * FlakyAudit.t := demo_record "hook.update" demo1.
Definition demo3 : AuditLog.t * FlakyAudit.t := demo_record "hook.delete" demo2.

Lemma demo_reached2 : exists h, reached h demo2.1 demo2.2 None.
Proof.
  assert (exists h, reached h demo1.1 demo1.2 None) as [h Hh].
  { destruct (reached_record [] demo0.1 demo0.2 None "hook.register" "hook:a" OUTCOME_APPLIED "admin" 1700000000
      demo1.1 demo1.2) as [e He]; [by apply reached_boot|done|done|done|apply surjective_pairing|by eexists]. }
  destruct (reached_record h demo1.1 demo1.2 None "hook.update" "hook:a" OUTCOME_APPLIED "admin" 1700000000
    demo2.1 demo2.2) as [e He]; [done|done|done|done|apply surjective_pairing|by eexists].
Qed.

(** After the two errors one entry is durable, unknown to the process; a restart finds it. *)
Lemma durable_audit_always_restores_witness : exists l' s',
  boot_audit None demo2.2 = (l', s', inr 1%nat) /\
  AuditLog.durable_high demo2.1 = 0 /\ (AuditLog.seq l' = 2).
Proof.
  destruct demo_reached2 as [h Hh].
  destruct (boot_audit None demo2.2) as [[l' s'] r] eqn:E.
  destruct (durable_audit_always_restores h demo2.1 demo2.2 None l' s' r Hh E) as (k & Hkh & _ & _ & Hcase).
  assert (r = inr 1%nat) as -> by (change r with ((l', s', r).2); rewrite <- E; vm_compute; reflexivity).
  exists l', s'. split; [reflexivity|]. split; [vm_compute; reflexivity|].
  destruct Hcase as [Hno|(Hk & _ & Hseq)]; [discriminate Hno|]. injection Hk as Hk.
  destruct k as [|k]; [discriminate Hk|]. rewrite Hseq, length_take. unfold MAX_AUDIT_ENTRIES in Hk. lia.
Defined.

(** A boot that cannot read the table goes on from number one, with the table as its sink: the next entry takes
    the place of the oldest durable row, and the boot after it finds a broken chain. *)
Definition unread : AuditLog.t * FlakyAudit.t :=
  let '(l, s, _) := boot_audit None (FlakyAudit.mk_read (FlakyAudit.table demo3.2) [] 1) in
  record_by "hook.register" "hook:b" OUTCOME_APPLIED "mallory" 1700000001 l s.

Example unread_table_is_overwritten :
  (boot_audit None demo3.2).2 = inr 3%nat /\
  (AuditEntry.principal <$> FlakyAudit.table unread.2 !! 1) = Some "mallory" /\
  (boot_audit None unread.2).2 = inl (BrokenLink 2).
Proof. vm_compute. auto. Qed.

(** A store whose schedule has run out accepts everything; the witness takes one that always does. *)
Definition SteadyAudit : Type := gmap Z AuditEntry.t.
#[local] Instance steady_audit : AuditStore SteadyAudit.
Proof.
  refine {| rows s := s; append_audit s e := (<[AuditEntry.seq e := e]> s, true);
            list_audit s := (s, Some (FlakyAudit.listing (FlakyAudit.mk s []))) |}.
  - intros s e s' ok [= <- <-]. by left.
  - intros s s' r [= <- <-]. split; [done|]. apply (FlakyAudit.listing_lists (FlakyAudit.mk s [])).
Defined.

Lemma audit_catches_up_witness : exists l' (s' : SteadyAudit),
  record_by "hook.delete" "hook:a" OUTCOME_APPLIED "admin" 5 (AuditLog.set_sink AuditLog.new) ∅ = (l', s') /\
  AuditLog.durable_high l' = 1.
Proof.
  destruct (record_by "hook.delete" "hook:a" OUTCOME_APPLIED "admin" 5 (AuditLog.set_sink AuditLog.new)
    (∅ : SteadyAudit)) as [l' s'] eqn:E.
  exists l', s'. split; [reflexivity|].
  refine (proj1 (audit_catches_up [] (AuditLog.set_sink AuditLog.new) (∅ : SteadyAudit) None _ _ _ _ _ l' s' _ _ _ _ _ E)).
  - by apply reached_boot.
  - reflexivity.
  - reflexivity.
  - reflexivity.
  - done.
Defined.

Lemma last_digest_fixes_log_witness :
  canonical <$> AuditLog.entries demo3.1 = canonical <$> AuditLog.entries demo3.1.
Proof.
  refine (last_digest_fixes_log (AuditLog.entries demo3.1) (AuditLog.entries demo3.1) _ _ _ _).
  - unfold texts_differ_safely. apply Forall2_same_length_lookup_2; [reflexivity|]. intros i x y Hx Hy _. congruence.
  - vm_compute. reflexivity.
  - vm_compute. reflexivity.
  - reflexivity.
Defined.

(** A backlog longer than the ring: the entry that can no longer be written is passed over, the
    durable mark moves past it with the next row that is stored, and an outage right after leaves a
    table that a restart reports as broken.  The digest is the text after the previous digest, padded. *)
Module LongOutage.
#[local] Instance tail_digest : Digest.
Proof.
  refine {| sha256_hex s := KeysProps.Demo.pad (String.substring 64 64 s); hex_encode := SigDemo.hex |}.
  intros s. apply KeysProps.Demo.pad_length.
Defined.

Fixpoint record_times (n : nat) (ls : AuditLog.t * FlakyAudit.t) : AuditLog.t * FlakyAudit.t :=
  match n with
  | O => ls
  | Datatypes.S n => record_times n (record_by "hook.update" "hook:a" OUTCOME_APPLIED "admin" 0 ls.1 ls.2)
  end.

Definition outage : AuditLog.t * FlakyAudit.t :=
  record_times 1002 (AuditLog.set_sink AuditLog.new,
    FlakyAudit.mk ∅ (None :: replicate 1000 (Some false) ++ [None] ++ replicate 5 (Some false))).

Theorem durable_mark_passes_hole :
  AuditLog.durable_high outage.1 = 3 /\ FlakyAudit.table outage.2 !! 2 = None /\
  (restore_from_store (AuditLog.set_sink AuditLog.new) outage.2).2 = inl (BrokenLink 3).
Proof. vm_compute. auto. Qed.
End LongOutage.
