(* ===== verification/AdminState.v ===== *)
(** * Administrative rate limits and configuration history (crates/busbar/src/admin/rate.rs,
    admin/versions.rs, auth/mod.rs)

    The fixed-window limiter of mutations and the class a mutation is metered in, and the bounded log of
    configuration versions.  Theorems: every check of the limiter answers as a counter over the whole
    history would, and the version log is the last hundred records. *)
From stdpp Require Import base gmap list strings sorting.
From Stdlib Require Import ZArith Lia Ascii.
From S2P Require Import Prelude Signing.
Open Scope Z_scope.

(** ** The limiter *)
Definition MUTATION_RATE_WINDOW_SECS : Z := 60.

Inductive MutationClass := ConfigClass | Crud.
#[export] Instance MutationClass_eq_dec : EqDecision MutationClass.
Proof. solve_decision. Defined.
#[export] Instance MutationClass_countable : Countable MutationClass.
Proof.
  refine (inj_countable' (fun c => match c with ConfigClass => true | Crud => false end)
    (fun b => if b then ConfigClass else Crud) _). by intros [].
Defined.

Definition limit (c : MutationClass) : Z := match c with ConfigClass => 10 | Crud => 60 end.
Definition label (c : MutationClass) : string := match c with ConfigClass => "config" | Crud => "crud" end.

(** The class of a mutation by its path (the middleware of auth/mod.rs). *)
Definition ADMIN_PREFIX : string := "/api/v1/admin".
Definition PATH_CONFIG_VALIDATE : string := "/config/validate".
Definition PATH_ADMIN_AUTH : string := "/admin-auth".
Definition mutation_class (path : string) : MutationClass :=
  let rel := default path (strip_prefix ADMIN_PREFIX path) in
  if (starts_with rel "/config/" && negb (String.eqb rel PATH_CONFIG_VALIDATE))
     || String.eqb rel PATH_ADMIN_AUTH || starts_with rel "/overlay/"
  then ConfigClass else Crud.

Definition LimitKey : Type := string * MutationClass.

(** The windows: start and attempts spent, by principal and class; absent until the first check. *)
Module MutationLimiter.
Record t := mk { windows : option (gmap LimitKey (Z * Z)) }.
Definition new : t := mk None.
End MutationLimiter.

Definition window_of (now : Z) : Z := now - now mod MUTATION_RATE_WINDOW_SECS.

Definition check (principal : string) (class : MutationClass) (now : Z) (l : MutationLimiter.t)
    : MutationLimiter.t * bool :=
  let window := window_of now in
  let map := default ∅ (MutationLimiter.windows l) in
  let map := filter (fun kw : LimitKey * (Z * Z) => kw.2.1 = window) map in
  let '(w, n) := default (window, 0) (map !! (principal, class)) in
  if limit class <=? n then (MutationLimiter.mk (Some (<[(principal, class) := (w, n)]> map)), false)
  else (MutationLimiter.mk (Some (<[(principal, class) := (w, wrap_u32 (n + 1))]> map)), true).

(** *** The limiter counts *)
Definition Attempt : Type := string * MutationClass * Z.
Definition at_key (k : LimitKey) (w : Z) (a : Attempt) : bool :=
  bool_decide (a.1 = k) && (window_of a.2 =? w).

(** Attempts of a principal in a class within one window. *)
Definition attempts (h : list Attempt) (k : LimitKey) (w : Z) : Z := Z.of_nat (length (List.filter (at_key k w) h)).

Fixpoint checks (h : list Attempt) (l : MutationLimiter.t) : MutationLimiter.t * list bool :=
  match h with
  | [] => (l, [])
  | (p, c, now) :: h =>
      let '(l, ok) := check p c now l in
      let '(l, oks) := checks h l in (l, ok :: oks)
  end.

(** The reference: an attempt passes when fewer than the limit came before it in its window. *)
Fixpoint reference (before h : list Attempt) : list bool :=
  match h with
  | [] => []
  | a :: h => (attempts before a.1 (window_of a.2) <? limit a.1.2) :: reference (before ++ [a]) h
  end.

(** The map holds exactly the counts of the current window, saturated at the limit. *)
Definition counts (h : list Attempt) (now : Z) (l : MutationLimiter.t) : Prop :=
  forall k, default ∅ (MutationLimiter.windows l) !! k =
    let n := attempts h k (window_of now) in
    if 0 <? n then Some (window_of now, Z.min n (limit k.2)) else None.

Lemma limit_pos c : 0 < limit c <= 60.
Proof. by destruct c. Qed.

Lemma window_mono a b : a <= b -> window_of a <= window_of b.
Proof.
  unfold window_of, MUTATION_RATE_WINDOW_SECS. intros Hab.
  pose proof (Z.div_mod a 60). pose proof (Z.div_mod b 60). pose proof (Z.div_le_mono a b 60). lia.
Qed.

Lemma attempts_snoc h a k w : attempts (h ++ [a]) k w = attempts h k w + if at_key k w a then 1 else 0.
Proof. unfold attempts. rewrite List.filter_app, length_app. cbn. destruct (at_key k w a); cbn; lia. Qed.

Lemma attempts_nonneg h k w : 0 <= attempts h k w.
Proof. unfold attempts. lia. Qed.

(** No attempt lies in a window that starts after all of them. *)
Lemma attempts_later h k t now :
  Forall (fun a : Attempt => a.2 <= t) h -> window_of t < window_of now -> attempts h k (window_of now) = 0.
Proof.
  intros Hh Hw. unfold attempts. replace (List.filter (at_key k (window_of now)) h) with (@nil Attempt); [done|].
  induction Hh as [|a h Ha Hh IH]; [done|]. cbn. unfold at_key at 1.
  apply window_mono in Ha. destruct (Z.eqb_spec (window_of a.2) (window_of now)); [lia|]. by rewrite andb_false_r.
Qed.

(** Entering the window of a later check keeps the counts. *)
Lemma sweep_counts h t now l k :
  Forall (fun a : Attempt => a.2 <= t) h -> t <= now -> counts h t l ->
  filter (fun kw : LimitKey * (Z * Z) => kw.2.1 = window_of now) (default ∅ (MutationLimiter.windows l)) !! k =
  let n := attempts h k (window_of now) in
  if 0 <? n then Some (window_of now, Z.min n (limit k.2)) else None.
Proof.
  intros Hh Ht Hc. specialize (Hc k). apply window_mono in Ht.
  destruct (Z.eq_dec (window_of t) (window_of now)) as [He|Hne].
  - rewrite He in Hc. rewrite map_lookup_filter, Hc. cbn zeta. destruct (0 <? _); [|done]. cbn. by rewrite option_guard_True.
  - cbn zeta. rewrite (attempts_later h k t now Hh ltac:(lia)). cbn. apply map_lookup_filter_None. right.
    intros x Hx. rewrite Hc in Hx. cbn zeta in Hx. destruct (0 <? _); [|done]. injection Hx as <-. cbn. lia.
Qed.

Lemma check_counts h t p c now l :
  Forall (fun a : Attempt => a.2 <= t) h -> t <= now -> counts h t l ->
  let '(l', ok) := check p c now l in
  ok = (attempts h (p, c) (window_of now) <? limit c) /\ counts (h ++ [((p, c), now)]) now l'.
Proof.
  intros Hh Ht Hc. unfold check. cbn zeta. pose proof (sweep_counts h t now l) as Hs.
  set (m := filter _ _) in *. assert (forall k, m !! k = _) as Hm by (intros k; exact (Hs k Hh Ht Hc)). clear Hs.
  rewrite Hm. cbn zeta. cbn [snd]. set (n := attempts h (p, c) (window_of now)). pose proof (attempts_nonneg h (p, c) (window_of now)) as Hn.
  fold n in Hn. pose proof (limit_pos c) as Hl.
  assert (default (window_of now, 0) (if 0 <? n then Some (window_of now, Z.min n (limit c)) else None)
    = (window_of now, Z.min n (limit c))) as ->.
  { destruct (Z.ltb_spec 0 n); cbn; [done|]. f_equal. lia. }
  assert (forall x l', x = Z.min (n + 1) (limit c) ->
    MutationLimiter.windows l' = Some (<[(p, c) := (window_of now, x)]> m) -> counts (h ++ [((p, c), now)]) now l') as Hnext.
  { intros x l' -> Hl' k. rewrite Hl'. cbn [default from_option id]. cbn zeta. rewrite attempts_snoc. unfold at_key. cbn [fst snd].
    rewrite Z.eqb_refl, andb_true_r. destruct (decide ((p, c) = k)) as [<-|Hne].
    - rewrite lookup_insert_eq, bool_decide_true by done. fold n. destruct (Z.ltb_spec 0 (n + 1)); [done|lia].
    - rewrite lookup_insert_ne, bool_decide_false, Z.add_0_r by done. apply Hm. }
  destruct (Z.leb_spec (limit c) (Z.min n (limit c))); split.
  - symmetry. apply Z.ltb_ge. lia.
  - eapply Hnext; [|done]. lia.
  - symmetry. apply Z.ltb_lt. lia.
  - eapply Hnext; [|done]. rewrite wrap_u32_id by mach_lia. lia.
Qed.

Lemma checks_reference h before t l :
  Forall (fun a : Attempt => a.2 <= t) before -> StronglySorted Z.le (t :: h.*2) -> counts before t l ->
  (checks h l).2 = reference before h.
Proof.
  revert before t l. induction h as [|[[p c] now] h IH]; intros before t l Hb Hs Hc; [done|].
  apply StronglySorted_inv in Hs as [Hs Ht]. apply Forall_cons_1 in Ht as [Ht _]. cbn [snd] in Ht.
  cbn [checks reference]. pose proof (check_counts before t p c now l Hb Ht Hc) as Hstep.
  destruct (check p c now l) as [l' ok]. destruct Hstep as [-> Hc'].
  specialize (IH (before ++ [((p, c), now)]) now l'). destruct (checks h l') as [l'' oks]. cbn [snd fst] in *.
  f_equal. apply IH; [|done|done]. apply Forall_app. split; [|by repeat constructor].
  eapply Forall_impl; [done|]. cbn. lia.
Qed.

(** The mutation limiter is exact: over any history of checks with a clock that does not go back,
    an attempt is let through precisely when fewer than ten (configuration) or sixty (other) attempts of
    the same principal in the same class came before it in its minute, failed ones counted; sweeping
    the map never loses a count and nobody's attempts touch another's budget. *)
Theorem limiter_is_exact h t :
  StronglySorted Z.le (t :: h.*2) -> (checks h MutationLimiter.new).2 = reference [] h.
Proof. intros Hs. apply (checks_reference h [] t); [done|done|]. intros k. exact (lookup_empty k). Qed.

Lemma limiter_is_exact_witness :
  (checks (replicate 11 ("a", ConfigClass, 5) ++ [("a", Crud, 6); ("b", ConfigClass, 7); ("a", ConfigClass, 61)])
     MutationLimiter.new).2 = replicate 10 true ++ [false; true; true; true].
Proof.
  rewrite (limiter_is_exact _ 0); [vm_compute; reflexivity|].
  repeat (constructor; [|by repeat constructor]). constructor.
Defined.

(** ** The version log.  A hook definition is whatever the configuration parses; the log only copies it. *)
Definition MAX_VERSIONS : nat := 100.

Section Versions.
Context {HookCfg : Type}.

Record ConfigVersion := mk_version {
  version : Z; ts : Z; v_principal : string; summary : string;
  hook_registry : gmap string HookCfg; global_hooks : list string }.

(** [PersistedVersion] has the same fields. *)
Record PersistedVersion := mk_persisted {
  p_version : Z; p_ts : Z; p_principal : string; p_summary : string;
  p_hook_registry : gmap string HookCfg; p_global_hooks : list string }.

(** The ring, oldest first. *)
Definition VersionLog : Type := list ConfigVersion.

Definition record_version (v : ConfigVersion) (q : VersionLog) : VersionLog :=
  let q := List.filter (fun x => negb (version x =? version v)) q in
  drop (length q + 1 - MAX_VERSIONS) q ++ [v].

Definition list_versions (offset limit : nat) (q : VersionLog) : list ConfigVersion :=
  take limit (drop offset (rev q)).

Definition get_version (v : Z) (q : VersionLog) : option ConfigVersion :=
  find (fun x => version x =? v) q.

Definition export_versions (q : VersionLog) : list PersistedVersion :=
  (fun v => mk_persisted (version v) (ts v) (v_principal v) (summary v) (hook_registry v) (global_hooks v)) <$> q.

Definition load_versions (l : list PersistedVersion) : VersionLog :=
  (fun v => mk_version (p_version v) (p_ts v) (p_principal v) (p_summary v) (p_hook_registry v) (p_global_hooks v)) <$> l.

(** *** The last record of each version, in the order they were last recorded *)
Fixpoint latest (records : list ConfigVersion) : list ConfigVersion :=
  match records with
  | [] => []
  | v :: records => if existsb (fun x => version x =? version v) records then latest records else v :: latest records
  end.

Lemma latest_snoc records v :
  latest (records ++ [v]) = List.filter (fun x => negb (version x =? version v)) (latest records) ++ [v].
Proof.
  induction records as [|x records IH]; [done|]. cbn [app latest]. rewrite existsb_app. cbn [existsb].
  rewrite orb_false_r. destruct (existsb _ records) eqn:E; [exact IH|]. cbn [orb].
  cbn [List.filter]. rewrite (Z.eqb_sym (version x)). destruct (version v =? version x); [exact IH|]. cbn. by rewrite IH.
Qed.

Lemma filter_drop_last {A} (f : A -> bool) n (l : list A) :
  exists k, List.filter f (drop n l) = drop k (List.filter f l) /\ (k <= n)%nat.
Proof.
  revert l. induction n as [|n IH]; intros l; [by exists 0%nat|]. destruct l as [|x l]; [by exists 0%nat; split; [|lia]|].
  destruct (IH l) as (k & Hk & Hle). cbn. destruct (f x); [exists (S k)|exists k]; (split; [exact Hk|lia]).
Qed.

(** The ring is a recent part of the latest records, and full before anything is dropped. *)
Definition retained (records : list ConfigVersion) (q : VersionLog) : Prop :=
  exists k, q = drop k (latest records) /\ (length q <= MAX_VERSIONS)%nat.

Lemma record_retained records v q : retained records q -> retained (records ++ [v]) (record_version v q).
Proof.
  intros (k & -> & Hl). unfold retained, record_version. rewrite latest_snoc.
  set (f := fun x => negb (version x =? version v)).
  destruct (filter_drop_last f k (latest records)) as (j & -> & _).
  set (r := List.filter f (latest records)). set (n := (length (drop j r) + 1 - MAX_VERSIONS)%nat).
  rewrite drop_drop. destruct (Nat.le_gt_cases (j + n) (length r)) as [Hle|Hgt].
  - exists (j + n)%nat. rewrite drop_app_le by done. split; [done|].
    rewrite length_app, length_drop. unfold n. rewrite length_drop. unfold MAX_VERSIONS. cbn. lia.
  - exists (length r). rewrite drop_app_le, drop_all by lia. rewrite drop_ge by lia. split; [done|].
    unfold MAX_VERSIONS. cbn. lia.
Qed.

Definition recorded (records : list ConfigVersion) : VersionLog := foldl (fun q v => record_version v q) [] records.

Lemma recorded_snoc records v : recorded (records ++ [v]) = record_version v (recorded records).
Proof. unfold recorded. by rewrite foldl_snoc. Qed.

Lemma recorded_retained records : retained records (recorded records).
Proof.
  induction records as [|v records IH] using rev_ind; [by exists 0%nat; split; [|unfold MAX_VERSIONS; cbn; lia]|].
  rewrite recorded_snoc. by apply record_retained.
Qed.

Lemma get_version_found v q : NoDup (version <$> q) -> v ∈ q -> get_version (version v) q = Some v.
Proof.
  intros Hn Hv. induction q as [|x q IH]; [by apply not_elem_of_nil in Hv|]. apply NoDup_cons in Hn as [Hx Hn].
  unfold get_version. cbn [find]. apply elem_of_cons in Hv as [->|Hv]; [by rewrite Z.eqb_refl|].
  destruct (Z.eqb_spec (version x) (version v)) as [He|]; [|by apply IH].
  destruct Hx. rewrite He. by apply list_elem_of_fmap_2.
Qed.

Lemma recorded_distinct records :
  NoDup (version <$> records) -> recorded records = drop (length records - MAX_VERSIONS) records.
Proof.
  induction records as [|v records IH] using rev_ind; intros Hn; [done|].
  rewrite fmap_app in Hn. apply NoDup_app in Hn as (Hn & Hnot & _). rewrite recorded_snoc, (IH Hn).
  unfold record_version. set (q := drop (length records - MAX_VERSIONS) records).
  assert (List.filter (fun x => negb (version x =? version v)) q = q) as ->.
  { assert (Forall (fun x => version x <> version v) q) as Hq.
    { apply Forall_forall. intros x Hx He. apply subseteq_drop in Hx. apply (Hnot (version x)).
      - by apply list_elem_of_fmap_2.
      - rewrite He. by left. }
    clear -Hq. induction Hq as [|x q Hx Hq IH]; [done|]. cbn. apply Z.eqb_neq in Hx. rewrite Hx. cbn. by rewrite IH. }
  unfold q. rewrite drop_drop, length_drop, length_app, (drop_app_le records) by (unfold MAX_VERSIONS; cbn; lia).
  f_equal. f_equal. unfold MAX_VERSIONS. cbn. lia.
Qed.

Lemma load_export q : load_versions (export_versions q) = q.
Proof. induction q as [|[] q IH]; [done|]. cbn. f_equal. exact IH. Qed.

(** The version log is the last hundred mutations: with the process's increasing version numbers it
    holds exactly the hundred newest records, answers for each of them and for no other version, lists
    newest first, and comes back unchanged from its persisted form. *)
Theorem version_log_keeps_last records :
  NoDup (version <$> records) ->
  let q := recorded records in
  q = drop (length records - MAX_VERSIONS) records /\ (length q <= MAX_VERSIONS)%nat /\
  (forall v, v ∈ q -> get_version (version v) q = Some v) /\
  (forall n, get_version n q = None <-> n ∉ version <$> q) /\
  list_versions 0 (length q) q = rev q /\ load_versions (export_versions q) = q.
Proof.
  intros Hn q. assert (NoDup (version <$> q)) as Hq.
  { unfold q. rewrite recorded_distinct, fmap_drop by done. rewrite <- (take_drop (length records - MAX_VERSIONS) (version <$> records)) in Hn.
    by apply NoDup_app in Hn as (_ & _ & Hn). }
  destruct (recorded_retained records) as (k & _ & Hlen).
  split_and!; [by apply recorded_distinct|done|intros v; by apply get_version_found| | |apply load_export].
  - intros n. unfold get_version. split.
    + intros Hf Hin. apply list_elem_of_fmap in Hin as (v & -> & Hv). rewrite list_elem_of_In in Hv.
      apply (find_none _ _ Hf) in Hv. rewrite Z.eqb_refl in Hv. done.
    + intros Hnot. destruct (find _ q) as [v|] eqn:Hf; [|done]. apply find_some in Hf as [Hv He].
      apply Z.eqb_eq in He as <-. destruct Hnot. apply list_elem_of_fmap_2. by rewrite list_elem_of_In.
  - unfold list_versions. cbn [drop]. apply take_ge. by rewrite length_rev.
Qed.

End Versions.
Arguments ConfigVersion : clear implicits.
Arguments VersionLog : clear implicits.

Definition demo_version (n : Z) : ConfigVersion unit := mk_version n n "admin" "hook.register" ∅ [].

Lemma version_log_keeps_last_witness :
  get_version 1 (recorded (demo_version <$> seqZ 1 101)) = None /\
  get_version 2 (recorded (demo_version <$> seqZ 1 101)) = Some (demo_version 2).
Proof.
  destruct (version_log_keeps_last (demo_version <$> seqZ 1 101)) as (Hq & _ & Hget & Hnone & _).
  - rewrite <- list_fmap_compose. change (version ∘ demo_version) with (@id Z). rewrite list_fmap_id. apply NoDup_seqZ.
  - split.
    + apply Hnone, (bool_decide_unpack _). vm_compute. exact I.
    + apply (Hget (demo_version 2)).
      assert (recorded (demo_version <$> seqZ 1 101) = demo_version <$> seqZ 2 100) as -> by (vm_compute; reflexivity).
      apply list_elem_of_fmap_2, elem_of_seqZ. lia.
Defined.
