(* ===== verification/Json.v ===== *)
(** * JSON values and text (the parts of serde_json and [str] the engine uses)

    [serde_json::Value] with its accessors, built without the [preserve_order] feature: an object is a
    map ordered by key, here a list of members in key order.  A [&str] is the string of its UTF-8
    bytes; [chars] decodes it as [str::chars] does and [of_chars] is [String::push] over a list.
    Theorems: decoding inverts encoding, and the laws of [get] and [insert]. *)
From stdpp Require Import base list strings.
From Stdlib Require Import ZArith Lia Ascii.
From S2P Require Import Prelude Cell.
Open Scope Z_scope.

(** ** Numbers and values *)
Inductive Number := PosInt (n : Z) | NegInt (z : Z) | Float (x : f64).

Inductive Value :=
  | Null
  | Bool (b : bool)
  | Num (n : Number)
  | Str (s : string)
  | Array (l : list Value)
  | Object (m : list (string * Value)).

Notation Map := (list (string * Value)).

Definition map_get (k : string) (m : Map) : option Value := snd <$> find (fun kv => String.eqb kv.1 k) m.

(** [Map::insert]: replaces the member, or adds it at its place in key order. *)
Fixpoint map_insert (k : string) (v : Value) (m : Map) : Map :=
  match m with
  | [] => [(k, v)]
  | (k', v') :: m' =>
      match String.compare k k' with
      | Lt => (k, v) :: m
      | Eq => (k, v) :: m'
      | Gt => (k', v') :: map_insert k v m'
      end
  end.

Definition map_remove (k : string) (m : Map) : Map := List.filter (fun kv => negb (String.eqb kv.1 k)) m.

Definition get (k : string) (v : Value) : option Value := match v with Object m => map_get k m | _ => None end.
Definition as_str (v : Value) : option string := match v with Str s => Some s | _ => None end.
Definition as_bool (v : Value) : option bool := match v with Bool b => Some b | _ => None end.
Definition as_array (v : Value) : option (list Value) := match v with Array l => Some l | _ => None end.
Definition as_object (v : Value) : option Map := match v with Object m => Some m | _ => None end.
Definition as_u64 (v : Value) : option Z := match v with Num (PosInt n) => Some n | _ => None end.
Definition as_i64 (v : Value) : option Z :=
  match v with
  | Num (PosInt n) => if n <=? I64_MAX then Some n else None
  | Num (NegInt z) => Some z
  | _ => None
  end.
Definition is_array (v : Value) : bool := match v with Array _ => true | _ => false end.

(** [get] followed by an accessor, the commonest read. *)
Definition get_str (k : string) (v : Value) : option string := v ← get k v; as_str v.
Definition get_array (k : string) (v : Value) : option (list Value) := v ← get k v; as_array v.

Lemma map_get_insert k k' v m :
  map_get k' (map_insert k v m) = if String.eqb k k' then Some v else map_get k' m.
Proof.
  unfold map_get. induction m as [|[k1 v1] m IH]; cbn.
  - by destruct (String.eqb_spec k k').
  - destruct (String.compare k k1) eqn:E; cbn.
    + apply String.compare_eq_iff in E as ->. by destruct (String.eqb_spec k1 k').
    + by destruct (String.eqb_spec k k').
    + destruct (String.eqb_spec k1 k') as [->|]; cbn.
      * destruct (String.eqb_spec k k') as [->|]; [|done].
        pose proof (String.compare_antisym k' k') as E'. rewrite E in E'. done.
      * exact IH.
Qed.

Lemma map_get_remove k k' m : map_get k' (map_remove k m) = if String.eqb k k' then None else map_get k' m.
Proof.
  unfold map_get, map_remove. induction m as [|[k1 v1] m IH]; cbn; [by destruct (String.eqb k k')|].
  destruct (String.eqb_spec k1 k) as [->|]; cbn.
  - destruct (String.eqb_spec k k'); [done|]. by rewrite IH.
  - destruct (String.eqb_spec k1 k') as [->|]; cbn; [|exact IH]. by destruct (String.eqb_spec k k') as [->|].
Qed.

(** ** Characters *)
Definition byte (a : ascii) : Z := Z.of_N (N_of_ascii a).
Definition char_of (z : Z) : ascii := ascii_of_N (Z.to_N z).

(** [core::str::next_code_point] on well-formed UTF-8. *)
Fixpoint chars (s : string) : list Z :=
  match s with
  | EmptyString => []
  | String a0 r0 =>
      let x := byte a0 in
      if x <? 128 then x :: chars r0
      else match r0 with
      | EmptyString => []
      | String a1 r1 =>
          let y := Z.land (byte a1) 63 in
          if x <? 224 then Z.lor (Z.shiftl (Z.land x 31) 6) y :: chars r1
          else match r1 with
          | EmptyString => []
          | String a2 r2 =>
              let yz := Z.lor (Z.shiftl y 6) (Z.land (byte a2) 63) in
              if x <? 240 then Z.lor (Z.shiftl (Z.land x 31) 12) yz :: chars r2
              else match r2 with
              | EmptyString => []
              | String a3 r3 =>
                  Z.lor (Z.shiftl (Z.land x 7) 18) (Z.lor (Z.shiftl yz 6) (Z.land (byte a3) 63)) :: chars r3
              end
          end
      end
  end.

(** [char::encode_utf8]. *)
Definition push (c : Z) (s : string) : string :=
  if c <? 128 then String (char_of c) s
  else if c <? 2048 then
    String (char_of (Z.lor (Z.land (Z.shiftr c 6) 31) 192)) (String (char_of (Z.lor (Z.land c 63) 128)) s)
  else if c <? 65536 then
    String (char_of (Z.lor (Z.land (Z.shiftr c 12) 15) 224))
      (String (char_of (Z.lor (Z.land (Z.shiftr c 6) 63) 128)) (String (char_of (Z.lor (Z.land c 63) 128)) s))
  else
    String (char_of (Z.lor (Z.land (Z.shiftr c 18) 7) 240))
      (String (char_of (Z.lor (Z.land (Z.shiftr c 12) 63) 128))
         (String (char_of (Z.lor (Z.land (Z.shiftr c 6) 63) 128)) (String (char_of (Z.lor (Z.land c 63) 128)) s))).

Definition of_chars (l : list Z) : string := foldr push EmptyString l.

(** A [char]: a scalar value. *)
Definition scalar (c : Z) : Prop := 0 <= c < 55296 \/ 57344 <= c < 1114112.
(** A [&str]. *)
Definition utf8 (s : string) : Prop := exists l, Forall scalar l /\ s = of_chars l.

Lemma byte_char z : 0 <= z < 256 -> byte (char_of z) = z.
Proof. intros H. unfold byte, char_of. rewrite N_ascii_embedding; lia. Qed.

(** Masks and tags of the encoding as arithmetic. *)
Lemma mask z n : 0 <= n -> Z.land z (Z.ones n) = z mod 2 ^ n.
Proof. apply Z.land_ones. Qed.

Lemma tag h n v : 0 <= n -> 0 <= v < 2 ^ n -> Z.lor v (h * 2 ^ n) = h * 2 ^ n + v.
Proof. intros Hn Hv. rewrite Z.lor_comm. by apply lor_add_low. Qed.

Lemma tail_byte z : byte (char_of (Z.lor (Z.land z 63) 128)) = 128 + z mod 64.
Proof.
  change 63 with (Z.ones 6). rewrite mask by lia. change 128 with (2 * 2 ^ 6).
  rewrite tag by (try apply Z.mod_pos_bound; lia). change (2 ^ 6) with 64.
  pose proof (Z.mod_pos_bound z 64). apply byte_char. lia.
Qed.

Lemma lead_byte z n h : 0 <= n -> 0 <= h -> (h + 1) * 2 ^ n <= 256 ->
  byte (char_of (Z.lor (Z.land z (Z.ones n)) (h * 2 ^ n))) = h * 2 ^ n + z mod 2 ^ n.
Proof.
  intros Hn Hh Hb. assert (0 <= z mod 2 ^ n < 2 ^ n) by (apply Z.mod_pos_bound; lia).
  rewrite mask, tag by done. apply byte_char. lia.
Qed.

Lemma join h l n : 0 <= n -> 0 <= l < 2 ^ n -> Z.lor (Z.shiftl h n) l = h * 2 ^ n + l.
Proof. intros. rewrite Z.shiftl_mul_pow2 by done. by apply lor_add_low. Qed.

Lemma payload z : Z.land (128 + z mod 64) 63 = z mod 64.
Proof.
  change 63 with (Z.ones 6). rewrite mask by lia. change (2 ^ 6) with 64.
  pose proof (Z.mod_pos_bound z 64). replace (128 + z mod 64) with (z mod 64 + 2 * 64) by lia.
  by rewrite Z.mod_add, Z.mod_mod by lia.
Qed.

Lemma payloads_join hi lo : Z.lor (Z.shiftl hi 6) (lo mod 64) = hi * 64 + lo mod 64.
Proof. apply (join hi (lo mod 64) 6); [lia|]. by apply Z.mod_pos_bound. Qed.

Lemma split64 c : c = c / 64 * 64 + c mod 64.
Proof. pose proof (Z.div_mod c 64). lia. Qed.

(** What a lead byte with tag [h] over [n] payload bits carries, when the payload fits. *)
Lemma lead_read h n m z : 0 <= n <= m -> 0 <= h -> h mod 2 ^ (m - n) = 0 -> 0 <= z < 2 ^ n ->
  Z.land (h * 2 ^ n + z) (Z.ones m) = z.
Proof.
  intros Hn Hh Hm Hz. rewrite mask by lia. assert (0 < 2 ^ (m - n)) by (apply Z.pow_pos_nonneg; lia).
  apply Z.mod_divide in Hm as [k ->]; [|lia].
  replace (k * 2 ^ (m - n) * 2 ^ n) with (k * 2 ^ m)
    by (rewrite <- Z.mul_assoc, <- Z.pow_add_r by lia; do 2 f_equal; lia).
  rewrite Z.add_comm, Z.mod_add by (apply Z.pow_nonzero; lia). apply Z.mod_small. split; [lia|].
  assert (2 ^ n <= 2 ^ m) by (apply Z.pow_le_mono_r; lia). lia.
Qed.

Lemma lead2 z : 0 <= z < 32 -> byte (char_of (Z.lor (Z.land z 31) 192)) = 192 + z /\ Z.land (192 + z) 31 = z.
Proof.
  intros Hz. split; [|apply (lead_read 6 5 5); done || lia].
  etransitivity; [apply (lead_byte z 5 6); lia|]. change (2 ^ 5) with 32. rewrite Z.mod_small by lia. lia.
Qed.

Lemma lead3 z : 0 <= z < 16 -> byte (char_of (Z.lor (Z.land z 15) 224)) = 224 + z /\ Z.land (224 + z) 31 = z.
Proof.
  intros Hz. split; [|apply (lead_read 14 4 5); done || lia].
  etransitivity; [apply (lead_byte z 4 14); lia|]. change (2 ^ 4) with 16. rewrite Z.mod_small by lia. lia.
Qed.

Lemma lead4 z : 0 <= z < 8 -> byte (char_of (Z.lor (Z.land z 7) 240)) = 240 + z /\ Z.land (240 + z) 7 = z.
Proof.
  intros Hz. split; [|apply (lead_read 30 3 3); done || lia].
  etransitivity; [apply (lead_byte z 3 30); lia|]. change (2 ^ 3) with 8. rewrite Z.mod_small by lia. lia.
Qed.

Ltac compare_lits := repeat match goal with |- context [?a <? ?b] => destruct (Z.ltb_spec a b); try lia end.

Lemma chars_push c s : scalar c -> chars (push c s) = c :: chars s.
Proof.
  intros Hc. assert (0 <= c < 1114112) as Hr by (destruct Hc; lia). clear Hc. unfold push.
  destruct (Z.ltb_spec c 128) as [|H1]; [cbn [chars]; rewrite byte_char by lia; by destruct (Z.ltb_spec c 128); [|lia]|].
  assert (0 <= c / 64) by (apply Z.div_pos; lia).
  assert (0 <= c / 64 / 64) by (apply Z.div_pos; lia). assert (0 <= c / 64 / 64 / 64) by (apply Z.div_pos; lia).
  pose proof (split64 c). pose proof (split64 (c / 64)). pose proof (split64 (c / 64 / 64)).
  pose proof (Z.mod_pos_bound c 64). pose proof (Z.mod_pos_bound (c / 64) 64).
  pose proof (Z.mod_pos_bound (c / 64 / 64) 64).
  assert (Z.shiftr c 6 = c / 64 /\ Z.shiftr c 12 = c / 64 / 64 /\ Z.shiftr c 18 = c / 64 / 64 / 64) as (-> & -> & ->)
    by (rewrite !Z.shiftr_div_pow2, !Z.div_div by lia; done).
  destruct (Z.ltb_spec c 2048); [|destruct (Z.ltb_spec c 65536)]; cbn [chars];
    rewrite ?tail_byte, ?payload, ?payloads_join.
  - destruct (lead2 (c / 64)) as [-> ->]; [lia|]. compare_lits. f_equal. lia.
  - destruct (lead3 (c / 64 / 64)) as [-> ->]; [lia|]. compare_lits. f_equal.
    rewrite join by lia. lia.
  - destruct (lead4 (c / 64 / 64 / 64)) as [-> ->]; [lia|]. compare_lits. f_equal.
    rewrite join by lia. lia.
Qed.

Lemma chars_of_chars l : Forall scalar l -> chars (of_chars l) = l.
Proof. unfold of_chars. induction 1; cbn [foldr]; [done|]. by rewrite chars_push, IHForall by done. Qed.

Lemma utf8_scalars s : utf8 s -> Forall scalar (chars s) /\ of_chars (chars s) = s.
Proof. intros (l & Hl & ->). by rewrite chars_of_chars. Qed.

Lemma utf8_of_chars l : Forall scalar l -> utf8 (of_chars l).
Proof. intros H. by exists l. Qed.

(** [char::is_whitespace] and [char::is_control]. *)
Definition char_is_whitespace (c : Z) : bool :=
  ((9 <=? c) && (c <=? 13)) || (c =? 32) || (c =? 133) || (c =? 160) || (c =? 5760) ||
  ((8192 <=? c) && (c <=? 8202)) || (c =? 8232) || (c =? 8233) || (c =? 8239) || (c =? 8287) || (c =? 12288).
Definition char_is_control (c : Z) : bool := ((0 <=? c) && (c <=? 31)) || ((127 <=? c) && (c <=? 159)).

Fixpoint drop_while {A} (p : A -> bool) (l : list A) : list A :=
  match l with [] => [] | a :: l' => if p a then drop_while p l' else l end.

(** [str::trim]. *)
Definition trim_chars (l : list Z) : list Z :=
  rev (drop_while char_is_whitespace (rev (drop_while char_is_whitespace l))).
Definition trim (s : string) : string := of_chars (trim_chars (chars s)).
Definition is_empty (s : string) : bool := String.eqb s "".

Lemma drop_while_suffix {A} (p : A -> bool) l : exists l1, l = l1 ++ drop_while p l /\ Forall (fun a => p a = true) l1.
Proof.
  induction l as [|a l (l1 & IH & Hl)]; cbn; [by exists []|].
  destruct (p a) eqn:E; [|by exists []]. exists (a :: l1). split; [cbn; congruence|by constructor].
Qed.

Lemma trim_chars_nil l : trim_chars l = [] <-> Forall (fun c => char_is_whitespace c = true) l.
Proof.
  unfold trim_chars. split.
  - intros E. apply (f_equal (@rev Z)) in E. rewrite rev_involutive in E. cbn in E.
    destruct (drop_while_suffix char_is_whitespace l) as (l1 & El & Hl).
    destruct (drop_while_suffix char_is_whitespace (rev (drop_while char_is_whitespace l))) as (l2 & Er & Hr).
    rewrite E, app_nil_r in Er. rewrite El. apply Forall_app. split; [done|].
    rewrite <- (rev_involutive (drop_while _ l)), Er. by apply Forall_rev.
  - intros H. replace (drop_while char_is_whitespace l) with (@nil Z); [done|].
    by induction H as [|a l Ha H IH]; cbn; [|rewrite Ha].
Qed.

Lemma push_not_empty c s : push c s <> ""%string.
Proof. unfold push. repeat case_match; done. Qed.

Lemma of_chars_empty l : of_chars l = ""%string <-> l = [].
Proof. split; [|by intros ->]. destruct l; [done|]. intros E. by apply push_not_empty in E. Qed.
