(* ===== verification/HookWire.v ===== *)
(** * The hook contract (crates/api/src/hooks.rs)

    What a routing policy is shown and what it may answer.  A policy is a name and what it answers to
    the one call a request makes of it: [decide] or [transform], either of which may fail or time out
    ([None]).  Wall-clock deadlines are part of those answers. *)
From stdpp Require Import base gmap list strings.
From Stdlib Require Import ZArith Lia.
From S2P Require Import Prelude Cell Ledger Json.
Open Scope Z_scope.

Module PromptProjection.
Record t := mk { system : option string; messages : list (string * string) }.
End PromptProjection.

Module CallerIdentity.
Record t := mk { key_id : option string; key_name : option string; user : option string }.
End CallerIdentity.

Module RoutingRequest.
Record t := mk {
  pool : string; ingress_protocol : string; requested_model : option string;
  message_count : nat; tool_count : nat; has_tools : bool; total_chars : nat; system_chars : nat;
  max_tokens : option Z; stream : bool;
  prompt : option PromptProjection.t; identity : option CallerIdentity.t }.
(** [RoutingRequest { prompt, identity, ..req.clone() }]. *)
Definition with_content (p : option PromptProjection.t) (i : option CallerIdentity.t) (r : t) : t :=
  mk (pool r) (ingress_protocol r) (requested_model r) (message_count r) (tool_count r) (has_tools r)
     (total_chars r) (system_chars r) (max_tokens r) (stream r) p i.
End RoutingRequest.

Module Candidate.
Record t := mk {
  idx : nat; model : string; provider : string; weight : Z; context_max : option Z;
  tier : option string; cost_per_mtok : option f64; tags : list string;
  latency_ms : option f64; available_concurrency : Z; budget_remaining : option Z;
  rate_headroom : option f64 }.
End Candidate.

Module RoutingContext.
Record t := mk { pool : string; budget_remaining : option Z; budget : list BudgetBucketState.t }.
End RoutingContext.

Module RoutingDecision.
Inductive t :=
  | Prefer (order : list nat)
  | Abstain
  | Reject (status : Z) (message : string)
  | Restrict (tags_any : list string).
End RoutingDecision.

Module RewriteReply.
Record t := mk { messages : list Value; tools : list Value }.
End RewriteReply.

Module TransformOutcome.
Inductive t := Rewrite (r : RewriteReply.t) | Reject (status : Z) (message : string) | Abstain.
End TransformOutcome.

(** [RoutingPolicy]. *)
Module Policy.
Record t := mk {
  name : string;
  decide : RoutingRequest.t -> list Candidate.t -> RoutingContext.t -> option RoutingDecision.t;
  transform : RoutingRequest.t -> TransformOutcome.t }.
End Policy.

(** ** Normalizing a ranked list *)
Fixpoint ranked (valid seen : gset nat) (raw : list nat) : list nat :=
  match raw with
  | [] => []
  | idx :: raw =>
      if bool_decide (idx ∈ valid) && bool_decide (idx ∉ seen) then idx :: ranked valid ({[idx]} ∪ seen) raw
      else ranked valid seen raw
  end.

Definition from_ranked (raw : list nat) (valid : gset nat) : RoutingDecision.t :=
  match ranked valid ∅ raw with
  | [] => RoutingDecision.Abstain
  | order => RoutingDecision.Prefer order
  end.

Lemma ranked_elem valid seen raw i : i ∈ ranked valid seen raw <-> i ∈ raw /\ i ∈ valid /\ i ∉ seen.
Proof.
  revert seen. induction raw as [|j raw IH]; intros seen; cbn [ranked]; [set_solver|].
  destruct (bool_decide_reflect (j ∈ valid)), (bool_decide_reflect (j ∉ seen)); cbn [andb];
    rewrite ?elem_of_cons, IH; destruct (decide (i = j)) as [->|]; set_solver.
Qed.

Lemma ranked_NoDup valid seen raw : NoDup (ranked valid seen raw).
Proof.
  revert seen. induction raw as [|j raw IH]; intros seen; cbn [ranked]; [constructor|].
  destruct (bool_decide (j ∈ valid) && bool_decide (j ∉ seen)); [|done].
  constructor; [|done]. rewrite ranked_elem. set_solver.
Qed.

(** A list of distinct valid lanes is left as it is. *)
Lemma ranked_id valid seen raw :
  NoDup raw -> (forall i, i ∈ raw -> i ∈ valid /\ i ∉ seen) -> ranked valid seen raw = raw.
Proof.
  intros Hn. revert seen. induction Hn as [|j raw Hj Hn IH]; intros seen Hv; cbn [ranked]; [done|].
  destruct (Hv j) as [H1 H2]; [set_solver|]. rewrite !bool_decide_eq_true_2 by done. cbn [andb]. f_equal.
  apply IH. intros i Hi. destruct (Hv i); set_solver.
Qed.

(** ** The hook wire (crates/busbar/src/hooks/wire.rs)

    The projection a hook receives and the normalization of its reply, which fails closed: a reply
    that carries a [reject] or a [restrict] is never turned into a permission by a malformed detail.
    [hook_response] is the typed parse of the whole reply that precedes it (hooks/plugin.rs). *)

(** ** The projection *)
Module HookMessage.
Record t := mk { role : string; text : string }.
End HookMessage.

Module HookUser.
Record t := mk { key_id : option string; key_name : option string; user : option string }.
End HookUser.

Module HookReqProjection.
Record t := mk {
  pool : string; ingress_protocol : string; message_count : nat; has_tools : bool; total_chars : nat;
  max_tokens : option Z; stream : bool;
  system : option string; messages : option (list HookMessage.t); user : option HookUser.t }.
End HookReqProjection.

Module HookCandidate.
Record t := mk {
  idx : nat; model : string; provider : string; weight : Z; context_max : option Z;
  tier : option string; cost_per_mtok : option f64; latency_ms : option f64;
  available_concurrency : Z; budget_remaining : option Z; rate_headroom : option f64; tags : list string }.
End HookCandidate.

Module HookContext.
Record t := mk { budget_remaining : option Z; budget : list BudgetBucketState.t }.
End HookContext.

Module HookRequest.
Record t := mk {
  op : string; request : HookReqProjection.t; candidates : list HookCandidate.t; context : HookContext.t }.
End HookRequest.

Definition project_candidate (c : Candidate.t) : HookCandidate.t :=
  HookCandidate.mk (Candidate.idx c) (Candidate.model c) (Candidate.provider c) (Candidate.weight c)
    (Candidate.context_max c) (Candidate.tier c) (Candidate.cost_per_mtok c) (Candidate.latency_ms c)
    (Candidate.available_concurrency c) (Candidate.budget_remaining c) (Candidate.rate_headroom c)
    (Candidate.tags c).

Definition build (op : string) (req : RoutingRequest.t) (candidates : list Candidate.t)
    (ctx : RoutingContext.t) : HookRequest.t :=
  HookRequest.mk op
    (HookReqProjection.mk (RoutingRequest.pool req) (RoutingRequest.ingress_protocol req)
       (RoutingRequest.message_count req) (RoutingRequest.has_tools req) (RoutingRequest.total_chars req)
       (RoutingRequest.max_tokens req) (RoutingRequest.stream req)
       (p ← RoutingRequest.prompt req; PromptProjection.system p)
       ((fun p => (fun rt => HookMessage.mk rt.1 rt.2) <$> PromptProjection.messages p) <$> RoutingRequest.prompt req)
       ((fun i => HookUser.mk (CallerIdentity.key_id i) (CallerIdentity.key_name i) (CallerIdentity.user i))
          <$> RoutingRequest.identity req))
    (project_candidate <$> candidates)
    (HookContext.mk (RoutingContext.budget_remaining ctx) (RoutingContext.budget ctx)).

(** ** The reply *)
Module HookResponse.
Record t := mk {
  order : option (list nat); abstain : bool;
  reject : option Value; restrict : option Value; rewrite : option Value }.
End HookResponse.

Definition REJECT_STATUS_DEFAULT : Z := 403.
Definition clamp_reject_status (status : Z) : Z :=
  if (400 <=? status) && (status <=? 499) then status else REJECT_STATUS_DEFAULT.

Definition REJECT_MESSAGE_MAX_CHARS : nat := 300.
Definition REJECT_MESSAGE_DEFAULT : string := "Request rejected by the routing policy.".

Definition printable (c : Z) : bool :=
  negb (char_is_control c) &&
  negb ((c =? 8232) || (c =? 8233) || ((8203 <=? c) && (c <=? 8207)) || ((8234 <=? c) && (c <=? 8238)) ||
        ((8294 <=? c) && (c <=? 8297)) || (c =? 65279)).

Definition sanitize_reject_message (raw : string) : string :=
  let message := of_chars (take REJECT_MESSAGE_MAX_CHARS (List.filter printable (chars raw))) in
  if is_empty (trim message) then REJECT_MESSAGE_DEFAULT else message.

Definition parse_restrict (value : Value) : option (list string) :=
  l ← get_array "tags_any" value;
  match List.filter (fun t => negb (is_empty t)) (trim <$> omap as_str l) with
  | [] => None
  | tags_any => Some tags_any
  end.

Definition parse_rewrite (value : Value) : option RewriteReply.t :=
  messages ← get_array "messages" value;
  match messages with
  | [] => None
  | _ => Some (RewriteReply.mk messages (default [] (get_array "tools" value)))
  end.

(** [u16::try_from]. *)
Definition u16_try_from (z : Z) : option Z := if (0 <=? z) && (z <=? 65535) then Some z else None.

Definition parse_reject_detail (reject : Value) : Z * string :=
  let status := match (v ← get "status" reject; i ← as_i64 v; u16_try_from i) with
                | Some s => clamp_reject_status s
                | None => REJECT_STATUS_DEFAULT
                end in
  (status, sanitize_reject_message (default "" (get_str "message" reject))).

(** The one value of [reject] or [restrict] that does not fire the verb. *)
Definition is_false (v : Value) : bool := match v with Bool false => true | _ => false end.
Definition fires (v : option Value) : option Value := v ← v; if is_false v then None else Some v.

Definition transform_outcome (parsed : HookResponse.t) : TransformOutcome.t :=
  match fires (HookResponse.reject parsed) with
  | Some reject => let '(status, message) := parse_reject_detail reject in TransformOutcome.Reject status message
  | None =>
      match (v ← HookResponse.rewrite parsed; parse_rewrite v) with
      | Some rw => TransformOutcome.Rewrite rw
      | None => TransformOutcome.Abstain
      end
  end.

Definition normalize (parsed : HookResponse.t) (candidates : list Candidate.t) : RoutingDecision.t :=
  match fires (HookResponse.reject parsed) with
  | Some reject => let '(status, message) := parse_reject_detail reject in RoutingDecision.Reject status message
  | None =>
      match fires (HookResponse.restrict parsed) with
      | Some restrict => RoutingDecision.Restrict (default [] (parse_restrict restrict))
      | None =>
          if HookResponse.abstain parsed then RoutingDecision.Abstain
          else match HookResponse.order parsed with
               | None => RoutingDecision.Abstain
               | Some order => from_ranked order (list_to_set (Candidate.idx <$> candidates))
               end
      end
  end.

(** ** From the reply of a plugin (hooks/plugin.rs and the derived [Deserialize] of [HookResponse])

    A member that is absent has its default; a null is [None] for an option and an error for anything
    else.  The derived implementation reads a list as the members in order. *)
Definition de_usize (v : Value) : option nat := n ← as_u64 v; Some (Z.to_nat n).
Definition de_option (v : Value) : option Value := match v with Null => None | v => Some v end.
Definition de_order (v : Value) : option (option (list nat)) :=
  match v with Null => Some None | Array l => Some <$> mapM de_usize l | _ => None end.

Definition hook_response (v : Value) : option HookResponse.t :=
  let read (member : nat -> string -> option Value) :=
    order ← match member 0%nat "order" with None => Some None | Some v => de_order v end;
    abstain ← match member 1%nat "abstain" with None => Some false | Some v => as_bool v end;
    Some (HookResponse.mk order abstain (v ← member 2%nat "reject"; de_option v)
            (v ← member 3%nat "restrict"; de_option v) (v ← member 4%nat "rewrite"; de_option v)) in
  match v with
  | Object m => read (fun _ k => map_get k m)
  | Array l => if (length l <=? 5)%nat then read (fun i _ => l !! i) else None
  | _ => None
  end.

(** The [normalize] and [transform_outcome] projectors. *)
Definition normalize_reply (v : Value) (candidates : list Candidate.t) : RoutingDecision.t :=
  match hook_response v with Some parsed => normalize parsed candidates | None => RoutingDecision.Abstain end.

Definition transform_reply (v : Value) : TransformOutcome.t :=
  match hook_response v with Some parsed => transform_outcome parsed | None => TransformOutcome.Abstain end.

(** ** What a rejection looks like, whoever produced it *)
Definition shown (status : Z) (message : string) : Prop :=
  400 <= status <= 499 /\ (length (chars message) <= REJECT_MESSAGE_MAX_CHARS)%nat /\
  Forall (fun c => printable c = true) (chars message) /\ ~ Forall (fun c => char_is_whitespace c = true) (chars message).

Lemma clamp_range status : 400 <= clamp_reject_status status <= 499.
Proof. unfold clamp_reject_status, REJECT_STATUS_DEFAULT. destruct (Z.leb_spec 400 status), (Z.leb_spec status 499); cbn; lia. Qed.

Lemma clamp_idempotent status : 400 <= status <= 499 -> clamp_reject_status status = status.
Proof. intros. unfold clamp_reject_status. destruct (Z.leb_spec 400 status), (Z.leb_spec status 499); cbn; lia. Qed.

Lemma sanitize_shown raw status : utf8 raw -> shown (clamp_reject_status status) (sanitize_reject_message raw).
Proof.
  intros Hu. apply utf8_scalars in Hu as [Hs _]. unfold shown, sanitize_reject_message.
  set (kept := take REJECT_MESSAGE_MAX_CHARS (List.filter printable (chars raw))).
  assert (Forall (fun c => printable c = true /\ scalar c) kept) as Hk.
  { apply Forall_take, List.Forall_forall. intros c [Hi Hp]%filter_In. split; [done|].
    by apply (proj1 (List.Forall_forall _ _) Hs). }
  assert (chars (of_chars kept) = kept) as E
    by (apply chars_of_chars; eapply Forall_impl; [exact Hk|]; naive_solver).
  split; [apply clamp_range|]. destruct (is_empty _) eqn:He.
  - split; [apply Nat.leb_le; vm_compute; reflexivity|]. split.
    + apply List.Forall_forall, forallb_forall. vm_compute. reflexivity.
    + intros Hall. apply trim_chars_nil in Hall. by vm_compute in Hall.
  - rewrite E. split_and!.
    + unfold kept. rewrite length_take. lia.
    + eapply Forall_impl; [exact Hk|]. naive_solver.
    + intros Hall. apply trim_chars_nil in Hall. unfold trim in He. by rewrite E, Hall in He.
Qed.

(** A sanitized message is left as it is, so the second pass at the seam changes nothing. *)
Lemma sanitize_idempotent status message : utf8 message -> shown status message -> sanitize_reject_message message = message.
Proof.
  intros Hu (_ & Hlen & Hp & Hw). apply utf8_scalars in Hu as [_ E]. unfold sanitize_reject_message.
  assert (List.filter printable (chars message) = chars message) as ->
    by (clear -Hp; induction Hp as [|c l Hc Hp IH]; cbn; [done|by rewrite Hc, IH]).
  rewrite take_ge by done. rewrite E. unfold trim. destruct (is_empty _) eqn:He; [|done].
  apply String.eqb_eq, of_chars_empty, trim_chars_nil in He. done.
Qed.

(** A member that is present and not an explicit false. *)
Definition asked (v : option Value) : Prop := v <> None /\ v <> Some (Bool false).

Lemma fires_spec v : match fires v with Some x => asked v /\ v = Some x | None => ~ asked v end.
Proof. unfold fires, asked. destruct v as [[| [] | | | |]|]; cbn; naive_solver. Qed.

(** What a rejection says: the status the reply gives where it is a client error, 403 otherwise; its message as
    far as it is printable, unchanged where it is presentable as it is. *)
Definition faithful_reject (x : Value) (status : Z) (message : string) : Prop :=
  shown status message /\
  (forall n, get "status" x = Some (Num (PosInt n)) -> 400 <= n <= 499 -> status = n) /\
  (status <> 403 -> get "status" x = Some (Num (PosInt status))) /\
  (forall m, get_str "message" x = Some m -> shown status m -> message = m) /\
  (message <> REJECT_MESSAGE_DEFAULT -> exists m, get_str "message" x = Some m /\ sublist (chars message) (chars m)).

Lemma reject_detail_faithful x :
  (forall n, get "status" x = Some (Num (NegInt n)) -> n < 0) ->
  utf8 (default "" (get_str "message" x)) ->
  let '(status, message) := parse_reject_detail x in faithful_reject x status message.
Proof.
  intros Hneg Hu. unfold parse_reject_detail. set (raw := default "" (get_str "message" x)) in *.
  set (st := match _ with Some s => clamp_reject_status s | None => REJECT_STATUS_DEFAULT end).
  assert (shown st (sanitize_reject_message raw)) as Hsh.
  { unfold st. destruct (_ ≫= _) as [n|]; [by apply sanitize_shown|].
    change REJECT_STATUS_DEFAULT with (clamp_reject_status REJECT_STATUS_DEFAULT). by apply sanitize_shown. }
  split_and!; [done|..].
  - intros n Hn Hr. unfold st. rewrite Hn. cbn. unfold I64_MAX. destruct (Z.leb_spec n 9223372036854775807); [|lia]. cbn.
    unfold u16_try_from. destruct (Z.leb_spec 0 n), (Z.leb_spec n 65535); [|lia..]. cbn. by apply clamp_idempotent.
  - intros Hne. unfold st in *. destruct (get "status" x) as [v|] eqn:Eg; [|done]. cbn in *.
    destruct v as [|b|num|t|l|m]; try done. destruct num as [n|n|fl]; [| |done]; cbn in *.
    + destruct (Z.leb_spec n I64_MAX); [|done]. cbn in *. unfold u16_try_from in *. destruct (_ && _); [|done]. cbn in *.
      unfold clamp_reject_status in *. destruct (_ && _); done.
    + specialize (Hneg n eq_refl). unfold u16_try_from in *. destruct (Z.leb_spec 0 n); [lia|done].
  - intros m Hm Hs. unfold raw in *. rewrite Hm in *. by apply (sanitize_idempotent st).
  - unfold sanitize_reject_message. destruct (is_empty _) eqn:E; [done|]. intros _. unfold raw in *.
    destruct (get_str "message" x) as [m|] eqn:Em; cbn in *.
    + exists m. split; [done|]. apply utf8_scalars in Hu as [Hu _]. rewrite chars_of_chars.
      * etrans; [apply sublist_take|]. clear. induction (chars m) as [|c l IH]; cbn; [constructor|]. by destruct (printable c); constructor.
      * apply Forall_take, List.Forall_forall. intros c [Hi _]%filter_In. by apply (proj1 (List.Forall_forall _ _) Hu).
    + by vm_compute in E.
Qed.

Definition blank (t : string) : Prop := Forall (fun c => char_is_whitespace c = true) (chars t).

Lemma trim_empty t : is_empty (trim t) = true <-> blank t.
Proof.
  unfold blank. rewrite <- trim_chars_nil. unfold trim. split.
  - intros H. by apply String.eqb_eq, of_chars_empty in H.
  - by intros ->.
Qed.

(** The tags of a restriction are the strings it lists, trimmed, the blank ones left out; a restriction of any
    other shape has none, and admits no lane. *)
Lemma restrict_tags r t :
  t ∈ default [] (parse_restrict r) <->
  exists l raw, get_array "tags_any" r = Some l /\ Str raw ∈ l /\ ~ blank raw /\ t = trim raw.
Proof.
  unfold parse_restrict. destruct (get_array "tags_any" r) as [l|]; cbn; [|split; [by intros ?%not_elem_of_nil|by intros (? & ? & ? & _)]].
  assert (forall t, t ∈ List.filter (fun t => negb (is_empty t)) (trim <$> omap as_str l) <->
    exists raw, Str raw ∈ l /\ ~ blank raw /\ t = trim raw) as H.
  { clear t. intros t. rewrite list_elem_of_In, filter_In, <- list_elem_of_In, list_elem_of_fmap, negb_true_iff. split.
    - intros [(raw & -> & Hin) Hne]. apply list_elem_of_omap in Hin as (v & Hv & Ev). destruct v; try done. injection Ev as ->.
      exists raw. split; [done|]. split; [|done]. intros Hb%trim_empty. congruence.
    - intros (raw & Hin & Hb & ->). split.
      + exists raw. split; [done|]. apply list_elem_of_omap. by exists (Str raw).
      + destruct (is_empty (trim raw)) eqn:E; [|done]. by apply trim_empty in E. }
  assert (t ∈ default [] (match List.filter (fun t => negb (is_empty t)) (trim <$> omap as_str l) with [] => None | tags_any => Some tags_any end)
    <-> t ∈ List.filter (fun t => negb (is_empty t)) (trim <$> omap as_str l)) as -> by (by destruct (List.filter _ _)).
  rewrite H. naive_solver.
Qed.

(** C19.  A hook's reply fails closed.  A reply the engine can parse and that carries [reject] (other than null
    or an explicit false) rejects, whatever its details are, on the decide path and on the transform path
    alike, with a bounded, printable, non-blank message and a client-error status: those of the reply
    where they are fit to be shown; one that carries [restrict] restricts, to exactly the non-blank tags it
    lists, trimmed, and is never an order or an abstention; an order names distinct candidates only.  A reply
    that cannot be parsed (not an object or list, an [order] that is not a list of indices, an
    [abstain] that is not a boolean) is an abstention on both paths, whatever else it carries.  (The message
    of a rejection is UTF-8 text and a negative JSON number is below zero, as the JSON reader delivers them.) *)
Theorem reply_fails_closed v cs :
  (forall parsed x, hook_response v = Some parsed -> HookResponse.reject parsed = Some x ->
     utf8 (default "" (get_str "message" x)) /\ forall n, get "status" x = Some (Num (NegInt n)) -> n < 0) ->
  match hook_response v with
  | None => normalize_reply v cs = RoutingDecision.Abstain /\ transform_reply v = TransformOutcome.Abstain
  | Some parsed =>
      (forall x, HookResponse.reject parsed = Some x -> x <> Bool false ->
         exists status message, faithful_reject x status message /\
           normalize_reply v cs = RoutingDecision.Reject status message /\
           transform_reply v = TransformOutcome.Reject status message) /\
      (forall r, ~ asked (HookResponse.reject parsed) -> HookResponse.restrict parsed = Some r -> r <> Bool false ->
         exists tags, normalize_reply v cs = RoutingDecision.Restrict tags /\
           forall t, t ∈ tags <-> exists l raw, get_array "tags_any" r = Some l /\ Str raw ∈ l /\ ~ blank raw /\ t = trim raw) /\
      (forall order, normalize_reply v cs = RoutingDecision.Prefer order ->
         ~ asked (HookResponse.reject parsed) /\ ~ asked (HookResponse.restrict parsed) /\ HookResponse.abstain parsed = false /\
         order <> [] /\ NoDup order /\ (forall i, i ∈ order -> i ∈ Candidate.idx <$> cs))
  end.
Proof.
  intros Hu. unfold normalize_reply, transform_reply. destruct (hook_response v) as [parsed|]; [|done].
  specialize (Hu parsed). unfold normalize, transform_outcome.
  pose proof (fires_spec (HookResponse.reject parsed)) as Hr. pose proof (fires_spec (HookResponse.restrict parsed)) as Hs.
  destruct (fires (HookResponse.reject parsed)) as [x|].
  { destruct Hr as [Hr Ex]. destruct (Hu x eq_refl Ex) as [Hux Hneg]. pose proof (reject_detail_faithful x Hneg Hux) as Hf.
    destruct (parse_reject_detail x) as [status message].
    split_and!; [|done|done]. intros x' Ex' _. rewrite Ex in Ex'. injection Ex' as <-. by exists status, message. }
  split; [intros x Ex Hx; destruct Hr; by split; [rewrite Ex|rewrite Ex; intros [= ->]]|].
  destruct (fires (HookResponse.restrict parsed)) as [r|].
  { split; [|done]. destruct Hs as [_ Er]. intros r' _ Er' _. rewrite Er in Er'. injection Er' as <-. eexists. split; [reflexivity|].
    apply restrict_tags. }
  split; [intros r _ Er Hx; destruct Hs; by split; [rewrite Er|rewrite Er; intros [= ->]]|]. intros order' He.
  destruct (HookResponse.abstain parsed); [done|]. destruct (HookResponse.order parsed) as [order|]; [|done].
  unfold from_ranked in He. pose proof (ranked_NoDup (list_to_set (Candidate.idx <$> cs)) ∅ order) as Hn.
  pose proof (fun i => ranked_elem (list_to_set (Candidate.idx <$> cs)) ∅ order i) as Hi.
  destruct (ranked _ ∅ order) as [|i l]; [done|]. injection He as <-. split_and!; [done..|].
  intros j Hj. apply Hi in Hj as (_ & Hj & _). by apply elem_of_list_to_set in Hj.
Qed.

(** A reply that rejects with nonsense details. *)
Definition garbled : Value :=
  Object [("order", Array [Num (PosInt 0)]);
          ("reject", Object [("message", Str (String (Ascii.ascii_of_nat 10) "no")); ("status", Num (PosInt 70000))])].

Lemma reply_fails_closed_witness :
  exists status message, shown status message /\ normalize_reply garbled [] = RoutingDecision.Reject status message /\
    status = 403 /\ message = "no".
Proof.
  destruct (reply_fails_closed garbled []) as [H _].
  - intros parsed x [= <-] [= <-]. split; [|discriminate]. exists [10; 110; 111]. split; [repeat constructor; lia|reflexivity].
  - destruct (H _ eq_refl) as (st & m & (Hs & _) & Hn & _); [done|].
    exists st, m. split; [exact Hs|]. split; [exact Hn|]. vm_compute in Hn. by injection Hn as <- <-.
Defined.

(** A rejection is lost when another member of the reply has the wrong type. *)
Example malformed_order_loses_reject :
  normalize_reply (Object [("order", Array [Str "x"]); ("reject", Bool true)]) [] = RoutingDecision.Abstain /\
  normalize_reply (Object [("reject", Bool true)]) [] = RoutingDecision.Reject 403 REJECT_MESSAGE_DEFAULT.
Proof. vm_compute. auto. Qed.
