(* ===== verification/Ranking.v ===== *)
(** * The built-in ranking policies (crates/hooks-ranking/src/lib.rs)

    [cheapest], [fastest], [least_busy] and [usage] sort the candidates by one signal.  [slice::sort_by]
    is a stable sort, here by insertion.  The comparison of doubles is [SFcompare], which has no answer
    on NaN; the code then takes the two for equal.  The order is proved for keys that are numbers. *)
From stdpp Require Import base gmap list strings sorting.
From Stdlib Require Import ZArith Lia.
From Stdlib.Floats Require Import SpecFloat.
From S2P Require Import Prelude Cell Ledger Json HookWire.
Open Scope Z_scope.

Definition POLICY_NAME_WEIGHTED : string := "weighted".
Definition POLICY_NAME_CHEAPEST : string := "cheapest".
Definition POLICY_NAME_FASTEST : string := "fastest".
Definition POLICY_NAME_LEAST_BUSY : string := "least_busy".
Definition POLICY_NAME_USAGE : string := "usage".

(** [Ordering::then]. *)
Definition then_ (a b : comparison) : comparison := match a with Eq => b | _ => a end.

Fixpoint insert_by {A} (cmp : A -> A -> comparison) (x : A) (l : list A) : list A :=
  match l with
  | [] => [x]
  | y :: l' => match cmp x y with Gt => y :: insert_by cmp x l' | _ => x :: l end
  end.
Definition sort_by {A} (cmp : A -> A -> comparison) (l : list A) : list A := foldr (insert_by cmp) [] l.

Section Rank.
Context {K : Type} (partial_cmp : K -> K -> option comparison).

Definition keyed_cmp (pc : K -> K -> option comparison) (a b : nat * option K) : comparison :=
  match a.2, b.2 with
  | Some ka, Some kb => then_ (default Eq (pc ka kb)) (Nat.compare a.1 b.1)
  | Some _, None => Lt
  | None, Some _ => Gt
  | None, None => Nat.compare a.1 b.1
  end.

Definition keyed (key : Candidate.t -> option K) (candidates : list Candidate.t) : list (nat * option K) :=
  (fun c => (Candidate.idx c, key c)) <$> candidates.

Definition is_none {A} (o : option A) : bool := match o with None => true | Some _ => false end.

Definition rank_ascending_by (candidates : list Candidate.t) (key : Candidate.t -> option K) : RoutingDecision.t :=
  let keyed := keyed key candidates in
  if forallb (fun x => is_none x.2) keyed then RoutingDecision.Abstain
  else RoutingDecision.Prefer (sort_by (keyed_cmp partial_cmp) keyed).*1.

Definition rank_descending_by (candidates : list Candidate.t) (key : Candidate.t -> option K) : RoutingDecision.t :=
  let keyed := keyed key candidates in
  if forallb (fun x => is_none x.2) keyed then RoutingDecision.Abstain
  else RoutingDecision.Prefer (sort_by (keyed_cmp (fun a b => partial_cmp b a)) keyed).*1.
End Rank.

(** ** The policies *)
Definition f64_partial_cmp (a b : f64) : option comparison := SFcompare a b.
Definition usize_partial_cmp (a b : Z) : option comparison := Some (a ?= b).

Definition native (name : string) (decide : list Candidate.t -> RoutingDecision.t) : Policy.t :=
  Policy.mk name (fun _ candidates _ => Some (decide candidates)) (fun _ => TransformOutcome.Abstain).

Definition WeightedPolicy : Policy.t := native POLICY_NAME_WEIGHTED (fun _ => RoutingDecision.Abstain).
Definition CheapestPolicy : Policy.t :=
  native POLICY_NAME_CHEAPEST (fun cs => rank_ascending_by f64_partial_cmp cs Candidate.cost_per_mtok).
Definition FastestPolicy : Policy.t :=
  native POLICY_NAME_FASTEST (fun cs => rank_ascending_by f64_partial_cmp cs Candidate.latency_ms).
Definition LeastBusyPolicy : Policy.t :=
  native POLICY_NAME_LEAST_BUSY
    (fun cs => rank_descending_by usize_partial_cmp cs (fun c => Some (Candidate.available_concurrency c))).
Definition UsagePolicy : Policy.t :=
  native POLICY_NAME_USAGE (fun cs => rank_descending_by f64_partial_cmp cs Candidate.rate_headroom).

Definition native_policy (name : string) : option Policy.t :=
  if String.eqb name POLICY_NAME_WEIGHTED then Some WeightedPolicy
  else if String.eqb name POLICY_NAME_CHEAPEST then Some CheapestPolicy
  else if String.eqb name POLICY_NAME_FASTEST then Some FastestPolicy
  else if String.eqb name POLICY_NAME_LEAST_BUSY then Some LeastBusyPolicy
  else if String.eqb name POLICY_NAME_USAGE then Some UsagePolicy
  else None.

(** ** Stable sorting *)
Section Sorting.
Context {A : Type} (cmp : A -> A -> comparison) (R : relation A).

Lemma insert_by_perm x l : insert_by cmp x l ≡ₚ x :: l.
Proof. induction l as [|y l IH]; cbn; [done|]. destruct (cmp x y); [done|done|]. by rewrite IH, Permutation_swap. Qed.

Lemma sort_by_perm l : sort_by cmp l ≡ₚ l.
Proof. induction l as [|x l IH]; cbn; [done|]. by rewrite insert_by_perm, IH. Qed.

(** [R] is a transitive relation that the comparison decides on the elements of [l]. *)
Lemma sort_by_sorted l :
  Transitive R ->
  (forall x y, x ∈ l -> y ∈ l -> x <> y -> match cmp x y with Lt => R x y | Gt => R y x | Eq => False end) ->
  NoDup l -> StronglySorted R (sort_by cmp l).
Proof.
  intros Ht Hc Hn. induction Hn as [|x l Hx Hn IH]; cbn [sort_by foldr]; [constructor|].
  assert (StronglySorted R (sort_by cmp l)) as Hs by (apply IH; intros; apply Hc; set_solver).
  assert (forall y, y ∈ sort_by cmp l -> y ∈ l) as Hin by (intros y Hy; by rewrite sort_by_perm in Hy).
  revert Hs Hin. fold (sort_by cmp l). generalize (sort_by cmp l). intros s.
  induction s as [|y s IHs]; intros Hs Hin; cbn [insert_by]; [repeat constructor|].
  apply StronglySorted_inv in Hs as [Hs Hy].
  assert (y ∈ l) as Hyl by (apply Hin; set_solver). assert (x <> y) as Hne by (intros ->; done).
  pose proof (Hc x y ltac:(set_solver) ltac:(set_solver) Hne) as Hxy.
  destruct (cmp x y); [done|..].
  - constructor; [by constructor|]. constructor; [done|]. eapply Forall_impl; [exact Hy|]. intros z Hz. by trans y.
  - constructor; [apply IHs; [done|intros z Hz; apply Hin; set_solver]|].
    rewrite insert_by_perm. by constructor.
Qed.
End Sorting.

(** ** The order of doubles.  A double that is a number is placed by its sign, exponent and mantissa. *)
Definition is_number (x : f64) : bool := match x with S754_nan => false | _ => true end.

Definition place (x : f64) : Z * Z * Z :=
  match x with
  | S754_infinity true => (-2, 0, 0)
  | S754_finite true m e => (-1, - e, - Zpos m)
  | S754_zero _ | S754_nan => (0, 0, 0)
  | S754_finite false m e => (1, e, Zpos m)
  | S754_infinity false => (2, 0, 0)
  end.

Definition lex (a b : Z * Z * Z) : comparison :=
  then_ (a.1.1 ?= b.1.1) (then_ (a.1.2 ?= b.1.2) (a.2 ?= b.2)).

Definition f64_lt (x y : f64) : Prop := lex (place x) (place y) = Lt.
Definition f64_eqv (x y : f64) : Prop := place x = place y.

Lemma partial_cmp_place x y : is_number x = true -> is_number y = true ->
  f64_partial_cmp x y = Some (lex (place x) (place y)).
Proof.
  intros Hx Hy. unfold f64_partial_cmp.
  destruct x as [[]|[]| |[] m1 e1], y as [[]|[]| |[] m2 e2]; try done; cbn; f_equal.
  - rewrite (Z.compare_opp e1 e2), (Z.compare_antisym e1 e2). by destruct (e1 ?= e2).
  - by destruct (e1 ?= e2).
Qed.

Lemma lex_spec a b :
  match lex a b with
  | Eq => a = b
  | Lt => a.1.1 < b.1.1 \/ (a.1.1 = b.1.1 /\ (a.1.2 < b.1.2 \/ (a.1.2 = b.1.2 /\ a.2 < b.2)))
  | Gt => b.1.1 < a.1.1 \/ (b.1.1 = a.1.1 /\ (b.1.2 < a.1.2 \/ (b.1.2 = a.1.2 /\ b.2 < a.2)))
  end.
Proof.
  destruct a as [[a1 a2] a3], b as [[b1 b2] b3]. unfold lex, then_. cbn [fst snd].
  destruct (Z.compare_spec a1 b1), (Z.compare_spec a2 b2), (Z.compare_spec a3 b3); subst; try done; lia.
Qed.

(** ** What the rankings are *)

(** [a] goes before [b]: a signal before none, the better signal first, then the lower index. *)
Definition before {K} (lt eqv : K -> K -> Prop) (a b : nat * option K) : Prop :=
  match a.2, b.2 with
  | Some ka, Some kb => lt ka kb \/ (eqv ka kb /\ (a.1 < b.1)%nat)
  | Some _, None => True
  | None, Some _ => False
  | None, None => (a.1 < b.1)%nat
  end.

(** An order on the keys of [l] that a partial comparison decides. *)
Class DecidedBy {K} (pc : K -> K -> option comparison) (ok : K -> Prop) (lt eqv : K -> K -> Prop) := {
  decided_cmp a b : ok a -> ok b -> exists c, pc a b = Some c /\ match c with Lt => lt a b | Eq => eqv a b | Gt => lt b a end;
  decided_lt_trans : Transitive lt;
  decided_eqv_equiv : Equivalence eqv;
  decided_lt_eqv a b c : lt a b -> eqv b c -> lt a c;
  decided_eqv_lt a b c : eqv a b -> lt b c -> lt a c }.

#[export] Instance f64_decided : DecidedBy f64_partial_cmp (fun x => is_number x = true) f64_lt f64_eqv.
Proof.
  split.
  - intros a b Ha Hb. exists (lex (place a) (place b)). split; [by apply partial_cmp_place|].
    pose proof (lex_spec (place a) (place b)) as H. destruct (lex (place a) (place b)) eqn:E; [exact H|exact E|].
    unfold f64_lt. pose proof (lex_spec (place b) (place a)) as H'.
    destruct (lex (place b) (place a)); [rewrite H' in H; lia|done|lia].
  - intros a b c H1 H2. unfold f64_lt in *. pose proof (lex_spec (place a) (place b)) as L1.
    pose proof (lex_spec (place b) (place c)) as L2. rewrite H1 in L1. rewrite H2 in L2.
    pose proof (lex_spec (place a) (place c)) as L3. destruct (lex (place a) (place c)); [rewrite L3 in L1; lia|done|lia].
  - split; unfold f64_eqv; [done|by intros ? ? ?|by intros ? ? ? -> ->].
  - unfold f64_lt, f64_eqv. by intros a b c H <-.
  - unfold f64_lt, f64_eqv. by intros a b c -> H.
Qed.

#[export] Instance usize_decided : DecidedBy usize_partial_cmp (fun _ => True) Z.lt eq.
Proof.
  split; [|apply _|apply _|by intros ? ? ? ? <-|by intros ? ? ? ->].
  intros a b _ _. exists (a ?= b). split; [done|]. destruct (Z.compare_spec a b); lia.
Qed.

(** The reverse order, of a descending sort. *)
#[export] Instance reverse_decided {K} (pc : K -> K -> option comparison) ok lt eqv :
  DecidedBy pc ok lt eqv -> DecidedBy (fun a b => pc b a) ok (flip lt) eqv.
Proof.
  intros [Hc Ht He Hl Hr]. split.
  - intros a b Ha Hb. destruct (Hc b a Hb Ha) as (c & E & Hcase). exists c. split; [done|].
    destruct c; cbn; [by symmetry|done|done].
  - intros a b c H1 H2. unfold flip in *. by trans b.
  - done.
  - unfold flip. intros a b c H1 H2. eapply Hr; [|exact H1]. by symmetry.
  - unfold flip. intros a b c H1 H2. eapply Hl; [exact H2|]. by symmetry.
Qed.

Section Ranked.
Context {K : Type} {pc : K -> K -> option comparison} {ok : K -> Prop} {lt eqv : K -> K -> Prop}.
Context `{!DecidedBy pc ok lt eqv}.

#[export] Instance before_transitive : Transitive (before lt eqv).
Proof.
  pose proof (decided_lt_trans (DecidedBy := _)) as Ht. pose proof (decided_eqv_equiv (DecidedBy := _)) as [_ _ He].
  intros [i [a|]] [j [b|]] [k [c|]]; unfold before; cbn [fst snd]; intros H1 H2; try done; try lia.
  destruct H1 as [H1|[H1 L1]], H2 as [H2|[H2 L2]].
  - left. by trans b.
  - left. by eapply decided_lt_eqv.
  - left. by eapply decided_eqv_lt.
  - right. split; [by trans b|lia].
Qed.

Lemma keyed_cmp_before x y :
  (forall k, x.2 = Some k -> ok k) -> (forall k, y.2 = Some k -> ok k) -> x.1 <> y.1 ->
  match keyed_cmp pc x y with Lt => before lt eqv x y | Gt => before lt eqv y x | Eq => False end.
Proof.
  destruct x as [i [a|]], y as [j [b|]]; unfold keyed_cmp, before; cbn [fst snd]; intros Hx Hy Hne; try done.
  - destruct (decided_cmp a b (Hx a eq_refl) (Hy b eq_refl)) as (c & -> & Hc). cbn [default].
    destruct c; cbn [then_]; [|by left|by left].
    destruct (Nat.compare_spec i j); [done|by right|right]. split; [|done].
    pose proof (decided_eqv_equiv (DecidedBy := _)). by symmetry.
  - destruct (Nat.compare_spec i j); [done|done|done].
Qed.

Lemma keyed_sorted (key : Candidate.t -> option K) cs :
  NoDup (Candidate.idx <$> cs) -> Forall (fun c => forall k, key c = Some k -> ok k) cs ->
  StronglySorted (before lt eqv) (sort_by (keyed_cmp pc) (keyed key cs)) /\
  (sort_by (keyed_cmp pc) (keyed key cs)).*1 ≡ₚ Candidate.idx <$> cs.
Proof.
  intros Hn Hok. assert ((keyed key cs).*1 = Candidate.idx <$> cs) as E
    by (unfold keyed; rewrite <- list_fmap_compose; done).
  assert (NoDup (keyed key cs)) as Hk by (apply (NoDup_fmap_1 fst); by rewrite E).
  split; [|by rewrite sort_by_perm, E].
  apply sort_by_sorted; [apply _| |done]. intros x y Hx Hy Hne. apply keyed_cmp_before.
  1: apply list_elem_of_fmap in Hx as (c & -> & Hc); rewrite Forall_forall in Hok; by apply Hok.
  1: apply list_elem_of_fmap in Hy as (c & -> & Hc); rewrite Forall_forall in Hok; by apply Hok.
  intros Heq. apply Hne. rewrite <- E in Hn.
  apply list_elem_of_lookup in Hx as [a Ha], Hy as [b Hb].
  assert (a = b) as ->; [|congruence]. eapply NoDup_lookup; [exact Hn|..]; rewrite list_lookup_fmap.
  - rewrite Ha. reflexivity.
  - rewrite Hb. cbn. by rewrite Heq.
Qed.
End Ranked.

Lemma StronglySorted_fmap {A B} (f : A -> B) (R : relation B) l :
  StronglySorted R (f <$> l) -> StronglySorted (fun a b => R (f a) (f b)) l.
Proof.
  induction l as [|a l IH]; cbn; intros Hs; [constructor|]. apply StronglySorted_inv in Hs as [Hs Hf].
  constructor; [by apply IH|]. exact (proj1 (Forall_fmap f _ l) Hf).
Qed.

(** The signal a policy ranks by is there and is a number wherever it is there. *)
Definition numeric (x : option f64) : Prop := forall k, x = Some k -> is_number k = true.
Definition signals_ok (c : Candidate.t) : Prop :=
  numeric (Candidate.cost_per_mtok c) /\ numeric (Candidate.latency_ms c) /\ numeric (Candidate.rate_headroom c).

Definition key_f64 (key : Candidate.t -> option f64) (c : Candidate.t) : nat * option f64 := (Candidate.idx c, key c).
Definition key_busy (c : Candidate.t) : nat * option Z := (Candidate.idx c, Some (Candidate.available_concurrency c)).

(** [a] is preferred to [b] by the policy [name]. *)
Definition better (name : string) (a b : Candidate.t) : Prop :=
  if String.eqb name POLICY_NAME_CHEAPEST then
    before f64_lt f64_eqv (key_f64 Candidate.cost_per_mtok a) (key_f64 Candidate.cost_per_mtok b)
  else if String.eqb name POLICY_NAME_FASTEST then
    before f64_lt f64_eqv (key_f64 Candidate.latency_ms a) (key_f64 Candidate.latency_ms b)
  else if String.eqb name POLICY_NAME_LEAST_BUSY then before (flip Z.lt) eq (key_busy a) (key_busy b)
  else before (flip f64_lt) f64_eqv (key_f64 Candidate.rate_headroom a) (key_f64 Candidate.rate_headroom b).

Definition has_signal (name : string) (c : Candidate.t) : bool :=
  if String.eqb name POLICY_NAME_WEIGHTED then false
  else if String.eqb name POLICY_NAME_CHEAPEST then negb (is_none (Candidate.cost_per_mtok c))
  else if String.eqb name POLICY_NAME_FASTEST then negb (is_none (Candidate.latency_ms c))
  else if String.eqb name POLICY_NAME_LEAST_BUSY then true
  else negb (is_none (Candidate.rate_headroom c)).

Lemma existsb_negb_forallb {A} (f : A -> bool) l : existsb (fun a => negb (f a)) l = negb (forallb f l).
Proof. induction l as [|a l IH]; cbn; [done|]. rewrite IH. by destruct (f a). Qed.

Section RankSpec.
Context {K : Type} {pc : K -> K -> option comparison} {ok : K -> Prop} {lt eqv : K -> K -> Prop}.
Context `{!DecidedBy pc ok lt eqv}.

(** Both directions of the sort, as one statement about the comparison they use. *)
Lemma rank_spec (key : Candidate.t -> option K) cs :
  NoDup (Candidate.idx <$> cs) -> Forall (fun c => forall k, key c = Some k -> ok k) cs ->
  forallb (fun x => is_none x.2) (keyed key cs) = forallb (fun c => is_none (key c)) cs /\
  exists cs', cs' ≡ₚ cs /\ (sort_by (keyed_cmp pc) (keyed key cs)).*1 = Candidate.idx <$> cs' /\
    StronglySorted (fun a b => before lt eqv (Candidate.idx a, key a) (Candidate.idx b, key b)) cs'.
Proof.
  intros Hn Hok. split; [unfold keyed; clear; induction cs; cbn; [done|by f_equal]|].
  destruct (keyed_sorted key cs Hn Hok) as [Hs _].
  destruct (Permutation_map_inv (fun c => (Candidate.idx c, key c)) cs (sort_by_perm (keyed_cmp pc) (keyed key cs)))
    as (cs' & E & Hp).
  exists cs'. split_and!; [done| |].
  - rewrite E. by rewrite <- list_fmap_compose.
  - rewrite E in Hs. by apply (StronglySorted_fmap (fun c => (Candidate.idx c, key c))) in Hs.
Qed.
Lemma rank_decides (key : Candidate.t -> option K) cs :
  NoDup (Candidate.idx <$> cs) -> Forall (fun c => forall k, key c = Some k -> ok k) cs ->
  let d := if forallb (fun x => is_none x.2) (keyed key cs) then RoutingDecision.Abstain
           else RoutingDecision.Prefer (sort_by (keyed_cmp pc) (keyed key cs)).*1 in
  if existsb (fun c => negb (is_none (key c))) cs
  then exists cs', cs' ≡ₚ cs /\
         StronglySorted (fun a b => before lt eqv (Candidate.idx a, key a) (Candidate.idx b, key b)) cs' /\
         Some d = Some (RoutingDecision.Prefer (Candidate.idx <$> cs'))
  else Some d = Some RoutingDecision.Abstain.
Proof.
  intros Hn Hok d. destruct (rank_spec key cs Hn Hok) as [E (cs' & Hp & Es & Hs)]. unfold d. rewrite E, Es.
  rewrite (existsb_negb_forallb (fun c => is_none (key c))). destruct (forallb _ cs); cbn [negb]; [done|]. by exists cs'.
Qed.
End RankSpec.

(** A built-in policy has an opinion exactly when some candidate has its signal, and then it ranks
    every candidate exactly once: the better signal first (lowest cost, lowest latency, most free
    permits, most headroom), ties by index, and a candidate without the signal last but reachable;
    [weighted] always abstains, and none of them fails, rejects or restricts. *)
Theorem native_rankings name p req cs ctx :
  native_policy name = Some p -> NoDup (Candidate.idx <$> cs) -> Forall signals_ok cs ->
  if existsb (has_signal name) cs
  then exists cs', cs' ≡ₚ cs /\ StronglySorted (better name) cs' /\
         Policy.decide p req cs ctx = Some (RoutingDecision.Prefer (Candidate.idx <$> cs'))
  else Policy.decide p req cs ctx = Some RoutingDecision.Abstain.
Proof.
  intros Hp Hn Hok.
  assert (Forall (fun c => numeric (Candidate.cost_per_mtok c)) cs) as H1 by (eapply Forall_impl; [exact Hok|]; by intros c (?&?&?)).
  assert (Forall (fun c => numeric (Candidate.latency_ms c)) cs) as H2 by (eapply Forall_impl; [exact Hok|]; by intros c (?&?&?)).
  assert (Forall (fun c => numeric (Candidate.rate_headroom c)) cs) as H3 by (eapply Forall_impl; [exact Hok|]; by intros c (?&?&?)).
  revert Hp. unfold native_policy, has_signal, better.
  destruct (String.eqb_spec name POLICY_NAME_WEIGHTED) as [->|]; [intros [= <-]; replace (existsb _ cs) with false; [done|clear; by induction cs]|].
  destruct (String.eqb_spec name POLICY_NAME_CHEAPEST) as [->|]; [intros [= <-]; exact (rank_decides _ cs Hn H1)|].
  destruct (String.eqb_spec name POLICY_NAME_FASTEST) as [->|]; [intros [= <-]; exact (rank_decides _ cs Hn H2)|].
  destruct (String.eqb_spec name POLICY_NAME_LEAST_BUSY) as [->|].
  - intros [= <-]. refine (rank_decides (fun c => Some (Candidate.available_concurrency c)) cs Hn _).
    by apply Forall_forall.
  - destruct (String.eqb_spec name POLICY_NAME_USAGE) as [->|]; [|done].
    intros [= <-]. exact (rank_decides _ cs Hn H3).
Qed.

(** Three members: the cheapest first, the one without a rate last. *)
Definition priced (idx : nat) (cost : option f64) (free : Z) : Candidate.t :=
  Candidate.mk idx "m" "p" 1 None None cost [] None free None None.
Definition three : list Candidate.t :=
  [priced 0 None 4; priced 1 (Some (f64_of_Z 5)) 1; priced 2 (Some (f64_of_Z 3)) 9].
Definition any_request : RoutingRequest.t :=
  RoutingRequest.mk "p" "openai" None 0 0 false 0 0 None false None None.

Lemma native_rankings_witness :
  exists cs', cs' ≡ₚ three /\ StronglySorted (better "cheapest") cs' /\
    Policy.decide CheapestPolicy any_request three (RoutingContext.mk "p" None []) =
      Some (RoutingDecision.Prefer (Candidate.idx <$> cs')) /\ Candidate.idx <$> cs' = [2; 1; 0]%nat.
Proof.
  destruct (native_rankings "cheapest" CheapestPolicy any_request three (RoutingContext.mk "p" None [])
    eq_refl) as (cs' & Hp & Hs & E).
  - apply (bool_decide_eq_true_1 (NoDup _)). vm_compute. reflexivity.
  - repeat constructor; intros k [= <-]; reflexivity.
  - exists cs'. split_and!; [exact Hp|exact Hs|exact E|].
    assert (Policy.decide CheapestPolicy any_request three (RoutingContext.mk "p" None []) =
      Some (RoutingDecision.Prefer [2; 1; 0]%nat)) as E2 by (vm_compute; reflexivity).
    rewrite E2 in E. by injection E.
Defined.
