(* ===== verification/Headroom.v ===== *)
(** * The headroom signal and the metering writer (crates/busbar/src/governance/state.rs)

    [rate_headroom], the read-only fraction of the tightest request or token limit that is left, which
    the routing policies rank by, and [record_metering].  Theorems: the signal is there exactly when a
    limit applies to the pool, and it is a number between zero and one (never NaN, so it ranks). *)
From stdpp Require Import base gmap list strings.
From Stdlib Require Import ZArith Lia.
From Stdlib.Floats Require Import SpecFloat.
From S2P Require Import Prelude Windows Cell Store Cost Ledger CostFacts LedgerProps Ir Keys Ranking.
Open Scope Z_scope.
Open Scope rust_scope.

(** [f64::min] and [f64::clamp]. *)
Definition f64_min (a b : f64) : f64 :=
  match a, b with
  | S754_nan, _ => b
  | _, S754_nan => a
  | _, _ => if SFltb b a then b else a
  end.
Definition f64_zero : f64 := S754_zero false.
Definition f64_one : f64 := f64_of_Z 1.
Definition f64_infinity : f64 := S754_infinity false.
Definition f64_clamp01 (x : f64) : f64 :=
  if SFltb x f64_zero then f64_zero else if SFltb f64_one x then f64_one else x.

(** The fraction of [cap] that is left. *)
Definition frac (used cap : Z) : f64 :=
  if cap =? 0 then f64_zero else f64_sub f64_one (f64_div (f64_of_Z used) (f64_of_Z cap)).

Definition applies (pool : option string) (b : ChainBucket.t) : bool :=
  match pool with
  | Some p => ChainBucket.applies_to_pool p b
  | None => match ChainBucket.pool b with None => true | Some _ => false end
  end.

Definition limited (b : ChainBucket.t) : bool :=
  match ChainBucket.requests_cap b, ChainBucket.tokens_cap b with None, None => false | _, _ => true end.

Definition bucket_headroom (s : GovState.t) (now : Z) (b : ChainBucket.t) : f64 :=
  let window := budget_window (ChainBucket.window b) now in
  let '(requests, tokens) :=
    match GovState.budget s !! ChainBucket.bucket_id b with
    | Some cell =>
        if BudgetCell.window_start cell =? window
        then (BudgetCell.requests cell, BudgetCell.total_tokens cell) else (0, 0)
    | None => (0, 0)
    end in
  let h := f64_infinity in
  let h := match ChainBucket.requests_cap b with Some cap => f64_min h (frac requests cap) | None => h end in
  let h := match ChainBucket.tokens_cap b with Some cap => f64_min h (frac tokens cap) | None => h end in
  f64_clamp01 h.

Fixpoint headroom_loop (s : GovState.t) (pool : option string) (now : Z) (bs : list ChainBucket.t)
    (headroom : option f64) : option f64 :=
  match bs with
  | [] => headroom
  | b :: bs =>
      if negb (limited b) then headroom_loop s pool now bs headroom
      else if negb (applies pool b) then headroom_loop s pool now bs headroom
      else
        let h := bucket_headroom s now b in
        headroom_loop s pool now bs (Some (match headroom with None => h | Some cur => f64_min cur h end))
  end.

(** [None] outside is the panic of [chain_for], which no configuration reaches. *)
Definition rate_headroom (s : GovState.t) (cost : CostModel.t) (key : VirtualKey.t) (pool : option string)
    (now : Z) : option (option f64) :=
  let? chain := chain_for cost key in
  Some (match chain with inl _ => None | inr ch => headroom_loop s pool now (Chain.buckets ch) None end).

(** ** Metering: the row a completed response adds *)
Definition metering_delta (key_id model provider : string) (usage : option IrUsage.t) (now : Z)
    : MeteringDelta.t :=
  MeteringDelta.mk key_id (metering_bucket now) model provider
    (match usage with Some u => IrUsage.input_tokens u | None => 0 end)
    (match usage with Some u => IrUsage.output_tokens u | None => 0 end)
    (match usage with Some u => default 0 (IrUsage.cache_read_input_tokens u) | None => 0 end)
    (match usage with Some u => default 0 (IrUsage.cache_creation_input_tokens u) | None => 0 end).

(** ** Doubles that are numbers *)
Lemma shr_1_nonneg r : 0 <= shr_m r -> 0 <= shr_m (shr_1 r).
Proof. destruct r as [[|[p|p|]|p] x y]; cbn; lia. Qed.

Lemma iter_shr_nonneg p r : 0 <= shr_m r -> 0 <= shr_m (iter_pos shr_1 p r).
Proof. revert r. induction p as [p IH|p IH|]; intros r H; cbn; [apply IH, IH, shr_1_nonneg|apply IH, IH|apply shr_1_nonneg]; done. Qed.

Lemma shr_fexp_nonneg m e l : 0 <= m -> 0 <= shr_m (shr_fexp 53 1024 m e l).1.
Proof.
  intros H. unfold shr_fexp, shr. assert (0 <= shr_m (shr_record_of_loc m l)) by by destruct l as [|[]].
  destruct (_ - e); cbn [fst]; [done|by apply iter_shr_nonneg|done].
Qed.

Lemma round_nonneg m l : 0 <= m -> 0 <= round_nearest_even m l.
Proof. intros H. destruct l as [|[]]; cbn; try destruct (Z.even m); lia. Qed.

Lemma round_aux_number sx m e l : 0 <= m -> is_number (binary_round_aux 53 1024 sx m e l) = true.
Proof.
  intros Hm. unfold binary_round_aux. pose proof (shr_fexp_nonneg m e l Hm) as H1.
  destruct (shr_fexp 53 1024 m e l) as [r e1]. cbn [fst] in H1.
  pose proof (shr_fexp_nonneg _ e1 loc_Exact (round_nonneg _ (loc_of_shr_record r) H1)) as H2.
  destruct (shr_fexp 53 1024 _ e1 loc_Exact) as [r2 e2]. cbn [fst] in H2.
  destruct (shr_m r2); [done|by destruct (e2 <=? _)|lia].
Qed.

Lemma normalize_number m e s : is_number (binary_normalize 53 1024 m e s) = true.
Proof.
  destruct m; cbn; [done|..]; unfold binary_round; destruct (shl_align _ _ _) as [mz ez]; by apply round_aux_number.
Qed.

Lemma of_Z_number z : is_number (f64_of_Z z) = true.
Proof. apply normalize_number. Qed.

Lemma digits_spec p : 2 ^ (Z.pos (digits2_pos p) - 1) <= Z.pos p < 2 ^ Z.pos (digits2_pos p).
Proof.
  induction p as [p IH|p IH|]; cbn [digits2_pos]; [..|done]; rewrite Pos2Z.inj_succ, Z.sub_1_r, Z.pred_succ;
    rewrite Z.pow_succ_r by lia; replace (Z.pos (digits2_pos p)) with (Z.succ (Z.pos (digits2_pos p) - 1)) at 1 by lia;
    rewrite Z.pow_succ_r by lia; lia.
Qed.

Lemma shr_1_half r : 0 <= shr_m r -> shr_m (shr_1 r) = shr_m r / 2.
Proof.
  destruct r as [[|[p|p|]|p] x y]; cbn; intros H; try done; try lia.
  - rewrite Pos2Z.inj_xI. apply Z.div_unique with 1; lia.
  - rewrite Pos2Z.inj_xO. apply Z.div_unique with 0; lia.
Qed.

Lemma iter_shr p r : 0 <= shr_m r -> shr_m (iter_pos shr_1 p r) = shr_m r / 2 ^ Z.pos p.
Proof.
  revert r. induction p as [p IH|p IH|]; intros r H; cbn [iter_pos].
  - pose proof (shr_1_nonneg r H). pose proof (iter_shr_nonneg p _ (shr_1_nonneg r H)).
    rewrite !IH, shr_1_half, !Z.div_div by (done || apply Z.pow_nonzero || apply Z.mul_pos_pos || lia || apply Z.pow_pos_nonneg; lia).
    f_equal. replace (Z.pos p~1) with (1 + Z.pos p + Z.pos p) by lia. rewrite !Z.pow_add_r by lia. lia.
  - pose proof (iter_shr_nonneg p _ H).
    rewrite !IH, !Z.div_div by (done || apply Z.pow_nonzero || lia || apply Z.pow_pos_nonneg; lia).
    f_equal. replace (Z.pos p~0) with (Z.pos p + Z.pos p) by lia. by rewrite !Z.pow_add_r by lia.
  - by apply shr_1_half.
Qed.

(** Rounding an integer of at most 64 bits to a double shifts it by the bits above 53 and leaves a
    finite mantissa. *)
Lemma shr_fexp_small m e : 0 < m < 2 ^ 65 -> -100 <= e <= 200 ->
  let r := shr_fexp 53 1024 m e loc_Exact in 0 < shr_m r.1 <= m /\ e <= r.2 <= e + 12.
Proof.
  intros Hm He. unfold shr_fexp, shr, fexp, emin. destruct m as [|m|m]; [lia| |lia]. cbn [shr_record_of_loc Zdigits2].
  pose proof (digits_spec m) as [D1 D2]. set (d := Z.pos (digits2_pos m)) in *. assert (0 < d) by (unfold d; lia).
  assert (d <= 65) as Hd.
  { destruct (Z.le_gt_cases d 65); [done|]. assert (2 ^ 65 <= 2 ^ (d - 1)) by (apply Z.pow_le_mono_r; lia). lia. }
  rewrite Z.max_l by lia. destruct (d + e - 53 - e) as [|n|n] eqn:En; cbn [fst snd]; [cbn [shr_m]; lia| |cbn [shr_m]; lia].
  rewrite iter_shr by done. cbn [shr_m]. assert (Z.pos n <= d - 1) by lia.
  assert (2 ^ Z.pos n <= 2 ^ (d - 1)) by (apply Z.pow_le_mono_r; lia).
  assert (0 < 2 ^ Z.pos n) by (apply Z.pow_pos_nonneg; lia).
  split; [|lia]. split; [apply Z.div_str_pos; lia|apply Z.div_le_upper_bound; nia].
Qed.

Lemma round_aux_finite sx m e : 0 < m < 2 ^ 64 -> -100 <= e <= 100 ->
  exists m' e', binary_round_aux 53 1024 sx m e loc_Exact = S754_finite sx m' e'.
Proof.
  intros Hm He. unfold binary_round_aux. pose proof (shr_fexp_small m e ltac:(lia) ltac:(lia)) as [H1 H2].
  destruct (shr_fexp 53 1024 m e loc_Exact) as [r e1]. cbn [fst snd] in *.
  assert (0 < round_nearest_even (shr_m r) (loc_of_shr_record r) <= m + 1) as H3
    by (destruct (loc_of_shr_record r) as [|[]]; cbn; try destruct (Z.even _); lia).
  set (m1 := round_nearest_even _ _) in *. pose proof (shr_fexp_small m1 e1 ltac:(lia) ltac:(lia)) as [H4 H5].
  destruct (shr_fexp 53 1024 m1 e1 loc_Exact) as [r2 e2]. cbn [fst snd] in *.
  destruct (shr_m r2) as [|m2|]; [lia| |lia]. destruct (Z.leb_spec e2 (1024 - 53)); [by eexists _, _|lia].
Qed.

Lemma of_Z_finite z : 0 < z <= U64_MAX -> exists m e, f64_of_Z z = S754_finite false m e.
Proof.
  intros Hz. destruct z as [|p|p]; [lia| |lia]. unfold f64_of_Z, binary_normalize, binary_round, shl_align, fexp, emin.
  rewrite Z.add_0_r. pose proof (digits_spec p) as [D1 D2]. set (d := Z.pos (digits2_pos p)) in *.
  assert (0 < d) by (unfold d; lia). unfold U64_MAX in Hz.
  assert (d <= 64) as Hd.
  { destruct (Z.le_gt_cases d 64); [done|]. assert (2 ^ 64 <= 2 ^ (d - 1)) by (apply Z.pow_le_mono_r; lia). lia. }
  rewrite Z.max_l, Z.sub_0_r by lia. destruct (d - 53) as [|n|n] eqn:En; [apply round_aux_finite; lia..|].
  apply round_aux_finite; [|lia]. split; [done|].
  assert (Z.pos (Pos.iter xO p n) = Z.pos p * 2 ^ Z.pos n) as ->.
  { clear. induction n using Pos.peano_ind; [cbn; lia|].
    rewrite Pos.iter_succ, Pos2Z.inj_succ, Z.pow_succ_r, Pos2Z.inj_xO by lia. lia. }
  assert (2 ^ d * 2 ^ Z.pos n = 2 ^ 53) by (rewrite <- Z.pow_add_r by lia; f_equal; lia).
  assert (0 < 2 ^ Z.pos n) by (apply Z.pow_pos_nonneg; lia). nia.
Qed.

Lemma div_number a b : is_number a = true -> (exists s m e, b = S754_finite s m e) -> is_number (f64_div a b) = true.
Proof.
  intros Ha (s & m & e & ->). destruct a as [| | |sx mx ex]; try done. cbn.
  unfold SFdiv_core_binary. set (m' := match _ with Z0 => _ | _ => _ end).
  assert (0 <= m') by (unfold m'; destruct (_ - _); [lia|apply Z.shiftl_nonneg; lia|lia]).
  pose proof (Z.div_pos m' (Z.pos m)) as Hq. unfold Z.div in Hq. destruct (Z.div_eucl m' (Z.pos m)) as [q r].
  apply round_aux_number. lia.
Qed.

Lemma one_minus_number x : is_number x = true -> is_number (f64_sub f64_one x) = true.
Proof.
  intros Hx. unfold f64_one. destruct (of_Z_finite 1) as (m & e & ->); [mach_lia|].
  destruct x as [[]|[]| |s mx ex]; try done. apply normalize_number.
Qed.

Lemma frac_number used cap : 0 <= cap <= U64_MAX -> is_number (frac used cap) = true.
Proof.
  intros Hc. unfold frac. destruct (Z.eqb_spec cap 0); [done|]. apply one_minus_number, div_number; [apply of_Z_number|].
  destruct (of_Z_finite cap) as (m & e & ->); [lia|]. by eexists _, _, _.
Qed.

Definition unit_interval (x : f64) : Prop := is_number x = true /\ SFleb f64_zero x = true /\ SFleb x f64_one = true.

Lemma min_cases a b : is_number a = true -> is_number b = true -> f64_min a b = a \/ f64_min a b = b.
Proof. destruct a, b; try done; intros _ _; unfold f64_min; destruct (SFltb _ _); auto. Qed.

Lemma min_number a b : is_number a = true -> is_number b = true -> is_number (f64_min a b) = true.
Proof. intros Ha Hb. by destruct (min_cases a b Ha Hb) as [->| ->]. Qed.

Lemma min_unit a b : unit_interval a -> unit_interval b -> unit_interval (f64_min a b).
Proof. intros Ha Hb. by destruct (min_cases a b (proj1 Ha) (proj1 Hb)) as [->| ->]. Qed.

(** Of two numbers, one is at most the other. *)
Lemma not_lt_le x y : is_number x = true -> is_number y = true -> SFltb x y = false -> SFleb y x = true.
Proof.
  intros Hx Hy. unfold SFltb, SFleb. change SFcompare with f64_partial_cmp.
  rewrite !partial_cmp_place by done. pose proof (lex_spec (place x) (place y)) as H1.
  pose proof (lex_spec (place y) (place x)) as H2.
  destruct (lex (place x) (place y)), (lex (place y) (place x)); try done; [rewrite H1 in H2|]; lia.
Qed.

Lemma clamp_unit x : is_number x = true -> unit_interval (f64_clamp01 x).
Proof.
  intros Hx. unfold f64_clamp01. destruct (SFltb x f64_zero) eqn:E0; [by repeat split; vm_compute|].
  destruct (SFltb f64_one x) eqn:E1; [by repeat split; vm_compute|].
  split_and!; [done|by apply not_lt_le|by apply not_lt_le].
Qed.

(** Caps are unsigned machine integers. *)
Definition caps_ok (b : ChainBucket.t) : Prop :=
  (forall c, ChainBucket.requests_cap b = Some c -> 0 <= c <= U64_MAX) /\
  (forall c, ChainBucket.tokens_cap b = Some c -> 0 <= c <= U64_MAX).

Lemma bucket_headroom_unit s now b : caps_ok b -> unit_interval (bucket_headroom s now b).
Proof.
  intros [Hr Ht]. unfold bucket_headroom. destruct (match _ !! _ with Some _ => _ | None => _ end) as [req tok].
  apply clamp_unit.
  destruct (ChainBucket.requests_cap b) as [r|], (ChainBucket.tokens_cap b) as [t|];
    repeat apply min_number; try done; apply frac_number; auto.
Qed.

Lemma headroom_loop_spec s pool now bs h0 :
  Forall caps_ok bs -> (forall h, h0 = Some h -> unit_interval h) ->
  (is_Some (headroom_loop s pool now bs h0) <-> is_Some h0 \/ existsb (fun b => limited b && applies pool b) bs = true) /\
  (forall h, headroom_loop s pool now bs h0 = Some h -> unit_interval h).
Proof.
  intros Hb. revert h0. induction Hb as [|b bs Hb Hbs IH]; intros h0 H0; cbn [headroom_loop existsb].
  - split; [naive_solver|done].
  - destruct (limited b); cbn [negb andb orb]; [|by apply IH].
    destruct (applies pool b); cbn [negb andb orb]; [|by apply IH].
    edestruct (IH (Some (match h0 with None => bucket_headroom s now b | Some cur => f64_min cur (bucket_headroom s now b) end)))
      as [H1 H2]; [|split; [rewrite H1; naive_solver|exact H2]].
    intros h [= <-]. destruct h0 as [cur|]; [apply min_unit; [by apply H0|]|]; by apply bucket_headroom_unit.
Qed.

(** The headroom the routing policies rank by is present exactly when some request or token limit
    of the key's group chain applies to the pool, and it is then a number between zero and one: no
    counter, cap or ratio makes it NaN, infinite or negative, so it always ranks. *)
Theorem headroom_is_fraction s cost key pool now ch :
  chain_for cost key = Some (inr ch) -> Forall caps_ok (Chain.buckets ch) ->
  exists r, rate_headroom s cost key pool now = Some r /\
    (is_Some r <-> existsb (fun b => limited b && applies pool b) (Chain.buckets ch) = true) /\
    (forall h, r = Some h -> unit_interval h).
Proof.
  intros Hc Hb. unfold rate_headroom. rewrite Hc. eexists. split; [reflexivity|].
  destruct (headroom_loop_spec s pool now (Chain.buckets ch) None Hb ltac:(done)) as [H1 H2].
  split; [|exact H2]. rewrite H1. split; [intros [[? ?]|?]; done|auto].
Qed.

(** One of the team's two requests of the minute is used: half is left, and the day's cap is looser. *)
Definition after_one : GovState.t :=
  match try_admit 1000 demo_cost GovState.new demo_key "p" 100 with Some (s, _) => s | None => GovState.new end.

Lemma headroom_is_fraction_witness :
  exists h, rate_headroom after_one demo_cost demo_key (Some "p") 100 = Some (Some h) /\ unit_interval h /\
    h = f64_div (f64_of_Z 1) (f64_of_Z 2).
Proof.
  destruct (headroom_is_fraction after_one demo_cost demo_key (Some "p") 100 demo_chain demo_chain_for)
    as (r & E & Hs & Hu).
  - repeat apply Forall_cons_2; [..|apply Forall_nil_2]; split; cbn; intros c Hc; try discriminate Hc; injection Hc as <-; mach_lia.
  - assert (rate_headroom after_one demo_cost demo_key (Some "p") 100 = Some (Some (f64_div (f64_of_Z 1) (f64_of_Z 2)))) as E2
      by (vm_compute; reflexivity).
    rewrite E2 in E. injection E as <-. eexists. split; [exact E2|]. split; [by apply Hu|done].
Defined.

(** ** Metered responses add up: every row is the saturating sum of the responses of its key, day, model
    and provider, whatever the others were *)
Definition row_key (d : MeteringDelta.t) : MemoryDb.metering_key :=
  (MeteringDelta.key_id d, MeteringDelta.bucket d, MeteringDelta.model d, MeteringDelta.provider d).

Definition summed (f : MeteringDelta.t -> Z) (ds : list MeteringDelta.t) : Z :=
  foldl (fun acc d => sat_add_u64 acc (f d)) 0 ds.

Lemma add_metering_lookup st d k :
  MemoryDb.metering (MemoryDb.add_metering st d) !! k =
  if decide (row_key d = k) then
    let e := default (MeteringRow.mk k.1.1.1 k.1.2 k.2 0 0 0 0 0) (MemoryDb.metering st !! k) in
    Some (MeteringRow.mk (MeteringRow.key_id e) (MeteringRow.model e) (MeteringRow.provider e)
          (sat_add_u64 (MeteringRow.tokens_input e) (MeteringDelta.tokens_input d))
          (sat_add_u64 (MeteringRow.tokens_output e) (MeteringDelta.tokens_output d))
          (sat_add_u64 (MeteringRow.tokens_cache_read e) (MeteringDelta.tokens_cache_read d))
          (sat_add_u64 (MeteringRow.tokens_cache_creation e) (MeteringDelta.tokens_cache_creation d))
          (sat_add_u64 (MeteringRow.requests e) 1))
  else MemoryDb.metering st !! k.
Proof.
  unfold MemoryDb.add_metering. cbn [MemoryDb.metering]. fold (row_key d).
  destruct (decide (row_key d = k)) as [<-|Hne]; [by rewrite lookup_insert_eq|by rewrite lookup_insert_ne].
Qed.

Lemma metering_rows ds k :
  let mine := filter (fun d => row_key d = k) ds in
  MemoryDb.metering (foldl MemoryDb.add_metering MemoryDb.new ds) !! k =
  match mine with
  | [] => None
  | _ => Some (MeteringRow.mk k.1.1.1 k.1.2 k.2 (summed MeteringDelta.tokens_input mine)
                 (summed MeteringDelta.tokens_output mine) (summed MeteringDelta.tokens_cache_read mine)
                 (summed MeteringDelta.tokens_cache_creation mine) (summed (fun _ => 1) mine))
  end.
Proof.
  induction ds as [|d ds IH] using rev_ind; cbn zeta in *; [done|].
  rewrite foldl_app, filter_app. cbn [foldl]. rewrite add_metering_lookup, IH, filter_cons, filter_nil.
  destruct (decide (row_key d = k)) as [Hk|Hne]; [|by rewrite app_nil_r].
  destruct (filter _ ds) as [|x mine]; [done|]. cbn [app]. unfold summed.
  change (x :: mine ++ [d]) with ((x :: mine) ++ [d]). by rewrite !foldl_app.
Qed.
