(* ===== verification/Projection.v ===== *)
(** * What hooks see of a request body, and how a rewrite goes back into it (crates/busbar/src/proxy/hooks.rs)

    The conversation of each dialect as size signals and as (role, text) pairs, the rendering of a
    rewrite into the dialect's own shape, and the transform pass over a chain of rewrite gates.
    Borrowed and owned text ([Cow]) are one string here.  A [usize] count of characters is a [nat]. *)
From stdpp Require Import base gmap list strings.
From Stdlib Require Import ZArith Lia.
From S2P Require Import Prelude Cell Ledger Json HookWire.
Open Scope Z_scope.

Definition PROTO_GEMINI : string := "gemini".
Definition PROTO_BEDROCK : string := "bedrock".
Definition PROTO_RESPONSES : string := "responses".

Definition is_proto (p q : string) : bool := String.eqb p q.

(** ** Reading the conversation *)
Definition turns_key (proto : string) : string :=
  if is_proto proto PROTO_GEMINI then "contents"
  else if is_proto proto PROTO_RESPONSES then "input" else "messages".

Definition conversation_turns (v : Value) (proto : string) : option (list Value) := get_array (turns_key proto) v.

Definition turn_count (v : Value) (proto : string) : nat :=
  match conversation_turns v proto with
  | Some turns => length turns
  | None => if is_proto proto PROTO_RESPONSES && negb (bool_decide (get_str "input" v = None)) then 1 else 0
  end.

Definition max_tokens_for (v : Value) (proto : string) : option Z :=
  let key := if is_proto proto PROTO_RESPONSES then "max_output_tokens" else "max_tokens" in
  (fun n => Z.min n U32_MAX) <$> (v ← get key v; as_u64 v).

Definition char_count (s : string) : nat := length (chars s).
Definition texts (l : list Value) : list string := omap (get_str "text") l.
Definition sum_chars (l : list string) : nat := sum_list (char_count <$> l).

Definition gemini_parts_chars (content : Value) : nat :=
  match get_array "parts" content with Some parts => sum_chars (texts parts) | None => 0 end.

Definition system_text_chars (v : Value) (proto : string) : nat :=
  if is_proto proto PROTO_GEMINI then
    match get "systemInstruction" v with Some c => gemini_parts_chars c | None => 0 end
  else if is_proto proto PROTO_RESPONSES then
    match get_str "instructions" v with Some s => char_count s | None => 0 end
  else match get "system" v with
       | Some (Str s) => char_count s
       | Some (Array blocks) => sum_chars (texts blocks)
       | _ => 0
       end.

Definition turn_chars (proto : string) (m : Value) : nat :=
  if is_proto proto PROTO_GEMINI then gemini_parts_chars m
  else match get "content" m with
       | Some (Str s) => char_count s
       | Some (Array blocks) => sum_chars (texts blocks)
       | _ => if is_proto proto PROTO_RESPONSES
              then match get_str "text" m with Some t => char_count t | None => 0 end else 0
       end.

Definition total_text_chars (v : Value) (proto : string) (system_chars : nat) : nat :=
  match conversation_turns v proto with
  | Some turns => foldl (fun total m => (total + turn_chars proto m)%nat) system_chars turns
  | None =>
      if is_proto proto PROTO_RESPONSES
      then match get_str "input" v with Some s => (system_chars + char_count s)%nat | None => system_chars end
      else system_chars
  end.

Definition KIND_AUTHENTICATION : string := "authentication_error".
Definition KIND_PERMISSION : string := "permission_error".
Definition KIND_NOT_FOUND : string := "not_found_error".
Definition KIND_TIMEOUT : string := "timeout".
Definition KIND_RATE_LIMIT : string := "rate_limit_error".
Definition KIND_INVALID_REQUEST : string := "invalid_request_error".
Definition KIND_OVERLOADED : string := "overloaded".

Definition reject_kind_for_status (status : Z) : string :=
  if status =? 401 then KIND_AUTHENTICATION
  else if status =? 403 then KIND_PERMISSION
  else if status =? 404 then KIND_NOT_FOUND
  else if status =? 408 then KIND_TIMEOUT
  else if status =? 429 then KIND_RATE_LIMIT
  else KIND_INVALID_REQUEST.

Definition non_empty (s : string) : option string := if is_empty s then None else Some s.

Definition body_end_user (v : Value) : option string :=
  match (s ← get_str "user" v; non_empty s) with
  | Some s => Some s
  | None => m ← get "metadata" v; s ← get_str "user_id" m; non_empty s
  end.

(** ** The prompt projection *)
Definition nl : string := String (Ascii.ascii_of_nat 10) "".

Fixpoint join_blocks (out : string) (ts : list string) : string :=
  match ts with
  | [] => out
  | t :: ts => join_blocks (if is_empty out then t else out +:+ nl +:+ t) ts
  end.

Definition flatten_content (c : option Value) : string :=
  match c with
  | Some (Str s) => s
  | Some (Array blocks) => join_blocks "" (texts blocks)
  | _ => ""
  end.

Definition flatten_gemini_parts (c : Value) : string :=
  match get_array "parts" c with
  | Some parts =>
      match texts parts with
      | [] => ""
      | first :: rest => foldl (fun out t => out +:+ nl +:+ t) first rest
      end
  | None => ""
  end.

Definition turn_text (proto : string) (m : Value) : string :=
  if is_proto proto PROTO_GEMINI then flatten_gemini_parts m
  else if is_proto proto PROTO_RESPONSES && bool_decide (get "content" m = None) then default "" (get_str "text" m)
  else flatten_content (get "content" m).

Definition turn_role (proto : string) (m : Value) : string :=
  match get_str "role" m with
  | Some r => if String.eqb r "model" && is_proto proto PROTO_GEMINI then "assistant" else r
  | None =>
      if is_proto proto PROTO_RESPONSES
      then (if bool_decide (get_str "type" m = Some "output_text") then "assistant" else "user") else ""
  end.

Definition project_system (v : Value) (proto : string) : option string :=
  s ← (if is_proto proto PROTO_GEMINI then flatten_gemini_parts <$> get "systemInstruction" v
       else if is_proto proto PROTO_RESPONSES then get_str "instructions" v
       else (fun s => flatten_content (Some s)) <$> get "system" v);
  non_empty s.

Definition project_messages (v : Value) (proto : string) : list (string * string) :=
  match conversation_turns v proto with
  | Some turns => (fun m => (turn_role proto m, turn_text proto m)) <$> turns
  | None =>
      if is_proto proto PROTO_RESPONSES
      then match get_str "input" v with Some s => [("user", s)] | None => [] end else []
  end.

Definition build_prompt_projection (v : Value) (proto : string) : PromptProjection.t :=
  PromptProjection.mk (project_system v proto) (project_messages v proto).

Definition tool_list (v : Value) : list Value := default [] (get_array "tools" v).
Definition has_tools (v : Value) : bool := match tool_list v with [] => false | _ => true end.

Definition build_rewrite_request (v : Value) (pool_name proto : string) (wants_stream with_prompt : bool)
    : RoutingRequest.t :=
  let system_chars := system_text_chars v proto in
  RoutingRequest.mk pool_name proto (get_str "model" v) (turn_count v proto) (length (tool_list v)) (has_tools v)
    (total_text_chars v proto system_chars) system_chars (max_tokens_for v proto) wants_stream
    (if with_prompt then Some (build_prompt_projection v proto) else None) None.

(** ** Writing a rewrite back *)
Definition text_pair (m : Value) : option (string * string) :=
  role ← get_str "role" m; text ← get_str "content" m; Some (role, text).

Definition obj (l : list (string * Value)) : Value := Object (foldl (fun m kv => map_insert kv.1 kv.2 m) [] l).

Definition bedrock_turn (rt : string * string) : Value :=
  obj [("role", Str rt.1); ("content", Array [obj [("text", Str rt.2)]])].
Definition gemini_role (role : string) : string :=
  if String.eqb role "assistant" || String.eqb role "model" then "model" else "user".
Definition gemini_turn (rt : string * string) : Value :=
  obj [("role", Str (gemini_role rt.1)); ("parts", Array [obj [("text", Str rt.2)]])].
Definition responses_turn (rt : string * string) : Value := obj [("role", Str rt.1); ("content", Str rt.2)].

(** [true] with the new body, or [false] with the body untouched. *)
Definition apply_rewrite_to_body (v : Value) (rewrite : RewriteReply.t) (proto : string) : Value * bool :=
  match RewriteReply.messages rewrite, v with
  | [], _ => (v, false)
  | messages, Object m =>
      let pairs := mapM text_pair messages in
      let reframed key turn :=
        match pairs with
        | Some ps => (Object (map_insert key (Array (turn <$> ps)) m), true)
        | None => (v, false)
        end in
      let array_at key := match map_get key m with Some x => is_array x | None => false end in
      if is_proto proto PROTO_BEDROCK then
        if array_at "messages" then reframed "messages" bedrock_turn else (v, false)
      else if is_proto proto PROTO_GEMINI then
        if array_at "contents" then reframed "contents" gemini_turn else (v, false)
      else if is_proto proto PROTO_RESPONSES then
        match map_get "input" m with Some _ => reframed "input" responses_turn | None => (v, false) end
      else if array_at "messages" then
        let m := map_insert "messages" (Array messages) m in
        match RewriteReply.tools rewrite with
        | [] => (Object m, true)
        | tools =>
            match (x ← map_get "tools" m; as_array x) with
            | Some existing => (Object (map_insert "tools" (Array (existing ++ tools)) m), true)
            | None => (Object (map_insert "tools" (Array tools) m), true)
            end
        end
      else (v, false)
  | _, _ => (v, false)
  end.

(** The body after the chain, whether any rewrite committed, or the rejection of a hook. *)
Fixpoint apply_global_rewrites (hooks : list Policy.t) (v : Value) (pool_name proto : string)
    (wants_stream applied : bool) : Value * (Z * string + bool) :=
  match hooks with
  | [] => (v, inr applied)
  | hook :: hooks =>
      match Policy.transform hook (build_rewrite_request v pool_name proto wants_stream true) with
      | TransformOutcome.Rewrite rw =>
          let '(v, a) := apply_rewrite_to_body v rw proto in
          apply_global_rewrites hooks v pool_name proto wants_stream (applied || a)
      | TransformOutcome.Reject status message => (v, inl (status, message))
      | TransformOutcome.Abstain => apply_global_rewrites hooks v pool_name proto wants_stream applied
      end
  end.

(** ** Stage taps: scalars only *)
Module StageShape.
Record t := mk { pool : string; ingress_protocol : string; message_count : nat; has_tools : bool;
                 total_chars : nat; max_tokens : option Z; stream : bool }.
End StageShape.

Definition capture_stage_shape (v : option Value) (pool proto : string) (stream : bool) : StageShape.t :=
  match v with
  | Some v =>
      StageShape.mk pool proto (turn_count v proto) (has_tools v)
        (total_text_chars v proto (system_text_chars v proto)) (max_tokens_for v proto) stream
  | None => StageShape.mk pool proto 0 false 0 None stream
  end.

(** ** Rewrites read back *)

(** The role a dialect's turn is read with, after a rewrite wrote it. *)
Definition role_back (proto role : string) : string :=
  if is_proto proto PROTO_GEMINI then (if String.eqb role "assistant" || String.eqb role "model" then "assistant" else "user") else role.

Lemma get_insert k k' x m : get k (Object (map_insert k' x m)) = if String.eqb k' k then Some x else get k (Object m).
Proof. apply map_get_insert. Qed.

Lemma join_one t : join_blocks "" [t] = t.
Proof. done. Qed.

(** How each dialect's turn is read. *)
Lemma bedrock_turn_read rt : (turn_role PROTO_BEDROCK (bedrock_turn rt), turn_text PROTO_BEDROCK (bedrock_turn rt)) = rt.
Proof.
  destruct rt as [r t]. unfold turn_role. change (get_str "role" (bedrock_turn (r, t))) with (Some r).
  change (is_proto PROTO_BEDROCK PROTO_GEMINI) with false. cbv iota beta. by rewrite andb_false_r.
Qed.
Lemma gemini_turn_read rt :
  (turn_role PROTO_GEMINI (gemini_turn rt), turn_text PROTO_GEMINI (gemini_turn rt)) = (role_back PROTO_GEMINI rt.1, rt.2).
Proof.
  destruct rt as [r t]. unfold role_back, gemini_turn, gemini_role. cbn [fst snd].
  by destruct (String.eqb r "assistant" || String.eqb r "model").
Qed.
Lemma responses_turn_read rt :
  (turn_role PROTO_RESPONSES (responses_turn rt), turn_text PROTO_RESPONSES (responses_turn rt)) = rt.
Proof.
  destruct rt as [r t]. unfold turn_role. change (get_str "role" (responses_turn (r, t))) with (Some r).
  change (is_proto PROTO_RESPONSES PROTO_GEMINI) with false. cbv iota beta. by rewrite andb_false_r.
Qed.

Lemma plain_turn_read proto m rt : is_proto proto PROTO_GEMINI = false -> text_pair m = Some rt ->
  (turn_role proto m, turn_text proto m) = rt.
Proof.
  intros Hg H. unfold text_pair, get_str in H. destruct (get "role" m) as [[]|] eqn:Hr; try done.
  destruct (get "content" m) as [[]|] eqn:Hc; try done. injection H as <-.
  unfold turn_role, turn_text, get_str. rewrite Hg, Hr, Hc. cbn [mbind option_bind as_str].
  rewrite andb_false_r. by rewrite (bool_decide_eq_false_2 (Some (Str s0) = None)), andb_false_r by done.
Qed.

Lemma project_inserted proto l m :
  project_messages (Object (map_insert (turns_key proto) (Array l) m)) proto =
  (fun m => (turn_role proto m, turn_text proto m)) <$> l.
Proof.
  unfold project_messages, conversation_turns, get_array. by rewrite get_insert, String.eqb_refl.
Qed.

Lemma reframed_reads_back proto turn ps m :
  (forall rt, (turn_role proto (turn rt), turn_text proto (turn rt)) = (role_back proto rt.1, rt.2)) ->
  project_messages (Object (map_insert (turns_key proto) (Array (turn <$> ps)) m)) proto =
  (fun rt => (role_back proto rt.1, rt.2)) <$> ps.
Proof.
  intros H. rewrite project_inserted, <- list_fmap_compose. apply list_fmap_ext. intros i rt _. exact (H rt).
Qed.

(** What a rewrite may touch: the conversation, and the tools where the dialect takes them. *)
Definition untouched (proto k : string) : Prop := k <> turns_key proto /\ k <> "tools".

Lemma get_insert_ne k k' x m : k' <> k -> get k (Object (map_insert k' x m)) = get k (Object m).
Proof. intros H. rewrite get_insert. by destruct (String.eqb_spec k' k). Qed.

(** The outcome of a rewrite of the messages [msgs]. *)
Definition committed (proto : string) (msgs : list Value) (v v' : Value) : Prop :=
  msgs <> [] /\ (forall k, untouched proto k -> get k v' = get k v) /\
  (forall ps, mapM text_pair msgs = Some ps ->
     project_messages v' proto = (fun rt => (role_back proto rt.1, rt.2)) <$> ps).

Lemma reframed_committed proto turn msgs m v' ok :
  (forall rt, (turn_role proto (turn rt), turn_text proto (turn rt)) = (role_back proto rt.1, rt.2)) ->
  msgs <> [] ->
  match mapM text_pair msgs with
  | Some ps => (Object (map_insert (turns_key proto) (Array (turn <$> ps)) m), true)
  | None => (Object m, false)
  end = (v', ok) ->
  if ok then committed proto msgs (Object m) v' else v' = Object m.
Proof.
  intros Ht Hne. destruct (mapM text_pair msgs) as [ps|] eqn:Ep; intros [= <- <-]; [|done].
  split; [done|]. split; [intros k [Hk _]; by apply get_insert_ne|].
  intros ps'. rewrite Ep. intros [= <-]. by apply reframed_reads_back.
Qed.

Lemma plain_committed proto msgs m x :
  is_proto proto PROTO_GEMINI = false -> msgs <> [] ->
  (forall k, k <> "tools" -> map_get k x = map_get k (map_insert (turns_key proto) (Array msgs) m)) ->
  committed proto msgs (Object m) (Object x).
Proof.
  intros Hg Hne Hx. assert (turns_key proto <> "tools") as Ht
    by (unfold turns_key; destruct (is_proto proto PROTO_GEMINI), (is_proto proto PROTO_RESPONSES); done).
  split; [done|]. split.
  - intros k [Hk Hk']. cbn [get]. rewrite Hx by done. by apply get_insert_ne.
  - intros ps Hp. transitivity ((fun m => (turn_role proto m, turn_text proto m)) <$> msgs).
    + unfold project_messages, conversation_turns, get_array. cbn [get]. rewrite Hx by done.
      by rewrite map_get_insert, String.eqb_refl.
    + clear -Hg Hp. revert ps Hp. induction msgs as [|a msgs IH]; intros ps; cbn; [by intros [= <-]|].
      destruct (text_pair a) as [rt|] eqn:Ea; [|done]. destruct (mapM text_pair msgs) as [qs|]; [|done].
      intros [= <-]. cbn. f_equal; [|by apply IH]. rewrite (plain_turn_read proto a rt Hg Ea).
      unfold role_back. rewrite Hg. by destruct rt.
Qed.

Lemma apply_rewrite_spec v rw proto v' ok :
  apply_rewrite_to_body v rw proto = (v', ok) ->
  if ok then committed proto (RewriteReply.messages rw) v v' else v' = v.
Proof.
  unfold apply_rewrite_to_body. destruct (RewriteReply.messages rw) as [|m0 ms] eqn:Em; [by intros [= <- <-]|].
  assert (m0 :: ms <> []) as Hne by done. revert Hne. generalize (m0 :: ms). clear Em m0 ms. intros msgs Hne.
  destruct v as [| | | | |m]; try (by intros [= <- <-]). cbv zeta.
  destruct (is_proto proto PROTO_BEDROCK) eqn:Eb.
  { apply String.eqb_eq in Eb as ->. destruct (match map_get _ m with Some _ => _ | None => _ end); [|by intros [= <- <-]].
    apply (reframed_committed PROTO_BEDROCK bedrock_turn); [|done]. intros [r t]. apply bedrock_turn_read. }
  destruct (is_proto proto PROTO_GEMINI) eqn:Eg.
  { apply String.eqb_eq in Eg as ->. destruct (match map_get _ m with Some _ => _ | None => _ end); [|by intros [= <- <-]].
    apply (reframed_committed PROTO_GEMINI gemini_turn); [|done]. apply gemini_turn_read. }
  destruct (is_proto proto PROTO_RESPONSES) eqn:Er.
  { apply String.eqb_eq in Er as ->. destruct (map_get "input" m); [|by intros [= <- <-]].
    apply (reframed_committed PROTO_RESPONSES responses_turn); [|done]. intros [r t]. apply responses_turn_read. }
  destruct (match map_get _ m with Some _ => _ | None => _ end); [|by intros [= <- <-]].
  assert (turns_key proto = "messages") as Ek by (unfold turns_key; by rewrite Eg, Er).
  rewrite <- Ek. destruct (RewriteReply.tools rw) as [|t0 ts]; [intros [= <- <-]; by apply plain_committed|].
  destruct (_ ≫= as_array) as [existing|]; intros [= <- <-]; (apply plain_committed; [done..|]);
    intros k Hk; rewrite (map_get_insert "tools"); by destruct (String.eqb_spec "tools" k).
Qed.

(** A rewrite either leaves the body exactly as it was, or commits: the conversation a hook (or the
    next gate of the chain) is then shown is the rewritten one, turn for turn and with the roles kept
    in every dialect (an assistant turn of a Gemini body stays one), and no other member of the body
    changes but the tools; an empty rewrite never commits. *)
Theorem rewrite_reads_back v rw proto v' ok :
  apply_rewrite_to_body v rw proto = (v', ok) ->
  if ok then RewriteReply.messages rw <> [] /\
    (forall k, untouched proto k -> get k v' = get k v) /\
    (forall ps, mapM text_pair (RewriteReply.messages rw) = Some ps ->
       project_messages v' proto = (fun rt => (role_back proto rt.1, rt.2)) <$> ps)
  else v' = v.
Proof. apply apply_rewrite_spec. Qed.

Definition gemini_body : Value :=
  obj [("model", Str "g"); ("contents", Array [gemini_turn ("user", "hi"); gemini_turn ("model", "hello")])].
Definition shorter : RewriteReply.t :=
  RewriteReply.mk [responses_turn ("user", "h"); responses_turn ("assistant", "hello")] [].

Lemma rewrite_reads_back_witness :
  let r := apply_rewrite_to_body gemini_body shorter PROTO_GEMINI in
  r.2 = true /\ get "model" r.1 = get "model" gemini_body /\
  project_messages r.1 PROTO_GEMINI = [("user", "h"); ("assistant", "hello")].
Proof.
  pose proof (rewrite_reads_back gemini_body shorter PROTO_GEMINI
    (apply_rewrite_to_body gemini_body shorter PROTO_GEMINI).1 true) as H.
  destruct H as (_ & Hk & Hp); [vm_compute; reflexivity|].
  split; [vm_compute; reflexivity|]. split; [apply Hk; split; vm_compute; discriminate|].
  rewrite (Hp [("user", "h"); ("assistant", "hello")]); vm_compute; reflexivity.
Defined.

(** The projection is aligned with the conversation: one entry per turn counted. *)
Lemma projection_aligned v proto : length (project_messages v proto) = turn_count v proto.
Proof.
  unfold project_messages, turn_count. destruct (conversation_turns v proto); [apply length_fmap|].
  destruct (is_proto proto PROTO_RESPONSES); [|done]. by destruct (get_str "input" v).
Qed.

(** A chain that committed nothing left the body as it was, so the retained bytes still stand for it. *)
Lemma rewrites_not_applied hooks v pool proto stream v' applied :
  apply_global_rewrites hooks v pool proto stream applied = (v', inr false) -> v' = v.
Proof.
  revert v applied. induction hooks as [|h hooks IH]; intros v applied; cbn [apply_global_rewrites]; [by intros [= <-]|].
  destruct (Policy.transform h _) as [rw| |]; [|done|apply IH].
  destruct (apply_rewrite_to_body v rw proto) as [v1 a] eqn:Ea. pose proof (apply_rewrite_spec _ _ _ _ _ Ea) as Hr.
  intros H. assert (applied || a = false) as Hf.
  { clear -H. revert v1 H. generalize (applied || a). clear. induction hooks as [|h hooks IH]; intros b v1; cbn [apply_global_rewrites].
    - by intros [= _ ->].
    - destruct (Policy.transform h _) as [rw| |]; [|done|apply IH]. destruct (apply_rewrite_to_body v1 rw proto) as [v2 a2].
      intros H%IH. by destruct b. }
  apply orb_false_elim in Hf as [-> ->]. cbn in Hr. rewrite Hr in H. by apply IH in H.
Qed.

(** A Responses turn whose [content] is null is counted by its [text] but shown as empty. *)
Example null_content_counted_not_shown :
  let m := obj [("content", Null); ("role", Str "user"); ("text", Str "abc")] in
  turn_chars PROTO_RESPONSES m = 3%nat /\ turn_text PROTO_RESPONSES m = "".
Proof. vm_compute. auto. Qed.
