(* ===== verification/Routing.v ===== *)
(** * Gates and routing policies before the failover walk
      (crates/busbar/src/proxy/hooks.rs, proxy/engine/mod.rs)

    The prefix of a forward: lanes that cannot serve the operation are dropped, rewrite gates transform
    the body, decision gates veto, restrict or order, the pool's own policy orders, and the walk of
    [Walk] runs on what is left.  A policy that fails or times out is replaced by its chain of fallback
    hooks and then by its terminal.

    The signals of a candidate are read from the lane store and the ledger of [Store] and [Ledger];
    free permits are a reading of the semaphores.  Gates fire concurrently on the same candidate set,
    so their outcomes are a function of it.  Taps are write-only and are left out. *)
From stdpp Require Import base gmap list strings.
From Stdlib Require Import ZArith Lia.
From S2P Require Import Prelude Breaker Cell BreakerConfig Swrr Store Cost Ledger Select Walk Json HookWire.
From S2P Require Import Ranking Headroom Projection.
Import InMemoryStore.
Open Scope Z_scope.
Open Scope rust_scope.

(** ** Resolved policies *)
Module FallbackHook.
Record t := mk { policy : Policy.t; timeout : Z; send_prompt : bool; send_user : bool; on_empty : PolicyOnError }.
End FallbackHook.

Module ResolvedPolicy.
Record t := mk {
  policy : Policy.t; on_error : PolicyOnError; on_error_chain : list FallbackHook.t; timeout : Z;
  send_prompt : bool; send_user : bool; on_empty : PolicyOnError }.
End ResolvedPolicy.

Module PolicyOutcome.
Inductive t :=
  | Order (order : list nat) (name : string)
  | Weighted
  | Reject
  | RejectRequest (status : Z) (message : string) (name : string)
  | Restrict (tags_any : list string) (name : string) (on_empty : PolicyOnError).
End PolicyOutcome.

(** ** From a decision to an outcome *)
Definition map_decision (decision : RoutingDecision.t) (policy_name : string) (candidates : list Candidate.t)
    (on_empty : PolicyOnError) : PolicyOutcome.t :=
  match decision with
  | RoutingDecision.Prefer order =>
      match from_ranked order (list_to_set (Candidate.idx <$> candidates)) with
      | RoutingDecision.Prefer o => PolicyOutcome.Order o policy_name
      | _ => PolicyOutcome.Weighted
      end
  | RoutingDecision.Abstain => PolicyOutcome.Weighted
  | RoutingDecision.Reject status message =>
      PolicyOutcome.RejectRequest (clamp_reject_status status) (sanitize_reject_message message) policy_name
  | RoutingDecision.Restrict tags_any => PolicyOutcome.Restrict tags_any policy_name on_empty
  end.

Definition coerce_on_error (on_error : PolicyOnError) (candidates : list Candidate.t) (policy_name : string)
    : PolicyOutcome.t :=
  match on_error with
  | Weighted => PolicyOutcome.Weighted
  | Reject => PolicyOutcome.Reject
  | First => PolicyOutcome.Order (Candidate.idx <$> candidates) policy_name
  end.

Fixpoint run_on_error_chain (chain : list FallbackHook.t) (terminal : PolicyOnError) (req : RoutingRequest.t)
    (candidates : list Candidate.t) (ctx : RoutingContext.t) (failed_policy_name : string) : PolicyOutcome.t :=
  match chain with
  | [] => coerce_on_error terminal candidates failed_policy_name
  | fb :: chain =>
      let fb_req := RoutingRequest.with_content
        (if FallbackHook.send_prompt fb then RoutingRequest.prompt req else None)
        (if FallbackHook.send_user fb then RoutingRequest.identity req else None) req in
      match Policy.decide (FallbackHook.policy fb) fb_req candidates ctx with
      | Some decision =>
          map_decision decision (Policy.name (FallbackHook.policy fb)) candidates (FallbackHook.on_empty fb)
      | None => run_on_error_chain chain terminal req candidates ctx failed_policy_name
      end
  end.

(** ** What a decision is taken on *)
Module Gov.
Record t := mk { ledger : GovState.t; cost : CostModel.t; lookup : string -> option VirtualKey.t }.
End Gov.

(** The tags of a member are in [AppCfg.members]. *)
Module MemberMeta.
Record t := mk { tier : option string; cost_per_mtok : option f64 }.
End MemberMeta.

(** The request as the engine has it; [body] is [Null] when the body is not JSON. *)
Module Seen.
Record t := mk {
  body : Value; pool_name : string; ingress_protocol : string; wants_stream : bool;
  caller_token : option string; resolved_gov_key : option VirtualKey.t; now : Z }.
End Seen.

Section Seam.
Context (app : AppCfg.t) (provider : nat -> string) (meta : gmap string (gmap nat MemberMeta.t))
  (gov : option Gov.t) (permits : nat -> Z).

Definition gov_key_of (q : Seen.t) : option VirtualKey.t :=
  match (match gov, Seen.caller_token q with Some g, Some tok => Gov.lookup g tok | _, _ => None end) with
  | Some k => Some k
  | None => Seen.resolved_gov_key q
  end.

Definition headroom_of (q : Seen.t) (key : option VirtualKey.t) : option (option f64) :=
  match gov, key with
  | Some g, Some k => rate_headroom (Gov.ledger g) (Gov.cost g) k (Some (Seen.pool_name q)) (Seen.now q)
  | _, _ => Some None
  end.

Definition candidate_of (s : InMemoryStore.t) (pool : string) (rate_headroom : option f64)
    (wl : WeightedLane.t) : option Candidate.t :=
  let i := WeightedLane.idx wl in
  let? lane := AppCfg.lanes app !! i in
  let m := ms ← meta !! pool; ms !! i in
  let? latency := lane_latency_ms s i in
  let? budget := lane_budget_remaining s i in
  Some (Candidate.mk i (LaneCfg.model lane) (provider i) (WeightedLane.weight wl) (LaneCfg.context_max lane)
          (m ≫= MemberMeta.tier) (m ≫= MemberMeta.cost_per_mtok)
          (default [] (ms ← AppCfg.members app !! pool; ms !! i)) latency (permits i) budget rate_headroom).

Definition request_of (q : Seen.t) (send_prompt send_user : bool) (key : option VirtualKey.t)
    : RoutingRequest.t :=
  let v := Seen.body q in
  let proto := Seen.ingress_protocol q in
  let base := build_rewrite_request v (Seen.pool_name q) proto (Seen.wants_stream q) send_prompt in
  RoutingRequest.with_content (RoutingRequest.prompt base)
    (if send_user
     then Some (CallerIdentity.mk (VirtualKey.id <$> key) (VirtualKey.name <$> key) (body_end_user v)) else None)
    base.

Definition decide_policy_order (resolved : ResolvedPolicy.t) (cands : list WeightedLane.t) (ctx : RequestCtx.t)
    (s : InMemoryStore.t) (q : Seen.t) : option PolicyOutcome.t :=
  match RequestCtx.fill_candidates ctx cands with
  | [] => Some PolicyOutcome.Weighted
  | live =>
      let key := gov_key_of q in
      let? rate_headroom := headroom_of q key in
      let req := request_of q (ResolvedPolicy.send_prompt resolved) (ResolvedPolicy.send_user resolved) key in
      let? candidates := mapM (candidate_of s (Seen.pool_name q) rate_headroom) live in
      let? budget_chain := (match gov, key with
                            | Some g, Some k => budget_state (Gov.cost g) (Gov.ledger g) k (Seen.now q)
                            | _, _ => Some []
                            end) in
      let rctx := RoutingContext.mk (Seen.pool_name q) None budget_chain in
      let policy := ResolvedPolicy.policy resolved in
      Some (match Policy.decide policy req candidates rctx with
            | Some d => map_decision d (Policy.name policy) candidates (ResolvedPolicy.on_empty resolved)
            | None =>
                run_on_error_chain (ResolvedPolicy.on_error_chain resolved) (ResolvedPolicy.on_error resolved)
                  req candidates rctx (Policy.name policy)
            end)
  end.

(** ** Reconciling the gates *)

(** A refusal before any dispatch: status, kind, message. *)
Definition Refusal : Type := Z * string * string.

Definition GATE_INCOMPLETE : Refusal :=
  (503, KIND_OVERLOADED, "A required gate could not complete. Please retry shortly.").
Definition GATE_RESTRICT_EMPTY : Refusal :=
  (503, KIND_OVERLOADED, "No upstream satisfies a required gate's restriction. Please retry shortly.").
Definition POLICY_UNAVAILABLE : Refusal :=
  (503, KIND_OVERLOADED, "The routing policy could not select an upstream. Please retry shortly.").
Definition POLICY_RESTRICT_EMPTY : Refusal :=
  (503, KIND_OVERLOADED, "No upstream satisfies the routing policy's restriction. Please retry shortly.").

Definition refuse (status : Z) (message : string) : Refusal := (status, reject_kind_for_status status, message).

(** The first gate of the chain that rejects. *)
Fixpoint first_reject (outcomes : list PolicyOutcome.t) : option Refusal :=
  match outcomes with
  | [] => None
  | PolicyOutcome.RejectRequest status message _ :: _ => Some (refuse status message)
  | PolicyOutcome.Reject :: _ => Some GATE_INCOMPLETE
  | _ :: outcomes => first_reject outcomes
  end.

Definition push_restrict (r : RestrictConstraint.t) (c : RequestCtx.t) : RequestCtx.t :=
  RequestCtx.mk (RequestCtx.deadline c) (RequestCtx.excluded c) (RequestCtx.visited_pools c)
    (RequestCtx.active_restricts c ++ [r]).

(** One restrict on the candidates of the pool: what is left, or the refusal [empty]. *)
Definition restrict_cands (pool : string) (r : RestrictConstraint.t) (empty : Refusal)
    (cands : list WeightedLane.t) : Refusal + list WeightedLane.t :=
  match List.filter (carries_tag (AppCfg.members app !! pool) r) cands with
  | [] => if bool_decide (RestrictConstraint.on_empty r = Weighted) then inr cands else inl empty
  | restricted => inr restricted
  end.

Fixpoint apply_restricts (pool : string) (outcomes : list PolicyOutcome.t) (cands : list WeightedLane.t)
    (ctx : RequestCtx.t) : Refusal + list WeightedLane.t * RequestCtx.t :=
  match outcomes with
  | [] => inr (cands, ctx)
  | PolicyOutcome.Restrict tags_any name on_empty :: outcomes =>
      let r := RestrictConstraint.mk tags_any on_empty name in
      match restrict_cands pool r GATE_RESTRICT_EMPTY cands with
      | inl e => inl e
      | inr cands => apply_restricts pool outcomes cands (push_restrict r ctx)
      end
  | _ :: outcomes => apply_restricts pool outcomes cands ctx
  end.

(** The last ordering gate wins, on the lanes that survived. *)
Fixpoint last_order (surviving : gset nat) (outcomes : list PolicyOutcome.t)
    (gate_order : option (list nat * string)) : option (list nat * string) :=
  match outcomes with
  | [] => gate_order
  | PolicyOutcome.Order order name :: outcomes =>
      match List.filter (fun i => bool_decide (i ∈ surviving)) order with
      | [] => last_order surviving outcomes gate_order
      | filtered => last_order surviving outcomes (Some (filtered, name))
      end
  | _ :: outcomes => last_order surviving outcomes gate_order
  end.

Definition by_priority (a b : Z * ResolvedPolicy.t) : comparison := a.1 ?= b.1.

Definition gate_chain (global_gates pool_gates : list (Z * ResolvedPolicy.t)) : list (Z * ResolvedPolicy.t) :=
  sort_by by_priority (global_gates ++ pool_gates).

Definition reconcile (pool : string) (outcomes : list PolicyOutcome.t) (cands : list WeightedLane.t)
    (ctx : RequestCtx.t) : Refusal + list WeightedLane.t * RequestCtx.t * option (list nat * string) :=
  match first_reject outcomes with
  | Some e => inl e
  | None =>
      match apply_restricts pool outcomes cands ctx with
      | inl e => inl e
      | inr (cands, ctx) =>
          inr (cands, ctx, last_order (list_to_set (WeightedLane.idx <$> cands)) outcomes None)
      end
  end.

(** The pool's own policy, consulted when no gate ordered. *)
Definition base_policy (policy : option ResolvedPolicy.t) (cands : list WeightedLane.t) (ctx : RequestCtx.t)
    (s : InMemoryStore.t) (q : Seen.t)
    : option (Refusal + list WeightedLane.t * RequestCtx.t * option (list nat)) :=
  match policy with
  | None => Some (inr (cands, ctx, None))
  | Some resolved =>
      let? outcome := decide_policy_order resolved cands ctx s q in
      Some (match outcome with
            | PolicyOutcome.Order order _ => inr (cands, ctx, Some order)
            | PolicyOutcome.Weighted => inr (cands, ctx, None)
            | PolicyOutcome.Reject => inl POLICY_UNAVAILABLE
            | PolicyOutcome.RejectRequest status message _ => inl (refuse status message)
            | PolicyOutcome.Restrict tags_any name on_empty =>
                let r := RestrictConstraint.mk tags_any on_empty name in
                match restrict_cands (Seen.pool_name q) r POLICY_RESTRICT_EMPTY cands with
                | inl e => inl e
                | inr cands => inr (cands, push_restrict r ctx, None)
                end
            end)
  end.

(** Gates, then the pool's policy: the candidates, the context and the order the walk starts with. *)
Definition decide_route (global_gates pool_gates : list (Z * ResolvedPolicy.t)) (policy : option ResolvedPolicy.t)
    (cands : list WeightedLane.t) (ctx : RequestCtx.t) (s : InMemoryStore.t) (q : Seen.t)
    : option (Refusal + list WeightedLane.t * RequestCtx.t * option (list nat)) :=
  let? outcomes := mapM (fun g => decide_policy_order g.2 cands ctx s q) (gate_chain global_gates pool_gates) in
  match reconcile (Seen.pool_name q) outcomes cands ctx with
  | inl e => Some (inl e)
  | inr (cands, ctx, Some (order, _)) => Some (inr (cands, ctx, Some order))
  | inr (cands, ctx, None) => base_policy policy cands ctx s q
  end.
End Seam.

(** ** The whole forward *)
Module FailoverCfg.
Record t := mk { timeout_secs : Z; max_hops : nat; exclusions : option (list string) }.
End FailoverCfg.
Definition DEFAULT_FAILOVER_DEADLINE_SECS : Z := 120.
Definition DEFAULT_FAILOVER_CAP : nat := 3.

Module PoolRuntime.
Record t := mk {
  rewrite_hooks : list Policy.t; gates : list (Z * ResolvedPolicy.t); policy : option ResolvedPolicy.t;
  failover : option FailoverCfg.t }.
Definition empty : t := mk [] [] None None.
End PoolRuntime.

Module Engine.
Record t := mk {
  rewrite_hooks : list Policy.t; global_gates : list (Z * ResolvedPolicy.t);
  failover_cfg : option FailoverCfg.t; pool_runtime : gmap string PoolRuntime.t }.
End Engine.

(** A JSON codec: what the engine serializes a rewritten body with, and re-parses it with on failover. *)
Class JsonCodec (Raw : Type) := {
  parse : Raw -> option Value;
  to_vec : Value -> option Raw;
  parse_to_vec v b : to_vec v = Some b -> parse b = Some v }.

Inductive Answer := NoHandler | Refused (r : Refusal) | Walked (r : Step).

Section Forward.
Context {Raw : Type} `{JsonCodec Raw}.
Context (app : AppCfg.t) (env : WalkEnv.t) (provider : nat -> string) (meta : gmap string (gmap nat MemberMeta.t))
  (gov : option Gov.t) (permits : nat -> Z) (engine : Engine.t)
  (supports : nat -> bool) (wants_stream : Value -> bool) (affinity_of : option Value -> option Z).

(** The body the first hop sends and the bytes later hops parse again, after the rewrite gates. *)
Definition rewrite_pass (rt : PoolRuntime.t) (v : option Value) (body : Raw) (pool proto : string) (stream : bool)
    : Refusal + option Value * Raw :=
  match v with
  | None => inr (v, body)
  | Some dom =>
      match apply_global_rewrites (Engine.rewrite_hooks engine) dom pool proto stream false with
      | (_, inl (status, message)) => inl (refuse status message)
      | (dom, inr a1) =>
          match apply_global_rewrites (PoolRuntime.rewrite_hooks rt) dom pool proto stream false with
          | (_, inl (status, message)) => inl (refuse status message)
          | (dom, inr a2) =>
              if a1 || a2 then
                match to_vec dom with
                | Some bytes => inr (Some dom, bytes)
                | None => inl (refuse 500 "request rewrite could not be applied")
                end
              else inr (Some dom, body)
          end
      end
  end.

(** Members named by the failover exclusions are never picked. *)
Fixpoint apply_exclusions (excl : list string) (cands : list WeightedLane.t) (ctx : RequestCtx.t)
    : option RequestCtx.t :=
  match cands with
  | [] => Some ctx
  | wl :: cands =>
      let? lane := AppCfg.lanes app !! WeightedLane.idx wl in
      apply_exclusions excl cands
        (if existsb (String.eqb (LaneCfg.model lane)) excl then RequestCtx.exclude ctx (WeightedLane.idx wl) else ctx)
  end.

(** The lanes that hold the operation's handler: all of them, or those that do. *)
Definition serving (cands : list WeightedLane.t) : list WeightedLane.t :=
  if forallb (fun wl => supports (WeightedLane.idx wl)) cands then cands
  else List.filter (fun wl => supports (WeightedLane.idx wl)) cands.

(** The settings of the pool. *)
Definition runtime_of (pool : string) : PoolRuntime.t := default PoolRuntime.empty (Engine.pool_runtime engine !! pool).
Definition failover_of (pool : string) : option FailoverCfg.t :=
  match PoolRuntime.failover (runtime_of pool) with Some f => Some f | None => Engine.failover_cfg engine end.
Definition hop_limits (pool : string) : Z * nat :=
  match failover_of pool with
  | Some f => (FailoverCfg.timeout_secs f, FailoverCfg.max_hops f)
  | None => (DEFAULT_FAILOVER_DEADLINE_SECS, DEFAULT_FAILOVER_CAP)
  end.
Definition exclusions_of (pool : string) : list string := default [] (f ← failover_of pool; FailoverCfg.exclusions f).
Definition streaming (v : option Value) : bool := match v with Some dom => wants_stream dom | None => false end.

(** [start] is the clock when the context is made, [decided_at] when the policies decide.  The answer, the
    store and the attempts, and the body every hop sends. *)
Definition forward_with_pool_parsed_inner (cands : list WeightedLane.t) (body : Raw) (v : option Value)
    (caller_token : option string) (resolved_gov_key : option VirtualKey.t) (pool proto : string)
    (start decided_at : Z) (s : InMemoryStore.t) (warns : Warnings) : option (Walk.t * Answer * (option Value * Raw)) :=
  let rt := runtime_of pool in
  let '(deadline_secs, max_cap) := hop_limits pool in
  let w0 := Walk.mk s (RequestCtx.new start deadline_secs) warns [] in
  let serving := serving cands in
  if negb (forallb (fun wl => supports (WeightedLane.idx wl)) cands) && (match serving with [] => true | _ => false end)
  then Some (w0, NoHandler, (v, body))
  else
    let stream := streaming v in
    match rewrite_pass rt v body pool proto stream with
    | inl e => Some (w0, Refused e, (v, body))
    | inr (v, body) =>
        let? ctx := apply_exclusions (exclusions_of pool) serving (Walk.ctx w0) in
        let q := Seen.mk (default Null v) pool proto stream caller_token resolved_gov_key decided_at in
        let? route := decide_route app provider meta gov permits (Engine.global_gates engine)
                        (PoolRuntime.gates rt) (PoolRuntime.policy rt) serving ctx s q in
        match route with
        | inl e => Some (Walk.set_ctx ctx w0, Refused e, (v, body))
        | inr (cands, ctx, order) =>
            let? (w, r) := forward_loop app env proto (Datatypes.S max_cap) cands (affinity_of v) pool order
                             (Walk.set_ctx ctx w0) in
            Some (w, Walked r, (v, body))
        end
    end.
End Forward.
