(* ===== verification/RoutingProps.v ===== *)
(** * Theorems about gates and routing policies: a request the gates refuse reaches no upstream, and what
    they restrict binds every hop of the walk; a hook is shown no content it was not granted; every
    refusal is well formed; a committed rewrite is what every hop sends *)
From stdpp Require Import base gmap list strings.
From Stdlib Require Import ZArith Lia.
From S2P Require Import Prelude Breaker Cell BreakerConfig CellFacts Swrr Store StoreFacts StoreProps Cost Ledger.
From S2P Require Import Select SelectProps Walk WalkSteps WalkProps.
From S2P Require Import Json HookWire Ranking Headroom Projection Routing.
Import InMemoryStore.
Open Scope Z_scope.
Open Scope rust_scope.

(** ** What is restricted *)
Definition restrict_of (o : PolicyOutcome.t) : option RestrictConstraint.t :=
  match o with PolicyOutcome.Restrict tags name on_empty => Some (RestrictConstraint.mk tags on_empty name) | _ => None end.
Definition restricts_of (outcomes : list PolicyOutcome.t) : list RestrictConstraint.t := omap restrict_of outcomes.

Definition admits (members : option (gmap nat (list string))) (rs : list RestrictConstraint.t) (wl : WeightedLane.t) : Prop :=
  Forall (fun r => RestrictConstraint.on_empty r = Weighted \/ carries_tag members r wl = true) rs.

Definition with_restricts (rs : list RestrictConstraint.t) (c : RequestCtx.t) : RequestCtx.t :=
  RequestCtx.mk (RequestCtx.deadline c) (RequestCtx.excluded c) (RequestCtx.visited_pools c)
    (RequestCtx.active_restricts c ++ rs).

Section Restricts.
Context (app : AppCfg.t) (pool : string).
Notation members := (AppCfg.members app !! pool).

Lemma restrict_cands_spec r e cands cands' :
  restrict_cands app pool r e cands = inr cands' ->
  cands' ⊆ cands /\ Forall (fun wl => admits members [r] wl) cands'.
Proof.
  unfold restrict_cands. destruct (List.filter _ cands) as [|x l] eqn:E.
  - destruct (bool_decide_reflect (RestrictConstraint.on_empty r = Weighted)); [|done]. intros [= <-].
    split; [done|]. apply Forall_forall. intros wl _. apply Forall_singleton. by left.
  - intros [= <-]. rewrite <- E. split.
    + intros wl Hw. apply list_elem_of_In, filter_In in Hw as [Hw _]. by apply list_elem_of_In.
    + apply List.Forall_forall. intros wl [_ Hw]%filter_In. apply Forall_singleton. by right.
Qed.

Lemma restrict_cands_refused r e cands e' :
  restrict_cands app pool r e cands = inl e' -> e' = e.
Proof. unfold restrict_cands. destruct (List.filter _ cands); [|done]. by destruct (bool_decide _); intros [= <-]. Qed.

Lemma apply_restricts_spec outcomes cands ctx cands' ctx' :
  apply_restricts app pool outcomes cands ctx = inr (cands', ctx') ->
  cands' ⊆ cands /\ ctx' = with_restricts (restricts_of outcomes) ctx /\
  Forall (fun wl => admits members (restricts_of outcomes) wl) cands'.
Proof.
  assert (forall c, with_restricts [] c = c) as Hnil by (intros []; unfold with_restricts; cbn; by rewrite app_nil_r).
  revert cands ctx. induction outcomes as [|o outcomes IH]; intros cands ctx.
  - intros [= <- <-]. split; [done|]. split; [by rewrite Hnil|]. apply Forall_forall. constructor.
  - destruct o as [| | | |tags name oe]; cbn [apply_restricts]; try (intros Hr; exact (IH _ _ Hr)).
    destruct (restrict_cands _ _ _ _ _) as [|c1] eqn:E; [done|]. intros Hr.
    apply restrict_cands_spec in E as [Hs Ha]. apply IH in Hr as (Hs' & -> & Ha'). split; [by trans c1|]. split.
    + unfold with_restricts, push_restrict. cbn. by rewrite <- app_assoc.
    + apply Forall_forall. intros wl Hw. rewrite Forall_forall in Ha, Ha'.
      constructor; [|by apply Ha']. pose proof (Ha wl (Hs' wl Hw)) as Hx. by inversion Hx.
Qed.
End Restricts.

(** ** Deciding never panics *)
Definition gov_ok (gov : option Gov.t) : Prop :=
  forall g k, gov = Some g -> is_Some (chain_for (Gov.cost g) k).

Section Decide.
Context (app : AppCfg.t) (provider : nat -> string) (meta : gmap string (gmap nat MemberMeta.t))
  (gov : option Gov.t) (permits : nat -> Z) (N : nat).
Hypothesis Happ : app_ok app N.
Hypothesis Hgov : gov_ok gov.
Notation decide := (decide_policy_order app provider meta gov permits).
Notation in_bounds := (Forall (fun wl : WeightedLane.t => (WeightedLane.idx wl < N)%nat)).

Lemma candidate_of_total s pool h wl : length (lanes s) = N -> (WeightedLane.idx wl < N)%nat ->
  exists c, candidate_of app provider meta permits s pool h wl = Some c /\ Candidate.idx c = WeightedLane.idx wl /\
    Candidate.rate_headroom c = h.
Proof.
  intros Hl Hi. unfold candidate_of, lane_latency_ms, lane_budget_remaining, get_lane.
  destruct (lookup_lt_is_Some_2 (AppCfg.lanes app) (WeightedLane.idx wl)) as [l ->]; [by rewrite (ao_lanes _ _ Happ)|].
  destruct (lookup_lt_is_Some_2 (lanes s) (WeightedLane.idx wl)) as [ls ->]; [lia|]. cbn. by eexists.
Qed.

Lemma fill_subset ctx cands : RequestCtx.fill_candidates ctx cands ⊆ cands.
Proof. intros wl Hw. apply list_elem_of_In, filter_In in Hw as [Hw _]. by apply list_elem_of_In. Qed.

Lemma candidates_total s pool h wls : length (lanes s) = N -> in_bounds wls ->
  exists cs, mapM (candidate_of app provider meta permits s pool h) wls = Some cs /\
    Candidate.idx <$> cs = WeightedLane.idx <$> wls /\ Forall (fun c => Candidate.rate_headroom c = h) cs.
Proof.
  intros Hl. induction 1 as [|wl wls Hi _ (cs & E & Ei & Hh)]; [by exists []|].
  destruct (candidate_of_total s pool h wl Hl Hi) as (c & Ec & Hc & Hr). exists (c :: cs).
  cbn [mapM]. rewrite Ec, E. cbn. split_and!; [done|by rewrite Hc, Ei|by constructor].
Qed.

Lemma headroom_total q key : is_Some (headroom_of gov q key).
Proof.
  unfold headroom_of, rate_headroom. destruct gov as [g|] eqn:Eg; [|done]. destruct key as [k|]; [|done].
  by destruct (Hgov g k eq_refl) as [c ->].
Qed.

Lemma decide_total resolved cands ctx s q : length (lanes s) = N -> in_bounds cands ->
  is_Some (decide resolved cands ctx s q).
Proof.
  intros Hl Hc. unfold decide_policy_order.
  assert (in_bounds (RequestCtx.fill_candidates ctx cands)) as Hf.
  { rewrite Forall_forall in *. intros wl Hw. apply Hc. by apply fill_subset in Hw. }
  destruct (RequestCtx.fill_candidates ctx cands) as [|w live] eqn:E; [done|].
  destruct (headroom_total q (gov_key_of gov q)) as [h ->].
  destruct (candidates_total s (Seen.pool_name q) h (w :: live) Hl Hf) as (cs & -> & _).
  destruct gov as [g|] eqn:Eg; [|done]. destruct (gov_key_of (Some g) q) as [k|]; [|done].
  unfold budget_state. by destruct (Hgov g k eq_refl) as [c ->].
Qed.

Lemma outcomes_total gs cands ctx s q : length (lanes s) = N -> in_bounds cands ->
  is_Some (mapM (fun g : Z * ResolvedPolicy.t => decide g.2 cands ctx s q) gs).
Proof.
  intros Hl Hc. apply mapM_is_Some_2, Forall_forall. intros g _. by apply decide_total.
Qed.

(** *** The route that is decided *)
Definition refused_by (outcomes : list PolicyOutcome.t) : Prop :=
  Exists (fun o => match o with PolicyOutcome.Reject | PolicyOutcome.RejectRequest _ _ _ => True | _ => False end) outcomes.

Lemma first_reject_spec outcomes : is_Some (first_reject outcomes) <-> refused_by outcomes.
Proof.
  unfold refused_by. induction outcomes as [|o outcomes IH]; cbn [first_reject]; [by rewrite Exists_nil, is_Some_alt|].
  rewrite Exists_cons. destruct o; cbn; rewrite ?IH; naive_solver.
Qed.

(** The outcomes of the gates, and what the base policy adds when no gate ordered. *)
Definition gate_outcomes (gs : list (Z * ResolvedPolicy.t)) cands ctx s q : option (list PolicyOutcome.t) :=
  mapM (fun g : Z * ResolvedPolicy.t => decide g.2 cands ctx s q) gs.

Lemma base_policy_spec policy cands ctx s q : length (lanes s) = N -> in_bounds cands ->
  exists r, base_policy app provider meta gov permits policy cands ctx s q = Some r /\
    match r with
    | inl _ => True
    | inr (cands', ctx', _) => exists rs, cands' ⊆ cands /\ ctx' = with_restricts rs ctx /\
        Forall (fun wl => admits (AppCfg.members app !! Seen.pool_name q) rs wl) cands'
    end.
Proof.
  intros Hl Hc. assert (with_restricts [] ctx = ctx) as Hnil
    by (destruct ctx; unfold with_restricts; cbn; by rewrite app_nil_r).
  assert (forall o : option (list nat), exists r : Refusal + list WeightedLane.t * RequestCtx.t * option (list nat),
    Some (inr (cands, ctx, o)) = Some r /\ match r with inl _ => True | inr (cands', ctx', _) =>
      exists rs, cands' ⊆ cands /\ ctx' = with_restricts rs ctx /\
        Forall (fun wl => admits (AppCfg.members app !! Seen.pool_name q) rs wl) cands' end) as Hkeep.
  { intros o. eexists. split; [reflexivity|]. exists []. split; [done|]. split; [by rewrite Hnil|].
    apply Forall_forall. constructor. }
  unfold base_policy. destruct policy as [resolved|]; [|apply Hkeep].
  destruct (decide_total resolved cands ctx s q Hl Hc) as [o ->].
  destruct o as [order name| | |st msg name|tags name oe]; [apply Hkeep|apply Hkeep|by eexists|by eexists|].
  eexists. split; [reflexivity|]. destruct (restrict_cands _ _ _ _ _) as [e|c1] eqn:E; [done|].
  apply restrict_cands_spec in E as [Hs Ha]. by exists [RestrictConstraint.mk tags oe name].
Qed.

Lemma decide_route_spec global_gates pool_gates policy cands ctx s q :
  length (lanes s) = N -> in_bounds cands ->
  exists outcomes r, gate_outcomes (gate_chain global_gates pool_gates) cands ctx s q = Some outcomes /\
    decide_route app provider meta gov permits global_gates pool_gates policy cands ctx s q = Some r /\
    (refused_by outcomes -> exists e, first_reject outcomes = Some e /\ r = inl e) /\
    match r with
    | inl _ => True
    | inr (cands', ctx', _) => exists rs, cands' ⊆ cands /\
        ctx' = with_restricts (restricts_of outcomes ++ rs) ctx /\
        Forall (fun wl => admits (AppCfg.members app !! Seen.pool_name q) (restricts_of outcomes ++ rs) wl) cands'
    end.
Proof.
  intros Hl Hc. destruct (outcomes_total (gate_chain global_gates pool_gates) cands ctx s q Hl Hc) as [outcomes E].
  unfold decide_route, gate_outcomes. rewrite E. exists outcomes. unfold reconcile.
  pose proof (first_reject_spec outcomes) as Hrej.
  destruct (first_reject outcomes) as [e|].
  { eexists. split; [done|]. split; [reflexivity|]. split; [intros _; by exists e|done]. }
  assert (~ refused_by outcomes) as Hno by (rewrite <- Hrej; by intros [? ?]).
  destruct (apply_restricts app (Seen.pool_name q) outcomes cands ctx) as [e|[c1 ctx1]] eqn:Ea.
  { eexists. split; [done|]. split; [reflexivity|]. split; [done|done]. }
  apply apply_restricts_spec in Ea as (Hs & -> & Ha).
  destruct (last_order _ _ _) as [[order name]|].
  { eexists. split; [done|]. split; [reflexivity|]. split; [done|]. exists []. by rewrite app_nil_r. }
  assert (in_bounds c1) as Hc1 by (rewrite Forall_forall in *; intros wl Hw; by apply Hc, Hs).
  destruct (base_policy_spec policy c1 (with_restricts (restricts_of outcomes) ctx) s q Hl Hc1) as (r & Er & Hr).
  exists r. split; [done|]. split; [exact Er|]. split; [done|]. destruct r as [e|[[c2 ctx2] o2]]; [done|].
  destruct Hr as (rs & Hs2 & -> & Ha2). exists rs. split; [by trans c1|]. split.
  - unfold with_restricts. cbn. by rewrite app_assoc.
  - rewrite Forall_forall in *. intros wl Hw. apply Forall_app. split; [by apply Ha, Hs2|by apply Ha2].
Qed.
End Decide.

(** ** The whole forward *)
Section Forward.
Context {Raw : Type} `{JsonCodec Raw}.
Context (app : AppCfg.t) (env : WalkEnv.t) (provider : nat -> string) (meta : gmap string (gmap nat MemberMeta.t))
  (gov : option Gov.t) (permits : nat -> Z) (engine : Engine.t)
  (supports : nat -> bool) (wants_stream : Value -> bool) (affinity_of : option Value -> option Z) (N : nat).
Notation forward := (forward_with_pool_parsed_inner app env provider meta gov permits engine supports wants_stream affinity_of).

Lemma serving_subset cands : serving supports cands ⊆ cands.
Proof.
  unfold serving. destruct (forallb _ cands); [done|]. intros wl Hw.
  apply list_elem_of_In, filter_In in Hw as [Hw _]. by apply list_elem_of_In.
Qed.

Lemma exclusions_total excl cands ctx : app_ok app N -> Forall (fun wl => (WeightedLane.idx wl < N)%nat) cands ->
  exists ctx', apply_exclusions app excl cands ctx = Some ctx' /\
    RequestCtx.active_restricts ctx' = RequestCtx.active_restricts ctx /\
    RequestCtx.deadline ctx' = RequestCtx.deadline ctx.
Proof.
  intros Happ Hc. revert ctx. induction Hc as [|wl cands Hi Hc IH]; intros ctx; cbn [apply_exclusions]; [by eexists|].
  destruct (lookup_lt_is_Some_2 (AppCfg.lanes app) (WeightedLane.idx wl)) as [l ->]; [by rewrite (ao_lanes _ _ Happ)|].
  destruct (existsb _ excl); [|apply IH]. destruct (IH (RequestCtx.exclude ctx (WeightedLane.idx wl))) as (c & ? & ? & ?). by exists c.
Qed.

Lemma permitted_of rs1 rs2 pool lane : permitted app (rs1 ++ rs2) pool lane -> permitted app rs1 pool lane.
Proof. intros (wl & E & Hf). exists wl. split; [done|]. by apply Forall_app in Hf as [? _]. Qed.

(** C11.  Gates bind the whole request: every forward returns; when it is answered without a walk (no
    handler, a rewrite gate's rejection, any gate's rejection, an unsatisfiable restriction) no upstream
    was tried and the store is as it was; and when the walk ran, no gate had rejected, and every lane
    tried, on whichever hop and in whichever fallback pool, carries a tag of every restriction of every
    gate that fails closed. *)
Theorem gates_bind_every_hop cands body v token key pool proto start decided_at s warns :
  app_ok app N -> env_ok env -> gov_ok gov ->
  store_wf s -> length (lanes s) = N -> budgets_i64 s ->
  Forall (fun wl => (WeightedLane.idx wl < N)%nat) cands ->
  exists w a v' body', forward cands body v token key pool proto start decided_at s warns = Some (w, a, (v', body')) /\
    match a with
    | Walked r => r <> Again /\ exists ctx outcomes,
        apply_exclusions app (exclusions_of engine pool) (serving supports cands)
          (RequestCtx.new start (hop_limits engine pool).1) = Some ctx /\
        gate_outcomes app provider meta gov permits
          (gate_chain (Engine.global_gates engine) (PoolRuntime.gates (runtime_of engine pool)))
          (serving supports cands) ctx s
          (Seen.mk (default Null v') pool proto (streaming wants_stream v) token key decided_at) = Some outcomes /\
        ~ refused_by outcomes /\
        Forall (fun x => permitted app (restricts_of outcomes) x.1 x.2) (Walk.log w)
    | NoHandler | Refused _ => Walk.st w = s /\ Walk.log w = []
    end.
Proof.
  intros Happ Henv Hgov Hwf Hlen Hb Hc. unfold forward_with_pool_parsed_inner.
  set (rt := runtime_of engine pool). destruct (hop_limits engine pool) as [deadline_secs max_cap].
  destruct (negb _ && _); [by eexists _, _, _, _|].
  set (stream := streaming wants_stream v).
  destruct (rewrite_pass engine rt v body pool proto stream) as [e|[v' body']]; [by eexists _, _, _, _|].
  assert (Forall (fun wl => (WeightedLane.idx wl < N)%nat) (serving supports cands)) as Hs
    by (rewrite Forall_forall in *; intros wl Hw; by apply Hc, serving_subset).
  cbn [Walk.ctx]. destruct (exclusions_total (exclusions_of engine pool) _
    (RequestCtx.new start deadline_secs) Happ Hs) as (ctx & Ex & Hr & _). rewrite Ex.
  set (q := Seen.mk _ pool proto stream token key decided_at).
  destruct (decide_route_spec app provider meta gov permits N Happ Hgov (Engine.global_gates engine) (PoolRuntime.gates rt)
    (PoolRuntime.policy rt) (serving supports cands) ctx s q Hlen Hs) as (outcomes & r & Eo & -> & Hrej & Hroute).
  destruct r as [e|[[cands' ctx'] order]]; [by eexists _, _, _, _|].
  destruct Hroute as (rs & Hsub & -> & Hadm).
  assert (sound N (Walk.set_ctx (with_restricts (restricts_of outcomes ++ rs) ctx)
    (Walk.mk s (RequestCtx.new start deadline_secs) warns []))) as Hsound by by split_and!.
  assert (RequestCtx.active_restricts (with_restricts (restricts_of outcomes ++ rs) ctx) = restricts_of outcomes ++ rs) as Hact
    by (cbn; by rewrite Hr).
  destruct (forward_loop_ends app env proto N Happ Henv (Datatypes.S max_cap) cands' (affinity_of v') pool order _ Hsound)
    as (w' & r & -> & Hne & Hseg).
  { unfold cands_ok. rewrite Forall_forall in *. intros wl Hw. split; [by apply Hs, Hsub|]. cbn [Walk.ctx Walk.set_ctx].
    rewrite Hact. exists wl. split; [done|]. by apply Hadm. }
  eexists _, _, _, _. split; [reflexivity|]. split; [done|]. exists ctx, outcomes. split_and!; [exact Ex|exact Eo| |].
  - intros Hx. destruct (Hrej Hx) as (e & _ & ?). done.
  - destruct Hseg as [_ _ _ _ _ (tried & last & Hlog & [_ _ P3 _] & _ & _ & L2)].
    cbn [Walk.log Walk.ctx Walk.set_ctx] in *. rewrite Hact in *. rewrite Hlog, app_nil_l. apply Forall_app.
    split; (eapply Forall_impl; [eassumption|]); intros x; cbn beta; apply permitted_of.
Qed.

(** A committed rewrite is what every hop sends: when the body given to the engine stands for the
    bytes it retained, the body of the first hop and the bytes that failover hops parse again still
    stand for each other after the rewrite gates, whether they committed a rewrite or not; an opaque
    body is not touched. *)
Theorem hops_send_the_same_body cands body v token key pool proto start decided_at s warns w a v' body' :
  match v with Some dom => parse body = Some dom | None => True end ->
  forward cands body v token key pool proto start decided_at s warns = Some (w, a, (v', body')) ->
  match v' with Some dom => parse body' = Some dom | None => v = None /\ body' = body end.
Proof.
  intros Hp. unfold forward_with_pool_parsed_inner. set (rt := runtime_of engine pool).
  destruct (hop_limits engine pool) as [deadline_secs max_cap].
  assert (match v with Some dom => parse body = Some dom | None => v = None /\ body = body end) as Hsame by by destruct v.
  destruct (negb _ && _); [by intros [= _ _ <- <-]|].
  set (stream := streaming wants_stream v).
  destruct (rewrite_pass engine rt v body pool proto stream) as [e|[v1 body1]] eqn:Er; [by intros [= _ _ <- <-]|].
  assert (match v1 with Some dom => parse body1 = Some dom | None => v = None /\ body1 = body end) as H1.
  { unfold rewrite_pass in Er. destruct v as [dom|]; [|by injection Er as <- <-].
    destruct (apply_global_rewrites (Engine.rewrite_hooks engine) dom pool proto stream false) as [dom1 [[st m]|a1]] eqn:E1; [done|].
    destruct (apply_global_rewrites (PoolRuntime.rewrite_hooks rt) dom1 pool proto stream false) as [dom2 [[st m]|a2]] eqn:E2; [done|].
    destruct (a1 || a2) eqn:Ea.
    - destruct (to_vec dom2) as [b|] eqn:Eb; [|done]. injection Er as <- <-. by apply parse_to_vec.
    - apply orb_false_elim in Ea as [-> ->]. apply rewrites_not_applied in E1 as ->. apply rewrites_not_applied in E2 as ->.
      by injection Er as <- <-. }
  intros Hf. destruct (apply_exclusions _ _ _ _) as [ctx|]; [|done].
  destruct (decide_route _ _ _ _ _ _ _ _ _ _ _ _) as [[e|[[cs c] o]]|]; [|destruct (forward_loop _ _ _ _ _ _ _ _ _) as [[w1 r1]|]|];
    try done; by injection Hf as _ _ <- <-.
Qed.
End Forward.

(** ** Grants *)

(** The same hook, shown no prompt (identity) whatever the request holds. *)
Definition no_prompt (p : Policy.t) : Policy.t :=
  Policy.mk (Policy.name p)
    (fun req cs ctx => Policy.decide p (RoutingRequest.with_content None (RoutingRequest.identity req) req) cs ctx)
    (Policy.transform p).
Definition no_user (p : Policy.t) : Policy.t :=
  Policy.mk (Policy.name p)
    (fun req cs ctx => Policy.decide p (RoutingRequest.with_content (RoutingRequest.prompt req) None req) cs ctx)
    (Policy.transform p).

(** Every hook of a resolved policy that lacks a grant, replaced by one that cannot use it: the primary,
    and each fallback that lacks it itself or follows a primary that lacks it. *)
Definition blind_fallback (prompt user : bool) (f : FallbackHook.t) : FallbackHook.t :=
  let p := FallbackHook.policy f in
  let p := if prompt && FallbackHook.send_prompt f then p else no_prompt p in
  let p := if user && FallbackHook.send_user f then p else no_user p in
  FallbackHook.mk p (FallbackHook.timeout f) (FallbackHook.send_prompt f) (FallbackHook.send_user f) (FallbackHook.on_empty f).

Definition blind (r : ResolvedPolicy.t) : ResolvedPolicy.t :=
  let p := ResolvedPolicy.policy r in
  let p := if ResolvedPolicy.send_prompt r then p else no_prompt p in
  let p := if ResolvedPolicy.send_user r then p else no_user p in
  ResolvedPolicy.mk p (ResolvedPolicy.on_error r)
    (blind_fallback (ResolvedPolicy.send_prompt r) (ResolvedPolicy.send_user r) <$> ResolvedPolicy.on_error_chain r)
    (ResolvedPolicy.timeout r) (ResolvedPolicy.send_prompt r) (ResolvedPolicy.send_user r) (ResolvedPolicy.on_empty r).

Lemma blind_name (b1 b2 : bool) p :
  Policy.name (if b2 then (if b1 then p else no_prompt p) else no_user (if b1 then p else no_prompt p)) = Policy.name p.
Proof. by destruct b1, b2. Qed.

Lemma blind_decide (b1 b2 : bool) p req cs ctx :
  (b1 = false -> RoutingRequest.prompt req = None) -> (b2 = false -> RoutingRequest.identity req = None) ->
  Policy.decide (if b2 then (if b1 then p else no_prompt p) else no_user (if b1 then p else no_prompt p)) req cs ctx =
  Policy.decide p req cs ctx.
Proof.
  intros H1 H2. destruct req. cbn in *.
  destruct b1, b2; cbn; try specialize (H1 eq_refl); try specialize (H2 eq_refl); subst; reflexivity.
Qed.

Lemma blind_chain prompt user chain terminal req cs ctx name :
  (prompt = false -> RoutingRequest.prompt req = None) -> (user = false -> RoutingRequest.identity req = None) ->
  run_on_error_chain (blind_fallback prompt user <$> chain) terminal req cs ctx name =
  run_on_error_chain chain terminal req cs ctx name.
Proof.
  intros H1 H2. induction chain as [|f chain IH]; [done|]. cbn [fmap list_fmap run_on_error_chain].
  unfold blind_fallback at 1 2 3 4 5. cbn [FallbackHook.policy FallbackHook.send_prompt FallbackHook.send_user FallbackHook.on_empty].
  rewrite blind_decide, blind_name.
  - destruct (Policy.decide _ _ _ _); [done|]. exact IH.
  - cbn [RoutingRequest.prompt RoutingRequest.with_content]. destruct (FallbackHook.send_prompt f); [|done].
    rewrite andb_true_r. done.
  - cbn [RoutingRequest.identity RoutingRequest.with_content]. destruct (FallbackHook.send_user f); [|done].
    rewrite andb_true_r. done.
Qed.

(** A hook is shown only what it was granted: replacing every hook of a policy that lacks the prompt
    (or the caller identity) grant by one that never reads it changes no decision, for any request; and
    a fallback of a failed gate sees no more than both its own grants and those of the gate allow. *)
Theorem hooks_see_only_grants app provider meta gov permits r cands ctx s q :
  decide_policy_order app provider meta gov permits (blind r) cands ctx s q =
  decide_policy_order app provider meta gov permits r cands ctx s q.
Proof.
  unfold decide_policy_order. destruct (RequestCtx.fill_candidates ctx cands) as [|w live]; [done|].
  destruct (headroom_of gov q (gov_key_of gov q)); [|done]. destruct (mapM _ _) as [cs|]; [|done].
  destruct (match gov with Some _ => _ | None => _ end); [|done]. f_equal.
  unfold blind. cbn [ResolvedPolicy.policy ResolvedPolicy.send_prompt ResolvedPolicy.send_user ResolvedPolicy.on_error_chain
    ResolvedPolicy.on_error ResolvedPolicy.on_empty].
  rewrite blind_name, blind_decide, blind_chain; [done|..]; unfold request_of, build_rewrite_request; cbn; intros ->; done.
Qed.

(** ** A concrete engine: a compressor and a gate that keeps requests on lanes tagged eu *)
Module Demo.
#[global] Instance plain_codec : JsonCodec Value := {
  parse := Some; to_vec := Some; parse_to_vec v b H := eq_sym H }.

Definition app : AppCfg.t :=
  AppCfg.mk (AppCfg.lanes WalkProps.Demo.app) false (AppCfg.on_exhausted_cfgs WalkProps.Demo.app)
    (AppCfg.fallback_pools WalkProps.Demo.app) ∅ {["p" := {[1%nat := ["eu"]]}; "f" := {[1%nat := ["eu"]]}]}.

Definition turn (role content : string) : Value := Object [("content", Str content); ("role", Str role)].
Definition body : Value := Object [("messages", Array [turn "user" "hello hello"]); ("stream", Bool true)].

Definition compressor : Policy.t :=
  Policy.mk "compressor" (fun _ _ _ => None)
    (fun _ => TransformOutcome.Rewrite (RewriteReply.mk [turn "user" "hello"] [])).
Definition eu_only : Policy.t :=
  Policy.mk "eu" (fun _ _ _ => Some (RoutingDecision.Restrict ["eu"])) (fun _ => TransformOutcome.Abstain).
(** A gate that never answers and falls back on [eu_only]. *)
Definition broken : Policy.t := Policy.mk "broken" (fun _ _ _ => None) (fun _ => TransformOutcome.Abstain).
Definition eu_gate : ResolvedPolicy.t :=
  ResolvedPolicy.mk broken Reject [FallbackHook.mk eu_only 5 false false Reject] 5 false false Reject.

Definition engine : Engine.t := Engine.mk [compressor] [(0, eu_gate)] None ∅.

Definition run := forward_with_pool_parsed_inner app (WalkProps.Demo.env WalkProps.Demo.two_failures) (fun _ => "acme") ∅ None
  (fun _ => 5) engine (fun _ => true) (fun _ => true) (fun _ => None)
  demo_cands body (Some body) None None "p" "openai" 2000 2000 demo_store (mkWarnings ∅ []).

Lemma routed_app_ok : app_ok app 2.
Proof. destruct WalkProps.Demo.app_is_ok as [H1 H2 H3]. by split. Qed.
End Demo.

(** Only lane 1 is tried, in p and again as the last resort in f. *)
Lemma gates_bind_every_hop_witness :
  match Demo.run with
  | Some (w, Walked _, _) => Walk.log w = [("p", 1%nat); ("f", 1%nat)] /\
      Forall (fun x => permitted Demo.app [RestrictConstraint.mk ["eu"] Reject "eu"] x.1 x.2) (Walk.log w)
  | _ => False
  end.
Proof.
  destruct (gates_bind_every_hop Demo.app (WalkProps.Demo.env WalkProps.Demo.two_failures) (fun _ => "acme") ∅ None
    (fun _ => 5) Demo.engine (fun _ => true) (fun _ => true) (fun _ => None) 2
    demo_cands Demo.body (Some Demo.body) None None "p" "openai" 2000 2000 demo_store (mkWarnings ∅ [])
    Demo.routed_app_ok (WalkProps.Demo.env_is_ok _)) as (w & a & v' & b' & E & Ha).
  - intros g k. discriminate.
  - exact demo_store_wf.
  - reflexivity.
  - exact (proj2 (proj2 WalkProps.Demo.start_is_sound)).
  - repeat constructor; cbn; lia.
  - fold Demo.run in E |- *.
    assert ((fun x => Walk.log x.1.1) <$> Demo.run = Some [("p", 1%nat); ("f", 1%nat)]) as E2 by (vm_compute; reflexivity).
    assert (option_map (fun x => match x.1.2 with Walked _ => true | _ => false end) Demo.run = Some true) as E3
      by (vm_compute; reflexivity).
    rewrite E in E2, E3 |- *. destruct a as [| |r]; [discriminate E3|discriminate E3|]. injection E2 as El.
    destruct Ha as (_ & ctx & outcomes & Hx & Ho & _ & Hf). split; [exact El|].
    vm_compute in Hx. injection Hx as <-.
    assert (restricts_of <$> Some outcomes = Some [RestrictConstraint.mk ["eu"] Reject "eu"]) as Hr
      by (rewrite <- Ho; vm_compute; reflexivity).
    injection Hr as Hr. rewrite <- Hr. exact Hf.
Defined.

Lemma hops_send_the_same_body_witness :
  match Demo.run with
  | Some (_, _, (Some dom, b)) => b = dom /\ project_messages dom "openai" = [("user", "hello")]
  | _ => False
  end.
Proof.
  destruct Demo.run as [[[w a] [v' b']]|] eqn:E; [|vm_compute in E; discriminate E].
  pose proof (hops_send_the_same_body Demo.app (WalkProps.Demo.env WalkProps.Demo.two_failures) (fun _ => "acme") ∅ None
    (fun _ => 5) Demo.engine (fun _ => true) (fun _ => true) (fun _ => None)
    demo_cands Demo.body (Some Demo.body) None None "p" "openai" 2000 2000 demo_store (mkWarnings ∅ []) w a v' b'
    eq_refl E) as H.
  assert (option_map (fun x => project_messages (default Null x.2.1) "openai") Demo.run = Some [("user", "hello")]) as E2
    by (vm_compute; reflexivity).
  rewrite E in E2. destruct v' as [dom|]; [|by destruct H]. injection H as ->. split; [reflexivity|].
  injection E2 as E2. exact E2.
Defined.

(** ** Outcomes are well formed *)

(** The hook's messages are strings. *)
Definition speaks_utf8 (p : Policy.t) : Prop :=
  forall req cs ctx status message, Policy.decide p req cs ctx = Some (RoutingDecision.Reject status message) -> utf8 message.

Definition outcome_ok (live : list nat) (o : PolicyOutcome.t) : Prop :=
  match o with
  | PolicyOutcome.RejectRequest status message _ => shown status message
  | PolicyOutcome.Order order _ => order <> [] /\ (forall i, i ∈ order -> i ∈ live)
  | _ => True
  end.

Lemma map_decision_ok d name cs oe :
  (forall status message, d = RoutingDecision.Reject status message -> utf8 message) ->
  outcome_ok (Candidate.idx <$> cs) (map_decision d name cs oe).
Proof.
  intros Hu. destruct d as [order| |status message|tags]; cbn; try done; [|by apply sanitize_shown, (Hu status)].
  unfold from_ranked. pose proof (fun i => ranked_elem (list_to_set (Candidate.idx <$> cs)) ∅ order i) as He.
  destruct (ranked _ ∅ order) as [|i l]; [done|]. split; [done|]. intros j Hj. apply He in Hj as (_ & Hj & _).
  by apply elem_of_list_to_set in Hj.
Qed.

Lemma chain_ok_outcome chain terminal req cs ctx name :
  Forall (fun f => speaks_utf8 (FallbackHook.policy f)) chain -> cs <> [] ->
  outcome_ok (Candidate.idx <$> cs) (run_on_error_chain chain terminal req cs ctx name).
Proof.
  intros Hf Hne. induction Hf as [|f chain Hf _ IH]; cbn [run_on_error_chain].
  - destruct terminal; cbn; try done. split; [by destruct cs|done].
  - destruct (Policy.decide _ _ _ _) as [d|] eqn:E; [|exact IH]. apply map_decision_ok. intros st m ->. by eapply Hf.
Qed.

(** Whatever a policy or any hook of its fallback chain answers, what the engine acts on is well
    formed: a rejection has a client-error status and a bounded, printable, non-blank message (clamped
    and sanitized for every producer), and an order is non-empty and names only lanes that are still
    candidates. *)
Theorem policy_outcomes_well_formed app provider meta gov permits N r cands ctx s q :
  app_ok app N -> gov_ok gov -> length (lanes s) = N -> Forall (fun wl => (WeightedLane.idx wl < N)%nat) cands ->
  speaks_utf8 (ResolvedPolicy.policy r) ->
  Forall (fun f => speaks_utf8 (FallbackHook.policy f)) (ResolvedPolicy.on_error_chain r) ->
  exists o, decide_policy_order app provider meta gov permits r cands ctx s q = Some o /\
    outcome_ok (WeightedLane.idx <$> RequestCtx.fill_candidates ctx cands) o.
Proof.
  intros Happ Hgov Hl Hc Hu Hf.
  assert (Forall (fun wl => (WeightedLane.idx wl < N)%nat) (RequestCtx.fill_candidates ctx cands)) as Hfc.
  { rewrite Forall_forall in *. intros wl Hw. apply Hc. by apply fill_subset in Hw. }
  destruct (decide_total app provider meta gov permits N Happ Hgov r cands ctx s q Hl Hc) as [o Eo].
  exists o. split; [done|]. revert Eo. unfold decide_policy_order.
  destruct (RequestCtx.fill_candidates ctx cands) as [|w live]; [by intros [= <-]|].
  destruct (headroom_of gov q _) as [h|]; [|done].
  destruct (candidates_total app provider meta permits N Happ s (Seen.pool_name q) h (w :: live) Hl Hfc) as (cs & -> & Ei & _).
  destruct (match gov with Some _ => _ | None => _ end) as [chain|]; [|done]. intros [= <-]. rewrite <- Ei.
  destruct (Policy.decide _ _ _ _) as [d|] eqn:E.
  - apply map_decision_ok. intros st m ->. by eapply Hu.
  - apply chain_ok_outcome; [done|]. by intros ->.
Qed.

Lemma policy_outcomes_well_formed_witness :
  exists o, decide_policy_order Demo.app (fun _ => "acme") ∅ None (fun _ => 5) Demo.eu_gate demo_cands demo_ctx demo_store
      (Seen.mk Demo.body "p" "openai" true None None 2000) = Some o /\ outcome_ok [0; 1]%nat o /\
      o = PolicyOutcome.Restrict ["eu"] "eu" Reject.
Proof.
  destruct (policy_outcomes_well_formed Demo.app (fun _ => "acme") ∅ None (fun _ => 5) 2 Demo.eu_gate demo_cands demo_ctx
    demo_store (Seen.mk Demo.body "p" "openai" true None None 2000) Demo.routed_app_ok) as (o & E & Ho).
  - intros g k. discriminate.
  - reflexivity.
  - repeat constructor; cbn; lia.
  - intros req cs ctx st m. discriminate.
  - apply Forall_singleton. intros req cs ctx st m. discriminate.
  - exists o. split; [exact E|]. split; [exact Ho|]. vm_compute in E. by injection E.
Defined.

(** The transform path does not clamp again: a hook that answers with a status of its own gets it. *)
Example transform_reject_not_clamped :
  apply_global_rewrites [Policy.mk "own" (fun _ _ _ => None) (fun _ => TransformOutcome.Reject 200 "")]
    Demo.body "p" "openai" false false = (Demo.body, inl (200, "")).
Proof. reflexivity. Qed.
