(* ===== verification/HookResolve.v ===== *)
(** * Resolving hooks from the configuration
      (crates/busbar/src/hooks/mod.rs, config/mod.rs, the hook rules of config_validate/mod.rs)

    The registry of hooks, the chain of fallbacks behind a gate's [on_error], the gates, rewrite gates
    and taps of a pool and of the whole engine, and the boot rules that guard them.  Opening a plugin
    ([gate_transport_named]), the needs its manifest declares and the configured default deadline are
    arguments.  Error messages are the cases the rules distinguish, not their text. *)
From stdpp Require Import base gmap list strings.
From Stdlib Require Import ZArith Lia.
From S2P Require Import Prelude Select Json HookWire Ranking Routing.
Open Scope Z_scope.
Open Scope rust_scope.

(** ** Configuration *)
Inductive PoolPolicy := PWeighted | Cheapest | Fastest | LeastBusy | Usage.
Inductive HookKind := Tap | Gate.
Inductive PromptAccess := PromptNo | PromptRo | PromptRw.
Inductive UserAccess := UserNo | UserRo.
Inductive HookStage := StRequest | StRoute | StAttempt | StCompletion.

#[export] Instance HookKind_eq_dec : EqDecision HookKind.
Proof. solve_decision. Defined.
#[export] Instance HookStage_eq_dec : EqDecision HookStage.
Proof. solve_decision. Defined.

Definition sends_prompt (a : PromptAccess) : bool := match a with PromptNo => false | _ => true end.
Definition can_rewrite (a : PromptAccess) : bool := match a with PromptRw => true | _ => false end.
Definition sends_user (a : UserAccess) : bool := match a with UserRo => true | UserNo => false end.

Definition STRATEGY_CHEAPEST : string := "cheapest".
Definition STRATEGY_FASTEST : string := "fastest".
Definition STRATEGY_LEAST_BUSY : string := "least_busy".
Definition STRATEGY_USAGE : string := "usage".
Definition ON_ERROR_WEIGHTED : string := "weighted".
Definition ON_ERROR_REJECT : string := "reject".
Definition ON_ERROR_FIRST : string := "first".
Definition ON_ERROR_NOTHING : string := "nothing".

Definition native_name (p : PoolPolicy) : option string :=
  match p with
  | PWeighted => None
  | Cheapest => Some STRATEGY_CHEAPEST
  | Fastest => Some STRATEGY_FASTEST
  | LeastBusy => Some STRATEGY_LEAST_BUSY
  | Usage => Some STRATEGY_USAGE
  end.

Definition on_error_terminal (name : string) : option PolicyOnError :=
  if String.eqb name ON_ERROR_WEIGHTED || String.eqb name ON_ERROR_NOTHING then Some Weighted
  else if String.eqb name ON_ERROR_REJECT then Some Reject
  else if String.eqb name ON_ERROR_FIRST then Some First
  else None.

Module HookCfg.
Record t := mk {
  kind : HookKind; plugin : string; timeout_ms : Z; on_error : string; prompt : PromptAccess; user : UserAccess;
  priority : Z; at_ : option HookStage; on_empty : option PolicyOnError; settings : Map;
  global : bool; default : bool }.
End HookCfg.

Module PoolCfg.
Record t := mk { policy : PoolPolicy; gates : list string; base_named : bool }.
End PoolCfg.

Notation Registry := (gmap string HookCfg.t).

(** ** Resolution *)
Section Resolve.
Context (open_hook : string -> HookCfg.t -> option Policy.t) (needs : string -> option (bool * bool))
  (default_policy_timeout_ms : Z).

Definition DEFAULT_POLICY_TIMEOUT_MS : Z := 1.
Definition policy_timeout (timeout_ms : Z) : Z := if timeout_ms =? 0 then default_policy_timeout_ms else timeout_ms.

Definition gate_on_empty (h : HookCfg.t) : PolicyOnError := default Reject (HookCfg.on_empty h).

(** Content is sent only when the operator granted it and the plugin asked for it. *)
Definition projection_grants (h : HookCfg.t) : bool * bool :=
  let grant_prompt := sends_prompt (HookCfg.prompt h) in
  let grant_user := sends_user (HookCfg.user h) in
  match needs (HookCfg.plugin h) with
  | None => (grant_prompt, grant_user)
  | Some (wants_prompt, wants_user) => (grant_prompt && wants_prompt, grant_user && wants_user)
  end.

Definition gate_link (name : string) (h : HookCfg.t) : list FallbackHook.t :=
  match open_hook name h with
  | Some policy =>
      let '(send_prompt, send_user) := projection_grants h in
      [FallbackHook.mk policy (policy_timeout (HookCfg.timeout_ms h)) send_prompt send_user (gate_on_empty h)]
  | None => []
  end.

Definition native_link (p : Policy.t) : FallbackHook.t :=
  FallbackHook.mk p (policy_timeout DEFAULT_POLICY_TIMEOUT_MS) false false Reject.

(** Every round visits a gate of the registry for the first time, so [fuel] above their number is enough. *)
Fixpoint on_error_loop (fuel : nat) (hooks : Registry) (current : string) (visited : list string)
    (chain : list FallbackHook.t) : option (list FallbackHook.t * PolicyOnError) :=
  match fuel with
  | O => None
  | Datatypes.S fuel =>
      match on_error_terminal current with
      | Some terminal => Some (chain, terminal)
      | None =>
          match native_policy current with
          | Some policy => Some (chain ++ [native_link policy], Weighted)
          | None =>
              if bool_decide (current ∈ visited) then Some (chain, Weighted)
              else match hooks !! current with
                   | None => Some (chain, Weighted)
                   | Some h =>
                       if negb (bool_decide (HookCfg.kind h = Gate)) then Some (chain, Weighted)
                       else on_error_loop fuel hooks (HookCfg.on_error h) (visited ++ [current])
                              (chain ++ gate_link current h)
                   end
          end
      end
  end.

Definition resolve_on_error_chain (hook : HookCfg.t) (hooks : Registry)
    : option (list FallbackHook.t * PolicyOnError) :=
  on_error_loop (Datatypes.S (size hooks)) hooks (HookCfg.on_error hook) [] [].

Definition resolve_gate_transport (name : string) (hook : HookCfg.t) (hooks : Registry)
    : option (option ResolvedPolicy.t) :=
  match open_hook name hook with
  | None => Some None
  | Some policy =>
      let? (on_error_chain, on_error) := resolve_on_error_chain hook hooks in
      let '(send_prompt, send_user) := projection_grants hook in
      Some (Some (ResolvedPolicy.mk policy on_error on_error_chain (policy_timeout (HookCfg.timeout_ms hook))
                    send_prompt send_user (gate_on_empty hook)))
  end.

Definition resolve_policy (cfg : PoolCfg.t) : option ResolvedPolicy.t :=
  name ← native_name (PoolCfg.policy cfg);
  policy ← native_policy name;
  Some (ResolvedPolicy.mk policy Weighted [] (policy_timeout DEFAULT_POLICY_TIMEOUT_MS) false false Reject).

(** [HashMap::iter().find]: with at most one default (a boot rule) the order does not matter. *)
Definition default_hook_name (hooks : Registry) : option string :=
  fst <$> head (List.filter (fun nh => HookCfg.default nh.2) (map_to_list hooks)).

Definition resolve_pool_ordering (cfg : PoolCfg.t) (hooks : Registry) (default_hook : option string)
    : option (option ResolvedPolicy.t) :=
  if negb (PoolCfg.base_named cfg) then
    match (name ← default_hook; hook ← hooks !! name; Some (name, hook)) with
    | Some (name, hook) => resolve_gate_transport name hook hooks
    | None => Some (resolve_policy cfg)
    end
  else Some (resolve_policy cfg).

(** The named hooks a predicate keeps, resolved, each with its priority. *)
Definition keep_resolved (keep : HookCfg.t -> bool) (hooks : Registry) (names : list string)
    : option (list (Z * ResolvedPolicy.t)) :=
  let one name :=
    match hooks !! name with
    | None => Some None
    | Some h =>
        if keep h then
          let? rp := resolve_gate_transport name h hooks in
          Some ((fun rp => (HookCfg.priority h, rp)) <$> rp)
        else Some None
    end in
  let? l := mapM one names in Some (omap id l).

Definition decides (h : HookCfg.t) : bool := bool_decide (HookCfg.kind h = Gate) && negb (can_rewrite (HookCfg.prompt h)).
Definition rewrites (h : HookCfg.t) : bool := bool_decide (HookCfg.kind h = Gate) && can_rewrite (HookCfg.prompt h).
Definition taps (stage : HookStage) (h : HookCfg.t) : bool :=
  bool_decide (HookCfg.kind h = Tap) && bool_decide (default StRequest (HookCfg.at_ h) = stage).

Definition resolve_pool_gates (cfg : PoolCfg.t) (hooks : Registry) := keep_resolved decides hooks (PoolCfg.gates cfg).
Definition resolve_gate_hooks (hooks : Registry) (global_hooks : list string) : option (list (Z * ResolvedPolicy.t)) :=
  let? ranked := keep_resolved decides hooks global_hooks in Some (sort_by by_priority ranked).

Definition rewrite_chain (hooks : Registry) (names : list string) : option (list Policy.t) :=
  let? ranked := keep_resolved rewrites hooks names in
  Some ((fun pr => ResolvedPolicy.policy pr.2) <$> sort_by by_priority ranked).
Definition resolve_rewrite_hooks (hooks : Registry) (global_hooks : list string) := rewrite_chain hooks global_hooks.
Definition resolve_pool_rewrites (cfg : PoolCfg.t) (hooks : Registry) := rewrite_chain hooks (PoolCfg.gates cfg).

(** Each tap with its prompt grant. *)
Definition resolve_tap_hooks (hooks : Registry) (global_hooks : list string) (stage : HookStage)
    : option (list (bool * Policy.t)) :=
  let? ranked := keep_resolved (taps stage) hooks global_hooks in
  Some ((fun pr => (ResolvedPolicy.send_prompt pr.2, ResolvedPolicy.policy pr.2)) <$> sort_by by_priority ranked).
End Resolve.

(** ** Boot rules for hooks *)
Definition RESERVED_HOOK_NAMES : list string :=
  [ON_ERROR_WEIGHTED; ON_ERROR_REJECT; ON_ERROR_FIRST; ON_ERROR_NOTHING; STRATEGY_CHEAPEST; STRATEGY_FASTEST;
   STRATEGY_LEAST_BUSY; STRATEGY_USAGE; "tokens"; "admin-tokens"].

Inductive HookError :=
  | NoPlugin (hook : string) | TapRewrites (hook : string) | TapDefault (hook : string) | ReservedName (hook : string)
  | ManyDefaults (hooks : list string) | PoolUnknown (pool hook : string) | PoolTap (pool hook : string)
  | ErrCycle (path : list string) (hook : string) | ErrUnknown (hook fallback : string) | ErrTap (hook fallback : string)
  | GlobalUnknown (hook : string).

Definition is_strategy (name : string) : bool :=
  String.eqb name STRATEGY_CHEAPEST || String.eqb name STRATEGY_FASTEST || String.eqb name STRATEGY_LEAST_BUSY ||
  String.eqb name STRATEGY_USAGE.

Fixpoint on_error_rule (fuel : nat) (hooks : Registry) (hook_name current : string) (visited : list string)
    : option (list HookError) :=
  match fuel with
  | O => None
  | Datatypes.S fuel =>
      match on_error_terminal current with
      | Some _ => Some []
      | None =>
          if is_strategy current then Some []
          else if bool_decide (current ∈ visited) then Some [ErrCycle visited current]
          else match hooks !! current with
               | None => Some [ErrUnknown hook_name current]
               | Some next =>
                   if negb (bool_decide (HookCfg.kind next = Gate)) then Some [ErrTap hook_name current]
                   else on_error_rule fuel hooks hook_name (HookCfg.on_error next) (visited ++ [current])
               end
      end
  end.

Definition hook_rule (name : string) (h : HookCfg.t) : list HookError :=
  (if is_empty (trim (HookCfg.plugin h)) then [NoPlugin name] else []) ++
  (if can_rewrite (HookCfg.prompt h) && bool_decide (HookCfg.kind h = Tap) then [TapRewrites name] else []) ++
  (if HookCfg.default h && bool_decide (HookCfg.kind h = Tap) then [TapDefault name] else []).

Definition pool_ref_rule (hooks : Registry) (pool : string) (cfg : PoolCfg.t) : list HookError :=
  name ← PoolCfg.gates cfg;
  match hooks !! name with
  | None => [PoolUnknown pool name]
  | Some h => if bool_decide (HookCfg.kind h = Gate) then [] else [PoolTap pool name]
  end.

(** All the hook rules, in the order of the code. *)
Definition validate_hooks (hooks : Registry) (pools : list (string * PoolCfg.t)) (global_hooks : list string)
    : option (list HookError) :=
  let entries := map_to_list hooks in
  let defaults := (List.filter (fun nh => HookCfg.default nh.2) entries).*1 in
  let? chains := mapM (fun nh => on_error_rule (Datatypes.S (size hooks)) hooks nh.1 (HookCfg.on_error nh.2) [nh.1]) entries in
  Some ((nh ← entries; hook_rule nh.1 nh.2) ++
        (nh ← entries; if bool_decide (nh.1 ∈ RESERVED_HOOK_NAMES) then [ReservedName nh.1] else []) ++
        (if (1 <? length defaults)%nat then [ManyDefaults defaults] else []) ++
        (pc ← pools; pool_ref_rule hooks pc.1 pc.2) ++
        concat chains ++
        (name ← global_hooks; match hooks !! name with None => [GlobalUnknown name] | Some _ => [] end)).

(** ** Fallback chains *)

(** How a chain ends: on a reserved word, or on a built-in strategy. *)
Inductive ChainEnd := AtTerminal (t : PolicyOnError) | AtStrategy (p : Policy.t).

(** The gates a chain goes through from [name], and its end. *)
Inductive ErrChain (hooks : Registry) : string -> list (string * HookCfg.t) -> ChainEnd -> Prop :=
| chain_terminal name t : on_error_terminal name = Some t -> ErrChain hooks name [] (AtTerminal t)
| chain_strategy name p : on_error_terminal name = None -> native_policy name = Some p ->
    ErrChain hooks name [] (AtStrategy p)
| chain_gate name h rest e :
    on_error_terminal name = None -> native_policy name = None -> hooks !! name = Some h -> HookCfg.kind h = Gate ->
    ErrChain hooks (HookCfg.on_error h) rest e -> ErrChain hooks name ((name, h) :: rest) e.

Lemma is_strategy_native name : on_error_terminal name = None ->
  if is_strategy name then is_Some (native_policy name) else native_policy name = None.
Proof.
  unfold on_error_terminal, is_strategy, native_policy. intros H.
  change ON_ERROR_WEIGHTED with POLICY_NAME_WEIGHTED in H. change STRATEGY_CHEAPEST with POLICY_NAME_CHEAPEST.
  change STRATEGY_FASTEST with POLICY_NAME_FASTEST. change STRATEGY_LEAST_BUSY with POLICY_NAME_LEAST_BUSY.
  change STRATEGY_USAGE with POLICY_NAME_USAGE.
  destruct (String.eqb name POLICY_NAME_WEIGHTED); [done|]. cbn [orb] in H.
  destruct (String.eqb name POLICY_NAME_CHEAPEST), (String.eqb name POLICY_NAME_FASTEST),
    (String.eqb name POLICY_NAME_LEAST_BUSY), (String.eqb name POLICY_NAME_USAGE); cbn; done.
Qed.

(** Distinct names of the registry are no more than its entries. *)
Lemma visited_bound (hooks : Registry) (visited : list string) :
  NoDup visited -> (forall n, n ∈ visited -> is_Some (hooks !! n)) -> (length visited <= size hooks)%nat.
Proof.
  intros Hn Hd. rewrite <- size_dom. rewrite <- (size_list_to_set visited (C := gset string)) by done.
  apply subseteq_size. intros n Hi. apply elem_of_list_to_set in Hi. apply elem_of_dom. by apply Hd.
Qed.

Lemma visit_step (hooks : Registry) (visited : list string) current h :
  NoDup visited -> (forall n, n ∈ visited -> is_Some (hooks !! n)) -> current ∉ visited -> hooks !! current = Some h ->
  NoDup (visited ++ [current]) /\ (forall n, n ∈ visited ++ [current] -> is_Some (hooks !! n)) /\
  length (visited ++ [current]) = Datatypes.S (length visited).
Proof.
  intros Hn Hd Hc Hh. split_and!.
  - apply NoDup_app. split; [done|]. split; [set_solver|apply NoDup_singleton].
  - intros m [Hm| ->%list_elem_of_singleton]%elem_of_app; [by apply Hd|by eexists].
  - rewrite length_app. cbn. lia.
Qed.

Section Chains.
Context (open_hook : string -> HookCfg.t -> option Policy.t) (needs : string -> option (bool * bool))
  (default_policy_timeout_ms : Z).
Notation loop := (on_error_loop open_hook needs default_policy_timeout_ms).
Notation link := (gate_link open_hook needs default_policy_timeout_ms).

(** What a chain resolves to: the gates that open, in order, then the strategy if it ends on one. *)
Definition resolved_chain (gates : list (string * HookCfg.t)) (e : ChainEnd) : list FallbackHook.t * PolicyOnError :=
  let links := gs ← gates; link gs.1 gs.2 in
  match e with
  | AtTerminal t => (links, t)
  | AtStrategy p => (links ++ [native_link default_policy_timeout_ms p], Weighted)
  end.

Lemma loop_total fuel hooks current visited chain :
  NoDup visited -> (forall n, n ∈ visited -> is_Some (hooks !! n)) -> (size hooks < length visited + fuel)%nat ->
  is_Some (loop fuel hooks current visited chain).
Proof.
  revert current visited chain. induction fuel as [|fuel IH]; intros current visited chain Hn Hd Hf; cbn [on_error_loop].
  { pose proof (visited_bound hooks visited Hn Hd). lia. }
  destruct (on_error_terminal current); [done|]. destruct (native_policy current); [done|].
  destruct (bool_decide_reflect (current ∈ visited)); [done|]. destruct (hooks !! current) as [h|] eqn:Eh; [|done].
  destruct (negb _); [done|]. destruct (visit_step hooks visited current h) as (? & ? & ?); [done..|]. apply IH; [done..|lia].
Qed.

Lemma rule_total fuel hooks name current visited :
  NoDup visited -> (forall n, n ∈ visited -> is_Some (hooks !! n)) -> (size hooks < length visited + fuel)%nat ->
  is_Some (on_error_rule fuel hooks name current visited).
Proof.
  revert current visited. induction fuel as [|fuel IH]; intros current visited Hn Hd Hf; cbn [on_error_rule].
  { pose proof (visited_bound hooks visited Hn Hd). lia. }
  destruct (on_error_terminal current); [done|]. destruct (is_strategy current); [done|].
  destruct (bool_decide_reflect (current ∈ visited)); [done|]. destruct (hooks !! current) as [h|] eqn:Eh; [|done].
  destruct (negb _); [done|]. destruct (visit_step hooks visited current h) as (? & ? & ?); [done..|]. apply IH; [done..|lia].
Qed.

(** A chain the boot rule accepts is a chain of distinct gates not visited before. *)
Lemma rule_accepts fuel hooks name current visited :
  on_error_rule fuel hooks name current visited = Some [] ->
  exists gates e, ErrChain hooks current gates e /\ NoDup gates.*1 /\ (forall n, n ∈ gates.*1 -> n ∉ visited).
Proof.
  revert current visited. induction fuel as [|fuel IH]; intros current visited; cbn [on_error_rule]; [done|].
  destruct (on_error_terminal current) as [t|] eqn:Et.
  { intros _. exists [], (AtTerminal t). split; [by constructor|]. split; [constructor|set_solver]. }
  pose proof (is_strategy_native current Et) as Hs. destruct (is_strategy current).
  { intros _. destruct Hs as [p Hp]. exists [], (AtStrategy p). split; [by constructor|]. split; [constructor|set_solver]. }
  destruct (bool_decide_reflect (current ∈ visited)); [done|]. destruct (hooks !! current) as [h|] eqn:Eh; [|done].
  destruct (bool_decide_reflect (HookCfg.kind h = Gate)); cbn [negb]; [|done].
  intros (gates & ce & Hc & Hn & Hv)%IH. exists ((current, h) :: gates), ce. split; [by econstructor|]. cbn [fmap list_fmap fst].
  split; [constructor; [|done]; intros Hx; apply Hv in Hx; set_solver|].
  intros m [->|Hm]%elem_of_cons; [done|]. apply Hv in Hm. set_solver.
Qed.

Lemma loop_follows fuel hooks current visited chain gates e :
  ErrChain hooks current gates e -> NoDup gates.*1 -> (forall n, n ∈ gates.*1 -> n ∉ visited) ->
  (length gates < fuel)%nat ->
  loop fuel hooks current visited chain = Some (chain ++ (resolved_chain gates e).1, (resolved_chain gates e).2).
Proof.
  intros Hc. revert fuel visited chain.
  induction Hc as [name t Ht|name p Ht Hp|name h rest e' Ht Hp Hh Hk Hc IH]; intros fuel visited chain Hn Hv Hf;
    (destruct fuel as [|fuel]; [cbn in Hf; lia|]); cbn [on_error_loop]; rewrite Ht.
  - cbn. by rewrite app_nil_r.
  - by rewrite Hp.
  - rewrite Hp, bool_decide_eq_false_2 by (apply Hv; cbn; set_solver). rewrite Hh, bool_decide_eq_true_2 by done. cbn [negb].
    cbn [fmap list_fmap fst] in Hn, Hv. apply NoDup_cons in Hn as [Hni Hn]. cbn in Hf.
    rewrite IH; [|done|intros m Hm; specialize (Hv m); set_solver|lia].
    destruct e'; cbn [resolved_chain fst snd]; cbn; rewrite <- !app_assoc; reflexivity.
Qed.

(** Fallback chains: resolving a hook and checking its chain at boot terminate on every registry,
    cyclic ones included; and when the boot rule accepts a hook, its [on_error] names a chain of
    distinct gates that ends on a reserved word or a built-in strategy, and that chain is what is
    resolved: its gates in order and its terminal, so a gate that fails closed through any number of
    fallbacks still fails closed. *)
Theorem fallback_chain_resolves hooks name hook :
  hooks !! name = Some hook ->
  is_Some (resolve_on_error_chain open_hook needs default_policy_timeout_ms hook hooks) /\
  exists errs, on_error_rule (Datatypes.S (size hooks)) hooks name (HookCfg.on_error hook) [name] = Some errs /\
    (errs = [] -> exists gates e, ErrChain hooks (HookCfg.on_error hook) gates e /\ NoDup (name :: gates.*1) /\
       resolve_on_error_chain open_hook needs default_policy_timeout_ms hook hooks = Some (resolved_chain gates e)).
Proof.
  intros Hh. split; [apply loop_total; [constructor|set_solver|cbn; lia]|].
  destruct (rule_total (Datatypes.S (size hooks)) hooks name (HookCfg.on_error hook) [name]) as [errs E];
    [apply NoDup_singleton|intros m ->%list_elem_of_singleton; by eexists|cbn; lia|].
  exists errs. split; [done|]. intros ->. apply rule_accepts in E as (gates & e & Hc & Hn & Hv).
  exists gates, e. split; [done|]. split; [constructor; [|done]; intros Hx; apply Hv in Hx; set_solver|].
  unfold resolve_on_error_chain. rewrite (loop_follows _ hooks _ [] [] gates e Hc Hn); [by destruct (resolved_chain gates e)|set_solver|].
  enough (length gates <= size hooks)%nat by lia. rewrite <- (length_fmap fst). apply visited_bound; [done|].
  clear -Hc. induction Hc; cbn; [set_solver|set_solver|]. intros m [->|Hm]%elem_of_cons; [by eexists|by apply IHHc].
Qed.
End Chains.

(** A screen that falls back on a second screen that fails closed. *)
Definition screen (on_error : string) : HookCfg.t :=
  HookCfg.mk Gate "pii" 10 on_error PromptRo UserNo 0 None None [] false false.
Definition two_screens : Registry := {["a" := screen "b"; "b" := screen "reject"]}.
Definition opens (name : string) (_ : HookCfg.t) : option Policy.t := Some (native name (fun _ => RoutingDecision.Abstain)).

Lemma fallback_chain_resolves_witness :
  exists gates e, ErrChain two_screens "b" gates e /\
    resolve_on_error_chain opens (fun _ => None) 1 (screen "b") two_screens = Some (resolved_chain opens (fun _ => None) 1 gates e) /\
    (resolved_chain opens (fun _ => None) 1 gates e).2 = Reject.
Proof.
  destruct (fallback_chain_resolves opens (fun _ => None) 1 two_screens "a" (screen "b") eq_refl) as (_ & errs & E & H).
  destruct H as (gates & e & Hc & _ & Hr); [vm_compute in E; congruence|].
  exists gates, e. split; [exact Hc|]. split; [exact Hr|].
  assert (snd <$> resolve_on_error_chain opens (fun _ => None) 1 (screen "b") two_screens = Some Reject) as E2
    by (vm_compute; reflexivity).
  rewrite Hr in E2. by injection E2.
Defined.
