(* ===== verification/FrontDoor.v ===== *)
(** * The front door (crates/busbar/src/auth/mod.rs, admin/v1/contract/mod.rs, auth-admin-tokens)

    What every request crosses before routing: the credential carriers, the administration chain with
    its scopes and ceilings, the route matrix, the mutation limiter, and the resolution of a data-plane
    credential to a virtual key ([auth_middleware], whole).  It runs on the cache of [AuthCache], the
    keys of [Keys], the signatures of [Sigv4], the limiter of [AdminState] and the log of [AdminAudit].
    Completion taps of a denial, the profiling timer and the one-shot warnings are left out. *)
From stdpp Require Import base gmap list strings.
From Stdlib Require Import ZArith Lia Ascii.
From S2P Require Import Prelude Cost Ledger Signing Keys Sigv4 AuthCache AdminAudit AdminState Projection.
Open Scope Z_scope.

Definition PROTO_OPENAI : string := "openai".
Definition PROTO_ANTHROPIC : string := "anthropic".
Definition PROTO_COHERE : string := "cohere".

(** ** Protocol of a path *)
Definition ends_with (s p : string) : bool :=
  let n := String.length s in let m := String.length p in
  (m <=? n)%nat && String.eqb (String.substring (n - m) m s) p.

Definition GEMINI_ACTIONS : list string :=
  [":generateContent"; ":streamGenerateContent"; ":countTokens"; ":embedContent"; ":batchGenerateContent";
   ":generateAnswer"; ":batchEmbedContents"].

(** [rsplit('/').next()] is the last piece of the split. *)
Definition proto_for_path (path : string) : string :=
  if starts_with path "/v1beta/models" then PROTO_GEMINI
  else if starts_with path "/v1/models/" then
    let last_segment := default "" (last (split "/" path)) in
    if existsb (ends_with last_segment) GEMINI_ACTIONS then PROTO_GEMINI else PROTO_OPENAI
  else if starts_with path "/model/" && (ends_with path "/converse" || ends_with path "/converse-stream")
  then PROTO_BEDROCK
  else if String.eqb path "/v1/messages" || ends_with path "/v1/messages" then PROTO_ANTHROPIC
  else if String.eqb path "/v1/chat/completions" then PROTO_OPENAI
  else if String.eqb path "/v2/chat" then PROTO_COHERE
  else if String.eqb path "/v1/responses" then PROTO_RESPONSES
  else PROTO_OPENAI.

(** The vtable entries the front door reads. *)
Definition uses_sigv4_ingress_auth (proto : string) : bool := String.eqb proto PROTO_BEDROCK.

Definition auth_failure_status_and_kind (proto : string) : Z * string :=
  if String.eqb proto PROTO_BEDROCK then (403, "auth")
  else if String.eqb proto PROTO_GEMINI then (400, KIND_INVALID_REQUEST)
  else (401, KIND_AUTHENTICATION).

Definition vendor_auth_failure_message (proto : string) : string :=
  if String.eqb proto PROTO_ANTHROPIC then "invalid x-api-key"
  else if String.eqb proto PROTO_BEDROCK then ""
  else if String.eqb proto PROTO_COHERE then "invalid api token"
  else if String.eqb proto PROTO_GEMINI then "API key not valid. Please pass a valid API key."
  else if String.eqb proto PROTO_OPENAI || String.eqb proto PROTO_RESPONSES then "Incorrect API key provided."
  else "authentication failed".

(** ** Administrative scopes *)
Inductive Scope := ReadOnly | HooksRegister | Mint | Full.
#[export] Instance Scope_eq_dec : EqDecision Scope.
Proof. solve_decision. Defined.

Definition scope_as_str (s : Scope) : string :=
  match s with ReadOnly => "read-only" | HooksRegister => "hooks-register" | Mint => "mint" | Full => "full" end.
Definition scope_parse (token : string) : option Scope :=
  if String.eqb token "read-only" then Some ReadOnly
  else if String.eqb token "hooks-register" then Some HooksRegister
  else if String.eqb token "mint" then Some Mint
  else if String.eqb token "full" then Some Full
  else None.

(** The derived order, with [min] and [Iterator::max]. *)
Definition ordinal (s : Scope) : nat := match s with ReadOnly => 0 | HooksRegister => 1 | Mint => 2 | Full => 3 end.
Definition scope_min (a b : Scope) : Scope := if (ordinal b <? ordinal a)%nat then b else a.
Definition scope_max (l : list Scope) : option Scope :=
  foldl (fun best s =>
    match best with Some b => if (ordinal b <=? ordinal s)%nat then Some s else Some b | None => Some s end) None l.

Definition allows (s needed : Scope) : bool :=
  match needed with
  | ReadOnly => true
  | Full => bool_decide (s = Full)
  | HooksRegister => bool_decide (s = HooksRegister) || bool_decide (s = Full)
  | Mint => bool_decide (s = Mint) || bool_decide (s = Full)
  end.

Definition PATH_HOOKS : string := "/hooks".
Definition PATH_KEYS : string := "/keys".

Definition mutates (method : string) : bool := existsb (String.eqb method) ["POST"; "PUT"; "PATCH"; "DELETE"].

Definition required_scope (method path : string) : Scope :=
  if String.eqb method "GET" || String.eqb method "HEAD" then ReadOnly
  else
    let rel := default path (strip_prefix ADMIN_PREFIX path) in
    if String.eqb rel PATH_CONFIG_VALIDATE then ReadOnly
    else if mutates method && (String.eqb rel PATH_HOOKS || starts_with rel "/hooks/") then HooksRegister
    else if String.eqb method "POST" && String.eqb rel PATH_KEYS then Mint
    else Full.

(** ** Credential carriers *)
Definition X_API_KEY : string := "x-api-key".
Definition X_GOOG_API_KEY : string := "x-goog-api-key".
Definition X_ADMIN_TOKEN : string := "x-admin-token".
Definition AUTH_SCHEME_BEARER : string := "bearer".
Definition HEALTHZ_PATH : string := "/healthz".
Definition ADMIN_PATH : string := "/api".
Definition ADMIN_PATH_PREFIX : string := "/api/".
Definition ADMIN_TOKENS : string := "admin-tokens".
Definition ADMIN_TOKENS_PRINCIPAL_ID : string := "admin".

Definition nonempty (s : string) : bool := negb (String.eqb s "").

Definition header_str (req : HttpRequest.t) (name : string) : option string :=
  match find (fun kv : string * string => String.eqb kv.1 name) (HttpRequest.headers req) with
  | Some (_, v) => to_str v
  | None => None
  end.

Definition extract_bearer_token (auth_header : string) : option string :=
  match split_once " " auth_header with
  | None => None
  | Some (scheme, token) =>
      if eq_ignore_ascii_case scheme AUTH_SCHEME_BEARER && nonempty token then Some token else None
  end.

Definition bearer_of (req : HttpRequest.t) : option string := authorization_of req ≫= extract_bearer_token.

(** [Option::filter] on an empty value. *)
Definition nonblank (o : option string) : option string := t ← o; if nonempty t then Some t else None.

Definition extract_client_token (req : HttpRequest.t) : option string :=
  match bearer_of req with
  | Some t => Some t
  | None =>
      match nonblank (header_str req X_API_KEY) with
      | Some t => Some t
      | None => nonblank (header_str req X_GOOG_API_KEY)
      end
  end.

Definition extract_admin_header_token (req : HttpRequest.t) : option string := nonblank (header_str req X_ADMIN_TOKEN).

(** ** Extensions and answers *)
Module Extensions.
Record t := mk { caller_token : option (option string); auth_principal : option (option Principal.t);
                 admin_scope : option (option Scope); gov_ctx : option (option VirtualKey.t) }.
Definition none : t := mk None None None None.
End Extensions.

Inductive Answer :=
  | Next (ext : Extensions.t)
  | Unauthorized (proto : string) (status : Z) (kind message : string)
  | AdminUnauthorized
  | Forbidden (needed : Scope)
  | RateLimited.

Definition unauthorized_response (path : string) : Answer :=
  let proto := proto_for_path path in
  let message := vendor_auth_failure_message proto in
  let '(status, kind) := auth_failure_status_and_kind proto in
  Unauthorized proto status kind message.

(** Readings of the clock, in the order in which the middleware takes them. *)
Module Readings.
Record t := mk { chain_at : Z; admin_at : Z; forbidden_at : Z; limiter_at : Z; limited_at : Z;
                 sigv4_at : Z; token_at : Z }.
End Readings.

Section FrontDoor.
Context {S A : Type} `{KeyStore S} `{TokenCrypto} `{SigCrypto} `{AuditStore A}.

Definition authenticate_admin_tokens (configured_hash bearer header : option string) : AuthOutcome :=
  match configured_hash with
  | None => Pass
  | Some configured_hash =>
      match bearer, header with
      | None, None => Pass
      | _, _ =>
          let matches (c : option string) : Z :=
            match c with Some c => if constant_time_eq (sha256_hex c) configured_hash then 1 else 0 | None => 0 end in
          if Z.lor (matches bearer) (matches header) =? 0 then Reject
          else Identify (Principal.mk ADMIN_TOKENS_PRINCIPAL_ID None [] None)
      end
  end.

Definition RoleBindings : Type := gmap string (list (string * RoleBindingCfg.t)).

(** The part of [App] the front door reads; the tables of a [BTreeMap] are searched by key. *)
Record App := mk_app {
  governance : option (@GovKeys S _);
  auth_chain : list AuthModule;
  admin_chain : list string;
  auth_scope_caps : gmap string string;
  role_bindings : RoleBindings }.

(** What the middleware writes. *)
Record Door := mk_door { cache : CredentialCache.t; limiter : MutationLimiter.t; log : AuditLog.t; sink : A }.
Definition set_cache (c : CredentialCache.t) (d : Door) : Door := mk_door c (limiter d) (log d) (sink d).
Definition set_limiter (l : MutationLimiter.t) (d : Door) : Door := mk_door (cache d) l (log d) (sink d).
Definition record (action resource outcome principal : string) (now : Z) (d : Door) : Door :=
  let '(l, s) := record_by action resource outcome principal now (log d) (sink d) in
  mk_door (cache d) (limiter d) l s.

(** ** The administration chain *)
Definition module_admin_scope_cap (app : App) (module : string) : option Scope :=
  if String.eqb module ADMIN_TOKENS then None
  else Some (default ReadOnly (auth_scope_caps app !! module ≫= scope_parse)).

Definition nl : string := String (ascii_of_nat 10) "".
Definition composite_of (bearer header : option string) : option string :=
  match bearer, header with
  | None, None => None
  | b, h => Some ("b:" +:+ default "" b +:+ nl +:+ "h:" +:+ default "" h)
  end.

(** One module of the chain: its outcome, cached or judged now. *)
Definition admin_consult (app : App) (name : string) (bearer header : option string) (now : Z)
    (c : CredentialCache.t) : CredentialCache.t * AuthOutcome :=
  let cred := if String.eqb name ADMIN_TOKENS then None else composite_of bearer header in
  let judge :=
    if String.eqb name ADMIN_TOKENS
    then authenticate_admin_tokens (governance app ≫= admin_token_hash) bearer header
    else Pass in
  match cred with
  | Some cred =>
      match get name cred now c with
      | (c, Some o) => (c, o)
      | (c, None) => (put name cred judge now c, judge)
      end
  | None => (c, judge)
  end.

Fixpoint admin_modules (app : App) (chain : list string) (bearer header : option string) (now : Z)
    (c : CredentialCache.t) : CredentialCache.t * (ChainVerdict * option Scope) :=
  match chain with
  | [] => (c, (Denied, None))
  | name :: chain =>
      match admin_consult app name bearer header now c with
      | (c, Identify p) => (c, (Identified name p, module_admin_scope_cap app name))
      | (c, Reject) => (c, (Denied, None))
      | (c, Pass) => admin_modules app chain bearer header now c
      end
  end.

Definition run_admin_chain (app : App) (bearer header : option string) (now : Z) (c : CredentialCache.t)
    : CredentialCache.t * (ChainVerdict * option Scope) :=
  match admin_chain app with
  | [] => (c, (Open, None))
  | chain => admin_modules app chain bearer header now c
  end.

Definition admin_scope_for (module : option string) (principal : option Principal.t) (bindings : RoleBindings)
    : option Scope :=
  match principal with
  | None => Some Full
  | Some p =>
      match Principal.roles p with
      | [] => if String.eqb (Principal.id p) ADMIN_TOKENS_PRINCIPAL_ID then Some Full else None
      | roles =>
          table ← (m ← module; bindings !! m);
          scope_max (omap scope_parse (omap RoleBindingCfg.admin_scope (omap (fun role => assoc role table) roles)))
      end
  end.

(** [min] with the ceiling, where there is one. *)
Definition cap_scope (scope cap : option Scope) : option Scope :=
  match scope, cap with Some s, Some c => Some (scope_min s c) | s, _ => s end.

(** Who the verdict names: [None] for a denial, the module and the principal otherwise. *)
Definition identified (v : ChainVerdict) : option (option string * option Principal.t) :=
  match v with
  | Identified module p => Some (Some module, Some p)
  | Open => Some (None, None)
  | Denied => None
  end.

Definition dry_run_admin_scope (app : App) (bearer header : option string) (now : Z) (c : CredentialCache.t)
    : CredentialCache.t * option Scope :=
  let '(c, (verdict, cap)) := run_admin_chain app bearer header now c in
  (c, match identified verdict with
      | Some (module, principal) => cap_scope (admin_scope_for module principal (role_bindings app)) cap
      | None => None
      end).

Definition actor (principal : option Principal.t) : string :=
  match principal with Some p => Principal.id p | None => "anonymous" end.

(** The administration plane: authenticate, authorize, meter. *)
Definition admin_plane (app : App) (req : HttpRequest.t) (t : Readings.t) (client_token : option string) (d : Door)
    : Door * Answer :=
  let path := HttpRequest.path req in
  let method := HttpRequest.method req in
  let '(c, (verdict, cap)) :=
    run_admin_chain app (bearer_of req) (extract_admin_header_token req) (Readings.admin_at t) (cache d) in
  let d := set_cache c d in
  match identified verdict with
  | None => (d, AdminUnauthorized)
  | Some (module, principal) =>
      let scope := cap_scope (admin_scope_for module principal (role_bindings app)) cap in
      let required := required_scope method path in
      let granted := match scope with Some s => allows s required | None => false end in
      if negb granted then
        (record "admin.forbidden" path "rejected" (actor principal) (Readings.forbidden_at t) d, Forbidden required)
      else
        let class := mutation_class path in
        let '(l, within) :=
          if mutates method then check (actor principal) class (Readings.limiter_at t) (limiter d)
          else (limiter d, true) in
        let d := set_limiter l d in
        if negb within then
          (record "admin.rate_limited" (label class +:+ ":" +:+ path) "rejected" (actor principal)
             (Readings.limited_at t) d, RateLimited)
        else (d, Next (Extensions.mk (Some client_token) (Some principal) (Some scope) (Some None)))
  end.

(** A principal's key under the bindings of the module that identified it. *)
Definition principal_key (app : App) (v : ChainVerdict) : option VirtualKey.t :=
  match v with
  | Identified module p =>
      match Principal.roles p with
      | [] => None
      | _ => synthesize_principal_key p (role_bindings app !! module)
      end
  | _ => None
  end.

Definition first_some {X} (a b : option X) : option X := match a with Some _ => a | None => b end.

(** The data plane under active governance: a signed request, or a token that resolves to a key.  The
    body is what was buffered, [None] when buffering failed. *)
Definition governed (app : App) (gov : @GovKeys S _) (req : HttpRequest.t) (body : option string) (t : Readings.t)
    (client_token : option string) (verdict : ChainVerdict) : Answer :=
  let path := HttpRequest.path req in
  let ext principal key := Next (Extensions.mk (Some client_token) principal None (Some key)) in
  if uses_sigv4_ingress_auth (proto_for_path path) && has_sigv4_authorization req then
    match body with
    | None => unauthorized_response path
    | Some body =>
        match verify_bedrock_sigv4 gov req body (Readings.sigv4_at t) with
        | Some key => ext None (Some key)
        | None => unauthorized_response path
        end
    end
  else
    match nonblank client_token with
    | None => unauthorized_response path
    | Some token =>
        let rekeyed :=
          match principal_key app verdict, verdict with
          | Some key, Identified _ p => ext (Some (Some p)) (Some key)
          | _, _ => unauthorized_response path
          end in
        match first_some (verify_token gov token (Readings.token_at t)) (lookup gov token) with
        | Some key =>
            if VirtualKey.enabled key
            then ext (Some (Some (Principal.mk (VirtualKey.id key) (Some (VirtualKey.name key)) [] None))) (Some key)
            else rekeyed
        | None => rekeyed
        end
    end.

Definition ungoverned (app : App) (req : HttpRequest.t) (client_token : option string) (verdict : ChainVerdict)
    : Answer :=
  match verdict with
  | Denied => unauthorized_response (HttpRequest.path req)
  | _ =>
      let principal := match verdict with Identified _ p => Some p | _ => None end in
      Next (Extensions.mk (Some client_token) (Some principal) None (Some (principal_key app verdict)))
  end.

Definition auth_middleware (app : App) (req : HttpRequest.t) (body : option string) (t : Readings.t) (d : Door)
    : Door * Answer :=
  let path := HttpRequest.path req in
  if String.eqb path HEALTHZ_PATH then (d, Next Extensions.none)
  else
    let is_admin := String.eqb path ADMIN_PATH || starts_with path ADMIN_PATH_PREFIX in
    let client_token := extract_client_token req in
    let '(c, verdict) := run_chain_cached (auth_chain app) client_token (Some (cache d)) (Readings.chain_at t) in
    let d := set_cache (default (cache d) c) d in
    if is_admin then admin_plane app req t client_token d
    else
      match governance app with
      | Some gov =>
          match admin_token_hash gov with
          | Some _ => (d, governed app gov req body t client_token verdict)
          | None => (d, ungoverned app req client_token verdict)
          end
      | None => (d, ungoverned app req client_token verdict)
      end.

End FrontDoor.
