(* ===== verification/FrontDoorProps.v ===== *)
(** * Theorems of the front door

    No history of requests opens the administration plane to anything but the operator token; under
    active governance every request that passes proves its key and every refusal looks the same;
    what is refused on the administration plane leaves a trace.  Two examples record where ceilings
    and revocation fall short. *)
From stdpp Require Import base gmap list strings.
From Stdlib Require Import ZArith Lia Ascii.
From S2P Require Import Prelude Cost Ledger Signing Keys KeysProps Sigv4 Sigv4Facts AuthCache.
From S2P Require Import KeyMaterial Sigv4Props AdminAudit AdminState Projection FrontDoor Sigv4Lane.
Open Scope Z_scope.

(** ** Carriers hold visible text *)
Lemma split_once_suffix p c s l r :
  split_once c s = Some (l, r) -> all_chars p s = true -> all_chars p r = true.
Proof.
  revert l. induction s as [|a s IH]; intros l; cbn [split_once all_chars]; [done|].
  destruct (Ascii.eqb a c); [by intros [= _ <-] [_ ?]%andb_true_iff|].
  destruct (split_once c s) as [[l' r']|] eqn:E; [|done]. intros [= _ <-] [_ Hs]%andb_true_iff. by eapply IH.
Qed.

Lemma to_str_visible v t : to_str v = Some t -> all_chars visible_ascii t = true.
Proof. unfold to_str. by destruct (all_chars visible_ascii v) eqn:E; [intros [= <-]|]. Qed.

Lemma header_visible req name t : header_str req name = Some t -> all_chars visible_ascii t = true.
Proof. unfold header_str. destruct (find _ _) as [[k v]|]; [apply to_str_visible|done]. Qed.

Lemma bearer_visible req t : bearer_of req = Some t -> all_chars visible_ascii t = true.
Proof.
  unfold bearer_of, authorization_of. destruct (find _ _) as [[k v]|]; [|done].
  destruct (to_str v) as [h|] eqn:Eh; [|done]. apply to_str_visible in Eh. cbn. unfold extract_bearer_token.
  destruct (split_once " " h) as [[scheme tok]|] eqn:Es; [|done]. destruct (_ && _); [|done].
  intros [= <-]. by eapply split_once_suffix.
Qed.

Lemma nonblank_Some o t : nonblank o = Some t -> o = Some t.
Proof. unfold nonblank. destruct o as [x|]; [|done]. cbn. by destruct (nonempty x). Qed.

Lemma client_token_visible req t : extract_client_token req = Some t -> all_chars visible_ascii t = true.
Proof.
  unfold extract_client_token. destruct (bearer_of req) eqn:Eb; [intros [= <-]; by eapply bearer_visible|].
  destruct (nonblank (header_str req X_API_KEY)) as [x|] eqn:Ex.
  - intros [= <-]. apply nonblank_Some in Ex. by eapply header_visible.
  - intros ->%nonblank_Some%header_visible. done.
Qed.

Lemma composite_not_visible b h cred : composite_of b h = Some cred -> all_chars visible_ascii cred = false.
Proof.
  intros Hc. assert (cred = "b:" +:+ default "" b +:+ nl +:+ "h:" +:+ default "" h) as ->
    by (by destruct b, h; simplify_eq/=).
  rewrite !all_chars_app. change (all_chars visible_ascii nl) with false. by rewrite !andb_false_r.
Qed.

Section Door.
Context {S A : Type} `{KeyStore S} `{TokenCrypto} `{SigCrypto} `{AuditStore A}.
Notation App := (@App S _).
Notation Door := (@Door A).

(** ** What the cache holds *)
Section Vouched.
Variable creds : list string.

(** Identities in the cache were asserted for one of the credentials [creds]. *)
Definition visible_verdicts (c : CredentialCache.t) : Prop :=
  forall m h e p, CredentialCache.entries c !! (m, h) = Some e -> Entry.verdict e = CIdentify p ->
    exists cred, h = sha256_hex cred /\ cred ∈ creds.

Lemma visible_subseteq c c' :
  CredentialCache.entries c' ⊆ CredentialCache.entries c -> visible_verdicts c -> visible_verdicts c'.
Proof. intros Hs Hv m h e p He. eapply Hv. by eapply lookup_weaken. Qed.

Lemma put_visible m cred o now c :
  (forall p, o = Identify p -> cred ∈ creds) -> visible_verdicts c ->
  visible_verdicts (put m cred o now c).
Proof.
  intros Ho Hv. unfold put. destruct (cached_of o (sha256_hex cred)) as [[v ttl]|] eqn:Hc; [|done].
  intros m' h e p. cbn [CredentialCache.entries].
  destruct (decide ((m, sha256_hex cred) = (m', h))) as [[= -> <-]|Hne].
  - rewrite lookup_insert_eq. intros [= <-]. cbn. intros ->. exists cred. split; [done|].
    destruct o; cbn in Hc; [by eapply Ho|done..].
  - rewrite lookup_insert_ne by done. intros He. eapply Hv. by eapply lookup_weaken; [exact He|apply make_room_subseteq].
Qed.

Lemma run_modules_visible chain cand c now :
  (forall cred, cand = Some cred -> cred ∈ creds) -> visible_verdicts c ->
  exists c' v, run_modules chain cand (Some c) now = (Some c', v) /\ visible_verdicts c'.
Proof.
  intros Hc. revert c. induction chain as [|m chain IH]; intros c Hv; cbn [run_modules]; [by eexists _, _|].
  assert (exists c1 o, consult m cand (Some c) now = (Some c1, o) /\ visible_verdicts c1) as (c1 & o & -> & Hv1).
  { unfold consult. destruct cand as [cred|]; [|by eauto]. destruct (mod_cacheable m); [|by eauto].
    pose proof (get_subseteq (mod_name m) cred now c) as Hg.
    destruct (get (mod_name m) cred now c) as [c1 [o|]]; eexists _, _; (split; [reflexivity|]).
    - by eapply visible_subseteq.
    - apply put_visible; [by intros; apply Hc|by eapply visible_subseteq]. }
  destruct o; [by eexists _, _..|by apply IH].
Qed.

Lemma chain_visible chain cand c now :
  (forall cred, cand = Some cred -> cred ∈ creds) -> visible_verdicts c ->
  exists c' v, run_chain_cached chain cand (Some c) now = (Some c', v) /\ visible_verdicts c'.
Proof. intros. destruct chain; [by eexists _, _|by apply run_modules_visible]. Qed.

(** The administration chain stores passes only, and an identity it returns is the operator's or was
    in the cache. *)
Lemma admin_consult_visible (app : App) name bearer header now c :
  visible_verdicts c -> visible_verdicts (admin_consult app name bearer header now c).1.
Proof.
  intros Hv. unfold admin_consult. destruct (String.eqb name ADMIN_TOKENS); [done|].
  destruct (composite_of bearer header) as [cred|]; [|done]. pose proof (get_subseteq name cred now c) as Hg.
  destruct (get name cred now c) as [c1 [o|]]; cbn [fst] in *.
  - by eapply visible_subseteq.
  - apply put_visible; [done|by eapply visible_subseteq].
Qed.

Lemma admin_modules_visible (app : App) chain bearer header now c :
  visible_verdicts c -> visible_verdicts (admin_modules app chain bearer header now c).1.
Proof.
  revert c. induction chain as [|name chain IH]; intros c Hv; cbn [admin_modules]; [done|].
  pose proof (admin_consult_visible app name bearer header now c Hv) as Hv1.
  destruct (admin_consult app name bearer header now c) as [c1 [p| |]]; cbn [fst] in *; [done..|by apply IH].
Qed.

Lemma admin_chain_visible (app : App) bearer header now c :
  visible_verdicts c -> visible_verdicts (run_admin_chain app bearer header now c).1.
Proof. intros Hv. unfold run_admin_chain. destruct (admin_chain app); [done|by apply admin_modules_visible]. Qed.

(** ** The operator token *)

(** The pair of carriers of a request collides with one of the credentials. *)
Definition collides (bearer header : option string) : Prop :=
  exists cred composite, cred ∈ creds /\ composite_of bearer header = Some composite /\
    cred <> composite /\ sha256_hex cred = sha256_hex composite.
Definition operator : Principal.t := Principal.mk ADMIN_TOKENS_PRINCIPAL_ID None [] None.

(** One of the two carriers of the request holds the operator token. *)
Definition presents_operator (app : App) (bearer header : option string) : Prop :=
  exists gov carrier, governance app = Some gov /\ (bearer = Some carrier \/ header = Some carrier) /\
    admin_token_hash gov = Some (sha256_hex carrier).

Lemma admin_tokens_identify (app : App) bearer header p :
  authenticate_admin_tokens (governance app ≫= admin_token_hash) bearer header = Identify p ->
  p = operator /\ presents_operator app bearer header.
Proof.
  unfold authenticate_admin_tokens, presents_operator. destruct (governance app) as [gov|]; cbn; [|done].
  destruct (admin_token_hash gov) as [hash|] eqn:Eh; [|done].
  assert (forall c, constant_time_eq (sha256_hex c) hash = true -> hash = sha256_hex c) as Hc
    by (intros c Hc; by apply constant_time_eq_spec in Hc).
  destruct bearer as [b|], header as [h|]; try done.
  - destruct (constant_time_eq (sha256_hex b) hash) eqn:Eb; [intros Hi|destruct (constant_time_eq (sha256_hex h) hash) eqn:E; [intros Hi|done]].
    + destruct (constant_time_eq (sha256_hex h) hash); injection Hi as <-; (split; [done|]);
        exists gov, b; rewrite Eh, (Hc b Eb); auto.
    + injection Hi as <-. split; [done|]. exists gov, h. rewrite Eh, (Hc h E). auto.
  - destruct (constant_time_eq (sha256_hex b) hash) eqn:E; [|done]. intros [= <-]. split; [done|].
    exists gov, b. rewrite Eh, (Hc b E). auto.
  - destruct (constant_time_eq (sha256_hex h) hash) eqn:E; [|done]. intros [= <-]. split; [done|].
    exists gov, h. rewrite Eh, (Hc h E). auto.
Qed.

Lemma admin_consult_identify (app : App) name bearer header now c c' p :
  Forall (fun cred => all_chars visible_ascii cred = true) creds ->
  visible_verdicts c -> admin_consult app name bearer header now c = (c', Identify p) ->
  collides bearer header \/ name = ADMIN_TOKENS /\ p = operator /\ presents_operator app bearer header.
Proof.
  intros Hvis Hv. unfold admin_consult. destruct (String.eqb_spec name ADMIN_TOKENS) as [->|].
  - intros [= _ Hi]. right. split; [done|by apply admin_tokens_identify].
  - destruct (composite_of bearer header) as [cred|] eqn:Ec; [|done]. unfold get.
    destruct (CredentialCache.entries c !! (name, sha256_hex cred)) as [e|] eqn:Ee; [|done].
    destruct (now <? Entry.expires_at e); [|done]. intros [= _ Hi].
    destruct (Entry.verdict e) as [q|] eqn:Eq; [|done].
    destruct (Hv name (sha256_hex cred) e q Ee Eq) as (cred' & Hh & Hc'). left. exists cred', cred. split; [done|].
    split; [done|]. split; [|done]. intros ->. rewrite Forall_forall in Hvis. specialize (Hvis _ Hc').
    by rewrite (composite_not_visible _ _ _ Ec) in Hvis.
Qed.

Lemma admin_modules_identify (app : App) chain bearer header now c c' name p cap :
  Forall (fun cred => all_chars visible_ascii cred = true) creds ->
  visible_verdicts c -> admin_modules app chain bearer header now c = (c', (Identified name p, cap)) ->
  collides bearer header \/ (ADMIN_TOKENS ∈ chain /\ name = ADMIN_TOKENS /\ p = operator /\ cap = None /\
    presents_operator app bearer header).
Proof.
  intros Hvis. revert c. induction chain as [|m chain IH]; intros c Hv; cbn [admin_modules]; [done|].
  pose proof (admin_consult_visible app m bearer header now c Hv) as Hv1.
  destruct (admin_consult app m bearer header now c) as [c1 [q| |]] eqn:E; [|done|].
  - intros [= <- <- <- <-]. apply admin_consult_identify in E as [?|(-> & -> & Hp)]; [by left| |done|done]. right.
    split; [by left|]. done.
  - intros Hm. destruct (IH c1 Hv1 Hm) as [?|(Hin & ?)]; [by left|]. right. split; [by right|done].
Qed.

End Vouched.

Lemma visible_mono creds creds' c : creds ⊆ creds' -> visible_verdicts creds c -> visible_verdicts creds' c.
Proof. intros Hs Hv m h e p He Hp. destruct (Hv m h e p He Hp) as (cred & ? & ?). exists cred. auto. Qed.

(** ** Histories: requests under any configuration, flushes, dry runs, and other writers of the limiter
    and of the log.  The list holds the client tokens of the requests. *)
Definition presented (req : HttpRequest.t) : list string := option_list (extract_client_token req).

Inductive reached : list string -> Door -> Prop :=
  | reached_boot l lg k : reached [] (mk_door CredentialCache.new l lg k)
  | reached_request (app : App) req body t creds d :
      reached creds d -> reached (presented req ++ creds) (auth_middleware app req body t d).1
  | reached_flush m creds d : reached creds d -> reached creds (set_cache (flush_module m (cache d)).1 d)
  | reached_flush_all creds d : reached creds d -> reached creds (set_cache (flush_all (cache d)).1 d)
  | reached_dry_run (app : App) b h now creds d :
      reached creds d -> reached creds (set_cache (dry_run_admin_scope app b h now (cache d)).1 d)
  | reached_other l lg k creds d : reached creds d -> reached creds (mk_door (cache d) l lg k).

Lemma record_cache action resource outcome principal now (d : Door) :
  cache (record action resource outcome principal now d) = cache d.
Proof. unfold record. by destruct (record_by _ _ _ _ _ _ _). Qed.

Lemma admin_plane_visible creds (app : App) req t token d :
  visible_verdicts creds (cache d) -> visible_verdicts creds (cache (admin_plane app req t token d).1).
Proof.
  intros Hv. unfold admin_plane.
  pose proof (admin_chain_visible creds app (bearer_of req) (extract_admin_header_token req) (Readings.admin_at t) _ Hv) as Hc.
  destruct (run_admin_chain _ _ _ _ _) as [c [verdict cap]]. cbn [fst] in Hc.
  destruct (identified verdict) as [[m p]|]; [|done]. destruct (negb _); [by cbn; rewrite record_cache|].
  destruct (if mutates _ then _ else _) as [l within]. destruct (negb within); [by cbn; rewrite record_cache|done].
Qed.

Lemma data_chain_visible creds (app : App) req c now :
  visible_verdicts creds c ->
  exists c' v, run_chain_cached (auth_chain app) (extract_client_token req) (Some c) now = (Some c', v) /\
    visible_verdicts (presented req ++ creds) c'.
Proof.
  intros Hv. apply chain_visible.
  - intros cred E. unfold presented. rewrite E. by left.
  - eapply visible_mono; [|exact Hv]. intros x Hx. apply elem_of_app. by right.
Qed.

Lemma middleware_visible creds (app : App) req body t d :
  visible_verdicts creds (cache d) -> visible_verdicts (presented req ++ creds) (cache (auth_middleware app req body t d).1).
Proof.
  intros Hv. unfold auth_middleware. destruct (String.eqb _ HEALTHZ_PATH).
  { eapply visible_mono; [|exact Hv]. intros x Hx. apply elem_of_app. by right. }
  destruct (data_chain_visible creds app req (cache d) (Readings.chain_at t) Hv) as (c & v & -> & Hc).
  destruct (_ || _); [by apply admin_plane_visible|].
  destruct (governance app) as [gov|]; [destruct (admin_token_hash gov)|]; done.
Qed.

Lemma presented_visible req : Forall (fun cred => all_chars visible_ascii cred = true) (presented req).
Proof.
  unfold presented. destruct (extract_client_token req) as [t|] eqn:E; [|constructor].
  constructor; [by eapply client_token_visible|constructor].
Qed.

Lemma reached_visible creds d :
  reached creds d -> visible_verdicts creds (cache d) /\ Forall (fun cred => all_chars visible_ascii cred = true) creds.
Proof.
  induction 1 as [l lg k|app req body t creds d _ [IH Hf]|m creds d _ [IH Hf]|creds d _ [IH Hf]|app b h now creds d _ [IH Hf]|
    l lg k creds d _ [IH Hf]]; (split; [|try done]); cbn.
  - intros m h e p. cbn. by rewrite lookup_empty.
  - by apply middleware_visible.
  - apply Forall_app. split; [apply presented_visible|done].
  - eapply visible_subseteq; [|exact IH]. apply map_filter_subseteq.
  - intros m h e p. cbn. by rewrite lookup_empty.
  - unfold dry_run_admin_scope. pose proof (admin_chain_visible creds app b h now _ IH) as Hc.
    by destruct (run_admin_chain _ _ _ _ _) as [c [v cap]].
  - done.
Qed.

Definition admin_path (path : string) : Prop := path = ADMIN_PATH \/ starts_with path ADMIN_PATH_PREFIX = true.

Lemma middleware_admin creds (app : App) req body t d :
  admin_path (HttpRequest.path req) -> visible_verdicts creds (cache d) ->
  exists d', visible_verdicts (presented req ++ creds) (cache d') /\ limiter d' = limiter d /\ log d' = log d /\ sink d' = sink d /\
    auth_middleware app req body t d = admin_plane app req t (extract_client_token req) d'.
Proof.
  intros Hp Hv. unfold auth_middleware.
  destruct (String.eqb_spec (HttpRequest.path req) HEALTHZ_PATH) as [E|_].
  { exfalso. rewrite E in Hp. by destruct Hp. }
  destruct (data_chain_visible creds app req (cache d) (Readings.chain_at t) Hv) as (c & v & -> & Hc).
  assert (String.eqb (HttpRequest.path req) ADMIN_PATH || starts_with (HttpRequest.path req) ADMIN_PATH_PREFIX = true) as ->.
  { destruct Hp as [->| ->]; [done|by rewrite orb_true_r]. }
  by exists (set_cache c d).
Qed.

(** C3.  Whatever requests came before, under whatever configurations, a request on the administration
    plane that reaches its handler through a configured chain was identified as the operator: the chain
    names the operator module and one of the two carriers hashes to the configured digest; it holds
    full scope and no key, and a mutation was within the limiter.  Nothing a data-plane credential
    leaves in the shared verdict cache opens it, unless the digest of a client token presented so far is
    that of the different text composed of this request's two carriers. *)
Theorem only_operator_token_administers (app : App) req body t creds d d' ext :
  reached creds d -> admin_path (HttpRequest.path req) -> admin_chain app <> [] ->
  auth_middleware app req body t d = (d', Next ext) ->
  collides (presented req ++ creds) (bearer_of req) (extract_admin_header_token req) \/
  ADMIN_TOKENS ∈ admin_chain app /\ presents_operator app (bearer_of req) (extract_admin_header_token req) /\
  ext = Extensions.mk (Some (extract_client_token req)) (Some (Some operator)) (Some (Some Full)) (Some None) /\
  (mutates (HttpRequest.method req) = true ->
   (check ADMIN_TOKENS_PRINCIPAL_ID (mutation_class (HttpRequest.path req)) (Readings.limiter_at t) (limiter d)).2 = true).
Proof.
  intros [Hr Hvis]%reached_visible Hp Hne.
  destruct (middleware_admin creds app req body t d Hp Hr) as (d1 & Hv & El & _ & _ & ->).
  assert (Forall (fun cred => all_chars visible_ascii cred = true) (presented req ++ creds)) as Hvis'
    by (apply Forall_app; split; [apply presented_visible|done]).
  unfold admin_plane, run_admin_chain. destruct (admin_chain app) as [|m chain] eqn:Ec; [done|].
  destruct (admin_modules _ _ _ _ _ _) as [c [verdict cap]] eqn:Em.
  destruct verdict as [|name p|]; cbn [identified]; [|destruct (admin_modules_identify _ _ _ _ _ _ _ _ _ _ _ Hvis' Hv Em) as [?|(Hin & -> & -> & -> & Hpres)]; [by left|]|done].
  { exfalso. revert Em. generalize (cache d1). generalize (m :: chain). intros l.
    induction l as [|x l IH]; intros c0; cbn [admin_modules]; [done|]. destruct (admin_consult _ _ _ _ _ _) as [? []]; [done..|apply IH]. }
  change (admin_scope_for (Some ADMIN_TOKENS) (Some operator) (role_bindings app)) with (Some Full).
  cbn [cap_scope]. change (actor (Some operator)) with ADMIN_TOKENS_PRINCIPAL_ID.
  assert (forall r, allows Full r = true) as Hall by (by intros []). rewrite Hall. cbn [negb].
  destruct (mutates (HttpRequest.method req)) eqn:Emu.
  - cbn [limiter set_cache]. rewrite El.
    destruct (check _ _ _ _) as [l within]. destruct within; [|done]. cbn. intros [= _ <-]. by right.
  - cbn. intros [= _ <-]. right. split_and!; done.
Qed.

(** ** Governed requests *)

(** What a request shows to be served as [key]: the signature of an AWS credential of that key over this request
    within the clock skew; a signed token of it, unexpired and of a subject that is not revoked; its secret,
    which is looked up by digest, revoked or not; or a principal whose roles the identifying module's own table
    binds to the grants of the key. *)
Inductive proves (app : App) (gov : @GovKeys S _) (req : HttpRequest.t) (body : option string) (t : Readings.t)
    (c : CredentialCache.t) (key : VirtualKey.t) : Prop :=
  | by_signature b v entry epoch :
      proto_for_path (HttpRequest.path req) = PROTO_BEDROCK -> body = Some b -> signing_view req = Some v ->
      by_access_key_id gov !! ParsedAuthHeader.access_key_id (SigView.parsed v) = Some entry ->
      AwsKeyEntry.key entry = key -> parse_amz_date (SigView.amzdate v) = Some epoch ->
      Z.abs (epoch - Readings.sigv4_at t) <= CLOCK_SKEW_SECS ->
      sha256_hex b = to_ascii_lowercase (SigView.payload_hash v) ->
      hex_encode (view_mac entry req v) = ParsedAuthHeader.signature (SigView.parsed v) ->
      proves app gov req body t c key
  | by_signed_token token v claims :
      extract_client_token req = Some token -> verifier gov = Some v ->
      token_valid v token (Readings.token_at t) claims -> TokenClaims.sub claims ∉ denylist gov ->
      VirtualKey.id key = TokenClaims.sub claims -> (exists hash, by_hash gov !! hash = Some key) ->
      proves app gov req body t c key
  | by_secret token :
      extract_client_token req = Some token -> token <> "" -> by_hash gov !! sha256_hex token = Some key ->
      proves app gov req body t c key
  | by_role module p c' table :
      run_chain_cached (auth_chain app) (extract_client_token req) (Some c) (Readings.chain_at t) = (c', Identified module p) ->
      role_bindings app !! module = Some table -> VirtualKey.id key = Principal.id p ->
      (forall pool, VirtualKey.pool_allowed key pool = true <-> granted table (Principal.roles p) pool) ->
      proves app gov req body t c key.

Lemma lookup_by_sub_elem (gov : @GovKeys S _) sub key :
  lookup_by_sub gov sub = Some key -> VirtualKey.id key = sub /\ exists hash, by_hash gov !! hash = Some key.
Proof.
  unfold lookup_by_sub. intros [Hin Hid]%List.find_some. apply String.eqb_eq in Hid. split; [done|].
  apply list_elem_of_In, list_elem_of_fmap in Hin as ([h k] & -> & Hin). apply elem_of_map_to_list in Hin. by exists h.
Qed.

Lemma synthesized_enabled p table key : synthesize_principal_key p table = Some key -> VirtualKey.enabled key = true.
Proof.
  unfold synthesize_principal_key. destruct (_ || _); [done|]. destruct table as [table|]; [|done].
  destruct (omap _ _) as [|b bs]; [done|]. destruct (union_grants _) as [pools all]. destruct all; [by intros [= <-]|].
  destruct pools; [done|by intros [= <-]].
Qed.

Lemma principal_key_Some (app : App) v key :
  principal_key app v = Some key ->
  exists module p, v = Identified module p /\ Principal.roles p <> [] /\
    synthesize_principal_key p (role_bindings app !! module) = Some key.
Proof.
  unfold principal_key. destruct v as [|m p|]; [done| |done]. destruct (Principal.roles p) as [|r rs] eqn:Er; [done|].
  intros Hs. exists m, p. by rewrite Er.
Qed.

(** A pass with an enabled key that the request proves, or the refusal of the path. *)
Definition proved_or_refused (app : App) gov req body t c (a : Answer) : Prop :=
  match a with
  | Next ext => exists key, Extensions.gov_ctx ext = Some (Some key) /\ VirtualKey.enabled key = true /\
      proves app gov req body t c key
  | a => a = unauthorized_response (HttpRequest.path req)
  end.

Lemma refusal_ok (app : App) gov req body t c :
  proved_or_refused app gov req body t c (unauthorized_response (HttpRequest.path req)).
Proof.
  unfold proved_or_refused. destruct (unauthorized_response _) eqn:E; try done.
  revert E. unfold unauthorized_response. by destruct (auth_failure_status_and_kind _).
Qed.

Lemma rekeyed_ok (app : App) gov req body t c c' verdict :
  run_chain_cached (auth_chain app) (extract_client_token req) (Some c) (Readings.chain_at t) = (c', verdict) ->
  proved_or_refused app gov req body t c
    match principal_key app verdict, verdict with
    | Some key, Identified _ p =>
        Next (Extensions.mk (Some (extract_client_token req)) (Some (Some p)) None (Some (Some key)))
    | _, _ => unauthorized_response (HttpRequest.path req)
    end.
Proof.
  intros Hv. destruct (principal_key app verdict) as [key|] eqn:Ek; [|apply refusal_ok].
  apply principal_key_Some in Ek as (m & p & -> & Hr & Hs). exists key.
  split; [done|]. split; [by eapply synthesized_enabled|].
  pose proof (principal_key_grants_union p (role_bindings app !! m)) as Hg. cbv zeta in Hg. rewrite Hs in Hg.
  destruct Hg as (table & Ht & Hid & Hpools & _). by eapply by_role.
Qed.

Lemma governed_ok (app : App) gov req body t c c' verdict :
  run_chain_cached (auth_chain app) (extract_client_token req) (Some c) (Readings.chain_at t) = (c', verdict) ->
  proved_or_refused app gov req body t c (governed app gov req body t (extract_client_token req) verdict).
Proof.
  intros Hv. unfold governed. destruct (_ && _) eqn:Es.
  - apply andb_true_iff in Es as [Es%String.eqb_eq _]. destruct body as [b|]; [|apply refusal_ok].
    destruct (verify_bedrock_sigv4 _ _ _ _) as [key|] eqn:Ek; [|apply refusal_ok].
    destruct (verify_bedrock_accepted _ _ _ _ _ Ek) as (v & entry & epoch & Hsv & Hl & Hkey & Hen & Hdate & Hskew & Hsha & _ & Hmac).
    exists key. split; [done|]. split; [done|]. by eapply by_signature.
  - destruct (nonblank (extract_client_token req)) as [token|] eqn:Et; [|apply refusal_ok].
    pose proof (nonblank_Some _ _ Et) as Etok.
    destruct (first_some _ _) as [key|] eqn:Ek; [|by eapply rekeyed_ok].
    destruct (VirtualKey.enabled key) eqn:Een; [|by eapply rekeyed_ok].
    exists key. split; [done|]. split; [done|]. revert Ek. unfold first_some.
    destruct (verify_token gov token (Readings.token_at t)) as [k|] eqn:Ev; [intros [= ->]|intros Ek].
    + apply verify_token_inv in Ev as (v & claims & Hv' & Hc & Hd & Hl & _). apply verify_Verified in Hc.
      apply lookup_by_sub_elem in Hl as [Hid Hh]. by eapply by_signed_token.
    + eapply by_secret; [done| |done]. intros ->. by rewrite Etok in Et.
Qed.

(** C8.  Once an operator token is configured, a data-plane request passes only as an enabled key it proves: it
    is signed, within the clock skew, with the secret of an AWS credential of that key; or carries a signed
    token of the key that is authentic, unexpired and not revoked; or its secret; or was identified by a
    module whose own role bindings grant exactly the pools the key allows (a role of one module never uses
    the bindings of another).  Every other request gets the one refusal of its path, whatever was wrong
    with it.  Revocation counts on the token path only: the AWS credential and the secret of a revoked
    key pass ([revoked_key_still_signs]). *)
Theorem governed_requests_prove_their_key (app : App) gov req body t d :
  governance app = Some gov -> admin_token_hash gov <> None ->
  HttpRequest.path req <> HEALTHZ_PATH -> ~ admin_path (HttpRequest.path req) ->
  proved_or_refused app gov req body t (cache d) (auth_middleware app req body t d).2.
Proof.
  intros Hg Ht Hz Ha. unfold auth_middleware. destruct (String.eqb_spec (HttpRequest.path req) HEALTHZ_PATH); [done|].
  assert (String.eqb (HttpRequest.path req) ADMIN_PATH || starts_with (HttpRequest.path req) ADMIN_PATH_PREFIX = false) as ->.
  { apply orb_false_iff. split; apply not_true_iff_false; intros E; apply Ha; [left; by apply String.eqb_eq|by right]. }
  destruct (run_chain_cached _ _ _ _) as [c verdict] eqn:Ev. rewrite Hg. destruct (admin_token_hash gov); [|done].
  exact (governed_ok app gov req body t (cache d) c verdict Ev).
Qed.

(** What the administration plane refuses is logged, by the scope or the limit that refused it. *)
Lemma catch_up_entries seqs l (k : A) : AuditLog.entries (catch_up seqs l k).1 = AuditLog.entries l.
Proof.
  revert l k. induction seqs as [|q seqs IH]; intros l k; cbn [catch_up]; [done|].
  destruct (find _ _) as [e|]; [|apply IH]. destruct (append_audit k e) as [k' []]; [|done]. by rewrite IH.
Qed.

Lemma record_logged action resource outcome principal now (d : Door) :
  exists e, last (AuditLog.entries (log (record action resource outcome principal now d))) = Some e /\
    AuditEntry.action e = action /\ AuditEntry.resource e = resource /\ AuditEntry.outcome e = outcome /\
    AuditEntry.principal e = principal.
Proof.
  unfold record, record_by. destruct (append_entry _ _ _ _ _ _) as [l e] eqn:Ea.
  assert (last (AuditLog.entries l) = Some e /\ AuditEntry.action e = action /\ AuditEntry.resource e = resource /\
    AuditEntry.outcome e = outcome /\ AuditEntry.principal e = principal) as (Hl & He).
  { revert Ea. unfold append_entry. cbn zeta. intros [= <- <-]. cbn [AuditLog.entries]. by rewrite last_snoc. }
  exists e. split; [|done]. destruct (AuditLog.sink l); [|done].
  pose proof (catch_up_entries (seqZ (AuditLog.durable_high l + 1) (AuditEntry.seq e + 1 - (AuditLog.durable_high l + 1)))
    l (sink d)) as Hc.
  unfold durable_write_through. by destruct (catch_up _ _ _) as [l' k']; cbn in *; rewrite Hc.
Qed.

Theorem admin_denials_are_logged (app : App) req t token d :
  let '(d', a) := admin_plane app req t token d in
  match a with
  | Forbidden needed => needed = required_scope (HttpRequest.method req) (HttpRequest.path req) /\
      exists e, last (AuditLog.entries (log d')) = Some e /\ AuditEntry.action e = "admin.forbidden" /\
        AuditEntry.resource e = HttpRequest.path req
  | RateLimited => mutates (HttpRequest.method req) = true /\
      exists e, last (AuditLog.entries (log d')) = Some e /\ AuditEntry.action e = "admin.rate_limited" /\
        (check (AuditEntry.principal e) (mutation_class (HttpRequest.path req)) (Readings.limiter_at t) (limiter d)).2 = false
  | Next _ | AdminUnauthorized => log d' = log d
  | Unauthorized _ _ _ _ => False
  end.
Proof.
  unfold admin_plane. destruct (run_admin_chain _ _ _ _ _) as [c [verdict cap]].
  destruct (identified verdict) as [[m p]|]; [|done]. destruct (negb _).
  { split; [done|]. edestruct record_logged as (e & Hl & Ha & Hr & _). by exists e. }
  cbn [limiter set_cache]. destruct (mutates (HttpRequest.method req)); [|done].
  destruct (check _ _ _ _) as [l within] eqn:Ec. destruct within; [done|]. split; [done|].
  edestruct record_logged as (e & Hl & Ha & _ & _ & Hp). exists e. rewrite Hp, Ec. by split_and!.
Qed.
End Door.

(** ** A gateway with an operator token, and the credential of [Sigv4Lane] *)
#[local] Existing Instances SigDemo.sig_digest SigDemo.sig_crypto.
#[local] Existing Instance FlakyAudit.flaky_audit.

Module DoorDemo.
Definition gov : @GovKeys FaultyDb.t KeysProps.Demo.crypto :=
  mk_gov (store SigDemo.gov) ∅ (by_access_key_id SigDemo.gov) (Some (sha256_hex "root")) None None ∅.
Definition app : @App FaultyDb.t KeysProps.Demo.crypto := mk_app (Some gov) [] [ADMIN_TOKENS] ∅ ∅.
Definition door : @Door FlakyAudit.t :=
  mk_door CredentialCache.new MutationLimiter.new AuditLog.new (FlakyAudit.mk ∅ []).
Definition at_demo : Readings.t := Readings.mk 1 1 1 1 1 1440938400 1.
Definition mint : HttpRequest.t :=
  HttpRequest.mk "POST" "/api/v1/admin/keys" None [("authorization", "Bearer root"); ("x-api-key", "sk")].
End DoorDemo.

Lemma only_operator_token_administers_witness :
  exists ext,
    (auth_middleware DoorDemo.app DoorDemo.mint None DoorDemo.at_demo DoorDemo.door).2 = Next ext /\
    presents_operator DoorDemo.app (bearer_of DoorDemo.mint) (extract_admin_header_token DoorDemo.mint) /\
    Extensions.admin_scope ext = Some (Some Full).
Proof.
  assert (exists d' ext, auth_middleware DoorDemo.app DoorDemo.mint None DoorDemo.at_demo DoorDemo.door = (d', Next ext))
    as (d' & ext & E) by (eexists _, _; vm_compute; reflexivity).
  destruct (only_operator_token_administers DoorDemo.app DoorDemo.mint None DoorDemo.at_demo [] DoorDemo.door d' ext)
    as [Hc|(_ & Hp & -> & _)].
  - apply reached_boot.
  - right. reflexivity.
  - discriminate.
  - exact E.
  - exfalso. destruct Hc as (cred & composite & Hin & Hcomp & _ & Hh). vm_compute in Hcomp. injection Hcomp as <-.
    assert (presented DoorDemo.mint ++ [] = ["root"]) as Ep by (vm_compute; reflexivity). rewrite Ep in Hin.
    apply elem_of_cons in Hin as [->|Hin]; [|by apply not_elem_of_nil in Hin]. vm_compute in Hh. discriminate Hh.
  - eexists. rewrite E. by split_and!.
Defined.

Lemma governed_requests_prove_their_key_witness :
  exists ext, (auth_middleware DoorDemo.app (SigDemo.request "curl") (Some "{}") DoorDemo.at_demo DoorDemo.door).2 = Next ext /\
    Extensions.gov_ctx ext = Some (Some SigDemo.vkey).
Proof.
  pose proof (governed_requests_prove_their_key DoorDemo.app DoorDemo.gov (SigDemo.request "curl") (Some "{}")
    DoorDemo.at_demo DoorDemo.door eq_refl) as Hk.
  assert (exists ext, (auth_middleware DoorDemo.app (SigDemo.request "curl") (Some "{}") DoorDemo.at_demo DoorDemo.door).2 = Next ext
    /\ Extensions.gov_ctx ext = Some (Some SigDemo.vkey)) as (ext & E & Eg) by (eexists; split; vm_compute; reflexivity).
  rewrite E in Hk. destruct Hk as (key & Hg & _).
  - discriminate.
  - discriminate.
  - intros [Hp|Hp]; [discriminate Hp|by vm_compute in Hp].
  - exists ext. split; [exact E|]. rewrite Hg in Eg. by rewrite Hg, Eg.
Defined.

(** Revocation reaches tokens only: a revoked key keeps signing requests with its AWS credential. *)
Example revoked_key_still_signs :
  exists g, revoke "vk_1" "leaked" SigDemo.gov = Some (g, Ok tt) /\ is_revoked g (VirtualKey.id SigDemo.vkey) = true /\
    verify_bedrock_sigv4 g (SigDemo.request "curl") "{}" 1440938400 = Some SigDemo.vkey.
Proof. eexists. split; [reflexivity|]. split; vm_compute; reflexivity. Qed.

(** A ceiling of [hooks-register] turns a role bound to [mint], which may not register hooks, into one
    that may: the ordinal minimum of two incomparable scopes is the other one. *)
Example ceiling_confers_hooks :
  let idp := mk_app None [] ["idp"] {["idp" := "hooks-register"]}
    {["idp" := [("portal", RoleBindingCfg.mk None None (Some "mint"))]]} : @App FaultyDb.t KeysProps.Demo.crypto in
  let granted := admin_scope_for (Some "idp") (Some (Principal.mk "u" None ["portal"] None)) (role_bindings idp) in
  granted = Some Mint /\ allows Mint HooksRegister = false /\
  cap_scope granted (module_admin_scope_cap idp "idp") = Some HooksRegister /\ allows HooksRegister HooksRegister = true.
Proof. vm_compute. auto. Qed.

(** Away from that pair the ceiling is the meet of the lattice. *)
Lemma ceiling_is_meet s c needed :
  ~ (s = Mint /\ c = HooksRegister) -> ~ (s = HooksRegister /\ c = Mint) ->
  allows (scope_min s c) needed = allows s needed && allows c needed.
Proof. intros H1 H2. destruct s, c; try (exfalso; naive_solver); by destruct needed. Qed.
