(* ===== verification/NetGuard.v ===== *)
(** * Outbound addresses (crates/busbar/src/net_guard.rs, config_validate/mod.rs)

    The guard that keeps credential-bearing traffic away from cloud metadata services: the host a URL
    connects to ([extract_normalized_host]), the address forms a resolver accepts
    ([expand_alternate_ipv4]), and the denylist with its overrides ([ssrf_blocked_host]).  Address
    parsing and the address classes of [std::net] are written out.  An IPv4 address is its 32-bit
    number, an IPv6 address the list of its eight segments. *)
From stdpp Require Import base list strings.
From Stdlib Require Import ZArith Lia Ascii.
From S2P Require Import Prelude Signing Sigv4 Json.
Open Scope Z_scope.

(** ** [std::net]: IPv4 *)
Definition octet (i : Z) (a : Z) : Z := Z.land (Z.shiftr a (8 * (3 - i))) 255.
Definition ipv4 (a b c d : Z) : Z := ((a * 256 + b) * 256 + c) * 256 + d.

Definition is_loopback (a : Z) : bool := octet 0 a =? 127.
Definition is_private (a : Z) : bool :=
  (octet 0 a =? 10) || (octet 0 a =? 172) && (Z.land (octet 1 a) 240 =? 16) ||
  (octet 0 a =? 192) && (octet 1 a =? 168).
Definition is_link_local (a : Z) : bool := (octet 0 a =? 169) && (octet 1 a =? 254).
Definition is_unspecified (a : Z) : bool := a =? 0.

(** [char::to_digit]. *)
Definition to_digit (radix : Z) (c : ascii) : option Z :=
  let b := code c in
  let d := if ascii_digit b then b - 48 else if ascii_lower b then b - 87 else if ascii_upper b then b - 55 else 36 in
  if d <? radix then Some d else None.

(** The parser of [core::net::parser]: a read consumes a prefix or fails. *)
Definition Read (X : Type) : Type := string -> option (X * string).

Definition read_given_char (c : ascii) : Read unit := fun s =>
  match s with String a s => if Ascii.eqb a c then Some (tt, s) else None | EmptyString => None end.

(** The digits of a number: value and count. *)
Fixpoint read_digits (radix : Z) (value : Z) (count : nat) (s : string) : Z * nat * string :=
  match s with
  | EmptyString => (value, count, s)
  | String c s' =>
      match to_digit radix c with
      | Some d => read_digits radix (value * radix + d) (S count) s'
      | None => (value, count, s)
      end
  end.

(** [read_number] with a bound on the digits, for a type with maximum [top]. *)
Definition read_number (radix : Z) (max_digits : nat) (allow_zero_prefix : bool) (top : Z) : Read Z := fun s =>
  let '(value, count, rest) := read_digits radix 0 0 s in
  let leading_zero := match s with String c _ => Ascii.eqb c "0" | EmptyString => false end in
  if (max_digits <? count)%nat then None
  else if (count =? 0)%nat then None
  else if negb allow_zero_prefix && leading_zero && (1 <? count)%nat then None
  else if value <=? top then Some (value, rest) else None.

(** [read_separator]: every item but the first follows a separator. *)
Definition read_separator {X} (sep : ascii) (index : nat) (inner : Read X) : Read X := fun s =>
  match index with
  | O => inner s
  | S _ => match read_given_char sep s with Some (_, s) => inner s | None => None end
  end.

Definition read_octet (index : nat) : Read Z := read_separator "." index (read_number 10 3 false 255).

Definition read_ipv4_addr : Read Z := fun s =>
  match read_octet 0 s with None => None | Some (a, s) =>
  match read_octet 1 s with None => None | Some (b, s) =>
  match read_octet 2 s with None => None | Some (c, s) =>
  match read_octet 3 s with None => None | Some (d, s) => Some (ipv4 a b c d, s) end end end end.

(** [FromStr]: the whole text; an IPv4 literal has at most fifteen characters. *)
Definition whole {X} (r : Read X) (s : string) : option X :=
  match r s with Some (x, EmptyString) => Some x | _ => None end.
Definition parse_ipv4 (s : string) : option Z := if (15 <? String.length s)%nat then None else whole read_ipv4_addr s.

(** ** [std::net]: IPv6 *)
Definition halves (a : Z) : list Z := [Z.shiftr a 16; Z.land a 65535].

(** [read_groups] into [limit] slots: the groups read, and whether an IPv4 tail ended them. *)
Fixpoint read_groups (limit i : nat) (s : string) : list Z * bool * string :=
  match limit with
  | O => ([], false, s)
  | S limit' =>
      match (match limit' with O => None | S _ => read_separator ":" i read_ipv4_addr s end) with
      | Some (v4, s) => (halves v4, true, s)
      | None =>
          match read_separator ":" i (read_number 16 4 true 65535) s with
          | Some (g, s) => let '(gs, v, s) := read_groups limit' (S i) s in (g :: gs, v, s)
          | None => ([], false, s)
          end
      end
  end.

Definition read_ipv6_addr : Read (list Z) := fun s =>
  let '(head, head_ipv4, s) := read_groups 8 0 s in
  if (length head =? 8)%nat then Some (head, s)
  else if head_ipv4 then None
  else
    match read_given_char ":" s with None => None | Some (_, s) =>
    match read_given_char ":" s with None => None | Some (_, s) =>
      let '(tail, _, s) := read_groups (8 - (length head + 1)) 0 s in
      Some (head ++ replicate (8 - length head - length tail) 0 ++ tail, s)
    end end.

Definition parse_ipv6 (s : string) : option (list Z) := whole read_ipv6_addr s.

(** [Ipv6Addr::to_ipv4]: mapped and compatible addresses. *)
Definition to_ipv4 (v6 : list Z) : option Z :=
  match v6 with
  | [0; 0; 0; 0; 0; m; ab; cd] => if (m =? 0) || (m =? 65535) then Some (ab * 65536 + cd) else None
  | _ => None
  end.

Definition segment0 (v6 : list Z) : Z := default 0 (head v6).
Definition is_loopback_v6 (v6 : list Z) : bool := bool_decide (v6 = [0; 0; 0; 0; 0; 0; 0; 1]).
Definition is_unspecified_v6 (v6 : list Z) : bool := bool_decide (v6 = [0; 0; 0; 0; 0; 0; 0; 0]).

(** ** The shared predicates (net_guard.rs) *)
Definition is_unique_local_v6 (v6 : list Z) : bool := Z.land (segment0 v6) 65024 =? 64512.
Definition is_link_local_v6 (v6 : list Z) : bool := Z.land (segment0 v6) 65472 =? 65152.
Definition is_cgnat_shared_v4 (a : Z) : bool := (octet 0 a =? 100) && (Z.land (octet 1 a) 192 =? 64).

Definition ascii_hexdigit (b : Z) : bool :=
  ascii_digit b || (97 <=? b) && (b <=? 102) || (65 <=? b) && (b <=? 70).
Definition nonempty_all (p : Z -> bool) (s : string) : bool := negb (String.eqb s "") && all_chars p s.

(** [strip_prefix("0x").or_else(|| strip_prefix("0X"))]. *)
Definition strip_0x (s : string) : option string :=
  match strip_prefix "0x" s with Some h => Some h | None => strip_prefix "0X" s end.

Definition octal_prefix (p : string) : bool := (1 <? String.length p)%nat && starts_with p "0".

Definition is_alternate_ipv4_encoding (host : string) : bool :=
  if String.eqb host "" then false
  else if contains_char "." host then
    let parts := split "." host in
    if negb (forallb (fun p => match strip_0x p with
                               | Some hex => nonempty_all ascii_hexdigit hex
                               | None => nonempty_all ascii_digit p
                               end) parts) then false
    else if (length parts <? 4)%nat then true
    else existsb (fun p => starts_with p "0x" || starts_with p "0X" || octal_prefix p && all_chars ascii_digit p) parts
  else
    match strip_0x host with
    | Some hex => nonempty_all ascii_hexdigit hex
    | None => all_chars ascii_digit host
    end.

(** ** Alternate spellings of an IPv4 address *)

(** [u64::from_str_radix] of digits of the radix. *)
Fixpoint from_radix (radix : Z) (acc : Z) (s : string) : option Z :=
  match s with
  | EmptyString => Some acc
  | String c s =>
      match to_digit radix c with
      | Some d => let acc := acc * radix + d in if acc <=? U64_MAX then from_radix radix acc s else None
      | None => None
      end
  end.

Definition is_octal (b : Z) : bool := (48 <=? b) && (b <=? 55).

Definition parse_component (p : string) : option Z :=
  if String.eqb p "" then None
  else
    match strip_0x p with
    | Some hex => if String.eqb hex "" || negb (all_chars ascii_hexdigit hex) then None else from_radix 16 0 hex
    | None =>
        if octal_prefix p then (if negb (all_chars is_octal p) then None else from_radix 8 0 p)
        else if negb (all_chars ascii_digit p) then None
        else from_radix 10 0 p
    end.

Definition alternate_octet (p : string) (v : Z) : bool :=
  (255 <? v) || starts_with p "0x" || starts_with p "0X" || octal_prefix p.

(** The parts form of [inet_aton]: the last part absorbs the low bytes. *)
Definition assemble (vals : list Z) : option Z :=
  match vals with
  | [a] => if a <=? U32_MAX then Some a else None
  | [a; b] => if (255 <? a) || (16777215 <? b) then None else Some (Z.lor (Z.shiftl a 24) b)
  | [a; b; c] =>
      if (255 <? a) || (255 <? b) || (65535 <? c) then None else Some (Z.lor (Z.lor (Z.shiftl a 24) (Z.shiftl b 16)) c)
  | [a; b; c; d] =>
      if (255 <? a) || (255 <? b) || (255 <? c) || (255 <? d) then None
      else Some (Z.lor (Z.lor (Z.lor (Z.shiftl a 24) (Z.shiftl b 16)) (Z.shiftl c 8)) d)
  | _ => None
  end.

Definition expand_alternate_ipv4 (host : string) : option Z :=
  if String.eqb host "" then None
  else
    let parts := split "." host in
    match mapM parse_component parts with
    | None => None
    | Some vals =>
        if (length parts =? 4)%nat && negb (existsb (fun pv => alternate_octet pv.1 pv.2) (zip parts vals)) then None
        else
          assemble vals
    end.

(** ** The host of a URL *)
Fixpoint map_chars (f : ascii -> ascii) (s : string) : string :=
  match s with EmptyString => EmptyString | String c s => String (f c) (map_chars f s) end.

(** [split_once("://")]. *)
Fixpoint split_scheme (s : string) : option (string * string) :=
  match strip_prefix "://" s with
  | Some rest => Some (EmptyString, rest)
  | None =>
      match s with
      | EmptyString => None
      | String c s' => match split_scheme s' with Some (l, r) => Some (String c l, r) | None => None end
      end
  end.

Definition scheme_is (url scheme : string) : bool :=
  match split_scheme url with Some (s, _) => eq_ignore_ascii_case s scheme | None => false end.

Definition strip_scheme (url : string) : option string :=
  match split_scheme url with
  | Some (scheme, rest) =>
      if eq_ignore_ascii_case scheme "https" || eq_ignore_ascii_case scheme "http" then Some rest else None
  | None => None
  end.

(** Up to the first character of a set: the first piece of a [split]. *)
Fixpoint take_until (p : ascii -> bool) (s : string) : string :=
  match s with EmptyString => EmptyString | String c s => if p c then EmptyString else String c (take_until p s) end.

(** [rsplit_once]. *)
Fixpoint rsplit_once (c : ascii) (s : string) : option (string * string) :=
  match s with
  | EmptyString => None
  | String a s' =>
      match rsplit_once c s' with
      | Some (l, r) => Some (String a l, r)
      | None => if Ascii.eqb a c then Some (EmptyString, s') else None
      end
  end.

Definition backslash : ascii := ascii_of_nat 92.
Definition authority_end (c : ascii) : bool := Ascii.eqb c "/" || Ascii.eqb c "?" || Ascii.eqb c "#".

Fixpoint percent_decode (s : string) : string :=
  match s with
  | EmptyString => EmptyString
  | String c s' =>
      match s' with
      | String h (String l rest) =>
          if Ascii.eqb c "%" then
            match to_digit 16 h, to_digit 16 l with
            | Some hi, Some lo => String (char_of (hi * 16 + lo)) (percent_decode rest)
            | _, _ => String c (percent_decode s')
            end
          else String c (percent_decode s')
      | _ => String c (percent_decode s')
      end
  end.

(** [String::from_utf8] succeeds. *)
Definition is_utf8 (s : string) : bool :=
  forallb (fun c => (0 <=? c) && (c <? 55296) || (57344 <=? c) && (c <? 1114112)) (chars s) &&
  String.eqb (of_chars (chars s)) s.

Definition percent_decode_host (host : string) : string :=
  let out := percent_decode host in if is_utf8 out then out else host.

(** [strip_suffix('.')] and [trim_end_matches('.')]. *)
Fixpoint strip_dot (s : string) : option string :=
  match s with
  | EmptyString => None
  | String c EmptyString => if Ascii.eqb c "." then Some EmptyString else None
  | String c s => String c <$> strip_dot s
  end.
Fixpoint trim_dots (s : string) : string :=
  match s with
  | EmptyString => EmptyString
  | String c s => match trim_dots s with EmptyString => if Ascii.eqb c "." then EmptyString else String c EmptyString | t => String c t end
  end.

Definition host_of_authority (authority : string) : string :=
  let host_port := default authority (last (split "@" authority)) in
  match strip_prefix "[" host_port with
  | Some after_bracket => match split_once "]" after_bracket with Some (inner, _) => inner | None => after_bracket end
  | None =>
      match rsplit_once ":" host_port with
      | Some (front, _) => if contains_char ":" front then host_port else front
      | None => host_port
      end
  end.

Definition extract_normalized_host (url : string) : option string :=
  match strip_scheme url with
  | None => None
  | Some rest =>
      let rest := map_chars (fun c => if Ascii.eqb c backslash then "/"%char else c) rest in
      let host := host_of_authority (take_until authority_end rest) in
      if String.eqb host "" then None
      else let decoded := percent_decode_host host in Some (default decoded (strip_dot decoded))
  end.

Definition internal_v4 (a : Z) : bool :=
  is_loopback a || is_private a || is_link_local a || is_unspecified a || is_cgnat_shared_v4 a.

Definition host_is_private_or_loopback (host : string) : bool :=
  let host_lc := to_ascii_lowercase host in
  if String.eqb host_lc "localhost" ||
     match rsplit_once "." host_lc with Some (_, tld) => String.eqb tld "localhost" | None => false end
  then true
  else if is_alternate_ipv4_encoding host then true
  else
    match parse_ipv4 host with
    | Some v4 => internal_v4 v4
    | None =>
        match parse_ipv6 host with
        | Some v6 =>
            is_loopback_v6 v6 || is_unspecified_v6 v6 || is_unique_local_v6 v6 || is_link_local_v6 v6 ||
            match to_ipv4 v6 with Some m => internal_v4 m | None => false end
        | None => false
        end
    end.

(** ** The denylist *)
Definition entry_text (e : string) : string := trim_dots (str_trim e).

Definition host_matches_any (host : string) (entries : list string) : bool :=
  if existsb (fun e => negb (String.eqb (entry_text e) "") && eq_ignore_ascii_case (entry_text e) host) entries then true
  else
    let entry_v4 := omap (fun e => parse_ipv4 (entry_text e)) entries in
    let entry_v6 := omap (fun e => parse_ipv6 (entry_text e)) entries in
    if existsb (fun b => bool_decide (expand_alternate_ipv4 host = Some b)) entry_v4 then true
    else
      match parse_ipv4 host with
      | Some v4 => bool_decide (v4 ∈ entry_v4)
      | None =>
          match parse_ipv6 host with
          | Some v6 =>
              bool_decide (v6 ∈ entry_v6) || match to_ipv4 v6 with Some m => bool_decide (m ∈ entry_v4) | None => false end
          | None => false
          end
      end.

Definition METADATA_HOSTS : list string :=
  ["metadata.google.internal"; "metadata.internal"; "metadata.tencentyun.com"; "metadata.platformequinix.com";
   "instance-data"; "instance-data.ec2.internal"].
Definition imds_v6 : list Z := [64768; 3778; 0; 0; 0; 0; 0; 596].
Definition alibaba_v4 : Z := ipv4 100 100 100 200.
Definition azure_v4 : Z := ipv4 168 63 129 16.
Definition oci_v4 : Z := ipv4 192 0 0 192.
Definition is_metadata_v4 (a : Z) : bool := is_link_local a || (a =? alibaba_v4) || (a =? azure_v4) || (a =? oci_v4).

Definition ssrf_blocked_host (url : string) (allow_overrides : list string) (allow_all : bool)
    (extra_blocked : list string) : option string :=
  if allow_all then None
  else
    match extract_normalized_host url with
    | None => None
    | Some host =>
        if host_matches_any host allow_overrides then None
        else if existsb (String.eqb (to_ascii_lowercase host)) METADATA_HOSTS then Some host
        else if host_matches_any host extra_blocked then Some host
        else if match expand_alternate_ipv4 host with Some a => is_metadata_v4 a | None => false end then Some host
        else
          let is_blocked :=
            match parse_ipv4 host with
            | Some v4 => is_metadata_v4 v4
            | None =>
                match parse_ipv6 host with
                | Some v6 => bool_decide (v6 = imds_v6) ||
                    match to_ipv4 v6 with Some m => is_metadata_v4 m | None => false end
                | None => false
                end
            end in
          if is_blocked then Some host else None
    end.
