(* ===== verification/NetGuardProps.v ===== *)
(** * Theorems of the outbound address guard

    The two readings of an IPv4 host (the strict parser and the expansion of alternate forms) are
    together exactly the numbers-and-dots notation of a resolver; no URL the guard lets through names, right
    after its scheme, a metadata service in any spelling, unless an override names it; and dressing a host
    up with userinfo, port, case, escapes or a trailing dot does not change the host the guard sees. *)
From stdpp Require Import base list strings.
From Stdlib Require Import ZArith Lia Ascii.
From S2P Require Import Prelude Signing Sigv4 Sigv4Facts Json NetGuard.
Open Scope Z_scope.

(** ** Digits *)
Lemma to_digit_range radix c d : to_digit radix c = Some d -> 0 <= d < radix.
Proof.
  unfold to_digit. pose proof (code_range c) as Hc. unfold ascii_digit, ascii_lower, ascii_upper.
  destruct (Z.leb_spec 48 (code c)), (Z.leb_spec (code c) 57), (Z.leb_spec 97 (code c)), (Z.leb_spec (code c) 122),
    (Z.leb_spec 65 (code c)), (Z.leb_spec (code c) 90); cbn;
  match goal with |- context [?d <? radix] => destruct (Z.ltb_spec d radix) end; intros Hd; inversion Hd; lia.
Qed.

(** The number written by digits of a radix. *)
Fixpoint digits (radix acc : Z) (s : string) : option Z :=
  match s with
  | EmptyString => Some acc
  | String c s => match to_digit radix c with Some d => digits radix (acc * radix + d) s | None => None end
  end.

Lemma digits_ge radix acc s v : 0 < radix -> 0 <= acc -> digits radix acc s = Some v -> acc <= v.
Proof.
  intros Hr. revert acc. induction s as [|c s IH]; intros acc Ha; cbn [digits]; [intros [= ->]; lia|].
  destruct (to_digit radix c) as [d|] eqn:E; [|done]. apply to_digit_range in E. intros Hv%IH; nia.
Qed.

Lemma from_radix_spec radix acc s v :
  0 < radix -> 0 <= acc <= U64_MAX ->
  from_radix radix acc s = Some v <-> digits radix acc s = Some v /\ v <= U64_MAX.
Proof.
  intros Hr. revert acc. induction s as [|c s IH]; intros acc Ha; cbn [from_radix digits].
  { split; [intros [= <-]; split; [done|lia]|naive_solver]. }
  destruct (to_digit radix c) as [d|] eqn:E; [|naive_solver]. apply to_digit_range in E.
  destruct (Z.leb_spec (acc * radix + d) U64_MAX) as [Hle|Hgt]; [apply IH; nia|].
  split; [done|]. intros [Hv Hb]. apply digits_ge in Hv; nia.
Qed.

(** Which characters are digits. *)
Definition digit_of (radix : Z) (b : Z) : bool :=
  if radix =? 16 then ascii_hexdigit b else if radix =? 8 then is_octal b else ascii_digit b.

Lemma to_digit_of radix c :
  radix = 16 \/ radix = 8 \/ radix = 10 -> is_Some (to_digit radix c) <-> digit_of radix (code c) = true.
Proof.
  intros Hr. assert ((if to_digit radix c then true else false) = digit_of radix (code c)) as <-.
  { destruct Hr as [->|[->| ->]]; destruct c as [[] [] [] [] [] [] [] []]; reflexivity. }
  destruct (to_digit radix c); split; try done; by eexists.
Qed.

Lemma digits_all radix acc s :
  radix = 16 \/ radix = 8 \/ radix = 10 -> is_Some (digits radix acc s) <-> all_chars (digit_of radix) s = true.
Proof.
  intros Hr. revert acc. induction s as [|c s IH]; intros acc; cbn [digits all_chars]; [by split; eauto|].
  rewrite andb_true_iff, <- to_digit_of by done. destruct (to_digit radix c) as [d|].
  - rewrite IH. naive_solver.
  - split; [by intros [? ?]|by intros [[? ?] _]].
Qed.

(** ** Numbers and dots: the reference *)
Definition aton_component (p : string) : option Z :=
  match strip_0x p with
  | Some hex => if String.eqb hex "" then None else digits 16 0 hex
  | None => if String.eqb p "" then None else if starts_with p "0" then digits 8 0 p else digits 10 0 p
  end.

(** Every part but the last is a byte; the last fills the bytes that remain. *)
Fixpoint aton_parts (bytes : nat) (vals : list Z) : option Z :=
  match vals with
  | [] => None
  | [v] => if v <? 256 ^ Z.of_nat bytes then Some v else None
  | v :: vals =>
      match bytes with
      | S (S n) => if v <? 256 then (fun r => v * 256 ^ Z.of_nat (S n) + r) <$> aton_parts (S n) vals else None
      | _ => None
      end
  end.

Definition inet_aton (host : string) : option Z := mapM aton_component (split "." host) ≫= aton_parts 4.

Lemma digits_nonneg radix s v : 0 < radix -> digits radix 0 s = Some v -> 0 <= v.
Proof. intros Hr Hv. by apply digits_ge in Hv. Qed.

Lemma parse_component_spec p v : parse_component p = Some v <-> aton_component p = Some v /\ v <= U64_MAX.
Proof.
  unfold parse_component, aton_component.
  assert (forall r s, r = 16 \/ r = 8 \/ r = 10 ->
    (if negb (all_chars (digit_of r) s) then None else from_radix r 0 s) = Some v <-> digits r 0 s = Some v /\ v <= U64_MAX) as Hd.
  { intros r s Hr. destruct (all_chars (digit_of r) s) eqn:E; cbn [negb]; [apply from_radix_spec; mach_lia|].
    split; [done|]. intros [Hv _]. assert (is_Some (digits r 0 s)) as Hs by eauto. apply digits_all in Hs; [|done]. congruence. }
  destruct (String.eqb_spec p "") as [->|Hp]; [naive_solver|].
  destruct (strip_0x p) as [hex|].
  - destruct (String.eqb hex ""); [naive_solver|]. exact (Hd 16 hex ltac:(auto)).
  - unfold octal_prefix. destruct (starts_with p "0") eqn:E0; rewrite ?andb_true_r, ?andb_false_r; cbn iota.
    + destruct (Nat.ltb_spec 1 (String.length p)) as [_|Hl]; [exact (Hd 8 p ltac:(auto))|].
      assert (p = "0") as ->; [|change (from_radix 10 0 "0") with (Some 0); change (digits 8 0 "0") with (Some 0); cbn;
        split; [intros [= <-]; split; [done|by vm_compute]|by intros [? _]]].
      apply starts_with_spec in E0 as [r ->]. destruct r as [|c r]; [done|]. rewrite str_app_length in Hl. cbn in Hl. lia.
    + exact (Hd 10 p ltac:(auto)).
Qed.

Lemma components_spec parts vals :
  mapM parse_component parts = Some vals <-> mapM aton_component parts = Some vals /\ Forall (fun v => v <= U64_MAX) vals.
Proof.
  rewrite !mapM_Some. split.
  - intros HF. split.
    + eapply Forall2_impl; [exact HF|]. intros p v Hv. by apply parse_component_spec in Hv as [? _].
    + induction HF as [|p v ps vs Hv HF IH]; constructor; [by apply parse_component_spec in Hv as [_ ?]|done].
  - intros [HF Hb]. induction HF as [|p v ps vs Hv HF IH]; [constructor|]. apply Forall_cons in Hb as [? ?].
    constructor; [by apply parse_component_spec|auto].
Qed.

Lemma components_nonneg parts vals : mapM aton_component parts = Some vals -> Forall (fun v => 0 <= v) vals.
Proof.
  rewrite mapM_Some. induction 1 as [|p v ps vs Hv HF IH]; constructor; [|done]. revert Hv. unfold aton_component.
  destruct (strip_0x p); [destruct (String.eqb _ ""); [done|]|destruct (String.eqb p ""); [done|]; destruct (starts_with p "0")];
    intros Hv; apply digits_nonneg in Hv; lia.
Qed.

(** The bit operations of the four forms are sums. *)
Lemma shift_or a k v : 0 <= k -> 0 <= v < 2 ^ k -> Z.lor (Z.shiftl a k) v = a * 2 ^ k + v.
Proof. intros Hk Hv. rewrite Z.shiftl_mul_pow2 by done. by apply lor_add_low. Qed.

Lemma assemble_spec vals : Forall (fun v => 0 <= v) vals -> assemble vals = aton_parts 4 vals.
Proof.
  intros Hn. destruct vals as [|a [|b [|c [|d [|e vals]]]]]; rewrite ?Forall_cons in Hn; cbn [assemble aton_parts].
  - done.
  - change (256 ^ Z.of_nat 4) with (U32_MAX + 1). destruct (Z.leb_spec a U32_MAX), (Z.ltb_spec a (U32_MAX + 1)); done || lia.
  - change (256 ^ Z.of_nat 3) with 16777216.
    destruct (Z.ltb_spec 255 a), (Z.ltb_spec 16777215 b), (Z.ltb_spec a 256), (Z.ltb_spec b 16777216); try lia; try done.
    cbn. f_equal. apply (shift_or a 24); lia.
  - change (256 ^ Z.of_nat 3) with 16777216. change (256 ^ Z.of_nat 2) with 65536.
    destruct (Z.ltb_spec 255 a), (Z.ltb_spec 255 b), (Z.ltb_spec 65535 c), (Z.ltb_spec a 256), (Z.ltb_spec b 256),
      (Z.ltb_spec c 65536); try lia; try done.
    cbn. f_equal. rewrite <- Z.lor_assoc, (shift_or b 16), (shift_or a 24) by lia. lia.
  - change (256 ^ Z.of_nat 3) with 16777216. change (256 ^ Z.of_nat 2) with 65536. change (256 ^ Z.of_nat 1) with 256.
    destruct (Z.ltb_spec 255 a), (Z.ltb_spec 255 b), (Z.ltb_spec 255 c), (Z.ltb_spec 255 d), (Z.ltb_spec a 256),
      (Z.ltb_spec b 256), (Z.ltb_spec c 256), (Z.ltb_spec d 256); try lia; try done.
    cbn. f_equal. rewrite <- !Z.lor_assoc, (shift_or c 8), (shift_or b 16), (shift_or a 24) by lia. lia.
  - by destruct (a <? 256), (b <? 256), (c <? 256).
Qed.

(** ** The strict parser *)
Definition stops (rest : string) : Prop := match rest with String c _ => to_digit 10 c = None | EmptyString => True end.

Lemma read_digits_spec value count s v n rest :
  read_digits 10 value count s = (v, n, rest) ->
  exists p, s = p +:+ rest /\ digits 10 value p = Some v /\ n = (count + String.length p)%nat /\ stops rest.
Proof.
  revert value count. induction s as [|c s IH]; intros value count; cbn [read_digits].
  { intros [= <- <- <-]. exists "". cbn. split_and!; [done|done|lia|done]. }
  destruct (to_digit 10 c) as [d|] eqn:Ed.
  - intros (p & -> & Hd & -> & Hs)%IH. exists (String c p). cbn [digits String.length]. rewrite Ed. split_and!; [done|done|lia|done].
  - intros [= <- <- <-]. exists "". cbn. split_and!; [done|done|lia|done].
Qed.

Lemma read_digits_app value count p v rest :
  digits 10 value p = Some v -> stops rest ->
  read_digits 10 value count (p +:+ rest) = (v, (count + String.length p)%nat, rest).
Proof.
  revert value count. induction p as [|c p IH]; intros value count Hd Hs.
  - injection Hd as <-. change ("" +:+ rest) with rest. rewrite Nat.add_0_r.
    destruct rest as [|c rest]; cbn [read_digits]; [done|]. cbn in Hs. by rewrite Hs.
  - change (String c p +:+ rest) with (String c (p +:+ rest)). cbn [read_digits digits] in *.
    destruct (to_digit 10 c) as [d|]; [|done]. rewrite IH by done. do 2 f_equal. cbn. lia.
Qed.

(** A byte in canonical decimal. *)
Definition decimal_octet (p : string) (v : Z) : Prop :=
  p <> "" /\ digits 10 0 p = Some v /\ octal_prefix p = false /\ v <= 255.

Lemma digits_grow p acc v : 0 <= acc -> digits 10 acc p = Some v -> acc * 10 ^ Z.of_nat (String.length p) <= v.
Proof.
  revert acc. induction p as [|c p IH]; intros acc Ha; cbn [digits String.length]; [intros [= <-]; lia|].
  destruct (to_digit 10 c) as [d|] eqn:Ed; [|done]. apply to_digit_range in Ed. intros Hv%IH; [|lia].
  rewrite Nat2Z.inj_succ, Z.pow_succ_r by lia. nia.
Qed.

Lemma leading_zero c p : octal_prefix (String c p) = false -> p <> "" -> c <> "0"%char.
Proof.
  unfold octal_prefix. intros Ho Hp ->. destruct p as [|c p]; [done|]. by cbn in Ho.
Qed.

Lemma octet_short p v : decimal_octet p v -> (String.length p <= 3)%nat.
Proof.
  intros (Hp & Hd & Ho & Hv). destruct p as [|c p]; [done|]. cbn [digits String.length] in *.
  destruct (to_digit 10 c) as [d|] eqn:Ed; [|done]. destruct p as [|c2 p]; [cbn; lia|].
  pose proof (leading_zero c (String c2 p) Ho ltac:(done)) as Hc.
  assert (1 <= d).
  { pose proof (to_digit_range _ _ _ Ed). assert (d <> 0); [|lia]. intros ->. apply Hc.
    destruct c as [[] [] [] [] [] [] [] []]; vm_compute in Ed; try done. }
  apply digits_grow in Hd; [|lia]. set (n := String.length (String c2 p)) in *. clearbody n.
  destruct (Nat.le_gt_cases n 2); [lia|]. assert (10 ^ 3 <= 10 ^ Z.of_nat n) by (apply Z.pow_le_mono_r; lia). nia.
Qed.

Lemma leading_char c p : (if Ascii.eqb c "0" then (1 <? String.length (String c p))%nat else false) = octal_prefix (String c p).
Proof.
  unfold octal_prefix, starts_with. cbn [strip_prefix]. rewrite (Ascii.eqb_sym "0" c).
  destruct (Ascii.eqb c "0"); [by rewrite andb_true_r; destruct p|by rewrite andb_false_r].
Qed.

Lemma read_octet_spec s v rest :
  read_number 10 3 false 255 s = Some (v, rest) <-> exists p, s = p +:+ rest /\ stops rest /\ decimal_octet p v.
Proof.
  unfold read_number. cbn [negb]. split.
  - destruct (read_digits 10 0 0 s) as [[v' n] rest'] eqn:Er. apply read_digits_spec in Er as (p & -> & Hd & -> & Hs).
    destruct (Nat.ltb_spec 3 (0 + String.length p)); [done|].
    destruct p as [|c p]; [done|]. change (String c p +:+ rest') with (String c (p +:+ rest')).
    change ((0 + String.length (String c p) =? 0)%nat) with false. cbn iota.
    destruct (true && _ && _) eqn:E; [done|]. destruct (Z.leb_spec v' 255); [|done]. intros [= <- <-].
    exists (String c p). split_and!; [done|done|]. split_and!; [done|done| |done].
    rewrite <- leading_char. cbn [andb] in E. by destruct (Ascii.eqb c "0").
  - intros (p & -> & Hs & Ho). pose proof (octet_short p v Ho) as Hl. destruct Ho as (Hp & Hd & Ho & Hv).
    rewrite (read_digits_app 0 0 p v rest) by done. destruct (Nat.ltb_spec 3 (0 + String.length p)); [lia|].
    destruct p as [|c p]; [done|]. change (String c p +:+ rest) with (String c (p +:+ rest)).
    change ((0 + String.length (String c p) =? 0)%nat) with false. cbn iota.
    rewrite <- leading_char in Ho. revert Ho. cbn [andb Nat.add]. destruct (Ascii.eqb c "0"); [intros ->|intros _]; cbn [andb].
    1: destruct (Z.leb_spec v 255); [done|lia].
    destruct (Z.leb_spec v 255); [done|lia].
Qed.

Lemma read_next_octet i s v rest :
  read_octet (S i) s = Some (v, rest) <-> exists p, s = String "." (p +:+ rest) /\ stops rest /\ decimal_octet p v.
Proof.
  unfold read_octet, read_separator, read_given_char. destruct s as [|c s]; [naive_solver|].
  destruct (Ascii.eqb_spec c ".") as [->|Hc]; [rewrite read_octet_spec|]; split.
  - intros (p & -> & Hs & Ho). by exists p.
  - intros (p & [= ->] & Hs & Ho). by exists p.
  - done.
  - intros (p & [= ? _] & _). done.
Qed.

Lemma stops_dot s : stops (String "." s).
Proof. done. Qed.

Definition quad (s : string) (a : Z) (rest : string) : Prop :=
  exists p1 p2 p3 p4 v1 v2 v3 v4,
    s = p1 +:+ String "." (p2 +:+ String "." (p3 +:+ String "." (p4 +:+ rest))) /\ stops rest /\
    decimal_octet p1 v1 /\ decimal_octet p2 v2 /\ decimal_octet p3 v3 /\ decimal_octet p4 v4 /\ a = ipv4 v1 v2 v3 v4.

Lemma read_quad s a rest : read_ipv4_addr s = Some (a, rest) <-> quad s a rest.
Proof.
  unfold read_ipv4_addr, quad. split.
  - destruct (read_octet 0 s) as [[v1 s1]|] eqn:E1; [|done]. apply read_octet_spec in E1 as (p1 & -> & _ & O1).
    destruct (read_octet 1 s1) as [[v2 s2]|] eqn:E2; [|done]. apply read_next_octet in E2 as (p2 & -> & _ & O2).
    destruct (read_octet 2 s2) as [[v3 s3]|] eqn:E3; [|done]. apply read_next_octet in E3 as (p3 & -> & _ & O3).
    destruct (read_octet 3 s3) as [[v4 s4]|] eqn:E4; [|done]. apply read_next_octet in E4 as (p4 & -> & Hs & O4).
    intros [= <- <-]. by exists p1, p2, p3, p4, v1, v2, v3, v4.
  - intros (p1 & p2 & p3 & p4 & v1 & v2 & v3 & v4 & -> & Hs & O1 & O2 & O3 & O4 & ->).
    assert (read_octet 0 (p1 +:+ String "." (p2 +:+ String "." (p3 +:+ String "." (p4 +:+ rest)))) =
      Some (v1, String "." (p2 +:+ String "." (p3 +:+ String "." (p4 +:+ rest))))) as -> by (apply read_octet_spec; eauto using stops_dot).
    rewrite (proj2 (read_next_octet 0 _ v2 (String "." (p3 +:+ String "." (p4 +:+ rest))))) by eauto using stops_dot.
    rewrite (proj2 (read_next_octet 1 _ v3 (String "." (p4 +:+ rest)))) by eauto using stops_dot.
    by rewrite (proj2 (read_next_octet 2 _ v4 rest)) by eauto.
Qed.

Lemma octet_no_dot p v : decimal_octet p v -> contains_char "." p = false.
Proof.
  intros (_ & Hd & _). assert (is_Some (digits 10 0 p)) as Hs%digits_all by eauto; [|auto].
  clear Hd. induction p as [|c p IH]; [done|]. cbn [all_chars contains_char] in *. apply andb_true_iff in Hs as [Hc Hs].
  rewrite IH by done. rewrite orb_false_r. apply not_true_iff_false. intros ->%Ascii.eqb_eq. done.
Qed.

Lemma join_split c s : Sigv4.join (String c "") (split c s) = s.
Proof.
  induction s as [|a s IH]; [done|]. cbn [split]. destruct (Ascii.eqb_spec a c) as [->|].
  - pose proof (split_nil c s) as Hn. destruct (split c s) as [|x l]; [done|]. change (Sigv4.join _ ("" :: x :: l)) with (String c (Sigv4.join (String c "") (x :: l))). by rewrite IH.
  - pose proof (split_nil c s) as Hn. destruct (split c s) as [|x l]; [done|].
    transitivity (String a (Sigv4.join (String c "") (x :: l))); [by destruct l|by rewrite IH].
Qed.

(** Text in canonical dotted-quad form, by its parts. *)
Lemma parse_ipv4_spec host a :
  parse_ipv4 host = Some a <->
  exists p1 p2 p3 p4 v1 v2 v3 v4, split "." host = [p1; p2; p3; p4] /\
    decimal_octet p1 v1 /\ decimal_octet p2 v2 /\ decimal_octet p3 v3 /\ decimal_octet p4 v4 /\ a = ipv4 v1 v2 v3 v4.
Proof.
  unfold parse_ipv4, whole. split.
  - destruct (15 <? _)%nat; [done|]. destruct (read_ipv4_addr host) as [[a' [|]]|] eqn:E; [|done..]. intros [= <-].
    apply read_quad in E as (p1 & p2 & p3 & p4 & v1 & v2 & v3 & v4 & -> & _ & O1 & O2 & O3 & O4 & ->).
    exists p1, p2, p3, p4, v1, v2, v3, v4. split; [|done].
    rewrite str_app_nil, !split_app, split_one; [done|by eapply octet_no_dot..].
  - intros (p1 & p2 & p3 & p4 & v1 & v2 & v3 & v4 & Es & O1 & O2 & O3 & O4 & ->).
    assert (host = p1 +:+ String "." (p2 +:+ String "." (p3 +:+ String "." (p4 +:+ "")))) as ->.
    { rewrite <- (join_split "." host), Es, str_app_nil. done. }
    pose proof (octet_short _ _ O1). pose proof (octet_short _ _ O2). pose proof (octet_short _ _ O3). pose proof (octet_short _ _ O4).
    destruct (Nat.ltb_spec 15 (String.length (p1 +:+ String "." (p2 +:+ String "." (p3 +:+ String "." (p4 +:+ "")))))) as [Hl|_].
    { rewrite !str_app_length in Hl. cbn [String.length] in Hl. rewrite !str_app_length in Hl. cbn [String.length] in Hl.
      rewrite !str_app_length in Hl. cbn [String.length] in Hl. rewrite !str_app_length in Hl. cbn [String.length] in Hl. lia. }
    rewrite (proj2 (read_quad _ (ipv4 v1 v2 v3 v4) "")); [done|].
    by exists p1, p2, p3, p4, v1, v2, v3, v4.
Qed.

(** ** The two readings together are the notation of the resolver *)
Lemma strip_0x_octal p hex : strip_0x p = Some hex -> octal_prefix p = true.
Proof.
  unfold strip_0x. destruct (strip_prefix "0x" p) as [h|] eqn:E; [apply strip_prefix_Some in E as ->; by destruct h|].
  intros ->%strip_prefix_Some. by destruct hex.
Qed.

Lemma octal_short p : octal_prefix p = false -> starts_with p "0" = true -> p = "0".
Proof.
  unfold octal_prefix. intros Ho Hs. rewrite Hs, andb_true_r in Ho. apply Nat.ltb_ge in Ho.
  apply starts_with_spec in Hs as [r ->]. destruct r; [done|]. rewrite str_app_length in Ho. cbn in Ho. lia.
Qed.

Lemma canonical_octet p v : decimal_octet p v <-> aton_component p = Some v /\ alternate_octet p v = false.
Proof.
  unfold decimal_octet, aton_component, alternate_octet. split.
  - intros (Hp & Hd & Ho & Hv). assert (strip_0x p = None) as En.
    { destruct (strip_0x p) eqn:E; [|done]. apply strip_0x_octal in E. congruence. }
    rewrite En. rewrite (proj2 (String.eqb_neq p "") Hp). split.
    + destruct (starts_with p "0") eqn:E0; [|done]. by rewrite (octal_short p Ho E0) in *.
    + rewrite Ho. unfold strip_0x in En. unfold starts_with.
      destruct (strip_prefix "0x" p); [done|]. rewrite En. destruct (Z.ltb_spec 255 v); [lia|done].
  - intros [Hc Ha]. simpl_bool. destruct (strip_0x p) eqn:E; [apply strip_0x_octal in E; congruence|].
    destruct (String.eqb_spec p "") as [->|Hp]; [done|]. split_and!; [done| |done|done].
    revert Hc. destruct (starts_with p "0") eqn:E0; [|done]. by rewrite (octal_short p ltac:(done) E0).
Qed.

Lemma aton_parts_small n vals a :
  (n <= 4)%nat -> Forall (fun v => 0 <= v) vals -> aton_parts n vals = Some a -> Forall (fun v => v <= U64_MAX) vals.
Proof.
  revert n a. induction vals as [|v vals IH]; intros n a Hn Hp; [done|]. apply Forall_cons in Hp as [Hv Hp].
  assert (256 ^ Z.of_nat n <= 256 ^ 4) by (apply Z.pow_le_mono_r; lia).
  destruct vals as [|w vals].
  - cbn [aton_parts]. destruct (Z.ltb_spec v (256 ^ Z.of_nat n)); [|done]. intros _. apply Forall_singleton. unfold U64_MAX. lia.
  - destruct n as [|[|n]]; [done..|].
    change (aton_parts (S (S n)) (v :: w :: vals)) with
      (if v <? 256 then (fun r => v * 256 ^ Z.of_nat (S n) + r) <$> aton_parts (S n) (w :: vals) else None).
    destruct (Z.ltb_spec v 256); [|done].
    destruct (aton_parts (S n) (w :: vals)) as [r|] eqn:E; [|done]. intros _. constructor; [unfold U64_MAX; lia|].
    apply (IH (S n) r); [lia|done|done].
Qed.

Lemma existsb_zip_false {X Y} (f : X * Y -> bool) (xs : list X) (ys : list Y) :
  length xs = length ys -> existsb f (zip xs ys) = false <-> Forall2 (fun x y => f (x, y) = false) xs ys.
Proof.
  revert ys. induction xs as [|x xs IH]; intros [|y ys] Hl; try done.
  cbn. rewrite orb_false_iff, IH by (cbn in Hl; lia). split; [intros [? ?]; by constructor|by inversion 1].
Qed.

Lemma quad_of_parts parts vals :
  mapM aton_component parts = Some vals -> length parts = 4%nat ->
  existsb (fun pv => alternate_octet pv.1 pv.2) (zip parts vals) = false -> Forall2 decimal_octet parts vals.
Proof.
  rewrite mapM_Some. intros HF Hl He. pose proof (Forall2_length _ _ _ HF). rewrite existsb_zip_false in He by done. clear Hl.
  revert He. induction HF as [|p v ps vs Hv HF IH]; inversion 1; constructor; [by apply canonical_octet|auto].
Qed.

Lemma aton_spellings host a :
  inet_aton host = Some a <-> expand_alternate_ipv4 host = Some a \/ parse_ipv4 host = Some a.
Proof.
  unfold inet_aton, expand_alternate_ipv4. split.
  - destruct (mapM aton_component (split "." host)) as [vals|] eqn:Ec; cbn; [|done]. intros Ha.
    destruct (String.eqb_spec host "") as [->|_]; [done|].
    pose proof (components_nonneg _ _ Ec) as Hn.
    rewrite (proj2 (components_spec _ _) (conj Ec (aton_parts_small 4 vals a ltac:(lia) Hn Ha))).
    destruct (_ && _) eqn:Eq; [right|left; by rewrite assemble_spec].
    apply andb_true_iff in Eq as [El%Nat.eqb_eq Eq%negb_true_iff].
    pose proof (quad_of_parts _ _ Ec El Eq) as HF. apply parse_ipv4_spec.
    destruct (split "." host) as [|p1 [|p2 [|p3 [|p4 [|]]]]]; try done.
    inversion HF as [|? v1 ? ? O1 HF1]; subst. inversion HF1 as [|? v2 ? ? O2 HF2]; subst.
    inversion HF2 as [|? v3 ? ? O3 HF3]; subst. inversion HF3 as [|? v4 ? ? O4 HF4]; subst. inversion HF4; subst.
    exists p1, p2, p3, p4, v1, v2, v3, v4. split_and!; try done. revert Ha. cbn [aton_parts].
    destruct (v1 <? 256), (v2 <? 256), (v3 <? 256); try done. destruct (v4 <? _); [|done]. cbn. intros [= <-]. unfold ipv4. lia.
  - intros [He|Hq].
    + destruct (String.eqb host ""); [done|]. destruct (mapM parse_component (split "." host)) as [vals|] eqn:Ec; [|done].
      apply components_spec in Ec as [Ec _]. destruct (_ && _); [done|]. rewrite Ec. cbn.
      by rewrite <- assemble_spec by (by eapply components_nonneg).
    + apply parse_ipv4_spec in Hq as (p1 & p2 & p3 & p4 & v1 & v2 & v3 & v4 & -> & O1 & O2 & O3 & O4 & ->).
      pose proof (proj1 (canonical_octet _ _) O1) as [C1 _]. pose proof (proj1 (canonical_octet _ _) O2) as [C2 _].
      pose proof (proj1 (canonical_octet _ _) O3) as [C3 _]. pose proof (proj1 (canonical_octet _ _) O4) as [C4 _].
      cbn [mapM]. rewrite C1, C2, C3, C4. cbn [mbind option_bind mret option_ret].
      destruct O1 as (_ & _ & _ & ?), O2 as (_ & _ & _ & ?), O3 as (_ & _ & _ & ?), O4 as (_ & _ & _ & ?).
      cbn [aton_parts]. change (256 ^ Z.of_nat 1) with 256.
      rewrite (proj2 (Z.ltb_lt v1 256)), (proj2 (Z.ltb_lt v2 256)), (proj2 (Z.ltb_lt v3 256)), (proj2 (Z.ltb_lt v4 256)) by lia.
      cbn. f_equal. unfold ipv4. lia.
Qed.

(** C24.  A host is read as an IPv4 address exactly as a resolver reads numbers-and-dots notation: one to
    four parts, each decimal, octal or hexadecimal, the last filling the remaining bytes.  What the
    strict parser leaves out (integers, short forms, octal and hexadecimal parts) is what the expansion
    of alternate forms adds, and neither reads anything else. *)
Theorem spellings_complete host a :
  inet_aton host = Some a <-> expand_alternate_ipv4 host = Some a \/ parse_ipv4 host = Some a.
Proof. split; apply aton_spellings. Qed.

(** ** What a host reaches *)

(** The IPv4 address a host names: in numbers and dots, or embedded in an IPv6 literal. *)
Definition reaches_v4 (host : string) (a : Z) : Prop :=
  inet_aton host = Some a \/ exists v6, parse_ipv6 host = Some v6 /\ to_ipv4 v6 = Some a.

(** An entry of a host list covers a host. *)
Definition listed (host : string) (entries : list string) : Prop :=
  exists e, e ∈ entries /\
    (entry_text e <> "" /\ eq_ignore_ascii_case (entry_text e) host = true \/
     (exists a, parse_ipv4 (entry_text e) = Some a /\ reaches_v4 host a) \/
     (exists v6, parse_ipv6 (entry_text e) = Some v6 /\ parse_ipv6 host = Some v6)).

Lemma parse_v4_not_v6 host a : parse_ipv4 host = Some a -> parse_ipv6 host = None.
Proof.
  unfold parse_ipv4, parse_ipv6, whole. destruct (15 <? _)%nat; [done|].
  destruct (read_ipv4_addr host) as [[b r]|] eqn:E; [|done]. destruct r; [|done]. intros _.
  unfold read_ipv6_addr. cbn [read_groups]. unfold read_separator at 1. by rewrite E.
Qed.

(** The address part of both lists, in the shape the code tests it. *)
Lemma reaches_tests (P : Z -> bool) host :
  (match expand_alternate_ipv4 host with Some a => P a | None => false end = true \/
   match parse_ipv4 host with
   | Some a => P a
   | None => match parse_ipv6 host with
             | Some v6 => match to_ipv4 v6 with Some a => P a | None => false end
             | None => false
             end
   end = true) <-> exists a, reaches_v4 host a /\ P a = true.
Proof.
  unfold reaches_v4. split.
  - intros [He|Hp].
    + destruct (expand_alternate_ipv4 host) as [a|] eqn:E; [|done]. exists a. split; [|done]. left. apply aton_spellings. by left.
    + destruct (parse_ipv4 host) as [a|] eqn:E; [exists a; split; [left; apply aton_spellings; by right|done]|].
      destruct (parse_ipv6 host) as [v6|] eqn:E6; [|done]. destruct (to_ipv4 v6) as [a|] eqn:Et; [|done]. exists a. eauto.
  - intros (a & [Ha%aton_spellings|(v6 & E6 & Et)] & HP).
    + destruct Ha as [-> | ->]; auto.
    + right. destruct (parse_ipv4 host) as [b|] eqn:E4; [by rewrite (parse_v4_not_v6 _ _ E4) in E6|]. by rewrite E6, Et.
Qed.

Lemma host_matches_any_spec host entries : host_matches_any host entries = true <-> listed host entries.
Proof.
  unfold host_matches_any, listed. set (v4s := omap _ entries). set (v6s := omap _ entries).
  pose proof (reaches_tests (fun a => bool_decide (a ∈ v4s)) host) as Hr.
  assert (existsb (fun b => bool_decide (expand_alternate_ipv4 host = Some b)) v4s =
    match expand_alternate_ipv4 host with Some a => bool_decide (a ∈ v4s) | None => false end) as ->.
  { apply eq_true_iff_eq. rewrite existsb_exists. setoid_rewrite bool_decide_eq_true. setoid_rewrite <- list_elem_of_In.
    destruct (expand_alternate_ipv4 host) as [a|]; [rewrite bool_decide_eq_true|]; naive_solver. }
  destruct (existsb _ entries) eqn:Et.
  { split; [|done]. intros _. apply existsb_exists in Et as (e & He%list_elem_of_In & Hm). exists e. split; [done|]. left.
    apply andb_true_iff in Hm as [Hn%negb_true_iff Hm]. by apply String.eqb_neq in Hn. }
  assert (forall e, e ∈ entries -> ~ (entry_text e <> "" /\ eq_ignore_ascii_case (entry_text e) host = true)) as Hno.
  { intros e He [Hn Hm]. apply not_true_iff_false in Et. apply Et, existsb_exists. exists e.
    split; [by apply list_elem_of_In|]. by rewrite Hm, (proj2 (String.eqb_neq _ _) Hn). }
  transitivity ((exists a, reaches_v4 host a /\ a ∈ v4s) \/ (exists v6, parse_ipv6 host = Some v6 /\ v6 ∈ v6s)).
  - setoid_rewrite bool_decide_eq_true in Hr. rewrite <- Hr. clear Hr.
    destruct (match expand_alternate_ipv4 host with Some a => _ | None => false end); [naive_solver|].
    destruct (parse_ipv4 host) as [a|] eqn:E4.
    + rewrite (parse_v4_not_v6 _ _ E4). naive_solver.
    + destruct (parse_ipv6 host) as [v6|]; [|naive_solver]. rewrite orb_true_iff, bool_decide_eq_true. naive_solver.
  - unfold v4s, v6s. setoid_rewrite list_elem_of_omap. naive_solver.
Qed.

(** ** Ranges *)
Lemma aton_parts_range n vals a :
  (1 <= n)%nat -> Forall (fun v => 0 <= v) vals -> aton_parts n vals = Some a -> 0 <= a < 256 ^ Z.of_nat n.
Proof.
  revert n a. induction vals as [|v vals IH]; intros n a Hn Hp; [done|]. apply Forall_cons in Hp as [Hv Hp].
  destruct vals as [|w vals].
  - cbn [aton_parts]. destruct (Z.ltb_spec v (256 ^ Z.of_nat n)); [|done]. intros [= <-]. lia.
  - destruct n as [|[|n]]; [done..|].
    change (aton_parts (S (S n)) (v :: w :: vals)) with
      (if v <? 256 then (fun r => v * 256 ^ Z.of_nat (S n) + r) <$> aton_parts (S n) (w :: vals) else None).
    destruct (Z.ltb_spec v 256); [|done]. destruct (aton_parts (S n) (w :: vals)) as [r|] eqn:E; [|done]. intros [= <-].
    apply IH in E; [|lia|done]. rewrite (Nat2Z.inj_succ (S n)), Z.pow_succ_r by lia. nia.
Qed.

Lemma inet_aton_range host a : inet_aton host = Some a -> 0 <= a < 4294967296.
Proof.
  unfold inet_aton. destruct (mapM aton_component _) as [vals|] eqn:E; [|done]. cbn. intros Ha.
  exact (aton_parts_range 4 vals a ltac:(lia) (components_nonneg _ _ E) Ha).
Qed.

Definition segment_ok (g : Z) : Prop := 0 <= g <= 65535.

Lemma digits16_nonneg s v c n rest : 0 <= v -> read_digits 16 v c s = (n, rest.1, rest.2) -> 0 <= n.
Proof.
  revert v c. induction s as [|x s IH]; intros v c Hv; cbn [read_digits]; [intros [= <- _ _]; done|].
  destruct (to_digit 16 x) as [d|] eqn:E; [apply to_digit_range in E; apply IH; lia|]. by intros [= <- _ _].
Qed.

Lemma read_group_ok s g rest : read_number 16 4 true 65535 s = Some (g, rest) -> segment_ok g.
Proof.
  unfold read_number. destruct (read_digits 16 0 0 s) as [[v n] r] eqn:E.
  apply (digits16_nonneg s 0 0 v (n, r)) in E; [|done]. cbn [negb andb].
  destruct (4 <? n)%nat, (n =? 0)%nat; try done. destruct (Z.leb_spec v 65535); [|done]. intros [= <- _]. by split.
Qed.

Lemma quad_range s a rest : read_ipv4_addr s = Some (a, rest) -> 0 <= a < 4294967296.
Proof.
  intros (p1 & p2 & p3 & p4 & v1 & v2 & v3 & v4 & _ & _ & O1 & O2 & O3 & O4 & ->)%read_quad.
  assert (forall p v, decimal_octet p v -> 0 <= v <= 255) as Ho.
  { intros p v (_ & Hd & _ & Hv). apply digits_nonneg in Hd; lia. }
  apply Ho in O1, O2, O3, O4. unfold ipv4. lia.
Qed.

Lemma halves_ok a : 0 <= a < 4294967296 -> Forall segment_ok (halves a).
Proof.
  intros Ha. unfold halves, segment_ok. rewrite Z.shiftr_div_pow2 by lia. change 65535 with (Z.ones 16) at 2. rewrite Z.land_ones by lia.
  pose proof (Z.mod_pos_bound a (2 ^ 16)). repeat constructor; try lia; Z.to_euclidean_division_equations; lia.
Qed.

Lemma read_groups_ok limit i s : Forall segment_ok (read_groups limit i s).1.1.
Proof.
  revert i s. induction limit as [|limit IH]; intros i s; cbn [read_groups]; [constructor|].
  assert (forall o, match limit with O => None | S _ => o end = o \/ match limit with O => None | S _ => o end = @None (Z * string)) as Ho
    by (intros o; destruct limit; auto).
  destruct (match limit with O => None | S _ => read_separator ":" i read_ipv4_addr s end) as [[v4 s']|] eqn:E.
  - cbn. apply halves_ok. destruct (Ho (read_separator ":" i read_ipv4_addr s)) as [E'|E']; rewrite E in E'; [|done].
    revert E'. unfold read_separator. destruct i; [intros E'; symmetry in E'; by apply quad_range in E'|].
    destruct (read_given_char ":" s) as [[? ?]|]; [|done]. intros E'. symmetry in E'. by apply quad_range in E'.
  - destruct (read_separator ":" i (read_number 16 4 true 65535) s) as [[g s']|] eqn:Eg; [|constructor].
    specialize (IH (S i) s'). destruct (read_groups limit (S i) s') as [[gs v] s'']. cbn in *. constructor; [|done].
    revert Eg. unfold read_separator. destruct i; [apply read_group_ok|].
    destruct (read_given_char ":" s) as [[? ?]|]; [apply read_group_ok|done].
Qed.

Lemma parse_ipv6_ok host v6 : parse_ipv6 host = Some v6 -> Forall segment_ok v6.
Proof.
  unfold parse_ipv6, whole, read_ipv6_addr. pose proof (read_groups_ok 8 0 host) as Hh.
  destruct (read_groups 8 0 host) as [[hd v] s]. cbn in Hh. destruct (length hd =? 8)%nat; [by destruct s; [intros [= <-]|]|].
  destruct v; [done|]. destruct (read_given_char ":" s) as [[? s1]|]; [|done]. destruct (read_given_char ":" s1) as [[? s2]|]; [|done].
  pose proof (read_groups_ok (8 - (length hd + 1)) 0 s2) as Ht. destruct (read_groups _ 0 s2) as [[tl b] s3]. cbn in Ht.
  destruct s3; [|done]. intros [= <-]. rewrite !Forall_app. split_and!; [done| |done].
  apply Forall_replicate. unfold segment_ok. lia.
Qed.

Lemma to_ipv4_range v6 a : Forall segment_ok v6 -> to_ipv4 v6 = Some a -> 0 <= a < 4294967296.
Proof.
  unfold to_ipv4, segment_ok. intros Hv. repeat case_match; try done. intros [= <-]. rewrite !Forall_cons in Hv. lia.
Qed.

Lemma reaches_range host a : reaches_v4 host a -> 0 <= a < 4294967296.
Proof.
  intros [Ha|(v6 & E6 & Et)]; [by eapply inet_aton_range|]. eapply to_ipv4_range; [|exact Et]. by eapply parse_ipv6_ok.
Qed.

(** The metadata services: the link-local block and three literals. *)
Definition metadata_v4 (a : Z) : Prop :=
  (exists x y, 0 <= x <= 255 /\ 0 <= y <= 255 /\ a = ipv4 169 254 x y) \/
  a = ipv4 100 100 100 200 \/ a = ipv4 168 63 129 16 \/ a = ipv4 192 0 0 192.

Lemma is_metadata_v4_spec a : 0 <= a < 4294967296 -> is_metadata_v4 a = true <-> metadata_v4 a.
Proof.
  intros Ha. unfold is_metadata_v4, metadata_v4, alibaba_v4, azure_v4, oci_v4.
  rewrite !orb_true_iff, !Z.eqb_eq.
  enough (is_link_local a = true <-> exists x y, 0 <= x <= 255 /\ 0 <= y <= 255 /\ a = ipv4 169 254 x y) by tauto.
  unfold is_link_local, octet, ipv4. change 255 with (Z.ones 8). rewrite !Z.land_ones, !Z.shiftr_div_pow2 by lia.
  change (2 ^ (8 * (3 - 0))) with 16777216. change (2 ^ (8 * (3 - 1))) with 65536. change (2 ^ 8) with 256. change (Z.ones 8) with 255.
  rewrite andb_true_iff, !Z.eqb_eq. split.
  - intros [H0 H1]. exists (a / 256 mod 256), (a mod 256). Z.to_euclidean_division_equations. lia.
  - intros (x & y & Hx & Hy & ->). Z.to_euclidean_division_equations. lia.
Qed.

(** A metadata service, or what the operator added. *)
Definition forbidden (host : string) (extra : list string) : Prop :=
  to_ascii_lowercase host ∈ METADATA_HOSTS \/ listed host extra \/
  (exists a, reaches_v4 host a /\ metadata_v4 a) \/ parse_ipv6 host = Some imds_v6.

Lemma forbidden_tests host extra :
  existsb (String.eqb (to_ascii_lowercase host)) METADATA_HOSTS || host_matches_any host extra ||
  match expand_alternate_ipv4 host with Some a => is_metadata_v4 a | None => false end ||
  match parse_ipv4 host with
  | Some v4 => is_metadata_v4 v4
  | None =>
      match parse_ipv6 host with
      | Some v6 => bool_decide (v6 = imds_v6) || match to_ipv4 v6 with Some m => is_metadata_v4 m | None => false end
      | None => false
      end
  end = true <-> forbidden host extra.
Proof.
  unfold forbidden. rewrite !orb_true_iff, host_matches_any_spec, existsb_exists.
  setoid_rewrite String.eqb_eq. setoid_rewrite <- list_elem_of_In.
  assert ((exists a, reaches_v4 host a /\ metadata_v4 a) <-> exists a, reaches_v4 host a /\ is_metadata_v4 a = true) as ->.
  { split; intros (a & Hr & Ha); exists a; (split; [done|]); by apply (is_metadata_v4_spec a (reaches_range host a Hr)). }
  rewrite <- (reaches_tests is_metadata_v4 host).
  assert ((exists x, x ∈ METADATA_HOSTS /\ to_ascii_lowercase host = x) <-> to_ascii_lowercase host ∈ METADATA_HOSTS) as -> by naive_solver.
  destruct (parse_ipv4 host) as [v4|] eqn:E4; [rewrite (parse_v4_not_v6 _ _ E4); intuition congruence|].
  destruct (parse_ipv6 host) as [v6|]; [|intuition congruence]. rewrite orb_true_iff, bool_decide_eq_true. intuition congruence.
Qed.

(** The verdict on the host the guard extracted. *)
Lemma blocked_by_host url allow extra host :
  ssrf_blocked_host url allow false extra = Some host <->
  extract_normalized_host url = Some host /\ ~ listed host allow /\
  forbidden host extra.
Proof.
  unfold ssrf_blocked_host. destruct (extract_normalized_host url) as [h|]; [|naive_solver].
  pose proof (host_matches_any_spec h allow) as Ha. pose proof (forbidden_tests h extra) as Hf.
  transitivity (h = host /\ host_matches_any h allow = false /\ forbidden h extra).
  - rewrite <- Hf. destruct (host_matches_any h allow); [naive_solver|]. destruct (existsb _ METADATA_HOSTS); [naive_solver|].
    destruct (host_matches_any h extra); [naive_solver|].
    destruct (match expand_alternate_ipv4 h with Some a => _ | None => false end); [naive_solver|]. cbn [orb].
    match goal with |- (if ?b then _ else _) = _ <-> _ => destruct b end; intuition congruence.
  - rewrite <- not_true_iff_false, Ha. naive_solver.
Qed.

(** ** Disguises *)

(** Characters that end or split an authority. *)
Definition special (b : Z) : bool := existsb (Z.eqb b) (code <$> ["/"; "?"; "#"; "\"; "@"; ":"; "["; "]"]%char).
Definition solid (b : Z) : bool := negb (special b).
Definition plain (b : Z) : bool := solid b && negb (b =? code "%") && (b <? 128).

(** A host written with some of its characters as escapes. *)
Inductive spells : string -> string -> Prop :=
  | spells_end : spells "" ""
  | spells_plain c s h : plain (code c) = true -> spells s h -> spells (String c s) (String c h)
  | spells_escape x y hi lo c s h :
      to_digit 16 x = Some hi -> to_digit 16 y = Some lo -> char_of (hi * 16 + lo) = c -> spells s h ->
      spells (String "%" (String x (String y s))) (String c h).

Lemma decode_plain c s : c <> "%"%char -> percent_decode (String c s) = String c (percent_decode s).
Proof.
  intros Hc. destruct s as [|h [|l s]]; try done. cbn [percent_decode]. by rewrite (proj2 (Ascii.eqb_neq c "%") Hc).
Qed.

Lemma spells_decode s h : spells s h -> percent_decode s = h.
Proof.
  induction 1 as [|c s h Hc Hs IH|x y hi lo c s h Hx Hy Hc Hs IH]; [done| |].
  - rewrite decode_plain; [by rewrite IH|]. intros ->. done.
  - cbn [percent_decode]. rewrite Hx, Hy, IH. cbn. by rewrite Hc.
Qed.

Lemma hex_solid c : is_Some (to_digit 16 c) -> solid (code c) = true.
Proof. destruct c as [[] [] [] [] [] [] [] []]; vm_compute; intros [? Hd]; try done. Qed.

Lemma spells_solid s h : spells s h -> all_chars solid s = true.
Proof.
  induction 1 as [|c s h Hc Hs IH|x y hi lo c s h Hx Hy Hc Hs IH]; [done| |]; cbn [all_chars]; rewrite IH, !andb_true_r.
  - unfold plain in Hc. simpl_bool. done.
  - rewrite (hex_solid x), (hex_solid y) by eauto. done.
Qed.

Lemma ascii_utf8 s : is_ascii s = true -> is_utf8 s = true.
Proof.
  intros Hs. unfold is_utf8. apply andb_true_iff.
  assert (forallb (fun c => (0 <=? c) && (c <? 55296) || (57344 <=? c) && (c <? 1114112)) (chars s) = true /\ of_chars (chars s) = s) as [-> ->];
    [|by rewrite String.eqb_refl].
  induction s as [|a s IH]; [done|]. unfold is_ascii in *. cbn [all_chars] in Hs. apply andb_true_iff in Hs as [Ha Hs].
  pose proof (code_range a) as Hr. change (code a) with (byte a) in *. destruct (IH Hs) as [H1 H2].
  cbn [chars]. rewrite Ha. cbn [forallb of_chars foldr]. apply Z.ltb_lt in Ha. rewrite H1. unfold of_chars in H2. rewrite H2. split.
  - destruct (Z.leb_spec 0 (byte a)), (Z.ltb_spec (byte a) 55296); cbn; lia || done.
  - unfold push. rewrite (proj2 (Z.ltb_lt _ _) Ha). f_equal. unfold char_of, byte. rewrite N2Z.id. apply ascii_N_embedding.
Qed.

Lemma solid_not s c : all_chars solid s = true -> special (code c) = true -> contains_char c s = false.
Proof.
  intros Hs Hc. induction s as [|a s IH]; [done|]. cbn [all_chars contains_char] in *. apply andb_true_iff in Hs as [Ha Hs].
  rewrite IH, orb_false_r by done. apply not_true_iff_false. intros ->%Ascii.eqb_eq. unfold solid in Ha. by rewrite Hc in Ha.
Qed.

Lemma take_until_app s t : all_chars (fun b => negb (authority_end (ascii_of_N (Z.to_N b)))) s = true ->
  (t = "" \/ exists c t', t = String c t' /\ authority_end c = true) -> take_until authority_end (s +:+ t) = s.
Proof.
  intros Hs Ht. induction s as [|a s IH].
  - destruct Ht as [->|(c & t' & -> & Hc)]; [done|]. change ("" +:+ String c t') with (String c t'). cbn [take_until]. by rewrite Hc.
  - change (String a s +:+ t) with (String a (s +:+ t)). cbn [take_until all_chars] in *. apply andb_true_iff in Hs as [Ha Hs].
    unfold code in Ha. rewrite N2Z.id, ascii_N_embedding in Ha. apply negb_true_iff in Ha. by rewrite Ha, IH.
Qed.

Lemma map_chars_app f a b : map_chars f (a +:+ b) = map_chars f a +:+ map_chars f b.
Proof. induction a as [|x a IH]; [done|]. change (map_chars f (String x a +:+ b)) with (String (f x) (map_chars f (a +:+ b))). by rewrite IH. Qed.

Lemma split_scheme_app s r : contains_char ":" s = false -> split_scheme (s +:+ "://" +:+ r) = Some (s, r).
Proof.
  induction s as [|a s IH]; intros Hs.
  - change ("" +:+ "://" +:+ r) with ("://" +:+ r). destruct r; done.
  - cbn [contains_char] in Hs. apply orb_false_iff in Hs as [Ha Hs]. change (String a s +:+ "://" +:+ r) with (String a (s +:+ "://" +:+ r)).
    cbn [split_scheme]. rewrite IH by done. change (strip_prefix "://" (String a (s +:+ "://" +:+ r))) with
      (if Ascii.eqb ":" a then strip_prefix "//" (s +:+ "://" +:+ r) else None). rewrite (Ascii.eqb_sym ":" a), Ha. done.
Qed.

Lemma split_not_one c a b h : split c (a +:+ String c b) <> [h].
Proof.
  revert h. induction a as [|y a IH]; intros h.
  - change ("" +:+ String c b) with (String c b). cbn [split]. rewrite Ascii.eqb_refl. intros [= _ E]. by apply split_nil in E.
  - change (String y a +:+ String c b) with (String y (a +:+ String c b)). cbn [split].
    destruct (Ascii.eqb y c); [intros [= _ E]; by apply split_nil in E|].
    destruct (split c (a +:+ String c b)) as [|h' l'] eqn:E'; [by apply split_nil in E'|]. intros [= _ ->]. by eapply IH.
Qed.

Lemma last_split c a b : last (split c (a +:+ String c b)) = last (split c b).
Proof.
  pose proof (split_nil c b) as Hn. induction a as [|x a IH].
  - change ("" +:+ String c b) with (String c b). cbn [split]. rewrite Ascii.eqb_refl. by destruct (split c b).
  - change (String x a +:+ String c b) with (String x (a +:+ String c b)). cbn [split].
    pose proof (split_nil c (a +:+ String c b)) as Hn'. pose proof (split_not_one c a b) as Ho.
    destruct (split c (a +:+ String c b)) as [|h [|h2 l]]; [done|by destruct (Ho h)|]. by destruct (Ascii.eqb x c).
Qed.

Lemma rsplit_none c s : contains_char c s = false -> rsplit_once c s = None.
Proof.
  induction s as [|a s IH]; [done|]. cbn [contains_char rsplit_once]. intros [Ha Hs]%orb_false_iff.
  rewrite (IH Hs), Ha. done.
Qed.

Lemma rsplit_app c a b : contains_char c b = false -> rsplit_once c (a +:+ String c b) = Some (a, b).
Proof.
  intros Hb. induction a as [|x a IH].
  - change ("" +:+ String c b) with (String c b). cbn [rsplit_once]. by rewrite (rsplit_none c b Hb), Ascii.eqb_refl.
  - change (String x a +:+ String c b) with (String x (a +:+ String c b)). cbn [rsplit_once]. by rewrite IH.
Qed.

Lemma strip_dot_app s : strip_dot (s +:+ ".") = Some s.
Proof.
  induction s as [|a s IH]; [done|]. change (String a s +:+ ".") with (String a (s +:+ ".")). cbn [strip_dot]. rewrite IH.
  by destruct s.
Qed.

(** The parts of a URL around its host. *)
Definition user_part (u : option string) : string := match u with Some u => u +:+ "@" | None => "" end.
Definition port_part (p : option string) : string := match p with Some p => ":" +:+ p | None => "" end.

(** Text that cannot end an authority. *)
Definition inside (b : Z) : bool := negb (existsb (Z.eqb b) (code <$> ["/"; "?"; "#"; "\"]%char)).
Definition tail_ok (t : string) : Prop :=
  t = "" \/ exists c t', t = String c t' /\ (authority_end c = true \/ c = backslash).

Lemma inside_chars s : all_chars inside s = true ->
  map_chars (fun c => if Ascii.eqb c backslash then "/"%char else c) s = s /\
  all_chars (fun b => negb (authority_end (ascii_of_N (Z.to_N b)))) s = true.
Proof.
  induction s as [|a s IH]; [done|]. cbn [all_chars map_chars]. intros [Ha Hs]%andb_true_iff. destruct (IH Hs) as [-> ->].
  revert Ha. clear. destruct a as [[] [] [] [] [] [] [] []]; vm_compute; intros Ha; try discriminate Ha; auto.
Qed.

Lemma solid_inside s : all_chars solid s = true -> all_chars inside s = true.
Proof.
  apply all_chars_mono. intros b. unfold solid, special, inside. rewrite !negb_true_iff. cbn [existsb fmap list_fmap].
  rewrite !orb_false_iff. tauto.
Qed.

Lemma authority_host u s p :
  all_chars solid s = true -> s <> "" ->
  match p with Some p => all_chars solid p = true | None => True end ->
  host_of_authority (user_part u +:+ s +:+ port_part p) = s.
Proof.
  intros Hs Hn Hp. unfold host_of_authority.
  assert (contains_char "@" (s +:+ port_part p) = false) as Hat.
  { destruct p as [p|]; cbn [port_part]; [|rewrite str_app_nil; by apply solid_not].
    rewrite contains_app, (solid_not s "@") by done. exact (solid_not p "@" Hp eq_refl). }
  assert (default (user_part u +:+ s +:+ port_part p) (last (split "@" (user_part u +:+ s +:+ port_part p))) = s +:+ port_part p) as ->.
  { destruct u as [u|]; cbn [user_part].
    - rewrite str_app_assoc. change ("@" +:+ s +:+ port_part p) with (String "@" (s +:+ port_part p)).
      by rewrite last_split, split_one.
    - change ("" +:+ s +:+ port_part p) with (s +:+ port_part p). by rewrite split_one. }
  assert (strip_prefix "[" (s +:+ port_part p) = None) as ->.
  { destruct (strip_prefix "[" (s +:+ port_part p)) as [r|] eqn:E; [|done]. apply strip_prefix_Some in E.
    destruct s as [|c s]; [done|]. injection E as -> _. cbn [all_chars] in Hs. done. }
  destruct p as [p|]; cbn [port_part].
  - change (":" +:+ p) with (String ":" p). rewrite rsplit_app by (by apply solid_not). by rewrite (solid_not s ":").
  - rewrite str_app_nil, rsplit_none; [done|by apply solid_not].
Qed.

Lemma authority_inside user written port :
  match user with Some u => all_chars inside u = true | None => True end -> all_chars inside written = true ->
  match port with Some p => all_chars solid p = true | None => True end ->
  all_chars inside (user_part user +:+ written +:+ port_part port) = true.
Proof.
  intros Hu Hw Hp. rewrite !all_chars_app, Hw.
  destruct user as [u|], port as [p|]; cbn [user_part port_part]; rewrite ?all_chars_app, ?Hu; try rewrite (solid_inside p Hp); done.
Qed.

(** The characters of an IPv6 literal. *)
Definition v6_char (b : Z) : bool :=
  ((code "0" <=? b) && (b <=? code "9")) || ((code "a" <=? b) && (b <=? code "f")) || ((code "A" <=? b) && (b <=? code "F")) ||
  (b =? code ":") || (b =? code ".").

(** Printable ASCII. *)
Definition graphic (b : Z) : bool := (32 <? b) && (b <? 127).

(** A URL whose authority is written right after its scheme, and the host of that authority: a name or an
    address in numbers and dots, some of its characters escaped perhaps, with or without the root dot; or an
    IPv6 literal in brackets.  Userinfo, port, what follows, and the case of the scheme are free. *)
Inductive names_host : string -> string -> Prop :=
  | named scheme user written host port tail :
      eq_ignore_ascii_case scheme "https" = true \/ eq_ignore_ascii_case scheme "http" = true ->
      contains_char ":" scheme = false ->
      match user with Some u => all_chars inside u = true | None => True end ->
      match port with Some p => all_chars solid p = true | None => True end ->
      tail_ok tail -> host <> "" -> all_chars graphic host = true -> strip_dot host = None ->
      all_chars graphic written = true -> spells written host \/ spells written (host +:+ ".") ->
      names_host (scheme +:+ "://" +:+ user_part user +:+ written +:+ port_part port +:+ tail) host
  | bracketed scheme user literal port tail :
      eq_ignore_ascii_case scheme "https" = true \/ eq_ignore_ascii_case scheme "http" = true ->
      contains_char ":" scheme = false ->
      match user with Some u => all_chars inside u = true | None => True end ->
      match port with Some p => all_chars solid p = true | None => True end ->
      tail_ok tail -> is_Some (parse_ipv6 literal) -> all_chars v6_char literal = true -> strip_dot literal = None ->
      names_host (scheme +:+ "://" +:+ user_part user +:+ ("[" +:+ literal +:+ "]") +:+ port_part port +:+ tail) literal.

Lemma extract_authority scheme auth tail :
  eq_ignore_ascii_case scheme "https" = true \/ eq_ignore_ascii_case scheme "http" = true ->
  contains_char ":" scheme = false -> all_chars inside auth = true -> tail_ok tail ->
  extract_normalized_host (scheme +:+ "://" +:+ auth +:+ tail) =
    let host := host_of_authority auth in
    if String.eqb host "" then None
    else let decoded := percent_decode_host host in Some (default decoded (strip_dot decoded)).
Proof.
  intros Hsch Hc Hin Ht. unfold extract_normalized_host, strip_scheme. rewrite split_scheme_app by done.
  replace (eq_ignore_ascii_case scheme "https" || eq_ignore_ascii_case scheme "http") with true
    by (destruct Hsch as [->| ->]; [done|by rewrite orb_true_r]).
  destruct (inside_chars auth Hin) as [Em Et]. rewrite map_chars_app, Em, take_until_app; [done|done|].
  destruct Ht as [->|(c & t' & -> & Hc')]; [by left|]. right. cbn [map_chars]. eexists _, _. split; [reflexivity|].
  destruct Hc' as [Hc'| ->]; [|done]. destruct (Ascii.eqb_spec c backslash) as [->|]; [done|exact Hc'].
Qed.

(** The guard sees through disguises: whatever userinfo and port surround the host, in whatever case
    the scheme is written, whichever of the host's characters are percent-encoded, with or without the
    root dot, and whatever follows (a backslash ends the authority as a slash does), the host the guard
    tests is the host itself. *)
Theorem disguises_are_seen_through scheme user written host port tail :
  eq_ignore_ascii_case scheme "https" = true \/ eq_ignore_ascii_case scheme "http" = true ->
  contains_char ":" scheme = false ->
  match user with Some u => all_chars inside u = true | None => True end ->
  match port with Some p => all_chars solid p = true | None => True end ->
  tail_ok tail -> host <> "" -> is_ascii host = true -> strip_dot host = None ->
  spells written host \/ spells written (host +:+ ".") ->
  extract_normalized_host (scheme +:+ "://" +:+ user_part user +:+ written +:+ port_part port +:+ tail) = Some host.
Proof.
  intros Hsch Hc Hu Hp Ht Hne Ha Hd Hw.
  assert (all_chars solid written = true) as Hs by (destruct Hw as [Hw|Hw]; by apply spells_solid in Hw).
  assert (written <> "") as Hwn by (intros ->; destruct Hw as [Hw|Hw]; inversion Hw; [done|by destruct host]).
  set (auth := user_part user +:+ written +:+ port_part port).
  assert (user_part user +:+ written +:+ port_part port +:+ tail = auth +:+ tail) as -> by (unfold auth; by rewrite !str_app_assoc).
  assert (all_chars inside auth = true) as Hin by (apply authority_inside; [done|by apply solid_inside|done]).
  rewrite extract_authority by done. unfold auth. rewrite authority_host by done. cbv zeta. rewrite (proj2 (String.eqb_neq written "") Hwn).
  unfold percent_decode_host. destruct Hw as [Hw|Hw]; rewrite (spells_decode _ _ Hw).
  - rewrite ascii_utf8, Hd by done. done.
  - rewrite ascii_utf8; [by rewrite strip_dot_app|]. unfold is_ascii in *. by rewrite all_chars_app, Ha.
Qed.

Lemma v6_not s c : all_chars v6_char s = true -> v6_char (code c) = false -> contains_char c s = false.
Proof.
  intros Hs Hc. induction s as [|a s IH]; [done|]. cbn [all_chars contains_char] in *. apply andb_true_iff in Hs as [Ha Hs].
  rewrite IH, orb_false_r by done. apply not_true_iff_false. intros ->%Ascii.eqb_eq. congruence.
Qed.

Lemma v6_decode s : all_chars v6_char s = true -> percent_decode_host s = s.
Proof.
  intros Hs. unfold percent_decode_host. assert (percent_decode s = s) as ->; [|by destruct (is_utf8 s)].
  induction s as [|a s IH]; [done|]. cbn [all_chars] in Hs. apply andb_true_iff in Hs as [Ha Hs].
  rewrite decode_plain, IH; [done|done|]. intros ->. done.
Qed.

Lemma bracket_host u s p :
  all_chars v6_char s = true -> match p with Some p => all_chars solid p = true | None => True end ->
  host_of_authority (user_part u +:+ ("[" +:+ s +:+ "]") +:+ port_part p) = s.
Proof.
  intros Hs Hp. unfold host_of_authority. set (hp := ("[" +:+ s +:+ "]") +:+ port_part p).
  assert (hp = String "[" (s +:+ String "]" (port_part p))) as Ehp by (unfold hp; rewrite !str_app_assoc; reflexivity).
  assert (contains_char "@" hp = false) as Hat.
  { rewrite Ehp. cbn [contains_char]. rewrite contains_app, (v6_not s "@") by done. cbn [contains_char].
    destruct p as [p|]; [exact (solid_not p "@" Hp eq_refl)|done]. }
  assert (default (user_part u +:+ hp) (last (split "@" (user_part u +:+ hp))) = hp) as ->.
  { destruct u as [u|]; cbn [user_part].
    - rewrite str_app_assoc. change ("@" +:+ hp) with (String "@" hp). by rewrite last_split, split_one.
    - change ("" +:+ hp) with hp. by rewrite split_one. }
  rewrite Ehp. change (strip_prefix "[" (String "[" (s +:+ String "]" (port_part p)))) with (Some (s +:+ String "]" (port_part p))).
  cbv beta iota. rewrite split_once_app; [done|]. by apply v6_not.
Qed.

Lemma v6_inside s : all_chars v6_char s = true -> all_chars inside s = true.
Proof.
  induction s as [|a s IH]; [done|]. cbn [all_chars]. intros [Ha Hs]%andb_true_iff. rewrite (IH Hs), andb_true_r.
  revert Ha. clear. destruct a as [[] [] [] [] [] [] [] []]; vm_compute; intros Ha; try discriminate Ha; auto.
Qed.

Lemma graphic_ascii s : all_chars graphic s = true -> is_ascii s = true.
Proof. apply all_chars_mono. unfold graphic. intros b. rewrite andb_true_iff, !Z.ltb_lt. lia. Qed.

Lemma names_host_extracted url host : names_host url host -> extract_normalized_host url = Some host.
Proof.
  intros [scheme user written h port tail Hsch Hc Hu Hp Ht Hne Hg Hd _ Hw|scheme user literal port tail Hsch Hc Hu Hp Ht H6 Hv Hd].
  { apply disguises_are_seen_through; try done. by apply graphic_ascii. }
  set (written := "[" +:+ literal +:+ "]"). set (auth := user_part user +:+ written +:+ port_part port).
  assert (user_part user +:+ written +:+ port_part port +:+ tail = auth +:+ tail) as -> by (unfold auth; by rewrite !str_app_assoc).
  assert (all_chars inside auth = true) as Hin.
  { apply authority_inside; [done| |done]. unfold written. rewrite !all_chars_app, (v6_inside literal) by done. done. }
  rewrite extract_authority by done. unfold auth, written. rewrite bracket_host by done. cbv zeta.
  assert (literal <> "") as Hn by (intros ->; by destruct H6 as [? [=]]).
  by rewrite (proj2 (String.eqb_neq literal "") Hn), v6_decode, Hd by done.
Qed.

(** C33.  For a URL whose authority is written right after its scheme, however the host is disguised in it
    (userinfo, port, escapes, root dot, backslash), the guard's verdict is about that host, and it blocks the
    URL exactly when the host is a metadata service (one of the documented names, an address of the
    link-local block or one of the documented addresses in any spelling a resolver accepts, or embedded in
    an IPv6 literal, or the IPv6 service) or is covered by the operator's list, no override covers it and the
    guard is not switched off; an override covers every spelling of its address. *)
Theorem blocked_exactly_metadata url allow allow_all extra host :
  names_host url host ->
  (ssrf_blocked_host url allow allow_all extra = Some host <-> allow_all = false /\ ~ listed host allow /\ forbidden host extra) /\
  (ssrf_blocked_host url allow allow_all extra = Some host \/ ssrf_blocked_host url allow allow_all extra = None).
Proof.
  intros He%names_host_extracted. destruct allow_all.
  { unfold ssrf_blocked_host. split; [naive_solver|by right]. }
  pose proof (fun h => blocked_by_host url allow extra h) as Hb. split; [rewrite Hb; naive_solver|].
  destruct (ssrf_blocked_host url allow false extra) as [h|]; [|by right]. left.
  destruct (proj1 (Hb h) eq_refl) as [Hh _]. congruence.
Qed.

(** The instance metadata service, as an integer in capitals with a port, and escaped behind a decoy. *)
Lemma disguises_are_seen_through_witness :
  extract_normalized_host ("HTTPS" +:+ "://" +:+ user_part (Some "api.openai.com") +:+ "169%2e254.169.254." +:+
    port_part (Some "443") +:+ "\x.openai.com/v1") = Some "169.254.169.254" /\
  ssrf_blocked_host "HTTPS://api.openai.com@169%2e254.169.254.:443\x.openai.com/v1" [] false [] = Some "169.254.169.254".
Proof.
  split; [|vm_compute; reflexivity].
  apply disguises_are_seen_through.
  - left. reflexivity.
  - reflexivity.
  - reflexivity.
  - reflexivity.
  - right. exists "\"%char, "x.openai.com/v1". split; [reflexivity|]. right. reflexivity.
  - discriminate.
  - reflexivity.
  - reflexivity.
  - right. repeat (first [apply spells_end | eapply spells_escape; [reflexivity|reflexivity|reflexivity|]
                         | apply spells_plain; [reflexivity|]]).
Defined.

(** The IPv4 metadata address inside an IPv6 literal, behind userinfo. *)
Lemma blocked_exactly_metadata_witness :
  ssrf_blocked_host ("https" +:+ "://" +:+ user_part (Some "api.openai.com") +:+ ("[" +:+ "::ffff:169.254.169.254" +:+ "]") +:+
    port_part None +:+ "/v1") [] false [] = Some "::ffff:169.254.169.254".
Proof.
  apply blocked_exactly_metadata.
  - apply bracketed; [by left|reflexivity|reflexivity|exact I| |by eexists|reflexivity|reflexivity].
    right. exists "/"%char, "v1". split; [reflexivity|]. left. reflexivity.
  - split; [reflexivity|]. split; [intros (e & He & _); by apply not_elem_of_nil in He|].
    right. right. left. exists (ipv4 169 254 169 254). split; [|left; exists 169, 254; split; [lia|split; [lia|reflexivity]]].
    right. eexists. split; [vm_compute; reflexivity|vm_compute; reflexivity].
Defined.

(** A tab inside the host hides it from the guard; the URL standard's parser removes tabs and line ends. *)
Example tab_hides_the_host :
  ssrf_blocked_host ("https://169.254." +:+ String (Ascii.ascii_of_nat 9) "169.254/x") [] false [] = None.
Proof. vm_compute. reflexivity. Qed.

(** Spellings on which both readings agree with the resolver. *)
Example spellings_agree :
  inet_aton "2852039166" = Some (ipv4 169 254 169 254) /\ inet_aton "0xa9.0376.43518" = Some (ipv4 169 254 169 254) /\
  inet_aton "169.254.169.254" = Some (ipv4 169 254 169 254) /\ inet_aton "api.openai.com" = None.
Proof. vm_compute. auto. Qed.
