(* ===== verification/EgressAuth.v ===== *)
(** * Outbound credentials (crates/busbar/src/egress_auth)

    How a lane presents its own identity to its provider: the credential picked from the protocol and
    the provider's [auth:] style ([resolve]), the headers it produces, the two OAuth mechanisms (the
    credential material they parse and the token endpoint they vet) and the background refresher of a
    minted bearer token.  The JSON, base64 and RSA crates, the files and the token endpoint are the
    class [OAuthLibs]; the mint itself is an answer of the environment. *)
From stdpp Require Import base gmap list strings.
From Stdlib Require Import ZArith Lia Ascii.
From S2P Require Import Prelude Json Windows EventStream Signing Keys Sse Sigv4 NetGuard.
Open Scope Z_scope.
Open Scope rust_scope.

(** [config::ProviderAuth] and [auth::UpstreamCreds]. *)
Inductive ProviderAuth := Bearer | ApiKey | JwtBearer | OAuthClientCredentials.
Inductive UpstreamCreds := Own | Passthrough.

Definition Headers : Type := list (string * string).

(** ** Static credentials *)

(** [proto::bearer_auth_headers] and [api_key_headers]: a value [HeaderValue] refuses is left out. *)
Definition bearer_auth_headers (key : string) : Headers :=
  let v := "Bearer " +:+ key in if header_ok v then [(AUTHORIZATION, v)] else [].

Definition api_key_headers (header key : string) : Headers :=
  if header_ok key then [(header, key)] else [].

(** The native scheme of an Anthropic credential. *)
Inductive AnthropicCredScheme := SchemeApiKey | SchemeOAuth | SchemeAmbiguous.

Definition CRED_PREFIX_API_KEY : string := "sk-ant-api".
Definition CRED_PREFIX_OAUTH : string := "sk-ant-oat".

Definition classify_credential (key : string) : AnthropicCredScheme :=
  let k := str_trim_start key in
  if starts_with k CRED_PREFIX_API_KEY then SchemeApiKey
  else if starts_with k CRED_PREFIX_OAUTH then SchemeOAuth
  else SchemeAmbiguous.

Definition HDR_X_API_KEY : string := "x-api-key".
Definition version_header : string * string := ("anthropic-version", "2023-06-01").

Definition safe (name raw : string) : option (string * string) :=
  if header_ok raw then Some (name, raw) else None.

Definition anthropic_auth_headers (key : string) (creds : option UpstreamCreds) : Headers :=
  let x_api_key := safe HDR_X_API_KEY key in
  let x_api_key_trimmed := safe HDR_X_API_KEY (str_trim_start key) in
  let authorization := safe AUTHORIZATION ("Bearer " +:+ key) in
  let assemble (creds : list (option (string * string))) := omap id creds ++ [version_header] in
  match classify_credential key with
  | SchemeApiKey => assemble [x_api_key_trimmed]
  | SchemeOAuth => assemble [authorization]
  | SchemeAmbiguous =>
      match creds with
      | Some Passthrough => assemble [authorization]
      | Some Own => assemble [x_api_key]
      | None => assemble [x_api_key; authorization]
      end
  end.

(** ** The cached bearer token *)
Module CachedToken.
Record t := mk { token : string; expires_at : Z }.
Definition empty : t := mk "" 0.
End CachedToken.

Definition bearer_headers_for (cached : CachedToken.t) : Headers :=
  if String.eqb (CachedToken.token cached) "" then []
  else bearer_auth_headers (CachedToken.token cached).

Definition is_ready (cached : CachedToken.t) : bool := negb (String.eqb (CachedToken.token cached) "").

(** ** The credential of a lane *)
Inductive Credential :=
  | NoCredential
  | StaticBearer (proto : string)
  | ApiKeyHeader (header : string)
  | AnthropicNative
  | SigV4
  | BearerToken (cached : CachedToken.t).

Definition resolve (protocol_name : string) (auth : option ProviderAuth) : Credential :=
  match auth with
  | Some ApiKey => ApiKeyHeader "api-key"
  | Some JwtBearer | Some OAuthClientCredentials => NoCredential
  | _ =>
      if String.eqb protocol_name "gemini" then ApiKeyHeader "x-goog-api-key"
      else if String.eqb protocol_name "anthropic" then AnthropicNative
      else if String.eqb protocol_name "bedrock" then SigV4
      else if String.eqb protocol_name "cohere" then StaticBearer "cohere"
      else if String.eqb protocol_name "responses" then StaticBearer "responses"
      else StaticBearer "openai"
  end.

Section HeadersFor.
Context `{SigCrypto}.

(** [CredentialProvider::headers_for]; the upstream-credential mode rides in the signing context. *)
Definition headers_for (c : Credential) (key : string) (ctx : SigningContext.t) (creds : UpstreamCreds)
    : Headers :=
  match c with
  | NoCredential => []
  | StaticBearer _ => bearer_auth_headers key
  | ApiKeyHeader header => api_key_headers header key
  | AnthropicNative => anthropic_auth_headers key (Some creds)
  | SigV4 => sigv4_sign_headers key ctx
  | BearerToken cached => bearer_headers_for cached
  end.
End HeadersFor.

(** ** The token endpoint and the credential material *)
Module MetadataSsrfPolicy.
Record t := mk { allow_overrides : list string; allow_all : bool; blocked_hosts : list string }.
End MetadataSsrfPolicy.

(** The failures of building an OAuth credential. *)
Inductive AuthError :=
  | NotIdSecret | EmptyIdOrSecret
  | PlaintextPublicEndpoint (url : string)
  | MetadataEndpoint (url host : string)
  | UnreadableKeyFile | BadServiceAccount | EmptyKey | BadBase64 | BadRsaKey.

(** [https], or plain [http] to a private or loopback host. *)
Definition transport_ok (url : string) : bool :=
  let host_private := match extract_normalized_host url with
                      | Some h => host_is_private_or_loopback h
                      | None => false
                      end in
  scheme_is url "https" || (host_private && scheme_is url "http").

Definition blocked_by (ssrf : MetadataSsrfPolicy.t) (url : string) : option string :=
  ssrf_blocked_host url (MetadataSsrfPolicy.allow_overrides ssrf) (MetadataSsrfPolicy.allow_all ssrf)
    (MetadataSsrfPolicy.blocked_hosts ssrf).

(** [oauth_client_credentials::validate_token_url]. *)
Definition validate_token_url (token_url : string) (ssrf : MetadataSsrfPolicy.t) : AuthError + unit :=
  if negb (transport_ok token_url) then inl (PlaintextPublicEndpoint token_url)
  else match blocked_by ssrf token_url with
       | Some host => inl (MetadataEndpoint token_url host)
       | None => inr tt
       end.

(** [jwt_bearer::validate_token_uri]. *)
Definition validate_token_uri (token_uri : string) (ssrf : MetadataSsrfPolicy.t) : AuthError + unit :=
  if negb (transport_ok token_uri) then inl (PlaintextPublicEndpoint token_uri)
  else match blocked_by ssrf token_uri with
       | Some host => inl (MetadataEndpoint token_uri host)
       | None => inr tt
       end.

Definition split_credential (credential : string) : AuthError + (string * string) :=
  match split_once ":" credential with
  | None => inl NotIdSecret
  | Some (client_id, client_secret) =>
      if String.eqb client_id "" || String.eqb client_secret "" then inl EmptyIdOrSecret
      else inr (client_id, client_secret)
  end.

Definition oauth_validate_credential (credential : string) : AuthError + unit :=
  match split_credential credential with inl e => inl e | inr _ => inr tt end.

Module ServiceAccount.
Record t := mk { client_email : string; private_key : string; token_uri : string }.
End ServiceAccount.

(** Files, [serde_json] on a service account (its [token_uri] defaults to Google's), the standard base64
    decoder and [ring]'s PKCS#8 parser. *)
Class OAuthLibs := {
  RsaKeyPair : Type;
  read_to_string : string -> option string;
  service_account_from_str : string -> option ServiceAccount.t;
  standard_decode : string -> option (list Z);
  from_pkcs8 : list Z -> option RsaKeyPair }.

(** [str::lines]: split at [\n], one [\r] before it dropped, no empty last line. *)
Fixpoint strip_cr (s : string) : string :=
  match s with
  | EmptyString => EmptyString
  | String c EmptyString => if Ascii.eqb c "013"%char then EmptyString else s
  | String c s => String c (strip_cr s)
  end.
Fixpoint finish_lines (parts : list string) : list string :=
  match parts with
  | [] => []
  | [final] => if String.eqb final "" then [] else [final]
  | part :: parts => strip_cr part :: finish_lines parts
  end.
Definition lines (s : string) : list string := finish_lines (split NL s).

Section OAuth.
Context `{OAuthLibs}.

Definition read_credential (credential : string) : AuthError + string :=
  if starts_with (str_trim_start credential) "{" then inr credential
  else match read_to_string credential with Some s => inr s | None => inl UnreadableKeyFile end.

(** The body of the PEM file without its armour lines and white space. *)
Definition pem_body (pem : string) : string :=
  of_chars (List.filter (fun c => negb (char_is_whitespace c))
    (mjoin (chars <$> List.filter (fun l => negb (starts_with l "-----")) (lines pem)))).

Definition pem_to_pkcs8_der (pem : string) : AuthError + list Z :=
  let body := pem_body pem in
  if String.eqb body "" then inl EmptyKey
  else match standard_decode body with Some der => inr der | None => inl BadBase64 end.

Definition parse_service_account (credential : string) (ssrf : MetadataSsrfPolicy.t)
    : AuthError + (ServiceAccount.t * RsaKeyPair) :=
  match read_credential credential with
  | inl e => inl e
  | inr sa_json =>
      match service_account_from_str sa_json with
      | None => inl BadServiceAccount
      | Some sa =>
          match validate_token_uri (ServiceAccount.token_uri sa) ssrf with
          | inl e => inl e
          | inr _ =>
              match pem_to_pkcs8_der (ServiceAccount.private_key sa) with
              | inl e => inl e
              | inr der => match from_pkcs8 der with
                           | Some key_pair => inr (sa, key_pair)
                           | None => inl BadRsaKey
                           end
              end
          end
      end
  end.

Definition jwt_validate_credential (credential : string) (ssrf : MetadataSsrfPolicy.t) : AuthError + unit :=
  match parse_service_account credential ssrf with inl e => inl e | inr _ => inr tt end.

(** The two [build] functions, up to the refresher they spawn: the credential starts without a token. *)
Definition jwt_build (credential : string) (ssrf : MetadataSsrfPolicy.t) : AuthError + Credential :=
  match parse_service_account credential ssrf with
  | inl e => inl e
  | inr _ => inr (BearerToken CachedToken.empty)
  end.

Definition oauth_build (credential token_url : string) (ssrf : MetadataSsrfPolicy.t) : AuthError + Credential :=
  match split_credential credential with
  | inl e => inl e
  | inr _ => match validate_token_url token_url ssrf with
             | inl e => inl e
             | inr _ => inr (BearerToken CachedToken.empty)
             end
  end.
End OAuth.

(** ** The refresher *)
Definition REFRESH_SKEW_SECS : Z := 300.
Definition MIN_SLEEP_SECS : Z := 30.

Definition next_refresh_secs (expires_at now : Z) : Z :=
  let ttl := Z.max 0 (expires_at - now) in
  if ttl =? 0 then MIN_SLEEP_SECS
  else if ttl <=? REFRESH_SKEW_SECS then Z.max 1 (ttl / 2)
  else Z.max MIN_SLEEP_SECS (ttl - REFRESH_SKEW_SECS).

(** What the token endpoint answers to one mint, the seconds it took, and whether the lane is still
    there when the answer arrives. *)
Inductive Answer := Granted (access_token : string) (expires_in : Z) | Failed.
Module Turn.
Record t := mk { answer : Answer; took : Z; alive : bool }.
End Turn.

(** The token a mint that started at [now] returns. *)
Definition minted (now : Z) (access_token : string) (expires_in : Z) : CachedToken.t :=
  CachedToken.mk access_token (Z.min U64_MAX (now + expires_in)).

(** One pass of the loop: what the cache holds after it, and how long the task sleeps ([None]: the
    provider was dropped and the task is over). *)
Definition refresh_turn (start : Z) (turn : Turn.t) (cached : CachedToken.t)
    : CachedToken.t * option Z :=
  let now := start + Turn.took turn in
  match Turn.answer turn with
  | Granted access_token expires_in =>
      let fresh := minted start access_token expires_in in
      if String.eqb access_token "" then
        (cached, if Turn.alive turn then Some MIN_SLEEP_SECS else None)
      else if Turn.alive turn then (fresh, Some (next_refresh_secs (CachedToken.expires_at fresh) now))
      else (cached, None)
  | Failed => (cached, if Turn.alive turn then Some MIN_SLEEP_SECS else None)
  end.

(** [refresh_loop]: the content of the cache at time [at_], when pass [n], answered by [env n], starts
    at [start].  [None] once the lane is gone; every pass takes at least a second, so the fuel of
    [token_at] covers every pass up to [at_]. *)
Fixpoint refresh_loop (fuel : nat) (env : nat -> Turn.t) (n : nat) (start : Z) (cached : CachedToken.t) (at_ : Z)
    : option CachedToken.t :=
  match fuel with
  | O => None
  | S fuel =>
      let turn := env n in
      if at_ <? start + Turn.took turn then Some cached
      else
        let '(cached, sleep) := refresh_turn start turn cached in
        let? secs := sleep in
        refresh_loop fuel env (S n) (start + Turn.took turn + secs) cached at_
  end.

(** The cache of a credential spawned at [start]. *)
Definition token_at (env : nat -> Turn.t) (start at_ : Z) : option CachedToken.t :=
  refresh_loop (S (Z.to_nat (at_ - start + 1))) env 0 start CachedToken.empty at_.

(** ** Outbound credentials: the refresher keeps ahead of expiry, one credential per request *)

(** ** The refresher *)

(** A live token is minted again before it expires, with this much of its life left. *)
Lemma next_refresh_margin expires_at now :
  now + 2 <= expires_at ->
  let s := next_refresh_secs expires_at now in
  1 <= s < expires_at - now /\ Z.min REFRESH_SKEW_SECS ((expires_at - now) / 2) <= expires_at - now - s.
Proof.
  intros Hlt. unfold next_refresh_secs, MIN_SLEEP_SECS, REFRESH_SKEW_SECS. rewrite Z.max_r by lia.
  destruct (Z.eqb_spec (expires_at - now) 0); [lia|]. pose proof (Z.div_mod (expires_at - now) 2 ltac:(lia)) as Hd.
  pose proof (Z.mod_pos_bound (expires_at - now) 2 ltac:(lia)) as Hm.
  destruct (Z.leb_spec (expires_at - now) 300); simpl; lia.
Qed.

Lemma next_refresh_early expires_at now :
  330 <= expires_at - now -> next_refresh_secs expires_at now = expires_at - now - REFRESH_SKEW_SECS.
Proof.
  intros Hlt. unfold next_refresh_secs, MIN_SLEEP_SECS, REFRESH_SKEW_SECS. rewrite Z.max_r by lia.
  destruct (Z.eqb_spec (expires_at - now) 0); [lia|]. destruct (Z.leb_spec (expires_at - now) 300); lia.
Qed.

(** A token endpoint that answers within the thirty seconds the minter's client waits, whose tokens live
    six minutes or more, and of whose answers no five in a row are failures. *)
Definition granted (turn : Turn.t) : bool :=
  match Turn.answer turn with Granted tok _ => negb (String.eqb tok "") | Failed => false end.

Record endpoint_ok (env : nat -> Turn.t) : Prop := {
  eo_alive : forall n, Turn.alive (env n) = true;
  eo_took : forall n, 0 <= Turn.took (env n) <= 30;
  eo_ttl : forall n tok e, Turn.answer (env n) = Granted tok e -> 360 <= e;
  eo_grants : forall n, exists k, (k <= 4)%nat /\ granted (env (n + k)%nat) = true }.

(** The cache before a pass: empty, or a token that outlives the passes up to the next grant. *)
Definition ahead (env : nat -> Turn.t) (n : nat) (start : Z) (c : CachedToken.t) : Prop :=
  c = CachedToken.empty \/
  is_ready c = true /\
  exists k, (k <= 4)%nat /\ granted (env (n + k)%nat) = true /\
    start + 60 * Z.of_nat k + 30 < CachedToken.expires_at c.

Lemma turn_not_granted start turn c :
  Turn.alive turn = true -> granted turn = false -> refresh_turn start turn c = (c, Some MIN_SLEEP_SECS).
Proof.
  unfold granted, refresh_turn. intros -> Hg. destruct (Turn.answer turn) as [tok e|]; [|done].
  by rewrite negb_false_iff in Hg; rewrite Hg.
Qed.

Lemma turn_granted env n start c :
  endpoint_ok env -> granted (env n) = true -> start + 360 <= U64_MAX ->
  exists c' secs, refresh_turn start (env n) c = (c', Some secs) /\ is_ready c' = true /\ 1 <= secs /\
    start + Turn.took (env n) + secs = CachedToken.expires_at c' - REFRESH_SKEW_SECS.
Proof.
  intros Henv Hg Hm. pose proof (eo_took env Henv n) as Ht. pose proof (eo_ttl env Henv n) as He.
  unfold granted, refresh_turn in *. rewrite (eo_alive env Henv). destruct (Turn.answer (env n)) as [tok e|]; [|done].
  specialize (He tok e eq_refl). rewrite negb_true_iff in Hg. rewrite Hg.
  eexists _, _. split; [done|]. unfold is_ready, minted in *. cbn [CachedToken.token CachedToken.expires_at].
  rewrite Hg, next_refresh_early by lia. unfold REFRESH_SKEW_SECS. repeat split; lia.
Qed.

Lemma ahead_step env n start c :
  endpoint_ok env -> start + 360 <= U64_MAX -> ahead env n start c ->
  exists c' secs, refresh_turn start (env n) c = (c', Some secs) /\ 1 <= secs /\
    ahead env (S n) (start + Turn.took (env n) + secs) c'.
Proof.
  intros Henv Hm Ha. destruct (granted (env n)) eqn:Hg.
  - destruct (turn_granted env n start c Henv Hg Hm) as (c' & secs & -> & Hr & Hs & He). eexists _, _. split_and!; [done..|].
    right. split; [done|]. destruct (eo_grants env Henv (S n)) as (k & Hk & Hgk). exists k. rewrite He.
    unfold REFRESH_SKEW_SECS. split_and!; [done..|]. lia.
  - rewrite (turn_not_granted _ _ _ (eo_alive env Henv n) Hg). eexists _, _. split_and!; [done|unfold MIN_SLEEP_SECS; lia|].
    destruct Ha as [->|(Hr & k & Hk & Hgk & Hlt)]; [by left|]. right. split; [done|].
    destruct k as [|k]; [by rewrite Nat.add_0_r in Hgk; congruence|].
    exists k. rewrite Nat.add_succ_r in Hgk. split_and!; [lia|done|]. pose proof (eo_took env Henv n).
    unfold MIN_SLEEP_SECS. lia.
Qed.

Lemma ahead_now env n start c t :
  endpoint_ok env -> ahead env n start c -> t < start + Turn.took (env n) ->
  c = CachedToken.empty \/ is_ready c = true /\ t < CachedToken.expires_at c.
Proof.
  intros Henv [->|(Hr & k & _ & _ & Hlt)] Ht; [by left|]. right. split; [done|].
  pose proof (eo_took env Henv n). lia.
Qed.

Lemma refresh_loop_ahead env fuel n start c t :
  endpoint_ok env -> t + 360 <= U64_MAX -> ahead env n start c -> (Z.to_nat (t - start + 1) < fuel)%nat ->
  exists c', refresh_loop fuel env n start c t = Some c' /\
    (c' = CachedToken.empty \/ is_ready c' = true /\ t < CachedToken.expires_at c').
Proof.
  intros Henv Hm. revert n start c. induction fuel as [|fuel IH]; intros n start c Ha Hf; [lia|].
  cbn [refresh_loop]. destruct (Z.ltb_spec t (start + Turn.took (env n))) as [Hlt|Hge].
  - eexists. split; [done|]. by eapply ahead_now.
  - pose proof (eo_took env Henv n) as Htook.
    destruct (ahead_step env n start c Henv ltac:(lia) Ha) as (c' & secs & -> & Hs & Ha'). simpl. apply IH; [done|]. lia.
Qed.

(** C26.  A lane whose provider mints its bearer tokens never sends an expired one: with the thirty-second
    timeout of the minter's client, tokens that live at least six minutes, and no five mints failing in
    a row, whenever a request reads the cache it finds either the empty token of the window before the
    first mint (no credential is sent, and the lane is not ready for probes) or a token that has not
    expired. *)
Theorem token_never_served_expired env start t :
  endpoint_ok env -> t + 360 <= U64_MAX ->
  exists c, token_at env start t = Some c /\
    ((bearer_headers_for c = [] /\ is_ready c = false) \/ (is_ready c = true /\ t < CachedToken.expires_at c)).
Proof.
  intros Henv Hm.
  destruct (refresh_loop_ahead env (S (Z.to_nat (t - start + 1))) 0 start CachedToken.empty t Henv Hm) as (c & Hc & Hok);
    [by left|lia|].
  exists c. split; [done|]. destruct Hok as [->|?]; [by left|by right].
Qed.

(** An endpoint that fails four mints out of five. *)
Definition flaky_endpoint (n : nat) : Turn.t :=
  Turn.mk (if (n mod 5 =? 4)%nat then Granted "tok" 3600 else Failed) 30 true.

Lemma flaky_endpoint_ok : endpoint_ok flaky_endpoint.
Proof.
  split; [done|simpl; lia| |].
  - intros n tok e. unfold flaky_endpoint. cbn [Turn.answer]. destruct (n mod 5 =? 4)%nat; [|done]. intros [= _ <-]. lia.
  - intros n. exists (4 - n mod 5)%nat. split; [lia|]. unfold granted, flaky_endpoint. cbn [Turn.answer].
    assert ((n + (4 - n mod 5)) mod 5 = 4)%nat as ->; [|done].
    pose proof (Nat.mod_upper_bound n 5 ltac:(lia)). pose proof (Nat.div_mod n 5 ltac:(lia)).
    replace (n + (4 - n mod 5))%nat with (4 + (n / 5) * 5)%nat by lia. by rewrite Nat.Div0.mod_add.
Qed.

Lemma token_never_served_expired_witness :
  exists c, token_at flaky_endpoint 1000 6000 = Some c /\
    ((bearer_headers_for c = [] /\ is_ready c = false) \/ (is_ready c = true /\ 6000 < CachedToken.expires_at c)).
Proof. apply token_never_served_expired; [exact flaky_endpoint_ok|vm_compute; discriminate]. Defined.

(** The comment on [next_refresh_secs] promises a mint strictly before expiry for every live token; one
    with a second to live is minted again when it has expired. *)
Example last_second_not_early : next_refresh_secs 1001 1000 = 1 /\ 1000 + next_refresh_secs 1001 1000 = 1001.
Proof. done. Qed.

(** ** One credential per request *)
Definition CREDENTIAL_HEADERS : list string := [AUTHORIZATION; HDR_X_API_KEY; "api-key"; "x-goog-api-key"].
Definition is_credential (h : string * string) : bool := existsb (String.eqb h.1) CREDENTIAL_HEADERS.

(** The headers a lane may send: at most one of them carries a credential, and each is a legal header
    value, so that a key with a line break cannot add a header of its own. *)
Definition single_scheme (hs : Headers) : Prop :=
  (length (List.filter is_credential hs) <= 1)%nat /\ Forall (fun h => header_ok h.2 = true) hs.

Lemma safe_single name raw :
  single_scheme (omap id [safe name raw] ++ [version_header]).
Proof.
  unfold safe. destruct (header_ok raw) eqn:E; simpl; split; simpl.
  - destruct (is_credential (name, raw)); simpl; lia.
  - constructor; [done|]. by constructor.
  - lia.
  - by constructor.
Qed.

Lemma anthropic_single key creds : single_scheme (anthropic_auth_headers key (Some creds)).
Proof.
  unfold anthropic_auth_headers. destruct (classify_credential key); [apply safe_single..|].
  destruct creds; apply safe_single.
Qed.

Lemma bearer_single key : single_scheme (bearer_auth_headers key).
Proof.
  unfold bearer_auth_headers. cbn zeta. destruct (header_ok _) eqn:E; split; simpl; auto using Forall_nil.
Qed.

Lemma api_key_single header key : single_scheme (api_key_headers header key).
Proof.
  unfold api_key_headers. destruct (header_ok key) eqn:E; split; simpl; auto using Forall_nil.
  destruct (is_credential _); simpl; lia.
Qed.

Section Wire.
Context `{SigCrypto}.

Lemma sigv4_single key ctx : single_scheme (sigv4_sign_headers key ctx).
Proof.
  unfold sigv4_sign_headers. destruct (split_lane_key key) as [[[access secret] token]|]; [|by split; simpl; [lia|]].
  destruct (format_amz_time _) as [amzdate datestamp]. cbn zeta.
  destruct (match token with Some t => header_ok t | None => true end) eqn:Et; cbn [negb]; [|by split; simpl; [lia|]].
  destruct (sign_v4 _ _ _ _ _ _ _ _ _ _) as [signature signed_headers].
  destruct (header_ok _ && _ && _) eqn:Eh; [|by split; simpl; [lia|]].
  rewrite !andb_true_iff in Eh. destruct Eh as [[Ha Hd] Hp].
  split; [destruct token; simpl; lia|]. repeat constructor; simpl; auto. destruct token; [|constructor].
  by repeat constructor.
Qed.

(** Whatever the protocol, the auth style and the mode, the headers a lane sends upstream carry at
    most one credential, so no request shows the two-scheme tell, and every value is a legal header
    value, so a key with a line break in it can neither inject a header nor be sent as an empty one. *)
Theorem lanes_send_one_credential protocol auth cached key ctx creds :
  single_scheme (headers_for (resolve protocol auth) key ctx creds) /\
  single_scheme (headers_for (BearerToken cached) key ctx creds).
Proof.
  split; [|simpl; unfold bearer_headers_for; destruct (String.eqb _ _); [split; simpl; [lia|constructor]|apply bearer_single]].
  unfold resolve. destruct auth as [[]|];
    repeat case_match; simpl; auto using bearer_single, api_key_single, anthropic_single, sigv4_single;
    split; simpl; auto using Forall_nil; lia.
Qed.
End Wire.

(** A credential without a recognised prefix would be sent under both schemes without the mode. *)
Example mode_breaks_the_tie :
  anthropic_auth_headers "tok" None = [("x-api-key", "tok"); ("authorization", "Bearer tok"); version_header] /\
  anthropic_auth_headers "tok" (Some Passthrough) = [("authorization", "Bearer tok"); version_header] /\
  anthropic_auth_headers "  sk-ant-api03" (Some Passthrough) = [("x-api-key", "sk-ant-api03"); version_header].
Proof. vm_compute. auto. Qed.
