(* ===== verification/Secrets.v ===== *)
(** * Secret references (crates/busbar/src/config/secret.rs)

    A secret in the configuration is a reference [{ module, settings }], or one of the two spellings that
    desugar to the built-in modules.  The environment and the files are the class [Host]; a [kind: secret]
    plugin is an argument of the resolver. *)
From stdpp Require Import base gmap list strings.
From Stdlib Require Import ZArith Lia Ascii.
From S2P Require Import Prelude Json NetGuard.
Open Scope Z_scope.
Open Scope rust_scope.

Definition SECRET_MODULE_ENV : string := "env".
Definition SECRET_MODULE_FILE : string := "file".
Definition SECRET_ENV_SETTING_KEY : string := "key".
Definition SECRET_FILE_SETTING_PATH : string := "path".

Module SecretRef.
Record t := mk { module : string; settings : Map }.

Definition env (var : string) : t := mk SECRET_MODULE_ENV [(SECRET_ENV_SETTING_KEY, Str var)].
Definition file (path : string) : t := mk SECRET_MODULE_FILE [(SECRET_FILE_SETTING_PATH, Str path)].

Definition env_var (s : t) : option string :=
  if String.eqb (module s) SECRET_MODULE_ENV then v ← map_get SECRET_ENV_SETTING_KEY (settings s); as_str v
  else None.

Definition file_path (s : t) : option string :=
  if String.eqb (module s) SECRET_MODULE_FILE then v ← map_get SECRET_FILE_SETTING_PATH (settings s); as_str v
  else None.

Definition describe (s : t) : string :=
  match env_var s with
  | Some var => "env:" +:+ var
  | None => match file_path s with
            | Some path => "file:" +:+ path
            | None => "secret module '" +:+ module s +:+ "'"
            end
  end.
End SecretRef.

(** ** Reading a reference ([Deserialize for SecretRef]) *)
Inductive RefError :=
  | InlineLiteral | WrongType | DuplicateField (name : string) | TwoSugars | UnknownField (name : string)
  | BothForms | EmptyModule | SugarWithSettings | EmptySugar (kind : string) | NothingNamed.

Module Partial.
Record t := mk { module : option string; settings : option Map; sugar : option (string * string) }.
Definition none : t := mk None None None.
End Partial.

(** One key of the map, with its value. *)
Definition visit_key (key : string) (value : Value) (p : Partial.t) : RefError + Partial.t :=
  if String.eqb key "module" then
    match Partial.module p, as_str value with
    | Some _, _ => inl (DuplicateField "module")
    | None, Some m => inr (Partial.mk (Some m) (Partial.settings p) (Partial.sugar p))
    | None, None => inl WrongType
    end
  else if String.eqb key "settings" then
    match Partial.settings p, as_object value with
    | Some _, _ => inl (DuplicateField "settings")
    | None, Some m => inr (Partial.mk (Partial.module p) (Some m) (Partial.sugar p))
    | None, None => inl WrongType
    end
  else if String.eqb key "env" || String.eqb key "file" then
    match Partial.sugar p, as_str value with
    | Some _, _ => inl TwoSugars
    | None, Some s => inr (Partial.mk (Partial.module p) (Partial.settings p) (Some (key, s)))
    | None, None => inl WrongType
    end
  else inl (UnknownField key).

Fixpoint visit_keys (m : Map) (p : Partial.t) : RefError + Partial.t :=
  match m with
  | [] => inr p
  | (key, value) :: m => match visit_key key value p with inl e => inl e | inr p => visit_keys m p end
  end.

Definition finish_ref (p : Partial.t) : RefError + SecretRef.t :=
  match Partial.module p, Partial.sugar p with
  | Some _, Some _ => inl BothForms
  | Some module, None =>
      if is_empty (trim module) then inl EmptyModule
      else inr (SecretRef.mk module (default [] (Partial.settings p)))
  | None, Some (kind, value) =>
      match Partial.settings p with
      | Some _ => inl SugarWithSettings
      | None =>
          if is_empty (trim value) then inl (EmptySugar kind)
          else inr (if String.eqb kind SECRET_MODULE_ENV then SecretRef.env value else SecretRef.file value)
      end
  | None, None => inl NothingNamed
  end.

(** [serde_json::from_value::<SecretRef>]. *)
Definition ref_from_value (v : Value) : RefError + SecretRef.t :=
  match v with
  | Str _ => inl InlineLiteral
  | Object m => match visit_keys m Partial.none with inl e => inl e | inr p => finish_ref p end
  | _ => inl WrongType
  end.

(** ** Resolution *)

(** [std::env::var] (of a variable whose value is UTF-8) and [std::fs::read]. *)
Class Host := { env_value : string -> option string; file_bytes : string -> option string }.

Inductive SecretError :=
  | EnvNeedsKey | FileNeedsPath
  | EnvEmpty (var : string) | EnvUnset (var : string)
  | FileEmpty (path : string) | FileUnreadable (path : string)
  | NotBuiltin (module : string) | PluginFailed (module : string) | PluginEmpty (module : string)
  | NoPlugins (module : string) | NotUtf8 (what : string) | EmptyAfterTrim (what : string).

(** [trim_end_matches(['\r', '\n'])]. *)
Definition line_end (c : ascii) : bool := Ascii.eqb c "013"%char || Ascii.eqb c "010"%char.
Fixpoint trim_line_ends (s : string) : string :=
  match s with
  | EmptyString => EmptyString
  | String c s =>
      match trim_line_ends s with
      | EmptyString => if line_end c then EmptyString else String c EmptyString
      | s => String c s
      end
  end.

Definition text_of (what bytes : string) : SecretError + string :=
  if negb (is_utf8 bytes) then inl (NotUtf8 what)
  else
    let trimmed := trim_line_ends bytes in
    if String.eqb trimmed "" then inl (EmptyAfterTrim what) else inr trimmed.

Section Resolver.
Context `{Host}.

Definition self_env_var_checked (secret : SecretRef.t) : SecretError + option string :=
  if negb (String.eqb (SecretRef.module secret) SECRET_MODULE_ENV) then inr None
  else match SecretRef.env_var secret with
       | Some v => if is_empty (trim v) then inl EnvNeedsKey else inr (Some v)
       | None => inl EnvNeedsKey
       end.

Definition self_file_path_checked (secret : SecretRef.t) : SecretError + option string :=
  if negb (String.eqb (SecretRef.module secret) SECRET_MODULE_FILE) then inr None
  else match SecretRef.file_path secret with
       | Some p => if is_empty (trim p) then inl FileNeedsPath else inr (Some p)
       | None => inl FileNeedsPath
       end.

Definition resolve_builtin (secret : SecretRef.t) : SecretError + string :=
  match self_env_var_checked secret with
  | inl e => inl e
  | inr (Some var) =>
      match env_value var with
      | Some v => if String.eqb v "" then inl (EnvEmpty var) else inr v
      | None => inl (EnvUnset var)
      end
  | inr None =>
      match self_file_path_checked secret with
      | inl e => inl e
      | inr (Some path) =>
          match file_bytes path with
          | Some b => if String.eqb b "" then inl (FileEmpty path) else inr b
          | None => inl (FileUnreadable path)
          end
      | inr None => inl (NotBuiltin (SecretRef.module secret))
      end
  end.

Definition resolve_builtin_string (secret : SecretRef.t) : SecretError + string :=
  match resolve_builtin secret with
  | inl e => inl e
  | inr bytes => text_of (SecretRef.describe secret) bytes
  end.

(** [SecretResolver]: the plugin, when there is one, gets the module and its settings. *)
Definition PluginResolveFn : Type := string -> Map -> option string.

Definition resolve_secret (plugin : option PluginResolveFn) (secret : SecretRef.t) : SecretError + string :=
  let module := SecretRef.module secret in
  if String.eqb module SECRET_MODULE_ENV || String.eqb module SECRET_MODULE_FILE then resolve_builtin secret
  else match plugin with
       | Some f =>
           match f module (SecretRef.settings secret) with
           | None => inl (PluginFailed module)
           | Some bytes => if String.eqb bytes "" then inl (PluginEmpty module) else inr bytes
           end
       | None => inl (NoPlugins module)
       end.

Definition resolve_string (plugin : option PluginResolveFn) (secret : SecretRef.t) : SecretError + string :=
  match resolve_secret plugin secret with
  | inl e => inl e
  | inr bytes => text_of (SecretRef.describe secret) bytes
  end.

(** [resolve_settings]: a value that reads as a reference is replaced by its secret, the rest is kept. *)
Fixpoint resolve_settings_from (plugin : option PluginResolveFn) (settings out : Map) : (string * SecretError) + Map :=
  match settings with
  | [] => inr out
  | (field, value) :: settings =>
      match value with
      | Object _ =>
          match ref_from_value value with
          | inr secret =>
              match resolve_string plugin secret with
              | inl e => inl (field, e)
              | inr resolved => resolve_settings_from plugin settings (map_insert field (Str resolved) out)
              end
          | inl _ => resolve_settings_from plugin settings (map_insert field value out)
          end
      | _ => resolve_settings_from plugin settings (map_insert field value out)
      end
  end.

Definition resolve_settings (plugin : option PluginResolveFn) (settings : Map) : (string * SecretError) + Map :=
  resolve_settings_from plugin settings [].

(** ** What resolution guarantees *)

(** The two resolvers agree on the built-in modules. *)
Lemma resolvers_agree plugin secret :
  SecretRef.module secret = SECRET_MODULE_ENV \/ SecretRef.module secret = SECRET_MODULE_FILE ->
  resolve_string plugin secret = resolve_builtin_string secret.
Proof.
  intros Hm. unfold resolve_string, resolve_secret, resolve_builtin_string.
  destruct Hm as [-> | ->]; simpl; done.
Qed.

(** No resolver returns an empty secret, or one that ends in a line break. *)
Lemma trim_line_ends_last s c t : trim_line_ends s = t +:+ String c "" -> line_end c = false.
Proof.
  revert t. induction s as [|a s IH]; intros t; cbn [trim_line_ends].
  - destruct t; [done|]. by change (String a t +:+ String c "") with (String a (t +:+ String c "")).
  - destruct (trim_line_ends s) as [|b u] eqn:E.
    + destruct (line_end a) eqn:Ea; [destruct t; done|]. destruct t as [|d t].
      * intros [= ->]. done.
      * change (String d t +:+ String c "") with (String d (t +:+ String c "")). intros [= _ Et]. by destruct t.
    + destruct t as [|d t]; [done|]. change (String d t +:+ String c "") with (String d (t +:+ String c "")).
      intros [= _ Et]. by eapply IH.
Qed.

Lemma text_of_clean what bytes s : text_of what bytes = inr s -> s <> "" /\ forall c t, s = t +:+ String c "" -> line_end c = false.
Proof.
  unfold text_of. destruct (negb (is_utf8 bytes)); [done|]. cbn zeta.
  destruct (String.eqb_spec (trim_line_ends bytes) "") as [|Hn]; [done|]. intros [= <-]. split; [done|].
  intros c t. apply trim_line_ends_last.
Qed.

(** What a plugin gets for a setting: the secret of a reference, anything else as it stands. *)
Definition delivered (plugin : option PluginResolveFn) (v v' : Value) : Prop :=
  match ref_from_value v with
  | inr secret => exists s, resolve_string plugin secret = inr s /\ v' = Str s /\ s <> ""
  | inl _ => v' = v
  end.

Lemma settings_step plugin field value settings out :
  (exists v', resolve_settings_from plugin ((field, value) :: settings) out =
                resolve_settings_from plugin settings (map_insert field v' out) /\ delivered plugin value v') \/
  (exists secret e, ref_from_value value = inr secret /\ resolve_string plugin secret = inl e /\
                resolve_settings_from plugin ((field, value) :: settings) out = inl (field, e)).
Proof.
  assert (Hkeep : forall v e, ref_from_value v = inl e -> delivered plugin v v) by (by intros ? ? E; unfold delivered; rewrite E).
  cbn [resolve_settings_from]. destruct value as [ | | | | | m]; try (left; eexists; split; [done|by eapply Hkeep]).
  destruct (ref_from_value (Object m)) as [e|secret] eqn:Er; [left; eexists; split; [done|by eapply Hkeep]|].
  destruct (resolve_string plugin secret) as [e|s] eqn:Es; [right; by eauto|].
  left. eexists. split; [done|]. unfold delivered. rewrite Er. exists s. split_and!; [done..|].
  unfold resolve_string in Es. destruct (resolve_secret plugin secret); [done|]. by apply text_of_clean in Es as [Hne _].
Qed.

Lemma map_get_cons k k' v (m : Map) : map_get k ((k', v) :: m) = if String.eqb k' k then Some v else map_get k m.
Proof. unfold map_get. simpl. by destruct (String.eqb k' k). Qed.

Lemma map_get_absent k (m : Map) : k ∉ m.*1 -> map_get k m = None.
Proof.
  induction m as [|[k' v] m IH]; [done|]. rewrite fmap_cons, not_elem_of_cons. intros [Hn Hm]. unfold map_get. simpl in *.
  destruct (String.eqb_spec k' k) as [->|]; [done|]. by apply IH.
Qed.

Lemma settings_get plugin settings out res :
  NoDup settings.*1 -> resolve_settings_from plugin settings out = inr res ->
  forall f, match map_get f settings with
            | Some v => exists v', map_get f res = Some v' /\ delivered plugin v v'
            | None => map_get f res = map_get f out
            end.
Proof.
  revert out. induction settings as [|[k v] settings IH]; intros out Hnd; [by intros [= <-] f|].
  rewrite fmap_cons, NoDup_cons in Hnd. destruct Hnd as [Hk Hnd]. intros Hr f.
  destruct (settings_step plugin k v settings out) as [(v' & E & Hd)|(secret & e & _ & _ & E)]; rewrite E in Hr; [|done].
  specialize (IH _ Hnd Hr f). rewrite map_get_cons. destruct (String.eqb_spec k f) as [->|Hne].
  - rewrite (map_get_absent f settings Hk), map_get_insert, String.eqb_refl in IH. by eauto.
  - destruct (map_get f settings); [done|]. rewrite map_get_insert in IH. by destruct (String.eqb_spec k f).
Qed.

(** A plugin is opened with exactly the settings of its entry: every value that reads as a secret
    reference is replaced by its non-empty secret, every other value is passed on unchanged, and no
    setting is lost or added; and if one reference does not resolve, nothing is handed over at all. *)
Theorem plugin_settings_resolved plugin settings :
  NoDup settings.*1 ->
  match resolve_settings plugin settings with
  | inr res => forall f, match map_get f settings with
                         | Some v => exists v', map_get f res = Some v' /\ delivered plugin v v'
                         | None => map_get f res = None
                         end
  | inl (field, e) => exists v secret, map_get field settings = Some v /\ ref_from_value v = inr secret /\
                      resolve_string plugin secret = inl e
  end.
Proof.
  intros Hnd. unfold resolve_settings. destruct (resolve_settings_from plugin settings []) as [[field e]|res] eqn:E.
  - revert E. generalize (@nil (string * Value)). revert Hnd. induction settings as [|[k v] settings IH]; [done|].
    rewrite fmap_cons, NoDup_cons. intros [Hk Hnd] out E.
    destruct (settings_step plugin k v settings out) as [(v' & E' & _)|(secret & e' & Hr & Hs & E')]; rewrite E' in E.
    + destruct (IH Hnd _ E) as (w & secret & Hg & ?). exists w, secret. split; [|done].
      rewrite map_get_cons. destruct (String.eqb_spec k field) as [->|]; [|done]. by rewrite (map_get_absent field settings Hk) in Hg.
    + injection E as <- <-. exists v, secret. split; [|done]. by rewrite map_get_cons, String.eqb_refl.
  - intros f. pose proof (settings_get plugin settings [] res Hnd E f) as Hf. by destruct (map_get f settings).
Qed.
End Resolver.

(** A host with one variable. *)
#[local] Instance demo_host : Host := { env_value v := if String.eqb v "K" then Some "s3cret
" else None; file_bytes _ := None }.

Lemma plugin_settings_resolved_witness :
  resolve_settings None [("licenseKey", Object [("env", Str "K")]); ("url", Str "x")] =
    inr [("licenseKey", Str "s3cret"); ("url", Str "x")] /\
  match resolve_settings None [("licenseKey", Object [("env", Str "K")]); ("url", Str "x")] with
  | inr res => forall f, match map_get f [("licenseKey", Object [("env", Str "K")]); ("url", Str "x")] with
                         | Some v => exists v', map_get f res = Some v' /\ delivered None v v'
                         | None => map_get f res = None
                         end
  | inl (field, e) => exists v secret, map_get field [("licenseKey", Object [("env", Str "K")]); ("url", Str "x")] = Some v /\
      ref_from_value v = inr secret /\ resolve_string None secret = inl e
  end.
Proof.
  split; [vm_compute; reflexivity|]. apply plugin_settings_resolved.
  repeat constructor; rewrite ?elem_of_cons, ?elem_of_nil; intuition discriminate.
Defined.
