(* ===== verification/Topology.v ===== *)
(** * The configuration and its boot-time validation (config/mod.rs, config_validate/mod.rs)

    The resolved configuration as the validator reads it, and [validate_with_unset] whole: the metadata
    host lists, the reasoning table, models, names, providers, pools, fallback rings, hooks, the admin
    and role rules, the auth chain, the operational limits, [context_max] and the cost and secret
    surface.  A [HashMap] is a [gmap] and is iterated as [map_to_list]; only whether an error is pushed
    matters below, never the order of the messages.  Warnings are not modelled. *)
From stdpp Require Import base gmap list strings.
From Stdlib Require Import ZArith Lia Ascii Floats.SpecFloat.
From S2P Require Import Prelude Breaker Cell BreakerConfig Store Cost Select Walk Json HookWire Ranking Routing HookResolve.
From S2P Require Import Windows EventStream Signing Keys Sse Sigv4 FrontDoor NetGuard EgressAuth Secrets.
Open Scope Z_scope.
Open Scope rust_scope.

(** The entries of a [BTreeMap] held as a [gmap], in key order. *)
Fixpoint insert_entry {A} (x : string * A) (l : list (string * A)) : list (string * A) :=
  match l with
  | [] => [x]
  | y :: l' => if String.leb x.1 y.1 then x :: l else y :: insert_entry x l'
  end.
Definition btree {A} (m : gmap string A) : list (string * A) := foldr insert_entry [] (map_to_list m).

(** ** The configuration *)
Inductive HealthMode := HealthNone | HealthDead | HealthActive.

Module HealthCfg.
Record t := mk { mode : HealthMode; interval_secs : option Z; timeout_secs : option Z }.
End HealthCfg.

Module ProviderCfg.
Record t := mk {
  protocol : string; base_url : string; api_key : SecretRef.t; health : option HealthCfg.t;
  error_map : gmap string string; path : option string; path_base : option string;
  token_url : option string; scope : option string; auth : option ProviderAuth;
  allow_metadata_hosts : list string }.
End ProviderCfg.

Module ModelCfg.
Record t := mk {
  max_requests : Z; provider : string; max_concurrent : option Z; default_max_tokens : option Z;
  upstream_model : option string; attempt_timeout_ms : option Z; reasoning : option bool;
  prompt_caching : option bool }.
End ModelCfg.

Module PoolMember.
Record t := mk {
  model : string; weight : Z; context_max : option Z; tier : option string;
  attempt_timeout_ms : option Z; reasoning : option bool; tags : list string }.
End PoolMember.

Inductive OnExhaustedCfg := ExhaustReject | ExhaustLeastBad | ExhaustFallbackPool (name : string).

Definition to_runtime (c : OnExhaustedCfg) : OnExhausted :=
  match c with
  | ExhaustReject => Status503
  | ExhaustLeastBad => LeastBad
  | ExhaustFallbackPool name => FallbackPool name
  end.

(** A pool; its [hooks:] list is the [PoolCfg] of HookResolve.v, its session affinity the header name. *)
Module Pool.
Record t := mk {
  members : list PoolMember.t; breaker : option Config.BreakerCfg; failover : option FailoverCfg.t;
  on_exhausted : option OnExhaustedCfg; affinity : option (option string); hooks : PoolCfg.t }.
End Pool.

Module LimitsResolved.
Record t := mk {
  upstream_request_timeout_secs : Z; tls_handshake_timeout_secs : Z; request_body_read_timeout_secs : Z;
  webhook_delivery_timeout_secs : Z; max_inflight_webhook_deliveries : Z; max_honored_retry_after_secs : Z;
  hard_down_cooldown_secs : Z; request_body_max_bytes : Z; upstream_error_body_max_bytes : Z;
  default_max_tokens : Z; default_probe_interval_secs : Z; default_probe_timeout_secs : Z;
  default_policy_timeout_ms : Z; rate_sweep_interval : Z;
  reasoning_effort_budgets : Z * Z * Z * Z; pool_max_idle_per_host : Z; pool_idle_timeout_secs : Z;
  max_inbound_concurrent : Z; max_keys_per_principal : Z; key_gauge_limit : Z; usage_flush_interval_ms : Z }.
End LimitsResolved.

Module AuthChainEntry.
Record t := mk { module : string; max_admin_scope : option string; token : option SecretRef.t; settings : Map }.
End AuthChainEntry.

Module AuthCfg.
Record t := mk {
  signing_key : option SecretRef.t; upstream_credentials : UpstreamCreds; chain : list AuthChainEntry.t;
  admin_auth : list AuthChainEntry.t; role_bindings : RoleBindings }.
End AuthCfg.

Definition KEYS_MODULE : string := "keys".
Definition ADMIN_TOKENS_MODULE : string := "admin-tokens".

Definition admin_token_ref (a : AuthCfg.t) : option SecretRef.t :=
  e ← find (fun e => String.eqb (AuthChainEntry.module e) ADMIN_TOKENS_MODULE) (AuthCfg.admin_auth a ++ AuthCfg.chain a);
  AuthChainEntry.token e.

Module TlsCfg.
Record t := mk { cert : SecretRef.t; key : SecretRef.t; client_ca : option SecretRef.t }.
End TlsCfg.

Module RateEntryCfg.
Record t := mk { input_utok : f64; output_utok : f64; cache_read_utok : f64; cache_write_utok : f64 }.
End RateEntryCfg.

Module StoreCfg.
Record t := mk { module : string; settings : Map }.
End StoreCfg.

Module RootCfg.
Record t := mk {
  listen : string; admin_listen : string;
  tls : option TlsCfg.t; admin_tls : option TlsCfg.t; auth : option AuthCfg.t;
  providers : gmap string ProviderCfg.t; models : gmap string ModelCfg.t; pools : gmap string Pool.t;
  hooks : Registry; admin_auth : list string; groups : gmap string GroupCfg.t;
  rate_card : option (list (string * RateEntryCfg.t)); per_request_fee : Z; store : option StoreCfg.t;
  global_hooks : list string; blocked_metadata_hosts : list string; allow_metadata_hosts : list string;
  allow_all_metadata : bool; limits : LimitsResolved.t }.
End RootCfg.

(** ** The errors *)
Inductive ConfigError :=
  | CidrEntry (key entry : string)
  | BudgetZero | BudgetNotAscending
  | ModelUnknownProvider (model provider : string)
  | ModelZero (model field : string)
  | ModelBlankUpstream (model : string)
  | ReservedAdmin (what name : string)
  | PoolIsProvider (pool : string) | PoolIsModel (pool : string)
  | UnknownProtocol (provider protocol : string)
  | HealthZero (provider field : string)
  | BadErrorClass (provider code class : string)
  | NotHttps (provider what url : string) | NotHttp (provider what url : string)
  | MetadataTarget (provider what host : string)
  | PathNotRooted (provider what : string)
  | NoTokenUrl (provider : string) | NoScope (provider : string)
  | BadCredential (provider : string) (e : AuthError)
  | PoolEmpty (pool : string)
  | MemberZeroWeight (pool member : string) | MemberZeroTimeout (pool member : string)
  | MemberUnknownModel (pool member : string) | MemberUnresolvable (pool member : string)
  | BreakerRule (pool : string) (e : BreakerCfgError)
  | FailoverZero (pool : string) | ExclusionNotMember (pool excluded : string)
  | FallbackUnknown (pool target : string) | FallbackSelf (pool : string)
  | AffinityEmpty (pool : string) | AffinityNotAscii (pool : string) | AffinityTooLong (pool : string)
  | FallbackRing (ring : list string)
  | HookRule (e : HookError)
  | AdminModuleUnknown (name : string)
  | BindingDeadModule (module : string) | BindingScope (module role : string) | BindingGroup (module role : string)
  | ChainScope (module : string) | ChainToken (module : string)
  | ChainUnknown (module : string)
  | LimitRange (name : string)
  | ContextMaxConflict (model : string) (a b : Z)
  | RateNotFinite (model tier : string) | RateMissing (models : list string) | RateUnknownModel (model : string)
  | NegativeFee | GroupRule (e : GroupError) | GroupZeroLimit (group : string) | StoreBlank
  | SecretModule (what module : string) | SecretNoKey (what : string) | SecretNoPath (what : string).

Definition push_when (b : bool) (e : ConfigError) : list ConfigError := if b then [e] else [].

Definition each {K A B} (f : K -> A -> list B) (l : list (K * A)) : list B := kv ← l; f kv.1 kv.2.

(** [str::contains]. *)
Fixpoint contains_str (s p : string) : bool :=
  starts_with s p || match s with EmptyString => false | String _ s => contains_str s p end.

Definition blank (s : string) : bool := String.eqb (Json.trim s) "".

Definition reject_cidr_metadata_entries (key : string) (entries : list string) : list ConfigError :=
  entry ← entries; push_when (contains_char "/" entry) (CidrEntry key entry).

Definition reasoning_rule (b : Z * Z * Z * Z) : list ConfigError :=
  let '(minimal, low, medium, high) := b in
  push_when ((minimal =? 0) || (low =? 0) || (medium =? 0) || (high =? 0)) BudgetZero ++
  push_when (negb ((minimal <=? low) && (low <=? medium) && (medium <=? high))) BudgetNotAscending.

Definition reserved_admin_name (name : string) : bool :=
  String.eqb name "admin" || starts_with name "admin/" || bool_decide (head (split "/" name) = Some "admin").

Definition is_zero (o : option Z) : bool := match o with Some n => n =? 0 | None => false end.

(** ** Models and names *)
Definition model_rule (cfg : RootCfg.t) (name : string) (m : ModelCfg.t) : list ConfigError :=
  match RootCfg.providers cfg !! ModelCfg.provider m with
  | Some _ => []
  | None => [ModelUnknownProvider name (ModelCfg.provider m)]
  end ++
  push_when (is_zero (ModelCfg.default_max_tokens m)) (ModelZero name "default_max_tokens") ++
  push_when (is_zero (ModelCfg.max_concurrent m)) (ModelZero name "max_concurrent") ++
  push_when (ModelCfg.max_requests m =? 0) (ModelZero name "max_requests") ++
  push_when (is_zero (ModelCfg.attempt_timeout_ms m)) (ModelZero name "attempt_timeout_ms") ++
  match ModelCfg.upstream_model m with
  | Some um => push_when (blank um) (ModelBlankUpstream name)
  | None => []
  end ++
  push_when (reserved_admin_name name) (ReservedAdmin "model" name).

Definition pool_name_rule (cfg : RootCfg.t) (name : string) (_ : Pool.t) : list ConfigError :=
  push_when (bool_decide (is_Some (RootCfg.providers cfg !! name))) (PoolIsProvider name) ++
  push_when (bool_decide (is_Some (RootCfg.models cfg !! name))) (PoolIsModel name) ++
  push_when (reserved_admin_name name) (ReservedAdmin "pool" name).

Definition provider_name_rule (name : string) (_ : ProviderCfg.t) : list ConfigError :=
  push_when (reserved_admin_name name) (ReservedAdmin "provider" name).

(** ** Providers *)
Definition KNOWN_PROTOCOLS : list string := ["anthropic"; "openai"; "gemini"; "bedrock"; "responses"; "cohere"].

Definition health_rule (name : string) (h : option HealthCfg.t) : list ConfigError :=
  match h with
  | Some h => push_when (is_zero (HealthCfg.interval_secs h)) (HealthZero name "interval_secs") ++
              push_when (is_zero (HealthCfg.timeout_secs h)) (HealthZero name "timeout_secs")
  | None => []
  end.

Definition error_map_rule (name : string) (m : gmap string string) : list ConfigError :=
  each (fun code class => push_when (bool_decide (status_class_from_str class = None)) (BadErrorClass name code class))
    (map_to_list m).

(** An unset [${VAR}] of a lenient load, spliced in as its bare name. *)
Definition is_env_placeholder (unset_env_vars : list string) (v : string) : bool :=
  negb (contains_str v "://") &&
  existsb (fun u => negb (String.eqb u "") && contains_str v u) unset_env_vars.

(** The metadata posture of a provider: its own carve-outs and the global ones. *)
Definition ssrf_policy (cfg : RootCfg.t) (p : ProviderCfg.t) : MetadataSsrfPolicy.t :=
  MetadataSsrfPolicy.mk (ProviderCfg.allow_metadata_hosts p ++ RootCfg.allow_metadata_hosts cfg)
    (RootCfg.allow_all_metadata cfg) (RootCfg.blocked_metadata_hosts cfg).

Definition target_rule (ssrf : MetadataSsrfPolicy.t) (name what url : string) : list ConfigError :=
  match blocked_by ssrf url with Some host => [MetadataTarget name what host] | None => [] end.

(** The scheme and SSRF rules of [base_url] and of [token_url]. *)
Definition scheme_ok (unset : list string) (url : string) : bool := is_env_placeholder unset url || transport_ok url.

Definition endpoint_rule (unset : list string) (ssrf : MetadataSsrfPolicy.t) (name what url : string) : list ConfigError :=
  if negb (scheme_ok unset url) then
    [if scheme_is url "http" then NotHttps name what url else NotHttp name what url]
  else target_rule ssrf name what url.

(** [path] and [path_base]: appended to [base_url], so rooted, and the composed URL is checked again. *)
Definition path_rule (unset : list string) (ssrf : MetadataSsrfPolicy.t) (name what base_url : string) (path : option string)
    : list ConfigError :=
  match path with
  | None => []
  | Some path =>
      if negb (starts_with path "/") then [PathNotRooted name what]
      else if scheme_ok unset base_url then target_rule ssrf name what (base_url +:+ path)
      else []
  end.

Section Validate.
Context `{Host} `{OAuthLibs} (unset_env_vars : list string).

Definition credential_rule (name : string) (api_key : SecretRef.t) (check : string -> AuthError + unit) : list ConfigError :=
  let cred := match resolve_builtin_string api_key with inr s => s | inl _ => "" end in
  if blank cred then []
  else match check cred with inl e => [BadCredential name e] | inr _ => [] end.

Definition oauth_rule (ssrf : MetadataSsrfPolicy.t) (name : string) (p : ProviderCfg.t) : list ConfigError :=
  if blank (default "" (ProviderCfg.token_url p)) then [NoTokenUrl name]
  else match ProviderCfg.token_url p with
       | Some tu => endpoint_rule unset_env_vars ssrf name "token_url" tu
       | None => []
       end.

Definition provider_auth_rule (ssrf : MetadataSsrfPolicy.t) (name : string) (p : ProviderCfg.t) : list ConfigError :=
  match ProviderCfg.auth p with
  | Some OAuthClientCredentials =>
      oauth_rule ssrf name p ++
      push_when (blank (default "" (ProviderCfg.scope p))) (NoScope name) ++
      credential_rule name (ProviderCfg.api_key p) oauth_validate_credential
  | Some JwtBearer =>
      credential_rule name (ProviderCfg.api_key p) (fun cred => jwt_validate_credential cred ssrf)
  | _ => []
  end.

Definition provider_rule (cfg : RootCfg.t) (name : string) (p : ProviderCfg.t) : list ConfigError :=
  let ssrf := ssrf_policy cfg p in
  push_when (negb (bool_decide (ProviderCfg.protocol p ∈ KNOWN_PROTOCOLS))) (UnknownProtocol name (ProviderCfg.protocol p)) ++
  health_rule name (ProviderCfg.health p) ++
  error_map_rule name (ProviderCfg.error_map p) ++
  reject_cidr_metadata_entries ("provider '" +:+ name +:+ "' allow_metadata_hosts") (ProviderCfg.allow_metadata_hosts p) ++
  endpoint_rule unset_env_vars ssrf name "base_url" (ProviderCfg.base_url p) ++
  path_rule unset_env_vars ssrf name "path" (ProviderCfg.base_url p) (ProviderCfg.path p) ++
  path_rule unset_env_vars ssrf name "path_base" (ProviderCfg.base_url p) (ProviderCfg.path_base p) ++
  provider_auth_rule ssrf name p.

(** ** Pools *)
Definition member_rule (cfg : RootCfg.t) (pool : string) (m : PoolMember.t) : list ConfigError :=
  push_when (PoolMember.weight m =? 0) (MemberZeroWeight pool (PoolMember.model m)) ++
  push_when (is_zero (PoolMember.attempt_timeout_ms m)) (MemberZeroTimeout pool (PoolMember.model m)) ++
  match RootCfg.models cfg !! PoolMember.model m with
  | Some mc => push_when (bool_decide (RootCfg.providers cfg !! ModelCfg.provider mc = None))
                 (MemberUnresolvable pool (PoolMember.model m))
  | None => [MemberUnknownModel pool (PoolMember.model m)]
  end.

Definition breaker_rule (pool : string) (b : option Config.BreakerCfg) : list ConfigError :=
  match b with Some b => BreakerRule pool <$> validate_breaker b | None => [] end.

Definition failover_rule (pool : string) (p : Pool.t) : list ConfigError :=
  match Pool.failover p with
  | None => []
  | Some f =>
      push_when (FailoverCfg.timeout_secs f =? 0) (FailoverZero pool) ++
      (excluded ← default [] (FailoverCfg.exclusions f);
       push_when (negb (bool_decide (excluded ∈ PoolMember.model <$> Pool.members p))) (ExclusionNotMember pool excluded))
  end.

Definition exhausted_rule (cfg : RootCfg.t) (pool : string) (o : option OnExhaustedCfg) : list ConfigError :=
  match o with
  | Some (ExhaustFallbackPool target) =>
      if bool_decide (RootCfg.pools cfg !! target = None) then [FallbackUnknown pool target]
      else push_when (String.eqb target pool) (FallbackSelf pool)
  | _ => []
  end.

Definition MAX_AFFINITY_HEADER_NAME_LEN : nat := 64.

Definition affinity_rule (pool : string) (a : option (option string)) : list ConfigError :=
  match a with
  | Some (Some header_name) =>
      push_when (String.eqb header_name "") (AffinityEmpty pool) ++
      push_when (negb (is_ascii header_name)) (AffinityNotAscii pool) ++
      push_when (MAX_AFFINITY_HEADER_NAME_LEN <? String.length header_name)%nat (AffinityTooLong pool)
  | _ => []
  end.

Definition pool_rule (cfg : RootCfg.t) (pool : string) (p : Pool.t) : list ConfigError :=
  push_when (bool_decide (Pool.members p = [])) (PoolEmpty pool) ++
  (m ← Pool.members p; member_rule cfg pool m) ++
  breaker_rule pool (Pool.breaker p) ++
  failover_rule pool p ++
  exhausted_rule cfg pool (Pool.on_exhausted p) ++
  affinity_rule pool (Pool.affinity p).

(** ** Fallback rings *)
Definition resolve_fallback_target (pools : gmap string Pool.t) (pool : string) : option string :=
  p ← pools !! pool;
  match Pool.on_exhausted p with Some (ExhaustFallbackPool target) => Some target | _ => None end.

Definition string_min (a b : string) : string := if String.leb a b then a else b.
Definition min_member (ring : list string) (cursor : string) : string :=
  match ring with [] => cursor | x :: ring => foldl string_min x ring end.

(** The walk from [pool]: [path] is what it has visited. *)
Fixpoint ring_walk (fuel : nat) (pools : gmap string Pool.t) (pool : string) (path : list string) (cursor : string)
    : option (list ConfigError) :=
  match fuel with
  | O => None
  | S fuel =>
      if bool_decide (cursor ∈ path) then
        let start := default 0%nat (fst <$> list_find (eq cursor) path) in
        let ring := drop start path in
        Some (push_when (String.eqb pool (min_member ring cursor) && (1 <? length ring)%nat)
                (FallbackRing (ring ++ [cursor])))
      else
        match resolve_fallback_target pools cursor with
        | None => Some []
        | Some next =>
            match pools !! next with
            | None => Some []
            | Some _ => ring_walk fuel pools pool (path ++ [cursor]) next
            end
        end
  end.

Definition ring_rule (pools : gmap string Pool.t) (pool : string) : option (list ConfigError) :=
  ring_walk (S (S (size pools))) pools pool [] pool.

(** ** Admin and role rules, the auth chain *)
Definition admin_auth_rule (names : list string) : list ConfigError :=
  name ← names; push_when (negb (String.eqb name "admin-tokens")) (AdminModuleUnknown name).

Definition binding_rule (cfg : RootCfg.t) (module role : string) (b : RoleBindingCfg.t) : list ConfigError :=
  push_when (reserved_admin_name role) (ReservedAdmin "role" role) ++
  match RoleBindingCfg.admin_scope b with
  | Some scope => push_when (bool_decide (scope_parse scope = None)) (BindingScope module role)
  | None => []
  end ++
  match RoleBindingCfg.group b with
  | Some group => push_when (bool_decide (RootCfg.groups cfg !! group = None)) (BindingGroup module role)
  | None => []
  end.

Definition bindings_rule (cfg : RootCfg.t) (a : AuthCfg.t) : list ConfigError :=
  let chain_modules := AuthChainEntry.module <$> (AuthCfg.chain a ++ AuthCfg.admin_auth a) in
  each (fun module roles =>
    push_when (negb (bool_decide (module ∈ chain_modules))) (BindingDeadModule module) ++
    each (binding_rule cfg module) roles) (map_to_list (AuthCfg.role_bindings a)).

Definition entry_rule (e : AuthChainEntry.t) : list ConfigError :=
  match AuthChainEntry.max_admin_scope e with
  | Some scope => push_when (bool_decide (scope_parse scope = None)) (ChainScope (AuthChainEntry.module e))
  | None => []
  end ++
  push_when (bool_decide (is_Some (AuthChainEntry.token e)) && negb (String.eqb (AuthChainEntry.module e) ADMIN_TOKENS_MODULE))
    (ChainToken (AuthChainEntry.module e)).

Definition chain_rule (a : AuthCfg.t) : list ConfigError :=
  e ← AuthCfg.chain a;
  push_when (negb (String.eqb (AuthChainEntry.module e) KEYS_MODULE)) (ChainUnknown (AuthChainEntry.module e)).

Definition auth_rule (cfg : RootCfg.t) : list ConfigError :=
  match RootCfg.auth cfg with
  | Some a => bindings_rule cfg a ++ (e ← AuthCfg.chain a ++ AuthCfg.admin_auth a; entry_rule e) ++ chain_rule a
  | None => []
  end.

(** ** Limits *)
Definition REQUEST_BODY_MAX_BYTES_FLOOR : Z := 64 * 1024.
Definition REQUEST_BODY_MAX_BYTES_CEIL : Z := 1024 * 1024 * 1024.

Definition validate_limits (l : LimitsResolved.t) : list ConfigError :=
  let at_least_one (name : string) (v : Z) := push_when (v <? 1) (LimitRange name) in
  at_least_one "upstream_request_timeout_secs" (LimitsResolved.upstream_request_timeout_secs l) ++
  at_least_one "tls_handshake_timeout_secs" (LimitsResolved.tls_handshake_timeout_secs l) ++
  at_least_one "request_body_read_timeout_secs" (LimitsResolved.request_body_read_timeout_secs l) ++
  at_least_one "webhook_delivery_timeout_secs" (LimitsResolved.webhook_delivery_timeout_secs l) ++
  at_least_one "max_inflight_webhook_deliveries" (LimitsResolved.max_inflight_webhook_deliveries l) ++
  at_least_one "max_honored_retry_after_secs" (LimitsResolved.max_honored_retry_after_secs l) ++
  at_least_one "hard_down_cooldown_secs" (LimitsResolved.hard_down_cooldown_secs l) ++
  push_when (LimitsResolved.request_body_max_bytes l <? REQUEST_BODY_MAX_BYTES_FLOOR) (LimitRange "request_body_max_bytes") ++
  push_when (REQUEST_BODY_MAX_BYTES_CEIL <? LimitsResolved.request_body_max_bytes l) (LimitRange "request_body_max_bytes") ++
  at_least_one "upstream_error_body_max_bytes" (LimitsResolved.upstream_error_body_max_bytes l) ++
  at_least_one "default_max_tokens" (LimitsResolved.default_max_tokens l) ++
  at_least_one "default_probe_interval_secs" (LimitsResolved.default_probe_interval_secs l) ++
  at_least_one "default_probe_timeout_secs" (LimitsResolved.default_probe_timeout_secs l) ++
  at_least_one "default_policy_timeout_ms" (LimitsResolved.default_policy_timeout_ms l) ++
  push_when (LimitsResolved.rate_sweep_interval l =? 0) (LimitRange "rate_sweep_interval").

(** ** A model's [context_max] across pools *)
Fixpoint context_max_rule (members : list PoolMember.t) (seen : gmap string Z) : list ConfigError :=
  match members with
  | [] => []
  | m :: members =>
      match PoolMember.context_max m with
      | None => context_max_rule members seen
      | Some c =>
          match seen !! PoolMember.model m with
          | Some existing =>
              if existing =? c then context_max_rule members (<[PoolMember.model m := c]> seen)
              else ContextMaxConflict (PoolMember.model m) existing c :: context_max_rule members seen
          | None => context_max_rule members (<[PoolMember.model m := c]> seen)
          end
      end
  end.

Definition all_members (pools : list (string * Pool.t)) : list PoolMember.t := np ← pools; Pool.members np.2.

(** ** Costs, groups, the store and secret references *)
Definition rate_tiers (r : RateEntryCfg.t) : list (string * f64) :=
  [("input_utok", RateEntryCfg.input_utok r); ("output_utok", RateEntryCfg.output_utok r);
   ("cache_read_utok", RateEntryCfg.cache_read_utok r); ("cache_write_utok", RateEntryCfg.cache_write_utok r)].

Definition rate_card_rule (models : gmap string ModelCfg.t) (card : list (string * RateEntryCfg.t)) : list ConfigError :=
  let missing := List.filter (fun name => bool_decide (assoc name card = None)) (map_to_list models).*1 in
  each (fun model r =>
    each (fun tier v => push_when (negb (f64_is_finite v) || SFltb v (S754_zero false)) (RateNotFinite model tier))
      (rate_tiers r)) card ++
  push_when (negb (bool_decide (missing = []))) (RateMissing missing) ++
  each (fun model _ => push_when (bool_decide (models !! model = None)) (RateUnknownModel model)) card.

Definition check_secret (what : string) (r : SecretRef.t) : list ConfigError :=
  let module := SecretRef.module r in
  if negb (String.eqb module SECRET_MODULE_ENV || String.eqb module SECRET_MODULE_FILE) then [SecretModule what module]
  else if String.eqb module SECRET_MODULE_ENV && bool_decide (SecretRef.env_var r = None) then [SecretNoKey what]
  else if String.eqb module SECRET_MODULE_FILE && bool_decide (SecretRef.file_path r = None) then [SecretNoPath what]
  else [].

Definition check_optional (what : string) (r : option SecretRef.t) : list ConfigError :=
  match r with Some r => check_secret what r | None => [] end.

Definition tls_secrets (what : string) (t : option TlsCfg.t) : list ConfigError :=
  match t with
  | Some t => check_secret (what +:+ ".cert") (TlsCfg.cert t) ++ check_secret (what +:+ ".key") (TlsCfg.key t) ++
              check_optional (what +:+ ".client_ca") (TlsCfg.client_ca t)
  | None => []
  end.

Definition secrets_rule (cfg : RootCfg.t) : list ConfigError :=
  each (fun name p => check_secret ("providers." +:+ name +:+ ".api_key") (ProviderCfg.api_key p))
    (map_to_list (RootCfg.providers cfg)) ++
  tls_secrets "tls" (RootCfg.tls cfg) ++ tls_secrets "admin_tls" (RootCfg.admin_tls cfg) ++
  match RootCfg.auth cfg with
  | Some a => check_optional "auth.signing_key" (AuthCfg.signing_key a) ++
              check_optional "auth.admin_auth admin-tokens token" (admin_token_ref a)
  | None => []
  end.

Definition zero_limits (groups : list (string * GroupCfg.t)) : list ConfigError :=
  each (fun name g => l ← GroupCfg.limits g; push_when (LimitCfg.amount l =? 0) (GroupZeroLimit name)) groups.

Definition validate_cost_model (cfg : RootCfg.t) : option (list ConfigError) :=
  let? groups := validate_groups (btree (RootCfg.groups cfg)) (fun p => bool_decide (is_Some (RootCfg.pools cfg !! p))) in
  Some (match RootCfg.rate_card cfg with Some card => rate_card_rule (RootCfg.models cfg) card | None => [] end ++
        push_when (RootCfg.per_request_fee cfg <? 0) NegativeFee ++
        (GroupRule <$> groups) ++
        zero_limits (btree (RootCfg.groups cfg)) ++
        match RootCfg.store cfg with Some s => push_when (blank (StoreCfg.module s)) StoreBlank | None => [] end ++
        secrets_rule cfg).

(** ** The whole of it *)
Definition validate_with_unset (cfg : RootCfg.t) : option (list ConfigError) :=
  let models := map_to_list (RootCfg.models cfg) in
  let pools := map_to_list (RootCfg.pools cfg) in
  let providers := map_to_list (RootCfg.providers cfg) in
  let? rings := mapM (ring_rule (RootCfg.pools cfg)) pools.*1 in
  let? hooks := validate_hooks (RootCfg.hooks cfg) (prod_map id Pool.hooks <$> pools) (RootCfg.global_hooks cfg) in
  let? costs := validate_cost_model cfg in
  Some (reject_cidr_metadata_entries "security.blocked_metadata_hosts" (RootCfg.blocked_metadata_hosts cfg) ++
        reject_cidr_metadata_entries "security.allow_metadata_hosts" (RootCfg.allow_metadata_hosts cfg) ++
        reasoning_rule (LimitsResolved.reasoning_effort_budgets (RootCfg.limits cfg)) ++
        each (model_rule cfg) models ++
        each (pool_name_rule cfg) pools ++
        each provider_name_rule providers ++
        each (provider_rule cfg) providers ++
        each (pool_rule cfg) pools ++
        concat rings ++
        (HookRule <$> hooks) ++
        admin_auth_rule (RootCfg.admin_auth cfg) ++
        auth_rule cfg ++
        validate_limits (RootCfg.limits cfg) ++
        context_max_rule (all_members pools) ∅ ++
        costs).
End Validate.

(** [validate]: nothing is unset. *)
Definition validate `{Host} `{OAuthLibs} (cfg : RootCfg.t) : option (list ConfigError) := validate_with_unset [] cfg.
