(* ===== verification/Boot.v ===== *)
(** * Building the lanes and pools from a configuration (main.rs, [build_app_from_config])

    The part of the construction path, shared by boot, apply and reload, that turns the validated models,
    providers and pools into the lane table and the routing tables.  [HashMap] iteration is an argument:
    [models] and [pools] are the entries of the maps in the order the map yields them.  A
    [Semaphore::new] above [MAX_PERMITS] panics; it is an outcome of its own. *)
From stdpp Require Import base gmap list strings.
From Stdlib Require Import ZArith Lia Ascii.
From S2P Require Import Prelude Breaker Cell BreakerConfig Store Cost Select Walk Json HookWire Ranking Routing HookResolve.
From S2P Require Import Windows EventStream Signing Keys Sse Sigv4 FrontDoor NetGuard EgressAuth Secrets Topology.
Open Scope Z_scope.
Open Scope rust_scope.

(** [tokio::sync::Semaphore::MAX_PERMITS] on a 64-bit machine. *)
Definition MAX_PERMITS : Z := Z.shiftr U64_MAX 3.

Inductive BootError :=
  | InvalidConfig (errors : list ConfigError)
  | BootUnknownProvider (model provider : string)
  | BootContextMax (model : string) (a b : Z)
  | BootUnknownProtocol (provider protocol : string)
  | BootCredential (provider : string) (e : AuthError)
  | BootNoTokenUrl (provider : string) | BootNoScope (provider : string)
  | BootUnknownModel (pool model : string)
  | PermitPanic (model : string).

Module Lane.
Record t := mk {
  model : string; provider : string; base_url : string; api_key : string; credential : Credential;
  protocol : string; max : Z; error_map : gmap string string; context_max : option Z;
  path : option string; path_base : option string; health : option HealthCfg.t;
  upstream_model : option string; attempt_timeout_ms : option Z; reasoning : bool; prompt_caching : bool;
  default_max_tokens : option Z }.
End Lane.

(** ** [context_max] of a model *)
Fixpoint resolve_model_context_max (members : list PoolMember.t) (resolved : gmap string (option Z))
    : BootError + gmap string (option Z) :=
  match members with
  | [] => inr resolved
  | m :: members =>
      let model := PoolMember.model m in
      match resolved !! model with
      | None | Some None => resolve_model_context_max members (<[model := PoolMember.context_max m]> resolved)
      | Some (Some existing) =>
          match PoolMember.context_max m with
          | None => resolve_model_context_max members resolved
          | Some c => if c =? existing then resolve_model_context_max members resolved
                      else inl (BootContextMax model existing c)
          end
      end
  end.

(** ** The order of the lanes: by model name *)
Fixpoint insert_model (x : string * ModelCfg.t) (l : list (string * ModelCfg.t)) : list (string * ModelCfg.t) :=
  match l with
  | [] => [x]
  | y :: l' => if String.leb x.1 y.1 then x :: l else y :: insert_model x l'
  end.
Definition sort_models (l : list (string * ModelCfg.t)) : list (string * ModelCfg.t) := foldr insert_model [] l.

(** The lane's entry in the store; [sem] is the lane's own semaphore. *)
Definition lane_data (sem : SemHandle) (model : string) (mc : ModelCfg.t) : LaneData.t :=
  let limited := 0 <=? ModelCfg.max_requests mc in
  LaneData.mk model (ModelCfg.provider mc) (default MAX_PERMITS (ModelCfg.max_concurrent mc)) sem limited
    (if limited then ModelCfg.max_requests mc else -1) 0 0 false "" 0 0 0 (ModelCfg.upstream_model mc)
    (ModelCfg.attempt_timeout_ms mc) (default false (ModelCfg.reasoning mc)) (default false (ModelCfg.prompt_caching mc)).

(** The first loop: a store entry and its provider for every model, in order. *)
Fixpoint lanes_data_loop (providers : gmap string ProviderCfg.t) (models : list (string * ModelCfg.t)) (idx : nat)
    : BootError + list (LaneData.t * ModelCfg.t * ProviderCfg.t) :=
  match models with
  | [] => inr []
  | (model, mc) :: models =>
      match providers !! ModelCfg.provider mc with
      | None => inl (BootUnknownProvider model (ModelCfg.provider mc))
      | Some pc =>
          if MAX_PERMITS <? default MAX_PERMITS (ModelCfg.max_concurrent mc) then inl (PermitPanic model)
          else match lanes_data_loop providers models (S idx) with
               | inl e => inl e
               | inr rest => inr ((lane_data idx model mc, mc, pc) :: rest)
               end
      end
  end.

(** [by_model]: the index of each model's lane. *)
Definition by_model_of (models : list (string * ModelCfg.t)) : gmap string nat :=
  list_to_map (imap (fun i (m : string * ModelCfg.t) => (m.1, i)) models).

(** [trim_end_matches('/')]. *)
Fixpoint trim_slashes (s : string) : string :=
  match s with
  | EmptyString => EmptyString
  | String c s => match trim_slashes s with
                  | EmptyString => if Ascii.eqb c "/" then EmptyString else String c EmptyString
                  | s => String c s
                  end
  end.

(** ** The application *)
Module App.
Record t := mk {
  lanes_data : list LaneData.t; lanes : list Lane.t; by_model : gmap string nat;
  pools : gmap string (list WeightedLane.t); fallback_pools : gmap string (list WeightedLane.t);
  on_exhausted_cfgs : gmap string OnExhausted; breakers : gmap string BreakerCfg.t;
  members : gmap string (gmap nat (list string)); failover : gmap string FailoverCfg.t }.
End App.

Section Build.
Context `{Host} `{OAuthLibs} (plugin : option PluginResolveFn).

(** The resolved key of a provider; one that does not resolve degrades to the empty key. *)
Definition provider_api_key (p : ProviderCfg.t) : string :=
  match resolve_string plugin (ProviderCfg.api_key p) with inr k => k | inl _ => "" end.

Definition build_credential (cfg : RootCfg.t) (provider : string) (p : ProviderCfg.t) : BootError + Credential :=
  let api_key := provider_api_key p in
  let ssrf := ssrf_policy cfg p in
  match ProviderCfg.auth p with
  | Some JwtBearer =>
      match jwt_build api_key ssrf with inl e => inl (BootCredential provider e) | inr c => inr c end
  | Some OAuthClientCredentials =>
      match ProviderCfg.token_url p with
      | None => inl (BootNoTokenUrl provider)
      | Some token_url =>
          match ProviderCfg.scope p with
          | None => inl (BootNoScope provider)
          | Some _ =>
              match oauth_build api_key token_url ssrf with
              | inl e => inl (BootCredential provider e)
              | inr c => inr c
              end
          end
      end
  | auth => inr (resolve (ProviderCfg.protocol p) auth)
  end.

(** [registry.get]: the registry is built from [KNOWN_PROTOCOLS]. *)
Definition registered (protocol : string) : bool := bool_decide (protocol ∈ KNOWN_PROTOCOLS).

Definition build_lane (cfg : RootCfg.t) (context_max : gmap string (option Z)) (ld : LaneData.t) (mc : ModelCfg.t)
    (p : ProviderCfg.t) : BootError + Lane.t :=
  let provider := LaneData.provider ld in
  if negb (registered (ProviderCfg.protocol p)) then inl (BootUnknownProtocol provider (ProviderCfg.protocol p))
  else match build_credential cfg provider p with
       | inl e => inl e
       | inr credential =>
           inr (Lane.mk (LaneData.model ld) provider (trim_slashes (ProviderCfg.base_url p)) (provider_api_key p)
                  credential (ProviderCfg.protocol p) (LaneData.max ld) (ProviderCfg.error_map p)
                  (mjoin (context_max !! LaneData.model ld)) (ProviderCfg.path p) (ProviderCfg.path_base p)
                  (ProviderCfg.health p) (LaneData.upstream_model ld) (LaneData.attempt_timeout_ms ld)
                  (LaneData.reasoning ld) (LaneData.prompt_caching ld) (ModelCfg.default_max_tokens mc))
       end.

Fixpoint build_lanes (cfg : RootCfg.t) (context_max : gmap string (option Z))
    (data : list (LaneData.t * ModelCfg.t * ProviderCfg.t)) : BootError + list Lane.t :=
  match data with
  | [] => inr []
  | (ld, mc, p) :: data =>
      match build_lane cfg context_max ld mc p with
      | inl e => inl e
      | inr lane => match build_lanes cfg context_max data with inl e => inl e | inr lanes => inr (lane :: lanes) end
      end
  end.

(** ** Pools *)
Fixpoint build_members (by_model : gmap string nat) (pool : string) (members : list PoolMember.t)
    : BootError + list WeightedLane.t :=
  match members with
  | [] => inr []
  | m :: members =>
      match by_model !! PoolMember.model m with
      | None => inl (BootUnknownModel pool (PoolMember.model m))
      | Some idx =>
          match build_members by_model pool members with
          | inl e => inl e
          | inr rest => inr (WeightedLane.mk idx (PoolMember.weight m) (PoolMember.reasoning m)
                               (PoolMember.attempt_timeout_ms m) :: rest)
          end
      end
  end.

Fixpoint build_pools (by_model : gmap string nat) (pools : list (string * Pool.t))
    (built : gmap string (list WeightedLane.t)) : BootError + gmap string (list WeightedLane.t) :=
  match pools with
  | [] => inr built
  | (name, p) :: pools =>
      match build_members by_model name (Pool.members p) with
      | inl e => inl e
      | inr members => build_pools by_model pools (<[name := members]> built)
      end
  end.

(** What a pool's configuration contributes to the routing tables. *)
Definition on_exhausted_of (p : Pool.t) : OnExhausted :=
  match Pool.on_exhausted p with Some c => to_runtime c | None => Status503 end.

Definition member_tags (by_model : gmap string nat) (p : Pool.t) : gmap nat (list string) :=
  foldl (fun acc m => match by_model !! PoolMember.model m with
                      | Some idx => <[idx := PoolMember.tags m]> acc
                      | None => acc
                      end) ∅ (Pool.members p).

Definition build_tables (cfg : RootCfg.t) (models : list (string * ModelCfg.t)) (pools : list (string * Pool.t))
    : BootError + App.t :=
  let sorted := sort_models models in
  match lanes_data_loop (RootCfg.providers cfg) sorted 0 with
  | inl e => inl e
  | inr data =>
      match resolve_model_context_max (all_members pools) ∅ with
      | inl e => inl e
      | inr context_max =>
          match build_lanes cfg context_max data with
          | inl e => inl e
          | inr lanes =>
              let by_model := by_model_of sorted in
              match build_pools by_model pools ∅ with
              | inl e => inl e
              | inr built =>
                  inr (App.mk ((fun d => d.1.1) <$> data) lanes by_model built built
                         (on_exhausted_of <$> list_to_map pools)
                         (omap (fun p => BreakerConfig.resolve_breaker_cfg <$> Pool.breaker p) (list_to_map pools))
                         (member_tags by_model <$> list_to_map pools)
                         (omap Pool.failover (list_to_map pools)))
              end
          end
      end
  end.

(** [build_app_from_config], from the semantic validation on. *)
Definition build_app_from_config (cfg : RootCfg.t) (models : list (string * ModelCfg.t)) (pools : list (string * Pool.t))
    : option (BootError + App.t) :=
  let? errors := validate cfg in
  Some (match errors with [] => build_tables cfg models pools | _ => inl (InvalidConfig errors) end).
End Build.

(** The configuration the failover walk reads. *)
Definition lane_cfg (l : Lane.t) : LaneCfg.t :=
  LaneCfg.mk (Lane.model l) (Lane.protocol l) (Lane.error_map l) (Lane.context_max l) (Lane.attempt_timeout_ms l).

Definition app_cfg (app : App.t) (passthrough : bool) : AppCfg.t :=
  AppCfg.mk (lane_cfg <$> App.lanes app) passthrough (App.on_exhausted_cfgs app) (App.fallback_pools app)
    (App.breakers app) (App.members app).
