(* ===== verification/TopologyProps.v ===== *)
(** * What a validated configuration guarantees: no fallback ring, vetted endpoints *)
From stdpp Require Import base gmap list strings.
From Stdlib Require Import ZArith Lia Ascii.
From S2P Require Import Prelude Breaker Cell BreakerConfig Store Cost CostFacts Select Walk Json HookWire Ranking Routing HookResolve.
From S2P Require Import Windows EventStream Signing Keys Sse Sigv4 FrontDoor NetGuard EgressAuth Secrets Topology.
Open Scope Z_scope.
Open Scope rust_scope.

(** ** Reading the rules backwards *)
Lemma push_when_nil b e : push_when b e = [] <-> b = false.
Proof. by destruct b. Qed.

Lemma bind_nil {A B} (f : A -> list B) (l : list A) : l ≫= f = [] <-> forall x, x ∈ l -> f x = [].
Proof.
  induction l as [|x l IH]; [by split; [intros _ x Hx; inversion Hx|]|].
  rewrite bind_cons, app_nil, IH. split.
  - intros [Hx Hl] y [->|Hy]%elem_of_cons; auto.
  - intros Hall. split; [|intros y Hy]; apply Hall, elem_of_cons; auto.
Qed.

Lemma each_nil {K A B} (f : K -> A -> list B) (l : list (K * A)) :
  each f l = [] <-> forall k a, (k, a) ∈ l -> f k a = [].
Proof. unfold each. rewrite bind_nil. split; [intros Hl k a Hk; apply (Hl _ Hk)|intros Hl [k a]; apply Hl]. Qed.

Lemma each_map_nil {A B} (f : string -> A -> list B) (m : gmap string A) :
  each f (map_to_list m) = [] <-> forall k a, m !! k = Some a -> f k a = [].
Proof. rewrite each_nil. split; intros Hm k a Hk; apply Hm; by rewrite elem_of_map_to_list in *. Qed.

(** ** Following fallbacks *)
Section Rings.
Variable pools : gmap string Pool.t.
Notation next := (resolve_fallback_target pools).

Fixpoint follow (n : nat) (x : string) : option string :=
  match n with O => Some x | S n => y ← next x; follow n y end.

Lemma follow_add n m x : follow (n + m) x = (y ← follow n x; follow m y).
Proof. revert x. induction n as [|n IH]; intros x; [done|]. simpl. destruct (next x); [apply IH|done]. Qed.

Lemma follow_S n x : follow (S n) x = (y ← follow n x; next y).
Proof.
  rewrite <-Nat.add_1_r, follow_add. destruct (follow n x) as [y|]; [|done]. simpl. by destruct (next y).
Qed.

Definition cyclic (x : string) : Prop := exists k, (0 < k)%nat /\ follow k x = Some x.

Lemma next_in_pools x y : next x = Some y -> x ∈ dom pools.
Proof. unfold resolve_fallback_target. rewrite elem_of_dom. destruct (pools !! x); [by eexists|done]. Qed.

Lemma cyclic_next x : cyclic x -> exists y, next x = Some y /\ cyclic y.
Proof.
  intros (k & Hk & Hf). destruct k as [|k]; [lia|]. simpl in Hf. destruct (next x) as [y|] eqn:E; [|done]. exists y. split; [done|].
  exists (S k). split; [lia|]. simpl in Hf. by rewrite follow_S, Hf.
Qed.

(** A period of a pool is one of every pool after it. *)
Lemma period_shift k n x y : follow k x = Some x -> follow n x = Some y -> follow k y = Some y.
Proof.
  intros Hk Hn. pose proof (follow_add n k x) as H1. rewrite Hn in H1. pose proof (follow_add k n x) as H2. rewrite Hk in H2.
  simpl in H1, H2. rewrite Nat.add_comm in H2. congruence.
Qed.

Lemma cyclic_after n x y : cyclic x -> follow n x = Some y -> cyclic y.
Proof. intros (k & Hk & Hf) Hn. exists k. eauto using period_shift. Qed.

(** On a ring, two pools with the same fallback are the same pool. *)
Lemma next_inj k a b c : (0 < k)%nat -> follow k a = Some a -> follow k b = Some b -> next a = Some c -> next b = Some c -> a = b.
Proof. intros Hk Ha Hb Hna Hnb. destruct k as [|k]; [lia|]. simpl in Ha, Hb. rewrite Hna in Ha. rewrite Hnb in Hb. simpl in Ha, Hb. congruence. Qed.

(** ** The order on names *)
Lemma string_compare_trans s1 s2 s3 : String.leb s1 s2 = true -> String.leb s2 s3 = true -> String.leb s1 s3 = true.
Proof.
  unfold String.leb. revert s2 s3. induction s1 as [|a s1 IH]; intros [|b s2] [|c s3]; simpl; try done.
  unfold Ascii.compare.
  destruct (N.compare_spec (N_of_ascii a) (N_of_ascii b)) as [Eab|Lab|Lab];
    destruct (N.compare_spec (N_of_ascii b) (N_of_ascii c)) as [Ebc|Lbc|Lbc];
    destruct (N.compare_spec (N_of_ascii a) (N_of_ascii c)) as [Eac|Lac|Lac]; try done; try lia.
  intros H1 H2. specialize (IH s2 s3). by apply IH.
Qed.

Lemma string_leb_refl s : String.leb s s = true.
Proof. by destruct (String.leb_total s s). Qed.

Lemma smallest (l : list string) : l <> [] -> exists m, m ∈ l /\ forall y, y ∈ l -> String.leb m y = true.
Proof.
  induction l as [|a l IH]; [done|]. intros _. destruct l as [|b l].
  - exists a. split; [by apply list_elem_of_singleton|]. intros y ->%list_elem_of_singleton. apply string_leb_refl.
  - destruct IH as (m & Hm & Hmin); [done|]. destruct (String.leb_total a m) as [Ham|Hma].
    + exists a. split; [apply elem_of_cons; by left|]. intros z [->|Hz]%elem_of_cons; [apply string_leb_refl|].
      eapply string_compare_trans; [exact Ham|by apply Hmin].
    + exists m. split; [apply elem_of_cons; by right|]. intros z [->|Hz]%elem_of_cons; [done|by apply Hmin].
Qed.

Lemma min_member_least m rest cursor : (forall y, y ∈ rest -> String.leb m y = true) -> min_member (m :: rest) cursor = m.
Proof.
  simpl. induction rest as [|y rest IH] using rev_ind; [done|]. intros Hall. rewrite foldl_app. simpl.
  rewrite IH by (intros z Hz; apply Hall, elem_of_app; by left). unfold string_min.
  by rewrite (Hall y) by (apply elem_of_app; right; apply list_elem_of_singleton; done).
Qed.

Lemma follow_mod k n x : (0 < k)%nat -> follow k x = Some x -> follow (n mod k) x = follow n x.
Proof.
  intros Hk Hf. assert (Hq : forall q, follow (k * q) x = Some x).
  { induction q as [|q IH]; [by rewrite Nat.mul_0_r|]. by rewrite Nat.mul_succ_r, follow_add, IH. }
  rewrite (Nat.div_mod n k) at 2 by lia. by rewrite follow_add, Hq.
Qed.

(** A ring has a smallest member: no pool reached from it has a smaller name. *)
Lemma ring_least x : cyclic x -> exists m, cyclic m /\ forall n y, follow n m = Some y -> String.leb m y = true.
Proof.
  intros (k & Hk & Hf). destruct (smallest (omap (fun i => follow i x) (seq 0 k))) as (m & Hm & Hmin).
  { destruct k; [lia|]. done. }
  apply list_elem_of_omap in Hm as (j & Hj & Hfj). exists m. split; [eapply cyclic_after; [by exists k|exact Hfj]|].
  intros n y Hy. apply Hmin, list_elem_of_omap. exists ((j + n) mod k)%nat. split.
  - apply elem_of_seq. pose proof (Nat.mod_upper_bound (j + n) k). lia.
  - by rewrite follow_mod, follow_add, Hfj.
Qed.

(** The path of a walk from [m] to [cursor]. *)
Definition walked (m : string) (path : list string) (cursor : string) : Prop :=
  NoDup path /\ (forall i x, path !! i = Some x -> follow i m = Some x) /\ follow (length path) m = Some cursor.

Lemma walked_step m path cursor y :
  walked m path cursor -> cursor ∉ path -> next cursor = Some y -> walked m (path ++ [cursor]) y.
Proof.
  intros (Hnd & Hp & Hc) Hn Hy. split_and!.
  - apply NoDup_app. split_and!; [done| |apply NoDup_singleton]. intros z Hz ->%list_elem_of_singleton. done.
  - intros i z [Hi|[Hi Hz]]%lookup_app_Some; [by apply Hp|].
    destruct (i - length path)%nat as [|j] eqn:E; [|done]. injection Hz as <-. by replace i with (length path) by lia.
  - rewrite length_app, Nat.add_1_r, follow_S, Hc. done.
Qed.

(** The first pool a walk from a member of a ring meets again is the one it started from. *)
Lemma walk_closes_at_start m path cursor k :
  (0 < k)%nat -> follow k m = Some m -> walked m path cursor -> cursor ∈ path -> exists rest, path = m :: rest /\ cursor = m.
Proof.
  intros Hk Hf (Hnd & Hp & Hc) [i Hi]%list_elem_of_lookup. destruct path as [|h rest] eqn:Ep; [done|]. rewrite <-Ep in *.
  pose proof (Hp 0%nat h ltac:(by rewrite Ep)) as Hh. injection Hh as <-. exists rest. split; [done|].
  destruct i as [|i]; [rewrite Ep in Hi; by injection Hi|].
  assert (exists a, path !! i = Some a) as [a Ha] by (apply lookup_lt_is_Some; apply lookup_lt_Some in Hi; lia).
  assert (exists b, path !! (length path - 1)%nat = Some b) as [b Hb] by (apply lookup_lt_is_Some; rewrite Ep; simpl; lia).
  pose proof (Hp _ _ Ha) as Hfa. pose proof (Hp _ _ Hb) as Hfb. pose proof (Hp _ _ Hi) as Hfi.
  rewrite follow_S, Hfa in Hfi. replace (length path) with (S (length path - 1)) in Hc by (rewrite Ep; simpl; lia).
  rewrite follow_S, Hfb in Hc.
  assert (a = b) as <- by (eapply (next_inj k); eauto using period_shift).
  pose proof (NoDup_lookup _ _ _ _ Hnd Ha Hb). apply lookup_lt_Some in Hi. lia.
Qed.

Lemma list_find_head (x : string) rest : list_find (eq x) (x :: rest) = Some (0%nat, x).
Proof. simpl. by rewrite decide_True. Qed.

(** Validation reports the ring when it starts from its smallest member. *)
Lemma ring_reported fuel m path cursor errs :
  cyclic m -> (forall n y, follow n m = Some y -> String.leb m y = true) -> next m <> Some m ->
  walked m path cursor -> ring_walk fuel pools m path cursor = Some errs -> errs <> [].
Proof.
  intros Hcy Hmin Hself. revert path cursor. induction fuel as [|fuel IH]; intros path cursor Hw; [done|]. cbn [ring_walk].
  case_bool_decide as Hin.
  - destruct Hcy as (k & Hk & Hf). destruct (walk_closes_at_start m path cursor k Hk Hf Hw Hin) as (rest & -> & ->).
    rewrite list_find_head. change (drop _ (m :: rest)) with (m :: rest). rewrite min_member_least.
    + rewrite String.eqb_refl. destruct rest as [|z rest]; [|by intros [= <-]].
      destruct Hw as (_ & _ & Hc). simpl in Hc. destruct (next m) eqn:E; [|done]. simpl in Hc. congruence.
    + intros y [i Hi]%list_elem_of_lookup. destruct Hw as (_ & Hp & _). exact (Hmin _ _ (Hp (S i) y Hi)).
  - assert (cyclic cursor) as Hcc by (destruct Hw as (_ & _ & Hc); by eapply cyclic_after).
    destruct (cyclic_next _ Hcc) as (y & Hy & Hcy'). rewrite Hy. destruct (cyclic_next _ Hcy') as (z & Hz & _).
    pose proof (next_in_pools _ _ Hz) as Hd. apply elem_of_dom in Hd as [p ->]. apply IH. by apply walked_step.
Qed.

(** A path without repetition is no longer than there are pools. *)
Lemma path_bounded (path : list string) : NoDup path -> (forall x, x ∈ path -> x ∈ dom pools) -> (length path <= size pools)%nat.
Proof.
  intros Hnd Hin. rewrite <-size_dom, <-(size_list_to_set (C := gset string)) by done.
  apply subseteq_size. intros x Hx%elem_of_list_to_set. by apply Hin.
Qed.

(** The walk ends: its path is without repetition and inside the pools. *)
Lemma ring_walk_ends fuel pool path cursor :
  NoDup path -> (forall x, x ∈ path -> x ∈ dom pools) -> (size pools < fuel + length path)%nat ->
  is_Some (ring_walk fuel pools pool path cursor).
Proof.
  revert path cursor. induction fuel as [|fuel IH]; intros path cursor Hnd Hin Hlt.
  - pose proof (path_bounded path Hnd Hin). lia.
  - cbn [ring_walk]. case_bool_decide as Hc; [by eexists|]. destruct (next cursor) as [y|] eqn:Ey; [|by eexists].
    destruct (pools !! y); [|by eexists]. apply IH.
    + apply NoDup_app. split_and!; [done| |apply NoDup_singleton]. intros z Hz ->%list_elem_of_singleton. done.
    + intros x [Hx| ->%list_elem_of_singleton]%elem_of_app; [by apply Hin|by eapply next_in_pools].
    + rewrite length_app. simpl. lia.
Qed.

Lemma ring_rule_total pool : is_Some (ring_rule pools pool).
Proof. apply ring_walk_ends; [apply NoDup_nil_2|by intros x Hx%elem_of_nil|simpl; lia]. Qed.

(** The fallback chain of a pool, when it ends within the fuel. *)
Fixpoint chain (fuel : nat) (x : string) : option (list string) :=
  match fuel with
  | O => None
  | S fuel => match next x with None => Some [x] | Some y => l ← chain fuel y; Some (x :: l) end
  end.

(** A chain that goes on for longer than there are pools runs into a ring. *)
Lemma endless_chain_cyclic fuel m path cursor :
  walked m path cursor -> (forall x, x ∈ path -> x ∈ dom pools) -> (size pools < fuel + length path)%nat ->
  chain fuel cursor = None -> exists y, cyclic y.
Proof.
  revert path cursor. induction fuel as [|fuel IH]; intros path cursor Hw Hin Hlt.
  - destruct Hw as (Hnd & _). pose proof (path_bounded path Hnd Hin). lia.
  - cbn [chain]. destruct (next cursor) as [y|] eqn:Ey; [|done]. intros Hn. destruct (decide (cursor ∈ path)) as [Hc|Hc].
    + exists cursor. apply list_elem_of_lookup in Hc as [i Hi]. destruct Hw as (_ & Hp & Hf). apply Hp in Hi as Hfi.
      apply lookup_lt_Some in Hi. exists (length path - i)%nat. split; [lia|].
      replace (length path) with (i + (length path - i))%nat in Hf by lia. by rewrite follow_add, Hfi in Hf.
    + eapply IH; [by eapply walked_step| | |by destruct (chain fuel y)].
      * intros x [Hx| ->%list_elem_of_singleton]%elem_of_app; [by apply Hin|by eapply next_in_pools].
      * rewrite length_app. simpl. lia.
Qed.

(** Without a ring every chain ends. *)
Lemma chains_end :
  (forall m p, pools !! m = Some p -> ring_rule pools m = Some []) -> (forall m, next m <> Some m) ->
  forall x, is_Some (chain (S (size pools)) x).
Proof.
  intros Hr Hself x. destruct (chain (S (size pools)) x) as [l|] eqn:E; [by eexists|].
  assert (Hstart : forall y, walked y [] y) by (intros y; unfold walked; split_and!; [apply NoDup_nil_2|done|done]).
  destruct (endless_chain_cyclic (S (size pools)) x [] x (Hstart x)) as [y Hy]; [by intros z Hz%elem_of_nil|simpl; lia|done|].
  destruct (ring_least y Hy) as (m & Hm & Hmin). destruct (cyclic_next m Hm) as (z & Hz & _).
  pose proof (next_in_pools _ _ Hz) as Hd. apply elem_of_dom in Hd as [p Hp]. specialize (Hr m p Hp).
  by destruct (ring_reported _ m [] m [] Hm Hmin (Hself m) (Hstart m) Hr).
Qed.


Lemma chain_unique f1 f2 x l1 l2 : chain f1 x = Some l1 -> chain f2 x = Some l2 -> l1 = l2.
Proof.
  revert f2 x l1 l2. induction f1 as [|f1 IH]; intros [|f2] x l1 l2; try done. cbn [chain].
  destruct (next x) as [y|]; [|congruence]. destruct (chain f1 y) as [m1|] eqn:E1; [|done]. destruct (chain f2 y) as [m2|] eqn:E2; [|done].
  simpl. intros [= <-] [= <-]. f_equal. by eapply IH.
Qed.

Lemma chain_tail fuel x l y : chain fuel x = Some l -> y ∈ l -> exists f l', chain f y = Some l' /\ (length l' <= length l)%nat.
Proof.
  revert x l. induction fuel as [|fuel IH]; intros x l; [done|]. intros E Hy. pose proof E as E'. cbn [chain] in E.
  destruct (next x) as [z|] eqn:Ez.
  - destruct (chain fuel z) as [m|] eqn:Em; [|done]. injection E as <-. apply elem_of_cons in Hy as [->|Hy]; [by exists (S fuel), (x :: m)|].
    destruct (IH z m Em Hy) as (f & l' & Hf & Hl). exists f, l'. split; [done|]. simpl. lia.
  - injection E as <-. apply list_elem_of_singleton in Hy as ->. by exists (S fuel), [x].
Qed.

(** A chain that ends visits no pool twice, and only pools that exist when its start and all fallback
    targets do. *)
Lemma chain_nodup fuel x l : chain fuel x = Some l -> NoDup l.
Proof.
  revert x l. induction fuel as [|fuel IH]; intros x l; [done|]. intros E. pose proof E as E'. cbn [chain] in E.
  destruct (next x) as [z|] eqn:Ez; [|injection E as <-; apply NoDup_singleton].
  destruct (chain fuel z) as [m|] eqn:Em; [|done]. injection E as <-. apply NoDup_cons. split; [|by eapply IH].
  intros Hx. destruct (chain_tail _ _ _ _ Em Hx) as (f & l' & Hf & Hl). pose proof (chain_unique _ _ _ _ _ Hf E') as ->. simpl in Hl. lia.
Qed.

Lemma chain_in_pools fuel x l :
  (forall y z, next y = Some z -> z ∈ dom pools) -> x ∈ dom pools -> chain fuel x = Some l -> Forall (fun y => y ∈ dom pools) l.
Proof.
  intros Ht. revert x l. induction fuel as [|fuel IH]; intros x l Hx; [done|]. cbn [chain].
  destruct (next x) as [z|] eqn:Ez; [|by intros [= <-]; repeat constructor].
  destruct (chain fuel z) as [m|] eqn:Em; [|done]. intros [= <-]. constructor; [done|]. eapply IH; [by eapply Ht|done].
Qed.
End Rings.

(** ** What an empty error list says *)
Section Validated.
Context `{Host} `{OAuthLibs}.

Record validated (cfg : RootCfg.t) : Prop := {
  v_model n m : RootCfg.models cfg !! n = Some m -> model_rule cfg n m = [];
  v_provider n p : RootCfg.providers cfg !! n = Some p -> provider_rule [] cfg n p = [];
  v_pool n p : RootCfg.pools cfg !! n = Some p -> pool_rule cfg n p = [];
  v_ring n p : RootCfg.pools cfg !! n = Some p -> ring_rule (RootCfg.pools cfg) n = Some [];
  v_auth : auth_rule cfg = [];
  v_limits : validate_limits (RootCfg.limits cfg) = [];
  v_context : context_max_rule (all_members (map_to_list (RootCfg.pools cfg))) ∅ = [];
  v_secrets : secrets_rule cfg = [] }.

Lemma mapM_concat_nil {A B} (f : A -> option (list B)) l r :
  mapM f l = Some r -> concat r = [] -> forall x, x ∈ l -> f x = Some [].
Proof.
  revert r. induction l as [|a l IH]; intros r; [by intros _ _ x Hx%elem_of_nil|].
  cbn [mapM]. destruct (f a) as [ra|] eqn:Ea; [|done]. simpl. destruct (mapM f l) as [rl|]; [|done]. simpl.
  intros [= <-]. simpl. intros [Ha Hl]%app_nil x [->|Hx]%elem_of_cons; [by rewrite Ea, Ha|by eapply IH].
Qed.

Lemma validate_nil cfg : validate cfg = Some [] -> validated cfg.
Proof.
  unfold validate, validate_with_unset. cbn zeta.
  destruct (mapM (ring_rule _) _) as [rings|] eqn:Er; [|done].
  destruct (validate_hooks _ _ _) as [hooks|]; [|done].
  unfold validate_cost_model. destruct (validate_groups _ _) as [groups|]; [|done]. intros [= E].
  rewrite !app_nil in E. destruct_and! E.
  match goal with Hr : concat rings = [] |- _ => rename Hr into Hrings end.
  split; try done.
  - by apply each_map_nil.
  - by apply each_map_nil.
  - by apply each_map_nil.
  - intros n p Hp. eapply mapM_concat_nil; [exact Er|done|]. apply list_elem_of_fmap. exists (n, p). split; [done|].
    by apply elem_of_map_to_list.
Qed.

Lemma pool_rules cfg n p : pool_rule cfg n p = [] ->
  Pool.members p <> [] /\ (forall m, m ∈ Pool.members p -> member_rule cfg n m = []) /\ breaker_rule n (Pool.breaker p) = [] /\
  failover_rule n p = [] /\ exhausted_rule cfg n (Pool.on_exhausted p) = [].
Proof.
  unfold pool_rule. rewrite !app_nil, bind_nil, push_when_nil, bool_decide_eq_false. intuition.
Qed.

(** The fallback of a validated pool is another pool of the configuration. *)
Lemma fallback_exists cfg x y :
  validated cfg -> resolve_fallback_target (RootCfg.pools cfg) x = Some y -> y ∈ dom (RootCfg.pools cfg) /\ y <> x.
Proof.
  intros Hv. unfold resolve_fallback_target. destruct (RootCfg.pools cfg !! x) as [p|] eqn:Ep; [|done]. simpl. intros Ht.
  destruct (pool_rules _ _ _ (v_pool cfg Hv x p Ep)) as (_ & _ & _ & _ & He). unfold exhausted_rule in He.
  destruct (Pool.on_exhausted p) as [[| |t]|]; try done. injection Ht as ->. case_bool_decide as Hn; [done|].
  rewrite push_when_nil in He. split; [|by destruct (String.eqb_spec y x)]. apply elem_of_dom.
  destruct (RootCfg.pools cfg !! y); [by eexists|done].
Qed.

(** C9.  In a configuration that validates, following the fallback pools from any pool comes to an end:
    within as many steps as there are pools it reaches a pool without a fallback, every pool on the way
    is one of the configuration, and none is visited twice.  The validator's walk itself always ends. *)
Theorem fallback_chains_end cfg pool :
  is_Some (ring_rule (RootCfg.pools cfg) pool) /\
  (validate cfg = Some [] -> pool ∈ dom (RootCfg.pools cfg) ->
   exists l, chain (RootCfg.pools cfg) (S (size (RootCfg.pools cfg))) pool = Some l /\ NoDup l /\
             Forall (fun y => y ∈ dom (RootCfg.pools cfg)) l).
Proof.
  split; [apply ring_rule_total|]. intros Hv%validate_nil Hp.
  destruct (chains_end (RootCfg.pools cfg) (v_ring cfg Hv)) with (x := pool) as [l Hl].
  { intros m Hm. by destruct (fallback_exists cfg m m Hv Hm). }
  exists l. split_and!; [done|by eapply chain_nodup|]. eapply chain_in_pools; [|exact Hp|exact Hl].
  intros y z Hz. by destruct (fallback_exists cfg y z Hv Hz).
Qed.

(** ** What validation rules out *)

(** The data-plane chain of a validated configuration is made of [keys] entries, and its secrets are
    environment variables and files: an auth or secret plugin never gets past validation. *)
Theorem validated_chain_is_keys cfg a e :
  validate cfg = Some [] -> RootCfg.auth cfg = Some a -> e ∈ AuthCfg.chain a -> AuthChainEntry.module e = KEYS_MODULE.
Proof.
  intros Hv%validate_nil Ha He. pose proof (v_auth cfg Hv) as Hr. unfold auth_rule in Hr. rewrite Ha, !app_nil in Hr.
  destruct Hr as (_ & _ & Hc). unfold chain_rule in Hc. rewrite bind_nil in Hc. specialize (Hc e He).
  rewrite push_when_nil, negb_false_iff, String.eqb_eq in Hc. done.
Qed.

Lemma check_secret_builtin what r : check_secret what r = [] ->
  SecretRef.module r = SECRET_MODULE_ENV \/ SecretRef.module r = SECRET_MODULE_FILE.
Proof.
  unfold check_secret. cbn zeta. destruct (String.eqb_spec (SecretRef.module r) SECRET_MODULE_ENV); [by left|].
  destruct (String.eqb_spec (SecretRef.module r) SECRET_MODULE_FILE); [by right|done].
Qed.

Lemma provider_secret_builtin cfg n p :
  validated cfg -> RootCfg.providers cfg !! n = Some p ->
  SecretRef.module (ProviderCfg.api_key p) = SECRET_MODULE_ENV \/ SecretRef.module (ProviderCfg.api_key p) = SECRET_MODULE_FILE.
Proof.
  intros Hv Hp. pose proof (v_secrets cfg Hv) as Hs. unfold secrets_rule in Hs. rewrite !app_nil, each_map_nil in Hs.
  destruct Hs as [Hs _]. by eapply check_secret_builtin, Hs.
Qed.
End Validated.

(** The reserved name is [admin], while the middleware's admin plane is everything under [/api]. *)
Example pool_named_api :
  reserved_admin_name "api" = false /\ reserved_admin_name "admin" = true /\
  starts_with "/api/v1/messages" ADMIN_PATH_PREFIX = true.
Proof. vm_compute. auto. Qed.

(** Extra slashes after the scheme hide the host from the guard; the URL standard's parser skips them. *)
Example slashes_hide_the_host :
  ssrf_blocked_host "https://169.254.169.254/x" [] false [] = Some "169.254.169.254" /\
  ssrf_blocked_host "https:///169.254.169.254/x" [] false [] = None /\
  endpoint_rule [] (MetadataSsrfPolicy.mk [] false []) "p" "base_url" "https:///169.254.169.254/x" = [].
Proof. vm_compute. auto. Qed.

(** ** A configuration that validates *)
Module Demo.
#[export] Instance host : Host := { env_value v := if String.eqb v "KEY" then Some "id:secret" else None; file_bytes _ := None }.
#[export] Instance libs : OAuthLibs :=
  { RsaKeyPair := unit; read_to_string _ := None; service_account_from_str _ := None; standard_decode _ := None;
    from_pkcs8 _ := None }.

Definition provider (url : string) (auth : option ProviderAuth) : ProviderCfg.t :=
  ProviderCfg.mk "openai" url (SecretRef.env "KEY") None {["insufficient_quota" := "billing"]} (Some "/v1/chat") None
    (Some "https://login.example.com/token") (Some "s") auth [].
Definition model (provider : string) : ModelCfg.t := ModelCfg.mk (-1) provider (Some 4) None None None None None.
Definition member (model : string) (weight : Z) : PoolMember.t := PoolMember.mk model weight (Some 128000) None None None ["x"].
Definition pool (members : list PoolMember.t) (o : option OnExhaustedCfg) : Pool.t :=
  Pool.mk members (Some Config.breaker_serde_default) None o None (PoolCfg.mk PWeighted [] false).
Definition limits : LimitsResolved.t :=
  LimitsResolved.mk 600 10 30 5 64 86400 1800 33554432 65536 4096 30 5 1 256 (1024, 2048, 8192, 16384)
    8 300 0 0 100 100.

Definition cfg : RootCfg.t :=
  RootCfg.mk "0.0.0.0:8080" "127.0.0.1:8081" None None None
    {["up" := provider "https://api.example.com/" None; "local" := provider "http://127.0.0.1:8000" (Some OAuthClientCredentials)]}
    {["m1" := model "up"; "m2" := model "local"]}
    {["a" := pool [member "m1" 3; member "m2" 1] (Some (ExhaustFallbackPool "b")); "b" := pool [member "m2" 1] None]}
    ∅ ["admin-tokens"] ∅ None 0 None [] [] [] false limits.

(** The same with the second pool falling back to the first. *)
Definition ring_cfg : RootCfg.t :=
  RootCfg.mk "0.0.0.0:8080" "127.0.0.1:8081" None None None (RootCfg.providers cfg) (RootCfg.models cfg)
    {["a" := pool [member "m1" 3; member "m2" 1] (Some (ExhaustFallbackPool "b"));
      "b" := pool [member "m2" 1] (Some (ExhaustFallbackPool "a"))]}
    ∅ ["admin-tokens"] ∅ None 0 None [] [] [] false limits.

Lemma cfg_validates : validate cfg = Some [].
Proof. vm_compute. reflexivity. Qed.

Lemma ring_is_rejected : validate ring_cfg = Some [FallbackRing ["a"; "b"; "a"]].
Proof. vm_compute. reflexivity. Qed.
End Demo.
#[local] Existing Instances Demo.host Demo.libs.

Lemma fallback_chains_end_witness :
  exists l, chain (RootCfg.pools Demo.cfg) (S (size (RootCfg.pools Demo.cfg))) "a" = Some l /\ NoDup l /\
            Forall (fun y => y ∈ dom (RootCfg.pools Demo.cfg)) l.
Proof.
  refine (proj2 (fallback_chains_end Demo.cfg "a") _ _); [vm_compute; reflexivity|]. apply elem_of_dom. vm_compute. eexists. reflexivity.
Defined.
