(* ===== verification/BootProps.v ===== *)
(** * A validated configuration boots, the same way whatever order its maps are read in *)
From stdpp Require Import base gmap list strings.
From Stdlib Require Import ZArith Lia Ascii.
From S2P Require Import Prelude Breaker Cell BreakerConfig CellFacts Swrr Store StoreFacts StoreProps Cost CostFacts Select Walk WalkSteps.
From S2P Require Import Json HookWire Ranking Routing HookResolve Windows EventStream Signing Keys Sse Sigv4 FrontDoor NetGuard.
From S2P Require Import Sigv4Facts NetGuardProps EgressAuth Secrets Topology TopologyProps Boot.
Open Scope Z_scope.
Open Scope rust_scope.

(** ** The context window of a model *)

(** What the members of the pools say of a model, on top of what is already known. *)
Definition declares (ms : list PoolMember.t) (model : string) (c : Z) : Prop :=
  exists m, m ∈ ms /\ PoolMember.model m = model /\ PoolMember.context_max m = Some c.
Definition known (s : string -> option Z) (ms : list PoolMember.t) (model : string) (c : Z) : Prop :=
  s model = Some c \/ declares ms model c.
Definition single_valued (R : string -> Z -> Prop) : Prop := forall model a b, R model a -> R model b -> a = b.

Lemma declares_nil model c : ~ declares [] model c.
Proof. intros (m & Hm%elem_of_nil & _). done. Qed.

Lemma declares_cons m ms model c :
  declares (m :: ms) model c <-> (PoolMember.model m = model /\ PoolMember.context_max m = Some c) \/ declares ms model c.
Proof.
  split.
  - intros (m' & [->|Hm]%elem_of_cons & Hrest); [by left|right; by exists m'].
  - intros [Hh|(m' & Hm & Hrest)]; [exists m|exists m']; (split; [apply elem_of_cons; auto|done]).
Qed.

(** Recording a declaration that agrees with what is known changes nothing. *)
Lemma known_absorb s s' m ms :
  (forall model a, s' model = Some a <-> s model = Some a \/ PoolMember.model m = model /\ PoolMember.context_max m = Some a) ->
  forall model a, known s' ms model a <-> known s (m :: ms) model a.
Proof. intros Hs model a. unfold known. rewrite Hs, declares_cons. tauto. Qed.

Lemma single_valued_proper R1 R2 : (forall model a, R1 model a <-> R2 model a) -> single_valued R1 <-> single_valued R2.
Proof. intros He. unfold single_valued. split; intros Hs model a b Ha Hb; apply (Hs model); by apply He. Qed.

Lemma context_max_rule_spec ms seen :
  context_max_rule ms seen = [] <-> single_valued (known (fun x => seen !! x) ms).
Proof.
  revert seen. induction ms as [|m ms IH]; intros seen.
  - split; [|done]. intros _ model a b [Ha|[]%declares_nil] [Hb|[]%declares_nil]. all: congruence.
  - cbn [context_max_rule]. destruct (PoolMember.context_max m) as [c|] eqn:Ec.
    2:{ rewrite IH. apply single_valued_proper, known_absorb. intros. split; [by left|intros [?|[_ ?]]; [done|congruence]]. }
    assert (Hins : seen !! PoolMember.model m = None \/ seen !! PoolMember.model m = Some c ->
                   context_max_rule ms (<[PoolMember.model m := c]> seen) = [] <-> single_valued (known (fun x => seen !! x) (m :: ms))).
    { intros Hs. rewrite IH. apply single_valued_proper, known_absorb. intros model a. rewrite Ec.
      destruct (decide (PoolMember.model m = model)) as [<-|Hne]; [rewrite lookup_insert_eq|rewrite lookup_insert_ne by done]; intuition congruence. }
    destruct (seen !! PoolMember.model m) as [existing|] eqn:Es; [|auto].
    destruct (Z.eqb_spec existing c) as [->|Hne]; [auto|]. split; [done|]. intros Hs. destruct Hne.
    apply (Hs (PoolMember.model m)); [by left|]. right. apply declares_cons. by left.
Qed.

Lemma resolve_context_spec ms r :
  match resolve_model_context_max ms r with
  | inr r' => single_valued (known (fun x => mjoin (r !! x)) ms) /\
              forall model a, mjoin (r' !! model) = Some a <-> known (fun x => mjoin (r !! x)) ms model a
  | inl _ => ~ single_valued (known (fun x => mjoin (r !! x)) ms)
  end.
Proof.
  revert r. induction ms as [|m ms IH]; intros r; cbn [resolve_model_context_max].
  - split.
    + intros model a b [Ha|[]%declares_nil] [Hb|[]%declares_nil]; cbv beta in *; congruence.
    + intros model a. unfold known. split; [by left|]. by intros [?|?%declares_nil].
  - assert (Hstep : forall r1, (forall model a, mjoin (r1 !! model) = Some a <->
        mjoin (r !! model) = Some a \/ PoolMember.model m = model /\ PoolMember.context_max m = Some a) ->
      match resolve_model_context_max ms r1 with
      | inr r' => single_valued (known (fun x => mjoin (r !! x)) (m :: ms)) /\
                  forall model a, mjoin (r' !! model) = Some a <-> known (fun x => mjoin (r !! x)) (m :: ms) model a
      | inl _ => ~ single_valued (known (fun x => mjoin (r !! x)) (m :: ms))
      end).
    { intros r1 Hr1. pose proof (known_absorb _ _ m ms Hr1) as Hk. pose proof (single_valued_proper _ _ Hk) as Hsv. specialize (IH r1).
      destruct (resolve_model_context_max ms r1); [by rewrite <-Hsv|]. destruct IH as [H1 H2]. rewrite <-Hsv. split; [done|].
      intros model a. by rewrite H2, Hk. }
    destruct (r !! PoolMember.model m) as [[existing|]|] eqn:Er.
    + destruct (PoolMember.context_max m) as [c|] eqn:Ec.
      * destruct (Z.eqb_spec c existing) as [->|Hne].
        -- apply Hstep. intros model a. split; [by left|]. intros [?|[<- [= <-]]]; [done|]. by rewrite Er.
        -- intros Hs. destruct Hne. apply (Hs (PoolMember.model m)); [right; apply declares_cons; by left|left; by rewrite Er].
      * apply Hstep. intros model a. split; [by left|]. intros [?|[_ ?]]; [done|congruence].
    + apply Hstep. intros model a. destruct (decide (PoolMember.model m = model)) as [<-|Hne];
        [rewrite lookup_insert_eq, Er|rewrite lookup_insert_ne by done]; simpl; intuition congruence.
    + apply Hstep. intros model a. destruct (decide (PoolMember.model m = model)) as [<-|Hne];
        [rewrite lookup_insert_eq, Er|rewrite lookup_insert_ne by done]; simpl; intuition congruence.
Qed.

Lemma declares_perm ms1 ms2 model c : ms1 ≡ₚ ms2 -> declares ms1 model c <-> declares ms2 model c.
Proof. intros Hp. unfold declares. split; intros (m & Hm & Hr); exists m; (split; [|done]); by rewrite ?Hp, <-?Hp in *. Qed.

(** The validator's check and the boot-time resolution agree, whatever orders they read the pools in. *)
Lemma context_checks_agree ms1 ms2 :
  ms1 ≡ₚ ms2 -> context_max_rule ms1 ∅ = [] <-> exists r, resolve_model_context_max ms2 ∅ = inr r.
Proof.
  intros Hp. rewrite context_max_rule_spec.
  rewrite (single_valued_proper _ (known (fun x => mjoin ((∅ : gmap string (option Z)) !! x)) ms2)).
  2:{ intros model a. unfold known. rewrite !lookup_empty. simpl. by rewrite (declares_perm _ _ _ _ Hp). }
  pose proof (resolve_context_spec ms2 ∅) as Hr. destruct (resolve_model_context_max ms2 ∅) as [e|r]; [|by split; [eauto|intros _; apply Hr]].
  split; [done|]. by intros [r ?].
Qed.

Lemma context_values_agree ms1 ms2 r1 r2 :
  ms1 ≡ₚ ms2 -> resolve_model_context_max ms1 ∅ = inr r1 -> resolve_model_context_max ms2 ∅ = inr r2 ->
  forall model, mjoin (r1 !! model) = mjoin (r2 !! model).
Proof.
  intros Hp E1 E2 model. pose proof (resolve_context_spec ms1 ∅) as H1. pose proof (resolve_context_spec ms2 ∅) as H2.
  rewrite E1 in H1. rewrite E2 in H2. destruct H1 as [_ H1], H2 as [_ H2].
  apply option_eq. intros a. rewrite H1, H2. unfold known. by rewrite (declares_perm _ _ _ _ Hp).
Qed.

(** ** The order of the lanes *)
Lemma insert_model_perm x l : insert_model x l ≡ₚ x :: l.
Proof.
  induction l as [|y l IH]; [done|]. cbn [insert_model]. destruct (String.leb x.1 y.1); [done|]. rewrite IH. apply Permutation_swap.
Qed.

Lemma sort_models_perm l : sort_models l ≡ₚ l.
Proof. induction l as [|x l IH]; [done|]. cbn [sort_models foldr]. rewrite insert_model_perm. by f_equiv. Qed.

Lemma leb_antisym_ne a b : a <> b -> String.leb a b = true -> String.leb b a = false.
Proof.
  intros Hn Hab. destruct (String.leb b a) eqn:Hba; [|done]. destruct Hn. by apply String.leb_antisym.
Qed.

Lemma leb_flip a b : String.leb a b = false -> String.leb b a = true.
Proof. intros Hab. destruct (String.leb_total a b); congruence. Qed.

Lemma insert_model_comm x y l : x.1 <> y.1 -> insert_model x (insert_model y l) = insert_model y (insert_model x l).
Proof.
  intros Hne. induction l as [|z l IH].
  - cbn [insert_model]. destruct (String.leb x.1 y.1) eqn:Hxy.
    + by rewrite (leb_antisym_ne _ _ Hne Hxy).
    + by rewrite (leb_flip _ _ Hxy).
  - cbn [insert_model]. destruct (String.leb y.1 z.1) eqn:Hyz, (String.leb x.1 z.1) eqn:Hxz; cbn [insert_model];
      rewrite ?Hyz, ?Hxz, ?IH; try done.
    + destruct (String.leb x.1 y.1) eqn:Hxy.
      * by rewrite (leb_antisym_ne _ _ Hne Hxy), ?Hyz.
      * by rewrite (leb_flip _ _ Hxy), ?Hxz.
    + destruct (String.leb x.1 y.1) eqn:Hxy; [|done]. pose proof (string_compare_trans _ _ _ Hxy Hyz). congruence.
    + destruct (String.leb y.1 x.1) eqn:Hyx; [|done]. pose proof (string_compare_trans _ _ _ Hyx Hxz). congruence.
Qed.

(** The lanes do not depend on the order the map of models is read in. *)
Lemma sort_models_unique l1 l2 : NoDup l1.*1 -> l1 ≡ₚ l2 -> sort_models l1 = sort_models l2.
Proof.
  intros Hnd Hp. induction Hp as [|x l1 l2 _ IH|x y l|l1 l2 l3 H12 IH1 _ IH2]; [done| | |].
  - rewrite fmap_cons, NoDup_cons in Hnd. cbn [sort_models foldr]. f_equal. apply IH, Hnd.
  - rewrite !fmap_cons, !NoDup_cons, elem_of_cons in Hnd. cbn [sort_models foldr]. apply insert_model_comm. intuition.
  - rewrite IH1 by done. apply IH2. by rewrite <-H12.
Qed.

Lemma by_model_keys (models : list (string * ModelCfg.t)) (f : nat -> nat) :
  (imap (fun j (m : string * ModelCfg.t) => (m.1, f j)) models).*1 = models.*1.
Proof. revert f. induction models as [|[n m] models IH]; intros f; [done|]. simpl. f_equal. apply (IH (f ∘ S)). Qed.

Lemma by_model_lookup models i n m : NoDup models.*1 -> models !! i = Some (n, m) -> by_model_of models !! n = Some i.
Proof.
  intros Hnd Hi. unfold by_model_of. apply elem_of_list_to_map_1.
  - pose proof (by_model_keys models (fun j => j)) as Hk. cbv beta in Hk. by rewrite Hk.
  - apply list_elem_of_lookup. exists i. by rewrite list_lookup_imap, Hi.
Qed.

Lemma by_model_bound models n i : by_model_of models !! n = Some i -> (i < length models)%nat.
Proof.
  intros Hi%elem_of_list_to_map_2. apply list_elem_of_lookup in Hi as [j Hj]. rewrite list_lookup_imap in Hj.
  destruct (models !! j) as [m|] eqn:Em; [|done]. simpl in Hj. injection Hj as _ <-. by eapply lookup_lt_Some.
Qed.

(** ** Lanes *)
Lemma lanes_data_ok providers models idx :
  (forall n mc, (n, mc) ∈ models -> is_Some (providers !! ModelCfg.provider mc) /\
                match ModelCfg.max_concurrent mc with Some k => k <= MAX_PERMITS | None => True end) ->
  exists data, lanes_data_loop providers models idx = inr data /\ length data = length models /\
    Forall (fun d => lane_data_ok d.1.1 /\ providers !! LaneData.provider d.1.1 = Some d.2) data.
Proof.
  revert idx. induction models as [|[n mc] models IH]; intros idx Hok; [by exists []|]. cbn [lanes_data_loop].
  destruct (Hok n mc) as [[pc Hpc] Hmax]; [apply elem_of_cons; by left|]. rewrite Hpc.
  assert (MAX_PERMITS <? default MAX_PERMITS (ModelCfg.max_concurrent mc) = false) as ->.
  { apply Z.ltb_ge. destruct (ModelCfg.max_concurrent mc); simpl; lia. }
  destruct (IH (S idx)) as (data & -> & Hl & Hf); [intros n' mc' Hin; apply (Hok n'), elem_of_cons; by right|].
  eexists. split; [done|]. simpl. split; [by rewrite Hl|]. constructor; [|done]. simpl. split; [|done]. repeat split; simpl; mach_lia.
Qed.

Section Booting.
Context `{Host} `{OAuthLibs} (plugin : option PluginResolveFn).

(** The credentials that are parsed at boot resolve to something. *)
Definition credentials_set (cfg : RootCfg.t) : Prop :=
  forall n p, RootCfg.providers cfg !! n = Some p ->
    ProviderCfg.auth p = Some JwtBearer \/ ProviderCfg.auth p = Some OAuthClientCredentials ->
    exists s, resolve_builtin_string (ProviderCfg.api_key p) = inr s /\ blank s = false.

Lemma no_placeholder url : scheme_ok [] url = transport_ok url.
Proof. unfold scheme_ok, is_env_placeholder. simpl. by rewrite andb_false_r. Qed.

Lemma provider_parts cfg n p : provider_rule [] cfg n p = [] ->
  registered (ProviderCfg.protocol p) = true /\ endpoint_rule [] (ssrf_policy cfg p) n "base_url" (ProviderCfg.base_url p) = [] /\
  provider_auth_rule [] (ssrf_policy cfg p) n p = [].
Proof.
  unfold provider_rule. cbn zeta. rewrite !app_nil, push_when_nil, negb_false_iff. unfold registered. intuition.
Qed.

Lemma credential_rule_ok n key check s :
  credential_rule n key check = [] -> resolve_builtin_string key = inr s -> blank s = false -> exists u, check s = inr u.
Proof. unfold credential_rule. intros Hc Hs Hb. rewrite Hs in Hc. cbn zeta in Hc. rewrite Hb in Hc. destruct (check s); [done|by eexists]. Qed.

(** The checks of [--validate] and of boot on a token endpoint are the same. *)
Lemma token_url_checks_agree cfg n p tu :
  endpoint_rule [] (ssrf_policy cfg p) n "token_url" tu = [] <-> validate_token_url tu (ssrf_policy cfg p) = inr tt.
Proof.
  unfold endpoint_rule, validate_token_url, target_rule. rewrite no_placeholder.
  destruct (transport_ok tu); simpl; [|done]. by destruct (blocked_by _ tu).
Qed.

Lemma build_credential_ok cfg n p :
  validated cfg -> credentials_set cfg -> RootCfg.providers cfg !! n = Some p -> exists c, build_credential plugin cfg n p = inr c.
Proof.
  intros Hv Hcs Hp. destruct (provider_parts cfg n p (v_provider cfg Hv n p Hp)) as (_ & _ & Ha).
  assert (Hkey : forall s, resolve_builtin_string (ProviderCfg.api_key p) = inr s -> provider_api_key plugin p = s).
  { intros s Hs. unfold provider_api_key. by rewrite (resolvers_agree plugin _ (provider_secret_builtin cfg n p Hv Hp)), Hs. }
  unfold build_credential, provider_auth_rule in *. cbn zeta. destruct (ProviderCfg.auth p) as [[]|] eqn:Eauth; [by eexists..| | |by eexists].
  - destruct (Hcs n p Hp) as (s & Hs & Hb); [by left|]. destruct (credential_rule_ok _ _ _ _ Ha Hs Hb) as [u Hu].
    rewrite (Hkey s Hs). unfold jwt_validate_credential, jwt_build in *. destruct (parse_service_account _ _); [done|by eexists].
  - destruct (Hcs n p Hp) as (s & Hs & Hb); [by right|]. rewrite !app_nil in Ha. destruct Ha as (Ht & Hsc & Hcr).
    destruct (credential_rule_ok _ _ _ _ Hcr Hs Hb) as [u Hu]. unfold oauth_rule in Ht. rewrite push_when_nil in Hsc.
    destruct (ProviderCfg.token_url p) as [tu|]; [|done]. destruct (ProviderCfg.scope p) as [sc|]; [|done]. simpl in Ht.
    destruct (blank tu); [done|]. apply token_url_checks_agree in Ht. rewrite (Hkey s Hs). unfold oauth_build, oauth_validate_credential in *.
    destruct (split_credential s); [done|]. rewrite Ht. by eexists.
Qed.

Lemma build_lanes_ok cfg cm data :
  validated cfg -> credentials_set cfg ->
  Forall (fun d => lane_data_ok d.1.1 /\ RootCfg.providers cfg !! LaneData.provider d.1.1 = Some d.2) data ->
  exists lanes, build_lanes plugin cfg cm data = inr lanes /\ length lanes = length data.
Proof.
  intros Hv Hcs. induction data as [|[[ld mc] p] data IH]; [by exists []|]. intros [Hd Hf]%Forall_cons. cbn [build_lanes]. simpl in Hd.
  destruct Hd as [_ Hp]. destruct (provider_parts _ _ _ (v_provider cfg Hv _ _ Hp)) as (Hreg & _).
  unfold build_lane. cbn zeta. rewrite Hreg. simpl. destruct (build_credential_ok cfg _ p Hv Hcs Hp) as [c ->].
  destruct (IH Hf) as (lanes & -> & Hl). eexists. split; [done|]. simpl. by rewrite Hl.
Qed.

(** ** Pools *)
Definition member_ok (N : nat) (wl : WeightedLane.t) : Prop := (WeightedLane.idx wl < N)%nat /\ 1 <= WeightedLane.weight wl.

Lemma build_members_ok by_model pool N members :
  (forall m, m ∈ members -> 1 <= PoolMember.weight m /\ exists i, by_model !! PoolMember.model m = Some i /\ (i < N)%nat) ->
  exists wls, build_members by_model pool members = inr wls /\ length wls = length members /\ Forall (member_ok N) wls.
Proof.
  induction members as [|m members IH]; intros Hok; [by exists []|]. cbn [build_members].
  destruct (Hok m) as (Hw & i & -> & Hi); [apply elem_of_cons; by left|].
  destruct IH as (wls & -> & Hl & Hf); [intros m' Hm'; apply Hok, elem_of_cons; by right|].
  eexists. split; [done|]. simpl. split; [by rewrite Hl|]. constructor; [|done]. by split.
Qed.

(** The pools built are those of the configuration, each with its members; it fails exactly when the
    members of one of them do. *)
Lemma build_pools_spec by_model pools built :
  NoDup pools.*1 ->
  match build_pools by_model pools built with
  | inr res => forall n, match list_to_map (M := gmap string Pool.t) pools !! n with
                         | Some p => exists wls, build_members by_model n (Pool.members p) = inr wls /\ res !! n = Some wls
                         | None => res !! n = built !! n
                         end
  | inl _ => exists n p e, (n, p) ∈ pools /\ build_members by_model n (Pool.members p) = inl e
  end.
Proof.
  revert built. induction pools as [|[n p] pools IH]; intros built; [done|].
  rewrite fmap_cons, NoDup_cons. intros [Hn Hnd]. cbn [build_pools].
  destruct (build_members by_model n (Pool.members p)) as [e|wls] eqn:Hw; [exists n, p, e; split; [apply elem_of_cons; by left|done]|].
  specialize (IH (<[n := wls]> built) Hnd). destruct (build_pools by_model pools (<[n := wls]> built)) as [e|res].
  - destruct IH as (n' & p' & e' & Hin & He). exists n', p', e'. split; [apply elem_of_cons; by right|done].
  - intros n'. specialize (IH n'). simpl. destruct (decide (n = n')) as [<-|Hne].
    + rewrite lookup_insert_eq. exists wls. split; [done|].
      rewrite (not_elem_of_list_to_map_1 (M := gmap string) pools n Hn) in IH. by rewrite IH, lookup_insert_eq.
    + rewrite lookup_insert_ne by done. destruct (list_to_map pools !! n'); [done|]. by rewrite IH, lookup_insert_ne.
Qed.

(** ** From a validated configuration to an application *)

(** The parsed numbers are in their machine ranges, and no concurrency cap is above what a semaphore
    takes. *)
Record typed (cfg : RootCfg.t) : Prop := {
  ty_weight n p m : RootCfg.pools cfg !! n = Some p -> m ∈ Pool.members p -> 0 <= PoolMember.weight m;
  ty_breaker n p b : RootCfg.pools cfg !! n = Some p -> Pool.breaker p = Some b -> cfg_typed b;
  ty_cooldown : is_u64 (LimitsResolved.hard_down_cooldown_secs (RootCfg.limits cfg));
  ty_permits n m k : RootCfg.models cfg !! n = Some m -> ModelCfg.max_concurrent m = Some k -> k <= MAX_PERMITS }.

(** An order in which a map may be read. *)
Definition reads {A} (l : list (string * A)) (m : gmap string A) : Prop := l ≡ₚ map_to_list m.

Lemma reads_elem {A} (l : list (string * A)) m n a : reads l m -> (n, a) ∈ l <-> m !! n = Some a.
Proof. intros Hl. by rewrite Hl, elem_of_map_to_list. Qed.

Lemma reads_nodup {A} (l : list (string * A)) m : reads l m -> NoDup l.*1.
Proof. intros Hl. unfold reads in Hl. rewrite Hl. apply NoDup_fst_map_to_list. Qed.

Lemma reads_map {A} (l : list (string * A)) m : reads l m -> list_to_map l = m.
Proof. intros Hl. rewrite (list_to_map_proper l (map_to_list m)); [apply list_to_map_to_list|by eapply reads_nodup|done]. Qed.

Lemma all_members_perm (l1 l2 : list (string * Pool.t)) : l1 ≡ₚ l2 -> all_members l1 ≡ₚ all_members l2.
Proof. intros Hp. unfold all_members. by rewrite Hp. Qed.

Lemma member_facts cfg n p m :
  validated cfg -> typed cfg -> RootCfg.pools cfg !! n = Some p -> m ∈ Pool.members p ->
  1 <= PoolMember.weight m /\ exists mc, RootCfg.models cfg !! PoolMember.model m = Some mc.
Proof.
  intros Hv Ht Hp Hm. destruct (pool_rules _ _ _ (v_pool cfg Hv n p Hp)) as (_ & Hms & _). specialize (Hms m Hm).
  unfold member_rule in Hms. rewrite !app_nil, !push_when_nil in Hms. destruct Hms as (Hw & _ & Hr).
  pose proof (ty_weight cfg Ht n p m Hp Hm). rewrite Z.eqb_neq in Hw. split; [lia|].
  destruct (RootCfg.models cfg !! PoolMember.model m); [by eexists|done].
Qed.

Lemma model_facts cfg n m :
  validated cfg -> typed cfg -> RootCfg.models cfg !! n = Some m ->
  is_Some (RootCfg.providers cfg !! ModelCfg.provider m) /\
  match ModelCfg.max_concurrent m with Some k => k <= MAX_PERMITS | None => True end.
Proof.
  intros Hv Ht Hm. pose proof (v_model cfg Hv n m Hm) as Hr. unfold model_rule in Hr. rewrite !app_nil in Hr. destruct Hr as [Hr _].
  split; [destruct (RootCfg.providers cfg !! ModelCfg.provider m); [by eexists|done]|].
  destruct (ModelCfg.max_concurrent m) eqn:E; [|done]. by eapply ty_permits.
Qed.

Lemma breaker_facts cfg pool :
  validated cfg -> typed cfg ->
  cfg_ok (default BreakerCfg.default
    (omap (fun p => BreakerConfig.resolve_breaker_cfg <$> Pool.breaker p) (RootCfg.pools cfg) !! pool)).
Proof.
  intros Hv Ht. rewrite lookup_omap. destruct (RootCfg.pools cfg !! pool) as [p|] eqn:Ep; simpl; [|apply default_cfg_ok].
  destruct (Pool.breaker p) as [b|] eqn:Eb; simpl; [|apply default_cfg_ok].
  destruct (pool_rules _ _ _ (v_pool cfg Hv pool p Ep)) as (_ & _ & Hb & _). rewrite Eb in Hb. simpl in Hb.
  apply validated_cfg_ok; [by eapply ty_breaker|by apply fmap_nil_inv in Hb].
Qed.

(** What the tables of an application have to be for the failover walk and the lane store. *)
Definition app_sound (cfg : RootCfg.t) (app : App.t) : Prop :=
  (forall passthrough, app_ok (app_cfg app passthrough) (size (RootCfg.models cfg))) /\
  store_wf (new_with_limits (App.lanes_data app) (LimitsResolved.hard_down_cooldown_secs (RootCfg.limits cfg))
              (LimitsResolved.max_honored_retry_after_secs (RootCfg.limits cfg))) /\
  length (App.lanes_data app) = size (RootCfg.models cfg) /\
  (forall n p, RootCfg.pools cfg !! n = Some p ->
     exists wls, App.pools app !! n = Some wls /\ wls <> [] /\ Forall (member_ok (size (RootCfg.models cfg))) wls) /\
  (forall n target, App.on_exhausted_cfgs app !! n = Some (FallbackPool target) -> is_Some (App.fallback_pools app !! target)).

Lemma members_built cfg models n p :
  validated cfg -> typed cfg -> reads models (RootCfg.models cfg) -> RootCfg.pools cfg !! n = Some p ->
  exists wls, build_members (by_model_of (sort_models models)) n (Pool.members p) = inr wls /\ wls <> [] /\
    Forall (member_ok (size (RootCfg.models cfg))) wls.
Proof.
  intros Hv Ht Hm Hp. assert (NoDup (sort_models models).*1) as Hnd by (rewrite sort_models_perm; by eapply reads_nodup).
  destruct (build_members_ok (by_model_of (sort_models models)) n (size (RootCfg.models cfg)) (Pool.members p)) as (wls & Hw & Hwl & Hwf).
  - intros m Hin. destruct (member_facts cfg n p m Hv Ht Hp Hin) as (Hw & mc & Hmc). split; [done|].
    assert ((PoolMember.model m, mc) ∈ sort_models models) as [i Hi]%list_elem_of_lookup
      by (rewrite sort_models_perm; by apply (reads_elem _ _ _ _ Hm)).
    exists i. split; [by eapply by_model_lookup|]. apply lookup_lt_Some in Hi. by rewrite sort_models_perm, Hm, length_map_to_list in Hi.
  - exists wls. split_and!; [done| |done]. destruct (pool_rules _ _ _ (v_pool cfg Hv n p Hp)) as (Hne & _).
    intros ->. by destruct (Pool.members p).
Qed.

Lemma tables_sound cfg models pools :
  validated cfg -> typed cfg -> credentials_set cfg -> reads models (RootCfg.models cfg) -> reads pools (RootCfg.pools cfg) ->
  exists app, build_tables plugin cfg models pools = inr app /\ app_sound cfg app.
Proof.
  intros Hv Ht Hcs Hm Hp. set (N := size (RootCfg.models cfg)).
  assert (Hlen : length (sort_models models) = N) by (unfold N; by rewrite sort_models_perm, Hm, length_map_to_list).
  unfold build_tables. cbn zeta.
  destruct (lanes_data_ok (RootCfg.providers cfg) (sort_models models) 0) as (data & -> & Hld & Hdata).
  { intros n mc Hin. rewrite sort_models_perm in Hin. rewrite (reads_elem _ _ _ _ Hm) in Hin. by eapply model_facts. }
  destruct (proj1 (context_checks_agree (all_members (map_to_list (RootCfg.pools cfg))) (all_members pools)
    (all_members_perm _ _ (symmetry Hp))) (v_context cfg Hv)) as [cm ->].
  destruct (build_lanes_ok cfg cm data Hv Hcs Hdata) as (lanes & -> & Hll).
  assert (Hmem := fun n p => members_built cfg models n p Hv Ht Hm).
  pose proof (build_pools_spec (by_model_of (sort_models models)) pools ∅ (reads_nodup _ _ Hp)) as Hb.
  destruct (build_pools _ pools ∅) as [e|built].
  { destruct Hb as (n & p & e' & Hin & He). rewrite (reads_elem _ _ _ _ Hp) in Hin. destruct (Hmem n p Hin) as (wls & Hw & _). congruence. }
  rewrite (reads_map _ _ Hp) in *. eexists. split; [done|].
  assert (Hbuilt : forall n wls, built !! n = Some wls -> exists p, RootCfg.pools cfg !! n = Some p /\ Forall (member_ok N) wls).
  { intros n wls Hn. specialize (Hb n). destruct (RootCfg.pools cfg !! n) as [p|] eqn:Ep; [|by rewrite Hb in Hn].
    destruct Hb as (wls' & Hw & Hn'). destruct (Hmem n p Ep) as (w & Hw' & _ & Hf). exists p. split; [done|].
    by assert (w = wls) as <- by congruence. }
  unfold app_sound. split_and!; cbn [App.lanes_data App.lanes App.pools App.on_exhausted_cfgs App.fallback_pools App.breakers App.members].
  - intros pt. constructor.
    + cbn [app_cfg AppCfg.lanes App.lanes]. by rewrite length_fmap, Hll, Hld, Hlen.
    + intros pool. exact (breaker_facts cfg pool Hv Ht).
    + intros pool members Hpm. destruct (Hbuilt _ _ Hpm) as (p & _ & Hf). eapply Forall_impl; [exact Hf|]. by intros wl [? _].
  - apply new_store_wf; [|by apply ty_cooldown]. apply Forall_fmap. eapply Forall_impl; [exact Hdata|]. by intros d [? _].
  - by rewrite length_fmap, Hld, Hlen.
  - intros n p Hnp. specialize (Hb n). rewrite Hnp in Hb. destruct Hb as (wls & Hw & Hn). destruct (Hmem n p Hnp) as (w & Hw' & Hne & Hf).
    exists wls. assert (w = wls) as -> by congruence. done.
  - intros n target Hn. rewrite lookup_fmap in Hn. destruct (RootCfg.pools cfg !! n) as [p|] eqn:Ep; [|done]. simpl in Hn.
    injection Hn as Hn. destruct (fallback_exists cfg n target Hv) as [Hd _].
    + unfold resolve_fallback_target. rewrite Ep. simpl. unfold on_exhausted_of in Hn. destruct (Pool.on_exhausted p) as [[]|]; try done. by injection Hn as ->.
    + apply elem_of_dom in Hd as [q Hq]. specialize (Hb target). rewrite Hq in Hb. destruct Hb as (wls & _ & ->). by eexists.
Qed.

(** C4.  A configuration that validates boots: provided the parsed numbers are in range, no concurrency
    cap exceeds what a semaphore takes, and the credentials that are parsed at boot resolve, building the
    application fails at none of its own checks (unknown provider, protocol, model, conflicting context
    windows, credential or token endpoint), in whatever order the maps are read; and its tables are what
    the failover walk and the lane store need: every pool has members, every member is a lane with a
    positive weight, every breaker configuration is well-formed, every fallback pool exists. *)
Theorem validated_config_boots cfg models pools :
  validate cfg = Some [] -> typed cfg -> credentials_set cfg -> reads models (RootCfg.models cfg) -> reads pools (RootCfg.pools cfg) ->
  exists app, build_app_from_config plugin cfg models pools = Some (inr app) /\ app_sound cfg app.
Proof.
  intros Hv Ht Hc Hm Hp. unfold build_app_from_config. rewrite Hv.
  destruct (tables_sound cfg models pools (validate_nil cfg Hv) Ht Hc Hm Hp) as (app & -> & Hs). by exists app.
Qed.

(** ** Independence of the order of iteration *)
Lemma build_lanes_ext cfg cm1 cm2 data :
  (forall model, mjoin (cm1 !! model) = mjoin (cm2 !! model)) -> build_lanes plugin cfg cm1 data = build_lanes plugin cfg cm2 data.
Proof.
  intros He. induction data as [|[[ld mc] p] data IH]; [done|]. cbn [build_lanes]. rewrite IH. unfold build_lane. cbn zeta.
  by rewrite He.
Qed.

Lemma build_pools_same by_model (m : gmap string Pool.t) pools1 pools2 :
  reads pools1 m -> reads pools2 m ->
  match build_pools by_model pools1 ∅, build_pools by_model pools2 ∅ with
  | inr r1, inr r2 => r1 = r2
  | inl _, inl _ => True
  | _, _ => False
  end.
Proof.
  intros H1 H2. pose proof (build_pools_spec by_model pools1 ∅ (reads_nodup _ _ H1)) as S1.
  pose proof (build_pools_spec by_model pools2 ∅ (reads_nodup _ _ H2)) as S2. rewrite (reads_map _ _ H1) in S1. rewrite (reads_map _ _ H2) in S2.
  assert (Hclash : forall pools (e r : gmap string (list WeightedLane.t)), reads pools m -> (exists n p e', (n, p) ∈ pools /\ build_members by_model n (Pool.members p) = inl (e' : BootError)) ->
    (forall n, match m !! n with Some p => exists wls, build_members by_model n (Pool.members p) = inr wls /\ r !! n = Some wls
               | None => r !! n = e !! n end) -> False).
  { intros pools e r Hr (n & p & e' & Hin & He) Hall. rewrite (reads_elem _ _ _ _ Hr) in Hin. specialize (Hall n). rewrite Hin in Hall.
    destruct Hall as (wls & Hw & _). congruence. }
  destruct (build_pools by_model pools1 ∅) as [e1|r1], (build_pools by_model pools2 ∅) as [e2|r2]; [done| | |].
  - by eapply (Hclash pools1).
  - by eapply (Hclash pools2).
  - apply map_eq. intros n. specialize (S1 n). specialize (S2 n). destruct (m !! n) as [p|]; [|by rewrite S1, S2].
    destruct S1 as (w1 & E1 & ->), S2 as (w2 & E2 & ->). congruence.
Qed.

(** C25.  What is built from a configuration does not depend on the order in which its hash maps are
    read, which changes from one start to the next: for any two orders of the models and of the pools,
    either both attempts fail, or both succeed with the same lanes at the same indices, the same pools
    and the same tables. *)
Theorem boot_is_deterministic cfg models1 models2 pools1 pools2 :
  reads models1 (RootCfg.models cfg) -> reads models2 (RootCfg.models cfg) ->
  reads pools1 (RootCfg.pools cfg) -> reads pools2 (RootCfg.pools cfg) ->
  match build_tables plugin cfg models1 pools1, build_tables plugin cfg models2 pools2 with
  | inr app1, inr app2 => app1 = app2
  | inl _, inl _ => True
  | _, _ => False
  end.
Proof.
  intros Hm1 Hm2 Hp1 Hp2. unfold build_tables. cbn zeta.
  assert (Hmp : models1 ≡ₚ models2) by (by rewrite Hm1, Hm2). assert (Hpp : pools1 ≡ₚ pools2) by (by rewrite Hp1, Hp2).
  rewrite (sort_models_unique models1 models2 (reads_nodup _ _ Hm1) Hmp).
  destruct (lanes_data_loop _ _ _) as [e|data]; [done|].
  pose proof (all_members_perm _ _ Hpp) as Hap.
  pose proof (context_checks_agree _ _ Hap) as Hc12. pose proof (context_checks_agree _ _ (Permutation_refl (all_members pools1))) as Hc11.
  destruct (resolve_model_context_max (all_members pools1) ∅) as [e1|cm1] eqn:E1;
    destruct (resolve_model_context_max (all_members pools2) ∅) as [e2|cm2] eqn:E2; [done| | |].
  - destruct (proj1 Hc11 (proj2 Hc12 (ex_intro _ cm2 eq_refl))) as [r Hr]. done.
  - destruct (proj1 Hc12 (proj2 Hc11 (ex_intro _ cm1 eq_refl))) as [r Hr]. done.
  - rewrite (build_lanes_ext cfg cm1 cm2 data (context_values_agree _ _ _ _ Hap E1 E2)).
    destruct (build_lanes plugin cfg cm2 data) as [e|lanes]; [done|].
    pose proof (build_pools_same (by_model_of (sort_models models2)) _ _ _ Hp1 Hp2) as Hb.
    destruct (build_pools _ pools1 ∅), (build_pools _ pools2 ∅); try done. subst. by rewrite (reads_map _ _ Hp1), (reads_map _ _ Hp2).
Qed.


(** ** The hosts lanes talk to *)
Lemma trim_slashes_app l x : trim_slashes x <> "" -> trim_slashes (l +:+ x) = l +:+ trim_slashes x.
Proof.
  intros Hx. induction l as [|c l IH]; [done|]. change (String c l +:+ x) with (String c (l +:+ x)). cbn [trim_slashes]. rewrite IH.
  change (String c l +:+ trim_slashes x) with (String c (l +:+ trim_slashes x)).
  destruct l as [|d l]; [by destruct (trim_slashes x)|done].
Qed.

Lemma lanes_data_providers providers models idx data :
  lanes_data_loop providers models idx = inr data -> Forall (fun d => providers !! LaneData.provider d.1.1 = Some d.2) data.
Proof.
  revert idx data. induction models as [|[n mc] models IH]; intros idx data; cbn [lanes_data_loop]; [by intros [= <-]|].
  destruct (providers !! ModelCfg.provider mc) as [pc|] eqn:Ep; [|done]. destruct (MAX_PERMITS <? _); [done|].
  destruct (lanes_data_loop providers models (S idx)) as [e|rest] eqn:Er; [done|]. intros [= <-]. constructor; [done|by eapply IH].
Qed.

Lemma build_lanes_elem cfg cm data lanes lane :
  build_lanes plugin cfg cm data = inr lanes -> lane ∈ lanes ->
  exists d, d ∈ data /\ build_lane plugin cfg cm d.1.1 d.1.2 d.2 = inr lane.
Proof.
  revert lanes. induction data as [|[[ld mc] p] data IH]; intros lanes; cbn [build_lanes]; [by intros [= <-] ?%elem_of_nil|].
  destruct (build_lane plugin cfg cm ld mc p) as [e|l] eqn:El; [done|]. destruct (build_lanes plugin cfg cm data) as [e|rest]; [done|].
  intros [= <-] [->|Hin]%elem_of_cons.
  - exists (ld, mc, p). split; [apply elem_of_cons; by left|done].
  - destruct (IH rest eq_refl Hin) as (d & Hd & Hb). exists d. split; [apply elem_of_cons; by right|done].
Qed.

(** The provider of a lane, as validated. *)
Lemma lane_provider cfg models pools app lane :
  build_tables plugin cfg models pools = inr app -> lane ∈ App.lanes app ->
  exists p, RootCfg.providers cfg !! Lane.provider lane = Some p /\ Lane.base_url lane = trim_slashes (ProviderCfg.base_url p).
Proof.
  unfold build_tables. cbn zeta. destruct (lanes_data_loop _ _ _) as [e|data] eqn:Ed; [done|].
  destruct (resolve_model_context_max _ _) as [e|cm]; [done|]. destruct (build_lanes plugin cfg cm data) as [e|lanes] eqn:El; [done|].
  destruct (build_pools _ _ _) as [e|built]; [done|]. intros [= <-] Hin. cbn [App.lanes] in Hin.
  destruct (build_lanes_elem _ _ _ _ _ El Hin) as ([[ld mc] p] & Hd & Hb).
  pose proof (proj1 (Forall_forall _ _) (lanes_data_providers _ _ _ _ Ed) _ Hd) as Hp. simpl in Hp, Hb.
  unfold build_lane in Hb. cbn zeta in Hb. destruct (negb (registered _)); [done|]. destruct (build_credential _ _ _ _); [done|].
  injection Hb as <-. by exists p.
Qed.

Lemma trim_tail auth tail :
  all_chars inside auth = true -> auth <> "" -> trim_slashes (auth +:+ tail) = auth +:+ trim_slashes tail.
Proof.
  induction auth as [|c a IH]; intros Hin Hne; [done|]. cbn [all_chars] in Hin. apply andb_true_iff in Hin as [Hc Hin].
  change (String c a +:+ tail) with (String c (a +:+ tail)). cbn [trim_slashes].
  assert (Ascii.eqb c "/" = false) as Hs by (apply not_true_iff_false; intros ->%Ascii.eqb_eq; done).
  destruct a as [|d a].
  - change ("" +:+ tail) with tail. change (String c "" +:+ trim_slashes tail) with (String c (trim_slashes tail)). rewrite Hs.
    by destruct (trim_slashes tail).
  - rewrite IH by done. done.
Qed.

Lemma tail_ok_path tail r : tail_ok tail -> tail_ok (trim_slashes tail +:+ String "/" r).
Proof.
  intros Ht. right. destruct Ht as [->|(c & t & -> & Hc)]; [eexists _, _; split; [reflexivity|by left]|].
  cbn [trim_slashes]. destruct (trim_slashes t) as [|d t']; [|eexists _, _; split; [reflexivity|done]].
  destruct (Ascii.eqb c "/"); (eexists _, _; split; [reflexivity|]); [by left|done].
Qed.

Lemma trimmed_url scheme user written port tail r :
  match user with Some u => all_chars inside u = true | None => True end -> all_chars inside written = true -> written <> "" ->
  match port with Some p => all_chars solid p = true | None => True end ->
  trim_slashes (scheme +:+ "://" +:+ user_part user +:+ written +:+ port_part port +:+ tail) +:+ String "/" r =
    scheme +:+ "://" +:+ user_part user +:+ written +:+ port_part port +:+ (trim_slashes tail +:+ String "/" r).
Proof.
  intros Hu Hw Hne Hp. set (auth := user_part user +:+ written +:+ port_part port).
  assert (forall x, user_part user +:+ written +:+ port_part port +:+ x = auth +:+ x) as Ex by (intros x; unfold auth; by rewrite !str_app_assoc).
  assert (auth <> "") as Ha by (unfold auth; destruct user as [[|]|], written; done).
  pose proof (trim_tail auth tail (authority_inside _ _ _ Hu Hw Hp) Ha) as Et.
  assert (trim_slashes (auth +:+ tail) <> "") as Hn by (rewrite Et; by destruct auth).
  rewrite !Ex, trim_slashes_app by (by rewrite trim_slashes_app). rewrite trim_slashes_app, Et by done.
  by rewrite !str_app_assoc.
Qed.

(** Appending a path to the trimmed base URL of a lane leaves its host where it was. *)
Lemma names_host_path base h r : names_host base h -> names_host (trim_slashes base +:+ String "/" r) h.
Proof.
  intros [scheme user written host port tail ? ? ? ? ? ? ? ? Hg Hw|scheme user literal port tail ? ? ? ? ? H6 Hv ?].
  - assert (all_chars solid written = true) as Hs by (destruct Hw as [Hw|Hw]; by apply spells_solid in Hw).
    rewrite trimmed_url; [apply named; try done; by apply tail_ok_path|done|by apply solid_inside| |done].
    intros ->. destruct Hw as [Hw|Hw]; inversion Hw; [done|by destruct host].
  - rewrite trimmed_url; [apply bracketed; try done; by apply tail_ok_path|done| |done|done].
    rewrite !all_chars_app, (v6_inside literal) by done. done.
Qed.

End Booting.

#[local] Existing Instances Demo.host Demo.libs.

Lemma demo_typed : typed Demo.cfg.
Proof.
  assert (Hpools : forall n p, RootCfg.pools Demo.cfg !! n = Some p -> p = Demo.pool [Demo.member "m1" 3; Demo.member "m2" 1] (Some (ExhaustFallbackPool "b")) \/
    p = Demo.pool [Demo.member "m2" 1] None).
  { intros n p. unfold Demo.cfg. cbn [RootCfg.pools]. rewrite lookup_insert_Some, lookup_singleton_Some. intuition. }
  constructor.
  - intros n p m Hp. destruct (Hpools n p Hp) as [-> | ->]; cbn [Pool.members Demo.pool]; rewrite ?elem_of_cons, ?elem_of_nil; intros Hm;
      repeat destruct Hm as [->|Hm]; try done; simpl; lia.
  - intros n p b Hp. destruct (Hpools n p Hp) as [-> | ->]; intros [= <-]; split; split; vm_compute; discriminate.
  - simpl. mach_lia.
  - intros n m k. unfold Demo.cfg. cbn [RootCfg.models]. rewrite lookup_insert_Some, lookup_singleton_Some.
    intros [[_ <-]|[_ [_ <-]]] [= <-]; vm_compute; discriminate.
Qed.

Lemma demo_credentials : credentials_set Demo.cfg.
Proof.
  intros n p. unfold Demo.cfg. cbn [RootCfg.providers]. rewrite lookup_insert_Some, lookup_singleton_Some.
  intros [[_ <-]|[_ [_ <-]]] _; exists "id:secret"; split; reflexivity.
Qed.

Lemma validated_config_boots_witness :
  exists app, build_app_from_config None Demo.cfg (map_to_list (RootCfg.models Demo.cfg)) (map_to_list (RootCfg.pools Demo.cfg)) = Some (inr app) /\
    app_sound Demo.cfg app.
Proof.
  apply validated_config_boots; [vm_compute; reflexivity|exact demo_typed|exact demo_credentials|apply Permutation_refl|apply Permutation_refl].
Defined.

Lemma boot_is_deterministic_witness :
  match build_tables None Demo.cfg (map_to_list (RootCfg.models Demo.cfg)) (map_to_list (RootCfg.pools Demo.cfg)),
        build_tables None Demo.cfg (rev (map_to_list (RootCfg.models Demo.cfg))) (rev (map_to_list (RootCfg.pools Demo.cfg))) with
  | inr app1, inr app2 => app1 = app2
  | inl _, inl _ => True
  | _, _ => False
  end.
Proof.
  apply boot_is_deterministic; [apply Permutation_refl|apply Permutation_sym, Permutation_rev|apply Permutation_refl|apply Permutation_sym, Permutation_rev].
Defined.

(** A cap above the semaphore's passes validation and panics the build. *)
Example permit_panic :
  let cfg := RootCfg.mk "0.0.0.0:8080" "127.0.0.1:8081" None None None (RootCfg.providers Demo.cfg)
    {["m1" := ModelCfg.mk (-1) "up" (Some (MAX_PERMITS + 1)) None None None None None]} ∅ ∅ ["admin-tokens"] ∅ None 0 None [] [] [] false Demo.limits in
  validate cfg = Some [] /\
  build_app_from_config None cfg (map_to_list (RootCfg.models cfg)) [] = Some (inl (PermitPanic "m1")).
Proof. vm_compute. auto. Qed.


(** The composed URL is checked with the base URL as written, and sent with its trailing slashes
    trimmed: a base URL that is nothing but a scheme lets the path name the host. *)
Example scheme_only_base :
  let ssrf := MetadataSsrfPolicy.mk [] false [] in
  endpoint_rule [] ssrf "p" "base_url" "https://" = [] /\
  path_rule [] ssrf "p" "path" "https://" (Some "//169.254.169.254/latest") = [] /\
  trim_slashes "https://" +:+ "//169.254.169.254/latest" = "https://169.254.169.254/latest" /\
  blocked_by ssrf (trim_slashes "https://" +:+ "//169.254.169.254/latest") = Some "169.254.169.254".
Proof. vm_compute. auto. Qed.
