(* ===== verification/JsonTree.v ===== *)
(** * JSON trees under the protocol representations (serde_json)

    The stream and request representations of [Ir] and [IrSeam] are over an abstract JSON value; here
    it is the tree of [Json], with the text codec (the serde_json parser and printer) left as the class
    [JsonText].  The file also has what the protocol readers and writers use to take objects apart and
    put them together: typed member access, [json!] literals, optional members, fallible traversals. *)
From stdpp Require Import base list strings gmap.
From Stdlib Require Import ZArith Lia Ascii SpecFloat.
From S2P Require Import Prelude Breaker Cell EventStream EventStreamFacts Sse Ir Json.
Open Scope Z_scope.
Open Scope rust_scope.

(** ** Text: a [String] of the representation is its bytes, a JSON string the tree's *)
Fixpoint of_bytes (b : bytes) : string :=
  match b with [] => EmptyString | x :: b => String (char_of x) (of_bytes b) end.

Definition octets (b : bytes) : bool := forallb (fun x => (0 <=? x) && (x <? 256)) b.

Lemma of_bytes_of s : of_bytes (bytes_of s) = s.
Proof.
  induction s as [|a s IH]; cbn [bytes_of of_bytes]; [done|]. unfold char_of.
  by rewrite N2Z.id, ascii_N_embedding, IH.
Qed.

Lemma bytes_of_octets s : octets (bytes_of s) = true.
Proof.
  induction s as [|a s IH]; cbn [bytes_of octets forallb]; [done|]. fold (octets (bytes_of s)). rewrite IH.
  pose proof (N_ascii_bounded a). rewrite !andb_true_iff, Z.leb_le, Z.ltb_lt. repeat split; lia.
Qed.

Lemma of_bytes_inv b : octets b = true -> bytes_of (of_bytes b) = b.
Proof.
  induction b as [|x b IH]; cbn [octets forallb of_bytes bytes_of]; [done|].
  intros [[H1 H2]%andb_true_iff Hb]%andb_true_iff. apply Z.leb_le in H1. apply Z.ltb_lt in H2.
  change (Z.of_N (N_of_ascii (char_of x))) with (byte (char_of x)). by rewrite byte_char, IH.
Qed.

#[export] Instance bytes_of_inj : Inj (=) (=) bytes_of.
Proof. intros s t E. by rewrite <- (of_bytes_of s), E, of_bytes_of. Qed.

(** [String::from_utf8_lossy(body).to_lowercase()], as far as a search for ASCII text can tell: lossy
    decoding keeps ASCII bytes, and besides the capital letters only the Kelvin sign (to [k]) and the
    dotted capital I (to [i] and a combining dot) have a lower case with ASCII in it. *)
Fixpoint lossy_lowercase (b : bytes) : bytes :=
  match b with
  | [] => []
  | x :: b1 =>
      match b1 with
      | y :: b2 =>
          if (x =? 196) && (y =? 176) then 105 :: 204 :: 135 :: lossy_lowercase b2
          else match b2 with
          | z :: b3 => if (x =? 226) && (y =? 132) && (z =? 170) then 107 :: lossy_lowercase b3
                       else to_ascii_lowercase x :: lossy_lowercase b1
          | [] => to_ascii_lowercase x :: lossy_lowercase b1
          end
      | [] => [to_ascii_lowercase x]
      end
  end.

(** [str::contains]. *)
Fixpoint has_prefix (p b : bytes) : bool :=
  match p, b with
  | [], _ => true
  | x :: p, y :: b => (x =? y) && has_prefix p b
  | _ :: _, [] => false
  end.
Fixpoint contains_bytes (p b : bytes) : bool :=
  has_prefix p b || match b with [] => false | _ :: b => contains_bytes p b end.

(** ** Results *)
Notation Result A := (CanonicalSignal + A)%type.

Notation "'let!' p := e 'in' k" := (match e with inl err => inl err | inr p => k end)
  (at level 200, p pattern, e at level 100, k at level 200) : rust_scope.

(** [iter().map(f).collect::<Result<_, _>>()]. *)
Definition collect {A B} (f : A -> Result B) : list A -> Result (list B) :=
  fix go l := match l with
              | [] => inr []
              | a :: l => let! b := f a in let! bs := go l in inr (b :: bs)
              end.

Lemma collect_map {A B C} (f : A -> Result B) (g : C -> A) (h : C -> B) l :
  (forall c, c ∈ l -> f (g c) = inr (h c)) -> collect f (g <$> l) = inr (h <$> l).
Proof.
  induction l as [|c l IH]; intros Hl; [done|]. cbn [fmap list_fmap collect].
  rewrite Hl by (apply elem_of_cons; by left). fold (collect f). rewrite IH; [done|].
  intros d Hd. apply Hl, elem_of_cons. by right.
Qed.

Lemma collect_id {A B} (f : A -> Result B) (g : B -> A) l :
  (forall b, b ∈ l -> f (g b) = inr b) -> collect f (g <$> l) = inr l.
Proof. intros Hl. rewrite (collect_map f g id) by done. by rewrite list_fmap_id. Qed.

(** ** Members *)

(** [f] of a member: [m.get(k).map(f)], written so that a recursive reader may be [f]. *)
Definition map_get_with {A} (f : Value -> A) (k : string) : Map -> option A :=
  fix go m := match m with [] => None | (k', v) :: m => if String.eqb k' k then Some (f v) else go m end.

Lemma map_get_with_eq {A} (f : Value -> A) k m : map_get_with f k m = f <$> map_get k m.
Proof.
  unfold map_get. induction m as [|[k' v] m IH]; cbn; [done|]. by destruct (String.eqb k' k).
Qed.

Definition get_text (k : string) (m : Map) : option bytes := v ← map_get k m; bytes_of <$> Json.as_str v.
Definition get_u64 (k : string) (m : Map) : option Z := v ← map_get k m; as_u64 v.
Definition get_i64 (k : string) (m : Map) : option Z := v ← map_get k m; as_i64 v.
Definition get_bool (k : string) (m : Map) : option bool := v ← map_get k m; as_bool v.

(** [Value::get] chained on an optional value, and [Value::as_f64]. *)
Definition members (v : Value) : Map := match v with Object m => m | _ => [] end.
Definition as_f64 (v : Value) : option f64 :=
  match v with
  | Num (PosInt n) => Some (f64_of_Z n)
  | Num (NegInt z) => Some (f64_of_Z z)
  | Num (Float x) => Some x
  | _ => None
  end.
Definition get_f64 (k : string) (m : Map) : option f64 := v ← map_get k m; as_f64 v.
Definition u32 (z : Z) : option Z := if z <=? U32_MAX then Some z else None.

Lemma get_members k v : get k v = map_get k (members v).
Proof. by destruct v. Qed.

(** ** [json!] *)
Definition json_str (b : bytes) : Value := Str (of_bytes b).
Definition json_u64 (n : Z) : Value := Num (PosInt n).
Definition json_i64 (z : Z) : Value := if 0 <=? z then Num (PosInt z) else Num (NegInt z).
(** [Value::from(f64)]: a number that JSON cannot carry becomes [null]. *)
Definition is_finite (x : f64) : bool :=
  match x with S754_zero _ | S754_finite _ _ _ => true | S754_infinity _ | S754_nan => false end.
Definition json_f64 (x : f64) : Value := if is_finite x then Num (Float x) else Null.

(** An object literal: the members are inserted in the order written. *)
Definition insert_all (l : list (string * Value)) (m : Map) : Map :=
  foldl (fun m kv => map_insert kv.1 kv.2 m) m l.
Definition json_obj (l : list (string * Value)) : Value := Object (insert_all l []).

(** [if let Some(v) = o { m.insert(k, v) }]. *)
Definition insert_opt (k : string) (o : option Value) (m : Map) : Map :=
  match o with Some v => map_insert k v m | None => m end.

Lemma map_get_insert_opt k k' o m :
  map_get k' (insert_opt k o m) = if String.eqb k k' then (match o with Some v => Some v | None => map_get k' m end)
                                  else map_get k' m.
Proof. destruct o; cbn [insert_opt]; [apply map_get_insert|by destruct (String.eqb k k')]. Qed.

Lemma map_get_if (b : bool) k m1 m2 : map_get k (if b then m1 else m2) = if b then map_get k m1 else map_get k m2.
Proof. by destruct b. Qed.

Lemma map_get_insert_all k l m :
  map_get k (insert_all l m) =
    match find (fun kv => String.eqb kv.1 k) (rev l) with Some kv => Some kv.2 | None => map_get k m end.
Proof.
  revert m. induction l as [|[k' v] l IH]; intros m; [done|]. cbn [insert_all foldl rev fst snd].
  fold (insert_all l (map_insert k' v m)). rewrite IH, map_get_insert.
  assert (forall r, find (fun kv : string * Value => String.eqb kv.1 k) (r ++ [(k', v)]) =
    match find (fun kv => String.eqb kv.1 k) r with Some kv => Some kv | None => if String.eqb k' k then Some (k', v) else None end) as ->.
  { induction r as [|kv r IHr]; cbn [app find fst]; [by destruct (String.eqb k' k)|]. by destruct (String.eqb kv.1 k). }
  destruct (find _ (rev l)); [done|]. by destruct (String.eqb k' k).
Qed.

(** [for (k, v) in &extra { m.insert(k, v) }] over a map of the representation. *)
Definition insert_extra (e : gmap bytes Value) (m : Map) : Map :=
  foldr (fun kv m => map_insert (of_bytes kv.1) kv.2 m) m (map_to_list e).

Definition text_keys (e : gmap bytes Value) : Prop := forall k v, e !! k = Some v -> octets k = true.

Lemma insert_extra_cons (l : list (bytes * Value)) m k :
  NoDup l.*1 -> Forall (fun kv => octets kv.1 = true) l ->
  map_get k (foldr (fun kv m => map_insert (of_bytes kv.1) kv.2 m) m l) =
    match (list_to_map l : gmap bytes Value) !! bytes_of k with Some v => Some v | None => map_get k m end.
Proof.
  induction l as [|[k' v] l IH]; intros Hn Hf; [done|].
  apply NoDup_cons in Hn as [Hk Hn]. apply Forall_cons in Hf as [Ho Hf]. cbn [foldr fst snd list_to_map].
  rewrite map_get_insert. destruct (String.eqb_spec (of_bytes k') k) as [E|E].
  - subst k. cbn in Ho. rewrite of_bytes_inv by done. by rewrite lookup_insert_eq.
  - rewrite lookup_insert_ne; [by apply IH|]. intros ->. by rewrite of_bytes_of in E.
Qed.

Lemma map_get_insert_extra e m k : text_keys e ->
  map_get k (insert_extra e m) = match e !! bytes_of k with Some v => Some v | None => map_get k m end.
Proof.
  intros He. unfold insert_extra. rewrite insert_extra_cons.
  - by rewrite list_to_map_to_list.
  - apply NoDup_fst_map_to_list.
  - apply Forall_forall. intros [k' v] Hin%elem_of_map_to_list. by apply (He k' v).
Qed.

(** The members whose key passes a test, as a map of the representation. *)
Definition extra_of (keep : string -> bool) (m : Map) : gmap bytes Value :=
  list_to_map ((fun kv => (bytes_of kv.1, kv.2)) <$> List.filter (fun kv => keep kv.1) m).

Lemma extra_of_lookup keep m k :
  extra_of keep m !! k = if octets k then (if keep (of_bytes k) then map_get (of_bytes k) m else None) else None.
Proof.
  unfold extra_of, map_get. induction m as [|[k' v] m IH]; cbn [List.filter fmap list_fmap find fst].
  { by destruct (octets k), (keep (of_bytes k)). }
  destruct (octets k) eqn:Ho.
  - destruct (String.eqb_spec k' (of_bytes k)) as [->|Hne].
    + destruct (keep (of_bytes k)) eqn:Ek; [|by rewrite IH]. cbn [fmap list_fmap fst snd]; rewrite list_to_map_cons.
      rewrite of_bytes_inv by done. by rewrite lookup_insert_eq.
    + destruct (keep k'); [|exact IH]. cbn [fmap list_fmap fst snd]; rewrite list_to_map_cons.
      rewrite lookup_insert_ne; [exact IH|]. intros <-. by rewrite of_bytes_of in Hne.
  - destruct (keep k'); [|exact IH]. cbn [fmap list_fmap fst snd]; rewrite list_to_map_cons.
    rewrite lookup_insert_ne; [exact IH|]. intros <-. by rewrite bytes_of_octets in Ho.
Qed.

Lemma extra_of_text keep m : text_keys (extra_of keep m).
Proof. intros k v. rewrite extra_of_lookup. by destruct (octets k). Qed.

(** ** The tree as the value of the representations *)
Class JsonText := { parse_text : bytes -> option Value; print_text : Value -> bytes }.

#[export] Instance tree {T : JsonText} : Sse.Json := {
  Sse.Value := Value;
  parse_str := parse_text;
  to_text := print_text;
  insert_type t v := match v with Object m => Object (map_insert "type" (json_str t) m) | _ => v end;
  rpc_status code message status :=
    json_obj [("error", json_obj [("code", json_u64 code); ("message", json_str message); ("status", json_str status)])] }.

(** ** Reading what was written: the member [k] of a chain of insertions of literal keys *)
Ltac eval_keys :=
  repeat match goal with
  | |- context [String.eqb (String ?c ?a) (String ?d ?b)] =>
      let r := eval vm_compute in (String.eqb (String c a) (String d b)) in
      lazymatch r with true => idtac | false => idtac end;
      change (String.eqb (String c a) (String d b)) with r; cbv iota
  end.
Ltac json_get :=
  repeat (first [rewrite map_get_insert | rewrite map_get_insert_opt | rewrite map_get_remove]; eval_keys).

Lemma or_absent {A} (o : option A) : match o with Some v => Some v | None => None end = o.
Proof. by destruct o. Qed.

Lemma fmap_some {A B} (f : A -> B) a : f <$> Some a = Some (f a).
Proof. done. Qed.

(** Reads the members of a written object. *)
Ltac read_members :=
  cbn [as_object members]; unfold get_text, get_bool, get_u64, get_i64, get_f64, insert_all, json_str;
  cbn [foldl fst snd]; json_get;
  repeat match goal with |- context [map_get ?k []] => change (map_get k []) with (@None Value) end;
  rewrite ?or_absent; cbn [mbind option_bind Json.as_str as_bool as_u64]; rewrite ?fmap_some;
  repeat match goal with H : octets ?b = true |- context [bytes_of (of_bytes ?b)] => rewrite (of_bytes_inv b H) end.
