(* ===== verification/Anthropic.v ===== *)
(** * The Anthropic dialect (crates/busbar/src/proto/anthropic)

    Reading and writing of Messages API requests, responses and errors on JSON trees: content blocks,
    citations, tools, tool choice, cache breakpoints, stop reasons, and the request and response bodies
    around them.  A reader answers a [Result]; its error is always the parse signal.  Warnings are not
    modelled.  The identifiers the writers mint come from the operating system's entropy and are
    arguments. *)
From stdpp Require Import base list strings gmap.
From Stdlib Require Import ZArith Lia SpecFloat.
From S2P Require Import Prelude Breaker Cell Headroom EventStream EventStreamFacts Sse Ir Translate IrSeam Json JsonTree.
Open Scope Z_scope.
Open Scope rust_scope.

Section Anthropic.
Context {T : JsonText}.

Definition ir_parse : CanonicalSignal := mkSignal ClientError (Some "ir_parse"%string) None.

(** ** Cache breakpoints *)
Definition read_cache_control (val : option Value) : Result (option CacheControl) :=
  match val with
  | None => inr None
  | Some cc_val =>
      match as_object cc_val with
      | None => inr None
      | Some cc_obj =>
          match v ← map_get "type" cc_obj; Json.as_str v with
          | Some t => if String.eqb t "ephemeral" then inr (Some (mk_cache Ephemeral)) else inl ir_parse
          | None => inr None
          end
      end
  end.

Definition write_cache_control (cc : CacheControl) : Value :=
  match cache_kind cc with Ephemeral => json_obj [("type", Str "ephemeral")] end.

(** ** Citations *)
Definition CITATION_TYPE_CHAR : string := "char_location".
Definition CITATION_TYPE_PAGE : string := "page_location".
Definition CITATION_TYPE_CONTENT_BLOCK : string := "content_block_location".
Definition CITATION_TYPE_WEB : string := "web_search_result_location".

(** [Option::or_else] on members: the first that is present. *)
Definition get_first (ks : list string) (m : Map) : option Value :=
  foldr (fun k r => match map_get k m with Some v => Some v | None => r end) None ks.

Definition read_citation (val : Value) : IrCitation :=
  let m := members val in
  mk_citation (get_text "type" m) (get_text "cited_text" m)
    (v ← get_first ["document_title"; "title"] m; bytes_of <$> Json.as_str v)
    (get_text "url" m) (get_i64 "document_index" m)
    (v ← get_first ["start_char_index"; "start_page_number"; "start_block_index"] m; as_i64 v)
    (v ← get_first ["end_char_index"; "end_page_number"; "end_block_index"] m; as_i64 v)
    (get_text "encrypted_index" m) (Some val).

Definition is_anthropic_citation_shape (raw : Value) : bool :=
  match get_str "type" raw with
  | Some t => existsb (String.eqb t) [CITATION_TYPE_CHAR; CITATION_TYPE_PAGE; CITATION_TYPE_CONTENT_BLOCK; CITATION_TYPE_WEB]
  | None => false
  end.

(** The location of a document citation, with the variant's names for its bounds. *)
Definition write_location (start_key end_key : string) (c : IrCitation) (obj : Map) : Map :=
  insert_opt end_key (json_i64 <$> end_index c)
    (insert_opt start_key (json_i64 <$> start_index c)
      (insert_opt "document_title" (json_str <$> title c)
        (insert_opt "document_index" (json_i64 <$> document_index c) obj))).

Definition build_citation (c : IrCitation) : Value :=
  let kind := match kind c with Some k => of_bytes k | None => CITATION_TYPE_WEB end in
  let obj := insert_opt "cited_text" (json_str <$> cited_text c) (map_insert "type" (Str kind) []) in
  Object
    (if String.eqb kind CITATION_TYPE_PAGE then write_location "start_page_number" "end_page_number" c obj
     else if String.eqb kind CITATION_TYPE_CONTENT_BLOCK then write_location "start_block_index" "end_block_index" c obj
     else if String.eqb kind CITATION_TYPE_WEB then
       insert_opt "encrypted_index" (json_str <$> encrypted_index c)
         (insert_opt "title" (json_str <$> title c) (insert_opt "url" (json_str <$> url c) obj))
     else write_location "start_char_index" "end_char_index" c obj).

Definition write_citation (c : IrCitation) : Value :=
  match citation_raw c with
  | Some raw => if is_anthropic_citation_shape raw then raw else build_citation c
  | None => build_citation c
  end.

(** ** Content blocks *)
Definition read_citations (val : option Value) : list IrCitation :=
  match v ← val; as_array v with Some arr => read_citation <$> arr | None => [] end.

(** Text that stands for a missing or plain string content. *)
Definition plain_content (content_val : option Value) : list IrBlock :=
  [Text (default [] (v ← content_val; bytes_of <$> Json.as_str v)) None []].

Definition read_image (obj : Map) : Result IrBlock :=
  match map_get "source" obj with
  | None => inl ir_parse
  | Some source =>
      let! cache_control := read_cache_control (map_get "cache_control" obj) in
      match as_object source with
      | None => inl ir_parse
      | Some src_obj =>
          if bool_decide (get_str "type" source = Some "url"%string)
          then inr (Image (SourceUrl (default [] (get_text "url" src_obj))) cache_control)
          else inr (Image (SourceBase64 (default [] (get_text "media_type" src_obj))
                             (default [] (get_text "data" src_obj))) cache_control)
      end
  end.

Fixpoint read_block (block_val : Value) : Result IrBlock :=
  match block_val with
  | Object obj =>
      let block_type := default ""%string (v ← map_get "type" obj; Json.as_str v) in
      if String.eqb block_type "text" then
        let! cache_control := read_cache_control (map_get "cache_control" obj) in
        inr (Text (default [] (get_text "text" obj)) cache_control (read_citations (map_get "citations" obj)))
      else if String.eqb block_type "thinking" then
        let! cache_control := read_cache_control (map_get "cache_control" obj) in
        inr (Thinking (default [] (get_text "thinking" obj)) (get_text "signature" obj) false cache_control)
      else if String.eqb block_type "tool_use" then
        let! cache_control := read_cache_control (map_get "cache_control" obj) in
        inr (ToolUse_ (default [] (get_text "id" obj)) (default [] (get_text "name" obj))
               (default Null (map_get "input" obj)) cache_control)
      else if String.eqb block_type "tool_result" then
        let! content :=
          match map_get_with (fun v => match v with
                                       | Array arr => collect read_block arr
                                       | _ => inr (plain_content (Some v))
                                       end) "content" obj with
          | Some r => r
          | None => inr (plain_content None)
          end in
        let! cache_control := read_cache_control (map_get "cache_control" obj) in
        inr (ToolResult (default [] (get_text "tool_use_id" obj)) content (default false (get_bool "is_error" obj))
               cache_control)
      else if String.eqb block_type "image" then read_image obj
      else if String.eqb block_type "redacted_thinking" then
        let! cache_control := read_cache_control (map_get "cache_control" obj) in
        inr (Thinking (default [] (get_text "data" obj)) None true cache_control)
      else inr (Text [] None [])
  | _ => inl ir_parse
  end.

(** [content] as an array of blocks, or as one text block. *)
Definition read_content (content_val : option Value) : Result (list IrBlock) :=
  match content_val with
  | Some (Array arr) => collect read_block arr
  | other => inr (plain_content other)
  end.

Definition is_json_tool_result_block (b : IrBlock) : bool := match b with JsonBlock _ => true | _ => false end.
Definition is_unresolvable_image_ref (s : IrImageSource) : bool :=
  match s with SourceVendor _ _ => true | _ => false end.

Definition empty_text : Value := json_obj [("type", Str "text"); ("text", Str "")].

Definition write_image (source : IrImageSource) : Map :=
  members match source with
  | SourceUrl url => json_obj [("type", Str "image"); ("source", json_obj [("type", Str "url"); ("url", json_str url)])]
  | SourceBase64 media_type data =>
      json_obj [("type", Str "image");
                ("source", json_obj [("type", Str "base64"); ("media_type", json_str media_type); ("data", json_str data)])]
  | SourceVendor _ _ => empty_text
  end.

Fixpoint write_block (block : IrBlock) : Value :=
  match block with
  | Text text cache_control citations =>
      Object
        (insert_opt "citations" (match citations with [] => None | cs => Some (Array (write_citation <$> cs)) end)
          (insert_opt "cache_control" (write_cache_control <$> cache_control)
            (insert_all [("type", Str "text"); ("text", json_str text)] [])))
  | Thinking text _ true cache_control =>
      Object (insert_opt "cache_control" (write_cache_control <$> cache_control)
        (insert_all [("type", Str "redacted_thinking"); ("data", json_str text)] []))
  | Thinking text signature false cache_control =>
      Object (insert_opt "cache_control" (write_cache_control <$> cache_control)
        (insert_opt "signature" (json_str <$> signature)
          (insert_all [("type", Str "thinking"); ("thinking", json_str text)] [])))
  | ToolUse_ id name input cache_control =>
      Object (insert_opt "cache_control" (write_cache_control <$> cache_control)
        (insert_all [("type", Str "tool_use"); ("id", json_str id); ("name", json_str name); ("input", input)] []))
  | ToolResult tool_use_id content is_error cache_control =>
      let content_val :=
        match content with
        | [] => Str ""
        | _ => Array ((fix kept l := match l with
                                     | [] => []
                                     | b :: l => if is_json_tool_result_block b then kept l else write_block b :: kept l
                                     end) content)
        end in
      Object (insert_opt "cache_control" (write_cache_control <$> cache_control)
        (insert_opt "is_error" (if is_error then Some (Bool true) else None)
          (insert_all [("type", Str "tool_result"); ("tool_use_id", json_str tool_use_id); ("content", content_val)] [])))
  | Image source cache_control =>
      Object (insert_opt "cache_control" (write_cache_control <$> cache_control) (write_image source))
  | JsonBlock _ => empty_text
  end.

(** ** Messages and tools *)
Definition read_message (msg_val : Value) : Result IrMessage :=
  match as_object msg_val with
  | None => inl ir_parse
  | Some obj =>
      let role_str := default ""%string (v ← map_get "role" obj; Json.as_str v) in
      let! role := if String.eqb role_str "user" then inr User
                   else if String.eqb role_str "assistant" then inr Assistant
                   else if String.eqb role_str "system" then inr System
                   else inl ir_parse in
      let! content := read_content (map_get "content" obj) in
      inr (mk_message role content)
  end.

(** What a request may not carry: unsigned plain thinking, and images only another vendor resolves. *)
Definition message_keeps (block : IrBlock) : bool :=
  match block with
  | Thinking _ None false _ => false
  | Image source _ => negb (is_unresolvable_image_ref source)
  | _ => true
  end.

Definition role_name (r : IrRole) : string :=
  match r with User => "user" | Assistant => "assistant" | System => "user" | Tool => "user" end.

Definition write_message (msg : IrMessage) : Value :=
  json_obj [("role", Str (role_name (role msg)));
            ("content", Array (write_block <$> List.filter message_keeps (content msg)))].

Definition read_tool (tool_val : Value) : Result IrTool :=
  match as_object tool_val with
  | None => inl ir_parse
  | Some obj =>
      let! cache_control := read_cache_control (map_get "cache_control" obj) in
      inr (mk_tool (default [] (get_text "name" obj)) (get_text "description" obj)
             (default Null (map_get "input_schema" obj)) cache_control None)
  end.

Definition write_tool (tool : IrTool) : Value :=
  Object (insert_opt "cache_control" (write_cache_control <$> tool_cache tool)
    (map_insert "input_schema" (input_schema tool)
      (insert_opt "description" (json_str <$> description tool) (map_insert "name" (json_str (name tool)) [])))).

(** ** Tool choice and stop reasons *)
Definition read_anthropic_tool_choice (val : option Value) : option IrToolChoice :=
  let? val := val in
  let? obj := as_object val in
  let? t := (v ← map_get "type" obj; Json.as_str v) in
  if String.eqb t "auto" then Some ChoiceAuto
  else if String.eqb t "none" then Some ChoiceNone
  else if String.eqb t "any" then Some ChoiceRequired
  else if String.eqb t "tool" then ChoiceTool <$> get_text "name" obj
  else None.

Definition write_anthropic_tool_choice (tc : IrToolChoice) : Map :=
  match tc with
  | ChoiceAuto => insert_all [("type", Str "auto")] []
  | ChoiceNone => insert_all [("type", Str "none")] []
  | ChoiceRequired => insert_all [("type", Str "any")] []
  | ChoiceTool name => insert_all [("type", Str "tool"); ("name", json_str name)] []
  end.

Definition read_anthropic_stop_reason (token : string) : IrStopReason :=
  if String.eqb token "end_turn" then EndTurn
  else if String.eqb token "max_tokens" then MaxTokens
  else if String.eqb token "stop_sequence" then StopSequence
  else if String.eqb token "tool_use" then ToolUse
  else if String.eqb token "pause_turn" then PauseTurn
  else if String.eqb token "refusal" then Refusal
  else OtherStop.

Definition write_anthropic_stop_reason (reason : IrStopReason) : string :=
  match reason with
  | EndTurn => "end_turn" | MaxTokens => "max_tokens" | StopSequence => "stop_sequence" | ToolUse => "tool_use"
  | PauseTurn => "pause_turn" | Refusal => "refusal"
  | Safety | ErrorStop | OtherStop => "end_turn"
  end.

(** ** Requests *)
Definition MODELED_KEYS : list string :=
  ["max_tokens"; "messages"; "model"; "stop_sequences"; "stream"; "system"; "temperature"; "tool_choice"; "tools";
   "top_k"; "top_p"].

Definition unmodeled (k : string) : bool := negb (existsb (String.eqb k) MODELED_KEYS).

Definition read_stop_sequences (val : option Value) : list bytes :=
  match val with
  | Some (Str s) => if is_empty s then [] else [bytes_of s]
  | Some (Array arr) => bytes_of <$> List.filter (fun s => negb (is_empty s)) (omap Json.as_str arr)
  | _ => []
  end.

Definition read_system (val : option Value) : Result (list IrBlock) :=
  match val with
  | Some (Str s) => inr [Text (bytes_of s) None []]
  | Some (Array arr) => collect read_block arr
  | _ => inr []
  end.

(** The members of [messages] or [tools]: none when it is absent or not an array. *)
Definition elements (val : option Value) : list Value := default [] (v ← val; as_array v).

(** The messages in order, those of the system role folded into the system blocks. *)
Definition promote (system_blocks : list IrBlock) (msgs : list IrMessage) : list IrBlock * list IrMessage :=
  foldl (fun acc msg => match role msg with
                        | System => (acc.1 ++ content msg, acc.2)
                        | _ => (acc.1, acc.2 ++ [msg])
                        end) (system_blocks, []) msgs.

Definition read_reasoning (obj : Map) : option IrReasoningAsk :=
  let? t := map_get "thinking" obj in
  if bool_decide (get_str "type" t = Some "enabled"%string)
  then Budget <$> (v ← get_u64 "budget_tokens" (members t); u32 v) else None.

Definition read_request (body : Value) : Result IrRequest :=
  match as_object body with
  | None => inl ir_parse
  | Some obj =>
      let! system_blocks := read_system (map_get "system" obj) in
      let! msgs := collect read_message (elements (map_get "messages" obj)) in
      let '(system_blocks, messages) := promote system_blocks msgs in
      let! tools := collect read_tool (elements (map_get "tools" obj)) in
      let max_tokens :=
        (v ← get_u64 "max_tokens" obj; v ← u32 v; if 0 <? v then Some v else None) in
      let reasoning := read_reasoning obj in
      let extra := extra_of unmodeled obj in
      let extra := match reasoning with Some _ => delete (bytes_of "thinking") extra | None => extra end in
      inr (mk_request system_blocks messages tools max_tokens None reasoning None
             (mk_controls (get_f64 "temperature" obj) (get_f64 "top_p" obj) (v ← get_u64 "top_k" obj; u32 v)
                None None None None None None
                (read_stop_sequences (map_get "stop_sequences" obj))
                (read_anthropic_tool_choice (map_get "tool_choice" obj))
                (m ← map_get "metadata" obj; get_text "user_id" (members m))
                (negb <$> (tc ← map_get "tool_choice" obj; get_bool "disable_parallel_tool_use" (members tc)))
                (default false (get_bool "stream" obj)))
             extra)
  end.

Definition clamp_temperature_for_anthropic (temperature : f64) : f64 * bool :=
  if negb (is_finite temperature) then (temperature, false)
  else (f64_clamp01 temperature, negb (SFeqb (f64_clamp01 temperature) temperature)).

(** The directive, with the parallelism carried inside it. *)
Definition tool_choice_value (c : Controls) (tools : list IrTool) : option Value :=
  match tool_choice c with
  | Some tc =>
      let m := write_anthropic_tool_choice tc in
      let m := match parallel_tool_calls c with
               | Some parallel =>
                   if bool_decide ((v ← map_get "type" m; Json.as_str v) = Some "none"%string) then m
                   else map_insert "disable_parallel_tool_use" (Bool (negb parallel)) m
               | None => m
               end in
      Some (Object m)
  | None =>
      match parallel_tool_calls c, tools with
      | Some parallel, _ :: _ =>
          Some (json_obj [("type", Str "auto"); ("disable_parallel_tool_use", Bool (negb parallel))])
      | _, _ => None
      end
  end.

(** The thinking budget that fits: at least 1024, and 1024 below [max_tokens]. *)
Definition thinking_budget (req : IrRequest) : option Z :=
  let? ask := reasoning req in
  let want := to_budget ask (default REASONING_BUDGET_DEFAULTS (reasoning_budgets req)) in
  let budget := match max_tokens req with Some mt => Z.min want (sat_sub_u64 mt 1024) | None => want end in
  if 1024 <=? budget then Some budget else None.

(** Forced and targeted choices are not allowed beside thinking. *)
Definition downgrade_tool_choice (out : Map) : Map :=
  match map_get "tool_choice" out with
  | Some (Object tc) =>
      let ty := (v ← map_get "type" tc; Json.as_str v) in
      if bool_decide (ty = Some "any"%string) || bool_decide (ty = Some "tool"%string)
      then map_insert "tool_choice" (Object (map_remove "name" (map_insert "type" (Str "auto") tc))) out
      else out
  | _ => out
  end.

(** A non-empty list as an array member. *)
Definition array_opt (l : list Value) : option Value := match l with [] => None | _ => Some (Array l) end.

Definition is_system (m : IrMessage) : bool := match role m with System => true | _ => false end.

(** The members the writer sets, before [extra] is laid over them. *)
Definition request_members (req : IrRequest) : Map :=
  let c := controls req in
  let system_blocks := system req ++ concat (content <$> List.filter is_system (messages req)) in
  let out := insert_opt "system" (array_opt (write_block <$> system_blocks)) [] in
  let out := map_insert "messages"
    (Array (write_message <$> List.filter (fun m => negb (is_system m)) (messages req))) out in
  let out := insert_opt "tools" (array_opt (write_tool <$> tools req)) out in
  let out := insert_opt "tool_choice" (tool_choice_value c (tools req)) out in
  let out := insert_opt "max_tokens" (json_u64 <$> max_tokens req) out in
  let thinking := thinking_budget req in
  let out := insert_opt "thinking"
    ((fun budget => json_obj [("type", Str "enabled"); ("budget_tokens", json_u64 budget)]) <$> thinking) out in
  let thinking_emitted : bool := match thinking with Some _ => true | None => false end in
  let out := if thinking_emitted then downgrade_tool_choice out else out in
  let out := if thinking_emitted then out
             else insert_opt "temperature" ((fun t => json_f64 (clamp_temperature_for_anthropic t).1) <$> temperature c) out in
  let out := if thinking_emitted then out else insert_opt "top_p" (json_f64 <$> top_p c) out in
  let out := if thinking_emitted then out else insert_opt "top_k" (json_u64 <$> top_k c) out in
  let out := insert_opt "stop_sequences" (array_opt (json_str <$> stop c)) out in
  let out := map_insert "stream" (Bool (stream c)) out in
  insert_opt "metadata" ((fun user => json_obj [("user_id", json_str user)]) <$> user c) out.

Definition write_request (req : IrRequest) : Value := Object (insert_extra (extra req) (request_members req)).

(** ** Responses *)
Definition read_usage (u : Map) : IrUsage.t :=
  IrUsage.mk (default 0 (get_u64 "input_tokens" u)) (default 0 (get_u64 "output_tokens" u))
    (get_u64 "cache_creation_input_tokens" u) (get_u64 "cache_read_input_tokens" u).

(** A model that is the empty string stands for none. *)
Definition read_model (m : Map) : option bytes :=
  let? s := (v ← map_get "model" m; Json.as_str v) in if is_empty s then None else Some (bytes_of s).

Definition read_response (body : Value) : Result IrResponse :=
  match as_object body with
  | None => inl ir_parse
  | Some obj =>
      let role_str := default ""%string (v ← map_get "role" obj; Json.as_str v) in
      if negb (String.eqb role_str "assistant") then inl ir_parse
      else match map_get "content" obj with
      | None => inl ir_parse
      | Some content_val =>
          let! content := collect read_block (elements (Some content_val)) in
          inr (mk_response Assistant content
                 (read_anthropic_stop_reason <$> (v ← map_get "stop_reason" obj; Json.as_str v))
                 (read_usage (default [] (members <$> map_get "usage" obj)))
                 (read_model obj) (get_text "id" obj) None None (get_text "stop_sequence" obj) [])
      end
  end.

Definition write_usage (u : IrUsage.t) : Map :=
  insert_opt "cache_read_input_tokens" (json_u64 <$> IrUsage.cache_read_input_tokens u)
    (insert_opt "cache_creation_input_tokens" (json_u64 <$> IrUsage.cache_creation_input_tokens u)
      (insert_all [("input_tokens", json_u64 (IrUsage.input_tokens u)); ("output_tokens", json_u64 (IrUsage.output_tokens u))] [])).

(** [synth] is the answer of [synth_message_id]. *)
Definition write_response (synth : bytes) (resp : IrResponse) : Value :=
  let obj := insert_all
    [("id", json_str (default synth (resp_id resp))); ("type", Str "message"); ("role", Str "assistant");
     ("model", json_str (default [] (model resp))); ("content", Array (write_block <$> resp_content resp))] [] in
  let obj := insert_opt "stop_reason" ((fun r => Str (write_anthropic_stop_reason r)) <$> stop_reason resp) obj in
  let obj := map_insert "stop_sequence" (match stop_sequence resp with Some s => json_str s | None => Null end) obj in
  Object (map_insert "usage" (Object (write_usage (resp_usage resp))) obj).
End Anthropic.
