(* ===== verification/AnthropicProps.v ===== *)
(** * Theorems about the Anthropic dialect: what is written reads back, and what is sent is accepted *)
From stdpp Require Import base list strings gmap.
From Stdlib Require Import ZArith Lia SpecFloat.
From S2P Require Import Prelude Breaker Cell Ranking Headroom EventStream EventStreamFacts Sse Ir Translate IrSeam Json JsonTree Anthropic.
Open Scope Z_scope.
Open Scope rust_scope.

Section AnthropicProps.
Context {T : JsonText}.

(** ** Blocks *)

(** A citation an Anthropic backend issued: the neutral fields are those of its source object. *)
Definition native_citation (c : IrCitation) : Prop :=
  exists raw, is_anthropic_citation_shape raw = true /\ c = read_citation raw.

Definition octets_opt (o : option bytes) : bool := match o with Some b => octets b | None => true end.

Definition native_source (src : IrImageSource) : Prop :=
  match src with
  | SourceUrl u => octets u = true
  | SourceBase64 mt d => octets mt = true /\ octets d = true
  | SourceVendor _ _ => False
  end.

Fixpoint native_block (b : IrBlock) : Prop :=
  match b with
  | Text t _ cs => octets t = true /\ Forall native_citation cs
  | Thinking t s r _ => octets t = true /\ octets_opt s = true /\ (r = true -> s = None)
  | ToolUse_ id nm _ _ => octets id = true /\ octets nm = true
  | ToolResult id content _ _ =>
      octets id = true /\ content <> [] /\
      (fix go l := match l with [] => True | b :: l => native_block b /\ go l end) content
  | Image src _ => native_source src
  | JsonBlock _ => False
  end.

Lemma read_write_cache cc : read_cache_control (write_cache_control <$> cc) = inr cc.
Proof. by destruct cc as [[[]]|]. Qed.

Lemma get_opt_text o : octets_opt o = true ->
  (v ← (json_str <$> o); bytes_of <$> Json.as_str v) = o.
Proof. destruct o as [b|]; [|done]. cbn. intros Hb. by rewrite of_bytes_inv. Qed.

Lemma read_written_citations cs : Forall native_citation cs ->
  read_citations match cs with [] => None | cs => Some (Array (write_citation <$> cs)) end = cs.
Proof.
  intros Hc. assert (read_citation <$> (write_citation <$> cs) = cs) as E.
  { rewrite <- list_fmap_compose.
    induction Hc as [|c cs (raw & Hs & ->) _ IH]; [done|]. cbn [fmap list_fmap]. f_equal; [|exact IH].
    cbn. unfold write_citation. cbn [citation_raw read_citation]. by rewrite Hs. }
  destruct cs; [done|]. exact E.
Qed.

Lemma native_blocks l :
  (fix go l := match l with [] => True | b :: l => native_block b /\ go l end) l <-> Forall native_block l.
Proof. induction l as [|b l IH]; [by split|]. rewrite Forall_cons, IH. done. Qed.

(** The blocks a tool result keeps, when none of them is a JSON block. *)
Lemma kept_all l : Forall native_block l ->
  (fix kept l := match l with
                 | [] => []
                 | b :: l => if is_json_tool_result_block b then kept l else write_block b :: kept l
                 end) l = write_block <$> l.
Proof.
  induction 1 as [|b l Hb _ IH]; [done|]. rewrite IH. by destruct b.
Qed.

(** Reads the members of a written block. *)
Ltac read_native := read_members; rewrite ?read_write_cache.

(** The reader of a tool result, with its content read by [read_content]. *)
Lemma read_tool_result obj : get_str "type" (Object obj) = Some "tool_result"%string ->
  read_block (Object obj) =
    let! content := read_content (map_get "content" obj) in
    let! cache_control := read_cache_control (map_get "cache_control" obj) in
    inr (ToolResult (default [] (get_text "tool_use_id" obj)) content (default false (get_bool "is_error" obj))
           cache_control).
Proof.
  unfold get_str. cbn [get]. intros E. cbn [read_block]. rewrite E. cbn [default from_option].
  rewrite map_get_with_eq. by destruct (map_get "content" obj) as [[]|].
Qed.

Lemma read_image_block obj : get_str "type" (Object obj) = Some "image"%string -> read_block (Object obj) = read_image obj.
Proof. unfold get_str. cbn [get]. intros E. cbn [read_block]. by rewrite E. Qed.

Lemma read_written_image src cc : native_source src ->
  read_block (write_block (Image src cc)) = inr (Image src cc).
Proof.
  intros Hs. cbn [write_block]. unfold write_image, json_obj. 
  destruct src as [mt d|u|]; [destruct Hs as [H1 H2]| |done]; cbn [members];
    rewrite read_image_block by (unfold get_str; cbn [get]; by read_native);
    unfold read_image; read_native; unfold get_str; cbn [get]; read_native; [done|].
  cbn [native_source] in Hs. cbn [default from_option]. by rewrite of_bytes_inv.
Qed.
Lemma read_written_block : forall b, native_block b -> read_block (write_block b) = inr b.
Proof.
  fix IH 1. intros [t cc cs|t s r cc|id nm inp cc|id content err cc|src cc|v] Hb.
  - destruct Hb as [Ht Hc]. cbn [write_block read_block]. read_native. cbn [default from_option].
    by rewrite read_written_citations.
  - destruct Hb as (Ht & Hs & Hr). destruct r; cbn [write_block read_block]; read_native; cbn [default from_option].
    + by rewrite Hr.
    + destruct s as [s|]; cbn; [by rewrite of_bytes_inv|done].
  - destruct Hb as [Hi Hn]. cbn [write_block read_block]. by read_native.
  - destruct Hb as (Hi & Hne & Hc). apply native_blocks in Hc as Hc'. cbn [write_block]. rewrite kept_all by done.
    assert (collect read_block (write_block <$> content) = inr content) as E.
    { clear Hne Hc'. induction content as [|b l IHl]; [done|]. destruct Hc as [Hb Hl]. cbn [fmap list_fmap collect].
      rewrite IH by done. fold (collect read_block). by rewrite IHl. }
    destruct content as [|b l]; [done|].
    rewrite read_tool_result by (unfold get_str; cbn [get]; by read_native). read_native. cbn [read_content].
    rewrite E. by destruct err.
  - by apply read_written_image.
  - done.
Qed.

(** ** Requests: what Anthropic's dialect can say *)
Definition native_message (m : IrMessage) : Prop :=
  (role m = User \/ role m = Assistant) /\ Forall native_block (content m) /\
  Forall (fun b => message_keeps b = true) (content m).

Definition native_tool (t : IrTool) : Prop :=
  octets (name t) = true /\ octets_opt (description t) = true /\ hosted t = None.

Definition finite_opt (o : option f64) : Prop := match o with Some x => is_finite x = true | None => True end.

(** Controls the Messages API has, at values it takes. *)
Definition native_controls (c : Controls) : Prop :=
  match temperature c with Some x => is_finite x = true /\ f64_clamp01 x = x | None => True end /\
  finite_opt (top_p c) /\ match top_k c with Some k => k <= U32_MAX | None => True end /\
  frequency_penalty c = None /\ presence_penalty c = None /\ seed c = None /\ logprobs c = None /\
  top_logprobs c = None /\ response_format c = None /\
  Forall (fun s => s <> [] /\ octets s = true) (stop c) /\
  match tool_choice c with Some (ChoiceTool nm) => octets nm = true | _ => True end /\
  match parallel_tool_calls c with
  | Some _ => exists tc, tool_choice c = Some tc /\ tc <> ChoiceNone
  | None => True
  end.

(** Thinking only with a budget that fits, and without the knobs it excludes. *)
Definition native_reasoning (r : IrRequest) : Prop :=
  match reasoning r with
  | None => True
  | Some (Budget b) =>
      thinking_budget r = Some b /\ b <= U32_MAX /\ temperature (controls r) = None /\
      top_p (controls r) = None /\ top_k (controls r) = None /\
      match tool_choice (controls r) with Some ChoiceRequired | Some (ChoiceTool _) => False | _ => True end
  | Some _ => False
  end.

(** The unmodeled members: [metadata] names the user, [thinking] is not an ask the reader takes out. *)
Definition native_extra (r : IrRequest) : Prop :=
  (forall k v, extra r !! k = Some v -> octets k = true /\ unmodeled (of_bytes k) = true) /\
  user (controls r) = (m ← extra r !! bytes_of "metadata"; get_text "user_id" (members m)) /\
  match extra r !! bytes_of "thinking" with
  | Some v => reasoning r = None /\ read_reasoning [("thinking"%string, v)] = None
  | None => True
  end.

Record native_request (r : IrRequest) : Prop := mk_native {
  native_system : Forall native_block (system r);
  native_messages : Forall native_message (messages r);
  native_tools : Forall native_tool (tools r);
  native_max_tokens : match max_tokens r with Some v => 0 < v <= U32_MAX | None => True end;
  native_n : n r = None;
  native_budgets : reasoning_budgets r = None;
  native_controls_ok : native_controls (controls r);
  native_reasoning_ok : native_reasoning r;
  native_extra_ok : native_extra r }.

Lemma read_written_message m : native_message m -> read_message (write_message m) = inr m.
Proof.
  intros (Hr & Hb & Hk). unfold write_message, json_obj, read_message. read_native. cbn [default from_option].
  assert (List.filter message_keeps (content m) = content m) as ->.
  { clear Hb. induction Hk as [|b l E _ IH]; [done|]. cbn [List.filter]. by rewrite E, IH. }
  cbn [read_content]. rewrite collect_id.
  2: { intros b Hin. apply read_written_block. rewrite Forall_forall in Hb. auto. }
  destruct m as [r l]. cbn [role content] in *. by destruct Hr as [-> | ->].
Qed.

Lemma read_written_tool t : native_tool t -> read_tool (write_tool t) = inr t.
Proof.
  intros (Hn & Hd & Hh). unfold write_tool, read_tool. read_native. cbn [default from_option].
  destruct t as [nm d sch cc h]. cbn in *. rewrite get_opt_text by done. by rewrite Hh.
Qed.

Lemma read_written_choice tc : match tc with ChoiceTool nm => octets nm = true | _ => True end ->
  read_anthropic_tool_choice (Some (Object (write_anthropic_tool_choice tc))) = Some tc.
Proof.
  destruct tc as [| | |nm]; try done. intros Ho. unfold read_anthropic_tool_choice, write_anthropic_tool_choice.
  by read_native.
Qed.

Lemma promote_native msgs : Forall native_message msgs -> forall sys acc,
  foldl (fun acc msg => match role msg with
                        | System => (acc.1 ++ content msg, acc.2)
                        | _ => (acc.1, acc.2 ++ [msg])
                        end) (sys, acc) msgs = (sys, acc ++ msgs).
Proof.
  induction 1 as [|m msgs ([E|E] & _) _ IH]; intros sys acc; cbn [foldl]; [by rewrite app_nil_r| |];
    rewrite E; cbn [fst snd]; rewrite IH, <- app_assoc; done.
Qed.

Lemma native_not_system msgs : Forall native_message msgs ->
  List.filter is_system msgs = [] /\ List.filter (fun m => negb (is_system m)) msgs = msgs.
Proof.
  induction 1 as [|m msgs ([E|E] & _) _ [IH1 IH2]]; [done| |]; cbn [List.filter]; unfold is_system in *;
    rewrite E; cbn [negb]; by rewrite IH1, IH2.
Qed.

Lemma read_array_opt {A} (f : Value -> Result A) (g : A -> Value) l :
  (forall a, a ∈ l -> f (g a) = inr a) -> collect f (elements (array_opt (g <$> l))) = inr l.
Proof. intros Hl. rewrite <- (collect_id f g l Hl). by destruct l. Qed.

Lemma read_written_system l : Forall native_block l -> read_system (array_opt (write_block <$> l)) = inr l.
Proof.
  intros Hl. rewrite <- (collect_id read_block write_block l); [by destruct l|].
  rewrite Forall_forall in Hl. auto using read_written_block.
Qed.

Lemma read_written_stop l : Forall (fun s => s <> [] /\ octets s = true) l ->
  read_stop_sequences (array_opt (json_str <$> l)) = l.
Proof.
  intros Hl. assert (read_stop_sequences (Some (Array (json_str <$> l))) = l) as E; [|by destruct l].
  cbn [read_stop_sequences]. induction Hl as [|s l [Hne Ho] _ IH]; [done|]. cbn [fmap list_fmap omap list_omap json_str Json.as_str List.filter].
  destruct (is_empty (of_bytes s)) eqn:Em; [by destruct s|]. cbn [negb]. rewrite fmap_cons, of_bytes_inv by done. f_equal. exact IH.
Qed.

(** ** The members of a written request *)
Definition downgraded (tc : option Value) : option Value :=
  match tc with
  | Some (Object tc) =>
      let ty := (v ← map_get "type" tc; Json.as_str v) in
      if bool_decide (ty = Some "any"%string) || bool_decide (ty = Some "tool"%string)
      then Some (Object (map_remove "name" (map_insert "type" (Str "auto") tc))) else Some (Object tc)
  | tc => tc
  end.

Lemma downgrade_get k out :
  map_get k (downgrade_tool_choice out) =
    if String.eqb "tool_choice" k then downgraded (map_get "tool_choice" out) else map_get k out.
Proof.
  unfold downgrade_tool_choice, downgraded.
  destruct (map_get "tool_choice" out) as [[]|] eqn:E;
    try by destruct (String.eqb_spec "tool_choice" k) as [<-|].
  destruct (_ || _); [apply map_get_insert|]. by destruct (String.eqb_spec "tool_choice" k) as [<-|].
Qed.

Definition unless_thinking (req : IrRequest) (o : option Value) : option Value :=
  match thinking_budget req with Some _ => None | None => o end.

Definition request_member (req : IrRequest) (k : string) : option Value :=
  let c := controls req in
  if String.eqb "system" k then
    array_opt (write_block <$> system req ++ concat (content <$> List.filter is_system (messages req)))
  else if String.eqb "messages" k then
    Some (Array (write_message <$> List.filter (fun m => negb (is_system m)) (messages req)))
  else if String.eqb "tools" k then array_opt (write_tool <$> tools req)
  else if String.eqb "tool_choice" k then
    (match thinking_budget req with Some _ => downgraded | None => id end) (tool_choice_value c (tools req))
  else if String.eqb "max_tokens" k then json_u64 <$> max_tokens req
  else if String.eqb "thinking" k then
    (fun budget => json_obj [("type", Str "enabled"); ("budget_tokens", json_u64 budget)]) <$> thinking_budget req
  else if String.eqb "temperature" k then
    unless_thinking req ((fun t => json_f64 (clamp_temperature_for_anthropic t).1) <$> temperature c)
  else if String.eqb "top_p" k then unless_thinking req (json_f64 <$> top_p c)
  else if String.eqb "top_k" k then unless_thinking req (json_u64 <$> top_k c)
  else if String.eqb "stop_sequences" k then array_opt (json_str <$> stop c)
  else if String.eqb "stream" k then Some (Bool (stream c))
  else if String.eqb "metadata" k then (fun user => json_obj [("user_id", json_str user)]) <$> user c
  else None.

(** Every key is written at most once, so the member is what the table says. *)
Lemma request_members_get req k : map_get k (request_members req) = request_member req k.
Proof.
  unfold request_members, request_member, unless_thinking.
  destruct (thinking_budget req) as [b|]; cbv zeta; cbn [fmap option_fmap option_map insert_opt];
    repeat first [rewrite map_get_insert | rewrite map_get_insert_opt | rewrite downgrade_get];
    repeat match goal with
    | |- _ = if String.eqb ?a k then _ else _ =>
        destruct (String.eqb_spec a k) as [<-|_]; [eval_keys; change (map_get _ []) with (@None Value); by rewrite ?or_absent|]
    end; done.
Qed.

Section RoundTrip.
Context (r : IrRequest) (Hr : native_request r).

Let written : Map := insert_extra (extra r) (request_members r).

Lemma written_get k :
  map_get k written = match extra r !! bytes_of k with Some v => Some v | None => request_member r k end.
Proof.
  unfold written. rewrite map_get_insert_extra, request_members_get; [done|].
  intros k' v Hk. destruct (native_extra_ok r Hr) as [He _]. by apply (He k' v).
Qed.

Lemma written_modeled k : unmodeled k = false -> map_get k written = request_member r k.
Proof.
  intros Hk. rewrite written_get. destruct (extra r !! bytes_of k) as [v|] eqn:E; [|done].
  destruct (native_extra_ok r Hr) as [He _]. apply He in E as [_ E]. rewrite of_bytes_of in E. congruence.
Qed.

Lemma budget_of_reasoning :
  (reasoning r = None /\ thinking_budget r = None) \/
  (exists b, reasoning r = Some (Budget b) /\ thinking_budget r = Some b /\ b <= U32_MAX).
Proof.
  pose proof (native_reasoning_ok r Hr) as H. unfold native_reasoning in H. unfold thinking_budget in *.
  destruct (reasoning r) as [[]|]; [done| |done|by left]. right. eexists. naive_solver.
Qed.

Lemma read_written_reasoning : read_reasoning written = reasoning r.
Proof.
  unfold read_reasoning. rewrite written_get.
  destruct (native_extra_ok r Hr) as (_ & _ & Ht). destruct (extra r !! bytes_of "thinking") as [v|].
  - destruct Ht as [-> Ht]. exact Ht.
  - destruct budget_of_reasoning as [[-> E]|(b & -> & E & Hb)]; unfold request_member; eval_keys; rewrite E; [done|].
    cbn [fmap option_fmap option_map]. unfold json_obj, get_str; cbn [get]. read_native.
    unfold json_u64. cbn [as_u64 mbind option_bind]. unfold u32. apply Z.leb_le in Hb. by rewrite Hb.
Qed.

(** An unmodeled key is written for the user and the thinking ask alone. *)
Lemma request_member_unmodeled k : unmodeled k = true -> k <> "thinking"%string ->
  (k = "metadata"%string -> user (controls r) = None) -> request_member r k = None.
Proof.
  unfold unmodeled. rewrite negb_true_iff. cbn [existsb MODELED_KEYS]. intros Hu Ht Hm. simpl_bool.
  unfold request_member.
  repeat match goal with H : String.eqb k ?a = false |- _ => rewrite String.eqb_sym in H; rewrite H; clear H end.
  destruct (String.eqb_spec "thinking" k) as [<-|_]; [done|].
  destruct (String.eqb_spec "metadata" k) as [<-|_]; [|done]. by rewrite Hm.
Qed.

Lemma read_written_extra :
  match reasoning r with
  | Some _ => delete (bytes_of "thinking") (extra_of unmodeled written)
  | None => extra_of unmodeled written
  end = extra r.
Proof.
  destruct (native_extra_ok r Hr) as (He & Hu & Ht).
  assert (forall k, k <> bytes_of "thinking" \/ reasoning r = None -> extra_of unmodeled written !! k = extra r !! k) as Hother.
  { intros k Hk. rewrite extra_of_lookup. destruct (extra r !! k) as [v|] eqn:E.
    - destruct (He k v E) as [-> ->]. by rewrite written_get, of_bytes_inv, E by (by apply (He k v)).
    - destruct (octets k) eqn:Ho; [|done]. destruct (unmodeled (of_bytes k)) eqn:Em; [|done].
      rewrite written_get, of_bytes_inv, E by done. destruct (String.eqb_spec (of_bytes k) "thinking") as [Ek|Ek].
      + rewrite Ek. unfold request_member. eval_keys.
        destruct budget_of_reasoning as [[_ ->]|(b & Er & _)]; [done|].
        destruct Hk as [[]|Hk]; [|congruence]. by rewrite <- Ek, of_bytes_inv.
      + apply request_member_unmodeled; [done..|]. intros Em'. rewrite Hu, <- Em', of_bytes_inv, E by done. done. }
  apply map_eq. intros k. destruct (reasoning r) as [ask|] eqn:Er; [|auto].
  destruct (decide (k = bytes_of "thinking")) as [->|Hne]; [|rewrite lookup_delete_ne by done; auto].
  rewrite lookup_delete_eq. destruct (extra r !! bytes_of "thinking") as [v|] eqn:E; [by destruct Ht|]. symmetry. exact E.
Qed.

Lemma read_written_controls :
  get_f64 "temperature" written = temperature (controls r) /\ get_f64 "top_p" written = top_p (controls r) /\
  (v ← get_u64 "top_k" written; u32 v) = top_k (controls r) /\
  read_stop_sequences (map_get "stop_sequences" written) = stop (controls r) /\
  default false (get_bool "stream" written) = stream (controls r).
Proof.
  destruct (native_controls_ok r Hr) as (Ht & Hp & Hk & _ & _ & _ & _ & _ & _ & Hs & _).
  unfold get_f64, get_u64, get_bool. rewrite !written_modeled by done. unfold request_member, unless_thinking. eval_keys.
  rewrite read_written_stop by done.
  destruct budget_of_reasoning as [[_ ->]|(b & Er & -> & _)].
  - unfold finite_opt in Hp. repeat split.
    + destruct (temperature (controls r)) as [x|]; [|done]. destruct Ht as [Hf Hc]. cbn.
      unfold clamp_temperature_for_anthropic, json_f64. rewrite Hf. cbn [negb fst]. by rewrite Hc, Hf.
    + destruct (top_p (controls r)) as [x|]; [|done]. cbn. unfold json_f64. by rewrite Hp.
    + destruct (top_k (controls r)) as [k|]; [|done]. cbn. unfold u32. apply Z.leb_le in Hk. by rewrite Hk.
  - pose proof (native_reasoning_ok r Hr) as Hn. unfold native_reasoning in Hn. rewrite Er in Hn.
    destruct Hn as (_ & _ & -> & -> & -> & _). done.
Qed.

Lemma read_written_tool_choice :
  read_anthropic_tool_choice (map_get "tool_choice" written) = tool_choice (controls r) /\
  (negb <$> (tc ← map_get "tool_choice" written; get_bool "disable_parallel_tool_use" (members tc))) =
    parallel_tool_calls (controls r).
Proof.
  destruct (native_controls_ok r Hr) as (_ & _ & _ & _ & _ & _ & _ & _ & _ & _ & Ho & Hp).
  rewrite written_modeled by done. unfold request_member. eval_keys. unfold tool_choice_value.
  assert (match thinking_budget r with
          | Some _ => match tool_choice (controls r) with Some ChoiceRequired | Some (ChoiceTool _) => False | _ => True end
          | None => True end) as Hf.
  { destruct budget_of_reasoning as [[_ ->]|(b & Er & -> & _)]; [done|].
    pose proof (native_reasoning_ok r Hr) as Hn. unfold native_reasoning in Hn. rewrite Er in Hn. apply Hn. }
  destruct (tool_choice (controls r)) as [tc|].
  - assert (parallel_tool_calls (controls r) <> None -> tc <> ChoiceNone) as Hne.
    { intros Hnp. destruct (parallel_tool_calls (controls r)); [|done]. destruct Hp as (tc' & [= <-] & Hp). done. }
    assert (match tc with ChoiceTool nm => exists s, nm = bytes_of s | _ => True end) as Hs.
    { destruct tc as [| | |nm]; try done. exists (of_bytes nm). by rewrite of_bytes_inv. }
    destruct (thinking_budget r), tc as [| | |nm], (parallel_tool_calls (controls r)) as [[]|];
      try done; try (by exfalso; apply Hne); destruct Hs as [s ->];
      unfold write_anthropic_tool_choice, json_str; rewrite of_bytes_of; by vm_compute.
  - destruct (parallel_tool_calls (controls r)); [by destruct Hp as (? & ? & _)|]. by destruct (thinking_budget r).
Qed.

Lemma read_written_max_tokens :
  (v ← get_u64 "max_tokens" written; v ← u32 v; if 0 <? v then Some v else None) = max_tokens r.
Proof.
  pose proof (native_max_tokens r Hr) as Hm. unfold get_u64. rewrite written_modeled by done. unfold request_member. eval_keys.
  destruct (max_tokens r) as [v|]; [|done]. destruct Hm as [H1 H2]. cbn. unfold u32.
  apply Z.leb_le in H2. apply Z.ltb_lt in H1. rewrite H2. cbn. by rewrite H1.
Qed.

Lemma read_written_user : (m ← map_get "metadata" written; get_text "user_id" (members m)) = user (controls r).
Proof.
  destruct (native_extra_ok r Hr) as (_ & Hu & _). rewrite written_get, Hu.
  destruct (extra r !! bytes_of "metadata") eqn:E; [done|]. unfold request_member. eval_keys. by rewrite Hu.
Qed.
End RoundTrip.

(** C23.  Within Anthropic's dialect nothing is lost: a request made of what the Messages API can say, at
    values it takes (a thinking budget that fits, a temperature in range, signed thinking), is written as
    a body that reads back as exactly the same request, with its system blocks, messages, nested tool
    results, tools, controls, user and every member the gateway does not model. *)
Theorem anthropic_request_roundtrip r : native_request r -> read_request (write_request r) = inr r.
Proof.
  intros Hr. unfold read_request, write_request. cbn [as_object].
  rewrite read_written_reasoning, read_written_extra, read_written_max_tokens, read_written_user by done.
  destruct (read_written_controls r Hr) as (-> & -> & -> & -> & ->).
  destruct (read_written_tool_choice r Hr) as [-> ->].
  rewrite !written_modeled by done. unfold request_member. eval_keys.
  destruct (native_not_system (messages r) (native_messages r Hr)) as [-> ->]. cbn [fmap list_fmap concat].
  rewrite app_nil_r, read_written_system by apply Hr. cbn [elements mbind option_bind as_array default from_option].
  unfold id. rewrite collect_id.
  2: { intros m Hin. apply read_written_message. pose proof (native_messages r Hr) as Hm. rewrite Forall_forall in Hm. auto. }
  unfold promote. rewrite promote_native by apply Hr. cbn [app].
  rewrite read_array_opt.
  2: { intros t Hin. apply read_written_tool. pose proof (native_tools r Hr) as Ht. rewrite Forall_forall in Ht. auto. }
  destruct Hr as [_ _ _ _ Hn Hb Hc _ _]. destruct Hc as (_ & _ & _ & H1 & H2 & H3 & H4 & H5 & H6 & _).
  destruct r as [? ? ? ? ? ? ? [] ?]. cbn in *. by subst.
Qed.

(** ** Responses *)
Lemma read_written_usage u : read_usage (write_usage u) = u.
Proof.
  unfold read_usage, write_usage. destruct u as [i o [cc|] [cr|]]; by read_members.
Qed.

Lemma read_written_model m l : octets_opt m = true -> map_get "model" l = Some (json_str (default [] m)) ->
  read_model l = match m with Some [] => None | m => m end.
Proof.
  intros Ho E. unfold read_model. rewrite E. destruct m as [[|x b]|]; [done| |done].
  unfold json_str. cbn [default from_option mbind option_bind Json.as_str octets_opt] in *. by rewrite of_bytes_inv.
Qed.

Definition native_stop (r : IrStopReason) : bool :=
  match r with Safety | ErrorStop | OtherStop => false | _ => true end.

Lemma read_written_stop_reason r : native_stop r = true -> read_anthropic_stop_reason (write_anthropic_stop_reason r) = r.
Proof. by destruct r. Qed.

Record native_response (r : IrResponse) : Prop := mk_native_response {
  response_role : resp_role r = Assistant;
  response_content : Forall native_block (resp_content r);
  response_stop : match stop_reason r with Some s => native_stop s = true | None => True end;
  response_model : octets_opt (model r) = true /\ model r <> Some [];
  response_id : octets_opt (resp_id r) = true;
  response_sequence : octets_opt (stop_sequence r) = true;
  response_foreign : created r = None /\ system_fingerprint r = None /\ resp_logprobs r = [] }.

(** The response with an identity. *)
Definition identified (synth : bytes) (r : IrResponse) : IrResponse :=
  mk_response (resp_role r) (resp_content r) (stop_reason r) (resp_usage r) (model r) (Some (default synth (resp_id r)))
    (created r) (system_fingerprint r) (stop_sequence r) (resp_logprobs r).

(** A response in Anthropic's dialect survives being written and read, and always has an id. *)
Theorem anthropic_response_roundtrip synth r : octets synth = true -> native_response r ->
  read_response (write_response synth r) = inr (identified synth r).
Proof.
  intros Hs [Hr Hc Hst [Hm Hne] Hi Hq (H1 & H2 & H3)].
  assert (octets (default synth (resp_id r)) = true) as Hid by by destruct (resp_id r).
  unfold write_response, read_response, identified. 
  cbn [as_object]. set (obj := map_insert "usage" _ _).
  rewrite (read_written_model (model r) obj) by (done || (unfold obj, insert_all; cbn [foldl fst snd]; by json_get)).
  unfold obj. clear obj. read_native. eval_keys. cbn [default from_option negb elements mbind option_bind as_array members].
  unfold id. eval_keys. cbn [negb]. rewrite read_written_usage, collect_id.
  2: { intros b Hin. rewrite Forall_forall in Hc. auto using read_written_block. }
  rewrite Hr, H1, H2, H3. do 2 f_equal.
  - destruct (stop_reason r) as [sr|]; [|done]. cbn. by rewrite read_written_stop_reason.
  - by destruct (model r) as [[]|].
  - destruct (stop_sequence r) as [q|]; [|done]. cbn. by rewrite of_bytes_inv.
Qed.

(** ** What the Messages API takes *)
Section Egress.
Context {H : Hex}.

Definition API_KEYS : list string :=
  ["system"; "messages"; "tools"; "tool_choice"; "max_tokens"; "thinking"; "temperature"; "top_p"; "top_k";
   "stop_sequences"; "stream"; "metadata"].

(** An image is a link or inline data, also inside the tool results of a block. *)
Inductive accepted_images : Value -> Prop :=
  | images_ok v :
      (get_str "type" v = Some "image"%string ->
         exists s, map_get "source" (members v) = Some s /\
           (get_str "type" s = Some "url"%string \/ get_str "type" s = Some "base64"%string)) ->
      (get_str "type" v = Some "tool_result"%string ->
         exists c, map_get "content" (members v) = Some c /\ (c = Str "" \/ exists l, c = Array l /\ Forall accepted_images l)) ->
      accepted_images v.

(** A block of a message: no unsigned plain thinking, and acceptable images. *)
Definition accepted_block (v : Value) : Prop :=
  (get_str "type" v = Some "thinking"%string -> is_Some (get_text "signature" (members v))) /\ accepted_images v.

Definition accepted_message (v : Value) : Prop :=
  (get_str "role" v = Some "user"%string \/ get_str "role" v = Some "assistant"%string) /\
  exists l, map_get "content" (members v) = Some (Array l) /\ Forall accepted_block l.

(** A thinking budget of at least 1024 that leaves as much for the answer, without sampling knobs or a
    forced tool. *)
Definition accepted_thinking (m : Map) (t : Value) : Prop :=
  (exists b mt, get_u64 "budget_tokens" (members t) = Some b /\ get_u64 "max_tokens" m = Some mt /\
     1024 <= b <= mt - 1024) /\
  map_get "temperature" m = None /\ map_get "top_p" m = None /\ map_get "top_k" m = None /\
  (forall tc, map_get "tool_choice" m = Some tc ->
     get_str "type" tc = Some "auto"%string \/ get_str "type" tc = Some "none"%string).

Record accepted (m : Map) : Prop := mk_accepted {
  accepted_keys : forall k v, map_get k m = Some v -> k ∈ API_KEYS;
  accepted_max_tokens : is_Some (get_u64 "max_tokens" m);
  accepted_messages : exists l, map_get "messages" m = Some (Array l) /\ Forall accepted_message l;
  accepted_temperature : forall v, map_get "temperature" m = Some v -> exists x, v = Num (Float x) /\ unit_interval x;
  accepted_thinking_ok : forall t, map_get "thinking" m = Some t -> accepted_thinking m t;
  accepted_parallel : forall tc, map_get "tool_choice" m = Some tc -> get_str "type" tc = Some "none"%string ->
    map_get "disable_parallel_tool_use" (members tc) = None }.

Definition block_type (b : IrBlock) : string :=
  match b with
  | Text _ _ _ | JsonBlock _ | Image (SourceVendor _ _) _ => "text"
  | Thinking _ _ true _ => "redacted_thinking"
  | Thinking _ _ false _ => "thinking"
  | ToolUse_ _ _ _ _ => "tool_use"
  | ToolResult _ _ _ _ => "tool_result"
  | Image _ _ => "image"
  end.

Lemma write_block_type b : get_str "type" (write_block b) = Some (block_type b).
Proof.
  unfold get_str. destruct b as [t cc cs|t s [] cc|id nm inp cc|id content err cc|[] cc|v];
    cbn [write_block get]; unfold write_image, empty_text, json_obj; cbn [members get]; by read_native.
Qed.

Lemma write_block_images : forall b, accepted_images (write_block b).
Proof.
  fix IH 1. intros b. constructor; rewrite write_block_type.
  - destruct b as [t cc cs|t s [] cc|id nm inp cc|id content err cc|[mt d|u|] cc|v]; try done; intros _.
    + eexists. cbn [write_block]. unfold write_image, json_obj. cbn [members]. read_native.
      split; [done|]. right. unfold get_str. cbn [get]. by read_native.
    + eexists. cbn [write_block]. unfold write_image, json_obj. cbn [members]. read_native.
      split; [done|]. left. unfold get_str. cbn [get]. by read_native.
  - destruct b as [t cc cs|t s [] cc|id nm inp cc|id content err cc|[mt d|u|] cc|v]; try done; intros _.
    eexists. cbn [write_block]. read_native. split; [done|]. destruct content as [|b l]; [by left|right]. eexists. split; [done|].
    assert (forall l, Forall accepted_images ((fix kept l := match l with
      | [] => []
      | b :: l => if is_json_tool_result_block b then kept l else write_block b :: kept l
      end) l)) as Hkept; [|exact (Hkept (b :: l))].
    clear b l. fix IHl 1. intros [|b l]; [constructor|].
    destruct (is_json_tool_result_block b); [apply IHl|]. constructor; [apply IH|apply IHl].
Qed.

Lemma write_block_accepted b : message_keeps b = true -> accepted_block (write_block b).
Proof.
  intros Hk. split; [|apply write_block_images]. rewrite write_block_type.
  destruct b as [t cc cs|t s [] cc|id nm inp cc|id content err cc|[mt d|u|] cc|v]; try done. intros _.
  destruct s as [s|]; [|done]. cbn [write_block]. read_native. by eexists.
Qed.

Lemma write_message_accepted m : is_system m = false -> accepted_message (write_message m).
Proof.
  intros Hs. unfold write_message, json_obj, accepted_message, get_str. cbn [get]. read_native. split.
  - destruct m as [[] l]; cbn; auto.
  - eexists. split; [done|]. apply Forall_fmap, Forall_forall. intros b Hb. apply write_block_accepted.
    apply list_elem_of_In, filter_In in Hb. apply Hb.
Qed.

Definition choice_type (tc : IrToolChoice) : string :=
  match tc with ChoiceAuto => "auto" | ChoiceNone => "none" | ChoiceRequired => "any" | ChoiceTool _ => "tool" end.

Lemma write_choice_type tc : map_get "type" (write_anthropic_tool_choice tc) = Some (Str (choice_type tc)).
Proof. destruct tc; unfold write_anthropic_tool_choice; by read_native. Qed.

(** A directive has a type, one of the four of the API, and no parallelism beside [none]. *)
Definition well_typed_choice (tc : Value) : Prop :=
  exists m ty, tc = Object m /\ map_get "type" m = Some (Str ty) /\ ty ∈ ["auto"; "none"; "any"; "tool"]%string /\
    (ty = "none"%string -> map_get "disable_parallel_tool_use" m = None).

Lemma tool_choice_typed c tools tc : tool_choice_value c tools = Some tc -> well_typed_choice tc.
Proof.
  unfold tool_choice_value, well_typed_choice. destruct (tool_choice c) as [ch|].
  - rewrite write_choice_type. cbn [mbind option_bind Json.as_str].
    assert (choice_type ch ∈ ["auto"; "none"; "any"; "tool"]%string) as Hc by (destruct ch; cbn; set_solver).
    destruct (parallel_tool_calls c) as [p|]; [case_bool_decide as Hn|]; intros [= <-]; eexists _, (choice_type ch).
    + split; [done|]. split; [apply write_choice_type|]. split; [done|]. intros _. destruct ch; by read_native || done.
    + split; [done|]. split; [json_get; apply write_choice_type|]. split; [done|]. intros E. by rewrite E in Hn.
    + split; [done|]. split; [apply write_choice_type|]. split; [done|]. intros _.
      destruct ch; unfold write_anthropic_tool_choice; by read_native.
  - destruct (parallel_tool_calls c) as [p|], tools; try done. intros [= <-]. eexists _, "auto"%string. unfold json_obj.
    split; [done|]. split; [by read_native|]. split; [set_solver|done].
Qed.

Lemma downgraded_typed tc v : (forall tc', tc = Some tc' -> well_typed_choice tc') -> downgraded tc = Some v ->
  well_typed_choice v /\ (get_str "type" v = Some "auto"%string \/ get_str "type" v = Some "none"%string).
Proof.
  intros Htc. destruct tc as [tc|]; [|done]. destruct (Htc tc eq_refl) as (m & ty & -> & Ht & Hty & Hp).
  unfold downgraded. rewrite Ht. cbn [mbind option_bind Json.as_str].
  destruct (_ || _) eqn:Eb; intros [= <-].
  - split; [|left; unfold get_str; cbn [get]; json_get; done]. eexists _, "auto"%string.
    split; [done|]. split; [by json_get|]. split; [set_solver|done].
  - split; [by eexists _, _|]. unfold get_str. cbn [get]. rewrite Ht. cbn. simpl_bool.
    apply bool_decide_eq_false in H0, H1. rewrite !elem_of_cons, elem_of_nil in Hty.
    destruct Hty as [->|[->|[->|[->|[]]]]]; auto; congruence.
Qed.

Lemma request_member_key req k v : request_member req k = Some v -> k ∈ API_KEYS.
Proof.
  unfold request_member. intros E.
  repeat match type of E with
  | (if String.eqb ?a k then _ else _) = _ => destruct (String.eqb_spec a k) as [<-|_]; [unfold API_KEYS; set_solver|]
  end. done.
Qed.

Lemma thinking_fits req b mt : thinking_budget req = Some b -> max_tokens req = Some mt -> 1024 <= b <= mt - 1024.
Proof.
  unfold thinking_budget. destruct (reasoning req) as [ask|]; [|done]. intros E Hm. rewrite Hm in E.
  destruct (Z.leb_spec 1024 (Z.min (to_budget ask (default REASONING_BUDGET_DEFAULTS (reasoning_budgets req)))
    (sat_sub_u64 mt 1024))); [|done]. injection E as <-. mach_lia.
Qed.

Lemma request_members_accepted req : is_Some (max_tokens req) -> finite_opt (temperature (controls req)) ->
  accepted (request_members req).
Proof.
  intros [mt Hmt] Hf.
  assert (get_u64 "max_tokens" (request_members req) = Some mt) as Emt.
  { unfold get_u64. rewrite request_members_get. unfold request_member. eval_keys. by rewrite Hmt. }
  assert (forall tc, tool_choice_value (controls req) (tools req) = Some tc -> well_typed_choice tc) as Htc
    by eauto using tool_choice_typed.
  split; [| |eexists| | |]; try setoid_rewrite request_members_get.
  - apply request_member_key.
  - by eexists.
  - split; [done|]. apply Forall_fmap, Forall_forall. intros m [_ Hm]%list_elem_of_In%filter_In.
    apply write_message_accepted. by apply negb_true_iff.
  - intros v. unfold request_member, unless_thinking. eval_keys. destruct (thinking_budget req); [done|].
    unfold finite_opt in Hf. destruct (temperature (controls req)) as [x|]; [|done]. cbn [fmap option_fmap option_map].
    intros [= <-]. exists (f64_clamp01 x). unfold clamp_temperature_for_anthropic, json_f64. rewrite Hf. cbn [negb fst].
    assert (is_number x = true) as Hn by by destruct x. pose proof (clamp_unit x Hn) as Hu. split; [|done].
    unfold f64_clamp01. by destruct (SFltb x f64_zero); [|destruct (SFltb f64_one x)]; rewrite ?Hf.
  - intros t. unfold accepted_thinking. setoid_rewrite request_members_get. rewrite Emt.
    unfold request_member, unless_thinking. eval_keys. destruct (thinking_budget req) as [b|] eqn:Eb; [|done].
    cbn [fmap option_fmap option_map]. intros [= <-]. split_and!; [|done..|].
    + exists b, mt. unfold json_obj. read_native. split_and!; [done..| |]; by apply (thinking_fits req b mt).
    + intros tc Htc'. by eapply downgraded_typed.
  - intros tc. unfold request_member. eval_keys. intros Etc Hn.
    assert (well_typed_choice tc) as (m & ty & -> & Ht & _ & Hp).
    { destruct (thinking_budget req); [by eapply downgraded_typed|by apply Htc]. }
    apply Hp. unfold get_str in Hn. cbn [get] in Hn. rewrite Ht in Hn. cbn in Hn. congruence.
Qed.

Lemma prepare_chat_carries prep ir :
  extra (prepare_chat prep ir) = ∅ /\ controls (prepare_chat prep ir) = controls ir /\
  (egress_requires_max_tokens prep = true -> is_Some (max_tokens (prepare_chat prep ir))).
Proof.
  unfold prepare_chat. destruct (match reasoning ir with Some _ => _ | None => _ end) as [r b].
  destruct (if negb _ then _ else _) as [[s m] t]. split_and!; [done..|]. intros E. cbn [max_tokens]. rewrite E.
  destruct (max_tokens ir); by eexists.
Qed.

(** C14.  A request translated from another protocol for an Anthropic backend keeps rules the Messages API
    enforces with an error: a token limit is there; messages are the user's or the assistant's, none of their
    blocks is unsigned thinking, and neither they nor the tool results inside them carry an image another
    vendor would have to resolve; a finite temperature ends up between zero and one; thinking has a budget of
    at least 1024 tokens that leaves 1024 for the answer, and no sampling knob or forced tool beside it; and
    no member of the client's own protocol leaks through.  (A request that arrives in the Anthropic protocol
    is relayed as it came and is not translated; blocks nested in a tool result are not checked for
    signatures.) *)
Theorem egress_request_accepted prep ir :
  egress_requires_max_tokens prep = true -> finite_opt (temperature (controls ir)) ->
  exists m, write_request (prepare_chat prep ir) = Object m /\ accepted m.
Proof.
  intros Hr Hf. destruct (prepare_chat_carries prep ir) as (He & Hc & Hm). eexists. split; [done|].
  rewrite He. change (insert_extra ∅ ?m) with m. apply request_members_accepted; [by apply Hm|by rewrite Hc].
Qed.
End Egress.
End AnthropicProps.

(** ** Examples *)
Section Example.
#[local] Instance plain_text : JsonText := { parse_text _ := None; print_text _ := [] }.
#[local] Program Instance no_hex : Hex := { hex_encode := id; hex_decode b := Some b }.
Solve All Obligations with done.

Definition demo_call : IrMessage :=
  mk_message User [ToolResult (bytes_of "t1") [Text (bytes_of "42") (Some (mk_cache Ephemeral)) []] true None;
                   Image (SourceUrl (bytes_of "https://e.x/a.png")) None].
Definition demo_turn : IrMessage :=
  mk_message Assistant [Thinking (bytes_of "opaque") None true None; Thinking (bytes_of "hm") (Some (bytes_of "sig")) false None;
                        ToolUse_ (bytes_of "t1") (bytes_of "f") (Object [("x"%string, Bool true)]) None].
Definition demo_controls : Controls :=
  mk_controls None None None None None None None None None [bytes_of "END"] (Some ChoiceAuto) (Some (bytes_of "u7"))
    (Some false) true.
Definition demo_request : IrRequest :=
  mk_request [Text (bytes_of "be brief") None []] [demo_turn; demo_call]
    [mk_tool (bytes_of "f") (Some (bytes_of "a function")) (Object []) None None] (Some 4096) None (Some (Budget 2048)) None
    demo_controls {[ bytes_of "metadata" := Object [("user_id"%string, Str "u7")] ]}.

Lemma demo_native : native_request demo_request.
Proof.
  split; try done.
  - by repeat constructor.
  - constructor; [split; [by right|split; by repeat constructor]|].
    constructor; [split; [by left|split; by repeat constructor]|constructor].
  - by repeat constructor.
  - split_and!; try done; [by repeat constructor|]. by exists ChoiceAuto.
  - split_and!; try done. intros k v Hk. cbn [extra demo_request] in Hk. apply lookup_singleton_Some in Hk as [<- _]. by vm_compute.
Qed.

Lemma anthropic_request_roundtrip_witness : read_request (write_request demo_request) = inr demo_request.
Proof. apply (anthropic_request_roundtrip demo_request). exact demo_native. Defined.

(** The same conversation from another protocol, too hot and forcing a tool. *)
Definition demo_foreign : IrRequest :=
  mk_request [] [mk_message System [Text (bytes_of "be brief") None []]; demo_call] [] None (Some 3)
    (Some (Effort High)) None
    (mk_controls (Some (f64_of_Z 2)) None None None None None None None None [] (Some ChoiceRequired) None None false) ∅.

Definition demo_prep : EgressPrep := mk_prep (bytes_of "openai") true None 4096 true REASONING_BUDGET_DEFAULTS true.

Lemma egress_request_accepted_witness :
  exists m, write_request (prepare_chat demo_prep demo_foreign) = Object m /\ accepted m.
Proof. exact (egress_request_accepted demo_prep demo_foreign eq_refl eq_refl). Defined.

(** The effort became a budget that fits, the forced choice gave way, the temperature was left out. *)
Example demo_foreign_written :
  get_u64 "budget_tokens" (default [] (members <$> get "thinking" (write_request (prepare_chat demo_prep demo_foreign)))) = Some 3072 /\
  get "temperature" (write_request (prepare_chat demo_prep demo_foreign)) = None /\
  get "tool_choice" (write_request (prepare_chat demo_prep demo_foreign)) = Some (json_obj [("type", Str "auto")]).
Proof. by vm_compute. Qed.

(** A directive is sent even when every tool was another provider's and dropped. *)
Example directive_without_tools :
  let r := mk_request [] [] [mk_tool [] None Null None (Some Null)] None None None None
    (mk_controls None None None None None None None None None [] (Some ChoiceRequired) None None false) ∅ in
  get "tools" (write_request (prepare_chat demo_prep r)) = None /\
  get "tool_choice" (write_request (prepare_chat demo_prep r)) = Some (json_obj [("type", Str "any")]).
Proof. by vm_compute. Qed.
End Example.
