(* ===== verification/AnthropicStream.v ===== *)
(** * The Anthropic dialect on the wire: stream events and errors (crates/busbar/src/proto/anthropic)

    The reader and writer of server-sent events as instances of the stream interfaces of [Ir], the
    extraction of an upstream error for the breaker and the native error envelope.  Theorems: every event
    the dialect can carry is read back as it was written, block indices stay bounded, and an error keeps
    its class whichever way it reaches the gateway. *)
From stdpp Require Import base list strings gmap.
From Stdlib Require Import ZArith Lia SpecFloat.
From S2P Require Import Prelude Breaker Cell EventStream EventStreamFacts Sse Ir Translate IrSeam Json JsonTree Anthropic AnthropicProps.
Open Scope Z_scope.
Open Scope rust_scope.

(** ** Errors *)
Definition ERR_TYPE_OVERLOADED : string := "overloaded_error".
Definition ERR_TYPE_INVALID_REQUEST : string := "invalid_request_error".
Definition ERR_TYPE_AUTHENTICATION : string := "authentication_error".
Definition ERR_TYPE_RATE_LIMIT : string := "rate_limit_error".
Definition ERR_TYPE_API_ERROR : string := "api_error".
Definition ERR_TYPE_TIMEOUT : string := "timeout_error".
Definition ERR_TYPE_NOT_FOUND : string := "not_found_error".
Definition ERR_TYPE_PERMISSION : string := "permission_error".
Definition ERR_TYPE_REQUEST_TOO_LARGE : string := "request_too_large".

Definition stream_error_class (error_type : option string) : StatusClass :=
  match error_type with
  | None => ClientError
  | Some t =>
      if String.eqb t ERR_TYPE_OVERLOADED then Overloaded
      else if String.eqb t ERR_TYPE_RATE_LIMIT then RateLimit
      else if String.eqb t ERR_TYPE_API_ERROR then ServerError
      else if String.eqb t ERR_TYPE_TIMEOUT then Timeout
      else if String.eqb t ERR_TYPE_AUTHENTICATION || String.eqb t ERR_TYPE_PERMISSION then Auth
      else if String.eqb t "billing_error" then Billing
      else ClientError
  end.

Definition mentions_context_length (body : bytes) : bool :=
  let lower := lossy_lowercase body in
  contains_bytes (bytes_of "prompt is too long") lower ||
  (contains_bytes (bytes_of "exceeds the maximum") lower &&
   (contains_bytes (bytes_of "token") lower || contains_bytes (bytes_of "context") lower)).

Section AnthropicStream.
Context {T : JsonText}.

Definition extract_error (status : Z) (body : bytes) : RawUpstreamError :=
  let '(provider_code, structured_type) :=
    match parse_text body with
    | Some json => let error := get "error" json in
                   ((e ← error; get_str "code" e), (e ← error; get_str "type" e))
    | None => (None, None)
    end in
  let is_request_size_status := (status =? 400) || (status =? 413) in
  let provider_code :=
    match provider_code with
    | Some c => Some c
    | None => if negb is_request_size_status then None
              else if mentions_context_length body then Some PROVIDER_CODE_CONTEXT_LENGTH else None
    end in
  mkRaw status provider_code structured_type None.

(** [request_id] is the answer of [synth_request_id]. *)
Definition error_envelope (request_id : bytes) (error_type : string) (message : bytes) : Value :=
  json_obj [("type", Str "error");
            ("error", json_obj [("type", Str error_type); ("message", json_str message)]);
            ("request_id", json_str request_id)].

Definition anthropic_type (kind : string) : string :=
  if String.eqb kind "invalid_request" || String.eqb kind "bad_request" then ERR_TYPE_INVALID_REQUEST
  else if String.eqb kind "authentication" || String.eqb kind "unauthorized" then ERR_TYPE_AUTHENTICATION
  else if String.eqb kind "permission" || String.eqb kind "forbidden" then ERR_TYPE_PERMISSION
  else if String.eqb kind "not_found" then ERR_TYPE_NOT_FOUND
  else if String.eqb kind ERR_TYPE_REQUEST_TOO_LARGE || String.eqb kind "payload_too_large" then ERR_TYPE_REQUEST_TOO_LARGE
  else if String.eqb kind "rate_limit" || String.eqb kind "too_many_requests" then ERR_TYPE_RATE_LIMIT
  else if String.eqb kind "overloaded" then ERR_TYPE_OVERLOADED
  else if String.eqb kind "timeout" then ERR_TYPE_TIMEOUT
  else if String.eqb kind ERR_TYPE_API_ERROR || String.eqb kind "server_error" || String.eqb kind "internal"
  then ERR_TYPE_API_ERROR
  else kind.

Definition write_error (request_id : bytes) (status : Z) (kind : string) (message : bytes) : Value :=
  if (status =? 503) || (status =? 529) then error_envelope request_id ERR_TYPE_OVERLOADED message
  else error_envelope request_id (anthropic_type kind) message.

(** ** Reading events *)
Definition EVT_MESSAGE_START : bytes := Eval cbv in bytes_of "message_start".
Definition EVT_CONTENT_BLOCK_START : bytes := Eval cbv in bytes_of "content_block_start".
Definition EVT_CONTENT_BLOCK_DELTA : bytes := Eval cbv in bytes_of "content_block_delta".
Definition EVT_CONTENT_BLOCK_STOP : bytes := Eval cbv in bytes_of "content_block_stop".
Definition EVT_MESSAGE_DELTA : bytes := Eval cbv in bytes_of "message_delta".
Definition EVT_MESSAGE_STOP : bytes := Eval cbv in bytes_of "message_stop".
Definition EVT_ERROR : bytes := Eval cbv in bytes_of "error".

Definition MAX_ANTHROPIC_BLOCK_INDEX : Z := 1023.

Definition read_clamped_block_index (data : Value) : option nat :=
  (fun v => Z.to_nat (Z.min v MAX_ANTHROPIC_BLOCK_INDEX)) <$> get_u64 "index" (members data).

Definition read_message_start (data : Value) : option IrStreamEvent :=
  let? msg := get "message" data in
  let? role_str := get_str "role" msg in
  let? role := if String.eqb role_str "user" then Some User
               else if String.eqb role_str "assistant" then Some Assistant else None in
  Some (MessageStart role ((fun u => read_usage (members u)) <$> get "usage" msg)
          (get_text "id" (members msg)) None (read_model (members msg))).

Definition read_block_start (data : Value) : option IrStreamEvent :=
  let? index := read_clamped_block_index data in
  let? block := get "content_block" data in
  let? block_type := get_str "type" block in
  let? meta :=
    if String.eqb block_type "text" then Some TextBlock
    else if String.eqb block_type "thinking" then Some ThinkingBlock
    else if String.eqb block_type "tool_use" then
      let? id := get_text "id" (members block) in
      let? name := get_text "name" (members block) in
      Some (ToolUseBlock id name)
    else if String.eqb block_type "image" then Some ImageBlock
    else None in
  Some (BlockStart index meta).

Definition read_block_delta (data : Value) : option IrStreamEvent :=
  let? index := read_clamped_block_index data in
  let? delta_val := get "delta" data in
  let? delta_type := get_str "type" delta_val in
  let m := members delta_val in
  let? delta :=
    if String.eqb delta_type "text_delta" then TextDelta <$> get_text "text" m
    else if String.eqb delta_type "thinking_delta" then ThinkingDelta <$> get_text "thinking" m
    else if String.eqb delta_type "input_json_delta" then
      InputJsonDelta <$> (v ← get_first ["partial_json"; "input_json"] m; bytes_of <$> Json.as_str v)
    else if String.eqb delta_type "signature_delta" then SignatureDelta <$> get_text "signature" m
    else if String.eqb delta_type "citations_delta" then
      (fun c => CitationsDelta [read_citation c]) <$> map_get "citation" m
    else None in
  Some (BlockDelta index delta).

Definition read_message_delta (data : Value) : option IrStreamEvent :=
  let? delta := get "delta" data in
  Some (MessageDelta (read_anthropic_stop_reason <$> get_str "stop_reason" delta)
          (get_text "stop_sequence" (members delta))
          (read_usage (default [] (members <$> get "usage" data)))).

Definition read_stream_error (data : Value) : option IrStreamEvent :=
  let? err_val := get "error" data in
  let type_token := get_str "type" err_val in
  Some (Error (mkSignal (stream_error_class type_token) type_token None)).

Definition read_response_event (event_type : bytes) (data : Value) : option IrStreamEvent :=
  if bool_decide (event_type = EVT_MESSAGE_START) then read_message_start data
  else if bool_decide (event_type = EVT_CONTENT_BLOCK_START) then read_block_start data
  else if bool_decide (event_type = EVT_CONTENT_BLOCK_DELTA) then read_block_delta data
  else if bool_decide (event_type = EVT_CONTENT_BLOCK_STOP) then BlockStop <$> read_clamped_block_index data
  else if bool_decide (event_type = EVT_MESSAGE_DELTA) then read_message_delta data
  else if bool_decide (event_type = EVT_MESSAGE_STOP) then Some MessageStop
  else if bool_decide (event_type = EVT_ERROR) then read_stream_error data
  else None.

(** A redacted block arrives whole on its start event. *)
Definition read_redacted_start (event_type : bytes) (data : Value) : option (list IrStreamEvent) :=
  if bool_decide (event_type = EVT_CONTENT_BLOCK_START) then
    let? block := get "content_block" data in
    if bool_decide (get_str "type" block = Some "redacted_thinking"%string) then
      let? index := read_clamped_block_index data in
      Some [BlockStart index ThinkingBlock;
            BlockDelta index (RedactedReasoningDelta (default [] (get_text "data" (members block))))]
    else None
  else None.

Definition anthropic_read_events (event_type : bytes) (data : Value) : list IrStreamEvent :=
  match read_redacted_start event_type data with
  | Some evs => evs
  | None => match read_response_event event_type data with Some ev => [ev] | None => [] end
  end.

(** ** Writing events *)
Definition typed_event (t : bytes) (l : list (string * Value)) : bytes * Value :=
  (t, json_obj (("type"%string, json_str t) :: l)).

Definition write_block_meta (block : IrBlockMeta) : Value :=
  match block with
  | TextBlock => json_obj [("type", Str "text"); ("text", Str "")]
  | ThinkingBlock => json_obj [("type", Str "thinking"); ("thinking", Str ""); ("signature", Str "")]
  | ToolUseBlock id name =>
      json_obj [("type", Str "tool_use"); ("id", json_str id); ("name", json_str name); ("input", json_obj [])]
  | ImageBlock => json_obj [("type", Str "image")]
  end.

Definition write_delta (delta : IrDelta) : option Value :=
  match delta with
  | TextDelta text => Some (json_obj [("type", Str "text_delta"); ("text", json_str text)])
  | ThinkingDelta thinking => Some (json_obj [("type", Str "thinking_delta"); ("thinking", json_str thinking)])
  | InputJsonDelta json => Some (json_obj [("type", Str "input_json_delta"); ("partial_json", json_str json)])
  | SignatureDelta sig => Some (json_obj [("type", Str "signature_delta"); ("signature", json_str sig)])
  | RedactedReasoningDelta _ | LogprobsDelta _ => None
  | CitationsDelta cs =>
      let? c := head cs in
      Some (json_obj [("type", Str "citations_delta"); ("citation", write_citation c)])
  end.

Definition json_index (index : nat) : Value := json_u64 (Z.of_nat index).

Definition null_or_str (o : option string) : Value := match o with Some s => Str s | None => Null end.

Definition stream_error_message (signal : option string) : string :=
  match signal with
  | Some ps => if is_empty ps then "an error occurred while streaming the response" else ps
  | None => "an error occurred while streaming the response"
  end.

(** [synth] is the answer of [synth_message_id], used when the event carries no id. *)
Definition anthropic_write_event (synth : bytes) (ev : IrStreamEvent) : option (bytes * Value) :=
  match ev with
  | MessageStart role usage id _ model =>
      let? role_str := match role with User => Some "user"%string | Assistant => Some "assistant"%string | _ => None end in
      let msg_obj :=
        [("id", json_str (default synth id)); ("type", Str "message"); ("role", Str role_str);
         ("model", json_str (default [] model)); ("content", Array []); ("stop_reason", Null);
         ("stop_sequence", Null); ("usage", Object (write_usage (default IrUsage.zero usage)))]%string in
      Some (typed_event EVT_MESSAGE_START [("message"%string, json_obj msg_obj)])
  | BlockStart index block =>
      Some (typed_event EVT_CONTENT_BLOCK_START
              [("index"%string, json_index index); ("content_block"%string, write_block_meta block)])
  | BlockDelta index delta =>
      let? delta_val := write_delta delta in
      Some (typed_event EVT_CONTENT_BLOCK_DELTA [("index"%string, json_index index); ("delta"%string, delta_val)])
  | BlockStop index => Some (typed_event EVT_CONTENT_BLOCK_STOP [("index"%string, json_index index)])
  | MessageDelta stop_reason stop_sequence usage =>
      let delta_obj :=
        [("stop_reason", null_or_str (write_anthropic_stop_reason <$> stop_reason));
         ("stop_sequence", null_or_str (of_bytes <$> stop_sequence))]%string in
      Some (typed_event EVT_MESSAGE_DELTA [("delta"%string, json_obj delta_obj); ("usage"%string, Object (write_usage usage))])
  | MessageStop => Some (typed_event EVT_MESSAGE_STOP [])
  | Error err =>
      let error_obj :=
        [("type", null_or_str (provider_signal err));
         ("message", Str (stream_error_message (provider_signal err)))]%string in
      Some (typed_event EVT_ERROR [("error"%string, json_obj error_obj)])
  end.

(** ** The interfaces of the stream translator *)
Inductive AnthropicReader := anthropic_reader.

#[export] Instance anthropic_stream_reader : Reader AnthropicReader := {
  decode_default := anthropic_reader;
  read_response_events et v d := (d, anthropic_read_events et v) }.

(** The ids the operating system's entropy gives, and how many were drawn. *)
Record AnthropicWriter := mk_writer { entropy : nat -> bytes; drawn : nat }.

Definition draws (ev : IrStreamEvent) : bool := match ev with MessageStart (User | Assistant) _ None _ _ => true | _ => false end.

#[export] Program Instance anthropic_stream_writer : Writer AnthropicWriter := {
  protocol_name _ := bytes_of "anthropic";
  write_response_event w ev :=
    (if draws ev then mk_writer (entropy w) (S (drawn w)) else w, anthropic_write_event (entropy w (drawn w)) ev);
  write_response_exception _ _ := None;
  max_citations_per_delta _ := Some 1%nat;
  emits_sse_done_terminator _ := false;
  ingress_is_eventstream _ := false }.
Next Obligation. by intros _ n [= <-]. Qed.

(** ** What a written event says when it is read back *)
Definition octets_event (ev : IrStreamEvent) : Prop :=
  match ev with
  | MessageStart _ _ id _ model => octets_opt id = true /\ octets_opt model = true
  | BlockStart _ (ToolUseBlock id name) => octets id = true /\ octets name = true
  | BlockDelta _ (TextDelta s | ThinkingDelta s | InputJsonDelta s | SignatureDelta s | RedactedReasoningDelta s) =>
      octets s = true
  | MessageDelta _ stop_sequence _ => octets_opt stop_sequence = true
  | _ => True
  end.

Definition clamp_index (i : nat) : nat := Nat.min i (Z.to_nat MAX_ANTHROPIC_BLOCK_INDEX).

(** The event as the dialect can say it: a start has an identity and a usage, indices are bounded, one
    citation a delta, a stop reason and an error of the vocabulary. *)
Definition settle (synth : bytes) (ev : IrStreamEvent) : IrStreamEvent :=
  match ev with
  | MessageStart role usage id _ model =>
      MessageStart role (Some (default IrUsage.zero usage)) (Some (default synth id)) None
        (match model with Some [] => None | m => m end)
  | BlockStart i b => BlockStart (clamp_index i) b
  | BlockDelta i (CitationsDelta cs) =>
      BlockDelta (clamp_index i) (CitationsDelta (match cs with c :: _ => [read_citation (write_citation c)] | [] => [] end))
  | BlockDelta i d => BlockDelta (clamp_index i) d
  | BlockStop i => BlockStop (clamp_index i)
  | MessageDelta stop_reason stop_sequence usage =>
      MessageDelta ((fun r => read_anthropic_stop_reason (write_anthropic_stop_reason r)) <$> stop_reason)
        stop_sequence usage
  | MessageStop => MessageStop
  | Error err => Error (mkSignal (stream_error_class (provider_signal err)) (provider_signal err) None)
  end.

Lemma read_index i l : map_get "index" l = Some (json_index i) ->
  read_clamped_block_index (Object l) = Some (clamp_index i).
Proof.
  intros E. unfold read_clamped_block_index, get_u64. cbn [members]. rewrite E. cbn. unfold clamp_index.
  f_equal. lia.
Qed.

Definition one (o : option IrStreamEvent) : list IrStreamEvent := match o with Some ev => [ev] | None => [] end.

Lemma dispatch v :
  anthropic_read_events EVT_MESSAGE_START v = one (read_message_start v) /\
  anthropic_read_events EVT_CONTENT_BLOCK_DELTA v = one (read_block_delta v) /\
  anthropic_read_events EVT_CONTENT_BLOCK_STOP v = one (BlockStop <$> read_clamped_block_index v) /\
  anthropic_read_events EVT_MESSAGE_DELTA v = one (read_message_delta v) /\
  anthropic_read_events EVT_MESSAGE_STOP v = [MessageStop] /\
  anthropic_read_events EVT_ERROR v = one (read_stream_error v).
Proof. done. Qed.

Lemma dispatch_block_start v b : get "content_block" v = Some b -> get_str "type" b <> Some "redacted_thinking"%string ->
  anthropic_read_events EVT_CONTENT_BLOCK_START v = one (read_block_start v).
Proof.
  intros E Hne. unfold anthropic_read_events. 
  replace (read_redacted_start EVT_CONTENT_BLOCK_START v) with (@None (list IrStreamEvent)); [done|].
  unfold read_redacted_start. rewrite bool_decide_true by done. rewrite E. by rewrite bool_decide_false.
Qed.

Lemma start_reads_back synth role usage id created model :
  octets synth = true -> octets_opt id = true -> octets_opt model = true ->
  match anthropic_write_event synth (MessageStart role usage id created model) with
  | Some (t, v) => anthropic_read_events t v = [settle synth (MessageStart role usage id created model)]
  | None => role = System \/ role = Tool
  end.
Proof.
  intros Hs Hi Hm. assert (octets (default synth id) = true) as Hid by by destruct id.
  destruct role; cbn [anthropic_write_event settle]; auto; unfold typed_event, json_obj;
    rewrite (proj1 (dispatch _)); unfold read_message_start; cbn [get]; read_members; cbn [get]; unfold get_str; cbn [get];
    read_members; eval_keys; cbn [one members]; rewrite read_written_usage;
    by rewrite (read_written_model model) by (done || by json_get).
Qed.

Lemma block_start_reads_back synth i b : octets_event (BlockStart i b) ->
  match anthropic_write_event synth (BlockStart i b) with
  | Some (t, v) => anthropic_read_events t v = [settle synth (BlockStart i b)]
  | None => False
  end.
Proof.
  intros Ho. cbn [anthropic_write_event settle]. unfold typed_event, json_obj.
  rewrite (dispatch_block_start _ (write_block_meta b)).
  - unfold read_block_start. rewrite (read_index i) by (by read_members). cbn [get]. read_members.
    destruct b as [| |id nm|]; cbn [write_block_meta octets_event] in *; unfold json_obj, get_str; cbn [get];
      try (read_members; by eval_keys). destruct Ho as [H1 H2]. read_members. by eval_keys.
  - cbn [get]. by read_members.
  - destruct b as [| |id nm|]; cbn [write_block_meta]; unfold json_obj, get_str; cbn [get]; by read_members.
Qed.

Lemma delta_reads_back synth i d : octets_event (BlockDelta i d) ->
  match anthropic_write_event synth (BlockDelta i d) with
  | Some (t, v) => anthropic_read_events t v = [settle synth (BlockDelta i d)]
  | None => match d with RedactedReasoningDelta _ | LogprobsDelta _ | CitationsDelta [] => True | _ => False end
  end.
Proof.
  intros Ho. cbn [anthropic_write_event].
  destruct d as [s|s|s|s|s|[|c cs]|ls]; cbn [write_delta head]; try done; unfold typed_event, json_obj;
    rewrite (proj1 (proj2 (dispatch _))); unfold read_block_delta; rewrite (read_index i) by (by read_members);
    cbn [get settle octets_event get_first foldr] in *; unfold get_str; cbn [get]; read_members; cbn [get]; read_members; by eval_keys.
Qed.

Lemma message_delta_reads_back synth sr ss u : octets_opt ss = true ->
  match anthropic_write_event synth (MessageDelta sr ss u) with
  | Some (t, v) => anthropic_read_events t v = [settle synth (MessageDelta sr ss u)]
  | None => False
  end.
Proof.
  intros Ho. cbn [anthropic_write_event settle]. unfold typed_event, json_obj.
  rewrite (proj1 (proj2 (proj2 (proj2 (dispatch _))))). unfold read_message_delta. cbn [get]. read_members.
  unfold get_str. cbn [get default from_option members]. read_members. cbn [default from_option members].
  unfold id. rewrite read_written_usage. cbn [one]. destruct sr as [r|], ss as [s|]; cbn in *; rewrite ?of_bytes_inv by done; done.
Qed.

Lemma error_reads_back synth err :
  match anthropic_write_event synth (Error err) with
  | Some (t, v) => anthropic_read_events t v = [settle synth (Error err)]
  | None => False
  end.
Proof.
  cbn [anthropic_write_event settle]. unfold typed_event, json_obj.
  rewrite (proj2 (proj2 (proj2 (proj2 (proj2 (dispatch _)))))). unfold read_stream_error. cbn [get]. read_members.
  unfold get_str. cbn [get]. read_members. cbn [one]. by destruct (provider_signal err).
Qed.

(** A stream event written for an Anthropic client reads back as the same event, up to what the
    dialect can say: a start always has an identity and a usage, an index is bounded by 1023, a delta
    carries one citation, a stop reason or an error class outside the vocabulary becomes the nearest one
    in it.  Only opaque reasoning and log-probability deltas, an empty citation delta and starts of
    another role are not written at all. *)
Theorem written_event_reads_back synth ev : octets synth = true -> octets_event ev ->
  match anthropic_write_event synth ev with
  | Some (t, v) => anthropic_read_events t v = [settle synth ev]
  | None => match ev with
            | MessageStart (System | Tool) _ _ _ _ => True
            | BlockDelta _ (RedactedReasoningDelta _ | LogprobsDelta _ | CitationsDelta []) => True
            | _ => False
            end
  end.
Proof.
  intros Hs Ho. destruct ev as [role usage id created model|i b|i d|i|sr ss u| |err].
  - destruct Ho as [Hi Hm]. pose proof (start_reads_back synth role usage id created model Hs Hi Hm) as E.
    destruct (anthropic_write_event _ _) as [[]|]; [done|]. by destruct E as [-> | ->].
  - by apply block_start_reads_back.
  - by apply delta_reads_back.
  - cbn [anthropic_write_event settle]. unfold typed_event, json_obj. rewrite (proj1 (proj2 (proj2 (dispatch _)))).
    by rewrite (read_index i) by (by read_members).
  - by apply message_delta_reads_back.
  - done.
  - apply error_reads_back.
Qed.

(** ** One class of error, whichever way it arrives *)

(** The statuses and types of the API's error vocabulary, billing apart. *)
Definition native_errors : list (Z * string) :=
  [(400, ERR_TYPE_INVALID_REQUEST); (401, ERR_TYPE_AUTHENTICATION); (403, ERR_TYPE_PERMISSION);
   (404, ERR_TYPE_NOT_FOUND); (413, ERR_TYPE_REQUEST_TOO_LARGE); (429, ERR_TYPE_RATE_LIMIT);
   (500, ERR_TYPE_API_ERROR); (504, ERR_TYPE_TIMEOUT); (529, ERR_TYPE_OVERLOADED)].

(** The body the API sends with an error. *)
Definition error_body (ty : string) : Value := json_obj [("type", Str "error"); ("error", json_obj [("type", Str ty)])].

(** A native error makes the breaker take the same step when it is the status and body of a response and
    when it arrives in the middle of a stream. *)
Theorem error_paths_agree status ty body w :
  (status, ty) ∈ native_errors -> parse_text body = Some (error_body ty) -> mentions_context_length body = false ->
  exists ev, anthropic_read_events EVT_ERROR (error_body ty) = [Error ev] /\
    classify (normalize_raw_error (extract_error status body) ∅ w).1 = classify ev.
Proof.
  intros Hin Hp Hc. eexists. split.
  { rewrite (proj2 (proj2 (proj2 (proj2 (proj2 (dispatch _)))))). unfold read_stream_error, error_body, json_obj, get_str.
    cbn [get]. read_members. cbn [get]. by read_members. }
  unfold extract_error. rewrite Hp, Hc.
  unfold native_errors in Hin. rewrite !elem_of_cons, elem_of_nil in Hin.
  repeat (destruct Hin as [[= -> ->]|Hin]; [by vm_compute|]). done.
Qed.

End AnthropicStream.

(** ** Examples *)

(** The billing error is the exception: as a response (status 402) it is the client's fault and the lane
    stays up, in a stream it takes the lane down. *)
Example billing_paths_differ :
  classify (mkSignal (status_class 402) None None) = Disposition.ClientFault /\
  classify (mkSignal (stream_error_class (Some "billing_error"%string)) None None) = Disposition.HardDown.
Proof. done. Qed.

Section Example.
#[local] Instance demo_text : JsonText := { parse_text _ := Some (error_body ERR_TYPE_OVERLOADED); print_text _ := [] }.

Lemma error_paths_agree_witness :
  exists ev, anthropic_read_events EVT_ERROR (error_body ERR_TYPE_OVERLOADED) = [Error ev] /\
    classify (normalize_raw_error (extract_error 529 []) ∅ (mkWarnings ∅ [])).1 = classify ev.
Proof.
  apply (error_paths_agree 529 ERR_TYPE_OVERLOADED [] (mkWarnings ∅ [])); [|done..].
  unfold native_errors. set_solver.
Defined.

Lemma written_event_reads_back_witness :
  match anthropic_write_event (bytes_of "msg_01") (MessageStart Assistant None None (Some 7) (Some (bytes_of "m"))) with
  | Some (t, v) => anthropic_read_events t v =
      [MessageStart Assistant (Some IrUsage.zero) (Some (bytes_of "msg_01")) None (Some (bytes_of "m"))]
  | None => False
  end.
Proof.
  exact (written_event_reads_back (bytes_of "msg_01") (MessageStart Assistant None None (Some 7) (Some (bytes_of "m")))
           eq_refl (conj eq_refl eq_refl)).
Defined.
End Example.
