(* ===== verification/OpenAi.v ===== *)
(** * The Chat Completions dialect (crates/busbar/src/proto/openai_chat, openai_family.rs, proto/mod.rs)

    Reading and writing of chat completion requests and responses on JSON trees: content parts, image
    URLs, tool calls with their arguments as JSON text, tools, tool choice, the response format, log
    probabilities, usage with its cached share, and errors.  Warnings are not modelled.  The identifier
    and the clock a writer falls back on are arguments. *)
From stdpp Require Import base list strings gmap.
From Stdlib Require Import ZArith Lia SpecFloat.
From S2P Require Import Prelude Breaker Cell EventStream EventStreamFacts Sse Ir Translate IrSeam Json JsonTree Anthropic.
Open Scope Z_scope.
Open Scope rust_scope.

Module OpenAi.
Section OpenAi.
Context {T : JsonText}.

Definition DEFAULT_MODEL : bytes := Eval cbv in bytes_of "gpt-4o".
Definition model_or_default (model : option bytes) : bytes := default DEFAULT_MODEL model.

(** ** Stop reasons *)
Definition read_openai_stop_reason (token : string) : IrStopReason :=
  if String.eqb token "stop" then EndTurn
  else if String.eqb token "length" then MaxTokens
  else if String.eqb token "tool_calls" || String.eqb token "function_call" then ToolUse
  else if String.eqb token "content_filter" then Safety
  else OtherStop.

Definition write_openai_stop_reason (reason : IrStopReason) : string :=
  match reason with
  | EndTurn | StopSequence => "stop"
  | MaxTokens => "length"
  | ToolUse => "tool_calls"
  | Safety => "content_filter"
  | Refusal | ErrorStop | PauseTurn | OtherStop => "stop"
  end.

(** ** Response format *)
Definition read_openai_response_format (v : Value) : option IrResponseFormat :=
  let? o := as_object v in
  let? t := (t ← map_get "type" o; Json.as_str t) in
  if String.eqb t "text" then Some (mk_format false None None None None)
  else if String.eqb t "json_schema" then
    let js := default [] (members <$> map_get "json_schema" o) in
    Some (mk_format true (map_get "schema" js) (get_text "name" js) (get_bool "strict" js) (get_text "description" js))
  else Some (mk_format true None None None None).

Definition write_openai_response_format (rf : IrResponseFormat) : Value :=
  if negb (json_mode rf) then json_obj [("type", Str "text")]
  else match schema rf with
  | Some schema =>
      let js := insert_opt "description" (json_str <$> format_description rf)
        (insert_opt "strict" (Bool <$> strict rf)
          (insert_all [("name", json_str (default (bytes_of "response") (format_name rf))); ("schema", schema)] [])) in
      json_obj [("type", Str "json_schema"); ("json_schema", Object js)]
  | None => json_obj [("type", Str "json_object")]
  end.

(** ** Log probabilities *)
Definition read_bytes (e : Map) : option (list Z) :=
  let? v := map_get "bytes" e in
  let? arr := as_array v in
  Some (omap (fun b => n ← as_u64 b; if n <=? 255 then Some n else None) arr).

Definition read_top_logprob (t : Value) : option IrTopLogprob.t :=
  let m := members t in
  let? token := get_text "token" m in
  let? logprob := get_f64 "logprob" m in
  Some (IrTopLogprob.mk token logprob (read_bytes m)).

Definition read_token_logprob (e : Value) : option IrTokenLogprob.t :=
  let m := members e in
  let? token := get_text "token" m in
  let? logprob := get_f64 "logprob" m in
  Some (IrTokenLogprob.mk token logprob (read_bytes m)
          (omap read_top_logprob (elements (map_get "top_logprobs" m)))).

Definition read_openai_logprobs (v : option Value) : list IrTokenLogprob.t :=
  match lp ← v; get_array "content" lp with Some entries => omap read_token_logprob entries | None => [] end.

Definition json_bytes (b : list Z) : Value := Array (json_u64 <$> b).

Definition write_top_logprob (t : IrTopLogprob.t) : Value :=
  json_obj [("token", json_str (IrTopLogprob.token t)); ("logprob", json_f64 (IrTopLogprob.logprob t));
            ("bytes", json_bytes (default (IrTopLogprob.token t) (IrTopLogprob.raw_bytes t)))].

Definition write_token_logprob (lp : IrTokenLogprob.t) : Value :=
  json_obj [("token", json_str (IrTokenLogprob.token lp)); ("logprob", json_f64 (IrTokenLogprob.logprob lp));
            ("bytes", json_bytes (default (IrTokenLogprob.token lp) (IrTokenLogprob.raw_bytes lp)));
            ("top_logprobs", Array (write_top_logprob <$> IrTokenLogprob.top lp))].

Definition write_openai_logprobs (lps : list IrTokenLogprob.t) : Value :=
  json_obj [("content", Array (write_token_logprob <$> lps))].

(** ** Images *)

(** [str::split_once] and the first item of [str::split]. *)
Fixpoint split_once_byte (c : Z) (b : bytes) : option (bytes * bytes) :=
  match b with
  | [] => None
  | x :: b => if x =? c then Some ([], b)
              else match split_once_byte c b with Some (l, r) => Some (x :: l, r) | None => None end
  end.
Definition split_first (c : Z) (b : bytes) : bytes := match split_once_byte c b with Some (l, _) => l | None => b end.

Definition parse_image_url (url : bytes) : IrImageSource :=
  match (rest ← strip_bytes (bytes_of "data:") url; split_once_byte 44 rest) with
  | Some (meta, payload) =>
      let media_type := split_first 59 meta in
      if contains_bytes (bytes_of "base64") meta && negb (bool_decide (media_type = []))
      then SourceBase64 media_type payload else SourceUrl url
  | None => SourceUrl url
  end.

Definition image_url_from_ir (source : IrImageSource) : option bytes :=
  match source with
  | SourceUrl url => Some url
  | SourceBase64 media_type data => Some (bytes_of "data:" ++ media_type ++ bytes_of ";base64," ++ data)
  | SourceVendor _ _ => None
  end.

(** ** Content parts, tools and tool choice *)
Definition tool_arguments_to_string (input : Value) : bytes :=
  match input with Str s => bytes_of s | other => print_text other end.

Definition read_openai_block (block_val : Value) : Result IrBlock :=
  match as_object block_val with
  | None => inl ir_parse
  | Some obj =>
      let block_type := default ""%string (v ← map_get "type" obj; Json.as_str v) in
      if String.eqb block_type "text" then inr (Text (default [] (get_text "text" obj)) None [])
      else if String.eqb block_type "image_url" then
        match map_get "image_url" obj with
        | None => inl ir_parse
        | Some image_obj => inr (Image (parse_image_url (default [] (get_text "url" (members image_obj)))) None)
        end
      else if String.eqb block_type "refusal" then inr (Text (default [] (get_text "refusal" obj)) None [])
      else inr (Text [] None [])
  end.

Definition read_openai_tool (tool_val : Value) : Result IrTool :=
  match as_object tool_val with
  | None => inl ir_parse
  | Some obj =>
      let src := match (f ← map_get "function" obj; as_object f) with Some f => f | None => obj end in
      inr (mk_tool (default [] (get_text "name" src)) (get_text "description" src)
             (default Null (get_first ["parameters"; "input_schema"] src)) None None)
  end.

Definition read_openai_tool_choice (val : option Value) : option IrToolChoice :=
  match val with
  | Some (Str s) =>
      if String.eqb s "auto" then Some ChoiceAuto
      else if String.eqb s "none" then Some ChoiceNone
      else if String.eqb s "required" then Some ChoiceRequired
      else None
  | Some (Object o) =>
      if bool_decide ((v ← map_get "type" o; Json.as_str v) = Some "function"%string)
      then ChoiceTool <$> (f ← map_get "function" o; get_text "name" (members f)) else None
  | _ => None
  end.

Definition write_openai_tool_choice (tc : IrToolChoice) : Value :=
  match tc with
  | ChoiceAuto => Str "auto"
  | ChoiceNone => Str "none"
  | ChoiceRequired => Str "required"
  | ChoiceTool name => json_obj [("type", Str "function"); ("function", json_obj [("name", json_str name)])]
  end.

Definition write_openai_tool (tool : IrTool) : Value :=
  let function_obj := map_insert "parameters" (match input_schema tool with Null => json_obj [] | s => s end)
    (insert_opt "description" (json_str <$> description tool) (map_insert "name" (json_str (name tool)) [])) in
  json_obj [("type", Str "function"); ("function", Object function_obj)].

(** ** Tool calls *)

(** Arguments that are not JSON are kept as their text. *)
Definition read_input (arguments : bytes) : Value := default (Str (of_bytes arguments)) (parse_text arguments).

Definition read_tool_call (tc_val : Value) : Result IrBlock :=
  match get "function" tc_val with
  | None => inl ir_parse
  | Some func =>
      inr (ToolUse_ (default [] (get_text "id" (members tc_val))) (default [] (get_text "name" (members func)))
             (read_input (default (bytes_of "{}") (get_text "arguments" (members func)))) None)
  end.

Definition read_tool_calls (msg_val : Value) : Result (list IrBlock) :=
  collect read_tool_call (elements (get "tool_calls" msg_val)).

Definition write_tool_call (block : IrBlock) : option Value :=
  match block with
  | ToolUse_ id name input _ =>
      Some (json_obj [("type", Str "function"); ("id", json_str id);
              ("function", json_obj [("name", json_str name); ("arguments", json_str (tool_arguments_to_string input))])])
  | _ => None
  end.

(** ** Messages *)

(** A plain string or an array of parts; anything else has none. *)
Definition read_parts (content_val : option Value) : Result (list IrBlock) :=
  match content_val with
  | Some (Str text) => inr [Text (bytes_of text) None []]
  | Some (Array arr) => collect read_openai_block arr
  | _ => inr []
  end.

Definition read_role (role_str : string) : Result IrRole :=
  if String.eqb role_str "developer" || String.eqb role_str "system" then inr System
  else if String.eqb role_str "user" then inr User
  else if String.eqb role_str "assistant" then inr Assistant
  else if String.eqb role_str "tool" then inr Tool
  else inl ir_parse.

(** The text of a tool message: parts that are not text add nothing. *)
Definition tool_content_text (content_val : option Value) : bytes :=
  match content_val with
  | Some (Str s) => bytes_of s
  | Some (Array parts) =>
      concat ((fun part => match read_openai_block part with inr (Text text _ _) => text | _ => [] end) <$> parts)
  | _ => []
  end.

Definition read_openai_message (msg_val : Value) : Result IrMessage :=
  let! role := read_role (default ""%string (get_str "role" msg_val)) in
  let content_val := get "content" msg_val in
  match role with
  | System =>
      let! blocks := read_parts content_val in
      inr (mk_message System (match blocks with [] => [Text [] None []] | _ => blocks end))
  | User => let! parts := read_parts content_val in inr (mk_message User parts)
  | Assistant =>
      let! parts := read_parts content_val in
      let! calls := read_tool_calls msg_val in
      inr (mk_message Assistant (parts ++ calls))
  | Tool =>
      inr (mk_message Tool
             [ToolResult (default [] (get_text "tool_call_id" (members msg_val)))
                [Text (tool_content_text content_val) None []] false None])
  end.

(** What is left of a block in the content of a message. *)
Definition write_part (block : IrBlock) : option Value :=
  match block with
  | Text text _ _ => Some (json_obj [("type", Str "text"); ("text", json_str text)])
  | Image source _ =>
      (fun url => json_obj [("type", Str "image_url"); ("image_url", json_obj [("url", json_str url)])])
        <$> image_url_from_ir source
  | ToolUse_ _ _ _ _ | ToolResult _ _ _ _ | Thinking _ _ _ _ | JsonBlock _ => None
  end.

Definition openai_role (r : IrRole) : string :=
  match r with User => "user" | Assistant => "assistant" | Tool => "tool" | System => "system" end.

Definition text_of (b : IrBlock) : option bytes := match b with Text text _ _ => Some text | _ => None end.

Definition write_tool_result (block : IrBlock) : option Value :=
  match block with
  | ToolResult tool_use_id content _ _ =>
      Some (json_obj [("role", Str "tool"); ("tool_call_id", json_str tool_use_id);
                      ("content", json_str (concat (omap text_of content)))])
  | _ => None
  end.

(** The entries of one message: its tool results, and itself unless nothing is left of it. *)
Definition write_openai_message (msg : IrMessage) : list Value :=
  let content_val :=
    match content msg with
    | [] => Str ""
    | blocks => match omap write_part blocks with [] => Null | parts => Array parts end
    end in
  let msg_obj := insert_opt "tool_calls" (array_opt (omap write_tool_call (content msg)))
    (insert_all [("role", Str (openai_role (role msg))); ("content", content_val)] []) in
  match omap write_tool_result (content msg) with
  | [] => [Object msg_obj]
  | results =>
      let msg_has_payload :=
        match map_get "content" msg_obj with Some Null | None => false | _ => true end ||
        match map_get "tool_calls" msg_obj with Some _ => true | None => false end in
      if msg_has_payload then results ++ [Object msg_obj] else results
  end.

Definition system_text (block : IrBlock) : bytes :=
  match block with Text text _ _ | Thinking text _ _ _ => text | _ => [] end.

Definition write_system (block : IrBlock) : Value :=
  json_obj [("role", Str "system"); ("content", json_str (system_text block))].

(** ** Requests *)
Definition MODELED_KEYS : list string :=
  ["model"; "messages"; "tools"; "max_tokens"; "max_completion_tokens"; "temperature"; "top_p"; "stop"; "stream";
   "tool_choice"; "frequency_penalty"; "presence_penalty"; "seed"; "n"; "response_format"; "user";
   "parallel_tool_calls"; "logprobs"; "top_logprobs"; "reasoning_effort"].

Definition unmodeled (k : string) : bool := negb (existsb (String.eqb k) MODELED_KEYS).

Definition MAX_COMPLETION_TOKENS_SENTINEL : string := "__busbar_max_completion_tokens".

(** [messages] must be an array when it is there. *)
Definition message_values (val : option Value) : Result (list Value) :=
  match val with None => inr [] | Some v => match as_array v with Some l => inr l | None => inl ir_parse end end.

Definition positive_u32 (v : option Value) : option Z :=
  v ← v; v ← as_u64 v; v ← u32 v; if 0 <? v then Some v else None.

Definition has_key (k : string) (m : Map) : bool := bool_decide (is_Some (map_get k m)).

Definition read_request (body : Value) : Result IrRequest :=
  match as_object body with
  | None => inl ir_parse
  | Some obj =>
      let max_tokens := positive_u32 (get_first ["max_tokens"; "max_completion_tokens"] obj) in
      let max_completion_tokens_was_source := negb (has_key "max_tokens" obj) && has_key "max_completion_tokens" obj in
      let! msg_vals := message_values (map_get "messages" obj) in
      let! msgs := collect read_openai_message msg_vals in
      let '(system_blocks, messages) := promote [] msgs in
      let! tools := collect read_openai_tool (elements (map_get "tools" obj)) in
      let extra := extra_of unmodeled obj in
      let extra := if max_completion_tokens_was_source && bool_decide (is_Some max_tokens)
                   then <[bytes_of MAX_COMPLETION_TOKENS_SENTINEL := Bool true]> extra else extra in
      inr (mk_request system_blocks messages tools max_tokens (v ← get_u64 "n" obj; u32 v)
             (Effort <$> (s ← get_text "reasoning_effort" obj; parse_effort s)) None
             (mk_controls (get_f64 "temperature" obj) (get_f64 "top_p" obj) None
                (get_f64 "frequency_penalty" obj) (get_f64 "presence_penalty" obj) (get_i64 "seed" obj)
                (get_bool "logprobs" obj) (v ← get_u64 "top_logprobs" obj; u32 v)
                (v ← map_get "response_format" obj; read_openai_response_format v)
                (read_stop_sequences (map_get "stop" obj))
                (read_openai_tool_choice (map_get "tool_choice" obj))
                (get_text "user" obj) (get_bool "parallel_tool_calls" obj) (default false (get_bool "stream" obj)))
             extra)
  end.

(** The spelling the cap arrived in. *)
Definition max_tokens_key (extra : gmap bytes Value) : string :=
  if default false (v ← extra !! bytes_of MAX_COMPLETION_TOKENS_SENTINEL; as_bool v)
  then "max_completion_tokens" else "max_tokens".

Definition request_members (req : IrRequest) : Map :=
  let c := controls req in
  let messages_array := (write_system <$> system req) ++ concat (write_openai_message <$> messages req) in
  let out := insert_opt "model" (extra req !! bytes_of "model") [] in
  let out := map_insert "messages" (Array messages_array) out in
  let out := insert_opt (max_tokens_key (extra req)) (json_u64 <$> max_tokens req) out in
  let out := insert_opt "temperature" (json_f64 <$> temperature c) out in
  let out := insert_opt "top_p" (json_f64 <$> top_p c) out in
  let out := insert_opt "stop" (array_opt (json_str <$> stop c)) out in
  let out := insert_opt "frequency_penalty" (json_f64 <$> frequency_penalty c) out in
  let out := insert_opt "presence_penalty" (json_f64 <$> presence_penalty c) out in
  let out := insert_opt "seed" (json_i64 <$> seed c) out in
  let out := insert_opt "n" (json_u64 <$> n req) out in
  let out := insert_opt "user" (json_str <$> user c) out in
  let out := insert_opt "parallel_tool_calls"
    (match tools req with [] => None | _ => Bool <$> parallel_tool_calls c end) out in
  let out := insert_opt "reasoning_effort"
    ((fun ask => json_str (as_openai_reasoning_effort
        (to_effort ask (default REASONING_BUDGET_DEFAULTS (reasoning_budgets req))))) <$> reasoning req) out in
  let out := insert_opt "logprobs"
    (match top_logprobs c with Some _ => Some (Bool true) | None => Bool <$> logprobs c end) out in
  let out := insert_opt "top_logprobs" (json_u64 <$> top_logprobs c) out in
  let out := insert_opt "response_format" (write_openai_response_format <$> response_format c) out in
  let out := map_insert "stream" (Bool (stream c)) out in
  let out := insert_opt "tools" (array_opt (write_openai_tool <$> tools req)) out in
  insert_opt "tool_choice" (write_openai_tool_choice <$> tool_choice c) out.

Definition write_request (req : IrRequest) : Value :=
  Object (insert_extra (delete (bytes_of MAX_COMPLETION_TOKENS_SENTINEL) (extra req)) (request_members req)).

(** ** Usage: the prompt count of the API includes the cached share *)
Definition read_openai_usage (u : Map) : IrUsage.t :=
  let cached := get_u64 "cached_tokens" (default [] (members <$> map_get "prompt_tokens_details" u)) in
  IrUsage.mk (sat_sub_u64 (default 0 (get_u64 "prompt_tokens" u)) (default 0 cached))
    (default 0 (get_u64 "completion_tokens" u)) None cached.

Definition prompt_tokens (u : IrUsage.t) : Z :=
  sat_add_u64 (sat_add_u64 (IrUsage.input_tokens u) (default 0 (IrUsage.cache_read_input_tokens u)))
    (default 0 (IrUsage.cache_creation_input_tokens u)).

Definition write_openai_usage (u : IrUsage.t) : Map :=
  insert_opt "prompt_tokens_details"
    ((fun cached => json_obj [("cached_tokens", json_u64 cached)]) <$> IrUsage.cache_read_input_tokens u)
    (insert_all [("prompt_tokens", json_u64 (prompt_tokens u)); ("completion_tokens", json_u64 (IrUsage.output_tokens u));
                 ("total_tokens", json_u64 (sat_add_u64 (prompt_tokens u) (IrUsage.output_tokens u)))] []).

(** ** Responses *)
Definition is_image (b : IrBlock) : bool := match b with Image _ _ => true | _ => false end.

(** Reasoning under either of its names, the first that is not empty. *)
Definition read_reasoning_text (m : Map) : list IrBlock :=
  match omap (fun k => s ← get_text k m; if bool_decide (s = []) then None else Some s)
          ["reasoning_content"; "reasoning"]%string with
  | s :: _ => [Thinking s None false None]
  | [] => []
  end.

Definition read_response_content (content_val : option Value) : Result (list IrBlock) :=
  match content_val with
  | Some (Str text) => inr (if is_empty text then [] else [Text (bytes_of text) None []])
  | Some (Array arr) =>
      let! blocks := collect read_openai_block arr in inr (List.filter (fun b => negb (is_image b)) blocks)
  | _ => inr []
  end.

Definition read_response (body : Value) : Result IrResponse :=
  match as_object body with
  | None => inl ir_parse
  | Some obj =>
      match (c ← map_get "choices" obj; as_array c) with
      | Some (choice :: _) =>
          match get "message" choice with
          | None => inl ir_parse
          | Some message_val =>
              let! parts := read_response_content (get "content" message_val) in
              let! calls := read_tool_calls message_val in
              let finish_reason := default ""%string (get_str "finish_reason" choice) in
              inr (mk_response Assistant (read_reasoning_text (members message_val) ++ parts ++ calls)
                     (if is_empty finish_reason then None else Some (read_openai_stop_reason finish_reason))
                     (read_openai_usage (default [] (members <$> map_get "usage" obj)))
                     (get_text "model" obj) (get_text "id" obj) (get_u64 "created" obj)
                     (get_text "system_fingerprint" obj) None (read_openai_logprobs (get "logprobs" choice)))
          end
      | _ => inl ir_parse
      end
  end.

(** [synth] is the answer of [synth_completion_id], [now] of the clock. *)
Definition write_response (synth : bytes) (now : Z) (resp : IrResponse) : Value :=
  let text_parts := omap text_of (resp_content resp) in
  let message_obj := insert_opt "tool_calls" (array_opt (omap write_tool_call (resp_content resp)))
    (insert_all [("role", Str "assistant");
                 ("content", match text_parts with [] => Null | _ => json_str (concat text_parts) end)] []) in
  let choice_obj := map_insert "finish_reason"
    (match stop_reason resp with Some r => Str (write_openai_stop_reason r) | None => Null end)
    (insert_opt "logprobs" (match resp_logprobs resp with [] => None | lps => Some (write_openai_logprobs lps) end)
      (insert_all [("index", json_u64 0); ("message", Object message_obj)] [])) in
  Object
    (insert_all [("choices", Array [Object choice_obj]); ("usage", Object (write_openai_usage (resp_usage resp)))]
      (insert_opt "system_fingerprint" (json_str <$> system_fingerprint resp)
        (insert_all [("id", json_str (default synth (resp_id resp))); ("object", Str "chat.completion");
                     ("created", json_u64 (default now (created resp)));
                     ("model", json_str (model_or_default (model resp)))] []))).

(** ** Errors *)
Definition openai_context_length_prose_scan (text : bytes) : bool :=
  contains_bytes (bytes_of "maximum context length") text || contains_bytes (bytes_of "context length exceeded") text ||
  contains_bytes (bytes_of "reduce the length") text ||
  (contains_bytes (bytes_of "exceeds") text &&
   (contains_bytes (bytes_of "context") text || contains_bytes (bytes_of "token limit") text)).

Definition extract_error (status : Z) (body : bytes) : RawUpstreamError :=
  let error_obj := (j ← parse_text body; e ← get "error" j; as_object e) in
  let provider_code := (e ← error_obj; v ← map_get "code" e; Json.as_str v) in
  let structured_type := (e ← error_obj; v ← map_get "type" e; Json.as_str v) in
  let provider_code :=
    match provider_code with
    | Some c => Some c
    | None =>
        if negb ((status =? 400) || (status =? 413)) then None
        else let message := lossy_lowercase (default [] (e ← error_obj; get_text "message" e)) in
             if openai_context_length_prose_scan message then Some PROVIDER_CODE_CONTEXT_LENGTH else None
    end in
  mkRaw status provider_code structured_type None.

Definition bearer_error_code (error_type : string) : Value :=
  if String.eqb error_type "authentication_error" then Str "invalid_api_key"
  else if String.eqb error_type "insufficient_quota" then Str "insufficient_quota"
  else Null.

Definition one_of (k : string) (l : list string) : bool := existsb (String.eqb k) l.

Definition openai_error_type (status : Z) (kind : string) : string :=
  if one_of kind ["invalid_request_error"; "invalid_request"; "bad_request"] then "invalid_request_error"
  else if one_of kind ["authentication_error"; "unauthorized"; "auth"] then "authentication_error"
  else if one_of kind ["permission_error"; "permission_denied"; "forbidden"] then "permission_error"
  else if one_of kind ["not_found_error"] then "not_found_error"
  else if one_of kind ["rate_limit_error"; "rate_limit"; "too_many_requests"] then "rate_limit_error"
  else if one_of kind ["server_error"; "internal_error"; "internal_server_error"] then "server_error"
  else if one_of kind ["api_error"] then "api_error"
  else if one_of kind ["insufficient_quota"] then "insufficient_quota"
  else if one_of kind ["overloaded"; "overloaded_error"; "service_unavailable"; "unavailable"; "transient"; "timeout";
                       "network"; "5xx"] then "server_error"
  else if one_of kind ["context_length_exceeded"] then "invalid_request_error"
  else if is_empty kind then (if (500 <=? status) && (status <? 600) then "server_error" else "invalid_request_error")
  else kind.

Definition error_object (message : bytes) (error_type : string) : Value :=
  json_obj [("error", json_obj [("message", json_str message); ("type", Str error_type); ("param", Null);
                                ("code", bearer_error_code error_type)])].

Definition write_error (status : Z) (kind : string) (message : bytes) : Value :=
  error_object message (openai_error_type status kind).
End OpenAi.
End OpenAi.
