(* ===== verification/OpenAiStream.v ===== *)
(** * Chat Completions streams (crates/busbar/src/proto/openai_chat)

    The stream of chat completion chunks is flat: it has no block boundaries and may carry a role, text,
    several tool calls, log probabilities, usage and a finish reason in one chunk.  The reader is a state
    machine that makes the block structure up; the writer emits a chunk per event; the framing shapes
    what a Chat Completions client receives (one identity, tool calls numbered from zero, usage only for
    the clients that asked).  All three are instances of the interfaces of [Ir]. *)
From stdpp Require Import base list strings gmap gmultiset.
From Stdlib Require Import ZArith Lia SpecFloat.
From S2P Require Import Prelude Breaker Cell EventStream EventStreamFacts Sse Ir Translate IrSeam Json JsonTree Anthropic OpenAi.
Import OpenAi.
Open Scope Z_scope.
Open Scope rust_scope.

Definition MAX_TOOL_INDEX : Z := 127.
Definition MAX_OPEN_TOOLS : nat := 128.
Definition OBJ_CHUNK : string := "chat.completion.chunk".

(** ** The decode state, and what opens and closes blocks in it

    The fields of [StreamDecodeState] this reader uses. *)
Record DecodeState := mk_state {
  started : bool; reasoning_seen : bool; thinking_block_open : bool; text_block_open : bool;
  text_index : option nat; open_tools : list nat; tool_ir_index : gmap nat nat }.

Definition decode_init : DecodeState := mk_state false false false false None [] ∅.

Definition set_started (s : DecodeState) : DecodeState :=
  mk_state true (reasoning_seen s) (thinking_block_open s) (text_block_open s) (text_index s) (open_tools s) (tool_ir_index s).
Definition set_thinking (seen is_open : bool) (s : DecodeState) : DecodeState :=
  mk_state (started s) seen is_open (text_block_open s) (text_index s) (open_tools s) (tool_ir_index s).
Definition set_text (is_open : bool) (index : option nat) (s : DecodeState) : DecodeState :=
  mk_state (started s) (reasoning_seen s) (thinking_block_open s) is_open index (open_tools s) (tool_ir_index s).
Definition set_tools (tools : list nat) (index : gmap nat nat) (s : DecodeState) : DecodeState :=
  mk_state (started s) (reasoning_seen s) (thinking_block_open s) (text_block_open s) (text_index s) tools index.

(** [BTreeSet::insert]. *)
Fixpoint insert_sorted (k : nat) (l : list nat) : list nat :=
  match l with
  | [] => [k]
  | x :: l' => if (k <? x)%nat then k :: l else if (k =? x)%nat then l else x :: insert_sorted k l'
  end.

Section OpenAiStream.
Context {T : JsonText}.

(** A stage reads part of a chunk: the state after it and the events it adds. *)
Notation stage := (DecodeState -> DecodeState * list IrStreamEvent).

Definition then_ (f g : stage) : stage :=
  fun s => let '(s, e1) := f s in let '(s, e2) := g s in (s, e1 ++ e2).

Definition close_thinking : stage := fun s =>
  if thinking_block_open s then (set_thinking (reasoning_seen s) false s, [BlockStop 0]) else (s, []).

Definition start_stage (data : Value) : stage := fun s =>
  if started s then (s, [])
  else (set_started s, [MessageStart Assistant None (get_text "id" (members data)) (get_u64 "created" (members data))
                          (get_text "model" (members data))]).

Definition reasoning_stage (delta : Map) : stage := fun s =>
  match (v ← get_first ["reasoning_content"; "reasoning"] delta; Json.as_str v) with
  | Some reasoning =>
      if text_block_open s || negb (bool_decide (open_tools s = [])) || is_empty reasoning then (s, [])
      else (set_thinking true true s,
            (if thinking_block_open s then [] else [BlockStart 0 ThinkingBlock]) ++
            [BlockDelta 0 (ThinkingDelta (bytes_of reasoning))])
  | None => (s, [])
  end.

(** Open the text block at [ti], behind the thinking block, unless it is open. *)
Definition open_text (ti : nat) : stage := fun s =>
  if text_block_open s then (s, []) else (set_text true (Some ti) s, [BlockStart ti TextBlock]).

Definition text_stage (delta : Map) (ti : nat) : stage := fun s =>
  match get_text "content" delta with
  | Some content =>
      then_ close_thinking (then_ (open_text ti) (fun s => (s, [BlockDelta ti (TextDelta content)]))) s
  | None => (s, [])
  end.

Definition logprobs_stage (entries : list IrTokenLogprob.t) (ti : nat) : stage := fun s =>
  match entries with
  | [] => (s, [])
  | _ =>
      then_ (fun s => if text_block_open s then (s, []) else then_ close_thinking (open_text ti) s)
        (fun s => (s, [BlockDelta (default ti (text_index s)) (LogprobsDelta entries)])) s
  end.

Definition tool_index (tc : Value) : nat :=
  match get_u64 "index" (members tc) with Some v => Z.to_nat (Z.min v MAX_TOOL_INDEX) | None => 0%nat end.

Definition open_tool (ir_idx oai_idx : nat) (tc func : Value) : stage := fun s =>
  match get_text "name" (members func) with
  | Some name =>
      if negb (bool_decide (oai_idx ∈ open_tools s)) && (length (open_tools s) <? MAX_OPEN_TOOLS)%nat
      then (set_tools (insert_sorted oai_idx (open_tools s)) (<[oai_idx := ir_idx]> (tool_ir_index s)) s,
            [BlockStart ir_idx (ToolUseBlock (default [] (get_text "id" (members tc))) name)])
      else (s, [])
  | None => (s, [])
  end.

Definition tool_arguments (ir_idx oai_idx : nat) (func : Value) : stage := fun s =>
  match get_text "arguments" (members func) with
  | Some args =>
      if bool_decide (oai_idx ∈ open_tools s)
      then (s, [BlockDelta (default ir_idx (tool_ir_index s !! oai_idx)) (InputJsonDelta args)])
      else (s, [])
  | None => (s, [])
  end.

Definition tool_stage (text_base offset : nat) (tc : Value) : stage :=
  let oai_idx := tool_index tc in
  let ir_idx := (oai_idx + text_base + offset)%nat in
  let func := default Null (get "function" tc) in
  then_ (open_tool ir_idx oai_idx tc func) (tool_arguments ir_idx oai_idx func).

Fixpoint tools_loop (text_base offset : nat) (tcs : list Value) : stage :=
  match tcs with
  | [] => fun s => (s, [])
  | tc :: tcs => then_ (tool_stage text_base offset tc) (tools_loop text_base offset tcs)
  end.

Definition base_of (s : DecodeState) : nat := match text_index s with Some _ => 1%nat | None => 0%nat end.

Definition tools_stage (delta : Map) (offset : nat) : stage := fun s =>
  match (v ← map_get "tool_calls" delta; as_array v) with
  | Some tcs => then_ close_thinking (tools_loop (base_of s) offset tcs) s
  | None => (s, [])
  end.

Definition close_text (ti : nat) : stage := fun s =>
  if text_block_open s then (set_text false (text_index s) s, [BlockStop ti]) else (s, []).

(** The tools in ascending order, each closed where it was opened. *)
Definition close_tools (offset : nat) : stage := fun s =>
  (set_tools [] ∅ s,
   (fun k => BlockStop (default (k + base_of s + offset)%nat (tool_ir_index s !! k))) <$> open_tools s).

Definition chunk_usage (data : Value) : option IrUsage.t :=
  match get "usage" data with Some (Object u) => Some (read_openai_usage u) | _ => None end.

Definition choice0 (data : Value) : option Value := arr ← get_array "choices" data; head arr.

Definition finish_stage (data : Value) (ti offset : nat) : stage := fun s =>
  match (c ← choice0 data; get_str "finish_reason" c) with
  | Some fr =>
      then_ close_thinking (then_ (close_text ti) (then_ (close_tools offset)
        (fun s => (s, [MessageDelta (Some (read_openai_stop_reason fr)) None (default IrUsage.zero (chunk_usage data));
                       MessageStop])))) s
  | None =>
      match chunk_usage data, choice0 data with
      | Some usage, None => (s, [MessageDelta None None usage])
      | _, _ => (s, [])
      end
  end.

Definition delta_of (data : Value) : Map := default [] (c ← choice0 data; members <$> get "delta" c).

(** What follows the reasoning of a chunk: the slot of the text is fixed here. *)
Definition answer_stages (data : Value) : stage := fun s =>
  let offset := if reasoning_seen s then 1%nat else 0%nat in
  let ti := default (offset + length (open_tools s))%nat (text_index s) in
  then_ (text_stage (delta_of data) ti)
    (then_ (logprobs_stage (read_openai_logprobs (c ← choice0 data; get "logprobs" c)) ti)
      (then_ (tools_stage (delta_of data) offset) (finish_stage data ti offset))) s.

Definition read_chunk (data : Value) : stage := fun s =>
  if bool_decide (Json.as_str data = Some "[DONE]"%string) then (s, [])
  else then_ (start_stage data) (then_ (reasoning_stage (delta_of data)) (answer_stages data)) s.

#[export] Instance openai_reader : Reader DecodeState := {
  decode_default := decode_init;
  read_response_events _ v d := read_chunk v d }.

(** ** Writing chunks *)
Definition choice_obj (l : list (string * Value)) (finish_reason : Value) : Value :=
  json_obj ((("index"%string, json_u64 0) :: l) ++ [("finish_reason"%string, finish_reason)]).

Definition chunk_obj (delta finish_reason : Value) : Value :=
  json_obj [("object", Str OBJ_CHUNK); ("choices", Array [choice_obj [("delta"%string, delta)] finish_reason])].

Definition json_index (index : nat) : Value := json_u64 (Z.of_nat index).

Definition class_error_type (c : StatusClass) : string :=
  match c with
  | RateLimit => "rate_limit_error"
  | Auth => "authentication_error"
  | Billing => "insufficient_quota"
  | ContextLength | ClientError => "invalid_request_error"
  | Overloaded | ServerError | Timeout | Network => "server_error"
  end.

Definition write_usage_chunk (usage : IrUsage.t) (finish_reason : Value) : Value :=
  let chunk := members (chunk_obj (json_obj []) finish_reason) in
  Object (if negb (prompt_tokens usage =? 0) || negb (IrUsage.output_tokens usage =? 0)
          then map_insert "usage" (Object (write_openai_usage usage)) chunk else chunk).

(** [synth] and [now] are the answers of [synth_completion_id] and of the clock. *)
Definition openai_write_event (synth : bytes) (now : Z) (ev : IrStreamEvent) : option (bytes * Value) :=
  (fun v => ([] : bytes, v)) <$>
  match ev with
  | MessageStart Assistant _ id created model =>
      Some (json_obj [("id", json_str (default synth id)); ("object", Str OBJ_CHUNK);
              ("created", json_u64 (default now created)); ("model", json_str (model_or_default model));
              ("choices", Array [choice_obj [("delta"%string, json_obj [("role", Str "assistant")])] Null])])
  | MessageStart _ _ _ _ _ => None
  | BlockStart index (ToolUseBlock id name) =>
      Some (chunk_obj (json_obj [("tool_calls", Array [json_obj [("index", json_index index); ("id", json_str id);
              ("type", Str "function"); ("function", json_obj [("name", json_str name); ("arguments", Str "")])]])]) Null)
  | BlockStart _ _ => None
  | BlockDelta _ (TextDelta text) => Some (chunk_obj (json_obj [("content", json_str text)]) Null)
  | BlockDelta index (InputJsonDelta json) =>
      Some (chunk_obj (json_obj [("tool_calls", Array [json_obj [("index", json_index index);
              ("function", json_obj [("arguments", json_str json)])]])]) Null)
  | BlockDelta _ (LogprobsDelta (lp :: lps)) =>
      Some (json_obj [("object", Str OBJ_CHUNK);
              ("choices", Array [choice_obj [("delta"%string, json_obj []);
                                             ("logprobs"%string, write_openai_logprobs (lp :: lps))] Null])])
  | BlockDelta _ _ => None
  | BlockStop _ => None
  | MessageDelta stop_reason _ usage =>
      Some (write_usage_chunk usage (match stop_reason with Some r => Str (write_openai_stop_reason r) | None => Null end))
  | MessageStop => None
  | Error err =>
      Some (error_object (bytes_of (default "error"%string (provider_signal err))) (class_error_type (class err)))
  end.

(** The ids and times the writer falls back on, and how many it used. *)
Record OpenAiWriter := mk_writer { entropy : nat -> bytes; clock : nat -> Z; drawn : nat }.

#[export] Program Instance openai_writer : Writer OpenAiWriter := {
  protocol_name _ := bytes_of "openai";
  write_response_event w ev :=
    (mk_writer (entropy w) (clock w) (S (drawn w)), openai_write_event (entropy w (drawn w)) (clock w (drawn w)) ev);
  write_response_exception _ _ := None;
  max_citations_per_delta _ := None;
  emits_sse_done_terminator _ := true;
  ingress_is_eventstream _ := false }.
Next Obligation. done. Qed.

(** ** The framing of a client's stream *)
Record OpenAiChunkIdentity := mk_identity { chunk_id : Value; chunk_created : Value; chunk_model : option Value }.

Record OpenAiStreamFraming := mk_framing {
  chunk_identity : option OpenAiChunkIdentity; tool_call_index : gmap Z Z; client_include_usage : bool }.

Definition is_chunk (obj : Map) : bool := bool_decide ((v ← map_get "object" obj; Json.as_str v) = Some OBJ_CHUNK).

(** [entry(k).or_insert(v)]. *)
Definition or_insert (k : string) (v : Value) (m : Map) : Map :=
  match map_get k m with Some _ => m | None => map_insert k v m end.

Definition apply_chunk_identity (identity : option OpenAiChunkIdentity) (obj : Map)
    : option OpenAiChunkIdentity * Map :=
  match identity with
  | None =>
      (match map_get "id" obj with
       | Some id => Some (mk_identity id (default Null (map_get "created" obj)) (map_get "model" obj))
       | None => None
       end, obj)
  | Some i =>
      let obj := or_insert "created" (chunk_created i) (or_insert "id" (chunk_id i) obj) in
      (Some i, match chunk_model i with Some m => or_insert "model" m obj | None => obj end)
  end.

(** The ordinal of a raw index: the next one when it is seen for the first time. *)
Definition ordinal (m : gmap Z Z) (raw : Z) : gmap Z Z * Z :=
  match m !! raw with Some o => (m, o) | None => (<[raw := Z.of_nat (size m)]> m, Z.of_nat (size m)) end.

Definition remap_call (m : gmap Z Z) (tc : Value) : gmap Z Z * Value :=
  match tc with
  | Object tc_obj =>
      match get_u64 "index" tc_obj with
      | Some raw => let '(m, o) := ordinal m raw in (m, Object (map_insert "index" (json_u64 o) tc_obj))
      | None => (m, tc)
      end
  | _ => (m, tc)
  end.

(** A map threaded through a list. *)
Fixpoint thread {S} (f : S -> Value -> S * Value) (s : S) (l : list Value) : S * list Value :=
  match l with [] => (s, []) | v :: l => let '(s, v) := f s v in let '(s, l) := thread f s l in (s, v :: l) end.

(** [get_mut(k)] followed by an update in place. *)
Definition in_member {S} (k : string) (f : S -> Value -> S * Value) (s : S) (v : Value) : S * Value :=
  match v with
  | Object m => match map_get k m with
                | Some w => let '(s, w) := f s w in (s, Object (map_insert k w m))
                | None => (s, v)
                end
  | _ => (s, v)
  end.

Definition in_array {S} (f : S -> Value -> S * Value) (s : S) (v : Value) : S * Value :=
  match v with Array l => let '(s, l) := thread f s l in (s, Array l) | _ => (s, v) end.

Definition remap_tool_call_index (m : gmap Z Z) (obj : Map) : gmap Z Z * Map :=
  let '(m, v) := in_member "choices" (in_array (in_member "delta" (in_member "tool_calls" (in_array remap_call)))) m (Object obj) in
  (m, members v).

(** The first choice has a finish reason. *)
Definition has_finish (obj : Map) : bool :=
  match (c ← map_get "choices" obj; arr ← as_array c; c0 ← head arr; get "finish_reason" c0) with
  | Some Null | None => false
  | Some _ => true
  end.

Definition split_openai_trailing_usage (obj : Map) : Map * option Map :=
  match map_get "usage" obj with
  | Some usage =>
      if has_finish obj then
        let obj := map_remove "usage" obj in
        (obj, Some (insert_all [("choices", Array []); ("usage", usage)]
                 (insert_opt "model" (map_get "model" obj) (insert_opt "created" (map_get "created" obj)
                   (map_insert "object" (Str OBJ_CHUNK) (insert_opt "id" (map_get "id" obj) []))))))
      else (obj, None)
  | None => (obj, None)
  end.

Definition strip_folded_usage (obj : Map) : Map :=
  match map_get "usage" obj with Some _ => if has_finish obj then map_remove "usage" obj else obj | None => obj end.

(** A body that is not a chunk (an error) is left as it is. *)
Definition openai_on_egress_chunk (f : OpenAiStreamFraming) (chunk : Value) : OpenAiStreamFraming * Value * option Value :=
  match chunk with
  | Object obj =>
      if negb (is_chunk obj) then (f, chunk, None)
      else
        let '(identity, obj) := apply_chunk_identity (chunk_identity f) obj in
        let '(index, obj) := remap_tool_call_index (tool_call_index f) obj in
        let f := mk_framing identity index (client_include_usage f) in
        if client_include_usage f
        then let '(obj, trailing) := split_openai_trailing_usage obj in (f, Object obj, Object <$> trailing)
        else (f, Object (strip_folded_usage obj), None)
  | _ => (f, chunk, None)
  end.

Definition choices_of (data : Value) : option (list Value) := get_array "choices" data.

Definition openai_suppress (f : OpenAiStreamFraming) (data : Value) : bool :=
  if client_include_usage f then false
  else match as_object data with
  | None => false
  | Some obj =>
      is_chunk obj && match map_get "usage" obj with Some (Object _) => true | _ => false end &&
      match choices_of data with Some [] => true | _ => false end
  end.

Definition openai_strip (f : OpenAiStreamFraming) (data : Value) : bool :=
  if client_include_usage f then false
  else match as_object data with
  | None => false
  | Some obj => has_key "usage" obj && match choices_of data with Some (_ :: _) => true | _ => false end
  end.

#[export] Instance openai_framing : StreamFraming OpenAiStreamFraming := {
  on_egress_chunk := openai_on_egress_chunk;
  on_combined_stop_delta f _ _ _ := (f, None);
  on_usage_only_delta f := (f, None);
  on_finish f := (f, None);
  inject_streaming_metrics _ _ v _ := v;
  abort_exception_type _ := None;
  folds_terminal_usage _ := false;
  set_client_include_usage f include := mk_framing (chunk_identity f) (tool_call_index f) include;
  suppress_same_proto_frame := openai_suppress;
  strip_same_proto_usage := openai_strip }.
End OpenAiStream.
