(* ===== verification/OpenAiProps.v ===== *)
(** * Theorems about Chat Completions streams

    The block structure the reader makes up is well bracketed, whatever the upstream sends; when the
    upstream numbers its tool calls densely no two open blocks share an index; and the framing gives a
    client one identity, ordinals from zero and usage only on request. *)
From stdpp Require Import base list strings gmap gmultiset.
From Stdlib Require Import ZArith Lia SpecFloat.
From S2P Require Import Prelude Breaker Cell EventStream EventStreamFacts Sse Ir Translate IrSeam Json JsonTree Anthropic OpenAi OpenAiStream.
Import OpenAi.
Open Scope Z_scope.
Open Scope rust_scope.

Section Brackets.
Context {T : JsonText}.

(** ** The specification: blocks opened, written to and closed *)
Definition bracket (bag : gmultiset nat) (ev : IrStreamEvent) : option (gmultiset nat) :=
  match ev with
  | BlockStart i _ => Some ({[+ i +]} ⊎ bag)
  | BlockDelta i _ => if decide (i ∈ bag) then Some bag else None
  | BlockStop i => if decide (i ∈ bag) then Some (bag ∖ {[+ i +]}) else None
  | _ => Some bag
  end.

Fixpoint brackets (bag : gmultiset nat) (evs : list IrStreamEvent) : option (gmultiset nat) :=
  match evs with [] => Some bag | ev :: evs => let? bag := bracket bag ev in brackets bag evs end.

Lemma brackets_app bag e1 e2 : brackets bag (e1 ++ e2) = let? b := brackets bag e1 in brackets b e2.
Proof. revert bag. induction e1 as [|ev e1 IH]; intros bag; cbn; [done|]. destruct (bracket bag ev); [apply IH|done]. Qed.

(** The blocks a state has open. *)
Definition tool_slot (s : DecodeState) (k : nat) : nat := default 0%nat (tool_ir_index s !! k).

Definition blocks (s : DecodeState) : gmultiset nat :=
  (if thinking_block_open s then {[+ 0%nat +]} else ∅) ⊎
  (if text_block_open s then {[+ default 0%nat (text_index s) +]} else ∅) ⊎
  list_to_set_disj (tool_slot s <$> open_tools s).

Record wf (s : DecodeState) : Prop := mk_wf {
  wf_text : text_block_open s = true -> is_Some (text_index s);
  wf_tools : forall k, k ∈ open_tools s -> is_Some (tool_ir_index s !! k);
  wf_nodup : NoDup (open_tools s) }.

(** A stage keeps the state well formed and its events account for every block it opens or closes. *)
Definition sound (f : DecodeState -> DecodeState * list IrStreamEvent) (s : DecodeState) : Prop :=
  wf s -> wf (f s).1 /\ brackets (blocks s) (f s).2 = Some (blocks (f s).1).

Lemma sound_then f g s : sound f s -> sound g (f s).1 -> sound (then_ f g) s.
Proof.
  intros Hf Hg Hw. unfold then_. destruct (Hf Hw) as [W1 B1]. destruct (f s) as [s1 e1]. cbn [fst snd] in *.
  destruct (Hg W1) as [W2 B2]. destruct (g s1) as [s2 e2]. cbn [fst snd] in *.
  split; [done|]. by rewrite brackets_app, B1.
Qed.

Lemma sound_skip s : sound (fun s => (s, [])) s.
Proof. by intros Hw. Qed.

Lemma brackets_start i b bag evs : brackets bag (BlockStart i b :: evs) = brackets ({[+ i +]} ⊎ bag) evs.
Proof. done. Qed.

Lemma brackets_stop i bag evs : brackets ({[+ i +]} ⊎ bag) (BlockStop i :: evs) = brackets bag evs.
Proof.
  cbn [brackets bracket]. rewrite decide_True by multiset_solver. f_equal. multiset_solver.
Qed.

Lemma brackets_delta i d bag evs : i ∈ bag -> brackets bag (BlockDelta i d :: evs) = brackets bag evs.
Proof. intros Hi. cbn [brackets bracket]. by rewrite decide_True. Qed.

Ltac fields := unfold set_started, set_thinking, set_text, set_tools, tool_slot in *;
  cbn [started reasoning_seen thinking_block_open text_block_open text_index open_tools tool_ir_index fst snd app fmap list_fmap] in *.

(** The open blocks, one kind apart from the others. *)
Lemma blocks_thinking s : thinking_block_open s = true ->
  blocks s = {[+ 0%nat +]} ⊎ blocks (set_thinking (reasoning_seen s) false s).
Proof. unfold blocks. intros ->. fields. multiset_solver. Qed.

Lemma blocks_text s ti : text_block_open s = true -> text_index s = Some ti ->
  blocks s = {[+ ti +]} ⊎ blocks (set_text false (Some ti) s).
Proof. unfold blocks. intros -> ->. fields. cbn [default from_option id]. multiset_solver. Qed.

Lemma text_in_blocks s ti : text_block_open s = true -> text_index s = Some ti -> ti ∈ blocks s.
Proof. intros Ho Hi. rewrite (blocks_text s ti) by done. multiset_solver. Qed.

Lemma tool_in_blocks s k i : k ∈ open_tools s -> tool_ir_index s !! k = Some i -> i ∈ blocks s.
Proof.
  intros Hk Hi. unfold blocks. rewrite !gmultiset_elem_of_disj_union. right.
  apply elem_of_list_to_set_disj, list_elem_of_fmap. exists k. unfold tool_slot. by rewrite Hi.
Qed.

Lemma sound_close_thinking s : sound close_thinking s.
Proof.
  intros [W1 W2 W3]. unfold close_thinking. destruct (thinking_block_open s) eqn:E; [|done]. cbn [fst snd].
  split; [by split|]. by rewrite blocks_thinking, brackets_stop.
Qed.

Lemma sound_start data s : sound (start_stage data) s.
Proof. intros [W1 W2 W3]. unfold start_stage. by destruct (started s). Qed.

Lemma sound_reasoning delta s : sound (reasoning_stage delta) s.
Proof.
  intros [W1 W2 W3]. unfold reasoning_stage. destruct (_ ≫= _) as [r|]; [|done].
  destruct (text_block_open s || _ || _); [done|]. cbn [fst snd]. split; [by split|].
  destruct (thinking_block_open s) eqn:E; cbn [app].
  - rewrite brackets_delta; [|rewrite blocks_thinking by done; multiset_solver]. cbn [brackets]. f_equal.
    unfold blocks. by rewrite E.
  - rewrite brackets_start, brackets_delta by multiset_solver. cbn [brackets]. f_equal.
    unfold blocks. rewrite E. fields. multiset_solver.
Qed.

Lemma sound_open_text ti s : sound (open_text ti) s.
Proof.
  intros Hw. unfold open_text. destruct (text_block_open s) eqn:E; [done|]. cbn [fst snd]. destruct Hw.
  split; [split; [by eexists|done..]|]. rewrite brackets_start. cbn [brackets]. f_equal.
  rewrite (blocks_text (set_text true (Some ti) s) ti) by done. unfold blocks. rewrite E. fields. done.
Qed.

(** The text slot of a chunk is the one that is pinned, when one is. *)
Definition slot_ok (ti : nat) (s : DecodeState) : Prop := text_block_open s = true -> text_index s = Some ti.

Lemma open_text_open ti s : slot_ok ti s ->
  text_block_open (open_text ti s).1 = true /\ text_index (open_text ti s).1 = Some ti.
Proof. unfold slot_ok, open_text. destruct (text_block_open s) eqn:E; intros Ht; [auto|done]. Qed.

Lemma close_thinking_slot ti s : slot_ok ti s -> slot_ok ti (close_thinking s).1.
Proof. unfold close_thinking. by destruct (thinking_block_open s). Qed.

Lemma sound_delta f i d s : f s = (s, [BlockDelta i d]) -> i ∈ blocks s -> sound f s.
Proof. intros Hf Hi Hw. rewrite Hf. cbn [fst snd]. split; [done|]. by rewrite brackets_delta. Qed.

Lemma sound_text delta ti s : slot_ok ti s -> sound (text_stage delta ti) s.
Proof.
  intros Hs. unfold sound, text_stage. destruct (get_text "content" delta) as [c|]; [|done].
  apply sound_then; [apply sound_close_thinking|]. apply sound_then; [apply sound_open_text|].
  eapply sound_delta; [done|]. apply text_in_blocks; by apply open_text_open, close_thinking_slot.
Qed.
(** What a stage leaves alone. *)
Definition keeps_text (f : DecodeState -> DecodeState * list IrStreamEvent) : Prop :=
  forall s, text_block_open (f s).1 = text_block_open s /\ text_index (f s).1 = text_index s.

Lemma keeps_then f g : keeps_text f -> keeps_text g -> keeps_text (then_ f g).
Proof.
  intros Hf Hg s. unfold then_. destruct (Hf s) as [F1 F2]. destruct (f s) as [s1 e1]. cbn [fst snd] in *.
  destruct (Hg s1) as [G1 G2]. destruct (g s1) as [s2 e2]. cbn [fst snd] in *. by rewrite G1, G2.
Qed.

Lemma keeps_close_thinking : keeps_text close_thinking.
Proof. intros s. unfold close_thinking. by destruct (thinking_block_open s). Qed.

Lemma keeps_tools_loop base offset tcs : keeps_text (tools_loop base offset tcs).
Proof.
  induction tcs as [|tc tcs IH]; cbn [tools_loop]; [done|]. apply keeps_then; [|done].
  apply keeps_then; intros s; [unfold open_tool|unfold tool_arguments].
  - destruct (get_text "name" _); [|done]. by destruct (_ && _).
  - destruct (get_text "arguments" _); [|done]. by destruct (bool_decide _).
Qed.

Lemma keeps_tools delta offset : keeps_text (tools_stage delta offset).
Proof.
  intros s. unfold tools_stage. destruct (_ ≫= _); [|done].
  by apply keeps_then; [apply keeps_close_thinking|apply keeps_tools_loop].
Qed.

Lemma keeps_slot f ti s : keeps_text f -> slot_ok ti s -> slot_ok ti (f s).1.
Proof. intros Hf. unfold slot_ok. by destruct (Hf s) as [-> ->]. Qed.

(** The text slot survives the stages that write text. *)
Lemma text_slot delta ti s : slot_ok ti s -> slot_ok ti (text_stage delta ti s).1.
Proof.
  intros Hs. unfold text_stage. destruct (get_text "content" delta) as [c|]; [|done].
  unfold then_, close_thinking, open_text, slot_ok in *.
  destruct (thinking_block_open s); fields; destruct (text_block_open s) eqn:E; fields; auto.
Qed.

Lemma logprobs_slot entries ti s : slot_ok ti s -> slot_ok ti (logprobs_stage entries ti s).1.
Proof.
  intros Hs. unfold logprobs_stage. destruct entries; [done|]. unfold then_, close_thinking, open_text, slot_ok in *.
  destruct (text_block_open s) eqn:E; fields; [by rewrite E|]. destruct (thinking_block_open s); fields; rewrite E; by cbn [fst snd].
Qed.

Lemma sound_logprobs entries ti s : slot_ok ti s -> sound (logprobs_stage entries ti) s.
Proof.
  intros Hs. unfold sound, logprobs_stage. destruct entries as [|e es]; [done|]. apply sound_then.
  - destruct (text_block_open s) eqn:E; [by unfold sound; rewrite E|]. unfold sound. rewrite E.
    apply sound_then; [apply sound_close_thinking|apply sound_open_text].
  - eapply sound_delta; [done|]. destruct (text_block_open s) eqn:E; cbn [fst snd].
    + apply text_in_blocks; [done|]. by rewrite (Hs E).
    + unfold then_, close_thinking, open_text.
      destruct (thinking_block_open s); fields; rewrite E; cbn [fst]; by apply text_in_blocks.
Qed.

(** ** Tool calls *)
Lemma insert_sorted_perm k l : k ∉ l -> insert_sorted k l ≡ₚ k :: l.
Proof.
  induction l as [|x l IH]; intros Hk; cbn [insert_sorted]; [done|]. apply not_elem_of_cons in Hk as [Hx Hk].
  destruct (Nat.ltb_spec k x); [done|]. destruct (Nat.eqb_spec k x); [done|]. rewrite IH by done. apply Permutation_swap.
Qed.

Lemma sound_open_tool ir oai tc func s : sound (open_tool ir oai tc func) s.
Proof.
  intros [W1 W2 W3]. unfold open_tool. destruct (get_text "name" _) as [name|]; [|done].
  destruct (bool_decide (oai ∈ open_tools s)) eqn:E; [done|]. apply bool_decide_eq_false in E.
  destruct (_ <? _)%nat; [|done]. cbn [negb andb]. fields.
  assert (Hp : insert_sorted oai (open_tools s) ≡ₚ oai :: open_tools s) by by apply insert_sorted_perm.
  split; [split; cbn [text_block_open text_index open_tools tool_ir_index]|].
  - done.
  - intros k. rewrite Hp, elem_of_cons. intros Hk. destruct (decide (k = oai)) as [->|Hn].
    + by rewrite lookup_insert_eq.
    + rewrite lookup_insert_ne by done. apply W2. by destruct Hk.
  - rewrite Hp. by constructor.
  - rewrite brackets_start. cbn [brackets]. f_equal. unfold blocks. fields.
    rewrite Hp. cbn [fmap list_fmap]. rewrite list_to_set_disj_cons, lookup_insert_eq. 
    change (default 0%nat (Some ir)) with ir.
    replace ((fun k => default 0%nat (<[oai := ir]> (tool_ir_index s) !! k)) <$> open_tools s)
      with ((fun k => default 0%nat (tool_ir_index s !! k)) <$> open_tools s);
      [multiset_solver|].
    apply list_fmap_ext. intros i k Hk. apply list_elem_of_lookup_2 in Hk. rewrite lookup_insert_ne; [done|]. by intros ->.
Qed.

Lemma sound_tool_arguments ir oai func s : sound (tool_arguments ir oai func) s.
Proof.
  intros Hw. unfold tool_arguments. destruct (get_text "arguments" _) as [args|]; [|done].
  case_bool_decide as Ho; [|done]. split; [done|]. destruct (wf_tools s Hw oai Ho) as [i Hi]. rewrite Hi. cbn [fst snd].
  rewrite brackets_delta; [done|]. by eapply tool_in_blocks.
Qed.

Lemma sound_tools delta offset s : sound (tools_stage delta offset) s.
Proof.
  unfold sound, tools_stage. destruct (_ ≫= _) as [tcs|]; [|done]. apply sound_then; [apply sound_close_thinking|].
  generalize (close_thinking s).1. generalize (base_of s). intros base.
  induction tcs as [|tc tcs IH]; intros s'; cbn [tools_loop]; [apply sound_skip|]. apply sound_then; [|apply IH].
  apply sound_then; [apply sound_open_tool|apply sound_tool_arguments].
Qed.

(** ** The end of a message *)
Lemma sound_close_text ti s : slot_ok ti s -> sound (close_text ti) s.
Proof.
  intros Hs Hw. unfold close_text. destruct (text_block_open s) eqn:E; [|done]. cbn [fst snd]. destruct Hw. specialize (Hs E).
  split; [by split|]. by rewrite (blocks_text s ti), brackets_stop, Hs.
Qed.

Lemma brackets_stops (f : nat -> nat) l bag :
  brackets (bag ⊎ list_to_set_disj (f <$> l)) ((fun k => BlockStop (f k)) <$> l) = Some bag.
Proof.
  induction l as [|k l IH]; cbn [fmap list_fmap].
  - rewrite list_to_set_disj_nil. cbn [brackets]. f_equal. multiset_solver.
  - rewrite list_to_set_disj_cons.
    replace (bag ⊎ ({[+ f k +]} ⊎ list_to_set_disj (f <$> l))) with ({[+ f k +]} ⊎ (bag ⊎ list_to_set_disj (f <$> l))) by multiset_solver.
    by rewrite brackets_stop.
Qed.

Lemma sound_close_tools offset s : sound (close_tools offset) s.
Proof.
  intros [W1 W2 W3]. unfold close_tools. cbn [fst snd]. split; [split; cbn; [done|set_solver|constructor]|].
  replace ((fun k => BlockStop (default (k + base_of s + offset)%nat (tool_ir_index s !! k))) <$> open_tools s)
    with ((fun k => BlockStop (tool_slot s k)) <$> open_tools s).
  - unfold blocks. rewrite brackets_stops. f_equal. fields. rewrite list_to_set_disj_nil. multiset_solver.
  - apply list_fmap_ext. intros i k Hk. apply list_elem_of_lookup_2 in Hk. unfold tool_slot. by destruct (W2 k Hk) as [? ->].
Qed.

Definition finish_reason (data : Value) : option string := c ← choice0 data; get_str "finish_reason" c.

Lemma sound_finish data ti offset s : slot_ok ti s -> sound (finish_stage data ti offset) s.
Proof.
  intros Hs. unfold sound, finish_stage. destruct (_ ≫= _) as [fr|].
  - apply sound_then; [apply sound_close_thinking|]. apply sound_then; [by apply sound_close_text, close_thinking_slot|].
    apply sound_then; [apply sound_close_tools|]. by intros Hw.
  - by destruct (chunk_usage data), (choice0 data).
Qed.

Lemma finish_stage_closes data ti offset s : is_Some (finish_reason data) -> blocks (finish_stage data ti offset s).1 = ∅.
Proof.
  unfold finish_stage, finish_reason. intros [fr ->]. unfold then_, close_thinking, close_text, close_tools, blocks.
  destruct (thinking_block_open s) eqn:E1; fields; destruct (text_block_open s) eqn:E2; fields; rewrite ?E1, ?E2;
    rewrite list_to_set_disj_nil; multiset_solver.
Qed.

(** ** A chunk, and a stream of them *)
Definition chunk_slot (s : DecodeState) : nat :=
  default ((if reasoning_seen s then 1 else 0) + length (open_tools s))%nat (text_index s).

Lemma answer_slot s : wf s -> slot_ok (chunk_slot s) s.
Proof. intros Hw Ho. destruct (wf_text s Hw Ho) as [ti Ht]. unfold chunk_slot. by rewrite Ht. Qed.

Lemma sound_answer data s : sound (answer_stages data) s.
Proof.
  intros Hw. assert (Hs := answer_slot s Hw). revert Hw. unfold answer_stages. fold (chunk_slot s). revert Hs.
  generalize (chunk_slot s). intros ti Hs.
  apply sound_then; [by apply sound_text|]. apply sound_then; [by apply sound_logprobs, text_slot|].
  apply sound_then; [apply sound_tools|]. apply sound_finish. apply keeps_slot; [apply keeps_tools|].
  by apply logprobs_slot, text_slot.
Qed.

Lemma sound_chunk data s : sound (read_chunk data) s.
Proof.
  unfold sound, read_chunk. destruct (bool_decide _); [done|]. apply sound_then; [apply sound_start|].
  apply sound_then; [apply sound_reasoning|apply sound_answer].
Qed.
(** The reader over a stream of chunks. *)
Fixpoint read_chunks (chunks : list Value) : DecodeState -> DecodeState * list IrStreamEvent :=
  match chunks with [] => fun s => (s, []) | c :: cs => then_ (read_chunk c) (read_chunks cs) end.

Lemma sound_chunks chunks s : sound (read_chunks chunks) s.
Proof. revert s. induction chunks as [|c cs IH]; intros s; cbn [read_chunks]; [apply sound_skip|]. apply sound_then; [apply sound_chunk|apply IH]. Qed.

Lemma then_state f g s : (then_ f g s).1 = (g (f s).1).1.
Proof. unfold then_. destruct (f s) as [s1 e1]. cbn [fst snd]. by destruct (g s1). Qed.

Lemma then_events f g s : (then_ f g s).2 = (f s).2 ++ (g (f s).1).2.
Proof. unfold then_. destruct (f s) as [s1 e1]. cbn [fst snd]. by destruct (g s1). Qed.

Lemma read_chunks_app c1 c2 s : (read_chunks (c1 ++ c2) s).1 = (read_chunks c2 (read_chunks c1 s).1).1.
Proof. revert s. induction c1 as [|c c1 IH]; intros s; [done|]. cbn [app read_chunks]. by rewrite !then_state, IH. Qed.

Lemma chunk_closes data s : is_Some (finish_reason data) -> blocks (read_chunk data s).1 = ∅.
Proof.
  intros Hf. unfold read_chunk. case_bool_decide as Hd.
  - exfalso. destruct data; try done. by destruct Hf as [? Hf].
  - rewrite !then_state. unfold answer_stages. rewrite !then_state. by apply finish_stage_closes.
Qed.

Lemma init_wf : wf decode_init.
Proof. split; [done|set_solver|constructor]. Qed.

(** C22.  Whatever an upstream sends, the event stream the Chat Completions reader makes of it is well
    bracketed: every delta and every stop is for a block that is open, the blocks left open are those the
    decode state holds, and a chunk with a finish reason leaves none open. *)
Theorem openai_stream_bracketed chunks last : is_Some (finish_reason last) ->
  brackets ∅ (read_chunks chunks decode_init).2 = Some (blocks (read_chunks chunks decode_init).1) /\
  brackets ∅ (read_chunks (chunks ++ [last]) decode_init).2 = Some ∅.
Proof.
  intros Hl. assert (S := fun cs => proj2 (sound_chunks cs decode_init init_wf)).
  replace (blocks decode_init) with (∅ : gmultiset nat) in S by done. split; [apply S|].
  rewrite S, read_chunks_app. cbn [read_chunks]. rewrite then_state. cbn [fst]. by rewrite chunk_closes.
Qed.
(** ** No two open blocks share an index *)
Fixpoint fresh (bag : gmultiset nat) (evs : list IrStreamEvent) : bool :=
  match evs with
  | [] => true
  | ev :: evs =>
      match ev with BlockStart i _ => bool_decide (i ∉ bag) | _ => true end &&
      match bracket bag ev with Some bag => fresh bag evs | None => false end
  end.

Lemma fresh_app bag bag' e1 e2 : brackets bag e1 = Some bag' -> fresh bag (e1 ++ e2) = fresh bag e1 && fresh bag' e2.
Proof.
  revert bag. induction e1 as [|ev e1 IH]; intros bag; cbn [brackets app fresh]; [by intros [= ->]|].
  destruct (bracket bag ev) as [b|]; cbn; [|done]. intros Hb. by rewrite (IH b), andb_assoc.
Qed.

(** The indices a stage gives to the blocks it opens are not in use. *)
Definition clean (f : DecodeState -> DecodeState * list IrStreamEvent) (s : DecodeState) : Prop :=
  fresh (blocks s) (f s).2 = true.

Lemma clean_then f g s : wf s -> sound f s -> clean f s -> clean g (f s).1 -> clean (then_ f g) s.
Proof.
  intros Hw Hs Hf Hg. unfold clean in *. destruct (Hs Hw) as [_ Hb]. by rewrite then_events, (fresh_app _ _ _ _ Hb), Hf, Hg.
Qed.

Definition opens (ev : IrStreamEvent) : bool := match ev with BlockStart _ _ => true | _ => false end.

Lemma fresh_closing bag evs : existsb opens evs = false -> is_Some (brackets bag evs) -> fresh bag evs = true.
Proof.
  revert bag. induction evs as [|ev evs IH]; intros bag; [done|]. cbn [existsb brackets fresh].
  intros [Ho He]%orb_false_iff Hb. destruct (bracket bag ev) as [b|]; [|by destruct Hb].
  rewrite IH by done. by destruct ev.
Qed.

Lemma clean_closing f s : wf s -> sound f s -> existsb opens (f s).2 = false -> clean f s.
Proof. intros Hw Hs Ho. apply fresh_closing; [done|]. destruct (Hs Hw) as [_ ->]. by eexists. Qed.

Lemma close_thinking_no_open s : existsb opens (close_thinking s).2 = false.
Proof. unfold close_thinking. by destruct (thinking_block_open s). Qed.

(** Where the tool call [i] of a message sits: behind the text when the text came first. *)
Definition slot_of (off : nat) (text : option nat) (i : nat) : nat :=
  match text with Some ti => if (off + i <? ti)%nat then off + i else (off + i + 1) | None => off + i end%nat.

Definition offset_of (s : DecodeState) : nat := if reasoning_seen s then 1%nat else 0%nat.

(** The state of a message whose tool calls [0 .. n-1] have been opened, in that order. *)
Record layout (n : nat) (s : DecodeState) : Prop := mk_layout {
  lay_wf : wf s;
  lay_tools : open_tools s = seq 0 n;
  lay_slots : forall i, (i < n)%nat -> tool_ir_index s !! i = Some (slot_of (offset_of s) (text_index s) i);
  lay_text : text_block_open s = false -> text_index s = None;
  lay_at : forall ti, text_index s = Some ti -> (offset_of s <= ti <= offset_of s + n)%nat;
  lay_thinking : thinking_block_open s = true -> n = 0%nat /\ text_index s = None /\ offset_of s = 1%nat }.

Lemma in_blocks s i : i ∈ blocks s -> thinking_block_open s = true /\ i = 0%nat \/
  text_block_open s = true /\ i = default 0%nat (text_index s) \/ exists k, k ∈ open_tools s /\ i = tool_slot s k.
Proof.
  unfold blocks. rewrite !gmultiset_elem_of_disj_union. intros [[H|H]|H].
  - destruct (thinking_block_open s); [left; multiset_solver|multiset_solver].
  - destruct (text_block_open s); [right; left; multiset_solver|multiset_solver].
  - apply elem_of_list_to_set_disj, list_elem_of_fmap in H as (k & -> & Hk). right. right. by eexists.
Qed.

(** The three places a block is opened. *)
Lemma clean_reasoning delta n s : layout n s -> clean (reasoning_stage delta) s.
Proof.
  intros Hl. unfold clean. destruct (sound_reasoning delta s (lay_wf n s Hl)) as [_ Hb]. revert Hb.
  unfold reasoning_stage. destruct (_ ≫= _) as [r|]; [|done].
  destruct (text_block_open s || _ || _) eqn:E; [done|]. apply orb_false_iff in E as [[Et Eo]%orb_false_iff _].
  apply negb_false_iff, bool_decide_eq_true in Eo. cbn [fst snd]. intros Hb.
  destruct (thinking_block_open s) eqn:Ek; [by apply fresh_closing; [|rewrite Hb; eexists]|].
  cbn [app fresh bracket] in *. rewrite bool_decide_eq_true_2; [|intros Hi; apply in_blocks in Hi; rewrite Ek, Et, Eo in Hi; set_solver].
  by rewrite decide_True by multiset_solver.
Qed.

Lemma clean_open_text n s : layout n s -> thinking_block_open s = false -> text_block_open s = false ->
  clean (open_text (offset_of s + n)) s.
Proof.
  intros Hl Hk Ht. unfold clean, open_text. rewrite Ht. cbn [snd fresh bracket]. rewrite bool_decide_eq_true_2; [done|].
  intros Hi. apply in_blocks in Hi as [[? _]|[[? _]|(k & Hin & Hi)]]; [congruence..|].
  rewrite (lay_tools n s Hl) in Hin. apply elem_of_seq in Hin. unfold tool_slot in Hi.
  rewrite (lay_slots n s Hl) in Hi by lia. rewrite (lay_text n s Hl Ht) in Hi. cbn [default from_option slot_of] in Hi. unfold id in Hi. lia.
Qed.

Lemma clean_open_tool n s tc func : layout n s -> thinking_block_open s = false -> 
  clean (open_tool (n + base_of s + offset_of s) n tc func) s.
Proof.
  intros Hl Hk. unfold clean, open_tool. destruct (get_text "name" _) as [name|]; [|done]. destruct (_ && _); [|done].
  cbn [snd fresh bracket]. rewrite bool_decide_eq_true_2; [done|]. unfold base_of.
  intros Hi. apply in_blocks in Hi as [[? _]|[[Ht Hi]|(k & Hin & Hi)]]; [congruence|..].
  - destruct (wf_text s (lay_wf n s Hl) Ht) as [ti Hti]. rewrite Hti in Hi. cbn [default from_option] in Hi. unfold id in Hi.
    assert (H := lay_at n s Hl ti Hti). lia.
  - rewrite (lay_tools n s Hl) in Hin. apply elem_of_seq in Hin. unfold tool_slot in Hi.
    rewrite (lay_slots n s Hl) in Hi by lia. cbn [default from_option] in Hi. unfold id in Hi. unfold slot_of in Hi.
    destruct (text_index s) as [ti|] eqn:Ht; [|lia].
    destruct (_ <? _)%nat; lia.
Qed.
(** The layout is kept. *)
Lemma layout_init : layout 0 decode_init.
Proof. split; [apply init_wf|done|lia|done..]. Qed.

Lemma layout_start data n s : layout n s -> layout n (start_stage data s).1.
Proof. intros [W ? ? ? ? ?]. unfold start_stage. destruct (started s); [done|]. destruct W. split; [by split|assumption..]. Qed.

Lemma layout_close_thinking n s : layout n s ->
  layout n (close_thinking s).1 /\ thinking_block_open (close_thinking s).1 = false.
Proof.
  intros Hl. unfold close_thinking. destruct (thinking_block_open s) eqn:E; [|done]. destruct Hl as [[] ? ? ? ? ?].
  split; [|done]. split; [by split|assumption..|done].
Qed.

Lemma layout_reasoning delta n s : layout n s -> layout n (reasoning_stage delta s).1.
Proof.
  intros Hl. unfold reasoning_stage. destruct (_ ≫= _) as [r|]; [|done].
  destruct (text_block_open s || _ || _) eqn:E; [done|]. apply orb_false_iff in E as [[Et Eo]%orb_false_iff _].
  apply negb_false_iff, bool_decide_eq_true in Eo. destruct Hl as [[] Ho ? Ht ? ?]. specialize (Ht Et).
  assert (n = 0%nat) as -> by (rewrite Ho in Eo; by destruct n). split; fields; unfold offset_of; cbn [reasoning_seen]; rewrite ?Ht; try done; [|lia].
  split; fields; by rewrite ?Et.
Qed.

Lemma layout_open_text n s : layout n s -> thinking_block_open s = false -> text_block_open s = false ->
  layout n (open_text (offset_of s + n) s).1.
Proof.
  intros Hl Hk Ht. unfold open_text. rewrite Ht. destruct Hl as [[] Ho Hs Hn ? ?]. specialize (Hn Ht). cbn [fst].
  split; fields; unfold offset_of in *; cbn [reasoning_seen].
  - by split.
  - done.
  - intros i Hi. rewrite Hs, Hn by done. cbn [slot_of]. by rewrite (proj2 (Nat.ltb_lt _ _)) by lia.
  - done.
  - intros ti [= <-]. lia.
  - congruence.
Qed.

Lemma insert_sorted_end n : insert_sorted n (seq 0 n) = seq 0 (S n).
Proof.
  assert (H : forall k m, insert_sorted (m + k) (seq m k) = seq m k ++ [m + k]%nat).
  - induction k as [|k IH]; intros m; cbn [seq insert_sorted app]; [done|].
    rewrite (proj2 (Nat.ltb_ge _ _)), (proj2 (Nat.eqb_neq _ _)) by lia. f_equal. rewrite <- Nat.add_succ_comm. apply IH.
  - rewrite seq_S. apply (H n 0%nat).
Qed.

(** A call with the next index is opened behind the others. *)
Lemma layout_open_tool n s tc func : layout n s -> thinking_block_open s = false -> (n < MAX_OPEN_TOOLS)%nat ->
  is_Some (get_text "name" (members func)) -> layout (S n) (open_tool (n + base_of s + offset_of s) n tc func s).1.
Proof.
  intros Hl Hk Hn Hf. destruct (sound_open_tool (n + base_of s + offset_of s) n tc func s (lay_wf n s Hl)) as [Hw _].
  revert Hw. unfold open_tool. destruct Hf as [name ->]. destruct Hl as [W Ho Hs Ht Ha Hth].
  rewrite Ho, bool_decide_eq_false_2, length_seq, (proj2 (Nat.ltb_lt _ _)) by (done || (rewrite elem_of_seq; lia)).
  cbn [negb andb fst]. intros Hw. split; [done|..]; fields; unfold offset_of in *; cbn [reasoning_seen].
  - apply insert_sorted_end.
  - intros i Hi. destruct (decide (i = n)) as [->|Hne]; [|rewrite lookup_insert_ne by done; apply Hs; lia].
    rewrite lookup_insert_eq. unfold slot_of, base_of. destruct (text_index s) as [ti|] eqn:E; [|f_equal; lia].
    specialize (Ha ti eq_refl). rewrite (proj2 (Nat.ltb_ge _ _)) by lia. f_equal. lia.
  - done.
  - intros ti Hti. specialize (Ha ti Hti). lia.
  - congruence.
Qed.
(** The indices of the tool calls with a name, when each is the next one or one seen before. *)
Definition call_name (tc : Value) : option bytes := get_text "name" (members (default Null (get "function" tc))).

Fixpoint dense_calls (n : nat) (tcs : list Value) : option nat :=
  match tcs with
  | [] => Some n
  | tc :: tcs =>
      match call_name tc with
      | None => dense_calls n tcs
      | Some _ => if (tool_index tc <? n)%nat then dense_calls n tcs
                  else if (tool_index tc =? n)%nat then dense_calls (S n) tcs else None
      end
  end.

Definition calls_of (data : Value) : list Value := default [] (v ← map_get "tool_calls" (delta_of data); as_array v).

Fixpoint dense_stream (n : nat) (chunks : list Value) : option nat :=
  match chunks with [] => Some n | c :: cs => let? n := dense_calls n (calls_of c) in dense_stream n cs end.

(** Between the stages of a chunk the layout, the offset and the slot of the text stand. *)
Record good (n off ti : nat) (s : DecodeState) : Prop := mk_good {
  good_layout : layout n s; good_offset : offset_of s = off; good_slot : chunk_slot s = ti }.

Lemma good_wf n off ti s : good n off ti s -> wf s.
Proof. intros [[]]. done. Qed.

Lemma good_slot_ok n off ti s : good n off ti s -> slot_ok ti s.
Proof. intros Hg. rewrite <- (good_slot _ _ _ _ Hg). by eapply answer_slot, good_wf. Qed.

Lemma good_close_thinking n off ti s : good n off ti s ->
  good n off ti (close_thinking s).1 /\ thinking_block_open (close_thinking s).1 = false.
Proof.
  intros [Hl Ho Ht]. destruct (layout_close_thinking n s Hl) as [Hl' Hk]. split; [|done]. split; [done|..];
    unfold close_thinking; by destruct (thinking_block_open s).
Qed.

Lemma clean_close_thinking n off ti s : good n off ti s -> clean close_thinking s.
Proof. intros Hg. apply clean_closing; [by eapply good_wf|apply sound_close_thinking|apply close_thinking_no_open]. Qed.

Lemma good_open_text n off ti s : good n off ti s -> thinking_block_open s = false ->
  good n off ti (open_text ti s).1 /\ clean (open_text ti) s.
Proof.
  intros Hg Hk. destruct (text_block_open s) eqn:E; [unfold clean, open_text; by rewrite E|].
  destruct Hg as [Hl Ho Ht]. assert (ti = offset_of s + n)%nat as ->.
  { rewrite <- Ht. unfold chunk_slot. rewrite (lay_text n s Hl E), (lay_tools n s Hl), length_seq. done. }
  split; [|by apply clean_open_text]. split; [by apply layout_open_text|..]; unfold open_text; by rewrite E.
Qed.

(** Closing the thinking block and opening the text. *)
Lemma good_opening n off ti s : good n off ti s ->
  good n off ti (then_ close_thinking (open_text ti) s).1 /\ clean (then_ close_thinking (open_text ti)) s.
Proof.
  intros Hg. destruct (good_close_thinking _ _ _ _ Hg) as [G1 K1]. destruct (good_open_text _ _ _ _ G1 K1) as [G2 C2].
  rewrite then_state. split; [done|].
  apply clean_then; [by eapply good_wf|apply sound_close_thinking|by eapply clean_close_thinking|done].
Qed.

Lemma clean_delta f i d s : wf s -> f s = (s, [BlockDelta i d]) -> i ∈ blocks s -> clean f s.
Proof. intros Hw Hf Hi. apply clean_closing; [done|by eapply sound_delta|by rewrite Hf]. Qed.

(** Once the text is opened, its slot is that of an open block. *)
Lemma opened_in_blocks n off ti s : good n off ti s -> text_block_open s = true -> ti ∈ blocks s.
Proof. intros Hg Ho. apply text_in_blocks; [done|]. by eapply good_slot_ok. Qed.

Lemma open_text_opens ti s : text_block_open (open_text ti s).1 = true.
Proof. unfold open_text. by destruct (text_block_open s) eqn:E. Qed.

Lemma good_text delta n off ti s : good n off ti s ->
  good n off ti (text_stage delta ti s).1 /\ clean (text_stage delta ti) s.
Proof.
  intros Hg. unfold clean, text_stage. destruct (get_text "content" delta) as [c|]; [|done].
  destruct (good_close_thinking _ _ _ _ Hg) as [G1 K1]. destruct (good_open_text _ _ _ _ G1 K1) as [G2 C2].
  split; [by rewrite !then_state|]. apply clean_then; [by eapply good_wf|apply sound_close_thinking|by eapply clean_close_thinking|].
  apply clean_then; [by eapply good_wf|apply sound_open_text|done|].
  eapply clean_delta; [by eapply good_wf|done|]. eapply opened_in_blocks; [done|apply open_text_opens].
Qed.

Lemma good_logprobs entries n off ti s : good n off ti s ->
  good n off ti (logprobs_stage entries ti s).1 /\ clean (logprobs_stage entries ti) s.
Proof.
  intros Hg. unfold clean, logprobs_stage. destruct entries as [|e es]; [done|].
  set (opening := fun s => if text_block_open s then (s, []) else then_ close_thinking (open_text ti) s).
  assert (Ho : good n off ti (opening s).1 /\ sound opening s /\ clean opening s /\ text_block_open (opening s).1 = true).
  { unfold sound, clean, opening. destruct (text_block_open s) eqn:E; [done|].
    destruct (good_opening _ _ _ _ Hg) as [G C]. split; [done|]. split; [|split; [done|rewrite then_state; apply open_text_opens]].
    apply sound_then; [apply sound_close_thinking|apply sound_open_text]. }
  destruct Ho as (G & S & C & O). split; [by rewrite then_state|].
  apply clean_then; [by eapply good_wf|done..|]. eapply clean_delta; [by eapply good_wf|done|].
  rewrite (good_slot_ok _ _ _ _ G O). by eapply opened_in_blocks.
Qed.

(** The tool calls of a chunk. *)
Lemma tool_index_bound tc : (tool_index tc < MAX_OPEN_TOOLS)%nat.
Proof. unfold tool_index, MAX_OPEN_TOOLS. destruct (get_u64 _ _); [|lia]. unfold MAX_TOOL_INDEX. lia. Qed.

Lemma open_tool_seen n ir tc func oai s : layout n s -> (oai < n)%nat -> open_tool ir oai tc func s = (s, []).
Proof.
  intros Hl Hi. unfold open_tool. destruct (get_text "name" _); [|done].
  by rewrite (lay_tools n s Hl), bool_decide_eq_true_2 by (rewrite elem_of_seq; lia).
Qed.

Lemma open_tool_unnamed ir tc func oai s : get_text "name" (members func) = None -> open_tool ir oai tc func s = (s, []).
Proof. unfold open_tool. by intros ->. Qed.

Lemma tool_arguments_state ir oai func s : (tool_arguments ir oai func s).1 = s.
Proof. unfold tool_arguments. destruct (get_text "arguments" _); [|done]. by destruct (bool_decide _). Qed.

Lemma tool_arguments_clean ir oai func s : wf s -> clean (tool_arguments ir oai func) s.
Proof.
  intros Hw. apply clean_closing; [done|apply sound_tool_arguments|]. unfold tool_arguments.
  destruct (get_text "arguments" _); [|done]. by destruct (bool_decide _).
Qed.

Lemma open_tool_same ir oai tc func s : let s' := (open_tool ir oai tc func s).1 in
  thinking_block_open s' = thinking_block_open s /\ base_of s' = base_of s /\ offset_of s' = offset_of s.
Proof. unfold open_tool. destruct (get_text "name" _); [|done]. by destruct (_ && _). Qed.

Lemma good_tools_loop tcs base off n n' s : layout n s -> thinking_block_open s = false -> base_of s = base -> offset_of s = off ->
  dense_calls n tcs = Some n' -> layout n' (tools_loop base off tcs s).1 /\ clean (tools_loop base off tcs) s.
Proof.
  revert n s. induction tcs as [|tc tcs IH]; intros n s Hl Hk Hb Ho Hd; cbn [tools_loop dense_calls] in *; [by simplify_eq|].
  set (func := default Null (get "function" tc)) in *. assert (Hi := tool_index_bound tc). set (i := tool_index tc) in *.
  assert (Hstep : exists m, layout m (open_tool (i + base + off) i tc func s).1 /\ clean (open_tool (i + base + off) i tc func) s /\
                    dense_calls m tcs = Some n').
  { unfold call_name in Hd. fold func in Hd. destruct (get_text "name" (members func)) as [name|] eqn:En;
      [|exists n; unfold clean; by rewrite open_tool_unnamed].
    destruct (Nat.ltb_spec i n); [exists n; unfold clean; by rewrite (open_tool_seen n)|].
    destruct (Nat.eqb_spec i n) as [->|]; [|done]. exists (S n). subst base off. split; [|split; [by apply clean_open_tool|done]].
    apply layout_open_tool; [done|done|exact Hi|by rewrite En]. }
  destruct Hstep as (m & Hl' & Hc & Hd'). destruct (open_tool_same (i + base + off) i tc func s) as (K1 & K2 & K3).
  assert (Hc' : clean (tool_stage base off tc) s).
  { apply clean_then; [by destruct Hl|apply sound_open_tool|done|apply tool_arguments_clean; by destruct Hl']. }
  assert (Hst : (tool_stage base off tc s).1 = (open_tool (i + base + off) i tc func s).1)
    by (unfold tool_stage; by rewrite then_state, tool_arguments_state).
  destruct (IH m (open_tool (i + base + off) i tc func s).1) as [L C]; [done|by rewrite K1|by rewrite K2|by rewrite K3|done|].
  split; [by rewrite then_state, Hst|]. apply clean_then; [by destruct Hl| |done|by rewrite Hst].
  apply sound_then; [apply sound_open_tool|apply sound_tool_arguments].
Qed.
Lemma good_tools data n n' off ti s : good n off ti s -> dense_calls n (calls_of data) = Some n' ->
  layout n' (tools_stage (delta_of data) off s).1 /\ clean (tools_stage (delta_of data) off) s.
Proof.
  intros Hg. unfold clean, tools_stage, calls_of. destruct (_ ≫= _) as [tcs|]; cbn [default from_option];
    [|intros [= <-]; split; [by destruct Hg|done]]. change (id tcs) with tcs. intros Hd.
  destruct (good_close_thinking _ _ _ _ Hg) as [G K].
  assert (Hb : base_of (close_thinking s).1 = base_of s) by (unfold base_of; by rewrite (proj2 (keeps_close_thinking s))).
  destruct (good_tools_loop tcs (base_of s) off n n' (close_thinking s).1) as [L C]; [by destruct G|done|done|by destruct G|done|].
  split; [by rewrite then_state|]. apply clean_then; [by eapply good_wf|apply sound_close_thinking|by eapply clean_close_thinking|done].
Qed.

Lemma opens_app e1 e2 : existsb opens (e1 ++ e2) = existsb opens e1 || existsb opens e2.
Proof. apply existsb_app. Qed.

Lemma finish_no_open data ti off s : existsb opens (finish_stage data ti off s).2 = false.
Proof.
  unfold finish_stage. destruct (_ ≫= _); [|by destruct (chunk_usage data), (choice0 data)].
  rewrite !then_events, !opens_app, close_thinking_no_open. unfold close_text, close_tools. destruct (text_block_open _); cbn [fst snd existsb opens orb];
    rewrite orb_false_r; induction (open_tools _) as [|k l IH]; done.
Qed.

Lemma finish_state data ti off s : finish_reason data = None -> (finish_stage data ti off s).1 = s.
Proof. unfold finish_stage, finish_reason. intros ->. by destruct (chunk_usage data), (choice0 data). Qed.

Lemma good_answer data n n' s : layout n s -> dense_calls n (calls_of data) = Some n' ->
  clean (answer_stages data) s /\ (finish_reason data = None -> layout n' (answer_stages data s).1).
Proof.
  intros Hl Hd. unfold clean, answer_stages. fold (chunk_slot s) (offset_of s).
  assert (Hg : good n (offset_of s) (chunk_slot s) s) by done. revert Hg. generalize (offset_of s) (chunk_slot s). intros off ti G0.
  destruct (good_text (delta_of data) _ _ _ _ G0) as [G1 C1].
  destruct (good_logprobs (read_openai_logprobs (c ← choice0 data; get "logprobs" c)) _ _ _ _ G1) as [G2 C2].
  destruct (good_tools data _ _ _ _ _ G2 Hd) as [L3 C3].
  assert (S0 := good_slot_ok _ _ _ _ G0). assert (S1 := good_slot_ok _ _ _ _ G1). assert (S2 := good_slot_ok _ _ _ _ G2).
  split.
  - apply clean_then; [by eapply good_wf|by apply sound_text|done|].
    apply clean_then; [by eapply good_wf|by apply sound_logprobs|done|].
    apply clean_then; [by eapply good_wf|apply sound_tools|done|].
    apply clean_closing; [by destruct L3|apply sound_finish; by apply keeps_slot; [apply keeps_tools|]|apply finish_no_open].
  - intros Hf. by rewrite !then_state, finish_state.
Qed.

Lemma good_chunk data n n' s : layout n s -> dense_calls n (calls_of data) = Some n' ->
  clean (read_chunk data) s /\ (finish_reason data = None -> layout n' (read_chunk data s).1).
Proof.
  intros Hl Hd. unfold clean, read_chunk. case_bool_decide as E.
  - split; [done|]. destruct data; try done. cbn in Hd. by simplify_eq.
  - assert (H1 := layout_start data n s Hl). assert (H2 := layout_reasoning (delta_of data) n _ H1).
    destruct (good_answer data n n' _ H2 Hd) as [C3 L3]. rewrite !then_state. split; [|done].
    apply clean_then; [by destruct Hl|apply sound_start| |].
    + unfold clean, start_stage. by destruct (started s).
    + apply clean_then; [by destruct H1|apply sound_reasoning|by eapply clean_reasoning|done].
Qed.

Lemma good_chunks chunks n m s : layout n s -> Forall (fun c => finish_reason c = None) chunks -> dense_stream n chunks = Some m ->
  clean (read_chunks chunks) s /\ layout m (read_chunks chunks s).1.
Proof.
  revert n s. induction chunks as [|c cs IH]; intros n s Hl Hf Hd; cbn [read_chunks dense_stream] in *; [by simplify_eq|].
  destruct (dense_calls n (calls_of c)) as [k|] eqn:E; [|done]. apply Forall_cons_1 in Hf as [Hc Hf].
  destruct (good_chunk c n k s Hl E) as [C L]. destruct (IH k _ (L Hc) Hf Hd) as [C' L'].
  rewrite then_state. split; [|done]. apply clean_then; [by destruct Hl|apply sound_chunk|done..].
Qed.

Lemma dense_stream_app n c1 c2 : dense_stream n (c1 ++ c2) = let? k := dense_stream n c1 in dense_stream k c2.
Proof. revert n. induction c1 as [|c c1 IH]; intros n; cbn [app dense_stream]; [done|]. destruct (dense_calls n _); [apply IH|done]. Qed.

Lemma read_chunks_events c1 c2 s : (read_chunks (c1 ++ c2) s).2 = (read_chunks c1 s).2 ++ (read_chunks c2 (read_chunks c1 s).1).2.
Proof. revert s. induction c1 as [|c c1 IH]; intros s; [done|]. cbn [app read_chunks]. by rewrite !then_events, then_state, IH, app_assoc. Qed.

(** C15.  When the upstream numbers the tool calls of a message densely (each call with a name has the next
    index or one seen before), no block is ever opened at the index of a block that is open, whatever the
    order of reasoning, text and tool calls: the slot the text takes and the slots of the calls before and
    after it never meet. *)
Theorem openai_slots_disjoint chunks last :
  Forall (fun c => finish_reason c = None) chunks -> is_Some (dense_stream 0 (chunks ++ [last])) ->
  fresh ∅ (read_chunks (chunks ++ [last]) decode_init).2 = true.
Proof.
  intros Hf [m Hd]. rewrite dense_stream_app in Hd. destruct (dense_stream 0 chunks) as [n|] eqn:E; [|done].
  cbn [dense_stream] in Hd. destruct (dense_calls n (calls_of last)) as [k|] eqn:El; [|done].
  destruct (good_chunks chunks 0 n decode_init layout_init Hf E) as [C L].
  destruct (good_chunk last n k _ L El) as [C' _]. rewrite read_chunks_events.
  assert (Hb := proj2 (sound_chunks chunks decode_init init_wf)).
  assert (Hc : clean (then_ (read_chunks chunks) (read_chunks [last])) decode_init).
  { apply clean_then; [apply init_wf|apply sound_chunks|done|]. cbn [read_chunks].
    apply clean_then; [by destruct L|apply sound_chunk|done|done]. }
  unfold clean in Hc. by rewrite then_events in Hc.
Qed.
End Brackets.

Section Framing.
Context {T : JsonText}.

(** ** What a client receives *)
(** The reference for the numbers of the tool calls: their raw indices in the order of first appearance. *)
Definition see (seen : list Z) (raw : Z) : list Z := if decide (raw ∈ seen) then seen else seen ++ [raw].
Definition first_seen (raws : list Z) : list Z := foldl see [] raws.
Definition position (raw : Z) (l : list Z) : option Z := (fun p => Z.of_nat p.1) <$> list_find (fun x => x = raw) l.

Definition represents (m : gmap Z Z) (seen : list Z) : Prop :=
  (forall raw, m !! raw = position raw seen) /\ size m = length seen.

Lemma position_in raw l : raw ∈ l <-> is_Some (position raw l).
Proof.
  unfold position. rewrite fmap_is_Some. split.
  - intros H. by apply (list_find_elem_of _ _ raw).
  - intros [[i x] H]. apply list_find_Some in H as (H & -> & _). by eapply list_elem_of_lookup_2.
Qed.

Lemma position_app raw l l' : raw ∈ l -> position raw (l ++ l') = position raw l.
Proof.
  intros H. apply position_in in H. unfold position in *. rewrite fmap_is_Some in H. destruct H as [p Hp].
  by rewrite (list_find_app_l _ _ _ _ _ (eq_trans Hp (f_equal Some (surjective_pairing p)))), Hp.
Qed.

Lemma position_new raw l : raw ∉ l -> position raw (l ++ [raw]) = Some (Z.of_nat (length l)).
Proof.
  intros H. unfold position. rewrite list_find_app_r.
  - cbn. by rewrite decide_True.
  - apply list_find_None, Forall_forall. intros x Hx E. subst. by apply H, list_elem_of_In.

Qed.

Lemma position_other raw x l : raw <> x -> position raw (l ++ [x]) = position raw l.
Proof.
  intros H. destruct (decide (raw ∈ l)) as [Hi|Hi]; [by apply position_app|].
  destruct (position raw (l ++ [x])) eqn:E1, (position raw l) eqn:E2; try done; exfalso.
  - apply Hi, position_in. rewrite E2. by eexists.
  - assert (raw ∈ l ++ [x]) by (apply position_in; rewrite E1; by eexists). set_solver.
  - apply Hi, position_in. rewrite E2. by eexists.
Qed.

Lemma ordinal_spec m seen raw : represents m seen ->
  represents (ordinal m raw).1 (see seen raw) /\ Some (ordinal m raw).2 = position raw (see seen raw).
Proof.
  intros [Hm Hs]. unfold ordinal, see. rewrite Hm. destruct (decide (raw ∈ seen)) as [H|H].
  - apply position_in in H as H'. destruct H' as [o Ho]. rewrite Ho. done.
  - destruct (position raw seen) eqn:E; [exfalso; apply H, position_in; rewrite E; by eexists|]. cbn [fst snd].
    rewrite position_new, Hs by done. split; [split|done].
    + intros r. destruct (decide (r = raw)) as [->|Hn].
      * rewrite lookup_insert_eq, position_new; done.
      * by rewrite lookup_insert_ne, Hm, position_other.
    + rewrite map_size_insert_None by (by rewrite Hm). rewrite length_app. cbn. lia.
Qed.

Lemma see_position raws seen raw : raw ∈ seen -> position raw (foldl see seen raws) = position raw seen.
Proof.
  revert seen. induction raws as [|r rs IH]; intros seen H; cbn [foldl]; [done|]. rewrite IH; unfold see; case_decide; try done; [|set_solver].
  by apply position_app.
Qed.

Lemma see_elem seen raw : raw ∈ see seen raw.
Proof. unfold see. case_decide; set_solver. Qed.
(** What the translator sends for a list of events: the chunk of each event and the chunk that trails it. *)
Fixpoint client_stream (w : OpenAiWriter) (f : OpenAiStreamFraming) (evs : list IrStreamEvent)
    : list (IrStreamEvent * Value * option Value) :=
  match evs with
  | [] => []
  | ev :: evs =>
      let '(w, out) := write_response_event w ev in
      match out with
      | Some (_, v) => let '(f, v, trailing) := on_egress_chunk f v in (ev, v, trailing) :: client_stream w f evs
      | None => client_stream w f evs
      end
  end.

Definition stamped (id created model v : Value) : Prop :=
  get "id" v = Some id /\ get "created" v = Some created /\ get "model" v = Some model.

(** The index of the tool block an event is about, and the index on the call of a chunk. *)
Definition raw_index (ev : IrStreamEvent) : option Z :=
  match ev with
  | BlockStart i (ToolUseBlock _ _) | BlockDelta i (InputJsonDelta _) => Some (Z.of_nat i)
  | _ => None
  end.
Definition call_index (v : Value) : option Z :=
  cs ← get_array "choices" v; c ← head cs; d ← get "delta" c; calls ← get_array "tool_calls" d; tc ← head calls; get_u64 "index" (members tc).

Definition counted (u : IrUsage.t) : bool := negb (prompt_tokens u =? 0) || negb (IrUsage.output_tokens u =? 0).

(** Usage is never on the chunk that ends the message; it trails it, for the clients that asked. *)
Definition usage_rule (include : bool) (id created model : Value) (ev : IrStreamEvent) (v : Value) (trailing : option Value) : Prop :=
  match ev with
  | MessageDelta (Some _) _ u =>
      get "usage" v = None /\
      (include && counted u = false -> trailing = None) /\
      (include && counted u = true -> exists t, trailing = Some t /\ stamped id created model t /\
         get "choices" t = Some (Array []) /\ get "usage" t = Some (Object (write_openai_usage u)))
  | MessageDelta None _ _ => trailing = None
  | _ => get "usage" v = None /\ trailing = None
  end.

Definition body_event (ev : IrStreamEvent) : bool :=
  match ev with MessageStart _ _ _ _ _ | Error _ => false | _ => true end.

Definition numbered (m : gmap Z Z) (ev : IrStreamEvent) : gmap Z Z :=
  match raw_index ev with Some raw => (ordinal m raw).1 | None => m end.

(** One event of a stream whose identity is latched. *)
Lemma egress_event a b c m inc synth now ev nm v : body_event ev = true -> openai_write_event synth now ev = Some (nm, v) ->
  exists v' t, openai_on_egress_chunk (mk_framing (Some (mk_identity a b (Some c))) m inc) v =
                 (mk_framing (Some (mk_identity a b (Some c))) (numbered m ev) inc, v', t) /\
    stamped a b c v' /\ (forall raw, raw_index ev = Some raw -> call_index v' = Some (ordinal m raw).2) /\
    usage_rule inc a b c ev v' t.
Proof.
  intros Hb. destruct ev as [|i blk|i d|i|r sq u| |]; try done; unfold openai_write_event.
  - destruct blk as [| |id name|]; try done. intros [= <- <-]. unfold numbered. cbn [raw_index].
    destruct (ordinal m (Z.of_nat i)) as [m' o] eqn:E. destruct inc; eexists _, _; 
      (split; [lazy -[ordinal Z.of_nat of_bytes]; rewrite E; reflexivity|]);
      (split; [done|]); (split; [by intros raw [= <-]; rewrite E|done]).
  - destruct d as [x|x|x|x|x|x|[|x xs]]; try done; intros [= <- <-]; unfold numbered; cbn [raw_index].
    + destruct inc; eexists _, _; (split; [lazy -[ordinal Z.of_nat of_bytes]; reflexivity|done]).
    + destruct (ordinal m (Z.of_nat i)) as [m' o] eqn:E. destruct inc; eexists _, _; 
      (split; [lazy -[ordinal Z.of_nat of_bytes]; rewrite E; reflexivity|]);
      (split; [done|]); (split; [by intros raw [= <-]; rewrite E|done]).
    + destruct inc; eexists _, _; (split; [lazy -[ordinal Z.of_nat of_bytes write_openai_logprobs]; reflexivity|done]).
  - unfold write_usage_chunk. change (negb (prompt_tokens u =? 0) || _) with (counted u). cbn [fmap option_fmap option_map]. intros [= <- <-].
    unfold numbered; cbn [raw_index usage_rule]. 
    destruct r as [r|], (counted u), inc; eexists _, _;
      (split; [lazy -[ordinal Z.of_nat of_bytes write_openai_usage write_openai_stop_reason]; reflexivity|]);
      (split; [done|]); (split; [done|]); try done; (split; [done|]); (split; [done|]); try done. 
    intros _. eexists. by repeat split.
Qed.
(** The wire a client sees: one identity, tool calls numbered by [seen], usage by the rule. *)
Definition wire_ok (include : bool) (id created model : Value) (seen : list Z) (out : IrStreamEvent * Value * option Value) : Prop :=
  let '(ev, v, t) := out in
  stamped id created model v /\ (forall raw, raw_index ev = Some raw -> call_index v = position raw seen) /\
  usage_rule include id created model ev v t.

Lemma body_stream a b c inc evs w m seen : represents m seen -> forallb body_event evs = true ->
  Forall (wire_ok inc a b c (foldl see seen (omap raw_index evs)))
    (client_stream w (mk_framing (Some (mk_identity a b (Some c))) m inc) evs).
Proof.
  revert w m seen. induction evs as [|ev evs IH]; intros w m seen Hm Hb; [constructor|].
  cbn [forallb] in Hb. apply andb_true_iff in Hb as [Hev Hb]. cbn [client_stream write_response_event openai_writer].
  assert (Hn : represents (numbered m ev) (match raw_index ev with Some r => see seen r | None => seen end)).
  { unfold numbered. destruct (raw_index ev); [by apply ordinal_spec|done]. }
  assert (Hs : foldl see seen (omap raw_index (ev :: evs)) =
               foldl see (match raw_index ev with Some r => see seen r | None => seen end) (omap raw_index evs))
    by (cbn [omap list_omap]; by destruct (raw_index ev)).
  rewrite Hs. destruct (openai_write_event (entropy w (drawn w)) (clock w (drawn w)) ev) as [[nm v]|] eqn:E.
  - destruct (egress_event a b c m inc _ _ ev nm v Hev E) as (v' & t & Ho & Hst & Hc & Hu).
    cbn [on_egress_chunk openai_framing]. rewrite Ho. constructor; [|by apply IH].
    split_and!; [done| |done]. intros raw Hr. rewrite (Hc raw Hr), Hr. destruct (ordinal_spec m seen raw Hm) as [_ ->].
    by rewrite see_position by apply see_elem.
  - unfold numbered in Hn. destruct (raw_index ev) as [r|] eqn:Er; [|by apply IH].
    exfalso. by destruct ev as [|? []|? []|? | | |].
Qed.

(** The opening chunk latches the identity. *)
Lemma egress_start synth now inc usage id created model : exists v v',
  openai_write_event synth now (MessageStart Assistant usage id created model) = Some ([], v) /\
  openai_on_egress_chunk (mk_framing None ∅ inc) v =
    (mk_framing (Some (mk_identity (json_str (default synth id)) (json_u64 (default now created))
       (Some (json_str (model_or_default model))))) ∅ inc, v', None) /\
  stamped (json_str (default synth id)) (json_u64 (default now created)) (json_str (model_or_default model)) v' /\
  get "usage" v' = None.
Proof.
  eexists. enough (He : exists v', _) by (destruct He as [v' He]; exists v'; split; [reflexivity|exact He]).
  destruct inc; eexists; (split; [lazy -[of_bytes default from_option model_or_default]; reflexivity|unfold stamped; split_and!; reflexivity]).
Qed.

(** C18.  A Chat Completions client of a translated stream sees one identity on every chunk (the id, the
    creation time and the model of the message), the tool calls numbered 0, 1, 2 ... in the order they
    first appear, whatever blocks they came from, and every later fragment of a call with the number of
    its first; usage is never on the chunk with the finish reason: it follows on a chunk without choices
    when the client asked for it and something was counted, and is dropped otherwise. *)
Theorem openai_client_wire w include usage id created model evs : forallb body_event evs = true ->
  Forall (wire_ok include
            (json_str (default (entropy w (drawn w)) id)) (json_u64 (default (clock w (drawn w)) created))
            (json_str (model_or_default model)) (first_seen (omap raw_index evs)))
    (client_stream w (mk_framing None ∅ include) (MessageStart Assistant usage id created model :: evs)).
Proof.
  intros Hb. cbn [client_stream write_response_event openai_writer].
  destruct (egress_start (entropy w (drawn w)) (clock w (drawn w)) include usage id created model) as (v & v' & Hw & Ho & Hs & Hu).
  rewrite Hw. cbn [on_egress_chunk openai_framing]. rewrite Ho. constructor; [by split_and!|].
  by apply (body_stream _ _ _ include evs _ ∅ []).
Qed.
End Framing.

(** ** Streams *)
#[local] Instance chunk_text : JsonText := { parse_text _ := None; print_text _ := [] }.

Definition chunk_with (delta : list (string * Value)) (finish : option string) : Value :=
  json_obj [("object", Str OBJ_CHUNK); ("id", Str "c1");
    ("choices", Array [json_obj [("index", json_u64 0); ("delta", json_obj delta);
       ("finish_reason", match finish with Some f => Str f | None => Null end)]])].

Definition call_with (index : Z) (name : string) : Value :=
  json_obj [("index", json_u64 index); ("id", Str "t");
            ("function", json_obj [("name", Str name); ("arguments", Str "{}")])].

Definition mixed_stream : list Value :=
  [chunk_with [("reasoning_content"%string, Str "hm")] None;
   chunk_with [("tool_calls"%string, Array [call_with 0 "f"])] None;
   chunk_with [("content"%string, Str "and")] None;
   chunk_with [("tool_calls"%string, Array [call_with 1 "g"; call_with 0 "f"])] None].

Definition last_chunk : Value := chunk_with [] (Some "tool_calls"%string).

Lemma openai_stream_bracketed_witness :
  brackets ∅ (read_chunks mixed_stream decode_init).2 = Some (blocks (read_chunks mixed_stream decode_init).1) /\
  brackets ∅ (read_chunks (mixed_stream ++ [last_chunk]) decode_init).2 = Some ∅.
Proof. apply (openai_stream_bracketed mixed_stream last_chunk). by eexists. Defined.

Lemma openai_slots_disjoint_witness : fresh ∅ (read_chunks (mixed_stream ++ [last_chunk]) decode_init).2 = true.
Proof. apply (openai_slots_disjoint mixed_stream last_chunk); [by repeat constructor|by eexists]. Defined.

(** The blocks of that stream sit at 0 (reasoning), 1 (the first call), 2 (text) and 3 (the second call). *)
Example mixed_starts :
  omap (fun ev => match ev with BlockStart i _ => Some i | _ => None end) (read_chunks (mixed_stream ++ [last_chunk]) decode_init).2 =
  [0; 1; 2; 3]%nat.
Proof. by vm_compute. Qed.

(** An upstream whose first call has the index 1 gets two blocks at the same place: the text that follows
    takes the slot of the call. *)
Example sparse_calls_collide :
  let evs := (read_chunks [chunk_with [("tool_calls"%string, Array [call_with 1 "f"])] None;
                           chunk_with [("content"%string, Str "and")] None] decode_init).2 in
  fresh ∅ evs = false /\
  omap (fun ev => match ev with BlockStart i _ => Some i | _ => None end) evs = [1; 1]%nat.
Proof. by vm_compute. Qed.

Definition demo_writer : OpenAiWriter := mk_writer (fun _ => bytes_of "chatcmpl-0") (fun _ => 1700000000) 0.

Definition demo_events : list IrStreamEvent :=
  [BlockStart 0 TextBlock; BlockDelta 0 (TextDelta (bytes_of "hi")); BlockStop 0;
   BlockStart 3 (ToolUseBlock (bytes_of "a") (bytes_of "f")); BlockStart 1 (ToolUseBlock (bytes_of "b") (bytes_of "g"));
   BlockDelta 3 (InputJsonDelta (bytes_of "{}")); BlockStop 3; BlockStop 1;
   MessageDelta (Some Ir.ToolUse) None (IrUsage.mk 5 7 None None); MessageStop].

Lemma openai_client_wire_witness :
  Forall (wire_ok true (json_str (bytes_of "chatcmpl-0")) (json_u64 1700000000) (json_str (model_or_default None)) [3; 1])
    (client_stream demo_writer (mk_framing None ∅ true) (MessageStart Assistant None None None None :: demo_events)).
Proof. apply (openai_client_wire demo_writer true None None None None demo_events). reflexivity. Defined.

Example demo_numbers : omap (fun o => call_index o.1.2)
  (client_stream demo_writer (mk_framing None ∅ true) (MessageStart Assistant None None None None :: demo_events)) = [0; 1; 0].
Proof. by vm_compute. Qed.
