(* ===== verification/OpenAiRoundtrip.v ===== *)
(** * Round trips in the Chat Completions dialect: requests, image URLs and usage *)
From stdpp Require Import base list strings gmap.
From Stdlib Require Import ZArith Lia SpecFloat.
From S2P Require Import Prelude Breaker Cell EventStream EventStreamFacts Sse Ir Translate IrSeam Json JsonTree Anthropic AnthropicProps OpenAi.
Import OpenAi.
Open Scope Z_scope.
Open Scope rust_scope.

Module ChatRoundtrip.
Section ChatRoundtrip.
Context {T : JsonText}.

(** ** Images *)

(** An image a URL can carry: a link, or inline data. *)
Definition linked (src : IrImageSource) : Prop :=
  match image_url_from_ir src with Some url => octets url = true /\ parse_image_url url = src | None => False end.

Lemma split_once_byte_app c l r : c ∉ l -> split_once_byte c (l ++ c :: r) = Some (l, r).
Proof.
  induction l as [|x l IH]; intros Hc; cbn [app split_once_byte]; [by rewrite Z.eqb_refl|].
  apply not_elem_of_cons in Hc as [Hx Hc]. rewrite (proj2 (Z.eqb_neq _ _)) by done. by rewrite IH.
Qed.

Lemma contains_suffix p b : contains_bytes p (b ++ p) = true.
Proof.
  assert (Hp : has_prefix p p = true).
  { induction p as [|x p IH]; [done|]. cbn. by rewrite Z.eqb_refl. }
  induction b as [|x b IH]; cbn [app].
  - destruct p; cbn; [done|]. cbn in Hp. by rewrite Hp.
  - cbn [contains_bytes]. rewrite IH. apply orb_true_r.
Qed.

(** Inline data is written as a data URL that reads back, when its type has no separator in it. *)
Lemma data_url_linked media_type data : media_type <> [] -> (44 ∉ media_type) -> (59 ∉ media_type) ->
  octets media_type = true -> octets data = true -> linked (SourceBase64 media_type data).
Proof.
  intros Hne Hc Hs Hm Hd. unfold linked, image_url_from_ir. split.
  - unfold octets in *. rewrite !forallb_app, Hm, Hd. by vm_compute.
  - unfold parse_image_url.
    replace (bytes_of "data:" ++ media_type ++ bytes_of ";base64," ++ data)
      with (bytes_of "data:" ++ (media_type ++ bytes_of ";base64") ++ 44 :: data) by by rewrite <- !app_assoc.
    change (strip_bytes (bytes_of "data:") (bytes_of "data:" ++ ?l)) with (Some l).
    cbn [mbind option_bind]. rewrite split_once_byte_app.
    2: { rewrite elem_of_app. intros [|H]; [done|]. revert H. apply (bool_decide_eq_false_1 _). by vm_compute. }
    unfold split_first. change (bytes_of ";base64") with (59 :: bytes_of "base64").
    rewrite split_once_byte_app by done. rewrite bool_decide_eq_false_2 by done.
    replace (media_type ++ 59 :: bytes_of "base64") with ((media_type ++ [59]) ++ bytes_of "base64") by by rewrite <- app_assoc.
    by rewrite contains_suffix.
Qed.

(** ** Messages *)
Definition native_part (b : IrBlock) : Prop :=
  match b with
  | Text t None [] => octets t = true
  | Image src None => linked src
  | _ => False
  end.

(** Arguments whose text reads back: a value that prints, or a text that is not JSON. *)
Definition native_input (input : Value) : Prop :=
  octets (tool_arguments_to_string input) = true /\ read_input (tool_arguments_to_string input) = input.

Definition native_call (b : IrBlock) : Prop :=
  match b with
  | ToolUse_ id nm input None => octets id = true /\ octets nm = true /\ native_input input
  | _ => False
  end.

Definition native_message (m : IrMessage) : Prop :=
  match role m with
  | User => content m <> [] /\ Forall native_part (content m)
  | Assistant => content m <> [] /\ exists parts calls, content m = parts ++ calls /\ Forall native_part parts /\ Forall native_call calls
  | Tool => exists id text, content m = [ToolResult id [Text text None []] false None] /\ octets id = true /\ octets text = true
  | System => False
  end.

Lemma read_written_part b : native_part b -> exists v, write_part b = Some v /\ read_openai_block v = inr b.
Proof.
  destruct b as [t [] []| | | |src [] |]; try done; cbn [native_part write_part].
  - intros Ht. eexists. split; [done|]. unfold json_obj, read_openai_block. by read_members.
  - unfold linked. destruct (image_url_from_ir src) as [url|]; [|done]. intros [Ho Hp]. eexists. split; [done|].
    unfold json_obj, read_openai_block. read_members. eval_keys. read_members. cbn [default from_option]. unfold id. by rewrite Hp.
Qed.

Lemma read_written_parts l : Forall native_part l ->
  collect read_openai_block (omap write_part l) = inr l /\ length (omap write_part l) = length l.
Proof.
  induction 1 as [|b l Hb _ [IH1 IH2]]; [done|]. destruct (read_written_part b Hb) as (v & Hw & Hv).
  cbn [omap list_omap]. rewrite Hw. cbn [collect length]. rewrite Hv. fold (collect read_openai_block).
  split; [|by f_equal]. by rewrite IH1.
Qed.

Lemma read_written_call b : native_call b -> exists v, write_tool_call b = Some v /\ read_tool_call v = inr b.
Proof.
  destruct b as [| |id nm input []| | |]; try done. intros (Hi & Hn & Ho & Hr). eexists. split; [done|].
  unfold read_tool_call, json_obj. cbn [get]. read_members. eval_keys. read_members. cbn [default from_option]. unfold Datatypes.id. by rewrite Hr.
Qed.

Lemma read_written_calls l : Forall native_call l ->
  collect read_tool_call (omap write_tool_call l) = inr l.
Proof.
  induction 1 as [|b l Hb _ IH]; [done|]. destruct (read_written_call b Hb) as (v & Hw & Hv).
  cbn [omap list_omap]. rewrite Hw. cbn [collect]. rewrite Hv. fold (collect read_tool_call). by rewrite IH.
Qed.

(** Parts are not calls and calls are not parts, and neither is a tool result. *)
Lemma parts_only l : Forall native_part l -> omap write_tool_call l = [] /\ omap write_tool_result l = [].
Proof.
  induction 1 as [|b l Hb _ [IH1 IH2]]; [done|]. cbn [omap list_omap]. by destruct b; rewrite ?IH1, ?IH2.
Qed.
Lemma calls_only l : Forall native_call l -> omap write_part l = [] /\ omap write_tool_result l = [].
Proof.
  induction 1 as [|b l Hb _ [IH1 IH2]]; [done|]. cbn [omap list_omap]. by destruct b; rewrite ?IH1, ?IH2.
Qed.

(** The content of a message with something in it. *)
Definition written_content (parts : list Value) : Value := match parts with [] => Null | _ => Array parts end.

Lemma written_content_eq l : l <> [] ->
  match l with [] => Str "" | b :: l' => match omap write_part (b :: l') with [] => Null | parts => Array parts end end =
  written_content (omap write_part l).
Proof. destruct l; [done|]. intros _. unfold written_content. by destruct (omap write_part _). Qed.

Lemma read_written_content l : Forall native_part l -> read_parts (Some (written_content (omap write_part l))) = inr l.
Proof.
  intros Hl. destruct (read_written_parts l Hl) as [Hr Hlen]. destruct (omap write_part l) eqn:E; [by destruct l|exact Hr].
Qed.

Lemma elements_array_opt l : elements (array_opt l) = l.
Proof. by destruct l. Qed.

Lemma chat_read_written_message m : native_message m ->
  exists v, write_openai_message m = [v] /\ read_openai_message v = inr m.
Proof.
  unfold native_message, write_openai_message. destruct m as [ro l]. cbn [role content]. destruct ro; [done|..].
  - intros [Hne Hp]. destruct (parts_only l Hp) as [Hc Hr]. eexists. rewrite Hr, Hc, written_content_eq by done. split; [reflexivity|].
    unfold read_openai_message, get_str. cbn [get members insert_opt array_opt]. read_members. cbn [default from_option openai_role id].
    change (read_role "user") with (inr User : Result IrRole). cbv iota. by rewrite read_written_content.
  - intros (Hne & parts & calls & -> & Hp & Hc). rewrite !omap_app.
    destruct (parts_only parts Hp) as [Hp1 Hp2], (calls_only calls Hc) as [Hc1 Hc2].
    eexists. rewrite Hp2, Hc2. cbn [app]. split; [reflexivity|]. rewrite written_content_eq, !omap_app, Hp1, Hc1, app_nil_r by done. cbn [app].
    unfold read_openai_message, get_str, read_tool_calls. cbn [get members]. read_members. cbn [default from_option openai_role id].
    change (read_role "assistant") with (inr Assistant : Result IrRole). cbv iota.
    rewrite read_written_content by done. by rewrite elements_array_opt, read_written_calls.
  - intros (id & text & -> & Hi & Ht). eexists. split; [reflexivity|]. unfold read_openai_message, get_str, json_obj. cbn [get members].
    read_members. cbn [default from_option]. change (read_role (Datatypes.id "tool"%string)) with (inr Tool : Result IrRole). cbv iota.
    cbn [omap list_omap text_of concat]. rewrite app_nil_r. cbn [tool_content_text]. rewrite ?of_bytes_inv by done. done.
Qed.

Lemma read_written_messages msgs : Forall native_message msgs ->
  collect read_openai_message (concat (write_openai_message <$> msgs)) = inr msgs.
Proof.
  induction 1 as [|m msgs Hm _ IH]; [done|]. destruct (chat_read_written_message m Hm) as (v & Hw & Hv).
  cbn [fmap list_fmap concat]. rewrite Hw. cbn [app collect]. rewrite Hv. fold (collect read_openai_message). by rewrite IH.
Qed.

(** ** System blocks travel as messages and are folded back *)
Definition native_system_block (b : IrBlock) : Prop := match b with Text t None [] => octets t = true | _ => False end.

Lemma read_written_system_block b : native_system_block b -> read_openai_message (write_system b) = inr (mk_message System [b]).
Proof.
  destruct b as [t [] []| | | | |]; try done. cbn [native_system_block]. intros Ht. unfold write_system, read_openai_message, get_str, json_obj.
  cbn [get members system_text]. read_members. cbn [default from_option]. change (read_role (id "system"%string)) with (inr System : Result IrRole).
  cbv iota. cbn [read_parts]. by rewrite of_bytes_inv.
Qed.

Lemma collect_app {A B} (f : A -> Result B) l1 l2 r1 : collect f l1 = inr r1 ->
  collect f (l1 ++ l2) = let! r2 := collect f l2 in inr (r1 ++ r2).
Proof.
  revert r1. induction l1 as [|a l1 IH]; intros r1; [intros [= <-]; cbn [app]; by destruct (collect f l2)|].
  cbn [collect app]. fold (collect f). destruct (f a); [done|]. destruct (collect f l1) as [|r]; [done|]. intros [= <-].
  rewrite (IH r) by done. by destruct (collect f l2).
Qed.

Lemma promote_written sys msgs : Forall native_message msgs ->
  promote [] (((fun b => mk_message System [b]) <$> sys) ++ msgs) = (sys, msgs).
Proof.
  intros Hm. unfold promote. rewrite foldl_app.
  assert (Hsys : forall acc, foldl (fun acc msg => match role msg with
      | System => (acc.1 ++ content msg, acc.2) | _ => (acc.1, acc.2 ++ [msg]) end) (acc, [])
      ((fun b => mk_message System [b]) <$> sys) = (acc ++ sys, [] : list IrMessage)).
  { induction sys as [|b sys IH]; intros acc; cbn [fmap list_fmap foldl role content fst snd]; [by rewrite app_nil_r|].
    etrans; [apply IH|]. by rewrite <- app_assoc. }
  rewrite Hsys. cbn [app].
  assert (Hall : forall acc, foldl (fun acc msg => match role msg with
      | System => (acc.1 ++ content msg, acc.2) | _ => (acc.1, acc.2 ++ [msg]) end) (sys, acc) msgs = (sys, acc ++ msgs)).
  { induction Hm as [|m msgs Hm _ IH]; intros acc; cbn [foldl]; [by rewrite app_nil_r|].
    unfold native_message in Hm. destruct (role m); [done|..]; cbn [fst snd]; rewrite IH, <- app_assoc; done. }
  by rewrite Hall.
Qed.

Lemma read_written_conversation sys msgs : Forall native_system_block sys -> Forall native_message msgs ->
  collect read_openai_message ((write_system <$> sys) ++ concat (write_openai_message <$> msgs)) =
    inr (((fun b => mk_message System [b]) <$> sys) ++ msgs).
Proof.
  intros Hs Hm. rewrite (collect_app _ _ _ ((fun b => mk_message System [b]) <$> sys)).
  - by rewrite read_written_messages.
  - induction Hs as [|b sys Hb _ IH]; [done|]. cbn [fmap list_fmap collect]. fold (collect read_openai_message).
    rewrite read_written_system_block by done. by rewrite IH.
Qed.

(** ** Tools and controls *)
Definition native_tool (t : IrTool) : Prop :=
  octets (name t) = true /\ octets_opt (description t) = true /\ input_schema t <> Null /\ tool_cache t = None /\ hosted t = None.

Lemma chat_read_written_tool t : native_tool t -> read_openai_tool (write_openai_tool t) = inr t.
Proof.
  intros (Hn & Hd & Hs & Hc & Hh). unfold write_openai_tool, read_openai_tool, json_obj. read_members. eval_keys.
  unfold get_first. cbn [foldr as_object]. read_members. cbn [default from_option]. destruct t as [nm d sch cc h]. cbn in *.
  rewrite get_opt_text by done. subst. by destruct sch.
Qed.

Lemma chat_read_written_tool_choice tc : match tc with ChoiceTool nm => octets nm = true | _ => True end ->
  read_openai_tool_choice (Some (write_openai_tool_choice tc)) = Some tc.
Proof.
  destruct tc as [| | |nm]; try done. intros Ho. unfold read_openai_tool_choice, write_openai_tool_choice, json_obj.
  read_members. rewrite bool_decide_eq_true_2 by done. by read_members.
Qed.

Definition native_format (f : IrResponseFormat) : Prop :=
  if json_mode f then
    match schema f with
    | Some _ => (exists nm, format_name f = Some nm /\ octets nm = true) /\ octets_opt (format_description f) = true
    | None => format_name f = None /\ strict f = None /\ format_description f = None
    end
  else schema f = None /\ format_name f = None /\ strict f = None /\ format_description f = None.

Lemma read_written_format f : native_format f -> read_openai_response_format (write_openai_response_format f) = Some f.
Proof.
  destruct f as [mode sch nm st d]. unfold native_format, write_openai_response_format. cbn [json_mode schema format_name strict format_description].
  destruct mode; [destruct sch as [sch|]|].
  - intros [(n & -> & Hn) Hd]. unfold read_openai_response_format, json_obj. cbn [negb as_object mbind option_bind]. read_members. eval_keys.
    read_members. cbn [fmap option_fmap option_map members default from_option]. unfold id. read_members.
    change (fun b : bytes => Str (of_bytes b)) with json_str. rewrite get_opt_text by done. by destruct st.
  - by intros (-> & -> & ->).
  - by intros (-> & -> & -> & ->).
Qed.

Definition u32_opt (o : option Z) : Prop := match o with Some v => 0 <= v <= U32_MAX | None => True end.

Definition native_controls (tools : list IrTool) (c : Controls) : Prop :=
  finite_opt (temperature c) /\ finite_opt (top_p c) /\ top_k c = None /\ finite_opt (frequency_penalty c) /\
  finite_opt (presence_penalty c) /\ match seed c with Some z => z <= I64_MAX | None => True end /\
  (is_Some (top_logprobs c) -> logprobs c = Some true) /\ u32_opt (top_logprobs c) /\
  match response_format c with Some f => native_format f | None => True end /\
  Forall (fun s => s <> [] /\ octets s = true) (stop c) /\
  match tool_choice c with Some (ChoiceTool nm) => octets nm = true | _ => True end /\
  octets_opt (user c) = true /\ (is_Some (parallel_tool_calls c) -> tools <> []).

(** The members the gateway does not model; the mark of a cap that came as [max_completion_tokens]. *)
Definition SENTINEL : bytes := bytes_of MAX_COMPLETION_TOKENS_SENTINEL.
Definition native_extra (r : IrRequest) : Prop :=
  (forall k v, extra r !! k = Some v -> octets k = true /\ unmodeled (of_bytes k) = true) /\
  (forall v, extra r !! SENTINEL = Some v -> v = Bool true /\ is_Some (max_tokens r)).

Record native_request (r : IrRequest) : Prop := mk_native {
  native_system : Forall native_system_block (system r);
  native_messages : Forall native_message (messages r);
  native_tools : Forall native_tool (tools r);
  native_max_tokens : match max_tokens r with Some v => 0 < v <= U32_MAX | None => True end;
  native_n : u32_opt (n r);
  native_budgets : reasoning_budgets r = None;
  native_reasoning : match reasoning r with None | Some (Effort Low) | Some (Effort Medium) | Some (Effort High) => True | _ => False end;
  native_controls_ok : native_controls (tools r) (controls r);
  native_extra_ok : native_extra r }.

(** The match a lookup decides, when it is known. *)
Ltac case_on E := match goal with |- context [match ?x with Some _ => _ | None => _ end] => rewrite (E : x = _) end.

(** ** The members of a written request *)
Definition request_member (req : IrRequest) (k : string) : option Value :=
  let c := controls req in
  if String.eqb "messages" k then
    Some (Array ((write_system <$> system req) ++ concat (write_openai_message <$> messages req)))
  else if String.eqb (max_tokens_key (extra req)) k then json_u64 <$> max_tokens req
  else if String.eqb "temperature" k then json_f64 <$> temperature c
  else if String.eqb "top_p" k then json_f64 <$> top_p c
  else if String.eqb "stop" k then array_opt (json_str <$> stop c)
  else if String.eqb "frequency_penalty" k then json_f64 <$> frequency_penalty c
  else if String.eqb "presence_penalty" k then json_f64 <$> presence_penalty c
  else if String.eqb "seed" k then json_i64 <$> seed c
  else if String.eqb "n" k then json_u64 <$> n req
  else if String.eqb "user" k then json_str <$> user c
  else if String.eqb "parallel_tool_calls" k then
    match tools req with [] => None | _ => Bool <$> parallel_tool_calls c end
  else if String.eqb "reasoning_effort" k then
    (fun ask => json_str (as_openai_reasoning_effort
       (to_effort ask (default REASONING_BUDGET_DEFAULTS (reasoning_budgets req))))) <$> reasoning req
  else if String.eqb "logprobs" k then
    match top_logprobs c with Some _ => Some (Bool true) | None => Bool <$> logprobs c end
  else if String.eqb "top_logprobs" k then json_u64 <$> top_logprobs c
  else if String.eqb "response_format" k then write_openai_response_format <$> response_format c
  else if String.eqb "stream" k then Some (Bool (stream c))
  else if String.eqb "tools" k then array_opt (write_openai_tool <$> tools req)
  else if String.eqb "tool_choice" k then write_openai_tool_choice <$> tool_choice c
  else if String.eqb "model" k then extra req !! bytes_of "model"
  else None.

Lemma chat_request_members_get req k : map_get k (request_members req) = request_member req k.
Proof.
  unfold request_members, request_member. cbv zeta. unfold max_tokens_key. destruct (default false _).
  all: repeat match goal with
    | |- _ = if String.eqb ?a ?key then _ else _ =>
        let E := fresh "E" in
        destruct (String.eqb_spec a key) as [<-|E%String.eqb_neq]; [json_get; change (map_get _ []) with (@None Value); by rewrite ?or_absent|]
    end.
  all: repeat (first [rewrite map_get_insert | rewrite map_get_insert_opt]; match goal with H : String.eqb ?a ?key = false |- context [String.eqb ?a ?key] => rewrite H end).
  all: done.
Qed.

Section Request.
Context (r : IrRequest) (Hr : native_request r).

Let written : Map := insert_extra (delete SENTINEL (extra r)) (request_members r).

Lemma chat_written_get k : map_get k written =
  match delete SENTINEL (extra r) !! bytes_of k with Some v => Some v | None => request_member r k end.
Proof.
  unfold written. rewrite map_get_insert_extra, chat_request_members_get; [done|].
  intros k' v Hk. apply lookup_delete_Some in Hk as [_ Hk]. destruct (native_extra_ok r Hr) as [He _]. by apply (He k' v).
Qed.

Lemma chat_written_modeled k : unmodeled k = false -> map_get k written = request_member r k.
Proof.
  intros Hk. rewrite chat_written_get. destruct (delete SENTINEL (extra r) !! bytes_of k) as [v|] eqn:E; [|done].
  apply lookup_delete_Some in E as [_ E]. destruct (native_extra_ok r Hr) as [He _]. apply He in E as [_ E].
  rewrite of_bytes_of in E. congruence.
Qed.

(** The spelling of the cap is the one the request came in. *)
Definition marked : bool := bool_decide (is_Some (extra r !! SENTINEL)).

Lemma max_tokens_key_marked : max_tokens_key (extra r) = if marked then "max_completion_tokens"%string else "max_tokens"%string.
Proof.
  unfold max_tokens_key, marked. fold SENTINEL. destruct (native_extra_ok r Hr) as [_ Hs].
  destruct (extra r !! SENTINEL) as [v|] eqn:E;
    match goal with |- context [default false (?x ≫= _)] => rewrite (E : x = _) end; [|done].
  by destruct (Hs v eq_refl) as [-> _].
Qed.

Lemma written_caps :
  map_get "max_tokens" written = (if marked then None else json_u64 <$> max_tokens r) /\
  map_get "max_completion_tokens" written = (if marked then json_u64 <$> max_tokens r else None).
Proof.
  rewrite !chat_written_modeled by done. unfold request_member. rewrite max_tokens_key_marked. by destruct marked; eval_keys.
Qed.

Lemma chat_read_written_max_tokens :
  positive_u32 (get_first ["max_tokens"; "max_completion_tokens"] written) = max_tokens r.
Proof.
  unfold get_first. cbn [foldr]. destruct written_caps as [-> ->]. pose proof (native_max_tokens r Hr) as Hm.
  destruct marked, (max_tokens r) as [v|]; try done; cbn; destruct Hm as [H1 H2]; unfold u32;
    rewrite (proj2 (Z.leb_le _ _) H2); cbn; by rewrite (proj2 (Z.ltb_lt _ _) H1).
Qed.

Lemma marked_has_cap : marked = true -> is_Some (max_tokens r).
Proof.
  unfold marked. intros Hm%bool_decide_eq_true. destruct Hm as [v Hv]. by destruct (native_extra_ok r Hr) as [_ Hs]; apply (Hs v).
Qed.

Lemma read_written_mark :
  negb (has_key "max_tokens" written) && has_key "max_completion_tokens" written = marked.
Proof.
  unfold has_key. destruct written_caps as [-> ->]. destruct marked eqn:E; [|by rewrite andb_false_r].
  by destruct (marked_has_cap E) as [v ->].
Qed.

(** No member is written under a name the gateway does not model. *)
Lemma chat_request_member_unmodeled k : unmodeled k = true -> request_member r k = None.
Proof.
  unfold unmodeled. rewrite negb_true_iff. cbn [existsb MODELED_KEYS]. intros Hu. simpl_bool.
  unfold request_member. rewrite max_tokens_key_marked.
  assert (Hmax : String.eqb (if marked then "max_completion_tokens" else "max_tokens") k = false)
    by (destruct marked; by rewrite String.eqb_sym).
  rewrite Hmax. 
  repeat match goal with H : String.eqb k ?a = false |- _ => rewrite String.eqb_sym in H; rewrite ?H; clear H end. done.
Qed.

Lemma chat_read_written_extra :
  (if marked && bool_decide (is_Some (max_tokens r)) then <[SENTINEL := Bool true]> (extra_of unmodeled written)
   else extra_of unmodeled written) = extra r.
Proof.
  destruct (native_extra_ok r Hr) as [He Hs].
  assert (Hother : forall k, k <> SENTINEL -> extra_of unmodeled written !! k = extra r !! k).
  { intros k Hk. rewrite extra_of_lookup. destruct (extra r !! k) as [v|] eqn:E.
    - destruct (He k v E) as [Ho ->]. rewrite Ho, chat_written_get, of_bytes_inv, lookup_delete_ne by done. cbn [andb]. by case_on E.
    - destruct (octets k) eqn:Ho; [|done]. destruct (unmodeled (of_bytes k)) eqn:Em; [|done]. cbn [andb].
      rewrite chat_written_get, of_bytes_inv, lookup_delete_ne by done. case_on E. by apply chat_request_member_unmodeled. }
  assert (Hsent : extra_of unmodeled written !! SENTINEL = None).
  { rewrite extra_of_lookup. destruct (octets SENTINEL); [|done]. destruct (unmodeled (of_bytes SENTINEL)); [|done]. rewrite chat_written_get.
    rewrite of_bytes_inv, lookup_delete_eq by by vm_compute. apply chat_request_member_unmodeled. by vm_compute. }
  apply map_eq. intros k. unfold marked. destruct (extra r !! SENTINEL) as [v|] eqn:Ev.
  - destruct (Hs v eq_refl) as [-> Hm]. rewrite !bool_decide_eq_true_2 by done. cbn [andb].
    destruct (decide (k = SENTINEL)) as [->|Hne]; [rewrite lookup_insert_eq; symmetry; exact Ev|]. rewrite lookup_insert_ne by done. auto.
  - rewrite bool_decide_eq_false_2 by (intros []; done). cbn [andb].
    destruct (decide (k = SENTINEL)) as [->|Hne]; [rewrite Hsent; symmetry; exact Ev|auto].
Qed.

Lemma get_finite o : finite_opt o -> (v ← (json_f64 <$> o); as_f64 v) = o.
Proof. destruct o as [x|]; [|done]. cbn. unfold json_f64. by intros ->. Qed.

Lemma get_u32 o : u32_opt o -> (v ← (v ← (json_u64 <$> o); as_u64 v); u32 v) = o.
Proof. destruct o as [v|]; [|done]. intros [_ Hv]. cbn. unfold u32. by rewrite (proj2 (Z.leb_le _ _) Hv). Qed.

Lemma get_opt_bool o : (v ← (Bool <$> o); as_bool v) = o.
Proof. by destruct o. Qed.

Lemma get_seed o : match o with Some z => z <= I64_MAX | None => True end -> (v ← (json_i64 <$> o); as_i64 v) = o.
Proof.
  destruct o as [z|]; [|done]. intros Hz. cbn. unfold json_i64. destruct (0 <=? z); [|done]. cbn.
  by rewrite (proj2 (Z.leb_le _ _) Hz).
Qed.

Lemma chat_read_written_controls :
  mk_controls (get_f64 "temperature" written) (get_f64 "top_p" written) None
    (get_f64 "frequency_penalty" written) (get_f64 "presence_penalty" written) (get_i64 "seed" written)
    (get_bool "logprobs" written) (v ← get_u64 "top_logprobs" written; u32 v)
    (v ← map_get "response_format" written; read_openai_response_format v)
    (read_stop_sequences (map_get "stop" written))
    (read_openai_tool_choice (map_get "tool_choice" written))
    (get_text "user" written) (get_bool "parallel_tool_calls" written) (default false (get_bool "stream" written)) = controls r.
Proof.
  destruct (native_controls_ok r Hr) as (H1 & H2 & H3 & H4 & H5 & H6 & H7 & H8 & H9 & H10 & H11 & H12 & H13).
  unfold get_f64, get_u64, get_i64, get_bool, get_text. rewrite !chat_written_modeled by done. unfold request_member.
  rewrite max_tokens_key_marked. set (mk := if marked then "max_completion_tokens"%string else "max_tokens"%string).
  assert (Hmk : forall k, existsb (String.eqb k) ["max_tokens"; "max_completion_tokens"]%string = false -> String.eqb mk k = false).
  { intros k Hk. cbn in Hk. unfold mk. destruct marked; rewrite String.eqb_sym; by destruct (String.eqb k "max_tokens"), (String.eqb k "max_completion_tokens"). }
  rewrite !Hmk by done. eval_keys. clear Hmk mk.
  rewrite !get_finite, get_u32, get_seed, read_written_stop, get_opt_text by done.
  destruct (controls r) as [tm tp tk fp pp sd lp tl rf st tc us pt sr]. cbn in *. subst tk. f_equal.
  - destruct tl as [v|]; [by rewrite H7|apply get_opt_bool].
  - destruct rf as [f|]; [|done]. cbn. by apply read_written_format.
  - destruct tc as [c|]; [|done]. by apply (chat_read_written_tool_choice c).
  - destruct pt as [p|]; [|by destruct (tools r)]. destruct (tools r); [by destruct H13|done].
Qed.

Lemma chat_read_written_reasoning : (Effort <$> (s ← get_text "reasoning_effort" written; parse_effort s)) = reasoning r.
Proof.
  unfold get_text. rewrite chat_written_modeled by done. unfold request_member. rewrite max_tokens_key_marked.
  pose proof (native_reasoning r Hr) as Hn. rewrite (native_budgets r Hr).
  destruct marked; eval_keys; destruct (reasoning r) as [[[]| |]|]; done.
Qed.

Lemma read_written_n : (v ← get_u64 "n" written; u32 v) = n r.
Proof.
  unfold get_u64. rewrite chat_written_modeled by done. unfold request_member. rewrite max_tokens_key_marked.
  destruct marked; eval_keys; apply get_u32, Hr.
Qed.

Lemma written_lists :
  map_get "messages" written = Some (Array ((write_system <$> system r) ++ concat (write_openai_message <$> messages r))) /\
  map_get "tools" written = array_opt (write_openai_tool <$> tools r).
Proof.
  rewrite !chat_written_modeled by done. unfold request_member. rewrite max_tokens_key_marked. by destruct marked; eval_keys.
Qed.
End Request.

(** Requests that say nothing the dialect rewrites come back as they are. *)
Lemma native_request_roundtrip r : native_request r -> read_request (write_request r) = inr r.
Proof.
  intros Hr. unfold read_request, write_request. fold SENTINEL. cbn [as_object].
  rewrite (chat_read_written_max_tokens r Hr), (read_written_mark r Hr), (chat_read_written_controls r Hr), (chat_read_written_reasoning r Hr), (read_written_n r Hr).
  destruct (written_lists r Hr) as [-> ->]. cbn [message_values as_array].
  rewrite read_written_conversation by apply Hr. rewrite promote_written by apply Hr.
  rewrite read_array_opt by (intros t Ht; apply chat_read_written_tool; pose proof (native_tools r Hr) as Hl; rewrite Forall_forall in Hl; auto).
  rewrite (chat_read_written_extra r Hr). destruct Hr as [_ _ _ _ _ Hb _ _ _]. destruct r. cbn in *. by subst.
Qed.


(** ** What the writer settles *)

(** The API has no [minimal] that every model takes. *)
Definition settled_effort (e : IrReasoningEffort) : IrReasoningEffort := match e with Minimal => Low | _ => e end.

Definition settled_reasoning (ask : IrReasoningAsk) : IrReasoningAsk :=
  match ask with Effort e => Effort (settled_effort e) | other => other end.

(** A schema has a name; JSON without a schema and text have nothing else. *)
Definition settled_format (f : IrResponseFormat) : IrResponseFormat :=
  if json_mode f then
    match schema f with
    | Some sch => mk_format true (Some sch) (Some (default (bytes_of "response") (format_name f))) (strict f) (format_description f)
    | None => mk_format true None None None None
    end
  else mk_format false None None None None.

(** Top log probabilities ask for log probabilities, and calls are parallel only where there are tools. *)
Definition settled_controls (tools : list IrTool) (c : Controls) : Controls :=
  mk_controls (temperature c) (top_p c) (top_k c) (frequency_penalty c) (presence_penalty c) (seed c)
    (match top_logprobs c with Some _ => Some true | None => logprobs c end) (top_logprobs c)
    (settled_format <$> response_format c) (stop c) (tool_choice c) (user c)
    (match tools with [] => None | _ => parallel_tool_calls c end) (stream c).

Definition settled (r : IrRequest) : IrRequest :=
  mk_request (system r) (messages r) (tools r) (max_tokens r) (n r) (settled_reasoning <$> reasoning r) (reasoning_budgets r)
    (settled_controls (tools r) (controls r)) (extra r).

(** A request the API can say. *)
Record api_request (r : IrRequest) : Prop := mk_api_request {
  api_system : Forall native_system_block (system r);
  api_messages : Forall native_message (messages r);
  api_tools : Forall native_tool (tools r);
  api_max_tokens : match max_tokens r with Some v => 0 < v <= U32_MAX | None => True end;
  api_n : u32_opt (n r);
  api_budgets : reasoning_budgets r = None;
  api_reasoning : match reasoning r with None | Some (Effort _) => True | _ => False end;
  api_sampling : finite_opt (temperature (controls r)) /\ finite_opt (top_p (controls r)) /\ top_k (controls r) = None /\
    finite_opt (frequency_penalty (controls r)) /\ finite_opt (presence_penalty (controls r)) /\
    match seed (controls r) with Some z => z <= I64_MAX | None => True end /\ u32_opt (top_logprobs (controls r));
  api_texts : Forall (fun s => s <> [] /\ octets s = true) (stop (controls r)) /\
    match tool_choice (controls r) with Some (ChoiceTool nm) => octets nm = true | _ => True end /\ octets_opt (user (controls r)) = true /\
    match response_format (controls r) with
    | Some f => octets_opt (format_name f) = true /\ octets_opt (format_description f) = true
    | None => True
    end;
  api_extra : native_extra r }.

Lemma settled_format_native f : octets_opt (format_name f) = true -> octets_opt (format_description f) = true ->
  native_format (settled_format f).
Proof.
  intros Hn Hd. unfold settled_format, native_format. destruct (json_mode f); [|done]. destruct (schema f); [|done].
  cbn. split; [|done]. eexists. split; [done|]. by destruct (format_name f).
Qed.

Lemma settled_native r : api_request r -> native_request (settled r).
Proof.
  intros [Hs Hm Ht Hx Hn Hb Hr Hc Hw He]. split; cbn; try done.
  - by destruct (reasoning r) as [[[]| |]|].
  - destruct Hc as (? & ? & ? & ? & ? & ? & ?), Hw as (? & ? & ? & Hf). unfold native_controls. cbn. split_and!; try done.
    + by destruct (top_logprobs (controls r)); [|intros []].
    + destruct (response_format (controls r)) as [f|]; [|done]. cbn. destruct Hf. by apply settled_format_native.
    + by destruct (tools r); [intros []|].
Qed.

Lemma settled_format_written f : write_openai_response_format (settled_format f) = write_openai_response_format f.
Proof. unfold settled_format, write_openai_response_format. destruct (json_mode f); [|done]. by destruct (schema f). Qed.

Lemma settled_written r : match reasoning r with None | Some (Effort _) => True | _ => False end ->
  write_request (settled r) = write_request r.
Proof.
  intros Hr. unfold write_request. f_equal. f_equal. unfold request_members, settled, settled_controls. cbv zeta.
  assert (forall k v v' m m', v = v' -> m = m' -> insert_opt k v m = insert_opt k v' m') as Ho by by intros * -> ->.
  assert (forall k v v' m m', v = v' -> m = m' -> map_insert k v m = map_insert k v' m') as Hi by by intros * -> ->.
  repeat first [apply Ho|apply Hi]; try reflexivity; cbn [controls response_format top_logprobs logprobs reasoning reasoning_budgets tools parallel_tool_calls].
  - destruct (response_format _) as [f|]; [|done]. cbn. by rewrite settled_format_written.
  - by destruct (top_logprobs _).
  - destruct (default _ _) as [[[t0 t1] t2] t3]. by destruct (reasoning r) as [[[]| |]|].
  - by destruct (tools r).
Qed.

(** C21.  What a Chat Completions request says survives being written and read.  Take any request of what the
    API can say: messages of at least one text or image part, tool calls whose arguments print and parse, tool
    results of one text, tools with a schema, a positive cap on tokens, finite sampling controls, stop strings
    that are not empty, log probabilities, any response format, any reasoning effort.  It is written as a body
    that reads back as the same request, but for four settled things: the effort [minimal] comes back as
    [low], a response format without a schema keeps only its type and one with a schema has a name, top log
    probabilities imply log probabilities, and [parallel_tool_calls] without tools is dropped.  A request
    without those comes back exactly.  System blocks travel as messages and come back as system blocks, the
    cap on tokens keeps the spelling it came in, and every member the gateway does not model is carried. *)
Theorem chat_request_roundtrip r : api_request r ->
  read_request (write_request r) = inr (settled r) /\ (native_request r -> settled r = r).
Proof.
  intros Hr. rewrite <- settled_written by apply Hr. split; [by apply native_request_roundtrip, settled_native|].
  intros [_ _ _ _ _ _ Hre Hc _]. destruct Hc as (_ & _ & _ & _ & _ & _ & Hl & _ & Hf & _ & _ & _ & Hp).
  destruct r as [sy ms ts mt nn re rb [tm tp tk fp pp sd lp tl rf st tc us pt sr] ex]. unfold settled, settled_controls. cbn in *. f_equal.
  - by destruct re as [[[]| |]|].
  - f_equal.
    + destruct tl; [by rewrite Hl|done].
    + destruct rf as [[mode sch nm sct d]|]; [|done]. unfold native_format, settled_format in *. cbn in *.
      destruct mode; [destruct sch|]; [destruct Hf as [(? & -> & _) _]; done|by destruct Hf as (-> & -> & ->)|by destruct Hf as (-> & -> & -> & ->)].
    + destruct ts; [|done]. destruct pt; [|done]. by destruct Hp.
Qed.

(** ** Usage *)

(** What is read back has the same counts, when nothing saturates. *)
Lemma usage_read_back u : IrUsage.cache_creation_input_tokens u = None ->
  0 <= IrUsage.input_tokens u -> 0 <= default 0 (IrUsage.cache_read_input_tokens u) ->
  IrUsage.input_tokens u + default 0 (IrUsage.cache_read_input_tokens u) <= U64_MAX ->
  read_openai_usage (write_openai_usage u) = u.
Proof.
  destruct u as [i o cc cr]. cbn [IrUsage.input_tokens IrUsage.cache_creation_input_tokens IrUsage.cache_read_input_tokens IrUsage.output_tokens].
  intros -> Hi Hc Hs. unfold read_openai_usage, write_openai_usage, prompt_tokens, sat_add_u64, sat_sub_u64.
  destruct cr as [c|]; cbn [default from_option] in *; unfold id in *; read_members; cbn; f_equal; lia.
Qed.

(** The total on the wire is what the gateway bills. *)
Lemma usage_total u : get_u64 "total_tokens" (write_openai_usage u) = Some (IrUsage.billable_tokens u).
Proof. unfold write_openai_usage, prompt_tokens, IrUsage.billable_tokens. read_members. done. Qed.

(** ** Responses *)

(** A response of the Chat Completions API: reasoning and images do not travel back. *)
Record native_response (r : IrResponse) : Prop := mk_native_response {
  response_role : resp_role r = Assistant;
  response_content : exists text calls, resp_content r = text ++ calls /\ Forall native_call calls /\
    (text = [] \/ exists t, text = [Text t None []] /\ t <> [] /\ octets t = true);
  response_stop : match stop_reason r with Some s => s = EndTurn \/ s = MaxTokens \/ s = ToolUse \/ s = Safety | None => True end;
  response_usage : IrUsage.cache_creation_input_tokens (resp_usage r) = None /\
    0 <= IrUsage.input_tokens (resp_usage r) /\ 0 <= default 0 (IrUsage.cache_read_input_tokens (resp_usage r)) /\
    IrUsage.input_tokens (resp_usage r) + default 0 (IrUsage.cache_read_input_tokens (resp_usage r)) <= U64_MAX;
  response_names : octets_opt (model r) = true /\ octets_opt (resp_id r) = true /\ octets_opt (system_fingerprint r) = true;
  response_foreign : stop_sequence r = None /\ resp_logprobs r = [] }.

(** The response with an identity, a time and a model. *)
Definition identified (synth : bytes) (now : Z) (r : IrResponse) : IrResponse :=
  mk_response (resp_role r) (resp_content r) (stop_reason r) (resp_usage r) (Some (model_or_default (model r)))
    (Some (default synth (resp_id r))) (Some (default now (created r))) (system_fingerprint r) (stop_sequence r) (resp_logprobs r).

Lemma calls_no_text l : Forall native_call l -> omap text_of l = [].
Proof. induction 1 as [|b l Hb _ IH]; [done|]. cbn [omap list_omap]. by destruct b; rewrite ?IH. Qed.

Lemma read_written_finish (s : option IrStopReason) :
  match s with Some s => s = EndTurn \/ s = MaxTokens \/ s = ToolUse \/ s = Safety | None => True end ->
  let fr := default ""%string (Json.as_str (match s with Some r => Str (write_openai_stop_reason r) | None => Null end)) in
  (if is_empty fr then None else Some (read_openai_stop_reason fr)) = s.
Proof. destruct s as [s|]; [|done]. by intros [-> |[-> |[-> | ->]]]. Qed.

Lemma no_reasoning calls content :
  read_reasoning_text (insert_opt "tool_calls" calls (map_insert "content" content (map_insert "role" (Str "assistant") []))) = [].
Proof. unfold read_reasoning_text, get_text. cbn [omap list_omap]. by json_get. Qed.

(** A response survives being written and read, and then has an id, a time and a model. *)
Theorem chat_response_roundtrip synth now r : octets synth = true -> native_response r ->
  read_response (write_response synth now r) = inr (identified synth now r).
Proof.
  intros Hs [Hr (text & calls & Hc & Hcalls & Ht) Hst (U1 & U2 & U3 & U4) (Hm & Hi & Hf) (Hq & Hl)].
  assert (Hid : octets (default synth (resp_id r)) = true) by by destruct (resp_id r).
  assert (Hmd : octets (model_or_default (model r)) = true) by (destruct (model r); [done|by vm_compute]).
  unfold write_response, read_response, identified. rewrite Hr, Hc, Hq, Hl, !omap_app, (calls_no_text calls Hcalls). cbn [as_object].
  destruct Ht as [->|(t & -> & Hne & Ho)]; cbn [omap list_omap text_of write_tool_call app concat]; read_members;
    cbn [as_array get]; read_members; cbn [get]; unfold read_tool_calls, get_str; cbn [get members]; read_members.
  all: rewrite no_reasoning, elements_array_opt, read_written_calls by done; rewrite (read_written_finish (stop_reason r) Hst);
    cbn [default from_option]; unfold id; rewrite usage_read_back by done;
    change (fun b : bytes => Str (of_bytes b)) with json_str; rewrite get_opt_text by done.
  { done. }
  rewrite app_nil_r. cbn [read_response_content]. destruct (is_empty (of_bytes t)) eqn:E; [by destruct t|].
  by rewrite of_bytes_inv.
Qed.
End ChatRoundtrip.

(** ** Examples *)
Section Example.
#[local] Instance empty_object_text : JsonText := {
  parse_text b := if decide (b = bytes_of "{}") then Some (Object []) else None; print_text _ := bytes_of "{}" }.

Definition demo_chat : list IrMessage :=
  [mk_message User [Text (bytes_of "look") None []; Image (SourceBase64 (bytes_of "image/png") (bytes_of "AAAA")) None];
   mk_message Assistant [ToolUse_ (bytes_of "t1") (bytes_of "f") (Object []) None];
   mk_message Tool [ToolResult (bytes_of "t1") [Text (bytes_of "42") None []] false None]].

Definition demo_chat_request : IrRequest :=
  mk_request [Text (bytes_of "be brief") None []; Text (bytes_of "be kind") None []] demo_chat
    [mk_tool (bytes_of "f") None (Object []) None None] (Some 512) (Some 2) (Some (Effort High)) None
    (mk_controls (Some (f64_of_Z 1)) None None None None (Some (-3)) (Some true) (Some 5)
       (Some (mk_format true (Some (Object [])) (Some (bytes_of "answer")) (Some true) None)) [bytes_of "END"]
       (Some (ChoiceTool (bytes_of "f"))) (Some (bytes_of "u7")) (Some false) true)
    {[ bytes_of "store" := Bool false; SENTINEL := Bool true ]}.

Lemma demo_chat_native : native_request demo_chat_request.
Proof.
  split; try done.
  - by repeat constructor.
  - constructor; [split; [done|]|constructor; [split; [done|]|constructor; [|constructor]]].
    + constructor; [done|constructor; [apply data_url_linked; try done; apply (bool_decide_eq_false_1 _); by vm_compute|constructor]].
    + eexists [], _. split; [reflexivity|]. by repeat constructor.
    + by exists (bytes_of "t1"), (bytes_of "42").
  - by repeat constructor.
  - split_and!; try done; [split; [by exists (bytes_of "answer")|done]|]. constructor; [done|constructor].
  - split; intros *; cbn [extra demo_chat_request]; rewrite lookup_insert_Some.
    + intros [[<- <-]|[_ Hk]]; [by vm_compute|]. apply lookup_singleton_Some in Hk as [<- _]. by vm_compute.
    + intros [[Hk _]|[_ Hk]]; [by vm_compute in Hk|]. apply lookup_singleton_Some in Hk as [_ <-]. done.
Qed.

(** The same with an effort, a format and log probabilities that are settled. *)
Definition demo_unsettled : IrRequest :=
  let c := controls demo_chat_request in
  mk_request (system demo_chat_request) (messages demo_chat_request) [] (max_tokens demo_chat_request) None (Some (Effort Minimal)) None
    (mk_controls (temperature c) None None None None (seed c) None (Some 3) (Some (mk_format true None (Some (bytes_of "answer")) (Some true) None))
      [] None None (Some false) true) ∅.

Lemma chat_request_roundtrip_witness :
  read_request (write_request demo_chat_request) = inr demo_chat_request /\
  read_request (write_request demo_unsettled) = inr (settled demo_unsettled) /\
  reasoning (settled demo_unsettled) = Some (Effort Low) /\ parallel_tool_calls (controls (settled demo_unsettled)) = None.
Proof.
  pose proof demo_chat_native as [H1 H2 H3 H4 H5 H6 H7 H8 H9]. split; [|split; [|by vm_compute]].
  - destruct (chat_request_roundtrip demo_chat_request) as [E1 E2]; [|rewrite E1; f_equal; apply E2, demo_chat_native].
    split; try done. split_and!; try done. by repeat constructor.
  - apply (chat_request_roundtrip demo_unsettled). split; try done.
Defined.

(** The cap on tokens keeps its spelling. *)
Example demo_chat_cap : get_u64 "max_completion_tokens" (members (write_request demo_chat_request)) = Some 512 /\
  get "max_tokens" (write_request demo_chat_request) = None.
Proof. by vm_compute. Qed.

(** A response format is rebuilt, not kept: a schema format without its schema becomes plain JSON mode. *)
Example format_not_verbatim :
  let rf := json_obj [("type", Str "json_schema"); ("json_schema", json_obj [("name", Str "answer")])] in
  (v ← (match read_request (json_obj [("response_format", rf)]) with inr r => response_format (controls r) | inl _ => None end);
   Some (write_openai_response_format v)) = Some (json_obj [("type", Str "json_object")]).
Proof. by vm_compute. Qed.
End Example.
End ChatRoundtrip.
