(* ===== verification/Deploy.v ===== *)
(** * From the operator's files to the resolved configuration (config/mod.rs)

    The deployment configuration ([DeployCfg], [ProviderDef], the hook lists of a pool), the desugaring
    of a pool's [hooks:] list, and [resolve]: providers merged with the catalog, every inline hook
    reference given a registry name of its own, the admin-plane guard and the projection of the limits.
    A pool as parsed is the [Pool.t] of Topology.v with no gates yet, beside its module references.
    YAML parsing is not modelled; error messages are the cases the code distinguishes. *)
From stdpp Require Import base gmap list strings pretty.
From Stdlib Require Import ZArith Lia Ascii.
From S2P Require Import Prelude Breaker Cell BreakerConfig Cost Select Walk Json HookWire Ranking Routing HookResolve.
From S2P Require Import KeysFacts Sigv4 NetGuard EgressAuth Secrets Topology.
Open Scope Z_scope.
Open Scope rust_scope.

(** ** Hook references *)
Inductive OnErrorCfg := Terminal (word : string) | FallbackTo (hook : string).
Definition as_name (o : OnErrorCfg) : string := match o with Terminal s | FallbackTo s => s end.

Module HookModuleRef.
Record t := mk {
  module : string; settings : Map; kind : option HookKind; timeout_ms : option Z; on_error : option OnErrorCfg;
  on_empty : option PolicyOnError; at_ : option HookStage; prompt : option PromptAccess; user : option UserAccess;
  priority : option Z }.
End HookModuleRef.

Inductive HookRefEntry := Builtin (name : string) | ModuleRef (r : HookModuleRef.t).

(** ** A pool's [hooks:] list *)
Module RawPool.
Record t := mk {
  members : list PoolMember.t; breaker : option Config.BreakerCfg; failover : option FailoverCfg.t;
  on_exhausted : option OnExhaustedCfg; affinity : option (option string); hooks : option (list HookRefEntry) }.
End RawPool.

Module DeployPool.
Record t := mk { pool : Pool.t; module_hooks : list HookModuleRef.t }.
End DeployPool.

Definition is_strategy_name (name : string) : bool := String.eqb name ON_ERROR_WEIGHTED || is_strategy name.

Definition parse_strategy (name : string) : PoolPolicy :=
  if String.eqb name STRATEGY_CHEAPEST then Cheapest
  else if String.eqb name STRATEGY_FASTEST then Fastest
  else if String.eqb name STRATEGY_LEAST_BUSY then LeastBusy
  else if String.eqb name STRATEGY_USAGE then Usage
  else PWeighted.

Inductive PoolParseError := ManyStrategies | UnknownBuiltin (name : string).

Fixpoint desugar_hooks (entries : list HookRefEntry) (policy : option PoolPolicy) (refs : list HookModuleRef.t)
    : PoolParseError + (option PoolPolicy * list HookModuleRef.t) :=
  match entries with
  | [] => inr (policy, refs)
  | Builtin name :: entries =>
      if is_strategy_name name then
        match policy with
        | Some _ => inl ManyStrategies
        | None => desugar_hooks entries (Some (parse_strategy name)) refs
        end
      else inl (UnknownBuiltin name)
  | ModuleRef r :: entries => desugar_hooks entries policy (refs ++ [r])
  end.

(** [PoolCfg::deserialize] after the raw parse. *)
Definition pool_of_raw (raw : RawPool.t) : PoolParseError + DeployPool.t :=
  let pool policy base_named refs :=
    DeployPool.mk (Pool.mk (RawPool.members raw) (RawPool.breaker raw) (RawPool.failover raw) (RawPool.on_exhausted raw)
      (RawPool.affinity raw) (PoolCfg.mk policy [] base_named)) refs in
  match RawPool.hooks raw with
  | None => inr (pool PWeighted false [])
  | Some entries =>
      match desugar_hooks entries None [] with
      | inl e => inl e
      | inr (policy, refs) => inr (pool (default PWeighted policy) (bool_decide (is_Some policy)) refs)
      end
  end.

(** ** Providers *)
Module ProviderDef.
Record t := mk {
  protocol : string; base_url : string; error_map : gmap string string; health : option HealthCfg.t;
  path : option string; path_base : option string; token_url : option string; scope : option string;
  auth : option ProviderAuth; allow_metadata_hosts : list string }.
End ProviderDef.

Module ProviderDeploy.
Record t := mk {
  api_key : SecretRef.t; protocol : option string; base_url : option string; error_map : option (gmap string string);
  path : option string; path_base : option string; token_url : option string; scope : option string;
  auth : option ProviderAuth; allow_metadata_hosts : option (list string); health : option HealthCfg.t }.
End ProviderDeploy.

(** [Option::or]. *)
Definition or {A} (a b : option A) : option A := match a with Some _ => a | None => b end.

Definition resolve_provider (def : ProviderDef.t) (d : ProviderDeploy.t) : ProviderCfg.t :=
  ProviderCfg.mk (default (ProviderDef.protocol def) (ProviderDeploy.protocol d))
    (default (ProviderDef.base_url def) (ProviderDeploy.base_url d))
    (ProviderDeploy.api_key d)
    (or (ProviderDeploy.health d) (ProviderDef.health def))
    (default ∅ (ProviderDeploy.error_map d) ∪ ProviderDef.error_map def)
    (or (ProviderDeploy.path d) (ProviderDef.path def))
    (or (ProviderDeploy.path_base d) (ProviderDef.path_base def))
    (or (ProviderDeploy.token_url d) (ProviderDef.token_url def))
    (or (ProviderDeploy.scope d) (ProviderDef.scope def))
    (or (ProviderDeploy.auth d) (ProviderDef.auth def))
    (default (ProviderDef.allow_metadata_hosts def) (ProviderDeploy.allow_metadata_hosts d)).

(** ** The single-value sections *)
Module SecurityCfg.
Record t := mk { blocked_metadata_hosts : list string; allow_metadata_hosts : list string; allow_all_metadata : bool }.
End SecurityCfg.

Module PluginPublisher.
Record t := mk { name : string; public_key : string }.
End PluginPublisher.
Module PluginsTrustCfg.
Record t := mk { publishers : list PluginPublisher.t; allow_unsigned : bool; allow_third_party : bool }.
End PluginsTrustCfg.
Module PluginsCfg.
Record t := mk {
  enabled : bool; dir : string; trust : PluginsTrustCfg.t; min_versions : gmap string string;
  first_party_floor : option string }.
End PluginsCfg.

Module AdvancedCfg.
Record t := mk { rate_sweep_interval : Z; usage_flush_interval_ms : Z }.
End AdvancedCfg.

Module ObservabilityCfg.
Record t := mk {
  otlp_url : option string; request_log_webhook_url : option string; max_inflight_webhook_deliveries : Z;
  webhook_delivery_timeout_secs : Z; emit_server_timing : bool }.
End ObservabilityCfg.

Module LimitsCfg.
Record t := mk {
  upstream_request_timeout_secs : Z; request_body_max_bytes : Z; pool_max_idle_per_host : Z;
  pool_idle_timeout_secs : Z; max_inbound_concurrent : Z; max_keys_per_principal : Z; hard_down_cooldown_secs : Z;
  upstream_error_body_max_bytes : Z; tls_handshake_timeout_secs : Z; request_body_read_timeout_secs : Z;
  max_honored_retry_after_secs : Z; default_max_tokens : Z; reasoning_effort_budgets : Z * Z * Z * Z }.
End LimitsCfg.

Module MetricsCfg.
Record t := mk { key_gauge_limit : Z }.
End MetricsCfg.
Module HealthDefaultsCfg.
Record t := mk { default_probe_interval_secs : Z; default_probe_timeout_secs : Z }.
End HealthDefaultsCfg.
Module RoutingCfg.
Record t := mk { default_policy_timeout_ms : Z }.
End RoutingCfg.

Definition DEFAULT_MAX_INFLIGHT_WEBHOOK_DELIVERIES : Z := 64.
Definition DEFAULT_WEBHOOK_DELIVERY_TIMEOUT_SECS : Z := 2.
Definition DEFAULT_EMIT_SERVER_TIMING : bool := false.
Definition observability_default : ObservabilityCfg.t :=
  ObservabilityCfg.mk None None DEFAULT_MAX_INFLIGHT_WEBHOOK_DELIVERIES DEFAULT_WEBHOOK_DELIVERY_TIMEOUT_SECS
    DEFAULT_EMIT_SERVER_TIMING.

Definition from_sections (l : LimitsCfg.t) (obs : ObservabilityCfg.t) (adv : AdvancedCfg.t) (metrics : MetricsCfg.t)
    (health : HealthDefaultsCfg.t) (routing : RoutingCfg.t) : LimitsResolved.t :=
  LimitsResolved.mk (LimitsCfg.upstream_request_timeout_secs l) (LimitsCfg.tls_handshake_timeout_secs l)
    (LimitsCfg.request_body_read_timeout_secs l) (ObservabilityCfg.webhook_delivery_timeout_secs obs)
    (ObservabilityCfg.max_inflight_webhook_deliveries obs) (LimitsCfg.max_honored_retry_after_secs l)
    (LimitsCfg.hard_down_cooldown_secs l) (LimitsCfg.request_body_max_bytes l) (LimitsCfg.upstream_error_body_max_bytes l)
    (LimitsCfg.default_max_tokens l) (HealthDefaultsCfg.default_probe_interval_secs health)
    (HealthDefaultsCfg.default_probe_timeout_secs health) (RoutingCfg.default_policy_timeout_ms routing)
    (AdvancedCfg.rate_sweep_interval adv) (LimitsCfg.reasoning_effort_budgets l) (LimitsCfg.pool_max_idle_per_host l)
    (LimitsCfg.pool_idle_timeout_secs l) (LimitsCfg.max_inbound_concurrent l) (LimitsCfg.max_keys_per_principal l)
    (MetricsCfg.key_gauge_limit metrics) (AdvancedCfg.usage_flush_interval_ms adv).

Module DeployCfg.
Record t := mk {
  listen : string; tls : option TlsCfg.t; admin_listen : string; admin_tls : option TlsCfg.t; admin_insecure : bool;
  auth : option AuthCfg.t; providers : gmap string ProviderDeploy.t; models : gmap string ModelCfg.t;
  pools : gmap string DeployPool.t; global_hooks : list HookRefEntry; groups : gmap string GroupCfg.t;
  rate_card : option (list (string * RateEntryCfg.t)); per_request_fee : Z; store : option StoreCfg.t;
  advanced : AdvancedCfg.t; observability : option ObservabilityCfg.t; plugins : PluginsCfg.t;
  security : option SecurityCfg.t; limits : LimitsCfg.t; metrics : MetricsCfg.t; health : HealthDefaultsCfg.t;
  routing : RoutingCfg.t }.
End DeployCfg.

(** ** The hook registry of the inline references *)
Inductive ResolveError :=
  | NotInCatalog (provider : string) | EmptyHookModule (where_ : string) | GlobalBuiltin (name : string)
  | AdminExposed (admin_listen : string).

Definition hook_cfg_from_ref (r : HookModuleRef.t) (default_kind : HookKind) : option HookCfg.t :=
  let plugin := trim (HookModuleRef.module r) in
  if is_empty plugin then None
  else Some (HookCfg.mk (default default_kind (HookModuleRef.kind r)) plugin
    (default DEFAULT_POLICY_TIMEOUT_MS (HookModuleRef.timeout_ms r))
    (default ON_ERROR_NOTHING (as_name <$> HookModuleRef.on_error r))
    (default PromptNo (HookModuleRef.prompt r)) (default UserNo (HookModuleRef.user r))
    (default 0 (HookModuleRef.priority r)) (HookModuleRef.at_ r) (HookModuleRef.on_empty r)
    (HookModuleRef.settings r) false false).

Definition contains_key {A} (m : gmap string A) (name : string) : bool := bool_decide (is_Some (m !! name)).

(** The candidate names of a module, [m], [m#2], [m#3], ..., up to the first free one.  They are distinct,
    so [fuel] equal to the size of the registry is enough. *)
Definition candidate (module : string) (n : N) : string :=
  if (n =? 1)%N then module else module +:+ "#" +:+ pretty n.
Fixpoint fresh_name (fuel : nat) (registry : Registry) (module : string) (n : N) : option string :=
  let name := candidate module n in
  if contains_key registry name then
    match fuel with
    | O => None
    | Datatypes.S fuel => fresh_name fuel registry module (n + 1)%N
    end
  else Some name.

(** [inl]: the reference names no plugin. *)
Definition register (registry : Registry) (r : HookModuleRef.t) (where_ : string) (default_kind : HookKind)
    : option (ResolveError + Registry * string) :=
  match hook_cfg_from_ref r default_kind with
  | None => Some (inl (EmptyHookModule where_))
  | Some cfg =>
      let? name := fresh_name (size registry) registry (HookModuleRef.module r) 1 in
      Some (inr (<[name := cfg]> registry, name))
  end.

Fixpoint register_refs (refs : list HookModuleRef.t) (where_ : string) (default_kind : HookKind)
    (registry : Registry) (errors : list ResolveError) : option (Registry * list ResolveError * list string) :=
  match refs with
  | [] => Some (registry, errors, [])
  | r :: refs =>
      let? res := register registry r where_ default_kind in
      match res with
      | inl e => register_refs refs where_ default_kind registry (errors ++ [e])
      | inr (registry, name) =>
          let? (registry, errors, names) := register_refs refs where_ default_kind registry errors in
          Some (registry, errors, name :: names)
      end
  end.

Fixpoint register_pools (pools : list (string * DeployPool.t)) (registry : Registry) (errors : list ResolveError)
    : option (Registry * list ResolveError * list (string * list string)) :=
  match pools with
  | [] => Some (registry, errors, [])
  | (pool, p) :: pools =>
      let? (registry, errors, gates) :=
        register_refs (DeployPool.module_hooks p) ("pools." +:+ pool +:+ ".hooks") Gate registry errors in
      let? (registry, errors, rest) := register_pools pools registry errors in
      Some (registry, errors, (pool, gates) :: rest)
  end.

Fixpoint register_globals (entries : list HookRefEntry) (registry : Registry) (errors : list ResolveError)
    : option (Registry * list ResolveError * list string) :=
  match entries with
  | [] => Some (registry, errors, [])
  | Builtin name :: entries => register_globals entries registry (errors ++ [GlobalBuiltin name])
  | ModuleRef r :: entries =>
      let? (registry, errors, names) := register_refs [r] "global_hooks" Tap registry errors in
      let? (registry, errors, rest) := register_globals entries registry errors in
      Some (registry, errors, names ++ rest)
  end.

(** ** The admin-plane guard *)
Fixpoint trim_start_char (c : ascii) (s : string) : string :=
  match s with
  | String a s' => if Ascii.eqb a c then trim_start_char c s' else s
  | EmptyString => EmptyString
  end.
Fixpoint trim_end_char (c : ascii) (s : string) : string :=
  match s with
  | EmptyString => EmptyString
  | String a s => match trim_end_char c s with
                  | EmptyString => if Ascii.eqb a c then EmptyString else String a EmptyString
                  | s => String a s
                  end
  end.

Definition bind_is_loopback (addr : string) : bool :=
  let host := match rsplit_once ":" addr with Some (h, _) => h | None => addr end in
  let host := trim_end_char "]" (trim_start_char "[" host) in
  if eq_ignore_ascii_case host "localhost" then true
  else match parse_ipv4 host with
       | Some ip => is_loopback ip
       | None => match parse_ipv6 host with Some ip => is_loopback_v6 ip | None => false end
       end.

Definition has_client_mtls (d : DeployCfg.t) : bool :=
  match DeployCfg.admin_tls d with Some t => bool_decide (is_Some (TlsCfg.client_ca t)) | None => false end.

Definition admin_guard (d : DeployCfg.t) : list ResolveError :=
  let exposed := negb (bind_is_loopback (DeployCfg.admin_listen d)) in
  if exposed && negb (has_client_mtls d) && negb (DeployCfg.admin_insecure d)
  then [AdminExposed (DeployCfg.admin_listen d)] else [].

(** ** [resolve] *)
Definition with_gates (p : Pool.t) (gates : list string) : Pool.t :=
  Pool.mk (Pool.members p) (Pool.breaker p) (Pool.failover p) (Pool.on_exhausted p) (Pool.affinity p)
    (PoolCfg.mk (PoolCfg.policy (Pool.hooks p)) gates (PoolCfg.base_named (Pool.hooks p))).

Definition resolve (d : DeployCfg.t) (defs : gmap string ProviderDef.t) : option (list ResolveError + RootCfg.t) :=
  let missing := '(name, _) ← map_to_list (DeployCfg.providers d); if contains_key defs name then [] else [NotInCatalog name] in
  let providers := map_imap (fun name p => def ← defs !! name; Some (resolve_provider def p)) (DeployCfg.providers d) in
  let? (registry, errors, pool_gates) := register_pools (btree (DeployCfg.pools d)) ∅ missing in
  let gates : gmap string (list string) := list_to_map pool_gates in
  let pools := map_imap (fun name p => Some (with_gates (DeployPool.pool p) (default [] (gates !! name)))) (DeployCfg.pools d) in
  let? (registry, errors, global_hooks) := register_globals (DeployCfg.global_hooks d) registry errors in
  let errors := errors ++ admin_guard d in
  Some (match errors with
        | [] => inr (RootCfg.mk (DeployCfg.listen d) (DeployCfg.admin_listen d) (DeployCfg.tls d) (DeployCfg.admin_tls d)
            (DeployCfg.auth d) providers (DeployCfg.models d) pools registry
            (match DeployCfg.auth d with
             | Some a => AuthChainEntry.module <$> AuthCfg.admin_auth a
             | None => [ADMIN_TOKENS_MODULE]
             end)
            (DeployCfg.groups d) (DeployCfg.rate_card d) (DeployCfg.per_request_fee d) (DeployCfg.store d) global_hooks
            (match DeployCfg.security d with Some s => SecurityCfg.blocked_metadata_hosts s | None => [] end)
            (match DeployCfg.security d with Some s => SecurityCfg.allow_metadata_hosts s | None => [] end)
            (match DeployCfg.security d with Some s => SecurityCfg.allow_all_metadata s | None => false end)
            (from_sections (DeployCfg.limits d) (default observability_default (DeployCfg.observability d))
               (DeployCfg.advanced d) (DeployCfg.metrics d) (DeployCfg.health d) (DeployCfg.routing d)))
        | _ => inl errors
        end).

(** ** Every reference gets a name of its own *)
Lemma insert_entry_perm {A} (x : string * A) l : insert_entry x l ≡ₚ x :: l.
Proof.
  induction l as [|y l IH]; [done|]. cbn [insert_entry]. destruct (String.leb _ _); [done|]. rewrite IH. apply Permutation_swap.
Qed.

Lemma btree_perm {A} (m : gmap string A) : btree m ≡ₚ map_to_list m.
Proof. unfold btree. induction (map_to_list m) as [|x l IH]; [done|]. cbn [foldr]. by rewrite insert_entry_perm, IH. Qed.

Lemma btree_nodup {A} (m : gmap string A) : NoDup (btree m).*1.
Proof. rewrite btree_perm. apply NoDup_fst_map_to_list. Qed.

Lemma elem_of_btree {A} (m : gmap string A) k v : (k, v) ∈ btree m <-> m !! k = Some v.
Proof. rewrite btree_perm. apply elem_of_map_to_list. Qed.

Lemma candidate_inj module a b : (1 <= a)%N -> (1 <= b)%N -> candidate module a = candidate module b -> a = b.
Proof.
  unfold candidate. intros Ha Hb. destruct (N.eqb_spec a 1) as [->|Ea], (N.eqb_spec b 1) as [->|Eb]; intros H; [done|..].
  - apply (f_equal String.length) in H. rewrite string_length_app, (string_length_app "#") in H. change (String.length "#") with 1%nat in H. lia.
  - apply (f_equal String.length) in H. rewrite string_length_app, (string_length_app "#") in H. change (String.length "#") with 1%nat in H. lia.
  - apply (inj (String.append module)) in H. by apply (inj (String.append "#")), (inj pretty) in H.
Qed.

Lemma fresh_name_total fuel (reg : Registry) module n (seen : list string) :
  (1 <= n)%N -> NoDup seen -> Forall (fun s => is_Some (reg !! s) /\ exists i, (1 <= i < n)%N /\ s = candidate module i) seen ->
  (size reg <= length seen + fuel)%nat -> is_Some (fresh_name fuel reg module n).
Proof.
  revert n seen. induction fuel as [|fuel IH]; intros n seen Hn Hnd Hs Hf; cbn [fresh_name]; cbn zeta;
    unfold contains_key; case_bool_decide as Hc; try done.
  - assert (length (seen ++ [candidate module n]) <= size reg)%nat as Hl; [|rewrite length_app in Hl; cbn in Hl; lia].
    apply visited_bound.
    + apply NoDup_app. split; [done|]. split; [|apply NoDup_singleton]. intros s Hi ->%list_elem_of_singleton.
      rewrite Forall_forall in Hs. apply Hs in Hi as (_ & i & Hi & E). apply candidate_inj in E; lia.
    + intros s [Hi| ->%list_elem_of_singleton]%elem_of_app; [|done]. rewrite Forall_forall in Hs. by apply Hs in Hi as [? _].
  - apply (IH _ (seen ++ [candidate module n])); [lia|..].
    + apply NoDup_app. split; [done|]. split; [|apply NoDup_singleton]. intros s Hi ->%list_elem_of_singleton.
      rewrite Forall_forall in Hs. apply Hs in Hi as (_ & i & Hi & E). apply candidate_inj in E; lia.
    + apply Forall_app. split; [|repeat constructor; [done|exists n; split; [lia|done]]].
      eapply Forall_impl; [exact Hs|]. intros s (? & i & ? & ?). split; [done|]. exists i. split; [lia|done].
    + rewrite length_app. cbn. lia.
Qed.

Lemma fresh_name_free fuel (reg : Registry) module n name :
  fresh_name fuel reg module n = Some name -> reg !! name = None.
Proof.
  revert n. induction fuel as [|fuel IH]; intros n; cbn [fresh_name]; cbn zeta; unfold contains_key; case_bool_decide as Hc;
    try done; try (intros [= <-]; by apply eq_None_not_Some). apply IH.
Qed.

(** A registry entry that is the definition a reference asks for. *)
Definition bound (reg : Registry) (name : string) (rk : HookModuleRef.t * HookKind) : Prop :=
  exists cfg, hook_cfg_from_ref rk.1 rk.2 = Some cfg /\ reg !! name = Some cfg.

(** [names] were registered for [rks], in order, on top of [reg]. *)
Record named (reg : Registry) (rks : list (HookModuleRef.t * HookKind)) (names : list string) (reg' : Registry) : Prop := {
  nm_sub : reg ⊆ reg';
  nm_dom : dom reg' = list_to_set names ∪ dom reg;
  nm_nodup : NoDup names;
  nm_fresh : Forall (fun n => reg !! n = None) names;
  nm_bound : Forall2 (bound reg') names rks }.

Lemma bound_mono reg reg' name rk : reg ⊆ reg' -> bound reg name rk -> bound reg' name rk.
Proof. intros Hs (cfg & E & Hl). exists cfg. split; [done|]. eapply lookup_weaken; eauto. Qed.

Lemma bounds_mono reg reg' names rks : reg ⊆ reg' -> Forall2 (bound reg) names rks -> Forall2 (bound reg') names rks.
Proof. intros Hs H. eapply Forall2_impl; [exact H|]. intros. by eapply bound_mono. Qed.

Lemma named_nil reg : named reg [] [] reg.
Proof. split; [done|set_solver|constructor|constructor|constructor]. Qed.

Lemma named_app reg1 reg2 reg3 rks1 rks2 n1 n2 :
  named reg1 rks1 n1 reg2 -> named reg2 rks2 n2 reg3 -> named reg1 (rks1 ++ rks2) (n1 ++ n2) reg3.
Proof.
  intros [s1 d1 nd1 f1 b1] [s2 d2 nd2 f2 b2]. split.
  - by etrans.
  - rewrite d2, d1, list_to_set_app_L. set_solver.
  - apply NoDup_app. split; [done|]. split; [|done]. intros n H1 H2.
    rewrite Forall_forall in f2. specialize (f2 n H2). apply not_elem_of_dom in f2. rewrite d1 in f2. set_solver.
  - apply Forall_app. split; [done|]. eapply Forall_impl; [exact f2|]. intros n Hn. cbn beta in *. exact (lookup_weaken_None _ _ _ Hn s1).
  - apply Forall2_app; [|done]. by eapply bounds_mono.
Qed.

Lemma register_named reg r where_ k :
  exists res, register reg r where_ k = Some res /\
  match res with
  | inl _ => hook_cfg_from_ref r k = None
  | inr (reg', name) => named reg [(r, k)] [name] reg'
  end.
Proof.
  unfold register. destruct (hook_cfg_from_ref r k) as [cfg|] eqn:Ec; [|by eexists].
  destruct (fresh_name_total (size reg) reg (HookModuleRef.module r) 1 []) as [name En]; [done|constructor|constructor|cbn; lia|].
  rewrite En. eexists. split; [done|]. apply fresh_name_free in En. split.
  - by apply insert_subseteq.
  - rewrite dom_insert_L. set_solver.
  - apply NoDup_singleton.
  - by repeat constructor.
  - repeat constructor. exists cfg. split; [done|]. apply lookup_insert_eq.
Qed.

Definition with_kind (k : HookKind) (refs : list HookModuleRef.t) : list (HookModuleRef.t * HookKind) := (fun r => (r, k)) <$> refs.

(** What a registration loop leaves: with no error pushed, every reference got its name. *)
Definition loop_ok {N} (reg : Registry) (errors : list ResolveError) (rks : list (HookModuleRef.t * HookKind))
    (flat : N -> list string) (extra : Registry -> N -> Prop) (res : Registry * list ResolveError * N) : Prop :=
  let '(reg', errors', names) := res in
  errors' = [] -> errors = [] /\ named reg rks (flat names) reg' /\ extra reg' names.

Lemma register_refs_ok refs where_ k reg errors :
  exists res, register_refs refs where_ k reg errors = Some res /\
    loop_ok reg errors (with_kind k refs) id (fun _ _ => True) res.
Proof.
  revert reg errors. induction refs as [|r refs IH]; intros reg errors; cbn [register_refs].
  { eexists. split; [done|]. intros ->. split_and!; [done|apply named_nil|done]. }
  destruct (register_named reg r where_ k) as (res & -> & Hr). destruct res as [e|[reg' name]].
  - destruct (IH reg (errors ++ [e])) as (res & -> & Hi). eexists. split; [done|].
    destruct res as [[reg2 errors2] names]. intros E. destruct (Hi E) as [E2 _]. by destruct errors.
  - destruct (IH reg' errors) as (res & -> & Hi). destruct res as [[reg2 errors2] names]. eexists. split; [done|].
    intros E. destruct (Hi E) as (-> & Hn & _). split_and!; [done| |done].
    exact (named_app _ _ _ [(r, k)] _ [name] _ Hr Hn).
Qed.

Lemma register_pools_ok pools reg errors :
  exists res, register_pools pools reg errors = Some res /\
    loop_ok reg errors (np ← pools; with_kind Gate (DeployPool.module_hooks np.2)) (fun gates => concat gates.*2)
      (fun reg' gates => gates.*1 = pools.*1 /\
         Forall2 (fun pg np => Forall2 (bound reg') pg.2 (with_kind Gate (DeployPool.module_hooks np.2))) gates pools) res.
Proof.
  revert reg errors. induction pools as [|[pool p] pools IH]; intros reg errors; cbn [register_pools].
  { eexists. split; [done|]. intros ->. split_and!; [done|apply named_nil|done|constructor]. }
  destruct (register_refs_ok (DeployPool.module_hooks p) ("pools." +:+ pool +:+ ".hooks") Gate reg errors)
    as ([[reg1 errors1] gates] & -> & H1).
  destruct (IH reg1 errors1) as ([[reg2 errors2] rest] & -> & H2). eexists. split; [done|]. intros E.
  destruct (H2 E) as (E1 & Hn2 & Hk & Hb). destruct (H1 E1) as (-> & Hn1 & _). split_and!; [done|..].
  - exact (named_app _ _ _ _ _ _ _ Hn1 Hn2).
  - cbn. by f_equal.
  - constructor; [|done]. eapply bounds_mono; [apply (nm_sub _ _ _ _ Hn2)|]. apply (nm_bound _ _ _ _ Hn1).
Qed.

Definition module_ref (e : HookRefEntry) : option HookModuleRef.t := match e with ModuleRef r => Some r | Builtin _ => None end.

Lemma register_globals_ok entries reg errors :
  exists res, register_globals entries reg errors = Some res /\
    loop_ok reg errors (with_kind Tap (omap module_ref entries)) id
      (fun _ _ => entries = ModuleRef <$> omap module_ref entries) res.
Proof.
  revert reg errors. induction entries as [|[name|r] entries IH]; intros reg errors; cbn [register_globals].
  { eexists. split; [done|]. intros ->. split_and!; [done|apply named_nil|done]. }
  - destruct (IH reg (errors ++ [GlobalBuiltin name])) as (res & -> & Hi). eexists. split; [done|].
    destruct res as [[reg2 errors2] names]. intros E. destruct (Hi E) as [E2 _]. by destruct errors.
  - destruct (register_refs_ok [r] "global_hooks" Tap reg errors) as ([[reg1 errors1] names1] & -> & H1).
    destruct (IH reg1 errors1) as ([[reg2 errors2] rest] & -> & H2). eexists. split; [done|]. intros E.
    destruct (H2 E) as (E1 & Hn2 & He). destruct (H1 E1) as (-> & Hn1 & _). split_and!; [done| |cbn; by f_equal].
    exact (named_app _ _ _ _ _ _ _ Hn1 Hn2).
Qed.

(** The gates of a pool of the resolved configuration. *)
Definition gates_of (cfg : RootCfg.t) (pool : string) : list string :=
  match RootCfg.pools cfg !! pool with Some p => PoolCfg.gates (Pool.hooks p) | None => [] end.

(** All the names [resolve] made up, in the order it made them. *)
Definition made_names (d : DeployCfg.t) (cfg : RootCfg.t) : list string :=
  concat (gates_of cfg <$> (btree (DeployCfg.pools d)).*1) ++ RootCfg.global_hooks cfg.

Lemma gates_by_key (l : list (string * list string)) (keys : list string) (f : string -> list string) :
  NoDup keys -> l.*1 = keys -> (forall k, k ∈ keys -> f k = default [] ((list_to_map l : gmap string (list string)) !! k)) ->
  f <$> keys = l.*2.
Proof.
  intros Hn <-. revert f. induction l as [|[k v] l IH]; intros f Hf; [done|]. cbn in Hn. apply NoDup_cons in Hn as [Hk Hn]. cbn [fmap list_fmap fst snd].
  f_equal.
  - rewrite Hf by (cbn; set_solver). cbn. by rewrite lookup_insert_eq.
  - apply IH; [done|]. intros k' Hk'. rewrite Hf by (cbn; set_solver). cbn. rewrite lookup_insert_ne; [done|]. intros ->. by apply Hk.
Qed.

Lemma resolve_ok d defs :
  exists r, resolve d defs = Some r /\
  forall cfg, r = inr cfg -> exists gates reg1,
    named ∅ (np ← btree (DeployCfg.pools d); with_kind Gate (DeployPool.module_hooks np.2)) (concat gates.*2) reg1 /\
    named reg1 (with_kind Tap (omap module_ref (DeployCfg.global_hooks d))) (RootCfg.global_hooks cfg) (RootCfg.hooks cfg) /\
    DeployCfg.global_hooks d = ModuleRef <$> omap module_ref (DeployCfg.global_hooks d) /\
    gates.*1 = (btree (DeployCfg.pools d)).*1 /\
    Forall2 (fun pg np => Forall2 (bound reg1) pg.2 (with_kind Gate (DeployPool.module_hooks np.2))) gates (btree (DeployCfg.pools d)) /\
    (forall pool, gates_of cfg pool = default [] ((list_to_map gates : gmap string (list string)) !! pool) \/ DeployCfg.pools d !! pool = None).
Proof.
  unfold resolve. set (missing := x ← _; _).
  destruct (register_pools_ok (btree (DeployCfg.pools d)) ∅ missing) as ([[reg1 errors1] gates] & -> & H1).
  destruct (register_globals_ok (DeployCfg.global_hooks d) reg1 errors1) as ([[reg2 errors2] names] & -> & H2).
  eexists. split; [done|]. intros cfg. destruct (errors2 ++ admin_guard d) eqn:E; [|done]. intros [= <-].
  apply app_nil in E as [E _]. destruct (H2 E) as (E1 & Hn2 & He). destruct (H1 E1) as (_ & Hn1 & Hk & Hb).
  exists gates, reg1. split_and!; try done. intros pool. cbn [gates_of RootCfg.pools].
  unfold gates_of. cbn [RootCfg.pools]. rewrite map_lookup_imap.
  destruct (DeployCfg.pools d !! pool); [left|by right]. done.
Qed.

Lemma gates_match cfg pools (gates : list (string * list string)) reg :
  gates.*1 = pools.*1 -> NoDup pools.*1 ->
  Forall2 (fun pg np => Forall2 (bound reg) pg.2 (with_kind Gate (DeployPool.module_hooks np.2))) gates pools ->
  (forall pool, pool ∈ pools.*1 -> gates_of cfg pool = default [] ((list_to_map gates : gmap string (list string)) !! pool)) ->
  forall pool p, (pool, p) ∈ pools -> Forall2 (bound reg) (gates_of cfg pool) (with_kind Gate (DeployPool.module_hooks p)).
Proof.
  intros Hk Hn Hb Hg pool p Hp. rewrite Hg by (apply list_elem_of_fmap; by exists (pool, p)).
  clear Hg. apply list_elem_of_lookup in Hp as [i Hi].
  eapply Forall2_lookup_r in Hb as ([k v] & Hgi & Hb); [|exact Hi].
  assert (k = pool) as ->.
  { assert (gates.*1 !! i = pools.*1 !! i) as Hx by by rewrite Hk. rewrite !list_lookup_fmap, Hgi, Hi in Hx. by injection Hx. }
  rewrite (elem_of_list_to_map_1 _ pool v); [exact Hb|by rewrite Hk|]. by eapply list_elem_of_lookup_2.
Qed.

(** C30.  Inline hooks: resolving a configuration always returns, and when it succeeds every hook reference of
    every pool and of [global_hooks:] has a registry entry of its own holding exactly the definition the
    reference asks for, under a name the pool's gate list (or the global list) carries at the same
    position; no two references share a name, and the registry holds nothing else. *)
Theorem resolve_names_every_hook d defs :
  exists r, resolve d defs = Some r /\
  forall cfg, r = inr cfg ->
    NoDup (made_names d cfg) /\ dom (RootCfg.hooks cfg) = list_to_set (made_names d cfg) /\
    (forall pool p, DeployCfg.pools d !! pool = Some p ->
       Forall2 (bound (RootCfg.hooks cfg)) (gates_of cfg pool) (with_kind Gate (DeployPool.module_hooks p))) /\
    exists refs, DeployCfg.global_hooks d = ModuleRef <$> refs /\
      Forall2 (bound (RootCfg.hooks cfg)) (RootCfg.global_hooks cfg) (with_kind Tap refs).
Proof.
  destruct (resolve_ok d defs) as (r & Hr & H). exists r. split; [done|]. intros cfg E.
  destruct (H cfg E) as (gates & reg1 & Hn1 & Hn2 & Hg & Hk & Hb & Hl).
  assert (forall pool, pool ∈ (btree (DeployCfg.pools d)).*1 ->
    gates_of cfg pool = default [] ((list_to_map gates : gmap string (list string)) !! pool)) as Hl'.
  { intros pool ([k p] & -> & Hp)%list_elem_of_fmap. apply elem_of_btree in Hp. destruct (Hl k) as [?|Hx]; [done|]. cbn in Hx. congruence. }
  assert (made_names d cfg = concat gates.*2 ++ RootCfg.global_hooks cfg) as ->.
  { unfold made_names. f_equal. f_equal. apply (gates_by_key gates); [apply btree_nodup|done|exact Hl']. }
  pose proof (named_app _ _ _ _ _ _ _ Hn1 Hn2) as Hn. split_and!.
  - apply (nm_nodup _ _ _ _ Hn).
  - rewrite (nm_dom _ _ _ _ Hn). set_solver.
  - intros pool p Hp. eapply bounds_mono; [apply (nm_sub _ _ _ _ Hn2)|].
    eapply gates_match; [exact Hk|apply btree_nodup|exact Hb|exact Hl'|by apply elem_of_btree].
  - eexists. split; [exact Hg|]. apply (nm_bound _ _ _ _ Hn2).
Qed.

(** The hook surface and the groups of a resolved configuration come from four parts of the deployment. *)
Lemma resolve_surface d d' defs cfg cfg' :
  DeployCfg.providers d = DeployCfg.providers d' -> DeployCfg.pools d = DeployCfg.pools d' ->
  DeployCfg.global_hooks d = DeployCfg.global_hooks d' -> DeployCfg.groups d = DeployCfg.groups d' ->
  resolve d defs = Some (inr cfg) -> resolve d' defs = Some (inr cfg') ->
  RootCfg.hooks cfg = RootCfg.hooks cfg' /\ RootCfg.global_hooks cfg = RootCfg.global_hooks cfg' /\
  RootCfg.groups cfg = RootCfg.groups cfg' /\ RootCfg.pools cfg = RootCfg.pools cfg'.
Proof.
  unfold resolve. intros -> -> -> Hg.
  destruct (register_pools _ _ _) as [[[reg1 errors1] gates]|]; [|done].
  destruct (register_globals _ _ _) as [[[reg2 errors2] names]|]; [|done].
  destruct (errors2 ++ admin_guard d); [|done]. destruct (errors2 ++ admin_guard d'); [|done].
  intros [= <-] [= <-]. done.
Qed.

(** The admin plane is never exposed without client certificates unless waived. *)
Lemma resolve_guards_admin d defs cfg :
  resolve d defs = Some (inr cfg) ->
  RootCfg.admin_listen cfg = DeployCfg.admin_listen d /\
  (bind_is_loopback (RootCfg.admin_listen cfg) = true \/
   (exists t, RootCfg.admin_tls cfg = Some t /\ is_Some (TlsCfg.client_ca t)) \/ DeployCfg.admin_insecure d = true).
Proof.
  unfold resolve. destruct (register_pools _ _ _) as [[[reg1 errors1] gates]|]; [|done].
  destruct (register_globals _ _ _) as [[[reg2 errors2] names]|]; [|done].
  destruct (errors2 ++ admin_guard d) eqn:E; [|done]. intros [= <-]. cbn. split; [done|].
  apply app_nil in E as [_ E]. unfold admin_guard, has_client_mtls in E.
  destruct (bind_is_loopback _); [by left|]. destruct (DeployCfg.admin_insecure d); [by auto|]. right. left.
  destruct (DeployCfg.admin_tls d) as [t|]; [|done]. exists t. split; [done|]. cbn in E. by case_bool_decide.
Qed.

(** ** Two pools and a global tap on one module *)
Module DeployDemo.
Definition ref (module : string) (kind : option HookKind) : HookModuleRef.t :=
  HookModuleRef.mk module [] kind None None None None None None None.
Definition pool (refs : list HookModuleRef.t) : DeployPool.t :=
  DeployPool.mk (Pool.mk [] None None None None (PoolCfg.mk PWeighted [] false)) refs.
Definition limits : LimitsCfg.t :=
  LimitsCfg.mk 600 33554432 8 300 0 0 1800 65536 10 30 86400 4096 (1024, 4096, 8192, 16384).
Definition plugins : PluginsCfg.t := PluginsCfg.mk false "plugins" (PluginsTrustCfg.mk [] false false) ∅ None.
Definition deploy (admin_listen : string) : DeployCfg.t :=
  DeployCfg.mk "0.0.0.0:8080" None admin_listen None false None ∅ ∅
    {["a" := pool [ref "pii" None; ref "budget" None]; "b" := pool [ref "pii" None]]} [ModuleRef (ref "pii" None)]
    {["org" := GroupCfg.default]} None 0 None (AdvancedCfg.mk 256 100) None plugins None limits (MetricsCfg.mk 2000)
    (HealthDefaultsCfg.mk 30 5) (RoutingCfg.mk 1).
End DeployDemo.

Example resolve_demo :
  exists cfg, resolve (DeployDemo.deploy "127.0.0.1:8081") ∅ = Some (inr cfg) /\
    gates_of cfg "a" = ["pii"; "budget"] /\ gates_of cfg "b" = ["pii#2"] /\ RootCfg.global_hooks cfg = ["pii#3"].
Proof. eexists. split; [vm_compute; reflexivity|]. vm_compute. auto. Qed.

Example exposed_admin_is_refused : resolve (DeployDemo.deploy "[::]:8081") ∅ = Some (inl [AdminExposed "[::]:8081"]).
Proof. vm_compute. reflexivity. Qed.
