(* ===== verification/Overlay.v ===== *)
(** * The configuration overlay (config/overlay.rs, plugin-sign's version order)

    The document the engine owns beside the operator's [config.yaml]: hooks and groups applied through
    the admin API with the tombstones of deleted ones, the single-value overrides and the plugin version
    pins; its read-modify-write persistence and its merge into the configuration at boot.  The file is
    an atomic cell with a sibling temporary: [write] fails before or at the rename with the fault given
    to it.  Serialization is [OverlaySerde]: its law is that a written document reads back.
    Theorem: a write to one section never touches another, an unreadable file is never overwritten, a
    failed write leaves the file, and a persisted name is never also a tombstone. *)
From stdpp Require Import base gmap list strings.
From Stdlib Require Import ZArith Lia Ascii.
From S2P Require Import Prelude Cost Json HookResolve Sigv4 Topology Deploy.
Open Scope Z_scope.
Open Scope rust_scope.

(** ** Root settings *)
Module RootSettings.
Record t := mk {
  listen : option string; tls : option TlsCfg.t; admin_listen : option string; admin_tls : option TlsCfg.t;
  admin_insecure : option bool; rate_card : option (list (string * RateEntryCfg.t)); per_request_fee : option Z;
  store : option StoreCfg.t; security : option SecurityCfg.t; limits : option LimitsCfg.t;
  observability : option ObservabilityCfg.t; advanced : option AdvancedCfg.t; metrics : option MetricsCfg.t;
  health : option HealthDefaultsCfg.t; routing : option RoutingCfg.t }.
Definition default : t := mk None None None None None None None None None None None None None None None.
End RootSettings.

Definition is_none {A} (o : option A) : bool := match o with None => true | Some _ => false end.
Definition is_some {A} (o : option A) : bool := negb (is_none o).

Definition root_is_empty (s : RootSettings.t) : bool :=
  is_none (RootSettings.listen s) && is_none (RootSettings.tls s) && is_none (RootSettings.admin_listen s) &&
  is_none (RootSettings.admin_tls s) && is_none (RootSettings.admin_insecure s) && is_none (RootSettings.rate_card s) &&
  is_none (RootSettings.per_request_fee s) && is_none (RootSettings.store s) && is_none (RootSettings.security s) &&
  is_none (RootSettings.limits s) && is_none (RootSettings.observability s) && is_none (RootSettings.advanced s) &&
  is_none (RootSettings.metrics s) && is_none (RootSettings.health s) && is_none (RootSettings.routing s).

Definition apply_to_deploy (s : RootSettings.t) (d : DeployCfg.t) : DeployCfg.t :=
  DeployCfg.mk (default (DeployCfg.listen d) (RootSettings.listen s)) (or (RootSettings.tls s) (DeployCfg.tls d))
    (default (DeployCfg.admin_listen d) (RootSettings.admin_listen s)) (or (RootSettings.admin_tls s) (DeployCfg.admin_tls d))
    (default (DeployCfg.admin_insecure d) (RootSettings.admin_insecure s)) (DeployCfg.auth d) (DeployCfg.providers d)
    (DeployCfg.models d) (DeployCfg.pools d) (DeployCfg.global_hooks d) (DeployCfg.groups d)
    (or (RootSettings.rate_card s) (DeployCfg.rate_card d))
    (default (DeployCfg.per_request_fee d) (RootSettings.per_request_fee s))
    (or (RootSettings.store s) (DeployCfg.store d)) (default (DeployCfg.advanced d) (RootSettings.advanced s))
    (or (RootSettings.observability s) (DeployCfg.observability d)) (DeployCfg.plugins d)
    (or (RootSettings.security s) (DeployCfg.security d)) (default (DeployCfg.limits d) (RootSettings.limits s))
    (default (DeployCfg.metrics d) (RootSettings.metrics s)) (default (DeployCfg.health d) (RootSettings.health s))
    (default (DeployCfg.routing d) (RootSettings.routing s)).

(** A field the request sets replaces, one it omits is kept (admin/v1/json/handlers.rs). *)
Definition merge_root_settings (base req : RootSettings.t) : RootSettings.t :=
  RootSettings.mk (or (RootSettings.listen req) (RootSettings.listen base)) (or (RootSettings.tls req) (RootSettings.tls base))
    (or (RootSettings.admin_listen req) (RootSettings.admin_listen base))
    (or (RootSettings.admin_tls req) (RootSettings.admin_tls base))
    (or (RootSettings.admin_insecure req) (RootSettings.admin_insecure base))
    (or (RootSettings.rate_card req) (RootSettings.rate_card base))
    (or (RootSettings.per_request_fee req) (RootSettings.per_request_fee base))
    (or (RootSettings.store req) (RootSettings.store base)) (or (RootSettings.security req) (RootSettings.security base))
    (or (RootSettings.limits req) (RootSettings.limits base))
    (or (RootSettings.observability req) (RootSettings.observability base))
    (or (RootSettings.advanced req) (RootSettings.advanced base)) (or (RootSettings.metrics req) (RootSettings.metrics base))
    (or (RootSettings.health req) (RootSettings.health base)) (or (RootSettings.routing req) (RootSettings.routing base)).

Definition reload_to_apply_fields (req : RootSettings.t) : list string :=
  let push (set : bool) name := if set then [name] else [] in
  push (is_some (RootSettings.listen req)) "listen" ++ push (is_some (RootSettings.tls req)) "tls" ++
  push (is_some (RootSettings.admin_listen req)) "admin_listen" ++ push (is_some (RootSettings.admin_tls req)) "admin_tls" ++
  push (is_some (RootSettings.admin_insecure req)) "admin_insecure" ++ push (is_some (RootSettings.store req)) "store".

(** ** Versions *)

(** [str::parse::<u64>]: an optional plus sign, then decimal digits within range. *)
Fixpoint decimal (acc : Z) (s : string) : option Z :=
  match s with
  | EmptyString => Some acc
  | String c s => if ascii_digit (code c) then decimal (10 * acc + (code c - 48)) s else None
  end.
Definition parse_u64 (s : string) : option Z :=
  let s := match s with String "+" s' => s' | _ => s end in
  if String.eqb s "" then None
  else let? n := decimal 0 s in if n <=? U64_MAX then Some n else None.

(** The numeric components, up to the first that is no number; missing ones are zero. *)
Fixpoint numeric_parts (l : list string) : list Z :=
  match l with
  | [] => []
  | p :: l => match parse_u64 p with Some n => n :: numeric_parts l | None => [] end
  end.
Fixpoint before_suffix (s : string) : string :=
  match s with
  | EmptyString => EmptyString
  | String c s => if Ascii.eqb c "-" || Ascii.eqb c "+" then EmptyString else String c (before_suffix s)
  end.
Definition version_components (v : string) : Z * Z * Z :=
  let parts := numeric_parts (take 3 (split "." (before_suffix (trim v)))) in
  (default 0 (parts !! 0%nat), default 0 (parts !! 1%nat), default 0 (parts !! 2%nat)).

(** Arrays compare component by component. *)
Definition version_at_least (have floor : string) : bool :=
  let '(h1, h2, h3) := version_components have in
  let '(f1, f2, f3) := version_components floor in
  (f1 <? h1) || (h1 =? f1) && ((f2 <? h2) || (h2 =? f2) && (f3 <=? h3)).

(** [Iterator::min_by] with the comparator of the code: the later of two when the earlier is at least it. *)
Definition lowest_version (l : list string) : option string :=
  match l with
  | [] => None
  | v :: l => Some (foldl (fun low v => if version_at_least low v then v else low) v l)
  end.

(** The order of versions is total, and the lowest is below every one. *)
Lemma version_total a b : version_at_least a b = true \/ version_at_least b a = true.
Proof.
  unfold version_at_least. destruct (version_components a) as [[a1 a2] a3], (version_components b) as [[b1 b2] b3].
  rewrite !orb_true_iff, !andb_true_iff, !orb_true_iff, !andb_true_iff, !Z.ltb_lt, !Z.eqb_eq, !Z.leb_le. lia.
Qed.

Lemma version_trans a b c : version_at_least a b = true -> version_at_least b c = true -> version_at_least a c = true.
Proof.
  unfold version_at_least.
  destruct (version_components a) as [[a1 a2] a3], (version_components b) as [[b1 b2] b3], (version_components c) as [[c1 c2] c3].
  rewrite !orb_true_iff, !andb_true_iff, !orb_true_iff, !andb_true_iff, !Z.ltb_lt, !Z.eqb_eq, !Z.leb_le. lia.
Qed.

Lemma lowest_version_below l low v : lowest_version l = Some low -> v ∈ l -> low ∈ l /\ version_at_least v low = true.
Proof.
  destruct l as [|v0 l]; [done|]. cbn [lowest_version]. intros [= <-].
  assert (forall low0, let low := foldl (fun low v => if version_at_least low v then v else low) low0 l in
    (low = low0 \/ low ∈ l) /\ version_at_least low0 low = true /\ forall v, v ∈ l -> version_at_least v low = true) as Hf.
  { induction l as [|x l IH]; intros low0; cbn [foldl].
    - split; [by left|]. split; [by destruct (version_total low0 low0)|set_solver].
    - cbn zeta in *. destruct (version_at_least low0 x) eqn:E.
      + destruct (IH x) as (Hi & Hx & Hl). split_and!; [set_solver|by eapply version_trans|]. intros v0' [-> |Hv]%elem_of_cons; auto.
      + destruct (IH low0) as (Hi & Hx & Hl). split_and!; [set_solver|done|]. intros v0' [-> |Hv]%elem_of_cons; [|by apply Hl].
        destruct (version_total low0 x); [congruence|]. by eapply version_trans. }
  destruct (Hf v0) as (Hi & H0 & Hl). intros Hv. split; [set_solver|]. apply elem_of_cons in Hv as [->|Hv]; [done|by apply Hl].
Qed.

(** ** The document *)
Definition OVERLAY_VERSION : Z := 1.

Module OverlayDoc.
Record t := mk {
  version : Z; hooks : Registry; global_hooks : list string; deleted : list string;
  groups : gmap string GroupCfg.t; deleted_groups : list string; root : option RootSettings.t;
  plugin_versions : gmap string string }.
(** [#[derive(Default)]]: a fresh document's version is zero until a write stamps it. *)
Definition fresh : t := mk 0 ∅ [] [] ∅ [] None ∅.
End OverlayDoc.

Inductive OverlaySection := Hooks | Groups | Root | PluginVersions.

Definition section_parse (s : string) : option OverlaySection :=
  if String.eqb s "hooks" then Some Hooks
  else if String.eqb s "groups" then Some Groups
  else if String.eqb s "root" then Some Root
  else if String.eqb s "plugin_versions" then Some PluginVersions
  else None.
Definition section_str (s : OverlaySection) : string :=
  match s with Hooks => "hooks" | Groups => "groups" | Root => "root" | PluginVersions => "plugin_versions" end.

Import OverlayDoc.
Definition doc_clear_section (s : OverlaySection) (d : OverlayDoc.t) : OverlayDoc.t :=
  match s with
  | Hooks => mk (version d) ∅ [] [] (groups d) (deleted_groups d) (root d) (plugin_versions d)
  | Groups => mk (version d) (hooks d) (global_hooks d) (deleted d) ∅ [] (root d) (plugin_versions d)
  | Root => mk (version d) (hooks d) (global_hooks d) (deleted d) (groups d) (deleted_groups d) None (plugin_versions d)
  | PluginVersions => mk (version d) (hooks d) (global_hooks d) (deleted d) (groups d) (deleted_groups d) (root d) ∅
  end.

Definition is_nil {A} (l : list A) : bool := match l with [] => true | _ => false end.
Definition no_entries {A} (m : gmap string A) : bool := is_nil (map_to_list m).

Definition section_is_empty (s : OverlaySection) (d : OverlayDoc.t) : bool :=
  match s with
  | Hooks => no_entries (hooks d) && is_nil (global_hooks d) && is_nil (deleted d)
  | Groups => no_entries (groups d) && is_nil (deleted_groups d)
  | Root => match root d with None => true | Some r => root_is_empty r end
  | PluginVersions => no_entries (plugin_versions d)
  end.

(** ** The merge *)

(** [Vec::retain(|x| x != name)], and pushing a name that is not there. *)
Definition retain_ne (name : string) (l : list string) : list string := List.filter (fun n => negb (String.eqb n name)) l.
Definition push_new (l : list string) (name : string) : list string := if bool_decide (name ∈ l) then l else l ++ [name].

Definition with_surface (cfg : RootCfg.t) (hooks : Registry) (global_hooks : list string) (groups : gmap string GroupCfg.t)
    : RootCfg.t :=
  RootCfg.mk (RootCfg.listen cfg) (RootCfg.admin_listen cfg) (RootCfg.tls cfg) (RootCfg.admin_tls cfg) (RootCfg.auth cfg)
    (RootCfg.providers cfg) (RootCfg.models cfg) (RootCfg.pools cfg) hooks (RootCfg.admin_auth cfg) groups
    (RootCfg.rate_card cfg) (RootCfg.per_request_fee cfg) (RootCfg.store cfg) global_hooks
    (RootCfg.blocked_metadata_hosts cfg) (RootCfg.allow_metadata_hosts cfg) (RootCfg.allow_all_metadata cfg) (RootCfg.limits cfg).

(** Overlay entries win over the base, then the tombstones are subtracted. *)
Definition merge_into (cfg : RootCfg.t) (doc : OverlayDoc.t) : RootCfg.t :=
  let hooks1 := hooks doc ∪ RootCfg.hooks cfg in
  let globals1 := foldl push_new (RootCfg.global_hooks cfg) (global_hooks doc) in
  let groups1 := groups doc ∪ RootCfg.groups cfg in
  with_surface cfg (foldl (fun m name => delete name m) hooks1 (deleted doc))
    (foldl (fun l name => retain_ne name l) globals1 (deleted doc))
    (foldl (fun m name => delete name m) groups1 (deleted_groups doc)).

Definition apply_plugin_versions_to_deploy (d : DeployCfg.t) (doc : OverlayDoc.t) : DeployCfg.t :=
  let p := DeployCfg.plugins d in
  let p := PluginsCfg.mk (PluginsCfg.enabled p) (PluginsCfg.dir p) (PluginsCfg.trust p)
    (plugin_versions doc ∪ PluginsCfg.min_versions p) (lowest_version (btree (plugin_versions doc)).*2) in
  DeployCfg.mk (DeployCfg.listen d) (DeployCfg.tls d) (DeployCfg.admin_listen d) (DeployCfg.admin_tls d)
    (DeployCfg.admin_insecure d) (DeployCfg.auth d) (DeployCfg.providers d) (DeployCfg.models d) (DeployCfg.pools d)
    (DeployCfg.global_hooks d) (DeployCfg.groups d) (DeployCfg.rate_card d) (DeployCfg.per_request_fee d) (DeployCfg.store d)
    (DeployCfg.advanced d) (DeployCfg.observability d) p (DeployCfg.security d) (DeployCfg.limits d) (DeployCfg.metrics d)
    (DeployCfg.health d) (DeployCfg.routing d).

Definition apply_root_to_deploy (d : DeployCfg.t) (doc : OverlayDoc.t) : DeployCfg.t :=
  apply_plugin_versions_to_deploy (match root doc with Some r => apply_to_deploy r d | None => d end) doc.

(** ** The file *)
Class OverlaySerde := {
  Bytes : Type;
  to_vec_pretty : OverlayDoc.t -> option Bytes;
  from_slice : Bytes -> option OverlayDoc.t }.

(** What [serde_json] promises of the derived implementations. *)
Class OverlaySerdeOk `{OverlaySerde} : Prop :=
  written_reads_back doc : exists b, to_vec_pretty doc = Some b /\ from_slice b = Some doc.

Section Files.
Context `{OverlaySerde}.

Inductive File := NotFound | IoError | Contents (b : Bytes).

(** The overlay and its [.overlay.tmp] sibling. *)
Record Fs := mk_fs { main : File; tmp : File }.

(** Where a write goes wrong: writing the temporary (leaving whatever is there) or the rename. *)
Inductive WriteFault := NoFault | TmpFault (partial : File) | RenameFault.

Inductive OverlayReadState := Absent | Loaded (doc : OverlayDoc.t) | Unreadable.

Definition read_state (fs : Fs) : OverlayReadState :=
  match main fs with
  | NotFound => Absent
  | IoError => Unreadable
  | Contents b => match from_slice b with Some doc => Loaded doc | None => Unreadable end
  end.

Definition read (fs : Fs) : option OverlayDoc.t := match read_state fs with Loaded doc => Some doc | _ => None end.

(** [true]: the write succeeded. *)
Definition write (fault : WriteFault) (doc : OverlayDoc.t) (fs : Fs) : Fs * bool :=
  match to_vec_pretty doc with
  | None => (fs, false)
  | Some json =>
      match fault with
      | TmpFault partial => (mk_fs (main fs) partial, false)
      | RenameFault => (mk_fs (main fs) (Contents json), false)
      | NoFault => (mk_fs (Contents json) NotFound, true)
      end
  end.

Definition load_for_rmw (fs : Fs) : option OverlayDoc.t :=
  match read_state fs with
  | Absent => Some OverlayDoc.fresh
  | Loaded doc => Some doc
  | Unreadable => None
  end.

(** A read-modify-write that stamps the version; [path] is whether persistence is on. *)
Definition rmw (path : bool) (fault : WriteFault) (f : OverlayDoc.t -> OverlayDoc.t) (fs : Fs) : Fs :=
  if path then
    match load_for_rmw fs with
    | None => fs
    | Some doc =>
        let doc := f doc in
        fst (write fault (mk OVERLAY_VERSION (hooks doc) (global_hooks doc) (deleted doc) (groups doc) (deleted_groups doc)
                            (root doc) (plugin_versions doc)) fs)
    end
  else fs.

(** The tombstones after a change: one name added, one lifted, and none kept for a live entry. *)
Definition tombstones {A} (live : gmap string A) (add remove : option string) (l : list string) : list string :=
  let l := match add with Some name => push_new l name | None => l end in
  let l := match remove with Some name => retain_ne name l | None => l end in
  List.filter (fun name => negb (contains_key live name)) l.

Definition persist (path : bool) (fault : WriteFault) (registry : Registry) (globals : list string)
    (deleted_add deleted_remove : option string) : Fs -> Fs :=
  rmw path fault (fun d => mk (version d) registry globals (tombstones registry deleted_add deleted_remove (deleted d))
                             (groups d) (deleted_groups d) (root d) (plugin_versions d)).

Definition persist_groups (path : bool) (fault : WriteFault) (registry : gmap string GroupCfg.t)
    (deleted_add deleted_remove : option string) : Fs -> Fs :=
  rmw path fault (fun d => mk (version d) (hooks d) (global_hooks d) (deleted d) registry
                             (tombstones registry deleted_add deleted_remove (deleted_groups d)) (root d) (plugin_versions d)).

Definition persist_root (path : bool) (fault : WriteFault) (settings : RootSettings.t) : Fs -> Fs :=
  rmw path fault (fun d => mk (version d) (hooks d) (global_hooks d) (deleted d) (groups d) (deleted_groups d)
                             (if root_is_empty settings then None else Some settings) (plugin_versions d)).

Definition persist_plugin_versions (path : bool) (fault : WriteFault) (pins : gmap string string) : Fs -> Fs :=
  rmw path fault (fun d => mk (version d) (hooks d) (global_hooks d) (deleted d) (groups d) (deleted_groups d) (root d) pins).

Definition clear_section (path : bool) (fault : WriteFault) (s : OverlaySection) : Fs -> Fs :=
  rmw path fault (doc_clear_section s).

(** ** Sections do not interfere *)
Inductive OverlayWrite :=
  | WHooks (registry : Registry) (globals : list string) (add remove : option string)
  | WGroups (registry : gmap string GroupCfg.t) (add remove : option string)
  | WRoot (settings : RootSettings.t)
  | WPins (pins : gmap string string)
  | WClear (s : OverlaySection).

Definition run_write (path : bool) (fault : WriteFault) (w : OverlayWrite) : Fs -> Fs :=
  match w with
  | WHooks registry globals add remove => persist path fault registry globals add remove
  | WGroups registry add remove => persist_groups path fault registry add remove
  | WRoot settings => persist_root path fault settings
  | WPins pins => persist_plugin_versions path fault pins
  | WClear s => clear_section path fault s
  end.

Definition section_of (w : OverlayWrite) : OverlaySection :=
  match w with WHooks _ _ _ _ => Hooks | WGroups _ _ _ => Groups | WRoot _ => Root | WPins _ => PluginVersions | WClear s => s end.

(** The part of a document that is one section. *)
Definition same_section (s : OverlaySection) (d d' : OverlayDoc.t) : Prop :=
  match s with
  | Hooks => hooks d = hooks d' /\ global_hooks d = global_hooks d' /\ deleted d = deleted d'
  | Groups => groups d = groups d' /\ deleted_groups d = deleted_groups d'
  | Root => root d = root d'
  | PluginVersions => plugin_versions d = plugin_versions d'
  end.

(** No live entry of a section is also a tombstone of it. *)
Definition no_live_tombstone (s : OverlaySection) (d : OverlayDoc.t) : Prop :=
  match s with
  | Hooks => forall n, n ∈ deleted d -> hooks d !! n = None
  | Groups => forall n, n ∈ deleted_groups d -> groups d !! n = None
  | _ => True
  end.

Lemma same_section_trans s d1 d2 d3 : same_section s d1 d2 -> same_section s d2 d3 -> same_section s d1 d3.
Proof. destruct s; cbn; intuition congruence. Qed.

Lemma no_live_tombstone_same s d d' : same_section s d d' -> no_live_tombstone s d' -> no_live_tombstone s d.
Proof. destruct s; cbn; [intros (-> & _ & ->)|intros (-> & ->)|..]; done. Qed.

Lemma elem_of_filter_list {A} (f : A -> bool) (x : A) l : x ∈ List.filter f l <-> x ∈ l /\ f x = true.
Proof. rewrite !list_elem_of_In. apply filter_In. Qed.

Lemma tombstones_dead {A} (live : gmap string A) add remove l n : n ∈ tombstones live add remove l -> live !! n = None.
Proof.
  unfold tombstones. intros [_ Hc]%elem_of_filter_list. unfold contains_key in Hc. apply negb_true_iff, bool_decide_eq_false in Hc.
  by apply eq_None_not_Some.
Qed.

Lemma rmw_cases `{!OverlaySerdeOk} fault f fs :
  (rmw true fault f fs = fs /\ load_for_rmw fs = None) \/
  exists doc, load_for_rmw fs = Some doc /\
    (fault <> NoFault /\ main (rmw true fault f fs) = main fs \/
     fault = NoFault /\ exists doc', read_state (rmw true fault f fs) = Loaded doc' /\ version doc' = OVERLAY_VERSION /\
       (forall s, same_section s doc' (f doc))).
Proof.
  unfold rmw. destruct (load_for_rmw fs) as [doc|]; [|by left]. right. exists doc. split; [done|]. unfold write.
  match goal with |- context [to_vec_pretty ?d] => destruct (written_reads_back d) as (b & Eb & Er); rewrite Eb end.
  destruct fault; cbn [fst main]; [right|left; by split..]. split; [done|]. eexists. split; [|split].
  - unfold read_state. cbn [main]. by rewrite Er.
  - done.
  - by intros [].
Qed.

(** C29.  The overlay file: for every write the engine makes to it (the hooks, the groups, the root settings,
    the plugin pins, or clearing a section), an unreadable overlay is left exactly as it is; a write
    that fails at the temporary or at the rename leaves the overlay unchanged; and one that succeeds
    reads back as a document whose other sections are those of the document before, with no
    tombstone on an entry that is live. *)
Theorem overlay_writes_are_local `{!OverlaySerdeOk} fault w fs :
  match read_state fs with
  | Unreadable => run_write true fault w fs = fs
  | _ =>
      let doc := default OverlayDoc.fresh (read fs) in
      match fault with
      | NoFault => exists doc', read (run_write true fault w fs) = Some doc' /\
          (forall s, s <> section_of w -> same_section s doc' doc) /\ no_live_tombstone (section_of w) doc'
      | _ => main (run_write true fault w fs) = main fs
      end
  end.
Proof.
  assert (exists f, run_write true fault w fs = rmw true fault f fs /\
    (forall doc s, s <> section_of w -> same_section s (f doc) doc) /\ (forall doc, no_live_tombstone (section_of w) (f doc)))
    as (f & -> & Hf & Ht).
  { destruct w as [r g a d|r a d|s|p|s]; (eexists; split; [reflexivity|]); (split; [intros doc s' Hs|intros doc]); cbn in *;
      try (by destruct s'); try done; try (by intros n ?%tombstones_dead); try (by destruct s, s'); destruct s; cbn; set_solver. }
  pose proof (rmw_cases fault f fs) as Hc. unfold load_for_rmw, read in *. destruct (read_state fs) as [|doc|]; cbn [default from_option id].
  3: { by destruct Hc as [[-> _]|(? & ? & _)]. }
  all: destruct Hc as [[_ ?]|(doc0 & [= <-] & Hc)]; [done|]; destruct fault; try by destruct Hc as [[_ ->]|[? _]].
  all: destruct Hc as [[? _]|(_ & doc' & -> & _ & Hs)]; [done|]; exists doc'; split; [done|]; split.
  all: try (intros s Hne; eapply same_section_trans; [apply Hs|by apply Hf]).
  all: eapply no_live_tombstone_same; [apply Hs|apply Ht].
Qed.
End Files.
