(* ===== verification/RuntimeConfig.v ===== *)
(** * Runtime configuration (admin/v1/service.rs, admin/v1/json, main.rs)

    The snapshot of the configuration the engine serves from, the builders that derive the next one, and
    the admin handlers that validate, swap, audit, record a version and persist: hooks, groups, key-mint
    provisioning, section resets, rollback, reload and root settings.  A handler runs alone (the
    mutation lock); the settings push, which is made before the lock, is a parameter of its request.
    [World.t] holds the snapshot behind the handle, the version log, the audit trail and the overlay file
    system.  Opening plugins, the refusals of the rest of application construction and the size of a
    serialized map are parameters.  Error messages are the cases the code distinguishes. *)
From stdpp Require Import base gmap list strings pretty.
From Stdlib Require Import ZArith Lia Ascii.
From S2P Require Import Prelude Breaker Cell Select Walk Cost CostFacts Json HookWire Ranking Routing HookResolve Signing AdminState FrontDoor.
From S2P Require Import EgressAuth Secrets Topology Boot TopologyProps Deploy Overlay.
Open Scope Z_scope.
Open Scope rust_scope.

(** ** The snapshot *)
Module Surface.
Record t := mk {
  rewrite_hooks : list Policy.t; tap_hooks : list (bool * Policy.t); tap_hooks_route : list (bool * Policy.t);
  tap_hooks_attempt : list (bool * Policy.t); tap_hooks_completion : list (bool * Policy.t);
  global_gates : list (Z * ResolvedPolicy.t) }.
End Surface.

(** The configuration-derived part of [App]; [pools] are the names of the routing table. *)
Module Snapshot.
Record t := mk {
  config_version : Z; hook_registry : Registry; global_hooks : list string; surface : Surface.t;
  groups_registry : gmap string GroupCfg.t; cost : CostModel.t; pools : gset string; base_hook_names : gset string;
  base_group_names : gset string; overlay_path : bool; config_files : bool; plugins_cfg : PluginsCfg.t }.
End Snapshot.
Import Snapshot.

Inductive AdminError :=
  | NotFound (what : string) | Unauthorized | MethodNotAllowed | Forbidden (needed : Scope) | Validation (why : string)
  | VersionConflict | Conflict (why : string) | RateLimited | Internal.

Definition error_code (e : AdminError) : string :=
  match e with
  | NotFound _ => "not_found" | Unauthorized => "unauthorized" | MethodNotAllowed => "method_not_allowed"
  | Forbidden _ => "forbidden" | Validation _ => "invalid_request" | VersionConflict => "version_conflict"
  | Conflict _ => "conflict" | RateLimited => "rate_limited" | Internal => "internal"
  end.

Definition http_status (e : AdminError) : Z :=
  match e with
  | NotFound _ => 404 | Unauthorized => 401 | MethodNotAllowed => 405 | Forbidden _ => 403 | Validation _ => 400
  | VersionConflict => 409 | Conflict _ => 409 | RateLimited => 429 | Internal => 500
  end.

Definition wrapping_next (v : Z) : Z := wrap_u64 (v + 1).

Definition MAX_SETTINGS_BYTES : Z := 64 * 1024.
Definition MAX_SETTINGS_KEYS : nat := 256.
Definition MAX_HOOK_NAME_LEN : nat := 256.
Definition MAX_GROUP_NAME_LEN : nat := 256.

#[export] Instance PromptAccess_eq_dec : EqDecision PromptAccess.
Proof. solve_decision. Defined.
#[export] Instance UserAccess_eq_dec : EqDecision UserAccess.
Proof. solve_decision. Defined.

(** What application construction takes from outside: plugins and their needs, secrets held by plugins, the
    serialized size of a settings map, and the refusals of the plugin pre-flight and of opening the store. *)
Class Platform := {
  open_hook : string -> HookCfg.t -> option Policy.t;
  needs : string -> option (bool * bool);
  default_timeout : Z;
  settings_len : Map -> option Z;
  secret_plugin : option PluginResolveFn;
  build_refuses : RootCfg.t -> PluginsCfg.t -> option string }.

Section Builders.
Context `{Platform}.

Definition surface_of (hooks : Registry) (globals : list string) : option Surface.t :=
  let taps st := resolve_tap_hooks open_hook needs default_timeout hooks globals st in
  let? rewrites := resolve_rewrite_hooks open_hook needs default_timeout hooks globals in
  let? request := taps StRequest in
  let? route := taps StRoute in
  let? attempt := taps StAttempt in
  let? completion := taps StCompletion in
  let? gates := resolve_gate_hooks open_hook needs default_timeout hooks globals in
  Some (Surface.mk rewrites request route attempt completion gates).

Definition validate_hook_settings_size (settings : Map) : option AdminError :=
  if (MAX_SETTINGS_KEYS <? length settings)%nat then Some (Validation "settings keys")
  else match settings_len settings with
       | Some n => if MAX_SETTINGS_BYTES <? n then Some (Validation "settings bytes") else None
       | None => None
       end.

(** The next snapshot with another hook surface. *)
Definition with_hooks (app : Snapshot.t) (hooks : Registry) (globals : list string) : option Snapshot.t :=
  let? s := surface_of hooks globals in
  Some (mk (wrapping_next (config_version app)) hooks globals s (groups_registry app) (cost app) (pools app)
          (base_hook_names app) (base_group_names app) (overlay_path app) (config_files app) (plugins_cfg app)).

Definition with_groups (app : Snapshot.t) (groups : gmap string GroupCfg.t) : Snapshot.t :=
  mk (wrapping_next (config_version app)) (hook_registry app) (global_hooks app) (surface app) groups
    (Cost.with_groups (cost app) (btree groups)) (pools app) (base_hook_names app) (base_group_names app)
    (overlay_path app) (config_files app) (plugins_cfg app).

Definition same_grants (a b : HookCfg.t) : bool :=
  bool_decide (HookCfg.kind a = HookCfg.kind b) && bool_decide (HookCfg.prompt a = HookCfg.prompt b) &&
  bool_decide (HookCfg.user a = HookCfg.user b).

Definition hook_problem (cfg : HookCfg.t) : option AdminError :=
  if is_empty (trim (HookCfg.plugin cfg)) then Some (Validation "hook plugin")
  else if bool_decide (HookCfg.kind cfg = Tap) && can_rewrite (HookCfg.prompt cfg) then Some (Validation "rewriting tap")
  else None.

(** The checks of a hook definition, in the order of the code. *)
Definition hook_refusal (app : Snapshot.t) (name : string) (cfg : HookCfg.t) : option AdminError :=
  if is_empty (trim name) then Some (Validation "hook name empty")
  else if (MAX_HOOK_NAME_LEN <? String.length name)%nat then Some (Validation "hook name length")
  else if bool_decide (name ∈ RESERVED_HOOK_NAMES) then Some (Validation "hook name reserved")
  else match validate_hook_settings_size (HookCfg.settings cfg) with
  | Some e => Some e
  | None =>
      match hook_problem cfg with
      | Some e => Some e
      | None =>
          match hook_registry app !! name with
          | Some existing => if same_grants existing cfg then None else Some (Conflict "grants")
          | None => None
          end
      end
  end.

Definition build_with_hook (app : Snapshot.t) (name : string) (cfg : HookCfg.t) : option (AdminError + Snapshot.t) :=
  match hook_refusal app name cfg with
  | Some e => Some (inl e)
  | None =>
      let globals := if HookCfg.global cfg then push_new (global_hooks app) name else retain_ne name (global_hooks app) in
      let? next := with_hooks app (<[name := cfg]> (hook_registry app)) globals in Some (inr next)
  end.

Definition build_without_hook (app : Snapshot.t) (name : string) : option (AdminError + Snapshot.t) :=
  if negb (contains_key (hook_registry app) name) then Some (inl (NotFound name))
  else let? next := with_hooks app (delete name (hook_registry app)) (retain_ne name (global_hooks app)) in Some (inr next).

Definition pool_exists (app : Snapshot.t) (p : string) : bool := bool_decide (p ∈ pools app).

Definition build_with_group (app : Snapshot.t) (name : string) (cfg : GroupCfg.t) : option (AdminError + Snapshot.t) :=
  if is_empty (trim name) then Some (inl (Validation "group name empty"))
  else if (MAX_GROUP_NAME_LEN <? String.length name)%nat then Some (inl (Validation "group name length"))
  else
    let groups := <[name := cfg]> (groups_registry app) in
    let? errors := validate_groups (btree groups) (pool_exists app) in
    Some (if is_nil errors then inr (with_groups app groups) else inl (Validation "invalid group")).

Definition build_without_group (app : Snapshot.t) (name : string) : option (AdminError + Snapshot.t) :=
  if negb (contains_key (groups_registry app) name) then Some (inl (NotFound name))
  else
    let groups := delete name (groups_registry app) in
    let? errors := validate_groups (btree groups) (pool_exists app) in
    Some (if is_nil errors then inr (with_groups app groups) else inl (Conflict "group still referenced")).

Definition build_with_registry (app : Snapshot.t) (registry : Registry) (globals : list string)
    : option (AdminError + Snapshot.t) :=
  let entries := map_to_list registry in
  match head (omap (fun nh => hook_problem nh.2) entries) with
  | Some e => Some (inl e)
  | None =>
  if (1 <? length (List.filter (fun nh => HookCfg.default nh.2) entries))%nat then Some (inl (Validation "defaults"))
  else if existsb (fun g => negb (contains_key registry g)) globals then Some (inl (Validation "unknown global"))
  else let? next := with_hooks app registry globals in Some (inr next)
  end.

(** ** Building from a configuration *)
Context `{Host} `{OAuthLibs}.

(** [build_app_from_config]: validation, the plugin pre-flight, the lanes and pools (Boot.v), the rest. *)
Definition build_snapshot (prior : option Snapshot.t) (cfg : RootCfg.t) (plugins : PluginsCfg.t) (overlay_path : bool)
    (base_hook_names base_group_names : gset string) (config_files : bool) : option (string + Snapshot.t) :=
  let version := match prior with Some p => wrapping_next (config_version p) | None => 0 end in
  let? errors := validate cfg in
  if negb (is_nil errors) then Some (inl "config validation failed")
  else match build_refuses cfg plugins with
  | Some why => Some (inl why)
  | None =>
  match build_tables secret_plugin cfg (map_to_list (RootCfg.models cfg)) (map_to_list (RootCfg.pools cfg)) with
  | inl _ => Some (inl "lanes")
  | inr tables =>
      let rates := (fun card : list (string * RateEntryCfg.t) => (fun mr : string * RateEntryCfg.t =>
        (mr.1, RateNanos.from_cfg (RateEntryCfg.input_utok mr.2) (RateEntryCfg.output_utok mr.2)
                 (RateEntryCfg.cache_read_utok mr.2) (RateEntryCfg.cache_write_utok mr.2))) <$> card) <$> RootCfg.rate_card cfg in
      let? s := surface_of (RootCfg.hooks cfg) (RootCfg.global_hooks cfg) in
      Some (inr (mk version (RootCfg.hooks cfg) (RootCfg.global_hooks cfg) s (RootCfg.groups cfg)
        (resolve_parts rates (RootCfg.per_request_fee cfg) (btree (RootCfg.groups cfg))) (dom (App.pools tables))
        base_hook_names base_group_names overlay_path config_files plugins))
  end
  end.

(** What the files on disk hold; [inl]: they do not load. *)
Record DiskConfig := mk_disk { deploy : DeployCfg.t; defs : gmap string ProviderDef.t; overlay_env : bool }.

(** From a deployment configuration to a snapshot: resolve, note the base names, merge, build. *)
Definition assemble (prior : option Snapshot.t) (deploy : DeployCfg.t) (defs : gmap string ProviderDef.t)
    (doc : option OverlayDoc.t) (overlay_path config_files : bool) : option (string + Snapshot.t) :=
  let? r := resolve deploy defs in
  match r with
  | inl _ => Some (inl "config errors")
  | inr cfg =>
      build_snapshot prior (match doc with Some doc => merge_into cfg doc | None => cfg end) (DeployCfg.plugins deploy)
        overlay_path (dom (RootCfg.hooks cfg)) (dom (RootCfg.groups cfg)) config_files
  end.

Context `{OverlaySerde}.

(** The overlay [load_config_from_disk] hands on. *)
Definition overlay_doc (d : DiskConfig) (safe_mode : bool) (fs : Fs) : option OverlayDoc.t :=
  if safe_mode then None else if overlay_env d then read fs else None.

Definition root_applied (d : DiskConfig) (doc : option OverlayDoc.t) : DeployCfg.t :=
  match doc with Some doc => apply_root_to_deploy (deploy d) doc | None => deploy d end.

(** The configuration part of [main]. *)
Definition boot (disk : string + DiskConfig) (safe_mode : bool) (fs : Fs) : option (string + Snapshot.t) :=
  match disk with
  | inl e => Some (inl e)
  | inr d =>
      let doc := overlay_doc d safe_mode fs in
      assemble None (root_applied d doc) (defs d) doc (overlay_env d) true
  end.

Definition rebuild_app_from_disk (current : Snapshot.t) (disk : string + DiskConfig) (fs : Fs)
    : option (string + Snapshot.t) :=
  if negb (config_files current) then Some (inl "ephemeral")
  else match disk with
  | inl e => Some (inl e)
  | inr d =>
      let doc := overlay_doc d false fs in
      assemble (Some current) (root_applied d doc) (defs d) doc (overlay_env d) true
  end.

End Builders.

(** ** The world of a handler *)
Module AuditRow.
Record t := mk { action : string; resource : string; applied : bool; actor : string }.
End AuditRow.

(** A settings push the hook acknowledged and that is not committed yet. *)
Module Pending.
Record t := mk { name : string; updated : HookCfg.t; pre_push_version : Z }.
End Pending.

Module World.
Record t `{OverlaySerde} := mk {
  app : Snapshot.t; versions : @VersionLog HookCfg.t; audit : list AuditRow.t; fs : Fs; pending : list Pending.t }.
End World.
Import World.

Module Request.
Record t `{OverlaySerde} := mk { actor : string; scope : option Scope; if_match : option string; now : Z; fault : WriteFault }.
End Request.

#[global] Arguments World.mk {_} _ _ _ _ _.
#[global] Arguments Request.mk {_} _ _ _ _ _.

Section Handlers.
Context `{Platform} `{Host} `{OAuthLibs} `{OverlaySerde}.

(** [Done status etag]. *)
Inductive Response := Failed (e : AdminError) | Done (status : Z) (etag : option Z).

Definition QUOTE : ascii := ascii_of_nat 34.

(** The [If-Match] header; [inr None] is no guard. *)
Definition if_match_version (header : option string) : AdminError + option Z :=
  match header with
  | None => inr None
  | Some raw =>
      let s := trim raw in
      if String.eqb s "*" then inr None
      else
        let bare := default s (strip_prefix "W/" s) in
        let bare := trim_end_char QUOTE (trim_start_char QUOTE bare) in
        match parse_u64 bare with
        | Some v => inr (Some v)
        | None => inl (Validation "malformed If-Match")
        end
  end.

Definition stale_if_match (expected : option Z) (current : Z) : option AdminError :=
  match expected with
  | Some v => if v =? current then None else Some VersionConflict
  | None => None
  end.

(** A principal below full scope may not define a hook that sees content or identity or fires globally. *)
Definition hooks_register_escalation (scope : option Scope) (cfg : HookCfg.t) : option AdminError :=
  if bool_decide (scope = Some Full) then None
  else if HookCfg.global cfg || negb (bool_decide (HookCfg.prompt cfg = PromptNo))
          || negb (bool_decide (HookCfg.user cfg = UserNo))
  then Some (Forbidden Full) else None.

Definition audited (action resource : string) (applied : bool) (rq : Request.t) (w : World.t) : World.t :=
  World.mk (app w) (versions w) (audit w ++ [AuditRow.mk action resource applied (Request.actor rq)]) (fs w) (pending w).

Definition rejected (action resource : string) (rq : Request.t) (e : AdminError) (w : World.t) : World.t * Response :=
  (audited action resource false rq w, Failed e).

(** Swap the snapshot in, audit, record the version, write the overlay. *)
Definition commit (action resource summary : string) (rq : Request.t) (next : Snapshot.t) (save : Fs -> Fs)
    (w : World.t) : World.t :=
  World.mk next
    (record_version (mk_version (config_version next) (Request.now rq) (Request.actor rq) summary (hook_registry next)
                       (Snapshot.global_hooks next)) (versions w))
    (audit w ++ [AuditRow.mk action resource true (Request.actor rq)]) (save (fs w)) (pending w).

Definition first_error (guards : list (option AdminError)) : option AdminError := head (omap id guards).

(** The shape of every mutation: the guards in order, the builder, the commit. *)
Definition mutate (action resource summary : string) (rq : Request.t) (guards : list (option AdminError))
    (build : option (AdminError + Snapshot.t)) (save : Snapshot.t -> Fs -> Fs) (status : Z) (w : World.t)
    : option (World.t * Response) :=
  match first_error guards with
  | Some e => Some (rejected action resource rq e w)
  | None =>
      let? r := build in
      Some (match r with
            | inl e => rejected action resource rq e w
            | inr next => (commit action resource summary rq next (save next) w, Done status (Some (config_version next)))
            end)
  end.

Definition refuse_if (b : bool) (e : AdminError) : option AdminError := if b then Some e else None.

Definition save_hooks (rq : Request.t) (add remove : option string) (next : Snapshot.t) : Fs -> Fs :=
  persist (overlay_path next) (Request.fault rq) (hook_registry next) (Snapshot.global_hooks next) add remove.
Definition save_groups (rq : Request.t) (add remove : option string) (next : Snapshot.t) : Fs -> Fs :=
  persist_groups (overlay_path next) (Request.fault rq) (groups_registry next) add remove.

Definition base_hook (app : Snapshot.t) (name : string) : option AdminError :=
  refuse_if (bool_decide (name ∈ base_hook_names app)) (Conflict "base hook").
Definition base_group (app : Snapshot.t) (name : string) : option AdminError :=
  refuse_if (bool_decide (name ∈ base_group_names app)) (Conflict "base group").
Definition unknown_hook (app : Snapshot.t) (name : string) : option AdminError :=
  refuse_if (negb (contains_key (hook_registry app) name)) (NotFound name).
Definition unknown_group (app : Snapshot.t) (name : string) : option AdminError :=
  refuse_if (negb (contains_key (groups_registry app) name)) (NotFound name).

(** ** Hooks.  [body] is [None] when it does not parse. *)
Definition register_hook (rq : Request.t) (body : option (string * HookCfg.t)) (w : World.t) : option (World.t * Response) :=
  match if_match_version (Request.if_match rq) with
  | inl e => Some (w, Failed e)
  | inr expected =>
      match body with
      | None => Some (w, Failed (Validation "malformed hook body"))
      | Some (name, cfg) =>
          let a := app w in
          mutate "hook.register" ("hook:" +:+ name) ("hook.register hook:" +:+ name) rq
            [hooks_register_escalation (Request.scope rq) cfg; base_hook a name; stale_if_match expected (config_version a)]
            (build_with_hook a name cfg) (save_hooks rq None (Some name))
            (if contains_key (hook_registry a) name then 200 else 201) w
      end
  end.

Definition put_hook (rq : Request.t) (name : string) (body : option HookCfg.t) (w : World.t) : option (World.t * Response) :=
  match if_match_version (Request.if_match rq) with
  | inl e => Some (w, Failed e)
  | inr expected =>
      match body with
      | None => Some (w, Failed (Validation "malformed hook body"))
      | Some cfg =>
          let a := app w in
          mutate "hook.replace" ("hook:" +:+ name) ("hook.replace hook:" +:+ name) rq
            [hooks_register_escalation (Request.scope rq) cfg; unknown_hook a name; base_hook a name;
             stale_if_match expected (config_version a)]
            (build_with_hook a name cfg) (save_hooks rq None (Some name)) 200 w
      end
  end.

(** The escalation rule on the hook that exists. *)
Definition existing_escalation (scope : option Scope) (a : Snapshot.t) (name : string) : option AdminError :=
  match hook_registry a !! name with Some existing => hooks_register_escalation scope existing | None => None end.

Definition delete_hook (rq : Request.t) (name : string) (w : World.t) : option (World.t * Response) :=
  match if_match_version (Request.if_match rq) with
  | inl e => Some (w, Failed e)
  | inr expected =>
      let a := app w in
      mutate "hook.delete" ("hook:" +:+ name) ("hook.delete hook:" +:+ name) rq
        [unknown_hook a name; stale_if_match expected (config_version a);
         existing_escalation (Request.scope rq) a name; base_hook a name]
        (build_without_hook a name) (save_hooks rq (Some name) None) 204 w
  end.

Definition with_settings (h : HookCfg.t) (settings : Map) : HookCfg.t :=
  HookCfg.mk (HookCfg.kind h) (HookCfg.plugin h) (HookCfg.timeout_ms h) (HookCfg.on_error h) (HookCfg.prompt h)
    (HookCfg.user h) (HookCfg.priority h) (HookCfg.at_ h) (HookCfg.on_empty h) settings (HookCfg.global h) (HookCfg.default h).

(** The first half of [patch_hook_settings], up to the hook's answer ([acked]). *)
Definition patch_settings_push (rq : Request.t) (name : string) (body : option Map) (acked : bool) (w : World.t)
    : World.t * option Response :=
  let failed e := (w, Some (Failed e)) in
  match if_match_version (Request.if_match rq), body with
  | inl e, _ => failed e
  | inr _, None => failed (Validation "malformed settings body")
  | inr expected, Some settings =>
      match validate_hook_settings_size settings with
      | Some e => failed e
      | None =>
          let a := app w in
          let reject e := (audited "hook.settings" ("hook:" +:+ name) false rq w, Some (Failed e)) in
          match hook_registry a !! name with
          | None => reject (NotFound name)
          | Some existing =>
              match first_error [hooks_register_escalation (Request.scope rq) existing; base_hook a name;
                                 stale_if_match expected (config_version a)] with
              | Some e => reject e
              | None =>
                  if acked then
                    (World.mk a (versions w) (audit w) (fs w)
                       (pending w ++ [Pending.mk name (with_settings existing settings) (config_version a)]), None)
                  else reject (Validation "settings not acknowledged")
              end
          end
      end
  end.

(** The second half, under the lock: [i] is the push it commits. *)
Definition patch_settings_commit (rq : Request.t) (i : nat) (w : World.t) : option (World.t * Response) :=
  match pending w !! i with
  | None => Some (w, Failed (NotFound "push"))
  | Some p =>
      let a := app w in
      let name := Pending.name p in
      let? (w, r) := mutate "hook.settings" ("hook:" +:+ name) ("hook.settings hook:" +:+ name) rq
        [refuse_if (negb (config_version a =? Pending.pre_push_version p)) (Conflict "config changed")]
        (build_with_hook a name (Pending.updated p)) (save_hooks rq None (Some name)) 200 w in
      Some (World.mk (app w) (versions w) (audit w) (fs w) (delete i (pending w)), r)
  end.

(** ** Groups *)
Definition register_group (rq : Request.t) (body : option (string * GroupCfg.t)) (w : World.t) : option (World.t * Response) :=
  match if_match_version (Request.if_match rq) with
  | inl e => Some (w, Failed e)
  | inr expected =>
      match body with
      | None => Some (w, Failed (Validation "malformed group body"))
      | Some (name, cfg) =>
          let a := app w in
          mutate "group.create" ("group:" +:+ name) ("group.create group:" +:+ name) rq
            [base_group a name; stale_if_match expected (config_version a)]
            (build_with_group a name cfg) (save_groups rq None (Some name))
            (if contains_key (groups_registry a) name then 200 else 201) w
      end
  end.

Definition put_group (rq : Request.t) (name : string) (body : option GroupCfg.t) (w : World.t) : option (World.t * Response) :=
  match if_match_version (Request.if_match rq) with
  | inl e => Some (w, Failed e)
  | inr expected =>
      match body with
      | None => Some (w, Failed (Validation "malformed group body"))
      | Some cfg =>
          let a := app w in
          mutate "group.replace" ("group:" +:+ name) ("group.replace group:" +:+ name) rq
            [unknown_group a name; base_group a name; stale_if_match expected (config_version a)]
            (build_with_group a name cfg) (save_groups rq None (Some name)) 200 w
      end
  end.

(** A partial update: a field that is present replaces. *)
Record GroupPatch := mk_patch {
  p_parent : option string; p_enabled : option bool; p_limits : option (list LimitCfg.t);
  p_child_default : option (list LimitCfg.t) }.

Definition merge_group_patch (base : GroupCfg.t) (p : GroupPatch) : GroupCfg.t :=
  GroupCfg.mk (or (p_parent p) (GroupCfg.parent base)) (default (GroupCfg.enabled base) (p_enabled p))
    (default (GroupCfg.limits base) (p_limits p)) (or (p_child_default p) (GroupCfg.child_default base)).

Definition patch_group (rq : Request.t) (name : string) (body : option GroupPatch) (w : World.t) : option (World.t * Response) :=
  match if_match_version (Request.if_match rq) with
  | inl e => Some (w, Failed e)
  | inr expected =>
      match body with
      | None => Some (w, Failed (Validation "malformed group patch"))
      | Some patch =>
          let a := app w in
          match groups_registry a !! name with
          | None => Some (rejected "group.patch" ("group:" +:+ name) rq (NotFound name) w)
          | Some existing =>
              mutate "group.patch" ("group:" +:+ name) ("group.patch group:" +:+ name) rq
                [base_group a name; stale_if_match expected (config_version a)]
                (build_with_group a name (merge_group_patch existing patch)) (save_groups rq None (Some name)) 200 w
          end
      end
  end.

Definition delete_group (rq : Request.t) (name : string) (w : World.t) : option (World.t * Response) :=
  match if_match_version (Request.if_match rq) with
  | inl e => Some (w, Failed e)
  | inr expected =>
      let a := app w in
      mutate "group.delete" ("group:" +:+ name) ("group.delete group:" +:+ name) rq
        [unknown_group a name; stale_if_match expected (config_version a); base_group a name]
        (build_without_group a name) (save_groups rq (Some name) None) 204 w
  end.

Definition parent_of (a : Snapshot.t) (group : string) : option string := g ← groups_registry a !! group; GroupCfg.parent g.
Definition group_exists (a : Snapshot.t) (group : string) : option bool :=
  let? g := group_named (cost a) group in Some (is_some g).

(** [resolve_mint_group]: [seen] is the snapshot read before the lock.  [inr true]: a leaf was provisioned. *)
Definition resolve_mint_group (rq : Request.t) (seen : Snapshot.t) (group : string) (parent : option string) (w : World.t)
    : option (World.t * (AdminError + bool)) :=
  let? known := group_exists seen group in
  if known then
    Some (w, match parent with
             | Some want => if bool_decide (parent_of seen group = Some want) then inr false else inl (Conflict "other parent")
             | None => inr false
             end)
  else
    match parent with
    | None => Some (w, inl (Validation "unknown group"))
    | Some parent =>
        if (MAX_GROUP_NAME_LEN <? String.length parent)%nat then Some (w, inl (Validation "parent name length"))
        else
          let a := app w in
          let? known := group_exists a group in
          if known then
            Some (w, if bool_decide (parent_of a group = Some parent) then inr false else inl (Conflict "other parent"))
          else
            let? parent_known := group_exists a parent in
            if negb parent_known then Some (w, inl (Validation "unknown parent"))
            else if bool_decide (group ∈ base_group_names a) then Some (w, inl (Conflict "base group"))
            else
              let leaf := provision_child (btree (groups_registry a)) parent in
              let? (w, r) := mutate "group.provision" ("group:" +:+ group)
                ("group.provision group:" +:+ group +:+ " (auto, parent " +:+ parent +:+ ")") rq []
                (build_with_group a group leaf) (save_groups rq None (Some group)) 200 w in
              Some (w, match r with Failed e => inl e | Done _ _ => inr true end)
    end.

(** ** The whole configuration *)

(** A build from disk as the builders' outcome: a refusal is a 400. *)
Definition as_build (o : option (string + Snapshot.t)) : option (AdminError + Snapshot.t) :=
  let? r := o in Some (match r with inl e => inl (Validation e) | inr next => inr next end).

Definition reset_overlay_section (rq : Request.t) (section : string) (disk : string + DiskConfig) (w : World.t)
    : option (World.t * Response) :=
  match section_parse section with
  | None => Some (w, Failed (Validation "unknown section"))
  | Some s =>
      match if_match_version (Request.if_match rq) with
      | inl e => Some (w, Failed e)
      | inr expected =>
          let a := app w in
          let resource := "overlay:" +:+ section_str s in
          match stale_if_match expected (config_version a) with
          | Some e => Some (rejected "overlay.reset" resource rq e w)
          | None =>
              let empty := if overlay_path a then match read (fs w) with Some doc => section_is_empty s doc | None => true end
                           else true in
              if empty then Some (audited "overlay.reset" resource true rq w, Done 200 (Some (config_version a)))
              else
                mutate "overlay.reset" resource ("overlay.reset " +:+ section_str s +:+ " (revert to config.yaml)") rq
                  [refuse_if (negb (config_files a)) (Validation "ephemeral")]
                  (as_build match disk with
                   | inl e => Some (inl e)
                   | inr d =>
                       let doc := doc_clear_section s <$> overlay_doc d false (fs w) in
                       assemble (Some a) (root_applied d doc) (defs d) doc (overlay_path a) true
                   end)
                  (fun next => clear_section (overlay_path next) (Request.fault rq) s) 200 w
          end
      end
  end.

Definition rollback_config (rq : Request.t) (body : option Z) (w : World.t) : option (World.t * Response) :=
  match if_match_version (Request.if_match rq) with
  | inl e => Some (w, Failed e)
  | inr expected =>
      match body with
      | None => Some (w, Failed (Validation "malformed rollback body"))
      | Some v =>
          let a := app w in
          match stale_if_match expected (config_version a) with
          | Some e => Some (rejected "config.rollback" ("config:v" +:+ pretty v) rq e w)
          | None =>
              match get_version v (versions w) with
              | None => Some (rejected "config.rollback" ("config:v" +:+ pretty v) rq (NotFound "version") w)
              | Some target =>
                  mutate "config.rollback" ("config:v" +:+ pretty v) ("config.rollback to v" +:+ pretty v) rq []
                    (build_with_registry a (AdminState.hook_registry target) (AdminState.global_hooks target))
                    (save_hooks rq None None) 200 w
              end
          end
      end
  end.

Definition reload_config (rq : Request.t) (disk : string + DiskConfig) (w : World.t) : option (World.t * Response) :=
  mutate "config.reload" "config:disk" "config.reload (from disk)" rq [] (as_build (rebuild_app_from_disk (app w) disk (fs w)))
    (fun _ fs => fs) 200 w.

(** The applied body is its own base; the overlay is not merged. *)
Definition apply_config (rq : Request.t) (body : option (DeployCfg.t * gmap string ProviderDef.t)) (w : World.t)
    : option (World.t * Response) :=
  match if_match_version (Request.if_match rq) with
  | inl e => Some (w, Failed e)
  | inr expected =>
      match body with
      | None => Some (w, Failed (Validation "malformed config body"))
      | Some (deploy, defs) =>
          let a := app w in
          mutate "config.apply" "config:body" "config.apply (request body)" rq [stale_if_match expected (config_version a)]
            (as_build (assemble (Some a) deploy defs None (overlay_path a) (config_files a))) (fun _ fs => fs) 200 w
      end
  end.

Definition current_root_settings (path : bool) (fs : Fs) : RootSettings.t :=
  if path then default RootSettings.default (doc ← read fs; OverlayDoc.root doc) else RootSettings.default.

Definition put_config_settings (rq : Request.t) (body : option RootSettings.t) (disk : string + DiskConfig) (w : World.t)
    : option (World.t * Response) :=
  match if_match_version (Request.if_match rq) with
  | inl e => Some (w, Failed e)
  | inr expected =>
      match body with
      | None => Some (w, Failed (Validation "malformed config settings body"))
      | Some req =>
          let a := app w in
          let merged := merge_root_settings (current_root_settings (overlay_path a) (fs w)) req in
          mutate "config.settings" "config:settings" "config.settings (root section applied)" rq
            [stale_if_match expected (config_version a); refuse_if (negb (config_files a)) (Validation "ephemeral")]
            (as_build match disk with
             | inl e => Some (inl e)
             | inr d => assemble (Some a) (apply_to_deploy merged (deploy d)) (defs d) (overlay_doc d false (fs w)) (overlay_path a) true
             end)
            (fun next => persist_root (overlay_path next) (Request.fault rq) merged) 200 w
      end
  end.

(** [target] is what the vetting of the artifact returns: the plugin's name and version; [undo] is the
    fault of the write that takes the pin back. *)
Definition rollback_plugin (rq : Request.t) (file : option string) (target : AdminError + string * string) (undo : WriteFault)
    (disk : string + DiskConfig) (w : World.t) : option (World.t * Response) :=
  match if_match_version (Request.if_match rq) with
  | inl e => Some (w, Failed e)
  | inr expected =>
      match file with
      | None => Some (w, Failed (Validation "malformed rollback body"))
      | Some file =>
          let a := app w in
          let resource := "plugin:" +:+ file in
          match first_error [stale_if_match expected (config_version a);
                             refuse_if (negb (overlay_path a)) (Validation "no persistence")], target with
          | Some e, _ => Some (rejected "plugin.rollback" resource rq e w)
          | None, inl e => Some (rejected "plugin.rollback" resource rq e w)
          | None, inr (name, version) =>
              let prior := match read (fs w) with Some doc => OverlayDoc.plugin_versions doc | None => ∅ end in
              let pinned := persist_plugin_versions true (Request.fault rq) (<[name := version]> prior) (fs w) in
              let? r := rebuild_app_from_disk a disk pinned in
              let w := World.mk a (versions w) (audit w) pinned (pending w) in
              Some (match r with
                    | inr next => (commit "plugin.rollback" resource ("plugin.rollback " +:+ resource +:+ " -> " +:+ version) rq next id w,
                                   Done 200 (Some (config_version next)))
                    | inl e => let w := World.mk a (versions w) (audit w) (persist_plugin_versions true undo prior pinned) (pending w) in
                               rejected "plugin.rollback" resource rq (Validation e) w
                    end)
          end
      end
  end.
End Handlers.

(** ** Everything returns *)
Lemma mapM_total {A B} (f : A -> option B) l : (forall x, x ∈ l -> is_Some (f x)) -> is_Some (mapM f l).
Proof.
  intros Hf. destruct (mapM f l) as [|] eqn:E; [by eexists|]. apply mapM_None, Exists_exists in E as (x & Hx & E).
  apply Hf in Hx as [? ?]; congruence.
Qed.

Lemma keep_resolved_total oh nd dt keep hooks names : is_Some (keep_resolved oh nd dt keep hooks names).
Proof.
  unfold keep_resolved. cbn zeta.
  match goal with |- is_Some (match mapM ?f names with _ => _ end) => destruct (mapM_total f names) as [l ->]; [|by eexists] end.
  intros name _. destruct (hooks !! name) as [h|]; [|by eexists]. destruct (keep h); [|by eexists].
  unfold resolve_gate_transport. destruct (oh name h); [|by eexists].
  destruct (loop_total oh nd dt (Datatypes.S (size hooks)) hooks (HookCfg.on_error h) [] []) as [[chain t] E];
    [constructor|set_solver|cbn; lia|].
  unfold resolve_on_error_chain. rewrite E. destruct (projection_grants nd h). by eexists.
Qed.

Lemma surface_total `{Platform} hooks globals : is_Some (surface_of hooks globals).
Proof.
  unfold surface_of. cbn zeta.
  unfold resolve_rewrite_hooks, rewrite_chain, resolve_tap_hooks, resolve_gate_hooks.
  repeat match goal with |- context [keep_resolved ?oh ?nd ?dt ?k hooks globals] =>
    destruct (keep_resolved_total oh nd dt k hooks globals) as [? ->] end. by eexists.
Qed.

Lemma validate_groups_total cfg pe : is_Some (validate_groups cfg pe).
Proof.
  unfold validate_groups. destruct (mapM_total (group_errors cfg pe) cfg) as [l ->]; [|by eexists].
  intros ng _. apply group_errors_total.
Qed.

Lemma validate_hooks_total hooks pools globals : is_Some (validate_hooks hooks pools globals).
Proof.
  unfold validate_hooks. cbn zeta.
  match goal with |- is_Some (match mapM ?f _ with _ => _ end) => destruct (mapM_total f (map_to_list hooks)) as [l ->]; [|by eexists] end.
  intros [n h] Hn%elem_of_map_to_list. apply rule_total; [apply NoDup_singleton| |cbn; lia].
  intros m ->%list_elem_of_singleton. by eexists.
Qed.

Lemma validate_total `{Host} `{OAuthLibs} cfg : is_Some (validate cfg).
Proof.
  unfold validate, validate_with_unset. cbn zeta.
  destruct (mapM_total (ring_rule (RootCfg.pools cfg)) (map_to_list (RootCfg.pools cfg)).*1) as [l ->].
  { intros p _. apply ring_rule_total. }
  match goal with |- context [validate_hooks ?a ?b ?c] => destruct (validate_hooks_total a b c) as [? ->] end.
  unfold validate_cost_model.
  match goal with |- context [validate_groups ?a ?b] => destruct (validate_groups_total a b) as [? ->] end. by eexists.
Qed.

Section Totals.
Context `{Platform} `{Host} `{OAuthLibs}.

Lemma build_snapshot_total prior cfg plugins path bh bg files : is_Some (build_snapshot prior cfg plugins path bh bg files).
Proof.
  unfold build_snapshot. cbn zeta. destruct (validate_total cfg) as [errors ->]. destruct (negb _); [by eexists|].
  destruct (build_refuses cfg plugins); [by eexists|]. destruct (build_tables _ _ _ _); [by eexists|]. destruct (surface_total (RootCfg.hooks cfg) (RootCfg.global_hooks cfg)) as [s ->].
  by eexists.
Qed.

Lemma assemble_total prior deploy defs doc path files : is_Some (assemble prior deploy defs doc path files).
Proof.
  unfold assemble. destruct (resolve_ok deploy defs) as ([e|cfg] & -> & _); [by eexists|]. apply build_snapshot_total.
Qed.

Lemma with_hooks_total a hooks globals : is_Some (with_hooks a hooks globals).
Proof. unfold with_hooks. destruct (surface_total hooks globals) as [s ->]. by eexists. Qed.

Lemma build_with_hook_total a name cfg : is_Some (build_with_hook a name cfg).
Proof.
  unfold build_with_hook. destruct (hook_refusal a name cfg); [by eexists|]. cbn zeta.
  match goal with |- context [with_hooks ?a ?h ?g] => destruct (with_hooks_total a h g) as [? ->] end. by eexists.
Qed.

Lemma build_without_hook_total a name : is_Some (build_without_hook a name).
Proof.
  unfold build_without_hook. destruct (negb _); [by eexists|].
  match goal with |- context [with_hooks ?a ?h ?g] => destruct (with_hooks_total a h g) as [? ->] end. by eexists.
Qed.

Lemma build_with_registry_total a registry globals : is_Some (build_with_registry a registry globals).
Proof.
  unfold build_with_registry. cbn zeta. destruct (head _); [by eexists|]. destruct (1 <? _)%nat; [by eexists|].
  destruct (existsb _ _); [by eexists|].
  match goal with |- context [with_hooks ?a ?h ?g] => destruct (with_hooks_total a h g) as [? ->] end. by eexists.
Qed.

Lemma build_with_group_total a name cfg : is_Some (build_with_group a name cfg).
Proof.
  unfold build_with_group. destruct (is_empty _); [by eexists|]. destruct (_ <? _)%nat; [by eexists|]. cbn zeta.
  match goal with |- context [validate_groups ?a ?b] => destruct (validate_groups_total a b) as [? ->] end. by eexists.
Qed.

Lemma build_without_group_total a name : is_Some (build_without_group a name).
Proof.
  unfold build_without_group. destruct (negb _); [by eexists|]. cbn zeta.
  match goal with |- context [validate_groups ?a ?b] => destruct (validate_groups_total a b) as [? ->] end. by eexists.
Qed.
End Totals.

(** ** The merge, entry by entry *)
Lemma lookup_delete_all {A} (m : gmap string A) l k :
  foldl (fun m name => delete name m) m l !! k = if bool_decide (k ∈ l) then None else m !! k.
Proof.
  revert m. induction l as [|n l IH]; intros m; cbn [foldl]; [done|]. rewrite IH.
  destruct (decide (n = k)) as [<-|Hne].
  - rewrite lookup_delete_eq. rewrite (bool_decide_eq_true_2 (n ∈ n :: l)) by set_solver. by destruct (bool_decide _).
  - rewrite lookup_delete_ne by done. assert (bool_decide (k ∈ n :: l) = bool_decide (k ∈ l)) as ->; [|done].
    apply bool_decide_ext. set_solver.
Qed.

Lemma elem_of_retain_ne name x l : x ∈ retain_ne name l <-> x ∈ l /\ x <> name.
Proof. unfold retain_ne. rewrite elem_of_filter_list, negb_true_iff, String.eqb_neq. done. Qed.

Lemma retain_none name l : name ∉ l -> retain_ne name l = l.
Proof.
  induction l as [|x l IH]; [done|]. intros Hn. unfold retain_ne in *. cbn. destruct (String.eqb_spec x name) as [->|]; [set_solver|].
  cbn. rewrite IH by set_solver. done.
Qed.

Lemma retain_all_none dels l : (forall n, n ∈ dels -> n ∉ l) -> foldl (fun l name => retain_ne name l) l dels = l.
Proof.
  revert l. induction dels as [|d dels IH]; intros l Hd; [done|]. cbn [foldl]. rewrite retain_none by (apply Hd; set_solver).
  apply IH. set_solver.
Qed.

Lemma elem_of_retain_all dels l x : x ∈ foldl (fun l name => retain_ne name l) l dels -> x ∉ dels.
Proof.
  revert l. induction dels as [|d dels IH]; intros l Hx; [set_solver|]. cbn [foldl] in Hx.
  assert (x <> d) as Hne; [|specialize (IH _ Hx); set_solver].
  assert (forall dels l, x ∈ foldl (fun l name => retain_ne name l) l dels -> x ∈ l) as Hsub.
  { clear. induction dels as [|d dels IH]; intros l Hx; [done|]. cbn [foldl] in Hx. apply IH in Hx. by apply elem_of_retain_ne in Hx as [? _]. }
  apply Hsub in Hx. by apply elem_of_retain_ne in Hx as [_ ?].
Qed.

Lemma push_all_old g l : (forall n, n ∈ l -> n ∈ g) -> foldl push_new g l = g.
Proof.
  induction l as [|x l IH]; intros Hl; [done|]. cbn [foldl]. unfold push_new at 2. rewrite bool_decide_eq_true_2 by set_solver.
  apply IH. set_solver.
Qed.

Lemma push_all_new g ex : NoDup ex -> (forall n, n ∈ ex -> n ∉ g) -> foldl push_new g ex = g ++ ex.
Proof.
  revert g. induction ex as [|x ex IH]; intros g Hn Hg; [by rewrite app_nil_r|]. apply NoDup_cons in Hn as [Hx Hn]. cbn [foldl].
  unfold push_new at 2. rewrite bool_decide_eq_false_2 by (apply Hg; set_solver).
  rewrite IH; [by rewrite <- app_assoc|done|set_solver].
Qed.

(** A list of global hooks: the base ones first, then others, each once. *)
Definition extends (g0 l : list string) : Prop := exists ex, l = g0 ++ ex /\ NoDup ex /\ (forall n, n ∈ ex -> n ∉ g0).

Lemma push_all_extends g0 l : extends g0 l -> foldl push_new g0 l = l.
Proof.
  intros (ex & -> & Hn & Hd). rewrite foldl_app, (push_all_old g0 g0) by done. by apply push_all_new.
Qed.

Lemma push_all_any g0 l : extends g0 (foldl push_new g0 l).
Proof.
  assert (forall g, extends g0 g -> extends g0 (foldl push_new g l)) as Hx; [|apply Hx; exists []; rewrite app_nil_r; split_and!; [done|constructor|set_solver]].
  induction l as [|x l IH]; intros g Hg; [done|]. cbn [foldl]. apply IH. unfold push_new. case_bool_decide as Hx; [done|].
  destruct Hg as (ex & -> & Hn & Hd). exists (ex ++ [x]). split; [by rewrite app_assoc|]. split.
  - apply NoDup_app. split; [done|]. split; [set_solver|apply NoDup_singleton].
  - set_solver.
Qed.

Lemma extends_retain g0 l name : name ∉ g0 -> extends g0 l -> extends g0 (retain_ne name l).
Proof.
  intros Hn (ex & -> & Hnd & Hd). exists (retain_ne name ex). split_and!.
  - unfold retain_ne at 1. rewrite List.filter_app. f_equal. by apply retain_none.
  - by apply NoDup_ListNoDup, List.NoDup_filter, NoDup_ListNoDup.
  - intros x [Hx _]%elem_of_retain_ne. by apply Hd.
Qed.

Lemma extends_retain_all g0 l dels : (forall n, n ∈ dels -> n ∉ g0) -> extends g0 l ->
  extends g0 (foldl (fun l name => retain_ne name l) l dels).
Proof.
  revert l. induction dels as [|d dels IH]; intros l Hd He; [done|]. cbn [foldl]. apply IH; [set_solver|].
  apply extends_retain; [set_solver|done].
Qed.

Lemma extends_push g0 l name : name ∉ g0 -> extends g0 l -> extends g0 (push_new l name).
Proof.
  intros Hn He. unfold push_new. case_bool_decide as Hx; [done|]. destruct He as (ex & -> & Hnd & Hd).
  exists (ex ++ [name]). split; [by rewrite app_assoc|]. split.
  - apply NoDup_app. split; [done|]. split; [set_solver|apply NoDup_singleton].
  - set_solver.
Qed.

(** ** Guards *)
Lemma first_error_None guards : first_error guards = None <-> Forall (fun g => g = None) guards.
Proof.
  unfold first_error. induction guards as [|[e|] guards IH]; cbn.
  - by split.
  - split; [done|]. by intros [? _]%Forall_cons_1.
  - rewrite IH. split; [by constructor|]. by intros [_ ?]%Forall_cons_1.
Qed.

(** No guard refused. *)
Ltac guard_free Hf := apply first_error_None in Hf; repeat (apply Forall_cons_1 in Hf as [? Hf]).

(** ** Restarting *)
Section Restart.
Context `{Platform} `{Host} `{OAuthLibs} `{OverlaySerde}.

(** The mutations of the configuration that persist what they do. *)
Inductive Op :=
  | ORegisterHook (rq : Request.t) (body : option (string * HookCfg.t))
  | OPutHook (rq : Request.t) (name : string) (body : option HookCfg.t)
  | ODeleteHook (rq : Request.t) (name : string)
  | OPushSettings (rq : Request.t) (name : string) (body : option Map) (acked : bool)
  | OCommitSettings (rq : Request.t) (push : nat)
  | ORegisterGroup (rq : Request.t) (body : option (string * GroupCfg.t))
  | OPutGroup (rq : Request.t) (name : string) (body : option GroupCfg.t)
  | OPatchGroup (rq : Request.t) (name : string) (body : option GroupPatch)
  | ODeleteGroup (rq : Request.t) (name : string)
  | OMintGroup (rq : Request.t) (seen : Snapshot.t) (group : string) (parent : option string)
  | OReset (rq : Request.t) (section : string)
  | ORollback (rq : Request.t) (body : option Z)
  | OReload (rq : Request.t)
  | OSettings (rq : Request.t) (body : option RootSettings.t)
  | ORollbackPlugin (rq : Request.t) (file : option string) (target : AdminError + string * string) (undo : WriteFault).

Definition step (d : DiskConfig) (op : Op) (w : World.t) : option World.t :=
  match op with
  | ORegisterHook rq body => fst <$> register_hook rq body w
  | OPutHook rq name body => fst <$> put_hook rq name body w
  | ODeleteHook rq name => fst <$> delete_hook rq name w
  | OPushSettings rq name body acked => Some (fst (patch_settings_push rq name body acked w))
  | OCommitSettings rq i => fst <$> patch_settings_commit rq i w
  | ORegisterGroup rq body => fst <$> register_group rq body w
  | OPutGroup rq name body => fst <$> put_group rq name body w
  | OPatchGroup rq name body => fst <$> patch_group rq name body w
  | ODeleteGroup rq name => fst <$> delete_group rq name w
  | OMintGroup rq seen group parent => fst <$> resolve_mint_group rq seen group parent w
  | OReset rq section => fst <$> reset_overlay_section rq section (inr d) w
  | ORollback rq body => fst <$> rollback_config rq body w
  | OReload rq => fst <$> reload_config rq (inr d) w
  | OSettings rq body => fst <$> put_config_settings rq body (inr d) w
  | ORollbackPlugin rq file target undo => fst <$> rollback_plugin rq file target undo (inr d) w
  end.

Fixpoint run (d : DiskConfig) (ops : list Op) (w : World.t) : option World.t :=
  match ops with [] => Some w | op :: ops => let? w := step d op w in run d ops w end.

Definition request_of (op : Op) : Request.t :=
  match op with
  | ORegisterHook rq _ | OPutHook rq _ _ | ODeleteHook rq _ | OPushSettings rq _ _ _ | OCommitSettings rq _
  | ORegisterGroup rq _ | OPutGroup rq _ _ | OPatchGroup rq _ _ | ODeleteGroup rq _ | OMintGroup rq _ _ _
  | OReset rq _ | ORollback rq _ | OReload rq | OSettings rq _ | ORollbackPlugin rq _ _ _ => rq
  end.

(** The enforcement model is the projection of the registry. *)
Definition cost_ok (a : Snapshot.t) : Prop :=
  CostModel.groups (cost a) = project_groups (btree (groups_registry a)) /\
  CostModel.group_idx (cost a) = (btree (groups_registry a)).*1.

(** The overlay writes of an operation succeed; a mint read a well-formed snapshot. *)
Definition durable (op : Op) : Prop :=
  Request.fault (request_of op) = NoFault /\
  match op with
  | OMintGroup _ seen _ _ => cost_ok seen
  | ORollbackPlugin _ _ _ undo => undo = NoFault
  | _ => True
  end.

(** *** What the disk holds besides the overlay *)
Context (d : DiskConfig) (cfg0 : RootCfg.t).

Definition merged (doc : option OverlayDoc.t) : RootCfg.t := match doc with Some doc => merge_into cfg0 doc | None => cfg0 end.

Definition live_is (a : Snapshot.t) (cfg : RootCfg.t) : Prop :=
  hook_registry a = RootCfg.hooks cfg /\ Snapshot.global_hooks a = RootCfg.global_hooks cfg /\
  groups_registry a = RootCfg.groups cfg.

(** What is derived from the registries agrees with them. *)
Definition derived_ok (a : Snapshot.t) : Prop :=
  surface_of (hook_registry a) (Snapshot.global_hooks a) = Some (surface a) /\ cost_ok a.

(** A hook surface that still holds everything the base defines. *)
Definition covers (hooks : Registry) (globals : list string) : Prop :=
  dom (RootCfg.hooks cfg0) ⊆ dom hooks /\ extends (RootCfg.global_hooks cfg0) globals.

Record inv (w : World.t) : Prop := {
  i_path : overlay_path (app w) = true;
  i_base_hooks : base_hook_names (app w) = dom (RootCfg.hooks cfg0);
  i_base_groups : base_group_names (app w) = dom (RootCfg.groups cfg0);
  i_hooks : covers (hook_registry (app w)) (Snapshot.global_hooks (app w));
  i_groups : dom (RootCfg.groups cfg0) ⊆ dom (groups_registry (app w));
  i_disk : exists doc, load_for_rmw (fs w) = Some doc /\ live_is (app w) (merge_into cfg0 doc);
  i_derived : derived_ok (app w);
  i_versions : Forall (fun v => covers (AdminState.hook_registry v) (AdminState.global_hooks v)) (versions w);
  i_pending : Forall (fun p => Pending.name p ∉ dom (RootCfg.hooks cfg0)) (pending w) }.

Hypothesis base_resolves : resolve (deploy d) (defs d) = Some (inr cfg0).
Hypothesis overlay_on : overlay_env d = true.

Lemma base_globals_known n : n ∈ RootCfg.global_hooks cfg0 -> n ∈ dom (RootCfg.hooks cfg0).
Proof.
  intros Hn. destruct (resolve_ok (deploy d) (defs d)) as (r & Hr & Hc). rewrite base_resolves in Hr. injection Hr as <-.
  destruct (Hc cfg0 eq_refl) as (gates & reg1 & _ & Hn2 & _). rewrite (nm_dom _ _ _ _ Hn2). set_solver.
Qed.

(** *** Building from disk *)
Lemma assemble_live prior deploy' doc path files a :
  DeployCfg.providers deploy' = DeployCfg.providers (deploy d) -> DeployCfg.pools deploy' = DeployCfg.pools (deploy d) ->
  DeployCfg.global_hooks deploy' = DeployCfg.global_hooks (deploy d) -> DeployCfg.groups deploy' = DeployCfg.groups (deploy d) ->
  assemble prior deploy' (defs d) doc path files = Some (inr a) ->
  live_is a (merged doc) /\ base_hook_names a = dom (RootCfg.hooks cfg0) /\ base_group_names a = dom (RootCfg.groups cfg0) /\
  overlay_path a = path /\ derived_ok a.
Proof.
  intros Hp Hq Hg Hr. unfold assemble. destruct (resolve deploy' (defs d)) as [[e|cfg]|] eqn:Er; [done| |done].
  destruct (resolve_surface _ _ _ _ _ Hp Hq Hg Hr Er base_resolves) as (Eh & Egl & Egr & _).
  unfold build_snapshot. cbn zeta. destruct (validate _) as [errors|]; [|done]. destruct (negb _); [done|].
  destruct (build_refuses _ _); [done|]. destruct (build_tables _ _ _ _); [done|]. destruct (surface_of _ _) as [s|] eqn:Es; [|done]. intros [= <-].
  split_and!; cbn; try done; try (by rewrite ?Eh, ?Egr).
  unfold live_is, merged. destruct doc as [doc|]; cbn; by rewrite ?Eh, ?Egl, ?Egr.
Qed.

Lemma root_applied_parts doc :
  DeployCfg.providers (root_applied d doc) = DeployCfg.providers (deploy d) /\ DeployCfg.pools (root_applied d doc) = DeployCfg.pools (deploy d) /\
  DeployCfg.global_hooks (root_applied d doc) = DeployCfg.global_hooks (deploy d) /\ DeployCfg.groups (root_applied d doc) = DeployCfg.groups (deploy d).
Proof. unfold root_applied, apply_root_to_deploy. destruct doc as [doc|]; [|done]. by destruct (OverlayDoc.root doc). Qed.

Lemma assemble_root prior doc path files a :
  assemble prior (root_applied d doc) (defs d) doc path files = Some (inr a) ->
  live_is a (merged doc) /\ base_hook_names a = dom (RootCfg.hooks cfg0) /\ base_group_names a = dom (RootCfg.groups cfg0) /\
  overlay_path a = path /\ derived_ok a.
Proof. destruct (root_applied_parts doc) as (? & ? & ? & ?). by apply assemble_live. Qed.

(** *** What an overlay merges to *)
Lemma merge_saved_hooks doc hooks globals :
  covers hooks globals -> OverlayDoc.hooks doc = hooks -> OverlayDoc.global_hooks doc = globals ->
  (forall n, n ∈ OverlayDoc.deleted doc -> hooks !! n = None /\ n ∉ globals) ->
  RootCfg.hooks (merge_into cfg0 doc) = hooks /\ RootCfg.global_hooks (merge_into cfg0 doc) = globals.
Proof.
  intros [Hd He] Eh Eg Ht. unfold merge_into. cbn [RootCfg.hooks RootCfg.global_hooks with_surface]. rewrite Eh, Eg. split.
  - apply map_eq. intros k. rewrite lookup_delete_all. case_bool_decide as Hk; [by destruct (Ht k Hk) as [-> _]|].
    rewrite lookup_union. destruct (hooks !! k) as [h|] eqn:Ek; [by rewrite union_Some_l|].
    apply not_elem_of_dom in Ek. assert (RootCfg.hooks cfg0 !! k = None) as -> by (apply not_elem_of_dom; set_solver). done.
  - rewrite push_all_extends by done. apply retain_all_none. intros n Hn. by destruct (Ht n Hn).
Qed.

Lemma merge_saved_groups doc groups :
  dom (RootCfg.groups cfg0) ⊆ dom groups -> OverlayDoc.groups doc = groups ->
  (forall n, n ∈ OverlayDoc.deleted_groups doc -> groups !! n = None) -> RootCfg.groups (merge_into cfg0 doc) = groups.
Proof.
  intros Hd Eg Ht. unfold merge_into. cbn [RootCfg.groups with_surface]. rewrite Eg. apply map_eq. intros k.
  rewrite lookup_delete_all. case_bool_decide as Hk; [by rewrite Ht|].
  rewrite lookup_union. destruct (groups !! k) as [g|] eqn:Ek; [by rewrite union_Some_l|].
  apply not_elem_of_dom in Ek. assert (RootCfg.groups cfg0 !! k = None) as -> by (apply not_elem_of_dom; set_solver). done.
Qed.

Lemma merge_same_hooks doc doc' : same_section Hooks doc doc' ->
  RootCfg.hooks (merge_into cfg0 doc) = RootCfg.hooks (merge_into cfg0 doc') /\
  RootCfg.global_hooks (merge_into cfg0 doc) = RootCfg.global_hooks (merge_into cfg0 doc').
Proof. intros (E1 & E2 & E3). unfold merge_into. cbn. by rewrite E1, E2, E3. Qed.

Lemma merge_same_groups doc doc' : same_section Groups doc doc' ->
  RootCfg.groups (merge_into cfg0 doc) = RootCfg.groups (merge_into cfg0 doc').
Proof. intros (E1 & E2). unfold merge_into. cbn. by rewrite E1, E2. Qed.

Lemma merge_fresh a : live_is a (merge_into cfg0 OverlayDoc.fresh) <-> live_is a cfg0.
Proof. unfold live_is, merge_into. cbn. by rewrite !map_empty_union. Qed.

Lemma loaded_merge (files : Fs) doc a : load_for_rmw files = Some doc ->
  live_is a (merge_into cfg0 doc) <-> live_is a (merged (overlay_doc d false files)).
Proof.
  unfold load_for_rmw, overlay_doc, read. rewrite overlay_on. destruct (read_state files); intros [= <-]; cbn; [apply merge_fresh|done].
Qed.

Lemma rmw_durable `{!OverlaySerdeOk} f (files : Fs) doc :
  load_for_rmw files = Some doc -> exists doc', load_for_rmw (rmw true NoFault f files) = Some doc' /\ forall s, same_section s doc' (f doc).
Proof.
  intros Hl. destruct (rmw_cases NoFault f files) as [[_ Hn]|(doc0 & Hl0 & [[? _]|(_ & doc' & Hr & _ & Hs)])]; [congruence|done|].
  assert (doc0 = doc) as -> by congruence. exists doc'. split; [|done]. unfold load_for_rmw. by rewrite Hr.
Qed.

Lemma tombstones_from {A} (live : gmap string A) add remove l n :
  n ∈ tombstones live add remove l -> n ∈ l \/ add = Some n.
Proof.
  unfold tombstones. intros [Hn _]%elem_of_filter_list.
  assert (n ∈ match add with Some name => push_new l name | None => l end) as Hn'.
  { destruct remove; [|done]. by apply elem_of_retain_ne in Hn as [? _]. }
  destruct add as [m|]; [|by left]. unfold push_new in Hn'. case_bool_decide; [by left|].
  apply elem_of_app in Hn' as [?| ->%list_elem_of_singleton]; [by left|by right].
Qed.

(** *** The invariant is kept *)
Lemma record_versions_ok v q : Forall (fun v => covers (AdminState.hook_registry v) (AdminState.global_hooks v)) q ->
  covers (AdminState.hook_registry v) (AdminState.global_hooks v) ->
  Forall (fun v => covers (AdminState.hook_registry v) (AdminState.global_hooks v)) (record_version v q).
Proof.
  intros Hq Hv. unfold record_version. apply Forall_app. split; [|by apply Forall_singleton]. apply Forall_drop.
  apply Forall_forall. intros x Hx. apply elem_of_filter_list in Hx as [Hx _]. rewrite Forall_forall in Hq. by apply Hq.
Qed.

Lemma inv_audited w action resource applied rq : inv w -> inv (audited action resource applied rq w).
Proof. by intros []. Qed.

(** A commit keeps the invariant when the new snapshot does and the new overlay merges to it. *)
Lemma inv_commit w action resource summary rq next (save : Fs -> Fs) :
  inv w -> overlay_path next = true -> base_hook_names next = dom (RootCfg.hooks cfg0) ->
  base_group_names next = dom (RootCfg.groups cfg0) -> covers (hook_registry next) (Snapshot.global_hooks next) ->
  dom (RootCfg.groups cfg0) ⊆ dom (groups_registry next) -> derived_ok next ->
  (exists doc, load_for_rmw (save (fs w)) = Some doc /\ live_is next (merge_into cfg0 doc)) ->
  inv (commit action resource summary rq next save w).
Proof. intros [] ? ? ? ? ? ? ?. split; try done. by apply record_versions_ok. Qed.

Context `{!OverlaySerdeOk}.

Lemma inv_hooks_step w action resource summary rq hooks globals next add remove :
  inv w -> Request.fault rq = NoFault -> with_hooks (app w) hooks globals = Some next -> covers hooks globals ->
  (forall doc n, live_is (app w) (merge_into cfg0 doc) ->
     n ∈ tombstones hooks add remove (OverlayDoc.deleted doc) -> n ∉ globals) ->
  inv (commit action resource summary rq next (save_hooks rq add remove next) w).
Proof.
  intros Hi Hf Hw Hc Ht. unfold with_hooks in Hw. destruct (surface_of hooks globals) as [s|] eqn:Es; [|done]. injection Hw as <-.
  pose proof Hi as [Hp Hbh Hbg _ Hg (doc & Hl & Hlive) [_ Hk] _ _].
  apply inv_commit; cbn; try done.
  unfold save_hooks, persist. cbn [overlay_path hook_registry Snapshot.global_hooks]. rewrite Hp, Hf.
  edestruct rmw_durable as (doc' & -> & Hs); [exact Hl|]. exists doc'. split; [done|].
  specialize (Hs Hooks) as Hh. specialize (Hs Groups) as Hgr. cbn in Hh. destruct Hh as (E1 & E2 & E3).
  destruct Hlive as (L1 & L2 & L3). split; [|split]; cbn [hook_registry Snapshot.global_hooks groups_registry].
  1, 2: symmetry; eapply (merge_saved_hooks doc' hooks globals); [done..|]; intros n; rewrite E3; intros Hn;
    split; [by apply tombstones_dead in Hn|by apply (Ht doc)].
  rewrite L3. symmetry. by apply merge_same_groups.
Qed.

Lemma inv_groups_step w action resource summary rq groups add remove :
  inv w -> Request.fault rq = NoFault -> dom (RootCfg.groups cfg0) ⊆ dom groups ->
  let next := with_groups (app w) groups in
  inv (commit action resource summary rq next (save_groups rq add remove next) w).
Proof.
  intros Hi Hf Hd. cbn zeta. pose proof Hi as [Hp Hbh Hbg Hh _ (doc & Hl & Hlive) [Hs _] _ _].
  apply inv_commit; cbn; try done.
  unfold save_groups, persist_groups. cbn [overlay_path groups_registry with_groups]. rewrite Hp, Hf.
  edestruct rmw_durable as (doc' & -> & Hsec); [exact Hl|]. exists doc'. split; [done|].
  specialize (Hsec Hooks) as Hh'. specialize (Hsec Groups) as Hgr. cbn in Hgr. destruct Hgr as (E1 & E2).
  destruct Hlive as (L1 & L2 & L3). split; [|split]; cbn [hook_registry Snapshot.global_hooks groups_registry with_groups].
  - rewrite L1. symmetry. by apply merge_same_hooks.
  - rewrite L2. symmetry. by apply merge_same_hooks.
  - symmetry. apply merge_saved_groups; [done..|]. intros n. rewrite E2. apply tombstones_dead.
Qed.

(** A rebuild whose overlay leaves the hooks and the groups, or clears them. *)
Lemma inv_rebuild w action resource summary rq next (save : Fs -> Fs) doc doc' :
  inv w -> load_for_rmw (fs w) = Some doc -> live_is (app w) (merge_into cfg0 doc) ->
  (forall s, s = Hooks \/ s = Groups -> same_section s doc' doc \/ same_section s doc' OverlayDoc.fresh) ->
  live_is next (merge_into cfg0 doc') -> base_hook_names next = dom (RootCfg.hooks cfg0) ->
  base_group_names next = dom (RootCfg.groups cfg0) -> overlay_path next = true -> derived_ok next ->
  (exists doc2, load_for_rmw (save (fs w)) = Some doc2 /\ same_section Hooks doc2 doc' /\ same_section Groups doc2 doc') ->
  inv (commit action resource summary rq next save w).
Proof.
  intros Hi Hl (L1 & L2 & L3) Hs Hn Hbh Hbg Hp Hd (doc2 & Hl2 & S1 & S2). pose proof Hi as [_ _ _ Hh Hg _ _ _ _].
  pose proof Hn as (N1 & N2 & N3). apply inv_commit; try done.
  - rewrite N1, N2. destruct (Hs Hooks) as [Hx|Hx]; [by left|..]; apply merge_same_hooks in Hx as [-> ->].
    + by rewrite <- L1, <- L2.
    + unfold merge_into. cbn. rewrite map_empty_union. split; [done|]. exists []. rewrite app_nil_r. split_and!; [done|constructor|set_solver].
  - rewrite N3. destruct (Hs Groups) as [Hx|Hx]; [by right|..]; apply merge_same_groups in Hx as ->.
    + by rewrite <- L3.
    + unfold merge_into. cbn. by rewrite map_empty_union.
  - exists doc2. split; [done|]. apply merge_same_hooks in S1 as [E1 E2]. apply merge_same_groups in S2. unfold live_is. by rewrite E1, E2, S2.
Qed.

(** *** The mutation template *)
Lemma mutate_cases action resource summary rq guards build save status w w' r :
  mutate action resource summary rq guards build save status w = Some (w', r) ->
  (exists e, w' = audited action resource false rq w /\ r = Failed e) \/
  exists next, first_error guards = None /\ build = Some (inr next) /\
    w' = commit action resource summary rq next (save next) w /\ r = Done status (Some (config_version next)).
Proof.
  unfold mutate. destruct (first_error guards) as [e|]; [intros [= <- <-]; left; by eexists|].
  destruct build as [[e|next]|]; [intros [= <- <-]; left; by eexists|intros [= <- <-]; right|done]. by eexists.
Qed.


Lemma mutate_keeps w action resource summary rq guards build save status :
  inv w -> is_Some build ->
  (forall next, first_error guards = None -> build = Some (inr next) ->
     inv (commit action resource summary rq next (save next) w)) ->
  exists w', fst <$> mutate action resource summary rq guards build save status w = Some w' /\ inv w'.
Proof.
  intros Hi [b Hb] Hc. destruct (mutate action resource summary rq guards build save status w) as [[w' r]|] eqn:E.
  - exists w'. split; [done|]. apply mutate_cases in E as [(e & -> & _)|(next & Hf & Hn & -> & _)]; [by apply inv_audited|by apply Hc].
  - unfold mutate in E. rewrite Hb in E. by destruct (first_error guards), b.
Qed.

Lemma not_base_hook a name : base_hook a name = None -> name ∉ base_hook_names a.
Proof. unfold base_hook, refuse_if. by case_bool_decide. Qed.
Lemma not_base_group a name : base_group a name = None -> name ∉ base_group_names a.
Proof. unfold base_group, refuse_if. by case_bool_decide. Qed.

Lemma global_not_deleted a doc n :
  live_is a (merge_into cfg0 doc) -> n ∈ Snapshot.global_hooks a -> n ∉ OverlayDoc.deleted doc.
Proof. intros (_ & -> & _). unfold merge_into. cbn. apply elem_of_retain_all. Qed.

Lemma hook_put_keeps w action resource summary rq name cfg next :
  inv w -> Request.fault rq = NoFault -> name ∉ dom (RootCfg.hooks cfg0) ->
  build_with_hook (app w) name cfg = Some (inr next) ->
  inv (commit action resource summary rq next (save_hooks rq None (Some name) next) w).
Proof.
  intros Hi Hf Hn. unfold build_with_hook. destruct (hook_refusal _ _ _); [done|]. cbn zeta.
  destruct (with_hooks _ _ _) as [nx|] eqn:Ew; [|done]. intros [= <-]. pose proof (i_hooks _ Hi) as [Hd He].
  assert (name ∉ RootCfg.global_hooks cfg0) as Hg by (intros Hx; by apply Hn, base_globals_known).
  eapply inv_hooks_step; [done..|exact Ew| |].
  - split; [set_solver|]. destruct (HookCfg.global cfg); [by apply extends_push|by apply extends_retain].
  - intros doc n Hlive Ht Hx. pose proof (tombstones_dead _ _ _ _ _ Ht) as Hdead.
    apply lookup_insert_None in Hdead as [_ Hne]. apply tombstones_from in Ht as [Ht|]; [|done].
    apply (global_not_deleted _ _ n Hlive); [|done]. destruct (HookCfg.global cfg).
    + unfold push_new in Hx. case_bool_decide; [done|]. set_solver.
    + by apply elem_of_retain_ne in Hx as [? _].
Qed.

Lemma hook_delete_keeps w action resource summary rq name next :
  inv w -> Request.fault rq = NoFault -> name ∉ dom (RootCfg.hooks cfg0) ->
  build_without_hook (app w) name = Some (inr next) ->
  inv (commit action resource summary rq next (save_hooks rq (Some name) None next) w).
Proof.
  intros Hi Hf Hn. unfold build_without_hook. destruct (negb _); [done|].
  destruct (with_hooks _ _ _) as [nx|] eqn:Ew; [|done]. intros [= <-]. pose proof (i_hooks _ Hi) as [Hd He].
  assert (name ∉ RootCfg.global_hooks cfg0) as Hg by (intros Hx; by apply Hn, base_globals_known).
  eapply inv_hooks_step; [done..|exact Ew| |].
  - split; [rewrite dom_delete_L; set_solver|by apply extends_retain].
  - intros doc n Hlive Ht [Hx Hne]%elem_of_retain_ne. apply tombstones_from in Ht as [Ht|[= ->]]; [|done].
    by apply (global_not_deleted _ _ n Hlive).
Qed.

Lemma rollback_keeps w action resource summary rq hooks globals next :
  inv w -> Request.fault rq = NoFault -> covers hooks globals ->
  build_with_registry (app w) hooks globals = Some (inr next) ->
  inv (commit action resource summary rq next (save_hooks rq None None next) w).
Proof.
  intros Hi Hf Hc. unfold build_with_registry. cbn zeta. destruct (head _); [done|]. destruct (1 <? _)%nat; [done|].
  destruct (existsb _ _) eqn:Ee; [done|]. destruct (with_hooks _ _ _) as [nx|] eqn:Ew; [|done]. intros [= <-].
  eapply inv_hooks_step; [done..|exact Ew|done|]. intros doc n _ Ht%tombstones_dead Hx.
  assert (existsb (fun g => negb (contains_key hooks g)) globals = true) as Et; [|congruence].
  apply existsb_exists. exists n. split; [by apply list_elem_of_In|]. unfold contains_key. by rewrite Ht.
Qed.

Lemma group_put_keeps w action resource summary rq name cfg next :
  inv w -> Request.fault rq = NoFault -> build_with_group (app w) name cfg = Some (inr next) ->
  inv (commit action resource summary rq next (save_groups rq None (Some name) next) w).
Proof.
  intros Hi Hf. unfold build_with_group. destruct (is_empty _); [done|]. destruct (_ <? _)%nat; [done|]. cbn zeta.
  destruct (validate_groups _ _) as [errors|]; [|done]. destruct (is_nil errors); [|done]. intros [= <-].
  apply inv_groups_step; [done..|]. pose proof (i_groups _ Hi). set_solver.
Qed.

Lemma group_delete_keeps w action resource summary rq name next :
  inv w -> Request.fault rq = NoFault -> name ∉ dom (RootCfg.groups cfg0) ->
  build_without_group (app w) name = Some (inr next) ->
  inv (commit action resource summary rq next (save_groups rq (Some name) None next) w).
Proof.
  intros Hi Hf Hn. unfold build_without_group. destruct (negb _); [done|]. cbn zeta.
  destruct (validate_groups _ _) as [errors|]; [|done]. destruct (is_nil errors); [|done]. intros [= <-].
  apply inv_groups_step; [done..|]. pose proof (i_groups _ Hi). rewrite dom_delete_L. set_solver.
Qed.

(** *** Rebuilding from disk *)
Lemma as_build_total o : is_Some o -> is_Some (as_build o).
Proof. intros [r ->]. by eexists. Qed.

Lemma as_build_inr o next : as_build o = Some (inr next) -> o = Some (inr next).
Proof. unfold as_build. destruct o as [[e|a]|]; [done| |done]. by intros [= ->]. Qed.

Lemma inv_fs w fs' :
  inv w -> (forall doc, load_for_rmw (fs w) = Some doc ->
    exists doc', load_for_rmw fs' = Some doc' /\ same_section Hooks doc' doc /\ same_section Groups doc' doc) ->
  inv (World.mk (app w) (versions w) (audit w) fs' (pending w)).
Proof.
  intros [] Hfs. destruct i_disk0 as (doc & Hl & L1 & L2 & L3). destruct (Hfs doc Hl) as (doc' & Hl' & S1 & S2). split; try done.
  exists doc'. split; [done|]. apply merge_same_hooks in S1 as [E1 E2]. apply merge_same_groups in S2. unfold live_is. by rewrite E1, E2, S2.
Qed.

Lemma rebuild_keeps w action resource summary rq prior deploy' next (save : Fs -> Fs) :
  inv w ->
  DeployCfg.providers deploy' = DeployCfg.providers (deploy d) -> DeployCfg.pools deploy' = DeployCfg.pools (deploy d) ->
  DeployCfg.global_hooks deploy' = DeployCfg.global_hooks (deploy d) -> DeployCfg.groups deploy' = DeployCfg.groups (deploy d) ->
  assemble prior deploy' (defs d) (overlay_doc d false (fs w)) true true = Some (inr next) ->
  (forall doc, load_for_rmw (fs w) = Some doc ->
    exists doc', load_for_rmw (save (fs w)) = Some doc' /\ same_section Hooks doc' doc /\ same_section Groups doc' doc) ->
  inv (commit action resource summary rq next save w).
Proof.
  intros Hi Hp Hq Hg Hr Ha Hs. destruct (assemble_live _ _ _ _ _ _ Hp Hq Hg Hr Ha) as (Hlive & ? & ? & ? & ?).
  pose proof (i_disk _ Hi) as (doc & Hl & Hold). apply (loaded_merge _ doc) in Hlive; [|done].
  apply (inv_rebuild _ _ _ _ _ _ _ doc doc); try done.
  - intros s _. left. by destruct s.
  - by apply Hs.
Qed.

Lemma reload_keeps w rq : inv w -> exists w', fst <$> reload_config rq (inr d) w = Some w' /\ inv w'.
Proof.
  intros Hi. unfold reload_config. apply mutate_keeps; [done|..].
  - apply as_build_total. unfold rebuild_app_from_disk. destruct (negb _); [by eexists|]. apply assemble_total.
  - intros next _ Hb%as_build_inr. unfold rebuild_app_from_disk in Hb. destruct (negb _); [done|]. rewrite overlay_on in Hb.
    destruct (root_applied_parts (overlay_doc d false (fs w))) as (? & ? & ? & ?).
    eapply rebuild_keeps; [done..|exact Hb|]. intros doc Hl. exists doc. by split_and!.
Qed.

Lemma settings_keeps w rq body : inv w -> Request.fault rq = NoFault ->
  exists w', fst <$> put_config_settings rq body (inr d) w = Some w' /\ inv w'.
Proof.
  intros Hi Hf. unfold put_config_settings. destruct (if_match_version _) as [e|expected]; [by exists w|].
  destruct body as [req|]; [|by exists w]. cbn zeta. apply mutate_keeps; [done|..].
  - apply as_build_total, assemble_total.
  - intros next _ Hb%as_build_inr. rewrite (i_path _ Hi) in Hb.
    eapply rebuild_keeps; [done|..|exact Hb|]; [done..|]. intros doc Hl.
    assert (overlay_path next = true) as ->.
    { eapply assemble_live in Hb as (_ & _ & _ & -> & _); done. }
    unfold persist_root. rewrite Hf. edestruct rmw_durable as (doc' & -> & Hs); [exact Hl|]. exists doc'.
    split; [done|]. split; [exact (Hs Hooks)|exact (Hs Groups)].
Qed.

Lemma reset_keeps w rq section : inv w -> Request.fault rq = NoFault ->
  exists w', fst <$> reset_overlay_section rq section (inr d) w = Some w' /\ inv w'.
Proof.
  intros Hi Hf. unfold reset_overlay_section. destruct (section_parse section) as [s|]; [|by exists w].
  destruct (if_match_version _) as [e|expected]; [by exists w|]. cbn zeta.
  destruct (stale_if_match _ _) as [e|]; [eexists; split; [done|by apply inv_audited]|]. rewrite (i_path _ Hi).
  destruct (read (fs w)) as [doc|] eqn:Er; [|eexists; split; [done|by apply inv_audited]].
  destruct (section_is_empty s doc); [eexists; split; [done|by apply inv_audited]|].
  assert (load_for_rmw (fs w) = Some doc) as Hl.
  { unfold read, load_for_rmw in *. by destruct (read_state (fs w)); simplify_eq. }
  assert (overlay_doc d false (fs w) = Some doc) as Hdoc by (unfold overlay_doc; by rewrite overlay_on).
  rewrite Hdoc. apply mutate_keeps; [done|apply as_build_total, assemble_total|].
  intros next _ Hb%as_build_inr. pose proof (assemble_root _ _ _ _ _ Hb) as (Hlive & Hbh & Hbg & Hp & Hd).
  pose proof (i_disk _ Hi) as (doc0 & Hl0 & Hold). assert (doc0 = doc) as -> by congruence.
  apply (inv_rebuild _ _ _ _ _ _ _ doc (doc_clear_section s doc)); try done.
  - intros s' [-> | ->]; destruct s; cbn; auto.
  - unfold clear_section. rewrite Hp, Hf. edestruct rmw_durable as (doc' & -> & Hs); [exact Hl|]. exists doc'.
    split; [done|]. split; [exact (Hs Hooks)|exact (Hs Groups)].
Qed.

Lemma pins_keep path fault pins (files : Fs) doc : path = true -> fault = NoFault -> load_for_rmw files = Some doc ->
  exists doc', load_for_rmw (persist_plugin_versions path fault pins files) = Some doc' /\
    same_section Hooks doc' doc /\ same_section Groups doc' doc.
Proof.
  intros -> -> Hl. unfold persist_plugin_versions. edestruct rmw_durable as (doc' & -> & Hs); [exact Hl|]. exists doc'.
  split; [done|]. split; [exact (Hs Hooks)|exact (Hs Groups)].
Qed.

Lemma plugin_keeps w rq file target undo : inv w -> Request.fault rq = NoFault -> undo = NoFault ->
  exists w', fst <$> rollback_plugin rq file target undo (inr d) w = Some w' /\ inv w'.
Proof.
  intros Hi Hf Hu. unfold rollback_plugin. destruct (if_match_version _) as [e|expected]; [by exists w|].
  destruct file as [file|]; [|by exists w]. cbn zeta.
  destruct (first_error _) as [e|]; [eexists; split; [done|by apply inv_audited]|].
  destruct target as [e|[name version]]; [eexists; split; [done|by apply inv_audited]|].
  set (pins := match read (fs w) with Some _ => _ | None => _ end).
  set (pinned := persist_plugin_versions true _ _ _).
  assert (inv (World.mk (app w) (versions w) (audit w) pinned (pending w))) as Hm.
  { apply inv_fs; [done|]. intros doc Hl. by apply pins_keep. }
  unfold rebuild_app_from_disk. destruct (config_files (app w)); cbn [negb].
  2: { eexists. split; [done|]. apply inv_audited. apply (inv_fs _ _ Hm). intros doc Hl. by apply pins_keep. }
  destruct (assemble_total (Some (app w)) (root_applied d (overlay_doc d false pinned)) (defs d) (overlay_doc d false pinned) (overlay_env d) true)
    as [[e|next] Ea]; rewrite Ea.
  - eexists. split; [done|]. apply inv_audited. apply (inv_fs _ _ Hm). intros doc Hl. by apply pins_keep.
  - eexists. split; [done|]. rewrite overlay_on in Ea. destruct (root_applied_parts (overlay_doc d false pinned)) as (? & ? & ? & ?).
    eapply (rebuild_keeps (World.mk (app w) (versions w) (audit w) pinned (pending w))); [done..|exact Ea|]. intros doc Hl. exists doc. by split_and!.
Qed.

Lemma group_exists_total a group : cost_ok a -> is_Some (group_exists a group).
Proof.
  intros [Hg Hi]. unfold group_exists, group_named. rewrite Hg, Hi. destruct (index_of group _) as [i|] eqn:E; [|by eexists].
  apply index_of_lt in E. rewrite length_fmap in E. unfold project_groups. rewrite list_lookup_fmap.
  destruct (lookup_lt_is_Some_2 (btree (groups_registry a)) i E) as [x ->]. by eexists.
Qed.

Lemma mint_keeps w rq seen group parent : inv w -> Request.fault rq = NoFault -> cost_ok seen ->
  exists w', fst <$> resolve_mint_group rq seen group parent w = Some w' /\ inv w'.
Proof.
  intros Hi Hf Hs. unfold resolve_mint_group. destruct (group_exists_total seen group Hs) as [known ->].
  destruct known; [by exists w|]. destruct parent as [parent|]; [|by exists w]. destruct (_ <? _)%nat; [by exists w|]. cbn zeta.
  pose proof (i_derived _ Hi) as [_ Hc]. destruct (group_exists_total (app w) group Hc) as [known ->].
  destruct known; [by exists w|]. destruct (group_exists_total (app w) parent Hc) as [pk ->].
  destruct (negb pk); [by exists w|]. case_bool_decide; [by exists w|].
  destruct (mutate_keeps w "group.provision" ("group:" +:+ group)
    ("group.provision group:" +:+ group +:+ " (auto, parent " +:+ parent +:+ ")") rq []
    (build_with_group (app w) group (provision_child (btree (groups_registry (app w))) parent))
    (save_groups rq None (Some group)) 200) as (w' & Hm & Hw'); [done|apply build_with_group_total| |].
  { intros next _ Hb. by eapply group_put_keeps. }
  destruct (mutate _ _ _ _ _ _ _ _ w) as [[w2 r]|]; [|done]. injection Hm as ->. by exists w'.
Qed.

Lemma commit_settings_keeps w rq i : inv w -> Request.fault rq = NoFault ->
  exists w', fst <$> patch_settings_commit rq i w = Some w' /\ inv w'.
Proof.
  intros Hi Hf. unfold patch_settings_commit. destruct (pending w !! i) as [p|] eqn:Ep; [|by exists w]. cbn zeta.
  match goal with |- context [mutate ?a ?r ?s ?q ?g ?b ?v ?t w] =>
    destruct (mutate_keeps w a r s q g b v t) as (w' & Hm & Hw'); [done|apply build_with_hook_total|..] end.
  { intros next _ Hb. eapply hook_put_keeps; [done..| |exact Hb]. pose proof (i_pending _ Hi) as Hp.
    rewrite Forall_forall in Hp. apply Hp. by eapply list_elem_of_lookup_2. }
  destruct (mutate _ _ _ _ _ _ _ _ w) as [[w2 r]|]; [|done]. injection Hm as ->.
  eexists. split; [done|]. destruct Hw'. split; try done. by apply Forall_delete.
Qed.

Lemma push_settings_keeps w rq name body acked : inv w -> inv (patch_settings_push rq name body acked w).1.
Proof.
  intros Hi. unfold patch_settings_push. cbn zeta. destruct (if_match_version _) as [e|expected]; [done|]. destruct body as [settings|]; [|done].
  destruct (validate_hook_settings_size settings); [done|]. destruct (hook_registry (app w) !! name) as [h|]; [|by apply inv_audited].
  destruct (first_error _) as [e|] eqn:Ef; [by apply inv_audited|]. destruct acked; [|by apply inv_audited].
  apply first_error_None in Ef. apply Forall_cons_1 in Ef as [_ Ef]. apply Forall_cons_1 in Ef as [Hb _].
  apply not_base_hook in Hb. rewrite (i_base_hooks _ Hi) in Hb. destruct Hi. split; try done.
  apply Forall_app. split; [done|]. by apply Forall_singleton.
Qed.

(** Every durable operation returns and keeps the invariant. *)
Lemma step_keeps op w : inv w -> durable op -> exists w', step d op w = Some w' /\ inv w'.
Proof.
  intros Hi [Hf Ho]. destruct op; cbn [step request_of] in *.
  - unfold register_hook. destruct (if_match_version _); [by exists w|]. destruct body as [[name cfg]|]; [|by exists w]. cbn zeta.
    apply mutate_keeps; [done|apply build_with_hook_total|]. intros next Hg Hb. guard_free Hg.
    eapply hook_put_keeps; [done..| |exact Hb]. rewrite <- (i_base_hooks _ Hi). by apply not_base_hook.
  - unfold put_hook. destruct (if_match_version _); [by exists w|]. destruct body as [cfg|]; [|by exists w]. cbn zeta.
    apply mutate_keeps; [done|apply build_with_hook_total|]. intros next Hg Hb. guard_free Hg.
    eapply hook_put_keeps; [done..| |exact Hb]. rewrite <- (i_base_hooks _ Hi). by apply not_base_hook.
  - unfold delete_hook. destruct (if_match_version _); [by exists w|]. cbn zeta.
    apply mutate_keeps; [done|apply build_without_hook_total|]. intros next Hg Hb. guard_free Hg.
    eapply hook_delete_keeps; [done..| |exact Hb]. rewrite <- (i_base_hooks _ Hi). by apply not_base_hook.
  - eexists. split; [done|]. by apply push_settings_keeps.
  - by apply commit_settings_keeps.
  - unfold register_group. destruct (if_match_version _); [by exists w|]. destruct body as [[name cfg]|]; [|by exists w]. cbn zeta.
    apply mutate_keeps; [done|apply build_with_group_total|]. intros next _ Hb. by eapply group_put_keeps.
  - unfold put_group. destruct (if_match_version _); [by exists w|]. destruct body as [cfg|]; [|by exists w]. cbn zeta.
    apply mutate_keeps; [done|apply build_with_group_total|]. intros next _ Hb. by eapply group_put_keeps.
  - unfold patch_group. destruct (if_match_version _); [by exists w|]. destruct body as [patch|]; [|by exists w]. cbn zeta.
    destruct (groups_registry (app w) !! name); [|eexists; split; [done|by apply inv_audited]].
    apply mutate_keeps; [done|apply build_with_group_total|]. intros next _ Hb. by eapply group_put_keeps.
  - unfold delete_group. destruct (if_match_version _); [by exists w|]. cbn zeta.
    apply mutate_keeps; [done|apply build_without_group_total|]. intros next Hg Hb. guard_free Hg.
    eapply group_delete_keeps; [done..| |exact Hb]. rewrite <- (i_base_groups _ Hi). by apply not_base_group.
  - by apply mint_keeps.
  - by apply reset_keeps.
  - unfold rollback_config. destruct (if_match_version _); [by exists w|]. destruct body as [v|]; [|by exists w]. cbn zeta.
    destruct (stale_if_match _ _); [eexists; split; [done|by apply inv_audited]|].
    destruct (get_version v (versions w)) as [target|] eqn:Ev; [|eexists; split; [done|by apply inv_audited]].
    apply mutate_keeps; [done|apply build_with_registry_total|]. intros next _ Hb. eapply rollback_keeps; [done..| |exact Hb].
    pose proof (i_versions _ Hi) as Hv. rewrite Forall_forall in Hv. apply Hv. apply find_some in Ev as [Ev _]. by apply list_elem_of_In.
  - by apply reload_keeps.
  - by apply settings_keeps.
  - by apply plugin_keeps.
Qed.

Lemma run_keeps ops w : inv w -> Forall durable ops -> exists w', run d ops w = Some w' /\ inv w'.
Proof.
  intros Hi Ho. revert w Hi. induction Ho as [|op ops Hop Hops IH]; intros w Hi; cbn [run]; [by exists w|].
  destruct (step_keeps op w Hi Hop) as (w1 & -> & Hw1). by apply IH.
Qed.

(** *** Boot *)

(** A process that starts with no push under way, a readable overlay with no tombstone on something the files
    define, and a history in which every version holds what the files define. *)
Definition clean_start (w : World.t) : Prop :=
  pending w = [] /\ Forall (fun v => covers (AdminState.hook_registry v) (AdminState.global_hooks v)) (versions w) /\
  read_state (fs w) <> Unreadable /\
  forall doc, read (fs w) = Some doc ->
    (forall n, n ∈ OverlayDoc.deleted doc -> n ∉ dom (RootCfg.hooks cfg0)) /\
    (forall n, n ∈ OverlayDoc.deleted_groups doc -> n ∉ dom (RootCfg.groups cfg0)).

Lemma delete_all_dom {A} (m : gmap string A) (base : gset string) dels :
  base ⊆ dom m -> (forall n, n ∈ dels -> n ∉ base) -> base ⊆ dom (foldl (fun m name => delete name m) m dels).
Proof.
  intros Hb Hd n Hn. apply elem_of_dom. rewrite lookup_delete_all. rewrite bool_decide_eq_false_2 by (intros Hx; by apply (Hd n)).
  by apply elem_of_dom, Hb.
Qed.

Lemma fresh_boot_inv w : boot (inr d) false (fs w) = Some (inr (app w)) -> clean_start w -> inv w.
Proof.
  unfold boot. cbn zeta. intros Hb (Hpend & Hvs & Hread & Hclean).
  apply assemble_root in Hb as (Hlive & Hbh & Hbg & Hp & Hd). rewrite overlay_on in Hp.
  assert (exists doc, load_for_rmw (fs w) = Some doc) as [doc Hl].
  { unfold load_for_rmw. destruct (read_state (fs w)); [by eexists..|done]. }
  apply (loaded_merge _ doc) in Hlive; [|done]. destruct Hlive as (L1 & L2 & L3).
  assert ((forall n, n ∈ OverlayDoc.deleted doc -> n ∉ dom (RootCfg.hooks cfg0)) /\
          (forall n, n ∈ OverlayDoc.deleted_groups doc -> n ∉ dom (RootCfg.groups cfg0))) as [Hdh Hdg].
  { unfold load_for_rmw, read in *. destruct (read_state (fs w)); [injection Hl as <-; cbn; set_solver|injection Hl as <-; by apply Hclean|done]. }
  split; try done.
  - rewrite L1, L2. unfold merge_into. cbn. split.
    + apply delete_all_dom; [rewrite dom_union_L; set_solver|done].
    + apply extends_retain_all; [|apply push_all_any]. intros n Hn Hg. by apply (Hdh n Hn), base_globals_known.
  - rewrite L3. unfold merge_into. cbn. apply delete_all_dom; [rewrite dom_union_L; set_solver|done].
  - exists doc. by split.
  - by rewrite Hpend.
Qed.

(** The configuration two snapshots serve is the same. *)
Definition same_live (a b : Snapshot.t) : Prop :=
  hook_registry a = hook_registry b /\ Snapshot.global_hooks a = Snapshot.global_hooks b /\ surface a = surface b /\
  groups_registry a = groups_registry b /\ CostModel.groups (cost a) = CostModel.groups (cost b) /\
  CostModel.group_idx (cost a) = CostModel.group_idx (cost b) /\
  base_hook_names a = base_hook_names b /\ base_group_names a = base_group_names b.

Lemma reboot w : inv w -> exists r, boot (inr d) false (fs w) = Some r /\ forall a, r = inr a -> same_live a (app w).
Proof.
  intros Hi. unfold boot. cbn zeta.
  match goal with |- context [assemble ?p ?dp ?df ?dc ?pa ?fi] => destruct (assemble_total p dp df dc pa fi) as [r Hr] end.
  exists r. split; [done|]. intros a ->. apply assemble_root in Hr as (Hlive & Hbh & Hbg & _ & [Hs [Hc1 Hc2]]).
  destruct Hi. destruct i_disk0 as (doc & Hl & Hold). apply (loaded_merge _ doc) in Hlive; [|done].
  destruct Hlive as (L1 & L2 & L3), Hold as (O1 & O2 & O3). destruct i_derived0 as [Hs' [Hc1' Hc2']].
  assert (hook_registry a = hook_registry (app w)) as E1 by congruence.
  assert (Snapshot.global_hooks a = Snapshot.global_hooks (app w)) as E2 by congruence.
  assert (groups_registry a = groups_registry (app w)) as E3 by congruence.
  split_and!; try congruence.
Qed.
End Restart.

(** C5.  Restarting reproduces the running configuration, for a gateway that keeps an overlay file and was
    not started in safe mode.  Take a boot on given files whose overlay is readable, holds no tombstone on a
    hook or group those files define, and whose retained versions all hold the files' hooks and begin with
    their global order.  After any sequence of admin mutations whose overlay writes succeed (registering,
    replacing, deleting and reconfiguring hooks, with settings pushes overlapping other mutations; creating,
    replacing, patching, deleting and provisioning groups; section resets, rollbacks, reloads, root settings,
    plugin rollbacks), accepted or refused, every handler returns; and booting again on the same files and the
    overlay left on disk either refuses to start or serves exactly the running hooks, global order, resolved
    transports, groups and enforcement tree.  Without the conditions on tombstones and versions it does not
    hold: [rollback_past_tombstone_is_lost], [rollback_to_older_files_is_lost]. *)
Theorem restart_reproduces_live `{Platform} `{Host} `{OAuthLibs} `{OverlaySerde} `{!OverlaySerdeOk} d cfg0 ops w :
  resolve (deploy d) (defs d) = Some (inr cfg0) -> overlay_env d = true ->
  boot (inr d) false (fs w) = Some (inr (app w)) -> clean_start cfg0 w -> Forall durable ops ->
  exists w' r, run d ops w = Some w' /\ boot (inr d) false (fs w') = Some r /\ forall a, r = inr a -> same_live a (app w').
Proof.
  intros Hr Ho Hb Hc Hd. pose proof (fresh_boot_inv d cfg0 Hr Ho w Hb Hc) as Hi.
  destruct (run_keeps d cfg0 Hr Ho ops w Hi Hd) as (w' & Hw' & Hi').
  destruct (reboot d cfg0 Hr Ho w' Hi') as (r & Hboot & Hsame). by exists w', r.
Qed.

(** ** Narrow tokens *)
Section Narrow.
Context `{Platform} `{Host} `{OAuthLibs} `{OverlaySerde}.

(** A hook only a full administrator may touch: file-owned, or granted content or identity. *)
Definition guarded_hook (a : Snapshot.t) (name : string) (h : HookCfg.t) : Prop :=
  name ∈ base_hook_names a \/ HookCfg.prompt h <> PromptNo \/ HookCfg.user h <> UserNo.

(** The same of a name, as a test. *)
Definition guarded_name (a : Snapshot.t) (name : string) : bool :=
  match hook_registry a !! name with
  | Some h => bool_decide (name ∈ base_hook_names a) || negb (bool_decide (HookCfg.prompt h = PromptNo))
              || negb (bool_decide (HookCfg.user h = UserNo))
  | None => false
  end.

(** What a request below full scope may do to the hooks between two snapshots: guarded hooks keep their
    definitions, the global list keeps them in the same order, and a hook it wrote sees no content and no
    identity and does not fire globally. *)
Definition contained (a b : Snapshot.t) : Prop :=
  (forall name h, hook_registry a !! name = Some h -> guarded_hook a name h -> hook_registry b !! name = Some h) /\
  List.filter (guarded_name a) (Snapshot.global_hooks b) = List.filter (guarded_name a) (Snapshot.global_hooks a) /\
  (forall name h, hook_registry b !! name = Some h -> hook_registry a !! name = Some h \/
     (HookCfg.prompt h = PromptNo /\ HookCfg.user h = UserNo /\ HookCfg.global h = false /\ name ∉ Snapshot.global_hooks b)).

Lemma contained_refl a : contained a a.
Proof. split_and!; [by intros|done|by left]. Qed.

Lemma guarded_name_spec a name h : hook_registry a !! name = Some h -> guarded_name a name = true <-> guarded_hook a name h.
Proof.
  intros Hh. unfold guarded_name, guarded_hook. rewrite Hh, !orb_true_iff, !negb_true_iff, bool_decide_eq_true, !bool_decide_eq_false.
  tauto.
Qed.

(** Taking an unguarded name off the global list leaves the guarded ones where they are. *)
Lemma retain_keeps_guarded a name l : guarded_name a name = false ->
  List.filter (guarded_name a) (retain_ne name l) = List.filter (guarded_name a) l.
Proof.
  intros Hn. unfold retain_ne. induction l as [|x l IH]; [done|]. cbn. destruct (String.eqb_spec x name) as [->|]; cbn.
  - by rewrite Hn.
  - by rewrite IH.
Qed.

Lemma escalation_free scope h : scope <> Some Full -> hooks_register_escalation scope h = None ->
  HookCfg.prompt h = PromptNo /\ HookCfg.user h = UserNo /\ HookCfg.global h = false.
Proof.
  unfold hooks_register_escalation. intros Hs. rewrite bool_decide_eq_false_2 by done.
  destruct (HookCfg.global h); [done|]. case_bool_decide; [|done]. case_bool_decide; [|done]. done.
Qed.

(** A registered hook keeps its grants, so one that may be given no grants had none. *)
Lemma put_unguarded a name cfg : hook_refusal a name cfg = None -> name ∉ base_hook_names a ->
  HookCfg.prompt cfg = PromptNo -> HookCfg.user cfg = UserNo -> guarded_name a name = false.
Proof.
  intros Er Hb Hp Hu. unfold guarded_name. unfold hook_refusal in Er. destruct (is_empty _); [done|]. destruct (_ <? _)%nat; [done|].
  case_bool_decide; [done|]. destruct (validate_hook_settings_size _); [done|]. destruct (hook_problem cfg); [done|].
  destruct (hook_registry a !! name) as [h|]; [|done]. unfold same_grants in Er. rewrite Hp, Hu in Er.
  rewrite (bool_decide_eq_false_2 (name ∈ _)) by done.
  destruct (bool_decide (HookCfg.prompt h = PromptNo)), (bool_decide (HookCfg.user h = UserNo)); rewrite ?andb_false_r in Er; done.
Qed.

Lemma put_contained a name cfg next :
  build_with_hook a name cfg = Some (inr next) -> name ∉ base_hook_names a ->
  HookCfg.prompt cfg = PromptNo -> HookCfg.user cfg = UserNo -> HookCfg.global cfg = false -> contained a next.
Proof.
  unfold build_with_hook. destruct (hook_refusal a name cfg) eqn:Er; [done|]. cbn zeta.
  unfold with_hooks. destruct (surface_of _ _); [|done]. intros [= <-] Hb Hp Hu Hg.
  pose proof (put_unguarded a name cfg Er Hb Hp Hu) as Hn. rewrite Hg. split_and!; cbn.
  - intros m h Hm Hgh. rewrite lookup_insert_ne; [done|]. intros <-. apply (guarded_name_spec _ _ _ Hm) in Hgh. congruence.
  - by apply retain_keeps_guarded.
  - intros m h. destruct (decide (name = m)) as [<-|Hne].
    + rewrite lookup_insert_eq. intros [= <-]. right. split_and!; try done. intros [_ ?]%elem_of_retain_ne. done.
    + rewrite lookup_insert_ne by done. by left.
Qed.

Lemma delete_contained a name h next :
  build_without_hook a name = Some (inr next) -> hook_registry a !! name = Some h -> ~ guarded_hook a name h -> contained a next.
Proof.
  unfold build_without_hook. destruct (negb _); [done|]. unfold with_hooks. destruct (surface_of _ _); [|done]. intros [= <-] Hh Hn.
  split_and!; cbn.
  - intros m h' Hm Hg. rewrite lookup_delete_ne; [done|]. intros <-. by simplify_eq.
  - apply retain_keeps_guarded, not_true_is_false. by rewrite guarded_name_spec.
  - intros m h'. rewrite lookup_delete_Some. naive_solver.
Qed.

(** *** A settings push and what happens before it is committed *)

(** The other mutations that may run between, each with the files it finds. *)
Inductive moves : nat -> World.t -> World.t -> Prop :=
  | moves_none w : moves 0 w w
  | moves_op n d op w w1 w2 : step d op w = Some w1 -> moves n w1 w2 -> moves (S n) w w2
  | moves_apply n rq body r w w1 w2 : apply_config rq body w = Some (w1, r) -> moves n w1 w2 -> moves (S n) w w2.

(** One handler swaps at most one snapshot in, with the next version. *)
Definition moved (w w' : World.t) : Prop :=
  app w' = app w \/ config_version (app w') = wrapping_next (config_version (app w)).

Definition bumps (a : Snapshot.t) (build : option (AdminError + Snapshot.t)) : Prop :=
  forall next, build = Some (inr next) -> config_version next = wrapping_next (config_version a).

Lemma with_hooks_bumps a hooks globals next : with_hooks a hooks globals = Some next ->
  config_version next = wrapping_next (config_version a).
Proof. unfold with_hooks. destruct (surface_of _ _); [|done]. by intros [= <-]. Qed.

Lemma build_with_hook_bumps a name cfg : bumps a (build_with_hook a name cfg).
Proof.
  intros next. unfold build_with_hook. destruct (hook_refusal _ _ _); [done|]. cbn zeta.
  destruct (with_hooks _ _ _) eqn:E; [|done]. intros [= <-]. by eapply with_hooks_bumps.
Qed.

Lemma build_without_hook_bumps a name : bumps a (build_without_hook a name).
Proof.
  intros next. unfold build_without_hook. destruct (negb _); [done|].
  destruct (with_hooks _ _ _) eqn:E; [|done]. intros [= <-]. by eapply with_hooks_bumps.
Qed.

Lemma build_with_registry_bumps a registry globals : bumps a (build_with_registry a registry globals).
Proof.
  intros next. unfold build_with_registry. cbn zeta. destruct (head _); [done|]. destruct (_ <? _)%nat; [done|].
  destruct (existsb _ _); [done|]. destruct (with_hooks _ _ _) eqn:E; [|done]. intros [= <-]. by eapply with_hooks_bumps.
Qed.

Lemma build_with_group_bumps a name cfg : bumps a (build_with_group a name cfg).
Proof.
  intros next. unfold build_with_group. destruct (is_empty _); [done|]. destruct (_ <? _)%nat; [done|]. cbn zeta.
  destruct (validate_groups _ _) as [errors|]; [|done]. destruct (is_nil errors); [|done]. by intros [= <-].
Qed.

Lemma build_without_group_bumps a name : bumps a (build_without_group a name).
Proof.
  intros next. unfold build_without_group. destruct (negb _); [done|]. cbn zeta.
  destruct (validate_groups _ _) as [errors|]; [|done]. destruct (is_nil errors); [|done]. by intros [= <-].
Qed.

Lemma assemble_bumps a deploy defs doc path files next : assemble (Some a) deploy defs doc path files = Some (inr next) ->
  config_version next = wrapping_next (config_version a).
Proof.
  unfold assemble. destruct (resolve deploy defs) as [[e|cfg]|]; [done| |done]. unfold build_snapshot. cbn zeta.
  destruct (validate _) as [errors|]; [|done]. destruct (negb _); [done|]. destruct (build_refuses _ _); [done|].
  destruct (build_tables _ _ _ _); [done|]. destruct (surface_of _ _); [|done]. by intros [= <-].
Qed.

Lemma as_build_bumps a o : (forall next, o = Some (inr next) -> config_version next = wrapping_next (config_version a)) ->
  bumps a (as_build o).
Proof. intros Ho next Hn. by apply Ho, as_build_inr. Qed.

Lemma rebuild_bumps a disk files next : rebuild_app_from_disk a disk files = Some (inr next) ->
  config_version next = wrapping_next (config_version a).
Proof. unfold rebuild_app_from_disk. destruct (negb _); [done|]. destruct disk as [e|d]; [done|]. cbn zeta. apply assemble_bumps. Qed.

Lemma moved_refl w : moved w w.
Proof. by left. Qed.

Lemma mutate_moved action resource summary rq guards build save status w w' r :
  mutate action resource summary rq guards build save status w = Some (w', r) -> bumps (app w) build -> moved w w'.
Proof.
  intros Hm Hb. apply mutate_cases in Hm as [(e & -> & _)|(next & _ & Hn & -> & _)]; [by left|right]. by apply Hb.
Qed.

Create HintDb runtime discriminated.
#[local] Hint Resolve build_with_hook_bumps build_without_hook_bumps build_with_registry_bumps build_with_group_bumps
  build_without_group_bumps : runtime.

(** A handler that refuses before it mutates, or whose mutation builds one of the snapshots above. *)
Ltac solve_moved :=
  repeat match goal with
  | |- mutate _ _ _ _ _ _ _ _ _ = Some _ -> _ => fail 1
  | |- match ?x with _ => _ end = Some _ -> _ => destruct x
  end;
  let Hs := fresh in intros Hs;
  first [by injection Hs as <- <-; left|eapply mutate_moved; [exact Hs|by auto with runtime]].

Lemma register_hook_moved rq body w w' r : register_hook rq body w = Some (w', r) -> moved w w'.
Proof. unfold register_hook. cbn zeta. solve_moved. Qed.
Lemma put_hook_moved rq name body w w' r : put_hook rq name body w = Some (w', r) -> moved w w'.
Proof. unfold put_hook. cbn zeta. solve_moved. Qed.
Lemma delete_hook_moved rq name w w' r : delete_hook rq name w = Some (w', r) -> moved w w'.
Proof. unfold delete_hook. cbn zeta. solve_moved. Qed.
Lemma register_group_moved rq body w w' r : register_group rq body w = Some (w', r) -> moved w w'.
Proof. unfold register_group. cbn zeta. solve_moved. Qed.
Lemma put_group_moved rq name body w w' r : put_group rq name body w = Some (w', r) -> moved w w'.
Proof. unfold put_group. cbn zeta. solve_moved. Qed.
Lemma patch_group_moved rq name body w w' r : patch_group rq name body w = Some (w', r) -> moved w w'.
Proof. unfold patch_group. cbn zeta. solve_moved. Qed.
Lemma delete_group_moved rq name w w' r : delete_group rq name w = Some (w', r) -> moved w w'.
Proof. unfold delete_group. cbn zeta. solve_moved. Qed.
Lemma rollback_moved rq body w w' r : rollback_config rq body w = Some (w', r) -> moved w w'.
Proof. unfold rollback_config. cbn zeta. solve_moved. Qed.

Lemma commit_settings_moved rq i w w' r : patch_settings_commit rq i w = Some (w', r) -> moved w w'.
Proof.
  unfold patch_settings_commit. destruct (pending w !! i); [|by intros [= <- <-]; left]. cbn zeta.
  destruct (mutate _ _ _ _ _ _ _ _ w) as [[w1 r1]|] eqn:Em; [|done]. intros [= <- <-].
  by apply mutate_moved in Em; [|auto with runtime].
Qed.

Lemma push_settings_app rq name body acked w : app (patch_settings_push rq name body acked w).1 = app w.
Proof.
  unfold patch_settings_push. cbn zeta. destruct (if_match_version _); [done|]. destruct body; [|done].
  destruct (validate_hook_settings_size _); [done|]. destruct (hook_registry _ !! _); [|done].
  destruct (first_error _); [done|]. by destruct acked.
Qed.

Lemma mint_moved rq seen group parent w w' r : resolve_mint_group rq seen group parent w = Some (w', r) -> moved w w'.
Proof.
  unfold resolve_mint_group. cbn zeta. destruct (group_exists seen group) as [[|]|]; [by intros [= <- <-]; left| |done].
  destruct parent as [parent|]; [|by intros [= <- <-]; left]. destruct (_ <? _)%nat; [by intros [= <- <-]; left|].
  destruct (group_exists (app w) group) as [[|]|]; [by intros [= <- <-]; left| |done].
  destruct (group_exists (app w) parent) as [[|]|]; [|by intros [= <- <-]; left|done]. cbn [negb].
  case_bool_decide; [by intros [= <- <-]; left|].
  destruct (mutate _ _ _ _ _ _ _ _ w) as [[w1 r1]|] eqn:Em; [|done]. intros [= <- <-].
  by apply mutate_moved in Em; [|auto with runtime].
Qed.

Lemma reset_moved rq section disk w w' r : reset_overlay_section rq section disk w = Some (w', r) -> moved w w'.
Proof.
  unfold reset_overlay_section. destruct (section_parse section); [|by intros [= <- <-]; left].
  destruct (if_match_version _); [by intros [= <- <-]; left|]. cbn zeta. destruct (stale_if_match _ _); [by intros [= <- <-]; left|].
  match goal with |- (if ?b then _ else _) = _ -> _ => destruct b end; [by intros [= <- <-]; left|].
  intros Hm. eapply mutate_moved; [exact Hm|]. apply as_build_bumps. intros next. destruct disk; [done|]. cbn zeta. apply assemble_bumps.
Qed.

Lemma reload_moved rq disk w w' r : reload_config rq disk w = Some (w', r) -> moved w w'.
Proof. intros Hm. eapply mutate_moved; [exact Hm|]. apply as_build_bumps. intros next. apply rebuild_bumps. Qed.

Lemma apply_moved rq body w w' r : apply_config rq body w = Some (w', r) -> moved w w'.
Proof.
  unfold apply_config. destruct (if_match_version _); [by intros [= <- <-]; left|]. destruct body as [[deploy defs]|]; [|by intros [= <- <-]; left].
  cbn zeta. intros Hm. eapply mutate_moved; [exact Hm|]. apply as_build_bumps. intros next. apply assemble_bumps.
Qed.

Lemma settings_moved rq body disk w w' r : put_config_settings rq body disk w = Some (w', r) -> moved w w'.
Proof.
  unfold put_config_settings. destruct (if_match_version _); [by intros [= <- <-]; left|]. destruct body; [|by intros [= <- <-]; left].
  cbn zeta. intros Hm. eapply mutate_moved; [exact Hm|]. apply as_build_bumps. intros next. destruct disk; [done|]. apply assemble_bumps.
Qed.

Lemma plugin_moved rq file target undo disk w w' r : rollback_plugin rq file target undo disk w = Some (w', r) -> moved w w'.
Proof.
  unfold rollback_plugin. destruct (if_match_version _); [by intros [= <- <-]; left|]. destruct file; [|by intros [= <- <-]; left].
  cbn zeta. destruct (first_error _); [by intros [= <- <-]; left|]. destruct target as [e|[name version]]; [by intros [= <- <-]; left|].
  destruct (rebuild_app_from_disk _ _ _) as [[e|next]|] eqn:Er; [by intros [= <- <-]; left| |done].
  intros [= <- <-]. right. cbn. by eapply rebuild_bumps.
Qed.

Lemma step_moved d op w w' : step d op w = Some w' -> moved w w'.
Proof.
  destruct op; cbn [step].
  4: { intros [= <-]. left. apply push_settings_app. }
  all: intros ([w1 r] & Hs & ->)%fmap_Some.
  - by eapply register_hook_moved.
  - by eapply put_hook_moved.
  - by eapply delete_hook_moved.
  - by eapply commit_settings_moved.
  - by eapply register_group_moved.
  - by eapply put_group_moved.
  - by eapply patch_group_moved.
  - by eapply delete_group_moved.
  - by eapply mint_moved.
  - by eapply reset_moved.
  - by eapply rollback_moved.
  - by eapply reload_moved.
  - by eapply settings_moved.
  - by eapply plugin_moved.
Qed.

(** Versions count the snapshots that were swapped in. *)
Lemma moves_count n w w' : moves n w w' ->
  app w' = app w \/ exists k, 0 < k <= Z.of_nat n /\ config_version (app w') = wrap_u64 (config_version (app w) + k).
Proof.
  assert (forall n w w1 w2, moved w w1 ->
    app w2 = app w1 \/ (exists k, 0 < k <= Z.of_nat n /\ config_version (app w2) = wrap_u64 (config_version (app w1) + k)) ->
    app w2 = app w \/ exists k, 0 < k <= Z.of_nat (S n) /\ config_version (app w2) = wrap_u64 (config_version (app w) + k)) as Hcons.
  { clear. intros n w w1 w2 Hm [E|(k & Hk & Ek)].
    - rewrite E. destruct Hm as [->|Hm]; [by left|right]. exists 1. split; [lia|done].
    - right. destruct Hm as [Hm|Hm]; [exists k; rewrite <- Hm; split; [lia|done]|]. exists (k + 1). split; [lia|].
      rewrite Ek, Hm. unfold wrapping_next, wrap_u64. rewrite Zplus_mod_idemp_l. f_equal. lia. }
  induction 1 as [w|n d op w w1 w2 Hs _ IH|n rq body r w w1 w2 Hs _ IH]; [by left|..].
  - eapply Hcons; [by eapply step_moved|done].
  - eapply Hcons; [by eapply apply_moved|done].
Qed.

(** The version pins the snapshot, for as many mutations as it has values. *)
Lemma version_pins_snapshot n w w' : moves n w w' -> Z.of_nat n <= U64_MAX ->
  config_version (app w') = config_version (app w) -> app w' = app w.
Proof.
  intros Hm Hn Hv. destruct (moves_count _ _ _ Hm) as [|(k & Hk & Ek)]; [done|]. exfalso. rewrite Hv in Ek.
  unfold wrap_u64, U64_MAX in *. pose proof (Z.mod_pos_bound (config_version (app w) + k) 18446744073709551616).
  pose proof (Z.div_mod (config_version (app w) + k) 18446744073709551616). lia.
Qed.

(** What a push of a narrow token leaves behind, and what happens to the settings of a guarded hook. *)
Lemma narrow_push rq name body acked w w1 res p : Request.scope rq <> Some Full ->
  patch_settings_push rq name body acked w = (w1, res) -> pending w1 = pending w ++ [p] ->
  exists h settings, hook_registry (app w) !! name = Some h /\ guarded_name (app w) name = false /\ HookCfg.global h = false /\
    p = Pending.mk name (with_settings h settings) (config_version (app w)).
Proof.
  intros Hs. unfold patch_settings_push. cbn zeta.
  assert (forall A : Prop, pending w = pending w ++ [p] -> A) as Hno.
  { intros A Hl. apply (f_equal length) in Hl. rewrite length_app in Hl. cbn in Hl. lia. }
  destruct (if_match_version _); [by intros [= <- _]; apply Hno|]. destruct body as [settings|]; [|by intros [= <- _]; apply Hno].
  destruct (validate_hook_settings_size settings); [by intros [= <- _]; apply Hno|].
  destruct (hook_registry (app w) !! name) as [h|] eqn:Eh; [|by intros [= <- _]; apply Hno].
  destruct (first_error _) eqn:Ef; [by intros [= <- _]; apply Hno|]. destruct acked; [|by intros [= <- _]; apply Hno].
  intros [= <- _] [= <-]%app_inv_head. guard_free Ef. edestruct escalation_free as (? & ? & ?); [done..|].
  exists h, settings. split_and!; try done. apply not_true_is_false. rewrite guarded_name_spec by done.
  intros [Hx|[Hx|Hx]]; [|done..]. by eapply not_base_hook.
Qed.

(** Its commit finds the snapshot it was pushed against, or refuses. *)
Lemma narrow_commit rq name h settings w w1 n i w' r :
  hook_registry (app w) !! name = Some h -> guarded_name (app w) name = false -> HookCfg.global h = false ->
  moves n w w1 -> Z.of_nat n <= U64_MAX ->
  pending w1 !! i = Some (Pending.mk name (with_settings h settings) (config_version (app w))) ->
  patch_settings_commit rq i w1 = Some (w', r) -> contained (app w1) (app w').
Proof.
  intros Hh Hg Hgl Hm Hn Hp. unfold patch_settings_commit. rewrite Hp. cbn.
  destruct (mutate _ _ _ _ _ _ _ _ w1) as [[w2 r2]|] eqn:Em; [|done]. intros [= <- <-].
  apply mutate_cases in Em as [(e & -> & _)|(next & Hf & Hb & -> & _)]; [apply contained_refl|]. guard_free Hf.
  assert (app w1 = app w) as Ea.
  { eapply version_pins_snapshot; [done..|]. unfold refuse_if in *. destruct (Z.eqb_spec (config_version (app w1)) (config_version (app w))); done. }
  apply not_true_iff_false in Hg. rewrite (guarded_name_spec _ _ _ Hh) in Hg. rewrite Ea in *. cbn.
  assert (HookCfg.prompt h = PromptNo) by (destruct (decide (HookCfg.prompt h = PromptNo)); [done|]; exfalso; apply Hg; right; by left).
  assert (HookCfg.user h = UserNo) by (destruct (decide (HookCfg.user h = UserNo)); [done|]; exfalso; apply Hg; right; by right).
  eapply put_contained; [exact Hb| |done..]. intros Hx. apply Hg. by left.
Qed.

(** C6.  Delegated tokens: whatever a principal below full scope sends to register, replace or delete a hook,
    every hook that the configuration file defines or that was granted prompt content or caller identity keeps
    its definition, and the global list keeps those hooks in the same order; every hook the request writes sees
    neither content nor identity and does not fire globally.  The same holds of the commit of a settings push
    it made, whatever other mutations (fewer than 2^64, from any principal, on any files) run between the push
    and the commit; and the settings of a guarded hook are never even pushed.  A global hook without grants is
    not guarded: [narrow_token_demotes_global_gate]. *)
Theorem narrow_token_is_contained (rq : Request.t) (w w' : World.t) r name body hbody :
  Request.scope rq <> Some Full ->
  (register_hook rq body w = Some (w', r) \/ put_hook rq name hbody w = Some (w', r) \/ delete_hook rq name w = Some (w', r) ->
     contained (app w) (app w')) /\
  (forall settings acked w1 res p, patch_settings_push rq name settings acked w = (w1, res) ->
     app w1 = app w /\
     (pending w1 = pending w ++ [p] ->
       (forall h, hook_registry (app w) !! name = Some h -> ~ guarded_hook (app w) name h) /\
       forall n w2 i w3 r', moves n w1 w2 -> Z.of_nat n <= U64_MAX -> pending w2 !! i = Some p ->
         patch_settings_commit rq i w2 = Some (w3, r') -> contained (app w2) (app w3))).
Proof.
  intros Hs. split.
  - intros [Hm|[Hm|Hm]].
    + unfold register_hook in Hm. destruct (if_match_version _); [by injection Hm as <- <-; apply contained_refl|].
      destruct body as [[n cfg]|]; [|by injection Hm as <- <-; apply contained_refl]. cbn zeta in Hm.
      apply mutate_cases in Hm as [(e & -> & _)|(next & Hg & Hb & -> & _)]; [apply contained_refl|].
      guard_free Hg. cbn. edestruct escalation_free as (? & ? & ?); [done..|]. eapply put_contained; [exact Hb|by apply not_base_hook|done..].
    + unfold put_hook in Hm. destruct (if_match_version _); [by injection Hm as <- <-; apply contained_refl|].
      destruct hbody as [cfg|]; [|by injection Hm as <- <-; apply contained_refl]. cbn zeta in Hm.
      apply mutate_cases in Hm as [(e & -> & _)|(next & Hg & Hb & -> & _)]; [apply contained_refl|].
      guard_free Hg. cbn. edestruct escalation_free as (? & ? & ?); [done..|]. eapply put_contained; [exact Hb|by apply not_base_hook|done..].
    + unfold delete_hook in Hm. destruct (if_match_version _); [by injection Hm as <- <-; apply contained_refl|]. cbn zeta in Hm.
      apply mutate_cases in Hm as [(e & -> & _)|(next & Hg & Hb & -> & _)]; [apply contained_refl|].
      guard_free Hg. cbn. unfold existing_escalation in *. destruct (hook_registry (app w) !! name) as [h|] eqn:Eh.
      * edestruct escalation_free as (? & ? & ?); [done..|]. eapply delete_contained; [done..|].
        intros [Hx|[Hx|Hx]]; [|done..]. by eapply not_base_hook.
      * unfold build_without_hook, contains_key in Hb. rewrite Eh in Hb. done.
  - intros settings acked w1 res p Hp. pose proof (push_settings_app rq name settings acked w) as Ha. rewrite Hp in Ha. split; [done|].
    intros Hpend. destruct (narrow_push _ _ _ _ _ _ _ _ Hs Hp Hpend) as (h & m & Hh & Hg & Hgl & ->). cbn in Ha. split.
    + intros h' Hh' Hx. apply (guarded_name_spec _ _ _ Hh') in Hx. congruence.
    + intros n w2 i w3 r' Hm Hn Hi Hc. rewrite <- Ha in *. by eapply narrow_commit.
Qed.
End Narrow.

(** ** A small gateway *)
#[local] Existing Instances Demo.host Demo.libs.

Module RtDemo.
#[export] Instance platform : Platform := {
  open_hook name _ := Some (native name (fun _ => RoutingDecision.Abstain)); needs _ := None; default_timeout := 1;
  settings_len m := Some (Z.of_nat (length m)); secret_plugin := None; build_refuses _ _ := None }.

(** Files that hold a document or garbage. *)
#[export] Instance serde : OverlaySerde := { Bytes := option OverlayDoc.t; to_vec_pretty doc := Some (Some doc); from_slice b := b }.
#[export] Instance serde_ok : OverlaySerdeOk.
Proof. intros doc. by exists (Some doc). Qed.

Definition deploy : DeployCfg.t :=
  DeployCfg.mk "0.0.0.0:8080" None "127.0.0.1:8081" None false None ∅ ∅ ∅ [ModuleRef (DeployDemo.ref "audit" None)]
    {["org" := GroupCfg.default]} None 0 None (AdvancedCfg.mk 256 100) None DeployDemo.plugins None DeployDemo.limits
    (MetricsCfg.mk 2000) (HealthDefaultsCfg.mk 30 5) (RoutingCfg.mk 1).
Definition disk : DiskConfig := mk_disk deploy ∅ true.

Definition blank : Snapshot.t :=
  Snapshot.mk 0 ∅ [] (Surface.mk [] [] [] [] [] []) ∅ (resolve_parts None 0 []) ∅ ∅ ∅ false false DeployDemo.plugins.
Definition booted (files : Fs) : Snapshot.t := match boot (inr disk) false files with Some (inr a) => a | _ => blank end.

(** Started with no overlay. *)
Definition start : World.t :=
  let files := mk_fs Overlay.NotFound Overlay.NotFound in
  let a := booted files in
  World.mk a [mk_version 0 0 "system" "boot" (hook_registry a) (Snapshot.global_hooks a)] [] files [].

Definition as_scope (scope : Scope) : Request.t := Request.mk "alice" (Some scope) None 1 NoFault.
Definition gate (global : bool) (prompt : PromptAccess) (on_error : string) : HookCfg.t :=
  HookCfg.mk Gate "screen" 5 on_error prompt UserNo 0 None None [] global false.
Definition team (amount : Z) : GroupCfg.t :=
  GroupCfg.mk (Some "org") true [LimitCfg.mk Requests amount (Some Day) None None None] None.

(** Two hooks, one deleted, one reconfigured, a team, then back to the first version. *)
Definition ops : list Op :=
  [ORegisterHook (as_scope Full) (Some ("pii", gate true PromptRo "reject")); ORegisterHook (as_scope Full) (Some ("cap", gate false PromptNo "weighted"));
   OPushSettings (as_scope Full) "pii" (Some [("level", Num (PosInt 3))]) true; ORegisterGroup (as_scope Full) (Some ("team", team 5));
   OCommitSettings (as_scope Full) 0; ODeleteHook (as_scope Full) "cap"; ODeleteHook (as_scope Full) "audit";
   ORollback (as_scope Full) (Some 2); OReload (as_scope Full)].

Definition after (ops : list Op) : World.t := default start (run disk ops start).
End RtDemo.
#[local] Existing Instances RtDemo.platform RtDemo.serde RtDemo.serde_ok.

Lemma restart_reproduces_live_witness :
  exists w' r, run RtDemo.disk RtDemo.ops RtDemo.start = Some w' /\ boot (inr RtDemo.disk) false (fs w') = Some r /\
    forall a, r = inr a -> same_live a (app w').
Proof.
  edestruct (resolve RtDemo.deploy ∅) as [[e|cfg]|] eqn:Er; [vm_compute in Er; discriminate Er| |vm_compute in Er; discriminate Er].
  apply (restart_reproduces_live RtDemo.disk cfg); [exact Er|reflexivity|vm_compute; reflexivity| |].
  - split; [reflexivity|]. vm_compute in Er. injection Er as <-. split_and!; [|vm_compute; discriminate|intros doc E; vm_compute in E; discriminate E].
    apply Forall_singleton. split; [vm_compute; set_solver|]. exists []. split_and!; [vm_compute; reflexivity|constructor|set_solver].
  - repeat constructor.
Defined.

(** What the sequence above leaves: the hooks of version 2, the team, and a restart that agrees. *)
Example restart_demo :
  let w := RtDemo.after RtDemo.ops in
  config_version (app w) = 6 /\ (btree (hook_registry (app w))).*1 = ["audit"; "cap"; "pii"] /\
  (btree (groups_registry (app w))).*1 = ["org"; "team"] /\
  AuditRow.applied <$> audit w = [true; true; true; false; true; false; true; true] /\
  match boot (inr RtDemo.disk) false (fs w) with
  | Some (inr a) => (btree (hook_registry a)).*1 = ["audit"; "cap"; "pii"] /\ Snapshot.global_hooks a = ["audit"; "pii"]
  | _ => False
  end.
Proof. vm_compute. auto 10. Qed.

(** A hook whose fallback does not exist is accepted, live and persisted, also from a delegated token, and
    the next boot on the same files refuses to start; only [--safe-mode] starts. *)
Example api_hook_stops_the_next_boot :
  let w := RtDemo.after [ORegisterHook (RtDemo.as_scope HooksRegister) (Some ("x", RtDemo.gate false PromptNo "ghost"))] in
  hook_registry (app w) !! "x" = Some (RtDemo.gate false PromptNo "ghost") /\
  boot (inr RtDemo.disk) false (fs w) = Some (inl "config validation failed") /\
  match boot (inr RtDemo.disk) true (fs w) with Some (inr a) => hook_registry a !! "x" = None | _ => False end.
Proof. vm_compute. auto. Qed.

(** So does a group with a limit of zero. *)
Example api_group_stops_the_next_boot :
  let w := RtDemo.after [ORegisterGroup (RtDemo.as_scope Full) (Some ("team", RtDemo.team 0))] in
  groups_registry (app w) !! "team" = Some (RtDemo.team 0) /\
  boot (inr RtDemo.disk) false (fs w) = Some (inl "config validation failed").
Proof. vm_compute. auto. Qed.

(** A delegated token takes a full administrator's global gate off every request by replacing it. *)
Example narrow_token_demotes_global_gate :
  let gate global := RtDemo.gate global PromptNo "reject" in
  let w := RtDemo.after [ORegisterHook (RtDemo.as_scope Full) (Some ("limit", gate true))] in
  let w' := RtDemo.after [ORegisterHook (RtDemo.as_scope Full) (Some ("limit", gate true));
                          OPutHook (RtDemo.as_scope HooksRegister) "limit" (Some (gate false))] in
  Snapshot.global_hooks (app w) = ["audit"; "limit"] /\ Snapshot.global_hooks (app w') = ["audit"] /\
  snd <$> delete_hook (RtDemo.as_scope HooksRegister) "limit" w = Some (Failed (Forbidden Full)).
Proof. vm_compute. auto. Qed.

(** A refused replacement of a granted hook, and a settings push that overlaps another one and is committed. *)
Lemma narrow_token_is_contained_witness :
  let narrow := RtDemo.as_scope HooksRegister in
  let settings := Some [("level", Num (PosInt 3))] in
  let w := RtDemo.after [ORegisterHook (RtDemo.as_scope Full) (Some ("pii", RtDemo.gate true PromptRo "reject"));
                         ORegisterHook (RtDemo.as_scope Full) (Some ("cap", RtDemo.gate false PromptNo "weighted"))] in
  let w1 := (patch_settings_push narrow "cap" settings true w).1 in
  let w2 := (patch_settings_push (RtDemo.as_scope Full) "pii" settings true w1).1 in
  (exists w' r, put_hook narrow "pii" (Some (RtDemo.gate false PromptNo "nothing")) w = Some (w', r) /\ contained (app w) (app w')) /\
  (exists w' r, patch_settings_commit narrow 0 w2 = Some (w', Done 200 r) /\ contained (app w2) (app w')).
Proof.
  intros narrow settings w w1 w2. split.
  - destruct (put_hook narrow "pii" (Some (RtDemo.gate false PromptNo "nothing")) w) as [[w' r]|] eqn:E; [|vm_compute in E; discriminate E].
    exists w', r. split; [reflexivity|].
    apply (proj1 (narrow_token_is_contained narrow w w' r "pii" None (Some (RtDemo.gate false PromptNo "nothing")) ltac:(discriminate))).
    right. left. exact E.
  - destruct (patch_settings_commit narrow 0 w2) as [[w' [e|st r]]|] eqn:E; [vm_compute in E; discriminate E| |vm_compute in E; discriminate E].
    exists w', r. split; [vm_compute in E; injection E as <- <- <-; vm_compute; reflexivity|].
    destruct (pending w2 !! 0%nat) as [p|] eqn:Ep; [|vm_compute in Ep; discriminate Ep].
    apply (proj2 (proj2 (proj2 (narrow_token_is_contained narrow w w' (Done st r) "cap" None None ltac:(discriminate))
      settings true w1 None p ltac:(vm_compute; reflexivity)) ltac:(vm_compute in Ep; injection Ep as <-; vm_compute; reflexivity))
      1%nat w2 0%nat w' (Done st r)); [|unfold U64_MAX; lia|exact Ep|exact E].
    apply (moves_op 0 RtDemo.disk (OPushSettings (RtDemo.as_scope Full) "pii" settings true) w1 w2 w2); [reflexivity|constructor].
Defined.

Lemma overlay_writes_are_local_witness :
  let fs := fs (RtDemo.after RtDemo.ops) in
  exists doc', read (run_write true NoFault (WRoot RootSettings.default) fs) = Some doc' /\
    (forall s, s <> Root -> same_section s doc' (default OverlayDoc.fresh (read fs))) /\ OverlayDoc.root doc' = None.
Proof.
  cbn zeta. set (fs := fs (RtDemo.after RtDemo.ops)).
  pose proof (overlay_writes_are_local NoFault (WRoot RootSettings.default) fs) as Hw.
  destruct (read_state fs) as [|doc|] eqn:E; [vm_compute in E; discriminate E| |vm_compute in E; discriminate E].
  destruct Hw as (doc' & Hr & Hs & _). exists doc'. split; [exact Hr|]. split; [exact Hs|].
  vm_compute in Hr. injection Hr as <-. reflexivity.
Defined.

(** Started in safe mode on that overlay, one more registration replaces the quarantined hooks for good. *)
Example safe_mode_forgets_quarantined_hooks :
  let w := RtDemo.after [ORegisterHook (RtDemo.as_scope Full) (Some ("pii", RtDemo.gate true PromptRo "reject"))] in
  match boot (inr RtDemo.disk) true (fs w) with
  | Some (inr a) =>
      let safe := World.mk a [] [] (fs w) [] in
      match run RtDemo.disk [ORegisterHook (RtDemo.as_scope Full) (Some ("cap", RtDemo.gate false PromptNo "weighted"))] safe with
      | Some w' => match boot (inr RtDemo.disk) false (fs w') with
                   | Some (inr b) => hook_registry b !! "pii" = None /\ is_Some (hook_registry b !! "cap")
                   | _ => False
                   end
      | None => False
      end
  | _ => False
  end.
Proof. vm_compute. eauto. Qed.

(** The files with the global tap on another plugin setting, and with a second tap. *)
Definition edited_disk (refs : list HookModuleRef.t) : DiskConfig :=
  mk_disk (DeployCfg.mk "0.0.0.0:8080" None "127.0.0.1:8081" None false None ∅ ∅ ∅ (ModuleRef <$> refs)
    {["org" := GroupCfg.default]} None 0 None (AdvancedCfg.mk 256 100) None DeployDemo.plugins None DeployDemo.limits
    (MetricsCfg.mk 2000) (HealthDefaultsCfg.mk 30 5) (RoutingCfg.mk 1)) ∅ true.

(** Any hook mutation copies the file-owned hooks into the overlay, where the copy wins: a later edit of the
    file is ignored at boot, while the API keeps refusing to change the hook and points at the file. *)
Example edited_file_hook_is_ignored :
  let w := RtDemo.after [ORegisterHook (RtDemo.as_scope Full) (Some ("cap", RtDemo.gate false PromptNo "weighted"))] in
  let edited := edited_disk [HookModuleRef.mk "audit" [("sink", Str "s3")] None None None None None None None None] in
  match boot (inr edited) false (fs w) with
  | Some (inr a) => (HookCfg.settings <$> hook_registry a !! "audit") = Some [] /\ "audit" ∈ base_hook_names a
  | _ => False
  end.
Proof. vm_compute. split; [reflexivity|]. set_solver. Qed.

(** The tombstone of a hook deleted through the API suppresses one the file defines later under that name, and
    the API refuses to register it because the file owns the name. *)
Example tombstone_suppresses_file_hook :
  let w := RtDemo.after [ORegisterHook (RtDemo.as_scope Full) (Some ("cap", RtDemo.gate false PromptNo "weighted"));
                         ODeleteHook (RtDemo.as_scope Full) "cap"] in
  let edited := edited_disk [DeployDemo.ref "audit" None; DeployDemo.ref "cap" None] in
  match boot (inr edited) false (fs w) with
  | Some (inr a) =>
      hook_registry a !! "cap" = None /\
      (snd <$> register_hook (RtDemo.as_scope Full) (Some ("cap", RtDemo.gate false PromptNo "weighted")) (World.mk a [] [] (fs w) []))
        = Some (Failed (Conflict "base hook"))
  | _ => False
  end.
Proof. vm_compute. auto. Qed.

(** Where the files define a hook that was deleted through the API before: reset the hooks section, so the hook
    is served, then roll back to the version the process started with.  The running configuration is without
    the hook, but a rollback writes no tombstone, and the next boot serves it again. *)
Example rollback_past_tombstone_is_lost :
  let old := RtDemo.after [ORegisterHook (RtDemo.as_scope Full) (Some ("cap", RtDemo.gate false PromptNo "weighted"));
                           ODeleteHook (RtDemo.as_scope Full) "cap"] in
  let d := edited_disk [DeployDemo.ref "audit" None; DeployDemo.ref "cap" None] in
  let names a := ((btree (hook_registry a)).*1, Snapshot.global_hooks a) in
  match boot (inr d) false (fs old) with
  | Some (inr a) =>
      let start := World.mk a [mk_version 0 0 "system" "boot" (hook_registry a) (Snapshot.global_hooks a)] [] (fs old) [] in
      match run d [OReset (RtDemo.as_scope Full) "hooks"; ORollback (RtDemo.as_scope Full) (Some 0)] start with
      | Some w => names (app w) = (["audit"], ["audit"]) /\
                  match boot (inr d) false (fs w) with
                  | Some (inr b) => names b = (["audit"; "cap"], ["audit"; "cap"])
                  | _ => False
                  end
      | None => False
      end
  | _ => False
  end.
Proof. vm_compute. auto. Qed.

(** The version history survives a restart, so the same happens after a rollback to a version recorded before
    the files defined the hook. *)
Example rollback_to_older_files_is_lost :
  let d := edited_disk [DeployDemo.ref "audit" None; DeployDemo.ref "cap" None] in
  let old := mk_version 7 0 "system" "boot" (hook_registry (app RtDemo.start)) (Snapshot.global_hooks (app RtDemo.start)) in
  let names a := ((btree (hook_registry a)).*1, Snapshot.global_hooks a) in
  match boot (inr d) false (fs RtDemo.start) with
  | Some (inr a) =>
      match run d [ORollback (RtDemo.as_scope Full) (Some 7)] (World.mk a [old] [] (fs RtDemo.start) []) with
      | Some w => names (app w) = (["audit"], ["audit"]) /\
                  match boot (inr d) false (fs w) with
                  | Some (inr b) => names b = (["audit"; "cap"], ["audit"; "cap"])
                  | _ => False
                  end
      | None => False
      end
  | _ => False
  end.
Proof. vm_compute. auto. Qed.

(** Changing a root setting rebuilds without the version pins that boot and reload apply. *)
Example settings_drop_version_pins :
  let pin := ORollbackPlugin (RtDemo.as_scope Full) (Some "p-1.tar.gz") (inr ("p", "1.4.0")) NoFault in
  let fee := RootSettings.mk None None None None None None (Some 2) None None None None None None None None in
  let floor w := PluginsCfg.first_party_floor (plugins_cfg (app w)) in
  floor (RtDemo.after [pin]) = Some "1.4.0" /\
  floor (RtDemo.after [pin; OSettings (RtDemo.as_scope Full) (Some fee)]) = None /\
  floor (RtDemo.after [pin; OSettings (RtDemo.as_scope Full) (Some fee); OReload (RtDemo.as_scope Full)]) = Some "1.4.0".
Proof. vm_compute. auto. Qed.
